(* ===== verification/_CoqProject ===== *)
-Q . S2P
Prelude.v
Types.v
Bytecode.v
Mempool.v
Str.v
Tab.v
TabInv.v
TabSpec.v
TabFill.v
Intern.v
StrIntern.v
BcWrite.v
Util.v
UtilThm.v
Lex.v
LexThm.v
LexDec.v
LexFun.v
LexWit.v
Gen.v
Parse.v
Compile.v
GenCalm.v
ParseTerm.v
GenConst.v
BcRead.v
BcEnc.v
BcRound.v
BcSafe.v
BcWit.v
Load.v
Vm.v
VmThm.v
VmValid.v
VmWit.v
JumpThm.v
ArithGen.v
ArithRun.v
StrFmt.v
Hist.v
Lib.v
LibThm.v
LibPairs.v
LibWit.v
Transport.v
TransportThm.v
Events.v
EventsThm.v
KList.v
KListSort.v
KListInv.v
KListOps.v
KListIdx.v
KListThm.v
KListDup.v
KListWit.v
KListKeep.v
FileIo.v
Stg.v
StgFile.v
StgOrd.v
StgInv.v
StgList.v
StgStep.v
StgSpec.v
StgView.v
StgDir.v
StgEnt.v
StgNode.v
StgMap.v
StgThm.v
StgRefine.v
StgNext.v
StgFmt.v
StgWrite.v
StgRead.v
StgRound.v
