(* ===== verification/Prelude.v ===== *)
(** * A verification of ktap and of the storage of ovlfs

    ktap ([ktap-master]) is a tracing language for the Linux kernel: a compiler in
    user space turns a script into bytecode, a kernel module loads the bytecode and
    interprets it when a traced event happens.  The overlay file system ([ovlfs-2.0.1])
    keeps its inodes, directories and mappings in a storage module, which holds them in
    generic lists with sorted indexes and saves them in a file; these modules are
    modelled too.  The two programs do not call each other; they share [Prelude].
    The other programs of the repository are separate projects and are not part of
    this development.

    ** The program and its model

    - values and errors ([include/ktap_types.h], [runtime/kp_obj.c]): [Types].  A
      tagged value is a payload and a tag, a number a signed 64-bit word.
    - instructions ([include/ktap_bc.h]): [Bytecode].  32-bit words with fields.
    - lexer ([userspace/kp_lex.c]) over the helpers of the compiler
      ([userspace/kp_util.c]: character classes, interned strings, constant tables,
      glob patterns): [Lex] and [Util].  Operations are functions of [lexstate] that
      are undefined, end with an error, or return a token; [Lex.kp_err_lex] is the
      report of an error, into its block of 128 bytes.
    - parser and code generator ([userspace/kp_parse.c]): [Gen] holds expression
      descriptors, constants, jump lists, registers, instruction emission and
      operators; [Parse] variables, scopes, gotos, prototypes, expressions and
      statements, one definition per C function.  The state [pstate] is the
      [LexState] with its stack of [FuncState]s and the objects the compiler
      allocated.  [Compile] is [parse] and [compile] of [userspace/kp_main.c], which
      exit with a report or end with a dump.
    - bytecode writer ([userspace/kp_bcwrite.c]) and reader
      ([runtime/kp_bcread.c]): [BcWrite] and [BcRead].
    - memory pool, strings and tables of the VM ([runtime/kp_mempool.c],
      [kp_str.c], [kp_tab.c]): [Mempool], [Str], [Tab].  Strings live in a byte
      memory; tables are vectors of nodes chained by index.  [Intern] is the
      interface (a class with its laws) through which the reader and the
      interpreter use strings; [StrIntern] shows that [Str] implements it.
    - interpreter ([runtime/kp_vm.c]): [Vm].  One branch of [exec] per opcode,
      [dispatch] for one round of the loop, [run] for the loop; frames, upvalues,
      closures, validation and registration of library functions.
    - libraries ([runtime/lib_base.c], [lib_table.c], [lib_ansi.c], [lib_net.c]):
      [Lib], functions of the VM state that may return early.  The [printf] of the
      language ([kp_str_fmt]) is [StrFmt], histograms ([kp_tab_print_hist]) are
      [Hist].
    - events and timers ([runtime/kp_events.c], [lib_timer.c], [lib_kdebug.c]):
      [Events].  Callbacks with the recursion contexts they run in, fields and
      arguments of events, creation and release.
    - transport ([runtime/kp_transport.c]): [Transport].  Entries are written into
      the queue of a CPU, where the ring buffer of the kernel may overwrite unread
      ones; a read merges the queues and hands out pages in pieces.
    - lists of ovlfs ([lists/kernel_lists.c]): [KList].  A list is a chain of nodes in a
      memory of nodes, a primary index (none, flat or sorted), alternate indexes with an
      order and a state each, and a semaphore.  A function on one list is a function of
      the memory and its structure; the functions other modules call find the list,
      take its lock and may fault or block.
    - storage of ovlfs in memory ([fs/ovl_stg.c], [include/ovl_stg.h], [ovl_fs.h],
      [ovl_inlines.h]): [Stg].  Objects (inodes, directory entries, mappings) are at
      addresses, the lists of [KList] hold addresses, and the functions they are sorted
      by read the objects; a call into the list module is made with the meaning these
      functions have in the memory of the call.  One definition per operation of the
      table of storage operations, on a state that may fault.
    - the storage file ([fs/ovl_stg.c], FILE I/O) and the table of open files
      ([file_io/file_io.c]): [StgFile] and [FileIo].  What the kernel does for an open
      file is a class ([FileIo.file_operations]) with the laws of regular files.

    A C function that may run into undefined behaviour is an option ([None] is
    undefined behaviour: reading outside an array, a trapping division, signed
    overflow in the compiler, a shift by the width), one that may fail returns the
    error the code reports.  Machine integers are [Z] with their wrap-around
    written out ([wrap], [swrap]).

    ** What is proved

    - Compiler.  The scanner is total, scans every source to its end or to an
      error, whose report is printed when it is short enough, and returns the right
      token for names, numbers and strings ([LexThm], [LexFun]).  The recursive
      descent of the parser terminates ([ParseTerm], on [LexDec]: how much input an
      operation takes, and [GenCalm]: what never uses fuel).  Constant slots denote
      their constants in the finished prototype ([GenConst]).  Jump lists behave as
      lists, and resolving makes every jump go to its target or is reported
      ([JumpThm]).  Compiled arithmetic, run by the interpreter, computes the value
      of the expression ([ArithGen], [ArithRun]).
    - Dump.  Writing and reading back is the identity on programs that the stack of
      the VM, 120 slots, is large enough for ([BcEnc], [BcRound]), the writer stays
      inside its buffer for small prototypes, the layout of loaded prototypes is safe
      when its sizes do not overflow ([BcSafe]), and the composition with the
      real string table, pool and tables loads what was written ([Load]).
    - Runtime.  Interning is canonical and safe, string order is lexicographic
      ([Str]); tables refine finite maps, with traversal, duplication and increment
      ([TabInv], [TabSpec], [TabFill]); upvalues keep their values, calls and returns
      are bracketed, loops are bounded, code that is validated has no refused
      opcode, in the functions it creates neither ([VmThm], [VmValid]).
    - Libraries.  Every library function keeps to the contract the interpreter
      relies on ([LibThm]); a loop over [pairs] visits every entry once ([LibPairs]);
      formatting is safe and prints what it should ([StrFmt]), a histogram shows the
      largest entries ([Hist]).
    - Events and output.  Callbacks never share a VM state, events are released,
      arguments are the fields of the record ([EventsThm]); the pipe delivers every
      entry that was not overwritten and fits a page once and in order, the oldest
      first ([TransportThm]).
    - Lists.  Selection sort sorts, binary search ends and finds, insertions keep order
      ([KListSort]); the invariant of a list and the steps that keep it ([KListInv],
      [KListOps], [KListIdx]); fifteen operations, called as [KListThm.lop_pre] says,
      implement the operations on a plain sequence, alternate indexes read as sorted sequences ([KListThm]); a copy holds the
      same elements, clearing and merging of lists that lock themselves block
      ([KListDup]); runs that fault ([KListWit]); what an operation keeps of the
      functions and modes of a list ([KListKeep]).
    - Storage.  The comparisons are orders on numbers in range ([StgOrd]); the lists are
      right in the memory they are used in and stay so ([StgInv], [StgList], [StgStep]);
      the operations on entries, inodes and mappings and what they leave ([StgDir],
      [StgEnt], [StgNode], [StgMap]).  Sequences of storage operations within
      [StgRefine.sop_ok] implement the maps of [StgSpec] ([StgView], [StgThm],
      [StgRefine]); reading a directory
      visits every entry once, in the order of positions ([StgNext]).
    - Storage file.  The format of the file is the function [StgFmt.image]; the writer
      leaves a file of the format ([StgWrite]), each reader takes the bytes of what it
      reads and leaves the rest ([StgRead]), and a storage that is written and read again
      is what [StgRead.saved] says: all of it, but for what the options of the mounts
      leave out ([StgRound]).
    - [LexWit], [BcWit], [VmWit], [LibWit], [KListWit] and the ends of the other files apply the theorems
      to concrete inputs.

    ** Bounds and fuel

    Loops that are not structural have fuel.  Walks along jump lists have as many steps
    as there are instructions: a walk that takes more visits an instruction twice and
    never ends, which is the outcome [Gen.PLoop]; the theorems of [JumpThm] show that
    it does not happen on the lists they are about, the theorem on the descent leaves
    it open.  Walks along the chains of tables have as many steps as there are nodes,
    and the invariant of tables shows that they are enough.  The loops of the scanner have the length
    of the input.  The descent of the parser has the length of the source plus
    three; it is used up never ([ParseTerm.descent_terminates]), since every level
    and every round takes a token.  The theorems on constants need room in the
    vector of 1024 nodes a constant table starts with: the code that doubles it
    overwrites entries ([UtilThm]).  Lists of ovlfs are bounded by 2^28 elements, so that
    the size of an index in bytes is an [int]; their searches have one step per cell, their
    walks one per node.  The theorems on the storage of ovlfs hold for fewer than 2^28
    objects of each kind and while memory is granted; inode numbers of the other file
    systems are below 2^31, since above that the comparison of mappings is no order
    ([StgOrd.comp_ino_map_cycle]).  For the storage file the numbers are in the range of
    their fields in the file, there are fewer than 2^28 mappings of each kind (the size of
    the mappings is an unsigned int), the attributes of an inode are valid exactly when it
    has a mode (otherwise what is written is not what is read), and the file has room for
    [StgFmt.file_size] bytes.

    ** Parameters

    The ring buffer of the kernel: whether a write gets its place and which unread
    entries it overwrites ([Transport.place]).  The addresses of [malloc], the outcome of allocations, the parser of event
    definitions ([kp_parse_events], which reads files of the running system), the
    contents of uninitialised memory, and the kernel: what it prints, reads and
    knows of the traced task ([Lib.kernel]), its perf, kprobe and timer interfaces
    ([Events.tracing]), its sequence buffers ([StrFmt.seqops]), sorting and symbols.
    The laws assumed of them are named definitions.  Comparison functions of lists are
    parameters, the law is that they are total preorders ([KListSort.comp_order]).  The
    laws of an open file are those of a regular file with room ([FileIo.regular_file]); a
    file in memory fulfils them ([FileIo.memfile_regular]).

    ** Not modelled

    Locks of ktap (an operation is one step), the kernel plumbing of the VM (start-up,
    per-CPU allocation, waiting, debugfs files), option handling and files of the
    driver, the textual dumps, the foreign function interface, freeing of memory in
    ktap; in the lists of ovlfs, [insert_many], which nothing calls and whose nodes
    cannot be released one by one, and the choice of a function to free memory; in the
    storage of ovlfs, mounting (options, the inode of the storage file), releasing a
    whole file system, statfs, and the address limit that set_fs changes.
    Writes into the ring buffer during a read are not modelled either.
    ktap is taken to be built little-endian, for 64 bits and without assertions; ovlfs,
    an older program, little-endian and for 32 bits: its pointers and longs have four
    bytes ([KList.sizeof_ptr], [StgFile.sizeof_long]).

    ** Plan

    Next: boolean and comparison expressions, assignments and the merging of nil
    stores against the interpreter; the scopes of variables; registration of the
    libraries by name. *)

From Stdlib Require Export ZArith Lia.
From stdpp Require Export base gmap list list_numbers strings option.
#[global] Open Scope Z_scope.

(** ** Machine integers *)

Declare Scope word_scope.
Delimit Scope word_scope with word.

(** Truncation to an unsigned width, as the C conversions do it. *)
Definition wrap (w z : Z) : Z := z mod 2 ^ w.
Abbreviation u8 := (wrap 8).
Abbreviation u16 := (wrap 16).
Abbreviation u32 := (wrap 32).
Abbreviation u64 := (wrap 64).

(** Conversion to a signed width (two's complement). *)
Definition swrap (w z : Z) : Z := (z + 2 ^ (w - 1)) mod 2 ^ w - 2 ^ (w - 1).
Abbreviation s32 := (swrap 32).
Abbreviation s64 := (swrap 64).

Notation "x ⊕ y" := (Z.lxor x y) (at level 50, left associativity) : word_scope.
Notation "x .& y" := (Z.land x y) (at level 40, left associativity) : word_scope.
Notation "x .| y" := (Z.lor x y) (at level 50, left associativity) : word_scope.

(** [in_u w z]: [z] is a value of the unsigned [w]-bit type. *)
Definition in_u (w z : Z) : Prop := 0 <= z < 2 ^ w.
Definition in_s (w z : Z) : Prop := - 2 ^ (w - 1) <= z < 2 ^ (w - 1).

Create HintDb ktap.
Create Rewrite HintDb ktap.

Lemma pow2_pos w : 0 <= w -> 0 < 2 ^ w.
Proof. intros; apply Z.pow_pos_nonneg; lia. Qed.

Lemma wrap_range w z : 0 <= w -> in_u w (wrap w z).
Proof. intros; apply Z.mod_pos_bound, pow2_pos; lia. Qed.

Lemma wrap_id w z : in_u w z -> wrap w z = z.
Proof. apply Z.mod_small. Qed.

Lemma wrap_idemp w z : 0 <= w -> wrap w (wrap w z) = wrap w z.
Proof. intros; apply wrap_id, wrap_range; lia. Qed.

Lemma swrap_range w z : 0 < w -> in_s w (swrap w z).
Proof.
  intros Hw. unfold swrap, in_s.
  pose proof (Z.mod_pos_bound (z + 2 ^ (w - 1)) (2 ^ w) (pow2_pos w ltac:(lia))).
  assert (2 ^ w = 2 * 2 ^ (w - 1)).
  { replace w with (Z.succ (w - 1)) at 1 by lia. apply Z.pow_succ_r; lia. }
  lia.
Qed.

Lemma swrap_id w z : 0 < w -> in_s w z -> swrap w z = z.
Proof.
  intros Hw Hz. unfold swrap, in_s in *.
  assert (2 ^ w = 2 * 2 ^ (w - 1)).
  { replace w with (Z.succ (w - 1)) at 1 by lia. apply Z.pow_succ_r; lia. }
  rewrite Z.mod_small; lia.
Qed.

Lemma wrap_swrap w z : 0 < w -> wrap w (swrap w z) = wrap w z.
Proof.
  intros Hw. unfold wrap, swrap.
  rewrite Zminus_mod_idemp_l. f_equal. lia.
Qed.

(** ** Bytes in little-endian order (the build target has [KP_LE] set) *)

Fixpoint le_bytes (n : nat) (z : Z) : list Z :=
  match n with
  | O => []
  | S n' => z mod 256 :: le_bytes n' (z / 256)
  end.

Fixpoint le_val (bs : list Z) : Z :=
  match bs with
  | [] => 0
  | b :: bs' => b + 256 * le_val bs'
  end.

Definition is_byte (b : Z) : Prop := 0 <= b < 256.
Abbreviation bytes := (list Z).

(** The bytes of a string literal. *)
Definition byte_string (s : string) : bytes := (λ a, Z.of_N (Ascii.N_of_ascii a)) <$> String.list_ascii_of_string s.
(** The string of some bytes. *)
Definition string_bytes (bs : bytes) : string := String.string_of_list_ascii ((λ b, Ascii.ascii_of_N (Z.to_N b)) <$> bs).

(** Numbers in decimal and hexadecimal, and padding to a width, as [printf] does. *)
Fixpoint digits (fuel : nat) (n : Z) (acc : bytes) : bytes :=
  match fuel with
  | O => acc
  | S f => if n <? 10 then 48 + n :: acc else digits f (n / 10) (48 + n mod 10 :: acc)
  end.
Definition print_d (n : Z) : bytes :=
  if n <? 0 then 45 :: digits 20 (- n) [] else digits 20 n [].
Definition xdigit (d : Z) : Z := if d <? 10 then 48 + d else 87 + d.
Fixpoint xdigits (fuel : nat) (n : Z) (acc : bytes) : bytes :=
  match fuel with
  | O => acc
  | S f => if n <? 16 then xdigit n :: acc else xdigits f (n / 16) (xdigit (n mod 16) :: acc)
  end.
Definition print_x (n : Z) : bytes := xdigits 16 n [].
Definition pad_left (w : nat) (c : Z) (bs : bytes) : bytes := replicate (w - length bs) c ++ bs.
Definition pad_right (w : nat) (bs : bytes) : bytes := bs ++ replicate (w - length bs) 32.

Lemma length_le_bytes n z : length (le_bytes n z) = n.
Proof. revert z; induction n; simpl; auto. Qed.

Lemma le_bytes_is_byte n z : Forall is_byte (le_bytes n z).
Proof.
  revert z; induction n; simpl; constructor; auto.
  apply Z.mod_pos_bound; lia.
Qed.

Lemma le_val_le_bytes n z : le_val (le_bytes n z) = z mod 256 ^ Z.of_nat n.
Proof.
  revert z; induction n as [|n IH]; intros z; cbn [le_bytes le_val].
  - symmetry. apply Z.mod_1_r.
  - rewrite IH, Nat2Z.inj_succ, Z.pow_succ_r by lia.
    rewrite Z.rem_mul_r; lia.
Qed.

Lemma le_bytes_le_val bs : Forall is_byte bs -> le_bytes (length bs) (le_val bs) = bs.
Proof.
  induction 1 as [|b bs Hb _ IH]; cbn [le_bytes le_val length]; [done|].
  unfold is_byte in Hb.
  f_equal.
  - rewrite Z.mul_comm, Z.mod_add, Z.mod_small; lia.
  - rewrite Z.mul_comm, Z.div_add, Z.div_small by lia. simpl. done.
Qed.

Lemma le_val_range bs : Forall is_byte bs -> 0 <= le_val bs < 256 ^ Z.of_nat (length bs).
Proof.
  intros H. rewrite <- (le_bytes_le_val bs H) at 1 2.
  rewrite le_val_le_bytes. apply Z.mod_pos_bound, Z.pow_pos_nonneg; lia.
Qed.

Lemma le_val_inj bs1 bs2 :
  length bs1 = length bs2 -> Forall is_byte bs1 -> Forall is_byte bs2 ->
  le_val bs1 = le_val bs2 -> bs1 = bs2.
Proof.
  intros Hl H1 H2 E. rewrite <- (le_bytes_le_val _ H1), <- (le_bytes_le_val _ H2). congruence.
Qed.

Lemma le_val_take k bs :
  Forall is_byte bs -> (k <= length bs)%nat ->
  le_val (take k bs) = le_val bs mod 256 ^ Z.of_nat k.
Proof.
  revert k. induction bs as [|b bs IH]; intros [|k] HF Hk; cbn [take le_val]; try (simpl in Hk; lia).
  - by rewrite Z.mod_1_r.
  - by rewrite Z.mod_1_r.
  - apply list.Forall_cons in HF as [Hb HF]. unfold is_byte in Hb.
    rewrite IH by (done || simpl in Hk; lia).
    rewrite Nat2Z.inj_succ, Z.pow_succ_r, Z.rem_mul_r by lia.
    rewrite (Z.mul_comm 256 (le_val bs)), Z.mod_add, Z.div_add by lia.
    by rewrite (Z.mod_small b), (Z.div_small b).
Qed.

(** ** Undefined behaviour

    [option A] as the result of an operation reads [None] as behaviour the C
    program leaves undefined: a read or write outside an object, an oversized
    shift, a division by zero, a jump through an uninitialised pointer. *)

Abbreviation ub := None (only parsing).
Definition defined {A} (o : option A) : Prop := is_Some o.

#[export] Hint Resolve wrap_range swrap_range le_bytes_is_byte : ktap.
#[export] Hint Rewrite length_le_bytes le_val_le_bytes : ktap.

(** ** Tactics *)

(** Split every [match] scrutinee and conjunction in sight, then try to close. *)
Ltac case_all :=
  repeat match goal with
  | |- context [match ?x with _ => _ end] => destruct x eqn:?
  | H : context [match ?x with _ => _ end] |- _ => destruct x eqn:?
  end; simplify_eq/=.

(** Turn the boolean comparisons of the code into propositions. *)
Ltac bool_to_Prop :=
  repeat match goal with
  | H : (_ && _)%bool = true |- _ => apply andb_true_iff in H as [? ?]
  | H : (_ || _)%bool = false |- _ => apply orb_false_iff in H as [? ?]
  | H : negb _ = true |- _ => apply negb_true_iff in H
  | H : negb _ = false |- _ => apply negb_false_iff in H
  | H : (_ =? _)%Z = true |- _ => apply Z.eqb_eq in H
  | H : (_ =? _)%Z = false |- _ => apply Z.eqb_neq in H
  | H : (_ <? _)%Z = true |- _ => apply Z.ltb_lt in H
  | H : (_ <? _)%Z = false |- _ => apply Z.ltb_ge in H
  | H : (_ <=? _)%Z = true |- _ => apply Z.leb_le in H
  | H : (_ <=? _)%Z = false |- _ => apply Z.leb_gt in H
  end.
