(* ===== verification/Types.v ===== *)
(** * Types: tagged values and the error state of a ktap VM

    [ktap_val_t] of [include/ktap_types.h] with its tests and setters, equality
    of values ([runtime/kp_obj.c]), and the part of the global state an error
    changes ([kp_error] of [runtime/ktap.h]).

    A value is the pair of the two unions of the C struct: the payload [val]
    (a 64-bit word read as a signed [long]; object references are addresses)
    and the type tag [type] (a 32-bit word).  The setters that only write the
    tag leave the payload as it was, as in C. *)

From S2P Require Import Prelude.
#[local] Open Scope word_scope.

(** ** Limits *)

Definition KP_MAX_MEMPOOL_SIZE : Z := 10000.
Definition KP_MAX_STR : Z := 512.
Definition KP_MAX_STRNUM : Z := 9999.
Definition KP_MAX_HBITS : Z := 26.
Definition KP_MAX_ABITS : Z := 28.
Definition KP_MAX_ASIZE : Z := 1 ≪ (KP_MAX_ABITS - 1) + 1.
Definition KP_MAX_LINE : Z := 1000.
Definition KP_MAX_SLOTS : Z := 250.
Definition KP_MAX_CACHED_CFUNCTION : Z := 128.

(** ** Type tags: [~k] on [unsigned int] *)

Definition tag (k : Z) : Z := u32 (Z.lnot k).
Definition KTAP_TNIL : Z := Eval compute in tag 0.
Definition KTAP_TFALSE : Z := Eval compute in tag 1.
Definition KTAP_TTRUE : Z := Eval compute in tag 2.
Definition KTAP_TNUM : Z := Eval compute in tag 3.
Definition KTAP_TLIGHTUD : Z := Eval compute in tag 4.
Definition KTAP_TSTR : Z := Eval compute in tag 5.
Definition KTAP_TUPVAL : Z := Eval compute in tag 6.
Definition KTAP_TTHREAD : Z := Eval compute in tag 7.
Definition KTAP_TPROTO : Z := Eval compute in tag 8.
Definition KTAP_TFUNC : Z := Eval compute in tag 9.
Definition KTAP_TCFUNC : Z := Eval compute in tag 10.
Definition KTAP_TCDATA : Z := Eval compute in tag 11.
Definition KTAP_TTAB : Z := Eval compute in tag 12.
Definition KTAP_TUDATA : Z := Eval compute in tag 13.
Definition KTAP_TEVENTSTR : Z := Eval compute in tag 14.
Definition KTAP_TKSTACK : Z := Eval compute in tag 15.
Definition KTAP_TKIP : Z := Eval compute in tag 16.
Definition KTAP_TUIP : Z := Eval compute in tag 17.

(** ** Values *)

Record ktap_val := mkval { val : Z; type : Z }.

#[export] Instance ktap_val_eq_dec : EqDecision ktap_val.
Proof. solve_decision. Defined.
#[export] Instance ktap_val_inhabited : Inhabited ktap_val := populate (mkval 0 KTAP_TNIL).

(** Flags of an upvalue reference of a prototype. *)
Definition PROTO_UV_LOCAL : Z := 0x8000.
Definition PROTO_UV_IMMUTABLE : Z := 0x4000.

Definition itype (o : ktap_val) : Z := type o.
Definition nvalue (o : ktap_val) : Z := val o.
Definition gcvalue (o : ktap_val) : Z := val o.
Definition boolvalue (o : ktap_val) : Z := u32 (KTAP_TFALSE - type o).

Definition is_nil (o : ktap_val) : bool := itype o =? KTAP_TNIL.
Definition is_false (o : ktap_val) : bool := itype o =? KTAP_TFALSE.
Definition is_true (o : ktap_val) : bool := itype o =? KTAP_TTRUE.
Definition is_bool (o : ktap_val) : bool := is_false o || is_true o.
Definition is_string (o : ktap_val) : bool := itype o =? KTAP_TSTR.
Definition is_number (o : ktap_val) : bool := itype o =? KTAP_TNUM.
Definition is_table (o : ktap_val) : bool := itype o =? KTAP_TTAB.
Definition is_proto (o : ktap_val) : bool := itype o =? KTAP_TPROTO.
Definition is_function (o : ktap_val) : bool := itype o =? KTAP_TFUNC.
Definition is_cfunc (o : ktap_val) : bool := itype o =? KTAP_TCFUNC.
Definition is_eventstr (o : ktap_val) : bool := itype o =? KTAP_TEVENTSTR.
Definition is_kip (o : ktap_val) : bool := itype o =? KTAP_TKIP.

Definition setitype (o : ktap_val) (t : Z) : ktap_val := mkval (val o) t.
Definition set_nil (o : ktap_val) : ktap_val := setitype o KTAP_TNIL.
Definition set_bool (o : ktap_val) (x : Z) : ktap_val := setitype o (u32 (KTAP_TFALSE - u32 x)).
Definition set_number (n : Z) : ktap_val := mkval (s64 n) KTAP_TNUM.
Definition set_string (str : Z) : ktap_val := mkval str KTAP_TSTR.
Definition set_table (tab : Z) : ktap_val := mkval tab KTAP_TTAB.
Definition set_proto (pt : Z) : ktap_val := mkval pt KTAP_TPROTO.
Definition set_func (fn : Z) : ktap_val := mkval fn KTAP_TFUNC.
Definition set_cfunc (fn : Z) : ktap_val := mkval fn KTAP_TCFUNC.
Definition set_eventstr (o : ktap_val) : ktap_val := setitype o KTAP_TEVENTSTR.
Definition set_ip (addr : Z) : ktap_val := mkval (s64 addr) KTAP_TKIP.

(** The two half-words overlay the low half of the payload. *)
Definition set_kstack (o : ktap_val) (depth skip : Z) : ktap_val :=
  mkval (s64 ((u64 (val o) ≫ 32) ≪ 32 .| (u16 skip ≪ 16 .| u16 depth))) KTAP_TKSTACK.
Definition stack_depth (o : ktap_val) : Z := u16 (val o).
Definition stack_skip (o : ktap_val) : Z := u16 (u64 (val o) ≫ 16).

Definition kp_niltv : ktap_val := mkval 0 KTAP_TNIL.

(** ** Equality of values

    [pvalue] is the address of the payload field and not the payload, so two
    light userdata are equal only when they are the same slot: [same] says
    whether the two operands are one and the same object. *)
Definition kp_obj_rawequal (same : bool) (t1 t2 : ktap_val) : bool :=
  let t := itype t1 in
  if (t =? KTAP_TNIL) || (t =? KTAP_TTRUE) || (t =? KTAP_TFALSE) then true
  else if t =? KTAP_TNUM then nvalue t1 =? nvalue t2
  else if t =? KTAP_TLIGHTUD then same
  else if t =? KTAP_TFUNC then val t1 =? val t2
  else if t =? KTAP_TSTR then val t1 =? val t2
  else if t =? KTAP_TTAB then val t1 =? val t2
  else gcvalue t1 =? gcvalue t2.

Definition kp_obj_equal (same : bool) (o1 o2 : ktap_val) : bool :=
  (type o1 =? type o2) && kp_obj_rawequal same o1 o2.

(** ** The state an error changes *)

Definition KTAP_RUNNING : Z := 0.
Definition KTAP_TRACE_END : Z := 1.
Definition KTAP_EXIT : Z := 2.
Definition KTAP_ERROR : Z := 3.

Record kerr := mkerr {
  k_state : Z;              (* G(ks)->state *)
  k_stop : Z;               (* G(ks)->mainthread->stop *)
  k_out : list string       (* format strings printed, oldest first *)
}.

Definition kp_printf (msg : string) (k : kerr) : kerr :=
  mkerr (k_state k) (k_stop k) (k_out k ++ [msg]).

Definition kp_vm_try_to_exit (k : kerr) : kerr := mkerr KTAP_EXIT 1 (k_out k).

Definition kp_error (msg : string) (k : kerr) : kerr :=
  let k := kp_printf ("error: " +:+ msg) k in
  let k := kp_vm_try_to_exit k in
  mkerr KTAP_ERROR (k_stop k) (k_out k).

Definition kerr0 : kerr := mkerr KTAP_RUNNING 0 [].

(** ** Well-formed values *)

(** Tags are 32-bit words, payloads signed 64-bit words. *)
Definition val_wf (o : ktap_val) : Prop := in_s 64 (val o) /\ in_u 32 (type o).

(** The identity of a value as a table key: booleans are their tag, everything
    else is its tag and payload. *)
Inductive keyid : Set := KPrim (t : Z) | KObj (t p : Z).

#[export] Instance keyid_eq_dec : EqDecision keyid.
Proof. solve_decision. Defined.
#[export] Instance keyid_countable : Countable keyid.
Proof.
  apply (inj_countable' (λ k, match k with KPrim t => inl t | KObj t p => inr (t, p) end)
    (λ s, match s with inl t => KPrim t | inr (t, p) => KObj t p end)).
  by intros [].
Defined.

Definition keyid_of (o : ktap_val) : keyid :=
  if is_nil o || is_bool o then KPrim (type o) else KObj (type o) (val o).

Lemma kp_obj_equal_keyid o1 o2 :
  type o1 <> KTAP_TLIGHTUD ->
  kp_obj_equal false o1 o2 = true <-> keyid_of o1 = keyid_of o2.
Proof.
  unfold kp_obj_equal, kp_obj_rawequal, keyid_of, is_nil, is_bool, is_true, is_false,
    itype, nvalue, gcvalue.
  destruct o1 as [v1 t1], o2 as [v2 t2]; simpl. intros Hl.
  destruct (Z.eqb_spec t1 t2) as [<-|Hne]; simpl.
  - destruct (t1 =? KTAP_TNIL), (t1 =? KTAP_TFALSE), (t1 =? KTAP_TTRUE); simpl;
      try (split; congruence).
    destruct (Z.eqb_spec t1 KTAP_TLIGHTUD); [done|].
    repeat case_match; rewrite Z.eqb_eq; split; congruence.
  - split; [done|]. repeat case_match; congruence.
Qed.

Lemma kp_obj_equal_lightud o1 o2 :
  type o1 = KTAP_TLIGHTUD -> kp_obj_equal false o1 o2 = false.
Proof. intros H. unfold kp_obj_equal, kp_obj_rawequal, itype. rewrite H. apply andb_false_r. Qed.

Lemma is_nil_spec o : is_nil o = true <-> type o = KTAP_TNIL.
Proof. apply Z.eqb_eq. Qed.

Lemma is_nil_set_nil o : is_nil (set_nil o) = true.
Proof. reflexivity. Qed.

#[export] Hint Rewrite is_nil_set_nil : ktap.

(** The number of values the stack of a state has room for. *)
Definition KTAP_STACK_SIZE : Z := 120.
