(* ===== verification/Bytecode.v ===== *)
(** * Bytecode: the instruction format of [include/ktap_bc.h]

    The 32-bit instruction word and the macros that compose it, read its fields
    and overwrite them in place, the opcode enumeration with its mode table, and
    the constants of the dump format.  The theorems show that the fields are
    disjoint (what is composed is read back, what is stored does not disturb the
    other fields), that every word is the composition of its own fields, that
    jumps are unbiased correctly, and that the mode table packs and unpacks. *)

From S2P Require Import Prelude.
#[local] Open Scope word_scope.

(** ** Operand ranges *)

Definition BCMAX_A : Z := 0xff.
Definition BCMAX_B : Z := 0xff.
Definition BCMAX_C : Z := 0xff.
Definition BCMAX_D : Z := 0xffff.
Definition BCBIAS_J : Z := 0x8000.
Definition NO_REG : Z := BCMAX_A.
Definition NO_JMP : Z := u32 (Z.lnot 0).

(** ** Reading a field *)

Definition bc_op (i : Z) : Z := i .& 0xff.
Definition bc_a (i : Z) : Z := (i ≫ 8) .& 0xff.
Definition bc_b (i : Z) : Z := i ≫ 24.
Definition bc_c (i : Z) : Z := (i ≫ 16) .& 0xff.
Definition bc_d (i : Z) : Z := i ≫ 16.
Definition bc_j (i : Z) : Z := bc_d i - BCBIAS_J.

(** ** Overwriting a field in place: a store of one byte, or of one half-word,
    into the little-endian word. *)

Definition setbc_byte (p x : Z) (ofs : nat) : Z :=
  le_val (<[ofs := u8 x]> (le_bytes 4 p)).
Definition setbc_op (p x : Z) : Z := setbc_byte p x 0.
Definition setbc_a (p x : Z) : Z := setbc_byte p x 1.
Definition setbc_b (p x : Z) : Z := setbc_byte p x 3.
Definition setbc_c (p x : Z) : Z := setbc_byte p x 2.
Definition setbc_d (p x : Z) : Z :=
  le_val (take 2 (le_bytes 4 p) ++ le_bytes 2 (u16 x)).
Definition setbc_j (p x : Z) : Z := setbc_d p (u32 (s32 x + BCBIAS_J)).

(** ** Composing an instruction *)

Definition BCINS_ABC (o a b c : Z) : Z :=
  u32 o .| u32 (u32 a ≪ 8) .| u32 (u32 b ≪ 24) .| u32 (u32 c ≪ 16).
Definition BCINS_AD (o a d : Z) : Z :=
  u32 o .| u32 (u32 a ≪ 8) .| u32 (u32 d ≪ 16).
Definition BCINS_AJ (o a j : Z) : Z := BCINS_AD o a (u32 (s32 j + BCBIAS_J)).

(** ** Operand modes and metamethods *)

Inductive BCMode : Set :=
  | BCMnone | BCMdst | BCMbase | BCMvar | BCMrbase | BCMuv
  | BCMlit | BCMlits | BCMpri | BCMnum | BCMstr | BCMtab | BCMfunc
  | BCMjump | BCMcdata.

Definition bcmode_code (m : BCMode) : Z :=
  match m with
  | BCMnone => 0 | BCMdst => 1 | BCMbase => 2 | BCMvar => 3 | BCMrbase => 4
  | BCMuv => 5 | BCMlit => 6 | BCMlits => 7 | BCMpri => 8 | BCMnum => 9
  | BCMstr => 10 | BCMtab => 11 | BCMfunc => 12 | BCMjump => 13 | BCMcdata => 14
  end.

Inductive MMS : Set :=
  | MM_lt | MM_le | MM_eq | MM_unm | MM_add | MM_sub | MM_mul | MM_div | MM_mod
  | MM_pow | MM_concat | MM_gc | MM_index | MM_newindex | MM_call | MM____.

Definition mms_code (m : MMS) : Z :=
  match m with
  | MM_lt => 0 | MM_le => 1 | MM_eq => 2 | MM_unm => 3 | MM_add => 4 | MM_sub => 5
  | MM_mul => 6 | MM_div => 7 | MM_mod => 8 | MM_pow => 9 | MM_concat => 10
  | MM_gc => 11 | MM_index => 12 | MM_newindex => 13 | MM_call => 14 | MM____ => 15
  end.

(** ** Opcodes *)

Inductive BCOp : Set :=
 | BC_ISLT | BC_ISGE | BC_ISLE | BC_ISGT | BC_ISEQV | BC_ISNEV | BC_ISEQS
  | BC_ISNES | BC_ISEQN | BC_ISNEN | BC_ISEQP | BC_ISNEP | BC_ISTC | BC_ISFC
  | BC_IST | BC_ISF | BC_ISTYPE | BC_ISNUM | BC_MOV | BC_NOT | BC_UNM
  | BC_ADDVN | BC_SUBVN | BC_MULVN | BC_DIVVN | BC_MODVN | BC_ADDNV | BC_SUBNV
  | BC_MULNV | BC_DIVNV | BC_MODNV | BC_ADDVV | BC_SUBVV | BC_MULVV | BC_DIVVV
  | BC_MODVV | BC_POW | BC_CAT | BC_KSTR | BC_KCDATA | BC_KSHORT | BC_KNUM
  | BC_KPRI | BC_KNIL | BC_UGET | BC_USETV | BC_UINCV | BC_USETS | BC_USETN
  | BC_UINCN | BC_USETP | BC_UCLO | BC_FNEW | BC_TNEW | BC_TDUP | BC_GGET
  | BC_GSET | BC_GINC | BC_TGETV | BC_TGETS | BC_TGETB | BC_TGETR | BC_TSETV
  | BC_TINCV | BC_TSETS | BC_TINCS | BC_TSETB | BC_TINCB | BC_TSETM | BC_TSETR
  | BC_CALLM | BC_CALL | BC_CALLMT | BC_CALLT | BC_ITERC | BC_ITERN | BC_VARG
  | BC_ISNEXT | BC_RETM | BC_RET | BC_RET0 | BC_RET1 | BC_FORI | BC_JFORI
  | BC_FORL | BC_IFORL | BC_JFORL | BC_ITERL | BC_IITERL | BC_JITERL | BC_LOOP
  | BC_ILOOP | BC_JLOOP | BC_JMP | BC_FUNCF | BC_IFUNCF | BC_JFUNCF | BC_FUNCV
  | BC_IFUNCV | BC_JFUNCV | BC_FUNCC | BC_FUNCCW | BC_VARGN | BC_VARGSTR
  | BC_VPROBENAME | BC_VPID | BC_VTID | BC_VUID | BC_VCPU | BC_VEXECNAME
  | BC_GFUNC.

(** [BCDEF]: every opcode with its operand modes and metamethod, in order. *)
Definition BCDEF : list (BCOp * BCMode * BCMode * BCMode * MMS) := [
  (BC_ISLT, BCMvar, BCMnone, BCMvar, MM_lt);
  (BC_ISGE, BCMvar, BCMnone, BCMvar, MM_lt);
  (BC_ISLE, BCMvar, BCMnone, BCMvar, MM_le);
  (BC_ISGT, BCMvar, BCMnone, BCMvar, MM_le);
  (BC_ISEQV, BCMvar, BCMnone, BCMvar, MM_eq);
  (BC_ISNEV, BCMvar, BCMnone, BCMvar, MM_eq);
  (BC_ISEQS, BCMvar, BCMnone, BCMstr, MM_eq);
  (BC_ISNES, BCMvar, BCMnone, BCMstr, MM_eq);
  (BC_ISEQN, BCMvar, BCMnone, BCMnum, MM_eq);
  (BC_ISNEN, BCMvar, BCMnone, BCMnum, MM_eq);
  (BC_ISEQP, BCMvar, BCMnone, BCMpri, MM_eq);
  (BC_ISNEP, BCMvar, BCMnone, BCMpri, MM_eq);
  (BC_ISTC, BCMdst, BCMnone, BCMvar, MM____);
  (BC_ISFC, BCMdst, BCMnone, BCMvar, MM____);
  (BC_IST, BCMnone, BCMnone, BCMvar, MM____);
  (BC_ISF, BCMnone, BCMnone, BCMvar, MM____);
  (BC_ISTYPE, BCMvar, BCMnone, BCMlit, MM____);
  (BC_ISNUM, BCMvar, BCMnone, BCMlit, MM____);
  (BC_MOV, BCMdst, BCMnone, BCMvar, MM____);
  (BC_NOT, BCMdst, BCMnone, BCMvar, MM____);
  (BC_UNM, BCMdst, BCMnone, BCMvar, MM_unm);
  (BC_ADDVN, BCMdst, BCMvar, BCMnum, MM_add);
  (BC_SUBVN, BCMdst, BCMvar, BCMnum, MM_sub);
  (BC_MULVN, BCMdst, BCMvar, BCMnum, MM_mul);
  (BC_DIVVN, BCMdst, BCMvar, BCMnum, MM_div);
  (BC_MODVN, BCMdst, BCMvar, BCMnum, MM_mod);
  (BC_ADDNV, BCMdst, BCMvar, BCMnum, MM_add);
  (BC_SUBNV, BCMdst, BCMvar, BCMnum, MM_sub);
  (BC_MULNV, BCMdst, BCMvar, BCMnum, MM_mul);
  (BC_DIVNV, BCMdst, BCMvar, BCMnum, MM_div);
  (BC_MODNV, BCMdst, BCMvar, BCMnum, MM_mod);
  (BC_ADDVV, BCMdst, BCMvar, BCMvar, MM_add);
  (BC_SUBVV, BCMdst, BCMvar, BCMvar, MM_sub);
  (BC_MULVV, BCMdst, BCMvar, BCMvar, MM_mul);
  (BC_DIVVV, BCMdst, BCMvar, BCMvar, MM_div);
  (BC_MODVV, BCMdst, BCMvar, BCMvar, MM_mod);
  (BC_POW, BCMdst, BCMvar, BCMvar, MM_pow);
  (BC_CAT, BCMdst, BCMrbase, BCMrbase, MM_concat);
  (BC_KSTR, BCMdst, BCMnone, BCMstr, MM____);
  (BC_KCDATA, BCMdst, BCMnone, BCMcdata, MM____);
  (BC_KSHORT, BCMdst, BCMnone, BCMlits, MM____);
  (BC_KNUM, BCMdst, BCMnone, BCMnum, MM____);
  (BC_KPRI, BCMdst, BCMnone, BCMpri, MM____);
  (BC_KNIL, BCMbase, BCMnone, BCMbase, MM____);
  (BC_UGET, BCMdst, BCMnone, BCMuv, MM____);
  (BC_USETV, BCMuv, BCMnone, BCMvar, MM____);
  (BC_UINCV, BCMuv, BCMnone, BCMvar, MM____);
  (BC_USETS, BCMuv, BCMnone, BCMstr, MM____);
  (BC_USETN, BCMuv, BCMnone, BCMnum, MM____);
  (BC_UINCN, BCMuv, BCMnone, BCMnum, MM____);
  (BC_USETP, BCMuv, BCMnone, BCMpri, MM____);
  (BC_UCLO, BCMrbase, BCMnone, BCMjump, MM____);
  (BC_FNEW, BCMdst, BCMnone, BCMfunc, MM_gc);
  (BC_TNEW, BCMdst, BCMnone, BCMlit, MM_gc);
  (BC_TDUP, BCMdst, BCMnone, BCMtab, MM_gc);
  (BC_GGET, BCMdst, BCMnone, BCMstr, MM_index);
  (BC_GSET, BCMvar, BCMnone, BCMstr, MM_newindex);
  (BC_GINC, BCMvar, BCMnone, BCMstr, MM_newindex);
  (BC_TGETV, BCMdst, BCMvar, BCMvar, MM_index);
  (BC_TGETS, BCMdst, BCMvar, BCMstr, MM_index);
  (BC_TGETB, BCMdst, BCMvar, BCMlit, MM_index);
  (BC_TGETR, BCMdst, BCMvar, BCMvar, MM_index);
  (BC_TSETV, BCMvar, BCMvar, BCMvar, MM_newindex);
  (BC_TINCV, BCMvar, BCMvar, BCMvar, MM_newindex);
  (BC_TSETS, BCMvar, BCMvar, BCMstr, MM_newindex);
  (BC_TINCS, BCMvar, BCMvar, BCMstr, MM_newindex);
  (BC_TSETB, BCMvar, BCMvar, BCMlit, MM_newindex);
  (BC_TINCB, BCMvar, BCMvar, BCMlit, MM_newindex);
  (BC_TSETM, BCMbase, BCMnone, BCMnum, MM_newindex);
  (BC_TSETR, BCMvar, BCMvar, BCMvar, MM_newindex);
  (BC_CALLM, BCMbase, BCMlit, BCMlit, MM_call);
  (BC_CALL, BCMbase, BCMlit, BCMlit, MM_call);
  (BC_CALLMT, BCMbase, BCMnone, BCMlit, MM_call);
  (BC_CALLT, BCMbase, BCMnone, BCMlit, MM_call);
  (BC_ITERC, BCMbase, BCMlit, BCMlit, MM_call);
  (BC_ITERN, BCMbase, BCMlit, BCMlit, MM_call);
  (BC_VARG, BCMbase, BCMlit, BCMlit, MM____);
  (BC_ISNEXT, BCMbase, BCMnone, BCMjump, MM____);
  (BC_RETM, BCMbase, BCMnone, BCMlit, MM____);
  (BC_RET, BCMrbase, BCMnone, BCMlit, MM____);
  (BC_RET0, BCMrbase, BCMnone, BCMlit, MM____);
  (BC_RET1, BCMrbase, BCMnone, BCMlit, MM____);
  (BC_FORI, BCMbase, BCMnone, BCMjump, MM____);
  (BC_JFORI, BCMbase, BCMnone, BCMjump, MM____);
  (BC_FORL, BCMbase, BCMnone, BCMjump, MM____);
  (BC_IFORL, BCMbase, BCMnone, BCMjump, MM____);
  (BC_JFORL, BCMbase, BCMnone, BCMlit, MM____);
  (BC_ITERL, BCMbase, BCMnone, BCMjump, MM____);
  (BC_IITERL, BCMbase, BCMnone, BCMjump, MM____);
  (BC_JITERL, BCMbase, BCMnone, BCMlit, MM____);
  (BC_LOOP, BCMrbase, BCMnone, BCMjump, MM____);
  (BC_ILOOP, BCMrbase, BCMnone, BCMjump, MM____);
  (BC_JLOOP, BCMrbase, BCMnone, BCMlit, MM____);
  (BC_JMP, BCMrbase, BCMnone, BCMjump, MM____);
  (BC_FUNCF, BCMrbase, BCMnone, BCMnone, MM____);
  (BC_IFUNCF, BCMrbase, BCMnone, BCMnone, MM____);
  (BC_JFUNCF, BCMrbase, BCMnone, BCMlit, MM____);
  (BC_FUNCV, BCMrbase, BCMnone, BCMnone, MM____);
  (BC_IFUNCV, BCMrbase, BCMnone, BCMnone, MM____);
  (BC_JFUNCV, BCMrbase, BCMnone, BCMlit, MM____);
  (BC_FUNCC, BCMrbase, BCMnone, BCMnone, MM____);
  (BC_FUNCCW, BCMrbase, BCMnone, BCMnone, MM____);
  (BC_VARGN, BCMdst, BCMnone, BCMlit, MM____);
  (BC_VARGSTR, BCMdst, BCMnone, BCMlit, MM____);
  (BC_VPROBENAME, BCMdst, BCMnone, BCMlit, MM____);
  (BC_VPID, BCMdst, BCMnone, BCMlit, MM____);
  (BC_VTID, BCMdst, BCMnone, BCMlit, MM____);
  (BC_VUID, BCMdst, BCMnone, BCMlit, MM____);
  (BC_VCPU, BCMdst, BCMnone, BCMlit, MM____);
  (BC_VEXECNAME, BCMdst, BCMnone, BCMlit, MM____);
  (BC_GFUNC, BCMdst, BCMnone, BCMnone, MM____)].

(** The number the enumeration gives an opcode. *)
Definition bcop_code (o : BCOp) : Z :=
  match o with
  | BC_ISLT => 0 | BC_ISGE => 1 | BC_ISLE => 2 | BC_ISGT => 3 | BC_ISEQV => 4
  | BC_ISNEV => 5 | BC_ISEQS => 6 | BC_ISNES => 7 | BC_ISEQN => 8
  | BC_ISNEN => 9 | BC_ISEQP => 10 | BC_ISNEP => 11 | BC_ISTC => 12
  | BC_ISFC => 13 | BC_IST => 14 | BC_ISF => 15 | BC_ISTYPE => 16
  | BC_ISNUM => 17 | BC_MOV => 18 | BC_NOT => 19 | BC_UNM => 20
  | BC_ADDVN => 21 | BC_SUBVN => 22 | BC_MULVN => 23 | BC_DIVVN => 24
  | BC_MODVN => 25 | BC_ADDNV => 26 | BC_SUBNV => 27 | BC_MULNV => 28
  | BC_DIVNV => 29 | BC_MODNV => 30 | BC_ADDVV => 31 | BC_SUBVV => 32
  | BC_MULVV => 33 | BC_DIVVV => 34 | BC_MODVV => 35 | BC_POW => 36
  | BC_CAT => 37 | BC_KSTR => 38 | BC_KCDATA => 39 | BC_KSHORT => 40
  | BC_KNUM => 41 | BC_KPRI => 42 | BC_KNIL => 43 | BC_UGET => 44
  | BC_USETV => 45 | BC_UINCV => 46 | BC_USETS => 47 | BC_USETN => 48
  | BC_UINCN => 49 | BC_USETP => 50 | BC_UCLO => 51 | BC_FNEW => 52
  | BC_TNEW => 53 | BC_TDUP => 54 | BC_GGET => 55 | BC_GSET => 56
  | BC_GINC => 57 | BC_TGETV => 58 | BC_TGETS => 59 | BC_TGETB => 60
  | BC_TGETR => 61 | BC_TSETV => 62 | BC_TINCV => 63 | BC_TSETS => 64
  | BC_TINCS => 65 | BC_TSETB => 66 | BC_TINCB => 67 | BC_TSETM => 68
  | BC_TSETR => 69 | BC_CALLM => 70 | BC_CALL => 71 | BC_CALLMT => 72
  | BC_CALLT => 73 | BC_ITERC => 74 | BC_ITERN => 75 | BC_VARG => 76
  | BC_ISNEXT => 77 | BC_RETM => 78 | BC_RET => 79 | BC_RET0 => 80
  | BC_RET1 => 81 | BC_FORI => 82 | BC_JFORI => 83 | BC_FORL => 84
  | BC_IFORL => 85 | BC_JFORL => 86 | BC_ITERL => 87 | BC_IITERL => 88
  | BC_JITERL => 89 | BC_LOOP => 90 | BC_ILOOP => 91 | BC_JLOOP => 92
  | BC_JMP => 93 | BC_FUNCF => 94 | BC_IFUNCF => 95 | BC_JFUNCF => 96
  | BC_FUNCV => 97 | BC_IFUNCV => 98 | BC_JFUNCV => 99 | BC_FUNCC => 100
  | BC_FUNCCW => 101 | BC_VARGN => 102 | BC_VARGSTR => 103
  | BC_VPROBENAME => 104 | BC_VPID => 105 | BC_VTID => 106 | BC_VUID => 107
  | BC_VCPU => 108 | BC_VEXECNAME => 109 | BC_GFUNC => 110
  end.

Definition BC__MAX : Z := Z.of_nat (length BCDEF).

(** The opcode a dispatch on the number [z] reaches. *)
Definition bcop_of_code (z : Z) : option BCOp :=
  if z <? 0 then None else (λ e, e.1.1.1.1) <$> (BCDEF !! Z.to_nat z).

(** ** The mode table *)

Definition BCMODE (ma mb mc : BCMode) (mm : MMS) : Z :=
  bcmode_code ma .| (bcmode_code mb ≪ 3) .| (bcmode_code mc ≪ 7) .| (mms_code mm ≪ 11).

Definition bc_mode : list Z :=
  map (λ '(_, ma, mb, mc, mm), u16 (BCMODE ma mb mc mm)) BCDEF.

Definition bc_mode_at (op : Z) : Z := default 0 (bc_mode !! Z.to_nat op).
Definition bcmode_a (op : Z) : Z := bc_mode_at op .& 7.
Definition bcmode_b (op : Z) : Z := (bc_mode_at op ≫ 3) .& 15.
Definition bcmode_c (op : Z) : Z := (bc_mode_at op ≫ 7) .& 15.
Definition bcmode_d (op : Z) : Z := bcmode_c op.
Definition bcmode_hasd (op : Z) : bool :=
  bc_mode_at op .& (15 ≪ 3) =? bcmode_code BCMnone ≪ 3.
Definition bcmode_mm (op : Z) : Z := bc_mode_at op ≫ 11.

Definition bc_isret (op : BCOp) : bool :=
  match op with BC_RETM | BC_RET | BC_RET0 | BC_RET1 => true | _ => false end.

(** ** Constants of the dump format *)

Definition BCDUMP_HEAD1 : Z := 0x15.
Definition BCDUMP_HEAD2 : Z := 0x22.
Definition BCDUMP_HEAD3 : Z := 0x06.
Definition BCDUMP_VERSION : Z := 1.
Definition BCDUMP_F_BE : Z := 0x01.
Definition BCDUMP_F_STRIP : Z := 0x02.
Definition BCDUMP_F_FFI : Z := 0x04.
Definition BCDUMP_F_KNOWN : Z := BCDUMP_F_FFI * 2 - 1.
Definition BCDUMP_KGC_CHILD : Z := 0.
Definition BCDUMP_KGC_TAB : Z := 1.
Definition BCDUMP_KGC_STR : Z := 5.
Definition BCDUMP_KTAB_NIL : Z := 0.
Definition BCDUMP_KTAB_FALSE : Z := 1.
Definition BCDUMP_KTAB_TRUE : Z := 2.
Definition BCDUMP_KTAB_INT : Z := 3.
Definition BCDUMP_KTAB_NUM : Z := 4.
Definition BCDUMP_KTAB_STR : Z := 5.

(** ** The word as its four bytes *)

Lemma lor_shiftl_add x y n : 0 <= n -> 0 <= x < 2 ^ n -> Z.lor x (y ≪ n) = x + y * 2 ^ n.
Proof.
  intros Hn Hx. rewrite <- Z.shiftl_mul_pow2 by done.
  rewrite <- Z.lxor_lor, Z.add_nocarry_lxor; [done|..];
    apply Z.bits_inj'; intros k Hk; rewrite Z.land_spec, Z.bits_0, Z.shiftl_spec by done;
    (destruct (Z.ltb_spec k n);
     [rewrite (Z.testbit_neg_r y) by lia; apply andb_false_r
     |rewrite <- (Z.mod_small x (2 ^ n)) by done;
      rewrite Z.mod_pow2_bits_high by lia; done]).
Qed.

Lemma bc_fields_bytes i :
  in_u 32 i -> le_bytes 4 i = [bc_op i; bc_a i; bc_c i; bc_b i].
Proof.
  intros Hi. unfold bc_op, bc_a, bc_c, bc_b, in_u in *. cbn [le_bytes].
  change 0xff with (Z.ones 8). rewrite !Z.land_ones, !Z.shiftr_div_pow2 by lia.
  rewrite !Z.div_div by lia. change (256 * 256) with (2 ^ 16).
  change (2 ^ 16 * 256) with (2 ^ 24). change 256 with (2 ^ 8).
  rewrite (Z.mod_small (i / 2 ^ 24) (2 ^ 8)); [done|].
  split; [apply Z.div_pos; lia|apply Z.div_lt_upper_bound; lia].
Qed.

Lemma bc_d_bytes i : in_u 32 i -> bc_d i = bc_c i + 256 * bc_b i.
Proof.
  intros Hi. unfold bc_d, bc_c, bc_b. change 0xff with (Z.ones 8).
  rewrite Z.land_ones, !Z.shiftr_div_pow2 by lia.
  change (2 ^ 24) with (2 ^ 16 * 2 ^ 8). rewrite <- Z.div_div by lia.
  rewrite Z.add_comm. apply Z.div_mod. lia.
Qed.

Lemma bc_word_bytes i : in_u 32 i -> le_val [bc_op i; bc_a i; bc_c i; bc_b i] = i.
Proof.
  intros Hi. rewrite <- bc_fields_bytes, le_val_le_bytes by done.
  apply Z.mod_small, Hi.
Qed.

Lemma bc_bytes_fields o a c b :
  Forall is_byte [o; a; c; b] ->
  let i := le_val [o; a; c; b] in
  in_u 32 i /\ bc_op i = o /\ bc_a i = a /\ bc_c i = c /\ bc_b i = b.
Proof.
  intros HF i. assert (Hi : in_u 32 i) by apply (le_val_range _ HF).
  pose proof (le_bytes_le_val _ HF) as E. fold i in E. cbn [length] in E.
  rewrite bc_fields_bytes in E by done. by simplify_eq.
Qed.

Lemma ABC_bytes o a b c :
  Forall is_byte [o; a; c; b] -> BCINS_ABC o a b c = le_val [o; a; c; b].
Proof.
  intros HF. rewrite !list.Forall_cons in HF. unfold is_byte in HF.
  destruct HF as (Ho & Ha & Hc & Hb & _).
  unfold BCINS_ABC. rewrite !Z.shiftl_mul_pow2 by lia.
  rewrite !wrap_id by (repeat rewrite wrap_id; unfold in_u; lia).
  rewrite <- Z.lor_assoc, (Z.lor_comm (b * _)), Z.lor_assoc.
  rewrite <- !Z.shiftl_mul_pow2 by lia.
  rewrite (lor_shiftl_add o a), (lor_shiftl_add _ c), (lor_shiftl_add _ b) by lia.
  cbn [le_val]. lia.
Qed.

Lemma AD_ABC o a d :
  0 <= d < 2 ^ 16 -> BCINS_AD o a d = BCINS_ABC o a (d / 256) (d mod 256).
Proof.
  intros Hd. unfold BCINS_AD, BCINS_ABC.
  rewrite <- !Z.lor_assoc. do 2 f_equal.
  assert (0 <= d / 256 < 256)
    by (split; [apply Z.div_pos|apply Z.div_lt_upper_bound]; lia).
  pose proof (Z.mod_pos_bound d 256 ltac:(lia)).
  rewrite !Z.shiftl_mul_pow2 by lia.
  rewrite !wrap_id by (repeat rewrite wrap_id; unfold in_u; lia).
  rewrite Z.lor_comm, <- (Z.shiftl_mul_pow2 (d / 256)), lor_shiftl_add by lia.
  pose proof (Z.div_mod d 256 ltac:(lia)). lia.
Qed.

#[local] Ltac solve_bytes := rewrite !list.Forall_cons; unfold is_byte, in_u in *; split_and!; try apply Forall_nil; lia || done.

Lemma bc_ABC_fields o a b c :
  is_byte o -> is_byte a -> is_byte b -> is_byte c ->
  let i := BCINS_ABC o a b c in
  in_u 32 i /\ bc_op i = o /\ bc_a i = a /\ bc_b i = b /\ bc_c i = c /\
  bc_d i = c + 256 * b.
Proof.
  intros Ho Ha Hb Hc i.
  assert (HF : Forall is_byte [o; a; c; b]) by solve_bytes.
  destruct (bc_bytes_fields _ _ _ _ HF) as (Hi & E).
  unfold i. rewrite ABC_bytes, bc_d_bytes by done.
  destruct E as (-> & -> & -> & ->). done.
Qed.

Lemma bc_AD_fields o a d :
  is_byte o -> is_byte a -> 0 <= d <= BCMAX_D ->
  let i := BCINS_AD o a d in
  in_u 32 i /\ bc_op i = o /\ bc_a i = a /\ bc_d i = d.
Proof.
  unfold BCMAX_D. intros Ho Ha Hd. cbv zeta. rewrite AD_ABC by lia.
  assert (is_byte (d / 256))
    by (unfold is_byte; split; [apply Z.div_pos|apply Z.div_lt_upper_bound]; lia).
  assert (is_byte (d mod 256)) by (apply Z.mod_pos_bound; lia).
  destruct (bc_ABC_fields o a (d / 256) (d mod 256)) as (Hi & E1 & E2 & _ & _ & E3); try done.
  split_and!; try done. rewrite E3, Z.add_comm. symmetry. apply Z.div_mod. lia.
Qed.

(** The bias is undone: a jump offset in range is read back. *)
Lemma bc_AJ_jump o a j :
  is_byte o -> is_byte a -> - 0x8000 <= j < 0x8000 ->
  bc_j (BCINS_AJ o a j) = j.
Proof.
  intros Ho Ha Hj. unfold bc_j, BCINS_AJ, BCBIAS_J.
  rewrite swrap_id, wrap_id by (unfold in_s, in_u; lia).
  destruct (bc_AD_fields o a (j + 0x8000)) as (_ & _ & _ & ->); unfold BCMAX_D; lia || done.
Qed.

Lemma le_val_fields bs :
  length bs = 4%nat -> Forall is_byte bs ->
  let i := le_val bs in
  in_u 32 i /\ le_bytes 4 i = bs /\ [bc_op i; bc_a i; bc_c i; bc_b i] = bs.
Proof.
  intros Hl HF i.
  assert (Hi : in_u 32 i) by (pose proof (le_val_range _ HF) as R; rewrite Hl in R; exact R).
  pose proof (le_bytes_le_val _ HF) as E. rewrite Hl in E. fold i in E.
  rewrite <- bc_fields_bytes by done. done.
Qed.

(** What [BCINS_ABC] composes is read back field by field, [bc_d] is the
    half-word of B and C, and every 32-bit word is the composition of the fields
    read from it in both formats: the encoding is a bijection between words and
    operand tuples, and a jump composed by [BCINS_AJ] is read back unbiased. *)
Theorem bc_encoding_roundtrip :
  (forall o a b c, is_byte o -> is_byte a -> is_byte b -> is_byte c ->
     let i := BCINS_ABC o a b c in
     in_u 32 i /\ bc_op i = o /\ bc_a i = a /\ bc_b i = b /\ bc_c i = c) /\
  (forall o a d, is_byte o -> is_byte a -> 0 <= d <= BCMAX_D ->
     let i := BCINS_AD o a d in
     in_u 32 i /\ bc_op i = o /\ bc_a i = a /\ bc_d i = d) /\
  (forall i, in_u 32 i ->
     BCINS_ABC (bc_op i) (bc_a i) (bc_b i) (bc_c i) = i /\
     BCINS_AD (bc_op i) (bc_a i) (bc_d i) = i) /\
  (forall o a j, is_byte o -> is_byte a -> - 0x8000 <= j < 0x8000 ->
     bc_j (BCINS_AJ o a j) = j).
Proof.
  split_and!.
  - intros o a b c Ho Ha Hb Hc. destruct (bc_ABC_fields o a b c) as (?&?&?&?&?&?); auto.
  - apply bc_AD_fields.
  - intros i Hi.
    pose proof (le_bytes_is_byte 4 i) as HF. rewrite bc_fields_bytes in HF by done.
    assert (E : BCINS_ABC (bc_op i) (bc_a i) (bc_b i) (bc_c i) = i)
      by (rewrite ABC_bytes, bc_word_bytes; done).
    split; [done|].
    rewrite !list.Forall_cons in HF. unfold is_byte in HF.
    rewrite AD_ABC by (rewrite bc_d_bytes by done; lia).
    rewrite bc_d_bytes by done.
    rewrite (Z.add_comm (bc_c i)), (Z.mul_comm 256), Z.div_add_l, Z.div_small, Z.add_0_r by lia.
    by rewrite Z.add_comm, Z.mod_add, Z.mod_small by lia.
  - apply bc_AJ_jump.
Qed.

Lemma setbc_byte_fields p x n :
  in_u 32 p ->
  let q := setbc_byte p x n in
  in_u 32 q /\
  [bc_op q; bc_a q; bc_c q; bc_b q] = <[n:=u8 x]> [bc_op p; bc_a p; bc_c p; bc_b p].
Proof.
  intros Hp. pose proof (le_bytes_is_byte 4 p) as HF.
  unfold setbc_byte. rewrite (bc_fields_bytes p Hp) in *.
  destruct (le_val_fields (<[n:=u8 x]> [bc_op p; bc_a p; bc_c p; bc_b p])) as (?&_&?); auto.
  - by rewrite length_insert.
  - apply Forall_insert; [done|]. apply (wrap_range 8 x); lia.
Qed.

Lemma setbc_d_fields p x :
  in_u 32 p ->
  let q := setbc_d p x in
  in_u 32 q /\ bc_op q = bc_op p /\ bc_a q = bc_a p /\ bc_d q = u16 x.
Proof.
  intros Hp q. pose proof (le_bytes_is_byte 4 p) as HF.
  pose proof (wrap_range 16 x ltac:(lia)) as Hx. unfold in_u in Hx.
  rewrite bc_fields_bytes in HF by done. rewrite !list.Forall_cons in HF.
  pose proof (le_val_fields ([bc_op p; bc_a p] ++ le_bytes 2 (u16 x)) eq_refl) as HV.
  destruct HV as (Hq & _ & E).
  { do 2 (apply list.Forall_cons; split; [tauto|]). apply le_bytes_is_byte. }
  assert (Eq : q = le_val ([bc_op p; bc_a p] ++ le_bytes 2 (u16 x)))
    by (unfold q, setbc_d; by rewrite bc_fields_bytes).
  rewrite <- Eq in Hq, E.
  cbn [le_bytes app] in E. injection E as E1 E2 E3 E4.
  split_and!; [done..|]. rewrite bc_d_bytes, E3, E4 by done.
  rewrite (Z.mod_small (u16 x / 256))
    by (split; [apply Z.div_pos|apply Z.div_lt_upper_bound]; lia).
  rewrite Z.add_comm. symmetry. apply Z.div_mod. lia.
Qed.

(** A store through one of the field setters changes that field, to the
    stored value truncated to the field's width, and no other: the patching the
    validator and the interpreter do in place is local to the field they name. *)
Theorem setbc_frame p x :
  in_u 32 p ->
  (let q := setbc_op p x in in_u 32 q /\ bc_op q = u8 x /\ bc_a q = bc_a p /\ bc_d q = bc_d p) /\
  (let q := setbc_a p x in in_u 32 q /\ bc_op q = bc_op p /\ bc_a q = u8 x /\ bc_d q = bc_d p) /\
  (let q := setbc_b p x in
     in_u 32 q /\ bc_op q = bc_op p /\ bc_a q = bc_a p /\ bc_b q = u8 x /\ bc_c q = bc_c p) /\
  (let q := setbc_c p x in
     in_u 32 q /\ bc_op q = bc_op p /\ bc_a q = bc_a p /\ bc_b q = bc_b p /\ bc_c q = u8 x) /\
  (let q := setbc_d p x in
     in_u 32 q /\ bc_op q = bc_op p /\ bc_a q = bc_a p /\ bc_d q = u16 x) /\
  (- 0x8000 <= x < 0x8000 ->
     let q := setbc_j p x in bc_op q = bc_op p /\ bc_a q = bc_a p /\ bc_j q = x).
Proof.
  intros Hp. split_and!.
  1,2,3,4: intros q;
    unfold setbc_op, setbc_a, setbc_b, setbc_c in q;
    match goal with q := setbc_byte _ _ ?n |- _ =>
      destruct (setbc_byte_fields p x n Hp : _ /\ _) as [Hq E]; fold q in Hq, E end;
    injection E as E1 E2 E3 E4; rewrite ?(bc_d_bytes q), ?(bc_d_bytes p) by done;
    split_and!; congruence.
  - by apply setbc_d_fields.
  - intros Hj q. destruct (setbc_d_fields p (u32 (s32 x + BCBIAS_J)) Hp) as (_ & E1 & E2 & E3).
    split_and!; [done..|]. unfold bc_j, q, setbc_j. rewrite E3. unfold BCBIAS_J.
    rewrite swrap_id, !wrap_id by (try rewrite wrap_id; unfold in_s, in_u; lia). lia.
Qed.

Lemma setbc_frame_witness :
  in_u 32 0x12345678 /\ setbc_op 0x12345678 0x1ff = 0x123456ff /\
  bc_a (setbc_op 0x12345678 0x1ff) = 0x56.
Proof.
  assert (H : in_u 32 0x12345678) by (unfold in_u; lia).
  split; [exact H|]. split; [vm_compute; reflexivity|].
  destruct (setbc_frame 0x12345678 0x1ff H) as [(_ & _ & E & _) _].
  rewrite E. vm_compute. reflexivity.
Defined.

Lemma bcop_of_code_code o : bcop_of_code (bcop_code o) = Some o.
Proof. destruct o; reflexivity. Qed.

#[export] Instance bcop_eq_dec : EqDecision BCOp.
Proof.
  intros x y. destruct (decide (bcop_code x = bcop_code y)) as [E|E].
  - left. apply (inj Some). by rewrite <- !bcop_of_code_code, E.
  - right. by intros ->.
Defined.

(** The opcode enumeration numbers the entries of [BCDEF] consecutively from
    0 (numbering and dispatch are inverse), all opcodes fit the opcode byte, and
    the numbering satisfies every relation the header asserts in
    [KP_STATIC_ASSERT] (which the build leaves unchecked): comparison opcodes
    and their negations differ in one bit, and the I/J variants are adjacent. *)
Theorem bcop_numbering :
  (forall o, bcop_of_code (bcop_code o) = Some o /\ 0 <= bcop_code o < BC__MAX) /\
  (forall z o, bcop_of_code z = Some o -> bcop_code o = z) /\
  BC__MAX <= 256 /\
  (let c := bcop_code in
   c BC_ISEQV + 1 = c BC_ISNEV /\ c BC_ISEQV ⊕ 1 = c BC_ISNEV /\
   c BC_ISEQS ⊕ 1 = c BC_ISNES /\ c BC_ISEQN ⊕ 1 = c BC_ISNEN /\
   c BC_ISEQP ⊕ 1 = c BC_ISNEP /\ c BC_ISLT ⊕ 1 = c BC_ISGE /\
   c BC_ISLE ⊕ 1 = c BC_ISGT /\ c BC_ISLT ⊕ 3 = c BC_ISGT /\
   c BC_IST - c BC_ISTC = c BC_ISF - c BC_ISFC /\
   c BC_CALLT - c BC_CALL = c BC_CALLMT - c BC_CALLM /\
   c BC_CALLMT + 1 = c BC_CALLT /\ c BC_RETM + 1 = c BC_RET /\
   c BC_FORL + 1 = c BC_IFORL /\ c BC_FORL + 2 = c BC_JFORL /\
   c BC_ITERL + 1 = c BC_IITERL /\ c BC_ITERL + 2 = c BC_JITERL /\
   c BC_LOOP + 1 = c BC_ILOOP /\ c BC_LOOP + 2 = c BC_JLOOP /\
   c BC_FUNCF + 1 = c BC_IFUNCF /\ c BC_FUNCF + 2 = c BC_JFUNCF /\
   c BC_FUNCV + 1 = c BC_IFUNCV /\ c BC_FUNCV + 2 = c BC_JFUNCV).
Proof.
  split_and!.
  - intros o. split; [apply bcop_of_code_code|]. by destruct o.
  - intros z o. unfold bcop_of_code. destruct (Z.ltb_spec z 0) as [|Hz]; [done|].
    intros Hl. rewrite <- (Z2Nat.id z) by done. revert Hl. generalize (Z.to_nat z). clear z Hz.
    assert (HA : Forall2 (λ e i, bcop_code e.1.1.1.1 = Z.of_nat i) BCDEF (seq 0 (length BCDEF)))
      by (vm_compute; repeat constructor).
    intros n Hl. apply fmap_Some in Hl as (e & He & ->).
    destruct (Forall2_lookup_l _ _ _ _ _ HA He) as (i & Hi & ->).
    apply lookup_seq in Hi as [-> _]. done.
  - done.
  - vm_compute. repeat split.
Qed.

(** The mode table unpacks to the modes [BCDEF] declares, for every opcode:
    the packed word fits 16 bits and the masks and shifts of [bcmode_a] to
    [bcmode_mm] recover each declared mode; [bcmode_hasd] is exactly the absence
    of a B operand. *)
Theorem bc_mode_unpacks n o ma mb mc mm :
  BCDEF !! n = Some (o, ma, mb, mc, mm) ->
  let z := bcop_code o in
  z = Z.of_nat n /\
  bcmode_a z = bcmode_code ma /\ bcmode_b z = bcmode_code mb /\
  bcmode_c z = bcmode_code mc /\ bcmode_mm z = mms_code mm /\
  in_u 16 (BCMODE ma mb mc mm) /\
  bcmode_hasd z = bool_decide (bcmode_code mb = bcmode_code BCMnone).
Proof.
  set (P := λ '((o, ma, mb, mc, mm), i),
    let z := bcop_code o in
    (z =? Z.of_nat i) && (bcmode_a z =? bcmode_code ma) && (bcmode_b z =? bcmode_code mb) &&
    (bcmode_c z =? bcmode_code mc) && (bcmode_mm z =? mms_code mm) &&
    ((0 <=? BCMODE ma mb mc mm) && (BCMODE ma mb mc mm <? 2 ^ 16)) &&
    Bool.eqb (bcmode_hasd z) (bool_decide (bcmode_code mb = bcmode_code BCMnone))).
  assert (HA : forallb P (zip BCDEF (seq 0 (length BCDEF))) = true) by (vm_compute; done).
  intros Hl z.
  assert (HP : P ((o, ma, mb, mc, mm), n) = true).
  { rewrite forallb_forall in HA. apply HA, list_elem_of_In, list_elem_of_lookup.
    exists n. apply lookup_zip_Some. split; [done|].
    apply lookup_seq. split; [done|]. by eapply lookup_lt_Some. }
  unfold P in HP. cbv zeta in HP. fold z in HP. bool_to_Prop.
  match goal with H : Bool.eqb _ _ = true |- _ => apply Bool.eqb_prop in H end.
  unfold in_u. split_and!; lia || done.
Qed.

Lemma bc_mode_unpacks_witness :
  BCDEF !! 21%nat = Some (BC_ADDVN, BCMdst, BCMvar, BCMnum, MM_add) /\
  bcmode_c (bcop_code BC_ADDVN) = bcmode_code BCMnum.
Proof.
  assert (H : BCDEF !! 21%nat = Some (BC_ADDVN, BCMdst, BCMvar, BCMnum, MM_add)) by reflexivity.
  split; [exact H|]. apply (bc_mode_unpacks _ _ _ _ _ _ H).
Defined.
