(* ===== verification/Mempool.v ===== *)
(** * Mempool: the bump allocator of [runtime/kp_mempool.c]

    Strings are allocated from one preallocated region that is only released
    when the VM exits.  The theorems state the discipline callers get (blocks are
    consecutive and disjoint) and what the exhaustion test of the code does. *)

From S2P Require Import Prelude Types.

(** ** Kernel facilities

    The macros and allocators of the kernel are not part of the sources; the
    class states what their documentation promises of the ones used here. *)
Class Kernel := {
  (** [unlikely (x)] is [__builtin_expect (!!(x), 0)]: a truth value. *)
  unlikely : Z -> Z;
  unlikely_truth : forall x, unlikely x = Z.b2z (negb (x =? 0));
  PAGE_SIZE : Z
}.

(** ** State *)

Record mempool := mkpool {
  mp_base : Z;      (* g->mempool, 0 for NULL *)
  mp_freepos : Z;
  mp_size : Z
}.

Section Mempool.
Context `{Kernel}.

(** The exhaustion test compares [unlikely (end)] with the limit: the
    parenthesis of the macro closes before the comparison. *)
Definition kp_mempool_alloc (g : mempool) (size : Z) : Z * mempool :=
  if u64 (unlikely (u64 (mp_freepos g + size))) >? u64 (mp_base g + mp_size g)
  then (0, g)
  else (mp_freepos g, mkpool (mp_base g) (u64 (mp_freepos g + size)) (mp_size g)).

Definition kp_mempool_destroy (g : mempool) : mempool :=
  if mp_base g =? 0 then g else mkpool 0 0 0.

(** [addr] is what [vmalloc (size * 1024)] returns; the result is 0 or
    [-ENOMEM]. *)
Definition ENOMEM : Z := 12.
Definition kp_mempool_init (g : mempool) (addr size : Z) : Z * mempool :=
  if addr =? 0 then (- ENOMEM, mkpool 0 (mp_freepos g) (mp_size g))
  else (0, mkpool addr addr (s32 (size * 1024))).

(** A sequence of allocations, each caller serialised with the others (the only
    caller, [kp_str_new], holds the string lock). *)
Fixpoint allocs (g : mempool) (sizes : list Z) : list Z * mempool :=
  match sizes with
  | [] => ([], g)
  | sz :: rest =>
      let '(a, g1) := kp_mempool_alloc g sz in
      let '(l, g2) := allocs g1 rest in
      (a :: l, g2)
  end.

(** The pool lies in the address space and its free position is not wild. *)
Definition pool_ok (g : mempool) : Prop :=
  0 < mp_base g <= mp_freepos g /\ 0 < mp_size g /\ mp_base g + mp_size g < 2 ^ 64.

Lemma alloc_step g size :
  pool_ok g -> 0 <= size -> mp_freepos g + size < 2 ^ 64 ->
  kp_mempool_alloc g size =
    (mp_freepos g, mkpool (mp_base g) (mp_freepos g + size) (mp_size g)).
Proof.
  intros (Hb & Hs & Hl) Hsz Hf. unfold kp_mempool_alloc.
  rewrite unlikely_truth, !wrap_id; try (unfold in_u; lia).
  2: destruct (negb _); unfold in_u; simpl; lia.
  destruct (Z.gtb_spec (Z.b2z (negb (mp_freepos g + size =? 0))) (mp_base g + mp_size g)); [|done].
  destruct (negb _); simpl in *; lia.
Qed.

Lemma alloc_pool_ok g size :
  pool_ok g -> 0 <= size -> mp_freepos g + size < 2 ^ 64 ->
  pool_ok (kp_mempool_alloc g size).2.
Proof. intros Hg Hs Hf. rewrite alloc_step by done. unfold pool_ok in *. simpl. lia. Qed.

Definition block_ends (g : mempool) (sizes : list Z) : Z := foldr Z.add (mp_freepos g) sizes.

Lemma foldr_add_shift (l : list Z) x y : foldr Z.add (x + y) l = x + foldr Z.add y l.
Proof. induction l as [|z l IH]; simpl; lia. Qed.

(** Serialised allocations hand out consecutive, pairwise disjoint blocks
    starting at the free position, one of the requested size after the other,
    and the free position ends after the last: the pool never returns memory
    that was handed out before. *)
Theorem allocs_consecutive g sizes :
  pool_ok g -> Forall (λ s, 0 <= s) sizes -> block_ends g sizes < 2 ^ 64 ->
  let '(addrs, g') := allocs g sizes in
  length addrs = length sizes /\
  mp_freepos g' = block_ends g sizes /\ mp_base g' = mp_base g /\ mp_size g' = mp_size g /\
  (forall i a, addrs !! i = Some a -> a = foldr Z.add (mp_freepos g) (take i sizes)) /\
  (forall i j a b s, (i < j)%nat -> addrs !! i = Some a -> sizes !! i = Some s ->
     addrs !! j = Some b -> a + s <= b).
Proof.
  revert g. induction sizes as [|sz rest IH]; intros g Hg Hs He; simpl.
  { split_and!; [done..| |]; intros *; rewrite lookup_nil; done. }
  apply list.Forall_cons in Hs as [Hsz Hs]. unfold block_ends in He. simpl in He.
  assert (Hpos : mp_freepos g <= foldr Z.add (mp_freepos g) rest).
  { clear -Hs. induction Hs; simpl in *; lia. }
  rewrite alloc_step by (done || lia).
  specialize (IH (mkpool (mp_base g) (mp_freepos g + sz) (mp_size g))).
  unfold block_ends in *. cbn [mp_freepos mp_base mp_size] in IH.
  destruct (allocs _ rest) as [addrs g'].
  assert (E : forall l, foldr Z.add (mp_freepos g + sz) l = sz + foldr Z.add (mp_freepos g) l)
    by (intros l; by rewrite Z.add_comm, foldr_add_shift).
  destruct IH as (H1 & H2 & H3 & H4 & H5 & H6).
  { unfold pool_ok in *. simpl. lia. } { done. } { rewrite E. lia. }
  rewrite E in H2. split_and!; [simpl; congruence|done..| |].
  - intros [|i] a Ha; simpl in *; [congruence|]. rewrite (H5 _ _ Ha), E. done.
  - intros [|i] [|j] a b s Hij Ha Hz Hb; simpl in *; try lia; [|exact (H6 i j a b s ltac:(lia) Ha Hz Hb)].
    simplify_eq. rewrite (H5 _ _ Hb), E.
    enough (mp_freepos g <= foldr Z.add (mp_freepos g) (take j rest)) by lia.
    apply (Forall_take _ j) in Hs. clear -Hs. induction Hs; simpl in *; lia.
Qed.

(** The exhaustion test never fires: on a live pool an allocation of any
    size succeeds and advances the free position, whatever is left of the pool,
    so the block of a request larger than the remainder runs past the end. *)
Theorem alloc_never_fails g size :
  pool_ok g -> 0 <= size -> mp_freepos g + size < 2 ^ 64 ->
  let '(a, g') := kp_mempool_alloc g size in
  a = mp_freepos g /\ a <> 0 /\ mp_freepos g' = mp_freepos g + size /\
  (mp_base g + mp_size g < mp_freepos g + size -> mp_base g + mp_size g < a + size).
Proof.
  intros Hg Hs Hf. rewrite alloc_step by done. unfold pool_ok in Hg. simpl. lia.
Qed.

End Mempool.

(** A kernel whose macros are the documented ones, for evaluation. *)
#[export] Program Instance kernel_x86 : Kernel :=
  {| unlikely x := Z.b2z (negb (x =? 0)); PAGE_SIZE := 4096 |}.
Next Obligation. done. Qed.

Lemma allocs_consecutive_witness :
  allocs (mkpool 4096 4096 100) [10; 20] = ([4096; 4106], mkpool 4096 4126 100) /\
  length (allocs (mkpool 4096 4096 100) [10; 20]).1 = 2%nat.
Proof.
  split; [vm_compute; reflexivity|].
  assert (Hp : pool_ok (mkpool 4096 4096 100)) by (unfold pool_ok; simpl; lia).
  assert (Hs : Forall (λ s, 0 <= s) [10; 20]) by (repeat constructor; lia).
  assert (He : block_ends (mkpool 4096 4096 100) [10; 20] < 2 ^ 64) by (vm_compute; done).
  pose proof (allocs_consecutive (mkpool 4096 4096 100) [10; 20] Hp Hs He) as T.
  destruct (allocs _ _) as [l g]. apply T.
Defined.

(** The last byte of a 50-byte pool, then 1000 more: the block is handed out. *)
Lemma alloc_never_fails_witness :
  (kp_mempool_alloc (mkpool 4096 4145 50) 1000).1 = 4145 /\ 4096 + 50 < 4145 + 1000.
Proof.
  assert (Hp : pool_ok (mkpool 4096 4145 50)) by (unfold pool_ok; simpl; lia).
  pose proof (alloc_never_fails (mkpool 4096 4145 50) 1000 Hp ltac:(lia) ltac:(simpl; lia)) as T.
  destruct (kp_mempool_alloc _ _) as [a g]. destruct T as (-> & _ & _ & T).
  split; [reflexivity|apply T; simpl; lia].
Defined.
