(* ===== verification/Str.v ===== *)
(** * Str: string interning ([runtime/kp_str.c])

    The kernel-side string table: hashing, the word-at-a-time comparison, the
    interning routine over the bump allocator of [Mempool], and the ordering of
    strings.  Memory is a byte-addressed function, so the comparison that reads
    up to three bytes past the end of a string reads what is there; the hash
    chains ([nextgc] links, only ever extended at the head) are lists of object
    addresses.

    The theorems: the fast comparison decides equality of the compared bytes and
    nothing else; interning keeps the table canonical, so that equality of
    strings is equality of addresses, which tables and the interpreter rely on;
    the string limit keeps the allocator inside its pool. *)

From S2P Require Import Prelude Types Mempool.
#[local] Open Scope word_scope.

(** ** Memory *)

Definition memory := Z -> Z.

Definition read (m : memory) (a : Z) (n : nat) : bytes :=
  map (λ i, m (a + Z.of_nat i)) (seq 0 n).

Definition write (m : memory) (a : Z) (bs : bytes) : memory :=
  λ x, if (a <=? x) && (x <? a + Z.of_nat (length bs))
       then bs !!! Z.to_nat (x - a) else m x.

Definition mem_ok (m : memory) : Prop := forall x, is_byte (m x).

(** ** State *)

Record ktap_str := mkstr { s_len : Z; s_hash : Z; s_reserved : Z }.

Record strstate := mkst {
  objs : gmap Z ktap_str;      (* the string objects, by address *)
  strhash : list (list Z);     (* hash chains, head first *)
  strmask : Z;
  strnum : Z;
  pool : mempool;
  mem : memory
}.

Definition sizeof_ktap_str : Z := 24.
Definition getstr (ts : Z) : Z := ts + sizeof_ktap_str.

(** ** Hashing *)

Definition STRING_HASHLIMIT : Z := 5.

Fixpoint str_hash_loop (fuel : nat) (m : memory) (str step l1 h : Z) : Z :=
  match fuel with
  | O => h
  | S f =>
      if l1 >=? step then
        let h' := h ⊕ u32 (u32 (h ≪ 5) + (h ≫ 2) + u8 (m (str + l1 - 1))) in
        str_hash_loop f m str step (l1 - step) h'
      else h
  end.

(** [len] iterations are enough: every one shortens [l1] by at least 1. *)
Definition kp_str_hash (m : memory) (str len : Z) : Z :=
  let h := u32 (201236 ⊕ len) in
  let step := (len ≫ STRING_HASHLIMIT) + 1 in
  str_hash_loop (Z.to_nat len) m str step len h.

(** ** The fast comparison *)

Definition rd32 (m : memory) (a : Z) : Z := le_val (read m a 4).

Fixpoint str_fastcmp_loop (fuel : nat) (m : memory) (a b len i : Z) : option Z :=
  match fuel with
  | O => ub
  | S f =>
      let v := rd32 m (a + i) ⊕ rd32 m (b + i) in
      if negb (v =? 0) then
        let i' := s32 (i - len) in
        if i' >=? -3 then
          let sh := 32 + (i' ≪ 3) in
          if sh <? 32 then Some (s32 (u32 (v ≪ sh))) else ub
        else Some 1
      else
        let i' := s32 (i + 4) in
        if i' <? len then str_fastcmp_loop f m a b len i' else Some 0
  end.

Definition str_fastcmp (m : memory) (a b len : Z) : option Z :=
  str_fastcmp_loop (Z.to_nat (len / 4) + 1) m a b len 0.

(** ** Interning *)

(** Walk a chain for a string of length [len] whose bytes compare equal. *)
Fixpoint chain_search (st : strstate) (eqf : Z -> option bool) (len : Z) (o : list Z)
  : option (option Z) :=
  match o with
  | [] => Some None
  | sx :: rest =>
      match objs st !! sx with
      | None => ub
      | Some obj =>
          if s_len obj =? len then
            match eqf sx with
            | None => ub
            | Some true => Some (Some sx)
            | Some false => chain_search st eqf len rest
            end
          else chain_search st eqf len rest
      end
  end.

Definition fast_eq (m : memory) (str len sx : Z) : option bool :=
  (λ r, r =? 0) <$> str_fastcmp m str (getstr sx) len.

Definition slow_eq (m : memory) (str len sx : Z) : option bool :=
  Some (bool_decide (read m str (Z.to_nat len) = read m (getstr sx) (Z.to_nat len))).

(** [kp_str_resize]: [ok] says whether the allocation of the new anchors
    succeeded; the anchors are replaced by empty ones. *)
Definition kp_str_resize (st : strstate) (k : kerr) (ok : bool) (newmask : Z)
  : Z * strstate * kerr :=
  if ok then
    (0, mkst (objs st) (replicate (Z.to_nat (newmask + 1)) []) newmask (strnum st)
             (pool st) (mem st), k)
  else (- ENOMEM, st, kp_error "kzalloc failed" k).

(** The object a fresh string becomes, linked at the head of its chain. *)
Definition str_insert (st : strstate) (pool' : mempool) (s str len h : Z) : strstate :=
  let bs := read (mem st) str (Z.to_nat len) in
  let idx := Z.to_nat (h .& strmask st) in
  mkst (<[s := mkstr len h 0]> (objs st))
       (<[idx := s :: default [] (strhash st !! idx)]> (strhash st))
       (strmask st) (strnum st + 1) pool'
       (write (mem st) (getstr s) (bs ++ [0])).

Section Str.
Context `{Kernel}.

Definition near_page_end (str len : Z) : bool :=
  negb ((str + len - 1) .& (PAGE_SIZE - 1) <=? PAGE_SIZE - 4).

(** The result is the address of the interned string, 0 for NULL. *)
Definition kp_str_new (st : strstate) (k : kerr) (str len : Z)
  : option (Z * strstate * kerr) :=
  let h := kp_str_hash (mem st) str len in
  if len >=? KP_MAX_STR then Some (0, st, k)
  else
    match strhash st !! Z.to_nat (h .& strmask st) with
    | None => ub
    | Some o =>
        let eqf := if near_page_end str len
                   then slow_eq (mem st) str len else fast_eq (mem st) str len in
        match chain_search st eqf len o with
        | None => ub
        | Some (Some sx) => Some (sx, st, k)
        | Some None =>
            let '(s, pool') := kp_mempool_alloc (pool st) (sizeof_ktap_str + len + 1) in
            if s =? 0 then Some (0, st, k)
            else
              let st' := str_insert st pool' s str len h in
              if strnum st >? KP_MAX_STRNUM
              then Some (0, st', kp_error "exceed max string number %d" k)
              else Some (s, st', k)
        end
    end.

End Str.

(** ** Ordering *)

(** [strcmp] of the C library on the bytes up to the first NUL. *)
Fixpoint strcmp (l r : bytes) : Z :=
  match l, r with
  | a :: l', b :: r' =>
      if a =? b then if a =? 0 then 0 else strcmp l' r'
      else if a <? b then -1 else 1
  | [], [] => 0
  | [], _ :: _ => -1
  | _ :: _, [] => 1
  end.

Fixpoint strlen (l : bytes) : Z :=
  match l with
  | [] => 0
  | a :: l' => if a =? 0 then 0 else 1 + strlen l'
  end.

(** The loop of [kp_str_cmp]: [l] and [r] are what is left of the two strings,
    their terminating NUL included, and [ll], [lr] the lengths left. *)
Fixpoint str_cmp_loop (fuel : nat) (l r : bytes) (ll lr : Z) : option Z :=
  match fuel with
  | O => None
  | S f =>
      let temp := strcmp l r in
      if negb (temp =? 0) then Some temp
      else
        let len := strlen l in
        if len =? lr then Some (if len =? ll then 0 else 1)
        else if len =? ll then Some (-1)
        else
          let len := len + 1 in
          str_cmp_loop f (drop (Z.to_nat len) l) (drop (Z.to_nat len) r) (ll - len) (lr - len)
  end.

Definition kp_str_cmp (ls rs : bytes) : option Z :=
  str_cmp_loop (S (length ls)) (ls ++ [0]) (rs ++ [0])
    (Z.of_nat (length ls)) (Z.of_nat (length rs)).

(** ** Reading and writing memory *)

Lemma length_read m a n : length (read m a n) = n.
Proof. unfold read. by rewrite length_map, length_seq. Qed.

Lemma lookup_read m a n i : (i < n)%nat -> read m a n !! i = Some (m (a + Z.of_nat i)).
Proof.
  intros Hi. unfold read. rewrite list_lookup_fmap, lookup_seq_lt by done. done.
Qed.

Lemma read_eq_iff m1 m2 a1 a2 n :
  read m1 a1 n = read m2 a2 n <->
  forall i, (i < n)%nat -> m1 (a1 + Z.of_nat i) = m2 (a2 + Z.of_nat i).
Proof.
  split.
  - intros E i Hi. pose proof (lookup_read m1 a1 n i Hi) as E1.
    rewrite E, lookup_read in E1 by done. congruence.
  - intros E. apply list_eq_same_length with n; rewrite ?length_read; try done.
    intros i x y Hi. rewrite !lookup_read, E by done. congruence.
Qed.

Lemma read_bytes m a n : mem_ok m -> Forall is_byte (read m a n).
Proof. intros Hm. apply Forall_map, Forall_forall. intros; apply Hm. Qed.

Lemma read_split m a n1 n2 :
  read m a (n1 + n2) = read m a n1 ++ read m (a + Z.of_nat n1) n2.
Proof.
  unfold read. rewrite seq_app, map_app. f_equal.
  replace (seq (0 + n1) n2) with (Nat.add n1 <$> seq 0 n2)
    by (rewrite fmap_add_seq; f_equal; lia).
  rewrite <- list_fmap_compose. apply list_fmap_ext. intros i x _. simpl. f_equal. lia.
Qed.

Lemma write_out m a bs x :
  x < a \/ a + Z.of_nat (length bs) <= x -> write m a bs x = m x.
Proof.
  intros Hx. unfold write.
  destruct (Z.leb_spec a x), (Z.ltb_spec x (a + Z.of_nat (length bs))); simpl; lia || done.
Qed.

Lemma write_in m a bs i b :
  bs !! i = Some b -> write m a bs (a + Z.of_nat i) = b.
Proof.
  intros Hb. pose proof (lookup_lt_Some _ _ _ Hb). unfold write.
  rewrite (proj2 (Z.leb_le _ _)), (proj2 (Z.ltb_lt _ _)) by lia. simpl.
  replace (Z.to_nat (a + Z.of_nat i - a)) with i by lia. by apply list_lookup_total_correct.
Qed.

Lemma read_write_out m a bs b n :
  b + Z.of_nat n <= a \/ a + Z.of_nat (length bs) <= b ->
  read (write m a bs) b n = read m b n.
Proof. intros Hd. apply read_eq_iff. intros i Hi. apply write_out. lia. Qed.

Lemma read_write_in m a bs n :
  (n <= length bs)%nat -> read (write m a bs) a n = take n bs.
Proof.
  intros Hn. apply list_eq_same_length with n; rewrite ?length_read, ?length_take; try lia.
  intros i x y Hi. rewrite lookup_read, lookup_take_lt by lia.
  intros Ex Ey. rewrite (write_in _ _ _ _ _ Ey) in Ex. congruence.
Qed.

Lemma write_mem_ok m a bs : mem_ok m -> Forall is_byte bs -> mem_ok (write m a bs).
Proof.
  intros Hm Hbs x. unfold write. destruct (_ && _) eqn:E; [|apply Hm]. bool_to_Prop.
  destruct (lookup_lt_is_Some_2 bs (Z.to_nat (x - a))) as [b Hb]; [lia|].
  rewrite (list_lookup_total_correct _ _ _ Hb). eapply Forall_lookup_1; eauto.
Qed.

(** ** The hash depends on the bytes only *)

Lemma str_hash_loop_ext m1 m2 a1 a2 step len fuel l1 h :
  1 <= step -> l1 <= len ->
  read m1 a1 (Z.to_nat len) = read m2 a2 (Z.to_nat len) ->
  str_hash_loop fuel m1 a1 step l1 h = str_hash_loop fuel m2 a2 step l1 h.
Proof.
  intros Hs Hl E. rewrite read_eq_iff in E. revert l1 h Hl.
  induction fuel as [|f IH]; intros l1 h Hl; simpl; [done|].
  destruct (Z.geb_spec l1 step); [|done].
  specialize (E (Z.to_nat (l1 - 1)) ltac:(lia)).
  rewrite Z2Nat.id in E by lia. rewrite !Z.add_sub_assoc in E. rewrite E. apply IH. lia.
Qed.

Lemma kp_str_hash_ext m1 m2 a1 a2 len :
  0 <= len ->
  read m1 a1 (Z.to_nat len) = read m2 a2 (Z.to_nat len) ->
  kp_str_hash m1 a1 len = kp_str_hash m2 a2 len.
Proof.
  intros Hl E. unfold kp_str_hash. eapply str_hash_loop_ext; [|reflexivity|done].
  unfold STRING_HASHLIMIT. pose proof (proj2 (Z.shiftr_nonneg len 5) Hl). lia.
Qed.

(** More fuel changes nothing: the loop of the hash has ended by then. *)
Lemma str_hash_loop_fuel m a step l1 h f1 f2 :
  1 <= step -> l1 <= Z.of_nat f1 -> (f1 <= f2)%nat ->
  str_hash_loop f2 m a step l1 h = str_hash_loop f1 m a step l1 h.
Proof.
  intros Hs. revert l1 h f2. induction f1 as [|f IH]; intros l1 h f2 Hl Hf.
  - destruct f2; simpl; [done|]. destruct (Z.geb_spec l1 step); [lia|done].
  - destruct f2 as [|f2]; [lia|]. simpl. destruct (Z.geb_spec l1 step); [|done].
    apply IH; lia.
Qed.

(** ** The fast comparison decides equality of the compared bytes *)

Lemma lxor_mod_pow2 x y n : 0 <= n -> (x ⊕ y) mod 2 ^ n = (x mod 2 ^ n) ⊕ (y mod 2 ^ n).
Proof.
  intros Hn. rewrite <- !Z.land_ones by done. apply Z.bits_inj'. intros k Hk.
  rewrite !Z.land_spec, !Z.lxor_spec, !Z.land_spec.
  by destruct (Z.testbit x k), (Z.testbit y k), (Z.testbit _ k).
Qed.

Lemma rd32_bytes_eq m a b rem :
  mem_ok m -> (rem <= 4)%nat ->
  (rd32 m a ⊕ rd32 m b) mod 256 ^ Z.of_nat rem = 0 <-> read m a rem = read m b rem.
Proof.
  intros Hm Hr. replace (256 ^ Z.of_nat rem) with (2 ^ (8 * Z.of_nat rem))
    by (change 256 with (2 ^ 8); rewrite <- Z.pow_mul_r; lia).
  rewrite lxor_mod_pow2, Z.lxor_eq_0_iff by lia.
  replace (2 ^ (8 * Z.of_nat rem)) with (256 ^ Z.of_nat rem)
    by (change 256 with (2 ^ 8); rewrite <- Z.pow_mul_r; lia).
  unfold rd32. rewrite <- !le_val_take by (rewrite ?length_read; auto using read_bytes).
  assert (E : forall x, take rem (read m x 4) = read m x rem).
  { intros x. replace 4%nat with (rem + (4 - rem))%nat by lia.
    rewrite read_split, take_app_length' by (by rewrite length_read). done. }
  rewrite !E. split; [|congruence].
  apply le_val_inj; rewrite ?length_read; auto using read_bytes.
Qed.

Lemma rd32_range m a : mem_ok m -> in_u 32 (rd32 m a).
Proof.
  intros Hm. pose proof (le_val_range _ (read_bytes m a 4 Hm)) as R.
  by rewrite length_read in R.
Qed.

Lemma lxor_range w x y : 0 <= w -> in_u w x -> in_u w y -> in_u w (x ⊕ y).
Proof.
  intros Hw Hx Hy. pose proof (wrap_range w (x ⊕ y) Hw) as R. unfold wrap in R.
  by rewrite lxor_mod_pow2, !Z.mod_small in R by done.
Qed.

(** The last word: bytes past the end are shifted out of the 32-bit result. *)
Lemma fastcmp_tail v rem :
  (1 <= rem <= 3)%nat -> in_u 32 v ->
  s32 (u32 (v ≪ (32 + (- Z.of_nat rem) ≪ 3))) = 0 <-> v mod 256 ^ Z.of_nat rem = 0.
Proof.
  intros Hr Hv.
  assert (Hs : forall z, in_u 32 z -> s32 z = 0 <-> z = 0).
  { intros z Hz. unfold in_u in Hz. unfold swrap.
    split; [|by intros ->]. intros E.
    destruct (Z.ltb_spec z (2 ^ 31));
      [rewrite Z.mod_small in E; lia|].
    change (2 ^ (32 - 1)) with (2 ^ 31) in E.
    rewrite <- (Z.mod_unique (z + 2 ^ 31) (2 ^ 32) 1 (z - 2 ^ 31)) in E by lia. lia. }
  rewrite Hs by (apply wrap_range; lia).
  destruct rem as [|[|[|[|]]]]; try lia; unfold wrap.
  all: rewrite Z.shiftl_mul_pow2 by (vm_compute; done).
  all: match goal with |- (_ * 2 ^ ?e) mod _ = 0 <-> _ mod ?p = 0 =>
         let e' := eval vm_compute in e in change e with e';
         let p' := eval vm_compute in p in change p with p';
         change (2 ^ 32) with (p' * 2 ^ e') end.
  all: rewrite Z.mul_mod_distr_r by lia; lia.
Qed.

Lemma str_fastcmp_loop_spec fuel m a b len i :
  mem_ok m -> 0 <= i < len -> len < 2 ^ 31 - 4 -> (len - i) / 4 < Z.of_nat fuel ->
  exists r, str_fastcmp_loop fuel m a b len i = Some r /\
    (r = 0 <-> read m (a + i) (Z.to_nat (len - i)) = read m (b + i) (Z.to_nat (len - i))).
Proof.
  intros Hm. revert i. induction fuel as [|f IH]; intros i Hi Hlen Hf.
  { pose proof (Z.div_pos (len - i) 4). lia. }
  simpl. set (v := rd32 m (a + i) ⊕ rd32 m (b + i)).
  assert (Hv : in_u 32 v) by (apply lxor_range; [lia|..]; by apply rd32_range).
  destruct (Z.ltb_spec (len - i) 4) as [Hlt|Hge].
  - (* last word *)
    set (rem := Z.to_nat (len - i)).
    pose proof (rd32_bytes_eq m (a + i) (b + i) rem Hm ltac:(lia)) as HB. fold v in HB.
    destruct (Z.eqb_spec v 0) as [E|E]; cbn [negb].
    + rewrite (swrap_id 32 (i + 4)) by (unfold in_s; lia).
      destruct (Z.ltb_spec (i + 4) len); [lia|].
      eexists; split; [reflexivity|]. rewrite E, Z.mod_0_l in HB by lia. tauto.
    + rewrite (swrap_id 32 (i - len)) by (unfold in_s; lia).
      replace (i - len) with (- Z.of_nat rem) by lia.
      destruct (Z.geb_spec (- Z.of_nat rem) (-3)); [|lia].
      rewrite Z.shiftl_mul_pow2 by lia. destruct (Z.ltb_spec (32 + - Z.of_nat rem * 2 ^ 3) 32); [|lia].
      rewrite <- (Z.shiftl_mul_pow2 (- Z.of_nat rem)) by lia.
      eexists; split; [reflexivity|]. rewrite fastcmp_tail by (done || lia). done.
  - (* a full word inside the string *)
    pose proof (rd32_bytes_eq m (a + i) (b + i) 4 Hm ltac:(lia)) as HB. fold v in HB.
    change (256 ^ Z.of_nat 4) with (2 ^ 32) in HB. rewrite Z.mod_small in HB by apply Hv.
    assert (HS : forall x, read m x (Z.to_nat (len - i)) =
               read m x 4 ++ read m (x + 4) (Z.to_nat (len - (i + 4)))).
    { intros x. rewrite <- (read_split m x 4). f_equal. lia. }
    destruct (Z.eqb_spec v 0) as [E|E]; cbn [negb].
    + rewrite (swrap_id 32 (i + 4)) by (unfold in_s; lia).
      apply HB in E.
      destruct (Z.ltb_spec (i + 4) len).
      * destruct (IH (i + 4)) as (r & -> & Hr); try lia.
        { replace (len - i) with (len - (i + 4) + 1 * 4) in Hf by lia.
          rewrite Z.div_add in Hf; lia. }
        eexists; split; [reflexivity|]. rewrite Hr, !HS, E, !Z.add_assoc.
        split; [by intros ->|]. apply app_inv_head.
      * eexists; split; [reflexivity|]. rewrite !HS, E.
        replace (Z.to_nat (len - (i + 4))) with 0%nat by lia. done.
    + rewrite (swrap_id 32 (i - len)) by (unfold in_s; lia).
      destruct (Z.geb_spec (i - len) (-3)); [lia|].
      eexists; split; [reflexivity|]. split; [done|]. rewrite !HS.
      intros E2. apply app_inj_1 in E2 as [E2 _]; [|by rewrite !length_read].
      by apply HB in E2.
Qed.

Lemma str_fastcmp_spec m a b len :
  mem_ok m -> 0 < len < 2 ^ 31 - 4 ->
  exists r, str_fastcmp m a b len = Some r /\
    (r = 0 <-> read m a (Z.to_nat len) = read m b (Z.to_nat len)).
Proof.
  intros Hm Hl. unfold str_fastcmp.
  destruct (str_fastcmp_loop_spec (Z.to_nat (len / 4) + 1) m a b len 0) as (r & E & Hr);
    try done; try lia.
  { rewrite Z.sub_0_r. pose proof (Z.div_pos len 4). lia. }
  exists r. rewrite !Z.add_0_r, Z.sub_0_r in Hr. done.
Qed.

(** ** The invariant of the string table *)

(** The largest block [kp_str_new] asks the pool for. *)
Definition MAX_BLOCK : Z := sizeof_ktap_str + (KP_MAX_STR - 1) + 1.

Definition contents (st : strstate) (s : Z) : option bytes :=
  (λ o, read (mem st) (getstr s) (Z.to_nat (s_len o))) <$> objs st !! s.

Definition bucket (st : strstate) (h : Z) : nat := Z.to_nat (h .& strmask st).

Record obj_ok (st : strstate) (s : Z) (o : ktap_str) : Prop := {
  o_len : 0 <= s_len o < KP_MAX_STR;
  o_base : mp_base (pool st) <= s;
  o_end : s + sizeof_ktap_str + s_len o + 1 <= mp_freepos (pool st);
  o_nul : mem st (getstr s + s_len o) = 0;
  o_hash : s_hash o = kp_str_hash (mem st) (getstr s) (s_len o);
  o_chain : exists ch, strhash st !! bucket st (s_hash o) = Some ch /\ s ∈ ch
}.

Record str_inv (st : strstate) : Prop := {
  i_mask : exists b, 0 <= b /\ strmask st = Z.ones b /\ length (strhash st) = Z.to_nat (2 ^ b);
  i_mem : mem_ok (mem st);
  i_pool : pool_ok (pool st) /\ mp_size (pool st) = KP_MAX_MEMPOOL_SIZE * 1024;
  i_num : strnum st = Z.of_nat (size (objs st));
  i_used : mp_freepos (pool st) <= mp_base (pool st) + strnum st * MAX_BLOCK;
  i_obj : forall s o, objs st !! s = Some o -> obj_ok st s o;
  i_chain : forall i ch s, strhash st !! i = Some ch -> s ∈ ch -> is_Some (objs st !! s);
  i_uniq : forall s1 s2 c, contents st s1 = Some c -> contents st s2 = Some c -> s1 = s2
}.

Lemma bucket_lt st h : str_inv st -> is_Some (strhash st !! bucket st h).
Proof.
  intros I. destruct (i_mask _ I) as (b & Hb & Hm & Hl). apply lookup_lt_is_Some.
  unfold bucket. rewrite Hm, Z.land_ones, Hl by done.
  pose proof (Z.mod_pos_bound h (2 ^ b) (pow2_pos b Hb)). lia.
Qed.

(** A comparison that answers is right about the bytes. *)
Definition eq_sound (st : strstate) (str len : Z) (eqf : Z -> option bool) : Prop :=
  forall sx b, eqf sx = Some b ->
    b = true <-> read (mem st) str (Z.to_nat len) = read (mem st) (getstr sx) (Z.to_nat len).

Lemma slow_eq_sound st str len : eq_sound st str len (slow_eq (mem st) str len).
Proof. intros sx b [= <-]. apply bool_decide_eq_true. Qed.

Lemma fast_eq_sound st str len :
  mem_ok (mem st) -> 0 <= len < KP_MAX_STR -> eq_sound st str len (fast_eq (mem st) str len).
Proof.
  intros Hm Hl sx b Hb. unfold fast_eq, KP_MAX_STR in *.
  destruct (Z.eq_dec len 0) as [->|Hne].
  - split; [done|]. intros _. unfold str_fastcmp in Hb. simpl in Hb.
    destruct (_ ⊕ _ =? 0); simpl in Hb; congruence.
  - destruct (str_fastcmp_spec (mem st) str (getstr sx) len Hm ltac:(lia)) as (r & E & Hr).
    rewrite E in Hb. simpl in Hb. simplify_eq. by rewrite Z.eqb_eq.
Qed.

Lemma fast_eq_total m str len sx :
  mem_ok m -> 0 < len < KP_MAX_STR -> is_Some (fast_eq m str len sx).
Proof.
  intros Hm Hl. unfold KP_MAX_STR in *.
  destruct (str_fastcmp_spec m str (getstr sx) len Hm ltac:(lia)) as (r & E & _).
  unfold fast_eq. rewrite E. eauto.
Qed.

(** What the walk of a chain finds out. *)
Lemma chain_search_spec st str len eqf ch r :
  eq_sound st str len eqf ->
  (forall s o, objs st !! s = Some o -> 0 <= s_len o) ->
  (forall s, s ∈ ch -> is_Some (objs st !! s)) ->
  chain_search st eqf len ch = Some r ->
  let c := read (mem st) str (Z.to_nat len) in
  match r with
  | Some sx => contents st sx = Some c
  | None => forall sx, 0 <= len -> sx ∈ ch -> contents st sx <> Some c
  end.
Proof.
  intros Hs Hpos. induction ch as [|sx ch IH]; intros Hin; simpl.
  { intros [= <-] sx _ Hx. by apply not_elem_of_nil in Hx. }
  destruct (Hin sx) as [o Ho]; [by left|]. rewrite Ho.
  assert (Hin' : forall s, s ∈ ch -> is_Some (objs st !! s)) by (intros; apply Hin; by right).
  specialize (IH Hin').
  assert (Hskip : (0 <= len -> contents st sx <> Some (read (mem st) str (Z.to_nat len))) ->
    chain_search st eqf len ch = Some r ->
    match r with
    | Some sx => contents st sx = Some (read (mem st) str (Z.to_nat len))
    | None => forall s, 0 <= len -> s ∈ sx :: ch ->
        contents st s <> Some (read (mem st) str (Z.to_nat len)) end).
  { intros Hne E. specialize (IH E). destruct r; [done|].
    intros s Hl Hx. apply elem_of_cons in Hx as [->|Hx]; eauto. }
  destruct (Z.eqb_spec (s_len o) len) as [El|El].
  - destruct (eqf sx) as [[]|] eqn:E; [| |done].
    + intros [= <-]. unfold contents. rewrite Ho. simpl. rewrite El.
      f_equal. symmetry. by apply (Hs _ _ E).
    + apply Hskip. intros _. unfold contents. rewrite Ho. simpl. rewrite El.
      intros [= Hc]. assert (false = true) by (by apply (Hs _ _ E)). done.
  - apply Hskip. intros Hl. unfold contents. rewrite Ho. simpl. intros [= Hc].
    apply (f_equal length) in Hc. rewrite !length_read in Hc.
    specialize (Hpos _ _ Ho). lia.
Qed.

(** ** Inserting a fresh string *)

Section Insert.
Context (st : strstate) (str len : Z).
Context (I : str_inv st) (Hlen : 0 <= len < KP_MAX_STR).

Let c : bytes := read (mem st) str (Z.to_nat len).
Let h : Z := kp_str_hash (mem st) str len.
Let s : Z := mp_freepos (pool st).
Let size' : Z := sizeof_ktap_str + len + 1.
Let pool' : mempool := mkpool (mp_base (pool st)) (s + size') (mp_size (pool st)).
Let st' : strstate := str_insert st pool' s str len h.

Context (Hfresh : forall sx, contents st sx <> Some c).

Lemma insert_mem : mem st' = write (mem st) (getstr s) (c ++ [0]).
Proof. done. Qed.

Lemma insert_read_old sx o n :
  objs st !! sx = Some o -> (n <= Z.to_nat (s_len o) + 1)%nat ->
  read (mem st') (getstr sx) n = read (mem st) (getstr sx) n.
Proof.
  intros Ho Hn. destruct (i_obj _ I _ _ Ho) as [Hl _ He _ _ _].
  apply read_write_out. left. unfold getstr, s, sizeof_ktap_str in *. lia.
Qed.

Lemma insert_read_new : read (mem st') (getstr s) (Z.to_nat len) = c.
Proof.
  rewrite insert_mem, read_write_in; [|rewrite length_app; unfold c; rewrite length_read; lia].
  apply take_app_length'. unfold c. by rewrite length_read.
Qed.

Lemma insert_fresh_addr : objs st !! s = None.
Proof.
  destruct (objs st !! s) as [o|] eqn:E; [|done].
  destruct (i_obj _ I _ _ E) as [Hl _ He _ _ _]. unfold s, sizeof_ktap_str in He. lia.
Qed.

Lemma insert_contents_old sx : sx <> s -> contents st' sx = contents st sx.
Proof.
  intros Hne. unfold contents, st'. simpl. rewrite lookup_insert_ne by done.
  destruct (objs st !! sx) as [o|] eqn:E; simpl; [|done].
  f_equal. eapply insert_read_old; [done|lia].
Qed.

Lemma insert_contents_new : contents st' s = Some c.
Proof.
  unfold contents, st'. simpl. rewrite lookup_insert_eq. simpl. f_equal. apply insert_read_new.
Qed.

Lemma insert_obj_old sx o : objs st !! sx = Some o -> obj_ok st' sx o.
Proof.
  intros Ho. destruct (i_obj _ I _ _ Ho) as [Hl Hb He Hn Hh (ch & Hch & Hin)].
  assert (E : read (mem st') (getstr sx) (Z.to_nat (s_len o) + 1)
            = read (mem st) (getstr sx) (Z.to_nat (s_len o) + 1))
    by (eapply insert_read_old; [done|lia]).
  split; try done.
  - unfold st', pool', s, size'. simpl. unfold sizeof_ktap_str in *. lia.
  - rewrite read_eq_iff in E. specialize (E (Z.to_nat (s_len o)) ltac:(lia)).
    rewrite Z2Nat.id in E by lia. congruence.
  - rewrite Hh. apply kp_str_hash_ext; [lia|]. symmetry. eapply insert_read_old; [done|lia].
  - unfold bucket in *. simpl.
    destruct (decide (Z.to_nat (h .& strmask st) = Z.to_nat (s_hash o .& strmask st))) as [Eq|Ne].
    + eexists. rewrite Eq, list_lookup_insert_eq by (by eapply lookup_lt_Some).
      rewrite Hch. split; [reflexivity|]. by right.
    + rewrite list_lookup_insert_ne by done. eauto.
Qed.

Lemma insert_obj_new : obj_ok st' s (mkstr len h 0).
Proof.
  destruct (i_pool _ I) as [(Hb & _) _]. split; simpl; try done.
  - unfold s. lia.
  - unfold size', sizeof_ktap_str. lia.
  - replace (getstr s + len) with (getstr s + Z.of_nat (Z.to_nat len)) by lia. apply write_in.
    rewrite lookup_app_r; unfold c; rewrite length_read; [|lia]. by rewrite Nat.sub_diag.
  - unfold h. apply kp_str_hash_ext; [lia|]. symmetry. apply insert_read_new.
  - destruct (bucket_lt _ h I) as [ch Hch]. unfold bucket in *. simpl. rewrite Hch.
    eexists. rewrite list_lookup_insert_eq by (by eapply lookup_lt_Some).
    split; [reflexivity|]. by left.
Qed.

Lemma insert_inv : strnum st <= KP_MAX_STRNUM + 1 -> str_inv st'.
Proof.
  intros Hnum. pose proof insert_fresh_addr as Hs. destruct (i_pool _ I) as [Hp Hsz].
  split.
  - destruct (i_mask _ I) as (b & ? & ? & ?). exists b. simpl. by rewrite length_insert.
  - apply write_mem_ok; [apply I|]. apply Forall_app. split; [apply read_bytes, I|].
    repeat constructor; unfold is_byte; lia.
  - split; [|done]. pose proof (i_used _ I). unfold pool_ok, pool', size', s in *.
    simpl. unfold sizeof_ktap_str in *. lia.
  - simpl. rewrite map_size_insert_None, (i_num _ I) by done. lia.
  - pose proof (i_used _ I). simpl. unfold size', s, MAX_BLOCK, KP_MAX_STR in *. lia.
  - intros sx o. simpl. destruct (decide (sx = s)) as [->|Hne].
    + rewrite lookup_insert_eq. intros [= <-]. apply insert_obj_new.
    + rewrite lookup_insert_ne by done. apply insert_obj_old.
  - intros i ch sx. simpl. destruct (decide (sx = s)) as [->|Hne].
    { rewrite lookup_insert_eq. eauto. }
    rewrite lookup_insert_ne by done.
    destruct (decide (i = Z.to_nat (h .& strmask st))) as [->|Hi].
    + intros Hch Hin.
      destruct (bucket_lt _ h I) as [ch0 Hch0]. unfold bucket in Hch0.
      rewrite list_lookup_insert_eq, Hch0 in Hch by (by eapply lookup_lt_Some).
      simplify_eq/=. apply elem_of_cons in Hin as [?|Hin]; [done|]. by eapply (i_chain _ I).
    + rewrite list_lookup_insert_ne by done. intros; by eapply (i_chain _ I).
  - intros s1 s2 c0 H1 H2.
    destruct (decide (s1 = s)) as [->|N1], (decide (s2 = s)) as [->|N2]; [done|..].
    + rewrite insert_contents_new in H1. rewrite insert_contents_old in H2 by done.
      simplify_eq. by apply Hfresh in H2.
    + rewrite insert_contents_new in H2. rewrite insert_contents_old in H1 by done.
      simplify_eq. by apply Hfresh in H1.
    + rewrite insert_contents_old in H1, H2 by done. by eapply (i_uniq _ I).
Qed.

End Insert.

(** ** Interning *)

Section Intern.
Context `{Kernel}.

(** The state after a fresh string has been interned. *)
Definition interned (st : strstate) (str len : Z) : strstate :=
  str_insert st
    (mkpool (mp_base (pool st)) (mp_freepos (pool st) + (sizeof_ktap_str + len + 1)) (mp_size (pool st)))
    (mp_freepos (pool st)) str len (kp_str_hash (mem st) str len).

Lemma pool_room st len :
  str_inv st -> len < KP_MAX_STR -> strnum st <= KP_MAX_STRNUM + 1 ->
  mp_freepos (pool st) + (sizeof_ktap_str + len + 1)
    <= mp_base (pool st) + mp_size (pool st).
Proof.
  intros I Hl Hn. pose proof (i_used _ I) as Hu. destruct (i_pool _ I) as [_ ->].
  unfold MAX_BLOCK, KP_MAX_STR, KP_MAX_STRNUM, KP_MAX_MEMPOOL_SIZE, sizeof_ktap_str in *. lia.
Qed.

(** A call that answers either finds the string or inserts it. *)
Lemma kp_str_new_cases st k str len s st' k' :
  str_inv st -> 0 <= len < KP_MAX_STR -> strnum st <= KP_MAX_STRNUM + 1 ->
  kp_str_new st k str len = Some (s, st', k') ->
  let c := read (mem st) str (Z.to_nat len) in
  (contents st s = Some c /\ st' = st /\ k' = k) \/
  ((forall sx, contents st sx <> Some c) /\ st' = interned st str len /\
   if strnum st >? KP_MAX_STRNUM
   then s = 0 /\ k' = kp_error "exceed max string number %d" k
   else s = mp_freepos (pool st) /\ k' = k).
Proof.
  intros I Hlen Hn E c. unfold kp_str_new in E.
  destruct (Z.geb_spec len KP_MAX_STR); [lia|].
  destruct (bucket_lt st (kp_str_hash (mem st) str len) I) as [ch Hch].
  unfold bucket in Hch. rewrite Hch in E.
  set (eqf := if near_page_end str len then _ else _) in E.
  assert (Heq : eq_sound st str len eqf).
  { unfold eqf. destruct (near_page_end str len); [apply slow_eq_sound|apply fast_eq_sound; [apply I|done]]. }
  destruct (chain_search st eqf len ch) as [r|] eqn:Er; [|done].
  pose proof (chain_search_spec st str len eqf ch r Heq) as Hsp.
  specialize (Hsp (λ s o Ho, proj1 (o_len _ _ _ (i_obj _ I s o Ho)))).
  specialize (Hsp (λ s Hs, i_chain _ I _ _ s Hch Hs) Er). cbv zeta in Hsp. fold c in Hsp.
  destruct r as [sx|]; [left; by simplify_eq|right].
  destruct (i_pool _ I) as [Hp Hsz].
  pose proof (pool_room st len I ltac:(lia) Hn) as Hroom.
  rewrite alloc_step in E; [|done|unfold sizeof_ktap_str; lia|unfold pool_ok in Hp; lia].
  destruct (Z.eqb_spec (mp_freepos (pool st)) 0); [unfold pool_ok in Hp; lia|].
  split.
  - intros sx Hc. assert (Ho := Hc). unfold contents in Ho.
    apply fmap_Some in Ho as (o & Ho & Hco).
    destruct (i_obj _ I _ _ Ho) as [Hl _ _ _ Hh (ch' & Hch' & Hin)].
    assert (El : s_len o = len).
    { apply (f_equal length) in Hco. unfold c in Hco. rewrite !length_read in Hco. lia. }
    rewrite El in *. unfold bucket in Hch'. rewrite Hh in Hch'.
    rewrite (kp_str_hash_ext (mem st) (mem st) (getstr sx) str len) in Hch' by (lia || done).
    rewrite Hch in Hch'. simplify_eq. by eapply (Hsp sx); [lia|..].
  - fold (interned st str len) in E. destruct (strnum st >? KP_MAX_STRNUM); simplify_eq; done.
Qed.

Lemma kp_str_new_inv st k str len s st' k' :
  str_inv st -> 0 <= len -> strnum st <= KP_MAX_STRNUM + 1 ->
  kp_str_new st k str len = Some (s, st', k') -> str_inv st'.
Proof.
  intros I Hl Hn E. destruct (Z.ltb_spec len KP_MAX_STR).
  - destruct (kp_str_new_cases st k str len s st' k' I ltac:(lia) Hn E) as [(_ & -> & _)|(Hf & -> & _)];
      [done|]. apply insert_inv; auto.
  - unfold kp_str_new in E. destruct (Z.geb_spec len KP_MAX_STR); [|lia]. by simplify_eq.
Qed.

(** Strings once interned keep their contents. *)
Lemma kp_str_new_keeps st k str len s st' k' sx c :
  str_inv st -> 0 <= len -> strnum st <= KP_MAX_STRNUM + 1 ->
  kp_str_new st k str len = Some (s, st', k') ->
  contents st sx = Some c -> contents st' sx = Some c.
Proof.
  intros I Hl Hn E Hc. destruct (Z.ltb_spec len KP_MAX_STR).
  - destruct (kp_str_new_cases st k str len s st' k' I ltac:(lia) Hn E) as [(_ & -> & _)|(Hf & -> & _)];
      [done|]. unfold interned. rewrite insert_contents_old; auto.
    intros ->. unfold contents in Hc. by rewrite insert_fresh_addr in Hc.
  - unfold kp_str_new in E. destruct (Z.geb_spec len KP_MAX_STR); [|lia]. by simplify_eq.
Qed.

(** A non-NULL answer is a string with the bytes that were asked for. *)
Lemma kp_str_new_contents st k str len s st' k' :
  str_inv st -> 0 <= len -> strnum st <= KP_MAX_STRNUM + 1 ->
  kp_str_new st k str len = Some (s, st', k') -> s <> 0 ->
  contents st' s = Some (read (mem st) str (Z.to_nat len)).
Proof.
  intros I Hl Hn E Hs. destruct (Z.ltb_spec len KP_MAX_STR).
  - destruct (kp_str_new_cases st k str len s st' k' I ltac:(lia) Hn E) as [(? & -> & _)|(Hf & -> & Hr)];
      [done|]. destruct (strnum st >? KP_MAX_STRNUM); destruct Hr as [-> _]; [done|].
    by apply insert_contents_new.
  - unfold kp_str_new in E. destruct (Z.geb_spec len KP_MAX_STR); [|lia]. by simplify_eq.
Qed.

(** A nonempty string never meets undefined behaviour. *)
Lemma kp_str_new_defined st k str len :
  str_inv st -> 0 < len < KP_MAX_STR -> is_Some (kp_str_new st k str len).
Proof.
  intros I Hlen. unfold kp_str_new. destruct (Z.geb_spec len KP_MAX_STR); [lia|].
  destruct (bucket_lt st (kp_str_hash (mem st) str len) I) as [ch Hch].
  unfold bucket in Hch. rewrite Hch.
  assert (Hc : forall ch, (forall s, s ∈ ch -> is_Some (objs st !! s)) ->
    is_Some (chain_search st (if near_page_end str len then slow_eq (mem st) str len
                              else fast_eq (mem st) str len) len ch)).
  { clear ch Hch. induction ch as [|sx ch IH]; intros Hin; simpl; [eauto|].
    destruct (Hin sx) as [o ->]; [by left|].
    assert (Hin' : forall s, s ∈ ch -> is_Some (objs st !! s)) by (intros; apply Hin; by right).
    destruct (s_len o =? len); [|auto].
    destruct (near_page_end str len); simpl in *; [case_bool_decide; eauto|].
    destruct (fast_eq_total (mem st) str len sx (i_mem _ I) Hlen) as [[] ->]; eauto. }
  destruct (Hc ch (λ s Hs, i_chain _ I _ _ s Hch Hs)) as [[] ->]; [eauto|].
  repeat case_match; eauto.
Qed.

(** A nonempty string below the limits is always interned, with no error. *)
Lemma kp_str_new_total st k str len :
  str_inv st -> 0 < len < KP_MAX_STR -> strnum st <= KP_MAX_STRNUM ->
  exists s st', kp_str_new st k str len = Some (s, st', k) /\ s <> 0.
Proof.
  intros I Hlen Hn. destruct (kp_str_new_defined st k str len I Hlen) as [[[s st'] k'] E].
  exists s, st'.
  assert (Hz : (strnum st >? KP_MAX_STRNUM) = false) by (destruct (Z.gtb_spec (strnum st) KP_MAX_STRNUM); lia || done).
  destruct (i_pool _ I) as [(Hb & _) _].
  destruct (kp_str_new_cases st k str len s st' k' I ltac:(lia) ltac:(lia) E) as [(Hc & -> & ->)|(_ & _ & Hr)].
  - split; [done|]. unfold contents in Hc. apply fmap_Some in Hc as (o & Ho & _).
    pose proof (o_base _ _ _ (i_obj _ I _ _ Ho)). lia.
  - rewrite Hz in Hr. destruct Hr as [-> ->]. split; [done|lia].
Qed.

End Intern.

(** ** Histories of the table *)

Section History.
Context `{Kernel}.

Definition intern_step (st st' : strstate) : Prop :=
  exists k str len s k', 0 <= len /\ strnum st <= KP_MAX_STRNUM + 1 /\
    kp_str_new st k str len = Some (s, st', k').

Lemma history_inv st st' : str_inv st -> rtc intern_step st st' -> str_inv st'.
Proof.
  intros I R. revert I. induction R as [|st st1 st2 (k & str & len & s & k' & ? & ? & E) _ IH]; [done|].
  intros I. apply IH. by eapply kp_str_new_inv.
Qed.

Lemma history_keeps st st' s c :
  str_inv st -> rtc intern_step st st' -> contents st s = Some c -> contents st' s = Some c.
Proof.
  intros I R. revert I. induction R as [|st st1 st2 (k & str & len & s' & k' & ? & ? & E) _ IH]; [done|].
  intros I Hc. apply IH; [by eapply kp_str_new_inv|by eapply kp_str_new_keeps].
Qed.

(** The state the VM start-up leaves: a fresh pool and empty anchors. *)
Definition str_init (m : memory) (addr newmask : Z) : strstate :=
  let pool0 := (kp_mempool_init (mkpool 0 0 0) addr KP_MAX_MEMPOOL_SIZE).2 in
  (kp_str_resize (mkst ∅ [] (-1) 0 pool0 m) kerr0 true newmask).1.2.

Lemma str_init_inv m addr b :
  mem_ok m -> 0 < addr -> addr + KP_MAX_MEMPOOL_SIZE * 1024 < 2 ^ 64 -> 0 <= b ->
  str_inv (str_init m addr (Z.ones b)).
Proof.
  intros Hm Ha Hl Hb. unfold str_init, kp_mempool_init.
  destruct (Z.eqb_spec addr 0); [lia|]. cbn [fst snd kp_str_resize pool objs].
  rewrite swrap_id by (unfold in_s, KP_MAX_MEMPOOL_SIZE; lia).
  split; simpl; try done.
  - exists b. rewrite length_replicate, Z.ones_equiv. split_and!; [done..|f_equal; lia].
  - unfold pool_ok. simpl. unfold KP_MAX_MEMPOOL_SIZE in *. lia.
  - intros i ch s Hch Hin. apply lookup_replicate in Hch as [-> _]. by apply not_elem_of_nil in Hin.
Qed.

(** The word-at-a-time comparison is defined on every nonempty string and
    answers 0 exactly when the compared bytes are equal, whatever follows them in
    memory; on a length of 0 it answers only when the four bytes at both
    addresses happen to agree, and otherwise shifts by 32. *)
Theorem str_fastcmp_decides m a b len :
  mem_ok m ->
  (0 < len < 2 ^ 31 - 4 ->
     exists r, str_fastcmp m a b len = Some r /\
       (r = 0 <-> read m a (Z.to_nat len) = read m b (Z.to_nat len))) /\
  (str_fastcmp m a b 0 = Some 0 <-> read m a 4 = read m b 4) /\
  (read m a 4 <> read m b 4 -> str_fastcmp m a b 0 = None).
Proof.
  intros Hm. split; [by apply str_fastcmp_spec|].
  pose proof (rd32_bytes_eq m a b 4 Hm ltac:(lia)) as HB.
  change (256 ^ Z.of_nat 4) with (2 ^ 32) in HB.
  rewrite Z.mod_small in HB by (apply lxor_range; [lia|..]; by apply rd32_range).
  unfold str_fastcmp. simpl. rewrite !Z.add_0_r, <- HB.
  destruct (Z.eqb_spec (rd32 m a ⊕ rd32 m b) 0); simpl; split; done.
Qed.

(** C10.  String equality is address equality: take any two interning calls that
    answer with a string, with any number of other interning calls in between.
    They answer with the same address exactly when they were given the same
    bytes; the first string still has its bytes at the end, the second has its
    own, and the invariant holds throughout. *)
Theorem intern_canonical st k a la s1 st1 k1 st2 k2 b lb s2 st3 k3 :
  str_inv st -> 0 <= la -> 0 <= lb ->
  strnum st <= KP_MAX_STRNUM + 1 -> strnum st2 <= KP_MAX_STRNUM + 1 ->
  kp_str_new st k a la = Some (s1, st1, k1) -> s1 <> 0 ->
  rtc intern_step st1 st2 ->
  kp_str_new st2 k2 b lb = Some (s2, st3, k3) -> s2 <> 0 ->
  let c1 := read (mem st) a (Z.to_nat la) in
  let c2 := read (mem st2) b (Z.to_nat lb) in
  str_inv st3 /\ contents st3 s1 = Some c1 /\ contents st3 s2 = Some c2 /\
  (s1 = s2 <-> c1 = c2).
Proof.
  intros I Ha Hb Hn Hn2 E1 Hs1 R E2 Hs2 c1 c2.
  assert (I1 : str_inv st1) by (eapply kp_str_new_inv, E1; done).
  assert (I2 : str_inv st2) by (eapply history_inv, R; done).
  assert (I3 : str_inv st3) by (eapply kp_str_new_inv, E2; done).
  assert (H1 : contents st3 s1 = Some c1).
  { eapply kp_str_new_keeps; [exact I2|done|done|exact E2|].
    eapply history_keeps; [exact I1|done|]. eapply kp_str_new_contents, Hs1; [| | |exact E1]; done. }
  assert (H2 : contents st3 s2 = Some c2)
    by (eapply kp_str_new_contents, Hs2; [| | |exact E2]; done).
  split_and!; try done. split; [congruence|].
  intros Hc. rewrite <- Hc in H2. by eapply (i_uniq _ I3).
Qed.

(** C38.  Although the pool itself never refuses, the limit on the number of
    strings keeps it safe: from the start-up state, after any history of
    interning calls that made at most two strings beyond the limit, every string
    lies inside the pool with its terminating NUL, and the next request fits. *)
Theorem intern_pool_safe m addr st :
  mem_ok m -> 0 < addr -> addr + KP_MAX_MEMPOOL_SIZE * 1024 < 2 ^ 64 ->
  rtc intern_step (str_init m addr 1023) st -> strnum st <= KP_MAX_STRNUM + 1 ->
  mp_freepos (pool st) + MAX_BLOCK <= mp_base (pool st) + mp_size (pool st) /\
  (forall s o, objs st !! s = Some o ->
     mp_base (pool st) <= s /\
     s + sizeof_ktap_str + s_len o + 1 <= mp_base (pool st) + mp_size (pool st) /\
     mem st (getstr s + s_len o) = 0).
Proof.
  intros Hm Ha Hl R Hn.
  assert (I : str_inv st) by (eapply history_inv, R; by apply (str_init_inv m addr 10)).
  pose proof (pool_room st (KP_MAX_STR - 1) I ltac:(lia) Hn) as Hr.
  split; [unfold MAX_BLOCK; lia|].
  intros s o Ho. destruct (i_obj _ I _ _ Ho). unfold MAX_BLOCK, sizeof_ktap_str, KP_MAX_STR in *.
  split_and!; [done|lia|done].
Qed.

(** The call that passes the limit reports the error and answers NULL, but
    the string has been entered in the table: asking for the same bytes again
    answers with the entry, and no error. *)
Theorem intern_limit_leaves_entry st k str len s st' k' :
  str_inv st -> 0 < len < KP_MAX_STR -> strnum st = KP_MAX_STRNUM + 1 ->
  (forall sx, contents st sx <> Some (read (mem st) str (Z.to_nat len))) ->
  kp_str_new st k str len = Some (s, st', k') ->
  s = 0 /\ k_state k' = KTAP_ERROR /\ strnum st' = strnum st + 1 /\
  contents st' (mp_freepos (pool st)) = Some (read (mem st) str (Z.to_nat len)).
Proof.
  intros I Hl Hn Hf E.
  destruct (kp_str_new_cases st k str len s st' k' I ltac:(lia) ltac:(lia) E)
    as [(Hc & _)|(_ & -> & Hr)]; [by apply Hf in Hc|].
  rewrite Hn in Hr. simpl in Hr. destruct Hr as [-> ->].
  split_and!; try done. by apply insert_contents_new.
Qed.

End History.

(** ** Concrete instances *)

(** Two-byte strings numbering the even addresses below 2^17, zero elsewhere. *)
Definition scratch : memory := λ x,
  if (0 <=? x) && (x <? 2 ^ 17)
  then if Z.even x then (x / 2) mod 256 else (x / 2) / 256 mod 256 else 0.

#[local] Ltac eval_num := vm_compute; repeat split; discriminate.

Definition st0 : strstate := str_init scratch (2 ^ 20) 1023.

Lemma scratch_ok : mem_ok scratch.
Proof.
  intros x. unfold scratch, is_byte. repeat case_match; try lia; apply Z.mod_pos_bound; lia.
Qed.

Lemma st0_inv : str_inv st0.
Proof. apply (str_init_inv scratch (2 ^ 20) 10); [apply scratch_ok|..]; unfold KP_MAX_MEMPOOL_SIZE; lia. Qed.

Definition code (i : Z) : bytes := [i mod 256; i / 256 mod 256].

Lemma code_inj i j : 0 <= i < 2 ^ 16 -> 0 <= j < 2 ^ 16 -> code i = code j -> i = j.
Proof.
  unfold code. intros Hi Hj [= E1 E2].
  rewrite !(Z.mod_small (_ / 256)) in E2
    by (split; [apply Z.div_pos|apply Z.div_lt_upper_bound]; lia).
  rewrite (Z.div_mod i 256), (Z.div_mod j 256) by lia. congruence.
Qed.

Lemma scratch_read (m : memory) i :
  0 <= i < 2 ^ 16 -> (forall x, x < 2 ^ 20 -> m x = scratch x) -> read m (2 * i) 2 = code i.
Proof.
  intros Hi Hm. unfold read, code. simpl. rewrite !Hm by lia. unfold scratch.
  change (Z.of_nat 1) with 1.
  rewrite !(proj2 (Z.leb_le _ _)), !(proj2 (Z.ltb_lt _ _)) by lia. cbn [andb].
  rewrite Z.add_0_r, Z.even_mul, Z.even_add, Z.even_mul. cbn [Z.even orb Bool.eqb].
  replace (2 * i / 2) with i by (rewrite Z.mul_comm, Z.div_mul; lia).
  replace ((2 * i + 1) / 2) with i by (rewrite Z.mul_comm, Z.div_add_l, Z.add_0_r; lia). done.
Qed.

(** A table that is filled up to the limit. *)
Lemma filled (n : nat) :
  Z.of_nat n <= KP_MAX_STRNUM + 1 ->
  exists st, str_inv st /\ strnum st = Z.of_nat n /\ mp_base (pool st) = 2 ^ 20 /\
    (forall x, x < 2 ^ 20 -> mem st x = scratch x) /\
    (forall s c, contents st s = Some c -> exists i, 0 <= i < Z.of_nat n /\ c = code i).
Proof.
  unfold KP_MAX_STRNUM. induction n as [|n IH]; intros Hn.
  { exists st0. split; [apply st0_inv|]. split_and!; [done..|].
    intros s c Hc. unfold contents in Hc. simpl in Hc. by rewrite lookup_empty in Hc. }
  destruct IH as (st & I & Hs & Hb & Hm & Hc); [lia|].
  destruct (kp_str_new_total st kerr0 (2 * Z.of_nat n) 2 I) as (s & st' & E & _);
    [unfold KP_MAX_STR; lia|unfold KP_MAX_STRNUM; lia|].
  assert (Er : read (mem st) (2 * Z.of_nat n) (Z.to_nat 2) = code (Z.of_nat n))
    by (apply scratch_read; [lia|done]).
  destruct (kp_str_new_cases st kerr0 (2 * Z.of_nat n) 2 s st' kerr0 I) as [(Hf & _)|(Hf & Est & _)];
    [unfold KP_MAX_STR; lia|unfold KP_MAX_STRNUM; lia|exact E|..].
  { rewrite Er in Hf. apply Hc in Hf as (i & Hi & Hf). apply code_inj in Hf; lia. }
  exists st'. split_and!.
  - eapply kp_str_new_inv; [exact I| | |exact E]; unfold KP_MAX_STRNUM; lia.
  - rewrite Est. simpl. lia.
  - by rewrite Est.
  - intros x Hx. rewrite Est. simpl. rewrite write_out; [by apply Hm|].
    destruct (i_pool _ I) as [(Hp & _) _]. unfold getstr, sizeof_ktap_str. lia.
  - intros sx c Hsx. rewrite Est in Hsx.
    destruct (decide (sx = mp_freepos (pool st))) as [->|Hne].
    + unfold interned in Hsx. rewrite insert_contents_new, Er in Hsx. simplify_eq.
      exists (Z.of_nat n). split; [lia|done].
    + unfold interned in Hsx. rewrite insert_contents_old in Hsx by done.
      apply Hc in Hsx as (i & Hi & ->). exists i. split; [lia|done].
Qed.

Lemma str_fastcmp_decides_witness :
  str_fastcmp scratch 2 2 2 = Some 0 /\ str_fastcmp scratch 2 4 0 = None.
Proof.
  split; [vm_compute; reflexivity|].
  apply (str_fastcmp_decides scratch 2 4 2 scratch_ok). vm_compute. discriminate.
Defined.

Lemma intern_canonical_witness :
  exists s1 st1 s2 st3,
    kp_str_new st0 kerr0 2 2 = Some (s1, st1, kerr0) /\
    kp_str_new st1 kerr0 4 2 = Some (s2, st3, kerr0) /\ s1 <> s2 /\ str_inv st3.
Proof.
  destruct (kp_str_new_total st0 kerr0 2 2 st0_inv) as (s1 & st1 & E1 & N1); [eval_num..|].
  assert (I1 : str_inv st1) by (eapply kp_str_new_inv; [exact st0_inv| | |exact E1]; eval_num).
  assert (Hst1 : strnum st1 = 1 /\ mem st1 4 = 2 /\ mem st1 5 = 0).
  { destruct (kp_str_new_cases st0 kerr0 2 2 s1 st1 kerr0 st0_inv) as [(Hc & _)|(_ & -> & _)];
      [eval_num|eval_num|exact E1|unfold contents in Hc; simpl in Hc; by rewrite lookup_empty in Hc|].
    unfold interned. simpl. rewrite !write_out by (vm_compute; left; reflexivity).
    split_and!; vm_compute; reflexivity. }
  destruct Hst1 as (Hn & Hm4 & Hm5).
  destruct (kp_str_new_total st1 kerr0 4 2 I1) as (s2 & st3 & E2 & N2);
    [eval_num|rewrite Hn; eval_num|].
  exists s1, st1, s2, st3. split; [exact E1|]. split; [exact E2|].
  destruct (intern_canonical st0 kerr0 2 2 s1 st1 kerr0 st1 kerr0 4 2 s2 st3 kerr0)
    as (I3 & _ & _ & HE);
    [exact st0_inv|eval_num|eval_num|eval_num|rewrite Hn; eval_num|exact E1|exact N1
    |apply rtc_refl|exact E2|exact N2|].
  split; [|exact I3]. rewrite HE. intros Hr. rewrite read_eq_iff in Hr.
  specialize (Hr 0%nat ltac:(vm_compute; lia)).
  change (4 + Z.of_nat 0) with 4 in Hr. rewrite Hm4 in Hr. vm_compute in Hr. discriminate.
Defined.

Lemma intern_pool_safe_witness :
  mp_freepos (pool st0) + MAX_BLOCK <= mp_base (pool st0) + mp_size (pool st0).
Proof.
  apply (intern_pool_safe scratch (2 ^ 20) st0 scratch_ok);
    [eval_num|vm_compute; done|apply rtc_refl|eval_num].
Defined.

Lemma intern_limit_leaves_entry_witness :
  exists st k' st', strnum st = 10000 /\
    kp_str_new st kerr0 (2 * 10000) 2 = Some (0, st', k') /\ k_state k' = KTAP_ERROR /\
    contents st' (mp_freepos (pool st)) = Some (code 10000).
Proof.
  destruct (filled (Z.to_nat 10000)) as (st & I & Hn & Hb & Hm & Hc);
    [rewrite Z2Nat.id by lia; eval_num|]. rewrite Z2Nat.id in Hn, Hc by lia.
  assert (Er : read (mem st) (2 * 10000) (Z.to_nat 2) = code 10000)
    by (apply scratch_read; [lia|exact Hm]).
  assert (Hf : forall sx, contents st sx <> Some (read (mem st) (2 * 10000) (Z.to_nat 2))).
  { intros sx E. rewrite Er in E. apply Hc in E as (i & Hi & E). apply code_inj in E; lia. }
  assert (Hd : is_Some (kp_str_new st kerr0 (2 * 10000) 2)) by (apply kp_str_new_defined; [exact I|eval_num]).
  destruct Hd as [[[s st'] k'] E].
  destruct (intern_limit_leaves_entry st kerr0 (2 * 10000) 2 s st' k' I) as (-> & Hk & _ & Hcn);
    [eval_num|rewrite Hn; done|exact Hf|exact E|].
  rewrite Er in Hcn. exists st, k', st'. split; [rewrite Hn; done|]. done.
Defined.

(** ** The ordering is lexicographic *)

(** Lexicographic comparison of byte strings, embedded NULs included. *)
Fixpoint lexcmp (l r : bytes) : Z :=
  match l, r with
  | [], [] => 0
  | [], _ :: _ => -1
  | _ :: _, [] => 1
  | a :: l', b :: r' => if a =? b then lexcmp l' r' else if a <? b then -1 else 1
  end.

Lemma strlen_nonneg l : 0 <= strlen l.
Proof. induction l; simpl; repeat case_match; lia. Qed.

(** A common leading byte other than NUL can be stripped from both sides. *)
Lemma str_cmp_loop_cons f a l r ll lr :
  a <> 0 ->
  str_cmp_loop (S f) (a :: l) (a :: r) (1 + ll) (1 + lr) = str_cmp_loop (S f) l r ll lr.
Proof.
  intros Ha. pose proof (strlen_nonneg l). simpl.
  rewrite Z.eqb_refl, (proj2 (Z.eqb_neq _ _) Ha).
  replace (1 + strlen l =? 1 + lr) with (strlen l =? lr)
    by (destruct (Z.eqb_spec (strlen l) lr), (Z.eqb_spec (1 + strlen l) (1 + lr)); lia || done).
  replace (1 + strlen l =? 1 + ll) with (strlen l =? ll)
    by (destruct (Z.eqb_spec (strlen l) ll), (Z.eqb_spec (1 + strlen l) (1 + ll)); lia || done).
  replace (Z.to_nat (1 + strlen l + 1)) with (S (Z.to_nat (strlen l + 1))) by lia.
  cbn [drop].
  replace (1 + ll - (1 + strlen l + 1)) with (ll - (strlen l + 1)) by lia.
  replace (1 + lr - (1 + strlen l + 1)) with (lr - (strlen l + 1)) by lia. done.
Qed.

Lemma str_cmp_loop_lex f ls rs :
  Forall is_byte ls -> Forall is_byte rs -> (length ls < f)%nat ->
  str_cmp_loop f (ls ++ [0]) (rs ++ [0]) (Z.of_nat (length ls)) (Z.of_nat (length rs))
  = Some (lexcmp ls rs).
Proof.
  intros Hl. revert f rs. induction Hl as [|a ls Ha Hl IH]; intros f rs Hr Hf;
    (destruct f as [|f]; [simpl in Hf; lia|]).
  - destruct rs as [|b rs]; [done|]. apply list.Forall_cons in Hr as [Hb _].
    unfold is_byte in Hb. cbn -[Z.of_nat Z.eqb Z.ltb].
    destruct (Z.eqb_spec 0 b) as [<-|]; cbn -[Z.of_nat Z.eqb Z.ltb].
    + destruct (Z.eqb_spec 0 (Z.of_nat (S (length rs)))); [lia|done].
    + destruct (Z.ltb_spec 0 b); [done|lia].
  - unfold is_byte in Ha. destruct rs as [|b rs].
    { cbn -[Z.of_nat Z.eqb Z.ltb]. destruct (Z.eqb_spec a 0) as [->|]; cbn -[Z.of_nat Z.eqb Z.ltb].
      - destruct (Z.eqb_spec 0 (Z.of_nat (S (length ls)))); [lia|done].
      - destruct (Z.ltb_spec a 0); [lia|done]. }
    apply list.Forall_cons in Hr as [Hb Hr]. unfold is_byte in Hb.
    cbn [app length lexcmp]. rewrite !Nat2Z.inj_succ, <- !Z.add_1_l.
    destruct (Z.eqb_spec a b) as [<-|Hab].
    + destruct (decide (a = 0)) as [->|Hne].
      * cbn [str_cmp_loop strcmp strlen]. change (0 =? 0) with true. cbn [negb].
        change (0 =? 0) with true. cbn [negb].
        destruct (Z.eqb_spec 0 (1 + Z.of_nat (length rs))); [lia|].
        destruct (Z.eqb_spec 0 (1 + Z.of_nat (length ls))); [lia|].
        change (Z.to_nat (0 + 1)) with 1%nat. cbn [drop].
        replace (1 + Z.of_nat (length ls) - (0 + 1)) with (Z.of_nat (length ls)) by lia.
        replace (1 + Z.of_nat (length rs) - (0 + 1)) with (Z.of_nat (length rs)) by lia.
        apply IH; [done|simpl in Hf; lia].
      * rewrite str_cmp_loop_cons by done. apply IH; [done|simpl in Hf; lia].
    + cbn -[Z.add Z.of_nat Z.eqb Z.ltb]. rewrite (proj2 (Z.eqb_neq a b) Hab). by destruct (a <? b).
Qed.

(** C33.  [kp_str_cmp], which works by repeated [strcmp] between the embedded
    NULs, terminates on every pair of strings and answers with the sign of the
    lexicographic order of the whole byte strings; in particular 0 exactly on
    equal strings. *)
Theorem kp_str_cmp_lexicographic ls rs :
  Forall is_byte ls -> Forall is_byte rs ->
  kp_str_cmp ls rs = Some (lexcmp ls rs) /\ (kp_str_cmp ls rs = Some 0 <-> ls = rs).
Proof.
  intros Hl Hr. unfold kp_str_cmp. rewrite str_cmp_loop_lex by (done || lia).
  split; [done|]. clear Hl Hr. split; [|intros ->; f_equal; induction rs; simpl; [done|by rewrite Z.eqb_refl]].
  intros [= E]. revert rs E. induction ls as [|a ls IH]; intros [|b rs] E; simpl in E; try done.
  destruct (Z.eqb_spec a b) as [->|]; [f_equal; auto|]. by destruct (a <? b).
Qed.

Lemma kp_str_cmp_lexicographic_witness :
  kp_str_cmp [97; 0; 98] [97; 0; 99] = Some (-1).
Proof.
  destruct (kp_str_cmp_lexicographic [97; 0; 98] [97; 0; 99]) as [-> _];
    [repeat constructor; unfold is_byte; lia..|]. reflexivity.
Defined.
