(* ===== verification/Tab.v ===== *)
(** * Tab: the tables of the VM ([runtime/kp_tab.c], [runtime/kp_tab.h])

    A table has an array part for the keys [0, asize) and a hash part: a node
    vector of a power-of-two size whose nodes are chained through [next], with
    Brent's variation on insertion.  Nodes are indices into the vector; a table
    created without a hash part leaves the node pointer uninitialised, and
    following it is undefined behaviour.

    The operations are those of the C file, one definition each.  The lock
    around each of them is not modelled: an operation is one atomic step. *)

From S2P Require Import Prelude Types Mempool.
#[local] Open Scope word_scope.

(** ** Hash functions of [kp_tab.h] *)

Definition HASH_BIAS : Z := - 0x04c11db7.
Definition HASH_ROT1 : Z := 14.
Definition HASH_ROT2 : Z := 5.
Definition HASH_ROT3 : Z := 13.

(** Rotation of a 32-bit word: [-(int)n & 31] is the complementary shift. *)
Definition kp_rol (x n : Z) : Z := u32 (x ≪ n) .| (x ≫ ((- n) .& 31)).

Definition hashrot (lo hi : Z) : Z :=
  let lo := lo ⊕ hi in let hi := kp_rol hi HASH_ROT1 in
  let lo := u32 (lo - hi) in let hi := kp_rol hi HASH_ROT2 in
  let hi := hi ⊕ lo in let hi := u32 (hi - kp_rol lo HASH_ROT3) in
  hi.

(** [__builtin_clz (x) ^ 31]: the index of the highest set bit. *)
Definition FLS (x : Z) : Z := Z.log2 x.
Definition hsize2hbits (s : Z) : Z :=
  if s =? 0 then 0 else if s =? 1 then 1 else 1 + FLS (u32 (s - 1)).

(** ** State *)

Record node := mknode { n_val : ktap_val; n_key : ktap_val; n_next : option nat }.

Record ktap_tab := mktab {
  array : list ktap_val;
  asize : Z;
  nodes : option (list node);   (* None: the pointer was never set *)
  hmask : Z;
  freetop : nat;
  hnum : Z
}.

(** A pointer to a value of a table: an array slot, the value of a node, or the
    shared nil. *)
Inductive slot := SArr (i : nat) | SNode (i : nat) | SNil.

(** What table operations read of the rest of the VM: the [hash] field of the
    string object at an address ([None]: no string there), the current event
    with its string form when it can be made, and the string form of a kernel
    stack. *)
Record kctx := mkctx {
  str_hash : Z -> option Z;
  current_event : option (option Z);
  kstack2str : Z -> Z -> option Z
}.

Definition with_nodes (t : ktap_tab) (ns : list node) : ktap_tab :=
  mktab (array t) (asize t) (Some ns) (hmask t) (freetop t) (hnum t).
Definition with_freetop (t : ktap_tab) (f : nat) : ktap_tab :=
  mktab (array t) (asize t) (nodes t) (hmask t) f (hnum t).

Section Tab.
Context (ks : kctx).

(** ** Object hashing *)

Definition hashmask (t : ktap_tab) (hash : Z) : nat := Z.to_nat (hash .& hmask t).
Definition hashlohi (t : ktap_tab) (lo hi : Z) : nat := hashmask t (hashrot lo hi).
Definition hashnum (t : ktap_tab) (o : ktap_val) : nat :=
  hashlohi t (nvalue o .& 0xffffffff) 0.
Definition hashgcref (t : ktap_tab) (o : ktap_val) : nat :=
  hashlohi t (gcvalue o .& 0xffffffff) (u32 (gcvalue o .& 0xffffffff + HASH_BIAS)).
Definition hashstr (t : ktap_tab) (s : Z) : option nat := hashmask t <$> str_hash ks s.

Definition hashkey (t : ktap_tab) (key : ktap_val) : option nat :=
  if is_string key then hashstr t (val key)
  else if is_number key then Some (hashnum t key)
  else if is_bool key then Some (hashmask t (boolvalue key))
  else Some (hashgcref t key).

(** ** Creation *)

(** [ok]: whether [vmalloc] gives the vector; its contents are arbitrary. *)
Definition newhpart (t : ktap_tab) (k : kerr) (ok : bool) (junk : node) (hbits : Z)
  : Z * ktap_tab * kerr :=
  if hbits >? KP_MAX_HBITS then (-1, t, kp_error "table overflow" k)
  else
    let hsize := u32 (1 ≪ hbits) in
    if negb ok then (- ENOMEM, t, k)
    else (0, mktab (array t) (asize t) (Some (replicate (Z.to_nat hsize) junk))
                   (u32 (hsize - 1)) (Z.to_nat hsize) (hnum t), k).

Definition clearnode (n : node) : node :=
  mknode (set_nil (n_val n)) (set_nil (n_key n)) None.

Definition clearhpart (t : ktap_tab) : option ktap_tab :=
  ns ← nodes t;
  if Z.of_nat (length ns) <=? hmask t then ub
  else Some (mktab (array t) (asize t)
    (Some (map clearnode (take (S (Z.to_nat (hmask t))) ns) ++ drop (S (Z.to_nat (hmask t))) ns))
    (hmask t) (freetop t) 0).

Definition clearapart (t : ktap_tab) : ktap_tab :=
  mktab (map set_nil (array t)) (asize t) (nodes t) (hmask t) (freetop t) (hnum t).

(** Allocation outcomes of one table creation: the object, the array, the
    nodes, and what the fresh memory holds. *)
Record talloc := mkta { ok_obj : bool; ok_arr : bool; ok_node : bool;
                        junk_val : ktap_val; junk_node : node; junk_hnum : Z }.

(** The result of [kp_obj_new] is not tested: no object, no defined behaviour. *)
Definition newtab (k : kerr) (m : talloc) (asize hbits : Z)
  : option (option ktap_tab * kerr) :=
  if negb (ok_obj m) then ub
  else
    let t := mktab [] 0 None 0 0 (junk_hnum m) in
    let hash_part t :=
      if negb (hbits =? 0) then
        match newhpart t k (ok_node m) (junk_node m) hbits with
        | (r, t, k) => if negb (r =? 0) then Some (None, k) else Some (Some t, k)
        end
      else Some (Some t, k) in
    if asize >? 0 then
      if asize >? KP_MAX_ASIZE then Some (None, kp_error "table overflow" k)
      else if negb (ok_arr m) then Some (None, k)
      else hash_part (mktab (replicate (Z.to_nat asize) (junk_val m)) asize None 0 0 (junk_hnum m))
    else hash_part t.

Definition kp_tab_new (k : kerr) (m : talloc) (asize hbits : Z)
  : option (option ktap_tab * kerr) :=
  '(ot, k) ← newtab k m asize hbits;
  match ot with
  | None => Some (None, k)
  | Some t =>
      let t := clearapart t in
      if hmask t >? 0 then t ← clearhpart t; Some (Some t, k) else Some (Some t, k)
  end.

Definition TABLE_NARR_ENTRIES : Z := 255.
Definition TABLE_NREC_ENTRIES : Z := 2048.

Definition kp_tab_new_ah (k : kerr) (m : talloc) (a h : Z) : option (option ktap_tab * kerr) :=
  let '(a, h) := if (a =? 0) && (h =? 0)
                 then (TABLE_NARR_ENTRIES, TABLE_NREC_ENTRIES) else (a, h) in
  kp_tab_new k m (u32 (if a >? 0 then a + 1 else 0)) (hsize2hbits h).

Definition kp_tab_clear (t : ktap_tab) : option ktap_tab :=
  let t := clearapart t in
  if hmask t >? 0 then clearhpart (with_freetop t (Z.to_nat (hmask t + 1))) else Some t.

(** ** Walking a chain *)

(** [do { if (p n) return n; } while ((n = n->next))]. *)
Fixpoint chain_find (fuel : nat) (ns : list node) (i : nat) (p : node -> bool)
  : option (option nat) :=
  match fuel with
  | O => None
  | S f =>
      n ← ns !! i;
      if p n then Some (Some i)
      else match n_next n with
           | None => Some None
           | Some j => chain_find f ns j p
           end
  end.

Definition is_num_key (key : Z) (n : node) : bool :=
  is_number (n_key n) && (nvalue (n_key n) =? key).
Definition is_str_key (s : Z) (n : node) : bool :=
  is_string (n_key n) && (val (n_key n) =? s).
Definition is_obj_key (key : ktap_val) (n : node) : bool :=
  kp_obj_equal false (n_key n) key.

Definition find_from (t : ktap_tab) (i : nat) (p : node -> bool) : option (option nat) :=
  ns ← nodes t; chain_find (length ns) ns i p.

Definition node_slot (o : option nat) : slot :=
  match o with Some i => SNode i | None => SNil end.

(** ** Getters *)

Definition tab_getinth (t : ktap_tab) (key : Z) : option slot :=
  let k := set_number key in
  node_slot <$> find_from t (hashnum t k) (is_num_key key).

Definition tab_getint (t : ktap_tab) (key : Z) : option slot :=
  if key <? asize t then Some (SArr (Z.to_nat key)) else tab_getinth t key.

Definition tab_getstr (t : ktap_tab) (key : Z) : option slot :=
  i ← hashstr t key; node_slot <$> find_from t i (is_str_key key).

Definition genlookup (t : ktap_tab) (key : ktap_val) : option (option nat) :=
  i ← hashkey t key; find_from t i (is_obj_key key).

Definition tab_get (t : ktap_tab) (k : kerr) (key : ktap_val) : option (slot * kerr) :=
  if is_string key then s ← tab_getstr t (val key); Some (s, k)
  else if is_number key then
    let nk := nvalue key in
    let n := u32 nk in
    if nk =? n then s ← tab_getint t n; Some (s, k)
    else o ← genlookup t key; Some (node_slot o, k)
  else if is_eventstr key then
    match current_event ks with
    | None => Some (SNil, kp_error "cannot stringify event str in invalid context" k)
    | Some None => Some (SNil, k)
    | Some (Some ts) => s ← tab_getstr t (val key); Some (s, k)
    end
  else if negb (is_nil key) then o ← genlookup t key; Some (node_slot o, k)
  else Some (SNil, k).

(** The value a slot points to. *)
Definition slot_val (t : ktap_tab) (s : slot) : option ktap_val :=
  match s with
  | SNil => Some kp_niltv
  | SArr i => array t !! i
  | SNode i => ns ← nodes t; n_val <$> ns !! i
  end.

Definition kp_tab_getint (t : ktap_tab) (key : Z) : option ktap_val :=
  s ← tab_getint t key; slot_val t s.
Definition kp_tab_getstr (t : ktap_tab) (key : Z) : option ktap_val :=
  s ← tab_getstr t key; slot_val t s.
Definition kp_tab_get (t : ktap_tab) (k : kerr) (key : ktap_val) : option (ktap_val * kerr) :=
  '(s, k) ← tab_get t k key; v ← slot_val t s; Some (v, k).

(** ** Insertion *)

(** [do { if (freenode == nodebase) overflow; } while (!is_nil(&(--freenode)->key))]:
    the inner [None] is the overflow. *)
Fixpoint find_free (ns : list node) (freenode : nat) : option (option nat) :=
  match freenode with
  | O => Some None
  | S f =>
      n ← ns !! f;
      if is_nil (n_key n) then Some (Some f) else find_free ns f
  end.

(** [while (collide->next != n) collide = collide->next]. *)
Fixpoint find_pred (fuel : nat) (ns : list node) (collide n : nat) : option nat :=
  match fuel with
  | O => None
  | S f =>
      c ← ns !! collide;
      if decide (n_next c = Some n) then Some collide
      else j ← n_next c; find_pred f ns j n
  end.

Definition set_next (ns : list node) (i : nat) (nx : option nat) : option (list node) :=
  n ← ns !! i; Some (<[i := mknode (n_val n) (n_key n) nx]> ns).

(** Rechain string keys that belong to the main node [n]. *)
Fixpoint rechain (fuel : nat) (t : ktap_tab) (ns : list node) (freenode n : nat)
  : option (list node) :=
  match fuel with
  | O => None
  | S f =>
      fn ← ns !! freenode;
      match n_next fn with
      | None => Some ns
      | Some nn =>
          nnode ← ns !! nn;
          here ← (if is_string (n_key nnode) && negb (is_nil (n_val nnode))
                  then h ← hashstr t (val (n_key nnode)); Some (bool_decide (h = n))
                  else Some false);
          if (here : bool) then
            ns ← set_next ns freenode (n_next nnode);
            nd ← ns !! n;
            ns ← set_next ns nn (n_next nd);
            ns ← set_next ns n (Some nn);
            rechain f t ns freenode n
          else rechain f t ns nn n
      end
  end.

(** The colliding node at [n] is not in its main position: it moves to the
    free node and leaves [n] empty. *)
Definition move_colliding (t : ktap_tab) (ns : list node) (n freenode collide : nat)
  : option (list node) :=
  p ← find_pred (length ns) ns collide n;
  ns ← set_next ns p (Some freenode);
  nd ← ns !! n;
  let ns := <[freenode := mknode (n_val nd) (n_key nd) (n_next nd)]> ns in
  nd ← ns !! n;
  let ns := <[n := mknode (set_nil (n_val nd)) (n_key nd) None]> ns in
  rechain (length ns) t ns freenode n.

(** Store the key in node [n] and count it. *)
Definition put_key (t : ktap_tab) (ns : list node) (ft n : nat) (key : ktap_val)
  : option (option nat * ktap_tab) :=
  nd ← ns !! n;
  Some (Some n, mktab (array t) (asize t)
    (Some (<[n := mknode (n_val nd) key (n_next nd)]> ns)) (hmask t) ft (u32 (hnum t + 1))).

(** The result is the node whose value is to be set, none on overflow. *)
Definition kp_tab_newkey (t : ktap_tab) (k : kerr) (key : ktap_val)
  : option (option nat * ktap_tab * kerr) :=
  n ← hashkey t key;
  ns ← nodes t;
  nd ← ns !! n;
  if negb (is_nil (n_val nd)) || (hmask t =? 0) then
    ofree ← find_free ns (freetop t);
    match ofree with
    | None => Some (None, t, kp_error "table overflow" k)
    | Some freenode =>
        collide ← hashkey t (n_key nd);
        if negb (Nat.eqb collide n) then
          ns ← move_colliding t ns n freenode collide;
          r ← put_key t ns freenode n key; Some (r, k)
        else
          ns ← set_next ns freenode (n_next nd);
          ns ← set_next ns n (Some freenode);
          r ← put_key t ns freenode freenode key; Some (r, k)
    end
  else r ← put_key t ns (freetop t) n key; Some (r, k).

(** ** Setters: the slot to store to, none for NULL *)

Definition new_slot (r : option nat * ktap_tab * kerr) : option slot * ktap_tab * kerr :=
  let '(o, t, k) := r in (SNode <$> o, t, k).

Definition find_or_new (t : ktap_tab) (k : kerr) (o : option (option nat)) (key : ktap_val)
  : option (option slot * ktap_tab * kerr) :=
  o ← o;
  match o with
  | Some i => Some (Some (SNode i), t, k)
  | None => new_slot <$> kp_tab_newkey t k key
  end.

Definition tab_setinth (t : ktap_tab) (k : kerr) (key : Z) :=
  let kv := set_number key in
  find_or_new t k (find_from t (hashnum t kv) (is_num_key key)) kv.

Definition tab_setint (t : ktap_tab) (k : kerr) (key : Z)
  : option (option slot * ktap_tab * kerr) :=
  if key <? asize t then Some (Some (SArr (Z.to_nat key)), t, k) else tab_setinth t k key.

Definition tab_setstr (t : ktap_tab) (k : kerr) (key : Z)
  : option (option slot * ktap_tab * kerr) :=
  find_or_new t k (i ← hashstr t key; find_from t i (is_str_key key)) (set_string key).

Definition genset (t : ktap_tab) (k : kerr) (key : ktap_val)
  : option (option slot * ktap_tab * kerr) :=
  find_or_new t k (genlookup t key) key.

Definition tab_set (t : ktap_tab) (k : kerr) (key : ktap_val)
  : option (option slot * ktap_tab * kerr) :=
  if is_string key then tab_setstr t k (val key)
  else if is_number key then
    let nk := nvalue key in
    let n := u32 nk in
    if nk =? n then tab_setint t k n else genset t k key
  else if itype key =? KTAP_TKSTACK then
    match kstack2str ks (stack_depth key) (stack_skip key) with
    | None => Some (None, t, k)
    | Some bt => tab_setstr t k bt
    end
  else if is_eventstr key then
    match current_event ks with
    | None => Some (None, t, kp_error "cannot stringify event str in invalid context" k)
    | Some None => Some (None, t, k)
    | Some (Some ts) => tab_setstr t k ts
    end
  else if is_nil key then Some (None, t, kp_error "table nil index" k)
  else genset t k key.

(** [*slot = v]; the shared nil is never written through. *)
Definition store (t : ktap_tab) (s : slot) (v : ktap_val) : option ktap_tab :=
  match s with
  | SNil => ub
  | SArr i =>
      if decide (i < length (array t))%nat
      then Some (mktab (<[i := v]> (array t)) (asize t) (nodes t) (hmask t) (freetop t) (hnum t))
      else ub
  | SNode i =>
      ns ← nodes t; nd ← ns !! i;
      Some (with_nodes t (<[i := mknode v (n_key nd) (n_next nd)]> ns))
  end.

(** [if (v) set_obj(v, val)]. *)
Definition set_result (r : option (option slot * ktap_tab * kerr)) (v : ktap_val)
  : option (ktap_tab * kerr) :=
  '(o, t, k) ← r;
  match o with
  | None => Some (t, k)
  | Some s => t ← store t s v; Some (t, k)
  end.

(** [set_number(v, nvalue(v) + n)], or [n] on nil, or an error. *)
Definition incr_result (r : option (option slot * ktap_tab * kerr)) (n : Z)
  : option (ktap_tab * kerr) :=
  '(o, t, k) ← r;
  match o with
  | None => Some (t, k)
  | Some s =>
      v ← slot_val t s;
      if is_number v then t ← store t s (set_number (nvalue v + n)); Some (t, k)
      else if is_nil v then t ← store t s (set_number n); Some (t, k)
      else Some (t, kp_error "use '+=' operator on non-number value" k)
  end.

Definition kp_tab_setint (t : ktap_tab) (k : kerr) (key : Z) (v : ktap_val) :=
  set_result (tab_setint t k key) v.
Definition kp_tab_setstr (t : ktap_tab) (k : kerr) (key : Z) (v : ktap_val) :=
  set_result (tab_setstr t k key) v.
Definition kp_tab_set (t : ktap_tab) (k : kerr) (key : ktap_val) (v : ktap_val) :=
  set_result (tab_set t k key) v.
Definition kp_tab_incrint (t : ktap_tab) (k : kerr) (key n : Z) :=
  incr_result (tab_setint t k key) n.
Definition kp_tab_incrstr (t : ktap_tab) (k : kerr) (key n : Z) :=
  incr_result (tab_setstr t k key) n.
Definition kp_tab_incr (t : ktap_tab) (k : kerr) (key : ktap_val) (n : Z) :=
  incr_result (tab_set t k key) n.

(** ** Duplication *)

(** Copy the used nodes of [ns] into [t] through [kp_tab_set]. *)
Fixpoint dup_nodes (t : ktap_tab) (k : kerr) (ns : list node) : option (ktap_tab * kerr) :=
  match ns with
  | [] => Some (t, k)
  | n :: rest =>
      if is_nil (n_key n) then dup_nodes t k rest
      else '(t, k) ← kp_tab_set t k (n_key n) (n_val n); dup_nodes t k rest
  end.

Definition kp_tab_dup (k : kerr) (m : talloc) (kt : ktap_tab) : option (option ktap_tab * kerr) :=
  '(ot, k) ← kp_tab_new_ah k m 0 0;
  match ot with
  | None => Some (None, k)
  | Some t =>
      let n := Z.to_nat (asize kt) in
      t ← (if asize kt >? 0 then
             if decide (n <= length (array t) /\ n <= length (array kt))%nat
             then Some (mktab (take n (array kt) ++ drop n (array t)) (asize t) (nodes t)
                              (hmask t) (freetop t) (hnum t))
             else ub
           else Some t);
      ns ← nodes kt;
      if decide (Z.to_nat (hmask kt) < length ns)%nat then
        '(t, k) ← dup_nodes t k (take (S (Z.to_nat (hmask kt))) ns); Some (Some t, k)
      else ub
  end.

(** ** Traversal *)

Definition keyindex (t : ktap_tab) (k : kerr) (key : ktap_val) : option (Z * kerr) :=
  let nk := nvalue key in
  let n := u32 nk in
  if is_number key && ((n <? asize t) && (nk =? n)) then Some (n, k)
  else if negb (is_nil key) then
    o ← genlookup t key;
    match o with
    | Some i => Some (u32 (asize t + Z.of_nat i), k)
    | None => Some (0, kp_error "table next index" k)
    end
  else Some (u32 (Z.lnot 0), k).

(** [for (i++; i < asize; i++)]: the first non-nil array slot from [i]. *)
Fixpoint next_array (fuel : nat) (t : ktap_tab) (i : Z) : option (Z * option ktap_val) :=
  match fuel with
  | O => None
  | S f =>
      if i <? asize t then
        v ← array t !! Z.to_nat i;
        if negb (is_nil v) then Some (i, Some v) else next_array f t (u32 (i + 1))
      else Some (i, None)
  end.

(** [for (i -= asize; i <= hmask; i++)]: the first node with a value from [i]. *)
Fixpoint next_node (fuel : nat) (t : ktap_tab) (i : Z) : option (option node) :=
  match fuel with
  | O => None
  | S f =>
      if i <=? hmask t then
        ns ← nodes t; n ← ns !! Z.to_nat i;
        if negb (is_nil (n_val n)) then Some (Some n) else next_node f t (u32 (i + 1))
      else Some None
  end.

(** The next key and value, none at the end of the traversal. *)
Definition kp_tab_next (t : ktap_tab) (k : kerr) (key : ktap_val)
  : option (option (ktap_val * ktap_val) * kerr) :=
  '(i, k) ← keyindex t k key;
  '(i, o) ← next_array (S (Z.to_nat (asize t))) t (u32 (i + 1));
  match o with
  | Some v => Some (Some (set_number i, v), k)
  | None =>
      on ← next_node (S (S (Z.to_nat (hmask t)))) t (u32 (i - asize t));
      match on with
      | Some n => Some (Some (n_key n, n_val n), k)
      | None => Some (None, k)
      end
  end.

(** ** Length *)

Definition kp_tab_len (t : ktap_tab) : option Z :=
  if decide (Z.to_nat (asize t) <= length (array t))%nat then
    ns ← nodes t;
    if decide (Z.to_nat (hmask t) < length ns)%nat then
      Some (Z.of_nat (length (filter (λ v, is_nil v = false) (take (Z.to_nat (asize t)) (array t)))
             + length (filter (λ n, is_nil (n_key n) = false) (take (S (Z.to_nat (hmask t))) ns))))
    else ub
  else ub.

End Tab.
