(* ===== verification/TabInv.v ===== *)
(** * TabInv: the invariant of the hash part and the refinement to finite maps

    The node vector of a table is, behind its [next] indices, a set of disjoint
    chains that cover exactly the nodes in use; every key is reachable from the
    node it hashes to, and a node that is not in its main position has a main
    node that is.  From this follow: lookups terminate and find exactly the keys
    present, insertion preserves the invariant and every other entry, and the
    table operations refine the operations of a finite map. *)

From S2P Require Import Prelude Types Mempool Tab.
#[local] Open Scope word_scope.

(** ** Chains of nodes *)

Definition next_of (ns : list node) (i : nat) : option (option nat) := n_next <$> ns !! i.

(** [l] is a chain: each node's [next] is the following one, the last has none. *)
Fixpoint links (ns : list node) (l : list nat) : Prop :=
  match l with
  | [] => True
  | i :: l' =>
      next_of ns i = Some (head l') /\ links ns l'
  end.

Lemma links_app_inv ns l1 l2 : links ns (l1 ++ l2) -> links ns l2.
Proof. induction l1; simpl; [done|]. intros [_ ?]; auto. Qed.

Lemma links_lt ns l i : links ns l -> i ∈ l -> (i < length ns)%nat.
Proof.
  induction l as [|j l IH]; intros Hl Hi; [by apply not_elem_of_nil in Hi|].
  destruct Hl as [Hj Hl]. apply elem_of_cons in Hi as [->|Hi]; [|auto].
  unfold next_of in Hj. apply fmap_Some in Hj as (n & Hn & _). by eapply lookup_lt_Some.
Qed.

(** Chains depend on the links of their own nodes only. *)
Lemma links_ext ns ns' l :
  (forall i, i ∈ l -> next_of ns' i = next_of ns i) -> links ns l -> links ns' l.
Proof.
  induction l as [|i l IH]; intros E Hl; [done|]. destruct Hl as [Hi Hl]. split.
  - rewrite E by (by left). done.
  - apply IH; [|done]. intros j Hj. apply E. by right.
Qed.

Lemma next_of_insert_ne ns i j n : i <> j -> next_of (<[i:=n]> ns) j = next_of ns j.
Proof. intros. unfold next_of. by rewrite list_lookup_insert_ne. Qed.

Lemma next_of_insert_eq ns i n :
  (i < length ns)%nat -> next_of (<[i:=n]> ns) i = Some (n_next n).
Proof. intros. unfold next_of. by rewrite list_lookup_insert_eq. Qed.

(** A segment of a chain whose last node points to [h]. *)
Fixpoint seg (ns : list node) (l : list nat) (h : option nat) : Prop :=
  match l with
  | [] => True
  | i :: l' => next_of ns i = Some (from_option Some h (head l')) /\ seg ns l' h
  end.

Lemma links_app ns l1 l2 : links ns (l1 ++ l2) <-> seg ns l1 (head l2) /\ links ns l2.
Proof.
  induction l1 as [|i l1 IH]; simpl; [tauto|]. rewrite IH.
  replace (head (l1 ++ l2)) with (from_option Some (head l2) (head l1)) by (by destruct l1). tauto.
Qed.

Lemma seg_ext ns ns' l h :
  (forall i, i ∈ l -> next_of ns' i = next_of ns i) -> seg ns l h -> seg ns' l h.
Proof.
  induction l as [|i l IH]; intros E Hl; [done|]. destruct Hl as [Hi Hl]. split.
  - rewrite E by (by left). done.
  - apply IH; [|done]. intros j Hj. apply E. by right.
Qed.

Lemma seg_snoc ns l p h : seg ns (l ++ [p]) h <-> seg ns l (Some p) /\ next_of ns p = Some h.
Proof.
  induction l as [|i l IH]; simpl; [tauto|]. rewrite IH.
  replace (from_option Some h (head (l ++ [p]))) with (from_option Some (Some p) (head l))
    by (by destruct l). tauto.
Qed.

(** A walk along a chain finds its first node that satisfies the test. *)
Lemma chain_find_links ns l i fuel p :
  links ns (i :: l) -> (length l < fuel)%nat ->
  (exists j n, j ∈ i :: l /\ ns !! j = Some n /\ p n = true /\
     chain_find fuel ns i p = Some (Some j)) \/
  ((forall j n, j ∈ i :: l -> ns !! j = Some n -> p n = false) /\
     chain_find fuel ns i p = Some None).
Proof.
  revert i fuel. induction l as [|j l IH]; intros i fuel [Hi Hl] Hf;
    (destruct fuel as [|fuel]; [lia|]); simpl;
    unfold next_of in Hi; apply fmap_Some in Hi as (n & Hn & Hnx); rewrite Hn; simpl;
    simpl in Hnx; rewrite <- Hnx.
  - destruct (p n) eqn:Ep.
    + left. exists i, n. repeat split; try done. by left.
    + right. split; [|done]. intros j n' Hj Hj'.
      apply list_elem_of_singleton in Hj as ->. by simplify_eq.
  - destruct (p n) eqn:Ep.
    + left. exists i, n. repeat split; try done. by left.
    + destruct (IH j fuel Hl) as [(j' & n' & Hj & ? & ? & ?)|[Hall ?]]; [simpl in Hf; lia|..].
      * left. exists j', n'. repeat split; try done. by right.
      * right. split; [|done]. intros j' n' Hj Hj'.
        apply elem_of_cons in Hj as [->|Hj]; [by simplify_eq|eauto].
Qed.

(** The node before [n] on a chain. *)
Lemma find_pred_links ns l2 p n l3 c fuel :
  head (l2 ++ [p]) = Some c ->
  links ns (l2 ++ p :: n :: l3) -> NoDup (l2 ++ p :: n :: l3) ->
  (length l2 < fuel)%nat -> find_pred fuel ns c n = Some p.
Proof.
  revert c fuel. induction l2 as [|d l2 IH]; intros c fuel Hc Hl Hnd Hf;
    (destruct fuel as [|fuel]; [simpl in Hf; lia|]); simpl in Hc; simplify_eq;
    destruct Hl as [Hn Hl]; simpl; unfold next_of in Hn;
    apply fmap_Some in Hn as (nd & Hn & Hnx); rewrite Hn; simpl; rewrite <- Hnx.
  - by rewrite decide_True.
  - simpl in Hnd. apply list.NoDup_cons in Hnd as [_ Hnd].
    assert (Hh : head (l2 ++ p :: n :: l3) = head (l2 ++ [p])) by (by destruct l2).
    rewrite Hh. rewrite decide_False.
    + destruct (head (l2 ++ [p])) as [e|] eqn:He; [|by destruct l2]. simpl.
      apply IH; [done..|simpl in Hf; lia].
    + intros Hn'. destruct l2 as [|e l2]; simpl in Hn'; simplify_eq.
      * apply list.NoDup_cons in Hnd as [Hnd _]. apply Hnd. by left.
      * apply list.NoDup_cons in Hnd as [Hnd _]. apply Hnd, elem_of_app. right. right. by left.
Qed.

(** ** Disjoint chains *)

Lemma NoDup_split_unique (a : nat) l1 l2 l1' l2' :
  NoDup (l1 ++ a :: l2) -> l1 ++ a :: l2 = l1' ++ a :: l2' -> l2 = l2'.
Proof.
  revert l1'. induction l1 as [|b l1 IH]; intros [|b' l1'] Hnd E; simplify_eq/=; try done.
  - apply list.NoDup_cons in Hnd as [Hnd _]. exfalso. apply Hnd, elem_of_app. right. by left.
  - apply list.NoDup_cons in Hnd as [Hnd _]. exfalso. apply Hnd, elem_of_app. right. by left.
  - apply list.NoDup_cons in Hnd as [_ Hnd]. eauto.
Qed.

Lemma elem_of_concat (C : list (list nat)) i : i ∈ concat C <-> exists l, l ∈ C /\ i ∈ l.
Proof.
  induction C as [|c C IH]; simpl.
  - split; [intros H; by apply not_elem_of_nil in H|intros (l & H & _); by apply not_elem_of_nil in H].
  - rewrite elem_of_app, IH. setoid_rewrite elem_of_cons. split.
    + intros [Hi|(l & Hl & Hi)]; eauto.
    + intros (l & [->|Hl] & Hi); eauto.
Qed.

Lemma chains_NoDup (C : list (list nat)) l : NoDup (concat C) -> l ∈ C -> NoDup l.
Proof.
  intros Hnd Hl. apply list_elem_of_split in Hl as (C1 & C2 & ->).
  rewrite concat_app in Hnd. simpl in Hnd.
  apply list.NoDup_app in Hnd as (_ & _ & Hnd). by apply list.NoDup_app in Hnd as (? & _ & _).
Qed.

Lemma chain_same (C : list (list nat)) l l' i :
  NoDup (concat C) -> l ∈ C -> l' ∈ C -> i ∈ l -> i ∈ l' -> l = l'.
Proof.
  induction C as [|c C IH]; intros Hnd Hl Hl' Hi Hi'; [by apply not_elem_of_nil in Hl|].
  simpl in Hnd. apply list.NoDup_app in Hnd as (H1 & H2 & H3).
  apply elem_of_cons in Hl as [->|Hl], Hl' as [->|Hl']; [done|..|eauto].
  - exfalso. apply (H2 i Hi), elem_of_concat. eauto.
  - exfalso. apply (H2 i Hi'), elem_of_concat. eauto.
Qed.

Lemma chain_suffix_unique (C : list (list nat)) l1 a l2 l1' l2' :
  NoDup (concat C) -> l1 ++ a :: l2 ∈ C -> l1' ++ a :: l2' ∈ C -> l2 = l2'.
Proof.
  intros Hnd Hl Hl'.
  assert (E : l1 ++ a :: l2 = l1' ++ a :: l2').
  { eapply (chain_same C _ _ a); eauto; apply elem_of_app; right; by left. }
  eapply NoDup_split_unique; [|exact E]. by eapply chains_NoDup.
Qed.

(** ** The invariant *)

Section Inv.
Context (ks : kctx).

(** Keys that can live in the hash part: not nil, with a hash, and not covered
    by the array part.  (Light userdata are never equal to a stored key.) *)
Record key_ok (t : ktap_tab) (key : ktap_val) : Prop := {
  k_nonnil : is_nil key = false;
  k_light : type key <> KTAP_TLIGHTUD;
  k_hash : is_Some (hashkey ks t key);
  k_range : is_number key = true -> val key = u32 (val key) -> asize t <= val key
}.

Definition used (ns : list node) (i : nat) : Prop :=
  exists nd, ns !! i = Some nd /\ is_nil (n_key nd) = false.

Record hp_inv (t : ktap_tab) (ns : list node) (C : list (list nat)) : Prop := {
  hp_bits : exists b, 1 <= b <= KP_MAX_HBITS /\ hmask t = Z.ones b /\
              length ns = Z.to_nat (2 ^ b);
  hp_free : (freetop t <= length ns)%nat;
  hp_top : forall i, (freetop t <= i < length ns)%nat -> used ns i;
  hp_key : forall i nd, ns !! i = Some nd -> is_nil (n_key nd) = false -> key_ok t (n_key nd);
  hp_uniq : forall i j ni nj, ns !! i = Some ni -> ns !! j = Some nj ->
              is_nil (n_key ni) = false -> keyid_of (n_key ni) = keyid_of (n_key nj) -> i = j;
  hp_unused : forall i nd, ns !! i = Some nd -> is_nil (n_key nd) = true ->
              is_nil (n_val nd) = true /\ n_next nd = None;
  hp_nodup : NoDup (concat C);
  hp_cover : forall i, i ∈ concat C <-> used ns i;
  hp_links : forall l, l ∈ C -> links ns l;
  hp_reach : forall i nd a, ns !! i = Some nd -> is_nil (n_key nd) = false ->
              hashkey ks t (n_key nd) = Some a ->
              exists l1 l2, l1 ++ a :: l2 ∈ C /\ i ∈ a :: l2;
  hp_main : forall i nd a, ns !! i = Some nd -> is_nil (n_key nd) = false ->
              hashkey ks t (n_key nd) = Some a -> i <> a ->
              exists na, ns !! a = Some na /\ is_nil (n_key na) = false /\
                hashkey ks t (n_key na) = Some a
}.

Record tab_inv (t : ktap_tab) : Prop := {
  ti_asize : asize t = Z.of_nat (length (array t)) /\ asize t <= KP_MAX_ASIZE;
  ti_nodes : exists ns C, nodes t = Some ns /\ hp_inv t ns C
}.

(** Hashing lands inside the vector and depends on the identity of the key. *)
Lemma hashmask_lt t ns C h : hp_inv t ns C -> (hashmask t h < length ns)%nat.
Proof.
  intros I. destruct (hp_bits _ _ _ I) as (b & Hb & Hm & Hl). unfold hashmask.
  rewrite Hm, Z.land_ones, Hl by lia.
  pose proof (Z.mod_pos_bound h (2 ^ b) (pow2_pos b ltac:(lia))). lia.
Qed.

Lemma hashkey_lt t ns C key a :
  hp_inv t ns C -> hashkey ks t key = Some a -> (a < length ns)%nat.
Proof.
  intros I. unfold hashkey, hashstr, hashnum, hashgcref, hashlohi.
  destruct (is_string key); [|repeat case_match; intros [= <-]; by eapply hashmask_lt].
  destruct (str_hash ks (val key)); simpl; [intros [= <-]|done]. by eapply hashmask_lt.
Qed.

Lemma keyid_inv k1 k2 :
  is_nil k1 = false -> keyid_of k1 = keyid_of k2 ->
  type k1 = type k2 /\ (is_bool k1 = true \/ val k1 = val k2).
Proof.
  unfold keyid_of. intros H1. rewrite H1. simpl.
  destruct (is_bool k1) eqn:B1, (is_nil k2 || is_bool k2); intros [=]; auto.
Qed.

Lemma hashkey_keyid t k1 k2 :
  is_nil k1 = false -> keyid_of k1 = keyid_of k2 -> hashkey ks t k1 = hashkey ks t k2.
Proof.
  intros H1 E. destruct (keyid_inv _ _ H1 E) as [Et Ev].
  unfold hashkey, is_string, is_number, is_bool, is_true, is_false, itype, boolvalue in *.
  rewrite <- Et.
  destruct (type k1 =? KTAP_TSTR) eqn:E1, (type k1 =? KTAP_TNUM) eqn:E2; bool_to_Prop;
    try (destruct Ev as [Ev|Ev];
      [exfalso; rewrite orb_true_iff, !Z.eqb_eq in Ev; unfold KTAP_TSTR, KTAP_TNUM, KTAP_TFALSE, KTAP_TTRUE in *; lia|]).
  1,2: by rewrite Ev.
  - unfold hashnum, nvalue. by rewrite Ev.
  - destruct Ev as [->|Ev]; [done|].
    destruct (_ || _); [done|]. unfold hashgcref, gcvalue. by rewrite Ev.
Qed.

(** ** Lookups *)

Lemma chain_length t ns C l : hp_inv t ns C -> l ∈ C -> (length l <= length ns)%nat.
Proof.
  intros I Hl. rewrite <- (length_seq (length ns) 0).
  apply submseteq_length, NoDup_submseteq; [eapply chains_NoDup; [apply I|done]|].
  intros i Hi. apply elem_of_seq. split; [lia|].
  eapply links_lt in Hi; [|by apply (hp_links _ _ _ I)]. lia.
Qed.

Lemma keyid_nonnil k1 k2 : is_nil k1 = false -> keyid_of k2 = keyid_of k1 -> is_nil k2 = false.
Proof.
  intros H E. symmetry in E. destruct (keyid_inv _ _ H E) as [Et _].
  unfold is_nil, itype in *. by rewrite <- Et.
Qed.

(** Walking from the hash of a key finds the node with the key, if there is one. *)
Lemma find_from_spec t ns C key a p :
  nodes t = Some ns -> hp_inv t ns C -> is_nil key = false -> hashkey ks t key = Some a ->
  (forall nd, type (n_key nd) <> KTAP_TLIGHTUD ->
     p nd = true <-> keyid_of (n_key nd) = keyid_of key) ->
  exists o, find_from t a p = Some o /\
    match o with
    | Some i => exists nd, ns !! i = Some nd /\ keyid_of (n_key nd) = keyid_of key
    | None => forall i nd, ns !! i = Some nd -> keyid_of (n_key nd) <> keyid_of key
    end.
Proof.
  intros Hns I Hk Ha Hp.
  assert (Hp' : forall i nd, ns !! i = Some nd -> p nd = true <-> keyid_of (n_key nd) = keyid_of key).
  { intros i nd Hi. apply Hp. destruct (is_nil (n_key nd)) eqn:En.
    - apply is_nil_spec in En. rewrite En. done.
    - apply (k_light _ _ (hp_key _ _ _ I _ _ Hi En)). }
  unfold find_from. rewrite Hns. simpl.
  pose proof (hashkey_lt _ _ _ _ _ I Ha) as Hlt.
  (* every node with the key hashes to [a], so it lies on the suffix of [a] *)
  assert (Hon : forall i nd, ns !! i = Some nd -> keyid_of (n_key nd) = keyid_of key ->
     exists l1 l2, l1 ++ a :: l2 ∈ C /\ i ∈ a :: l2).
  { intros i nd Hi E. eapply (hp_reach _ _ _ I); [done|by eapply keyid_nonnil|].
    rewrite <- Ha. apply hashkey_keyid; [by eapply keyid_nonnil|done]. }
  destruct (lookup_lt_is_Some_2 ns a Hlt) as [na Hna].
  destruct (is_nil (n_key na)) eqn:En.
  - (* the main node was never used *)
    destruct (hp_unused _ _ _ I _ _ Hna En) as [_ Hnx].
    assert (Hnone : forall i nd, ns !! i = Some nd -> keyid_of (n_key nd) <> keyid_of key).
    { intros i nd Hi E. destruct (Hon _ _ Hi E) as (l1 & l2 & Hl & _).
      assert (Hu : a ∈ concat C)
        by (apply elem_of_concat; eexists; split; [done|apply elem_of_app; right; by left]).
      apply (hp_cover _ _ _ I) in Hu as (nd' & Hnd' & Hu). congruence. }
    exists None. split; [|done]. destruct (length ns) eqn:El; [lia|].
    simpl. rewrite Hna. simpl. destruct (p na) eqn:Ep; [|by rewrite Hnx].
    apply (Hp' _ _ Hna) in Ep. by apply (Hnone _ _ Hna) in Ep.
  - (* the main node is on a chain: walk its suffix *)
    assert (Hu : a ∈ concat C) by (apply (hp_cover _ _ _ I); by exists na).
    apply elem_of_concat in Hu as (l & Hl & Hal). apply list_elem_of_split in Hal as (l1 & l2 & ->).
    pose proof (chain_length _ _ _ _ I Hl) as Hlen. rewrite length_app in Hlen. simpl in Hlen.
    destruct (chain_find_links ns l2 a (length ns) p) as [(j & n & Hj & Hn & Epn & ->)|[Hall ->]].
    + eapply links_app_inv. by apply (hp_links _ _ _ I).
    + lia.
    + exists (Some j). split; [done|]. exists n. split; [done|]. by apply (Hp' _ _ Hn).
    + exists None. split; [done|]. intros i nd Hi E.
      destruct (Hon _ _ Hi E) as (l1' & l2' & Hl' & Hi').
      assert (l2 = l2') as <- by (eapply (chain_suffix_unique C); [apply I|exact Hl|exact Hl']).
      specialize (Hall _ _ Hi' Hi). apply (Hp' _ _ Hi) in E. congruence.
Qed.

(** The three tests of the C code are tests of key identity. *)
Lemma is_obj_key_spec key nd :
  type (n_key nd) <> KTAP_TLIGHTUD ->
  is_obj_key key nd = true <-> keyid_of (n_key nd) = keyid_of key.
Proof. apply kp_obj_equal_keyid. Qed.

Lemma is_str_key_spec s nd :
  is_str_key s nd = true <-> keyid_of (n_key nd) = keyid_of (set_string s).
Proof.
  unfold is_str_key, keyid_of, set_string. destruct nd as [v [p ty] nx]. simpl.
  unfold is_string, is_nil, is_bool, is_true, is_false, itype. simpl.
  rewrite andb_true_iff, !Z.eqb_eq. split; [by intros [-> ->]|].
  destruct (_ || _); by intros [= -> ->].
Qed.

Lemma is_num_key_spec n nd :
  in_s 64 n -> is_num_key n nd = true <-> keyid_of (n_key nd) = keyid_of (set_number n).
Proof.
  intros Hn. unfold is_num_key, keyid_of, set_number. destruct nd as [v [p ty] nx]. simpl.
  unfold is_number, is_nil, is_bool, is_true, is_false, itype, nvalue. simpl.
  rewrite swrap_id by (done || lia).
  rewrite andb_true_iff, !Z.eqb_eq. split; [by intros [-> ->]|].
  destruct (_ || _); by intros [= -> ->].
Qed.

(** ** Insertion *)

(** The entries of a node vector: keys with a value that is not nil. *)
Definition live (ns : list node) (id : keyid) (v : ktap_val) : Prop :=
  exists i nd, ns !! i = Some nd /\ is_nil (n_key nd) = false /\
    keyid_of (n_key nd) = id /\ n_val nd = v /\ is_nil v = false.

(** Only the mask, the array size and the free position of the table matter. *)
Lemma hashkey_hmask t t' key : hmask t' = hmask t -> hashkey ks t' key = hashkey ks t key.
Proof.
  intros E. unfold hashkey, hashstr, hashnum, hashgcref, hashlohi.
  assert (Em : forall h, hashmask t' h = hashmask t h) by (intros; unfold hashmask; by rewrite E).
  repeat case_match; rewrite ?Em; try done. destruct (str_hash ks (val key)); simpl; by rewrite ?Em.
Qed.

Lemma key_ok_tab t t' key :
  hmask t' = hmask t -> asize t' = asize t -> key_ok t key -> key_ok t' key.
Proof.
  intros E1 E2 [? ? ? ?]. split; try done; [by rewrite (hashkey_hmask t)|by rewrite E2].
Qed.

Lemma find_free_spec ns f :
  (f <= length ns)%nat ->
  exists o, find_free ns f = Some o /\
    match o with
    | Some i => (i < f)%nat /\ (exists nd, ns !! i = Some nd /\ is_nil (n_key nd) = true) /\
                forall j, (i < j < f)%nat -> used ns j
    | None => forall j, (j < f)%nat -> used ns j
    end.
Proof.
  induction f as [|f IH]; intros Hf; simpl.
  { exists None. split; [done|]. lia. }
  destruct (lookup_lt_is_Some_2 ns f) as [nd Hnd]; [lia|]. rewrite Hnd. simpl.
  destruct (is_nil (n_key nd)) eqn:En.
  { exists (Some f). split; [done|]. split_and!; [lia|eauto|lia]. }
  destruct IH as (o & -> & Ho); [lia|]. exists o. split; [done|].
  assert (Hu : used ns f) by (by exists nd).
  destruct o as [i|]; [destruct Ho as (? & ? & Ho); split_and!; [lia|done|]|];
    intros j Hj; (destruct (decide (j = f)) as [->|]; [done|apply Ho; lia]).
Qed.

(** What an insertion has to establish: the invariant, the key in node [i] with
    no value yet, the entries as they were, and no other new key. *)
Definition inserted (t : ktap_tab) (ns ns' : list node) (C' : list (list nat))
  (ft i : nat) (key : ktap_val) : Prop :=
  hp_inv (mktab (array t) (asize t) (Some ns') (hmask t) ft (u32 (hnum t + 1))) ns' C' /\
  (exists nd, ns' !! i = Some nd /\ n_key nd = key /\ is_nil (n_val nd) = true) /\
  (forall id v, live ns' id v <-> live ns id v) /\
  length ns' = length ns /\
  (forall j nj, ns' !! j = Some nj -> is_nil (n_key nj) = false -> j = i \/
     exists j0 n0, ns !! j0 = Some n0 /\ n_key n0 = n_key nj /\ n_val n0 = n_val nj).

Lemma value_has_key t ns C i nd :
  hp_inv t ns C -> ns !! i = Some nd -> is_nil (n_val nd) = false -> is_nil (n_key nd) = false.
Proof.
  intros I Hnd Hv. destruct (is_nil (n_key nd)) eqn:En; [|done].
  destruct (hp_unused _ _ _ I _ _ Hnd En). congruence.
Qed.

(** When the key at [n] has another main position, no key has main position [n]. *)
Lemma stranger_alone t ns C n nd c :
  hp_inv t ns C -> ns !! n = Some nd -> hashkey ks t (n_key nd) = Some c -> c <> n ->
  forall i ni, ns !! i = Some ni -> is_nil (n_key ni) = false -> hashkey ks t (n_key ni) <> Some n.
Proof.
  intros I Hnd Hc Hcn i ni Hi Hnil Ha. destruct (decide (i = n)) as [->|Hne]; [congruence|].
  destruct (hp_main _ _ _ I _ _ _ Hi Hnil Ha Hne) as (na & Hna & _ & Hh). congruence.
Qed.

Section Insert.
Context (t : ktap_tab) (ns : list node) (C : list (list nat)) (key : ktap_val) (n : nat).
Context (I : hp_inv t ns C) (Hkey : key_ok t key) (Hn : hashkey ks t key = Some n).
Context (Hnew : forall i nd, ns !! i = Some nd -> keyid_of (n_key nd) <> keyid_of key).
Context (nd : node) (Hnd : ns !! n = Some nd).

Let t' ns' ft : ktap_tab :=
  mktab (array t) (asize t) (Some ns') (hmask t) ft (u32 (hnum t + 1)).

Lemma n_lt : (n < length ns)%nat.
Proof using Hnd. by eapply lookup_lt_Some. Qed.

Lemma key_ok_t' ns' ft k0 : key_ok t k0 -> key_ok (t' ns' ft) k0.
Proof using. by apply key_ok_tab. Qed.

(** Every entry of the new vector but the one at [m] comes from node [src i] of
    the old one, and every live entry is kept. *)
Record moved (ns' : list node) (m : nat) (src : nat -> nat) : Prop := {
  mv_len : length ns' = length ns;
  mv_new : exists nd', ns' !! m = Some nd' /\ n_key nd' = key /\ is_nil (n_val nd') = true;
  mv_src : forall i nd', i <> m -> ns' !! i = Some nd' -> is_nil (n_key nd') = false ->
             exists nj, ns !! src i = Some nj /\ n_key nj = n_key nd' /\ n_val nj = n_val nd';
  mv_inj : forall i j, i <> m -> j <> m -> used ns' i -> used ns' j -> src i = src j -> i = j;
  mv_keep : forall j nj, ns !! j = Some nj -> is_nil (n_key nj) = false -> is_nil (n_val nj) = false ->
             exists i nd', i <> m /\ ns' !! i = Some nd' /\ n_key nd' = n_key nj /\ n_val nd' = n_val nj;
  mv_unused : forall i nd', ns' !! i = Some nd' -> is_nil (n_key nd') = true -> ns !! i = Some nd'
}.

(** What remains to be shown of the chains. *)
Record rechained (ns' : list node) (C' : list (list nat)) : Prop := {
  rc_nodup : NoDup (concat C');
  rc_cover : forall i, i ∈ concat C' <-> used ns' i;
  rc_links : forall l, l ∈ C' -> links ns' l;
  rc_reach : forall i nd' a, ns' !! i = Some nd' -> is_nil (n_key nd') = false ->
    hashkey ks t (n_key nd') = Some a -> exists l1 l2, l1 ++ a :: l2 ∈ C' /\ i ∈ a :: l2;
  rc_main : forall i nd' a, ns' !! i = Some nd' -> is_nil (n_key nd') = false ->
    hashkey ks t (n_key nd') = Some a -> i <> a ->
    exists na, ns' !! a = Some na /\ is_nil (n_key na) = false /\ hashkey ks t (n_key na) = Some a
}.

Lemma moved_uniq ns' m src i j ni nj :
  moved ns' m src -> ns' !! i = Some ni -> ns' !! j = Some nj ->
  is_nil (n_key ni) = false -> keyid_of (n_key ni) = keyid_of (n_key nj) -> i = j.
Proof using All.
  intros M Hi Hj Hnil E.
  assert (Hnil' : is_nil (n_key nj) = false) by (by eapply keyid_nonnil).
  destruct (mv_new _ _ _ M) as (nm & Hm & Hk & _).
  destruct (decide (i = m)) as [->|Hi'], (decide (j = m)) as [->|Hj']; [done|..].
  - destruct (mv_src _ _ _ M _ _ Hj' Hj Hnil') as (n' & Hn' & Ek & _).
    exfalso. apply (Hnew _ _ Hn'). rewrite Ek. congruence.
  - destruct (mv_src _ _ _ M _ _ Hi' Hi Hnil) as (n' & Hn' & Ek & _).
    exfalso. apply (Hnew _ _ Hn'). rewrite Ek. congruence.
  - destruct (mv_src _ _ _ M _ _ Hi' Hi Hnil) as (n1 & Hn1 & E1 & _).
    destruct (mv_src _ _ _ M _ _ Hj' Hj Hnil') as (n2 & Hn2 & E2 & _).
    apply (mv_inj _ _ _ M); try done; [by exists ni|by exists nj|].
    eapply (hp_uniq _ _ _ I); [exact Hn1|exact Hn2|by rewrite E1|by rewrite E1, E2].
Qed.

Lemma moved_live ns' m src id v : moved ns' m src -> live ns' id v <-> live ns id v.
Proof using All.
  intros M. destruct (mv_new _ _ _ M) as (nm & Hm & _ & Hv). split.
  - intros (i & ni & Hi & Hnil & Hid & Hval & Hvn).
    destruct (decide (i = m)) as [->|Hne]; [simplify_eq/=; congruence|].
    destruct (mv_src _ _ _ M _ _ Hne Hi Hnil) as (nj & Hj & Ek & Ev).
    exists (src i), nj. rewrite Ek, Ev. done.
  - intros (i & ni & Hi & Hnil & Hid & Hval & Hvn). subst v.
    destruct (mv_keep _ _ _ M _ _ Hi Hnil Hvn) as (j & nj & _ & Hj & Ek & Ev).
    exists j, nj. rewrite Ek, Ev. done.
Qed.

Lemma moved_inserted ns' C' ft m src :
  moved ns' m src -> rechained ns' C' ->
  (ft <= length ns)%nat -> (forall i, (ft <= i < length ns)%nat -> used ns' i) ->
  inserted t ns ns' C' ft m key.
Proof using All.
  intros M R Hft Htop. destruct (mv_new _ _ _ M) as (nm & Hm & Hmk & _).
  pose proof (mv_len _ _ _ M) as Hlen.
  split; [|split_and!; [apply M|intros; by eapply moved_live|done|]].
  2: { intros j nj Hj Hnil. destruct (decide (j = m)) as [->|Hne]; [by left|right].
       destruct (mv_src _ _ _ M _ _ Hne Hj Hnil) as (n0 & ? & ? & ?). by exists (src j), n0. }
  split; simpl; try (apply R); rewrite ?Hlen; try done.
  - apply (hp_bits _ _ _ I).
  - intros i ni Hi Hnil. apply key_ok_t'. destruct (decide (i = m)) as [->|Hne].
    { rewrite Hm in Hi. injection Hi as <-. by rewrite Hmk. }
    destruct (mv_src _ _ _ M _ _ Hne Hi Hnil) as (nj & Hj & E & _).
    rewrite <- E. eapply (hp_key _ _ _ I); [done|]. by rewrite E.
  - intros i j ni nj. by apply (moved_uniq _ m src).
  - intros i ni Hi Hnil. apply (mv_unused _ _ _ M) in Hi; [|done]. by apply (hp_unused _ _ _ I i).
Qed.

(** *** The main position of the key has no value

    The key is stored there, in the chain the node is on, or in a chain of its
    own when the node was never used. *)

Section Here.
Context (Hv : is_nil (n_val nd) = true).
Let ns' := <[n := mknode (n_val nd) key (n_next nd)]> ns.

Lemma here_at : ns' !! n = Some (mknode (n_val nd) key (n_next nd)).
Proof using Hnd. apply list_lookup_insert_eq, n_lt. Qed.

Lemma here_off i : i <> n -> ns' !! i = ns !! i.
Proof using. intros. by apply list_lookup_insert_ne. Qed.

Lemma here_used i : used ns' i <-> used ns i \/ i = n.
Proof using Hkey Hnd.
  unfold used. destruct (decide (i = n)) as [->|Hne].
  - rewrite here_at. split; [auto|]. intros _. eexists. split; [done|]. apply Hkey.
  - rewrite here_off by done. split; [auto|]. by intros [|].
Qed.

Lemma here_moved : moved ns' n (λ i, i).
Proof using All.
  split.
  - apply length_insert.
  - rewrite here_at. by eexists.
  - intros i nd' Hne Hi Hnil. rewrite here_off in Hi by done. by exists nd'.
  - done.
  - intros j nj Hj Hnil Hvn. destruct (decide (j = n)) as [->|Hne]; [simplify_eq/=; congruence|].
    exists j, nj. by rewrite here_off.
  - intros i nd' Hi Hnil. destruct (decide (i = n)) as [->|Hne]; [|by rewrite here_off in Hi].
    rewrite here_at in Hi. simplify_eq/=. by rewrite (k_nonnil _ _ Hkey) in Hnil.
Qed.

Let C' := if is_nil (n_key nd) then [n] :: C else C.

Lemma here_C l : l ∈ C' <-> l ∈ C \/ (l = [n] /\ is_nil (n_key nd) = true).
Proof using.
  unfold C'. destruct (is_nil (n_key nd)).
  - rewrite elem_of_cons. split; [intros [->|]; auto|intros [|[-> _]]; auto].
  - split; [auto|by intros [|[_ [=]]]].
Qed.

Lemma here_next i : next_of ns' i = next_of ns i.
Proof using Hnd.
  unfold next_of. destruct (decide (i = n)) as [->|]; [by rewrite here_at, Hnd|by rewrite here_off].
Qed.

Lemma here_chain : exists l1 l2, l1 ++ n :: l2 ∈ C'.
Proof using I Hnd.
  assert (is_nil (n_key nd) = true \/ is_nil (n_key nd) = false) as [En|En]
    by (clear; destruct (is_nil (n_key nd)); auto).
  - exists [], []. apply here_C; auto.
  - assert (Hu : n ∈ concat C) by (apply (hp_cover _ _ _ I); by exists nd).
    apply elem_of_concat in Hu as (l & Hl & Hin). apply list_elem_of_split in Hin as (l1 & l2 & ->).
    exists l1, l2. apply here_C; auto.
Qed.

Lemma here_rechained : rechained ns' C'.
Proof using All.
  split.
  - unfold C'. destruct (is_nil (n_key nd)) eqn:En; [|apply I]. simpl. apply list.NoDup_cons.
    split; [|apply I]. rewrite (hp_cover _ _ _ I). intros (x & Hx & Hx'). congruence.
  - intros i. rewrite here_used, <- (hp_cover _ _ _ I). unfold C'.
    destruct (is_nil (n_key nd)) eqn:En; simpl.
    + rewrite elem_of_cons. tauto.
    + split; [auto|]. intros [ | -> ]; [done|]. apply (hp_cover _ _ _ I). by exists nd.
  - intros l Hl. apply here_C in Hl as [Hl|[-> En]].
    + apply (links_ext ns); [intros; apply here_next|]. by apply (hp_links _ _ _ I).
    + simpl. rewrite here_next. unfold next_of. rewrite Hnd. simpl.
      by destruct (hp_unused _ _ _ I _ _ Hnd En) as [_ ->].
  - intros i ni a Hi Hnil Ha. destruct (decide (i = n)) as [->|Hne].
    + rewrite here_at in Hi. injection Hi as <-. simpl in *. rewrite Hn in Ha. injection Ha as <-.
      destruct here_chain as (l1 & l2 & Hl). exists l1, l2. split; [done|by left].
    + rewrite here_off in Hi by done.
      destruct (hp_reach _ _ _ I _ _ _ Hi Hnil Ha) as (l1 & l2 & ? & ?).
      exists l1, l2. split; [apply here_C; auto|done].
  - intros i ni a Hi Hnil Ha Hne. destruct (decide (a = n)) as [->|Hna].
    { eexists. rewrite here_at. split_and!; [done|apply Hkey|done]. }
    destruct (decide (i = n)) as [->|Hin]; [rewrite here_at in Hi; by simplify_eq/=|].
    rewrite here_off in Hi by done. destruct (hp_main _ _ _ I _ _ _ Hi Hnil Ha Hne) as (na & ? & ? & ?).
    exists na. by rewrite here_off.
Qed.

Lemma insert_here : exists C', inserted t ns ns' C' (freetop t) n key.
Proof using All.
  exists C'. apply (moved_inserted _ _ _ _ (λ i, i)); [apply here_moved|apply here_rechained|apply I|].
  intros i Hi. apply here_used. left. by apply I.
Qed.

End Here.

(** *** The main position is taken: a free node [f] is used *)

Section Taken.
Context (Hv : is_nil (n_val nd) = false).
Context (f : nat) (fd : node) (Hf : ns !! f = Some fd) (Hfd : is_nil (n_key fd) = true).
Context (Hftop : (f <= freetop t)%nat)
        (Hfused : forall j, (f < j < freetop t)%nat -> used ns j).

Lemma taken_key : is_nil (n_key nd) = false.
Proof using All. by apply (value_has_key t ns C n). Qed.

Lemma taken_used : used ns n.
Proof using All. exists nd. split; [done|]. apply taken_key. Qed.

Lemma free_ne : f <> n.
Proof using All. pose proof taken_key. intros E. subst f. congruence. Qed.

Lemma free_not_used : ~ used ns f.
Proof using All. intros (x & ? & ?). congruence. Qed.

Lemma free_lt : (f < length ns)%nat.
Proof using All. by eapply lookup_lt_Some. Qed.

Lemma free_chain : f ∉ concat C.
Proof using All. rewrite (hp_cover _ _ _ I). apply free_not_used. Qed.

Lemma taken_chain : n ∈ concat C.
Proof using All. apply (hp_cover _ _ _ I), taken_used. Qed.

(** All nodes above the free one are in use, before and hence after. *)
Lemma taken_top ns' i :
  (forall j, used ns' j <-> used ns j \/ j = f) -> (f <= i < length ns)%nat -> used ns' i.
Proof using All.
  intros Hu Hi. apply Hu. destruct (decide (i = f)) as [->|]; [auto|]. left.
  destruct (decide (i < freetop t)%nat); [apply Hfused; lia|apply I; lia].
Qed.

(** **** The node at the main position is at home: the free node follows it *)

Section After.
Context (ns' : list node).
Context (Hlen : length ns' = length ns).
Context (Hatf : ns' !! f = Some (mknode (n_val fd) key (n_next nd))).
Context (Hatn : ns' !! n = Some (mknode (n_val nd) (n_key nd) (Some f))).
Context (Hoff : forall i, i <> f -> i <> n -> ns' !! i = ns !! i).
Context (Hhome : hashkey ks t (n_key nd) = Some n).

Lemma after_same i nd' :
  i <> f -> ns' !! i = Some nd' ->
  exists nj, ns !! i = Some nj /\ n_key nj = n_key nd' /\ n_val nj = n_val nd'.
Proof using All.
  intros Hne Hi. destruct (decide (i = n)) as [->|]; [|rewrite Hoff in Hi by done; eauto].
  exists nd. rewrite Hatn in Hi. injection Hi as <-. done.
Qed.

Lemma after_used i : used ns' i <-> used ns i \/ i = f.
Proof using All.
  destruct (decide (i = f)) as [->|Hne].
  { split; [auto|]. intros _. eexists. split; [exact Hatf|]. apply Hkey. }
  unfold used. destruct (decide (i = n)) as [->|Hn'].
  - rewrite Hatn. split; [left; apply taken_used|intros _; eexists; split; [done|apply taken_key]].
  - rewrite Hoff by done. split; [auto|by intros [|]].
Qed.

Lemma after_moved : moved ns' f (λ i, i).
Proof using All.
  pose proof free_ne as Hfn. split.
  - done.
  - rewrite Hatf. eexists. split_and!; [done..|]. apply (proj1 (hp_unused _ _ _ I _ _ Hf Hfd)).
  - intros i nd' Hne Hi _. by apply after_same.
  - done.
  - intros j nj Hj Hnil Hvn. exists j.
    assert (Hjf : j <> f) by (intros ->; congruence).
    destruct (decide (j = n)) as [->|].
    + rewrite Hatn. rewrite Hnd in Hj. injection Hj as <-. by eexists.
    + rewrite Hoff by done. by exists nj.
  - intros i nd' Hi Hnil. destruct (decide (i = f)) as [->|].
    + rewrite Hatf in Hi. injection Hi as <-. simpl in Hnil. by rewrite (k_nonnil _ _ Hkey) in Hnil.
    + destruct (decide (i = n)) as [->|]; [|by rewrite Hoff in Hi].
      rewrite Hatn in Hi. injection Hi as <-. simpl in Hnil. by rewrite taken_key in Hnil.
Qed.

(** The free node is spliced in behind [n], wherever [n] is. *)
Definition splice (x : nat) : list nat := if decide (x = n) then [n; f] else [x].

Lemma splice_id l : n ∉ l -> flat_map splice l = l.
Proof using All.
  induction l as [|x l IH]; intros Hnl; [done|]. rewrite not_elem_of_cons in Hnl. destruct Hnl.
  simpl. rewrite IH by done. unfold splice. by rewrite decide_False.
Qed.

Lemma splice_elem l i : i ∈ flat_map splice l <-> i ∈ l \/ (i = f /\ n ∈ l).
Proof using All.
  induction l as [|x l IH]; simpl.
  - pose proof (not_elem_of_nil i). pose proof (not_elem_of_nil n). tauto.
  - rewrite elem_of_app, IH, !elem_of_cons. unfold splice. case_decide.
    + subst. rewrite !elem_of_cons. pose proof (not_elem_of_nil i). tauto.
    + rewrite list_elem_of_singleton. split; [tauto|]. intros [[|]|[? [ |]]]; subst; auto; congruence.
Qed.

Lemma splice_concat (D : list (list nat)) :
  concat (map (flat_map splice) D) = flat_map splice (concat D).
Proof using All. induction D as [|l D IH]; simpl; [done|]. by rewrite flat_map_app, IH. Qed.

Lemma splice_NoDup l : NoDup l -> f ∉ l -> NoDup (flat_map splice l).
Proof using All.
  intros Hnd' Hfl. destruct (decide (n ∈ l)) as [Hin|]; [|by rewrite splice_id].
  apply list_elem_of_split in Hin as (l1 & l2 & ->).
  apply list.NoDup_app in Hnd' as (H1 & H2 & H3). apply list.NoDup_cons in H3 as [H3 H4].
  rewrite elem_of_app, elem_of_cons in Hfl.
  rewrite flat_map_app. simpl. rewrite !splice_id; [|done|].
  2: { intros Hx. apply (H2 _ Hx). by left. }
  unfold splice. rewrite decide_True by done. simpl.
  apply list.NoDup_app. split_and!; [done|..].
  - intros x Hx. rewrite !elem_of_cons. specialize (H2 _ Hx). rewrite elem_of_cons in H2.
    intros [->|[->|Hx']]; tauto.
  - rewrite !list.NoDup_cons, elem_of_cons. split_and!; try done; [|tauto].
    intros [->|]; tauto.
Qed.

Lemma after_links l : f ∉ l -> links ns l -> links ns' (flat_map splice l).
Proof using All.
  induction l as [|i l IH]; intros Hfl Hl; [done|].
  destruct Hl as [Hi Hl]. rewrite not_elem_of_cons in Hfl. destruct Hfl as [Hfi Hfl].
  specialize (IH Hfl Hl). simpl.
  assert (Hh : head (flat_map splice l) = head l).
  { destruct l as [|x l]; [done|]. simpl. unfold splice. by case_decide; subst. }
  unfold splice at 1. case_decide as Hin; simpl; rewrite Hh.
  - subst i. unfold next_of in *. rewrite Hatn, Hatf. rewrite Hnd in Hi. simpl in *.
    injection Hi as ->. done.
  - split; [|done]. unfold next_of in *. by rewrite Hoff.
Qed.

Lemma splice_head a l : exists l', flat_map splice (a :: l) = a :: l'.
Proof using All. simpl. unfold splice at 1. case_decide; subst; simpl; eauto. Qed.

Lemma splice_reach l1 a l2 i :
  l1 ++ a :: l2 ∈ C -> i ∈ a :: l2 \/ (i = f /\ a = n) ->
  exists l1 l2, l1 ++ a :: l2 ∈ map (flat_map splice) C /\ i ∈ a :: l2.
Proof using All.
  intros Hl Hi. destruct (splice_head a l2) as [l2' E].
  exists (flat_map splice l1), l2'. rewrite <- E, <- flat_map_app. split.
  - apply list_elem_of_fmap. eauto.
  - apply splice_elem. destruct Hi as [|[-> ->]]; [auto|]. right. split; [done|by left].
Qed.

Lemma after_rechained : rechained ns' (map (flat_map splice) C).
Proof using All.
  pose proof free_chain as Hfc. pose proof taken_chain as Hnc. split.
  - rewrite splice_concat. apply splice_NoDup; [apply I|done].
  - intros i. rewrite splice_concat, splice_elem, after_used, <- (hp_cover _ _ _ I). tauto.
  - intros l Hl. apply list_elem_of_fmap in Hl as (l0 & -> & Hl).
    apply after_links; [|by apply (hp_links _ _ _ I)].
    intros Hx. apply Hfc, elem_of_concat. eauto.
  - intros i ni a Hi Hnil Ha. destruct (decide (i = f)) as [->|Hne].
    + rewrite Hatf in Hi. injection Hi as <-. simpl in *. rewrite Hn in Ha. injection Ha as <-.
      apply elem_of_concat in Hnc as (l & Hl & Hin). apply list_elem_of_split in Hin as (l1 & l2 & ->).
      eapply splice_reach; [exact Hl|auto].
    + destruct (after_same _ _ Hne Hi) as (nj & Hj & Ek & _). rewrite <- Ek in *.
      destruct (hp_reach _ _ _ I _ _ _ Hj Hnil Ha) as (l1 & l2 & Hl & Hin).
      eapply splice_reach; [exact Hl|auto].
  - intros i ni a Hi Hnil Ha Hne. destruct (decide (a = n)) as [->|Hna].
    { eexists. split_and!; [exact Hatn|apply taken_key|done]. }
    destruct (decide (i = f)) as [->|Hif].
    { rewrite Hatf in Hi. injection Hi as <-. simpl in Ha. congruence. }
    destruct (after_same _ _ Hif Hi) as (nj & Hj & Ek & _). rewrite <- Ek in *.
    destruct (hp_main _ _ _ I _ _ _ Hj Hnil Ha Hne) as (na & Hna' & Hnn & ?).
    exists na. rewrite Hoff; [done| |done]. intros ->. congruence.
Qed.

Lemma insert_after : exists C', inserted t ns ns' C' f f key.
Proof using All.
  eexists. apply (moved_inserted _ _ _ _ (λ i, i)); [apply after_moved|apply after_rechained|..].
  - pose proof free_lt. lia.
  - intros i Hi. apply taken_top; [apply after_used|done].
Qed.

End After.

(** **** The node at the main position is a stranger: it moves to the free node *)

Section Evict.
Context (c : nat) (Hhome : hashkey ks t (n_key nd) = Some c) (Hcn : c <> n).

Context (p : nat) (pd : node) (Hp : ns !! p = Some pd) (Hpn : n_next pd = Some n)
        (Hpk : is_nil (n_key pd) = false).
Context (ns' : list node).
Context (Hlen : length ns' = length ns).
Context (Hatn : ns' !! n = Some (mknode (set_nil (n_val nd)) key None)).
Context (Hatf : ns' !! f = Some nd).
Context (Hatp : ns' !! p = Some (mknode (n_val pd) (n_key pd) (Some f))).
Context (Hoff : forall i, i <> f -> i <> n -> i <> p -> ns' !! i = ns !! i).

(** Where the node at [i] went. *)
Definition swap (x : nat) : nat := if decide (x = n) then f else x.
Definition swap_src (x : nat) : nat := if decide (x = f) then n else x.

Lemma pred_ne : p <> n /\ p <> f.
Proof using All. split; intros E; congruence. Qed.

Lemma evict_same i nd' :
  i <> n -> ns' !! i = Some nd' ->
  exists nj, ns !! swap_src i = Some nj /\ n_key nj = n_key nd' /\ n_val nj = n_val nd'.
Proof using All.
  intros Hne Hi. unfold swap_src. case_decide as Hif.
  - subst i. exists nd. rewrite Hatf in Hi. by injection Hi as <-.
  - destruct (decide (i = p)) as [->|]; [|rewrite Hoff in Hi by done; eauto].
    exists pd. rewrite Hatp in Hi. by injection Hi as <-.
Qed.

Lemma evict_used i : used ns' i <-> used ns i \/ i = f.
Proof using All.
  destruct (decide (i = f)) as [->|Hne].
  { split; [auto|]. intros _. exists nd. split; [done|]. apply taken_key. }
  unfold used. destruct (decide (i = n)) as [->|Hn'].
  { rewrite Hatn. split; [left; apply taken_used|intros _; eexists; split; [done|apply Hkey]]. }
  destruct (decide (i = p)) as [->|Hp'].
  - rewrite Hatp, Hp. split; [eauto|]. intros _. by eexists.
  - rewrite Hoff by done. split; [auto|by intros [|]].
Qed.

Lemma evict_moved : moved ns' n swap_src.
Proof using All.
  pose proof free_ne as Hfn. destruct pred_ne as [Hp1 Hp2]. split.
  - done.
  - rewrite Hatn. by eexists.
  - intros i nd' Hne Hi _. by apply evict_same.
  - intros i j Hi Hj _ _. unfold swap_src. repeat case_decide; congruence.
  - intros j nj Hj Hnil Hvn. assert (Hjf : j <> f) by (intros ->; congruence).
    destruct (decide (j = n)) as [->|].
    { exists f, nd. rewrite Hnd in Hj. injection Hj as <-. done. }
    exists j. destruct (decide (j = p)) as [->|].
    + rewrite Hatp. rewrite Hp in Hj. injection Hj as <-. by eexists.
    + rewrite Hoff by done. by exists nj.
  - intros i nd' Hi Hnil. destruct (decide (i = n)) as [->|].
    { rewrite Hatn in Hi. injection Hi as <-. simpl in Hnil. by rewrite (k_nonnil _ _ Hkey) in Hnil. }
    destruct (decide (i = f)) as [->|].
    { rewrite Hatf in Hi. injection Hi as <-. by rewrite taken_key in Hnil. }
    destruct (decide (i = p)) as [->|]; [|by rewrite Hoff in Hi].
    rewrite Hatp in Hi. injection Hi as <-. simpl in Hnil. congruence.
Qed.

(** Only [p] points to [n]. *)
Lemma pred_unique l i l' : l ++ i :: n :: l' ∈ C -> i = p.
Proof using All.
  intros Hl. assert (Hpc : p ∈ concat C) by (apply (hp_cover _ _ _ I); by exists pd).
  apply elem_of_concat in Hpc as (q & Hq & Hin). apply list_elem_of_split in Hin as (q1 & q2 & ->).
  pose proof (hp_links _ _ _ I _ Hq) as Hlk. apply links_app_inv in Hlk as [Hx _].
  unfold next_of in Hx. rewrite Hp in Hx. simpl in Hx. rewrite Hpn in Hx.
  destruct q2 as [|x q2]; [done|]. simpl in Hx. injection Hx as Hx. subst x.
  assert (E : l ++ i :: n :: l' = q1 ++ p :: n :: q2).
  { eapply (chain_same C _ _ n); [apply I|done..| |]; apply elem_of_app; right; right; by left. }
  pose proof (chains_NoDup _ _ (hp_nodup _ _ _ I) Hl) as Hnd'.
  assert (E' : l' = q2).
  { apply (NoDup_split_unique n (l ++ [i]) l' (q1 ++ [p]) q2); by rewrite <- !app_assoc. }
  subst q2. change (i :: n :: l') with ([i] ++ n :: l') in E.
  change (p :: n :: l') with ([p] ++ n :: l') in E. rewrite !app_assoc in E.
  apply app_inj_2 in E as [E _]; [|done]. by apply app_inj_tail in E as [_ ->].
Qed.

Lemma evict_links l0 l : l0 ++ l ∈ C -> links ns' (map swap l).
Proof using All.
  pose proof free_ne as Hfn. destruct pred_ne as [Hp1 Hp2].
  revert l0. induction l as [|i l IH]; intros l0 Hl; [done|]. split.
  2: { apply (IH (l0 ++ [i])). by rewrite <- app_assoc. }
  pose proof (hp_links _ _ _ I _ Hl) as Hlk. apply links_app_inv in Hlk as [Hi _].
  assert (Hu : i ∈ concat C) by (apply elem_of_concat; eexists; split; [done|]; apply elem_of_app; right; by left).
  apply (hp_cover _ _ _ I) in Hu. assert (Hif : i <> f) by (intros ->; by apply free_not_used).
  assert (Hh : forall h, head l = Some h -> h = n -> i = p).
  { intros h Hh E. subst h. destruct l as [|x l]; [done|]. simpl in Hh.
    injection Hh as Hh. subst x. by eapply pred_unique. }
  assert (Hhd : head (map swap l) = swap <$> head l) by (by destruct l).
  rewrite Hhd. unfold next_of in *. unfold swap at 1. case_decide as Hin.
  - subst i. rewrite Hatf. rewrite Hnd in Hi. simpl in *. injection Hi as ->.
    destruct (head l) as [h|]; [|done]. simpl. unfold swap. case_decide; [|done].
    exfalso. by apply Hp1, symmetry, (Hh h).
  - destruct (decide (i = p)) as [->|Hip].
    + rewrite Hatp. rewrite Hp in Hi. simpl in *. rewrite Hpn in Hi. injection Hi as <-. simpl.
      unfold swap. by rewrite decide_True.
    + rewrite Hoff by done. rewrite Hi. f_equal. destruct (head l) as [h|]; [|done]. simpl.
      unfold swap. case_decide; [|done]. exfalso. by apply Hip, (Hh h).
Qed.

Lemma swap_id l : n ∉ l -> map swap l = l.
Proof using All.
  induction l as [|x l IH]; intros Hnl; [done|]. rewrite not_elem_of_cons in Hnl. destruct Hnl.
  simpl. rewrite IH by done. unfold swap. by rewrite decide_False.
Qed.

Lemma swap_elem l i : f ∉ l -> i ∈ map swap l <-> (i ∈ l /\ i <> n) \/ (i = f /\ n ∈ l).
Proof using All.
  pose proof free_ne as Hfn. intros Hfl.
  rewrite list_elem_of_fmap. unfold swap. split.
  - intros (y & -> & Hy). case_decide; [subst; auto|auto].
  - intros [[Hi Hne]|[-> Hi]]; [exists i; by rewrite decide_False|exists n; by rewrite decide_True].
Qed.

Lemma evict_rechained : rechained ns' ([n] :: map (map swap) C).
Proof using All.
  pose proof free_chain as Hfc. pose proof taken_chain as Hnc. pose proof free_ne as Hfn.
  assert (Ec : concat (map (map swap) C) = map swap (concat C)) by (symmetry; apply concat_map).
  split.
  - simpl. rewrite Ec. apply list.NoDup_cons. rewrite swap_elem by done.
    split; [intros [[_ ?]|[? _]]; congruence|].
    apply NoDup_fmap_2_strong; [|apply I]. intros x y Hx Hy. unfold swap.
    repeat case_decide; intros; subst; try done.
  - intros i. simpl. rewrite Ec, elem_of_cons, swap_elem, evict_used, <- (hp_cover _ _ _ I) by done.
    destruct (decide (i = n)) as [->|]; tauto.
  - intros l Hl. apply elem_of_cons in Hl as [->|Hl].
    { simpl. unfold next_of. by rewrite Hatn. }
    apply list_elem_of_fmap in Hl as (l0 & -> & Hl). by apply (evict_links []).
  - intros i ni a Hi Hnil Ha. destruct (decide (i = n)) as [->|Hne].
    { rewrite Hatn in Hi. injection Hi as <-. simpl in *. rewrite Hn in Ha. injection Ha as <-.
      exists [], []. split; by left. }
    destruct (evict_same _ _ Hne Hi) as (nj & Hj & Ek & _). rewrite <- Ek in *.
    destruct (hp_reach _ _ _ I _ _ _ Hj Hnil Ha) as (l1 & l2 & Hl & Hin).
    assert (Han : a <> n) by (intros ->; by apply (stranger_alone t ns C n nd c I Hnd Hhome Hcn _ _ Hj Hnil)).
    exists (map swap l1), (map swap l2).
    assert (Ea : swap a = a) by (unfold swap; by rewrite decide_False).
    rewrite <- Ea, <- map_cons, <- map_app. split; [right; apply list_elem_of_fmap; eauto|].
    apply list_elem_of_fmap. exists (swap_src i). split; [|done].
    unfold swap, swap_src. repeat case_decide; congruence.
  - intros i ni a Hi Hnil Ha Hne. destruct (decide (i = n)) as [->|Hin].
    { rewrite Hatn in Hi. injection Hi as <-. simpl in *. congruence. }
    destruct (evict_same _ _ Hin Hi) as (nj & Hj & Ek & _). rewrite <- Ek in *.
    assert (Han : a <> n) by (intros ->; by apply (stranger_alone t ns C n nd c I Hnd Hhome Hcn _ _ Hj Hnil)).
    assert (Hsa : swap_src i <> a) by (unfold swap_src; case_decide; congruence).
    destruct (hp_main _ _ _ I _ _ _ Hj Hnil Ha Hsa) as (na & Hna' & Hnn & Hh).
    assert (Haf : a <> f) by (intros ->; congruence).
    destruct (decide (a = p)) as [->|Hap]; [|exists na; by rewrite Hoff].
    eexists. rewrite Hatp. assert (na = pd) as -> by congruence. done.
Qed.

Lemma insert_evict : exists C', inserted t ns ns' C' f n key.
Proof using All.
  eexists. apply (moved_inserted _ _ _ _ swap_src); [apply evict_moved|apply evict_rechained|..].
  - pose proof free_lt. lia.
  - intros i Hi. apply taken_top; [apply evict_used|done].
Qed.

End Evict.

End Taken.

End Insert.

(** Rechaining does nothing: no key behind the moved node has main position [n]. *)
Lemma rechain_id fuel t ns l f n :
  links ns (f :: l) -> (length l < fuel)%nat ->
  (forall i nd, i ∈ l -> ns !! i = Some nd -> is_string (n_key nd) = true ->
     exists h, hashstr ks t (val (n_key nd)) = Some h /\ h <> n) ->
  rechain ks fuel t ns f n = Some ns.
Proof.
  revert fuel f. induction l as [|i l IH]; intros [|fuel] f [Hf Hl] Hlen Hno;
    try (simpl in Hlen; lia); simpl; unfold next_of in Hf;
    apply fmap_Some in Hf as (fd & -> & Hfx); simpl in *; rewrite <- Hfx; [done|].
  destruct (lookup_lt_is_Some_2 ns i) as [nd Hnd]; [apply (links_lt ns (i :: l)); [done|by left]|].
  rewrite Hnd. simpl. destruct (is_string (n_key nd)) eqn:Es; simpl.
  - destruct (Hno i nd) as (h & Hh & Hne); [by left|done|done|]. rewrite Hh. simpl.
    destruct (is_nil (n_val nd)); simpl; rewrite ?bool_decide_false by done;
      (apply IH; [done|lia|]); intros; eapply Hno; eauto; by right.
  - apply IH; [done|lia|]. intros; eapply Hno; eauto; by right.
Qed.

Lemma set_next_Some ns i nd nx :
  ns !! i = Some nd -> set_next ns i nx = Some (<[i := mknode (n_val nd) (n_key nd) nx]> ns).
Proof. intros H. unfold set_next. by rewrite H. Qed.

(** The predecessor of the stranger at [n] on its chain. *)
Lemma stranger_pred t ns C n nd c :
  hp_inv t ns C -> ns !! n = Some nd -> is_nil (n_key nd) = false ->
  hashkey ks t (n_key nd) = Some c -> c <> n ->
  exists q1 p q2 pd, q1 ++ p :: n :: q2 ∈ C /\ ns !! p = Some pd /\
    n_next pd = Some n /\ is_nil (n_key pd) = false /\ p <> n /\
    find_pred (length ns) ns c n = Some p.
Proof.
  intros I Hnd Hk Hc Hcn.
  destruct (hp_reach _ _ _ I _ _ _ Hnd Hk Hc) as (l1 & l2 & Hl & Hin).
  apply elem_of_cons in Hin as [ | Hin]; [congruence|].
  apply list_elem_of_split in Hin as (m1 & m2 & ->).
  destruct (exists_last (l := c :: m1)) as (q & p & Eq); [done|].
  assert (El : l1 ++ c :: m1 ++ n :: m2 = (l1 ++ q) ++ p :: n :: m2).
  { rewrite <- app_assoc. f_equal. change (c :: m1 ++ n :: m2) with ((c :: m1) ++ n :: m2).
    rewrite Eq, <- app_assoc. done. }
  pose proof (hp_links _ _ _ I _ Hl) as Hlk. pose proof (chains_NoDup _ _ (hp_nodup _ _ _ I) Hl) as Hnd'.
  pose proof (chain_length _ _ _ _ I Hl) as Hlen.
  rewrite El in Hl, Hlk, Hnd', Hlen. rewrite <- app_assoc in Hlk, Hnd'.
  apply links_app_inv in Hlk. apply list.NoDup_app in Hnd' as (_ & _ & Hnd').
  assert (Hpl : p ∈ concat C)
    by (apply elem_of_concat; eexists; split; [exact Hl|]; apply elem_of_app; right; by left).
  apply (hp_cover _ _ _ I) in Hpl as (pd & Hpd & Hpk).
  exists (l1 ++ q), p, m2, pd. split_and!; try done.
  - apply links_app_inv in Hlk as [Hx _]. unfold next_of in Hx. rewrite Hpd in Hx. simpl in Hx. congruence.
  - apply list.NoDup_app in Hnd' as (_ & _ & Hnd'). apply list.NoDup_cons in Hnd' as [Hx _].
    intros ->. apply Hx. by left.
  - apply (find_pred_links ns q p n m2); [by rewrite <- Eq|done..|].
    rewrite length_app in Hlen. simpl in Hlen. rewrite length_app in Hlen. lia.
Qed.

(** Relinking the predecessor, copying the stranger and clearing [n]. *)
Definition evicted (ns : list node) (p n f : nat) (pd nd : node) : list node :=
  <[n := mknode (set_nil (n_val nd)) (n_key nd) None]>
    (<[f := nd]> (<[p := mknode (n_val pd) (n_key pd) (Some f)]> ns)).

Lemma evicted_lookup ns p n f pd nd i :
  ns !! p = Some pd -> ns !! n = Some nd -> (f < length ns)%nat -> p <> n -> f <> n -> p <> f ->
  evicted ns p n f pd nd !! i =
    if decide (i = n) then Some (mknode (set_nil (n_val nd)) (n_key nd) None)
    else if decide (i = f) then Some nd
    else if decide (i = p) then Some (mknode (n_val pd) (n_key pd) (Some f)) else ns !! i.
Proof.
  intros Hp Hn Hf Hpn Hfn Hpf. apply lookup_lt_Some in Hp, Hn. unfold evicted.
  repeat case_decide; subst; rewrite ?list_lookup_insert_ne by done;
    rewrite ?list_lookup_insert_eq; rewrite ?length_insert; done.
Qed.

Lemma move_colliding_spec t ns C n nd c f fd :
  hp_inv t ns C -> ns !! n = Some nd -> is_nil (n_key nd) = false ->
  hashkey ks t (n_key nd) = Some c -> c <> n ->
  ns !! f = Some fd -> is_nil (n_key fd) = true ->
  exists p pd, ns !! p = Some pd /\ n_next pd = Some n /\ is_nil (n_key pd) = false /\
    p <> n /\ p <> f /\ f <> n /\ move_colliding ks t ns n f c = Some (evicted ns p n f pd nd).
Proof.
  intros I Hnd Hk Hc Hcn Hf Hfk.
  destruct (stranger_pred _ _ _ _ _ _ I Hnd Hk Hc Hcn)
    as (q1 & p & q2 & pd & Hl & Hp & Hpx & Hpk & Hpn & Efind).
  assert (Hfn : f <> n) by congruence. assert (Hpf : p <> f) by congruence.
  pose proof (lookup_lt_Some _ _ _ Hf) as Hflt.
  exists p, pd. split_and!; try done. unfold move_colliding. rewrite Efind. simpl.
  rewrite (set_next_Some _ _ _ _ Hp). simpl.
  rewrite list_lookup_insert_ne, Hnd by done. simpl. rewrite !list_lookup_insert_ne, Hnd by done.
  simpl. assert (Eta : mknode (n_val nd) (n_key nd) (n_next nd) = nd) by (by destruct nd).
  rewrite Eta. fold (evicted ns p n f pd nd). set (ns1 := evicted ns p n f pd nd).
  assert (E1 : forall i, ns1 !! i = _) by (intros i; by apply evicted_lookup).
  pose proof (chain_length _ _ _ _ I Hl) as Hlen. rewrite length_app in Hlen. simpl in Hlen.
  pose proof (hp_links _ _ _ I _ Hl) as Hlk. apply links_app_inv in Hlk as [_ [Hnx Hlk]].
  pose proof (chains_NoDup _ _ (hp_nodup _ _ _ I) Hl) as Hnd'.
  apply list.NoDup_app in Hnd' as (_ & _ & Hnd'). rewrite !list.NoDup_cons, elem_of_cons in Hnd'.
  destruct Hnd' as (Hp2 & Hn2 & _).
  assert (Hq2 : forall i, i ∈ q2 -> used ns i).
  { intros i Hi. apply (hp_cover _ _ _ I), elem_of_concat. eexists. split; [exact Hl|].
    apply elem_of_app. right. right. by right. }
  assert (Hsame : forall i, i ∈ q2 -> ns1 !! i = ns !! i).
  { intros i Hi. rewrite E1, !decide_False; [done|..]; intros ->; [tauto| |done].
    destruct (Hq2 _ Hi) as (x & ? & ?). congruence. }
  apply (rechain_id _ _ _ q2).
  - split; [|apply (links_ext ns); [|done]; intros i Hi; unfold next_of; by rewrite Hsame].
    unfold next_of in *. rewrite E1, decide_False, decide_True by done. by rewrite Hnd in Hnx.
  - unfold ns1, evicted. rewrite !length_insert. lia.
  - intros i ni Hi Hni Hs. rewrite Hsame in Hni by done.
    destruct (Hq2 _ Hi) as (x & Hx & Hxk). assert (x = ni) as -> by congruence.
    destruct (k_hash _ _ (hp_key _ _ _ I _ _ Hni Hxk)) as [h Hh].
    exists h. split; [unfold hashkey in Hh; by rewrite Hs in Hh|]. intros ->.
    by apply (stranger_alone t ns C n nd c I Hnd Hc Hcn i ni).
Qed.

Lemma hmask_pos t ns C : hp_inv t ns C -> 0 < hmask t.
Proof.
  intros I. destruct (hp_bits _ _ _ I) as (b & Hb & -> & _). rewrite Z.ones_equiv.
  pose proof (Z.pow_le_mono_r 2 1 b ltac:(lia) ltac:(lia)). lia.
Qed.

(** Insertion of a key that is not there: it fails exactly when every node has
    a key, and then changes nothing but the error state. *)
Lemma newkey_spec t k key ns C :
  nodes t = Some ns -> hp_inv t ns C -> key_ok t key ->
  (forall i nd, ns !! i = Some nd -> keyid_of (n_key nd) <> keyid_of key) ->
  (exists ns' C' ft m,
     kp_tab_newkey ks t k key = Some (Some m,
       mktab (array t) (asize t) (Some ns') (hmask t) ft (u32 (hnum t + 1)), k) /\
     inserted t ns ns' C' ft m key) \/
  (kp_tab_newkey ks t k key = Some (None, t, kp_error "table overflow" k) /\
     forall i, (i < length ns)%nat -> used ns i).
Proof.
  intros Hns I Hkey Hnew. destruct (k_hash _ _ Hkey) as [n Hn].
  destruct (lookup_lt_is_Some_2 ns n) as [nd Hnd]; [by eapply hashkey_lt|].
  pose proof (hmask_pos _ _ _ I) as Hm.
  unfold kp_tab_newkey. rewrite Hn, Hns. simpl. rewrite Hnd. simpl.
  destruct (is_nil (n_val nd)) eqn:Hv; simpl.
  { destruct (hmask t =? 0) eqn:E; [bool_to_Prop; lia|]. left.
    unfold put_key. rewrite Hnd. simpl.
    destruct (insert_here t ns C key n I Hkey Hn Hnew nd Hnd Hv) as [C' Hins].
    do 4 eexists. split; [done|exact Hins]. }
  destruct (find_free_spec ns (freetop t)) as (o & -> & Ho); [apply I|]. simpl.
  destruct o as [f|].
  2: { right. split; [done|]. intros i Hi.
       destruct (decide (i < freetop t)%nat); [by apply Ho|apply I; lia]. }
  left. destruct Ho as (Hft & (fd & Hf & Hfk) & Hfu).
  assert (Hft' : (f <= freetop t)%nat) by lia.
  pose proof (value_has_key t ns C n nd I Hnd Hv) as Hk.
  destruct (k_hash _ _ (hp_key _ _ _ I _ _ Hnd Hk)) as [c Hc]. rewrite Hc. simpl.
  destruct (Nat.eqb_spec c n) as [->|Hcn]; simpl.
  - pose proof (lookup_lt_Some _ _ _ Hf). pose proof (lookup_lt_Some _ _ _ Hnd).
    assert (Hfn : f <> n) by congruence.
    rewrite (set_next_Some _ _ _ _ Hf). simpl.
    rewrite (set_next_Some _ _ nd) by (by rewrite list_lookup_insert_ne). simpl.
    unfold put_key. rewrite list_lookup_insert_ne, list_lookup_insert_eq by done. simpl.
    edestruct (insert_after t ns C key n I Hkey Hn Hnew nd Hnd Hv f fd Hf Hfk Hft' Hfu) as [C' Hins];
      [..|exact Hc|do 4 eexists; split; [done|exact Hins]].
    + by rewrite !length_insert.
    + apply list_lookup_insert_eq. by rewrite !length_insert.
    + rewrite list_lookup_insert_ne, list_lookup_insert_eq by (done || by rewrite length_insert). done.
    + intros i ? ?. by rewrite !list_lookup_insert_ne.
  - destruct (move_colliding_spec _ _ _ _ _ _ _ _ I Hnd Hk Hc Hcn Hf Hfk)
      as (p & pd & Hp & Hpx & Hpk & Hpn & Hpf & Hfn & ->). simpl.
    pose proof (lookup_lt_Some _ _ _ Hf). pose proof (lookup_lt_Some _ _ _ Hnd).
    unfold put_key. rewrite evicted_lookup, decide_True by done. simpl.
    edestruct (insert_evict t ns C key n I Hkey Hn Hnew nd Hnd Hv f fd Hf Hfk Hft' Hfu c Hc Hcn p pd Hp Hpx Hpk)
      as [C' Hins]; [..|do 4 eexists; split; [done|exact Hins]].
    + unfold evicted. by rewrite !length_insert.
    + apply list_lookup_insert_eq. unfold evicted. by rewrite !length_insert.
    + rewrite list_lookup_insert_ne, evicted_lookup, decide_False, decide_True by done. done.
    + rewrite list_lookup_insert_ne, evicted_lookup, !decide_False, decide_True by done. done.
    + intros i ? ? ?. rewrite list_lookup_insert_ne, evicted_lookup, !decide_False by done. done.
Qed.

End Inv.
