(* ===== verification/TabSpec.v ===== *)
(** * TabSpec: tables refine finite maps

    [contents t] is the finite map a table stands for: the non-nil array slots
    under their index and the non-nil values of the used nodes under their key.
    Lookup, store, increment, creation, clearing, duplication, traversal and
    length are related to this map. *)

From S2P Require Import Prelude Types Mempool Tab TabInv.
#[local] Open Scope word_scope.

(** ** The map of a table *)

Definition index_id (i : nat) : keyid := keyid_of (set_number (Z.of_nat i)).

Definition array_entries (a : list ktap_val) : list (keyid * ktap_val) :=
  filter (λ e, is_nil e.2 = false) (imap (λ i v, (index_id i, v)) a).

Definition node_entries (ns : list node) : list (keyid * ktap_val) :=
  map (λ n, (keyid_of (n_key n), n_val n))
    (filter (λ n, is_nil (n_key n) = false /\ is_nil (n_val n) = false) ns).

Definition contents (t : ktap_tab) : gmap keyid ktap_val :=
  list_to_map (array_entries (array t) ++ node_entries (default [] (nodes t))).

(** The same as a relation. *)
Definition tab_has (t : ktap_tab) (id : keyid) (v : ktap_val) : Prop :=
  (exists i, array t !! i = Some v /\ is_nil v = false /\ id = index_id i) \/
  (exists ns, nodes t = Some ns /\ live ns id v).

Lemma array_entries_elem a id v :
  (id, v) ∈ array_entries a <-> exists i, a !! i = Some v /\ is_nil v = false /\ id = index_id i.
Proof.
  unfold array_entries. rewrite list_elem_of_filter, elem_of_lookup_imap. simpl. split.
  - intros [Hv (i & y & [= -> ->] & Hi)]. eauto.
  - intros (i & Hi & Hv & ->). split; [done|]. eauto.
Qed.

Lemma node_entries_elem ns id v : (id, v) ∈ node_entries ns <-> live ns id v.
Proof.
  unfold node_entries, live. rewrite list_elem_of_fmap. split.
  - intros (n & [= -> ->] & Hn). apply list_elem_of_filter in Hn as [[? ?] Hn].
    apply list_elem_of_lookup in Hn as [i Hi]. by exists i, n.
  - intros (i & n & Hi & Hk & <- & <- & Hv). exists n. split; [done|].
    apply list_elem_of_filter. split; [done|]. by eapply list_elem_of_lookup_2.
Qed.

(** Identify the node vectors a table is said to have. *)
Ltac same_nodes ns :=
  repeat match goal with
  | H : nodes ?t = Some ns, H' : nodes ?t = Some ?b |- _ =>
      assert_fails (constr_eq b ns); rewrite H in H'; injection H' as H'; subst b
  end.

Section Spec.
Context (ks : kctx).

Lemma index_id_small t i : asize t <= KP_MAX_ASIZE -> Z.of_nat i < asize t ->
  index_id i = KObj KTAP_TNUM (Z.of_nat i).
Proof.
  intros H1 H2. unfold index_id, keyid_of, set_number. simpl. rewrite swrap_id; [done|lia|].
  unfold in_s. change KP_MAX_ASIZE with 134217729 in H1. lia.
Qed.

Lemma array_lt t i v : tab_inv ks t -> array t !! i = Some v -> Z.of_nat i < asize t.
Proof. intros I Hi. apply lookup_lt_Some in Hi. destruct (ti_asize _ _ I) as [-> _]. lia. Qed.

(** An array slot and a node never have the same key. *)
Lemma array_node_disjoint t ns C i nd :
  hp_inv ks t ns C -> asize t <= KP_MAX_ASIZE -> Z.of_nat i < asize t ->
  nd ∈ ns -> is_nil (n_key nd) = false -> keyid_of (n_key nd) <> index_id i.
Proof.
  intros I Ha Hi Hnd Hk E. rewrite (index_id_small t) in E by done.
  apply list_elem_of_lookup in Hnd as [j Hj].
  assert (Hty : type (n_key nd) = KTAP_TNUM /\ val (n_key nd) = Z.of_nat i).
  { unfold keyid_of in E. rewrite Hk in E. simpl in E. destruct (is_bool (n_key nd)); by simplify_eq. }
  destruct Hty as [Hty Hval].
  pose proof (k_range _ _ _ (hp_key _ _ _ _ I _ _ Hj Hk)) as Hr.
  unfold is_number, itype in Hr. rewrite Hty, Hval in Hr.
  specialize (Hr eq_refl). change KP_MAX_ASIZE with 134217729 in Ha.
  rewrite wrap_id in Hr by (unfold in_u; lia). specialize (Hr eq_refl). lia.
Qed.

Lemma live_inj t ns C id v v' : hp_inv ks t ns C -> live ns id v -> live ns id v' -> v = v'.
Proof.
  intros I (i & ni & Hi & Hk & <- & <- & _) (j & nj & Hj & Hk' & E & <- & _).
  assert (i = j) as -> by (eapply (hp_uniq _ _ _ _ I); [exact Hi|exact Hj|done|done]). congruence.
Qed.

Lemma tab_has_inj t id v v' : tab_inv ks t -> tab_has t id v -> tab_has t id v' -> v = v'.
Proof.
  intros I. destruct (ti_nodes _ _ I) as (ns & C & Hns & HI). destruct (ti_asize _ _ I) as [_ Hm].
  intros [(i & Hi & Hv & ->)|(? & Hns' & H)] [(j & Hj & Hv' & E)|(? & Hns'' & H')]; same_nodes ns.
  - pose proof (array_lt _ _ _ I Hi) as Li. pose proof (array_lt _ _ _ I Hj) as Lj.
    rewrite !(index_id_small t) in E by (done || apply I). injection E as E.
    assert (i = j) as -> by lia. congruence.
  - destruct H' as (j & nd & Hj & Hk & E & _). exfalso.
    by eapply (array_node_disjoint t ns C i nd);
      [..|by eapply list_elem_of_lookup_2|exact Hk|exact E]; [|done|by eapply array_lt].
  - destruct H as (i & nd & Hi & Hk & E' & _). rewrite E in E'. exfalso.
    by eapply (array_node_disjoint t ns C j nd);
      [..|by eapply list_elem_of_lookup_2|exact Hk|exact E']; [|done|by eapply array_lt].
  - by eapply live_inj.
Qed.

Lemma contents_lookup t id v : tab_inv ks t -> contents t !! id = Some v <-> tab_has t id v.
Proof.
  intros I. destruct (ti_nodes _ _ I) as (ns & C & Hns & HI).
  assert (Helem : forall v, (id, v) ∈ array_entries (array t) ++ node_entries (default [] (nodes t))
            <-> tab_has t id v).
  { intros w. rewrite elem_of_app, array_entries_elem, node_entries_elem. unfold tab_has.
    rewrite Hns. simpl. split; (intros [?|Hl]; [by left|right]); [eauto|].
    by destruct Hl as (? & [= <-] & ?). }
  unfold contents. rewrite <- Helem. split; [apply elem_of_list_to_map_2|].
  intros Hin. apply elem_of_list_to_map_1'; [|done]. intros y Hy.
  eapply tab_has_inj; [done|by apply Helem|by apply Helem].
Qed.

(** Two tables whose relations agree have the same map. *)
Lemma contents_none t id : tab_inv ks t -> contents t !! id = None <-> forall v, ~ tab_has t id v.
Proof.
  intros I. split.
  - intros E v Hv. apply contents_lookup in Hv; [congruence|done].
  - intros H. destruct (contents t !! id) as [v|] eqn:E; [|done].
    apply contents_lookup in E; [|done]. by apply H in E.
Qed.

(** ** Dispatch on the key *)

(** Keys that stand for themselves: not nil, not a light userdata, not one of
    the two tags that are turned into a string first; strings have a hash. *)
Record plain_key (key : ktap_val) : Prop := {
  pk_nonnil : is_nil key = false;
  pk_light : type key <> KTAP_TLIGHTUD;
  pk_event : is_eventstr key = false;
  pk_stack : (itype key =? KTAP_TKSTACK) = false;
  pk_hash : is_string key = true -> is_Some (str_hash ks (val key));
  pk_range : in_s 64 (val key)
}.

(** The array slot of a key, if the array part covers it. *)
Definition array_index (t : ktap_tab) (key : ktap_val) : option nat :=
  if is_number key && ((val key =? u32 (val key)) && (u32 (val key) <? asize t))
  then Some (Z.to_nat (val key)) else None.

Definition test_of (key : ktap_val) (p : node -> bool) : Prop :=
  forall nd, type (n_key nd) <> KTAP_TLIGHTUD -> p nd = true <-> keyid_of (n_key nd) = keyid_of key.

Lemma plain_key_ok t key : plain_key key -> array_index t key = None -> key_ok ks t key.
Proof.
  intros K Ha. split; [apply K|apply K|..].
  - unfold hashkey, hashstr. destruct (is_string key) eqn:Es.
    + destruct (pk_hash _ K Es) as [h ->]. by eexists.
    + repeat case_match; by eexists.
  - intros Hn E. unfold array_index in Ha. rewrite Hn, <- E, Z.eqb_refl in Ha. simpl in Ha.
    destruct (val key <? asize t) eqn:El; [done|]. bool_to_Prop. lia.
Qed.

Lemma number_key key : is_number key = true -> in_s 64 (val key) -> set_number (val key) = key.
Proof.
  unfold is_number, itype, set_number. intros Ht Hr. rewrite swrap_id by (done || lia).
  bool_to_Prop. destruct key; simpl in *; congruence.
Qed.

Lemma string_key key : is_string key = true -> set_string (val key) = key.
Proof. unfold is_string, itype, set_string. intros Ht. bool_to_Prop. destruct key; simpl in *; congruence. Qed.

(** Getters and setters look in the same place: an array slot, or the chain the
    key hashes to, searched with a test for the key. *)
Lemma dispatch t k key :
  plain_key key ->
  match array_index t key with
  | Some n =>
      tab_get ks t k key = Some (SArr n, k) /\ tab_set ks t k key = Some (Some (SArr n), t, k)
  | None => exists a p, hashkey ks t key = Some a /\ test_of key p /\
      tab_get ks t k key = (o ← find_from t a p; Some (node_slot o, k)) /\
      tab_set ks t k key = find_or_new ks t k (find_from t a p) key
  end.
Proof.
  intros K. pose proof (pk_range _ K) as Hr.
  assert (Hgen : is_string key = false -> exists a, hashkey ks t key = Some a /\
     genlookup ks t key = find_from t a (is_obj_key key)).
  { intros Es. unfold genlookup, hashkey. rewrite Es. repeat case_match; eexists; by split. }
  unfold array_index, tab_get, tab_set. destruct (is_string key) eqn:Es.
  - assert (En : is_number key = false)
      by (unfold is_string, is_number, itype in *; bool_to_Prop; by rewrite Es).
    rewrite En. simpl. destruct (pk_hash _ K Es) as [h Hh].
    exists (hashmask t h), (is_str_key (val key)). unfold tab_getstr, tab_setstr, hashkey, hashstr.
    rewrite Es, Hh, (string_key key) by done. simpl. split_and!; try done.
    + intros nd _. rewrite <- (string_key key Es) at 2. apply is_str_key_spec.
    + by destruct (find_from t _ _).
  - destruct (is_number key) eqn:En; simpl.
    + unfold nvalue. destruct (val key =? u32 (val key)) eqn:Eu; simpl.
      * apply Z.eqb_eq in Eu. rewrite <- Eu. unfold tab_getint, tab_setint.
        destruct (val key <? asize t); [done|]. unfold tab_getinth, tab_setinth.
        rewrite (number_key key) by done. exists (hashnum t key), (is_num_key (val key)).
        unfold hashkey. rewrite Es, En. split_and!; try done.
        -- intros nd _. rewrite <- (number_key key En Hr) at 2. by apply is_num_key_spec.
        -- by destruct (find_from t _ _).
      * destruct (Hgen eq_refl) as (a & Ha & Eg). exists a, (is_obj_key key).
        unfold genset. rewrite Eg. split_and!; try done. intros nd. apply is_obj_key_spec.
    + destruct (Hgen eq_refl) as (a & Ha & Eg). exists a, (is_obj_key key).
      rewrite (pk_event _ K), (pk_stack _ K), (pk_nonnil _ K). simpl. unfold genset. rewrite Eg.
      split_and!; try done. intros nd. apply is_obj_key_spec.
Qed.

Lemma array_index_lt t key n : tab_inv ks t -> plain_key key -> array_index t key = Some n ->
  (n < length (array t))%nat /\ keyid_of key = index_id n.
Proof.
  intros I K. unfold array_index. destruct (is_number key) eqn:En; [|done]. simpl.
  destruct (val key =? u32 (val key)) eqn:Eu; [|done]. simpl.
  destruct (u32 (val key) <? asize t) eqn:El; [|done]. intros [= <-].
  apply Z.eqb_eq in Eu. rewrite <- Eu in El. bool_to_Prop.
  assert (0 <= val key) by (rewrite Eu; apply wrap_range; lia).
  destruct (ti_asize _ _ I) as [Ea _]. split; [lia|].
  unfold index_id. rewrite Z2Nat.id by done. by rewrite (number_key key) by (done || apply K).
Qed.

(** ** Slots *)

(** [s] is where table [t] keeps the value of the key with identity [id]. *)
Definition slot_key (t : ktap_tab) (s : slot) (id : keyid) : Prop :=
  match s with
  | SArr n => (n < length (array t))%nat /\ id = index_id n
  | SNode i => exists ns nd, nodes t = Some ns /\ ns !! i = Some nd /\
                 is_nil (n_key nd) = false /\ keyid_of (n_key nd) = id
  | SNil => False
  end.

(** Assigning to a key of the abstract map; nil removes the key. *)
Definition map_put (id : keyid) (w : ktap_val) (m : gmap keyid ktap_val) : gmap keyid ktap_val :=
  if is_nil w then delete id m else <[id := w]> m.

Definition map_val (v : ktap_val) : option ktap_val := if is_nil v then None else Some v.

Lemma index_id_inj t i j :
  tab_inv ks t -> (i < length (array t))%nat -> (j < length (array t))%nat ->
  index_id i = index_id j -> i = j.
Proof.
  intros I Hi Hj. destruct (ti_asize _ _ I) as [Ea Hm].
  rewrite !(index_id_small t) by (done || lia). intros [=]. lia.
Qed.

(** A key is in the table only through its slot. *)
Lemma slot_unique t s id v :
  tab_inv ks t -> slot_key t s id -> tab_has t id v -> slot_val t s = Some v /\ is_nil v = false.
Proof.
  intros I Hs. destruct (ti_nodes _ _ I) as (ns & C & Hns & HI). destruct (ti_asize _ _ I) as [Ea Hm].
  destruct s as [n|i|]; [destruct Hs as [Hn ->]|destruct Hs as (? & nd & ? & Hi & Hk & E)|done];
    same_nodes ns; (intros [(j & Hj & Hv & E')|(? & ? & j & nj & Hj & Hk' & E' & <- & Hv)]; same_nodes ns);
    try subst id.
  - apply (index_id_inj t) in E' as ->; [done|done|done|by eapply lookup_lt_Some].
  - exfalso. eapply (array_node_disjoint t ns C n nj);
      [done..|lia|by eapply list_elem_of_lookup_2|done|done].
  - exfalso. pose proof (lookup_lt_Some _ _ _ Hj).
    eapply (array_node_disjoint t ns C j nd); [done..|lia|by eapply list_elem_of_lookup_2|done|done].
  - assert (i = j) as -> by (eapply (hp_uniq _ _ _ _ HI); [exact Hi|exact Hj|done|done]).
    simpl. rewrite Hns. simpl. rewrite Hj. done.
Qed.

Lemma slot_contents t s id :
  tab_inv ks t -> slot_key t s id ->
  exists v, slot_val t s = Some v /\ contents t !! id = map_val v.
Proof.
  intros I Hs.
  assert (exists v, slot_val t s = Some v /\ (is_nil v = false -> tab_has t id v)) as (v & Hv & Hhas).
  { destruct s as [n|i|]; [destruct Hs as [Hn ->]|destruct Hs as (ns & nd & Hns & Hi & Hk & <-)|done].
    - destruct (lookup_lt_is_Some_2 _ _ Hn) as [v Hv]. exists v. split; [done|]. left. eauto.
    - exists (n_val nd). simpl. rewrite Hns. simpl. rewrite Hi. split; [done|].
      right. exists ns. split; [done|]. by exists i, nd. }
  exists v. split; [done|]. unfold map_val. destruct (is_nil v) eqn:En.
  - apply (contents_none); [done|]. intros w Hw.
    destruct (slot_unique _ _ _ _ I Hs Hw). congruence.
  - apply contents_lookup; auto.
Qed.

Lemma contents_put t t' id w :
  tab_inv ks t -> tab_inv ks t' ->
  (forall id' v, tab_has t' id' v <->
     (id' = id /\ v = w /\ is_nil w = false) \/ (id' <> id /\ tab_has t id' v)) ->
  contents t' = map_put id w (contents t).
Proof.
  intros I I' H. apply map_eq. intros id'. apply option_eq. intros v.
  rewrite contents_lookup, H by done. unfold map_put. destruct (is_nil w) eqn:En.
  - rewrite lookup_delete_Some, contents_lookup by done. split.
    + intros [(_ & _ & ?)|[? ?]]; [done|split; auto].
    + intros [? ?]. right. split; auto.
  - rewrite lookup_insert_Some, contents_lookup by done. split.
    + intros [(-> & -> & _)|[? ?]]; [by left|right; split; auto].
    + intros [[? ?]|[? ?]]; [left|right]; split; auto.
Qed.

Lemma contents_same t t' :
  tab_inv ks t -> tab_inv ks t' -> (forall id v, tab_has t' id v <-> tab_has t id v) ->
  contents t' = contents t.
Proof.
  intros I I' H. apply map_eq. intros id. apply option_eq. intros v. by rewrite !contents_lookup, H.
Qed.

(** Changing the value of a used node keeps the hash part well-formed. *)
Lemma hp_inv_setval t ns C i nd w :
  hp_inv ks t ns C -> ns !! i = Some nd -> is_nil (n_key nd) = false ->
  let ns' := <[i := mknode w (n_key nd) (n_next nd)]> ns in hp_inv ks (with_nodes t ns') ns' C.
Proof.
  intros I Hi Hk ns'.
  assert (Hl : forall j nj, ns' !! j = Some nj -> exists nj0, ns !! j = Some nj0 /\
     n_key nj0 = n_key nj /\ n_next nj0 = n_next nj /\ (j <> i -> nj0 = nj)).
  { intros j nj. unfold ns'. destruct (decide (j = i)) as [->|Hne].
    - rewrite list_lookup_insert_eq by (by eapply lookup_lt_Some). intros [= <-]. by exists nd.
    - rewrite list_lookup_insert_ne by done. eauto. }
  assert (Hr : forall j nj, ns !! j = Some nj -> exists nj', ns' !! j = Some nj' /\
     n_key nj' = n_key nj /\ n_next nj' = n_next nj).
  { intros j nj Hj. unfold ns'. destruct (decide (j = i)) as [->|Hne].
    - rewrite list_lookup_insert_eq by (by eapply lookup_lt_Some). rewrite Hi in Hj.
      injection Hj as <-. by eexists.
    - rewrite list_lookup_insert_ne by done. eauto. }
  assert (Hu : forall j, used ns' j <-> used ns j).
  { intros j. unfold used. split; intros (x & Hx & Hxk).
    - destruct (Hl _ _ Hx) as (y & Hy & E & _). exists y. by rewrite E.
    - destruct (Hr _ _ Hx) as (y & Hy & E & _). exists y. by rewrite E. }
  assert (Hh : forall key, hashkey ks (with_nodes t ns') key = hashkey ks t key)
    by (intros; by apply hashkey_hmask).
  assert (Elen : length ns' = length ns) by apply length_insert.
  split; simpl; rewrite ?Elen; try apply I.
  - intros j Hj. apply Hu. by apply I.
  - intros j nj Hj Hnil. destruct (Hl _ _ Hj) as (y & Hy & E & _). rewrite <- E in *.
    by eapply key_ok_tab, (hp_key _ _ _ _ I).
  - intros j j' nj nj' Hj Hj' Hnil Ek. destruct (Hl _ _ Hj) as (y & Hy & E & _).
    destruct (Hl _ _ Hj') as (y' & Hy' & E' & _).
    eapply (hp_uniq _ _ _ _ I); [exact Hy|exact Hy'|by rewrite E|by rewrite E, E'].
  - intros j nj Hj Hnil. destruct (Hl _ _ Hj) as (y & Hy & E & _ & E').
    destruct (decide (j = i)) as [->|Hne]; [congruence|]. rewrite E' in Hy by done.
    by apply (hp_unused _ _ _ _ I j).
  - intros j. rewrite Hu. apply I.
  - intros l Hl'. apply (links_ext ns); [|by apply (hp_links _ _ _ _ I)]. intros j Hj.
    assert (Hju : used ns j) by (apply (hp_cover _ _ _ _ I), elem_of_concat; eauto).
    destruct Hju as (x & Hx & _). destruct (Hr _ _ Hx) as (y & Hy & _ & E).
    unfold next_of. rewrite Hx, Hy. simpl. by rewrite E.
  - intros j nj a Hj Hnil Ha. rewrite Hh in Ha. destruct (Hl _ _ Hj) as (y & Hy & E & _).
    rewrite <- E in *. by eapply (hp_reach _ _ _ _ I).
  - intros j nj a Hj Hnil Ha Hne. rewrite Hh in Ha. destruct (Hl _ _ Hj) as (y & Hy & E & _).
    rewrite <- E in *. destruct (hp_main _ _ _ _ I _ _ _ Hy Hnil Ha Hne) as (na & Hna & Hnk & Hnh).
    destruct (Hr _ _ Hna) as (na' & Hna' & E' & _). exists na'. by rewrite Hh, E'.
Qed.

Lemma store_array t n w :
  tab_inv ks t -> (n < length (array t))%nat ->
  exists t', store t (SArr n) w = Some t' /\ tab_inv ks t' /\
    contents t' = map_put (index_id n) w (contents t).
Proof.
  intros I Hn. unfold store. rewrite decide_True by done. eexists. split; [done|].
  destruct (ti_nodes _ _ I) as (ns & C & Hns & HI). destruct (ti_asize _ _ I) as [Ea Hm].
  assert (I' : tab_inv ks (mktab (<[n:=w]> (array t)) (asize t) (nodes t) (hmask t) (freetop t) (hnum t))).
  { split; simpl; [by rewrite length_insert|]. exists ns, C. split; [done|].
    destruct HI; split; try done. intros i nd Hi Hk. by apply (key_ok_tab ks t); [..|eapply hp_key]. }
  split; [done|]. apply contents_put; [done..|]. intros id v. unfold tab_has. simpl. split.
  - intros [(i & Hi & Hv & ->)|(? & Hns' & Hl)]; same_nodes ns.
    + destruct (decide (i = n)) as [->|Hne].
      * rewrite list_lookup_insert_eq in Hi by done. injection Hi as <-. auto.
      * rewrite list_lookup_insert_ne in Hi by done. right. split; [|left; eauto].
        intros E. apply Hne, (index_id_inj t); try done. by eapply lookup_lt_Some.
    + right. split; [|right; eauto]. destruct Hl as (i & nd & Hi & Hk & <- & _).
      eapply (array_node_disjoint t ns C n nd); [done..|lia|by eapply list_elem_of_lookup_2|done].
  - intros [(-> & -> & Hv)|[Hne [(i & Hi & Hv & ->)|(? & Hns' & Hl)]]].
    + left. exists n. by rewrite list_lookup_insert_eq.
    + left. exists i. rewrite list_lookup_insert_ne by (intros ->; done). done.
    + right. eauto.
Qed.

Lemma store_node t i id w :
  tab_inv ks t -> slot_key t (SNode i) id ->
  exists t', store t (SNode i) w = Some t' /\ tab_inv ks t' /\ contents t' = map_put id w (contents t).
Proof.
  intros I (ns & nd & Hns & Hi & Hk & E). unfold store. rewrite Hns. simpl. rewrite Hi. simpl.
  eexists. split; [done|]. destruct (ti_nodes _ _ I) as (? & C & Hns' & HI). same_nodes ns.
  set (ns' := <[i := mknode w (n_key nd) (n_next nd)]> ns).
  assert (I' : tab_inv ks (with_nodes t ns')).
  { split; simpl; [apply I|]. exists ns', C. split; [done|]. by eapply hp_inv_setval. }
  pose proof (lookup_lt_Some _ _ _ Hi) as Hlt. destruct (ti_asize _ _ I) as [Ea Hm].
  split; [done|]. apply contents_put; [done..|]. intros id' v. unfold tab_has. simpl. split.
  - intros [(j & Hj & Hv & ->)|(? & [= <-] & Hl)].
    + right. split; [|left; eauto]. intros E'. rewrite <- E in E'. symmetry in E'.
      pose proof (lookup_lt_Some _ _ _ Hj). revert E'.
      eapply (array_node_disjoint t ns C j nd); [done..|lia|by eapply list_elem_of_lookup_2|done].
    + destruct Hl as (j & nj & Hj & Hjk & Ej & Ev & Hv). unfold ns' in Hj.
      destruct (decide (j = i)) as [->|Hne].
      * rewrite list_lookup_insert_eq in Hj by done. injection Hj as <-. simpl in *. left. subst. done.
      * rewrite list_lookup_insert_ne in Hj by done. right. split.
        -- intros ->. apply Hne. eapply (hp_uniq _ _ _ _ HI); [exact Hj|exact Hi|done|congruence].
        -- right. exists ns. split; [done|]. by exists j, nj.
  - intros [(-> & -> & Hv)|[Hne [?|(? & Hns' & Hl)]]]; [|by left|same_nodes ns].
    + right. exists ns'. split; [done|]. eexists i, _. unfold ns'.
      rewrite list_lookup_insert_eq by done. done.
    + right. exists ns'. split; [done|]. destruct Hl as (j & nj & Hj & Hjk & Ej & Hjv).
      exists j, nj. unfold ns'. rewrite list_lookup_insert_ne by congruence. done.
Qed.

Lemma store_slot t s id w :
  tab_inv ks t -> slot_key t s id ->
  exists t', store t s w = Some t' /\ tab_inv ks t' /\ contents t' = map_put id w (contents t).
Proof.
  destruct s as [n|i|]; [|apply store_node|by intros _ []].
  intros I [Hn ->]. by apply store_array.
Qed.

(** Every node has a key: there is no room for a new one. *)
Definition full (t : ktap_tab) : Prop :=
  exists ns, nodes t = Some ns /\ forall nd, nd ∈ ns -> is_nil (n_key nd) = false.

Lemma absent_contents t key ns :
  tab_inv ks t -> plain_key key -> array_index t key = None -> nodes t = Some ns ->
  (forall i nd, ns !! i = Some nd -> keyid_of (n_key nd) <> keyid_of key) ->
  contents t !! keyid_of key = None.
Proof.
  intros I K Ha Hns Habs. apply contents_none; [done|].
  intros v [(i & Hi & Hv & E)|(? & Hns' & i & nd & Hi & Hk & E & _)]; same_nodes ns; [|by eapply Habs].
  pose proof (k_range _ _ _ (plain_key_ok _ _ K Ha)) as Hr.
  pose proof (array_lt _ _ _ I Hi) as Hlt. destruct (ti_asize _ _ I) as [_ Hm].
  rewrite (index_id_small t) in E by done. unfold keyid_of in E.
  rewrite (pk_nonnil _ K) in E. simpl in E. destruct (is_bool key); [done|]. injection E as Et Ev.
  unfold is_number, itype in Hr. rewrite Et, Ev in Hr. change KP_MAX_ASIZE with 134217729 in Hm.
  specialize (Hr eq_refl). rewrite wrap_id in Hr by (unfold in_u; lia). specialize (Hr eq_refl). lia.
Qed.

(** The nodes of [t'] hold the key [id] or come from nodes of [t]. *)
Definition keys_from (id : keyid) (t t' : ktap_tab) : Prop :=
  forall ns', nodes t' = Some ns' -> exists ns, nodes t = Some ns /\ length ns' = length ns /\
    forall nd', nd' ∈ ns' -> is_nil (n_key nd') = false -> keyid_of (n_key nd') = id \/
      exists nd, nd ∈ ns /\ n_key nd = n_key nd' /\ n_val nd = n_val nd'.

Lemma keys_from_refl id t : keys_from id t t.
Proof. intros ns' H. exists ns'. split_and!; try done. intros nd' ? _. right. by exists nd'. Qed.

(** The slot a setter hands out. *)
Lemma tab_set_slot t k key :
  tab_inv ks t -> plain_key key ->
  (exists s t', tab_set ks t k key = Some (Some s, t', k) /\ tab_inv ks t' /\
     slot_key t' s (keyid_of key) /\ contents t' = contents t /\ keys_from (keyid_of key) t t') \/
  (tab_set ks t k key = Some (None, t, kp_error "table overflow" k) /\
     contents t !! keyid_of key = None /\ full t).
Proof.
  intros I K. pose proof (dispatch t k key K) as D.
  destruct (array_index t key) as [n|] eqn:Ea.
  { left. destruct D as [_ ->]. destruct (array_index_lt _ _ _ I K Ea). exists (SArr n), t.
    split_and!; try done. apply keys_from_refl. }
  destruct D as (a & p & Hh & Hp & _ & ->). destruct (ti_nodes _ _ I) as (ns & C & Hns & HI).
  destruct (find_from_spec ks t ns C key a p Hns HI (pk_nonnil _ K) Hh Hp) as (o & -> & Ho). simpl.
  destruct o as [i|].
  { left. destruct Ho as (nd & Hi & E). exists (SNode i), t.
    split_and!; try done; [|apply keys_from_refl].
    exists ns, nd. split_and!; try done. eapply keyid_nonnil; [apply K|done]. }
  destruct (newkey_spec ks t k key ns C Hns HI (plain_key_ok _ _ K Ea) Ho)
    as [(ns' & C' & ft & m & -> & HI' & (nd & Hm & Ek & Hnv) & Hlive & Hlen & Hsrc)|[-> Hfull]]; simpl.
  - left. do 2 eexists. split; [done|]. set (t' := mktab _ _ _ _ _ _).
    assert (I' : tab_inv ks t') by (split; simpl; [apply I|by exists ns', C']).
    split_and!; [done| | |].
    + exists ns', nd. rewrite Ek. split_and!; try done. apply K.
    + apply contents_same; [done..|]. intros id v. unfold tab_has. simpl. rewrite Hns.
      split; (intros [?|(? & [= <-] & Hl)]; [by left|right]); eexists; (split; [done|]); by apply Hlive.
    + intros ? [= <-]. exists ns. split_and!; try done. intros nd' Hin Hnil.
      apply list_elem_of_lookup in Hin as [j Hj].
      destruct (Hsrc j nd' Hj Hnil) as [->|(j0 & n0 & Hj0 & ? & ?)].
      * left. rewrite Hm in Hj. injection Hj as <-. by rewrite Ek.
      * right. exists n0. split; [by eapply list_elem_of_lookup_2|done].
  - right. split_and!; [done|by eapply absent_contents|]. exists ns. split; [done|].
    intros nd Hin. apply list_elem_of_lookup in Hin as [i Hi].
    destruct (Hfull i) as (x & Hx & ?); [by eapply lookup_lt_Some|]. congruence.
Qed.

(** ** Lookup and update *)

Lemma tab_get_slot t k key :
  tab_inv ks t -> plain_key key ->
  exists v, kp_tab_get ks t k key = Some (v, k) /\ contents t !! keyid_of key = map_val v.
Proof.
  intros I K. unfold kp_tab_get. pose proof (dispatch t k key K) as D.
  destruct (array_index t key) as [n|] eqn:Ea.
  { destruct D as [-> _]. destruct (array_index_lt _ _ _ I K Ea) as [Hn E].
    destruct (slot_contents t (SArr n) (keyid_of key) I) as (v & Hv & Hc); [by split|].
    exists v. cbn [mbind option_bind]. by rewrite Hv. }
  destruct D as (a & p & Hh & Hp & -> & _). destruct (ti_nodes _ _ I) as (ns & C & Hns & HI).
  destruct (find_from_spec ks t ns C key a p Hns HI (pk_nonnil _ K) Hh Hp) as (o & -> & Ho).
  cbn [mbind option_bind]. destruct o as [i|]; cbn [node_slot].
  - destruct Ho as (nd & Hi & E).
    destruct (slot_contents t (SNode i) (keyid_of key) I) as (v & Hv & Hc).
    { exists ns, nd. split_and!; try done. eapply keyid_nonnil; [apply K|done]. }
    exists v. by rewrite Hv.
  - exists kp_niltv. split; [done|]. by eapply absent_contents.
Qed.

(** C9.  Lookup refines the map: on a well-formed table every plain key has a
    defined lookup that leaves the error state alone and returns the value the
    map has for the key, or a nil when it has none. *)
Theorem kp_tab_get_refines t k key :
  tab_inv ks t -> plain_key key ->
  exists v, kp_tab_get ks t k key = Some (v, k) /\
    contents t !! keyid_of key = (if is_nil v then None else Some v).
Proof. apply tab_get_slot. Qed.

Lemma set_slot_cases t k key v :
  tab_inv ks t -> plain_key key ->
  exists t' k', kp_tab_set ks t k key v = Some (t', k') /\ tab_inv ks t' /\
    ((k' = k /\ contents t' = map_put (keyid_of key) v (contents t)) \/
     (t' = t /\ k' = kp_error "table overflow" k /\ contents t !! keyid_of key = None /\ full t)).
Proof.
  intros I K. unfold kp_tab_set, set_result.
  destruct (tab_set_slot t k key I K) as [(s & t' & -> & I' & Hs & Ec & _)|(-> & Habs & Hfull)];
    cbn [mbind option_bind].
  - destruct (store_slot t' s _ v I' Hs) as (t'' & -> & I'' & Ec'). cbn [mbind option_bind].
    exists t'', k. split_and!; try done. left. by rewrite Ec', Ec.
  - exists t, (kp_error "table overflow" k). split_and!; try done. right. done.
Qed.

(** C8.  Store refines the map: storing under a plain key is defined, keeps the
    table well-formed, and either updates exactly that key (removing it when the
    value is nil) or, when the key is new and every node has a key, reports an
    overflow and leaves the table as it was. *)
Theorem kp_tab_set_refines t k key v :
  tab_inv ks t -> plain_key key ->
  exists t' k', kp_tab_set ks t k key v = Some (t', k') /\ tab_inv ks t' /\
    ((k' = k /\ contents t' = (if is_nil v then delete (keyid_of key) (contents t)
                               else <[keyid_of key := v]> (contents t))) \/
     (t' = t /\ k' = kp_error "table overflow" k /\
      contents t !! keyid_of key = None /\ full t)).
Proof. apply set_slot_cases. Qed.

(** The value an increment leaves, if there is one. *)
Definition incr_val (o : option ktap_val) (n : Z) : option ktap_val :=
  match o with
  | None => Some (set_number n)
  | Some v => if is_number v then Some (set_number (nvalue v + n)) else None
  end.

Lemma number_not_nil n : is_nil (set_number n) = false.
Proof. reflexivity. Qed.


(** ** Sequences of stores *)

Fixpoint run_sets (t : ktap_tab) (k : kerr) (l : list (ktap_val * ktap_val))
  : option (ktap_tab * kerr) :=
  match l with
  | [] => Some (t, k)
  | (key, v) :: l' => '(t, k) ← kp_tab_set ks t k key v; run_sets t k l'
  end.

Definition map_puts (l : list (ktap_val * ktap_val)) (m : gmap keyid ktap_val) :=
  fold_left (λ m e, map_put (keyid_of e.1) e.2 m) l m.

Lemma kp_error_state msg k : k_state (kp_error msg k) = KTAP_ERROR.
Proof. reflexivity. Qed.

(** The VM state never leaves [KTAP_ERROR] through a store. *)
Lemma run_sets_error t k l t' k' :
  tab_inv ks t -> Forall (λ e, plain_key e.1) l -> k_state k = KTAP_ERROR ->
  run_sets t k l = Some (t', k') -> k_state k' = KTAP_ERROR.
Proof.
  revert t k. induction l as [|[key v] l IH]; intros t k I HF Hk; simpl; [by intros [= <- <-]|].
  apply list.Forall_cons in HF as [K HF]. simpl in K.
  destruct (set_slot_cases t k key v I K) as (t1 & k1 & -> & I1 & [[-> _]|(_ & -> & _)]); simpl;
    apply IH; done.
Qed.

(** Any sequence of stores of plain keys into a well-formed table runs to
    the end and keeps the table well-formed; if it raised no error, the table
    then is the map obtained by the same sequence of assignments. *)
Theorem run_sets_refines t k l :
  tab_inv ks t -> Forall (λ e, plain_key e.1) l ->
  exists t' k', run_sets t k l = Some (t', k') /\ tab_inv ks t' /\
    (k_state k' <> KTAP_ERROR -> k' = k /\ contents t' = map_puts l (contents t)).
Proof.
  revert t k. induction l as [|[key v] l IH]; intros t k I HF; simpl; [by exists t, k|].
  apply list.Forall_cons in HF as [K HF]. simpl in K.
  destruct (set_slot_cases t k key v I K) as (t1 & k1 & -> & I1 & Hcase); simpl.
  destruct (IH t1 k1 I1 HF) as (t2 & k2 & E2 & I2 & H2). exists t2, k2. split_and!; try done.
  intros Hne. destruct Hcase as [[-> Ec]|(-> & -> & _)].
  - destruct (H2 Hne) as [-> ->]. split; [done|]. by rewrite Ec.
  - exfalso. by apply Hne, (run_sets_error _ _ _ _ _ I HF (kp_error_state _ _) E2).
Qed.

(** ** Creation *)

Definition clear_tab (t : ktap_tab) : Prop :=
  Forall (λ v, is_nil v = true) (array t) /\
  exists ns, nodes t = Some ns /\ freetop t = length ns /\
    Forall (λ n, is_nil (n_key n) = true /\ is_nil (n_val n) = true /\ n_next n = None) ns.

Lemma clear_tab_inv t b :
  clear_tab t -> asize t = Z.of_nat (length (array t)) -> asize t <= KP_MAX_ASIZE ->
  1 <= b <= KP_MAX_HBITS -> hmask t = Z.ones b ->
  (forall ns, nodes t = Some ns -> length ns = Z.to_nat (2 ^ b)) ->
  tab_inv ks t /\ contents t = ∅.
Proof.
  intros [Ha (ns & Hns & Hft & Hclear)] Ea Hm Hb Hmask Hlen. rewrite list.Forall_forall in Ha.
  rewrite list.Forall_forall in Hclear.
  assert (Hno : forall i nd, ns !! i = Some nd ->
    is_nil (n_key nd) = true /\ is_nil (n_val nd) = true /\ n_next nd = None).
  { intros i nd Hi. apply Hclear. by eapply list_elem_of_lookup_2. }
  assert (I : tab_inv ks t).
  { split; [done|]. exists ns, []. split; [done|].
    split; try (intros i nd ? Hi Hk; destruct (Hno _ _ Hi); congruence);
      try (intros i nd Hi Hk; destruct (Hno _ _ Hi) as (? & ? & ?); congruence).
    - exists b. split_and!; try done; lia || auto.
    - lia.
    - rewrite Hft. intros i Hi. lia.
    - intros i j ni nj Hi _ Hk. destruct (Hno _ _ Hi). congruence.
    - intros i nd Hi Hk. by destruct (Hno _ _ Hi) as (? & ? & ?).
    - simpl. constructor.
    - simpl. intros i. split; [intros H; by apply not_elem_of_nil in H|].
      intros (nd & Hi & Hk). destruct (Hno _ _ Hi). congruence.
    - intros l Hl. by apply not_elem_of_nil in Hl. }
  split; [done|]. apply map_eq. intros id. rewrite lookup_empty. apply contents_none; [done|].
  intros v [(i & Hi & Hv & _)|(? & Hns' & i & nd & Hi & Hk & _)]; same_nodes ns.
  - rewrite Ha in Hv; [done|]. by eapply list_elem_of_lookup_2.
  - destruct (Hno _ _ Hi). congruence.
Qed.

Lemma clear_map_array a : Forall (λ v, is_nil v = true) (map set_nil a).
Proof. apply list.Forall_fmap, Forall_true. intros v. apply is_nil_set_nil. Qed.

Lemma clear_map_nodes ns :
  Forall (λ n, is_nil (n_key n) = true /\ is_nil (n_val n) = true /\ n_next n = None) (map clearnode ns).
Proof. apply list.Forall_fmap, Forall_true. intros n. done. Qed.

Lemma hsize_ones b : 1 <= b <= KP_MAX_HBITS ->
  u32 (1 ≪ b) = 2 ^ b /\ u32 (2 ^ b - 1) = Z.ones b /\ 2 <= 2 ^ b.
Proof.
  intros Hb. change KP_MAX_HBITS with 26 in Hb.
  pose proof (Z.pow_le_mono_r 2 1 b ltac:(lia) ltac:(lia)).
  pose proof (Z.pow_lt_mono_r 2 b 32 ltac:(lia) ltac:(lia) ltac:(lia)).
  rewrite Z.shiftl_1_l, Z.ones_equiv, !wrap_id by (unfold in_u; lia). lia.
Qed.

Lemma clearapart_hmask t : hmask (clearapart t) = hmask t.
Proof. reflexivity. Qed.

(** What clearing makes of freshly allocated vectors. *)
Lemma clear_fresh arr a b jn h :
  1 <= b <= KP_MAX_HBITS -> a = Z.of_nat (length arr) -> a <= KP_MAX_ASIZE ->
  let t := mktab arr a (Some (replicate (Z.to_nat (2 ^ b)) jn)) (Z.ones b) (Z.to_nat (2 ^ b)) h in
  exists t', clearhpart (clearapart t) = Some t' /\ tab_inv ks t' /\ contents t' = ∅ /\
    asize t' = a /\ hmask t' = 2 ^ b - 1 /\ ~ full t'.
Proof.
  intros Hb Ea Hm t. destruct (hsize_ones b Hb) as (_ & _ & Hge).
  pose proof (Z.ones_equiv b) as Eo. rewrite <- Z.sub_1_r in Eo.
  unfold clearhpart, t, clearapart. cbn [nodes array asize hmask freetop hnum mbind option_bind].
  rewrite length_replicate.
  assert (Hle : (Z.of_nat (Z.to_nat (2 ^ b)) <=? Z.ones b) = false) by (apply Z.leb_gt; lia).
  rewrite Hle. assert (Es : S (Z.to_nat (Z.ones b)) = Z.to_nat (2 ^ b)) by lia. rewrite Es.
  rewrite take_ge, drop_ge, app_nil_r by (by rewrite length_replicate).
  eexists. split; [done|].
  match goal with |- tab_inv _ ?t /\ _ => destruct (clear_tab_inv t b) as [I Ec] end;
    cbn [nodes array asize hmask freetop hnum]; rewrite ?length_map; try done.
  - split; [apply clear_map_array|]. eexists. split; [done|]. split; [|apply clear_map_nodes].
    cbn [freetop]. by rewrite length_map, length_replicate.
  - intros ns [= <-]. by rewrite length_map, length_replicate.
  - split_and!; try done. intros (ns & [= <-] & Hf). rewrite fmap_replicate in Hf.
    destruct (Z.to_nat (2 ^ b)) eqn:E; [lia|]. discriminate (Hf _ (list_elem_of_here _ _)).
Qed.

(** Creation with a hash part, once there is an object. *)
Lemma kp_tab_new_hash k m a b :
  ok_obj m = true -> 0 <= a -> 1 <= b ->
  exists o k', kp_tab_new k m a b = Some (o, k') /\
    if a >? KP_MAX_ASIZE then o = None /\ k' = kp_error "table overflow" k
    else if (a >? 0) && negb (ok_arr m) then o = None /\ k' = k
    else if b >? KP_MAX_HBITS then o = None /\ k' = kp_error "table overflow" k
    else if negb (ok_node m) then o = None /\ k' = k
    else k' = k /\ exists t, o = Some t /\ tab_inv ks t /\ contents t = ∅ /\ asize t = a /\
           hmask t = 2 ^ b - 1 /\ ~ full t.
Proof.
  intros Hobj Ha Hb. unfold kp_tab_new, newtab, newhpart. rewrite Hobj. cbn [negb].
  assert (Hb0 : negb (b =? 0) = true) by (apply negb_true_iff, Z.eqb_neq; lia). rewrite Hb0.
  assert (Hmax : (a >? KP_MAX_ASIZE) = true -> (a >? 0) = true).
  { change KP_MAX_ASIZE with 134217729. rewrite !Z.gtb_lt. lia. }
  destruct (a >? KP_MAX_ASIZE) eqn:E1; [rewrite Hmax by done; cbn; eauto|].
  destruct (a >? 0) eqn:E2; cbn [andb negb]; [destruct (ok_arr m); cbn [negb]; [|cbn; eauto]|];
    (destruct (b >? KP_MAX_HBITS) eqn:E3; [cbn; eauto|]);
    (destruct (ok_node m); cbn [negb]; [|cbn; eauto]);
    rewrite Z.gtb_ltb in E1, E2, E3; bool_to_Prop;
    destruct (hsize_ones b ltac:(lia)) as (Eh & Eo & Hge); rewrite Eh, Eo;
    cbn [negb Z.eqb array asize nodes hmask freetop hnum mbind option_bind];
    (assert (Ho : (Z.ones b >? 0) = true) by (rewrite Z.gtb_lt, Z.ones_equiv; lia));
    cbv zeta; rewrite (clearapart_hmask _); cbn [hmask]; rewrite Ho.
  - destruct (clear_fresh (replicate (Z.to_nat a) (junk_val m)) a b (junk_node m) (junk_hnum m))
      as (t & Et & Ht); [lia|rewrite length_replicate; lia|done|].
    rewrite Et.
    eexists _, _. split; [done|]. split; [done|]. by exists t.
  - assert (a = 0) as -> by lia.
    destruct (clear_fresh [] 0 b (junk_node m) (junk_hnum m)) as (t & Et & Ht); [lia|done|done|].
    rewrite Et.
    eexists _, _. split; [done|]. split; [done|]. by exists t.
Qed.

(** C39.  Table creation, for all outcomes of the allocations.  Without an object the code
    writes through NULL: the result of [kp_obj_new] is not tested.  With one, an
    array size above [KP_MAX_ASIZE], or more than [KP_MAX_HBITS] hash bits, reports
    an overflow and gives no table; a failed vector allocation gives no table and
    no error.  Otherwise, with hash bits, the result is a well-formed table with no
    entries and room for one, and no error; without hash bits it is a table of
    nil array slots that has no node vector. *)
Theorem kp_tab_new_spec k m a b : 0 <= a -> 0 <= b ->
  if negb (ok_obj m) then kp_tab_new k m a b = None
  else exists o k', kp_tab_new k m a b = Some (o, k') /\
    if a >? KP_MAX_ASIZE then o = None /\ k' = kp_error "table overflow" k
    else if (a >? 0) && negb (ok_arr m) then o = None /\ k' = k
    else if b =? 0 then k' = k /\ exists t, o = Some t /\ nodes t = None /\ asize t = a /\ hmask t = 0 /\
           Z.of_nat (length (array t)) = a /\ Forall (λ v, is_nil v = true) (array t)
    else if b >? KP_MAX_HBITS then o = None /\ k' = kp_error "table overflow" k
    else if negb (ok_node m) then o = None /\ k' = k
    else k' = k /\ exists t, o = Some t /\ tab_inv ks t /\ contents t = ∅ /\ asize t = a /\
           hmask t = 2 ^ b - 1 /\ ~ full t.
Proof.
  intros Ha Hb. destruct (ok_obj m) eqn:Ho; cbn [negb]; [|unfold kp_tab_new, newtab; by rewrite Ho].
  destruct (Z.eqb_spec b 0) as [->|Hne]; [|by apply kp_tab_new_hash; [|done|lia]].
  unfold kp_tab_new, newtab. rewrite Ho. cbn [negb Z.eqb]. rewrite !Z.gtb_ltb.
  destruct (Z.ltb_spec 0 a) as [Hp|Hp].
  - destruct (KP_MAX_ASIZE <? a); [cbn; eauto|]. destruct (ok_arr m); cbn [andb negb]; [|cbn; eauto].
    eexists _, _. split; [cbn; reflexivity|]. split; [done|]. eexists. split; [done|]. cbn.
    split_and!; [done..|rewrite length_map, length_replicate; lia|]. apply Forall_map, Forall_replicate. done.
  - assert (a = 0) as -> by lia. cbn. eexists _, _. split; [reflexivity|]. split; [done|]. eexists. split; [done|]. cbn. split_and!; [done..|constructor].
Qed.

(** ** Length *)

Lemma NoDup_fmap_filter {A B} (P : A -> Prop) `{!∀ x, Decision (P x)} (f : A -> B) l :
  (forall i j x y, l !! i = Some x -> l !! j = Some y -> P x -> P y -> f x = f y -> i = j) ->
  NoDup (f <$> filter P l).
Proof.
  induction l as [|x l IH]; intros Hu; [constructor|].
  assert (IH' : NoDup (f <$> filter P l)).
  { apply IH. intros i j a b Hi Hj Pa Pb E. by specialize (Hu (S i) (S j) a b Hi Hj Pa Pb E) as [=]. }
  rewrite filter_cons. case_decide as Px; [|done]. simpl. apply list.NoDup_cons. split; [|done].
  intros Hin. apply list_elem_of_fmap in Hin as (y & E & Hy). apply list_elem_of_filter in Hy as [Py Hy].
  apply list_elem_of_lookup in Hy as [i Hi]. discriminate (Hu 0%nat (S i) x y eq_refl Hi Px Py E).
Qed.

Lemma entries_NoDup t ns :
  tab_inv ks t -> nodes t = Some ns -> NoDup ((array_entries (array t) ++ node_entries ns).*1).
Proof.
  intros I Hns. destruct (ti_nodes _ _ I) as (? & C & Hns' & HI). same_nodes ns.
  destruct (ti_asize _ _ I) as [Ea Hm]. rewrite fmap_app. apply list.NoDup_app. split_and!.
  - unfold array_entries. apply NoDup_fmap_filter. intros i j x y Hi Hj _ _ E.
    rewrite list_lookup_imap in Hi, Hj. apply fmap_Some in Hi as (v & Hv & ->).
    apply fmap_Some in Hj as (w & Hw & ->). simpl in E.
    apply (index_id_inj t) in E; [done|done|by eapply lookup_lt_Some..].
  - intros id H1 H2. apply list_elem_of_fmap in H1 as ([? v] & -> & H1).
    apply list_elem_of_fmap in H2 as ([? w] & E & H2). simpl in E. subst.
    apply array_entries_elem in H1 as (i & Hi & _ & ->).
    apply node_entries_elem in H2 as (j & nd & Hj & Hk & E & _). pose proof (lookup_lt_Some _ _ _ Hi).
    revert E. eapply (array_node_disjoint t ns C i nd);
      [done..|lia|by eapply list_elem_of_lookup_2|done].
  - unfold node_entries. rewrite <- list_fmap_compose.
    apply NoDup_fmap_filter. intros i j x y Hi Hj [Px _] [Py _] E.
    by eapply (hp_uniq _ _ _ _ HI).
Qed.

Lemma contents_size t ns : tab_inv ks t -> nodes t = Some ns ->
  size (contents t) = length (array_entries (array t) ++ node_entries ns).
Proof.
  intros I Hns. unfold contents. rewrite Hns. simpl.
  rewrite <- length_map_to_list, map_to_list_to_map; [done|]. by apply entries_NoDup.
Qed.

Lemma array_entries_length a : length (array_entries a) = length (filter (λ v, is_nil v = false) a).
Proof.
  unfold array_entries. generalize index_id. induction a as [|v a IH]; intros f; [done|].
  rewrite imap_cons, !filter_cons. simpl. specialize (IH (f ∘ S)). unfold compose in *.
  case_decide; simpl; by rewrite IH.
Qed.

(** Keys whose value was set to nil stay in their nodes. *)
Definition dead_keys (t : ktap_tab) : nat :=
  length (filter (λ n, is_nil (n_key n) = false /\ is_nil (n_val n) = true) (default [] (nodes t))).

Lemma node_entries_length ns :
  (length (filter (λ n, is_nil (n_key n) = false) ns) =
   length (node_entries ns) +
   length (filter (λ n, is_nil (n_key n) = false /\ is_nil (n_val n) = true) ns))%nat.
Proof.
  unfold node_entries. rewrite length_map. induction ns as [|n ns IH]; [done|].
  rewrite !filter_cons. destruct (is_nil (n_key n)), (is_nil (n_val n));
    repeat case_decide; simpl in *; try lia; exfalso; intuition congruence.
Qed.

(** The length of a table is the number of its entries plus the number of
    keys whose value has been set to nil: a deleted hash key still counts. *)
Theorem kp_tab_len_counts_dead t :
  tab_inv ks t -> kp_tab_len t = Some (Z.of_nat (size (contents t) + dead_keys t)).
Proof.
  intros I. destruct (ti_nodes _ _ I) as (ns & C & Hns & HI). destruct (ti_asize _ _ I) as [Ea Hm].
  destruct (hp_bits _ _ _ _ HI) as (b & Hb & Hmask & Hlen). pose proof (Z.ones_equiv b) as Eo.
  pose proof (pow2_pos b ltac:(lia)).
  rewrite (contents_size t ns) by done. rewrite length_app, array_entries_length.
  unfold kp_tab_len, dead_keys. rewrite Hns. simpl. rewrite decide_True by lia. simpl.
  rewrite decide_True by lia. rewrite !take_ge by lia. rewrite (node_entries_length ns). do 2 f_equal. lia.
Qed.

(** ** Traversal *)

(** All the cells of a table in traversal order. *)
Definition array_cells (a : list ktap_val) : list (ktap_val * ktap_val) :=
  imap (λ i v, (set_number (Z.of_nat i), v)) a.
Definition node_cells (ns : list node) : list (ktap_val * ktap_val) :=
  map (λ n, (n_key n, n_val n)) ns.
Definition live_cell (e : ktap_val * ktap_val) : Prop := is_nil e.2 = false.
#[local] Instance live_cell_dec e : Decision (live_cell e) := decide (is_nil e.2 = false).

(** Stepping through the table with [kp_tab_next], collecting keys and values. *)
Fixpoint traverse (fuel : nat) (t : ktap_tab) (k : kerr) (key : ktap_val)
  : option (list (ktap_val * ktap_val) * kerr) :=
  match fuel with
  | O => None
  | S f =>
      '(o, k) ← kp_tab_next ks t k key;
      match o with
      | None => Some ([], k)
      | Some (key, v) => '(l, k) ← traverse f t k key; Some ((key, v) :: l, k)
      end
  end.

(** From [key] on, [kp_tab_next] gives exactly these entries, and never an error. *)
Inductive enum (t : ktap_tab) : ktap_val -> list (ktap_val * ktap_val) -> Prop :=
  | enum_end key : (forall k, kp_tab_next ks t k key = Some (None, k)) -> enum t key []
  | enum_next key key' v l : (forall k, kp_tab_next ks t k key = Some (Some (key', v), k)) -> enum t key' l ->
      enum t key ((key', v) :: l).

Lemma enum_traverse t k key l : enum t key l -> traverse (S (length l)) t k key = Some (l, k).
Proof.
  induction 1 as [key E|key key' v l E _ IH]; cbn [traverse]; rewrite E; [done|]. cbn [mbind option_bind length] in *. by rewrite IH.
Qed.

Lemma next_array_spec fuel t j :
  asize t = Z.of_nat (length (array t)) -> asize t < 2 ^ 32 - 1 ->
  (length (array t) - j < fuel)%nat ->
  match filter live_cell (drop j (array_cells (array t))) with
  | (key, v) :: _ => exists i, next_array fuel t (Z.of_nat j) = Some (i, Some v) /\ key = set_number i
  | [] => next_array fuel t (Z.of_nat j) = Some (Z.max (Z.of_nat j) (asize t), None)
  end.
Proof.
  intros Ea Hm. revert j. induction fuel as [|fuel IH]; intros j Hf; [lia|]. cbn [next_array].
  destruct (Z.ltb_spec (Z.of_nat j) (asize t)) as [Hlt|Hge].
  2: { rewrite drop_ge by (unfold array_cells; rewrite length_imap; lia). rewrite filter_nil.
       by rewrite Z.max_l. }
  destruct (lookup_lt_is_Some_2 (array t) j) as [v Hv]; [lia|]. rewrite Nat2Z.id, Hv.
  cbn [mbind option_bind].
  assert (Hc : array_cells (array t) !! j = Some (set_number (Z.of_nat j), v))
    by (unfold array_cells; by rewrite list_lookup_imap, Hv).
  rewrite (drop_S _ _ _ Hc), filter_cons.
  case_decide as Hd; unfold live_cell in Hd; cbn [snd] in Hd;
    [|apply not_false_iff_true in Hd]; rewrite Hd; cbn [negb].
  - by eexists.
  - rewrite wrap_id by (unfold in_u; lia).
    replace (Z.of_nat j + 1) with (Z.of_nat (S j)) by lia.
    specialize (IH (S j) ltac:(lia)). destruct (filter _ _) as [|[key w] r]; [|done].
    rewrite IH. do 2 f_equal. lia.
Qed.

Lemma next_node_spec fuel t ns j :
  nodes t = Some ns -> hmask t + 1 = Z.of_nat (length ns) -> hmask t < 2 ^ 32 - 1 ->
  (length ns - j < fuel)%nat ->
  match filter live_cell (drop j (node_cells ns)) with
  | (key, v) :: _ => exists n, next_node fuel t (Z.of_nat j) = Some (Some n) /\ key = n_key n /\ v = n_val n
  | [] => next_node fuel t (Z.of_nat j) = Some None
  end.
Proof.
  intros Hns Hl Hm. revert j. induction fuel as [|fuel IH]; intros j Hf; [lia|]. cbn [next_node].
  destruct (Z.leb_spec (Z.of_nat j) (hmask t)) as [Hlt|Hge].
  2: { rewrite drop_ge by (unfold node_cells; rewrite length_map; lia). by rewrite filter_nil. }
  rewrite Hns. destruct (lookup_lt_is_Some_2 ns j) as [n Hn]; [lia|]. rewrite Nat2Z.id.
  cbn [mbind option_bind]. rewrite Hn. cbn [mbind option_bind].
  assert (Hc : node_cells ns !! j = Some (n_key n, n_val n))
    by (unfold node_cells; by rewrite list_lookup_fmap, Hn).
  rewrite (drop_S _ _ _ Hc), filter_cons.
  case_decide as Hd; unfold live_cell in Hd; cbn [snd] in Hd;
    [|apply not_false_iff_true in Hd]; rewrite Hd; cbn [negb].
  - by eexists.
  - rewrite wrap_id by (unfold in_u; lia).
    replace (Z.of_nat j + 1) with (Z.of_nat (S j)) by lia. apply IH. lia.
Qed.

Section Traverse.
Context (t : ktap_tab) (ns : list node) (C : list (list nat)).
Context (I : tab_inv ks t) (Hns : nodes t = Some ns) (HI : hp_inv ks t ns C).
Let cells := array_cells (array t) ++ node_cells ns.

Lemma tab_bounds :
  asize t = Z.of_nat (length (array t)) /\ 0 <= asize t <= 2 ^ 27 + 1 /\
  hmask t + 1 = Z.of_nat (length ns) /\ 0 < hmask t < 2 ^ 26.
Proof using I HI.
  destruct (ti_asize _ _ I) as [Ea Hm]. destruct (hp_bits _ _ _ _ HI) as (b & Hb & Hmask & Hlen).
  change KP_MAX_ASIZE with (2 ^ 27 + 1) in Hm. change KP_MAX_HBITS with 26 in Hb.
  pose proof (hmask_pos _ _ _ _ HI). pose proof (pow2_pos b ltac:(lia)).
  pose proof (Z.pow_le_mono_r 2 b 26 ltac:(lia) ltac:(lia)).
  rewrite Hmask, Z.ones_equiv in *. lia.
Qed.

(** One step of the traversal from a known cell index. *)
Lemma next_from k key i j :
  keyindex ks t k key = Some (i, k) -> u32 (i + 1) = Z.of_nat j -> (j <= length cells)%nat ->
  kp_tab_next ks t k key = Some (head (filter live_cell (drop j cells)), k).
Proof using I Hns HI.
  destruct tab_bounds as (Ea & Hm & Hl & Hh). intros Hi Hj Hle.
  unfold cells in *. rewrite length_app in Hle. unfold array_cells, node_cells in Hle.
  rewrite length_imap, length_map in Hle.
  unfold kp_tab_next. rewrite Hi. cbn [mbind option_bind]. rewrite Hj.
  pose proof (next_array_spec (S (Z.to_nat (asize t))) t j ltac:(lia) ltac:(lia) ltac:(lia)) as HA.
  rewrite drop_app, list.filter_app. unfold array_cells at 2. rewrite length_imap.
  destruct (filter live_cell (drop j (array_cells (array t)))) as [|[key' v] r].
  - rewrite HA. cbn [mbind option_bind app].
    replace (u32 (Z.max (Z.of_nat j) (asize t) - asize t)) with (Z.of_nat (j - length (array t)))
      by (rewrite wrap_id; unfold in_u; lia).
    pose proof (next_node_spec (S (S (Z.to_nat (hmask t)))) t ns (j - length (array t))
      Hns Hl ltac:(lia) ltac:(lia)) as HN.
    destruct (filter live_cell (drop _ (node_cells ns))) as [|[key' v] r].
    + by rewrite HN.
    + destruct HN as (n & -> & -> & ->). done.
  - destruct HA as (i' & -> & ->). done.
Qed.

(** The index of the key of a live cell is the index of the cell. *)
Lemma keyindex_cell k j key v :
  cells !! j = Some (key, v) -> is_nil v = false -> keyindex ks t k key = Some (Z.of_nat j, k).
Proof using I Hns HI.
  destruct tab_bounds as (Ea & Hm & Hl & Hh). intros Hj Hv. unfold cells in Hj.
  apply lookup_app_Some in Hj as [Hj|[Hge Hj]]; unfold keyindex.
  - unfold array_cells in Hj. rewrite list_lookup_imap in Hj.
    apply fmap_Some in Hj as (w & Hw & [= -> <-]). apply lookup_lt_Some in Hw.
    unfold set_number. cbn [nvalue val]. rewrite swrap_id by (unfold in_s; lia).
    rewrite wrap_id by (unfold in_u; lia). rewrite Z.eqb_refl.
    replace (Z.of_nat j <? asize t) with true by (symmetry; apply Z.ltb_lt; lia). done.
  - unfold array_cells in Hge, Hj. rewrite length_imap in Hge, Hj. unfold node_cells in Hj.
    rewrite list_lookup_fmap in Hj. apply fmap_Some in Hj as (n & Hn & [= -> ->]).
    pose proof (value_has_key _ _ _ _ _ _ HI Hn Hv) as Hk.
    pose proof (hp_key _ _ _ _ HI _ _ Hn Hk) as K. pose proof (lookup_lt_Some _ _ _ Hn).
    destruct (is_number (n_key n) && _) eqn:Eif.
    { apply andb_true_iff in Eif as [E1 E2]. apply andb_true_iff in E2 as [E2 E3]. unfold nvalue in *.
      apply Z.eqb_eq in E3. pose proof (k_range _ _ _ K E1 E3). rewrite <- E3 in E2. bool_to_Prop. lia. }
    rewrite Hk. cbn [negb]. unfold genlookup. destruct (k_hash _ _ _ K) as [a Ha]. rewrite Ha.
    cbn [mbind option_bind].
    destruct (find_from_spec ks t ns C (n_key n) a (is_obj_key (n_key n)) Hns HI Hk Ha) as (o & -> & Ho).
    { intros nd. apply is_obj_key_spec. }
    cbn [mbind option_bind]. destruct o as [i|].
    + destruct Ho as (nd & Hi & E).
      assert (i = (j - length (array t))%nat) as ->.
      { eapply (hp_uniq _ _ _ _ HI); [exact Hi|exact Hn|by eapply keyid_nonnil|done]. }
      rewrite wrap_id by (unfold in_u; lia). do 2 f_equal. lia.
    + by destruct (Ho _ _ Hn).
Qed.

Lemma head_filter_drop j e :
  head (filter live_cell (drop j cells)) = Some e ->
  exists i, (j <= i)%nat /\ cells !! i = Some e /\ is_nil e.2 = false /\
    filter live_cell (drop j cells) = e :: filter live_cell (drop (S i) cells).
Proof using.
  remember (length cells - j)%nat as d eqn:Ed. revert j Ed.
  induction d as [|d IH]; intros j Ed Hh.
  { rewrite drop_ge in Hh by lia. done. }
  destruct (lookup_lt_is_Some_2 cells j) as [x Hx]; [lia|].
  rewrite (drop_S _ _ _ Hx), filter_cons in *. case_decide as Hl.
  - simpl in Hh. injection Hh as ->. exists j. done.
  - destruct (IH (S j)) as (i & ? & ? & ? & ?); [lia|done|]. exists i. split_and!; try done. lia.
Qed.

Lemma enum_from n key i j : (length cells - j <= n)%nat -> (forall k, keyindex ks t k key = Some (i, k)) ->
  u32 (i + 1) = Z.of_nat j -> (j <= length cells)%nat -> enum t key (filter live_cell (drop j cells)).
Proof using I Hns HI.
  revert key i j. induction n as [|n IH]; intros key i j Hn Hi Hj Hle.
  all: pose proof (λ k, next_from k _ _ _ (Hi k) Hj Hle) as Hnext.
  { rewrite drop_ge in * by lia. by apply enum_end. }
  destruct (head (filter live_cell (drop j cells))) as [[key' v]|] eqn:Hh; [|by destruct (filter live_cell (drop j cells)); [apply enum_end|]].
  destruct (head_filter_drop _ _ Hh) as (i' & Hge & Hc & Hv & ->). pose proof (lookup_lt_Some _ _ _ Hc) as Hlt.
  apply enum_next; [done|]. apply (IH key' (Z.of_nat i')); [lia|by intros k; eapply keyindex_cell| |lia].
  destruct tab_bounds as (Ea & Hm & Hl & Hm'). unfold cells, array_cells, node_cells in Hlt.
  rewrite length_app, length_imap, length_map in Hlt. rewrite wrap_id; unfold in_u; lia.
Qed.

End Traverse.

Lemma cells_entries a ns :
  (forall n, n ∈ ns -> is_nil (n_val n) = false -> is_nil (n_key n) = false) ->
  map (λ e, (keyid_of e.1, e.2)) (filter live_cell (array_cells a ++ node_cells ns)) =
  array_entries a ++ node_entries ns.
Proof.
  intros Hk. rewrite list.filter_app, map_app. f_equal.
  - unfold array_cells, array_entries, index_id.
    assert (H : forall f : nat -> ktap_val, map (λ e, (keyid_of e.1, e.2))
        (filter live_cell (imap (λ i v, (f i, v)) a)) =
      filter (λ e, is_nil e.2 = false) (imap (λ i v, (keyid_of (f i), v)) a)).
    { induction a as [|v a IH]; intros f; [done|]. rewrite !imap_cons, !filter_cons. simpl.
      specialize (IH (f ∘ S)). unfold compose in *.
      repeat case_decide; try done; simpl; by rewrite IH. }
    apply (H (λ i, set_number (Z.of_nat i))).
  - unfold node_cells, node_entries. induction ns as [|n ns IH]; [done|].
    assert (IH' := IH (λ x Hx, Hk x (list_elem_of_further _ _ _ Hx))).
    specialize (Hk n (list_elem_of_here _ _)). cbn [map]. rewrite !filter_cons.
    repeat case_decide; unfold live_cell in *; simpl in *; rewrite ?IH'; try done; tauto.
Qed.

Lemma enum_complete t : tab_inv ks t -> exists l, (forall key, is_nil key = true -> enum t key l) /\
  map_to_list (contents t) ≡ₚ map (λ e, (keyid_of e.1, e.2)) l /\ NoDup (map (keyid_of ∘ fst) l).
Proof.
  intros I. destruct (ti_nodes _ _ I) as (ns & C & Hns & HI).
  set (cells := array_cells (array t) ++ node_cells ns). exists (filter live_cell cells).
  assert (Ecells : map (λ e, (keyid_of e.1, e.2)) (filter live_cell cells) =
     array_entries (array t) ++ node_entries ns).
  { apply cells_entries. intros n Hn Hv. apply list_elem_of_lookup in Hn as [i Hi].
    by eapply value_has_key. }
  pose proof (entries_NoDup t ns I Hns) as Hnd. split_and!.
  - intros key Hk. rewrite <- (drop_0 cells). eapply (enum_from t ns C I Hns HI _ key (u32 (Z.lnot 0))); [done| |done|lia].
    intros k. unfold keyindex, is_number, is_nil in *. apply Z.eqb_eq in Hk. by rewrite Hk.
  - rewrite Ecells. unfold contents. rewrite Hns. simpl. by apply map_to_list_to_map.
  - rewrite <- Ecells in Hnd. by rewrite <- list_fmap_compose in Hnd.
Qed.


End Spec.

(** ** Concrete tables *)

Definition ks0 : kctx := mkctx (λ s, Some s) None (λ _ _, None).
Definition empty_node : node := mknode kp_niltv kp_niltv None.

(** Two array slots and two nodes, all empty. *)
Definition tab0 : ktap_tab := mktab [kp_niltv; kp_niltv] 2 (Some [empty_node; empty_node]) 1 2 0.

Lemma tab0_inv : tab_inv ks0 tab0 /\ contents tab0 = ∅.
Proof.
  apply (clear_tab_inv ks0 tab0 1); try done.
  - split; [by repeat constructor|]. eexists. by repeat constructor.
  - by intros ns [= <-].
Qed.

Lemma plain_number n : in_s 64 n -> plain_key ks0 (set_number n).
Proof. intros Hn. split; try done. simpl. by rewrite swrap_id. Qed.

(** Key 7 set and removed again. *)
Definition tab_dead : ktap_tab :=
  mktab [kp_niltv; kp_niltv] 2
    (Some [empty_node; mknode (set_nil (set_number 5)) (set_number 7) None]) 1 2 1.

Lemma run_sets_dead :
  run_sets ks0 tab0 kerr0 [(set_number 7, set_number 5); (set_number 7, set_nil (set_number 5))]
  = Some (tab_dead, kerr0).
Proof. vm_compute. reflexivity. Qed.

Lemma tab_dead_inv : tab_inv ks0 tab_dead.
Proof.
  destruct tab0_inv as [I _].
  destruct (set_slot_cases ks0 tab0 kerr0 (set_number 7) (set_number 5) I (plain_number 7 ltac:(by split)))
    as (t1 & k1 & E1 & I1 & _).
  destruct (set_slot_cases ks0 t1 k1 (set_number 7) (set_nil (set_number 5)) I1 (plain_number 7 ltac:(by split)))
    as (t2 & k2 & E2 & I2 & _).
  pose proof run_sets_dead as E. cbn [run_sets] in E. rewrite E1 in E. cbn [mbind option_bind] in E.
  rewrite E2 in E. by injection E as <- _.
Qed.

Lemma kp_tab_get_refines_witness :
  exists v, kp_tab_get ks0 tab0 kerr0 (set_number 7) = Some (v, kerr0) /\
    contents tab0 !! keyid_of (set_number 7) = (if is_nil v then None else Some v).
Proof. apply (kp_tab_get_refines ks0); [apply tab0_inv|by apply plain_number]. Defined.

Lemma kp_tab_set_refines_witness :
  exists t' k', kp_tab_set ks0 tab0 kerr0 (set_number 7) (set_number 5) = Some (t', k') /\ tab_inv ks0 t' /\
    ((k' = kerr0 /\ contents t' = <[keyid_of (set_number 7) := set_number 5]> (contents tab0)) \/
     (t' = tab0 /\ k' = kp_error "table overflow" kerr0 /\
      contents tab0 !! keyid_of (set_number 7) = None /\ full tab0)).
Proof. apply (kp_tab_set_refines ks0 tab0 kerr0); [apply tab0_inv|by apply plain_number]. Defined.


Lemma run_sets_refines_witness :
  exists t' k', run_sets ks0 tab0 kerr0 [(set_number 7, set_number 5); (set_number 1, set_number 6)]
    = Some (t', k') /\ tab_inv ks0 t' /\
    (k_state k' <> KTAP_ERROR -> k' = kerr0 /\
       contents t' = map_puts [(set_number 7, set_number 5); (set_number 1, set_number 6)] (contents tab0)).
Proof.
  apply (run_sets_refines ks0 tab0 kerr0); [apply tab0_inv|].
  repeat constructor; by apply plain_number.
Defined.

Lemma kp_tab_new_spec_witness :
  exists o k', kp_tab_new kerr0 (mkta true true true kp_niltv empty_node 0) 4 2 = Some (o, k') /\
    (k' = kerr0 /\ exists t, o = Some t /\ tab_inv ks0 t /\ contents t = ∅ /\ asize t = 4 /\
       hmask t = 2 ^ 2 - 1 /\ ~ full t).
Proof.
  apply (kp_tab_new_spec ks0 kerr0 (mkta true true true kp_niltv empty_node 0) 4 2); lia.
Defined.

(** The table has no entry, and length one. *)
Lemma kp_tab_len_counts_dead_witness :
  kp_tab_len tab_dead = Some (Z.of_nat (size (contents tab_dead) + dead_keys tab_dead)) /\
  contents tab_dead = ∅ /\ kp_tab_len tab_dead = Some 1.
Proof.
  split; [apply (kp_tab_len_counts_dead ks0), tab_dead_inv|].
  split; vm_compute; reflexivity.
Defined.

