(* ===== verification/TabFill.v ===== *)
(** * TabFill: filling a fresh table with distinct keys

    A table created for [n] hash entries takes [n] stores of distinct keys with
    values that are not nil without overflow.  The invariant of a table only
    depends on the hashes of the strings it holds, so it survives the interning
    of more strings. *)

From S2P Require Import Prelude Types Mempool Tab TabInv TabSpec.
#[local] Open Scope word_scope.

(** ** More strings *)

Section Extend.
Context (ks ks' : kctx).
Context (Hext : forall x h, str_hash ks x = Some h -> str_hash ks' x = Some h).

Lemma hashkey_ext t key a : hashkey ks t key = Some a -> hashkey ks' t key = Some a.
Proof using Hext.
  unfold hashkey, hashstr. destruct (is_string key); [|done]. intros H.
  apply fmap_Some in H as (h & Hh & ->). by rewrite (Hext _ _ Hh).
Qed.

Lemma key_ok_ext t key : key_ok ks t key -> key_ok ks' t key.
Proof using Hext. intros [? ? [a Ha] ?]. split; try done. exists a. by apply hashkey_ext. Qed.

Lemma hp_inv_ext t ns C : hp_inv ks t ns C -> hp_inv ks' t ns C.
Proof using Hext.
  intros I.
  assert (Hh : forall i nd a, ns !! i = Some nd -> is_nil (n_key nd) = false ->
    hashkey ks' t (n_key nd) = Some a -> hashkey ks t (n_key nd) = Some a).
  { intros i nd a Hi Hk Ha. destruct (k_hash _ _ _ (hp_key _ _ _ _ I _ _ Hi Hk)) as [b Hb].
    pose proof (hashkey_ext _ _ _ Hb). congruence. }
  split; try apply I.
  - intros i nd Hi Hk. eapply key_ok_ext, (hp_key _ _ _ _ I); eauto.
  - intros i nd a Hi Hk Ha. eapply (hp_reach _ _ _ _ I); eauto.
  - intros i nd a Hi Hk Ha Hne.
    destruct (hp_main _ _ _ _ I i nd a Hi Hk (Hh _ _ _ Hi Hk Ha) Hne) as (na & ? & ? & ?).
    exists na. split_and!; try done. by apply hashkey_ext.
Qed.

Lemma tab_inv_ext t : tab_inv ks t -> tab_inv ks' t.
Proof using Hext.
  intros [Ha (ns & C & Hns & I)]. split; [done|]. exists ns, C. split; [done|]. by apply hp_inv_ext.
Qed.

Lemma plain_key_ext key : plain_key ks key -> plain_key ks' key.
Proof using Hext.
  intros [? ? ? ? Hh ?]. split; try done. intros Hs. destruct (Hh Hs) as [h E]. exists h. by apply Hext.
Qed.

End Extend.

(** ** Tables whose keys all have a value *)

Section Fill.
Context (ks : kctx).

Definition no_dead (t : ktap_tab) : Prop :=
  forall ns nd, nodes t = Some ns -> nd ∈ ns -> is_nil (n_key nd) = false -> is_nil (n_val nd) = false.

Definition n_nodes (t : ktap_tab) : nat := length (default [] (nodes t)).

(** With no dead keys a full table has an entry per node. *)
Lemma full_size t : tab_inv ks t -> no_dead t -> full t -> (n_nodes t <= size (contents t))%nat.
Proof.
  intros I Hd (ns & Hns & Hf). rewrite (contents_size _ _ _ I Hns), length_app.
  unfold n_nodes. rewrite Hns. simpl. unfold node_entries. rewrite length_map.
  assert (E : filter (λ n, is_nil (n_key n) = false /\ is_nil (n_val n) = false) ns = ns);
    [|rewrite E; lia].
  clear - Hd Hf Hns. assert (Hin : forall nd, nd ∈ ns -> is_nil (n_key nd) = false /\ is_nil (n_val nd) = false).
  { intros nd Hin. split; [by apply Hf|]. eapply Hd; [done..|by apply Hf]. }
  clear - Hin. induction ns as [|nd ns IH]; [done|].
  rewrite filter_cons_True by (apply Hin; by left). f_equal. apply IH. intros. apply Hin. by right.
Qed.

Lemma keys_from_trans id t1 t2 t3 : keys_from id t1 t2 -> keys_from id t2 t3 -> keys_from id t1 t3.
Proof.
  intros H1 H2 ns3 H3. destruct (H2 _ H3) as (ns2 & Hn2 & L2 & S2).
  destruct (H1 _ Hn2) as (ns1 & Hn1 & L1 & S1). exists ns1. split_and!; [done|lia|].
  intros nd3 Hin Hk. destruct (S2 _ Hin Hk) as [?|(nd2 & Hin2 & Ek & Ev)]; [by left|].
  rewrite <- Ek in Hk. destruct (S1 _ Hin2 Hk) as [?|(nd1 & ? & ? & ?)]; [left; congruence|right].
  exists nd1. split_and!; [done|congruence..].
Qed.

Lemma store_keys_from t s id w t' :
  slot_key t s id -> store t s w = Some t' -> keys_from id t t' /\ asize t' = asize t.
Proof.
  destruct s as [n|i|]; [intros _|intros (ns & nd & Hns & Hi & Hk & Hid)|done]; simpl.
  - case_decide; [|done]. intros [= <-]. split; [exact (keys_from_refl id t)|done].
  - rewrite Hns. simpl. rewrite Hi. simpl. intros [= <-]. split; [|done].
    intros ? [= <-]. exists ns. split_and!; [done|by rewrite length_insert|].
    intros nd' Hin _. apply list_elem_of_lookup in Hin as [j Hj].
    destruct (decide (j = i)) as [->|Hne].
    + rewrite list_lookup_insert_eq in Hj by (by eapply lookup_lt_Some). injection Hj as <-. by left.
    + rewrite list_lookup_insert_ne in Hj by done. right. exists nd'.
      split; [by eapply list_elem_of_lookup_2|done].
Qed.

(** A store of a value into a table with fewer entries than nodes. *)
Lemma set_live t k key v :
  tab_inv ks t -> plain_key ks key -> is_nil v = false -> no_dead t ->
  (size (contents t) < n_nodes t)%nat ->
  exists t', kp_tab_set ks t k key v = Some (t', k) /\ tab_inv ks t' /\
    contents t' = <[keyid_of key := v]> (contents t) /\ no_dead t' /\ n_nodes t' = n_nodes t.
Proof.
  intros I K Hv Hd Hsz. unfold kp_tab_set, set_result.
  destruct (tab_set_slot ks t k key I K) as [(s & t1 & -> & I1 & Hs & Ec & Hkf)|(_ & _ & Hfull)].
  2: { pose proof (full_size _ I Hd Hfull). lia. }
  cbn [mbind option_bind]. destruct (store_slot ks t1 s _ v I1 Hs) as (t' & Est & I' & Ec').
  rewrite Est. cbn [mbind option_bind]. exists t'. unfold map_put in Ec'. rewrite Hv, Ec in Ec'.
  pose proof (keys_from_trans _ _ _ _ Hkf (proj1 (store_keys_from _ _ _ _ _ Hs Est))) as Hkf'.
  destruct (ti_nodes _ _ I') as (ns' & C' & Hns' & HI'). destruct (Hkf' _ Hns') as (ns & Hns & Hlen & Hsrc).
  split_and!; try done; [|unfold n_nodes; by rewrite Hns, Hns'].
  intros ? nd' Hx Hin Hk. same_nodes ns'.
  destruct (Hsrc nd' Hin Hk) as [Eid|(nd & Hnd & Ek & Ev)].
  2: { rewrite <- Ev. eapply Hd; [done..|by rewrite Ek]. }
  destruct (proj1 (contents_lookup ks t' (keyid_of key) v I')) as [Ha|Hn].
  { rewrite Ec'. apply lookup_insert_eq. }
  - destruct Ha as (i & Hi & _ & E). exfalso. rewrite <- Eid in E. revert E.
    pose proof (array_lt _ _ _ _ I' Hi). destruct (ti_asize _ _ I').
    by apply (array_node_disjoint ks t' ns' C' i nd').
  - destruct Hn as (? & Hx & i & nd & Hi & Hk' & E & Ev & _). same_nodes ns'.
    apply list_elem_of_lookup in Hin as [j Hj].
    assert (i = j) as -> by (eapply (hp_uniq _ _ _ _ HI'); [done..|congruence]). congruence.
Qed.

(** ** A fresh table for [n] entries *)

Lemma hsize2hbits_bound n : 1 <= n <= 2 ^ KP_MAX_HBITS ->
  1 <= hsize2hbits n <= KP_MAX_HBITS /\ n <= 2 ^ hsize2hbits n.
Proof.
  change KP_MAX_HBITS with 26. change (2 ^ 26) with 67108864. intros Hn. unfold hsize2hbits, FLS.
  destruct (Z.eqb_spec n 0); [lia|]. destruct (Z.eqb_spec n 1) as [->|]; [lia|].
  rewrite wrap_id by (unfold in_u; lia). pose proof (Z.log2_spec (n - 1) ltac:(lia)) as [_ Hlt].
  assert (Hl : Z.log2 (n - 1) < 26) by (apply Z.log2_lt_pow2; change (2 ^ 26) with 67108864; lia).
  pose proof (Z.log2_nonneg (n - 1)). rewrite <- Z.add_1_l in Hlt. lia.
Qed.

Lemma fresh_table_array k m a n :
  ok_obj m = true -> ok_arr m = true -> ok_node m = true ->
  0 <= a <= KP_MAX_ASIZE -> 1 <= n <= 2 ^ KP_MAX_HBITS ->
  exists t, kp_tab_new k m a (hsize2hbits n) = Some (Some t, k) /\ tab_inv ks t /\ contents t = ∅ /\
    no_dead t /\ length (array t) = Z.to_nat a /\ n <= Z.of_nat (n_nodes t).
Proof.
  intros Ho Har Hn Ha Hr. destruct (hsize2hbits_bound n Hr) as [Hb Hle]. set (b := hsize2hbits n) in *.
  destruct (hsize_ones b Hb) as (Eh & Eo & Hge).
  set (arr := replicate (Z.to_nat a) (junk_val m)).
  assert (Hla : length arr = Z.to_nat a) by apply length_replicate.
  destruct (clear_fresh ks arr a b (junk_node m) (junk_hnum m) Hb) as (t & Et & I & Ec & _);
    [rewrite Hla; lia|lia|].
  assert (Hb0 : (b =? 0) = false) by (apply Z.eqb_neq; lia).
  assert (Hbm : (b >? KP_MAX_HBITS) = false) by (rewrite Z.gtb_ltb; apply Z.ltb_ge; lia).
  assert (Ham : (a >? KP_MAX_ASIZE) = false) by (rewrite Z.gtb_ltb; apply Z.ltb_ge; lia).
  assert (Hones : (Z.ones b >? 0) = true) by (rewrite Z.gtb_lt, Z.ones_equiv; lia).
  exists t. split; [|split; [done|split; [done|]]].
  - unfold kp_tab_new, newtab, newhpart. rewrite Ho, Har, Hn, Hb0, Hbm, Eh, Eo, Ham.
    destruct (Z.gtb_spec a 0) as [Hpos|Hz]; [|assert (a = 0) as -> by lia];
      cbn [negb Z.eqb Z.gtb Z.compare array asize nodes hmask freetop hnum mbind option_bind];
      cbv zeta; rewrite (clearapart_hmask _); cbn [hmask]; rewrite Hones.
    + fold arr. by rewrite Et.
    + change arr with (@nil ktap_val) in Et. by rewrite Et.
  - unfold clearhpart, clearapart in Et.
    cbn [nodes array asize hmask freetop hnum mbind option_bind] in Et.
    rewrite length_replicate in Et.
    assert (Hl : (Z.of_nat (Z.to_nat (2 ^ b)) <=? Z.ones b) = false).
    { apply Z.leb_gt. rewrite Z.ones_equiv. lia. }
    rewrite Hl in Et. injection Et as <-. unfold no_dead, n_nodes. cbn [nodes array default].
    split_and!; [|by rewrite length_map|].
    + intros ns nd [= <-] Hin. rewrite drop_ge, app_nil_r in Hin
        by (rewrite length_replicate; rewrite Z.ones_equiv; lia).
      apply list_elem_of_fmap in Hin as (x & -> & _). done.
    + unfold from_option, id. rewrite length_app, length_map, <- length_app, take_drop, length_replicate. lia.
Qed.

Lemma fresh_table k m n :
  ok_obj m = true -> ok_node m = true -> 1 <= n <= 2 ^ KP_MAX_HBITS ->
  exists t, kp_tab_new k m 0 (hsize2hbits n) = Some (Some t, k) /\ tab_inv ks t /\ contents t = ∅ /\
    no_dead t /\ array t = [] /\ n <= Z.of_nat (n_nodes t).
Proof.
  intros Ho Hn Hr. set (m' := mkta (ok_obj m) true (ok_node m) (junk_val m) (junk_node m) (junk_hnum m)).
  destruct (fresh_table_array k m' 0 n Ho eq_refl Hn ltac:(done) Hr) as (t & E & ? & ? & ? & Ha & ?).
  exists t. split_and!; try done. by apply nil_length_inv.
Qed.

(** ** Duplicating a template *)

(** The entries of a node vector, stored in order. *)
Definition node_puts (ns : list node) (m : gmap keyid ktap_val) : gmap keyid ktap_val :=
  foldl (λ m nd, <[keyid_of (n_key nd) := n_val nd]> m) m (filter (λ nd, is_nil (n_key nd) = false) ns).

Lemma dup_nodes_spec ns : forall t k,
  tab_inv ks t -> no_dead t -> (size (contents t) + length ns <= n_nodes t)%nat ->
  Forall (λ nd, is_nil (n_key nd) = false -> plain_key ks (n_key nd) /\ is_nil (n_val nd) = false) ns ->
  exists t', dup_nodes ks t k ns = Some (t', k) /\ tab_inv ks t' /\ no_dead t' /\
    contents t' = node_puts ns (contents t).
Proof.
  induction ns as [|nd ns IH]; intros t k I Hd Hsz HF; [by exists t|].
  apply list.Forall_cons in HF as [Hnd HF]. cbn [dup_nodes length] in *. unfold node_puts. rewrite filter_cons.
  destruct (is_nil (n_key nd)) eqn:En.
  - rewrite decide_False by done. apply IH; try done. lia.
  - rewrite decide_True by done. destruct (Hnd eq_refl) as [K Hv].
    destruct (set_live t k (n_key nd) (n_val nd) I K Hv Hd) as (t1 & -> & I1 & Ec & Hd1 & Hn); [lia|].
    cbn [mbind option_bind]. destruct (IH t1 k I1 Hd1) as (t' & E & ? & ? & Ec'); [|done|].
    { rewrite Ec, Hn, map_size_insert. destruct (contents t !! _); simpl; lia. }
    exists t'. split_and!; try done. by rewrite Ec', Ec.
Qed.

Lemma node_puts_lookup ns m : NoDup (keyid_of ∘ n_key <$> filter (λ nd, is_nil (n_key nd) = false) ns) ->
  forall nd, nd ∈ ns -> is_nil (n_key nd) = false -> node_puts ns m !! keyid_of (n_key nd) = Some (n_val nd).
Proof.
  unfold node_puts. intros Hnd nd Hin Hk.
  assert (Hin' : nd ∈ filter (λ nd, is_nil (n_key nd) = false) ns) by (by apply list_elem_of_filter).
  clear Hin. revert m Hnd Hin'. generalize (filter (λ nd, is_nil (n_key nd) = false) ns).
  induction l as [|x l IH] using rev_ind; intros m Hnd Hin; [by apply not_elem_of_nil in Hin|].
  rewrite foldl_snoc. rewrite fmap_app in Hnd. apply list.NoDup_app in Hnd as (Hnd & Hdis & _).
  apply elem_of_app in Hin as [Hin|Hin].
  - rewrite lookup_insert_ne; [by apply IH|]. intros E. eapply Hdis; [apply list_elem_of_fmap; by exists nd|].
    apply list_elem_of_singleton. simpl. congruence.
  - apply list_elem_of_singleton in Hin as ->. apply lookup_insert_eq.
Qed.

Lemma node_puts_absent ns m id :
  (forall nd, nd ∈ ns -> is_nil (n_key nd) = false -> keyid_of (n_key nd) <> id) ->
  node_puts ns m !! id = m !! id.
Proof.
  unfold node_puts. intros H.
  assert (H' : forall nd, nd ∈ filter (λ nd, is_nil (n_key nd) = false) ns -> keyid_of (n_key nd) <> id).
  { intros nd Hin. apply list_elem_of_filter in Hin as [? ?]. by apply H. }
  clear H. revert m H'. generalize (filter (λ nd, is_nil (n_key nd) = false) ns).
  induction l as [|x l IH] using rev_ind; intros m H; [done|].
  rewrite foldl_snoc, lookup_insert_ne; [apply IH; intros; apply H; apply elem_of_app; by left|].
  apply H, elem_of_app. right. by left.
Qed.

(** What [kp_tab_dup] needs of its template: the keys are plain keys with values
    and they fit the fixed size of the copy. *)
Record template (kt : ktap_tab) : Prop := {
  tp_inv : tab_inv ks kt;
  tp_array : array kt = [];
  tp_live : no_dead kt;
  tp_size : Z.of_nat (n_nodes kt) <= TABLE_NREC_ENTRIES;
  tp_plain : forall ns nd, nodes kt = Some ns -> nd ∈ ns -> is_nil (n_key nd) = false -> plain_key ks (n_key nd)
}.

Lemma template_contents kt ns t id :
  template kt -> nodes kt = Some ns -> contents t = node_puts ns ∅ ->
  contents t !! id = contents kt !! id.
Proof.
  intros T Hns Ec. destruct (ti_nodes _ _ (tp_inv _ T)) as (? & C & Hx & HI). same_nodes ns.
  assert (Hnd : NoDup (keyid_of ∘ n_key <$> filter (λ nd, is_nil (n_key nd) = false) ns)).
  { apply NoDup_fmap_filter. intros i j x y Hi Hj Px _ E. by eapply (hp_uniq _ _ _ _ HI). }
  rewrite Ec. destruct (contents kt !! id) as [v|] eqn:El.
  - apply (contents_lookup ks) in El; [|apply T].
    destruct El as [(i & Hi & _)|(? & Hx & i & nd & Hi & Hk & <- & <- & _)];
      [by rewrite (tp_array _ T) in Hi|]. same_nodes ns.
    apply node_puts_lookup; [done|by eapply list_elem_of_lookup_2|done].
  - rewrite node_puts_absent; [apply lookup_empty|]. intros nd Hin Hk E.
    apply (proj1 (contents_none ks kt id (tp_inv _ T)) El (n_val nd)). right. exists ns. split; [done|].
    apply list_elem_of_lookup in Hin as [i Hi]. exists i, nd. split_and!; try done.
    eapply (tp_live _ T); [done|by eapply list_elem_of_lookup_2|done].
Qed.

(** Duplicating a template table, which [BC_TDUP] does for every table
    constructor with constant entries: given memory, the copy is a new
    well-formed table with exactly the entries of the template, and no error is
    raised. *)
Theorem kp_tab_dup_copies k m kt :
  template kt -> ok_obj m = true -> ok_arr m = true -> ok_node m = true ->
  exists t, kp_tab_dup ks k m kt = Some (Some t, k) /\ tab_inv ks t /\ contents t = contents kt.
Proof.
  intros T Ho Ha Hn. destruct (ti_nodes _ _ (tp_inv _ T)) as (ns & C & Hns & HI).
  destruct (ti_asize _ _ (tp_inv _ T)) as [Eas _]. rewrite (tp_array _ T) in Eas. simpl in Eas.
  destruct (fresh_table_array k m 256 TABLE_NREC_ENTRIES Ho Ha Hn) as (t0 & E0 & I0 & Ec0 & Hd0 & _ & Hs0);
    [done..|].
  unfold kp_tab_dup, kp_tab_new_ah. cbn [Z.eqb andb].
  change (u32 (if TABLE_NARR_ENTRIES >? 0 then TABLE_NARR_ENTRIES + 1 else 0)) with 256.
  rewrite E0. cbn [mbind option_bind]. rewrite Eas, Hns. change (Z.of_nat 0 >? 0) with false. cbn [mbind option_bind].
  destruct (hp_bits _ _ _ _ HI) as (b & Hb & Em & Hl). pose proof (pow2_pos b ltac:(lia)).
  assert (El : Datatypes.S (Z.to_nat (hmask kt)) = length ns) by (rewrite Hl, Em, Z.ones_equiv; lia).
  rewrite decide_True by lia. rewrite El, take_ge by done.
  destruct (dup_nodes_spec ns t0 k I0 Hd0) as (t & -> & I & _ & Ec).
  - rewrite Ec0, map_size_empty. pose proof (tp_size _ T) as Hsz. unfold n_nodes in Hsz. rewrite Hns in Hsz.
    simpl in Hsz. lia.
  - apply list.Forall_forall. intros nd Hin Hk. split; [by eapply (tp_plain _ T)|by eapply (tp_live _ T)].
  - cbn [mbind option_bind]. exists t. split_and!; try done. apply map_eq. intros id. rewrite Ec0 in Ec.
    by eapply template_contents.
Qed.

End Fill.
