(* ===== verification/Intern.v ===== *)
(** * Intern: what the string component promises to its clients

    The bytecode reader and the interpreter use strings through this interface:
    interning a byte string, the bytes and the stored hash of the string at an
    address.  [InternLaws] states what they rely on; [StrIntern] shows that the
    string component keeps these promises. *)

From S2P Require Import Prelude Types.

Class Intern (S : Type) := {
  (** Undefined, or an address (0 for NULL), the new state and error state. *)
  intern : S -> kerr -> bytes -> option (Z * S * kerr);
  bytes_at : S -> Z -> option bytes;
  hash_at : S -> Z -> option Z
}.

Class InternLaws (S : Type) `{Intern S} := {
  intern_ok : S -> Prop;
  (** How many more strings fit for sure. *)
  intern_room : S -> nat;
  intern_spec : forall st k bs,
    intern_ok st -> (0 < intern_room st)%nat ->
    Forall is_byte bs -> (0 < length bs)%nat -> Z.of_nat (length bs) < KP_MAX_STR ->
    exists a st', intern st k bs = Some (a, st', k) /\ a <> 0 /\ intern_ok st' /\
      (intern_room st <= Datatypes.S (intern_room st'))%nat /\
      bytes_at st' a = Some bs /\ is_Some (hash_at st' a) /\ in_s 64 a;
  intern_mono : forall st k bs a st' k',
    intern_ok st -> intern st k bs = Some (a, st', k') ->
    (forall x b, bytes_at st x = Some b -> bytes_at st' x = Some b) /\
    (forall x h, hash_at st x = Some h -> hash_at st' x = Some h)
}.

(** ** A reference interner

    Strings in a list, addressed by their position from 1. *)

Fixpoint position (bs : bytes) (l : list bytes) (i : Z) : option Z :=
  match l with
  | [] => None
  | x :: l' => if decide (x = bs) then Some i else position bs l' (i + 1)
  end.

Definition ref_intern (l : list bytes) (k : kerr) (bs : bytes) : option (Z * list bytes * kerr) :=
  match position bs l 1 with
  | Some a => Some (a, l, k)
  | None => Some (Z.of_nat (length l) + 1, l ++ [bs], k)
  end.

Definition ref_bytes (l : list bytes) (a : Z) : option bytes :=
  if 1 <=? a then l !! Z.to_nat (a - 1) else None.

#[export] Instance ref_Intern : Intern (list bytes) :=
  {| intern := ref_intern; bytes_at := ref_bytes; hash_at l a := (λ _, a) <$> ref_bytes l a |}.

Lemma position_spec bs l i a :
  position bs l i = Some a -> i <= a < i + Z.of_nat (length l) /\ l !! Z.to_nat (a - i) = Some bs.
Proof.
  revert i. induction l as [|x l IH]; intros i; cbn [position]; [done|].
  case_decide as E; [intros [= <-]; rewrite Z.sub_diag, E; simpl length; split; [lia|done]|].
  intros Hp. destruct (IH _ Hp) as [Hr Hl]. simpl length. split; [lia|].
  replace (Z.to_nat (a - i)) with (S (Z.to_nat (a - (i + 1)))) by lia. done.
Qed.

#[export] Instance ref_InternLaws : InternLaws (list bytes).
Proof.
  refine {| intern_ok := λ _, True; intern_room := λ l, (1000 - length l)%nat |}.
  - intros l k bs _ Hroom _ _ _. simpl. unfold ref_intern. destruct (position bs l 1) as [a|] eqn:Ep.
    + destruct (position_spec _ _ _ _ Ep) as [Hr Hl].
      assert (Hb : ref_bytes l a = Some bs)
        by (unfold ref_bytes; rewrite (proj2 (Z.leb_le _ _)) by lia; done).
      exists a, l. split_and!; try done; try lia.
      * rewrite Hb. by eexists.
      * unfold in_s. split; [|]; lia.
    + assert (Hb : ref_bytes (l ++ [bs]) (Z.of_nat (length l) + 1) = Some bs).
      { unfold ref_bytes. rewrite (proj2 (Z.leb_le _ _)) by lia.
        replace (Z.to_nat _) with (length l) by lia. by rewrite lookup_app_r, Nat.sub_diag. }
      exists (Z.of_nat (length l) + 1), (l ++ [bs]). split_and!; try done; try lia.
      * rewrite length_app. simpl. lia.
      * rewrite Hb. by eexists.
      * unfold in_s. lia.
  - intros l k bs a l' k' _. simpl. unfold ref_intern.
    assert (Hm : forall x b y, ref_bytes l x = Some b -> ref_bytes (l ++ y) x = Some b).
    { intros x b y. unfold ref_bytes. destruct (1 <=? x); [|done]. apply lookup_app_l_Some. }
    destruct (position bs l 1); intros [= <- <- <-]; [done|]. split; [eauto|].
    intros x h Hh. apply fmap_Some in Hh as (b & Hb & ->). by rewrite (Hm _ _ _ Hb).
Defined.
