(* ===== verification/StrIntern.v ===== *)
(** * StrIntern: the string table keeps the promises of [Intern]

    The reader and the interpreter intern bytes that lie somewhere in memory.
    Here they lie in a buffer below the pool; interning places them there and
    calls [kp_str_new].  The laws of the interface follow from the invariant of
    the string table. *)

From S2P Require Import Prelude Types Mempool Str Intern.
#[local] Open Scope word_scope.

Section StrIntern.
Context {K : Kernel}.
Context (buf : Z).

Definition with_mem (st : strstate) (m : memory) : strstate :=
  mkst (objs st) (strhash st) (strmask st) (strnum st) (pool st) m.

(** Memory holds bytes; what [kp_str_new] refuses is not placed. *)
Definition place (st : strstate) (bs : bytes) : strstate :=
  if Z.of_nat (length bs) <? KP_MAX_STR then with_mem st (write (mem st) buf (u8 <$> bs)) else st.

Definition str_intern (st : strstate) (k : kerr) (bs : bytes) : option (Z * strstate * kerr) :=
  kp_str_new (place st bs) k buf (Z.of_nat (length bs)).

Definition Str_Intern : Intern strstate :=
  {| intern := str_intern; bytes_at := contents; hash_at st a := s_hash <$> objs st !! a |}.

(** The buffer is below the pool, the pool below 2^63, and the table not past
    its limit. *)
Record str_ready (st : strstate) : Prop := {
  sr_inv : str_inv st;
  sr_buf : buf + KP_MAX_STR <= mp_base (pool st);
  sr_pool : mp_base (pool st) + mp_size (pool st) < 2 ^ 63;
  sr_num : strnum st <= KP_MAX_STRNUM + 1
}.

(** Placing bytes in the buffer changes no string. *)
Lemma place_read st bs a n : str_ready st -> mp_base (pool st) <= a ->
  read (mem (place st bs)) a n = read (mem st) a n.
Proof.
  intros R Ha. unfold place. destruct (Z.ltb_spec (Z.of_nat (length bs)) KP_MAX_STR); [|done].
  apply read_write_out. right. rewrite length_fmap. pose proof (sr_buf _ R). lia.
Qed.

Lemma place_fields st bs :
  objs (place st bs) = objs st /\ strhash (place st bs) = strhash st /\ strmask (place st bs) = strmask st /\
  strnum (place st bs) = strnum st /\ pool (place st bs) = pool st.
Proof. unfold place. by destruct (_ <? _). Qed.

Lemma place_contents st bs s : str_ready st -> contents (place st bs) s = contents st s.
Proof.
  intros R. unfold contents. destruct (place_fields st bs) as [-> _].
  destruct (objs st !! s) as [o|] eqn:Ho; [|done]. simpl. f_equal.
  apply place_read; [done|]. pose proof (o_base _ _ _ (i_obj _ (sr_inv _ R) _ _ Ho)).
  unfold getstr, sizeof_ktap_str. lia.
Qed.

Lemma place_mem_ok st bs : mem_ok (mem st) -> mem_ok (mem (place st bs)).
Proof.
  intros Hm. unfold place. destruct (_ <? _); [|done]. apply write_mem_ok; [done|].
  apply list.Forall_fmap, Forall_true. intros b. apply (wrap_range 8 b). lia.
Qed.

Lemma place_inv st bs : str_ready st -> str_inv (place st bs).
Proof.
  intros R. pose proof (sr_inv _ R) as I. destruct (place_fields st bs) as (Eo & Eh & Em & En & Ep).
  split; rewrite ?Eo, ?Eh, ?Em, ?En, ?Ep; try apply I.
  - apply place_mem_ok, I.
  - intros s o Ho. destruct (i_obj _ I _ _ Ho) as [Hl Hb He Hn Hh Hc].
    assert (Hg : mp_base (pool st) <= getstr s) by (unfold getstr, sizeof_ktap_str; lia).
    split; rewrite ?Ep; try done.
    + pose proof (place_read st bs (getstr s + s_len o) 1 R ltac:(lia)) as E.
      cbn in E. rewrite Z.add_0_r in E. congruence.
    + rewrite Hh. apply kp_str_hash_ext; [lia|]. symmetry. by apply place_read.
    + unfold bucket. by rewrite Eh, Em.
  - intros s1 s2 c. rewrite !place_contents by done. apply (i_uniq _ I).
Qed.

Lemma place_bytes st bs : Forall is_byte bs -> Z.of_nat (length bs) < KP_MAX_STR ->
  read (mem (place st bs)) buf (length bs) = bs.
Proof.
  intros Hb Hl. unfold place. rewrite (proj2 (Z.ltb_lt _ _)) by done. cbn [mem with_mem].
  assert (E : u8 <$> bs = bs).
  { clear Hl. induction Hb as [|b bs Hb _ IH]; [done|]. rewrite fmap_cons, IH. f_equal. by apply wrap_id. }
  rewrite E, read_write_in by done. by apply take_ge.
Qed.

(** What one call leaves. *)
Lemma str_intern_step st k bs a st' k' :
  str_ready st -> str_intern st k bs = Some (a, st', k') ->
  str_inv st' /\ mp_base (pool st') = mp_base (pool st) /\ mp_size (pool st') = mp_size (pool st) /\
  strnum st' <= strnum st + 1 /\
  (forall x b, contents st x = Some b -> contents st' x = Some b) /\
  (forall x o, objs st !! x = Some o -> objs st' !! x = Some o).
Proof.
  intros R E. unfold str_intern in E. pose proof (place_inv st bs R) as I.
  destruct (place_fields st bs) as (Eo & _ & _ & En & Ep). pose proof (sr_num _ R) as Hn.
  rewrite <- En in Hn. set (len := Z.of_nat (length bs)) in *. assert (Hlen : 0 <= len) by lia.
  split; [by eapply kp_str_new_inv|].
  assert (Hk : forall x b, contents st x = Some b -> contents st' x = Some b).
  { intros x b. rewrite <- (place_contents st bs x R). by eapply kp_str_new_keeps. }
  destruct (Z.ltb_spec len KP_MAX_STR) as [Hl|Hl].
  - destruct (kp_str_new_cases _ k buf len a st' k' I ltac:(lia) Hn E) as [(_ & -> & _)|(Hf & -> & _)].
    + rewrite Ep, Eo, En. split_and!; try done. lia.
    + cbn [interned str_insert pool strnum objs mp_base mp_size]. rewrite Ep, En, Eo. split_and!; try done.
      intros x o Ho. rewrite lookup_insert_ne; [done|]. intros Hx.
      pose proof (insert_fresh_addr _ buf len I) as Hfr. rewrite Eo, Ep, Hx in Hfr. congruence.
  - unfold kp_str_new in E. destruct (Z.geb_spec len KP_MAX_STR); [|lia]. injection E as <- <- <-.
    rewrite Ep, Eo, En. split_and!; try done. lia.
Qed.

#[local] Existing Instance Str_Intern.

(** The string table as an implementation of the interface. *)
Definition Str_InternLaws : InternLaws strstate.
Proof.
  refine {| intern_ok := str_ready; intern_room st := Z.to_nat (KP_MAX_STRNUM + 1 - strnum st) |}.
  - intros st k bs R Hroom Hb H0 Hl. pose proof (place_inv st bs R) as I.
    destruct (place_fields st bs) as (Eo & _ & _ & En & Ep).
    destruct (kp_str_new_total (place st bs) k buf (Z.of_nat (length bs)) I) as (a & st' & E & Ha);
      [lia|rewrite En; lia|].
    destruct (str_intern_step st k bs a st' k R E) as (I' & Eb & Es & Hn & _ & _).
    pose proof (kp_str_new_contents _ k buf (Z.of_nat (length bs)) a st' k I ltac:(lia) ltac:(rewrite En; lia) E Ha) as Hc.
    rewrite Nat2Z.id, place_bytes in Hc by done.
    assert (R' : str_ready st').
    { split; [done|rewrite Eb; apply R|rewrite Eb, Es; apply R|lia]. }
    assert (Ho := Hc). unfold contents in Ho. apply fmap_Some in Ho as (o & Ho & _).
    exists a, st'. split; [exact E|]. split_and!; try done.
    + lia.
    + simpl. rewrite Ho. by eexists.
    + destruct (i_obj _ I' _ _ Ho) as [? Hbase Hend _ _ _]. destruct (i_pool _ I') as [(Hp0 & _) _].
      pose proof (pool_room st' 0 I' ltac:(done) (sr_num _ R')). pose proof (sr_pool _ R').
      unfold in_s, sizeof_ktap_str in *. change (2 ^ (64 - 1)) with (2 ^ 63). lia.
  - intros st k bs a st' k' R E. destruct (str_intern_step st k bs a st' k' R E) as (_ & _ & _ & _ & Hc & Ho).
    split; [exact Hc|]. intros x h Hh. simpl in *. apply fmap_Some in Hh as (o & Hx & ->). by rewrite (Ho _ _ Hx).
Defined.

End StrIntern.
