(* ===== verification/BcWrite.v ===== *)
(** * BcWrite: the bytecode writer ([userspace/kp_bcwrite.c])

    The compiler hands its prototypes to the kernel as a byte string.  The
    writer composes each prototype in a growable buffer ([SBuf] of
    [userspace/kp_util.c]) and passes it to a callback, children first.

    A buffer is the bytes between its base and its write position, and the size
    of its block: a write that would pass the end of the block is undefined
    behaviour, so the model shows where the sizes the writer reserves are too
    small for what it writes. *)

From S2P Require Import Prelude Types Bytecode Tab.
#[local] Open Scope word_scope.

(** ** String buffers *)

Record sbuf := mksbuf { sb_data : bytes; sb_size : Z }.

Definition sbuflen (sb : sbuf) : Z := Z.of_nat (length (sb_data sb)).
Definition sbufleft (sb : sbuf) : Z := sb_size sb - sbuflen sb.

(** [kp_buf_more] doubles what is written so far, whatever [sz] asks for. *)
Definition kp_buf_more (sb : sbuf) (sz : Z) : sbuf :=
  if sz >? sbufleft sb then mksbuf (sb_data sb) (sbuflen sb * 2) else sb.

(** [kp_buf_need] returns the base: the caller starts over from there. *)
Definition kp_buf_need (sb : sbuf) (sz : Z) : sbuf :=
  if sz >? sb_size sb then mksbuf (sb_data sb) sz else sb.

(** [kp_buf_wmem] at the write position, advancing it. *)
Definition kp_buf_wmem (sb : sbuf) (bs : bytes) : option sbuf :=
  if sbuflen sb + Z.of_nat (length bs) <=? sb_size sb
  then Some (mksbuf (sb_data sb ++ bs) (sb_size sb)) else ub.

Definition bcwrite_uint32 (sb : sbuf) (v : Z) : option sbuf :=
  kp_buf_wmem sb (le_bytes 4 (u32 v)).

Definition kp_buf_putb (sb : sbuf) (c : Z) : option sbuf :=
  kp_buf_wmem (kp_buf_more sb 1) [u8 c].

(** ** Prototypes of the compiler *)

Definition PROTO_CHILD : Z := 0x01.
Definition PROTO_VARARG : Z := 0x02.
Definition PROTO_FFI : Z := 0x04.

(** Template tables: the array part and the nodes, in memory order. *)
Record utab := mkutab { ut_array : list ktap_val; ut_nodes : list (ktap_val * ktap_val) }.

Inductive uproto :=
  | mkuproto (flags numparams framesize : Z)
      (bc : list Z)               (* the function header included *)
      (uv : list Z)
      (kgc : list ugc)            (* from k[-sizekgc] to k[-1] *)
      (kn : list ktap_val)
      (dbg : option bytes)        (* from lineinfo to the end, none for NULL *)
      (firstline numline : Z)
with ugc :=
  | UStr (s : Z)
  | UTab (t : utab)
  | UProto (p : uproto).

Definition p_flags '(mkuproto x _ _ _ _ _ _ _ _ _) := x.
Definition p_numparams '(mkuproto _ x _ _ _ _ _ _ _ _) := x.
Definition p_framesize '(mkuproto _ _ x _ _ _ _ _ _ _) := x.
Definition p_bc '(mkuproto _ _ _ x _ _ _ _ _ _) := x.
Definition p_uv '(mkuproto _ _ _ _ x _ _ _ _ _) := x.
Definition p_kgc '(mkuproto _ _ _ _ _ x _ _ _ _) := x.
Definition p_kn '(mkuproto _ _ _ _ _ _ x _ _ _) := x.
Definition p_dbg '(mkuproto _ _ _ _ _ _ _ x _ _) := x.
Definition p_firstline '(mkuproto _ _ _ _ _ _ _ _ x _) := x.
Definition p_numline '(mkuproto _ _ _ _ _ _ _ _ _ x) := x.

Section Write.

(** The bytes of the string object at an address. *)
Context (ustr : Z -> bytes).

(** ** Constants of template tables *)

Definition bcwrite_ktabk (sb : sbuf) (o : ktap_val) : option sbuf :=
  let sb := kp_buf_more sb (1 + 10) in
  if is_string o then
    let str := ustr (val o) in
    let len := Z.of_nat (length str) in
    let sb := kp_buf_more sb (5 + len) in
    sb ← bcwrite_uint32 sb (BCDUMP_KTAB_STR + len);
    kp_buf_wmem sb str
  else if is_number o then
    sb ← bcwrite_uint32 sb BCDUMP_KTAB_NUM;
    kp_buf_wmem sb (le_bytes 8 (u64 (nvalue o)))
  else
    bcwrite_uint32 sb (BCDUMP_KTAB_NIL + u32 (Z.lnot (itype o))).

Fixpoint bcwrite_ktabks (sb : sbuf) (l : list ktap_val) : option sbuf :=
  match l with
  | [] => Some sb
  | o :: l' => sb ← bcwrite_ktabk sb o; bcwrite_ktabks sb l'
  end.

(** The array up to its last slot that is not nil. *)
Fixpoint trim_nil (l : list ktap_val) : list ktap_val :=
  match l with
  | [] => []
  | v :: l' =>
      match trim_nil l' with
      | [] => if is_nil v then [] else [v]
      | l'' => v :: l''
      end
  end.

(** Used nodes, from the last to the first; a mask of zero hides the only node. *)
Definition hash_entries (t : utab) : list (ktap_val * ktap_val) :=
  if Z.of_nat (length (ut_nodes t)) - 1 >? 0
  then filter (λ e, is_nil e.2 = false) (rev (ut_nodes t)) else [].

Definition bcwrite_ktab (sb : sbuf) (t : utab) : option sbuf :=
  let arr := trim_nil (ut_array t) in
  let ents := hash_entries t in
  sb ← bcwrite_uint32 sb (Z.of_nat (length arr));
  sb ← bcwrite_uint32 sb (Z.of_nat (length ents));
  sb ← bcwrite_ktabks sb arr;
  bcwrite_ktabks sb (flat_map (λ e, [e.1; e.2]) ents).

(** ** Constants of prototypes *)

Definition bcwrite_kgc1 (sb : sbuf) (o : ugc) : option sbuf :=
  match o with
  | UStr s =>
      let str := ustr s in
      let len := Z.of_nat (length str) in
      sb ← bcwrite_uint32 (kp_buf_more sb (5 + len)) (BCDUMP_KGC_STR + len);
      kp_buf_wmem sb str
  | UProto _ => bcwrite_uint32 (kp_buf_more sb 1) BCDUMP_KGC_CHILD
  | UTab t =>
      sb ← bcwrite_uint32 (kp_buf_more sb (1 + 2 * 5)) BCDUMP_KGC_TAB;
      bcwrite_ktab sb t
  end.

Fixpoint bcwrite_kgc (sb : sbuf) (l : list ugc) : option sbuf :=
  match l with
  | [] => Some sb
  | o :: l' => sb ← bcwrite_kgc1 sb o; bcwrite_kgc sb l'
  end.

Fixpoint bcwrite_knums (sb : sbuf) (l : list ktap_val) : option sbuf :=
  match l with
  | [] => Some sb
  | o :: l' =>
      sb ← (if is_number o then kp_buf_wmem sb (le_bytes 8 (u64 (nvalue o))) else Some sb);
      bcwrite_knums sb l'
  end.

Definition bcwrite_knum (sb : sbuf) (l : list ktap_val) : option sbuf :=
  bcwrite_knums (kp_buf_more sb (10 * Z.of_nat (length l))) l.

(** Instructions without the function header. *)
Definition bcwrite_bytecode (sb : sbuf) (pt : uproto) : option sbuf :=
  kp_buf_wmem sb (flat_map (λ i, le_bytes 4 (u32 i)) (tail (p_bc pt))).

(** ** The writer callback *)

(** [kp_writer] of [userspace/kp_main.c]: append to the trunk, growing it. *)
Record trunk := mktrunk { tr_data : bytes; tr_size : Z }.

Definition kp_writer (bs : bytes) (t : trunk) : Z * trunk :=
  let n := Z.of_nat (length (tr_data t)) + Z.of_nat (length bs) in
  (0, mktrunk (tr_data t ++ bs) (if n >? tr_size t then n * 2 else tr_size t)).

(** ** Prototypes *)

Record wctx := mkw { w_sb : sbuf; w_out : trunk; w_strip : bool; w_status : Z }.

Definition sizedbg (strip : bool) (pt : uproto) : Z :=
  if strip then 0 else match p_dbg pt with None => 0 | Some d => Z.of_nat (length d) end.

(** The fixed fields, from the flags to the debug lines. *)
Definition proto_header (sb : sbuf) (strip : bool) (pt : uproto) : option sbuf :=
  sb ← kp_buf_wmem sb [u8 (p_flags pt .& (PROTO_CHILD .| PROTO_VARARG .| PROTO_FFI));
                       u8 (p_numparams pt); u8 (p_framesize pt); u8 (Z.of_nat (length (p_uv pt)))];
  sb ← bcwrite_uint32 sb (Z.of_nat (length (p_kgc pt)));
  sb ← bcwrite_uint32 sb (Z.of_nat (length (p_kn pt)));
  sb ← bcwrite_uint32 sb (Z.of_nat (length (p_bc pt)) - 1);
  if strip then Some sb
  else
    sb ← bcwrite_uint32 sb (sizedbg strip pt);
    if negb (sizedbg strip pt =? 0) then
      sb ← bcwrite_uint32 sb (p_firstline pt);
      bcwrite_uint32 sb (p_numline pt)
    else Some sb.

(** One prototype without its children: compose it behind four bytes for the
    size, fill in the size, pass it on. *)
Definition bcwrite_proto1 (ctx : wctx) (pt : uproto) : option wctx :=
  let strip := w_strip ctx in
  let sb := kp_buf_need (w_sb ctx)
    (5 + 4 + 6 * 5 + (Z.of_nat (length (p_bc pt)) - 1) * 4 + Z.of_nat (length (p_uv pt)) * 2) in
  sb ← kp_buf_wmem (mksbuf [] (sb_size sb)) [0; 0; 0; 0];
  sb ← proto_header sb strip pt;
  sb ← bcwrite_bytecode sb pt;
  sb ← kp_buf_wmem sb (flat_map (λ u, le_bytes 2 (u16 u)) (p_uv pt));
  sb ← bcwrite_kgc sb (p_kgc pt);
  sb ← bcwrite_knum sb (p_kn pt);
  sb ← (if negb (sizedbg strip pt =? 0)
        then kp_buf_wmem (kp_buf_more sb (sizedbg strip pt)) (default [] (p_dbg pt))
        else Some sb);
  if w_status ctx =? 0 then
    let q := le_bytes 4 (u32 (sbuflen sb - 4)) ++ drop 4 (sb_data sb) in
    let '(status, out) := kp_writer q (w_out ctx) in
    Some (mkw (mksbuf q (sb_size sb)) out strip status)
  else Some (mkw sb (w_out ctx) strip (w_status ctx)).

(** Children are written before, from the last constant to the first. *)
Fixpoint bcwrite_proto (ctx : wctx) (pt : uproto) : option wctx :=
  ctx ← (if negb (p_flags pt .& PROTO_CHILD =? 0) then
           (fix children (ctx : wctx) (l : list ugc) : option wctx :=
              match l with
              | [] => Some ctx
              | o :: l' =>
                  ctx ← children ctx l';
                  match o with
                  | UProto c => bcwrite_proto ctx c
                  | _ => Some ctx
                  end
              end) ctx (match pt with mkuproto _ _ _ _ _ kgc _ _ _ _ => kgc end)
         else Some ctx);
  bcwrite_proto1 ctx pt.

Definition bcwrite_header (ctx : wctx) (name : bytes) : option wctx :=
  let strip := w_strip ctx in
  let len := Z.of_nat (length name) in
  let sb := kp_buf_need (w_sb ctx) (5 + 5 + len) in
  sb ← kp_buf_wmem (mksbuf [] (sb_size sb))
    [BCDUMP_HEAD1; BCDUMP_HEAD2; BCDUMP_HEAD3; BCDUMP_VERSION;
     if strip then BCDUMP_F_STRIP else 0];
  sb ← (if strip then Some sb else sb ← bcwrite_uint32 sb len; kp_buf_wmem sb name);
  let '(status, out) := kp_writer (sb_data sb) (w_out ctx) in
  Some (mkw sb out strip status).

Definition bcwrite_footer (ctx : wctx) : wctx :=
  if w_status ctx =? 0 then
    let '(status, out) := kp_writer [0] (w_out ctx) in
    mkw (w_sb ctx) out (w_strip ctx) status
  else ctx.

(** The buffer of [kp_buf_init] is grown to 1024 bytes at once. *)
Definition kp_bcwrite (pt : uproto) (name : bytes) (out : trunk) (strip : bool) : option (Z * trunk) :=
  let ctx := mkw (kp_buf_need (mksbuf [] 200) 1024) out strip 0 in
  ctx ← bcwrite_header ctx name;
  ctx ← bcwrite_proto ctx pt;
  let ctx := bcwrite_footer ctx in
  Some (w_status ctx, w_out ctx).

End Write.
