(* ===== verification/Util.v ===== *)
(** * Util: helpers of the compiler ([userspace/kp_util.c], [userspace/kp_util.h])

    Character classes, the interned strings and the constant tables of the
    compiler, and glob matching of event names.  String buffers are in [BcWrite].

    Strings of the compiler are never freed; the object of the i-th string
    created is at address [i + 1]. *)

From S2P Require Import Prelude Types Bytecode.
#[local] Open Scope word_scope.

(** ** Character classes *)

Definition KP_CHAR_CNTRL : Z := 0x01.
Definition KP_CHAR_SPACE : Z := 0x02.
Definition KP_CHAR_PUNCT : Z := 0x04.
Definition KP_CHAR_DIGIT : Z := 0x08.
Definition KP_CHAR_XDIGIT : Z := 0x10.
Definition KP_CHAR_UPPER : Z := 0x20.
Definition KP_CHAR_LOWER : Z := 0x40.
Definition KP_CHAR_IDENT : Z := 0x80.
Definition KP_CHAR_ALPHA : Z := KP_CHAR_LOWER .| KP_CHAR_UPPER.
Definition KP_CHAR_ALNUM : Z := KP_CHAR_ALPHA .| KP_CHAR_DIGIT.
Definition KP_CHAR_GRAPH : Z := KP_CHAR_ALNUM .| KP_CHAR_PUNCT.

Definition kp_char_bits : list Z := [
    0;
    1;  1;  1;  1;  1;  1;  1;  1;  1;  3;  3;  3;  3;  3;  1;  1;
    1;  1;  1;  1;  1;  1;  1;  1;  1;  1;  1;  1;  1;  1;  1;  1;
    2;  4;  4;  4;  4;  4;  4;  4;  4;  4;  4;  4;  4;  4;  4;  4;
  152;152;152;152;152;152;152;152;152;152;  4;  4;  4;  4;  4;  4;
    4;176;176;176;176;176;176;160;160;160;160;160;160;160;160;160;
  160;160;160;160;160;160;160;160;160;160;160;  4;  4;  4;  4;132;
    4;208;208;208;208;208;208;192;192;192;192;192;192;192;192;192;
  192;192;192;192;192;192;192;192;192;192;192;  4;  4;  4;  4;  1;
  128;128;128;128;128;128;128;128;128;128;128;128;128;128;128;128;
  128;128;128;128;128;128;128;128;128;128;128;128;128;128;128;128;
  128;128;128;128;128;128;128;128;128;128;128;128;128;128;128;128;
  128;128;128;128;128;128;128;128;128;128;128;128;128;128;128;128;
  128;128;128;128;128;128;128;128;128;128;128;128;128;128;128;128;
  128;128;128;128;128;128;128;128;128;128;128;128;128;128;128;128;
  128;128;128;128;128;128;128;128;128;128;128;128;128;128;128;128;
  128;128;128;128;128;128;128;128;128;128;128;128;128;128;128;128].

(** [(kp_char_bits+1)[c] & t]; characters are -1 or 0..255. *)
Definition kp_char_isa (c t : Z) : Z := nth (Z.to_nat (c + 1)) kp_char_bits 0 .& t.

Definition kp_char_iscntrl (c : Z) : bool := negb (kp_char_isa c KP_CHAR_CNTRL =? 0).
Definition kp_char_isspace (c : Z) : bool := negb (kp_char_isa c KP_CHAR_SPACE =? 0).
Definition kp_char_ispunct (c : Z) : bool := negb (kp_char_isa c KP_CHAR_PUNCT =? 0).
Definition kp_char_isdigit (c : Z) : bool := negb (kp_char_isa c KP_CHAR_DIGIT =? 0).
Definition kp_char_isxdigit (c : Z) : bool := negb (kp_char_isa c KP_CHAR_XDIGIT =? 0).
Definition kp_char_isupper (c : Z) : bool := negb (kp_char_isa c KP_CHAR_UPPER =? 0).
Definition kp_char_islower (c : Z) : bool := negb (kp_char_isa c KP_CHAR_LOWER =? 0).
Definition kp_char_isident (c : Z) : bool := negb (kp_char_isa c KP_CHAR_IDENT =? 0).
Definition kp_char_isalpha (c : Z) : bool := negb (kp_char_isa c KP_CHAR_ALPHA =? 0).
Definition kp_char_isalnum (c : Z) : bool := negb (kp_char_isa c KP_CHAR_ALNUM =? 0).
Definition kp_char_isgraph (c : Z) : bool := negb (kp_char_isa c KP_CHAR_GRAPH =? 0).
Definition kp_char_toupper (c : Z) : Z := c - kp_char_isa c KP_CHAR_LOWER ≫ 1.
Definition kp_char_tolower (c : Z) : Z := c + kp_char_isa c KP_CHAR_UPPER.

(** ** Interned strings *)

Record ustring := mkustr { us_bytes : bytes; us_reserved : Z }.

Record strtab := mkstrtab { st_objs : list ustring; st_size : Z }.

Definition kp_str_resize : strtab := mkstrtab [] 1000.

Fixpoint search_from (l : list ustring) (str : bytes) (i : Z) : option Z :=
  match l with
  | [] => None
  | s :: l' => if decide (str = us_bytes s) then Some i else search_from l' str (i + 1)
  end.

(** The address of the first string with these bytes, or NULL. *)
Definition stringtable_search (t : strtab) (str : bytes) : option Z := search_from (st_objs t) str 1.

Definition createstrobj (str : bytes) : ustring := mkustr str 0.

(** The vector always has a free entry behind the last one. *)
Definition stringtable_insert (t : strtab) (ts : ustring) : option strtab :=
  if Z.of_nat (length (st_objs t)) <? st_size t then
    let objs := st_objs t ++ [ts] in
    Some (mkstrtab objs (if Z.of_nat (length objs) =? st_size t then st_size t * 2 else st_size t))
  else ub.

Definition kp_str_new (t : strtab) (str : bytes) : option (Z * strtab) :=
  match stringtable_search t str with
  | Some ts => Some (ts, t)
  | None =>
      t' ← stringtable_insert t (createstrobj str);
      Some (Z.of_nat (length (st_objs t)) + 1, t')
  end.

Definition str_obj (t : strtab) (a : Z) : option ustring :=
  if 1 <=? a then st_objs t !! Z.to_nat (a - 1) else None.

Definition set_reserved (t : strtab) (a r : Z) : strtab :=
  mkstrtab (alter (λ s, mkustr (us_bytes s) r) (Z.to_nat (a - 1)) (st_objs t)) (st_size t).

(** ** Constant tables

    A vector of nodes searched from the front and filled from the back. *)

Record utnode := mkutnode { g_val : ktap_val; g_key : ktap_val }.

Record uttab := mkuttab { u_node : list utnode; u_freetop : nat }.

Definition u_hmask (t : uttab) : Z := Z.of_nat (length (u_node t)) - 1.

(** Equality without a test of the tags; [pvalue] is an address, and the
    operands are never one object. *)
Definition kp_obj_equal (t1 t2 : ktap_val) : bool :=
  let t := itype t1 in
  if t =? KTAP_TNIL then true
  else if t =? KTAP_TNUM then nvalue t1 =? nvalue t2
  else if (t =? KTAP_TTRUE) || (t =? KTAP_TFALSE) then itype t1 =? itype t2
  else if t =? KTAP_TLIGHTUD then false
  else val t1 =? val t2.

Fixpoint find_node (l : list utnode) (p : ktap_val -> bool) (i : nat) : option nat :=
  match l with
  | [] => None
  | n :: l' => if p (g_key n) then Some i else find_node l' p (S i)
  end.

(** The node whose value [kp_tab_get] returns; none for the shared nil. *)
Definition get_node (t : uttab) (key : ktap_val) : option nat :=
  if itype key =? KTAP_TNIL then None
  else if itype key =? KTAP_TNUM then
    find_node (u_node t) (λ v, is_number v && (nvalue key =? nvalue v)) 0
  else if itype key =? KTAP_TSTR then
    find_node (u_node t) (λ v, is_string v && (val key =? val v)) 0
  else find_node (u_node t) (λ v, kp_obj_equal key v) 0.

Definition node_val (t : uttab) (o : option nat) : option ktap_val :=
  match o with
  | None => Some kp_niltv
  | Some i => g_val <$> u_node t !! i
  end.

Definition kp_tab_get (t : uttab) (key : ktap_val) : option ktap_val := node_val t (get_node t key).

Definition kp_tab_getstr (t : uttab) (ts : Z) : option ktap_val :=
  node_val t (find_node (u_node t) (λ v, is_string v && (ts =? val v)) 0).

(** A zeroed node: neither nil nor any other tag. *)
Definition zero_node : utnode := mkutnode (mkval 0 0) (mkval 0 0).

(** The next free node, after doubling the vector when the position has reached
    its start. *)
Definition grow (t : uttab) : uttab :=
  if (u_freetop t =? 0)%nat then
    mkuttab (u_node t ++ replicate (length (u_node t)) zero_node) (2 * length (u_node t))
  else t.

Definition take_node (t : uttab) : nat * uttab :=
  let t := grow t in
  (pred (u_freetop t), mkuttab (u_node t) (pred (u_freetop t))).

Definition put_node (t : uttab) (i : nat) (f : utnode -> utnode) : option uttab :=
  n ← u_node t !! i;
  Some (mkuttab (<[i := f n]> (u_node t)) (u_freetop t)).

Definition kp_tab_setvalue (t : uttab) (key v : ktap_val) : option uttab :=
  match get_node t key with
  | Some i => put_node t i (λ n, mkutnode v (g_key n))
  | None => let '(i, t) := take_node t in put_node t i (λ _, mkutnode v key)
  end.

(** The node whose value the caller may assign. *)
Definition kp_tab_set (t : uttab) (key : ktap_val) : option (nat * uttab) :=
  match get_node t key with
  | Some i => Some (i, t)
  | None =>
      let '(i, t) := take_node t in
      t ← put_node t i (λ n, mkutnode (set_nil (g_val n)) key); Some (i, t)
  end.

Definition kp_tab_new : uttab := mkuttab (replicate 1024 (mkutnode kp_niltv kp_niltv)) 1024.

(** ** Glob matching *)

(** [char] is signed. *)
Definition s8 (c : Z) : Z := swrap 8 c.

(** [isspace] in the C locale. *)
Definition isspace (c : Z) : bool := (c =? 32) || ((9 <=? c) && (c <=? 13)).

(** Search for the closing bracket; the pattern behind it. *)
Fixpoint close_class (pat : bytes) : option bytes :=
  match pat with
  | [] => None
  | p :: pat' => if p =? 93 then Some pat' else close_class pat'
  end.

(** The members of a class, [prev] being the character before [pat].  The result
    is undefined when a range at the end of the pattern makes the scan pass the
    terminating NUL; otherwise an error, or whether the character was found and
    where the scan stopped. *)
Fixpoint class_loop (fuel : nat) (pat : bytes) (prev c : Z) : option (option (bool * bytes)) :=
  match fuel with
  | O => ub
  | S f =>
      match pat with
      | [] => Some None
      | p :: pat' =>
          if p =? 93 then Some (Some (false, pat))
          else
            let q := default 0 (head pat') in
            if (p =? 45) && negb (q =? 93) then
              if (s8 prev <=? s8 c) && (s8 c <=? s8 q) then Some (Some (true, pat))
              else if s8 prev >? s8 q then Some None
              else match pat' with
                   | [] => ub
                   | q :: pat'' => class_loop f pat'' q c
                   end
            else if p =? c then Some (Some (true, pat'))
            else class_loop f pat' p c
      end
  end.

(** The verdict and the rest of the pattern, which an error leaves alone. *)
Definition __match_charclass (pat : bytes) (c : Z) : option (bool * option bytes) :=
  let '(complement, pat) :=
    match pat with 33 :: pat' => (true, pat') | _ => (false, pat) end in
  match pat with
  | [] => ub
  | p :: pat' =>
      r ← (if p =? c then Some (Some (true, pat')) else class_loop (S (length pat')) pat' p c);
      match r with
      | None => Some (false, None)
      | Some (ret, rest) =>
          match close_class rest with
          | None => Some (false, None)
          | Some npat => Some (if complement then negb ret else ret, Some npat)
          end
      end
  end.

Fixpoint skip_stars (pat : bytes) : bytes :=
  match pat with
  | p :: pat' => if p =? 42 then skip_stars pat' else pat
  | [] => []
  end.

Fixpoint __match_glob (fuel : nat) (str pat : bytes) (ignore_space : bool) : option bool :=
  match fuel with
  | O => ub
  | S f =>
      let tail :=
        if default 0 (head pat) =? 42 then
          match skip_stars pat with
          | [] => Some true
          | pat =>
              (fix star (str : bytes) : option bool :=
                 match str with
                 | [] => Some false
                 | _ :: str' =>
                     match __match_glob f str pat ignore_space with
                     | Some true => Some true
                     | Some false => star str'
                     | None => None
                     end
                 end) str
          end
        else Some (match str, pat with [], [] => true | _, _ => false end) in
      match str, pat with
      | s :: str', p :: pat' =>
          if p =? 42 then tail
          else if ignore_space && isspace s then __match_glob f str' pat ignore_space
          else if ignore_space && isspace p then __match_glob f str pat' ignore_space
          else if p =? 63 then __match_glob f str' pat' ignore_space
          else if p =? 91 then
            match __match_charclass pat' s with
            | None => ub
            | Some (true, Some npat) => __match_glob f str' npat ignore_space
            | Some (true, None) => ub
            | Some (false, _) => Some false
            end
          else
            match (if p =? 92 then pat' else pat) with
            | [] => Some false
            | q :: pat'' => if s =? q then __match_glob f str' pat'' ignore_space else Some false
            end
      | _, _ => tail
      end
  end.

Definition strglobmatch (str pat : bytes) : option bool :=
  __match_glob (S (length str + length pat)) str pat false.
