(* ===== verification/UtilThm.v ===== *)
(** * UtilThm: theorems about the helpers of the compiler *)

From S2P Require Import Prelude Types Bytecode Util.
#[local] Open Scope word_scope.

(** ** Character classes *)

Definition is_digit (c : Z) : bool := (48 <=? c) && (c <=? 57).
Definition is_upper (c : Z) : bool := (65 <=? c) && (c <=? 90).
Definition is_lower (c : Z) : bool := (97 <=? c) && (c <=? 122).
Definition is_hex (c : Z) : bool :=
  is_digit c || ((65 <=? c) && (c <=? 70)) || ((97 <=? c) && (c <=? 102)).
Definition is_ident (c : Z) : bool := is_digit c || is_upper c || is_lower c || (c =? 95) || (128 <=? c).

Definition classes_agree (c : Z) : bool :=
  eqb (kp_char_isdigit c) (is_digit c) && eqb (kp_char_isupper c) (is_upper c) &&
  eqb (kp_char_islower c) (is_lower c) && eqb (kp_char_isxdigit c) (is_hex c) &&
  eqb (kp_char_isident c) (is_ident c) &&
  eqb (kp_char_isspace c) ((c =? 32) || ((9 <=? c) && (c <=? 13))) &&
  eqb (kp_char_iscntrl c) (((0 <=? c) && (c <=? 31)) || (c =? 127)) &&
  eqb (kp_char_isalpha c) (is_upper c || is_lower c) &&
  eqb (kp_char_isalnum c) (is_upper c || is_lower c || is_digit c) &&
  eqb (kp_char_isgraph c) ((33 <=? c) && (c <=? 126)) &&
  (kp_char_toupper c =? if is_lower c then c - 32 else c) &&
  (kp_char_tolower c =? if is_upper c then c + 32 else c).

(** Characters as the lexer sees them: a byte, or -1 at the end. *)
Definition is_char (c : Z) : Prop := -1 <= c <= 255.

Lemma char_forall (p : Z -> bool) :
  forallb (λ n, p (Z.of_nat n - 1)) (seq 0 257) = true -> forall c, is_char c -> p c = true.
Proof.
  intros H c Hc. unfold is_char in Hc. rewrite forallb_forall in H.
  replace c with (Z.of_nat (Z.to_nat (c + 1)) - 1) by lia. apply H, in_seq. lia.
Qed.

Lemma classes_agree_all c : is_char c -> classes_agree c = true.
Proof. apply char_forall. vm_compute. reflexivity. Qed.

Lemma isident_spec c : is_char c -> kp_char_isident c = is_ident c.
Proof.
  intros Hc. pose proof (classes_agree_all c Hc) as H. unfold classes_agree in H.
  repeat (apply andb_true_iff in H as [H ?]). by apply eqb_prop.
Qed.

Lemma isdigit_spec c : is_char c -> kp_char_isdigit c = is_digit c.
Proof.
  intros Hc. pose proof (classes_agree_all c Hc) as H. unfold classes_agree in H.
  repeat (apply andb_true_iff in H as [H ?]). by apply eqb_prop.
Qed.

(** The table of character classes is right: for the end marker and every
    byte the predicates are the ASCII classes, identifiers also admit the
    underscore and every byte from 128 on, and the case conversions change
    letters only. *)
Theorem char_classes_ascii c : is_char c ->
  kp_char_isdigit c = is_digit c /\ kp_char_isupper c = is_upper c /\ kp_char_islower c = is_lower c /\
  kp_char_isxdigit c = is_hex c /\ kp_char_isident c = is_ident c /\
  kp_char_isspace c = ((c =? 32) || ((9 <=? c) && (c <=? 13))) /\
  kp_char_iscntrl c = (((0 <=? c) && (c <=? 31)) || (c =? 127)) /\
  kp_char_isalpha c = (is_upper c || is_lower c) /\
  kp_char_isalnum c = (is_upper c || is_lower c || is_digit c) /\
  kp_char_isgraph c = ((33 <=? c) && (c <=? 126)) /\
  kp_char_toupper c = (if is_lower c then c - 32 else c) /\
  kp_char_tolower c = (if is_upper c then c + 32 else c).
Proof.
  intros Hc. pose proof (classes_agree_all c Hc) as H. unfold classes_agree in H.
  repeat (apply andb_true_iff in H as [H ?]). bool_to_Prop.
  split_and!; first [by apply eqb_prop|done].
Qed.

Lemma char_classes_ascii_witness : kp_char_isident 95 = true /\ kp_char_isident (-1) = false.
Proof.
  split; [|reflexivity].
  destruct (char_classes_ascii 95) as (_ & _ & _ & _ & -> & _); [unfold is_char; lia|reflexivity].
Defined.

(** ** Interned strings *)

(** Every string is there once, and the vector has room for one more. *)
Record strtab_ok (t : strtab) : Prop := {
  so_uniq : NoDup (us_bytes <$> st_objs t);
  so_room : Z.of_nat (length (st_objs t)) < st_size t
}.

Definition bytes_of (t : strtab) (a : Z) : option bytes := us_bytes <$> str_obj t a.

Lemma search_from_spec l str i :
  match search_from l str i with
  | Some a => i <= a < i + Z.of_nat (length l) /\ us_bytes <$> l !! Z.to_nat (a - i) = Some str
  | None => str ∉ us_bytes <$> l
  end.
Proof.
  revert i. induction l as [|s l IH]; intros i; cbn [search_from]; [by apply not_elem_of_nil|].
  case_decide as E.
  - rewrite Z.sub_diag. cbn [length]. split; [lia|]. by rewrite E.
  - specialize (IH (i + 1)). destruct (search_from l str (i + 1)) as [a|].
    + destruct IH as [Hr Hl]. cbn [length]. split; [lia|].
      replace (Z.to_nat (a - i)) with (S (Z.to_nat (a - (i + 1)))) by lia. done.
    + rewrite fmap_cons. intros Hin. apply elem_of_cons in Hin as [?|?]; [done|by apply IH].
Qed.

Lemma str_obj_lookup t a s : str_obj t a = Some s ->
  1 <= a <= Z.of_nat (length (st_objs t)) /\ st_objs t !! Z.to_nat (a - 1) = Some s.
Proof.
  unfold str_obj. destruct (Z.leb_spec 1 a); [|done]. intros Hs. pose proof (lookup_lt_Some _ _ _ Hs).
  split; [lia|done].
Qed.

Lemma bytes_of_inj t a b str : strtab_ok t -> bytes_of t a = Some str -> bytes_of t b = Some str -> a = b.
Proof.
  intros I Ha Hb. unfold bytes_of in *.
  apply fmap_Some in Ha as (s1 & H1 & E1). apply fmap_Some in Hb as (s2 & H2 & E2).
  apply str_obj_lookup in H1 as [R1 H1]. apply str_obj_lookup in H2 as [R2 H2].
  assert (Z.to_nat (a - 1) = Z.to_nat (b - 1)); [|lia].
  apply (NoDup_lookup (us_bytes <$> st_objs t) _ _ str (so_uniq _ I)); rewrite list_lookup_fmap.
  - rewrite H1. simpl. congruence.
  - rewrite H2. simpl. congruence.
Qed.

Lemma kp_str_new_spec t str : strtab_ok t ->
  exists a t', kp_str_new t str = Some (a, t') /\ strtab_ok t' /\ bytes_of t' a = Some str /\
    (forall b s, str_obj t b = Some s -> str_obj t' b = Some s).
Proof.
  intros I. unfold kp_str_new, stringtable_search. pose proof (search_from_spec (st_objs t) str 1) as Hs.
  destruct (search_from (st_objs t) str 1) as [a|].
  - destruct Hs as [Hr Hl]. exists a, t. split_and!; try done. unfold bytes_of, str_obj.
    rewrite (proj2 (Z.leb_le _ _)) by lia. done.
  - unfold stringtable_insert. pose proof (so_room _ I) as Hroom. rewrite (proj2 (Z.ltb_lt _ _)) by done.
    cbn [mbind option_bind]. set (objs := st_objs t ++ [createstrobj str]).
    assert (Hl : length objs = S (length (st_objs t))) by (unfold objs; rewrite length_app; simpl; lia).
    eexists _, _. split; [done|]. split_and!.
    + split; cbn [st_objs st_size].
      * unfold objs. rewrite fmap_app. apply list.NoDup_app. split_and!; [apply I| |apply NoDup_singleton].
        intros x Hx Hin. apply list_elem_of_singleton in Hin as ->. by apply Hs.
      * rewrite Hl. destruct (Z.eqb_spec (Z.of_nat (S (length (st_objs t)))) (st_size t)); lia.
    + unfold bytes_of, str_obj. rewrite (proj2 (Z.leb_le _ _)) by lia. cbn [st_objs]. unfold objs.
      replace (Z.to_nat _) with (length (st_objs t)) by lia. by rewrite lookup_app_r, Nat.sub_diag.
    + intros b s Hb. apply str_obj_lookup in Hb as [Hr Hb]. unfold str_obj.
      rewrite (proj2 (Z.leb_le _ _)) by lia. cbn [st_objs]. by apply lookup_app_l_Some.
Qed.

(** The compiler's string table is canonical: interning any bytes is defined,
    keeps every string there once, gives a string with exactly these bytes and
    leaves the others as they were; a string has the address that interning gives
    for its bytes, so comparing addresses compares strings. *)
Theorem ustr_canonical t str : strtab_ok t ->
  exists a t', kp_str_new t str = Some (a, t') /\ strtab_ok t' /\ bytes_of t' a = Some str /\
    (forall b s, str_obj t b = Some s -> str_obj t' b = Some s) /\
    (forall b s, bytes_of t' b = Some s -> (b = a <-> s = str)).
Proof.
  intros I. destruct (kp_str_new_spec t str I) as (a & t' & E & I' & Ha & Hk).
  exists a, t'. split_and!; try done. intros b s Hb. split; [intros ->; congruence|].
  intros ->. by eapply bytes_of_inj.
Qed.

Lemma ustr_canonical_witness :
  exists a t', kp_str_new kp_str_resize [102; 111] = Some (a, t') /\ strtab_ok t' /\
    bytes_of t' a = Some [102; 111].
Proof.
  destruct (ustr_canonical kp_str_resize [102; 111]) as (a & t' & E & I & Hb & _).
  - split; [apply NoDup_nil_2|reflexivity].
  - by exists a, t'.
Defined.

(** ** Constant tables *)

(** Keys the compiler uses for its constants: numbers and strings. *)
Definition const_key (key : ktap_val) : Prop := is_number key = true \/ is_string key = true.

Definition same_key (key v : ktap_val) : bool := (type key =? type v) && (val key =? val v).

(** Below the free position no node has a key; [n] nodes are left there. *)
Record uttab_ok (t : uttab) : Prop := {
  uo_top : (u_freetop t <= length (u_node t))%nat;
  uo_free : forall i n, (i < u_freetop t)%nat -> u_node t !! i = Some n -> is_nil (g_key n) = true
}.

Lemma find_node_ext l p q i : (forall n, n ∈ l -> p (g_key n) = q (g_key n)) -> find_node l p i = find_node l q i.
Proof.
  revert i. induction l as [|n l IH]; intros i H; cbn [find_node]; [done|].
  rewrite H by (by left). destruct (q (g_key n)); [done|]. apply IH. intros; apply H; by right.
Qed.

Lemma get_node_key t key : const_key key -> get_node t key = find_node (u_node t) (same_key key) 0.
Proof.
  intros Hk. unfold get_node, same_key. destruct Hk as [Hk|Hk]; unfold is_number, is_string, itype in Hk;
    bool_to_Prop; unfold itype; rewrite Hk; cbn [Z.eqb Pos.eqb KTAP_TNIL KTAP_TNUM KTAP_TSTR];
    apply find_node_ext; intros n _; unfold is_number, is_string, itype, nvalue; by rewrite Z.eqb_sym.
Qed.

Lemma find_node_spec l p i :
  match find_node l p i with
  | Some j => (i <= j)%nat /\ exists n, l !! (j - i)%nat = Some n /\ p (g_key n) = true /\
      forall j' n', (j' < j - i)%nat -> l !! j' = Some n' -> p (g_key n') = false
  | None => forall n, n ∈ l -> p (g_key n) = false
  end.
Proof.
  revert i. induction l as [|n l IH]; intros i; cbn [find_node]; [intros n Hn; by apply not_elem_of_nil in Hn|].
  destruct (p (g_key n)) eqn:Ep.
  - split; [lia|]. rewrite Nat.sub_diag. exists n. split_and!; try done. lia.
  - specialize (IH (S i)). destruct (find_node l p (S i)) as [j|].
    + destruct IH as (Hij & m & Hm & Hp & Hb). split; [lia|]. exists m.
      replace (j - i)%nat with (S (j - S i)) by lia. split_and!; try done.
      intros [|j'] n' Hj Hn'; [simpl in Hn'; congruence|]. apply (Hb j'); [lia|done].
    + intros m Hm. apply elem_of_cons in Hm as [->|Hm]; [done|by apply IH].
Qed.

(** Only the verdicts on the keys matter to a search. *)
Lemma find_node_keys l l' p i : (p ∘ g_key) <$> l = (p ∘ g_key) <$> l' -> find_node l p i = find_node l' p i.
Proof.
  revert l' i. induction l as [|n l IH]; intros [|n' l'] i E; try done; cbn [find_node].
  rewrite !fmap_cons in E. injection E as E1 E2. simpl in E1. rewrite E1. destruct (p (g_key n')); [done|]. by apply IH.
Qed.

Lemma find_node_insert l p i j n n' : l !! j = Some n -> p (g_key n') = p (g_key n) ->
  find_node (<[j := n']> l) p i = find_node l p i.
Proof.
  intros Hn E. apply find_node_keys. rewrite list_fmap_insert. apply list_insert_id.
  rewrite list_lookup_fmap, Hn. simpl. by rewrite E.
Qed.

Lemma find_node_at l p i n : l !! i = Some n -> p (g_key n) = true ->
  (forall j m, j <> i -> l !! j = Some m -> p (g_key m) = false) -> find_node l p 0 = Some i.
Proof.
  intros Hn Hp Ho. pose proof (find_node_spec l p 0) as H. destruct (find_node l p 0) as [j|].
  - destruct H as (_ & m & Hm & Hpm & _). rewrite Nat.sub_0_r in Hm.
    destruct (decide (j = i)) as [->|Hj]; [done|]. rewrite (Ho j m Hj Hm) in Hpm. done.
  - rewrite (H n) in Hp; [done|]. by eapply list_elem_of_lookup_2.
Qed.

Lemma same_key_eq key v : same_key key v = true <-> v = key.
Proof.
  unfold same_key. rewrite andb_true_iff, !Z.eqb_eq. destruct key, v; simpl. split; [|by intros [= -> ->]].
  intros [-> ->]. done.
Qed.

Lemma same_key_ne key v : v <> key -> same_key key v = false.
Proof. intros H. apply not_true_is_false. by rewrite same_key_eq. Qed.

Lemma const_key_not_nil key : const_key key -> is_nil key = false.
Proof.
  unfold const_key, is_number, is_string, is_nil. intros [H|H]; bool_to_Prop; rewrite H; reflexivity.
Qed.

(** The value of a node that a search for a constant does or does not meet. *)
Lemma kp_tab_get_found t key i n : const_key key -> get_node t key = Some i -> u_node t !! i = Some n ->
  kp_tab_get t key = Some (g_val n).
Proof. intros _ Hg Hn. unfold kp_tab_get, node_val. by rewrite Hg, Hn. Qed.

Lemma get_node_Some t key i : const_key key -> get_node t key = Some i ->
  exists n, u_node t !! i = Some n /\ g_key n = key.
Proof.
  intros Hk Hg. rewrite get_node_key in Hg by done. pose proof (find_node_spec (u_node t) (same_key key) 0) as H.
  rewrite Hg in H. destruct H as (_ & n & Hn & Hp & _). rewrite Nat.sub_0_r in Hn. exists n.
  split; [done|]. by apply same_key_eq.
Qed.

Lemma get_node_None t key n : const_key key -> get_node t key = None -> n ∈ u_node t -> g_key n <> key.
Proof.
  intros Hk Hg Hn E. rewrite get_node_key in Hg by done.
  pose proof (find_node_spec (u_node t) (same_key key) 0) as H. rewrite Hg in H.
  specialize (H n Hn). by rewrite (proj2 (same_key_eq key _) E) in H.
Qed.

(** Changing one node leaves what is found for a key that neither the old nor
    the new node has. *)
Lemma kp_tab_get_frame t j f n n' key : u_node t !! j = Some n -> const_key key ->
  g_key n <> key -> g_key n' <> key ->
  kp_tab_get (mkuttab (<[j := n']> (u_node t)) f) key = kp_tab_get t key.
Proof.
  intros Hj Hk Hn Hn'. unfold kp_tab_get. rewrite !get_node_key by done. cbn [u_node].
  rewrite (find_node_insert _ _ 0 j n n' Hj) by (rewrite !same_key_ne; done).
  destruct (find_node (u_node t) (same_key key) 0) as [i|] eqn:E; [|done]. cbn [node_val u_node].
  rewrite list_lookup_insert_ne; [done|]. intros ->.
  destruct (get_node_Some t key i Hk) as (m & Hm & Em); [by rewrite get_node_key|]. congruence.
Qed.

Lemma take_node_room t : (0 < u_freetop t)%nat ->
  take_node t = (pred (u_freetop t), mkuttab (u_node t) (pred (u_freetop t))).
Proof. intros H. unfold take_node, grow. rewrite (proj2 (Nat.eqb_neq _ _)) by lia. done. Qed.

(** The constant table of the compiler works as a map as long as its vector
    need not grow: for number and string keys an assignment is defined, is read
    back, and leaves what every other key reads; a key already there needs no
    free node. *)
Theorem utab_set_get t key v : uttab_ok t -> const_key key ->
  is_Some (get_node t key) \/ (0 < u_freetop t)%nat ->
  exists t', kp_tab_setvalue t key v = Some t' /\ uttab_ok t' /\ kp_tab_get t' key = Some v /\
    forall key', const_key key' -> key' <> key -> kp_tab_get t' key' = kp_tab_get t key'.
Proof.
  intros I Hk Hroom. unfold kp_tab_setvalue. destruct (get_node t key) as [i|] eqn:Hg.
  - destruct (get_node_Some t key i Hk Hg) as (n & Hn & En). unfold put_node. rewrite Hn.
    cbn [mbind option_bind]. eexists. split; [done|]. split_and!.
    + split; cbn [u_node u_freetop]; rewrite ?length_insert; [apply I|]. intros j m Hj Hm.
      apply list_lookup_insert_Some in Hm as [(-> & <- & _)|[_ Hm]]; [|by apply (uo_free _ I j)].
      by apply (uo_free _ I j n).
    + apply (kp_tab_get_found _ _ i (mkutnode v (g_key n))); [done| |].
      * rewrite get_node_key in Hg |- * by done. cbn [u_node]. by erewrite find_node_insert.
      * apply list_lookup_insert_eq. by eapply lookup_lt_Some.
    + intros key' Hk' Hne. apply (kp_tab_get_frame t i _ n); simpl; congruence.
  - destruct Hroom as [[? ?]|Hroom]; [done|]. rewrite take_node_room by done.
    assert (Hlt : (pred (u_freetop t) < length (u_node t))%nat) by (pose proof (uo_top _ I); lia).
    apply lookup_lt_is_Some_2 in Hlt as [n Hn]. unfold put_node. cbn [u_node u_freetop]. rewrite Hn.
    cbn [mbind option_bind]. eexists. split; [done|]. assert (Hnil : is_nil (g_key n) = true) by (apply (uo_free _ I _ n) in Hn; [done|lia]).
    split_and!.
    + split; cbn [u_node u_freetop]; rewrite ?length_insert; [pose proof (uo_top _ I); lia|].
      intros j m Hj Hm. rewrite list_lookup_insert_ne in Hm by lia. apply (uo_free _ I j); [lia|done].
    + assert (Hl : <[pred (u_freetop t) := mkutnode v key]> (u_node t) !! pred (u_freetop t) = Some (mkutnode v key)).
      { apply list_lookup_insert_eq. by eapply lookup_lt_Some. }
      apply (kp_tab_get_found _ _ (pred (u_freetop t)) (mkutnode v key)); [done| |exact Hl].
      rewrite get_node_key by done. cbn [u_node]. apply (find_node_at _ _ _ _ Hl); [by apply same_key_eq|].
      intros j m Hj Hm. rewrite list_lookup_insert_ne in Hm by done. apply same_key_ne.
      apply (get_node_None t); [done..|]. by eapply list_elem_of_lookup_2.
    + intros key' Hk' Hne. apply (kp_tab_get_frame t _ _ n); [done..| |simpl; congruence].
      intros E. rewrite E, const_key_not_nil in Hnil; done.
Qed.

Lemma uttab_new_ok : uttab_ok kp_tab_new.
Proof.
  split; cbn [u_node u_freetop kp_tab_new]; rewrite ?length_replicate; [done|].
  intros i n _ Hn. apply lookup_replicate in Hn as [-> _]. done.
Qed.

Lemma utab_set_get_witness :
  exists t', kp_tab_setvalue kp_tab_new (set_number 7) (set_bool kp_niltv 1) = Some t' /\ uttab_ok t' /\
    kp_tab_get t' (set_number 7) = Some (set_bool kp_niltv 1).
Proof.
  destruct (utab_set_get kp_tab_new (set_number 7) (set_bool kp_niltv 1)) as (t' & E & I & Hg & _).
  - apply uttab_new_ok.
  - left. reflexivity.
  - right. simpl. lia.
  - by exists t'.
Defined.

(** ** A constant table that has grown *)

Fixpoint set_all (t : uttab) (kvs : list (ktap_val * ktap_val)) : option uttab :=
  match kvs with
  | [] => Some t
  | (k, v) :: kvs' => t' ← kp_tab_setvalue t k v; set_all t' kvs'
  end.

Definition fresh_in (t : uttab) (key : ktap_val) : Prop := const_key key /\ key ∉ g_key <$> u_node t.

Lemma fresh_in_get t key : fresh_in t key -> get_node t key = None.
Proof.
  intros [Hk Hf]. destruct (get_node t key) as [i|] eqn:Hg; [|done].
  destruct (get_node_Some t key i Hk Hg) as (n & Hn & En). destruct Hf. apply list_elem_of_fmap.
  exists n. split; [done|]. by eapply list_elem_of_lookup_2.
Qed.

Lemma kp_tab_setvalue_fresh t key v : fresh_in t key -> (0 < u_freetop t <= length (u_node t))%nat ->
  kp_tab_setvalue t key v =
  Some (mkuttab (<[pred (u_freetop t) := mkutnode v key]> (u_node t)) (pred (u_freetop t))).
Proof.
  intros Hf Ht. unfold kp_tab_setvalue. rewrite fresh_in_get, take_node_room by (done || lia).
  unfold put_node. cbn [u_node u_freetop].
  destruct (lookup_lt_is_Some_2 (u_node t) (pred (u_freetop t))) as [n Hn]; [lia|]. by rewrite Hn.
Qed.

(** New keys go to the nodes below the free position, whatever is there. *)
Lemma set_all_fresh kvs t : Forall (fresh_in t) kvs.*1 -> NoDup kvs.*1 ->
  (length kvs <= u_freetop t <= length (u_node t))%nat ->
  exists l, set_all t kvs = Some (mkuttab l (u_freetop t - length kvs)) /\
    length l = length (u_node t) /\
    (forall i, (i < u_freetop t - length kvs \/ u_freetop t <= i)%nat -> l !! i = u_node t !! i) /\
    (forall i n, (u_freetop t - length kvs <= i < u_freetop t)%nat -> l !! i = Some n -> g_key n ∈ kvs.*1).
Proof.
  revert t. induction kvs as [|[k v] kvs IH]; intros t Hf Hnd Ht; cbn [set_all length fmap list_fmap fst] in *.
  - exists (u_node t). rewrite Nat.sub_0_r. destruct t. split_and!; try done. simpl in *. lia.
  - apply list.Forall_cons in Hf as [Hk Hf]. apply list.NoDup_cons in Hnd as [Hnk Hnd].
    rewrite kp_tab_setvalue_fresh by (done || lia). cbn [mbind option_bind].
    destruct (IH (mkuttab (<[pred (u_freetop t) := mkutnode v k]> (u_node t)) (pred (u_freetop t))))
      as (l & E & Hl & Hout & Hin); cbn [u_node u_freetop] in *; rewrite ?length_insert in *; try done; try lia.
    { apply list.Forall_forall. intros x Hx. rewrite list.Forall_forall in Hf. destruct (Hf x Hx) as [Hc Hx'].
      split; [done|]. cbn [u_node]. rewrite list_fmap_insert. intros Hi.
      apply list_elem_of_lookup in Hi as [j Hj]. apply list_lookup_insert_Some in Hj as [(_ & <- & _)|[_ Hj]]; [done|].
      apply Hx'. by eapply list_elem_of_lookup_2. }
    exists l. split_and!; [|done| |].
    + rewrite E. do 2 f_equal. lia.
    + intros i Hi. rewrite Hout by lia. apply list_lookup_insert_ne. lia.
    + intros i n Hi Hn. destruct (decide (i = pred (u_freetop t))) as [->|Hne].
      * rewrite Hout, list_lookup_insert_eq in Hn by lia. injection Hn as <-. by left.
      * right. apply (Hin i n); [lia|done].
Qed.

Lemma get_node_absent t key : const_key key -> (forall n, n ∈ u_node t -> g_key n <> key) -> kp_tab_get t key = Some kp_niltv.
Proof.
  intros Hk Hn. unfold kp_tab_get. rewrite fresh_in_get; [done|]. split; [done|].
  intros Hi. apply list_elem_of_fmap in Hi as (n & -> & Hi). by apply (Hn n).
Qed.

Lemma const_key_not_zero key : const_key key -> key <> g_key zero_node.
Proof. intros [H|H] ->; discriminate H. Qed.

Lemma fresh_in_grow t key : fresh_in t key -> fresh_in (grow t) key.
Proof.
  intros [Hk Hf]. split; [done|]. unfold grow. destruct (u_freetop t =? 0)%nat; [|done]. cbn [u_node].
  rewrite fmap_app, fmap_replicate. intros Hi. apply elem_of_app in Hi as [Hi|Hi]; [done|].
  apply elem_of_replicate in Hi as [-> _]. by apply (const_key_not_zero _ Hk).
Qed.

Lemma set_all_grow t k v kvs : fresh_in t k -> set_all t ((k, v) :: kvs) = set_all (grow t) ((k, v) :: kvs).
Proof.
  intros Hf. cbn [set_all]. f_equal. unfold kp_tab_setvalue.
  rewrite (fresh_in_get t), (fresh_in_get (grow t)) by (done || by apply fresh_in_grow).
  unfold take_node. replace (grow (grow t)) with (grow t); [done|]. unfold grow.
  destruct (u_freetop t =? 0)%nat eqn:E; [|by rewrite E]. cbn [u_freetop u_node].
  destruct (u_node t) as [|n l]; [by rewrite app_nil_l|]. done.
Qed.

(** A constant table that has grown loses constants: after a full vector of [n]
    nodes was doubled, [n] new keys fill the new half and the next one is
    written over the last node of the old half, whose key then reads as nil. *)
Theorem utab_growth_overwrites t l n kvs :
  u_node t = l ++ [n] -> u_freetop t = 0%nat -> NoDup (g_key <$> u_node t) -> const_key (g_key n) ->
  Forall (fresh_in t) kvs.*1 -> NoDup kvs.*1 -> length kvs = S (length (u_node t)) ->
  kp_tab_get t (g_key n) = Some (g_val n) /\
  exists t', set_all t kvs = Some t' /\ kp_tab_get t' (g_key n) = Some kp_niltv.
Proof.
  intros Hn Ht Hnd Hk Hf Hnk Hlen. rewrite Hn, fmap_app in Hnd. apply list.NoDup_app in Hnd as (_ & Hnd & _).
  assert (Hl : forall m, m ∈ l -> g_key m <> g_key n).
  { intros m Hm E. apply (Hnd (g_key m)); [by apply list_elem_of_fmap_2|]. rewrite E. by left. }
  split.
  - apply (kp_tab_get_found _ _ (length l)); [done| |by rewrite Hn, lookup_app_r, Nat.sub_diag].
    rewrite get_node_key by done. apply (find_node_at _ _ _ n); [by rewrite Hn, lookup_app_r, Nat.sub_diag|by apply same_key_eq|].
    intros j m Hj Hm. apply same_key_ne. rewrite Hn in Hm. apply lookup_app_Some in Hm as [Hm|[Hlj Hm]].
    + apply Hl. by eapply list_elem_of_lookup_2.
    + apply list_lookup_singleton_Some in Hm as [? _]. lia.
  - destruct kvs as [|[k v] kvs]; [done|]. rewrite set_all_grow by (by apply list.Forall_cons in Hf as [? _]).
    assert (Hg : grow t = mkuttab (u_node t ++ replicate (length (u_node t)) zero_node) (2 * length (u_node t)))
      by (unfold grow; by rewrite Ht).
    destruct (set_all_fresh ((k, v) :: kvs) (grow t)) as (l' & E & Hl' & Hout & Hin); [|done|..].
    + eapply list.Forall_impl; [exact Hf|]. apply fresh_in_grow.
    + rewrite Hg. cbn [u_node u_freetop]. rewrite length_app, length_replicate.
      assert (1 <= length (u_node t))%nat by (rewrite Hn, length_app; simpl; lia). lia.
    + eexists. split; [exact E|]. apply get_node_absent; [done|]. cbn [u_node]. intros m Hm.
      apply list_elem_of_lookup in Hm as [i Hi]. rewrite Hg in *. cbn [u_node u_freetop] in *.
      rewrite Hlen in *. assert (length (u_node t) = S (length l)) as Hll by (rewrite Hn, length_app; simpl; lia).
      pose proof (lookup_lt_Some _ _ _ Hi) as Hlt. rewrite Hl', length_app, length_replicate in Hlt.
      destruct (decide (i < length l)%nat) as [Hil|Hil].
      * rewrite Hout, lookup_app_l, Hn, lookup_app_l in Hi by lia. apply Hl. by eapply list_elem_of_lookup_2.
      * specialize (Hin i m ltac:(lia) Hi). rewrite list.Forall_forall in Hf. intros E'.
        destruct (Hf (g_key m) Hin) as [_ Hx]. apply Hx. rewrite E', Hn, fmap_app. apply elem_of_app. right. by left.
Qed.

(** ** Glob matching *)

(** Patterns of literals, [?], [*] and escapes. *)
Inductive glob : bytes -> bytes -> Prop :=
| glob_nil : glob [] []
| glob_any p s c : glob p s -> glob (63 :: p) (c :: s)
| glob_star0 p s : glob p s -> glob (42 :: p) s
| glob_star1 p s c : glob (42 :: p) s -> glob (42 :: p) (c :: s)
| glob_esc p s c : glob p s -> glob (92 :: c :: p) (c :: s)
| glob_lit p s c : c <> 63 -> c <> 42 -> c <> 92 -> glob p s -> glob (c :: p) (c :: s).

Lemma glob_star p s : glob (42 :: p) s <-> exists s1 s2, s = s1 ++ s2 /\ glob p s2.
Proof.
  split.
  - intros H. remember (42 :: p) as q eqn:Eq. induction H; simplify_eq.
    + by exists [], s.
    + destruct (IHglob eq_refl) as (s1 & s2 & -> & Hg). by exists (c :: s1), s2.
  - intros (s1 & s2 & -> & Hg). induction s1; simpl; [by apply glob_star0|by apply glob_star1].
Qed.

Lemma glob_skip_stars p s : glob (42 :: p) s <-> glob (42 :: skip_stars p) s.
Proof.
  induction p as [|c p IH] in s |- *; cbn [skip_stars]; [done|]. destruct (Z.eqb_spec c 42) as [->|]; [|done].
  rewrite <- IH, glob_star. split.
  - intros (s1 & s2 & -> & Hg). apply glob_star in Hg as (s3 & s4 & -> & Hg). apply glob_star.
    exists (s1 ++ s3), s4. by rewrite app_assoc.
  - intros Hg. by exists [], s.
Qed.

Lemma skip_stars_length p : (length (skip_stars p) <= length p)%nat.
Proof. induction p as [|c p IH]; cbn [skip_stars]; [done|]. destruct (c =? 42); simpl; lia. Qed.

Lemma skip_stars_head p : head (skip_stars p) <> Some 42.
Proof. induction p as [|c p IH]; cbn [skip_stars]; [done|]. destruct (Z.eqb_spec c 42); [done|]. simpl. congruence. Qed.

Lemma skip_stars_elem p c : c ∈ skip_stars p -> c ∈ p.
Proof. induction p as [|d p IH]; cbn [skip_stars]; [done|]. destruct (d =? 42); [|done]. intros H. right. by apply IH. Qed.

Lemma glob_nil_inv p : glob p [] -> p = [] \/ head p = Some 42.
Proof. intros H. inversion H; subst; auto. Qed.

(** The loop behind a star tries every nonempty suffix. *)
Definition star_loop (m : bytes -> option bool) : bytes -> option bool :=
  fix star str :=
    match str with
    | [] => Some false
    | _ :: str' => match m str with Some true => Some true | Some false => star str' | None => None end
    end.

Lemma star_loop_spec m (P : bytes -> Prop) str :
  ~ P [] ->
  (forall s, (length s <= length str)%nat -> exists b, m s = Some b /\ (b = true <-> P s)) ->
  exists b, star_loop m str = Some b /\ (b = true <-> exists s1 s2, str = s1 ++ s2 /\ P s2).
Proof.
  intros Hnil. induction str as [|c str IH]; intros Hm; cbn [star_loop].
  - exists false. split; [done|]. split; [done|]. intros (s1 & s2 & E & Hp). symmetry in E.
    by apply app_eq_nil in E as [_ ->].
  - destruct (Hm (c :: str)) as (b & -> & Hb); [done|]. destruct b.
    + exists true. split; [done|]. split; [|done]. intros _. exists [], (c :: str). by rewrite <- Hb.
    + destruct IH as (b & E & Hb'); [intros s Hs; apply Hm; simpl; lia|]. rewrite E.
      exists b. split; [done|]. rewrite Hb'. split.
      * intros (s1 & s2 & -> & Hp). by exists (c :: s1), s2.
      * intros ([|d s1] & s2 & Es & Hp); simpl in Es; [by subst; apply Hb in Hp|]. simplify_eq. by exists s1, s2.
Qed.

Ltac solve_glob := split; [intros Hx; try done; constructor; auto; congruence|intros Hg; inversion Hg; subst; auto; congruence].

Lemma match_glob_spec fuel : forall str pat, 91 ∉ pat -> (length str + length pat < fuel)%nat ->
  exists b, __match_glob fuel str pat false = Some b /\ (b = true <-> glob pat str).
Proof.
  induction fuel as [|f IH]; intros str pat H91 Hf; [lia|].
  destruct (decide (head pat = Some 42)) as [Hs|Hs].
  - destruct pat as [|p pat]; [done|]. injection Hs as ->.
    enough (Hx : exists b, __match_glob (S f) str (42 :: pat) false = Some b /\
      (b = true <-> exists s1 s2, str = s1 ++ s2 /\ glob (skip_stars pat) s2)).
    { destruct Hx as (b & E & Hb). exists b. by rewrite glob_skip_stars, glob_star. }
    pose proof (skip_stars_length pat) as Hlen. pose proof (skip_stars_head pat) as Hhead.
    pose proof (skip_stars_elem pat) as Hel.
    assert (E : __match_glob (S f) str (42 :: pat) false =
      match skip_stars pat with [] => Some true | pat => star_loop (λ s, __match_glob f s pat false) str end)
      by (destruct str; done).
    rewrite E. destruct (skip_stars pat) as [|q pat'] eqn:Eq.
    + exists true. split; [done|]. split; [|done]. intros _. exists str, []. rewrite app_nil_r.
      split; [done|constructor].
    + apply (star_loop_spec _ (glob (q :: pat'))).
      * intros Hg. apply glob_nil_inv in Hg as [?|?]; done.
      * intros s Hls. apply IH; [intros Hx; apply H91; right; by apply Hel|simpl in *; lia].
  - destruct str as [|s str], pat as [|p pat]; cbn [__match_glob head default from_option id].
    + exists true. split; [done|]. split; [constructor|done].
    + destruct (Z.eqb_spec p 42) as [->|Hp]; [done|]. exists false. split; [done|]. split; [done|].
      intros Hg. apply glob_nil_inv in Hg as [?|?]; done.
    + exists false. split; [done|]. split; [done|]. intros Hg; inversion Hg.
    + destruct (Z.eqb_spec p 42) as [->|Hp42]; [done|]. cbn [andb].
      assert (H91' : 91 ∉ pat) by (intros Hx; apply H91; by right).
      destruct (Z.eqb_spec p 63) as [->|Hp63].
      { destruct (IH str pat) as (b & E & Hb); [done|simpl in *; lia|]. exists b. split; [done|]. rewrite Hb.
        solve_glob. }
      destruct (Z.eqb_spec p 91) as [->|Hp91]; [destruct H91; by left|].
      destruct (Z.eqb_spec p 92) as [->|Hp92].
      * destruct pat as [|q pat]; [exists false; split; [done|]; solve_glob|].
        destruct (Z.eqb_spec s q) as [->|Hsq]; [|exists false; split; [done|]; solve_glob].
        destruct (IH str pat) as (b & E & Hb); [intros Hx; apply H91'; by right|simpl in *; lia|].
        exists b. split; [done|]. rewrite Hb. solve_glob.
      * destruct (Z.eqb_spec s p) as [->|Hsp]; [|exists false; split; [done|]; solve_glob].
        destruct (IH str pat) as (b & E & Hb); [done|simpl in *; lia|]. exists b. split; [done|]. rewrite Hb. solve_glob.
Qed.

(** C40.  Glob matching decides the usual relation: on every pattern of literals,
    question marks, stars and escapes (no character class) it terminates without
    undefined behaviour and answers whether the whole string matches. *)
Theorem strglobmatch_decides str pat : 91 ∉ pat ->
  exists b, strglobmatch str pat = Some b /\ (b = true <-> glob pat str).
Proof. intros H. apply match_glob_spec; [done|lia]. Qed.

Lemma strglobmatch_decides_witness : exists b,
  strglobmatch [115; 121; 115; 95; 97; 98] [115; 42; 95; 63; 98] = Some b /\
  (b = true <-> glob [115; 42; 95; 63; 98] [115; 121; 115; 95; 97; 98]).
Proof.
  apply (strglobmatch_decides [115; 121; 115; 95; 97; 98] [115; 42; 95; 63; 98]).
  intros H. apply list_elem_of_In in H. simpl in H. repeat destruct H as [H|H]; discriminate || done.
Defined.

(** A class that is not closed makes the scan pass the end of the pattern,
    where the documentation promises that a broken pattern never matches. *)
Theorem open_class_undefined :
  strglobmatch [97] [91] = ub /\ strglobmatch [97] [91; 33] = ub /\ strglobmatch [97] [91; 200; 45] = ub.
Proof. split_and!; vm_compute; reflexivity. Qed.
