(* ===== verification/Lex.v ===== *)
(** * Lex: the lexical analyzer of the compiler ([userspace/kp_lex.c])

    The scanner reads one character ahead: [l_c] is the current character, or
    [LEX_EOF], and [l_p] the bytes behind it.  Token text is collected in the
    string buffer; names and strings are interned and anchored in the constant
    table of the function being compiled ([kp_parse_keepstr]).

    An operation is undefined ([None]) when it leaves the buffer or the tables,
    an error that ends the compiler ([inl]), or a result with the new state.
    Every loop consumes a character per round, so its fuel is one more than the
    characters left; [None] for exhausted fuel never shows ([LexThm]). *)

From S2P Require Import Prelude Types Bytecode BcWrite Util.
#[local] Open Scope word_scope.

(** ** Tokens *)

Definition tokennames : list string := [
  "trace"; "trace_end"; "argstr"; "probename"; "ffi";
  "arg0"; "arg1"; "arg2"; "arg3"; "arg4"; "arg5"; "arg6"; "arg7";
  "arg8"; "arg9"; "profile"; "tick";
  "pid"; "tid"; "uid"; "cpu"; "execname"; "+=";
  "&&"; "break"; "do"; "else"; "elseif"; "end"; "false";
  "for"; "function"; "goto"; "if"; "in"; "var"; "nil";
  "!"; "||";
  "repeat"; "return"; "then"; "true"; "until"; "while";
  ".."; "..."; "=="; ">="; "<=";
  "!="; "::"; "<number>"; "<name>";
  "<string>"; "<eof>"]%string.

Definition TK_OFS : Z := 256.
Definition TK_incr : Z := TK_OFS + 23.
Definition TK_and : Z := TK_OFS + 24.
Definition TK_not : Z := TK_OFS + 38.
Definition TK_or : Z := TK_OFS + 39.
Definition TK_while : Z := TK_OFS + 45.
Definition TK_concat : Z := TK_OFS + 46.
Definition TK_dots : Z := TK_OFS + 47.
Definition TK_eq : Z := TK_OFS + 48.
Definition TK_ge : Z := TK_OFS + 49.
Definition TK_le : Z := TK_OFS + 50.
Definition TK_ne : Z := TK_OFS + 51.
Definition TK_label : Z := TK_OFS + 52.
Definition TK_number : Z := TK_OFS + 53.
Definition TK_name : Z := TK_OFS + 54.
Definition TK_string : Z := TK_OFS + 55.
Definition TK_eof : Z := TK_OFS + 56.
Definition TK_RESERVED : Z := TK_while - TK_OFS.

Definition LEX_EOF : Z := -1.

(** ** State *)

Record lexstate := mklex {
  l_p : bytes;                 (* from ls->p to ls->pe *)
  l_c : Z;
  l_tok : Z;
  l_lookahead : Z;
  l_tokval : ktap_val;
  l_lookaheadval : ktap_val;
  l_sb : sbuf;
  l_linenumber : Z;
  l_lastline : Z;
  l_strs : strtab;             (* the interned strings, shared by all *)
  l_kt : uttab                 (* ls->fs->kt *)
}.

Definition set_input (ls : lexstate) (p : bytes) (c : Z) : lexstate :=
  mklex p c (l_tok ls) (l_lookahead ls) (l_tokval ls) (l_lookaheadval ls) (l_sb ls)
    (l_linenumber ls) (l_lastline ls) (l_strs ls) (l_kt ls).
Definition set_sb (ls : lexstate) (sb : sbuf) : lexstate :=
  mklex (l_p ls) (l_c ls) (l_tok ls) (l_lookahead ls) (l_tokval ls) (l_lookaheadval ls) sb
    (l_linenumber ls) (l_lastline ls) (l_strs ls) (l_kt ls).
Definition set_lines (ls : lexstate) (line last : Z) : lexstate :=
  mklex (l_p ls) (l_c ls) (l_tok ls) (l_lookahead ls) (l_tokval ls) (l_lookaheadval ls) (l_sb ls)
    line last (l_strs ls) (l_kt ls).
Definition set_tok (ls : lexstate) (tok : Z) (v : ktap_val) : lexstate :=
  mklex (l_p ls) (l_c ls) tok (l_lookahead ls) v (l_lookaheadval ls) (l_sb ls)
    (l_linenumber ls) (l_lastline ls) (l_strs ls) (l_kt ls).
Definition set_lookahead (ls : lexstate) (tok : Z) (v : ktap_val) : lexstate :=
  mklex (l_p ls) (l_c ls) (l_tok ls) tok (l_tokval ls) v (l_sb ls)
    (l_linenumber ls) (l_lastline ls) (l_strs ls) (l_kt ls).
Definition set_strs (ls : lexstate) (t : strtab) (kt : uttab) : lexstate :=
  mklex (l_p ls) (l_c ls) (l_tok ls) (l_lookahead ls) (l_tokval ls) (l_lookaheadval ls) (l_sb ls)
    (l_linenumber ls) (l_lastline ls) t kt.

(** What [kp_err_lex] is called with before the compiler exits. *)
Inductive ErrMsg :=
  | KP_ERR_XLINES | KP_ERR_XLEVELS | KP_ERR_XNUMBER | KP_ERR_XLSTR | KP_ERR_XLCOM | KP_ERR_XSTR
  | KP_ERR_XESC | KP_ERR_XLDELIM | KP_ERR_XTOKEN (tok : bytes) | KP_ERR_XJUMP | KP_ERR_XSLOTS
  | KP_ERR_XLIMC (limit : Z) | KP_ERR_XLIMM (limit : Z) (what : string)
  | KP_ERR_XLIMF (line limit : Z) (what : string) | KP_ERR_XMATCH (what who : bytes) (line : Z)
  | KP_ERR_XFIXUP | KP_ERR_XPARAM | KP_ERR_XAMBIG | KP_ERR_XFUNARG | KP_ERR_XSYMBOL | KP_ERR_XDOTS
  | KP_ERR_XSYNTAX | KP_ERR_XFOR | KP_ERR_XBREAK | KP_ERR_XLUNDEF (name : bytes)
  | KP_ERR_XLDUP (name : bytes) | KP_ERR_XGSCOPE (name var : bytes) | KP_ERR_XEVENTDEF (def : bytes).

Record lexerr := mklexerr { e_tok : option bytes; e_line : Z; e_msg : ErrMsg }.

(** The texts of the messages, with their arguments. *)
Definition quoted (s : bytes) : bytes := byte_string "'" ++ s ++ byte_string "'".
Definition err2msg (em : ErrMsg) : bytes :=
  match em with
  | KP_ERR_XLINES => byte_string "chunk has too many lines"
  | KP_ERR_XLEVELS => byte_string "chunk has too many syntax levels"
  | KP_ERR_XNUMBER => byte_string "malformed number"
  | KP_ERR_XLSTR => byte_string "unfinished long string"
  | KP_ERR_XLCOM => byte_string "unfinished long comment"
  | KP_ERR_XSTR => byte_string "unfinished string"
  | KP_ERR_XESC => byte_string "invalid escape sequence"
  | KP_ERR_XLDELIM => byte_string "invalid long string delimiter"
  | KP_ERR_XTOKEN t => quoted t ++ byte_string " expected"
  | KP_ERR_XJUMP => byte_string "control structure too long"
  | KP_ERR_XSLOTS => byte_string "function or expression too complex"
  | KP_ERR_XLIMC n => byte_string "chunk has more than " ++ print_d n ++ byte_string " local variables"
  | KP_ERR_XLIMM n what => byte_string "main function has more than " ++ print_d n ++ byte_string " " ++ byte_string what
  | KP_ERR_XLIMF line n what =>
      byte_string "function at line " ++ print_d line ++ byte_string " has more than " ++ print_d n ++ byte_string " " ++ byte_string what
  | KP_ERR_XMATCH what who line =>
      quoted what ++ byte_string " expected (to close " ++ quoted who ++ byte_string " at line " ++ print_d line ++ byte_string ")"
  | KP_ERR_XFIXUP => byte_string "function too long for return fixup"
  | KP_ERR_XPARAM => byte_string "<name> or '...' expected"
  | KP_ERR_XAMBIG => byte_string "ambiguous syntax (function call x new statement)"
  | KP_ERR_XFUNARG => byte_string "function arguments expected"
  | KP_ERR_XSYMBOL => byte_string "unexpected symbol"
  | KP_ERR_XDOTS => byte_string "cannot use '...' outside a vararg function"
  | KP_ERR_XSYNTAX => byte_string "syntax error"
  | KP_ERR_XFOR => byte_string "'=' or 'in' expected"
  | KP_ERR_XBREAK => byte_string "no loop to break"
  | KP_ERR_XLUNDEF s => byte_string "undefined label " ++ quoted s
  | KP_ERR_XLDUP s => byte_string "duplicate label " ++ quoted s
  | KP_ERR_XGSCOPE s v => byte_string "<goto " ++ s ++ byte_string "> jumps into the scope of local " ++ quoted v
  | KP_ERR_XEVENTDEF s => byte_string "cannot parse eventdef " ++ quoted s
  end.

(** [vsprintf] into a block of 128 bytes. *)
Definition kp_sprintf (text : bytes) : option bytes :=
  if Z.of_nat (length text) <? 128 then Some text else ub.

(** What the compiler prints for an error before it exits; [src] is the name of the
    chunk.  A message that is too long for its block is undefined behaviour. *)
Definition kp_err_lex (src : bytes) (e : lexerr) : option bytes :=
  msg ← kp_sprintf (err2msg (e_msg e));
  msg ← kp_sprintf (src ++ byte_string ":" ++ print_d (e_line e) ++ byte_string ": " ++ msg);
  msg ← match e_tok e with
        | None => Some msg
        | Some tok => kp_sprintf (msg ++ byte_string " near " ++ quoted tok)
        end;
  Some (err2msg KP_ERR_XSYNTAX ++ byte_string ": " ++ msg ++ [10]).

Definition lexm (A : Type) : Type := lexstate -> option (lexerr + A * lexstate).

Definition lret {A} (x : A) : lexm A := λ ls, Some (inr (x, ls)).
Definition lbind {A B} (m : lexm A) (f : A -> lexm B) : lexm B := λ ls,
  match m ls with
  | None => None
  | Some (inl e) => Some (inl e)
  | Some (inr (x, ls')) => f x ls'
  end.
Definition lget : lexm lexstate := λ ls, Some (inr (ls, ls)).
Definition lput (ls : lexstate) : lexm unit := λ _, Some (inr (tt, ls)).
Definition lub {A} : lexm A := λ _, None.
Definition lopt {A} (o : option A) : lexm A := λ ls, match o with Some x => Some (inr (x, ls)) | None => None end.

Declare Scope lex_scope.
Delimit Scope lex_scope with lex.
Notation "x <~ m ;; f" := (lbind m (λ x, f)) (at level 100, m at next level, right associativity) : lex_scope.
Notation "m ;;; f" := (lbind m (λ _, f)) (at level 100, right associativity) : lex_scope.
#[local] Open Scope lex_scope.

(** ** Characters and the token buffer *)

(** The current character. *)
Definition cur : lexm Z := λ ls, Some (inr (l_c ls, ls)).

Definition lex_iseol (c : Z) : bool := (c =? 10) || (c =? 13).

Definition lex_next : lexm Z := λ ls,
  let ls := match l_p ls with
            | b :: p => set_input ls p b
            | [] => set_input ls [] LEX_EOF
            end in
  Some (inr (l_c ls, ls)).

Definition kp_buf_reset (sb : sbuf) : sbuf := mksbuf [] (sb_size sb).
Definition kp_buf_init : sbuf := mksbuf [] 200.

Definition reset : lexm unit := λ ls, Some (inr (tt, set_sb ls (kp_buf_reset (l_sb ls)))).

Definition lex_save (c : Z) : lexm unit := λ ls,
  sb ← kp_buf_putb (l_sb ls) c; Some (inr (tt, set_sb ls sb)).

Definition lex_savenext : lexm Z := c <~ cur ;; lex_save c ;;; lex_next.

(** The C string at the start of a buffer; undefined without a terminator. *)
Fixpoint cstr (b : bytes) : option bytes :=
  match b with
  | [] => ub
  | c :: b' => if c =? 0 then Some [] else cons c <$> cstr b'
  end.

(** Undefined for numbers that are neither tokens nor characters. *)
Definition kp_lex_token2str (tok : Z) : option bytes :=
  if tok >? TK_OFS then byte_string <$> tokennames !! Z.to_nat (tok - TK_OFS - 1)
  else if negb ((-1 <=? tok) && (tok <=? 255)) then ub
  else if negb (kp_char_iscntrl tok) then Some [u8 tok]
  else Some (byte_string "char(" ++ print_d tok ++ byte_string ")").

(** An error ends with the call of [kp_err_lex], whose arguments but the name of the
    chunk are the result; the call is made where the compiler as a whole is modelled. *)
Definition kp_lex_error {A} (tok : Z) (em : ErrMsg) : lexm A :=
  tokstr <~ (if tok =? 0 then lret None
             else if (tok =? TK_name) || (tok =? TK_string) || (tok =? TK_number) then
               lex_save 0 ;;; ls <~ lget ;; s <~ lopt (cstr (sb_data (l_sb ls))) ;; lret (Some s)
             else s <~ lopt (kp_lex_token2str tok) ;; lret (Some s)) ;;
  λ ls, Some (inl (mklexerr tokstr (l_linenumber ls) em)).

(** Errors that name the token scanned before. *)
Definition lex_error_here {A} (em : ErrMsg) : lexm A := ls <~ lget ;; kp_lex_error (l_tok ls) em.

Definition lex_newline : lexm unit :=
  old <~ cur ;;
  c <~ lex_next ;;
  (if lex_iseol c && negb (c =? old) then lex_next ;;; lret tt else lret tt) ;;;
  ls <~ lget ;;
  lput (set_lines ls (l_linenumber ls + 1) (l_lastline ls)) ;;;
  if KP_MAX_LINE <=? l_linenumber ls + 1 then lex_error_here KP_ERR_XLINES else lret tt.

(** Characters left. *)
Definition weight (ls : lexstate) : nat := length (l_p ls) + (if (l_c ls =? LEX_EOF)%Z then 0 else 1).
Definition with_fuel {A} (f : nat -> lexm A) : lexm A := λ ls, f (S (weight ls)) ls.

(** ** Numbers *)

Definition digit_val (c : Z) : option Z :=
  if (48 <=? c) && (c <=? 57) then Some (c - 48)
  else if (97 <=? c) && (c <=? 122) then Some (c - 87)
  else if (65 <=? c) && (c <=? 90) then Some (c - 55)
  else None.

(** The digits of a base at the start of a string: their value and number. *)
Fixpoint scan_digits (base : Z) (s : bytes) (acc : Z) (n : nat) : Z * nat :=
  match s with
  | [] => (acc, n)
  | c :: s' =>
      match digit_val c with
      | Some d => if d <? base then scan_digits base s' (acc * base + d) (S n) else (acc, n)
      | None => (acc, n)
      end
  end.

Fixpoint skip_spaces (s : bytes) : bytes :=
  match s with
  | c :: s' => if isspace c then skip_spaces s' else s
  | [] => []
  end.

Definition ULONG_MAX : Z := 2 ^ 64 - 1.

Definition is_hex_digit (c : Z) : bool := match digit_val c with Some d => d <? 16 | None => false end.

(** [strtoul(s, &endptr, 0)] of the C library: the value and the rest of the
    string at [endptr]; none when there is no number. *)
Definition strtoul0 (s : bytes) : option (Z * bytes) :=
  let s1 := skip_spaces s in
  let '(neg, s2) :=
    match s1 with
    | c :: s' => if c =? 45 then (true, s') else if c =? 43 then (false, s') else (false, s1)
    | [] => (false, s1)
    end in
  let '(base, s3) :=
    match s2 with
    | z :: x :: h :: _ =>
        if z =? 48 then
          if (x .| 32 =? 120) && is_hex_digit h then (16, drop 2 s2) else (8, s2)
        else (10, s2)
    | z :: _ => if z =? 48 then (8, s2) else (10, s2)
    | [] => (10, s2)
    end in
  let '(v, n) := scan_digits base s3 0 0 in
  match n with
  | O => None
  | S _ => Some (if v >? ULONG_MAX then ULONG_MAX else if neg then u64 (- v) else v, drop n s3)
  end.

(** [s] is the C string at the start of the buffer, [len] its expected length. *)
Definition kp_str2d (s : bytes) (len : Z) : option Z :=
  if existsb (λ c, (c =? 110) || (c =? 78)) s then None
  else
    '(v, e) ← strtoul0 s;
    let e := skip_spaces e in
    if Z.of_nat (length s) - Z.of_nat (length e) =? len then Some (s64 v) else None.

Fixpoint number_loop (fuel : nat) (c xp : Z) : lexm unit :=
  match fuel with
  | O => lub
  | S f =>
      ch <~ cur ;;
      if kp_char_isident ch || (ch =? 46) || (((ch =? 45) || (ch =? 43)) && (c .| 0x20 =? xp))
      then lex_savenext ;;; number_loop f ch xp
      else lret tt
  end.

(** Terminate the text and convert it. *)
Definition number_end : lexm ktap_val :=
  lex_save 0 ;;;
  ls <~ lget ;;
  s <~ lopt (cstr (sb_data (l_sb ls))) ;;
  match kp_str2d s (sbuflen (l_sb ls) - 1) with
  | None => lex_error_here KP_ERR_XNUMBER
  | Some n => lret (set_number n)
  end.

Definition lex_number : lexm ktap_val :=
  c <~ cur ;;
  xp <~ (if c =? 48 then n <~ lex_savenext ;; lret (if n .| 0x20 =? 120 then 112 else 101) else lret 101) ;;
  with_fuel (λ f, number_loop f c xp) ;;;
  number_end.

(** ** Strings *)

(** Intern a part of the buffer and anchor it in the constant table. *)
Definition kp_parse_keepstr (ofs len : Z) : lexm Z := λ ls,
  let d := sb_data (l_sb ls) in
  if (0 <=? ofs) && (0 <=? len) && (ofs + len <=? sbuflen (l_sb ls)) then
    '(s, strs) ← Util.kp_str_new (l_strs ls) (take (Z.to_nat len) (drop (Z.to_nat ofs) d));
    '(i, kt) ← Util.kp_tab_set (l_kt ls) (set_string s);
    n ← u_node kt !! i;
    kt ← (if is_nil (g_val n) then put_node kt i (λ n, mkutnode (set_bool (g_val n) 1) (g_key n)) else Some kt);
    Some (inr (s, set_strs ls strs kt))
  else ub.

Fixpoint skipeq_loop (fuel : nat) (count : Z) : lexm Z :=
  match fuel with
  | O => lub
  | S f => c <~ lex_savenext ;; if c =? 61 then skipeq_loop f (count + 1) else lret count
  end.

Definition lex_skipeq : lexm Z :=
  s <~ cur ;;
  count <~ with_fuel (λ f, skipeq_loop f 0) ;;
  c <~ cur ;;
  lret (if c =? s then count else - count - 1).

(** [tv] says whether there is a value to set: a string and not a comment. *)
Fixpoint longstring_loop (fuel : nat) (tv : bool) (sep : Z) : lexm unit :=
  match fuel with
  | O => lub
  | S f =>
      c <~ cur ;;
      if c =? LEX_EOF then kp_lex_error TK_eof (if tv then KP_ERR_XLSTR else KP_ERR_XLCOM)
      else if c =? 93 then
        n <~ lex_skipeq ;;
        if n =? sep then lex_savenext ;;; lret tt else longstring_loop f tv sep
      else if lex_iseol c then
        lex_save 10 ;;; lex_newline ;;;
        (if tv then lret tt else reset) ;;;
        longstring_loop f tv sep
      else lex_savenext ;;; longstring_loop f tv sep
  end.

Definition lex_longstring (tv : bool) (sep : Z) : lexm (option ktap_val) :=
  c <~ lex_savenext ;;
  (if lex_iseol c then lex_newline else lret tt) ;;;
  with_fuel (λ f, longstring_loop f tv sep) ;;;
  if tv then
    ls <~ lget ;;
    str <~ kp_parse_keepstr (2 + sep) (sbuflen (l_sb ls) - 2 * (2 + sep)) ;;
    lret (Some (set_string str))
  else lret None.

(** White space behind [\z]. *)
Fixpoint space_loop (fuel : nat) : lexm unit :=
  match fuel with
  | O => lub
  | S f =>
      c <~ cur ;;
      if kp_char_isspace c then
        if lex_iseol c then lex_newline ;;; space_loop f else lex_next ;;; space_loop f
      else lret tt
  end.

Definition err_xesc : lexm unit := kp_lex_error TK_string KP_ERR_XESC.

(** One digit of a hexadecimal escape. *)
Definition hex_digit : lexm Z :=
  c <~ lex_next ;;
  if kp_char_isdigit c then lret (c .& 15)
  else if kp_char_isxdigit c then lret (c .& 15 + 9)
  else err_xesc ;;; lret 0.

(** Decimal escape: up to three digits, the first one current. *)
Definition dec_escape (c : Z) : lexm unit :=
  let c := c - 48 in
  d <~ lex_next ;;
  c <~ (if kp_char_isdigit d then
          let c := c * 10 + (d - 48) in
          d <~ lex_next ;;
          if kp_char_isdigit d then
            let c := c * 10 + (d - 48) in
            (if c >? 255 then err_xesc else lret tt) ;;;
            lex_next ;;; lret c
          else lret c
        else lret c) ;;
  lex_save c.

(** The escape behind a backslash, its first character read. *)
Definition lex_escape : lexm unit :=
  c <~ lex_next ;;
  let put c := lex_save c ;;; lex_next ;;; lret tt in
  if c =? 97 then put 7
  else if c =? 98 then put 8
  else if c =? 102 then put 12
  else if c =? 110 then put 10
  else if c =? 114 then put 13
  else if c =? 116 then put 9
  else if c =? 118 then put 11
  else if c =? 120 then h <~ hex_digit ;; l <~ hex_digit ;; put (h ≪ 4 + l)
  else if c =? 122 then lex_next ;;; with_fuel space_loop
  else if lex_iseol c then lex_save 10 ;;; lex_newline
  else if (c =? 92) || (c =? 34) || (c =? 39) then put c
  else if c =? LEX_EOF then lret tt
  else if negb (kp_char_isdigit c) then err_xesc
  else dec_escape c.

Fixpoint string_loop (fuel : nat) (delim : Z) : lexm unit :=
  match fuel with
  | O => lub
  | S f =>
      c <~ cur ;;
      if c =? delim then lret tt
      else if c =? LEX_EOF then kp_lex_error TK_eof KP_ERR_XSTR
      else if lex_iseol c then kp_lex_error TK_string KP_ERR_XSTR
      else if c =? 92 then lex_escape ;;; string_loop f delim
      else lex_savenext ;;; string_loop f delim
  end.

Definition lex_string : lexm ktap_val :=
  delim <~ cur ;;
  lex_savenext ;;;
  with_fuel (λ f, string_loop f delim) ;;;
  lex_savenext ;;;
  ls <~ lget ;;
  str <~ kp_parse_keepstr 1 (sbuflen (l_sb ls) - 2) ;;
  lret (set_string str).

Fixpoint blank_loop (fuel : nat) : lexm unit :=
  match fuel with
  | O => lub
  | S f => c <~ cur ;; if c =? 32 then lex_next ;;; blank_loop f else lret tt
  end.

Fixpoint until_loop (fuel : nat) (c : Z) : lexm unit :=
  match fuel with
  | O => lub
  | S f =>
      ch <~ lex_savenext ;;
      if negb (ch =? c) && negb (ch =? LEX_EOF) then until_loop f c else lret tt
  end.

(** The error for a missing delimiter is undefined: its message expects a string
    and is given the character. *)
Definition kp_lex_read_string_until (c : Z) : lexm unit :=
  reset ;;;
  with_fuel blank_loop ;;;
  with_fuel (λ f, until_loop f c) ;;;
  ch <~ cur ;;
  (if negb (ch =? c) then lub else lret tt) ;;;
  ls <~ lget ;;
  ts <~ kp_parse_keepstr 0 (sbuflen (l_sb ls)) ;;
  ls <~ lget ;;
  lput (set_tok ls TK_string (set_string ts)).

(** ** The scanner *)

Fixpoint ident_loop (fuel : nat) : lexm unit :=
  match fuel with
  | O => lub
  | S f => c <~ lex_savenext ;; if kp_char_isident c then ident_loop f else lret tt
  end.

(** The rest of the line. *)
Fixpoint line_loop (fuel : nat) : lexm unit :=
  match fuel with
  | O => lub
  | S f => c <~ cur ;; if negb (lex_iseol c) && negb (c =? LEX_EOF) then lex_next ;;; line_loop f else lret tt
  end.

Definition lex_ident : lexm (Z * ktap_val) :=
  with_fuel ident_loop ;;;
  ls <~ lget ;;
  s <~ kp_parse_keepstr 0 (sbuflen (l_sb ls)) ;;
  ls <~ lget ;;
  o <~ lopt (str_obj (l_strs ls) s) ;;
  lret (if us_reserved o >? 0 then TK_OFS + us_reserved o else TK_name, set_string s).

(** A token of one character, or of two when [second] follows. *)
Definition two (second one both : Z) (tv : ktap_val) : lexm (Z * ktap_val) :=
  c <~ lex_next ;;
  if c =? second then lex_next ;;; lret (both, tv) else lret (one, tv).

(** [tv] is the value the caller passes and the value it finds afterwards. *)
Fixpoint scan_loop (fuel : nat) (tv : ktap_val) : lexm (Z * ktap_val) :=
  match fuel with
  | O => lub
  | S f =>
      c <~ cur ;;
      if kp_char_isident c then
        if kp_char_isdigit c then n <~ lex_number ;; lret (TK_number, n) else lex_ident
      else if lex_iseol c then lex_newline ;;; scan_loop f tv
      else if (c =? 32) || (c =? 9) || (c =? 11) || (c =? 12) then lex_next ;;; scan_loop f tv
      else if c =? 35 then with_fuel line_loop ;;; scan_loop f tv
      else if c =? 45 then
        c <~ lex_next ;;
        if negb (c =? 45) then lret (45, tv)
        else
          c <~ lex_next ;;
          sep <~ (if c =? 91 then sep <~ lex_skipeq ;; reset ;;; lret sep else lret (-1)) ;;
          if 0 <=? sep then lex_longstring false sep ;;; reset ;;; scan_loop f tv
          else with_fuel line_loop ;;; scan_loop f tv
      else if c =? 91 then
        sep <~ lex_skipeq ;;
        if 0 <=? sep then v <~ lex_longstring true sep ;; lret (TK_string, default tv v)
        else if sep =? -1 then lret (91, tv)
        else kp_lex_error TK_string KP_ERR_XLDELIM
      else if c =? 43 then two 61 43 TK_incr tv
      else if c =? 61 then two 61 61 TK_eq tv
      else if c =? 60 then two 61 60 TK_le tv
      else if c =? 62 then two 61 62 TK_ge tv
      else if c =? 33 then two 61 TK_not TK_ne tv
      else if c =? 58 then two 58 58 TK_label tv
      else if (c =? 34) || (c =? 39) then v <~ lex_string ;; lret (TK_string, v)
      else if c =? 46 then
        c <~ lex_savenext ;;
        if c =? 46 then two 46 TK_concat TK_dots tv
        else if negb (kp_char_isdigit c) then lret (46, tv)
        else n <~ lex_number ;; lret (TK_number, n)
      else if c =? LEX_EOF then lret (TK_eof, tv)
      else if c =? 38 then two 38 38 TK_and tv
      else if c =? 124 then two 124 124 TK_or tv
      else lex_next ;;; lret (c, tv)
  end.

Definition lex_scan (tv : ktap_val) : lexm (Z * ktap_val) := reset ;;; with_fuel (λ f, scan_loop f tv).

(** ** Interface of the lexer *)

Fixpoint header_loop (fuel : nat) : lexm unit :=
  match fuel with
  | O => lub
  | S f =>
      c <~ lex_next ;;
      if c =? LEX_EOF then lret tt
      else if negb (lex_iseol c) then header_loop f else lex_newline
  end.

(** [str] is the source with its terminator. *)
Definition kp_lex_setup (str : bytes) : lexm unit :=
  s <~ lopt (cstr str) ;;
  ls <~ lget ;;
  lput (set_lines (set_lookahead (set_input ls s (l_c ls)) TK_eof (l_lookaheadval ls)) 1 1) ;;;
  c <~ lex_next ;;
  ls <~ lget ;;
  c <~ (match l_p ls with
        | b0 :: b1 :: p =>
            if (c =? 0xef) && (b0 =? 0xbb) && (b1 =? 0xbf) then lput (set_input ls p c) ;;; lex_next
            else lret c
        | _ => lret c
        end) ;;
  if c =? 35 then with_fuel header_loop else lret tt.

Definition kp_lex_next : lexm unit :=
  ls <~ lget ;;
  lput (set_lines ls (l_linenumber ls) (l_linenumber ls)) ;;;
  if l_lookahead ls =? TK_eof then
    r <~ lex_scan (l_tokval ls) ;;
    ls <~ lget ;;
    lput (set_tok ls (fst r) (snd r))
  else
    ls <~ lget ;;
    lput (set_lookahead (set_tok ls (l_lookahead ls) (l_lookaheadval ls)) TK_eof (l_lookaheadval ls)).

Definition kp_lex_lookahead : lexm Z :=
  ls <~ lget ;;
  r <~ lex_scan (l_lookaheadval ls) ;;
  ls <~ lget ;;
  lput (set_lookahead ls (fst r) (snd r)) ;;; lret (fst r).

(** The reserved words are the first interned strings. *)
Fixpoint init_words (t : strtab) (ws : list string) (i : Z) : option strtab :=
  match ws with
  | [] => Some t
  | w :: ws' =>
      '(s, t) ← Util.kp_str_new t (byte_string w);
      init_words (set_reserved t s (u8 (i + 1))) ws' (i + 1)
  end.

Definition kp_lex_init (t : strtab) : option strtab := init_words t (take (Z.to_nat TK_RESERVED) tokennames) 0.
