(* ===== verification/LexThm.v ===== *)
(** * LexThm: the scanner is total

    Operations are reasoned about with a weakest precondition that excludes
    undefined behaviour and exhausted fuel and lets the caller choose what an
    error may be. *)

From S2P Require Import Prelude Types Bytecode BcWrite Util UtilThm Lex.
#[local] Open Scope word_scope.
#[local] Open Scope lex_scope.

(** ** Weakest preconditions *)

Definition wp {A} (m : lexm A) (E : lexerr -> Prop) (Q : A -> lexstate -> Prop) (ls : lexstate) : Prop :=
  match m ls with
  | None => False
  | Some (inl e) => E e
  | Some (inr (x, ls')) => Q x ls'
  end.

Lemma wp_ret {A} (x : A) E Q ls : Q x ls -> wp (lret x) E Q ls.
Proof. done. Qed.

Lemma wp_bind {A B} (m : lexm A) (f : A -> lexm B) E Q ls :
  wp m E (λ x, wp (f x) E Q) ls -> wp (lbind m f) E Q ls.
Proof. unfold wp, lbind. by destruct (m ls) as [[e|[x ls']]|]. Qed.

Lemma wp_mono {A} (m : lexm A) (E : lexerr -> Prop) (Q Q' : A -> lexstate -> Prop) ls :
  wp m E Q ls -> (forall x ls', Q x ls' -> Q' x ls') -> wp m E Q' ls.
Proof. unfold wp. destruct (m ls) as [[e|[x ls']]|]; auto. Qed.

Lemma wp_get E (Q : lexstate -> lexstate -> Prop) ls : Q ls ls -> wp lget E Q ls.
Proof. done. Qed.
Lemma wp_put ls' E (Q : unit -> lexstate -> Prop) ls : Q tt ls' -> wp (lput ls') E Q ls.
Proof. done. Qed.
Lemma wp_cur E (Q : Z -> lexstate -> Prop) ls : Q (l_c ls) ls -> wp cur E Q ls.
Proof. done. Qed.
Lemma wp_opt {A} (o : option A) x E (Q : A -> lexstate -> Prop) ls : o = Some x -> Q x ls -> wp (lopt o) E Q ls.
Proof. by intros ->. Qed.
Lemma wp_fuel {A} (f : nat -> lexm A) E Q ls : wp (f (S (weight ls))) E Q ls -> wp (with_fuel f) E Q ls.
Proof. done. Qed.
Lemma wp_reset E (Q : unit -> lexstate -> Prop) ls :
  Q tt (set_sb ls (kp_buf_reset (l_sb ls))) -> wp reset E Q ls.
Proof. done. Qed.

(** ** Well-formed states *)

Definition sb_ok (sb : sbuf) : Prop := 1 <= sb_size sb /\ sbuflen sb <= sb_size sb.

Definition tok_ok (t : Z) : Prop := 0 <= t <= 255 \/ 257 <= t <= TK_eof.

(** The number a word is reserved with, or 0. *)
Fixpoint word_index (ws : list string) (w : bytes) (i : Z) : Z :=
  match ws with
  | [] => 0
  | x :: ws' => if decide (byte_string x = w) then i else word_index ws' w (i + 1)
  end.
Definition reserved_words : list string := take 45 tokennames.
Definition reserved_of (w : bytes) : Z := word_index reserved_words w 1.

(** Interned strings carry the number of their word; all words are there. *)
Record words_ok (t : strtab) : Prop := {
  wo_strs : strtab_ok t;
  wo_res : forall a s, str_obj t a = Some s -> us_reserved s = reserved_of (us_bytes s);
  wo_all : forall w, reserved_of w <> 0 -> exists a, bytes_of t a = Some w
}.

Definition kt_ok (kt : uttab) : Prop := (u_freetop kt <= length (u_node kt) /\ 0 < length (u_node kt))%nat.

Record lex_ok (ls : lexstate) : Prop := {
  lo_c : is_char (l_c ls);
  lo_p : Forall is_byte (l_p ls);
  lo_eof : l_c ls = LEX_EOF -> l_p ls = [];
  lo_sb : sb_ok (l_sb ls);
  lo_tok : tok_ok (l_tok ls);
  lo_la : tok_ok (l_lookahead ls);
  lo_line : 0 <= l_linenumber ls < KP_MAX_LINE;
  lo_words : words_ok (l_strs ls);
  lo_kt : kt_ok (l_kt ls)
}.

(** The input not yet consumed. *)
Definition rest (ls : lexstate) : bytes := if l_c ls =? LEX_EOF then l_p ls else l_c ls :: l_p ls.

Lemma weight_rest ls : weight ls = length (rest ls).
Proof. unfold weight, rest. destruct (l_c ls =? LEX_EOF); simpl; lia. Qed.

(** What scanning keeps: input is consumed from the front, lines are counted up,
    strings stay, and the tokens handed out are not touched. *)
Record ext (ls ls' : lexstate) : Prop := {
  ex_ok : lex_ok ls';
  ex_rest : rest ls' `suffix_of` rest ls;
  ex_line : l_linenumber ls <= l_linenumber ls';
  ex_strs : forall b s, str_obj (l_strs ls) b = Some s -> str_obj (l_strs ls') b = Some s;
  ex_tok : l_tok ls' = l_tok ls /\ l_lookahead ls' = l_lookahead ls /\ l_tokval ls' = l_tokval ls /\
    l_lookaheadval ls' = l_lookaheadval ls /\ l_lastline ls' = l_lastline ls
}.

Lemma lext_refl ls : lex_ok ls -> ext ls ls.
Proof. intros. by split. Qed.

Lemma lext_trans ls1 ls2 ls3 : ext ls1 ls2 -> ext ls2 ls3 -> ext ls1 ls3.
Proof.
  intros [_ Hr1 Hl1 Hs1 (?&?&?&?&?)] [I Hr2 Hl2 Hs2 (?&?&?&?&?)].
  split; [done|by etrans|lia| |split_and!; congruence]. intros b s Hb. by apply Hs2, Hs1.
Qed.

Lemma ext_weight ls ls' : ext ls ls' -> (weight ls' <= weight ls)%nat.
Proof. intros H. rewrite !weight_rest. apply suffix_length, H. Qed.

(** ** Elementary steps as functions of the state *)

Definition next (ls : lexstate) : lexstate :=
  match l_p ls with b :: p => set_input ls p b | [] => set_input ls [] LEX_EOF end.

Definition save_sb (sb : sbuf) (c : Z) : sbuf :=
  mksbuf (sb_data sb ++ [u8 c]) (sb_size (kp_buf_more sb 1)).
Definition save (c : Z) (ls : lexstate) : lexstate := set_sb ls (save_sb (l_sb ls) c).

Lemma kp_buf_putb_save sb c : sb_ok sb -> kp_buf_putb sb c = Some (save_sb sb c) /\ sb_ok (save_sb sb c).
Proof.
  intros [H1 H2]. unfold kp_buf_putb, kp_buf_wmem, save_sb, sb_ok, sbuflen in *. cbn [sb_data sb_size length].
  unfold kp_buf_more, sbufleft, sbuflen. destruct (Z.gtb_spec 1 (sb_size sb - Z.of_nat (length (sb_data sb))));
    cbn [sb_data sb_size]; rewrite length_app; cbn [length];
    (rewrite (proj2 (Z.leb_le _ _)) by lia); (split; [done|lia]).
Qed.

Lemma wp_next E (Q : Z -> lexstate -> Prop) ls : Q (l_c (next ls)) (next ls) -> wp lex_next E Q ls.
Proof. unfold wp, lex_next, next. done. Qed.

Lemma wp_save c E (Q : unit -> lexstate -> Prop) ls : sb_ok (l_sb ls) -> Q tt (save c ls) -> wp (lex_save c) E Q ls.
Proof. intros Hs HQ. unfold wp, lex_save. destruct (kp_buf_putb_save _ c Hs) as [-> _]. done. Qed.

Lemma wp_savenext E (Q : Z -> lexstate -> Prop) ls : sb_ok (l_sb ls) ->
  Q (l_c (next (save (l_c ls) ls))) (next (save (l_c ls) ls)) -> wp lex_savenext E Q ls.
Proof.
  intros Hs HQ. unfold lex_savenext. apply wp_bind, wp_cur, wp_bind, wp_save; [done|]. by apply wp_next.
Qed.

Lemma byte_not_eof b : is_byte b -> b <> LEX_EOF.
Proof. unfold is_byte, LEX_EOF. lia. Qed.

Lemma rest_next ls : lex_ok ls -> l_c ls <> LEX_EOF -> rest ls = l_c ls :: rest (next ls).
Proof.
  intros I H. unfold rest at 1. rewrite (proj2 (Z.eqb_neq _ _) H). f_equal. unfold rest, next.
  pose proof (lo_p _ I) as Hp. destruct (l_p ls) as [|b p]; simpl; [done|].
  apply list.Forall_cons in Hp as [Hb _]. by rewrite (proj2 (Z.eqb_neq _ _) (byte_not_eof b Hb)).
Qed.

Lemma rest_eof ls : lex_ok ls -> l_c ls = LEX_EOF -> rest ls = [].
Proof. intros I H. unfold rest. rewrite (proj2 (Z.eqb_eq _ _) H). by apply lo_eof. Qed.

Lemma rest_not_nil ls c r : lex_ok ls -> rest ls = c :: r -> l_c ls = c /\ c <> LEX_EOF /\ rest (next ls) = r.
Proof.
  intros I H. destruct (Z.eq_dec (l_c ls) LEX_EOF) as [E|E]; [by rewrite rest_eof in H|].
  rewrite rest_next in H by done. injection H as <- <-. done.
Qed.

Lemma lex_ok_next ls : lex_ok ls -> lex_ok (next ls).
Proof.
  intros [Hc Hp He Hs Ht Hl Hn Hw Hk]. unfold next. destruct (l_p ls) as [|b p] eqn:Ep.
  - by split.
  - apply list.Forall_cons in Hp as [Hb Hp]. split; cbn; try done.
    + unfold is_char, is_byte in *. lia.
    + intros E. by apply byte_not_eof in Hb.
Qed.

Lemma ext_next ls : lex_ok ls -> ext ls (next ls).
Proof.
  intros I. split; [by apply lex_ok_next|..].
  - destruct (Z.eq_dec (l_c ls) LEX_EOF) as [E|E].
    + unfold next. rewrite (lo_eof _ I E). unfold rest. simpl. rewrite (lo_eof _ I E). apply suffix_nil.
    + rewrite (rest_next ls) by done. apply suffix_cons_r. done.
  - unfold next. destruct (l_p ls); simpl; lia.
  - unfold next. by destruct (l_p ls).
  - unfold next. by destruct (l_p ls).
Qed.

Lemma ext_sb ls sb : lex_ok ls -> sb_ok sb -> ext ls (set_sb ls sb).
Proof. intros [] Hs. by split. Qed.

Lemma ext_save c ls : lex_ok ls -> ext ls (save c ls).
Proof. intros I. apply ext_sb; [done|]. apply kp_buf_putb_save, I. Qed.

Lemma ext_reset ls : lex_ok ls -> ext ls (set_sb ls (kp_buf_reset (l_sb ls))).
Proof.
  intros I. apply ext_sb; [done|]. destruct (lo_sb _ I). split; [done|]. unfold sbuflen; simpl. lia.
Qed.

Definition savenext (ls : lexstate) : lexstate := next (save (l_c ls) ls).

Lemma ext_savenext ls : lex_ok ls -> ext ls (savenext ls).
Proof.
  intros I. assert (H := ext_save (l_c ls) ls I). eapply lext_trans; [exact H|]. apply ext_next, H.
Qed.

Lemma rest_savenext ls : rest (savenext ls) = rest (next ls).
Proof. unfold savenext, rest, next, save. simpl. by destruct (l_p ls). Qed.

Lemma weight_next ls : lex_ok ls -> l_c ls <> LEX_EOF -> weight ls = S (weight (next ls)).
Proof. intros I H. rewrite !weight_rest, rest_next by done. done. Qed.

Lemma weight_savenext ls : lex_ok ls -> l_c ls <> LEX_EOF -> weight ls = S (weight (savenext ls)).
Proof. intros I H. rewrite weight_next, !weight_rest, rest_savenext by done. done. Qed.

Lemma sb_next ls : l_sb (next ls) = l_sb ls.
Proof. unfold next. by destruct (l_p ls). Qed.

Lemma sb_savenext ls : sb_data (l_sb (savenext ls)) = sb_data (l_sb ls) ++ [u8 (l_c ls)].
Proof. unfold savenext. by rewrite sb_next. Qed.

(** ** Errors, line ends, interning *)

Ltac wp_pure :=
  repeat match goal with
  | |- wp (lbind _ _) _ _ _ => apply wp_bind
  | |- wp cur _ _ _ => apply wp_cur
  | |- wp lget _ _ _ => apply wp_get
  | |- wp (lret _) _ _ _ => apply wp_ret
  | |- wp (with_fuel _) _ _ _ => apply wp_fuel
  | |- wp reset _ _ _ => apply wp_reset
  | |- wp (lput _) _ _ _ => apply wp_put
  | |- wp lex_next _ _ _ => apply wp_next
  | |- wp (λ _, _) _ _ _ => fail 1
  | _ => progress cbv beta
  end.

Lemma cstr_terminated b : exists s, cstr (b ++ [0]) = Some s.
Proof.
  induction b as [|c b [s IH]]; cbn [app cstr]; [by exists []|]. rewrite IH. destruct (c =? 0); by eexists.
Qed.

Lemma token2str_ok t : tok_ok t -> exists s, kp_lex_token2str t = Some s.
Proof.
  unfold tok_ok, kp_lex_token2str, TK_eof, TK_OFS. intros Ht. destruct (Z.gtb_spec t 256).
  - destruct (lookup_lt_is_Some_2 tokennames (Z.to_nat (t - 256 - 1))) as [s ->]; [|by eexists].
    change (length tokennames) with 56%nat. lia.
  - rewrite (proj2 (Z.leb_le (-1) t)), (proj2 (Z.leb_le t 255)) by lia. simpl. destruct (negb _); by eexists.
Qed.

Lemma wp_error {A} tok em (E : lexerr -> Prop) (Q : A -> lexstate -> Prop) ls :
  tok_ok tok -> sb_ok (l_sb ls) -> (forall s, E (mklexerr s (l_linenumber ls) em)) ->
  wp (kp_lex_error tok em) E Q ls.
Proof.
  intros Ht Hs HE. unfold kp_lex_error. apply wp_bind. destruct (tok =? 0); [by apply wp_ret, HE|].
  destruct (_ || _ || _).
  - apply wp_bind, wp_save; [done|]. wp_pure. cbn [save save_sb l_sb set_sb sb_data].
    destruct (cstr_terminated (sb_data (l_sb ls))) as [s Hc]. eapply wp_opt; [exact Hc|]. wp_pure. apply HE.
  - destruct (token2str_ok tok Ht) as [s Hc]. wp_pure. eapply wp_opt; [exact Hc|]. wp_pure. apply HE.
Qed.

(** The scanner has messages of its own, and a line number of at most ten digits. *)
Definition scanmsg (em : ErrMsg) : bool :=
  match em with
  | KP_ERR_XLINES | KP_ERR_XNUMBER | KP_ERR_XLSTR | KP_ERR_XLCOM | KP_ERR_XSTR | KP_ERR_XESC | KP_ERR_XLDELIM => true
  | _ => false
  end.
Definition scanerr (e : lexerr) : Prop := scanmsg (e_msg e) = true /\ 0 <= e_line e <= KP_MAX_LINE.

Lemma scanerr_at s em ls : lex_ok ls -> scanmsg em = true -> scanerr (mklexerr s (l_linenumber ls) em).
Proof. intros I Hm. split; [done|]. pose proof (lo_line _ I). simpl. lia. Qed.

Ltac scan_err := intros ?; apply scanerr_at; try done; try by match goal with |- scanmsg (if ?b then _ else _) = _ => destruct b end.

Lemma is_eol_not_eof c : lex_iseol c = true -> c <> LEX_EOF.
Proof. intros H ->. done. Qed.

Lemma wp_newline ls : lex_ok ls -> lex_iseol (l_c ls) = true ->
  wp lex_newline scanerr (λ _ ls', ext ls ls' /\ (weight ls' < weight ls)%nat /\ l_sb ls' = l_sb ls) ls.
Proof.
  intros I Hc. pose proof (ext_next ls I) as H1. pose proof (is_eol_not_eof _ Hc) as Hne.
  pose proof (weight_next ls I Hne) as Hw. unfold lex_newline. wp_pure.
  enough (Hk : forall ls1, ext ls ls1 -> (weight ls1 < weight ls)%nat -> l_sb ls1 = l_sb ls ->
    wp (lput (set_lines ls1 (l_linenumber ls1 + 1) (l_lastline ls1)) ;;;
        if KP_MAX_LINE <=? l_linenumber ls1 + 1 then lex_error_here KP_ERR_XLINES else lret tt) scanerr
      (λ _ ls', ext ls ls' /\ (weight ls' < weight ls)%nat /\ l_sb ls' = l_sb ls) ls1).
  { destruct (lex_iseol _ && _); wp_pure; apply Hk; try done; rewrite ?sb_next; try done; [| |lia].
    - eapply lext_trans; [done|]. apply ext_next, H1.
    - pose proof (ext_weight _ _ (ext_next _ (ex_ok _ _ H1))). lia. }
  intros ls1 He Hw1 Hsb. wp_pure. destruct (Z.leb_spec KP_MAX_LINE (l_linenumber ls1 + 1)) as [Hl|Hl].
  - unfold lex_error_here. wp_pure. pose proof (lo_line _ (ex_ok _ _ He)). apply wp_error; [apply (ex_ok _ _ He)..|]. intros s. split; [done|]. simpl. lia.
  - wp_pure. split_and!; try done. destruct He as [[] Hr Hln Hstr (?&?&?&?&?)]. split; cbn; try done; [|lia].
    split; try done. simpl. lia.
Qed.

(** Interning finds the string or adds an unreserved one. *)
Lemma ustr_new_cases t str : strtab_ok t ->
  exists a t', kp_str_new t str = Some (a, t') /\
    (t' = t \/ st_objs t' = st_objs t ++ [createstrobj str] /\ forall b, bytes_of t b <> Some str).
Proof.
  intros I. unfold kp_str_new, stringtable_search. pose proof (search_from_spec (st_objs t) str 1) as Hs.
  destruct (search_from (st_objs t) str 1) as [a|]; [exists a, t; by split; [|left]|].
  unfold stringtable_insert. rewrite (proj2 (Z.ltb_lt _ _) (so_room _ I)). cbn [mbind option_bind].
  eexists _, _. split; [done|]. right. split; [done|]. intros b Hb. apply Hs.
  apply fmap_Some in Hb as (s & Hb & ->). apply str_obj_lookup in Hb as [_ Hb].
  apply list_elem_of_fmap_2. by eapply list_elem_of_lookup_2.
Qed.

Lemma words_ok_new t str : words_ok t ->
  exists a t', kp_str_new t str = Some (a, t') /\ words_ok t' /\ bytes_of t' a = Some str /\
    (forall b s, str_obj t b = Some s -> str_obj t' b = Some s).
Proof.
  intros [I Hr Ha]. destruct (kp_str_new_spec t str I) as (a & t' & E & I' & Hb & Hk).
  destruct (ustr_new_cases t str I) as (a2 & t2 & E2 & Hc). rewrite E in E2. injection E2 as <- <-.
  exists a, t'. split_and!; try done. split; [done| |].
  - intros b s Hs. destruct Hc as [->|[Ho Hnew]]; [by apply (Hr b)|].
    apply str_obj_lookup in Hs as [Hb1 Hs]. rewrite Ho in Hs. apply lookup_app_Some in Hs as [Hs|[Hl Hs]].
    + apply (Hr b). unfold str_obj. by rewrite (proj2 (Z.leb_le _ _)) by lia.
    + apply list_lookup_singleton_Some in Hs as [_ <-]. cbn [createstrobj us_reserved us_bytes].
      destruct (Z.eq_dec (reserved_of str) 0) as [->|Hne]; [done|].
      destruct (Ha str Hne) as [b' Hb']. by destruct (Hnew b').
  - intros w Hw. destruct (Ha w Hw) as [b Hb']. exists b. unfold bytes_of in *.
    apply fmap_Some in Hb' as (s & Hs & ->). by rewrite (Hk _ _ Hs).
Qed.

Lemma get_node_valid t key i : get_node t key = Some i -> (i < length (u_node t))%nat.
Proof.
  assert (Hf : forall p i, find_node (u_node t) p 0 = Some i -> (i < length (u_node t))%nat).
  { intros p j Hj. pose proof (find_node_spec (u_node t) p 0) as H. rewrite Hj in H.
    destruct H as (_ & n & Hn & _). rewrite Nat.sub_0_r in Hn. by eapply lookup_lt_Some. }
  unfold get_node. repeat case_match; [done|apply Hf..].
Qed.

Lemma put_node_ok t i f : kt_ok t -> (i < length (u_node t))%nat ->
  exists t', put_node t i f = Some t' /\ kt_ok t' /\ length (u_node t') = length (u_node t).
Proof.
  intros Hk Hi. destruct (lookup_lt_is_Some_2 _ _ Hi) as [n Hn]. unfold put_node. rewrite Hn. cbn [mbind option_bind].
  eexists. split; [done|]. unfold kt_ok. cbn [u_node u_freetop]. by rewrite length_insert.
Qed.

Lemma kp_tab_set_ok t key : kt_ok t ->
  exists i t', kp_tab_set t key = Some (i, t') /\ kt_ok t' /\ (i < length (u_node t'))%nat.
Proof.
  intros Hk. unfold kp_tab_set. destruct (get_node t key) as [i|] eqn:Hg.
  - exists i, t. split_and!; try apply Hk; [done|]. by eapply get_node_valid.
  - unfold take_node. assert (Hgr : (0 < u_freetop (grow t) <= length (u_node (grow t)))%nat).
    { unfold grow. destruct Hk. destruct (Nat.eqb_spec (u_freetop t) 0); cbn [u_node u_freetop];
        rewrite ?length_app, ?length_replicate; lia. }
    destruct (put_node_ok (mkuttab (u_node (grow t)) (pred (u_freetop (grow t)))) (pred (u_freetop (grow t)))
      (λ n, mkutnode (set_nil (g_val n)) key)) as (t' & -> & Hk' & Hl); [split; cbn; lia|cbn; lia|].
    cbn [mbind option_bind]. eexists _, _. split; [done|]. split; [done|]. rewrite Hl. cbn. lia.
Qed.

Lemma wp_keepstr ofs len E ls : lex_ok ls -> 0 <= ofs -> 0 <= len -> ofs + len <= sbuflen (l_sb ls) ->
  wp (kp_parse_keepstr ofs len) E
    (λ s ls', exists t kt, ls' = set_strs ls t kt /\ ext ls ls' /\
       bytes_of t s = Some (take (Z.to_nat len) (drop (Z.to_nat ofs) (sb_data (l_sb ls))))) ls.
Proof.
  intros I H1 H2 H3. unfold wp, kp_parse_keepstr. rewrite !(proj2 (Z.leb_le _ _)) by done. cbn [andb].
  destruct (words_ok_new (l_strs ls) (take (Z.to_nat len) (drop (Z.to_nat ofs) (sb_data (l_sb ls)))) (lo_words _ I))
    as (a & t' & -> & Hw & Hb & Hk). cbn [mbind option_bind].
  destruct (kp_tab_set_ok (l_kt ls) (set_string a) (lo_kt _ I)) as (i & kt & -> & Hkt & Hi). cbn [mbind option_bind].
  destruct (lookup_lt_is_Some_2 _ _ Hi) as [n Hn]. rewrite Hn. cbn [mbind option_bind].
  assert (Hext : forall kt', kt_ok kt' -> ext ls (set_strs ls t' kt')).
  { intros kt' Hkt'. destruct I. by split. }
  destruct (is_nil (g_val n)).
  - destruct (put_node_ok kt i (λ n, mkutnode (set_bool (g_val n) 1) (g_key n)) Hkt Hi) as (kt' & -> & Hkt' & _).
    cbn [mbind option_bind]. exists t', kt'. split_and!; try done. by apply Hext.
  - cbn [mbind option_bind]. exists t', kt. split_and!; try done. by apply Hext.
Qed.

(** ** Loops *)

(** Advance by one character inside a chain of states. *)
Lemma ext_step ls ls1 : ext ls ls1 -> l_c ls1 <> LEX_EOF ->
  ext ls (next ls1) /\ weight ls1 = S (weight (next ls1)).
Proof.
  intros H Hc. pose proof (ex_ok _ _ H). split; [|by apply weight_next]. eapply lext_trans; [done|]. by apply ext_next.
Qed.

Lemma ext_savestep ls ls1 : ext ls ls1 -> l_c ls1 <> LEX_EOF ->
  ext ls (savenext ls1) /\ weight ls1 = S (weight (savenext ls1)).
Proof.
  intros H Hc. pose proof (ex_ok _ _ H). split; [|by apply weight_savenext].
  eapply lext_trans; [done|]. by apply ext_savenext.
Qed.

Lemma wp_savenext' E (Q : Z -> lexstate -> Prop) ls : lex_ok ls ->
  Q (l_c (savenext ls)) (savenext ls) -> wp lex_savenext E Q ls.
Proof. intros I. apply wp_savenext, I. Qed.

(** A loop that has consumed at least nothing continues from a later state. *)
Lemma wp_ext {A} (m : lexm A) E ls ls1 (Q : A -> lexstate -> Prop) : ext ls ls1 ->
  wp m E (λ x ls', ext ls1 ls' /\ Q x ls') ls1 -> wp m E (λ x ls', ext ls ls' /\ Q x ls') ls1.
Proof. intros H Hm. eapply wp_mono; [exact Hm|]. intros x ls' [He HQ]. split; [by eapply lext_trans|done]. Qed.

Lemma isident_not_eof c : kp_char_isident c = true -> c <> LEX_EOF.
Proof. intros H ->. done. Qed.
Lemma isspace_not_eof c : kp_char_isspace c = true -> c <> LEX_EOF.
Proof. intros H ->. done. Qed.
Lemma isdigit_not_eof c : kp_char_isdigit c = true -> c <> LEX_EOF.
Proof. intros H ->. done. Qed.

Lemma isdigit_isident c : is_char c -> kp_char_isdigit c = true -> kp_char_isident c = true.
Proof.
  intros Hc Hd. rewrite isident_spec by done. rewrite isdigit_spec in Hd by done. unfold is_ident. by rewrite Hd.
Qed.

Lemma wp_number_loop f c xp ls : lex_ok ls -> (weight ls < f)%nat ->
  wp (number_loop f c xp) scanerr
    (λ _ ls', ext ls ls' /\ (kp_char_isident (l_c ls) = true -> weight ls' < weight ls)%nat) ls.
Proof.
  revert c ls. induction f as [|f IH]; intros c ls I Hf; [lia|]. cbn [number_loop]. wp_pure.
  destruct (_ || _) eqn:Hc; wp_pure.
  - assert (Hne : l_c ls <> LEX_EOF) by (intros E; by rewrite E in Hc).
    apply wp_savenext'; [done|]. destruct (ext_savestep ls ls (lext_refl ls I) Hne) as [He Hw].
    apply (wp_ext _ _ ls (savenext ls)); [done|]. eapply wp_mono; [apply IH; [apply He|lia]|].
    intros x ls' [He' _]. split; [done|]. pose proof (ext_weight _ _ He'). lia.
  - split; [by apply lext_refl|]. intros Hi. by rewrite Hi in Hc.
Qed.

Lemma wp_number_end ls : lex_ok ls -> wp number_end scanerr (λ _ ls', ext ls ls' /\ weight ls' = weight ls) ls.
Proof.
  intros I. unfold number_end. apply wp_bind, wp_save; [apply I|]. pose proof (ext_save 0 ls I) as He. wp_pure.
  cbn [save save_sb l_sb set_sb sb_data]. destruct (cstr_terminated (sb_data (l_sb ls))) as [s Hs].
  eapply wp_opt; [exact Hs|]. destruct (kp_str2d _ _); wp_pure; [by split|].
  unfold lex_error_here. wp_pure. apply wp_error; [apply He..|]. scan_err. apply He.
Qed.

Lemma wp_lex_number ls : lex_ok ls -> kp_char_isdigit (l_c ls) = true ->
  wp lex_number scanerr (λ _ ls', ext ls ls' /\ (weight ls' < weight ls)%nat) ls.
Proof.
  intros I Hd. pose proof (isdigit_not_eof _ Hd) as Hne. unfold lex_number. apply wp_bind, wp_cur, wp_bind.
  enough (Hk : forall xp ls1, ext ls ls1 -> kp_char_isident (l_c ls1) = true \/ (weight ls1 < weight ls)%nat ->
    wp (with_fuel (λ f, number_loop f (l_c ls) xp) ;;; number_end) scanerr
      (λ _ ls', ext ls ls' /\ (weight ls' < weight ls)%nat) ls1).
  { destruct (Z.eqb_spec (l_c ls) 48) as [E|E].
    - apply wp_bind, wp_savenext', wp_ret; [done|]. destruct (ext_savestep ls ls (lext_refl ls I) Hne) as [He Hw].
      apply Hk; [done|right; lia].
    - apply wp_ret, Hk; [by apply lext_refl|]. left. apply isdigit_isident; [apply I|done]. }
  intros xp ls1 He Hw. apply wp_bind, wp_fuel. eapply wp_mono; [apply wp_number_loop; [apply He|lia]|].
  intros x ls2 [He2 Hw2]. eapply wp_mono; [apply wp_number_end, He2|]. intros y ls3 [He3 Hw3].
  split; [by do 2 (eapply lext_trans; [done|])|]. pose proof (ext_weight _ _ He2). pose proof (ext_weight _ _ He).
  destruct Hw as [Hw|Hw]; [specialize (Hw2 Hw)|]; lia.
Qed.

Lemma sbuflen_savenext ls : sbuflen (l_sb (savenext ls)) = sbuflen (l_sb ls) + 1.
Proof. unfold sbuflen. rewrite sb_savenext, length_app. simpl. lia. Qed.

Lemma sbuflen_save c ls : sbuflen (l_sb (save c ls)) = sbuflen (l_sb ls) + 1.
Proof. unfold sbuflen, save. cbn. rewrite length_app. simpl. lia. Qed.

Lemma wp_skipeq_loop f count ls : lex_ok ls -> l_c ls <> LEX_EOF -> (weight ls <= f)%nat ->
  wp (skipeq_loop f count) scanerr (λ n ls', ext ls ls' /\ (weight ls' < weight ls)%nat /\
    count <= n /\ sbuflen (l_sb ls') = sbuflen (l_sb ls) + 1 + (n - count)) ls.
Proof.
  revert count ls. induction f as [|f IH]; intros count ls I Hne Hf.
  { destruct (ext_savestep ls ls (lext_refl ls I) Hne). lia. }
  cbn [skipeq_loop]. destruct (ext_savestep ls ls (lext_refl ls I) Hne) as [He Hw].
  apply wp_bind, wp_savenext'; [done|]. destruct (Z.eqb_spec (l_c (savenext ls)) 61) as [E|E].
  - apply (wp_ext _ _ ls (savenext ls)); [done|]. eapply wp_mono; [apply IH; [apply He|rewrite E; done|lia]|].
    intros n ls' (He' & Hw' & Hn & Hs). rewrite sbuflen_savenext in Hs. split; [done|]. split_and!; lia.
  - apply wp_ret. rewrite sbuflen_savenext. split; [done|]. split_and!; lia.
Qed.

(** The buffer grows by the bracket and the equal signs. *)
Lemma wp_skipeq ls : lex_ok ls -> l_c ls <> LEX_EOF ->
  wp lex_skipeq scanerr (λ n ls', ext ls ls' /\ (weight ls' < weight ls)%nat /\
    sbuflen (l_sb ls) < sbuflen (l_sb ls') /\
    (0 <= n -> l_c ls' = l_c ls /\ sbuflen (l_sb ls') = sbuflen (l_sb ls) + 1 + n)) ls.
Proof.
  intros I Hne. unfold lex_skipeq. apply wp_bind, wp_cur, wp_bind, wp_fuel.
  eapply wp_mono; [apply wp_skipeq_loop; [done..|lia]|]. intros n ls' (He & Hw & Hn & Hs).
  apply wp_bind, wp_cur, wp_ret. split; [done|]. split_and!; [done|lia|].
  destruct (Z.eqb_spec (l_c ls') (l_c ls)); intros; [split; [done|lia]|lia].
Qed.

Lemma wp_longstring_loop f tv sep ls : lex_ok ls -> 0 <= sep -> (weight ls < f)%nat ->
  (tv = true -> 2 + sep <= sbuflen (l_sb ls)) ->
  wp (longstring_loop f tv sep) scanerr (λ _ ls', ext ls ls' /\ (tv = true -> 2 * (2 + sep) <= sbuflen (l_sb ls'))) ls.
Proof.
  intros I Hsep. revert ls I. induction f as [|f IH]; intros ls I Hf Hl; [lia|]. cbn [longstring_loop].
  apply wp_bind, wp_cur. destruct (Z.eqb_spec (l_c ls) LEX_EOF) as [E|Hne].
  { apply wp_error; [right; unfold TK_eof, TK_OFS; lia|apply I|scan_err]. }
  destruct (Z.eqb_spec (l_c ls) 93) as [E93|_]; [|destruct (lex_iseol (l_c ls)) eqn:Eol].
  - apply wp_bind. eapply wp_mono; [apply wp_skipeq; done|]. intros n ls1 (He & Hw & Hs & Hn).
    destruct (Z.eqb_spec n sep) as [->|_].
    + destruct (Hn Hsep) as [Hc1 Hs1]. assert (Hne1 : l_c ls1 <> LEX_EOF) by congruence.
      destruct (ext_savestep ls ls1 He Hne1) as [He1 _]. apply wp_bind, wp_savenext', wp_ret; [apply He|].
      split; [done|]. intros Ht. specialize (Hl Ht). rewrite sbuflen_savenext. lia.
    + apply (wp_ext _ _ ls ls1); [done|]. apply IH; [apply He|lia|]. intros Ht. specialize (Hl Ht). lia.
  - pose proof (ext_save 10 ls I) as He. apply wp_bind, wp_save; [apply I|]. apply wp_bind.
    eapply wp_mono; [apply wp_newline; [apply He|done]|]. intros x ls1 (He1 & Hw1 & Hs1). apply wp_bind.
    assert (Hx : ext ls ls1) by (by eapply lext_trans).
    assert (weight (save 10 ls) = weight ls) by done.
    destruct tv.
    + apply wp_ret, (wp_ext _ _ ls ls1); [done|]. apply IH; [apply He1|lia|]. intros Ht. specialize (Hl Ht).
      rewrite Hs1, sbuflen_save. lia.
    + apply wp_reset. pose proof (ext_reset ls1 (ex_ok _ _ Hx)) as Hr. eapply (wp_ext _ _ ls); [by eapply lext_trans|].
      apply IH; [apply Hr| |done]. change (weight (set_sb ls1 _)) with (weight ls1). lia.
  - destruct (ext_savestep ls ls (lext_refl ls I) Hne) as [He Hw]. apply wp_bind, wp_savenext'; [done|].
    apply (wp_ext _ _ ls (savenext ls)); [done|]. apply IH; [apply He|lia|]. intros Ht. specialize (Hl Ht).
    rewrite sbuflen_savenext. lia.
Qed.

Lemma wp_longstring tv sep ls : lex_ok ls -> l_c ls <> LEX_EOF -> 0 <= sep ->
  (tv = true -> sbuflen (l_sb ls) = 1 + sep) ->
  wp (lex_longstring tv sep) scanerr (λ _ ls', ext ls ls') ls.
Proof.
  intros I Hne Hsep Hs. unfold lex_longstring. apply wp_bind, wp_savenext'; [done|].
  destruct (ext_savestep ls ls (lext_refl ls I) Hne) as [He Hw]. apply wp_bind.
  enough (Hk : forall ls1, ext ls ls1 -> (tv = true -> sbuflen (l_sb ls1) = 2 + sep) ->
    wp (with_fuel (λ f, longstring_loop f tv sep) ;;;
      if tv then ls <~ lget ;; str <~ kp_parse_keepstr (2 + sep) (sbuflen (l_sb ls) - 2 * (2 + sep)) ;;
                 lret (Some (set_string str)) else lret None) scanerr (λ _ ls', ext ls ls') ls1).
  { destruct (lex_iseol _) eqn:Eol.
    - eapply wp_mono; [apply wp_newline; [apply He|done]|]. intros x ls1 (He1 & _ & Hs1).
      apply Hk; [by eapply lext_trans|]. intros Ht. specialize (Hs Ht). rewrite Hs1, sbuflen_savenext. lia.
    - apply wp_ret, Hk; [done|]. intros Ht. specialize (Hs Ht). rewrite sbuflen_savenext. lia. }
  intros ls1 He1 Hs1. apply wp_bind, wp_fuel.
  eapply wp_mono; [apply wp_longstring_loop; [apply He1|done|lia|intros Ht; rewrite Hs1 by done; lia]|].
  intros x ls2 [He2 Hl]. assert (Hx : ext ls ls2) by (by eapply lext_trans). destruct tv; [|by apply wp_ret].
  specialize (Hl eq_refl). wp_pure. eapply wp_mono; [apply wp_keepstr; [apply Hx|lia..]|].
  intros s ls3 (t & kt & -> & He3 & _). apply wp_ret. by eapply lext_trans.
Qed.

Lemma wp_space_loop f ls : lex_ok ls -> (weight ls < f)%nat ->
  wp (space_loop f) scanerr (λ _ ls', ext ls ls' /\ l_sb ls' = l_sb ls) ls.
Proof.
  revert ls. induction f as [|f IH]; intros ls I Hf; [lia|]. cbn [space_loop]. apply wp_bind, wp_cur.
  destruct (kp_char_isspace (l_c ls)) eqn:Hc; [|apply wp_ret; split; [by apply lext_refl|done]].
  pose proof (isspace_not_eof _ Hc) as Hne. destruct (lex_iseol (l_c ls)) eqn:Eol; apply wp_bind.
  - eapply wp_mono; [by apply wp_newline|]. intros x ls1 (He & Hw & Hs). apply (wp_ext _ _ ls ls1); [done|].
    rewrite <- Hs. apply IH; [apply He|lia].
  - apply wp_next. destruct (ext_step ls ls (lext_refl ls I) Hne) as [He Hw]. apply (wp_ext _ _ ls (next ls)); [done|].
    rewrite <- (sb_next ls). apply IH; [apply He|lia].
Qed.

(** ** Quoted strings *)

(** States reached inside a literal: the buffer only grows. *)
Definition grows (ls ls' : lexstate) : Prop := ext ls ls' /\ sbuflen (l_sb ls) <= sbuflen (l_sb ls').

Lemma grows_refl ls : lex_ok ls -> grows ls ls.
Proof. intros. split; [by apply lext_refl|lia]. Qed.
Lemma grows_trans ls1 ls2 ls3 : grows ls1 ls2 -> grows ls2 ls3 -> grows ls1 ls3.
Proof. intros [? ?] [? ?]. split; [by eapply lext_trans|lia]. Qed.
Lemma grows_next ls ls1 : grows ls ls1 -> grows ls (next ls1).
Proof.
  intros H. eapply grows_trans; [exact H|]. destruct H as [He _]. split; [apply ext_next, He|]. rewrite sb_next. lia.
Qed.
Lemma grows_save c ls ls1 : grows ls ls1 -> grows ls (save c ls1).
Proof.
  intros H. eapply grows_trans; [exact H|]. destruct H as [He _]. split; [apply ext_save, He|].
  rewrite sbuflen_save. lia.
Qed.
Lemma grows_savenext ls ls1 : grows ls ls1 -> grows ls (savenext ls1).
Proof. intros. by apply grows_next, grows_save. Qed.

Lemma wp_err_xesc Q ls : lex_ok ls -> wp err_xesc scanerr Q ls.
Proof. intros I. apply wp_error; [right; unfold TK_string, TK_eof, TK_OFS; lia|apply I|scan_err]. Qed.

Lemma wp_putc c ls ls1 : grows ls ls1 ->
  wp (lex_save c ;;; lex_next ;;; lret tt) scanerr (λ _ ls', grows ls ls') ls1.
Proof.
  intros H. apply wp_bind, wp_save; [apply H|]. wp_pure. by apply grows_next, grows_save.
Qed.

Lemma wp_hex_digit ls ls1 : grows ls ls1 -> wp hex_digit scanerr (λ _ ls', grows ls ls') ls1.
Proof.
  intros H. unfold hex_digit. apply wp_bind, wp_next. apply grows_next in H.
  destruct (kp_char_isdigit _); [by apply wp_ret|]. destruct (kp_char_isxdigit _); [by apply wp_ret|].
  apply wp_bind, wp_err_xesc, H.
Qed.

Lemma wp_dec_escape c ls ls1 : grows ls ls1 -> wp (dec_escape c) scanerr (λ _ ls', grows ls ls') ls1.
Proof.
  intros H. unfold dec_escape. apply wp_bind, wp_next, wp_bind. apply grows_next in H.
  assert (Hs : forall c ls2, grows ls ls2 -> wp (lex_save c) scanerr (λ _ ls', grows ls ls') ls2).
  { intros d ls2 H2. apply wp_save; [apply H2|]. by apply grows_save. }
  destruct (kp_char_isdigit _); [|by apply wp_ret, Hs]. apply wp_bind, wp_next. apply grows_next in H.
  destruct (kp_char_isdigit _); [|by apply wp_ret, Hs]. apply wp_bind. destruct (_ >? 255).
  - apply wp_err_xesc, H.
  - wp_pure. apply grows_next in H. by apply Hs.
Qed.

Lemma wp_lex_escape ls : lex_ok ls -> l_c ls <> LEX_EOF ->
  wp lex_escape scanerr (λ _ ls', grows ls ls' /\ (weight ls' < weight ls)%nat) ls.
Proof.
  intros I Hne. assert (Hw := weight_next ls I Hne). assert (H := grows_next ls ls (grows_refl ls I)).
  enough (Hk : wp lex_escape scanerr (λ _ ls', grows (next ls) ls') ls).
  { eapply wp_mono; [exact Hk|]. intros x ls' Hg. split; [by eapply grows_trans|].
    destruct Hg as [He _]. apply ext_weight in He. lia. }
  unfold lex_escape. apply wp_bind, wp_next. cbv zeta.
  assert (H1 : grows (next ls) (next ls)) by (apply grows_refl, H).
  repeat match goal with |- wp (if ?b then _ else _) _ _ _ => destruct b eqn:? end;
    try (by apply wp_putc); try (by apply wp_dec_escape).
  - apply wp_bind. eapply wp_mono; [by apply (wp_hex_digit (next ls))|]. intros h ls1 Hg1. apply wp_bind.
    eapply wp_mono; [by apply (wp_hex_digit (next ls))|]. intros l ls2 Hg2. by apply wp_putc.
  - apply wp_bind, wp_next, wp_fuel. apply grows_next in H1.
    eapply wp_mono; [apply wp_space_loop; [apply H1|lia]|].
    intros x ls1 [He Hs]. eapply grows_trans; [exact H1|]. split; [done|]. rewrite Hs. lia.
  - apply wp_bind, wp_save; [apply H1|]. apply (grows_save 10) in H1.
    eapply wp_mono; [by apply wp_newline; [apply H1|]|]. intros x ls1 (He & _ & Hs).
    eapply grows_trans; [exact H1|]. split; [done|]. rewrite Hs. lia.
  - by apply wp_ret.
  - apply wp_err_xesc, H1.
Qed.

Lemma wp_string_loop f delim ls : lex_ok ls -> delim <> LEX_EOF -> (weight ls < f)%nat ->
  wp (string_loop f delim) scanerr (λ _ ls', grows ls ls' /\ l_c ls' = delim) ls.
Proof.
  intros I Hd. revert ls I. induction f as [|f IH]; intros ls I Hf; [lia|]. cbn [string_loop]. apply wp_bind, wp_cur.
  destruct (Z.eqb_spec (l_c ls) delim) as [E|_]; [apply wp_ret; split; [by apply grows_refl|done]|].
  destruct (Z.eqb_spec (l_c ls) LEX_EOF) as [E|Hne].
  { apply wp_error; [right; unfold TK_eof, TK_OFS; lia|apply I|scan_err]. }
  destruct (lex_iseol (l_c ls)).
  { apply wp_error; [right; unfold TK_string, TK_eof, TK_OFS; lia|apply I|scan_err]. }
  destruct (l_c ls =? 92); apply wp_bind.
  - eapply wp_mono; [by apply wp_lex_escape|]. intros x ls1 [Hg Hw].
    eapply wp_mono; [apply IH; [apply Hg|lia]|]. intros y ls2 [Hg2 Hc]. split; [by eapply grows_trans|done].
  - apply wp_savenext'; [done|]. assert (Hg := grows_savenext ls ls (grows_refl ls I)).
    assert (Hw := weight_savenext ls I Hne).
    eapply wp_mono; [apply IH; [apply Hg|lia]|]. intros y ls2 [Hg2 Hc]. split; [by eapply grows_trans|done].
Qed.

Lemma wp_lex_string ls : lex_ok ls -> l_c ls <> LEX_EOF ->
  wp lex_string scanerr (λ _ ls', ext ls ls' /\ (weight ls' < weight ls)%nat) ls.
Proof.
  intros I Hne. unfold lex_string. apply wp_bind, wp_cur, wp_bind, wp_savenext'; [done|].
  destruct (ext_savestep ls ls (lext_refl ls I) Hne) as [He Hw]. apply wp_bind, wp_fuel.
  eapply wp_mono; [apply wp_string_loop; [apply He|done|lia]|]. intros x ls1 [[He1 Hs1] Hc1].
  rewrite sbuflen_savenext in Hs1. apply wp_bind, wp_savenext'; [apply He1|].
  assert (He2 : ext ls (savenext ls1)).
  { do 2 (eapply lext_trans; [done|]). apply ext_savenext, He1. }
  wp_pure. eapply wp_mono; [apply wp_keepstr; [apply He2|lia|..]|].
  - rewrite sbuflen_savenext. unfold sbuflen in *. lia.
  - lia.
  - intros s ls2 (t & kt & -> & He3 & _). apply wp_ret. split; [by eapply lext_trans|].
    pose proof (ext_weight _ _ He3). pose proof (ext_weight _ _ (ext_savenext _ (ex_ok _ _ He1))).
    pose proof (ext_weight _ _ He1). lia.
Qed.

(** ** The scanner *)

Lemma word_index_range ws w i : 0 < i -> word_index ws w i = 0 \/ i <= word_index ws w i < i + Z.of_nat (length ws).
Proof.
  revert i. induction ws as [|x ws IH]; intros i Hi; cbn [word_index length]; [by left|].
  case_decide; [right; lia|]. destruct (IH (i + 1)); [lia|by left|right; lia].
Qed.

Lemma reserved_of_range w : 0 <= reserved_of w <= 45.
Proof.
  pose proof (word_index_range reserved_words w 1 ltac:(lia)) as H. change (length reserved_words) with 45%nat in H.
  unfold reserved_of. lia.
Qed.

Lemma wp_ident_loop f ls : lex_ok ls -> l_c ls <> LEX_EOF -> (weight ls <= f)%nat ->
  wp (ident_loop f) scanerr (λ _ ls', ext ls ls' /\ (weight ls' < weight ls)%nat) ls.
Proof.
  revert ls. induction f as [|f IH]; intros ls I Hne Hf; destruct (ext_savestep ls ls (lext_refl ls I) Hne) as [He Hw]; [lia|].
  cbn [ident_loop]. apply wp_bind, wp_savenext'; [done|]. destruct (kp_char_isident _) eqn:Hc.
  - apply (wp_ext _ _ ls (savenext ls)); [done|].
    eapply wp_mono; [apply IH; [apply He|by apply isident_not_eof|lia]|]. intros x ls' [He' Hw']. split; [done|lia].
  - apply wp_ret. split; [done|lia].
Qed.

(** The token of a name. *)
Definition word_token (w : bytes) : Z := if reserved_of w >? 0 then TK_OFS + reserved_of w else TK_name.

Lemma word_token_ok w : tok_ok (word_token w) /\ word_token w <> TK_eof.
Proof.
  pose proof (reserved_of_range w). unfold word_token, tok_ok, TK_name, TK_eof, TK_OFS.
  destruct (Z.gtb_spec (reserved_of w) 0); lia.
Qed.

(** The end of a name: intern the buffer and look the word up. *)
Lemma wp_ident_end E ls : lex_ok ls ->
  wp (s <~ kp_parse_keepstr 0 (sbuflen (l_sb ls)) ;; ls <~ lget ;; o <~ lopt (str_obj (l_strs ls) s) ;;
      lret (if us_reserved o >? 0 then TK_OFS + us_reserved o else TK_name, set_string s)) E
    (λ r ls', exists s t kt, r = (word_token (sb_data (l_sb ls)), set_string s) /\ ls' = set_strs ls t kt /\
      ext ls ls' /\ bytes_of t s = Some (sb_data (l_sb ls))) ls.
Proof.
  intros I. apply wp_bind. eapply wp_mono; [apply wp_keepstr; [done|lia|unfold sbuflen; lia..]|].
  intros s ls' (t & kt & -> & He & Hb). wp_pure. rewrite drop_0 in Hb.
  rewrite take_ge in Hb by (unfold sbuflen; lia). unfold bytes_of in Hb. pose proof Hb as Hb'.
  apply fmap_Some in Hb' as (o & Ho & Eo). eapply wp_opt; [exact Ho|]. wp_pure.
  pose proof (wo_res _ (lo_words _ (ex_ok _ _ He)) s o Ho) as Hr. rewrite <- Eo in Hr. exists s, t, kt.
  split_and!; try done. by rewrite Hr.
Qed.

Lemma wp_lex_ident ls : lex_ok ls -> l_c ls <> LEX_EOF ->
  wp lex_ident scanerr (λ r ls', ext ls ls' /\ (weight ls' < weight ls)%nat /\ exists w, fst r = word_token w) ls.
Proof.
  intros I Hne. unfold lex_ident. apply wp_bind, wp_fuel. eapply wp_mono; [apply wp_ident_loop; [done..|lia]|].
  intros x ls1 [He Hw]. apply wp_bind, wp_get. eapply wp_mono; [apply wp_ident_end, He|].
  intros r ls2 (s & t & kt & -> & -> & He2 & _). split; [by eapply lext_trans|]. pose proof (ext_weight _ _ He2).
  split; [lia|by eexists].
Qed.

Lemma wp_line_loop f ls : lex_ok ls -> (weight ls < f)%nat ->
  wp (line_loop f) scanerr (λ _ ls', ext ls ls' /\ l_sb ls' = l_sb ls /\
    (lex_iseol (l_c ls) = false -> l_c ls <> LEX_EOF -> weight ls' < weight ls)%nat) ls.
Proof.
  revert ls. induction f as [|f IH]; intros ls I Hf; [lia|]. cbn [line_loop]. apply wp_bind, wp_cur.
  destruct (_ && _) eqn:Hc.
  - bool_to_Prop. destruct (ext_step ls ls (lext_refl ls I) ltac:(done)) as [He Hw]. apply wp_bind, wp_next.
    apply (wp_ext _ _ ls (next ls)); [done|]. eapply wp_mono; [apply IH; [apply He|lia]|].
    intros x ls' (He' & Hs & _). pose proof (ext_weight _ _ He'). rewrite Hs, sb_next.
    split; [done|]. split; [done|lia].
  - apply wp_ret. split; [by apply lext_refl|]. split; [done|]. intros Hl Hne. rewrite Hl in Hc. simpl in Hc.
    bool_to_Prop. done.
Qed.

(** What the scanner promises for the token it returns. *)
Definition scanned (ls : lexstate) (r : Z * ktap_val) (ls' : lexstate) : Prop :=
  ext ls ls' /\ tok_ok (fst r) /\
  (fst r = TK_eof -> rest ls' = []) /\ (fst r <> TK_eof -> (weight ls' < weight ls)%nat).

Lemma scanned_tok ls t v ls' : ext ls ls' -> tok_ok t -> t <> TK_eof -> (weight ls' < weight ls)%nat ->
  scanned ls (t, v) ls'.
Proof. intros. split_and!; done. Qed.

Lemma scanned_ext ls ls1 r ls' : ext ls ls1 -> scanned ls1 r ls' -> scanned ls r ls'.
Proof.
  intros He (He1 & Ht & Hr & Hw). pose proof (ext_weight _ _ He). split_and!; try done; [by eapply lext_trans|].
  intros Hn. specialize (Hw Hn). lia.
Qed.

Lemma wp_two second one both tv ls : lex_ok ls -> l_c ls <> LEX_EOF ->
  tok_ok one -> one <> TK_eof -> tok_ok both -> both <> TK_eof ->
  wp (two second one both tv) scanerr (scanned ls) ls.
Proof.
  intros I Hne H1 H1' H2 H2'. destruct (ext_step ls ls (lext_refl ls I) Hne) as [He Hw]. unfold two.
  apply wp_bind, wp_next. destruct (_ =? second); wp_pure; apply scanned_tok; try done; [| |lia].
  - eapply lext_trans; [done|]. apply ext_next, He.
  - pose proof (ext_weight _ _ (ext_next _ (ex_ok _ _ He))). lia.
Qed.

Ltac tok_solve := cbn [fst snd]; unfold tok_ok, TK_incr, TK_and, TK_not, TK_or, TK_concat, TK_dots, TK_eq, TK_ge, TK_le, TK_ne,
  TK_label, TK_number, TK_name, TK_string, TK_eof, TK_OFS; lia.

Definition sb_empty (ls : lexstate) : Prop := sb_data (l_sb ls) = [].

Lemma sb_empty_len ls : sb_empty ls -> sbuflen (l_sb ls) = 0.
Proof. unfold sb_empty, sbuflen. by intros ->. Qed.

(** Continue scanning from a later state. *)
Lemma wp_scan_ext (m : lexm (Z * ktap_val)) ls ls1 : ext ls ls1 ->
  wp m scanerr (scanned ls1) ls1 -> wp m scanerr (scanned ls) ls1.
Proof. intros He Hm. eapply wp_mono; [exact Hm|]. intros r ls' Hs. by eapply scanned_ext. Qed.

Section ScanStep.
Context (f : nat) (tv : ktap_val).
Hypothesis IH : forall ls, lex_ok ls -> sb_empty ls -> (weight ls < f)%nat -> wp (scan_loop f tv) scanerr (scanned ls) ls.

Lemma scan_again ls ls1 : ext ls ls1 -> sb_empty ls1 -> (weight ls1 < f)%nat ->
  wp (scan_loop f tv) scanerr (scanned ls) ls1.
Proof. intros He Hs Hw. apply wp_scan_ext; [done|]. apply IH; [apply He|done..]. Qed.

Lemma scan_line ls ls1 : ext ls ls1 -> sb_empty ls1 ->
  (weight ls1 < f \/ lex_iseol (l_c ls1) = false /\ l_c ls1 <> LEX_EOF /\ weight ls1 < S f)%nat ->
  wp (with_fuel line_loop ;;; scan_loop f tv) scanerr (scanned ls) ls1.
Proof.
  intros He Hs Hw. apply wp_bind, wp_fuel. eapply wp_mono; [apply wp_line_loop; [apply He|lia]|].
  intros x ls2 (He2 & Hs2 & Hw2). apply scan_again; [by eapply lext_trans|by unfold sb_empty; rewrite Hs2|].
  pose proof (ext_weight _ _ He2). destruct Hw as [Hw|(Hl & Hne & Hw)]; [lia|]. specialize (Hw2 Hl Hne). lia.
Qed.

(** A comment, its second dash current in [ls1]. *)
Lemma scan_comment ls ls1 : ext ls ls1 -> sb_empty ls1 -> l_c ls1 <> LEX_EOF -> (weight ls1 < S f)%nat ->
  wp (c <~ lex_next ;;
      sep <~ (if c =? 91 then sep <~ lex_skipeq ;; reset ;;; lret sep else lret (-1)) ;;
      if 0 <=? sep then lex_longstring false sep ;;; reset ;;; scan_loop f tv
      else with_fuel line_loop ;;; scan_loop f tv) scanerr (scanned ls) ls1.
Proof.
  intros He Hs Hne Hf. destruct (ext_step ls ls1 He Hne) as [He2 Hw2]. apply wp_bind, wp_next, wp_bind.
  assert (Hs2 : sb_empty (next ls1)) by (unfold sb_empty; by rewrite sb_next).
  destruct (Z.eqb_spec (l_c (next ls1)) 91) as [E|_]; [|apply wp_ret, scan_line; [done..|left; lia]].
  apply wp_bind. eapply wp_mono; [apply wp_skipeq; [apply He2|rewrite E; done]|].
  intros sep ls3 (He3 & Hw3 & _ & Hsep). assert (Hx : ext ls ls3) by (by eapply lext_trans).
  apply wp_bind, wp_reset, wp_ret. pose proof (ext_reset ls3 (ex_ok _ _ He3)) as Hr.
  assert (Hy : ext ls (set_sb ls3 (kp_buf_reset (l_sb ls3)))) by (by eapply lext_trans).
  destruct (Z.leb_spec 0 sep) as [H0|H0].
  - apply wp_bind. destruct (Hsep H0) as [Hc3 _]. eapply wp_mono; [apply wp_longstring; [apply Hr| |done|done]|].
    { simpl. rewrite Hc3, E. done. }
    intros x ls4 He4. apply wp_bind, wp_reset, scan_again; [|done|].
    + eapply lext_trans; [exact Hy|]. eapply lext_trans; [exact He4|]. apply ext_reset, He4.
    + pose proof (ext_weight _ _ He4). change (weight (set_sb ls4 _)) with (weight ls4).
      change (weight (set_sb ls3 _)) with (weight ls3) in *. lia.
  - apply scan_line; [done..|]. left. change (weight (set_sb ls3 _)) with (weight ls3). lia.
Qed.

Lemma scan_bracket ls : lex_ok ls -> sb_empty ls -> l_c ls <> LEX_EOF ->
  wp (sep <~ lex_skipeq ;;
      if 0 <=? sep then v <~ lex_longstring true sep ;; lret (TK_string, default tv v)
      else if sep =? -1 then lret (91, tv) else kp_lex_error TK_string KP_ERR_XLDELIM) scanerr (scanned ls) ls.
Proof.
  intros I Hs Hne. apply wp_bind. eapply wp_mono; [by apply wp_skipeq|]. intros sep ls1 (He & Hw & _ & Hsep).
  destruct (Z.leb_spec 0 sep) as [H0|H0].
  - destruct (Hsep H0) as [Hc Hl]. rewrite (sb_empty_len ls Hs) in Hl. apply wp_bind.
    eapply wp_mono; [apply wp_longstring; [apply He|congruence|done|lia]|]. intros v ls2 He2. apply wp_ret.
    pose proof (ext_weight _ _ He2). apply scanned_tok; [by eapply lext_trans|tok_solve|tok_solve|lia].
  - destruct (sep =? -1); [apply wp_ret, scanned_tok; [done|tok_solve|tok_solve|lia]|].
    apply wp_error; [tok_solve|apply He|scan_err; apply He].
Qed.

Lemma scan_dot ls : lex_ok ls -> l_c ls <> LEX_EOF ->
  wp (c <~ lex_savenext ;;
      if c =? 46 then two 46 TK_concat TK_dots tv
      else if negb (kp_char_isdigit c) then lret (46, tv)
      else n <~ lex_number ;; lret (TK_number, n)) scanerr (scanned ls) ls.
Proof.
  intros I Hne. destruct (ext_savestep ls ls (lext_refl ls I) Hne) as [He Hw]. apply wp_bind, wp_savenext'; [done|].
  destruct (Z.eqb_spec (l_c (savenext ls)) 46) as [E|_].
  { apply wp_scan_ext; [done|]. apply wp_two; [apply He|rewrite E; done|tok_solve|tok_solve|tok_solve|tok_solve]. }
  destruct (kp_char_isdigit _) eqn:Hd; cbn [negb]; [|apply wp_ret, scanned_tok; [done|tok_solve|tok_solve|lia]].
  apply wp_bind. eapply wp_mono; [apply wp_lex_number; [apply He|done]|]. intros n ls1 [He1 Hw1].
  apply wp_ret, scanned_tok; [by eapply lext_trans|tok_solve|tok_solve|lia].
Qed.
End ScanStep.

Lemma wp_scan_loop f tv ls : lex_ok ls -> sb_empty ls -> (weight ls < f)%nat ->
  wp (scan_loop f tv) scanerr (scanned ls) ls.
Proof.
  revert ls. induction f as [|f IH]; intros ls I Hs Hf; [lia|]. cbn [scan_loop]. apply wp_bind, wp_cur.
  pose proof (lext_refl ls I) as Hx.
  destruct (kp_char_isident (l_c ls)) eqn:Hid.
  { pose proof (isident_not_eof _ Hid) as Hne. destruct (kp_char_isdigit (l_c ls)) eqn:Hd.
    - apply wp_bind. eapply wp_mono; [by apply wp_lex_number|]. intros n ls1 [He Hw].
      apply wp_ret, scanned_tok; [done|tok_solve|tok_solve|lia].
    - eapply wp_mono; [by apply wp_lex_ident|]. intros [t v] ls1 (He & Hw & w & Ew). simpl in Ew. subst t.
      destruct (word_token_ok w). by apply scanned_tok. }
  destruct (lex_iseol (l_c ls)) eqn:Eol.
  { apply wp_bind. eapply wp_mono; [by apply wp_newline|]. intros x ls1 (He & Hw & Hsb).
    apply (scan_again f tv IH); [done|by unfold sb_empty; rewrite Hsb|lia]. }
  destruct (Z.eq_dec (l_c ls) LEX_EOF) as [Eeof|Hne].
  { rewrite Eeof. simpl. apply wp_ret. split_and!; [done|tok_solve| |done]. intros _. by apply rest_eof. }
  destruct (ext_step ls ls Hx Hne) as [He Hw].
  assert (Hsn : sb_empty (next ls)) by (unfold sb_empty; by rewrite sb_next).
  repeat match goal with |- wp (if ?b then _ else _) _ _ _ => destruct b eqn:? end; bool_to_Prop;
    try (apply wp_two; [done|done|tok_solve|tok_solve|tok_solve|tok_solve]); try congruence.
  - apply wp_bind, wp_next, (scan_again f tv IH); [done..|lia].
  - apply (scan_line f tv IH); [done..|]. right. split_and!; [done..|lia].
  - apply wp_bind, wp_next. destruct (Z.eqb_spec (l_c (next ls)) 45) as [E|E]; cbn [negb].
    + apply (scan_comment f tv IH); [done|done|by rewrite E|lia].
    + apply wp_ret, scanned_tok; [done|tok_solve|tok_solve|lia].
  - by apply scan_bracket.
  - apply wp_bind. eapply wp_mono; [by apply wp_lex_string|]. intros v ls1 [He1 Hw1].
    apply wp_ret, scanned_tok; [done|tok_solve|tok_solve|lia].
  - by apply scan_dot.
  - wp_pure. pose proof (lo_c _ I) as Hc. unfold is_char, LEX_EOF in *.
    apply scanned_tok; [done|unfold tok_ok; lia|tok_solve|lia].
Qed.

Lemma wp_lex_scan tv ls : lex_ok ls -> wp (lex_scan tv) scanerr (scanned ls) ls.
Proof.
  intros I. unfold lex_scan. pose proof (ext_reset ls I) as Hr. apply wp_bind, wp_reset, wp_fuel, wp_scan_ext; [done|].
  apply wp_scan_loop; [apply Hr|done|lia].
Qed.

(** ** Reports *)

Lemma length_digits k : forall fuel n acc, (k < fuel)%nat -> 0 <= n < 10 ^ Z.of_nat (S k) ->
  (length (digits fuel n acc) <= S k + length acc)%nat.
Proof.
  induction k as [|k IH]; intros fuel n acc Hk Hn; (destruct fuel as [|fuel]; [lia|]); cbn [digits].
  all: destruct (Z.ltb_spec n 10) as [H|H]; [simpl; lia|].
  - change (10 ^ Z.of_nat 1) with 10 in Hn. lia.
  - rewrite Nat2Z.inj_succ, Z.pow_succ_r in Hn by lia. assert (Hd : 0 <= n / 10 < 10 ^ Z.of_nat (S k)).
    { split; [apply Z.div_pos; lia|]. apply Z.div_lt_upper_bound; lia. }
    pose proof (IH fuel (n / 10) (48 + n mod 10 :: acc) ltac:(lia) Hd) as H'. cbn [length] in H'. lia.
Qed.

Lemma length_line n : 0 <= n <= KP_MAX_LINE -> (length (print_d n) <= 10)%nat.
Proof.
  intros Hn. unfold print_d. rewrite (proj2 (Z.ltb_ge n 0)) by lia.
  apply (length_digits 9 20 n []); [lia|]. unfold KP_MAX_LINE in Hn. lia.
Qed.

(** The report of [e] fits its buffers when the name of the chunk is [src] and this and
    the text of the token have at most 77 characters. *)
Definition short_report (src : bytes) (e : lexerr) : Prop := (length src + length (default [] (e_tok e)) <= 77)%nat.

Lemma sprintf_fits text : (length text < 128)%nat -> kp_sprintf text = Some text.
Proof. intros H. unfold kp_sprintf. by rewrite (proj2 (Z.ltb_lt _ _)) by lia. Qed.

Lemma scanerr_reported src e : scanerr e -> short_report src e -> is_Some (kp_err_lex src e).
Proof.
  intros [Hm Hl] Hs. pose proof (length_line _ Hl) as Hd. unfold short_report in Hs. unfold kp_err_lex.
  assert (Hmsg : (length (err2msg (e_msg e)) <= 29)%nat) by (destruct (e_msg e); try done; vm_compute; lia).
  rewrite sprintf_fits by lia. cbn [mbind option_bind].
  rewrite sprintf_fits by (rewrite !length_app; change (length (byte_string ":")) with 1%nat; change (length (byte_string ": ")) with 2%nat; lia).
  cbn [mbind option_bind]. destruct (e_tok e) as [tok|]; [|by eexists]. cbn [default from_option id] in Hs. unfold quoted, id in *.
  rewrite sprintf_fits; [by eexists|]. rewrite !length_app. change (length (byte_string ":")) with 1%nat.
  change (length (byte_string ": ")) with 2%nat. change (length (byte_string " near ")) with 6%nat. change (length (byte_string "'")) with 1%nat. lia.
Qed.

(** C29.  The scanner is total: on every well-formed state it returns a token or
    ends with an error, without undefined behaviour and within the fuel of its
    loops.  The token is a valid one, input is only consumed from the front,
    every token but the end of the source consumes some of it, the end is
    reported only when all is consumed, and the interned strings, the line
    counter and the state the parser sees are kept.  The report of an error is
    printed when the name of the chunk and the text of the token have at most 77
    characters together; the buffers the code formats it in have 128 bytes, and a
    longer report overflows them ([LexFun.long_token_overflows]). *)
Theorem lex_scan_total tv ls : lex_ok ls ->
  exists r, lex_scan tv ls = Some r /\
    (forall e src, r = inl e -> short_report src e -> is_Some (kp_err_lex src e)) /\
    forall t v ls', r = inr ((t, v), ls') ->
      ext ls ls' /\ tok_ok t /\ (t = TK_eof -> rest ls' = []) /\
      (t <> TK_eof -> (length (rest ls') < length (rest ls))%nat).
Proof.
  intros I. pose proof (wp_lex_scan tv ls I) as H. unfold wp in H. destruct (lex_scan tv ls) as [r|]; [|done]. exists r. split; [done|].
  split; [intros e src ->; by apply scanerr_reported|].
  intros t v ls' ->. destruct H as (? & ? & ? & Hw). rewrite !weight_rest in Hw. done.
Qed.
