(* ===== verification/LexDec.v ===== *)
(** * LexDec: the scanner consumes its input

    Whatever state it starts from, no operation of the lexer gives characters
    back, and every token but the end of the source takes at least one. *)

From S2P Require Import Prelude Types Bytecode BcWrite Util UtilThm Lex LexThm.
#[local] Open Scope word_scope.
#[local] Open Scope lex_scope.

(** Every result of [m] from [ls] satisfies [Φ]. *)
Definition lwp {A} (m : lexm A) (ls : lexstate) (Φ : A -> lexstate -> Prop) : Prop :=
  forall x ls', m ls = Some (inr (x, ls')) -> Φ x ls'.

(** No character more, the same token and look-ahead. *)
Definition fewer (ls ls' : lexstate) : Prop :=
  (weight ls' <= weight ls)%nat /\ l_tok ls' = l_tok ls /\ l_lookahead ls' = l_lookahead ls.

#[export] Instance fewer_preorder : PreOrder fewer.
Proof. split; [done|]. unfold fewer. intros a b c (? & ? & ?) (? & ? & ?). split_and!; [lia|congruence..]. Qed.

Definition still {A} (m : lexm A) : Prop := forall ls, lwp m ls (λ _ ls', fewer ls ls').
(** Takes a character when there is one. *)
Definition eats {A} (m : lexm A) : Prop := forall ls, l_c ls <> LEX_EOF ->
  lwp m ls (λ _ ls', fewer ls ls' /\ (weight ls' < weight ls)%nat).

Section Rules.
Context {A B : Type}.
Implicit Types (ls : lexstate).

Lemma lwp_bind (m : lexm A) (f : A -> lexm B) ls Φ : lwp m ls (λ x ls', lwp (f x) ls' Φ) -> lwp (lbind m f) ls Φ.
Proof.
  unfold lwp, lbind. intros H y ls'. destruct (m ls) as [[e|[x s1]]|] eqn:E; [done| |done]. by apply H.
Qed.
Lemma lwp_ret (x : A) ls (Φ : A -> lexstate -> Prop) : Φ x ls -> lwp (lret x) ls Φ.
Proof. unfold lwp, lret. by intros H y s' [= <- <-]. Qed.
Lemma lwp_ub ls (Φ : A -> lexstate -> Prop) : lwp lub ls Φ.
Proof. done. Qed.
Lemma lwp_opt (o : option A) ls (Φ : A -> lexstate -> Prop) : (forall x, Φ x ls) -> lwp (lopt o) ls Φ.
Proof. unfold lwp, lopt. intros H y s'. destruct o; [|done]. intros [= <- <-]. by apply H. Qed.
Lemma lwp_mono (m : lexm A) ls (Φ Ψ : A -> lexstate -> Prop) :
  lwp m ls Φ -> (forall x s', Φ x s' -> Ψ x s') -> lwp m ls Ψ.
Proof. unfold lwp. eauto. Qed.
Lemma lwp_error ls t em (Φ : A -> lexstate -> Prop) : lwp (kp_lex_error t em) ls Φ.
Proof.
  intros x ls'. unfold kp_lex_error, lbind. by repeat case_match.
Qed.
Lemma lwp_still (m : lexm A) ls (Φ : A -> lexstate -> Prop) :
  still m -> (forall x ls', fewer ls ls' -> Φ x ls') -> lwp m ls Φ.
Proof. intros H HΦ. eapply lwp_mono; [apply H|done]. Qed.
Lemma lwp_eats (m : lexm A) ls (Φ : A -> lexstate -> Prop) : l_c ls <> LEX_EOF ->
  eats m -> (forall x ls', fewer ls ls' -> (weight ls' < weight ls)%nat -> Φ x ls') -> lwp m ls Φ.
Proof. intros Hc H HΦ. eapply lwp_mono; [by apply H|]. intros x s' []. auto. Qed.
Lemma with_fuel_still (g : nat -> lexm A) : (forall n, still (g n)) -> still (with_fuel g).
Proof. intros H ls. apply H. Qed.
Lemma lwp_with_fuel (g : nat -> lexm A) ls (Φ : A -> lexstate -> Prop) :
  lwp (g (S (weight ls))) ls Φ -> lwp (with_fuel g) ls Φ.
Proof. done. Qed.
Lemma with_fuel_eats (g : nat -> lexm A) : (forall n, eats (g n)) -> eats (with_fuel g).
Proof. intros H ls. apply H. Qed.
End Rules.

Lemma lwp_get ls (Φ : lexstate -> lexstate -> Prop) : Φ ls ls -> lwp lget ls Φ.
Proof. unfold lwp, lget. by intros H y s' [= <- <-]. Qed.
Lemma lwp_put l ls (Φ : unit -> lexstate -> Prop) : Φ tt l -> lwp (lput l) ls Φ.
Proof. unfold lwp, lput. by intros H y s' [= <- <-]. Qed.
Lemma lwp_cur ls (Φ : Z -> lexstate -> Prop) : Φ (l_c ls) ls -> lwp cur ls Φ.
Proof. unfold lwp, cur. by intros H y s' [= <- <-]. Qed.
Lemma next_still : still lex_next.
Proof.
  intros ls x ls'. unfold lex_next, fewer, weight. intros [= <- <-].
  destruct (l_p ls) as [|b p]; cbn; repeat case_match; split_and!; try done; lia.
Qed.
Lemma next_eats : eats lex_next.
Proof.
  intros ls Hc x ls' E. split; [by apply (next_still ls x ls')|]. revert E.
  unfold lex_next, weight. intros [= <- <-]. rewrite (proj2 (Z.eqb_neq _ _) Hc).
  destruct (l_p ls) as [|b p]; cbn; repeat case_match; lia.
Qed.
Lemma save_still c : still (lex_save c).
Proof.
  intros ls x ls'. unfold lex_save. destruct (kp_buf_putb _ _); [|done]. by intros [= <- <-].
Qed.
Lemma reset_still : still reset.
Proof. intros ls x ls'. by intros [= <- <-]. Qed.
Lemma keepstr_still o l : still (kp_parse_keepstr o l).
Proof.
  intros ls x ls'. unfold kp_parse_keepstr. case_match; [|done].
  destruct (Util.kp_str_new _ _) as [[s t]|]; [|done]. cbn. destruct (Util.kp_tab_set _ _) as [[i kt]|]; [|done].
  cbn. destruct (u_node kt !! i) as [n|]; [|done]. cbn. destruct (if is_nil _ then _ else _); [|done].
  by intros [= <- <-].
Qed.

Create HintDb still discriminated.
#[export] Hint Constants Opaque : still.
#[export] Hint Resolve next_still next_eats save_still reset_still keepstr_still with_fuel_still with_fuel_eats : still.

Ltac fewer_chain :=
  repeat match goal with
  | H : fewer ?b ?a |- fewer _ ?a => refine (transitivity _ H); clear H
  | |- fewer ?l (set_lines ?a _ _) => change (fewer l a)
  end; reflexivity.
Ltac still_step :=
  lazymatch goal with
  | |- lwp (lbind _ _) _ _ => apply lwp_bind
  | |- lwp (lret _) _ _ => apply lwp_ret
  | |- lwp lget _ _ => apply lwp_get
  | |- lwp (lput _) _ _ => apply lwp_put
  | |- lwp cur _ _ => apply lwp_cur
  | |- lwp lub _ _ => apply lwp_ub
  | |- lwp (lopt _) _ _ => apply lwp_opt; intros ?
  | |- lwp (kp_lex_error _ _) _ _ => apply lwp_error
  | |- lwp (lex_error_here _) _ _ => unfold lex_error_here
  | |- lwp (if ?b then _ else _) _ _ => destruct b eqn:?
  | |- lwp (match ?x with _ => _ end) _ _ => destruct x
  | |- lwp (let x := _ in _) _ _ => cbv zeta
  | |- lwp _ _ _ =>
      first [eapply lwp_eats; [assumption|solve [eauto with still]|intros ? ? ? ?]
            |eapply lwp_still; [solve [eauto with still]|intros ? ? ?]]
  | |- fewer _ _ => fewer_chain
  end.
Ltac still_tac := intros ?; repeat still_step.

Lemma savenext_still : still lex_savenext. Proof. unfold lex_savenext. still_tac. Qed.
Lemma savenext_eats : eats lex_savenext.
Proof.
  intros ls Hc. unfold lex_savenext. do 3 still_step. intros x ls'. unfold lex_save.
  destruct (kp_buf_putb _ _) as [sb|]; [|done]. intros [= <- <-]. apply (next_eats (set_sb ls sb) Hc).
Qed.
#[export] Hint Resolve savenext_still savenext_eats : still.

(** ** The parts of the scanner *)

Lemma eats_bind {A B} (m : lexm A) (f : A -> lexm B) : eats m -> (forall x, still (f x)) -> eats (lbind m f).
Proof.
  intros Hm Hf ls Hc. apply lwp_bind. eapply lwp_mono; [by apply Hm|]. cbv beta. intros x l1 [F1 W1].
  eapply lwp_mono; [apply Hf|]. cbv beta. intros y l2 F2. split; [by transitivity l1|]. destruct F2. lia.
Qed.
Lemma eats_cur {A} (f : Z -> lexm A) : (forall c, c <> LEX_EOF -> eats (f c)) -> eats (lbind cur f).
Proof. intros H ls Hc. do 2 still_step. by apply H. Qed.

Lemma newline_still : still lex_newline. Proof. unfold lex_newline. still_tac. Qed.
Lemma newline_eats : eats lex_newline.
Proof. apply eats_cur. intros c Hc. apply eats_bind; [apply next_eats|]. intros x. still_tac. Qed.
#[export] Hint Resolve newline_still newline_eats : still.
Lemma number_loop_still n : forall c xp, still (number_loop n c xp).
Proof. induction n; intros c xp; cbn [number_loop]; still_tac. Qed.
Lemma number_end_still : still number_end. Proof. unfold number_end. still_tac. Qed.
#[export] Hint Resolve number_loop_still number_end_still : still.
Lemma number_still : still lex_number. Proof. unfold lex_number. still_tac. Qed.
Lemma skipeq_loop_still n : forall k, still (skipeq_loop n k).
Proof. induction n; intros k; cbn [skipeq_loop]; still_tac. Qed.
#[export] Hint Resolve number_still skipeq_loop_still : still.
Lemma skipeq_still : still lex_skipeq. Proof. unfold lex_skipeq. still_tac. Qed.
#[export] Hint Resolve skipeq_still : still.
Lemma longstring_loop_still n : forall tv sep, still (longstring_loop n tv sep).
Proof. induction n; intros tv sep; cbn [longstring_loop]; still_tac. Qed.
#[export] Hint Resolve longstring_loop_still : still.
Lemma longstring_still tv sep : still (lex_longstring tv sep). Proof. unfold lex_longstring. still_tac. Qed.
Lemma space_loop_still n : still (space_loop n).
Proof. induction n; cbn [space_loop]; still_tac. Qed.
Lemma err_xesc_still : still err_xesc. Proof. unfold err_xesc. still_tac. Qed.
#[export] Hint Resolve longstring_still space_loop_still err_xesc_still : still.
Lemma hex_digit_still : still hex_digit. Proof. unfold hex_digit. still_tac. Qed.
Lemma dec_escape_still c : still (dec_escape c). Proof. unfold dec_escape. still_tac. Qed.
#[export] Hint Resolve hex_digit_still dec_escape_still : still.
Lemma escape_still : still lex_escape. Proof. unfold lex_escape. still_tac. Qed.
#[export] Hint Resolve escape_still : still.
Lemma string_loop_still n : forall d, still (string_loop n d).
Proof. induction n; intros d; cbn [string_loop]; still_tac. Qed.
#[export] Hint Resolve string_loop_still : still.
Lemma string_still : still lex_string. Proof. unfold lex_string. still_tac. Qed.
Lemma blank_loop_still n : still (blank_loop n). Proof. induction n; cbn [blank_loop]; still_tac. Qed.
Lemma until_loop_still n : forall c, still (until_loop n c).
Proof. induction n; intros c; cbn [until_loop]; still_tac. Qed.
Lemma ident_loop_still n : still (ident_loop n). Proof. induction n; cbn [ident_loop]; still_tac. Qed.
Lemma line_loop_still n : still (line_loop n). Proof. induction n; cbn [line_loop]; still_tac. Qed.
#[export] Hint Resolve string_still blank_loop_still until_loop_still ident_loop_still line_loop_still : still.
Lemma ident_still : still lex_ident. Proof. unfold lex_ident. still_tac. Qed.
Lemma two_still a b c tv : still (two a b c tv). Proof. unfold two. still_tac. Qed.
#[export] Hint Resolve ident_still two_still : still.

(** ** Tokens take characters *)

Lemma skipeq_loop_eats n k : eats (skipeq_loop n k).
Proof. destruct n; [done|]. cbn [skipeq_loop]. apply eats_bind; [apply savenext_eats|]. intros x. still_tac. Qed.
Lemma skipeq_eats : eats lex_skipeq.
Proof.
  apply eats_cur. intros c Hc. apply eats_bind; [|intros; still_tac].
  apply with_fuel_eats. intros. apply skipeq_loop_eats.
Qed.
Lemma ident_eats : eats lex_ident.
Proof.
  unfold lex_ident. apply eats_bind; [|intros; still_tac]. apply with_fuel_eats. intros n.
  destruct n; [done|]. cbn [ident_loop]. apply eats_bind; [apply savenext_eats|]. intros x. still_tac.
Qed.
Lemma two_eats a b c tv : eats (two a b c tv).
Proof. apply eats_bind; [apply next_eats|]. intros x. still_tac. Qed.
Lemma string_eats : eats lex_string.
Proof. apply eats_cur. intros c Hc. apply eats_bind; [apply savenext_eats|]. intros x. still_tac. Qed.
#[export] Hint Resolve skipeq_eats ident_eats two_eats string_eats : still.

(** A number starts with a digit, which is saved first. *)
Lemma isdigit_char c : kp_char_isdigit c = true -> is_char c.
Proof.
  intros H. unfold kp_char_isdigit, kp_char_isa in H. destruct (decide (-1 <= c <= 255)) as [|n]; [done|].
  assert (nth (Z.to_nat (c + 1)) kp_char_bits 0 .& KP_CHAR_DIGIT = 0) as E; [|by rewrite E in H].
  destruct (decide (c < -1)).
  - by replace (Z.to_nat (c + 1)) with 0%nat by lia.
  - rewrite nth_overflow; [done|]. change (length kp_char_bits) with 257%nat. lia.
Qed.

Lemma number_eats ls : kp_char_isdigit (l_c ls) = true ->
  lwp lex_number ls (λ _ ls', fewer ls ls' /\ (weight ls' < weight ls)%nat).
Proof.
  intros Hd. assert (Hc : l_c ls <> LEX_EOF) by by apply isdigit_not_eof.
  assert (Hi : kp_char_isident (l_c ls) = true) by (apply isdigit_isident; [by apply isdigit_char|done]).
  unfold lex_number. do 2 still_step. destruct (l_c ls =? 48).
  - refine (eats_bind _ _ _ _ ls Hc); [apply eats_bind; [apply savenext_eats|intros; still_tac]|intros; still_tac].
  - do 2 still_step. apply lwp_bind, lwp_with_fuel. cbn [number_loop]. do 2 still_step.
    rewrite Hi. cbn [orb]. apply lwp_bind. eapply lwp_mono; [by apply savenext_eats|]. cbv beta.
    intros x l1 [F1 W1]. eapply lwp_still; [eauto with still|]. intros y l2 F2.
    eapply lwp_still; [eauto with still|]. intros z l3 F3. split; [by do 2 (etransitivity; [eassumption|])|].
    destruct F2, F3. lia.
Qed.

(** What a token does to the input. *)
Definition took (ls : lexstate) (r : Z * ktap_val) (ls' : lexstate) : Prop :=
  fewer ls ls' /\ (fst r <> TK_eof -> (weight ls' < weight ls)%nat).

Lemma lwp_token (m : lexm (Z * ktap_val)) ls : l_c ls <> LEX_EOF -> eats m -> lwp m ls (took ls).
Proof. intros Hc H. eapply lwp_mono; [by apply H|]. intros x l []. by split. Qed.
Lemma lwp_more {A} (m : lexm A) (f : lexm (Z * ktap_val)) ls :
  still m -> (forall l, lwp f l (took l)) -> lwp (m ;;; f) ls (took ls).
Proof.
  intros Hm Hf. apply lwp_bind. eapply lwp_still; [done|]. intros x l1 F1. eapply lwp_mono; [apply Hf|].
  intros r l2 [F2 W2]. split; [by transitivity l1|]. intros Hr. destruct F1. specialize (W2 Hr). lia.
Qed.

Lemma scan_loop_took n : forall tv ls, lwp (scan_loop n tv) ls (took ls).
Proof.
  induction n as [|n IH]; intros tv ls; cbn [scan_loop]; [apply lwp_ub|]. do 2 still_step.
  destruct (kp_char_isident (l_c ls)) eqn:Hi.
  { assert (Hc : l_c ls <> LEX_EOF) by by apply isident_not_eof. destruct (kp_char_isdigit (l_c ls)) eqn:Hd.
    - apply lwp_bind. eapply lwp_mono; [by apply number_eats|]. cbv beta. intros x l [F W]. apply lwp_ret. by split.
    - apply lwp_token; [done|apply ident_eats]. }
  assert (IHs : forall tv, still (scan_loop n tv)).
  { intros v l. eapply lwp_mono; [apply IH|]. by intros ? ? []. }
  destruct (l_c ls =? LEX_EOF) eqn:He.
  { apply Z.eqb_eq in He. rewrite He. cbn. by apply lwp_ret. }
  destruct (l_c ls =? 35) eqn:H35.
  { apply Z.eqb_eq in H35. rewrite H35. change (lwp (with_fuel line_loop ;;; scan_loop n tv) ls (took ls)).
    apply lwp_more; [eauto with still|apply IH]. }
  apply Z.eqb_neq in He. apply lwp_token; [done|].
  repeat match goal with |- eats (if ?b then _ else _) => destruct b end;
    first [solve [eauto with still]|apply eats_bind; [solve [eauto with still]|intros; still_tac]].
Qed.

Lemma scan_took tv ls : lwp (lex_scan tv) ls (took ls).
Proof.
  unfold lex_scan. apply lwp_bind. intros x l [= <- <-]. unfold with_fuel.
  apply (scan_loop_took _ tv (set_sb ls (kp_buf_reset (l_sb ls)))).
Qed.

(** ** The interface *)

Definition b2n (b : bool) : nat := if b then 1 else 0.

(** Characters and tokens in front of the parser. *)
Definition ahead (ls : lexstate) : nat :=
  (weight ls + b2n (negb (l_tok ls =? TK_eof)%Z) + b2n (negb (l_lookahead ls =? TK_eof)%Z))%nat.

Ltac ahead_tac :=
  unfold ahead, weight, b2n in *; cbn in *; simplify_eq;
  repeat match goal with
  | H : _ = l_lookahead _ |- _ => rewrite H in *
  | H : _ = l_tok _ |- _ => rewrite H in *
  | H : l_lookahead _ = _ |- _ => rewrite H in *
  | H : l_tok _ = _ |- _ => rewrite H in *
  end;
  repeat case_match; bool_to_Prop; cbn in *; split_and?; intros; try lia.

Lemma lex_next_ahead ls : lwp kp_lex_next ls (λ _ ls', (ahead ls' <= ahead ls)%nat /\
  (l_tok ls <> TK_eof -> (ahead ls' < ahead ls)%nat) /\ (weight ls' <= weight ls)%nat /\
  l_lookahead ls' = TK_eof).
Proof.
  unfold kp_lex_next. repeat still_step.
  - eapply lwp_mono; [apply scan_took|]. cbv beta. intros r l [[W [Ht Hl]] Hs]. repeat still_step.
    destruct (decide (fst r = TK_eof)) as [e|e]; [clear Hs|specialize (Hs e)]; ahead_tac.
  - ahead_tac.
Qed.

Lemma lex_lookahead_ahead ls : lwp kp_lex_lookahead ls (λ _ ls', (ahead ls' <= ahead ls)%nat /\ l_tok ls' = l_tok ls).
Proof.
  unfold kp_lex_lookahead. repeat still_step. eapply lwp_mono; [apply scan_took|]. cbv beta.
  intros r l [[W [Ht Hl]] Hs]. repeat still_step. split; [|done].
  destruct (decide (fst r = TK_eof)) as [e|e]; [clear Hs|specialize (Hs e)]; ahead_tac.
Qed.

Lemma until_ahead c ls : lwp (kp_lex_read_string_until c) ls (λ _ ls',
  (weight ls' <= weight ls)%nat /\ l_tok ls' = TK_string /\ l_lookahead ls' = l_lookahead ls).
Proof.
  unfold kp_lex_read_string_until. repeat still_step.
  assert (F : fewer ls ls'2) by fewer_chain. destruct F as (W & _ & Hl). done.
Qed.

Lemma cstr_length b s : cstr b = Some s -> (length s < length b)%nat.
Proof.
  revert s. induction b as [|c b IH]; intros s; cbn [cstr]; [done|]. destruct (c =? 0).
  - intros [= <-]. cbn. lia.
  - destruct (cstr b) as [r|]; [|done]. intros [= <-]. specialize (IH r eq_refl). cbn. lia.
Qed.

Lemma header_loop_still n : still (header_loop n).
Proof. induction n; cbn [header_loop]; still_tac. Qed.
#[export] Hint Resolve header_loop_still : still.

(** Set-up leaves no more characters than the source has. *)
Lemma setup_ahead src ls : lwp (kp_lex_setup src) ls (λ _ ls',
  (weight ls' <= length src)%nat /\ l_lookahead ls' = TK_eof).
Proof.
  unfold kp_lex_setup. apply lwp_bind. intros s l0 E. unfold lopt in E. destruct (cstr src) as [s'|] eqn:Hs; [|done].
  injection E as -> <-. apply cstr_length in Hs. do 4 still_step.
  set (l1 := set_lines _ _ _). assert (W1 : (weight l1 <= length src)%nat /\ l_lookahead l1 = TK_eof).
  { subst l1. unfold weight. cbn. split; [|done]. case_match; lia. }
  clearbody l1. do 2 still_step. destruct W1 as [W1 L1].
  match goal with H : fewer l1 ?l |- _ => destruct H as (W2 & _ & L2); rename l into l2 end. do 2 still_step.
  apply lwp_bind. assert (lwp match l_p l2 with
    | b0 :: b1 :: p => if (x =? 239) && (b0 =? 187) && (b1 =? 191) then lput (set_input l2 p x) ;;; lex_next else lret x
    | _ => lret x end l2 (λ _ l3, (weight l3 <= length src)%nat /\ l_lookahead l3 = TK_eof)) as H3.
  { destruct (l_p l2) as [|b0 [|b1 p]] eqn:Ep; [apply lwp_ret; split; [lia|congruence]..|].
    destruct (_ && _); [|apply lwp_ret; split; [lia|congruence]]. do 2 still_step. still_step.
    match goal with H : fewer _ _ |- _ => destruct H as (W3 & _ & L3) end. cbn in L3.
    unfold weight in *. rewrite Ep in W2. cbn in W2, W3. split; [|congruence]. repeat case_match; lia. }
  eapply lwp_mono; [exact H3|]. cbv beta. intros c l3 [W3 L3]. destruct (c =? 35); [|by apply lwp_ret].
  eapply lwp_still; [eauto with still|]. intros y l4 (W4 & _ & L4). split; [lia|congruence].
Qed.
