(* ===== verification/LexFun.v ===== *)
(** * LexFun: what the scanner returns

    Start-up of the lexer, names and reserved words, quoted strings, numbers. *)

From S2P Require Import Prelude Types Bytecode BcWrite Util UtilThm Lex LexThm.
#[local] Open Scope word_scope.
#[local] Open Scope lex_scope.

(** ** Reserved words *)

Definition word_obj (i : nat) (w : string) : ustring := mkustr (byte_string w) (Z.of_nat i + 1).
Definition init_strs : strtab := mkstrtab (imap word_obj reserved_words) 1000.

Lemma kp_lex_init_strs : kp_lex_init kp_str_resize = Some init_strs.
Proof. vm_compute. reflexivity. Qed.

Lemma word_index_lookup ws w i : word_index ws w i <> 0 -> exists j x, ws !! j = Some x /\ byte_string x = w.
Proof.
  revert i. induction ws as [|x ws IH]; intros i Hi; cbn [word_index] in Hi; [done|].
  case_decide as E; [by exists 0%nat, x|]. destruct (IH _ Hi) as (j & y & Hj & Ey). by exists (S j), y.
Qed.

Lemma init_words_ok : words_ok init_strs.
Proof.
  split.
  - split; [|done]. apply (bool_decide_unpack _). vm_compute. done.
  - intros a s Hs. apply str_obj_lookup in Hs as [_ Hs].
    assert (HF : Forall (λ s, us_reserved s = reserved_of (us_bytes s)) (st_objs init_strs)).
    { apply (bool_decide_unpack _). vm_compute. done. }
    by eapply list.Forall_lookup_1 in HF.
  - intros w Hw. destruct (word_index_lookup _ _ _ Hw) as (j & x & Hj & <-).
    exists (Z.of_nat j + 1). unfold bytes_of, str_obj. rewrite (proj2 (Z.leb_le _ _)) by lia.
    replace (Z.to_nat _) with j by lia. cbn [st_objs init_strs]. by rewrite list_lookup_imap, Hj.
Qed.

(** ** Characters of the rest of the input *)

Abbreviation noerr := (λ _ : lexerr, False).

Lemma cur_rest ls : lex_ok ls -> l_c ls = default LEX_EOF (head (rest ls)).
Proof.
  intros I. destruct (Z.eq_dec (l_c ls) LEX_EOF) as [E|E]; [by rewrite rest_eof|]. by rewrite rest_next.
Qed.

Lemma u8_byte c : is_char c -> c <> LEX_EOF -> u8 c = c.
Proof. intros H Hn. apply wrap_id. unfold in_u, is_char, LEX_EOF in *. lia. Qed.

(** Consuming the first character of the rest. *)
Lemma savenext_cons ls c r : lex_ok ls -> rest ls = c :: r ->
  l_c ls = c /\ ext ls (savenext ls) /\ rest (savenext ls) = r /\ weight ls = S (weight (savenext ls)) /\
  sb_data (l_sb (savenext ls)) = sb_data (l_sb ls) ++ [c].
Proof.
  intros I Hr. destruct (rest_not_nil ls c r I Hr) as (Hc & Hne & Hn). rewrite <- Hc in Hne.
  split_and!; [done|by apply ext_savenext|by rewrite rest_savenext|by apply weight_savenext|].
  rewrite sb_savenext, u8_byte by (done || apply I). by rewrite Hc.
Qed.

Lemma next_cons ls c r : lex_ok ls -> rest ls = c :: r ->
  l_c ls = c /\ ext ls (next ls) /\ rest (next ls) = r /\ weight ls = S (weight (next ls)) /\
  l_sb (next ls) = l_sb ls.
Proof.
  intros I Hr. destruct (rest_not_nil ls c r I Hr) as (Hc & Hne & Hn). rewrite <- Hc in Hne.
  split_and!; [done|by apply ext_next|done|by apply weight_next|apply sb_next].
Qed.

(** ** Names *)

Lemma wp_ident_munch w r : forall f ls, lex_ok ls -> rest ls = w ++ r -> w <> [] ->
  Forall (λ c, kp_char_isident c = true) (tail w) -> kp_char_isident (default LEX_EOF (head r)) = false ->
  (weight ls < f)%nat ->
  wp (ident_loop f) noerr
    (λ _ ls', ext ls ls' /\ rest ls' = r /\ sb_data (l_sb ls') = sb_data (l_sb ls) ++ w) ls.
Proof.
  induction w as [|c w IH]; intros f ls I Hr Hw Hid Hend Hf; [done|]. cbn [tail app] in *.
  destruct f as [|f]; [lia|]. cbn [ident_loop].
  destruct (savenext_cons ls c (w ++ r) I Hr) as (Hc & He & Hr1 & Hw1 & Hs1).
  apply wp_bind, wp_savenext'; [done|]. rewrite (cur_rest (savenext ls)), Hr1 by apply He.
  destruct w as [|d w].
  - cbn [app]. rewrite Hend. apply wp_ret. split_and!; [done..|]. by rewrite Hs1.
  - apply list.Forall_cons in Hid as [Hd Hid]. cbn [app head default from_option id]. rewrite Hd.
    apply (wp_ext _ _ ls (savenext ls)); [done|]. eapply wp_mono; [apply IH; [apply He|done..|lia]|].
    intros x ls' (He' & Hr' & Hs'). split_and!; [done..|]. by rewrite Hs', Hs1, <- app_assoc.
Qed.

Lemma lex_scan_start tv E Q ls : lex_ok ls ->
  wp (scan_loop (S (weight ls)) tv) E Q (set_sb ls (kp_buf_reset (l_sb ls))) -> wp (lex_scan tv) E Q ls.
Proof. intros I H. unfold lex_scan. by apply wp_bind, wp_reset, wp_fuel. Qed.

(** Names are scanned by the longest match: from a letter, underscore or high
    byte on, the scanner takes all identifier characters, interns exactly these
    bytes and returns the token of the word, the number it is reserved with in
    the order of the token list or a name; the rest of the input is untouched. *)
Theorem lex_scan_name tv ls c w r : lex_ok ls -> rest ls = (c :: w) ++ r ->
  kp_char_isident c = true -> kp_char_isdigit c = false ->
  Forall (λ d, kp_char_isident d = true) w -> kp_char_isident (default LEX_EOF (head r)) = false ->
  exists s ls', lex_scan tv ls = Some (inr ((word_token (c :: w), set_string s), ls')) /\
    bytes_of (l_strs ls') s = Some (c :: w) /\ rest ls' = r /\ ext ls ls'.
Proof.
  intros I Hr Hid Hnd Hw Hend.
  enough (H : wp (lex_scan tv) noerr (λ x ls', exists s, x = (word_token (c :: w), set_string s) /\
    bytes_of (l_strs ls') s = Some (c :: w) /\ rest ls' = r /\ ext ls ls') ls).
  { unfold wp in H. destruct (lex_scan tv ls) as [[e|[x ls']]|]; [done| |done].
    destruct H as (s & -> & ? & ? & ?). by exists s, ls'. }
  apply lex_scan_start; [done|]. pose proof (ext_reset ls I) as He0.
  set (ls0 := set_sb ls (kp_buf_reset (l_sb ls))) in *. change (rest ls) with (rest ls0) in Hr.
  cbn [scan_loop]. apply wp_bind, wp_cur. pose proof (cur_rest ls0 (ex_ok _ _ He0)) as Hc. rewrite Hr in Hc.
  cbn [app head default from_option id] in Hc. rewrite Hc, Hid, Hnd. unfold lex_ident. apply wp_bind, wp_fuel.
  eapply wp_mono; [apply (wp_ident_munch (c :: w) r); [apply He0|done..|lia]|].
  intros x ls1 (He1 & Hr1 & Hs1). apply wp_bind, wp_get. eapply wp_mono; [apply wp_ident_end, He1|].
  intros y ls2 (s & t & kt & -> & -> & He2 & Hb). rewrite Hs1 in *. exists s. split_and!; try done.
  by do 2 (eapply lext_trans; [done|]).
Qed.

(** ** Quoted strings *)

(** A byte as the source of a string literal has it: quotes, backslashes and
    control characters as decimal escapes. *)
Definition plain_byte (b : Z) : bool := (32 <=? b) && negb (b =? 34) && negb (b =? 92).
Definition quote_byte (b : Z) : bytes :=
  if plain_byte b then [b] else [92; 48 + b / 100; 48 + b / 10 mod 10; 48 + b mod 10].
Definition quote_body (s : bytes) : bytes := concat (quote_byte <$> s).
Definition quote (s : bytes) : bytes := 34 :: quote_body s ++ [34].

Lemma isdigit_true c : 48 <= c <= 57 -> kp_char_isdigit c = true.
Proof.
  intros H. rewrite isdigit_spec by (unfold is_char; lia). unfold is_digit. by rewrite !(proj2 (Z.leb_le _ _)) by lia.
Qed.

Lemma three_digits b : is_byte b ->
  (48 + b / 100 - 48) * 10 + (48 + b / 10 mod 10 - 48) = b / 10 /\ b / 10 * 10 + (48 + b mod 10 - 48) = b.
Proof.
  unfold is_byte. intros H. pose proof (Z.div_mod b 10 ltac:(lia)). pose proof (Z.div_mod (b / 10) 10 ltac:(lia)).
  rewrite Z.div_div in * by lia. change (10 * 10) with 100 in *. lia.
Qed.

Lemma wp_dec_munch b r ls : lex_ok ls -> is_byte b ->
  rest ls = 48 + b / 100 :: 48 + b / 10 mod 10 :: 48 + b mod 10 :: r ->
  wp (dec_escape (48 + b / 100)) noerr
    (λ _ ls', ext ls ls' /\ rest ls' = r /\ sb_data (l_sb ls') = sb_data (l_sb ls) ++ [b]) ls.
Proof.
  intros I Hb Hr. pose proof (three_digits b Hb) as [E1 E2]. unfold is_byte in Hb.
  pose proof (Z.mod_pos_bound b 10 ltac:(lia)). pose proof (Z.mod_pos_bound (b / 10) 10 ltac:(lia)).
  destruct (next_cons ls _ _ I Hr) as (_ & He1 & Hr1 & _ & Hs1).
  destruct (next_cons _ _ _ (ex_ok _ _ He1) Hr1) as (Hc1 & He2 & Hr2 & _ & Hs2).
  destruct (next_cons _ _ _ (ex_ok _ _ He2) Hr2) as (Hc2 & He3 & Hr3 & _ & Hs3).
  unfold dec_escape. wp_pure. rewrite Hc1, isdigit_true by lia. wp_pure. rewrite Hc2, isdigit_true by lia.
  rewrite E1, E2. apply wp_bind. destruct (Z.gtb_spec b 255); [lia|]. wp_pure.
  apply wp_save; [apply He3|]. pose proof (ext_save b _ (ex_ok _ _ He3)) as He4.
  split_and!; [by do 3 (eapply lext_trans; [done|])|done|].
  cbn [save set_sb l_sb save_sb sb_data]. rewrite Hs3, Hs2, Hs1, u8_byte; [done|unfold is_char; lia|unfold LEX_EOF; lia].
Qed.

Lemma wp_escape_munch b r ls : lex_ok ls -> is_byte b ->
  rest ls = 92 :: 48 + b / 100 :: 48 + b / 10 mod 10 :: 48 + b mod 10 :: r ->
  wp lex_escape noerr
    (λ _ ls', ext ls ls' /\ rest ls' = r /\ sb_data (l_sb ls') = sb_data (l_sb ls) ++ [b]) ls.
Proof.
  intros I Hb Hr. destruct (next_cons ls _ _ I Hr) as (_ & He1 & Hr1 & _ & Hs1). unfold lex_escape.
  apply wp_bind, wp_next. cbv zeta. pose proof (cur_rest _ (ex_ok _ _ He1)) as Hc. rewrite Hr1 in Hc. cbn in Hc.
  assert (Hd : 0 <= b / 100 <= 2).
  { unfold is_byte in Hb. split; [apply Z.div_pos; lia|]. apply Z.lt_succ_r, Z.div_lt_upper_bound; lia. }
  rewrite Hc. unfold lex_iseol, LEX_EOF. rewrite !(proj2 (Z.eqb_neq _ _)) by lia. cbn [orb].
  rewrite isdigit_true by lia. cbn [negb]. apply (wp_ext _ _ ls (next ls)); [done|].
  eapply wp_mono; [by apply (wp_dec_munch b r); [apply He1|..]|]. intros x ls' (He & Hr' & Hs).
  split_and!; [done..|]. by rewrite Hs, Hs1.
Qed.

Lemma wp_string_munch s r : forall f ls, lex_ok ls -> Forall is_byte s -> rest ls = quote_body s ++ 34 :: r ->
  (weight ls < f)%nat ->
  wp (string_loop f 34) noerr
    (λ _ ls', ext ls ls' /\ rest ls' = 34 :: r /\ sb_data (l_sb ls') = sb_data (l_sb ls) ++ s) ls.
Proof.
  induction s as [|b s IH]; intros [|f] ls I HF Hr Hf; try lia; cbn [string_loop]; apply wp_bind, wp_cur;
    pose proof (cur_rest ls I) as Hc; rewrite Hr in Hc.
  - cbn in Hc. rewrite Hc. apply wp_ret. split_and!; [by apply lext_refl|done|by rewrite app_nil_r].
  - apply list.Forall_cons in HF as [Hb HF]. unfold quote_body in Hr, Hc. cbn [fmap list_fmap concat] in Hr, Hc.
    fold (quote_body s) in Hr, Hc. rewrite <- app_assoc in Hr, Hc. unfold quote_byte in Hr, Hc.
    destruct (plain_byte b) eqn:Hp.
    + cbn in Hr, Hc. unfold plain_byte in Hp. bool_to_Prop. rewrite Hc. unfold lex_iseol, LEX_EOF.
      rewrite !(proj2 (Z.eqb_neq b _)) by lia. cbn [orb].
      destruct (savenext_cons ls _ _ I Hr) as (_ & He & Hr1 & Hw1 & Hs1). apply wp_bind, wp_savenext'; [done|].
      apply (wp_ext _ _ ls (savenext ls)); [done|]. eapply wp_mono; [apply IH; [apply He|done..|lia]|].
      intros x ls' (He' & Hr' & Hs'). split_and!; [done..|]. by rewrite Hs', Hs1, <- app_assoc.
    + cbn in Hr, Hc. rewrite Hc. cbn. apply wp_bind. eapply wp_mono; [by apply (wp_escape_munch b (quote_body s ++ 34 :: r))|].
      intros x ls1 (He & Hr1 & Hs1). apply (wp_ext _ _ ls ls1); [done|].
      eapply wp_mono; [apply IH; [apply He|done..|]|].
      * rewrite weight_rest in Hf |- *. rewrite Hr in Hf. rewrite Hr1. simpl in Hf. lia.
      * intros y ls' (He' & Hr' & Hs'). split_and!; [done..|]. by rewrite Hs', Hs1, <- app_assoc.
Qed.

(** C31.  String literals are read back: whatever bytes are written as a quoted
    literal, with decimal escapes where needed, the scanner returns a string
    token whose interned value is exactly these bytes, and consumes exactly the
    literal. *)
Theorem lex_scan_string tv ls s r : lex_ok ls -> Forall is_byte s -> rest ls = quote s ++ r ->
  exists a ls', lex_scan tv ls = Some (inr ((TK_string, set_string a), ls')) /\
    bytes_of (l_strs ls') a = Some s /\ rest ls' = r /\ ext ls ls'.
Proof.
  intros I HF Hr.
  enough (H : wp (lex_scan tv) noerr (λ x ls', exists a, x = (TK_string, set_string a) /\
    bytes_of (l_strs ls') a = Some s /\ rest ls' = r /\ ext ls ls') ls).
  { unfold wp in H. destruct (lex_scan tv ls) as [[e|[x ls']]|]; [done| |done].
    destruct H as (a & -> & ? & ? & ?). by exists a, ls'. }
  apply lex_scan_start; [done|]. pose proof (ext_reset ls I) as He0.
  assert (Hs0 : sb_data (l_sb (set_sb ls (kp_buf_reset (l_sb ls)))) = []) by done.
  set (ls0 := set_sb ls (kp_buf_reset (l_sb ls))) in *. change (rest ls) with (rest ls0) in Hr.
  unfold quote in Hr. cbn [app] in Hr. rewrite <- app_assoc in Hr. cbn [app] in Hr.
  destruct (savenext_cons ls0 _ _ (ex_ok _ _ He0) Hr) as (Hc & He1 & Hr1 & _ & Hs1).
  cbn [scan_loop]. apply wp_bind, wp_cur. rewrite Hc. cbn. unfold lex_string.
  apply wp_bind, wp_bind, wp_cur, wp_bind, wp_savenext'; [apply He0|]. rewrite Hc. apply wp_bind, wp_fuel.
  eapply wp_mono; [apply (wp_string_munch s r); [apply He1|done..|lia]|]. intros x ls1 (He2 & Hr2 & Hs2).
  destruct (savenext_cons ls1 _ _ (ex_ok _ _ He2) Hr2) as (_ & He3 & Hr3 & _ & Hs3).
  apply wp_bind, wp_savenext'; [apply He2|]. rewrite Hs2, Hs1, Hs0 in Hs3. cbn [app] in Hs3.
  assert (Hlen : sbuflen (l_sb (savenext ls1)) = Z.of_nat (length s) + 2).
  { unfold sbuflen. rewrite Hs3. cbn [length]. rewrite length_app. simpl. lia. }
  wp_pure. eapply wp_mono; [apply wp_keepstr; [apply He3|lia..]|].
  intros a ls2 (t & kt & -> & He4 & Hb). apply wp_ret. exists a. split_and!; [done| |done|].
  - cbn [l_strs set_strs]. rewrite Hb, Hs3, Hlen. change (Z.to_nat 1) with 1%nat. cbn [drop].
    replace (Z.to_nat _) with (length s) by lia. f_equal. apply take_app_length.
  - by do 4 (eapply lext_trans; [done|]).
Qed.

(** ** Numbers *)

Definition digit_of (base c : Z) : Prop := exists d, digit_val c = Some d /\ d < base.

Definition digits_value (base : Z) (ds : bytes) : Z := foldl (λ a c, a * base + default 0 (digit_val c)) 0 ds.

(** The literals of C: decimal, octal behind a 0, hexadecimal behind 0x. *)
Definition num_lit (base : Z) (w ds : bytes) : Prop :=
  Forall (digit_of base) ds /\
  (base = 10 /\ w = ds /\ ds <> [] /\ head ds <> Some 48 \/
   base = 8 /\ w = 48 :: ds \/
   base = 16 /\ ds <> [] /\ exists x, (x = 120 \/ x = 88) /\ w = 48 :: x :: ds).

Lemma digit_of_range base c : base <= 16 -> digit_of base c ->
  48 <= c <= 57 \/ 10 < base /\ (97 <= c <= 102 \/ 65 <= c <= 70).
Proof.
  intros Hb (d & Hd & Hlt). unfold digit_val in Hd.
  destruct ((48 <=? c) && (c <=? 57)) eqn:E1; [bool_to_Prop; lia|].
  destruct ((97 <=? c) && (c <=? 122)) eqn:E2; [bool_to_Prop; simplify_eq; lia|].
  destruct ((65 <=? c) && (c <=? 90)) eqn:E3; [bool_to_Prop; simplify_eq; lia|done].
Qed.

(** Characters of a number: identifier characters, none a sign can follow. *)
Definition num_char (xp c : Z) : Prop := kp_char_isident c = true /\ c .| 0x20 <> xp /\ c <> 110 /\ c <> 78.

Lemma num_char_check : forall c, is_char c ->
  (negb (is_hex c) || (kp_char_isident c && negb (c .| 0x20 =? 112) && negb (c =? 110) && negb (c =? 78))) &&
  (negb (is_digit c) || (kp_char_isident c && negb (c .| 0x20 =? 101) && negb (c =? 110) && negb (c =? 78))) &&
  (negb (c .| 0x20 =? 120) || (kp_char_isident c && negb (is_digit c))) = true.
Proof. apply char_forall. vm_compute. reflexivity. Qed.

Lemma between_true a b c : a <= c <= b -> (a <=? c) && (c <=? b) = true.
Proof. intros. by rewrite !(proj2 (Z.leb_le _ _)) by lia. Qed.

Lemma hex_num_char c : digit_of 16 c -> num_char 112 c.
Proof.
  intros Hd. pose proof (digit_of_range 16 c ltac:(lia) Hd) as Hr.
  pose proof (num_char_check c ltac:(unfold is_char; lia)) as H.
  assert (Hh : is_hex c = true).
  { unfold is_hex, is_digit. destruct Hr as [Hr|[_ [Hr|Hr]]]; rewrite (between_true _ _ _ Hr), ?orb_true_r; done. }
  rewrite Hh in H. cbn [negb orb] in H. unfold num_char. bool_to_Prop. done.
Qed.

Lemma dec_num_char base c : base <= 10 -> digit_of base c -> num_char 101 c.
Proof.
  intros Hb Hd. pose proof (digit_of_range base c ltac:(lia) Hd) as Hr.
  pose proof (num_char_check c ltac:(unfold is_char; lia)) as H.
  assert (Hh : is_digit c = true) by (apply between_true; lia).
  rewrite Hh in H. cbn [negb orb] in H. unfold num_char. bool_to_Prop. done.
Qed.

(** The scan of the text of a number. *)
Lemma wp_number_munch w r xp : forall f c ls, lex_ok ls -> rest ls = w ++ r -> c .| 0x20 <> xp ->
  Forall (num_char xp) w ->
  kp_char_isident (default LEX_EOF (head r)) = false -> head r <> Some 46 -> (weight ls < f)%nat ->
  wp (number_loop f c xp) noerr
    (λ _ ls', ext ls ls' /\ rest ls' = r /\ sb_data (l_sb ls') = sb_data (l_sb ls) ++ w) ls.
Proof.
  induction w as [|d w IH]; intros [|f] c ls I Hr Hc HF Hend Hdot Hf; try lia; cbn [number_loop];
    apply wp_bind, wp_cur; rewrite (cur_rest ls I), Hr.
  - cbn [app]. rewrite Hend, (proj2 (Z.eqb_neq _ xp) Hc), andb_false_r. cbn [orb].
    replace (default LEX_EOF (head r) =? 46) with false.
    + apply wp_ret. split_and!; [by apply lext_refl|done|by rewrite app_nil_r].
    + symmetry. apply Z.eqb_neq. destruct r as [|x r]; cbn in *; [done|congruence].
  - apply list.Forall_cons in HF as [(Hid & Hx & _) HF]. cbn [app head default from_option id]. rewrite Hid. cbn [orb].
    destruct (savenext_cons ls d (w ++ r) I Hr) as (_ & He & Hr1 & Hw1 & Hs1). apply wp_bind, wp_savenext'; [done|].
    apply (wp_ext _ _ ls (savenext ls)); [done|]. eapply wp_mono; [apply IH; [apply He|done..|lia]|].
    intros x ls' (He' & Hr' & Hs'). split_and!; [done..|]. by rewrite Hs', Hs1, <- app_assoc.
Qed.

(** ** Conversion *)

Lemma scan_digits_all base ds : Forall (digit_of base) ds -> forall acc n,
  scan_digits base ds acc n = (foldl (λ a c, a * base + default 0 (digit_val c)) acc ds, (n + length ds)%nat).
Proof.
  induction 1 as [|c ds (d & Hd & Hlt) _ IH]; intros acc n; cbn [scan_digits foldl length]; [f_equal; lia|].
  rewrite Hd, (proj2 (Z.ltb_lt _ _) Hlt), IH. cbn. f_equal. lia.
Qed.

Lemma isspace_digit c : 48 <= c -> isspace c = false.
Proof.
  intros H. unfold isspace. rewrite (proj2 (Z.eqb_neq _ _)) by lia. rewrite (proj2 (Z.leb_gt c 13)) by lia.
  by rewrite andb_false_r.
Qed.

(** The base [strtoul] chooses and the digits it reads. *)
Definition choose_base (s : bytes) : Z * bytes :=
  match s with
  | z :: x :: h :: _ =>
      if z =? 48 then if (x .| 32 =? 120) && is_hex_digit h then (16, drop 2 s) else (8, s) else (10, s)
  | z :: _ => if z =? 48 then (8, s) else (10, s)
  | [] => (10, s)
  end.

Lemma strtoul0_digit c s base ds : 48 <= c <= 57 -> choose_base (c :: s) = (base, ds) -> Forall (digit_of base) ds ->
  ds <> [] -> strtoul0 (c :: s) = Some (Z.min (digits_value base ds) ULONG_MAX, []).
Proof.
  intros Hc Hb HF Hne. unfold strtoul0. cbn [skip_spaces]. rewrite isspace_digit by lia.
  rewrite !(proj2 (Z.eqb_neq _ _)) by lia. fold (choose_base (c :: s)). rewrite Hb, scan_digits_all by done.
  fold (digits_value base ds). destruct ds as [|d ds]; [done|]. cbn [length Nat.add]. f_equal. f_equal.
  - destruct (Z.gtb_spec (digits_value base (d :: ds)) ULONG_MAX); lia.
  - apply drop_all.
Qed.

Lemma kp_str2d_digits c s base ds : 48 <= c <= 57 -> choose_base (c :: s) = (base, ds) -> Forall (digit_of base) ds ->
  ds <> [] -> Forall (λ x, x <> 110 /\ x <> 78) (c :: s) ->
  kp_str2d (c :: s) (Z.of_nat (length (c :: s))) = Some (s64 (Z.min (digits_value base ds) ULONG_MAX)).
Proof.
  intros Hc Hb HF Hne Hn. unfold kp_str2d.
  assert (Ex : existsb (λ x, (x =? 110) || (x =? 78)) (c :: s) = false).
  { apply not_true_is_false. intros H. apply existsb_exists in H as (x & Hx & H). apply list_elem_of_In in Hx.
    rewrite list.Forall_forall in Hn. destruct (Hn x Hx). apply orb_true_iff in H as [H|H]; bool_to_Prop; done. }
  rewrite Ex, (strtoul0_digit c s base ds) by done. cbn [mbind option_bind skip_spaces].
  by rewrite (proj2 (Z.eqb_eq _ _)) by (simpl; lia).
Qed.

Lemma x_not_digit x : is_char x -> x .| 0x20 = 120 -> kp_char_isident x = true /\ is_digit x = false.
Proof.
  intros Hx E. pose proof (num_char_check x Hx) as H. rewrite E in H. apply andb_true_iff in H as [_ H].
  cbn [negb orb Z.eqb Pos.eqb] in H. bool_to_Prop. done.
Qed.

Lemma octal_not_x c : digit_of 8 c -> (c .| 32 =? 120) = false.
Proof.
  intros Hd. apply digit_of_range in Hd; [|lia]. apply Z.eqb_neq. intros E.
  apply x_not_digit in E as [_ E]; [|unfold is_char; lia]. unfold is_digit in E. rewrite between_true in E; [done|lia].
Qed.

Lemma digit_48 : digit_of 8 48.
Proof. by exists 0. Qed.

Lemma num_lit_base base w ds : num_lit base w ds -> exists c s ds', w = c :: s /\ 48 <= c <= 57 /\
  choose_base w = (base, ds') /\ Forall (digit_of base) ds' /\ ds' <> [] /\ digits_value base ds' = digits_value base ds.
Proof.
  intros [HF [(-> & -> & Hne & Hh)|[(-> & ->)|(-> & Hne & x & Hx & ->)]]].
  - destruct ds as [|c s]; [done|]. exists c, s, (c :: s). split_and!; try done.
    + apply list.Forall_cons in HF as [Hd _]. apply digit_of_range in Hd; lia.
    + apply list.Forall_cons in HF as [Hd _]. apply digit_of_range in Hd; lia.
    + simpl in Hh. unfold choose_base. rewrite (proj2 (Z.eqb_neq c 48)) by congruence. by destruct s as [|? [|? ?]].
  - exists 48, ds, (48 :: ds). split_and!; try done; [|constructor; [apply digit_48|done]].
    destruct ds as [|x [|h t]]; try done. cbn [choose_base Z.eqb Pos.eqb].
    apply list.Forall_cons in HF as [Hd _]. by rewrite octal_not_x.
  - exists 48, (x :: ds), ds. split_and!; try done. destruct ds as [|h t]; [done|].
    cbn [choose_base Z.eqb Pos.eqb]. apply list.Forall_cons in HF as [(d & Hd & Hlt) _].
    assert (Hh : is_hex_digit h = true) by (unfold is_hex_digit; rewrite Hd; by apply Z.ltb_lt).
    rewrite Hh. by destruct Hx as [-> | ->].
Qed.

Lemma num_lit_chars base w ds : num_lit base w ds -> exists xp, Forall (num_char xp) w /\ (xp = 101 \/ xp = 112).
Proof.
  intros [HF [(-> & -> & _)|[(-> & ->)|(-> & Hne & x & Hx & ->)]]].
  - exists 101. split; [|by left]. eapply list.Forall_impl; [exact HF|]. intros c. apply dec_num_char. lia.
  - exists 101. split; [|by left]. constructor; [by vm_compute|]. eapply list.Forall_impl; [exact HF|].
    intros c. apply dec_num_char. lia.
  - exists 112. split; [|by right]. constructor; [by vm_compute|]. constructor; [by destruct Hx as [-> | ->]; vm_compute|].
    eapply list.Forall_impl; [exact HF|]. intros c. apply hex_num_char.
Qed.

Lemma cstr_app b : Forall (λ c, c <> 0) b -> cstr (b ++ [0]) = Some b.
Proof.
  induction 1 as [|c b Hc _ IH]; cbn [app cstr]; [done|]. by rewrite (proj2 (Z.eqb_neq _ _) Hc), IH.
Qed.

Lemma num_char_nz xp w : Forall (num_char xp) w -> Forall (λ c, c <> 0) w /\ Forall (λ c, c <> 110 /\ c <> 78) w.
Proof.
  intros H. split; (eapply list.Forall_impl; [exact H|]); intros c (Hid & _ & H1 & H2); [|done].
  intros ->. by vm_compute in Hid.
Qed.

(** The text of a literal ends up in the buffer. *)
Lemma wp_number_text base w ds r ls : num_lit base w ds -> lex_ok ls -> rest ls = w ++ r ->
  kp_char_isident (default LEX_EOF (head r)) = false -> head r <> Some 46 ->
  wp (c <~ cur ;;
      xp <~ (if c =? 48 then n <~ lex_savenext ;; lret (if n .| 0x20 =? 120 then 112 else 101) else lret 101) ;;
      with_fuel (λ f, number_loop f c xp)) noerr
    (λ _ ls', ext ls ls' /\ rest ls' = r /\ sb_data (l_sb ls') = sb_data (l_sb ls) ++ w) ls.
Proof.
  intros [HF Hl] I Hr Hend Hdot. apply wp_bind, wp_cur, wp_bind. pose proof (cur_rest ls I) as Hc. rewrite Hr in Hc.
  enough (Hz : forall xp w', w = 48 :: w' -> Forall (num_char xp) w' -> (48 .| 0x20 <> xp) ->
    (if default LEX_EOF (head (w' ++ r)) .| 0x20 =? 120 then 112 else 101) = xp ->
    wp (if l_c ls =? 48 then n <~ lex_savenext ;; lret (if n .| 0x20 =? 120 then 112 else 101) else lret 101) noerr
      (λ xp, wp (with_fuel (λ f, number_loop f (l_c ls) xp)) noerr
        (λ _ ls', ext ls ls' /\ rest ls' = r /\ sb_data (l_sb ls') = sb_data (l_sb ls) ++ w)) ls).
  { destruct Hl as [(-> & -> & Hne & Hh)|[(-> & ->)|(-> & Hne & x & Hx & ->)]].
    - destruct ds as [|c s]; [done|]. cbn in Hc, Hh. rewrite Hc, (proj2 (Z.eqb_neq c 48)) by congruence.
      apply wp_ret, wp_fuel. assert (Hn : Forall (num_char 101) (c :: s)).
      { eapply list.Forall_impl; [exact HF|]. intros d. apply dec_num_char. lia. }
      apply wp_number_munch; try done; [|lia]. by apply list.Forall_cons in Hn as [(_ & ? & _) _].
    - apply (Hz 101 ds); [done| |done|].
      + eapply list.Forall_impl; [exact HF|]. intros d. apply dec_num_char. lia.
      + destruct ds as [|d ds]; cbn [app].
        * destruct (Z.eqb_spec (default LEX_EOF (head r) .| 32) 120) as [E|]; [|done].
          apply x_not_digit in E as [E _]; [by rewrite E in Hend|].
          assert (Hrb : Forall is_byte (rest ls)).
          { unfold rest. destruct (Z.eqb_spec (l_c ls) LEX_EOF); [apply I|]. constructor; [|apply I].
            pose proof (lo_c _ I). unfold is_char, is_byte, LEX_EOF in *. lia. }
          rewrite Hr in Hrb. apply list.Forall_app in Hrb as [_ Hrb]. destruct r as [|b r]; cbn; [unfold is_char, LEX_EOF; lia|].
          apply list.Forall_cons in Hrb as [Hb _]. unfold is_char, is_byte in *. lia.
        * apply list.Forall_cons in HF as [Hd _]. cbn. by rewrite octal_not_x.
    - apply (Hz 112 (x :: ds)); [done| |done|by destruct Hx as [-> | ->]].
      constructor; [by destruct Hx as [-> | ->]; vm_compute|]. eapply list.Forall_impl; [exact HF|].
      intros d. apply hex_num_char. }
  intros xp w' -> HF' Hx Exp. cbn in Hc. rewrite Hc. cbn.
  destruct (savenext_cons ls 48 (w' ++ r) I Hr) as (_ & He & Hr1 & _ & Hs1).
  apply wp_bind, wp_savenext', wp_ret; [done|]. rewrite (cur_rest (savenext ls)), Hr1, Exp by apply He.
  apply wp_fuel, (wp_ext _ _ ls (savenext ls)); [done|].
  eapply wp_mono; [apply (wp_number_munch w' r); [apply He|done..|lia]|]. intros x ls' (He' & Hr' & Hs').
  split_and!; [done..|]. by rewrite Hs', Hs1, <- app_assoc.
Qed.

Lemma wp_lex_number_text E Q ls :
  wp (c <~ cur ;;
      xp <~ (if c =? 48 then n <~ lex_savenext ;; lret (if n .| 0x20 =? 120 then 112 else 101) else lret 101) ;;
      with_fuel (λ f, number_loop f c xp)) E (λ _, wp number_end E Q) ls -> wp lex_number E Q ls.
Proof.
  unfold wp, lex_number, lbind, cur. destruct (_ : option (lexerr + Z * lexstate)) as [[e|[xp ls1]]|]; try done.
  by destruct (with_fuel _ ls1) as [[e|[[] ls2]]|].
Qed.

Lemma wp_number_value base w ds ls : num_lit base w ds -> lex_ok ls -> sb_data (l_sb ls) = w ->
  wp number_end noerr (λ v ls', v = set_number (Z.min (digits_value base ds) ULONG_MAX) /\ ext ls ls' /\ rest ls' = rest ls) ls.
Proof.
  intros Hl I Hs. unfold number_end. apply wp_bind, wp_save; [apply I|]. pose proof (ext_save 0 ls I) as He. wp_pure.
  destruct (num_lit_chars _ _ _ Hl) as (xp & HF & _). destruct (num_char_nz xp w HF) as [Hnz Hn].
  destruct (num_lit_base _ _ _ Hl) as (c & s & ds' & Ew & Hc & Hb & HF' & Hne & Hv).
  assert (Hd : sb_data (l_sb (save 0 ls)) = w ++ [0]) by (by rewrite <- Hs).
  eapply wp_opt; [rewrite Hd; by apply cstr_app|].
  replace (sbuflen (l_sb (save 0 ls)) - 1) with (Z.of_nat (length w)).
  2: { unfold sbuflen. rewrite Hd, length_app. simpl. lia. }
  subst w. rewrite Ew in *. rewrite (kp_str2d_digits c s base ds') by done. apply wp_ret. rewrite Hv. split_and!; [|done..].
  unfold set_number. rewrite (swrap_id 64 (s64 _)); [done|lia|]. by apply swrap_range.
Qed.

(** C32.  Number literals: a decimal, octal or hexadecimal literal that no
    identifier character or dot follows is one token whose value is that of its
    digits, cut off at the largest unsigned long and stored as a signed one, and
    exactly the literal is consumed. *)
Theorem lex_scan_number tv ls base w ds r : lex_ok ls -> num_lit base w ds -> rest ls = w ++ r ->
  kp_char_isident (default LEX_EOF (head r)) = false -> head r <> Some 46 ->
  exists ls', lex_scan tv ls =
      Some (inr ((TK_number, set_number (Z.min (digits_value base ds) ULONG_MAX)), ls')) /\
    rest ls' = r /\ ext ls ls'.
Proof.
  intros I Hl Hr Hend Hdot.
  enough (H : wp (lex_scan tv) noerr (λ x ls', x = (TK_number, set_number (Z.min (digits_value base ds) ULONG_MAX)) /\
    rest ls' = r /\ ext ls ls') ls).
  { unfold wp in H. destruct (lex_scan tv ls) as [[e|[x ls']]|]; [done| |done]. destruct H as (-> & ? & ?). by exists ls'. }
  apply lex_scan_start; [done|]. pose proof (ext_reset ls I) as He0.
  assert (Hs0 : sb_data (l_sb (set_sb ls (kp_buf_reset (l_sb ls)))) = []) by done.
  set (ls0 := set_sb ls (kp_buf_reset (l_sb ls))) in *. change (rest ls) with (rest ls0) in Hr.
  cbn [scan_loop]. apply wp_bind, wp_cur. destruct (num_lit_base _ _ _ Hl) as (c & s & _ & Ew & Hc & _).
  pose proof (cur_rest ls0 (ex_ok _ _ He0)) as Hcur. rewrite Hr, Ew in Hcur.
  cbn [app head default from_option id] in Hcur.
  pose proof (isdigit_true c Hc) as Hd. rewrite Hcur, isdigit_isident, Hd by (done || unfold is_char; lia).
  apply wp_bind, wp_lex_number_text. eapply wp_mono; [apply (wp_number_text base w ds r); [done|apply He0|done..]|].
  intros x ls1 (He1 & Hr1 & Hs1). rewrite Hs0 in Hs1. cbn [app] in Hs1.
  eapply wp_mono; [apply (wp_number_value base w ds); [done|apply He1|done]|]. intros v ls2 (-> & He2 & Hr2). apply wp_ret.
  split_and!; [done|congruence|]. by do 2 (eapply lext_trans; [done|]).
Qed.

(** ** Literals with a dot *)

(** [e] is what is left of [s] when characters other than dots are dropped. *)
Definition dropped (s e : bytes) : Prop := exists pre, s = pre ++ e /\ 46 ∉ pre.

Lemma dropped_refl s : dropped s s.
Proof. exists []. split; [done|apply not_elem_of_nil]. Qed.
Lemma dropped_trans s1 s2 s3 : dropped s1 s2 -> dropped s2 s3 -> dropped s1 s3.
Proof.
  intros (p1 & -> & H1) (p2 & -> & H2). exists (p1 ++ p2). rewrite app_assoc. split; [done|].
  rewrite elem_of_app. tauto.
Qed.
Lemma dropped_cons c s : c <> 46 -> dropped (c :: s) s.
Proof. intros H. exists [c]. split; [done|]. rewrite list_elem_of_singleton. congruence. Qed.

Lemma dropped_spaces s : dropped s (skip_spaces s).
Proof.
  induction s as [|c s IH]; cbn [skip_spaces]; [apply dropped_refl|]. destruct (isspace c) eqn:E; [|apply dropped_refl].
  eapply dropped_trans; [apply dropped_cons|done]. by intros ->.
Qed.

Lemma dropped_digits base s : forall acc n, exists k, snd (scan_digits base s acc n) = (n + k)%nat /\ dropped s (drop k s).
Proof.
  induction s as [|c s IH]; intros acc n; cbn [scan_digits]; [exists 0%nat; split; [simpl; lia|apply dropped_refl]|].
  assert (H0 : exists k, n = (n + k)%nat /\ dropped (c :: s) (drop k (c :: s))).
  { exists 0%nat. split; [lia|apply dropped_refl]. }
  destruct (digit_val c) as [d|] eqn:Ed; [|done]. destruct (d <? base); [|done].
  destruct (IH (acc * base + d) (S n)) as (k & Hk & Hd). exists (S k). split; [lia|]. cbn [drop].
  eapply dropped_trans; [apply dropped_cons|done]. by intros ->.
Qed.

Lemma dropped_base s : dropped s (snd (choose_base s)).
Proof.
  unfold choose_base. destruct s as [|z [|x [|h t]]]; try apply dropped_refl; try (destruct (z =? 48); apply dropped_refl).
  destruct (Z.eqb_spec z 48) as [->|]; [|apply dropped_refl].
  destruct (Z.eqb_spec (x .| 32) 120) as [E|]; [|apply dropped_refl]. cbn [andb]. destruct (is_hex_digit h); [|apply dropped_refl].
  cbn [snd drop]. eapply dropped_trans; [by apply dropped_cons|]. apply dropped_cons. by intros ->.
Qed.

Lemma strtoul0_dropped s v e : strtoul0 s = Some (v, e) -> dropped s e.
Proof.
  unfold strtoul0. intros H. eapply dropped_trans; [apply dropped_spaces|]. set (s1 := skip_spaces s) in *.
  destruct (match s1 with c :: s' => if c =? 45 then (true, s') else if c =? 43 then (false, s') else (false, s1) | [] => (false, s1) end)
    as [neg s2] eqn:E2.
  assert (Hs2 : dropped s1 s2).
  { destruct s1 as [|c s1]; [simplify_eq; apply dropped_refl|].
    destruct (Z.eqb_spec c 45) as [->|]; [simplify_eq; by apply dropped_cons|].
    destruct (Z.eqb_spec c 43) as [->|]; simplify_eq; [by apply dropped_cons|apply dropped_refl]. }
  eapply dropped_trans; [exact Hs2|]. fold (choose_base s2) in H. pose proof (dropped_base s2) as Hb.
  destruct (choose_base s2) as [base s3]. cbn [snd] in Hb. eapply dropped_trans; [exact Hb|].
  destruct (dropped_digits base s3 0 0) as (k & Hk & Hd). destruct (scan_digits base s3 0 0) as [v' n]. cbn [snd] in Hk.
  simpl in Hk. subst k. destruct n as [|n]; [done|]. injection H as _ <-. done.
Qed.

(** No text with a dot is a number, although the scanner takes dots, exponents
    and a leading dot as part of one: such literals are always malformed. *)
Theorem dot_never_number s : 46 ∈ s -> kp_str2d s (Z.of_nat (length s)) = None.
Proof.
  intros Hin. unfold kp_str2d. destruct (existsb _ s); [done|]. destruct (strtoul0 s) as [[v e]|] eqn:Es; [|done].
  cbn [mbind option_bind]. pose proof (dropped_trans _ _ _ (strtoul0_dropped _ _ _ Es) (dropped_spaces e)) as (pre & E & Hp).
  assert (He : 46 ∈ skip_spaces e).
  { rewrite E in Hin. by apply elem_of_app in Hin as [?|?]. }
  destruct (skip_spaces e) as [|x e']; [by apply not_elem_of_nil in He|].
  rewrite (proj2 (Z.eqb_neq _ _)); [done|]. cbn [length]. lia.
Qed.

(** ** A source from start to end *)

(** The state [parse] of [userspace/kp_main.c] sets up: an uninitialised lexer
    but for its buffer, the reserved words, and an empty constant table. *)
Definition lex_start (c tok la : Z) (v1 v2 : ktap_val) (line last : Z) : lexstate :=
  mklex [] c tok la v1 v2 kp_buf_init line last init_strs kp_tab_new.

Lemma lex_ok_start ls p : Forall is_byte p -> sb_ok (l_sb ls) -> tok_ok (l_tok ls) -> words_ok (l_strs ls) ->
  kt_ok (l_kt ls) ->
  lex_ok (next (set_lines (set_lookahead (set_input ls p (l_c ls)) TK_eof (l_lookaheadval ls)) 1 1)).
Proof.
  intros Hp Hs Ht Hw Hk. unfold next. cbn [l_p set_lines set_lookahead set_input].
  destruct p as [|b p]; [|apply list.Forall_cons in Hp as [Hb Hp]]; split; cbn; try done; try (right; tok_solve);
    unfold is_char, LEX_EOF, is_byte, KP_MAX_LINE in *; lia || (intros; lia).
Qed.

Lemma cstr_bytes b s : Forall is_byte b -> cstr b = Some s -> Forall is_byte s /\ (length s < length b)%nat.
Proof.
  intros HF. revert s. induction HF as [|c b Hc _ IH]; intros s Hs; cbn [cstr] in Hs; [done|].
  destruct (c =? 0); [simplify_eq; split; [constructor|simpl; lia]|].
  apply fmap_Some in Hs as (s' & Hs & ->). destruct (IH s' Hs). split; [by constructor|simpl; lia].
Qed.

Lemma cstr_defined b : 0 ∈ b -> exists s, cstr b = Some s.
Proof.
  induction b as [|c b IH]; intros H; [by apply not_elem_of_nil in H|]. cbn [cstr].
  destruct (Z.eqb_spec c 0) as [->|Hc]; [by eexists|]. apply elem_of_cons in H as [?|H]; [done|].
  destruct (IH H) as [s ->]. by eexists.
Qed.

Lemma wp_header_loop f ls : lex_ok ls -> l_c ls <> LEX_EOF -> (weight ls <= f)%nat ->
  wp (header_loop f) scanerr (λ _ ls', ext ls ls') ls.
Proof.
  revert ls. induction f as [|f IH]; intros ls I Hne Hf; destruct (ext_step ls ls (lext_refl ls I) Hne) as [He Hw]; [lia|].
  cbn [header_loop]. apply wp_bind, wp_next. destruct (Z.eqb_spec (l_c (next ls)) LEX_EOF) as [E|E]; [by apply wp_ret|].
  destruct (lex_iseol (l_c (next ls))) eqn:Eol; cbn [negb].
  - eapply wp_mono; [apply wp_newline; [apply He|done]|]. intros x ls' (He' & _). by eapply lext_trans.
  - eapply wp_mono; [apply IH; [apply He|done|lia]|]. intros x ls' He'. by eapply lext_trans.
Qed.

Lemma wp_setup src ls : Forall is_byte src -> 0 ∈ src -> sb_ok (l_sb ls) -> tok_ok (l_tok ls) ->
  words_ok (l_strs ls) -> kt_ok (l_kt ls) ->
  wp (kp_lex_setup src) scanerr
    (λ _ ls', lex_ok ls' /\ l_lookahead ls' = TK_eof /\ (weight ls' < length src)%nat) ls.
Proof.
  intros HF H0 Hs Ht Hw Hk. unfold kp_lex_setup. destruct (cstr_defined src H0) as [s Ec].
  destruct (cstr_bytes src s HF Ec) as [Hb Hlen]. apply wp_bind. eapply wp_opt; [exact Ec|].
  apply wp_bind, wp_get, wp_bind, wp_put, wp_bind, wp_next, wp_bind, wp_get, wp_bind.
  pose proof (lex_ok_start ls s Hb Hs Ht Hw Hk) as I1. set (ls0 := set_lines _ 1 1) in *.
  assert (Hl1 : l_lookahead (next ls0) = TK_eof) by (unfold next; by destruct (l_p ls0)).
  assert (Hw1 : (weight (next ls0) <= length s)%nat).
  { unfold next. change (l_p ls0) with s. destruct s as [|b s']; [done|]. unfold weight. cbn. destruct (b =? LEX_EOF); lia. }
  clearbody ls0.
  enough (Hk2 : forall ls2, lex_ok ls2 -> l_lookahead ls2 = TK_eof -> (weight ls2 <= length s)%nat ->
    wp (if l_c ls2 =? 35 then with_fuel header_loop else lret tt) scanerr
      (λ _ ls', lex_ok ls' /\ l_lookahead ls' = TK_eof /\ (weight ls' < length src)%nat) ls2).
  { destruct (l_p (next ls0)) as [|b0 [|b1 p]] eqn:Ep; try (apply wp_ret; by apply Hk2).
    destruct (_ && _ && _); [|apply wp_ret; by apply Hk2].
    apply wp_bind, wp_put, wp_next.
    assert (I2 : lex_ok (set_input (next ls0) p (l_c (next ls0)))).
    { destruct I1 as [Hc Hp He Hsb ? ? ? ? ?]. rewrite Ep in Hp, He. do 2 (apply list.Forall_cons in Hp as [_ Hp]).
      split; cbn; try done. intros E. by specialize (He E). }
    pose proof (ext_next _ I2) as He2. apply Hk2; [apply He2| |].
    - destruct (ex_tok _ _ He2) as (_ & -> & _). done.
    - apply ext_weight in He2. unfold weight in *. cbn in He2. rewrite Ep in Hw1. cbn [length] in Hw1. lia. }
  intros ls2 I2 Hl2 Hw2. destruct (Z.eqb_spec (l_c ls2) 35) as [E|E].
  - apply wp_fuel. eapply wp_mono; [apply wp_header_loop; [done|by rewrite E|lia]|]. intros x ls3 He3.
    pose proof (ext_weight _ _ He3). destruct (ex_tok _ _ He3) as (_ & -> & _). split_and!; [apply He3|done|lia].
  - apply wp_ret. split_and!; [done..|lia].
Qed.

Lemma wp_kp_lex_next ls : lex_ok ls -> l_lookahead ls = TK_eof ->
  wp kp_lex_next scanerr (λ _ ls', lex_ok ls' /\ l_lookahead ls' = TK_eof /\
    (l_tok ls' = TK_eof -> rest ls' = []) /\ (l_tok ls' <> TK_eof -> (weight ls' < weight ls)%nat)) ls.
Proof.
  intros I Hl. unfold kp_lex_next. wp_pure. rewrite Hl. cbn [Z.eqb Pos.eqb TK_eof TK_OFS Z.add Pos.add Pos.add_carry Pos.succ].
  set (ls0 := set_lines ls _ _). assert (I0 : lex_ok ls0) by (destruct I; by split).
  apply wp_bind. unfold wp. pose proof (wp_lex_scan (l_tokval ls) ls0 I0) as H. unfold wp in H.
  destruct (lex_scan (l_tokval ls) ls0) as [[e|[[t v] ls1]]|]; [done| |done]. destruct H as (He & Ht & Hr & Hw).
  cbn. destruct (ex_tok _ _ He) as (_ & Hla & _). destruct (ex_ok _ _ He). split_and!; try done. by rewrite Hla.
Qed.

(** Scan until the end of the source. *)
Fixpoint lex_all (n : nat) : lexm unit :=
  match n with
  | O => lub
  | S n' => kp_lex_next ;;; ls <~ lget ;; if l_tok ls =? TK_eof then lret tt else lex_all n'
  end.

Lemma wp_lex_all n ls : lex_ok ls -> l_lookahead ls = TK_eof -> (weight ls < n)%nat ->
  wp (lex_all n) scanerr (λ _ ls', lex_ok ls' /\ l_tok ls' = TK_eof /\ rest ls' = []) ls.
Proof.
  revert ls. induction n as [|n IH]; intros ls I Hl Hn; [lia|]. cbn [lex_all]. apply wp_bind.
  eapply wp_mono; [by apply wp_kp_lex_next|]. intros x ls1 (I1 & Hl1 & Hr1 & Hw1). apply wp_bind, wp_get.
  destruct (Z.eqb_spec (l_tok ls1) TK_eof) as [E|E]; [by apply wp_ret; split_and!; auto|].
  apply IH; [done..|]. specialize (Hw1 E). lia.
Qed.

Lemma kt_new_ok : kt_ok kp_tab_new.
Proof. split; cbn [u_node u_freetop kp_tab_new]; rewrite length_replicate; lia. Qed.

(** C30.  Every source is scanned to its end: after set-up on any text with its
    terminator, at most as many calls for a token as the text has bytes reach the
    end-of-source token with all input consumed or stop with an error, whose report is
    printed when the name of the chunk and the text of the token have at most 77
    characters together; until then nothing is undefined, given that the token field
    [tok], which neither the compiler nor set-up initialises, happens to hold a valid
    token ([first_number_undefined] shows a source on which it matters). *)
Theorem source_scans src c tok la v1 v2 line last : Forall is_byte src -> 0 ∈ src -> tok_ok tok ->
  exists r, (kp_lex_setup src ;;; lex_all (length src)) (lex_start c tok la v1 v2 line last) = Some r /\
    (forall e name, r = inl e -> short_report name e -> is_Some (kp_err_lex name e)) /\
    forall ls', r = inr (tt, ls') -> l_tok ls' = TK_eof /\ rest ls' = [] /\ lex_ok ls'.
Proof.
  intros HF H0 Ht. assert (H : wp (kp_lex_setup src ;;; lex_all (length src)) scanerr
    (λ _ ls', lex_ok ls' /\ l_tok ls' = TK_eof /\ rest ls' = []) (lex_start c tok la v1 v2 line last)).
  { apply wp_bind. eapply wp_mono; [apply wp_setup; [done..|by split|done|apply init_words_ok|apply kt_new_ok]|].
    intros x ls (I & Hl & Hw). by apply wp_lex_all. }
  unfold wp in H. destruct (lbind _ _ _) as [r|]; [|done]. exists r. split; [done|].
  split; [intros e name ->; by apply scanerr_reported|]. intros ls' ->. destruct H as (? & ? & ?). done.
Qed.

(** The scanner reports a malformed number with the token before it; at the start
    of a source that is the uninitialised token field of the lexer. *)
Theorem first_number_undefined :
  lex_scan kp_niltv (set_input (lex_start 0 1000 TK_eof kp_niltv kp_niltv 1 1) [120] 49) = ub.
Proof. vm_compute. reflexivity. Qed.

(** A string literal of 200 characters that is not closed, in a chunk with the name a. *)
Theorem long_token_overflows :
  match lex_scan kp_niltv (set_input (lex_start 0 TK_eof TK_eof kp_niltv kp_niltv 1 1) (replicate 200 97 ++ [10]) 34) with
  | Some (inl e) => kp_err_lex [97] e
  | _ => Some []
  end = ub.
Proof. vm_compute. reflexivity. Qed.
