(* ===== verification/LexWit.v ===== *)
(** * LexWit: the theorems about the lexer at concrete sources *)

From S2P Require Import Prelude Types Bytecode BcWrite Util UtilThm Lex LexThm LexFun.
#[local] Open Scope word_scope.
#[local] Open Scope lex_scope.

(** The lexer in front of a text, its first character read. *)
Definition before (text : bytes) : lexstate :=
  next (set_input (lex_start 0 TK_eof TK_eof kp_niltv kp_niltv 1 1) text 0).

Lemma before_ok text : Forall is_byte text -> lex_ok (before text) /\ rest (before text) = text.
Proof.
  intros HF. unfold before, next. cbn [l_p set_input]. destruct text as [|b p].
  - split; [|done]. split; cbn; try done; try (right; tok_solve); [apply init_words_ok|apply kt_new_ok].
  - apply list.Forall_cons in HF as [Hb HF]. assert (b <> LEX_EOF) by (by apply byte_not_eof). split.
    + split; cbn; try done; try (right; tok_solve); [|apply init_words_ok|apply kt_new_ok].
      unfold is_char, is_byte in *. lia.
    + unfold rest. cbn. by rewrite (proj2 (Z.eqb_neq _ _)).
Qed.

Lemma bytes_check b : forallb (λ c, (0 <=? c) && (c <? 256)) b = true -> Forall is_byte b.
Proof.
  intros H. apply list.Forall_forall. intros x Hx. rewrite forallb_forall in H. apply list_elem_of_In in Hx.
  specialize (H x Hx). cbv beta in H. unfold is_byte. bool_to_Prop. lia.
Qed.

Ltac all_bytes := apply bytes_check; reflexivity.

Lemma lex_scan_total_witness : exists r, lex_scan kp_niltv (before (byte_string "a+=1")) = Some r.
Proof.
  destruct (lex_scan_total kp_niltv (before (byte_string "a+=1"))) as (r & E & _).
  - apply before_ok. all_bytes.
  - exists r. exact E.
Defined.

Lemma lex_scan_name_witness : exists s ls',
  lex_scan kp_niltv (before (byte_string "while (")) = Some (inr ((TK_while, set_string s), ls')) /\
  rest ls' = byte_string " (".
Proof.
  destruct (before_ok (byte_string "while (")) as [I Hr]; [all_bytes|].
  destruct (lex_scan_name kp_niltv _ 119 (byte_string "hile") (byte_string " (") I Hr)
    as (s & ls' & E & _ & Hr' & _); [reflexivity|reflexivity|vm_compute; repeat constructor|reflexivity|].
  exists s, ls'. split; [|exact Hr']. rewrite E. reflexivity.
Defined.

Lemma lex_scan_string_witness : exists a ls',
  lex_scan kp_niltv (before (quote [104; 105; 34; 10] ++ [59])) = Some (inr ((TK_string, set_string a), ls')) /\
  bytes_of (l_strs ls') a = Some [104; 105; 34; 10] /\ rest ls' = [59].
Proof.
  destruct (before_ok (quote [104; 105; 34; 10] ++ [59])) as [I Hr]; [all_bytes|].
  destruct (lex_scan_string kp_niltv _ [104; 105; 34; 10] [59] I) as (a & ls' & E & Hb & Hr' & _);
    [all_bytes|exact Hr|].
  exists a, ls'. split; [exact E|]. split; [exact Hb|exact Hr'].
Defined.

Lemma lex_scan_number_witness : exists ls',
  lex_scan kp_niltv (before (byte_string "0x2A;")) = Some (inr ((TK_number, set_number 42), ls')) /\
  rest ls' = byte_string ";".
Proof.
  destruct (before_ok (byte_string "0x2A;")) as [I Hr]; [all_bytes|].
  destruct (lex_scan_number kp_niltv _ 16 (byte_string "0x2A") (byte_string "2A") (byte_string ";") I)
    as (ls' & E & Hr' & _); [|exact Hr|reflexivity|discriminate|].
  - split.
    + constructor; [exists 2; split; [reflexivity|lia]|]. constructor; [exists 10; split; [reflexivity|lia]|]. constructor.
    + right. right. split; [reflexivity|]. split; [discriminate|]. exists 120. split; [left; reflexivity|reflexivity].
  - exists ls'. split; [|exact Hr']. rewrite E. reflexivity.
Defined.

Lemma source_scans_witness : exists r,
  (kp_lex_setup (byte_string "x = 1" ++ [0]) ;;; lex_all 6)
    (lex_start 0 TK_eof TK_eof kp_niltv kp_niltv 0 0) = Some r.
Proof.
  destruct (source_scans (byte_string "x = 1" ++ [0]) 0 TK_eof TK_eof kp_niltv kp_niltv 0 0) as (r & E & _).
  - all_bytes.
  - apply elem_of_app. right. left.
  - right. tok_solve.
  - exists r. exact E.
Defined.
