(* ===== verification/Gen.v ===== *)
(** * Gen: the code generator of the compiler ([userspace/kp_parse.c], lower half)

    Expression descriptors, constants, jump lists, the register allocator and
    the emitters the parser calls while it reads the source.

    The instructions of the function being compiled are [fs_code], and [fs->pc]
    is its length: instructions behind [pc] are never read.  The stack of
    instructions shared by nested functions only shows in [fs_base], the position
    of a function in it, and in its size, against which the limit is checked; the
    pointers into it are renewed whenever it moves.

    A descriptor's union is a record of its members: each is read as it was
    written.  Positions and registers are 32-bit words.  Arithmetic on constants
    is on signed words, whose overflow is undefined. *)

From S2P Require Import Prelude Types Bytecode BcWrite Util Lex.
#[local] Open Scope word_scope.
#[local] Coercion bcop_code : BCOp >-> Z.

(** ** Data *)

Inductive ExpKind :=
  | VKNIL | VKFALSE | VKTRUE | VKSTR | VKNUM | VKCDATA
  | VLOCAL | VUPVAL | VGLOBAL | VINDEXED | VJMP | VRELOCABLE | VNONRELOC | VCALL | VVOID
  | VARGN | VARGSTR | VARGNAME | VPID | VTID | VUID | VCPU | VEXECNAME | VMAX.

#[export] Instance ExpKind_eq_dec : EqDecision ExpKind.
Proof. solve_decision. Defined.

Definition ek (k : ExpKind) : Z :=
  match k with
  | VKNIL => 0 | VKFALSE => 1 | VKTRUE => 2 | VKSTR => 3 | VKNUM => 4 | VKCDATA => 5
  | VLOCAL => 6 | VUPVAL => 7 | VGLOBAL => 8 | VINDEXED => 9 | VJMP => 10 | VRELOCABLE => 11
  | VNONRELOC => 12 | VCALL => 13 | VVOID => 14
  | VARGN => 15 | VARGSTR => 16 | VARGNAME => 17 | VPID => 18 | VTID => 19 | VUID => 20
  | VCPU => 21 | VEXECNAME => 22 | VMAX => 23
  end.
Definition VKLAST : Z := ek VKNUM.

Record ExpDesc := mke { e_k : ExpKind; e_info : Z; e_aux : Z; e_nval : ktap_val; e_sval : Z; e_t : Z; e_f : Z }.

Definition is_k (e : ExpDesc) (k : ExpKind) : bool := bool_decide (e_k e = k).
Definition expr_hasjump (e : ExpDesc) : bool := negb (e_t e =? e_f e).
Definition expr_isk (e : ExpDesc) : bool := ek (e_k e) <=? VKLAST.
Definition expr_isk_nojump (e : ExpDesc) : bool := expr_isk e && negb (expr_hasjump e).
Definition expr_isnumk (e : ExpDesc) : bool := is_k e VKNUM.
Definition expr_isnumk_nojump (e : ExpDesc) : bool := expr_isnumk e && negb (expr_hasjump e).
Definition expr_isstrk (e : ExpDesc) : bool := is_k e VKSTR.
Definition expr_numberV (e : ExpDesc) : Z := nvalue (e_nval e).
Definition expr_numiszero (e : ExpDesc) : bool := expr_numberV e =? 0.

Definition eset_k (e : ExpDesc) (k : ExpKind) : ExpDesc :=
  mke k (e_info e) (e_aux e) (e_nval e) (e_sval e) (e_t e) (e_f e).
Definition eset (e : ExpDesc) (k : ExpKind) (info : Z) : ExpDesc :=
  mke k info (e_aux e) (e_nval e) (e_sval e) (e_t e) (e_f e).
Definition eset_aux (e : ExpDesc) (aux : Z) : ExpDesc :=
  mke (e_k e) (e_info e) aux (e_nval e) (e_sval e) (e_t e) (e_f e).
Definition eset_nval (e : ExpDesc) (n : ktap_val) : ExpDesc :=
  mke (e_k e) (e_info e) (e_aux e) n (e_sval e) (e_t e) (e_f e).
Definition eset_sval (e : ExpDesc) (s : Z) : ExpDesc :=
  mke (e_k e) (e_info e) (e_aux e) (e_nval e) s (e_t e) (e_f e).
Definition eset_t (e : ExpDesc) (t : Z) : ExpDesc :=
  mke (e_k e) (e_info e) (e_aux e) (e_nval e) (e_sval e) t (e_f e).
Definition eset_f (e : ExpDesc) (f : Z) : ExpDesc :=
  mke (e_k e) (e_info e) (e_aux e) (e_nval e) (e_sval e) (e_t e) f.

Definition expr_init (k : ExpKind) (info : Z) : ExpDesc := mke k info 0 kp_niltv 0 NO_JMP NO_JMP.

Record FuncScope := mkscope { bl_vstart : Z; bl_nactvar : Z; bl_flags : Z }.

Definition FSCOPE_LOOP : Z := 0x01.
Definition FSCOPE_BREAK : Z := 0x02.
Definition FSCOPE_GOLA : Z := 0x04.
Definition FSCOPE_UPVAL : Z := 0x08.
Definition FSCOPE_NOCLOSE : Z := 0x10.

(** Names in the variable stack: NULL, a small number that stands for a fixed
    name (1 is also [NAME_BREAK]), or the address of a string. *)
Inductive vname := NNull | NFixed (n : Z) | NStr (s : Z).
#[export] Instance vname_eq_dec : EqDecision vname.
Proof. solve_decision. Defined.
Definition NAME_BREAK : vname := NFixed 1.

Record VarInfo := mkvar { v_name : vname; v_startpc : Z; v_endpc : Z; v_slot : Z; v_info : Z }.

Definition KP_MAX_XLEVEL : Z := 200.
Definition KP_MAX_BCINS : Z := 1 ≪ 26.
Definition KP_MAX_LOCVAR : Z := 200.
Definition KP_MAX_UPVAL : Z := 60.
Definition KP_MAX_VSTACK : Z := 65536 - KP_MAX_UPVAL.
Definition VSTACK_VAR_RW : Z := 0x01.
Definition VSTACK_GOTO : Z := 0x02.
Definition VSTACK_LABEL : Z := 0x04.

(** Collectable objects the compiler creates besides strings. *)
Inductive pobj := PTab (t : uttab) | PProto (p : uproto).

Record FuncState := mkfs {
  fs_code : list (Z * Z);               (* fs->bcbase: instruction and line; [fs->pc] is its length *)
  fs_lasttarget : Z;
  fs_jpc : Z;
  fs_freereg : Z;
  fs_nactvar : Z;
  fs_nkn : Z;
  fs_nkgc : Z;
  fs_linedefined : Z;
  fs_base : Z;               (* bcbase - bcstack *)
  fs_vbase : Z;
  fs_flags : Z;
  fs_numparams : Z;
  fs_framesize : Z;
  fs_varmap : list Z;
  fs_uvmap : list Z;               (* of length fs->nuv *)
  fs_uvtmp : list Z;
  fs_bl : list FuncScope;               (* innermost first *)
  fs_kt : uttab               (* while an inner function is current *)
}.

Definition fset_code (s : FuncState) (x : list (Z * Z)) : FuncState :=
  mkfs x (fs_lasttarget s) (fs_jpc s) (fs_freereg s) (fs_nactvar s) (fs_nkn s) (fs_nkgc s) (fs_linedefined s) (fs_base s) (fs_vbase s) (fs_flags s) (fs_numparams s) (fs_framesize s) (fs_varmap s) (fs_uvmap s) (fs_uvtmp s) (fs_bl s) (fs_kt s).
Definition fset_lasttarget (s : FuncState) (x : Z) : FuncState :=
  mkfs (fs_code s) x (fs_jpc s) (fs_freereg s) (fs_nactvar s) (fs_nkn s) (fs_nkgc s) (fs_linedefined s) (fs_base s) (fs_vbase s) (fs_flags s) (fs_numparams s) (fs_framesize s) (fs_varmap s) (fs_uvmap s) (fs_uvtmp s) (fs_bl s) (fs_kt s).
Definition fset_jpc (s : FuncState) (x : Z) : FuncState :=
  mkfs (fs_code s) (fs_lasttarget s) x (fs_freereg s) (fs_nactvar s) (fs_nkn s) (fs_nkgc s) (fs_linedefined s) (fs_base s) (fs_vbase s) (fs_flags s) (fs_numparams s) (fs_framesize s) (fs_varmap s) (fs_uvmap s) (fs_uvtmp s) (fs_bl s) (fs_kt s).
Definition fset_freereg (s : FuncState) (x : Z) : FuncState :=
  mkfs (fs_code s) (fs_lasttarget s) (fs_jpc s) x (fs_nactvar s) (fs_nkn s) (fs_nkgc s) (fs_linedefined s) (fs_base s) (fs_vbase s) (fs_flags s) (fs_numparams s) (fs_framesize s) (fs_varmap s) (fs_uvmap s) (fs_uvtmp s) (fs_bl s) (fs_kt s).
Definition fset_nactvar (s : FuncState) (x : Z) : FuncState :=
  mkfs (fs_code s) (fs_lasttarget s) (fs_jpc s) (fs_freereg s) x (fs_nkn s) (fs_nkgc s) (fs_linedefined s) (fs_base s) (fs_vbase s) (fs_flags s) (fs_numparams s) (fs_framesize s) (fs_varmap s) (fs_uvmap s) (fs_uvtmp s) (fs_bl s) (fs_kt s).
Definition fset_nkn (s : FuncState) (x : Z) : FuncState :=
  mkfs (fs_code s) (fs_lasttarget s) (fs_jpc s) (fs_freereg s) (fs_nactvar s) x (fs_nkgc s) (fs_linedefined s) (fs_base s) (fs_vbase s) (fs_flags s) (fs_numparams s) (fs_framesize s) (fs_varmap s) (fs_uvmap s) (fs_uvtmp s) (fs_bl s) (fs_kt s).
Definition fset_nkgc (s : FuncState) (x : Z) : FuncState :=
  mkfs (fs_code s) (fs_lasttarget s) (fs_jpc s) (fs_freereg s) (fs_nactvar s) (fs_nkn s) x (fs_linedefined s) (fs_base s) (fs_vbase s) (fs_flags s) (fs_numparams s) (fs_framesize s) (fs_varmap s) (fs_uvmap s) (fs_uvtmp s) (fs_bl s) (fs_kt s).
Definition fset_linedefined (s : FuncState) (x : Z) : FuncState :=
  mkfs (fs_code s) (fs_lasttarget s) (fs_jpc s) (fs_freereg s) (fs_nactvar s) (fs_nkn s) (fs_nkgc s) x (fs_base s) (fs_vbase s) (fs_flags s) (fs_numparams s) (fs_framesize s) (fs_varmap s) (fs_uvmap s) (fs_uvtmp s) (fs_bl s) (fs_kt s).
Definition fset_base (s : FuncState) (x : Z) : FuncState :=
  mkfs (fs_code s) (fs_lasttarget s) (fs_jpc s) (fs_freereg s) (fs_nactvar s) (fs_nkn s) (fs_nkgc s) (fs_linedefined s) x (fs_vbase s) (fs_flags s) (fs_numparams s) (fs_framesize s) (fs_varmap s) (fs_uvmap s) (fs_uvtmp s) (fs_bl s) (fs_kt s).
Definition fset_vbase (s : FuncState) (x : Z) : FuncState :=
  mkfs (fs_code s) (fs_lasttarget s) (fs_jpc s) (fs_freereg s) (fs_nactvar s) (fs_nkn s) (fs_nkgc s) (fs_linedefined s) (fs_base s) x (fs_flags s) (fs_numparams s) (fs_framesize s) (fs_varmap s) (fs_uvmap s) (fs_uvtmp s) (fs_bl s) (fs_kt s).
Definition fset_flags (s : FuncState) (x : Z) : FuncState :=
  mkfs (fs_code s) (fs_lasttarget s) (fs_jpc s) (fs_freereg s) (fs_nactvar s) (fs_nkn s) (fs_nkgc s) (fs_linedefined s) (fs_base s) (fs_vbase s) x (fs_numparams s) (fs_framesize s) (fs_varmap s) (fs_uvmap s) (fs_uvtmp s) (fs_bl s) (fs_kt s).
Definition fset_numparams (s : FuncState) (x : Z) : FuncState :=
  mkfs (fs_code s) (fs_lasttarget s) (fs_jpc s) (fs_freereg s) (fs_nactvar s) (fs_nkn s) (fs_nkgc s) (fs_linedefined s) (fs_base s) (fs_vbase s) (fs_flags s) x (fs_framesize s) (fs_varmap s) (fs_uvmap s) (fs_uvtmp s) (fs_bl s) (fs_kt s).
Definition fset_framesize (s : FuncState) (x : Z) : FuncState :=
  mkfs (fs_code s) (fs_lasttarget s) (fs_jpc s) (fs_freereg s) (fs_nactvar s) (fs_nkn s) (fs_nkgc s) (fs_linedefined s) (fs_base s) (fs_vbase s) (fs_flags s) (fs_numparams s) x (fs_varmap s) (fs_uvmap s) (fs_uvtmp s) (fs_bl s) (fs_kt s).
Definition fset_varmap (s : FuncState) (x : list Z) : FuncState :=
  mkfs (fs_code s) (fs_lasttarget s) (fs_jpc s) (fs_freereg s) (fs_nactvar s) (fs_nkn s) (fs_nkgc s) (fs_linedefined s) (fs_base s) (fs_vbase s) (fs_flags s) (fs_numparams s) (fs_framesize s) x (fs_uvmap s) (fs_uvtmp s) (fs_bl s) (fs_kt s).
Definition fset_uvmap (s : FuncState) (x : list Z) : FuncState :=
  mkfs (fs_code s) (fs_lasttarget s) (fs_jpc s) (fs_freereg s) (fs_nactvar s) (fs_nkn s) (fs_nkgc s) (fs_linedefined s) (fs_base s) (fs_vbase s) (fs_flags s) (fs_numparams s) (fs_framesize s) (fs_varmap s) x (fs_uvtmp s) (fs_bl s) (fs_kt s).
Definition fset_uvtmp (s : FuncState) (x : list Z) : FuncState :=
  mkfs (fs_code s) (fs_lasttarget s) (fs_jpc s) (fs_freereg s) (fs_nactvar s) (fs_nkn s) (fs_nkgc s) (fs_linedefined s) (fs_base s) (fs_vbase s) (fs_flags s) (fs_numparams s) (fs_framesize s) (fs_varmap s) (fs_uvmap s) x (fs_bl s) (fs_kt s).
Definition fset_bl (s : FuncState) (x : list FuncScope) : FuncState :=
  mkfs (fs_code s) (fs_lasttarget s) (fs_jpc s) (fs_freereg s) (fs_nactvar s) (fs_nkn s) (fs_nkgc s) (fs_linedefined s) (fs_base s) (fs_vbase s) (fs_flags s) (fs_numparams s) (fs_framesize s) (fs_varmap s) (fs_uvmap s) (fs_uvtmp s) x (fs_kt s).
Definition fset_kt (s : FuncState) (x : uttab) : FuncState :=
  mkfs (fs_code s) (fs_lasttarget s) (fs_jpc s) (fs_freereg s) (fs_nactvar s) (fs_nkn s) (fs_nkgc s) (fs_linedefined s) (fs_base s) (fs_vbase s) (fs_flags s) (fs_numparams s) (fs_framesize s) (fs_varmap s) (fs_uvmap s) (fs_uvtmp s) (fs_bl s) x.

Record pstate := mkp {
  p_ls : lexstate;
  p_vstack : list VarInfo;
  p_vtop : Z;
  p_sizevstack : Z;
  p_sizebcstack : Z;
  p_level : Z;
  p_fs : list FuncState;               (* ls->fs and its enclosing functions *)
  p_heap : list pobj;               (* tables and prototypes, in the order of their allocation *)
  p_chunkname : Z
}.

Definition pset_ls (s : pstate) (x : lexstate) : pstate :=
  mkp x (p_vstack s) (p_vtop s) (p_sizevstack s) (p_sizebcstack s) (p_level s) (p_fs s) (p_heap s) (p_chunkname s).
Definition pset_vstack (s : pstate) (x : list VarInfo) : pstate :=
  mkp (p_ls s) x (p_vtop s) (p_sizevstack s) (p_sizebcstack s) (p_level s) (p_fs s) (p_heap s) (p_chunkname s).
Definition pset_vtop (s : pstate) (x : Z) : pstate :=
  mkp (p_ls s) (p_vstack s) x (p_sizevstack s) (p_sizebcstack s) (p_level s) (p_fs s) (p_heap s) (p_chunkname s).
Definition pset_sizevstack (s : pstate) (x : Z) : pstate :=
  mkp (p_ls s) (p_vstack s) (p_vtop s) x (p_sizebcstack s) (p_level s) (p_fs s) (p_heap s) (p_chunkname s).
Definition pset_sizebcstack (s : pstate) (x : Z) : pstate :=
  mkp (p_ls s) (p_vstack s) (p_vtop s) (p_sizevstack s) x (p_level s) (p_fs s) (p_heap s) (p_chunkname s).
Definition pset_level (s : pstate) (x : Z) : pstate :=
  mkp (p_ls s) (p_vstack s) (p_vtop s) (p_sizevstack s) (p_sizebcstack s) x (p_fs s) (p_heap s) (p_chunkname s).
Definition pset_fs (s : pstate) (x : list FuncState) : pstate :=
  mkp (p_ls s) (p_vstack s) (p_vtop s) (p_sizevstack s) (p_sizebcstack s) (p_level s) x (p_heap s) (p_chunkname s).
Definition pset_heap (s : pstate) (x : list pobj) : pstate :=
  mkp (p_ls s) (p_vstack s) (p_vtop s) (p_sizevstack s) (p_sizebcstack s) (p_level s) (p_fs s) x (p_chunkname s).
Definition pset_chunkname (s : pstate) (x : Z) : pstate :=
  mkp (p_ls s) (p_vstack s) (p_vtop s) (p_sizevstack s) (p_sizebcstack s) (p_level s) (p_fs s) (p_heap s) x.

Inductive BinOpr :=
  | OPR_ADD | OPR_SUB | OPR_MUL | OPR_DIV | OPR_MOD | OPR_POW | OPR_CONCAT
  | OPR_NE | OPR_EQ | OPR_LT | OPR_GE | OPR_LE | OPR_GT | OPR_AND | OPR_OR.

#[export] Instance BinOpr_eq_dec : EqDecision BinOpr.
Proof. solve_decision. Defined.

(** ORDER OPR; [OPR_NOBINOPR] is the absence of an operator. *)
Definition opr (o : BinOpr) : Z :=
  match o with
  | OPR_ADD => 0 | OPR_SUB => 1 | OPR_MUL => 2 | OPR_DIV => 3 | OPR_MOD => 4 | OPR_POW => 5
  | OPR_CONCAT => 6 | OPR_NE => 7 | OPR_EQ => 8 | OPR_LT => 9 | OPR_GE => 10 | OPR_LE => 11
  | OPR_GT => 12 | OPR_AND => 13 | OPR_OR => 14
  end.

(** ** The parser's monad *)

(** An operation is undefined ([None]), ends the compiler with an error message,
    or has a result.  [PFuel] is for a recursion or a loop of the descent that was
    cut off; it never shows ([ParseTerm]).  A walk along a jump list has as many steps
    as there are instructions; a longer one would visit an instruction twice, and is
    the result [PLoop]. *)
Inductive perr := PErr (e : lexerr) | PFuel | PLoop.

Definition M (A : Type) : Type := pstate -> option (perr + A * pstate).

Definition gret {A} (x : A) : M A := λ s, Some (inr (x, s)).
Definition gbind {A B} (m : M A) (f : A -> M B) : M B := λ s,
  match m s with
  | None => None
  | Some (inl e) => Some (inl e)
  | Some (inr (x, s')) => f x s'
  end.
Definition gub {A} : M A := λ _, None.
Definition gfuel {A} : M A := λ _, Some (inl PFuel).
Definition gloop {A} : M A := λ _, Some (inl PLoop).
Definition gopt {A} (o : option A) : M A := λ s, match o with Some x => Some (inr (x, s)) | None => None end.
Definition gget : M pstate := λ s, Some (inr (s, s)).
Definition gput (s : pstate) : M unit := λ _, Some (inr (tt, s)).

Declare Scope gen_scope.
Delimit Scope gen_scope with gen.
Notation "x <~ m ;; f" := (gbind m (λ x, f)) (at level 100, m at next level, right associativity) : gen_scope.
Notation "m ;;; f" := (gbind m (λ _, f)) (at level 100, right associativity) : gen_scope.
#[local] Open Scope gen_scope.

(** Run an operation of the lexer. *)
Definition lex {A} (m : lexm A) : M A := λ s,
  match m (p_ls s) with
  | None => None
  | Some (inl e) => Some (inl (PErr e))
  | Some (inr (x, l)) => Some (inr (x, pset_ls s l))
  end.

Definition gls : M lexstate := s <~ gget ;; gret (p_ls s).

(** The current function. *)
Definition getfs : M FuncState := s <~ gget ;; gopt (head (p_fs s)).
Definition putfs (f : FuncState) : M unit := λ s,
  match p_fs s with
  | _ :: l => Some (inr (tt, pset_fs s (f :: l)))
  | [] => None
  end.
Definition modfs (g : FuncState -> FuncState) : M unit := f <~ getfs ;; putfs (g f).

Definition fs_pc (f : FuncState) : Z := Z.of_nat (length (fs_code f)).
Definition fs_nuv (f : FuncState) : Z := Z.of_nat (length (fs_uvmap f)).

(** [fs->bcbase[pc].ins] *)
Definition ins_of (f : FuncState) (pc : Z) : option Z :=
  if 0 <=? pc then fst <$> fs_code f !! Z.to_nat pc else ub.
Definition ins_at (pc : Z) : M Z := f <~ getfs ;; gopt (ins_of f pc).
Definition put_ins (pc ins : Z) : M unit :=
  f <~ getfs ;;
  il <~ gopt (if 0 <=? pc then fs_code f !! Z.to_nat pc else ub) ;;
  putfs (fset_code f (<[Z.to_nat pc := (ins, snd il)]> (fs_code f))).
Definition put_line (pc line : Z) : M unit :=
  f <~ getfs ;;
  il <~ gopt (if 0 <=? pc then fs_code f !! Z.to_nat pc else ub) ;;
  putfs (fset_code f (<[Z.to_nat pc := (fst il, line)]> (fs_code f))).

(** ** Errors *)

Definition err_syntax {A} (em : ErrMsg) : M A := lex (lex_error_here em).

Definition err_token {A} (tok : Z) : M A :=
  s <~ gopt (kp_lex_token2str tok) ;; lex (lex_error_here (KP_ERR_XTOKEN s)).

Definition err_limit {A} (limit : Z) (what : string) : M A :=
  f <~ getfs ;;
  lex (kp_lex_error 0 (if fs_linedefined f =? 0 then KP_ERR_XLIMM limit what
                       else KP_ERR_XLIMF (fs_linedefined f) limit what)).

Definition checklimit (v l : Z) (m : string) : M unit := if v >=? l then err_limit l m else gret tt.
Definition checklimitgt (v l : Z) (m : string) : M unit := if v >? l then err_limit l m else gret tt.
Definition checkcond (c : bool) (em : ErrMsg) : M unit := if c then gret tt else err_syntax em.

(** ** Constants *)

Definition const_pri (e : ExpDesc) : Z := ek (e_k e).

(** The slot of a constant: the one its node has, or the next one, [n]. *)
Definition const_slot (key : ktap_val) (n : Z) : M (Z * bool) := λ s,
  '(i, kt) ← Util.kp_tab_set (l_kt (p_ls s)) key;
  nd ← u_node kt !! i;
  '(r, kt) ←
    (if is_number (g_val nd) then Some ((u32 (nvalue (g_val nd)), false), kt)
     else kt ← put_node kt i (λ nd, mkutnode (set_number n) (g_key nd)); Some ((n, true), kt));
  Some (inr (r, pset_ls s (set_strs (p_ls s) (l_strs (p_ls s)) kt))).

Definition const_num (e : ExpDesc) : M Z :=
  f <~ getfs ;;
  r <~ const_slot (e_nval e) (fs_nkn f) ;;
  (if snd r then modfs (λ f, fset_nkn f (u32 (fs_nkn f + 1))) else gret tt) ;;;
  gret (fst r).

Definition const_gc (gc itype : Z) : M Z :=
  f <~ getfs ;;
  r <~ const_slot (mkval gc itype) (fs_nkgc f) ;;
  (if snd r then modfs (λ f, fset_nkgc f (u32 (fs_nkgc f + 1))) else gret tt) ;;;
  gret (fst r).

Definition const_str (e : ExpDesc) : M Z := const_gc (e_sval e) KTAP_TSTR.

(** ** Jump lists *)

Definition next_jump (f : FuncState) (pc : Z) : option Z :=
  i ← ins_of f pc;
  let delta := bc_j i in
  Some (if u32 delta =? NO_JMP then NO_JMP else u32 (pc + 1 + delta)).
Definition jmp_next (pc : Z) : M Z := f <~ getfs ;; gopt (next_jump f pc).

(** A list has at most as many elements as there are instructions. *)
Definition with_code {A} (g : nat -> M A) : M A := f <~ getfs ;; g (S (length (fs_code f))).

(** The instruction in front of a jump. *)
Definition before_jump (pc : Z) : Z := if pc >=? 1 then pc - 1 else pc.

Fixpoint novalue_loop (fuel : nat) (list : Z) : M bool :=
  match fuel with
  | O => gloop
  | S n =>
      if list =? NO_JMP then gret false
      else
        p <~ ins_at (before_jump list) ;;
        if negb ((bc_op p =? BC_ISTC) || (bc_op p =? BC_ISFC) || (bc_a p =? NO_REG)) then gret true
        else l <~ jmp_next list ;; novalue_loop n l
  end.
Definition jmp_novalue (list : Z) : M bool := with_code (λ n, novalue_loop n list).

Definition jmp_patchtestreg (pc reg : Z) : M bool :=
  let i := before_jump pc in
  ins <~ ins_at i ;;
  let op := bc_op ins in
  if (op =? BC_ISTC) || (op =? BC_ISFC) then
    (if negb (reg =? NO_REG) && negb (reg =? bc_d ins) then put_ins i (setbc_a ins reg)
     else put_ins i (setbc_a (setbc_op ins (op + (BC_IST - BC_ISTC))) 0)) ;;;
    gret true
  else if bc_a ins =? NO_REG then
    (if reg =? NO_REG then
       j <~ ins_at pc ;; put_ins i (BCINS_AJ BC_JMP (bc_a j) 0)
     else
       put_ins i (setbc_a ins reg) ;;;
       nx <~ ins_at (i + 1) ;;
       if reg >=? bc_a nx then put_ins (i + 1) (setbc_a nx (reg + 1)) else gret tt) ;;;
    gret true
  else gret false.

Fixpoint dropval_loop (fuel : nat) (list : Z) : M unit :=
  match fuel with
  | O => gloop
  | S n =>
      if list =? NO_JMP then gret tt
      else jmp_patchtestreg list NO_REG ;;; l <~ jmp_next list ;; dropval_loop n l
  end.
Definition jmp_dropval (list : Z) : M unit := with_code (λ n, dropval_loop n list).

Definition jmp_patchins (pc dest : Z) : M unit :=
  jmp <~ ins_at pc ;;
  let offset := u32 (dest - (pc + 1) + BCBIAS_J) in
  if offset >? BCMAX_D then err_syntax KP_ERR_XJUMP else put_ins pc (setbc_d jmp offset).

(** The last element of a list. *)
Fixpoint last_loop (fuel : nat) (list : Z) : M Z :=
  match fuel with
  | O => gloop
  | S n => l <~ jmp_next list ;; if l =? NO_JMP then gret list else last_loop n l
  end.

(** The list [*l1] after appending [l2]. *)
Definition jmp_append (l1 l2 : Z) : M Z :=
  if l2 =? NO_JMP then gret l1
  else if l1 =? NO_JMP then gret l2
  else last <~ with_code (λ n, last_loop n l1) ;; jmp_patchins last l2 ;;; gret l1.

Fixpoint patchval_loop (fuel : nat) (list vtarget reg dtarget : Z) : M unit :=
  match fuel with
  | O => gloop
  | S n =>
      if list =? NO_JMP then gret tt
      else
        nx <~ jmp_next list ;;
        b <~ jmp_patchtestreg list reg ;;
        jmp_patchins list (if b : bool then vtarget else dtarget) ;;;
        patchval_loop n nx vtarget reg dtarget
  end.
Definition jmp_patchval (list vtarget reg dtarget : Z) : M unit :=
  with_code (λ n, patchval_loop n list vtarget reg dtarget).

Definition jmp_tohere (list : Z) : M unit :=
  modfs (λ f, fset_lasttarget f (fs_pc f)) ;;;
  f <~ getfs ;;
  l <~ jmp_append (fs_jpc f) list ;;
  modfs (λ f, fset_jpc f l).

Definition jmp_patch (list target : Z) : M unit :=
  f <~ getfs ;;
  if target =? fs_pc f then jmp_tohere list else jmp_patchval list target NO_REG target.

(** ** Registers *)

Definition bcreg_bump (n : Z) : M unit :=
  f <~ getfs ;;
  let sz := u32 (fs_freereg f + n) in
  if sz >? fs_framesize f then
    (if sz >=? KP_MAX_SLOTS then err_syntax KP_ERR_XSLOTS else gret tt) ;;;
    modfs (λ f, fset_framesize f (u8 sz))
  else gret tt.

Definition bcreg_reserve (n : Z) : M unit :=
  bcreg_bump n ;;; modfs (λ f, fset_freereg f (u32 (fs_freereg f + n))).

(** [fs->freereg--] *)
Definition pop_reg : M unit := modfs (λ f, fset_freereg f (u32 (fs_freereg f - 1))).

Definition bcreg_free (reg : Z) : M unit :=
  f <~ getfs ;; if reg >=? fs_nactvar f then pop_reg else gret tt.

Definition expr_free (e : ExpDesc) : M unit :=
  if is_k e VNONRELOC then bcreg_free (e_info e) else gret tt.

(** ** Emitting instructions *)

(** Make room for the instruction at [pc]. *)
Definition grow_code (pc : Z) : M unit :=
  f <~ getfs ;;
  s <~ gget ;;
  if pc >=? p_sizebcstack s - fs_base f then
    checklimit (p_sizebcstack s) KP_MAX_BCINS "bytecode instructions" ;;;
    s <~ gget ;;
    gput (pset_sizebcstack s (if p_sizebcstack s =? 0 then 20 else p_sizebcstack s * 2))
  else gret tt.

Definition bcemit_INS (ins : Z) : M Z :=
  f <~ getfs ;;
  let pc := fs_pc f in
  jmp_patchval (fs_jpc f) pc NO_REG pc ;;;
  modfs (λ f, fset_jpc f NO_JMP) ;;;
  grow_code pc ;;;
  l <~ gls ;;
  modfs (λ f, fset_code f (fs_code f ++ [(ins, l_lastline l)])) ;;;
  gret pc.

Definition bcemit_ABC (o a b c : Z) : M Z := bcemit_INS (BCINS_ABC o a b c).
Definition bcemit_AD (o a d : Z) : M Z := bcemit_INS (BCINS_AD o a d).
Definition bcemit_AJ (o a j : Z) : M Z := bcemit_INS (BCINS_AJ o a j).

(** ** Expressions *)

(** [fs->pc--]: the last instruction is dropped. *)
Definition drop_ins : M unit := modfs (λ f, fset_code f (take (pred (length (fs_code f))) (fs_code f))).

Definition expr_discharge (e : ExpDesc) : M ExpDesc :=
  match e_k e with
  | VUPVAL => pc <~ bcemit_INS (BCINS_AD BC_UGET 0 (e_info e)) ;; gret (eset e VRELOCABLE pc)
  | VGLOBAL =>
      c <~ const_str e ;;
      pc <~ bcemit_INS (BCINS_AD BC_GGET 0 c) ;; gret (eset e VRELOCABLE pc)
  | VINDEXED =>
      let rc := e_aux e in
      ins <~ (if s32 rc <? 0 then gret (BCINS_ABC BC_TGETS 0 (e_info e) (u32 (Z.lnot rc)))
              else if rc >? BCMAX_C then gret (BCINS_ABC BC_TGETB 0 (e_info e) (rc - (BCMAX_C + 1)))
              else bcreg_free rc ;;; gret (BCINS_ABC BC_TGETV 0 (e_info e) rc)) ;;
      bcreg_free (e_info e) ;;;
      pc <~ bcemit_INS ins ;; gret (eset e VRELOCABLE pc)
  | VCALL => gret (eset e VNONRELOC (e_aux e))
  | VLOCAL => gret (eset_k e VNONRELOC)
  | _ => gret e
  end.

(** A new instruction that sets [n] registers from [from] to nil. *)
Definition emit_nil (from n : Z) : M unit :=
  bcemit_INS (if n =? 1 then BCINS_AD BC_KPRI from (ek VKNIL) else BCINS_AD BC_KNIL from (from + n - 1)) ;;;
  gret tt.

Definition bcemit_nil (from n : Z) : M unit :=
  f <~ getfs ;;
  if fs_pc f >? fs_lasttarget f then
    let pc := fs_pc f - 1 in
    ip <~ ins_at pc ;;
    let pfrom := bc_a ip in
    if bc_op ip =? BC_KPRI then
      if negb (bc_d ip =? u32 (Z.lnot KTAP_TNIL)) then emit_nil from n
      else if from =? pfrom then
        if n =? 1 then gret tt else put_ins pc (BCINS_AD BC_KNIL from (from + n - 1))
      else if from =? pfrom + 1 then put_ins pc (BCINS_AD BC_KNIL pfrom (pfrom + (n + 1) - 1))
      else emit_nil from n
    else if bc_op ip =? BC_KNIL then
      let pto := bc_d ip in
      if (pfrom <=? from) && (from <=? pto + 1) then
        if from + n - 1 >? pto then put_ins pc (setbc_d ip (from + n - 1)) else gret tt
      else emit_nil from n
    else emit_nil from n
  else emit_nil from n.

Definition expr_toreg_nobranch (e : ExpDesc) (reg : Z) : M ExpDesc :=
  e <~ expr_discharge e ;;
  let done := gret (eset e VNONRELOC reg) in
  let emit ins := bcemit_INS ins ;;; done in
  match e_k e with
  | VKSTR => c <~ const_str e ;; emit (BCINS_AD BC_KSTR reg c)
  | VKNUM =>
      let n := expr_numberV e in
      if (0 <=? n) && (n <=? 0xffff) then emit (BCINS_AD BC_KSHORT reg (u16 n))
      else c <~ const_num e ;; emit (BCINS_AD BC_KNUM reg c)
  | VRELOCABLE => i <~ ins_at (e_info e) ;; put_ins (e_info e) (setbc_a i reg) ;;; done
  | VNONRELOC => if reg =? e_info e then done else emit (BCINS_AD BC_MOV reg (e_info e))
  | VKNIL => bcemit_nil reg 1 ;;; done
  | VKFALSE | VKTRUE => emit (BCINS_AD BC_KPRI reg (const_pri e))
  | VARGN => emit (BCINS_AD BC_VARGN reg (e_info e))
  | VARGSTR | VARGNAME | VPID | VTID | VUID | VCPU | VEXECNAME =>
      emit (BCINS_AD (ek (e_k e) - ek VARGN + BC_VARGN) reg 0)
  | _ => gret e
  end.

Definition bcemit_jmp : M Z :=
  f <~ getfs ;;
  let jpc := fs_jpc f in
  let j := u32 (fs_pc f - 1) in
  ip <~ ins_at j ;;
  modfs (λ f, fset_jpc f NO_JMP) ;;;
  j <~ (if (s32 j >=? s32 (fs_lasttarget f)) && (bc_op ip =? BC_UCLO)
        then put_ins j (setbc_j ip NO_JMP) ;;; gret j
        else bcemit_AJ BC_JMP (fs_freereg f) NO_JMP) ;;
  jmp_append j jpc.

Definition expr_toreg (e : ExpDesc) (reg : Z) : M ExpDesc :=
  e <~ expr_toreg_nobranch e reg ;;
  e <~ (if is_k e VJMP then t <~ jmp_append (e_t e) (e_info e) ;; gret (eset_t e t) else gret e) ;;
  (if expr_hasjump e then
     nt <~ jmp_novalue (e_t e) ;;
     nf <~ (if nt : bool then gret true else jmp_novalue (e_f e)) ;;
     r <~ (if nf : bool then
             jval <~ (if is_k e VJMP then gret NO_JMP else bcemit_jmp) ;;
             jfalse <~ bcemit_AD BC_KPRI reg (ek VKFALSE) ;;
             f <~ getfs ;;
             bcemit_AJ BC_JMP (fs_freereg f) 1 ;;;
             jtrue <~ bcemit_AD BC_KPRI reg (ek VKTRUE) ;;
             jmp_tohere jval ;;;
             gret (jfalse, jtrue)
           else gret (NO_JMP, NO_JMP)) ;;
     f <~ getfs ;;
     let jend := fs_pc f in
     modfs (λ f, fset_lasttarget f jend) ;;;
     jmp_patchval (e_f e) jend reg (fst r) ;;;
     jmp_patchval (e_t e) jend reg (snd r)
   else gret tt) ;;;
  gret (mke VNONRELOC reg (e_aux e) (e_nval e) (e_sval e) NO_JMP NO_JMP).

Definition expr_tonextreg (e : ExpDesc) : M ExpDesc :=
  e <~ expr_discharge e ;;
  expr_free e ;;;
  bcreg_reserve 1 ;;;
  f <~ getfs ;;
  expr_toreg e (u32 (fs_freereg f - 1)).

Definition expr_toanyreg (e : ExpDesc) : M ExpDesc :=
  e <~ expr_discharge e ;;
  f <~ getfs ;;
  if is_k e VNONRELOC && negb (expr_hasjump e) then gret e
  else if is_k e VNONRELOC && (e_info e >=? fs_nactvar f) then expr_toreg e (e_info e)
  else expr_tonextreg e.

Definition expr_toval (e : ExpDesc) : M ExpDesc :=
  if expr_hasjump e then expr_toanyreg e else expr_discharge e.

(** ** Stores *)

(** [vstack[i].info |= VSTACK_VAR_RW] *)
Definition mark_rw (i : Z) : M unit :=
  s <~ gget ;;
  v <~ gopt (p_vstack s !! Z.to_nat i) ;;
  gput (pset_vstack s (<[Z.to_nat i :=
    mkvar (v_name v) (v_startpc v) (v_endpc v) (v_slot v) (v_info v .| VSTACK_VAR_RW)]> (p_vstack s))).

(** The store of register [ra] to an indexed variable, with the opcodes for a
    string key, a byte key and a register. *)
Definition indexed_ins (ops opb opv : BCOp) (ra : Z) (var : ExpDesc) : Z :=
  let rc := e_aux var in
  if s32 rc <? 0 then BCINS_ABC ops ra (e_info var) (u32 (Z.lnot rc))
  else if rc >? BCMAX_C then BCINS_ABC opb ra (e_info var) (rc - (BCMAX_C + 1))
  else BCINS_ABC opv ra (e_info var) rc.

Definition bcemit_store (var e : ExpDesc) : M unit :=
  match e_k var with
  | VLOCAL => mark_rw (e_aux var) ;;; expr_free e ;;; expr_toreg e (e_info var) ;;; gret tt
  | VUPVAL =>
      mark_rw (e_aux var) ;;;
      e <~ expr_toval e ;;
      r <~ (if ek (e_k e) <=? ek VKTRUE then gret (BCINS_AD BC_USETP (e_info var) (const_pri e), e)
            else if is_k e VKSTR then c <~ const_str e ;; gret (BCINS_AD BC_USETS (e_info var) c, e)
            else if is_k e VKNUM then c <~ const_num e ;; gret (BCINS_AD BC_USETN (e_info var) c, e)
            else e <~ expr_toanyreg e ;; gret (BCINS_AD BC_USETV (e_info var) (e_info e), e)) ;;
      bcemit_INS (fst r) ;;; expr_free (snd r)
  | VGLOBAL =>
      e <~ expr_toanyreg e ;; c <~ const_str var ;;
      bcemit_INS (BCINS_AD BC_GSET (e_info e) c) ;;; expr_free e
  | _ =>
      e <~ expr_toanyreg e ;;
      bcemit_INS (indexed_ins BC_TSETS BC_TSETB BC_TSETV (e_info e) var) ;;; expr_free e
  end.

Definition bcemit_store_incr (var e : ExpDesc) : M unit :=
  match e_k var with
  | VLOCAL => err_syntax KP_ERR_XSYMBOL
  | VUPVAL =>
      mark_rw (e_aux var) ;;;
      e <~ expr_toval e ;;
      r <~ (if is_k e VKNUM then c <~ const_num e ;; gret (BCINS_AD BC_UINCN (e_info var) c, e)
            else if (ek (e_k e) <=? ek VKTRUE) || is_k e VKSTR then err_syntax KP_ERR_XSYMBOL
            else e <~ expr_toanyreg e ;; gret (BCINS_AD BC_UINCV (e_info var) (e_info e), e)) ;;
      bcemit_INS (fst r) ;;; expr_free (snd r)
  | VGLOBAL =>
      e <~ expr_toanyreg e ;; c <~ const_str var ;;
      bcemit_INS (BCINS_AD BC_GINC (e_info e) c) ;;; expr_free e
  | _ =>
      e <~ expr_toanyreg e ;;
      bcemit_INS (indexed_ins BC_TINCS BC_TINCB BC_TINCV (e_info e) var) ;;; expr_free e
  end.

Definition bcemit_method (e key : ExpDesc) : M ExpDesc :=
  e <~ expr_toanyreg e ;;
  let obj := e_info e in
  expr_free e ;;;
  f <~ getfs ;;
  let func := fs_freereg f in
  bcemit_AD BC_MOV (func + 1) obj ;;;
  idx <~ const_str key ;;
  (if idx <=? BCMAX_C then bcreg_reserve 2 ;;; bcemit_ABC BC_TGETS func obj idx ;;; gret tt
   else
     bcreg_reserve 3 ;;;
     bcemit_AD BC_KSTR (func + 2) idx ;;;
     bcemit_ABC BC_TGETV func obj (func + 2) ;;;
     pop_reg) ;;;
  gret (eset e VNONRELOC func).

(** ** Branches *)

Definition invertcond (e : ExpDesc) : M unit :=
  let pc := u32 (e_info e - 1) in
  i <~ ins_at pc ;; put_ins pc (setbc_op i (bc_op i ⊕ 1)).

Definition bcemit_branch (e : ExpDesc) (cond : bool) : M (Z * ExpDesc) :=
  isnot <~ (if is_k e VRELOCABLE then i <~ ins_at (e_info e) ;; gret (if bc_op i =? BC_NOT then Some i else None)
            else gret None) ;;
  match isnot with
  | Some i =>
      put_ins (e_info e) (BCINS_AD (if cond then BC_ISF else BC_IST) 0 (bc_d i)) ;;;
      pc <~ bcemit_jmp ;; gret (pc, e)
  | None =>
      e <~ (if is_k e VNONRELOC then gret e
            else bcreg_reserve 1 ;;; f <~ getfs ;; expr_toreg_nobranch e (u32 (fs_freereg f - 1))) ;;
      bcemit_AD (if cond then BC_ISTC else BC_ISFC) NO_REG (e_info e) ;;;
      pc <~ bcemit_jmp ;;
      expr_free e ;;;
      gret (pc, e)
  end.

Definition bcemit_branch_t (e : ExpDesc) : M ExpDesc :=
  e <~ expr_discharge e ;;
  r <~ match e_k e with
       | VKSTR | VKNUM | VKTRUE => gret (NO_JMP, e)
       | VJMP => invertcond e ;;; gret (e_info e, e)
       | VKFALSE | VKNIL => e <~ expr_toreg_nobranch e NO_REG ;; pc <~ bcemit_jmp ;; gret (pc, e)
       | _ => bcemit_branch e false
       end ;;
  let e := snd r in
  l <~ jmp_append (e_f e) (fst r) ;;
  jmp_tohere (e_t e) ;;;
  gret (eset_t (eset_f e l) NO_JMP).

Definition bcemit_branch_f (e : ExpDesc) : M ExpDesc :=
  e <~ expr_discharge e ;;
  r <~ match e_k e with
       | VKNIL | VKFALSE => gret (NO_JMP, e)
       | VJMP => gret (e_info e, e)
       | VKSTR | VKNUM | VKTRUE => e <~ expr_toreg_nobranch e NO_REG ;; pc <~ bcemit_jmp ;; gret (pc, e)
       | _ => bcemit_branch e true
       end ;;
  let e := snd r in
  l <~ jmp_append (e_t e) (fst r) ;;
  jmp_tohere (e_f e) ;;;
  gret (eset_f (eset_t e l) NO_JMP).

(** ** Operators *)

(** A result of signed arithmetic. *)
Definition slong (z : Z) : option Z := if (- 2 ^ 63 <=? z) && (z <? 2 ^ 63) then Some z else ub.

(** [op] counts from addition; exponentiation is not computed. *)
Definition number_foldarith (x y : Z) (op : Z) : option Z :=
  if op =? opr OPR_ADD - opr OPR_ADD then slong (x + y)
  else if op =? opr OPR_SUB - opr OPR_ADD then slong (x - y)
  else if op =? opr OPR_MUL - opr OPR_ADD then slong (x * y)
  else if op =? opr OPR_DIV - opr OPR_ADD then if y =? 0 then ub else slong (Z.quot x y)
  else Some x.

(** Nothing for an expression that is not folded. *)
Definition foldarith (o : BinOpr) (e1 e2 : ExpDesc) : option (option ExpDesc) :=
  if negb (expr_isnumk_nojump e1) || negb (expr_isnumk_nojump e2) then Some None
  else if bool_decide (o = OPR_DIV) && (expr_numberV e2 =? 0) then Some None
  else if bool_decide (o = OPR_MOD) then Some None
  else
    n ← number_foldarith (expr_numberV e1) (expr_numberV e2) (opr o - opr OPR_ADD);
    Some (Some (eset_nval e1 (set_number n))).

(** Give back the registers of two operands whatever their order. *)
Definition free_operand (e : ExpDesc) : M unit :=
  f <~ getfs ;;
  if is_k e VNONRELOC && (e_info e >=? fs_nactvar f) then pop_reg else gret tt.

(** The operands of an arithmetic instruction: opcode, RB, RC, and the two
    expressions. *)
Definition arith_operands (o : BinOpr) (e1 e2 : ExpDesc) : M (Z * Z * Z * ExpDesc * ExpDesc) :=
  if bool_decide (o = OPR_POW) then
    e2 <~ expr_toanyreg e2 ;;
    e1 <~ expr_toanyreg e1 ;;
    gret (bcop_code BC_POW, e_info e1, e_info e2, e1, e2)
  else
    let op := opr o - opr OPR_ADD + BC_ADDVV in
    e2 <~ expr_toval e2 ;;
    k <~ (if expr_isnumk e2 then c <~ const_num e2 ;; gret (if c <=? BCMAX_C then Some c else None)
          else gret None) ;;
    r <~ match k with
         | Some c => gret (op - (BC_ADDVV - BC_ADDVN), c, e2)
         | None => e2 <~ expr_toanyreg e2 ;; gret (op, e_info e2, e2)
         end ;;
    let '(op, rc, e2) := r in
    e1 <~ expr_toval e1 ;;
    t <~ (if expr_isnumk e1 && negb (expr_isnumk e2)
          then c <~ const_num e1 ;; gret (if c <=? BCMAX_B then Some c else None) else gret None) ;;
    match t with
    | Some t => gret (op - (BC_ADDVV - BC_ADDNV), rc, t, e1, e2)
    | None => e1 <~ expr_toanyreg e1 ;; gret (op, e_info e1, rc, e1, e2)
    end.

Definition bcemit_arith (o : BinOpr) (e1 e2 : ExpDesc) : M ExpDesc :=
  fold <~ gopt (foldarith o e1 e2) ;;
  match fold with
  | Some e1 => gret e1
  | None =>
      r <~ arith_operands o e1 e2 ;;
      let '(op, rb, rc, e1, e2) := r in
      free_operand e1 ;;;
      free_operand e2 ;;;
      pc <~ bcemit_ABC op 0 rb rc ;;
      gret (eset e1 VRELOCABLE pc)
  end.

(** The instruction of an equality test, its second operand discharged. *)
Definition eq_ins (op : BCOp) (ra : Z) (e2 : ExpDesc) : M (Z * ExpDesc) :=
  match e_k e2 with
  | VKNIL | VKFALSE | VKTRUE => gret (BCINS_AD (op + (BC_ISEQP - BC_ISEQV)) ra (const_pri e2), e2)
  | VKSTR => c <~ const_str e2 ;; gret (BCINS_AD (op + (BC_ISEQS - BC_ISEQV)) ra c, e2)
  | VKNUM => c <~ const_num e2 ;; gret (BCINS_AD (op + (BC_ISEQN - BC_ISEQV)) ra c, e2)
  | _ => e2 <~ expr_toanyreg e2 ;; gret (BCINS_AD op ra (e_info e2), e2)
  end.

(** The instruction, the two operands in its order, and whether they were
    swapped. *)
Definition comp_operands (o : BinOpr) (e1 e2 : ExpDesc) : M (Z * ExpDesc * ExpDesc * bool) :=
  e1 <~ expr_toval e1 ;;
  if bool_decide (o = OPR_EQ) || bool_decide (o = OPR_NE) then
    let swap := expr_isk e1 in
    let x := if swap then e2 else e1 in
    let y := if swap then e1 else e2 in
    x <~ expr_toanyreg x ;;
    y <~ expr_toval y ;;
    r <~ eq_ins (if bool_decide (o = OPR_EQ) then BC_ISEQV else BC_ISNEV) (e_info x) y ;;
    gret (fst r, x, snd r, swap)
  else
    let op := opr o - opr OPR_LT + BC_ISLT in
    let swap := negb ((op - BC_ISLT) .& 1 =? 0) in
    let op := if swap then ((op - BC_ISLT) ⊕ 3) + BC_ISLT else op in
    let x := if swap then e2 else e1 in
    let y := if swap then e1 else e2 in
    x <~ (if swap then expr_toval x else gret x) ;;
    y <~ expr_toanyreg y ;;
    x <~ expr_toanyreg x ;;
    gret (BCINS_AD op (e_info x) (e_info y), x, y, swap).

Definition bcemit_comp (o : BinOpr) (e1 e2 : ExpDesc) : M ExpDesc :=
  r <~ comp_operands o e1 e2 ;;
  let '(ins, x, y, swap) := r in
  free_operand x ;;;
  free_operand y ;;;
  bcemit_INS ins ;;;
  pc <~ bcemit_jmp ;;
  gret (eset (if swap : bool then y else x) VJMP pc).

Definition bcemit_binop_left (o : BinOpr) (e : ExpDesc) : M ExpDesc :=
  match o with
  | OPR_AND => bcemit_branch_t e
  | OPR_OR => bcemit_branch_f e
  | OPR_CONCAT => expr_tonextreg e
  | OPR_EQ | OPR_NE => if negb (expr_isk_nojump e) then expr_toanyreg e else gret e
  | _ => if negb (expr_isnumk_nojump e) then expr_toanyreg e else gret e
  end.

Definition bcemit_binop (o : BinOpr) (e1 e2 : ExpDesc) : M ExpDesc :=
  match o with
  | OPR_ADD | OPR_SUB | OPR_MUL | OPR_DIV | OPR_MOD | OPR_POW => bcemit_arith o e1 e2
  | OPR_AND => e2 <~ expr_discharge e2 ;; l <~ jmp_append (e_f e2) (e_f e1) ;; gret (eset_f e2 l)
  | OPR_OR => e2 <~ expr_discharge e2 ;; l <~ jmp_append (e_t e2) (e_t e1) ;; gret (eset_t e2 l)
  | OPR_CONCAT =>
      e2 <~ expr_toval e2 ;;
      cat <~ (if is_k e2 VRELOCABLE then i <~ ins_at (e_info e2) ;; gret (if bc_op i =? BC_CAT then Some i else None)
              else gret None) ;;
      match cat with
      | Some i =>
          expr_free e1 ;;;
          put_ins (e_info e2) (setbc_b i (e_info e1)) ;;;
          gret (eset e1 VRELOCABLE (e_info e2))
      | None =>
          e2 <~ expr_tonextreg e2 ;;
          expr_free e2 ;;;
          expr_free e1 ;;;
          pc <~ bcemit_ABC BC_CAT 0 (e_info e1) (e_info e2) ;;
          gret (eset e1 VRELOCABLE pc)
      end
  | _ => bcemit_comp o e1 e2
  end.

(** Emit a unary instruction on an expression in a register. *)
Definition emit_unop (op : BCOp) (e : ExpDesc) : M ExpDesc :=
  expr_free e ;;; pc <~ bcemit_AD op 0 (e_info e) ;; gret (eset e VRELOCABLE pc).

Definition bcemit_unop (op : BCOp) (e : ExpDesc) : M ExpDesc :=
  match op with
  | BC_NOT =>
      let e := eset_t (eset_f e (e_t e)) (e_f e) in
      jmp_dropval (e_f e) ;;;
      jmp_dropval (e_t e) ;;;
      e <~ expr_discharge e ;;
      match e_k e with
      | VKNIL | VKFALSE => gret (eset_k e VKTRUE)
      | VKTRUE | VKSTR | VKNUM => gret (eset_k e VKFALSE)
      | VJMP => invertcond e ;;; gret e
      | VRELOCABLE =>
          bcreg_reserve 1 ;;;
          f <~ getfs ;;
          i <~ ins_at (e_info e) ;;
          put_ins (e_info e) (setbc_a i (u32 (fs_freereg f - 1))) ;;;
          emit_unop op (eset e VNONRELOC (u32 (fs_freereg f - 1)))
      | _ => emit_unop op e
      end
  | _ =>
      if bool_decide (op = BC_UNM) && negb (expr_hasjump e) && (expr_isnumk e && negb (expr_numiszero e)) then
        if is_number (e_nval e) then
          n <~ gopt (slong (- nvalue (e_nval e))) ;; gret (eset_nval e (set_number n))
        else gret e
      else e <~ expr_toanyreg e ;; emit_unop op e
  end.
