(* ===== verification/Parse.v ===== *)
(** * Parse: the parser of the compiler ([userspace/kp_parse.c], upper half)

    Variables and scopes, gotos, the completion of a function, and the recursive
    descent over expressions and statements.  Parsing and code generation are
    one pass: the functions here drive those of [Gen].

    Objects that are not strings live in [p_heap]; the address of the [n]-th one
    is [malloc n], a parameter like the parser of event definitions, which
    consults the running system.

    The functions of the descent call each other; they are written over the
    recursive ones, and [expr_binop] and [parse_chunk] tie the knot with fuel.
    Every call and every round of a loop consumes a token, so as much fuel as the
    source has characters is enough ([ParseTerm]). *)

From S2P Require Import Prelude Types Bytecode BcWrite Util Lex Gen.
#[local] Open Scope word_scope.
#[local] Open Scope gen_scope.
#[local] Coercion bcop_code : BCOp >-> Z.

Definition TK_trace : Z := TK_OFS + 1.
Definition TK_trace_end : Z := TK_OFS + 2.
Definition TK_argstr : Z := TK_OFS + 3.
Definition TK_probename : Z := TK_OFS + 4.
Definition TK_arg0 : Z := TK_OFS + 6.
Definition TK_arg9 : Z := TK_OFS + 15.
Definition TK_profile : Z := TK_OFS + 16.
Definition TK_tick : Z := TK_OFS + 17.
Definition TK_pid : Z := TK_OFS + 18.
Definition TK_tid : Z := TK_OFS + 19.
Definition TK_uid : Z := TK_OFS + 20.
Definition TK_cpu : Z := TK_OFS + 21.
Definition TK_execname : Z := TK_OFS + 22.
Definition TK_break : Z := TK_OFS + 25.
Definition TK_do : Z := TK_OFS + 26.
Definition TK_else : Z := TK_OFS + 27.
Definition TK_elseif : Z := TK_OFS + 28.
Definition TK_end : Z := TK_OFS + 29.
Definition TK_false : Z := TK_OFS + 30.
Definition TK_for : Z := TK_OFS + 31.
Definition TK_function : Z := TK_OFS + 32.
Definition TK_if : Z := TK_OFS + 34.
Definition TK_in : Z := TK_OFS + 35.
Definition TK_local : Z := TK_OFS + 36.
Definition TK_nil : Z := TK_OFS + 37.
Definition TK_repeat : Z := TK_OFS + 40.
Definition TK_return : Z := TK_OFS + 41.
Definition TK_true : Z := TK_OFS + 43.
Definition TK_until : Z := TK_OFS + 44.

Definition PROTO_HAS_RETURN : Z := 0x20.
Definition PROTO_FIXUP_RETURN : Z := 0x40.

(** ** Lexer support *)

Definition tok : M Z := l <~ gls ;; gret (l_tok l).
Definition linenumber : M Z := l <~ gls ;; gret (l_linenumber l).
Definition lex_skip : M unit := lex kp_lex_next.

Definition lex_opt (t : Z) : M bool :=
  t' <~ tok ;; if t' =? t then lex_skip ;;; gret true else gret false.

Definition lex_check (t : Z) : M unit :=
  t' <~ tok ;; (if negb (t' =? t) then err_token t else gret tt) ;;; lex_skip.

Definition lex_match (what who line : Z) : M unit :=
  b <~ lex_opt what ;;
  if b : bool then gret tt
  else
    l <~ linenumber ;;
    if line =? l then err_token what
    else
      swhat <~ gopt (kp_lex_token2str what) ;;
      swho <~ gopt (kp_lex_token2str who) ;;
      err_syntax (KP_ERR_XMATCH swhat swho line).

(** The address of the name. *)
Definition lex_str : M Z :=
  t <~ tok ;;
  (if negb (t =? TK_name) then err_token TK_name else gret tt) ;;;
  l <~ gls ;;
  lex_skip ;;;
  gret (val (l_tokval l)).

(** [kp_str_newz] on a literal. *)
Definition str_lit (w : string) : M Z := λ s,
  '(a, t) ← Util.kp_str_new (l_strs (p_ls s)) (byte_string w);
  Some (inr (a, pset_ls s (set_strs (p_ls s) t (l_kt (p_ls s))))).

Definition str_bytes (a : Z) : M bytes := l <~ gls ;; o <~ gopt (str_obj (l_strs l) a) ;; gret (us_bytes o).

(** [getstr] of a name. *)
Definition name_bytes (n : vname) : M bytes := match n with NStr a => str_bytes a | _ => gub end.

(** ** The variable stack *)

(** Make room for one more entry. *)
Definition grow_vstack : M unit :=
  s <~ gget ;;
  if p_vtop s >=? p_sizevstack s then
    (if p_sizevstack s >=? KP_MAX_VSTACK then lex (kp_lex_error 0 (KP_ERR_XLIMC KP_MAX_VSTACK)) else gret tt) ;;;
    s <~ gget ;;
    gput (pset_sizevstack s (if p_sizevstack s =? 0 then 20 else p_sizevstack s * 2))
  else gret tt.

Definition get_var (i : Z) : M VarInfo :=
  s <~ gget ;; gopt (if 0 <=? i then p_vstack s !! Z.to_nat i else ub).

(** Entries are written in order; what an entry above the top held stays until
    it is written. *)
Definition put_var (i : Z) (v : VarInfo) : M unit :=
  s <~ gget ;;
  if (0 <=? i) && (i <? Z.of_nat (length (p_vstack s))) then
    gput (pset_vstack s (<[Z.to_nat i := v]> (p_vstack s)))
  else if i =? Z.of_nat (length (p_vstack s)) then gput (pset_vstack s (p_vstack s ++ [v]))
  else gub.

Definition set_startpc (v : VarInfo) (pc : Z) : VarInfo := mkvar (v_name v) pc (v_endpc v) (v_slot v) (v_info v).
Definition set_endpc (v : VarInfo) (pc : Z) : VarInfo := mkvar (v_name v) (v_startpc v) pc (v_slot v) (v_info v).
Definition set_slot (v : VarInfo) (n : Z) : VarInfo := mkvar (v_name v) (v_startpc v) (v_endpc v) n (v_info v).
Definition set_name (v : VarInfo) (n : vname) : VarInfo := mkvar n (v_startpc v) (v_endpc v) (v_slot v) (v_info v).

(** [varmap[reg]] *)
Definition var_index (f : FuncState) (reg : Z) : option Z :=
  if 0 <=? reg then fs_varmap f !! Z.to_nat reg else ub.
Definition var_get (reg : Z) : M (Z * VarInfo) :=
  f <~ getfs ;; i <~ gopt (var_index f reg) ;; v <~ get_var i ;; gret (i, v).

Definition var_new (n : Z) (name : vname) : M unit :=
  f <~ getfs ;;
  checklimit (fs_nactvar f + n) KP_MAX_LOCVAR "local variables" ;;;
  s <~ gget ;;
  let vtop := p_vtop s in
  grow_vstack ;;;
  s <~ gget ;;
  put_var vtop (set_name (default (mkvar name 0 0 0 0) (p_vstack s !! Z.to_nat vtop)) name) ;;;
  modfs (λ f, fset_varmap f (<[Z.to_nat (fs_nactvar f + n) := u16 vtop]> (fs_varmap f))) ;;;
  s <~ gget ;;
  gput (pset_vtop s (vtop + 1)).

Definition VARNAME_FOR_IDX : vname := NFixed 1.
Definition VARNAME_FOR_STOP : vname := NFixed 2.
Definition VARNAME_FOR_STEP : vname := NFixed 3.
Definition VARNAME_FOR_GEN : vname := NFixed 4.
Definition VARNAME_FOR_STATE : vname := NFixed 5.
Definition VARNAME_FOR_CTL : vname := NFixed 6.
Definition VARNAME__MAX : Z := 7.

Fixpoint var_add_loop (n : nat) (nactvar : Z) : M unit :=
  match n with
  | O => modfs (λ f, fset_nactvar f nactvar)
  | S n' =>
      r <~ var_get nactvar ;;
      f <~ getfs ;;
      put_var (fst r) (mkvar (v_name (snd r)) (fs_pc f) (v_endpc (snd r)) (u8 nactvar) 0) ;;;
      var_add_loop n' (nactvar + 1)
  end.
Definition var_add (nvars : Z) : M unit := f <~ getfs ;; var_add_loop (Z.to_nat nvars) (fs_nactvar f).

Fixpoint var_remove_loop (n : nat) : M unit :=
  match n with
  | O => gret tt
  | S n' =>
      modfs (λ f, fset_nactvar f (fs_nactvar f - 1)) ;;;
      f <~ getfs ;;
      r <~ var_get (fs_nactvar f) ;;
      put_var (fst r) (set_endpc (snd r) (fs_pc f)) ;;;
      var_remove_loop n'
  end.
Definition var_remove (tolevel : Z) : M unit :=
  f <~ getfs ;; var_remove_loop (Z.to_nat (fs_nactvar f - tolevel)).

(** The innermost active local of this name among the first [n] registers. *)
Fixpoint lookup_local (s : pstate) (f : FuncState) (name : vname) (n : nat) : option (option Z) :=
  match n with
  | O => Some None
  | S n' =>
      i ← fs_varmap f !! n';
      v ← p_vstack s !! Z.to_nat i;
      if decide (name = v_name v) then Some (Some (Z.of_nat n')) else lookup_local s f name n'
  end.
Definition var_lookup_local (d : nat) (name : vname) : M (option Z) :=
  s <~ gget ;;
  f <~ gopt (p_fs s !! d) ;;
  gopt (lookup_local s f name (Z.to_nat (fs_nactvar f))).

Definition put_fs_at (d : nat) (f : FuncState) : M unit :=
  s <~ gget ;; gput (pset_fs s (<[d := f]> (p_fs s))).

Fixpoint find_uv (l : list Z) (vidx i : Z) : option Z :=
  match l with
  | [] => None
  | x :: l' => if x =? vidx then Some i else find_uv l' vidx (i + 1)
  end.

(** In the [d]-th enclosing function. *)
Definition var_lookup_uv (d : nat) (vidx : Z) (e : ExpDesc) : M Z :=
  s <~ gget ;;
  f <~ gopt (p_fs s !! d) ;;
  match find_uv (fs_uvmap f) vidx 0 with
  | Some i => gret i
  | None =>
      (if fs_nuv f >=? KP_MAX_UPVAL then
         lex (kp_lex_error 0 (if fs_linedefined f =? 0 then KP_ERR_XLIMM KP_MAX_UPVAL "upvalues"
                              else KP_ERR_XLIMF (fs_linedefined f) KP_MAX_UPVAL "upvalues"))
       else gret tt) ;;;
      let uvtmp := u16 (if is_k e VLOCAL then vidx else KP_MAX_VSTACK + e_info e) in
      put_fs_at d (fset_uvtmp (fset_uvmap f (fs_uvmap f ++ [u16 vidx])) (fs_uvtmp f ++ [uvtmp])) ;;;
      gret (fs_nuv f)
  end.

(** The innermost scope that holds the register. *)
Fixpoint mark_upval (bl : list FuncScope) (level : Z) : list FuncScope :=
  match bl with
  | [] => []
  | b :: bl' =>
      if bl_nactvar b >? level then b :: mark_upval bl' level
      else mkscope (bl_vstart b) (bl_nactvar b) (bl_flags b .| FSCOPE_UPVAL) :: bl'
  end.
Definition fscope_uvmark (d : nat) (level : Z) : M unit :=
  s <~ gget ;; f <~ gopt (p_fs s !! d) ;; put_fs_at d (fset_bl f (mark_upval (fs_bl f) level)).

(** [k] functions from the [d]-th one outwards; the index in the variable stack,
    none for a global. *)
Fixpoint var_lookup_ (k d : nat) (name : Z) (first : bool) : M (ExpDesc * option Z) :=
  match k with
  | O => gret (eset_sval (expr_init VGLOBAL 0) name, None)
  | S k' =>
      r <~ var_lookup_local d (NStr name) ;;
      match r with
      | Some reg =>
          (if first then gret tt else fscope_uvmark d reg) ;;;
          s <~ gget ;;
          f <~ gopt (p_fs s !! d) ;;
          i <~ gopt (var_index f reg) ;;
          gret (eset_aux (expr_init VLOCAL reg) i, Some i)
      | None =>
          r <~ var_lookup_ k' (S d) name false ;;
          match snd r with
          | Some vidx => u <~ var_lookup_uv d vidx (fst r) ;; gret (eset (fst r) VUPVAL (u8 u), Some vidx)
          | None => gret r
          end
      end
  end.
Definition var_lookup : M ExpDesc :=
  name <~ lex_str ;;
  s <~ gget ;;
  r <~ var_lookup_ (length (p_fs s)) 0 name true ;;
  gret (fst r).

(** ** Gotos and labels *)

Definition gola_new (name : vname) (info pc : Z) : M Z :=
  s <~ gget ;;
  let vtop := p_vtop s in
  grow_vstack ;;;
  f <~ getfs ;;
  s <~ gget ;;
  let old := default (mkvar name 0 0 0 0) (p_vstack s !! Z.to_nat vtop) in
  put_var vtop (mkvar name pc (v_endpc old) (u8 (fs_nactvar f)) info) ;;;
  s <~ gget ;;
  gput (pset_vtop s (vtop + 1)) ;;;
  gret vtop.

Definition gola_isgoto (v : VarInfo) : bool := negb (v_info v .& VSTACK_GOTO =? 0).
Definition gola_islabel (v : VarInfo) : bool := negb (v_info v .& VSTACK_LABEL =? 0).
Definition gola_isgotolabel (v : VarInfo) : bool := negb (v_info v .& (VSTACK_GOTO .| VSTACK_LABEL) =? 0).

(** Indices of the goto and the label. *)
Definition gola_patch (g l : Z) : M unit :=
  vg <~ get_var g ;;
  vl <~ get_var l ;;
  let pc := v_startpc vg in
  put_var g (set_name vg NNull) ;;;
  i <~ ins_at pc ;;
  put_ins pc (setbc_a i (v_slot vl)) ;;;
  jmp_patch pc (v_startpc vl).

Definition gola_close (g : Z) : M unit :=
  vg <~ get_var g ;;
  let pc := v_startpc vg in
  i <~ ins_at pc ;;
  let i := setbc_a i (v_slot vg) in
  put_ins pc i ;;;
  if bc_op i =? BC_JMP then
    nx <~ jmp_next pc ;;
    (if negb (nx =? NO_JMP) then jmp_patch nx pc else gret tt) ;;;
    i <~ ins_at pc ;;
    put_ins pc (setbc_j (setbc_op i BC_UCLO) NO_JMP)
  else gret tt.

(** The line of an instruction becomes the current one before an error. *)
Definition line_of_ins (pc : Z) : M unit :=
  f <~ getfs ;;
  il <~ gopt (if 0 <=? pc then fs_code f !! Z.to_nat pc else ub) ;;
  l <~ gls ;;
  lex (lput (set_lines l (snd il) (l_lastline l))).

Fixpoint resolve_loop (n : nat) (i idx : Z) : M unit :=
  match n with
  | O => gret tt
  | S n' =>
      vg <~ get_var i ;;
      vl <~ get_var idx ;;
      (if bool_decide (v_name vg = v_name vl) && gola_isgoto vg then
         (if v_slot vg <? v_slot vl then
            r <~ var_get (v_slot vg) ;;
            line_of_ins (v_startpc vg) ;;;
            a <~ name_bytes (v_name vg) ;;
            b <~ name_bytes (v_name (snd r)) ;;
            lex (kp_lex_error 0 (KP_ERR_XGSCOPE a b))
          else gret tt) ;;;
         gola_patch i idx
       else gret tt) ;;;
      resolve_loop n' (i + 1) idx
  end.
Definition gola_resolve (bl : FuncScope) (idx : Z) : M unit :=
  resolve_loop (Z.to_nat (idx - bl_vstart bl)) (bl_vstart bl) idx.

(** The gotos from [j] on that jump back to the label at [i]. *)
Fixpoint backward_loop (n : nat) (bl : FuncScope) (name : vname) (i j : Z) : M unit :=
  match n with
  | O => gret tt
  | S n' =>
      vg <~ get_var j ;;
      v <~ get_var i ;;
      (if bool_decide (v_name vg = name) && gola_isgoto vg then
         (if negb (bl_flags bl .& FSCOPE_UPVAL =? 0) && (v_slot vg >? v_slot v)
          then gola_close j else gret tt) ;;;
         gola_patch j i
       else gret tt) ;;;
      backward_loop n' bl name i (j + 1)
  end.

(** The scope outside is the current one by now. *)
Definition propagate_goto (bl : FuncScope) (v : VarInfo) (i : Z) : M unit :=
  f <~ getfs ;;
  match fs_bl f with
  | b :: bs =>
      let flag := if decide (v_name v = NAME_BREAK) then FSCOPE_BREAK else FSCOPE_GOLA in
      putfs (fset_bl f (mkscope (bl_vstart b) (bl_nactvar b) (bl_flags b .| flag) :: bs)) ;;;
      put_var i (set_slot v (bl_nactvar bl)) ;;;
      if negb (bl_flags bl .& FSCOPE_UPVAL =? 0) then gola_close i else gret tt
  | [] =>
      line_of_ins (v_startpc v) ;;;
      if decide (v_name v = NAME_BREAK) then lex (kp_lex_error 0 KP_ERR_XBREAK)
      else n <~ name_bytes (v_name v) ;; lex (kp_lex_error 0 (KP_ERR_XLUNDEF n))
  end.

Fixpoint fixup_loop (n : nat) (bl : FuncScope) (i : Z) : M unit :=
  match n with
  | O => gret tt
  | S n' =>
      v <~ get_var i ;;
      (if decide (v_name v = NNull) then gret tt
       else if gola_islabel v then
         put_var i (set_name v NNull) ;;;
         backward_loop n' bl (v_name v) i (i + 1)
       else if gola_isgoto v then propagate_goto bl v i
       else gret tt) ;;;
      fixup_loop n' bl (i + 1)
  end.
Definition gola_fixup (bl : FuncScope) : M unit :=
  s <~ gget ;; fixup_loop (Z.to_nat (p_vtop s - bl_vstart bl)) bl (bl_vstart bl).

Fixpoint findlabel_loop (n : nat) (name : vname) (i : Z) : M bool :=
  match n with
  | O => gret false
  | S n' =>
      v <~ get_var i ;;
      if bool_decide (v_name v = name) && gola_islabel v then gret true else findlabel_loop n' name (i + 1)
  end.
Definition gola_findlabel (name : vname) : M bool :=
  f <~ getfs ;;
  s <~ gget ;;
  b <~ gopt (head (fs_bl f)) ;;
  findlabel_loop (Z.to_nat (p_vtop s - bl_vstart b)) name (bl_vstart b).

(** ** Scopes *)

Definition fscope_begin (flags : Z) : M unit :=
  s <~ gget ;;
  modfs (λ f, fset_bl f (mkscope (p_vtop s) (u8 (fs_nactvar f)) flags :: fs_bl f)).

Definition or_flags (flag : Z) : M unit :=
  f <~ getfs ;;
  match fs_bl f with
  | b :: bs => putfs (fset_bl f (mkscope (bl_vstart b) (bl_nactvar b) (bl_flags b .| flag) :: bs))
  | [] => gub
  end.

Definition fscope_end : M unit :=
  f <~ getfs ;;
  match fs_bl f with
  | [] => gub
  | bl :: bs =>
      putfs (fset_bl f bs) ;;;
      var_remove (bl_nactvar bl) ;;;
      modfs (λ f, fset_freereg f (fs_nactvar f)) ;;;
      (if bl_flags bl .& (FSCOPE_UPVAL .| FSCOPE_NOCLOSE) =? FSCOPE_UPVAL
       then bcemit_AJ BC_UCLO (bl_nactvar bl) 0 ;;; gret tt else gret tt) ;;;
      if negb (bl_flags bl .& FSCOPE_BREAK =? 0) then
        if negb (bl_flags bl .& FSCOPE_LOOP =? 0) then
          f <~ getfs ;;
          idx <~ gola_new NAME_BREAK VSTACK_LABEL (fs_pc f) ;;
          s <~ gget ;;
          gput (pset_vtop s idx) ;;;
          gola_resolve bl idx
        else gola_fixup bl
      else if bl_flags bl .& FSCOPE_GOLA =? 0 then gret tt
      else gola_fixup bl
  end.

(** ** Completing a function *)

Section Parse.

(** The address of the [n]-th object, and the parser of event definitions. *)
Context (malloc : nat -> Z) (parse_events : bytes -> option Z).

Definition alloc (o : pobj) : M Z :=
  s <~ gget ;; gput (pset_heap s (p_heap s ++ [o])) ;;; gret (malloc (length (p_heap s))).

Fixpoint addr_index (n : nat) (a : Z) (i : nat) : option nat :=
  match n with
  | O => None
  | S n' => if malloc i =? a then Some i else addr_index n' a (S i)
  end.
Definition obj_index (s : pstate) (a : Z) : option nat := addr_index (length (p_heap s)) a 0.
Definition get_obj (a : Z) : M (nat * pobj) :=
  s <~ gget ;; i <~ gopt (obj_index s a) ;; o <~ gopt (p_heap s !! i) ;; gret (i, o).
Definition put_obj (i : nat) (o : pobj) : M unit := s <~ gget ;; gput (pset_heap s (<[i := o]> (p_heap s))).

Definition fs_fixup_bc (f : FuncState) : list Z :=
  BCINS_AD (if negb (fs_flags f .& PROTO_VARARG =? 0) then BC_FUNCV else BC_FUNCF) (fs_framesize f) 0 ::
  (fst <$> tail (fs_code f)).

(** The final form of an entry of [uvtmp]. *)
Definition fixup_uv (vidx : Z) : M Z :=
  if vidx >=? KP_MAX_VSTACK then gret (vidx - KP_MAX_VSTACK)
  else
    v <~ get_var vidx ;;
    gret (if negb (v_info v .& VSTACK_VAR_RW =? 0) then v_slot v .| PROTO_UV_LOCAL
          else v_slot v .| PROTO_UV_LOCAL .| PROTO_UV_IMMUTABLE).

Fixpoint gmapM {A B} (g : A -> M B) (l : list A) : M (list B) :=
  match l with
  | [] => gret []
  | x :: l' => y <~ g x ;; ys <~ gmapM g l' ;; gret (y :: ys)
  end.

Definition set_uv (p : uproto) (uv : list Z) : uproto :=
  mkuproto (p_flags p) (p_numparams p) (p_framesize p) (p_bc p) uv (p_kgc p) (p_kn p) (p_dbg p)
    (p_firstline p) (p_numline p).

Definition fs_fixup_uv2 (p : uproto) : M uproto := uv <~ gmapM fixup_uv (p_uv p) ;; gret (set_uv p uv).

Definition utab_of (t : uttab) : utab := mkutab [] ((λ n, (g_key n, g_val n)) <$> u_node t).

(** The object a constant refers to, final for the prototype that gets it. *)
Definition const_obj (key : ktap_val) : M ugc :=
  if is_string key then gret (UStr (val key))
  else
    r <~ get_obj (val key) ;;
    match snd r with
    | PTab t => gret (UTab (utab_of t))
    | PProto p =>
        if is_proto key then p <~ fs_fixup_uv2 p ;; put_obj (fst r) (PProto p) ;;; gret (UProto p)
        else gret (UProto p)
    end.

(** The constant arrays, slots that were not written yet being empty. *)
Fixpoint fixup_k_loop (l : list utnode) (kn : list (option ktap_val)) (kgc : list (option ugc))
  : M (list (option ktap_val) * list (option ugc)) :=
  match l with
  | [] => gret (kn, kgc)
  | n :: l' =>
      if is_number (g_val n) then
        let kidx := nvalue (g_val n) in
        if is_number (g_key n) then
          if (0 <=? kidx) && (kidx <? Z.of_nat (length kn))
          then fixup_k_loop l' (<[Z.to_nat kidx := Some (g_key n)]> kn) kgc else gub
        else
          o <~ const_obj (g_key n) ;;
          if (0 <=? kidx) && (kidx <? Z.of_nat (length kgc))
          then fixup_k_loop l' kn (<[(length kgc - 1 - Z.to_nat kidx)%nat := Some o]> kgc) else gub
      else fixup_k_loop l' kn kgc
  end.

Definition fs_fixup_k : M (list ktap_val * list ugc) :=
  f <~ getfs ;;
  checklimitgt (fs_nkn f) (BCMAX_D + 1) "constants" ;;;
  checklimitgt (fs_nkgc f) (BCMAX_D + 1) "constants" ;;;
  l <~ gls ;;
  r <~ fixup_k_loop (u_node (l_kt l)) (replicate (Z.to_nat (fs_nkn f)) None) (replicate (Z.to_nat (fs_nkgc f)) None) ;;
  kn <~ gopt (mapM id (fst r)) ;;
  kgc <~ gopt (mapM id (snd r)) ;;
  gret (kn, kgc).

(** Lines of the instructions behind the header, relative to the first. *)
Definition fs_fixup_line (f : FuncState) (numline : Z) : bytes :=
  let w := if numline <? 256 then 1%nat else if numline <? 65536 then 2%nat else 4%nat in
  flat_map (λ il, le_bytes w (snd il - fs_linedefined f)) (tail (fs_code f)).

Fixpoint wuleb128 (fuel : nat) (v : Z) : bytes :=
  match fuel with
  | O => []
  | S n => if v >=? 0x80 then ((v .& 0x7f) .| 0x80) :: wuleb128 n (v ≫ 7) else [v]
  end.
Definition strfmt_wuleb128 (v : Z) : bytes := wuleb128 5 v.

Definition with_sb (g : sbuf -> option sbuf) : M unit :=
  l <~ gls ;; sb <~ gopt (g (l_sb l)) ;; lex (lput (set_sb l sb)).

Fixpoint prep_uv_loop (uv : list Z) : M unit :=
  match uv with
  | [] => gret tt
  | i :: uv' =>
      v <~ get_var i ;;
      s <~ name_bytes (v_name v) ;;
      with_sb (λ sb, kp_buf_wmem (kp_buf_more sb (Z.of_nat (length s) + 1)) (s ++ [0])) ;;;
      prep_uv_loop uv'
  end.

Fixpoint prep_var_loop (n : nat) (i lastpc : Z) : M unit :=
  match n with
  | O => gret tt
  | S n' =>
      v <~ get_var i ;;
      if gola_isgotolabel v then prep_var_loop n' (i + 1) lastpc
      else
        let range := strfmt_wuleb128 (u32 (v_startpc v - lastpc)) ++ strfmt_wuleb128 (u32 (v_endpc v - v_startpc v)) in
        match v_name v with
        | NNull => with_sb (λ sb, kp_buf_wmem (kp_buf_more sb (1 + 2 * 5)) (0 :: range))
        | NFixed k => with_sb (λ sb, kp_buf_wmem (kp_buf_more sb (1 + 2 * 5)) (k :: range))
        | NStr a =>
            s <~ str_bytes a ;;
            with_sb (λ sb, kp_buf_wmem (kp_buf_more sb (Z.of_nat (length s) + 1 + 2 * 5)) (s ++ [0] ++ range))
        end ;;;
        prep_var_loop n' (i + 1) (v_startpc v)
  end.

(** The names and ranges of upvalues and locals, left in the lexer's buffer. *)
Definition fs_prep_var : M bytes :=
  lex reset ;;;
  f <~ getfs ;;
  prep_uv_loop (fs_uvmap f) ;;;
  s <~ gget ;;
  prep_var_loop (Z.to_nat (p_vtop s - fs_vbase f)) (fs_vbase f) 0 ;;;
  with_sb (λ sb, kp_buf_putb sb 0) ;;;
  l <~ gls ;;
  gret (sb_data (l_sb l)).

Definition bcopisret (op : Z) : bool :=
  (op =? BC_CALLMT) || (op =? BC_CALLT) || (op =? BC_RETM) || (op =? BC_RET) || (op =? BC_RET0) || (op =? BC_RET1).

(** Returns in front of the first function have to close upvalues. *)
Fixpoint fixup_return_loop (n : nat) (pc : Z) : M unit :=
  match n with
  | O => gret tt
  | S n' =>
      f <~ getfs ;;
      il <~ gopt (fs_code f !! Z.to_nat pc) ;;
      let ins := fst il in
      if bcopisret (bc_op ins) then
        offset <~ bcemit_INS ins ;;
        put_line offset (snd il) ;;;
        let offset := u32 (offset - (pc + 1) + BCBIAS_J) in
        (if offset >? BCMAX_D then err_syntax KP_ERR_XFIXUP else gret tt) ;;;
        put_ins pc (BCINS_AD BC_UCLO 0 offset) ;;;
        fixup_return_loop n' (pc + 1)
      else if bc_op ins =? BC_UCLO then gret tt
      else fixup_return_loop n' (pc + 1)
  end.

Definition fs_fixup_ret : M unit :=
  f <~ getfs ;;
  let lastpc := fs_pc f in
  last <~ ins_at (lastpc - 1) ;;
  (if (lastpc <=? fs_lasttarget f) || negb (bcopisret (bc_op last)) then
     b <~ gopt (head (fs_bl f)) ;;
     (if negb (bl_flags b .& FSCOPE_UPVAL =? 0) then bcemit_AJ BC_UCLO 0 0 ;;; gret tt else gret tt) ;;;
     bcemit_AD BC_RET0 0 1 ;;; gret tt
   else gret tt) ;;;
  or_flags FSCOPE_NOCLOSE ;;;
  fscope_end ;;;
  f <~ getfs ;;
  if negb (fs_flags f .& PROTO_FIXUP_RETURN =? 0) then fixup_return_loop (Z.to_nat (lastpc - 1)) 1 else gret tt.

(** The address of the new prototype. *)
Definition fs_finish (line : Z) : M Z :=
  fs_fixup_ret ;;;
  f <~ getfs ;;
  let numline := line - fs_linedefined f in
  var <~ fs_prep_var ;;
  k <~ fs_fixup_k ;;
  f <~ getfs ;;
  a <~ alloc (PProto (mkuproto (u8 (fs_flags f .& Z.lnot (PROTO_HAS_RETURN .| PROTO_FIXUP_RETURN)))
                (fs_numparams f) (fs_framesize f) (fs_fixup_bc f) (fs_uvtmp f) (snd k) (fst k)
                (Some (fs_fixup_line f numline ++ var)) (fs_linedefined f) numline)) ;;
  s <~ gget ;;
  match p_fs s with
  | _ :: outer =>
      let s := pset_fs (pset_vtop s (fs_vbase f)) outer in
      let kt := match outer with p :: _ => fs_kt p | [] => l_kt (p_ls s) end in
      gput (pset_ls s (set_strs (p_ls s) (l_strs (p_ls s)) kt)) ;;;
      gret a
  | [] => gub
  end.

(** [linedefined], the position in the instruction stack and the flags of the
    main function are set by the callers in C. *)
Definition fs_init (line base flags : Z) : M unit :=
  s <~ gget ;;
  let fss := match p_fs s with f :: l => fset_kt f (l_kt (p_ls s)) :: l | [] => [] end in
  let f := mkfs [] 0 NO_JMP 0 0 0 0 line base (p_vtop s) flags 0 1
             (replicate (Z.to_nat KP_MAX_LOCVAR) 0) [] [] [] Util.kp_tab_new in
  gput (pset_ls (pset_fs s (f :: fss)) (set_strs (p_ls s) (l_strs (p_ls s)) Util.kp_tab_new)).

(** ** The recursive descent

    Over the recursive functions [rec_binop] and [rec_chunk], and fuel [n] for
    the loops. *)

Section Descent.
Context (n : nat) (rec_binop : Z -> M (ExpDesc * option BinOpr)) (rec_chunk : M unit).

Definition expr : M ExpDesc := r <~ rec_binop 0 ;; gret (fst r).

Definition expr_str : M ExpDesc := s <~ lex_str ;; gret (eset_sval (expr_init VKSTR 0) s).

Definition checku8 (x : Z) : bool := x =? u8 x.

(** The indexed variable; [e] is a value already. *)
Definition expr_index (t e : ExpDesc) : M ExpDesc :=
  let t := eset_k t VINDEXED in
  let any := e <~ expr_toanyreg e ;; gret (eset_aux t (e_info e)) in
  if expr_isnumk e then
    let k := s32 (expr_numberV e) in
    if checku8 k && (expr_numberV e =? k) then gret (eset_aux t (BCMAX_C + 1 + k)) else any
  else if expr_isstrk e then
    idx <~ const_str e ;;
    if idx <=? BCMAX_C then gret (eset_aux t (u32 (Z.lnot idx))) else any
  else any.

Definition expr_field (v : ExpDesc) : M ExpDesc :=
  v <~ expr_toanyreg v ;;
  lex_skip ;;;
  key <~ expr_str ;;
  expr_index v key.

Definition expr_bracket : M ExpDesc :=
  lex_skip ;;;
  v <~ expr ;;
  v <~ expr_toval v ;;
  lex_check 93 ;;;
  gret v.

(** Written over the value [v]; booleans only have a tag. *)
Definition expr_kvalue (v : ktap_val) (e : ExpDesc) : ktap_val :=
  if ek (e_k e) <=? ek VKTRUE then setitype v (u32 (Z.lnot (ek (e_k e))))
  else if is_k e VKSTR then set_string (e_sval e)
  else e_nval e.

Definition FLS (x : Z) : Z := Z.log2 x.
Definition hsize2hbits (s : Z) : Z := if s =? 0 then 0 else if s =? 1 then 1 else 1 + FLS (s - 1).

(** *** Table constructors *)

(** The variables of [expr_table]: the expression, the index of the template
    table in the heap, and the counters and flags. *)
Record tabctor := mkctor {
  tc_e : ExpDesc; tc_t : option nat; tc_vcall : bool; tc_needarr : bool; tc_fixt : bool;
  tc_narr : Z; tc_nhash : Z
}.
Definition tc_set_e (c : tabctor) (e : ExpDesc) : tabctor :=
  mkctor e (tc_t c) (tc_vcall c) (tc_needarr c) (tc_fixt c) (tc_narr c) (tc_nhash c).
Definition tc_set_vcall (c : tabctor) (b : bool) : tabctor :=
  mkctor (tc_e c) (tc_t c) b (tc_needarr c) (tc_fixt c) (tc_narr c) (tc_nhash c).

(** The key of an entry. *)
Definition table_key (c : tabctor) : M (ExpDesc * tabctor) :=
  t <~ tok ;;
  if t =? 91 then
    key <~ expr_bracket ;;
    e <~ (if negb (expr_isk key) then expr_index (tc_e c) key else gret (tc_e c)) ;;
    let zero := expr_isnumk key && expr_numiszero key in
    lex_check 61 ;;;
    gret (key, mkctor e (tc_t c) false (tc_needarr c || zero) (tc_fixt c) (tc_narr c)
                 (if zero then tc_nhash c else u32 (tc_nhash c + 1)))
  else
    named <~ (if t =? TK_name then la <~ lex kp_lex_lookahead ;; gret (la =? 61) else gret false) ;;
    if named : bool then
      key <~ expr_str ;;
      lex_check 61 ;;;
      gret (key, mkctor (tc_e c) (tc_t c) false (tc_needarr c) (tc_fixt c) (tc_narr c) (u32 (tc_nhash c + 1)))
    else
      gret (eset_nval (expr_init VKNUM 0) (set_number (s32 (tc_narr c))),
            mkctor (tc_e c) (tc_t c) true true (tc_fixt c) (u32 (tc_narr c + 1)) (tc_nhash c)).

(** An entry that is stored by an instruction. *)
Definition table_nonconst (c : tabctor) (key v : ExpDesc) : M tabctor :=
  v' <~ (if is_k v VCALL then gret v else expr_toanyreg v) ;;
  e <~ (if expr_isk key then expr_index (tc_e c) key else gret (tc_e c)) ;;
  bcemit_store e v' ;;;
  gret (tc_set_vcall (tc_set_e c e) (tc_vcall c && is_k v VCALL)).

(** The template table, made on demand in place of the instruction at [pc]. *)
Definition make_template (c : tabctor) (pc freg : Z) : M nat :=
  match tc_t c with
  | Some i => gret i
  | None =>
      s <~ gget ;;
      a <~ alloc (PTab Util.kp_tab_new) ;;
      kidx <~ const_gc a KTAP_TTAB ;;
      put_ins pc (BCINS_AD BC_TDUP (freg - 1) kidx) ;;;
      gret (length (p_heap s))
  end.

Definition get_tab (i : nat) : M uttab :=
  s <~ gget ;; match p_heap s !! i with Some (PTab t) => gret t | _ => gub end.

(** Key and value of an entry in the template table. *)
Definition template_set (i : nat) (key : ExpDesc) (v : ktap_val -> ktap_val) : M unit :=
  t <~ get_tab i ;;
  r <~ gopt (Util.kp_tab_set t (expr_kvalue kp_niltv key)) ;;
  t <~ gopt (put_node (snd r) (fst r) (λ nd, mkutnode (v (g_val nd)) (g_key nd))) ;;
  put_obj i (PTab t).

Definition table_entry (c : tabctor) (pc freg : Z) : M tabctor :=
  r <~ table_key c ;;
  let '(key, c) := r in
  v <~ expr ;;
  if expr_isk key && negb (is_k key VKNIL) && (is_k key VKSTR || expr_isk_nojump v) then
    i <~ make_template c pc freg ;;
    let c := mkctor (tc_e c) (Some i) false (tc_needarr c) (tc_fixt c) (tc_narr c) (tc_nhash c) in
    if expr_isk_nojump v then template_set i key (λ o, expr_kvalue o v) ;;; gret c
    else
      template_set i key (λ _, set_table (malloc i)) ;;;
      table_nonconst (mkctor (tc_e c) (tc_t c) (tc_vcall c) (tc_needarr c) true (tc_narr c) (tc_nhash c)) key v
  else table_nonconst c key v.

Fixpoint table_loop (fuel : nat) (c : tabctor) (pc freg : Z) : M tabctor :=
  match fuel with
  | O => gfuel
  | S fuel' =>
      t <~ tok ;;
      if t =? 125 then gret c
      else
        c <~ table_entry c pc freg ;;
        modfs (λ f, fset_freereg f freg) ;;;
        b <~ lex_opt 44 ;;
        b <~ (if b : bool then gret true else lex_opt 59) ;;
        if b : bool then table_loop fuel' c pc freg else gret c
  end.

(** The last entry was a call: all its results are stored. *)
Definition table_vcall (c : tabctor) (freg : Z) : M unit :=
  (if tc_narr c >? 256 then drop_ins else gret tt) ;;;
  f <~ getfs ;;
  let ilp := fs_pc f - 1 in
  k <~ const_num (eset_nval (expr_init VKNUM 0) (set_number (u32 (tc_narr c - 1)))) ;;
  put_ins ilp (BCINS_AD BC_TSETM freg k) ;;;
  i <~ ins_at (ilp - 1) ;;
  put_ins (ilp - 1) (setbc_b i 0).

(** Values of dummy keys become nil. *)
Definition fix_template (t : uttab) : uttab :=
  mkuttab ((λ nd, if is_table (g_val nd) then mkutnode (set_nil (g_val nd)) (g_key nd) else nd) <$> u_node t)
    (u_freetop t).

(** [RD] of a new table: five bits of hash size and eleven of array size. *)
Definition tnew_size (c : tabctor) : Z :=
  let narr := if negb (tc_needarr c) then 0 else if tc_narr c <? 3 then 3
              else if tc_narr c >? 0x7ff then 0x7ff else tc_narr c in
  narr .| (hsize2hbits (tc_nhash c) ≪ 11).

Definition expr_table : M ExpDesc :=
  line <~ linenumber ;;
  f <~ getfs ;;
  let freg := fs_freereg f in
  pc <~ bcemit_AD BC_TNEW freg 0 ;;
  bcreg_reserve 1 ;;;
  let freg' := u32 (freg + 1) in
  lex_check 123 ;;;
  c <~ table_loop n (mkctor (expr_init VNONRELOC freg) None false false false 1 0) pc freg' ;;
  lex_match 125 123 line ;;;
  (if tc_vcall c then table_vcall c freg' else gret tt) ;;;
  f <~ getfs ;;
  e <~ (if pc =? fs_pc f - 1 then pop_reg ;;; gret (eset (tc_e c) VRELOCABLE pc)
        else gret (eset_k (tc_e c) VNONRELOC)) ;;
  match tc_t c with
  | None => i <~ ins_at pc ;; put_ins pc (setbc_d i (tnew_size c)) ;;; gret e
  | Some i =>
      (if tc_fixt c then t <~ get_tab i ;; put_obj i (PTab (fix_template t)) else gret tt) ;;;
      gret e
  end.

(** *** Functions *)

(** The number of parameters read so far. *)
Fixpoint params_loop (fuel : nat) (nparams : Z) : M Z :=
  match fuel with
  | O => gfuel
  | S fuel' =>
      t <~ tok ;;
      if t =? TK_name then
        s <~ lex_str ;;
        var_new nparams (NStr s) ;;;
        b <~ lex_opt 44 ;;
        if b : bool then params_loop fuel' (nparams + 1) else gret (nparams + 1)
      else if t =? TK_dots then
        lex_skip ;;;
        modfs (λ f, fset_flags f (fs_flags f .| PROTO_VARARG)) ;;;
        gret nparams
      else err_syntax KP_ERR_XPARAM
  end.

(** No caller asks for the parameter [self]. *)
Definition parse_params : M Z :=
  lex_check 40 ;;;
  t <~ tok ;;
  nparams <~ (if negb (t =? 41) then params_loop n 0 else gret 0) ;;
  var_add nparams ;;;
  bcreg_reserve nparams ;;;
  lex_check 41 ;;;
  gret nparams.

(** [ls->lastline = ls->linenumber] *)
Definition last_line : M Z :=
  l <~ gls ;; lex (lput (set_lines l (l_linenumber l) (l_linenumber l))) ;;; gret (l_linenumber l).

(** The function behind its parameters, and its prototype in the constants of
    the function around it. *)
Definition body_rest : M ExpDesc :=
  bcemit_AD BC_FUNCF 0 0 ;;;
  lex_check 123 ;;;
  rec_chunk ;;;
  lex_check 125 ;;;
  line <~ last_line ;;
  pt <~ fs_finish line ;;
  k <~ const_gc pt KTAP_TPROTO ;;
  pc <~ bcemit_AD BC_FNEW 0 k ;;
  modfs (λ f,
    if fs_flags f .& PROTO_CHILD =? 0 then
      fset_flags f ((if negb (fs_flags f .& PROTO_HAS_RETURN =? 0) then fs_flags f .| PROTO_FIXUP_RETURN
                     else fs_flags f) .| PROTO_CHILD)
    else f) ;;;
  gret (expr_init VRELOCABLE pc).

(** The new function starts where the instructions of [f] end. *)
Definition begin_body (line : Z) : M unit :=
  f <~ getfs ;;
  fs_init line (fs_base f + fs_pc f) 0 ;;;
  fscope_begin 0.

Definition parse_body (line : Z) : M ExpDesc :=
  begin_body line ;;;
  nparams <~ parse_params ;;
  modfs (λ f, fset_numparams f (u8 nparams)) ;;;
  body_rest.

Definition parse_body_no_args (line : Z) : M ExpDesc :=
  begin_body line ;;;
  body_rest.

(** *** Calls *)

(** The last expression is left open. *)
Fixpoint list_loop (fuel : nat) (v : ExpDesc) (k : Z) : M (Z * ExpDesc) :=
  match fuel with
  | O => gfuel
  | S fuel' =>
      b <~ lex_opt 44 ;;
      if b : bool then expr_tonextreg v ;;; v <~ expr ;; list_loop fuel' v (k + 1) else gret (k, v)
  end.
Definition expr_list : M (Z * ExpDesc) := v <~ expr ;; list_loop n v 1.

(** [bcptr(fs, e)] *)
Definition call_ins (e : ExpDesc) : M Z := ins_at (e_info e).
Definition setbc_b_at (e : ExpDesc) (b : Z) : M unit := i <~ call_ins e ;; put_ins (e_info e) (setbc_b i b).

(** The arguments in their registers but for the last one. *)
Definition parse_arglist (line : Z) : M ExpDesc :=
  t <~ tok ;;
  if t =? 40 then
    l <~ gls ;;
    (if negb (line =? l_lastline l) then err_syntax KP_ERR_XAMBIG else gret tt) ;;;
    lex_skip ;;;
    t <~ tok ;;
    args <~ (if t =? 41 then gret (expr_init VVOID 0)
             else
               r <~ expr_list ;;
               (if is_k (snd r) VCALL then setbc_b_at (snd r) 0 else gret tt) ;;;
               gret (snd r)) ;;
    lex_match 41 40 line ;;;
    gret args
  else if t =? 123 then expr_table
  else if t =? TK_string then
    l <~ gls ;;
    lex_skip ;;;
    gret (eset_sval (expr_init VKSTR 0) (val (l_tokval l)))
  else err_syntax KP_ERR_XFUNARG.

(** Emit a call whose result is left in its base register. *)
Definition emit_call (base ins line : Z) : M ExpDesc :=
  pc <~ bcemit_INS ins ;;
  f <~ getfs ;;
  put_line (fs_pc f - 1) line ;;;
  modfs (λ f, fset_freereg f (u32 (base + 1))) ;;;
  gret (eset_aux (expr_init VCALL pc) base).

Definition parse_args (e : ExpDesc) : M ExpDesc :=
  line <~ linenumber ;;
  args <~ parse_arglist line ;;
  let base := e_info e in
  ins <~ (if is_k args VCALL then gret (BCINS_ABC BC_CALLM base 2 (e_aux args - base - 1))
          else
            (if is_k args VVOID then gret tt else expr_tonextreg args ;;; gret tt) ;;;
            f <~ getfs ;;
            gret (BCINS_ABC BC_CALL base 2 (fs_freereg f - base))) ;;
  emit_call base ins line.

Fixpoint suffix_loop (fuel : nat) (v : ExpDesc) : M ExpDesc :=
  match fuel with
  | O => gfuel
  | S fuel' =>
      t <~ tok ;;
      if t =? 46 then v <~ expr_field v ;; suffix_loop fuel' v
      else if t =? 91 then
        v <~ expr_toanyreg v ;;
        key <~ expr_bracket ;;
        v <~ expr_index v key ;;
        suffix_loop fuel' v
      else if t =? 58 then
        lex_skip ;;;
        key <~ expr_str ;;
        v <~ bcemit_method v key ;;
        v <~ parse_args v ;;
        suffix_loop fuel' v
      else if (t =? 40) || (t =? TK_string) || (t =? 123) then
        v <~ expr_tonextreg v ;;
        v <~ parse_args v ;;
        suffix_loop fuel' v
      else gret v
  end.

Definition expr_primary : M ExpDesc :=
  t <~ tok ;;
  v <~ (if t =? 40 then
          line <~ linenumber ;;
          lex_skip ;;;
          v <~ expr ;;
          lex_match 41 40 line ;;;
          expr_discharge v
        else if t =? TK_name then var_lookup
        else err_syntax KP_ERR_XSYMBOL) ;;
  suffix_loop n v.

(** *** Expressions *)

(** The expressions that are one token. *)
Definition simple_token (t : Z) (tv : ktap_val) : option ExpDesc :=
  if t =? TK_number then Some (eset_nval (expr_init VKNUM 0) tv)
  else if t =? TK_string then Some (eset_sval (expr_init VKSTR 0) (val tv))
  else if t =? TK_nil then Some (expr_init VKNIL 0)
  else if t =? TK_true then Some (expr_init VKTRUE 0)
  else if t =? TK_false then Some (expr_init VKFALSE 0)
  else if t =? TK_argstr then Some (expr_init VARGSTR 0)
  else if t =? TK_probename then Some (expr_init VARGNAME 0)
  else if (TK_arg0 <=? t) && (t <=? TK_arg9) then Some (expr_init VARGN (t - TK_arg0))
  else if t =? TK_pid then Some (expr_init VPID 0)
  else if t =? TK_tid then Some (expr_init VTID 0)
  else if t =? TK_uid then Some (expr_init VUID 0)
  else if t =? TK_cpu then Some (expr_init VCPU 0)
  else if t =? TK_execname then Some (expr_init VEXECNAME 0)
  else None.

Definition expr_simple : M ExpDesc :=
  l <~ gls ;;
  let t := l_tok l in
  match simple_token t (l_tokval l) with
  | Some v => lex_skip ;;; gret v
  | None =>
      if t =? TK_dots then
        f <~ getfs ;;
        checkcond (negb (fs_flags f .& PROTO_VARARG =? 0)) KP_ERR_XDOTS ;;;
        bcreg_reserve 1 ;;;
        f <~ getfs ;;
        let base := u32 (fs_freereg f - 1) in
        pc <~ bcemit_ABC BC_VARG base 2 (fs_numparams f) ;;
        lex_skip ;;;
        gret (eset_aux (expr_init VCALL pc) base)
      else if t =? 123 then expr_table
      else if t =? TK_function then
        lex_skip ;;;
        line <~ linenumber ;;
        parse_body line
      else expr_primary
  end.

Definition synlevel_begin : M unit :=
  s <~ gget ;;
  gput (pset_level s (p_level s + 1)) ;;;
  if p_level s + 1 >=? KP_MAX_XLEVEL then lex (kp_lex_error 0 KP_ERR_XLEVELS) else gret tt.
Definition synlevel_end : M unit := s <~ gget ;; gput (pset_level s (p_level s - 1)).

Definition token2binop (t : Z) : option BinOpr :=
  if t =? 43 then Some OPR_ADD
  else if t =? 45 then Some OPR_SUB
  else if t =? 42 then Some OPR_MUL
  else if t =? 47 then Some OPR_DIV
  else if t =? 37 then Some OPR_MOD
  else if t =? 94 then Some OPR_POW
  else if t =? TK_concat then Some OPR_CONCAT
  else if t =? TK_ne then Some OPR_NE
  else if t =? TK_eq then Some OPR_EQ
  else if t =? 60 then Some OPR_LT
  else if t =? TK_le then Some OPR_LE
  else if t =? 62 then Some OPR_GT
  else if t =? TK_ge then Some OPR_GE
  else if t =? TK_and then Some OPR_AND
  else if t =? TK_or then Some OPR_OR
  else None.

(** Left and right priorities, ORDER OPR. *)
Definition priority_table : list (Z * Z) :=
  [(6, 6); (6, 6); (7, 7); (7, 7); (7, 7); (10, 9); (5, 4); (3, 3); (3, 3);
   (3, 3); (3, 3); (3, 3); (3, 3); (2, 2); (1, 1)].
Definition priority (o : BinOpr) : Z * Z := nth (Z.to_nat (opr o)) priority_table (0, 0).
Definition UNARY_PRIORITY : Z := 8.

Definition expr_unop : M ExpDesc :=
  t <~ tok ;;
  let unop op := lex_skip ;;; r <~ rec_binop UNARY_PRIORITY ;; bcemit_unop op (fst r) in
  if t =? TK_not then unop BC_NOT
  else if t =? 45 then unop BC_UNM
  else expr_simple.

Fixpoint binop_loop (fuel : nat) (v : ExpDesc) (op : option BinOpr) (limit : Z) : M (ExpDesc * option BinOpr) :=
  match fuel with
  | O => gfuel
  | S fuel' =>
      match op with
      | Some o =>
          if fst (priority o) >? limit then
            lex_skip ;;;
            v <~ bcemit_binop_left o v ;;
            r <~ rec_binop (snd (priority o)) ;;
            v <~ bcemit_binop o v (fst r) ;;
            binop_loop fuel' v (snd r) limit
          else gret (v, op)
      | None => gret (v, op)
      end
  end.

(** The expression and the operator behind it. *)
Definition binop_body (limit : Z) : M (ExpDesc * option BinOpr) :=
  synlevel_begin ;;;
  v <~ expr_unop ;;
  t <~ tok ;;
  r <~ binop_loop n v (token2binop t) limit ;;
  synlevel_end ;;;
  gret r.

Definition expr_next : M unit := e <~ expr ;; expr_tonextreg e ;;; gret tt.

(** The list of jumps taken when the condition is false. *)
Definition expr_cond : M Z :=
  lex_check 40 ;;;
  v <~ expr ;;
  let v := if is_k v VKNIL then eset_k v VKFALSE else v in
  v <~ bcemit_branch_t v ;;
  lex_check 41 ;;;
  gret (e_f v).

(** *** Assignments *)

(** Variables on the left, the last one first. *)
Definition hazard (reg : Z) (v : ExpDesc) : bool :=
  is_k v VINDEXED && ((e_info v =? reg) || (e_aux v =? reg)).
Definition rename_reg (reg tmp : Z) (v : ExpDesc) : ExpDesc :=
  if is_k v VINDEXED then
    let v := if e_info v =? reg then eset v VINDEXED tmp else v in
    if e_aux v =? reg then eset_aux v tmp else v
  else v.

Definition assign_hazard (lh : list ExpDesc) (v : ExpDesc) : M (list ExpDesc) :=
  f <~ getfs ;;
  let reg := e_info v in
  let tmp := fs_freereg f in
  (if existsb (hazard reg) lh then bcemit_AD BC_MOV tmp reg ;;; bcreg_reserve 1 else gret tt) ;;;
  gret (rename_reg reg tmp <$> lh).

Definition assign_adjust (nvars nexps : Z) (e : ExpDesc) : M unit :=
  let extra := nvars - nexps in
  if is_k e VCALL then
    let extra := Z.max 0 (extra + 1) in
    setbc_b_at e (extra + 1) ;;;
    if extra >? 1 then bcreg_reserve (extra - 1) else gret tt
  else
    (if is_k e VVOID then gret tt else expr_tonextreg e ;;; gret tt) ;;;
    if extra >? 0 then
      f <~ getfs ;;
      let reg := fs_freereg f in
      bcreg_reserve extra ;;;
      bcemit_nil reg extra
    else gret tt.

(** A call on the right of as many variables as there are expressions. *)
Definition close_call (e : ExpDesc) : M ExpDesc :=
  if is_k e VCALL then
    i <~ call_ins e ;;
    if bc_op i =? BC_VARG then pop_reg ;;; gret (eset_k e VRELOCABLE)
    else gret (eset e VNONRELOC (e_aux e))
  else gret e.

(** Assign the last register to the variable. *)
Definition store_last (v : ExpDesc) : M unit :=
  f <~ getfs ;; bcemit_store v (expr_init VNONRELOC (u32 (fs_freereg f - 1))).

(** The right hand side, for [v] the last of [nvars] variables. *)
Definition parse_rhs (v : ExpDesc) (nvars : Z) : M unit :=
  b <~ lex_opt 61 ;;
  incr <~ (if b : bool then gret false
           else b <~ lex_opt TK_incr ;; if b : bool then gret true else err_syntax KP_ERR_XSYMBOL) ;;
  r <~ expr_list ;;
  let '(nexps, e) := r in
  if nexps =? nvars then
    e <~ close_call e ;;
    if incr : bool then bcemit_store_incr v e else bcemit_store v e
  else
    assign_adjust nvars nexps e ;;;
    (if nexps >? nvars then modfs (λ f, fset_freereg f (u32 (fs_freereg f - (nexps - nvars)))) else gret tt) ;;;
    store_last v.

(** [v] and the variables before it, which the recursion may rename. *)
Fixpoint parse_assignment (fuel : nat) (v : ExpDesc) (prev : list ExpDesc) (nvars : Z) : M (list ExpDesc) :=
  match fuel with
  | O => gfuel
  | S fuel' =>
      checkcond ((ek VLOCAL <=? ek (e_k v)) && (ek (e_k v) <=? ek VINDEXED)) KP_ERR_XSYNTAX ;;;
      b <~ lex_opt 44 ;;
      if b : bool then
        w <~ expr_primary ;;
        lh <~ (if is_k w VLOCAL then assign_hazard (v :: prev) w else gret (v :: prev)) ;;
        s <~ gget ;;
        checklimit (p_level s + nvars) KP_MAX_XLEVEL "variable names" ;;;
        lh <~ parse_assignment fuel' w lh (nvars + 1) ;;
        match lh with
        | v :: prev => store_last v ;;; gret prev
        | [] => gub
        end
      else parse_rhs v nvars ;;; gret prev
  end.

Definition parse_call_assign : M unit :=
  v <~ expr_primary ;;
  if is_k v VCALL then setbc_b_at v 1 else parse_assignment n v [] 1 ;;; gret tt.

(** A function as a local variable. *)
Definition local_function : M unit :=
  s <~ lex_str ;;
  var_new 0 (NStr s) ;;;
  f <~ getfs ;;
  let reg := fs_freereg f in
  bcreg_reserve 1 ;;;
  var_add 1 ;;;
  line <~ linenumber ;;
  b <~ parse_body line ;;
  expr_free b ;;;
  expr_toreg b reg ;;;
  f <~ getfs ;;
  r <~ var_get (fs_nactvar f - 1) ;;
  put_var (fst r) (set_startpc (snd r) (fs_pc f)).

Fixpoint locals_loop (fuel : nat) (nvars : Z) : M Z :=
  match fuel with
  | O => gfuel
  | S fuel' =>
      s <~ lex_str ;;
      var_new nvars (NStr s) ;;;
      b <~ lex_opt 44 ;;
      if b : bool then locals_loop fuel' (nvars + 1) else gret (nvars + 1)
  end.

Definition parse_local : M unit :=
  b <~ lex_opt TK_function ;;
  if b : bool then local_function
  else
    nvars <~ locals_loop n 0 ;;
    b <~ lex_opt 61 ;;
    r <~ (if b : bool then expr_list else gret (0, expr_init VVOID 0)) ;;
    assign_adjust nvars (fst r) (snd r) ;;;
    var_add nvars.

Definition parse_func : M unit := lex_skip ;;; local_function.

(** *** Control transfer *)

Definition parse_isend (t : Z) : bool :=
  (t =? TK_else) || (t =? TK_elseif) || (t =? TK_end) || (t =? TK_until) || (t =? TK_eof) || (t =? 125).

(** All results of the open call [e] are returned. *)
Definition return_open (e : ExpDesc) : M Z :=
  setbc_b_at e 0 ;;;
  f <~ getfs ;;
  gret (BCINS_AD BC_RETM (fs_nactvar f) (u32 (e_aux e - fs_nactvar f))).

Definition return_ins (nret : Z) (e : ExpDesc) : M Z :=
  if nret =? 1 then
    if is_k e VCALL then
      ip <~ call_ins e ;;
      if bc_op ip =? BC_VARG then return_open e
      else
        drop_ins ;;;
        gret (BCINS_AD (bc_op ip - BC_CALL + BC_CALLT) (bc_a ip) (bc_c ip))
    else e <~ expr_toanyreg e ;; gret (BCINS_AD BC_RET1 (e_info e) 2)
  else if is_k e VCALL then return_open e
  else expr_tonextreg e ;;; f <~ getfs ;; gret (BCINS_AD BC_RET (fs_nactvar f) (nret + 1)).

Definition parse_return : M unit :=
  lex_skip ;;;
  modfs (λ f, fset_flags f (fs_flags f .| PROTO_HAS_RETURN)) ;;;
  t <~ tok ;;
  ins <~ (if parse_isend t || (t =? 59) then gret (BCINS_AD BC_RET0 0 1)
          else r <~ expr_list ;; return_ins (fst r) (snd r)) ;;
  f <~ getfs ;;
  (if negb (fs_flags f .& PROTO_CHILD =? 0) then bcemit_AJ BC_UCLO 0 0 ;;; gret tt else gret tt) ;;;
  bcemit_INS ins ;;; gret tt.

Definition parse_break : M unit :=
  or_flags FSCOPE_BREAK ;;;
  j <~ bcemit_jmp ;;
  gola_new NAME_BREAK VSTACK_GOTO j ;;; gret tt.

(** The labels and semicolons behind a label. *)
Fixpoint trailing_loop (label : M unit) (fuel : nat) : M unit :=
  match fuel with
  | O => gfuel
  | S fuel' =>
      t <~ tok ;;
      if t =? TK_label then synlevel_begin ;;; label ;;; synlevel_end ;;; trailing_loop label fuel'
      else if t =? 59 then lex_skip ;;; trailing_loop label fuel'
      else gret tt
  end.

Fixpoint parse_label (fuel : nat) : M unit :=
  match fuel with
  | O => gfuel
  | S fuel' =>
      modfs (λ f, fset_lasttarget f (fs_pc f)) ;;;
      or_flags FSCOPE_GOLA ;;;
      lex_skip ;;;
      name <~ lex_str ;;
      dup <~ gola_findlabel (NStr name) ;;
      (if dup : bool then s <~ str_bytes name ;; lex (kp_lex_error 0 (KP_ERR_XLDUP s)) else gret tt) ;;;
      f <~ getfs ;;
      idx <~ gola_new (NStr name) VSTACK_LABEL (fs_pc f) ;;
      lex_check TK_label ;;;
      trailing_loop (parse_label fuel') n ;;;
      t <~ tok ;;
      f <~ getfs ;;
      bl <~ gopt (head (fs_bl f)) ;;
      (if parse_isend t && negb (t =? TK_until) then
         v <~ get_var idx ;; put_var idx (set_slot v (bl_nactvar bl))
       else gret tt) ;;;
      gola_resolve bl idx
  end.

(** *** Blocks, loops and conditions *)

Definition parse_block : M unit := fscope_begin 0 ;;; rec_chunk ;;; fscope_end.

(** [fs->lasttarget = fs->pc] *)
Definition mark_target : M Z :=
  modfs (λ f, fset_lasttarget f (fs_pc f)) ;;; f <~ getfs ;; gret (fs_pc f).

Definition here : M Z := f <~ getfs ;; gret (fs_pc f).

Definition emit_loop : M Z := f <~ getfs ;; bcemit_AD BC_LOOP (fs_nactvar f) 0.

Definition parse_while : M unit :=
  lex_skip ;;;
  start <~ mark_target ;;
  condexit <~ expr_cond ;;
  fscope_begin FSCOPE_LOOP ;;;
  lex_check 123 ;;;
  loop <~ emit_loop ;;
  parse_block ;;;
  j <~ bcemit_jmp ;;
  jmp_patch j start ;;;
  lex_check 125 ;;;
  fscope_end ;;;
  jmp_tohere condexit ;;;
  pc <~ here ;;
  jmp_patchins loop pc.

Definition parse_repeat (line : Z) : M unit :=
  loop <~ mark_target ;;
  fscope_begin FSCOPE_LOOP ;;;
  fscope_begin 0 ;;;
  lex_skip ;;;
  emit_loop ;;;
  rec_chunk ;;;
  lex_match TK_until TK_repeat line ;;;
  condexit <~ expr_cond ;;
  f <~ getfs ;;
  bl2 <~ gopt (head (fs_bl f)) ;;
  condexit <~ (if bl_flags bl2 .& FSCOPE_UPVAL =? 0 then fscope_end ;;; gret condexit
               else parse_break ;;; jmp_tohere condexit ;;; fscope_end ;;; bcemit_jmp) ;;
  jmp_patch condexit loop ;;;
  pc <~ here ;;
  jmp_patchins loop pc ;;;
  fscope_end.

Definition FORL_IDX : Z := 0.
Definition FORL_STOP : Z := 1.
Definition FORL_STEP : Z := 2.
Definition FORL_EXT : Z := 3.

Definition parse_for_num (varname line : Z) : M unit :=
  f <~ getfs ;;
  let base := fs_freereg f in
  var_new FORL_IDX VARNAME_FOR_IDX ;;;
  var_new FORL_STOP VARNAME_FOR_STOP ;;;
  var_new FORL_STEP VARNAME_FOR_STEP ;;;
  var_new FORL_EXT (NStr varname) ;;;
  lex_check 61 ;;;
  expr_next ;;;
  lex_check 44 ;;;
  expr_next ;;;
  b <~ lex_opt 44 ;;
  (if b : bool then expr_next
   else f <~ getfs ;; bcemit_AD BC_KSHORT (fs_freereg f) 1 ;;; bcreg_reserve 1) ;;;
  var_add 3 ;;;
  lex_check 41 ;;;
  lex_check 123 ;;;
  loop <~ bcemit_AJ BC_FORI base NO_JMP ;;
  fscope_begin 0 ;;;
  var_add 1 ;;;
  bcreg_reserve 1 ;;;
  parse_block ;;;
  fscope_end ;;;
  loopend <~ bcemit_AJ BC_FORL base NO_JMP ;;
  put_line loopend line ;;;
  jmp_patchins loopend (loop + 1) ;;;
  pc <~ here ;;
  jmp_patchins loop pc.

(** A global loaded from the slot of the constant [w]. *)
Definition global_slot (w : string) (d : Z) : M bool :=
  a <~ str_lit w ;;
  l <~ gls ;;
  o <~ gopt (Util.kp_tab_getstr (l_kt l) a) ;;
  gret (is_number o && (nvalue o =? d)).

Definition is_next_name (name : vname) : M bool :=
  s <~ name_bytes name ;;
  gret (bool_decide (s = byte_string "pairs") || bool_decide (s = byte_string "next")).

Definition predict_next (pc : Z) : M bool :=
  ins <~ ins_at pc ;;
  if bc_op ins =? BC_MOV then r <~ var_get (bc_d ins) ;; is_next_name (v_name (snd r))
  else if bc_op ins =? BC_UGET then
    f <~ getfs ;;
    i <~ gopt (fs_uvmap f !! Z.to_nat (bc_d ins)) ;;
    v <~ get_var i ;;
    is_next_name (v_name v)
  else if bc_op ins =? BC_GGET then
    b <~ global_slot "pairs" (bc_d ins) ;;
    if b : bool then gret true else global_slot "next" (bc_d ins)
  else gret false.

Fixpoint iter_vars (fuel : nat) (nvars : Z) : M Z :=
  match fuel with
  | O => gfuel
  | S fuel' =>
      b <~ lex_opt 44 ;;
      if b : bool then s <~ lex_str ;; var_new nvars (NStr s) ;;; iter_vars fuel' (nvars + 1) else gret nvars
  end.

Definition parse_for_iter (indexname : Z) : M unit :=
  f <~ getfs ;;
  let base := u32 (fs_freereg f + 3) in
  let exprpc := fs_pc f in
  var_new 0 VARNAME_FOR_GEN ;;;
  var_new 1 VARNAME_FOR_STATE ;;;
  var_new 2 VARNAME_FOR_CTL ;;;
  var_new 3 (NStr indexname) ;;;
  nvars <~ iter_vars n 4 ;;
  lex_check TK_in ;;;
  line <~ linenumber ;;
  r <~ expr_list ;;
  assign_adjust 3 (fst r) (snd r) ;;;
  bcreg_bump 3 ;;;
  isnext <~ (if nvars <=? 5 then predict_next exprpc else gret false) ;;
  var_add 3 ;;;
  lex_check 41 ;;;
  lex_check 123 ;;;
  loop <~ bcemit_AJ (if isnext : bool then BC_ISNEXT else BC_JMP) base NO_JMP ;;
  fscope_begin 0 ;;;
  var_add (nvars - 3) ;;;
  bcreg_reserve (nvars - 3) ;;;
  parse_block ;;;
  fscope_end ;;;
  pc <~ here ;;
  jmp_patchins loop pc ;;;
  bcemit_ABC (if isnext : bool then BC_ITERN else BC_ITERC) base (nvars - 3 + 1) (2 + 1) ;;;
  loopend <~ bcemit_AJ BC_ITERL base NO_JMP ;;
  put_line (loopend - 1) line ;;;
  put_line loopend line ;;;
  jmp_patchins loopend (loop + 1).

Definition parse_for (line : Z) : M unit :=
  fscope_begin FSCOPE_LOOP ;;;
  lex_skip ;;;
  lex_check 40 ;;;
  varname <~ lex_str ;;
  t <~ tok ;;
  (if t =? 61 then parse_for_num varname line
   else if (t =? 44) || (t =? TK_in) then parse_for_iter varname
   else err_syntax KP_ERR_XFOR) ;;;
  lex_match 125 TK_for line ;;;
  fscope_end.

Definition parse_then : M Z :=
  lex_skip ;;;
  condexit <~ expr_cond ;;
  lex_check 123 ;;;
  parse_block ;;;
  lex_check 125 ;;;
  gret condexit.

(** Leave the branch just parsed and start the next one. *)
Definition escape_branch (escapelist flist : Z) : M Z :=
  j <~ bcemit_jmp ;;
  l <~ jmp_append escapelist j ;;
  jmp_tohere flist ;;;
  gret l.

Fixpoint elseif_loop (fuel : nat) (escapelist flist : Z) : M (Z * Z) :=
  match fuel with
  | O => gfuel
  | S fuel' =>
      t <~ tok ;;
      if t =? TK_elseif then
        l <~ escape_branch escapelist flist ;;
        flist <~ parse_then ;;
        elseif_loop fuel' l flist
      else gret (escapelist, flist)
  end.

Definition parse_if : M unit :=
  flist <~ parse_then ;;
  r <~ elseif_loop n NO_JMP flist ;;
  let '(escapelist, flist) := r in
  t <~ tok ;;
  l <~ (if t =? TK_else then
          l <~ escape_branch escapelist flist ;;
          lex_skip ;;;
          lex_check 123 ;;;
          parse_block ;;;
          lex_check 125 ;;;
          gret l
        else jmp_append escapelist flist) ;;
  jmp_tohere l.

(** *** Tracing *)

(** The field of a global table in the next register, to be called. *)
Definition library_function (lib field : Z) : M ExpDesc :=
  v <~ expr_toanyreg (eset_sval (expr_init VGLOBAL 0) lib) ;;
  v <~ expr_index v (eset_sval (expr_init VKSTR 0) field) ;;
  expr_tonextreg v.

(** Call it with the arguments so far and the function that follows; no result
    is used. *)
Definition call_with_body (v : ExpDesc) (line : Z) : M unit :=
  l <~ linenumber ;;
  args <~ parse_body_no_args l ;;
  expr_tonextreg args ;;;
  let base := e_info v in
  f <~ getfs ;;
  v <~ emit_call base (BCINS_ABC BC_CALL base 2 (u32 (fs_freereg f - base))) line ;;
  setbc_b_at v 1.

(** The C string in the value of the token. *)
Definition token_cstr : M bytes :=
  l <~ gls ;;
  s <~ str_bytes (val (l_tokval l)) ;;
  gopt (cstr (s ++ [0])).

Definition parse_trace : M unit :=
  kdebug_str <~ str_lit "kdebug" ;;
  probe_str <~ str_lit "trace_by_id" ;;
  probe_end_str <~ str_lit "trace_end" ;;
  token <~ tok ;;
  line <~ linenumber ;;
  (if token =? TK_trace then lex (kp_lex_read_string_until 123) else lex_skip) ;;;
  v <~ library_function kdebug_str (if token =? TK_trace then probe_str else probe_end_str) ;;
  (if token =? TK_trace then
     lex_check TK_string ;;;
     str <~ token_cstr ;;
     match parse_events str with
     | None => lex (kp_lex_error 0 (KP_ERR_XEVENTDEF str))
     | Some info => expr_tonextreg (eset_nval (expr_init VKNUM 0) (set_number info)) ;;; gret tt
     end
   else gret tt) ;;;
  call_with_body v line.

Definition parse_timer : M unit :=
  l <~ gls ;;
  let token_str := val (l_tokval l) in
  let line := l_linenumber l in
  lex_skip ;;;
  lex (kp_lex_read_string_until 123) ;;;
  l <~ gls ;;
  let interval_str := val (l_tokval l) in
  lex_check TK_string ;;;
  timer_str <~ str_lit "timer" ;;
  v <~ library_function timer_str token_str ;;
  expr_tonextreg (eset_sval (expr_init VKSTR 0) interval_str) ;;;
  call_with_body v line.

(** *** Statements *)

(** Whether it must be the last statement of its chunk. *)
Definition parse_stmt : M bool :=
  line <~ linenumber ;;
  t <~ tok ;;
  if t =? TK_return then parse_return ;;; gret true
  else
    (if t =? TK_if then parse_if
     else if t =? TK_while then parse_while
     else if t =? TK_do then lex_skip ;;; parse_block ;;; lex_match TK_end TK_do line
     else if t =? TK_for then parse_for line
     else if t =? TK_repeat then parse_repeat line
     else if t =? TK_function then parse_func
     else if t =? TK_local then lex_skip ;;; parse_local
     else if t =? TK_break then lex_skip ;;; parse_break
     else if t =? 59 then lex_skip
     else if t =? TK_label then parse_label n
     else if (t =? TK_trace) || (t =? TK_trace_end) then parse_trace
     else if (t =? TK_profile) || (t =? TK_tick) then parse_timer
     else parse_call_assign) ;;;
    gret false.

Fixpoint stmt_loop (fuel : nat) : M unit :=
  match fuel with
  | O => gfuel
  | S fuel' =>
      t <~ tok ;;
      if parse_isend t then gret tt
      else
        islast <~ parse_stmt ;;
        lex_opt 59 ;;;
        modfs (λ f, fset_freereg f (fs_nactvar f)) ;;;
        if islast : bool then gret tt else stmt_loop fuel'
  end.

Definition chunk_body : M unit := synlevel_begin ;;; stmt_loop n ;;; synlevel_end.

End Descent.

(** Binary expressions with priority higher than the limit, and chunks. *)
Fixpoint expr_binop (fuel : nat) (limit : Z) : M (ExpDesc * option BinOpr) :=
  match fuel with
  | O => gfuel
  | S n => binop_body fuel (expr_binop n) (parse_chunk n) limit
  end
with parse_chunk (fuel : nat) : M unit :=
  match fuel with
  | O => gfuel
  | S n => chunk_body fuel (expr_binop n) (parse_chunk n)
  end.

(** The address of the prototype of the main function; [name] is the name of the
    source file. *)
Definition kp_parse (fuel : nat) (name : bytes) : M Z :=
  chunkname <~ (λ s, '(a, t) ← Util.kp_str_new (l_strs (p_ls s)) name;
                     Some (inr (a, pset_ls s (set_strs (p_ls s) t (l_kt (p_ls s)))))) ;;
  s <~ gget ;;
  gput (pset_level (pset_chunkname s chunkname) 0) ;;;
  fs_init 0 0 PROTO_VARARG ;;;
  fscope_begin 0 ;;;
  bcemit_AD BC_FUNCV 0 0 ;;;
  lex_skip ;;;
  parse_chunk fuel ;;;
  t <~ tok ;;
  (if negb (t =? TK_eof) then err_token TK_eof else gret tt) ;;;
  line <~ linenumber ;;
  fs_finish line.

End Parse.
