(* ===== verification/Compile.v ===== *)
(** * Compile: from a source text to a bytecode dump ([userspace/kp_main.c])

    [compile] composes the lexer's set-up, the parser and the bytecode writer the
    way the compiler does for a source in memory. *)

From S2P Require Import Prelude Types Bytecode BcWrite Util Lex Gen Parse.
#[local] Open Scope word_scope.
#[local] Open Scope gen_scope.

Section Compile.
Context (malloc : nat -> Z) (parse_events : bytes -> option Z).

(** [LexState ls] in [parse]: [tok0] is what the field held before. *)
Definition ls_on_stack (tok0 : Z) (t : strtab) : lexstate :=
  mklex [] 0 tok0 TK_eof kp_niltv kp_niltv kp_buf_init 0 0 t Util.kp_tab_new.

(** Fuel for the descent: every level consumes a character. *)
Definition parse_fuel (src : bytes) : nat := (length src + 3)%nat.

(** The rest of [ls] after set-up. *)
Definition parser_start (l : lexstate) : pstate := mkp l [] 0 0 0 0 [] [] 0.

(** The prototype and the interned strings. *)
Definition parse (tok0 : Z) (t : strtab) (chunkname src : bytes) : option (perr + (uproto * pstate)) :=
  t ← kp_lex_init t;
  r ← kp_lex_setup src (ls_on_stack tok0 t);
  match r with
  | inl _ => ub   (* ls.chunkname is not set yet *)
  | inr (_, l) =>
      r ← kp_parse malloc parse_events (parse_fuel src) chunkname (parser_start l);
      match r with
      | inl e => Some (inl e)
      | inr (pt, s) =>
          i ← obj_index malloc s pt;
          match p_heap s !! i with
          | Some (PProto p) => Some (inr (p, s))
          | _ => ub
          end
      end
  end.

Definition string_at (s : pstate) (a : Z) : bytes := from_option us_bytes [] (str_obj (l_strs (p_ls s)) a).

(** The compiler ends with a message, does not end, or gives a dump. *)
Inductive compiled := Exit (text : bytes) | Hang | Dump (out : trunk).

(** The dump, in a trunk that starts with 1024 bytes. *)
Definition compile (tok0 : Z) (input src : bytes) : option compiled :=
  r ← parse tok0 Util.kp_str_resize input src;
  match r with
  | inl (PErr e) => text ← kp_err_lex input e; Some (Exit text)
  | inl _ => Some Hang
  | inr (pt, s) =>
      '(_, out) ← kp_bcwrite (string_at s) pt (string_at s (p_chunkname s)) (mktrunk [] 1024) false;
      Some (Dump out)
  end.

End Compile.
