(* ===== verification/GenCalm.v ===== *)
(** * GenCalm: what the code generator leaves alone

    Emitting code, allocating registers, keeping variables and completing
    functions never touch the input of the lexer, its current token or its
    look-ahead.  The parser's termination rests on it. *)

From S2P Require Import Prelude Types Bytecode BcWrite Util Lex Gen Parse.
#[local] Open Scope word_scope.
#[local] Open Scope gen_scope.

(** What the scanner works on. *)
Definition inp (s : pstate) : bytes * Z * Z * Z :=
  (l_p (p_ls s), l_c (p_ls s), l_tok (p_ls s), l_lookahead (p_ls s)).

(** Every result of [m] from [s] satisfies [Φ], and fuel does not run out. *)
Definition cwp {A} (m : M A) (s : pstate) (Φ : A -> pstate -> Prop) : Prop :=
  match m s with
  | Some (inr (x, s')) => Φ x s'
  | Some (inl PFuel) => False
  | _ => True
  end.

Definition calm {A} (m : M A) : Prop := forall s, cwp m s (λ _ s', inp s' = inp s).

Section Rules.
Context {A B : Type}.
Implicit Types (s : pstate).

Lemma cwp_bind (m : M A) (f : A -> M B) s Φ : cwp m s (λ x s', cwp (f x) s' Φ) -> cwp (gbind m f) s Φ.
Proof. unfold cwp, gbind. by destruct (m s) as [[[e| |]|[x s1]]|]. Qed.
Lemma cwp_ret (x : A) s (Φ : A -> pstate -> Prop) : Φ x s -> cwp (gret x) s Φ.
Proof. done. Qed.
Lemma cwp_loop s (Φ : A -> pstate -> Prop) : cwp gloop s Φ.
Proof. done. Qed.
Lemma cwp_ub s (Φ : A -> pstate -> Prop) : cwp gub s Φ.
Proof. done. Qed.
Lemma cwp_opt (o : option A) s (Φ : A -> pstate -> Prop) : (forall x, o = Some x -> Φ x s) -> cwp (gopt o) s Φ.
Proof. unfold cwp, gopt. destruct o; [|done]. intros H. by apply H. Qed.
Lemma cwp_mono (m : M A) s (Φ Ψ : A -> pstate -> Prop) :
  cwp m s Φ -> (forall x s', Φ x s' -> Ψ x s') -> cwp m s Ψ.
Proof. unfold cwp. destruct (m s) as [[[e| |]|[x s1]]|]; eauto. Qed.
Lemma cwp_calm (m : M A) s (Φ : A -> pstate -> Prop) :
  calm m -> (forall x s', inp s' = inp s -> Φ x s') -> cwp m s Φ.
Proof. intros H HΦ. eapply cwp_mono; [apply H|done]. Qed.
Lemma cwp_lex (m : lexm A) s (Φ : A -> pstate -> Prop) :
  (forall x l, m (p_ls s) = Some (inr (x, l)) -> Φ x (pset_ls s l)) -> cwp (lex m) s Φ.
Proof. unfold cwp, lex. intros H. destruct (m (p_ls s)) as [[e|[y l]]|]; [done| |done]. by apply H. Qed.
End Rules.

Lemma cwp_get s (Φ : pstate -> pstate -> Prop) : Φ s s -> cwp gget s Φ.
Proof. done. Qed.
Lemma cwp_put s1 s (Φ : unit -> pstate -> Prop) : Φ tt s1 -> cwp (gput s1) s Φ.
Proof. done. Qed.
Lemma cwp_gls s (Φ : lexstate -> pstate -> Prop) : Φ (p_ls s) s -> cwp gls s Φ.
Proof. done. Qed.
Lemma cwp_lput l s (Φ : unit -> pstate -> Prop) : Φ tt (pset_ls s l) -> cwp (lex (lput l)) s Φ.
Proof. intros H. apply cwp_lex. by intros x l' [= <- <-]. Qed.

Create HintDb calm discriminated.
#[export] Hint Constants Opaque : calm.

Ltac calm_chain :=
  repeat match goal with
  | H : inp ?a = _ |- inp ?a = _ => refine (eq_trans H _); clear H
  | |- inp (_ ?a _) = inp ?b => change (inp a = inp b)
  end; reflexivity.

Ltac calm_step :=
  lazymatch goal with
  | |- cwp (gbind _ _) _ _ => apply cwp_bind
  | |- cwp (gret _) _ _ => apply cwp_ret
  | |- cwp gget _ _ => apply cwp_get
  | |- cwp (gput _) _ _ => apply cwp_put
  | |- cwp gls _ _ => apply cwp_gls
  | |- cwp (lex (lput _)) _ _ => apply cwp_lput
  | |- cwp gub _ _ => apply cwp_ub
  | |- cwp gloop _ _ => apply cwp_loop
  | |- cwp (gopt _) _ _ => apply cwp_opt; intros ? ?
  | |- cwp (if ?b then _ else _) _ _ => destruct b
  | |- cwp (match ?x with _ => _ end) _ _ => destruct x
  | |- cwp (let x := _ in _) _ _ => cbv zeta
  | |- cwp _ _ _ => eapply cwp_calm; [solve [eauto with calm]|intros ? ? ?]
  | |- inp _ = inp _ => calm_chain
  end.
Ltac calm_tac := intros ?; repeat calm_step.
(** For the functions that only combine others. *)
Ltac solve_calm f := intros; unfold f; calm_tac.

(** ** The state *)

Lemma getfs_calm : calm getfs. Proof. solve_calm getfs. Qed.
Lemma putfs_calm f : calm (putfs f).
Proof. intros s. unfold cwp, putfs. by destruct (p_fs s). Qed.
#[export] Hint Resolve getfs_calm putfs_calm : calm.
Lemma modfs_calm g : calm (modfs g). Proof. solve_calm modfs. Qed.
Lemma ins_at_calm pc : calm (ins_at pc). Proof. solve_calm ins_at. Qed.
Lemma put_ins_calm pc i : calm (put_ins pc i). Proof. solve_calm put_ins. Qed.
Lemma put_line_calm pc i : calm (put_line pc i). Proof. solve_calm put_line. Qed.
#[export] Hint Resolve modfs_calm ins_at_calm put_ins_calm put_line_calm : calm.

(** ** Errors *)

Lemma kp_lex_error_calm {A} t em : calm (lex (@kp_lex_error A t em)).
Proof.
  intros s. apply cwp_lex. intros x l. unfold kp_lex_error, lbind, lopt, lget.
  by repeat (case_match; simplify_eq).
Qed.
Lemma lex_error_here_calm {A} em : calm (lex (@lex_error_here A em)).
Proof. intros s. apply (kp_lex_error_calm (l_tok (p_ls s)) em s). Qed.
#[export] Hint Resolve kp_lex_error_calm lex_error_here_calm : calm.
Lemma err_syntax_calm {A} em : calm (@err_syntax A em). Proof. solve_calm @err_syntax. Qed.
Lemma err_token_calm {A} t : calm (@err_token A t). Proof. solve_calm @err_token. Qed.
Lemma err_limit_calm {A} l w : calm (@err_limit A l w). Proof. solve_calm @err_limit. Qed.
#[export] Hint Resolve err_syntax_calm err_token_calm err_limit_calm : calm.
Lemma checklimit_calm v l m : calm (checklimit v l m). Proof. solve_calm checklimit. Qed.
Lemma checklimitgt_calm v l m : calm (checklimitgt v l m). Proof. solve_calm checklimitgt. Qed.
Lemma checkcond_calm c em : calm (checkcond c em). Proof. solve_calm checkcond. Qed.
#[export] Hint Resolve checklimit_calm checklimitgt_calm checkcond_calm : calm.

(** ** Constants *)

Lemma const_slot_calm k n : calm (const_slot k n).
Proof.
  intros s. unfold cwp, const_slot. destruct (Util.kp_tab_set _ _) as [[i kt]|]; [|done]. cbn.
  destruct (u_node kt !! i) as [nd|]; [|done]. cbn. destruct (is_number (g_val nd)); [done|].
  by destruct (put_node _ _ _).
Qed.
#[export] Hint Resolve const_slot_calm : calm.
Lemma const_num_calm e : calm (const_num e). Proof. solve_calm const_num. Qed.
Lemma const_gc_calm g t : calm (const_gc g t). Proof. solve_calm const_gc. Qed.
#[export] Hint Resolve const_num_calm const_gc_calm : calm.
Lemma const_str_calm e : calm (const_str e). Proof. solve_calm const_str. Qed.
#[export] Hint Resolve const_str_calm : calm.

(** ** Jump lists *)

Lemma jmp_next_calm pc : calm (jmp_next pc). Proof. solve_calm jmp_next. Qed.
#[export] Hint Resolve jmp_next_calm : calm.
Lemma with_code_calm {A} (g : nat -> M A) : (forall n, calm (g n)) -> calm (with_code g).
Proof. intros H. unfold with_code. calm_tac. Qed.
Lemma novalue_loop_calm n : forall l, calm (novalue_loop n l).
Proof. induction n; intros l; cbn [novalue_loop]; calm_tac. Qed.
Lemma jmp_novalue_calm l : calm (jmp_novalue l).
Proof. apply with_code_calm. intros. apply novalue_loop_calm. Qed.
Lemma jmp_patchtestreg_calm pc r : calm (jmp_patchtestreg pc r). Proof. solve_calm jmp_patchtestreg. Qed.
#[export] Hint Resolve jmp_novalue_calm jmp_patchtestreg_calm : calm.
Lemma dropval_loop_calm n : forall l, calm (dropval_loop n l).
Proof. induction n; intros l; cbn [dropval_loop]; calm_tac. Qed.
Lemma jmp_dropval_calm l : calm (jmp_dropval l).
Proof. apply with_code_calm. intros. apply dropval_loop_calm. Qed.
Lemma jmp_patchins_calm pc d : calm (jmp_patchins pc d). Proof. solve_calm jmp_patchins. Qed.
#[export] Hint Resolve jmp_dropval_calm jmp_patchins_calm : calm.
Lemma last_loop_calm n : forall l, calm (last_loop n l).
Proof. induction n; intros l; cbn [last_loop]; calm_tac. Qed.
Lemma last_elem_calm l : calm (with_code (λ n, last_loop n l)).
Proof. apply with_code_calm. intros. apply last_loop_calm. Qed.
#[export] Hint Resolve last_elem_calm : calm.
Lemma jmp_append_calm a b : calm (jmp_append a b). Proof. solve_calm jmp_append. Qed.
Lemma patchval_loop_calm n : forall l v r d, calm (patchval_loop n l v r d).
Proof. induction n; intros l v r d; cbn [patchval_loop]; calm_tac. Qed.
Lemma jmp_patchval_calm l v r d : calm (jmp_patchval l v r d).
Proof. apply with_code_calm. intros. apply patchval_loop_calm. Qed.
#[export] Hint Resolve jmp_append_calm jmp_patchval_calm : calm.
Lemma jmp_tohere_calm l : calm (jmp_tohere l). Proof. solve_calm jmp_tohere. Qed.
#[export] Hint Resolve jmp_tohere_calm : calm.
Lemma jmp_patch_calm l t : calm (jmp_patch l t). Proof. solve_calm jmp_patch. Qed.
#[export] Hint Resolve jmp_patch_calm : calm.

(** ** Registers and instructions *)

Lemma bcreg_bump_calm n : calm (bcreg_bump n). Proof. solve_calm bcreg_bump. Qed.
Lemma pop_reg_calm : calm pop_reg. Proof. solve_calm pop_reg. Qed.
Lemma drop_ins_calm : calm drop_ins. Proof. solve_calm drop_ins. Qed.
Lemma grow_code_calm pc : calm (grow_code pc). Proof. solve_calm grow_code. Qed.
#[export] Hint Resolve bcreg_bump_calm pop_reg_calm drop_ins_calm grow_code_calm : calm.
Lemma bcreg_reserve_calm n : calm (bcreg_reserve n). Proof. solve_calm bcreg_reserve. Qed.
Lemma bcreg_free_calm n : calm (bcreg_free n). Proof. solve_calm bcreg_free. Qed.
Lemma bcemit_INS_calm i : calm (bcemit_INS i). Proof. solve_calm bcemit_INS. Qed.
#[export] Hint Resolve bcreg_reserve_calm bcreg_free_calm bcemit_INS_calm : calm.
Lemma expr_free_calm e : calm (expr_free e). Proof. solve_calm expr_free. Qed.
Lemma bcemit_ABC_calm o a b c : calm (bcemit_ABC o a b c). Proof. solve_calm bcemit_ABC. Qed.
Lemma bcemit_AD_calm o a d : calm (bcemit_AD o a d). Proof. solve_calm bcemit_AD. Qed.
Lemma bcemit_AJ_calm o a j : calm (bcemit_AJ o a j). Proof. solve_calm bcemit_AJ. Qed.
#[export] Hint Resolve expr_free_calm bcemit_ABC_calm bcemit_AD_calm bcemit_AJ_calm : calm.

(** ** Expressions *)

Lemma expr_discharge_calm e : calm (expr_discharge e). Proof. solve_calm expr_discharge. Qed.
Lemma emit_nil_calm r n : calm (emit_nil r n). Proof. solve_calm emit_nil. Qed.
#[export] Hint Resolve expr_discharge_calm emit_nil_calm : calm.
Lemma bcemit_nil_calm r n : calm (bcemit_nil r n). Proof. solve_calm bcemit_nil. Qed.
Lemma bcemit_jmp_calm : calm bcemit_jmp. Proof. solve_calm bcemit_jmp. Qed.
#[export] Hint Resolve bcemit_nil_calm bcemit_jmp_calm : calm.
Lemma expr_toreg_nobranch_calm e r : calm (expr_toreg_nobranch e r). Proof. solve_calm expr_toreg_nobranch. Qed.
#[export] Hint Resolve expr_toreg_nobranch_calm : calm.
Lemma expr_toreg_calm e r : calm (expr_toreg e r). Proof. solve_calm expr_toreg. Qed.
#[export] Hint Resolve expr_toreg_calm : calm.
Lemma expr_tonextreg_calm e : calm (expr_tonextreg e). Proof. solve_calm expr_tonextreg. Qed.
#[export] Hint Resolve expr_tonextreg_calm : calm.
Lemma expr_toanyreg_calm e : calm (expr_toanyreg e). Proof. solve_calm expr_toanyreg. Qed.
#[export] Hint Resolve expr_toanyreg_calm : calm.
Lemma expr_toval_calm e : calm (expr_toval e). Proof. solve_calm expr_toval. Qed.
Lemma mark_rw_calm i : calm (mark_rw i). Proof. solve_calm mark_rw. Qed.
#[export] Hint Resolve expr_toval_calm mark_rw_calm : calm.
Lemma bcemit_store_calm v e : calm (bcemit_store v e). Proof. solve_calm bcemit_store. Qed.
Lemma bcemit_store_incr_calm v e : calm (bcemit_store_incr v e). Proof. solve_calm bcemit_store_incr. Qed.
Lemma bcemit_method_calm e k : calm (bcemit_method e k). Proof. solve_calm bcemit_method. Qed.
Lemma invertcond_calm e : calm (invertcond e). Proof. solve_calm invertcond. Qed.
Lemma bcemit_branch_calm e c : calm (bcemit_branch e c). Proof. solve_calm bcemit_branch. Qed.
#[export] Hint Resolve bcemit_store_calm bcemit_store_incr_calm bcemit_method_calm invertcond_calm bcemit_branch_calm : calm.
Lemma bcemit_branch_t_calm e : calm (bcemit_branch_t e). Proof. solve_calm bcemit_branch_t. Qed.
Lemma bcemit_branch_f_calm e : calm (bcemit_branch_f e). Proof. solve_calm bcemit_branch_f. Qed.
Lemma free_operand_calm e : calm (free_operand e). Proof. solve_calm free_operand. Qed.
Lemma arith_operands_calm o a b : calm (arith_operands o a b). Proof. solve_calm arith_operands. Qed.
Lemma eq_ins_calm o r e : calm (eq_ins o r e). Proof. solve_calm eq_ins. Qed.
#[export] Hint Resolve bcemit_branch_t_calm bcemit_branch_f_calm free_operand_calm arith_operands_calm eq_ins_calm : calm.
Lemma bcemit_arith_calm o a b : calm (bcemit_arith o a b). Proof. solve_calm bcemit_arith. Qed.
Lemma comp_operands_calm o a b : calm (comp_operands o a b). Proof. solve_calm comp_operands. Qed.
Lemma emit_unop_calm o e : calm (emit_unop o e). Proof. solve_calm emit_unop. Qed.
#[export] Hint Resolve bcemit_arith_calm comp_operands_calm emit_unop_calm : calm.
Lemma bcemit_comp_calm o a b : calm (bcemit_comp o a b). Proof. solve_calm bcemit_comp. Qed.
Lemma bcemit_binop_left_calm o e : calm (bcemit_binop_left o e). Proof. solve_calm bcemit_binop_left. Qed.
#[export] Hint Resolve bcemit_comp_calm bcemit_binop_left_calm : calm.
Lemma bcemit_binop_calm o a b : calm (bcemit_binop o a b). Proof. solve_calm bcemit_binop. Qed.
Lemma bcemit_unop_calm o e : calm (bcemit_unop o e). Proof. solve_calm bcemit_unop. Qed.
#[export] Hint Resolve bcemit_binop_calm bcemit_unop_calm : calm.

(** ** Variables, scopes and functions *)

Lemma str_lit_calm w : calm (str_lit w).
Proof.
  intros s. unfold cwp, str_lit. by destruct (Util.kp_str_new _ _) as [[a t]|].
Qed.
Lemma str_bytes_calm a : calm (str_bytes a). Proof. solve_calm str_bytes. Qed.
#[export] Hint Resolve str_lit_calm str_bytes_calm : calm.
Lemma name_bytes_calm n : calm (name_bytes n). Proof. solve_calm name_bytes. Qed.
Lemma grow_vstack_calm : calm grow_vstack. Proof. solve_calm grow_vstack. Qed.
Lemma get_var_calm i : calm (get_var i). Proof. solve_calm get_var. Qed.
Lemma put_var_calm i v : calm (put_var i v). Proof. solve_calm put_var. Qed.
#[export] Hint Resolve name_bytes_calm grow_vstack_calm get_var_calm put_var_calm : calm.
Lemma var_get_calm r : calm (var_get r). Proof. solve_calm var_get. Qed.
Lemma var_new_calm n v : calm (var_new n v). Proof. solve_calm var_new. Qed.
#[export] Hint Resolve var_get_calm var_new_calm : calm.
Lemma var_add_loop_calm n : forall k, calm (var_add_loop n k).
Proof. induction n; intros k; cbn [var_add_loop]; calm_tac. Qed.
Lemma var_remove_loop_calm n : calm (var_remove_loop n).
Proof. induction n; cbn [var_remove_loop]; calm_tac. Qed.
#[export] Hint Resolve var_add_loop_calm var_remove_loop_calm : calm.
Lemma var_add_calm n : calm (var_add n). Proof. solve_calm var_add. Qed.
Lemma var_remove_calm n : calm (var_remove n). Proof. solve_calm var_remove. Qed.
Lemma var_lookup_local_calm d n : calm (var_lookup_local d n). Proof. solve_calm var_lookup_local. Qed.
Lemma put_fs_at_calm d f : calm (put_fs_at d f). Proof. solve_calm put_fs_at. Qed.
#[export] Hint Resolve var_add_calm var_remove_calm var_lookup_local_calm put_fs_at_calm : calm.
Lemma var_lookup_uv_calm d v e : calm (var_lookup_uv d v e). Proof. solve_calm var_lookup_uv. Qed.
Lemma fscope_uvmark_calm d l : calm (fscope_uvmark d l). Proof. solve_calm fscope_uvmark. Qed.
#[export] Hint Resolve var_lookup_uv_calm fscope_uvmark_calm : calm.
Lemma var_lookup__calm k : forall d n b, calm (var_lookup_ k d n b).
Proof. induction k; intros d n b; cbn [var_lookup_]; calm_tac. Qed.
Lemma gola_new_calm n i p : calm (gola_new n i p). Proof. solve_calm gola_new. Qed.
Lemma gola_patch_calm g l : calm (gola_patch g l). Proof. solve_calm gola_patch. Qed.
Lemma gola_close_calm g : calm (gola_close g). Proof. solve_calm gola_close. Qed.
#[export] Hint Resolve var_lookup__calm gola_new_calm gola_patch_calm gola_close_calm : calm.

Lemma line_of_ins_calm pc : calm (line_of_ins pc). Proof. solve_calm line_of_ins. Qed.
#[export] Hint Resolve line_of_ins_calm : calm.
Lemma resolve_loop_calm n : forall i x, calm (resolve_loop n i x).
Proof. induction n; intros i x; cbn [resolve_loop]; calm_tac. Qed.
Lemma backward_loop_calm n : forall b x i j, calm (backward_loop n b x i j).
Proof. induction n; intros b x i j; cbn [backward_loop]; calm_tac. Qed.
Lemma propagate_goto_calm b v i : calm (propagate_goto b v i). Proof. solve_calm propagate_goto. Qed.
#[export] Hint Resolve resolve_loop_calm backward_loop_calm propagate_goto_calm : calm.
Lemma gola_resolve_calm b i : calm (gola_resolve b i). Proof. solve_calm gola_resolve. Qed.
Lemma fixup_loop_calm n : forall b i, calm (fixup_loop n b i).
Proof. induction n; intros b i; cbn [fixup_loop]; calm_tac. Qed.
#[export] Hint Resolve gola_resolve_calm fixup_loop_calm : calm.
Lemma gola_fixup_calm b : calm (gola_fixup b). Proof. solve_calm gola_fixup. Qed.
Lemma findlabel_loop_calm n : forall x i, calm (findlabel_loop n x i).
Proof. induction n; intros x i; cbn [findlabel_loop]; calm_tac. Qed.
#[export] Hint Resolve gola_fixup_calm findlabel_loop_calm : calm.
Lemma gola_findlabel_calm x : calm (gola_findlabel x). Proof. solve_calm gola_findlabel. Qed.
Lemma fscope_begin_calm x : calm (fscope_begin x). Proof. solve_calm fscope_begin. Qed.
Lemma or_flags_calm x : calm (or_flags x). Proof. solve_calm or_flags. Qed.
Lemma fscope_end_calm : calm fscope_end. Proof. solve_calm fscope_end. Qed.
#[export] Hint Resolve gola_findlabel_calm fscope_begin_calm or_flags_calm fscope_end_calm : calm.

(** ** Completing a function *)

Section Finish.
Context (malloc : nat -> Z).

Lemma alloc_calm o : calm (alloc malloc o). Proof. solve_calm alloc. Qed.
Lemma get_obj_calm a : calm (get_obj malloc a). Proof. solve_calm get_obj. Qed.
Lemma put_obj_calm i o : calm (put_obj i o). Proof. solve_calm put_obj. Qed.
Lemma fixup_uv_calm v : calm (fixup_uv v). Proof. solve_calm fixup_uv. Qed.
Lemma gmapM_calm {A B} (g : A -> M B) l : (forall x, calm (g x)) -> calm (gmapM g l).
Proof. intros H. induction l; cbn [gmapM]; calm_tac. Qed.
#[local] Hint Resolve alloc_calm get_obj_calm put_obj_calm fixup_uv_calm gmapM_calm : calm.
Lemma fs_fixup_uv2_calm p : calm (fs_fixup_uv2 p). Proof. solve_calm fs_fixup_uv2. Qed.
#[local] Hint Resolve fs_fixup_uv2_calm : calm.
Lemma const_obj_calm k : calm (const_obj malloc k). Proof. solve_calm const_obj. Qed.
#[local] Hint Resolve const_obj_calm : calm.
Lemma fixup_k_loop_calm l : forall a b, calm (fixup_k_loop malloc l a b).
Proof. induction l; intros x y; cbn [fixup_k_loop]; calm_tac. Qed.
#[local] Hint Resolve fixup_k_loop_calm : calm.
Lemma fs_fixup_k_calm : calm (fs_fixup_k malloc). Proof. solve_calm fs_fixup_k. Qed.
Lemma with_sb_calm g : calm (with_sb g). Proof. solve_calm with_sb. Qed.
#[local] Hint Resolve fs_fixup_k_calm with_sb_calm : calm.
Lemma prep_uv_loop_calm l : calm (prep_uv_loop l).
Proof. induction l; cbn [prep_uv_loop]; calm_tac. Qed.
Lemma prep_var_loop_calm n : forall i p, calm (prep_var_loop n i p).
Proof. induction n; intros i p; cbn [prep_var_loop]; calm_tac. Qed.
#[local] Hint Resolve prep_uv_loop_calm prep_var_loop_calm : calm.
Lemma reset_calm : calm (lex reset).
Proof. intros s. apply cwp_lex. by intros x l [= <- <-]. Qed.
#[local] Hint Resolve reset_calm : calm.
Lemma fs_prep_var_calm : calm fs_prep_var. Proof. solve_calm fs_prep_var. Qed.
Lemma fixup_return_loop_calm n : forall p, calm (fixup_return_loop n p).
Proof. induction n; intros p; cbn [fixup_return_loop]; calm_tac. Qed.
#[local] Hint Resolve fs_prep_var_calm fixup_return_loop_calm : calm.
Lemma fs_fixup_ret_calm : calm fs_fixup_ret. Proof. solve_calm fs_fixup_ret. Qed.
#[local] Hint Resolve fs_fixup_ret_calm : calm.
Lemma fs_finish_calm line : calm (fs_finish malloc line). Proof. solve_calm fs_finish. Qed.
Lemma fs_init_calm a b c : calm (fs_init a b c). Proof. solve_calm fs_init. Qed.
End Finish.
#[export] Hint Resolve alloc_calm get_obj_calm put_obj_calm fs_finish_calm fs_init_calm : calm.

(** ** Steps of the descent that read no token *)

Lemma linenumber_calm : calm linenumber. Proof. solve_calm linenumber. Qed.
Lemma last_line_calm : calm last_line. Proof. solve_calm last_line. Qed.
Lemma expr_index_calm t e : calm (expr_index t e). Proof. solve_calm expr_index. Qed.
#[export] Hint Resolve linenumber_calm last_line_calm expr_index_calm : calm.
Lemma table_nonconst_calm c k v : calm (table_nonconst c k v). Proof. solve_calm table_nonconst. Qed.
Lemma make_template_calm ml c p f : calm (make_template ml c p f). Proof. solve_calm make_template. Qed.
Lemma get_tab_calm i : calm (get_tab i). Proof. solve_calm get_tab. Qed.
#[export] Hint Resolve table_nonconst_calm make_template_calm get_tab_calm : calm.
Lemma template_set_calm i k v : calm (template_set i k v). Proof. solve_calm template_set. Qed.
Lemma table_vcall_calm c f : calm (table_vcall c f). Proof. solve_calm table_vcall. Qed.
Lemma begin_body_calm l : calm (begin_body l). Proof. solve_calm begin_body. Qed.
Lemma emit_call_calm b i l : calm (emit_call b i l). Proof. solve_calm emit_call. Qed.
Lemma call_ins_calm e : calm (call_ins e). Proof. solve_calm call_ins. Qed.
#[export] Hint Resolve template_set_calm table_vcall_calm begin_body_calm emit_call_calm call_ins_calm : calm.
Lemma setbc_b_at_calm e b : calm (setbc_b_at e b). Proof. solve_calm setbc_b_at. Qed.
Lemma synlevel_begin_calm : calm synlevel_begin. Proof. solve_calm synlevel_begin. Qed.
Lemma synlevel_end_calm : calm synlevel_end. Proof. solve_calm synlevel_end. Qed.
Lemma assign_hazard_calm l v : calm (assign_hazard l v). Proof. solve_calm assign_hazard. Qed.
#[export] Hint Resolve setbc_b_at_calm synlevel_begin_calm synlevel_end_calm assign_hazard_calm : calm.
Lemma assign_adjust_calm a b e : calm (assign_adjust a b e). Proof. solve_calm assign_adjust. Qed.
Lemma close_call_calm e : calm (close_call e). Proof. solve_calm close_call. Qed.
Lemma store_last_calm v : calm (store_last v). Proof. solve_calm store_last. Qed.
Lemma return_open_calm e : calm (return_open e). Proof. solve_calm return_open. Qed.
#[export] Hint Resolve assign_adjust_calm close_call_calm store_last_calm return_open_calm : calm.
Lemma return_ins_calm k e : calm (return_ins k e). Proof. solve_calm return_ins. Qed.
Lemma parse_break_calm : calm parse_break. Proof. solve_calm parse_break. Qed.
Lemma mark_target_calm : calm mark_target. Proof. solve_calm mark_target. Qed.
Lemma here_calm : calm here. Proof. solve_calm here. Qed.
Lemma emit_loop_calm : calm emit_loop. Proof. solve_calm emit_loop. Qed.
#[export] Hint Resolve return_ins_calm parse_break_calm mark_target_calm here_calm emit_loop_calm : calm.
Lemma global_slot_calm w d : calm (global_slot w d). Proof. solve_calm global_slot. Qed.
Lemma is_next_name_calm x : calm (is_next_name x). Proof. solve_calm is_next_name. Qed.
#[export] Hint Resolve global_slot_calm is_next_name_calm : calm.
Lemma predict_next_calm pc : calm (predict_next pc). Proof. solve_calm predict_next. Qed.
Lemma escape_branch_calm a b : calm (escape_branch a b). Proof. solve_calm escape_branch. Qed.
Lemma library_function_calm a b : calm (library_function a b). Proof. solve_calm library_function. Qed.
Lemma token_cstr_calm : calm token_cstr. Proof. solve_calm token_cstr. Qed.
#[export] Hint Resolve predict_next_calm escape_branch_calm library_function_calm token_cstr_calm : calm.
