(* ===== verification/ParseTerm.v ===== *)
(** * ParseTerm: the descent of the parser terminates

    The descent is defined with fuel.  Every recursive call and every round of a
    loop takes a token, so two runs with more fuel than there are characters and
    tokens in front of the parser agree: fuel never shows in a result. *)

From S2P Require Import Prelude Types Bytecode BcWrite Util Lex LexDec Gen Parse GenCalm Compile.
#[local] Open Scope word_scope.
#[local] Open Scope gen_scope.

Definition mu (s : pstate) : nat := ahead (p_ls s).
Definition ptok (s : pstate) : Z := l_tok (p_ls s).

(** [m1] and [m2] do the same from [s], with results in [Φ]. *)
Definition agree {A} (m1 m2 : M A) (s : pstate) (Φ : A -> pstate -> Prop) : Prop :=
  m1 s = m2 s /\ cwp m1 s Φ.

Section Rules.
Context {A B : Type}.

Lemma ag_refl (m : M A) s Φ : cwp m s Φ -> agree m m s Φ.
Proof. by split. Qed.
Lemma ag_mono (m1 m2 : M A) s (Φ Ψ : A -> pstate -> Prop) :
  agree m1 m2 s Φ -> (forall x s', Φ x s' -> Ψ x s') -> agree m1 m2 s Ψ.
Proof. intros [E H] HΨ. split; [done|]. by eapply cwp_mono. Qed.
Lemma ag_bind (m1 m2 : M A) (f1 f2 : A -> M B) s Φ :
  agree m1 m2 s (λ x s', agree (f1 x) (f2 x) s' Φ) -> agree (gbind m1 f1) (gbind m2 f2) s Φ.
Proof.
  intros [E H]. split.
  - unfold gbind. rewrite <- E. unfold cwp in H. destruct (m1 s) as [[e|[x s1]]|]; [done| |done]. apply H.
  - apply cwp_bind. eapply cwp_mono; [apply H|]. by intros x s' [].
Qed.
Lemma ag_ret (x : A) s (Φ : A -> pstate -> Prop) : Φ x s -> agree (gret x) (gret x) s Φ.
Proof. intros. by apply ag_refl, cwp_ret. Qed.
Lemma ag_ub s (Φ : A -> pstate -> Prop) : agree gub gub s Φ.
Proof. by apply ag_refl, cwp_ub. Qed.
Lemma ag_opt (o : option A) s (Φ : A -> pstate -> Prop) : (forall x, Φ x s) -> agree (gopt o) (gopt o) s Φ.
Proof. intros. by apply ag_refl, cwp_opt. Qed.
Lemma ag_calm (m : M A) s (Φ : A -> pstate -> Prop) :
  calm m -> (forall x s', mu s' = mu s -> ptok s' = ptok s -> Φ x s') -> agree m m s Φ.
Proof.
  intros H HΦ. apply ag_refl. eapply cwp_calm; [done|]. intros x s' E. unfold inp in E. injection E as E1 E2 E3 E4.
  apply HΦ; unfold mu, ptok, ahead, weight; by rewrite ?E1, ?E2, ?E3, ?E4.
Qed.
End Rules.

Lemma ag_get s (Φ : pstate -> pstate -> Prop) : Φ s s -> agree gget gget s Φ.
Proof. intros. by apply ag_refl, cwp_get. Qed.
Lemma ag_gls s (Φ : lexstate -> pstate -> Prop) : Φ (p_ls s) s -> agree gls gls s Φ.
Proof. intros. by apply ag_refl, cwp_gls. Qed.
Lemma ag_tok s (Φ : Z -> pstate -> Prop) : Φ (ptok s) s -> agree tok tok s Φ.
Proof. intros H. apply ag_bind, ag_gls, ag_ret, H. Qed.

(** ** Reading tokens *)

Lemma ag_skip s (Φ : unit -> pstate -> Prop) :
  (forall s', (mu s' <= mu s)%nat -> (ptok s <> TK_eof -> mu s' < mu s)%nat -> Φ tt s') ->
  agree lex_skip lex_skip s Φ.
Proof.
  intros H. apply ag_refl, cwp_lex. intros [] l E. destruct (lex_next_ahead _ _ _ E) as (? & ? & _). by apply H.
Qed.
Lemma ag_opt_tok t s (Φ : bool -> pstate -> Prop) : t <> TK_eof ->
  (forall s', (mu s' < mu s)%nat -> Φ true s') -> Φ false s -> agree (lex_opt t) (lex_opt t) s Φ.
Proof.
  intros Ht H1 H2. apply ag_bind, ag_tok. destruct (Z.eqb_spec (ptok s) t) as [e|].
  - apply ag_bind, ag_skip. intros s' _ Hs. apply ag_ret, H1, Hs. congruence.
  - by apply ag_ret.
Qed.
(** Errors have no result. *)
Lemma ag_lex_error {A} t em s (Φ : A -> pstate -> Prop) :
  agree (lex (kp_lex_error t em)) (lex (kp_lex_error t em)) s Φ.
Proof. apply ag_refl, cwp_lex. intros x l E. by apply lwp_error with (Φ := λ _ _, False) in E. Qed.
Lemma ag_syntax {A} em s (Φ : A -> pstate -> Prop) : agree (err_syntax em) (err_syntax em) s Φ.
Proof. apply (ag_lex_error (l_tok (p_ls s)) em). Qed.
Lemma ag_token {A} t s (Φ : A -> pstate -> Prop) : agree (err_token t) (err_token t) s Φ.
Proof. apply ag_bind, ag_opt. intros x. apply (ag_syntax (KP_ERR_XTOKEN x)). Qed.

Lemma ag_check t s (Φ : unit -> pstate -> Prop) : t <> TK_eof ->
  (forall s', (mu s' < mu s)%nat -> Φ tt s') -> agree (lex_check t) (lex_check t) s Φ.
Proof.
  intros Ht H. apply ag_bind, ag_tok. destruct (Z.eqb_spec (ptok s) t) as [e|]; cbn [negb].
  - apply ag_bind, ag_ret, ag_skip. intros s' _ Hs. apply H, Hs. congruence.
  - apply ag_bind, ag_token.
Qed.
Lemma ag_match what who line s (Φ : unit -> pstate -> Prop) : what <> TK_eof ->
  (forall s', (mu s' < mu s)%nat -> Φ tt s') -> agree (lex_match what who line) (lex_match what who line) s Φ.
Proof.
  intros Ht H. apply ag_bind, ag_opt_tok; [done|intros; by apply ag_ret, H|].
  apply ag_bind. eapply ag_calm; [eauto with calm|]. intros l s' _ _. destruct (line =? l); [apply ag_token|].
  apply ag_bind, ag_opt. intros x. apply ag_bind, ag_opt. intros y. apply ag_syntax.
Qed.
Lemma ag_str s (Φ : Z -> pstate -> Prop) :
  (forall a s', (mu s' < mu s)%nat -> Φ a s') -> agree lex_str lex_str s Φ.
Proof.
  intros H. apply ag_bind, ag_tok. destruct (Z.eqb_spec (ptok s) TK_name) as [e|]; cbn [negb].
  - apply ag_bind, ag_ret, ag_bind, ag_gls, ag_bind, ag_skip. intros s' _ Hs. apply ag_ret, H, Hs. by rewrite e.
  - apply ag_bind, ag_token.
Qed.
Lemma ag_lookahead s (Φ : Z -> pstate -> Prop) :
  (forall x s', (mu s' <= mu s)%nat -> ptok s' = ptok s -> Φ x s') ->
  agree (lex kp_lex_lookahead) (lex kp_lex_lookahead) s Φ.
Proof. intros H. apply ag_refl, cwp_lex. intros x l E. destruct (lex_lookahead_ahead _ _ _ E). by apply H. Qed.

(** A known token in front is taken. *)
Lemma ag_skip_tok s (Φ : unit -> pstate -> Prop) : ptok s <> TK_eof ->
  (forall s', (mu s' < mu s)%nat -> Φ tt s') -> agree lex_skip lex_skip s Φ.
Proof. intros Ht H. apply ag_skip. auto. Qed.

(** A string up to a delimiter, in place of the token in front or behind it. *)
Lemma ag_until c s (Φ : unit -> pstate -> Prop) : ptok s <> TK_eof ->
  (forall s', (mu s' <= mu s)%nat -> Φ tt s') ->
  agree (lex (kp_lex_read_string_until c)) (lex (kp_lex_read_string_until c)) s Φ.
Proof.
  intros Ht H. apply ag_refl, cwp_lex. intros [] l E. destruct (until_ahead _ _ _ _ E) as (W & T & L). apply H.
  unfold mu, ahead, ptok in *. cbn [p_ls pset_ls]. rewrite T, L, (proj2 (Z.eqb_neq _ _) Ht). cbn [b2n negb]. change (b2n (negb (TK_string =? TK_eof))) with 1%nat. change (b2n (negb (TK_eof =? TK_eof))) with 0%nat. lia.
Qed.
Lemma ag_skip_until {A} c (f1 f2 : M A) s Φ : ptok s <> TK_eof ->
  (forall s', (mu s' <= mu s)%nat -> agree f1 f2 s' Φ) ->
  agree (lex_skip ;;; lex (kp_lex_read_string_until c) ;;; f1)
        (lex_skip ;;; lex (kp_lex_read_string_until c) ;;; f2) s Φ.
Proof.
  intros Ht H. apply ag_bind, ag_refl, cwp_lex. intros [] l1 E1. apply ag_bind, ag_refl, cwp_lex. intros [] l2 E2.
  destruct (lex_next_ahead _ _ _ E1) as (_ & _ & W1 & L1). destruct (until_ahead _ _ _ _ E2) as (W2 & T2 & L2).
  cbn [p_ls pset_ls] in W2, L2. apply H. unfold mu, ahead, ptok in *. cbn [p_ls pset_ls].
  rewrite T2, L2, L1, (proj2 (Z.eqb_neq _ _) Ht).
  change (b2n (negb (TK_string =? TK_eof))) with 1%nat. change (b2n (negb (TK_eof =? TK_eof))) with 0%nat.
  cbn [b2n negb]. lia.
Qed.

(** ** The specifications

    [b] bounds what is in front of the parser. *)

Definition takes {A} (b : nat) (m1 m2 : M A) : Prop :=
  forall s, (mu s < b)%nat -> agree m1 m2 s (λ _ s', (mu s' < mu s)%nat).
Definition keeps {A} (b : nat) (m1 m2 : M A) : Prop :=
  forall s, (mu s < b)%nat -> agree m1 m2 s (λ _ s', (mu s' <= mu s)%nat).

Lemma takes_keeps {A} b (m1 m2 : M A) : takes b m1 m2 -> keeps b m1 m2.
Proof. intros H s Hs. eapply ag_mono; [by apply H|]. cbv beta. intros. lia. Qed.
Lemma ag_takes {A} b (m1 m2 : M A) s Φ : takes b m1 m2 -> (mu s < b)%nat ->
  (forall x s', (mu s' < mu s)%nat -> Φ x s') -> agree m1 m2 s Φ.
Proof. intros H Hs HΦ. eapply ag_mono; [by apply H|]. cbv beta. eauto. Qed.
Lemma ag_keeps {A} b (m1 m2 : M A) s Φ : keeps b m1 m2 -> (mu s < b)%nat ->
  (forall x s', (mu s' <= mu s)%nat -> Φ x s') -> agree m1 m2 s Φ.
Proof. intros H Hs HΦ. eapply ag_mono; [by apply H|]. cbv beta. eauto. Qed.

Create HintDb takes discriminated.
#[export] Hint Constants Opaque : takes.
Create HintDb keeps discriminated.
#[export] Hint Constants Opaque : keeps.

(** [ptok s <> TK_eof], from the tests made. *)
Ltac tok_known :=
  let H := fresh in intros H;
  repeat match goal with
  | E : ptok ?s' = ptok ?s, H : ptok ?s' = TK_eof |- _ => rewrite E in H
  end;
  repeat match goal with
  | E : _ = true |- _ => rewrite H in E; discriminate E
  | E : ?x <> TK_eof |- _ => contradiction
  end.

Ltac ag_step :=
  lazymatch goal with
  | |- agree (gbind _ _) (gbind _ _) _ _ => apply ag_bind
  | |- agree (gret _) _ _ _ => apply ag_ret
  | |- agree gub _ _ _ => apply ag_ub
  | |- agree gget _ _ _ => apply ag_get
  | |- agree gls _ _ _ => apply ag_gls
  | |- agree tok _ _ _ => apply ag_tok
  | |- agree (gopt _) _ _ _ => apply ag_opt; intros ?
  | |- agree lex_skip _ _ _ =>
      first [apply ag_skip_tok; [solve [tok_known]|intros ? ?]|apply ag_skip; intros ? ? ?]
  | |- agree (lex_opt _) _ _ _ => apply ag_opt_tok; [done|intros ? ?|]
  | |- agree (lex_check _) _ _ _ => apply ag_check; [done|intros ? ?]
  | |- agree (lex_match _ _ _) _ _ _ => apply ag_match; [done|intros ? ?]
  | |- agree lex_str _ _ _ => apply ag_str; intros ? ? ?
  | |- agree (lex kp_lex_lookahead) _ _ _ => apply ag_lookahead; intros ? ? ? ?
  | |- agree (lex (kp_lex_error _ _)) _ _ _ => apply ag_lex_error
  | |- agree (err_syntax _) _ _ _ => apply ag_syntax
  | |- agree (err_token _) _ _ _ => apply ag_token
  | |- agree (if ?b then _ else _) _ _ _ => let E := fresh in destruct b eqn:E; [|clear E]
  | |- agree (match ?x with _ => _ end) _ _ _ => destruct x eqn:?
  | |- agree (let x := _ in _) _ _ _ => cbv zeta
  | |- agree _ _ ?s _ =>
      first [apply (ag_takes (S (mu s))); [solve [eauto with takes]|lia|intros ? ? ?]
            |eapply ag_takes; [solve [eauto with takes]|lia|intros ? ? ?]
            |eapply ag_keeps; [solve [eauto with keeps]|lia|intros ? ? ?]
            |eapply ag_calm; [solve [eauto with calm]|intros ? ? ? ?]]
  | |- (_ <= _)%nat => lia
  | |- (_ < _)%nat => lia
  end.
Ltac ag_tac := intros ? ?; repeat ag_step.

Lemma expr_str_takes b : takes b expr_str expr_str.
Proof. unfold expr_str. ag_tac. Qed.
#[export] Hint Resolve expr_str_takes : takes.
Lemma expr_field_takes b v : takes b (expr_field v) (expr_field v).
Proof. unfold expr_field. ag_tac. Qed.
#[export] Hint Resolve expr_field_takes : takes.

(** ** The descent

    The recursive functions agree below [k]; the loops have fuel above it. *)

Section Descent.
Context (ml : nat -> Z) (ev : bytes -> option Z) (k n1 n2 : nat).
Context (r1 r2 : Z -> M (ExpDesc * option BinOpr)) (c1 c2 : M unit).
Hypothesis Hn1 : (S k <= n1)%nat.
Hypothesis Hn2 : (S k <= n2)%nat.
Hypothesis Hr : forall l s, (mu s < k)%nat ->
  agree (r1 l) (r2 l) s (λ r s', (mu s' < mu s)%nat /\ (snd r <> None -> ptok s' <> TK_eof)).
Hypothesis Hc : keeps k c1 c2.
#[local] Hint Resolve Hc : keeps.

Lemma rec_takes l : takes k (r1 l) (r2 l).
Proof. intros s Hs. eapply ag_mono; [by apply Hr|]. by intros ? ? []. Qed.
#[local] Hint Resolve rec_takes : takes.
Lemma expr_takes : takes k (expr r1) (expr r2).
Proof. unfold expr. ag_tac. Qed.
#[local] Hint Resolve expr_takes : takes.
Lemma expr_bracket_takes s : (mu s < S k)%nat -> ptok s <> TK_eof ->
  agree (expr_bracket r1) (expr_bracket r2) s (λ _ s', (mu s' < mu s)%nat).
Proof. intros Hs Ht. unfold expr_bracket. repeat ag_step. Qed.

(** *** Table constructors *)

Lemma table_key_keeps c : keeps k (table_key r1 c) (table_key r2 c).
Proof.
  intros s Hs. unfold table_key. repeat ag_step.
  eapply ag_mono; [apply expr_bracket_takes; [lia|tok_known]|]. cbv beta. intros. repeat ag_step.
Qed.
#[local] Hint Resolve table_key_keeps : keeps.
Lemma table_entry_takes c pc freg : takes k (table_entry ml r1 c pc freg) (table_entry ml r2 c pc freg).
Proof. unfold table_entry. ag_tac. Qed.
#[local] Hint Resolve table_entry_takes : takes.
Lemma table_loop_keeps m : (m <= k)%nat -> forall f1 f2 c pc freg, (m <= f1)%nat -> (m <= f2)%nat ->
  keeps m (table_loop ml r1 f1 c pc freg) (table_loop ml r2 f2 c pc freg).
Proof.
  induction m as [|m IH]; intros Hm f1 f2 c pc freg H1 H2 s Hs; [lia|].
  destruct f1, f2; try lia. cbn [table_loop]. repeat ag_step.
  all: eapply ag_keeps; [apply IH; lia|lia|]; intros; repeat ag_step.
Qed.
Lemma table_all_keeps c pc freg : keeps k (table_loop ml r1 n1 c pc freg) (table_loop ml r2 n2 c pc freg).
Proof. apply table_loop_keeps; lia. Qed.
#[local] Hint Resolve table_all_keeps : keeps.
Lemma expr_table_takes : takes (S k) (expr_table ml n1 r1) (expr_table ml n2 r2).
Proof. unfold expr_table. ag_tac. Qed.
#[local] Hint Resolve expr_table_takes : takes.

(** *** Functions and calls *)

Lemma params_loop_keeps m : forall f1 f2 x, (m <= f1)%nat -> (m <= f2)%nat ->
  takes m (params_loop f1 x) (params_loop f2 x).
Proof.
  induction m as [|m IH]; intros f1 f2 x H1 H2 s Hs; [lia|].
  destruct f1, f2; try lia. cbn [params_loop]. repeat ag_step.
  eapply ag_takes; [apply IH; lia|lia|]; intros; repeat ag_step.
Qed.
Lemma params_all_takes x : takes (S k) (params_loop n1 x) (params_loop n2 x).
Proof. by apply params_loop_keeps. Qed.
#[local] Hint Resolve params_all_takes : takes.
Lemma parse_params_takes : takes (S k) (parse_params n1) (parse_params n2).
Proof. unfold parse_params. ag_tac. Qed.
#[local] Hint Resolve parse_params_takes : takes.
Lemma body_rest_takes : takes (S k) (body_rest ml c1) (body_rest ml c2).
Proof. unfold body_rest. ag_tac. Qed.
#[local] Hint Resolve body_rest_takes : takes.
Lemma parse_body_takes line : takes (S k) (parse_body ml n1 c1 line) (parse_body ml n2 c2 line).
Proof. unfold parse_body. ag_tac. Qed.
Lemma parse_body_no_args_takes line : takes (S k) (parse_body_no_args ml c1 line) (parse_body_no_args ml c2 line).
Proof. unfold parse_body_no_args. ag_tac. Qed.
#[local] Hint Resolve parse_body_takes parse_body_no_args_takes : takes.

Lemma list_loop_keeps m : (m <= k)%nat -> forall f1 f2 v x, (m <= f1)%nat -> (m <= f2)%nat ->
  keeps m (list_loop r1 f1 v x) (list_loop r2 f2 v x).
Proof.
  induction m as [|m IH]; intros Hm f1 f2 v x H1 H2 s Hs; [lia|].
  destruct f1, f2; try lia. cbn [list_loop]. repeat ag_step.
  eapply ag_keeps; [apply IH; lia|lia|]; intros; repeat ag_step.
Qed.
Lemma list_all_keeps v x : keeps k (list_loop r1 n1 v x) (list_loop r2 n2 v x).
Proof. apply list_loop_keeps; lia. Qed.
#[local] Hint Resolve list_all_keeps : keeps.
Lemma expr_list_takes : takes k (expr_list n1 r1) (expr_list n2 r2).
Proof. unfold expr_list. ag_tac. Qed.
#[local] Hint Resolve expr_list_takes : takes.
Lemma parse_arglist_takes line : takes (S k) (parse_arglist ml n1 r1 line) (parse_arglist ml n2 r2 line).
Proof. unfold parse_arglist. ag_tac. Qed.
#[local] Hint Resolve parse_arglist_takes : takes.
Lemma parse_args_takes e : takes (S k) (parse_args ml n1 r1 e) (parse_args ml n2 r2 e).
Proof. unfold parse_args. ag_tac. Qed.
#[local] Hint Resolve parse_args_takes : takes.

Lemma suffix_loop_keeps m : (m <= S k)%nat -> forall f1 f2 v, (m <= f1)%nat -> (m <= f2)%nat ->
  keeps m (suffix_loop ml n1 r1 f1 v) (suffix_loop ml n2 r2 f2 v).
Proof.
  induction m as [|m IH]; intros Hm f1 f2 v H1 H2 s Hs; [lia|].
  destruct f1, f2; try lia. cbn [suffix_loop]. repeat ag_step.
  2: eapply ag_mono; [apply expr_bracket_takes; [lia|tok_known]|]; cbv beta; intros; repeat ag_step.
  all: eapply ag_keeps; [apply IH; lia|lia|]; intros; repeat ag_step.
Qed.
Lemma suffix_all_keeps v : keeps (S k) (suffix_loop ml n1 r1 n1 v) (suffix_loop ml n2 r2 n2 v).
Proof. apply suffix_loop_keeps; lia. Qed.
#[local] Hint Resolve suffix_all_keeps : keeps.
Lemma var_lookup_takes b : takes b var_lookup var_lookup.
Proof. unfold var_lookup. ag_tac. Qed.
#[local] Hint Resolve var_lookup_takes : takes.
Lemma expr_primary_takes : takes (S k) (expr_primary ml n1 r1) (expr_primary ml n2 r2).
Proof. unfold expr_primary. ag_tac. Qed.
#[local] Hint Resolve expr_primary_takes : takes.

(** *** Expressions *)

Lemma simple_token_not_eof t tv v : simple_token t tv = Some v -> t <> TK_eof.
Proof. by intros H ->. Qed.
Lemma expr_simple_takes : takes (S k) (expr_simple ml n1 r1 c1) (expr_simple ml n2 r2 c2).
Proof.
  intros s Hs. unfold expr_simple. apply ag_bind, ag_gls. cbv zeta.
  destruct (simple_token _ _) as [v|] eqn:E.
  - apply simple_token_not_eof in E. change (l_tok (p_ls s)) with (ptok s) in E. repeat ag_step.
  - change (l_tok (p_ls s)) with (ptok s). repeat ag_step.
Qed.
#[local] Hint Resolve expr_simple_takes : takes.
Lemma expr_unop_takes : takes (S k) (expr_unop ml n1 r1 c1) (expr_unop ml n2 r2 c2).
Proof. unfold expr_unop. ag_tac. Qed.
#[local] Hint Resolve expr_unop_takes : takes.

Lemma token2binop_not_eof t : token2binop t <> None -> t <> TK_eof.
Proof. intros H ->. by apply H. Qed.

(** The operator returned stands in front of the parser. *)
Lemma binop_loop_agrees m : (m <= S k)%nat -> forall f1 f2 v op l s, (m <= f1)%nat -> (m <= f2)%nat ->
  (mu s < m)%nat -> (op <> None -> ptok s <> TK_eof) ->
  agree (binop_loop r1 f1 v op l) (binop_loop r2 f2 v op l) s
    (λ r s', (mu s' <= mu s)%nat /\ (snd r <> None -> ptok s' <> TK_eof)).
Proof.
  induction m as [|m IH]; intros Hm f1 f2 v op l s H1 H2 Hs Hop; [lia|].
  destruct f1, f2; try lia. cbn [binop_loop]. destruct op as [o|]; [|by apply ag_ret].
  specialize (Hop ltac:(done)). destruct (_ >? _); [|by apply ag_ret].
  do 4 ag_step. apply ag_bind. eapply ag_mono; [apply Hr; lia|]. cbv beta. intros r s4 [W4 T4].
  repeat ag_step. eapply ag_mono; [apply IH; try lia; intros Hn; specialize (T4 Hn); congruence|]. cbv beta. intros q s6 [W6 T6].
  split; [lia|done].
Qed.
Lemma binop_body_agrees l s : (mu s < S k)%nat ->
  agree (binop_body ml n1 r1 c1 l) (binop_body ml n2 r2 c2 l) s
    (λ r s', (mu s' < mu s)%nat /\ (snd r <> None -> ptok s' <> TK_eof)).
Proof.
  intros Hs. unfold binop_body. repeat ag_step.
  eapply ag_mono; [apply (binop_loop_agrees (S k)); try lia; apply token2binop_not_eof|].
  cbv beta. intros r s4 [W T]. repeat ag_step. split; [lia|]. intros Hn. specialize (T Hn). congruence.
Qed.

Lemma expr_next_takes : takes k (expr_next r1) (expr_next r2).
Proof. unfold expr_next. ag_tac. Qed.
Lemma expr_cond_takes : takes (S k) (expr_cond r1) (expr_cond r2).
Proof. unfold expr_cond. ag_tac. Qed.
#[local] Hint Resolve expr_next_takes expr_cond_takes : takes.

(** *** Statements *)

Lemma parse_rhs_takes v x : takes (S k) (parse_rhs n1 r1 v x) (parse_rhs n2 r2 v x).
Proof. unfold parse_rhs. ag_tac. Qed.
#[local] Hint Resolve parse_rhs_takes : takes.
Lemma parse_assignment_takes m : (m <= S k)%nat -> forall f1 f2 v p x, (m <= f1)%nat -> (m <= f2)%nat ->
  takes m (parse_assignment ml n1 r1 f1 v p x) (parse_assignment ml n2 r2 f2 v p x).
Proof.
  induction m as [|m IH]; intros Hm f1 f2 v p x H1 H2 s Hs; [lia|].
  destruct f1, f2; try lia. cbn [parse_assignment]. repeat ag_step.
  all: eapply ag_takes; [apply IH; lia|lia|]; intros; repeat ag_step.
Qed.
Lemma parse_assignment_all v p x :
  takes (S k) (parse_assignment ml n1 r1 n1 v p x) (parse_assignment ml n2 r2 n2 v p x).
Proof. apply parse_assignment_takes; lia. Qed.
#[local] Hint Resolve parse_assignment_all : takes.
Lemma parse_call_assign_takes : takes (S k) (parse_call_assign ml n1 r1) (parse_call_assign ml n2 r2).
Proof. unfold parse_call_assign. ag_tac. Qed.
Lemma local_function_takes : takes (S k) (local_function ml n1 c1) (local_function ml n2 c2).
Proof. unfold local_function. ag_tac. Qed.
#[local] Hint Resolve parse_call_assign_takes local_function_takes : takes.
Lemma locals_loop_takes m : forall f1 f2 x, (m <= f1)%nat -> (m <= f2)%nat ->
  takes m (locals_loop f1 x) (locals_loop f2 x).
Proof.
  induction m as [|m IH]; intros f1 f2 x H1 H2 s Hs; [lia|].
  destruct f1, f2; try lia. cbn [locals_loop]. repeat ag_step.
  eapply ag_takes; [apply IH; lia|lia|]; intros; repeat ag_step.
Qed.
Lemma locals_all_takes x : takes (S k) (locals_loop n1 x) (locals_loop n2 x).
Proof. by apply locals_loop_takes. Qed.
#[local] Hint Resolve locals_all_takes : takes.
Lemma parse_local_takes : takes (S k) (parse_local ml n1 r1 c1) (parse_local ml n2 r2 c2).
Proof. unfold parse_local. ag_tac. Qed.
Lemma parse_func_takes : takes (S k) (parse_func ml n1 c1) (parse_func ml n2 c2).
Proof. unfold parse_func. ag_tac. Qed.
#[local] Hint Resolve parse_local_takes parse_func_takes : takes.

(** With the token in front known. *)
Lemma parse_return_takes s : (mu s < S k)%nat -> ptok s <> TK_eof ->
  agree (parse_return n1 r1) (parse_return n2 r2) s (λ _ s', (mu s' < mu s)%nat).
Proof. intros Hs Ht. unfold parse_return. repeat ag_step. Qed.

Lemma trailing_keeps m L1 L2 : (forall b, (b <= m)%nat -> takes b L1 L2) ->
  forall f1 f2, (m <= f1)%nat -> (m <= f2)%nat -> keeps m (trailing_loop L1 f1) (trailing_loop L2 f2).
Proof.
  induction m as [|m IH]; intros HL f1 f2 H1 H2 s Hs; [lia|]. destruct f1 as [|f1], f2 as [|f2]; try lia.
  assert (HS := HL (S m) (le_n _)). cbn [trailing_loop]. repeat ag_step.
  all: eapply ag_keeps; [apply IH; [intros; apply HL|..]; lia|lia|]; intros; lia.
Qed.
Lemma parse_label_takes m : (m <= S k)%nat -> forall f1 f2, (m <= f1)%nat -> (m <= f2)%nat ->
  takes m (parse_label n1 f1) (parse_label n2 f2).
Proof.
  induction m as [|m IH]; intros Hm f1 f2 H1 H2 s Hs; [lia|].
  destruct f1, f2; try lia. cbn [parse_label]. repeat ag_step.
  all: apply (ag_keeps m); [apply trailing_keeps; [|lia..]|lia|intros; repeat ag_step].
  all: intros b Hb s4 Hs4; apply IH; lia.
Qed.
Lemma parse_label_all : takes (S k) (parse_label n1 n1) (parse_label n2 n2).
Proof. apply parse_label_takes; lia. Qed.
#[local] Hint Resolve parse_label_all : takes.

Lemma parse_block_keeps : keeps k (parse_block c1) (parse_block c2).
Proof. unfold parse_block. ag_tac. Qed.
#[local] Hint Resolve parse_block_keeps : keeps.
Lemma parse_while_takes : takes (S k) (parse_while r1 c1) (parse_while r2 c2).
Proof. unfold parse_while. ag_tac. Qed.
Lemma parse_repeat_takes line s : (mu s < S k)%nat -> ptok s <> TK_eof ->
  agree (parse_repeat r1 c1 line) (parse_repeat r2 c2 line) s (λ _ s', (mu s' < mu s)%nat).
Proof. intros Hs Ht. unfold parse_repeat. repeat ag_step. Qed.
Lemma parse_for_num_takes x line : takes (S k) (parse_for_num r1 c1 x line) (parse_for_num r2 c2 x line).
Proof. unfold parse_for_num. ag_tac. Qed.
Lemma iter_vars_keeps m : forall f1 f2 x, (m <= f1)%nat -> (m <= f2)%nat ->
  keeps m (iter_vars f1 x) (iter_vars f2 x).
Proof.
  induction m as [|m IH]; intros f1 f2 x H1 H2 s Hs; [lia|].
  destruct f1, f2; try lia. cbn [iter_vars]. repeat ag_step.
  eapply ag_keeps; [apply IH; lia|lia|]; intros; repeat ag_step.
Qed.
Lemma iter_all_keeps x : keeps (S k) (iter_vars n1 x) (iter_vars n2 x).
Proof. by apply iter_vars_keeps. Qed.
#[local] Hint Resolve iter_all_keeps : keeps.
#[local] Hint Resolve parse_while_takes parse_for_num_takes : takes.
Lemma parse_for_iter_takes x : takes (S k) (parse_for_iter n1 r1 c1 x) (parse_for_iter n2 r2 c2 x).
Proof. unfold parse_for_iter. ag_tac. Qed.
#[local] Hint Resolve parse_for_iter_takes : takes.
Lemma parse_for_takes line : takes (S k) (parse_for n1 r1 c1 line) (parse_for n2 r2 c2 line).
Proof. unfold parse_for. ag_tac. Qed.
Lemma parse_then_takes : takes (S k) (parse_then r1 c1) (parse_then r2 c2).
Proof. unfold parse_then. ag_tac. Qed.
#[local] Hint Resolve parse_for_takes parse_then_takes : takes.
Lemma elseif_loop_keeps m : (m <= S k)%nat -> forall f1 f2 e l, (m <= f1)%nat -> (m <= f2)%nat ->
  keeps m (elseif_loop r1 c1 f1 e l) (elseif_loop r2 c2 f2 e l).
Proof.
  induction m as [|m IH]; intros Hm f1 f2 e l H1 H2 s Hs; [lia|].
  destruct f1, f2; try lia. cbn [elseif_loop]. repeat ag_step.
  eapply ag_keeps; [apply IH; lia|lia|]; intros; repeat ag_step.
Qed.
Lemma elseif_all_keeps e l : keeps (S k) (elseif_loop r1 c1 n1 e l) (elseif_loop r2 c2 n2 e l).
Proof. apply elseif_loop_keeps; lia. Qed.
#[local] Hint Resolve elseif_all_keeps : keeps.
Lemma parse_if_takes : takes (S k) (parse_if n1 r1 c1) (parse_if n2 r2 c2).
Proof. unfold parse_if. ag_tac. Qed.
Lemma call_with_body_takes v line : takes (S k) (call_with_body ml c1 v line) (call_with_body ml c2 v line).
Proof. unfold call_with_body. ag_tac. Qed.
#[local] Hint Resolve parse_if_takes call_with_body_takes : takes.
Lemma parse_trace_takes s : (mu s < S k)%nat -> ptok s <> TK_eof ->
  agree (parse_trace ml ev c1) (parse_trace ml ev c2) s (λ _ s', (mu s' < mu s)%nat).
Proof.
  intros Hs Ht. unfold parse_trace. do 10 ag_step. apply ag_bind.
  match goal with |- agree _ _ ?s0 _ => assert (Hs0 : ptok s0 <> TK_eof) by congruence end.
  destruct (ptok _ =? TK_trace).
  - apply ag_until; [done|]. intros s5 Hs5. repeat ag_step.
  - repeat ag_step.
Qed.
Lemma parse_timer_takes s : (mu s < S k)%nat -> ptok s <> TK_eof ->
  agree (parse_timer ml c1) (parse_timer ml c2) s (λ _ s', (mu s' < mu s)%nat).
Proof.
  intros Hs Ht. unfold parse_timer. apply ag_bind, ag_gls. cbv zeta. apply ag_skip_until; [done|].
  intros s1 Hs1. repeat ag_step.
Qed.
Lemma parse_stmt_takes s : (mu s < S k)%nat -> ptok s <> TK_eof ->
  agree (parse_stmt ml ev n1 r1 c1) (parse_stmt ml ev n2 r2 c2) s (λ _ s', (mu s' < mu s)%nat).
Proof.
  intros Hs Ht. unfold parse_stmt. do 4 ag_step.
  match goal with |- agree _ _ ?s0 _ => assert (Hs0 : ptok s0 <> TK_eof) by congruence end.
  repeat ag_step.
  all: eapply ag_mono; [first [apply parse_return_takes|apply parse_repeat_takes|apply parse_trace_takes
                              |apply parse_timer_takes]; [lia|done]|]; cbv beta; intros; repeat ag_step.
Qed.
Lemma isend_eof s : parse_isend (ptok s) = false -> ptok s <> TK_eof.
Proof. by intros H E; rewrite E in H. Qed.
Lemma stmt_loop_keeps m : (m <= S k)%nat -> forall f1 f2, (m <= f1)%nat -> (m <= f2)%nat ->
  keeps m (stmt_loop ml ev n1 r1 c1 f1) (stmt_loop ml ev n2 r2 c2 f2).
Proof.
  induction m as [|m IH]; intros Hm f1 f2 H1 H2 s Hs; [lia|].
  destruct f1, f2; try lia. cbn [stmt_loop]. do 2 ag_step.
  destruct (parse_isend (ptok s)) eqn:E; [by apply ag_ret|]. apply isend_eof in E.
  apply ag_bind. eapply ag_mono; [by apply parse_stmt_takes; [lia|]|]. cbv beta. intros last s1 W1.
  repeat ag_step; (eapply ag_keeps; [apply IH; lia|lia|]); intros; lia.
Qed.
Lemma chunk_body_keeps : keeps (S k) (chunk_body ml ev n1 r1 c1) (chunk_body ml ev n2 r2 c2).
Proof.
  intros s Hs. unfold chunk_body. do 3 ag_step. apply (ag_keeps (S k)); [apply stmt_loop_keeps; lia|lia|].
  intros. repeat ag_step.
Qed.
End Descent.

(** ** The knot *)

Lemma descent_agrees ml ev k : forall f1 f2, (k <= f1)%nat -> (k <= f2)%nat ->
  (forall l s, (mu s < k)%nat -> agree (expr_binop ml ev f1 l) (expr_binop ml ev f2 l) s
     (λ r s', (mu s' < mu s)%nat /\ (snd r <> None -> ptok s' <> TK_eof))) /\
  keeps k (parse_chunk ml ev f1) (parse_chunk ml ev f2).
Proof.
  induction k as [|k IH]; intros f1 f2 H1 H2; [split; [intros l s ?; lia|intros s ?; lia]|].
  destruct f1 as [|f1], f2 as [|f2]; try lia. destruct (IH f1 f2) as [Hr Hc]; [lia..|]. split.
  - intros l s Hs. cbn [expr_binop]. by eapply binop_body_agrees.
  - cbn [parse_chunk]. by apply chunk_body_keeps.
Qed.

Lemma kp_parse_agrees ml ev f1 f2 name s : (mu s < f1)%nat -> (mu s < f2)%nat ->
  agree (kp_parse ml ev f1 name) (kp_parse ml ev f2 name) s (λ _ _, True).
Proof.
  intros H1 H2. unfold kp_parse.
  assert (Hs : calm (λ s, '(a, t) ← Util.kp_str_new (l_strs (p_ls s)) name;
                          Some (inr (a, pset_ls s (set_strs (p_ls s) t (l_kt (p_ls s))))))).
  { intros s0. unfold cwp. by destruct (Util.kp_str_new _ _) as [[a t]|]. }
  apply ag_bind. eapply ag_calm; [exact Hs|]. clear Hs. intros a s1 M1 T1. do 2 ag_step. apply ag_bind.
  apply ag_refl, cwp_put. set (s2 := pset_level _ _). assert (M2 : mu s2 = mu s1) by done. clearbody s2.
  do 9 ag_step. apply (ag_keeps (S (mu s))); [apply descent_agrees; lia|lia|]. intros _ s8 _. by repeat ag_step.
Qed.

(** C3.  The recursive descent of the compiler ends on every source: after set-up, the
    fuel of its recursions and loops, three more steps than the source has bytes, is
    never used up, whatever was in the uninitialised token field, and more fuel
    changes nothing: every level of the recursion and every round of a loop of the
    parser takes a token.  What is left is a prototype, an error message, undefined
    behaviour of the code, or a walk along a jump list that visits an instruction
    twice ([PLoop]): walks along jump lists are not covered here; [JumpThm] shows that
    they end on lists that are built as the generator builds them. *)
Theorem descent_terminates ml ev tok0 t src name l f :
  kp_lex_setup src (ls_on_stack tok0 t) = Some (inr (tt, l)) -> (parse_fuel src <= f)%nat ->
  kp_parse ml ev f name (parser_start l) <> Some (inl PFuel) /\
  kp_parse ml ev f name (parser_start l) = kp_parse ml ev (parse_fuel src) name (parser_start l).
Proof.
  intros Hl Hf. destruct (setup_ahead _ _ _ _ Hl) as [W L].
  assert (Hm : (mu (parser_start l) < parse_fuel src)%nat).
  { unfold mu, ahead, parse_fuel. cbn [p_ls parser_start]. rewrite L. change (b2n (negb (TK_eof =? TK_eof))) with 0%nat.
    destruct (l_tok l =? TK_eof); cbn [b2n negb]; lia. }
  destruct (kp_parse_agrees ml ev f (parse_fuel src) name (parser_start l)) as [E C]; [lia|lia|].
  split; [|done]. intros F. unfold cwp in C. by rewrite F in C.
Qed.

(** An assignment, as the bytes of its source. *)
Definition demo_source : bytes := [120; 32; 61; 32; 49; 0].
Definition demo_lex : lexstate := ls_on_stack 0 Util.kp_str_resize.
Definition set_up (r : option (lexerr + unit * lexstate)) : bool := match r with Some (inr _) => true | _ => false end.

Lemma descent_terminates_witness : exists l, kp_lex_setup demo_source demo_lex = Some (inr (tt, l)) /\
  kp_parse Z.of_nat (λ _, None) 100 [] (parser_start l) <> Some (inl PFuel).
Proof.
  assert (Hok : set_up (kp_lex_setup demo_source demo_lex) = true) by (vm_compute; reflexivity).
  destruct (kp_lex_setup demo_source demo_lex) as [[e|[[] l]]|] eqn:E; [discriminate Hok| |discriminate Hok].
  exists l. split; [exact eq_refl|].
  apply (descent_terminates Z.of_nat (λ _, None) 0 Util.kp_str_resize demo_source [] l 100 E).
  unfold parse_fuel. cbn [length demo_source]. lia.
Defined.
