(* ===== verification/GenConst.v ===== *)
(** * GenConst: constants of a function

    The emitters of the code generator as predicate transformers, and its
    constant slots: what an instruction's constant operand denotes. *)

From S2P Require Import Prelude Types Bytecode BcWrite Util UtilThm Lex Gen Parse.
#[local] Open Scope word_scope.
#[local] Open Scope gen_scope.

(** ** Predicate transformers

    [m] is defined from [s]; it ends with an error message, or with a result in
    [Φ]. *)

Definition gwp {A} (m : M A) (s : pstate) (Φ : A -> pstate -> Prop) : Prop :=
  match m s with
  | Some (inr (x, s')) => Φ x s'
  | Some (inl (PErr _)) => True
  | _ => False
  end.

(** Whether there is a result. *)
Definition gok {A} (r : option (perr + A * pstate)) : bool := match r with Some (inr _) => true | _ => false end.

Lemma gwp_ok {A} (m : M A) s Φ : gwp m s Φ -> gok (m s) = true -> exists x s', m s = Some (inr (x, s')) /\ Φ x s'.
Proof. unfold gwp, gok. destruct (m s) as [[[e| |]|[x s']]|]; try done. intros H _. by exists x, s'. Qed.

Section Rules.
Context {A B : Type}.

Lemma gwp_bind (m : M A) (f : A -> M B) s Φ : gwp m s (λ x s', gwp (f x) s' Φ) -> gwp (gbind m f) s Φ.
Proof. unfold gwp, gbind. by destruct (m s) as [[[]|[]]|]. Qed.
Lemma gwp_ret (x : A) s (Φ : A -> pstate -> Prop) : Φ x s -> gwp (gret x) s Φ.
Proof. done. Qed.
Lemma gwp_opt (o : option A) x s (Φ : A -> pstate -> Prop) : o = Some x -> Φ x s -> gwp (gopt o) s Φ.
Proof. by intros -> H. Qed.
Lemma gwp_mono (m : M A) s (Φ Ψ : A -> pstate -> Prop) :
  gwp m s Φ -> (forall x s', Φ x s' -> Ψ x s') -> gwp m s Ψ.
Proof. unfold gwp. destruct (m s) as [[[]|[]]|]; eauto. Qed.
Lemma gwp_run (m : M A) s Φ x s' : gwp m s Φ -> m s = Some (inr (x, s')) -> Φ x s'.
Proof. unfold gwp. by intros H E; rewrite E in H. Qed.
End Rules.

Lemma gwp_get s (Φ : pstate -> pstate -> Prop) : Φ s s -> gwp gget s Φ.
Proof. done. Qed.
Lemma gwp_put s1 s (Φ : unit -> pstate -> Prop) : Φ tt s1 -> gwp (gput s1) s Φ.
Proof. done. Qed.

(** The current function and the table of its constants. *)
Definition cur_fs (s : pstate) : option FuncState := head (p_fs s).
Definition kt_of (s : pstate) : uttab := l_kt (p_ls s).
(** [s] with another current function. *)
Definition with_fs (s : pstate) (f : FuncState) : pstate := pset_fs s (f :: tail (p_fs s)).

Lemma cur_with_fs s f : cur_fs (with_fs s f) = Some f.
Proof. done. Qed.
Lemma with_fs_twice s f g : with_fs (with_fs s f) g = with_fs s g.
Proof. done. Qed.
Lemma with_fs_id s f : cur_fs s = Some f -> with_fs s f = s.
Proof. unfold cur_fs, with_fs, pset_fs. destruct s as [? ? ? ? ? ? [|] ? ?]; cbn; [done|]. by intros [= ->]. Qed.

Lemma gwp_getfs s f (Φ : FuncState -> pstate -> Prop) : cur_fs s = Some f -> Φ f s -> gwp getfs s Φ.
Proof. unfold gwp, getfs, gbind, gget, gopt, cur_fs. by intros -> H. Qed.
Lemma gwp_putfs s f g (Φ : unit -> pstate -> Prop) : cur_fs s = Some f -> Φ tt (with_fs s g) -> gwp (putfs g) s Φ.
Proof. unfold gwp, putfs, cur_fs, with_fs. by destruct (p_fs s). Qed.
Lemma gwp_modfs s f g (Φ : unit -> pstate -> Prop) : cur_fs s = Some f -> Φ tt (with_fs s (g f)) -> gwp (modfs g) s Φ.
Proof. intros E H. apply gwp_bind, (gwp_getfs s f); [done|]. by apply (gwp_putfs s f). Qed.

(** ** Slots *)

(** The node for the constant [v] has slot [c]. *)
Definition slot (kt : uttab) (c : Z) (v : ktap_val) : Prop :=
  exists i nd, u_node kt !! i = Some nd /\ g_key nd = v /\ is_number (g_val nd) = true /\ nvalue (g_val nd) = c.

(** Constants of a kind, numbered from 0 to [n - 1]. *)
Record slots (P : ktap_val -> bool) (kt : uttab) (n : Z) : Prop := {
  sl_range : forall c v, slot kt c v -> P v = true -> 0 <= c < n;
  sl_inj : forall c v v', slot kt c v -> slot kt c v' -> P v = true -> P v' = true -> v = v';
  sl_full : forall c, 0 <= c < n -> exists v, slot kt c v /\ P v = true
}.

(** Numbers and strings are the constants with slots. *)
Record kinv (kt : uttab) (nkn nkgc : Z) : Prop := {
  ki_ok : uttab_ok kt;
  ki_keys : forall c v, slot kt c v -> const_key v;
  ki_uniq : forall i j a b, u_node kt !! i = Some a -> u_node kt !! j = Some b ->
    const_key (g_key a) -> g_key a = g_key b -> i = j;
  ki_num : slots is_number kt nkn;
  ki_str : slots is_string kt nkgc
}.

Lemma kinv_new : kinv Util.kp_tab_new 0 0.
Proof.
  assert (Hno : forall i nd, u_node Util.kp_tab_new !! i = Some nd -> g_key nd = kp_niltv /\ is_number (g_val nd) = false).
  { intros i nd H. cbn [u_node Util.kp_tab_new] in H. by apply lookup_replicate in H as [-> _]. }
  assert (Hs : forall c v, ~ slot Util.kp_tab_new c v).
  { intros c v (i & nd & Hi & _ & Hn & _). destruct (Hno i nd Hi). congruence. }
  split; [apply uttab_new_ok| | |split|split]; try (intros; exfalso; by eapply Hs); try (intros; lia).
  intros i j a b Ha _ Hk _. destruct (Hno i a Ha) as [E _]. rewrite E in Hk. by destruct Hk.
Qed.

Lemma number_not_string v : is_number v = true -> is_string v = false.
Proof. unfold is_number, is_string, itype. intros H. bool_to_Prop. by rewrite H. Qed.
Lemma string_not_number v : is_string v = true -> is_number v = false.
Proof. unfold is_number, is_string, itype. intros H. bool_to_Prop. by rewrite H. Qed.

(** Giving a slot to the constant of a node that has none. *)
Lemma slot_put kt j o key n ft c v : u_node kt !! j = Some o -> is_number (g_val o) = false -> in_s 64 n ->
  slot (mkuttab (<[j := mkutnode (set_number n) key]> (u_node kt)) ft) c v <-> slot kt c v \/ (c = n /\ v = key).
Proof.
  intros Hj Ho Hn. assert (Hlt : (j < length (u_node kt))%nat) by by eapply lookup_lt_Some. split.
  - intros (i & nd & Hi & Hk & Hv & Hc). cbn [u_node] in Hi.
    apply list_lookup_insert_Some in Hi as [(<- & <- & _)|[Hne Hi]]; [right|left; by exists i, nd].
    cbn in Hk, Hc. split; [|done]. unfold nvalue, set_number in Hc. cbn in Hc. by rewrite swrap_id in Hc.
  - intros [(i & nd & Hi & Hk & Hv & Hc)|[-> ->]].
    + exists i, nd. split_and!; try done. cbn [u_node]. rewrite list_lookup_insert_ne; [done|]. intros ->. congruence.
    + exists j, (mkutnode (set_number n) key). split_and!; try done; [by apply list_lookup_insert_eq|].
      unfold nvalue, set_number. cbn. by rewrite swrap_id.
Qed.

Section Put.
Context (kt kt' : uttab) (key : ktap_val) (n : Z).
Hypothesis Hput : forall c v, slot kt' c v <-> slot kt c v \/ (c = n /\ v = key).

Lemma slots_same P m : P key = false -> slots P kt m -> slots P kt' m.
Proof.
  intros HP [H1 H2 H3]. split.
  - intros c v Hs Hv. apply Hput in Hs as [Hs|[-> ->]]; [by eapply H1|congruence].
  - intros c v v' Hs Hs' Hv Hv'. apply Hput in Hs as [Hs|[-> ->]]; [|congruence].
    apply Hput in Hs' as [Hs'|[-> ->]]; [|congruence]. by eapply H2.
  - intros c Hc. destruct (H3 c Hc) as (v & Hs & Hv). exists v. split; [|done]. apply Hput. by left.
Qed.
Lemma slots_new P : P key = true -> 0 <= n -> (forall c, ~ slot kt c key) -> slots P kt n -> slots P kt' (n + 1).
Proof.
  intros HP Hn Hnew [H1 H2 H3]. split.
  - intros c v Hs Hv. apply Hput in Hs as [Hs|[-> ->]]; [|lia]. specialize (H1 c v Hs Hv). lia.
  - intros c v v' Hs Hs' Hv Hv'. apply Hput in Hs as [Hs|[E ->]]; apply Hput in Hs' as [Hs'|[E' ->]].
    + by eapply H2.
    + specialize (H1 c v Hs Hv). lia.
    + specialize (H1 c v' Hs' Hv'). lia.
    + done.
  - intros c Hc. destruct (decide (c = n)) as [->|Hne]; [exists key; split; [apply Hput; by right|done]|].
    destruct (H3 c ltac:(lia)) as (v & Hs & Hv). exists v. split; [apply Hput; by left|done].
Qed.
End Put.

(** ** The slot of a constant *)

(** Counters after the constant got slot [n]. *)
Definition bump_kn (key : ktap_val) (nkn : Z) : Z := if is_number key then nkn + 1 else nkn.
Definition bump_kgc (key : ktap_val) (nkgc : Z) : Z := if is_number key then nkgc else nkgc + 1.

Lemma kinv_put kt j o ft key nkn nkgc :
  let n := if is_number key then nkn else nkgc in
  kinv kt nkn nkgc -> const_key key -> u_node kt !! j = Some o -> is_number (g_val o) = false -> 0 <= n < 2 ^ 32 ->
  (forall i nd, i <> j -> u_node kt !! i = Some nd -> g_key nd <> key) ->
  uttab_ok (mkuttab (<[j := mkutnode (set_number n) key]> (u_node kt)) ft) ->
  kinv (mkuttab (<[j := mkutnode (set_number n) key]> (u_node kt)) ft) (bump_kn key nkn) (bump_kgc key nkgc).
Proof.
  intros n I Hk Hj Ho Hn Hother Hok. assert (Hin : in_s 64 n) by (unfold in_s; lia).
  pose proof (λ c v, slot_put kt j o key n ft c v Hj Ho Hin) as Hput.
  assert (Hnone : forall c, ~ slot kt c key).
  { intros c (i & nd & Hi & Hkey & Hv & _). destruct (decide (i = j)) as [->|Hne]; [congruence|]. by apply (Hother i nd). }
  split; [done| | | |].
  - intros c v Hs. apply Hput in Hs as [Hs|[_ ->]]; [by eapply ki_keys|done].
  - assert (H1 : forall i a, i <> j -> <[j := mkutnode (set_number n) key]> (u_node kt) !! i = Some a -> g_key a <> key).
    { intros i a Hne Ha. rewrite list_lookup_insert_ne in Ha by done. by eapply Hother. }
    intros i i' a b Ha Hb Hka E. cbn [u_node] in Ha, Hb.
    destruct (decide (i = j)) as [->|Hi], (decide (i' = j)) as [->|Hi']; [done| | |].
    + apply list_lookup_insert_Some in Ha as [(_ & <- & _)|[? _]]; [|done]. by destruct (H1 i' b).
    + apply list_lookup_insert_Some in Hb as [(_ & <- & _)|[? _]]; [|done]. by destruct (H1 i a).
    + rewrite list_lookup_insert_ne in Ha, Hb by done. by eapply ki_uniq.
  - unfold bump_kn. destruct (is_number key) eqn:E; subst n.
    + eapply slots_new; try done; [lia|apply I].
    + eapply slots_same; try done. apply I.
  - unfold bump_kgc. destruct (is_number key) eqn:E; subst n.
    + eapply slots_same; try done; [by apply number_not_string|apply I].
    + destruct Hk as [Hk|Hk]; [congruence|]. eapply slots_new; try done; [lia|apply I].
Qed.

Definition with_kt (s : pstate) (kt : uttab) : pstate := pset_ls s (set_strs (p_ls s) (l_strs (p_ls s)) kt).

(** A constant that is there, or room for one more node. *)
Definition has_room (kt : uttab) (key : ktap_val) : Prop := is_Some (get_node kt key) \/ (0 < u_freetop kt)%nat.

(** The table after a constant has got its slot [c]. *)
Record added (kt : uttab) (key : ktap_val) (c : Z) (kt' : uttab) : Prop := {
  ad_slot : slot kt' c key;
  ad_keep : forall c v, slot kt c v -> slot kt' c v;
  ad_free : (u_freetop kt <= S (u_freetop kt'))%nat
}.

Lemma const_slot_spec key s nkn nkgc :
  let n := if is_number key then nkn else nkgc in
  kinv (kt_of s) nkn nkgc -> const_key key -> has_room (kt_of s) key -> 0 <= n < 2 ^ 32 ->
  gwp (const_slot key n) s (λ r s', exists kt', s' = with_kt s kt' /\ added (kt_of s) key (fst r) kt' /\
    if snd r then kinv kt' (bump_kn key nkn) (bump_kgc key nkgc) else kt' = kt_of s).
Proof.
  intros n I Hk Hroom Hn. unfold gwp, const_slot. change (l_kt (p_ls s)) with (kt_of s).
  set (kt := kt_of s) in *. unfold Util.kp_tab_set. destruct (get_node kt key) as [i|] eqn:Hg.
  - destruct (get_node_Some kt key i Hk Hg) as (nd & Hi & Hkey). cbn [mbind option_bind]. rewrite Hi. cbn.
    destruct (is_number (g_val nd)) eqn:Hv; cbn.
    + assert (Hs : slot kt (nvalue (g_val nd)) key) by by exists i, nd.
      assert (Hr : 0 <= nvalue (g_val nd) < n).
      { subst n. destruct (is_number key) eqn:E; [by eapply (sl_range _ _ _ (ki_num _ _ _ I))|].
        destruct Hk as [Hk|Hk]; [congruence|]. by eapply (sl_range _ _ _ (ki_str _ _ _ I)). }
      exists kt. split_and!; [done| |done]. split; [|done|lia]. cbn. by rewrite wrap_id by (unfold in_u; lia).
    + unfold put_node. rewrite Hi. cbn. eexists. split; [done|]. rewrite Hkey.
      pose proof (λ c v, slot_put kt i nd key n (u_freetop kt) c v Hi Hv ltac:(unfold in_s; lia)) as Hput. split.
      * split; [apply Hput; by right|intros; apply Hput; by left|cbn; lia].
      * eapply (kinv_put kt i nd); try done.
        -- intros i' nd' Hne Hi' E. apply Hne. eapply (ki_uniq _ _ _ I); [done..|by rewrite E|congruence].
        -- destruct (ki_ok _ _ _ I) as [Htop Hfree]. split; cbn [u_node u_freetop]; [by rewrite length_insert|].
           intros i' nd' Hlt Hi'. apply list_lookup_insert_Some in Hi' as [(<- & <- & _)|[_ Hi']]; [|by apply (Hfree i')].
           specialize (Hfree i nd Hlt Hi). by rewrite Hkey in Hfree.
  - destruct Hroom as [[x Hx]|Hroom]; [congruence|]. rewrite take_node_room by done.
    destruct (ki_ok _ _ _ I) as [Htop Hfree]. set (j := pred (u_freetop kt)).
    assert (Hlt : (j < length (u_node kt))%nat) by (subst j; lia).
    destruct (lookup_lt_is_Some_2 _ _ Hlt) as [o Ho]. unfold put_node. cbn [u_node u_freetop]. fold j. rewrite Ho.
    cbn [mbind option_bind u_node]. rewrite list_lookup_insert_eq by done.
    cbn [mbind option_bind u_node u_freetop g_val g_key set_nil setitype is_number itype type].
    change (KTAP_TNIL =? KTAP_TNUM) with false.
    cbn [mbind option_bind u_node u_freetop g_val g_key fst snd]. rewrite list_insert_insert_eq.
    assert (Hnil : is_nil (g_key o) = true) by (apply (Hfree j o); [subst j; lia|done]).
    assert (Hv : is_number (g_val o) = false).
    { apply not_true_is_false. intros Hv. assert (Hs : slot kt (nvalue (g_val o)) (g_key o)) by by exists j, o.
      apply (ki_keys _ _ _ I) in Hs. by rewrite const_key_not_nil in Hnil. }
    pose proof (λ c v, slot_put kt j o key n j c v Ho Hv ltac:(unfold in_s; lia)) as Hput.
    eexists. split; [done|]. split.
    + split; [apply Hput; by right|intros; apply Hput; by left|cbn; subst j; lia].
    + eapply (kinv_put kt j o); try done.
      * intros i nd _ Hi. by eapply get_node_None, list_elem_of_lookup_2.
      * split; cbn [u_node u_freetop]; [rewrite length_insert; subst j; lia|].
        intros i nd Hi Hnd. rewrite list_lookup_insert_ne in Hnd by lia. apply (Hfree i); [subst j; lia|done].
Qed.

(** The current function with its constants. *)
Definition kstate (s : pstate) (f : FuncState) : Prop :=
  cur_fs s = Some f /\ kinv (kt_of s) (fs_nkn f) (fs_nkgc f).

(** The operation that gives a number or a string its slot. *)
Definition const_of (v : ktap_val) : M Z :=
  if is_number v then const_num (eset_nval (expr_init VKNUM 0) v) else const_gc (val v) KTAP_TSTR.

Lemma string_eta v : const_key v -> is_number v = false -> mkval (val v) KTAP_TSTR = v.
Proof. intros [H|H] E; [congruence|]. unfold is_string, itype in H. bool_to_Prop. destruct v. cbn in *. by subst. Qed.

(** A function that may have one more constant. *)
Definition with_counts (f : FuncState) (nkn nkgc : Z) : FuncState := fset_nkgc (fset_nkn f nkn) nkgc.

Lemma with_counts_id f : with_counts f (fs_nkn f) (fs_nkgc f) = f.
Proof. by destruct f. Qed.

Lemma const_of_spec v s f : kstate s f -> const_key v -> has_room (kt_of s) v ->
  0 <= fs_nkn f < 2 ^ 31 -> 0 <= fs_nkgc f < 2 ^ 31 ->
  gwp (const_of v) s (λ c s', exists nkn nkgc kt', let f' := with_counts f nkn nkgc in
    s' = with_fs (with_kt s kt') f' /\ kstate s' f' /\ added (kt_of s) v c kt' /\
    fs_nkn f <= nkn <= fs_nkn f + 1 /\ fs_nkgc f <= nkgc <= fs_nkgc f + 1).
Proof.
  intros [Hf I] Hk Hroom Hn Hg. assert (Hfs : forall kt, cur_fs (with_kt s kt) = Some f) by done.
  assert (H32 : forall n, 0 <= n < 2 ^ 31 -> u32 (n + 1) = n + 1) by (intros; apply wrap_id; unfold in_u; lia).
  pose proof (const_slot_spec v s (fs_nkn f) (fs_nkgc f) I Hk Hroom) as Hs. cbv zeta in Hs.
  unfold const_of, const_num, const_gc, bump_kn, bump_kgc in *. destruct (is_number v) eqn:Ev.
  all: apply gwp_bind, (gwp_getfs s f); [done|].
  1: change (e_nval (eset_nval (expr_init VKNUM 0) v)) with v.
  2: rewrite (string_eta v Hk Ev).
  all: apply gwp_bind; (eapply gwp_mono; [apply Hs; lia|]); cbv beta; intros [c new] s' (kt' & -> & Had & Hnew);
    cbn [fst snd] in *; apply gwp_bind.
  all: destruct new; [eapply gwp_modfs; [apply Hfs|]|apply gwp_ret]; apply gwp_ret; rewrite ?H32 by done.
  - exists (fs_nkn f + 1), (fs_nkgc f), kt'. split_and!; try lia; done.
  - exists (fs_nkn f), (fs_nkgc f), kt'. subst kt'. rewrite with_counts_id, with_fs_id by done. split_and!; try lia; done.
  - exists (fs_nkn f), (fs_nkgc f + 1), kt'. split_and!; try lia; done.
  - exists (fs_nkn f), (fs_nkgc f), kt'. subst kt'. rewrite with_counts_id, with_fs_id by done. split_and!; try lia; done.
Qed.

(** ** The constant arrays of the prototype *)

(** Writing the entries that [sel] selects. *)
Section Fill.
Context {A B : Type} (sel : A -> option (nat * B)).
Definition fill1 (arr : list (option B)) (x : A) : list (option B) :=
  match sel x with Some (c, b) => <[c := Some b]> arr | None => arr end.

Lemma fill_length l arr : length (fold_left fill1 l arr) = length arr.
Proof.
  revert arr. induction l as [|x l IH]; intros arr; cbn [fold_left]; [done|]. rewrite IH. unfold fill1.
  destruct (sel x) as [[c b]|]; [by rewrite length_insert|done].
Qed.
Lemma fill_spec l arr c : (c < length arr)%nat ->
  (exists x b, x ∈ l /\ sel x = Some (c, b) /\ fold_left fill1 l arr !! c = Some (Some b)) \/
  ((forall x b, x ∈ l -> sel x <> Some (c, b)) /\ fold_left fill1 l arr !! c = arr !! c).
Proof.
  revert arr. induction l as [|x l IH]; intros arr Hc; cbn [fold_left].
  - right. split; [|done]. intros x b H. by apply not_elem_of_nil in H.
  - assert (Hl : (c < length (fill1 arr x))%nat) by (change (fill1 arr x) with (fold_left fill1 [x] arr); by rewrite fill_length).
    destruct (IH (fill1 arr x) Hl) as [(y & b & Hy & Hs & E)|[Hno E]].
    + left. exists y, b. split_and!; try done. by right.
    + rewrite E. unfold fill1. destruct (sel x) as [[d b]|] eqn:Hx.
      * destruct (decide (d = c)) as [->|Hne].
        -- left. exists x, b. split_and!; [by left|done|by apply list_lookup_insert_eq].
        -- right. rewrite list_lookup_insert_ne by done. split; [|done]. intros y b' Hy.
           apply elem_of_cons in Hy as [->|Hy]; [congruence|by apply Hno].
      * right. split; [|done]. intros y b' Hy. apply elem_of_cons in Hy as [->|Hy]; [congruence|by apply Hno].
Qed.
End Fill.

Definition sel_kn (nd : utnode) : option (nat * ktap_val) :=
  if is_number (g_val nd) && is_number (g_key nd) then Some (Z.to_nat (nvalue (g_val nd)), g_key nd) else None.
Definition sel_kgc (len : nat) (nd : utnode) : option (nat * ugc) :=
  if is_number (g_val nd) && negb (is_number (g_key nd))
  then Some ((len - 1 - Z.to_nat (nvalue (g_val nd)))%nat, UStr (val (g_key nd))) else None.

Lemma fixup_k_loop_spec ml l kn kgc s Φ :
  (forall nd, nd ∈ l -> is_number (g_val nd) = true -> const_key (g_key nd) /\
    0 <= nvalue (g_val nd) < Z.of_nat (if is_number (g_key nd) then length kn else length kgc)) ->
  Φ (fold_left (fill1 sel_kn) l kn, fold_left (fill1 (sel_kgc (length kgc))) l kgc) s ->
  gwp (fixup_k_loop ml l kn kgc) s Φ.
Proof.
  revert kn kgc. induction l as [|nd l IH]; intros kn kgc Hl H; cbn [fixup_k_loop fold_left] in *; [done|].
  assert (Hl' : forall n', n' ∈ l -> is_number (g_val n') = true -> const_key (g_key n') /\
    0 <= nvalue (g_val n') < Z.of_nat (if is_number (g_key n') then length kn else length kgc)).
  { intros n' Hn'. apply Hl. by right. }
  unfold fill1 at 2, fill1 at 3, sel_kn at 2, sel_kgc at 2 in H.
  destruct (is_number (g_val nd)) eqn:Hv; cbn [andb] in H; [|by apply IH].
  destruct (Hl nd ltac:(by left) Hv) as [Hk Hr]. destruct (is_number (g_key nd)) eqn:Hkn; cbn [negb] in H.
  - rewrite (proj2 (andb_true_iff _ _)) by (split; [apply Z.leb_le|apply Z.ltb_lt]; lia).
    apply IH; [|done]. by rewrite length_insert.
  - apply gwp_bind. unfold const_obj. destruct Hk as [Hk|Hk]; [congruence|]. rewrite Hk. apply gwp_ret.
    rewrite (proj2 (andb_true_iff _ _)) by (split; [apply Z.leb_le|apply Z.ltb_lt]; lia).
    apply IH; rewrite length_insert; done.
Qed.

Lemma mapM_id_total {A} (l : list (option A)) : Forall is_Some l -> exists l', mapM id l = Some l' /\ l = Some <$> l'.
Proof.
  induction 1 as [|o l [x ->] _ (l' & E & ->)]; [by exists []|]. exists (x :: l'). split; [|done].
  cbn. change (id (Some x)) with (Some x). cbn. by rewrite E.
Qed.

(** The entry of the constant arrays that slot [c] of the constant [v] is. *)
Definition resolves (k : list ktap_val * list ugc) (v : ktap_val) (c : Z) : Prop :=
  if is_number v then fst k !! Z.to_nat c = Some v
  else snd k !! (length (snd k) - 1 - Z.to_nat c)%nat = Some (UStr (val v)).

(** An array that gets an entry for every slot of a kind is complete. *)
Lemma fill_full {B} (sel : utnode -> option (nat * B)) (l : list utnode) n :
  (forall c, (c < n)%nat -> exists x b, x ∈ l /\ sel x = Some (c, b)) ->
  exists arr, mapM id (fold_left (fill1 sel) l (replicate n None)) = Some arr /\ length arr = n /\
    forall c, (c < n)%nat -> exists x b, x ∈ l /\ sel x = Some (c, b) /\ arr !! c = Some b.
Proof.
  intros H. set (res := fold_left _ _ _).
  assert (Hlen : length res = n) by (subst res; by rewrite fill_length, length_replicate).
  assert (Hc : forall c, (c < n)%nat -> exists x b, x ∈ l /\ sel x = Some (c, b) /\ res !! c = Some (Some b)).
  { intros c Hc. destruct (fill_spec sel l (replicate n None) c) as [(x & b & ?)|[Hno _]]; [by rewrite length_replicate| |].
    - by exists x, b.
    - destruct (H c Hc) as (x & b & Hx & Hs). by destruct (Hno x b). }
  destruct (mapM_id_total res) as (arr & E & Er).
  { apply list.Forall_lookup. intros c o Ho. destruct (Hc c) as (x & b & _ & _ & Hb); [rewrite <- Hlen; by eapply lookup_lt_Some|].
    rewrite Hb in Ho. by injection Ho as <-. }
  exists arr. split_and!; [done|by rewrite <- Hlen, Er, length_fmap|]. intros c Hn.
  destruct (Hc c Hn) as (x & b & Hx & Hs & Hb). exists x, b. split_and!; try done.
  rewrite Er, list_lookup_fmap in Hb. destruct (arr !! c); [|done]. by injection Hb as ->.
Qed.

Lemma gwp_limit v l m s (Φ : unit -> pstate -> Prop) f : cur_fs s = Some f -> Φ tt s -> gwp (checklimitgt v l m) s Φ.
Proof.
  intros Hf H. unfold checklimitgt. destruct (v >? l); [|by apply gwp_ret]. unfold err_limit.
  apply gwp_bind, (gwp_getfs s f); [done|]. done.
Qed.

Lemma fs_fixup_k_spec ml s f : kstate s f -> 0 <= fs_nkn f -> 0 <= fs_nkgc f ->
  gwp (fs_fixup_k ml) s (λ k s', s' = s /\ forall c v, slot (kt_of s) c v -> resolves k v c).
Proof.
  intros [Hf I] Hn Hg. unfold fs_fixup_k. apply gwp_bind, (gwp_getfs s f); [done|].
  apply gwp_bind, (gwp_limit _ _ _ _ _ f); [done|]. apply gwp_bind, (gwp_limit _ _ _ _ _ f); [done|].
  apply gwp_bind, gwp_bind, gwp_get, gwp_ret, gwp_bind. change (l_kt (p_ls s)) with (kt_of s).
  set (nn := Z.to_nat (fs_nkn f)). set (ng := Z.to_nat (fs_nkgc f)).
  assert (Hslot : forall nd, nd ∈ u_node (kt_of s) -> is_number (g_val nd) = true ->
    slot (kt_of s) (nvalue (g_val nd)) (g_key nd)).
  { intros nd Hnd Hv. apply list_elem_of_lookup in Hnd as [i Hi]. by exists i, nd. }
  apply fixup_k_loop_spec; rewrite !length_replicate.
  { intros nd Hnd Hv. specialize (Hslot nd Hnd Hv). split; [by eapply ki_keys|].
    destruct (is_number (g_key nd)) eqn:E.
    - pose proof (sl_range _ _ _ (ki_num _ _ _ I) _ _ Hslot E). subst nn. lia.
    - destruct (ki_keys _ _ _ I _ _ Hslot) as [?|Es]; [congruence|].
      pose proof (sl_range _ _ _ (ki_str _ _ _ I) _ _ Hslot Es). subst ng. lia. }
  destruct (fill_full sel_kn (u_node (kt_of s)) nn) as (kn & Ekn & Lkn & Hkn).
  { intros c Hc. destruct (sl_full _ _ _ (ki_num _ _ _ I) (Z.of_nat c)) as (v & (i & nd & Hi & Hk & Hv & Ec) & HP);
      [subst nn; lia|]. exists nd, v. split; [by eapply list_elem_of_lookup_2|]. unfold sel_kn. subst v.
    rewrite Hv, HP, Ec. cbn. by rewrite Nat2Z.id. }
  destruct (fill_full (sel_kgc ng) (u_node (kt_of s)) ng) as (kgc & Ekgc & Lkgc & Hkgc).
  { intros c Hc. destruct (sl_full _ _ _ (ki_str _ _ _ I) (Z.of_nat (ng - 1 - c))) as (v & (i & nd & Hi & Hk & Hv & Ec) & HP);
      [subst ng; lia|]. exists nd, (UStr (val v)). split; [by eapply list_elem_of_lookup_2|]. unfold sel_kgc. subst v.
    rewrite Hv, (string_not_number _ HP), Ec. cbn. f_equal. f_equal. lia. }
  apply gwp_bind. eapply gwp_opt; [exact Ekn|]. apply gwp_bind. eapply gwp_opt; [exact Ekgc|]. apply gwp_ret.
  split; [done|]. intros c v Hs. unfold resolves. cbn [fst snd].
  assert (Hsame : forall P n nd d, slots P (kt_of s) n -> P v = true -> nd ∈ u_node (kt_of s) -> is_number (g_val nd) = true ->
    P (g_key nd) = true -> nvalue (g_val nd) = d -> c = d -> g_key nd = v).
  { intros P n nd d HS HP Hnd Hv HP' <- ->. by eapply (sl_inj _ _ _ HS); [apply Hslot|..]. }
  destruct (is_number v) eqn:E.
  - pose proof (sl_range _ _ _ (ki_num _ _ _ I) _ _ Hs E) as Hr. destruct (Hkn (Z.to_nat c)) as (nd & b & Hnd & Hsel & Hb); [subst nn; lia|].
    rewrite Hb. f_equal. unfold sel_kn in Hsel. destruct (_ && _) eqn:Ea; [|done]. injection Hsel as Ec <-.
    apply andb_true_iff in Ea as [Hv HP]. eapply (Hsame is_number); try done; [apply I|].
    pose proof (sl_range _ _ _ (ki_num _ _ _ I) _ _ (Hslot nd Hnd Hv) HP). lia.
  - destruct (ki_keys _ _ _ I _ _ Hs) as [?|Es]; [congruence|].
    pose proof (sl_range _ _ _ (ki_str _ _ _ I) _ _ Hs Es) as Hr. rewrite Lkgc.
    destruct (Hkgc (ng - 1 - Z.to_nat c)%nat) as (nd & b & Hnd & Hsel & Hb); [subst ng; lia|].
    rewrite Hb. f_equal. unfold sel_kgc in Hsel. destruct (_ && _) eqn:Ea; [|done]. injection Hsel as Ec <-. f_equal.
    apply andb_true_iff in Ea as [Hv HP]. apply negb_true_iff in HP.
    destruct (ki_keys _ _ _ I _ _ (Hslot nd Hnd Hv)) as [?|Es']; [congruence|].
    pose proof (sl_range _ _ _ (ki_str _ _ _ I) _ _ (Hslot nd Hnd Hv) Es'). f_equal.
    eapply (Hsame is_string); try done; [apply I|]. subst ng. lia.
Qed.

Lemma const_slot_unique kt nkn nkgc c c' v : kinv kt nkn nkgc -> slot kt c v -> slot kt c' v -> c = c'.
Proof.
  intros I Hs. pose proof (ki_keys _ _ _ I _ _ Hs) as Hk. revert Hs.
  intros (i & a & Ha & <- & _ & <-) (j & b & Hb & E & _ & <-).
  rewrite <- (ki_uniq _ _ _ I i j a b Ha Hb Hk (eq_sym E)) in Hb. congruence.
Qed.

(** Room and counters for [n] more constants. *)
Definition kroom (s : pstate) (f : FuncState) (n : nat) : Prop :=
  (n <= u_freetop (kt_of s))%nat /\ 0 <= fs_nkn f /\ fs_nkn f + Z.of_nat n < 2 ^ 31 /\
  0 <= fs_nkgc f /\ fs_nkgc f + Z.of_nat n < 2 ^ 31.

Lemma gmapM_const_spec vs : forall s f, kstate s f -> Forall const_key vs -> kroom s f (length vs) ->
  gwp (gmapM const_of vs) s (λ cs s', exists f', kstate s' f' /\ 0 <= fs_nkn f' /\ 0 <= fs_nkgc f' /\
    (forall c v, slot (kt_of s) c v -> slot (kt_of s') c v) /\ Forall2 (λ v c, slot (kt_of s') c v) vs cs).
Proof.
  induction vs as [|v vs IH]; intros s f I HF (Hr & Hn & Hn' & Hg & Hg'); cbn [gmapM length] in *.
  { apply gwp_ret. exists f. by split_and!. }
  apply list.Forall_cons in HF as [Hv HF]. apply gwp_bind. eapply gwp_mono.
  { apply (const_of_spec v s f); [done..|right; lia|lia|lia]. }
  cbv beta. intros c s1 (nkn & nkgc & kt1 & Es1 & I1 & Had & Rn & Rg). set (f1 := with_counts f nkn nkgc) in *.
  assert (Ekt : kt_of s1 = kt1) by (by subst s1). apply gwp_bind. eapply gwp_mono.
  { apply (IH s1 f1); [done..|]. destruct Had as [_ _ Hfr]. unfold kroom. rewrite Ekt. cbn. lia. }
  cbv beta. intros cs s2 (f2 & I2 & N2 & G2 & Hkeep & HF2). apply gwp_ret. exists f2. rewrite Ekt in Hkeep.
  split_and!; try done.
  - intros c' v' Hs. apply Hkeep, (ad_keep _ _ _ _ Had), Hs.
  - constructor; [|done]. apply Hkeep, (ad_slot _ _ _ _ Had).
Qed.

(** C5.  Constant operands denote their constants: however numbers and strings are
    entered into the constants of a function that has no constants of other kinds
    (template tables, functions in it), as long as the vector of its table has room and
    the counters stay below 2^31, each entry is defined, equal constants share a slot, and in the
    arrays of the finished prototype the slot of every number holds that number
    and the slot of every string, counted from the end, refers to that string. *)
Theorem constants_resolve ml vs s f : kstate s f -> Forall const_key vs -> kroom s f (length vs) ->
  gwp (cs <~ gmapM const_of vs ;; k <~ fs_fixup_k ml ;; gret (cs, k)) s (λ r _,
    Forall2 (resolves (snd r)) vs (fst r) /\
    forall i j v, vs !! i = Some v -> vs !! j = Some v -> fst r !! i = fst r !! j).
Proof.
  intros I HF Hroom. apply gwp_bind. eapply gwp_mono; [by eapply gmapM_const_spec|].
  cbv beta. intros cs s' (f' & I' & N' & G' & _ & HF2). apply gwp_bind.
  eapply gwp_mono; [by apply (fs_fixup_k_spec ml s' f')|]. cbv beta. intros k s2 [-> Hres]. apply gwp_ret. cbn [fst snd].
  split; [eapply Forall2_impl; [|exact HF2]; intros v c; apply Hres|].
  intros i j v Hi Hj. destruct (Forall2_lookup_l _ _ _ _ _ HF2 Hi) as (c & Ec & Hc).
  destruct (Forall2_lookup_l _ _ _ _ _ HF2 Hj) as (c' & Ec' & Hc'). rewrite Ec, Ec'. f_equal.
  destruct I' as [_ I']. by eapply const_slot_unique.
Qed.

(** A function just begun, and three constants, one of them twice. *)
Definition demo_fs : FuncState := mkfs [] 0 NO_JMP 0 0 0 0 0 0 0 0 0 1 [] [] [] [] Util.kp_tab_new.
Definition demo_pstate : pstate :=
  mkp (mklex [] (-1) TK_eof TK_eof kp_niltv kp_niltv kp_buf_init 1 1 (mkstrtab [] 1000) Util.kp_tab_new)
    [] 0 0 0 0 [demo_fs] [] 0.
Definition demo_consts : list ktap_val := [set_number 70000; set_string 12; set_number (-3); set_number 70000].
Definition demo_const_prog : M (list Z * (list ktap_val * list ugc)) :=
  cs <~ gmapM const_of demo_consts ;; k <~ fs_fixup_k Z.of_nat ;; gret (cs, k).

Lemma constants_resolve_witness : exists cs k s',
  demo_const_prog demo_pstate = Some (inr ((cs, k), s')) /\ Forall2 (resolves k) demo_consts cs.
Proof.
  assert (H : gwp demo_const_prog demo_pstate (λ r _, Forall2 (resolves (snd r)) demo_consts (fst r) /\
    forall i j v, demo_consts !! i = Some v -> demo_consts !! j = Some v -> fst r !! i = fst r !! j)).
  { apply (constants_resolve Z.of_nat demo_consts demo_pstate demo_fs).
    - split; [done|apply kinv_new].
    - repeat (constructor; [first [by left|by right]|]). constructor.
    - unfold kroom. change (u_freetop (kt_of demo_pstate)) with 1024%nat. cbn [fs_nkn fs_nkgc demo_fs length demo_consts]. lia. }
  assert (Hok : gok (demo_const_prog demo_pstate) = true) by (vm_compute; reflexivity).
  destruct (gwp_ok _ _ _ H Hok) as ([cs k] & s' & E & HF & _). exists cs, k, s'. exact (conj E HF).
Defined.
