(* ===== verification/BcRead.v ===== *)
(** * BcRead: the bytecode reader of the VM ([runtime/kp_bcread.c])

    The reader walks the byte string the compiler produced and builds the
    prototypes of the VM: it interns strings, builds template tables through the
    table operations, and links child prototypes through the value stack.

    The assertions of the reader compile to nothing, so reading past the end of
    the buffer is undefined behaviour; [None] stands for it.  An error return is
    [Some (None, _)].  Interning is used through the interface [Intern]. *)

From S2P Require Import Prelude Types Bytecode Mempool Tab Intern BcWrite.
#[local] Open Scope word_scope.

(** ** Prototypes of the VM *)

Inductive kobj :=
  | OStr (s : Z)
  | OTab (t : ktap_tab)
  | OProto (p : kproto)
with kproto :=
  | mkkproto (flags numparams framesize : Z) (bc uv : list Z) (kgc : list kobj)
      (kn : list ktap_val) (firstline numline : Z)
      (dbg : option (bytes * nat))   (* line info; offset of the variable info *)
      (sizept : Z) (chunkname : Z).

Definition sizeof_ktap_proto : Z := 96.
Definition sizeof_ktap_val : Z := 16.

(** Offsets of the arrays behind a prototype. *)
Record layout := mklayout { ofsk : Z; ofsuv : Z; ofsdbg : Z; sizept : Z }.

Definition proto_layout (sizebc sizekgc sizekn sizeuv sizedbg : Z) : layout :=
  let size := sizeof_ktap_proto + sizebc * 4 + sizekgc * 8 in
  let size := (size + sizeof_ktap_val - 1) .& Z.lnot (sizeof_ktap_val - 1) in
  let ofsk := size in let size := size + sizekn * sizeof_ktap_val in
  let ofsuv := size in let size := size + ((sizeuv + 1) .& Z.lnot 1) * 2 in
  let ofsdbg := size in let size := size + sizedbg in
  mklayout ofsk ofsuv ofsdbg size.

(** Where the gap below the constants is closed: four zero bytes. *)
Definition gap_ofs (l : layout) (sizekgc : Z) : Z := ofsk l - 8 * (sizekgc + 1).

Section Read.
Context {S : Type} `{Intern S}.

(** Outcomes of the allocations for tables and prototypes. *)
Context (ta : talloc).

Record rstate := mkr { r_in : bytes; r_stack : list kproto; r_str : S; r_err : kerr }.

Definition R (A : Type) : Type := rstate -> option (option A * rstate).

Definition rret {A} (x : A) : R A := λ s, Some (Some x, s).
Definition rfail {A} : R A := λ s, Some (None, s).
Definition rub {A} : R A := λ _, None.
Definition rbind {A B} (m : R A) (f : A -> R B) : R B := λ s,
  match m s with
  | None => None
  | Some (None, s') => Some (None, s')
  | Some (Some x, s') => f x s'
  end.
Notation "x <-- m ;; f" := (rbind m (λ x, f)) (at level 100, m at next level, right associativity).

(** ** Input *)

(** [em] is the text of the error message. *)
Definition bcread_error {A} (em : string) : R A := λ s,
  Some (None, mkr (r_in s) (r_stack s) (r_str s) (kp_error em (r_err s))).

Definition KP_ERR_BCFMT : string := "cannot load incompatible bytecode".
Definition KP_ERR_BCBAD : string := "cannot load malformed bytecode".

(** A block of [len] bytes; moving backwards or past the end has no meaning. *)
Definition bcread_mem (len : Z) : R bytes := λ s,
  if (0 <=? len) && (len <=? Z.of_nat (length (r_in s)))
  then Some (Some (take (Z.to_nat len) (r_in s)),
             mkr (drop (Z.to_nat len) (r_in s)) (r_stack s) (r_str s) (r_err s))
  else ub.

Definition bcread_block (len : Z) : R bytes := bcread_mem len.

Definition bcread_byte : R Z := b <-- bcread_mem 1;; rret (le_val b).
Definition bcread_uint32 : R Z := b <-- bcread_block 4;; rret (le_val b).
Definition bcread_int : R Z := v <-- bcread_uint32;; rret (s32 v).

Definition kp_str_new (bs : bytes) : R Z := λ s,
  '(a, st, k) ← intern (r_str s) (r_err s) bs;
  Some (Some a, mkr (r_in s) (r_stack s) st k).

Definition tab_ctx (st : S) : kctx := mkctx (hash_at st) None (λ _ _, None).

(** ** Constants of template tables *)

(** [o]: what the destination held before; a primitive only changes its tag. *)
Definition bcread_ktabk (o : ktap_val) : R ktap_val :=
  tp <-- bcread_int;;
  if tp >=? BCDUMP_KTAB_STR then
    p <-- bcread_mem (tp - BCDUMP_KTAB_STR);;
    ts <-- kp_str_new p;;
    if ts =? 0 then rfail else rret (set_string ts)
  else if tp =? BCDUMP_KTAB_NUM then
    n <-- bcread_mem 8;; rret (set_number (le_val n))
  else rret (setitype o (u32 (Z.lnot tp))).

Fixpoint read_array (os : list ktap_val) : R (list ktap_val) :=
  match os with
  | [] => rret []
  | o :: os' => v <-- bcread_ktabk o;; vs <-- read_array os';; rret (v :: vs)
  end.

Definition tab_set_r (t : ktap_tab) (key v : ktap_val) : R ktap_tab := λ s,
  '(t, k) ← kp_tab_set (tab_ctx (r_str s)) t (r_err s) key v;
  Some (Some t, mkr (r_in s) (r_stack s) (r_str s) k).

Fixpoint read_hash (n : nat) (t : ktap_tab) : R ktap_tab :=
  match n with
  | O => rret t
  | Datatypes.S n' =>
      key <-- bcread_ktabk (junk_val ta);;
      v <-- bcread_ktabk (junk_val ta);;
      t <-- tab_set_r t key v;;
      read_hash n' t
  end.

Definition tab_new_r (a b : Z) : R ktap_tab := λ s,
  '(o, k) ← kp_tab_new (r_err s) ta a b;
  Some (o, mkr (r_in s) (r_stack s) (r_str s) k).

Definition with_array (t : ktap_tab) (a : list ktap_val) : ktap_tab :=
  mktab a (asize t) (nodes t) (hmask t) (freetop t) (hnum t).

Definition bcread_ktab : R ktap_tab :=
  narray <-- bcread_int;;
  nhash <-- bcread_int;;
  t <-- tab_new_r (u32 narray) (hsize2hbits nhash);;
  a <-- read_array (take (Z.to_nat narray) (array t));;
  read_hash (Z.to_nat nhash) (with_array t (a ++ drop (Z.to_nat narray) (array t))).

(** ** Constants of prototypes *)

Definition pop_child : R kobj := λ s,
  match r_stack s with
  | [] => bcread_error KP_ERR_BCBAD s
  | p :: st => Some (Some (OProto p), mkr (r_in s) st (r_str s) (r_err s))
  end.

Definition bcread_kgc1 : R kobj :=
  tp <-- bcread_int;;
  if tp >=? BCDUMP_KGC_STR then
    p <-- bcread_mem (tp - BCDUMP_KGC_STR);;
    ts <-- kp_str_new p;;
    if ts =? 0 then rfail else rret (OStr ts)
  else if tp =? BCDUMP_KGC_TAB then t <-- bcread_ktab;; rret (OTab t)
  else if tp =? BCDUMP_KGC_CHILD then pop_child
  else bcread_error KP_ERR_BCBAD.

Fixpoint bcread_kgc (n : nat) : R (list kobj) :=
  match n with
  | O => rret []
  | Datatypes.S n' => o <-- bcread_kgc1;; os <-- bcread_kgc n';; rret (o :: os)
  end.

Fixpoint bcread_knum (n : nat) : R (list ktap_val) :=
  match n with
  | O => rret []
  | Datatypes.S n' =>
      b <-- bcread_mem 8;; os <-- bcread_knum n';; rret (set_number (le_val b) :: os)
  end.

(** ** Byte order *)

(** The build is little-endian: a dump with [BCDUMP_F_BE] is swapped. *)
Definition bcread_swap (flags : Z) : bool := negb (flags .& BCDUMP_F_BE =? 0).

Definition bswap (x : Z) : Z := le_val (rev (le_bytes 4 x)).
Definition bswap16 (x : Z) : Z := u16 ((x ≫ 8) .| (x ≪ 8)).

Fixpoint words (w : nat) (n : nat) (bs : bytes) : list Z :=
  match n with
  | O => []
  | Datatypes.S n' => le_val (take w bs) :: words w n' (drop w bs)
  end.

Definition bcread_bytecode (flags pflags framesize sizebc : Z) : R (list Z) :=
  let op := bcop_code (if negb (pflags .& PROTO_VARARG =? 0) then BC_FUNCV else BC_FUNCF) in
  b <-- bcread_block ((sizebc - 1) * 4);;
  let ins := words 4 (Z.to_nat (sizebc - 1)) b in
  rret (BCINS_AD op framesize 0 :: if bcread_swap flags then map bswap ins else ins).

Definition bcread_uv (flags sizeuv : Z) : R (list Z) :=
  if negb (sizeuv =? 0) then
    b <-- bcread_block (sizeuv * 2);;
    let uv := words 2 (Z.to_nat sizeuv) b in
    rret (if bcread_swap flags then map bswap16 uv else uv)
  else rret [].

(** ** Debug information *)

Definition bcread_dbg (flags numline sizebc sizedbg : Z) : R bytes :=
  d <-- bcread_block sizedbg;;
  if bcread_swap flags && (numline >=? 256) then
    let n := Z.to_nat (sizebc - 1) in
    if numline <? 65536 then
      if Z.of_nat (2 * n) <=? sizedbg
      then rret (flat_map (λ x, le_bytes 2 (bswap16 x)) (words 2 n d) ++ drop (2 * n) d) else rub
    else
      if Z.of_nat (4 * n) <=? sizedbg
      then rret (flat_map (λ x, le_bytes 4 (bswap x)) (words 4 n d) ++ drop (4 * n) d) else rub
  else rret d.

(** Skip [n] zero-terminated names behind the line info. *)
Fixpoint skip_names (p : bytes) (n pos : nat) : option nat :=
  match p with
  | [] => None
  | b :: p' =>
      if negb (b =? 0) then skip_names p' n (Datatypes.S pos)
      else match n with
           | O | 1%nat => Some (Datatypes.S pos)
           | Datatypes.S n' => skip_names p' n' (Datatypes.S pos)
           end
  end.

Definition bcread_varinfo (d : bytes) (sizeli : nat) (sizeuv : Z) : option nat :=
  if sizeuv =? 0 then Some sizeli
  else skip_names (drop sizeli d) (Z.to_nat sizeuv) sizeli.

(** ** Prototypes *)

(** The debug section behind the constants. *)
Definition read_debug (flags numline sizebc sizeuv sizedbg : Z) : R (option (bytes * nat)) :=
  if negb (sizedbg =? 0) then
    let sizeli := Z.to_nat ((sizebc - 1) ≪
      (if numline <? 256 then 0 else if numline <? 65536 then 1 else 2)) in
    d <-- bcread_dbg flags numline sizebc sizedbg;;
    match bcread_varinfo d sizeli sizeuv with
    | Some v => rret (Some (d, v))
    | None => rub
    end
  else rret None.

(** Counts the layout can be computed for without overflow of an [int]. *)
Definition sizes_ok (sizebc sizekgc sizekn sizeuv sizedbg : Z) : bool :=
  (1 <=? sizebc) && (0 <=? sizekgc) && (0 <=? sizekn) && (0 <=? sizedbg) &&
  (sizept (proto_layout sizebc sizekgc sizekn sizeuv sizedbg) <? 2 ^ 31 - 16) && ok_obj ta.

Definition bcread_proto (flags chunkname : Z) : R kproto :=
  pflags <-- bcread_byte;;
  numparams <-- bcread_byte;;
  framesize <-- bcread_byte;;
  sizeuv <-- bcread_byte;;
  sizekgc <-- bcread_int;;
  sizekn <-- bcread_int;;
  nbc <-- bcread_uint32;;
  let sizebc := s32 (nbc + 1) in
  let strip := negb (flags .& BCDUMP_F_STRIP =? 0) in
  sizedbg <-- (if strip then rret 0 else bcread_int);;
  firstline <-- (if negb (sizedbg =? 0) then bcread_int else rret 0);;
  numline <-- (if negb (sizedbg =? 0) then bcread_int else rret 0);;
  if negb (sizes_ok sizebc sizekgc sizekn sizeuv sizedbg) then rub
  else
    bc <-- bcread_bytecode flags pflags framesize sizebc;;
    uv <-- bcread_uv flags sizeuv;;
    kgc <-- bcread_kgc (Z.to_nat sizekgc);;
    kn <-- bcread_knum (Z.to_nat sizekn);;
    dbg <-- read_debug flags numline sizebc sizeuv sizedbg;;
    rret (mkkproto pflags numparams framesize bc uv kgc kn firstline numline dbg
            (sizept (proto_layout sizebc sizekgc sizekn sizeuv sizedbg)) chunkname).

Definition remaining : R nat := λ s, Some (Some (length (r_in s)), s).

(** The stack of the state is empty when a dump is loaded, and there is no test against
    its end: a prototype that is pushed beyond it is written outside of the memory. *)
Definition push_proto (p : kproto) : R unit := λ s,
  if Z.of_nat (length (r_stack s)) <? KTAP_STACK_SIZE
  then Some (Some tt, mkr (r_in s) (p :: r_stack s) (r_str s) (r_err s)) else ub.

(** ** The dump *)

(** The flags and the chunk name; a wrong header is an error return. *)
Definition bcread_header : R (Z * Z) :=
  h1 <-- bcread_byte;; if negb (h1 =? BCDUMP_HEAD1) then rfail else
  h2 <-- bcread_byte;; if negb (h2 =? BCDUMP_HEAD2) then rfail else
  h3 <-- bcread_byte;; if negb (h3 =? BCDUMP_HEAD3) then rfail else
  v <-- bcread_byte;; if negb (v =? BCDUMP_VERSION) then rfail else
  flags <-- bcread_byte;;
  if negb (flags .& Z.lnot BCDUMP_F_KNOWN =? 0) then rfail
  else if negb (flags .& BCDUMP_F_FFI =? 0) then rfail
  else
    chunkname <-- (if negb (flags .& BCDUMP_F_STRIP =? 0)
                   then kp_str_new [115; 116; 114; 105; 112; 101; 100]
                   else len <-- bcread_int;; p <-- bcread_mem len;; kp_str_new p);;
    if chunkname =? 0 then rfail else rret (flags, chunkname).

(** The loop over the prototypes: a zero byte in place of a length ends it. *)
Fixpoint read_protos (fuel : nat) (flags chunkname : Z) : R unit := λ s,
  match fuel with
  | O => ub
  | Datatypes.S f =>
      match r_in s with
      | 0 :: rest => Some (Some tt, mkr rest (r_stack s) (r_str s) (r_err s))
      | _ =>
          (len <-- bcread_int;;
           if len =? 0 then rret tt
           else
             before <-- remaining;;
             pt <-- bcread_proto flags chunkname;;
             after <-- remaining;;
             if negb (Z.of_nat before - Z.of_nat after =? len) then bcread_error KP_ERR_BCBAD
             else u <-- push_proto pt;; read_protos f flags chunkname) s
      end
  end.

(** Nothing may follow the dump, and exactly one prototype must be left. *)
Definition finish : R kproto := λ s,
  let left := Z.of_nat (length (r_in s)) in
  match s32 (u32 (2 * u32 left)) >? 0, r_stack s with
  | false, [p] => Some (Some p, mkr (r_in s) [] (r_str s) (r_err s))
  | _, _ => bcread_error KP_ERR_BCBAD s
  end.

Definition kp_bcread (buff : bytes) (st : S) (k : kerr) : option (option kproto * rstate) :=
  let s := mkr buff [] st k in
  match bcread_header s with
  | None => ub
  | Some (None, s) => bcread_error KP_ERR_BCFMT s
  | Some (Some (flags, chunkname), s) =>
      (rbind (read_protos (Datatypes.S (length buff)) flags chunkname) (λ _, finish)) s
  end.

End Read.
