(* ===== verification/BcEnc.v ===== *)
(** * BcEnc: what the bytecode writer writes

    The dump format as pure functions from prototypes to bytes, and two theorems
    about [kp_bcwrite]: whatever it manages to write is the encoding of its
    argument, children first; and for prototypes that fit the buffer it starts
    with it does write it, without ever resizing.  Larger prototypes meet the
    size estimates left over from a variable-length encoding, which are too
    small. *)

From S2P Require Import Prelude Types Bytecode Tab BcWrite.
#[local] Open Scope word_scope.

Section Enc.
Context (ustr : Z -> bytes).

Definition enc_u32 (v : Z) : bytes := le_bytes 4 (u32 v).
Definition zlen {A} (l : list A) : Z := Z.of_nat (length l).

Definition enc_ktabk (o : ktap_val) : bytes :=
  if is_string o then enc_u32 (BCDUMP_KTAB_STR + zlen (ustr (val o))) ++ ustr (val o)
  else if is_number o then enc_u32 BCDUMP_KTAB_NUM ++ le_bytes 8 (u64 (nvalue o))
  else enc_u32 (BCDUMP_KTAB_NIL + u32 (Z.lnot (itype o))).

Definition enc_ktabks (l : list ktap_val) : bytes := flat_map enc_ktabk l.

Definition enc_ktab (t : utab) : bytes :=
  enc_u32 (zlen (trim_nil (ut_array t))) ++ enc_u32 (zlen (hash_entries t)) ++
  enc_ktabks (trim_nil (ut_array t)) ++ enc_ktabks (flat_map (λ e, [e.1; e.2]) (hash_entries t)).

Definition enc_kgc1 (o : ugc) : bytes :=
  match o with
  | UStr s => enc_u32 (BCDUMP_KGC_STR + zlen (ustr s)) ++ ustr s
  | UProto _ => enc_u32 BCDUMP_KGC_CHILD
  | UTab t => enc_u32 BCDUMP_KGC_TAB ++ enc_ktab t
  end.

Definition enc_kgc (l : list ugc) : bytes := flat_map enc_kgc1 l.

Definition enc_knum (l : list ktap_val) : bytes :=
  flat_map (λ o, if is_number o then le_bytes 8 (u64 (nvalue o)) else []) l.

Definition enc_dbg (strip : bool) (pt : uproto) : bytes :=
  if negb (sizedbg strip pt =? 0) then default [] (p_dbg pt) else [].

Definition enc_phead (strip : bool) (pt : uproto) : bytes :=
  [u8 (p_flags pt .& (PROTO_CHILD .| PROTO_VARARG .| PROTO_FFI));
   u8 (p_numparams pt); u8 (p_framesize pt); u8 (zlen (p_uv pt))] ++
  enc_u32 (zlen (p_kgc pt)) ++ enc_u32 (zlen (p_kn pt)) ++ enc_u32 (zlen (p_bc pt) - 1) ++
  (if strip then []
   else enc_u32 (sizedbg strip pt) ++
        if negb (sizedbg strip pt =? 0)
        then enc_u32 (p_firstline pt) ++ enc_u32 (p_numline pt) else []).

Definition enc_ins (pt : uproto) : bytes := flat_map (λ i, le_bytes 4 (u32 i)) (tail (p_bc pt)).
Definition enc_uv (pt : uproto) : bytes := flat_map (λ u, le_bytes 2 (u16 u)) (p_uv pt).

Definition enc_body (strip : bool) (pt : uproto) : bytes :=
  enc_phead strip pt ++ enc_ins pt ++ enc_uv pt ++ enc_kgc (p_kgc pt) ++ enc_knum (p_kn pt) ++
  enc_dbg strip pt.

Definition enc_proto (strip : bool) (pt : uproto) : bytes :=
  enc_u32 (zlen (enc_body strip pt)) ++ enc_body strip pt.

(** The prototypes of a tree in the order they are written. *)
Fixpoint protos_of (pt : uproto) : list uproto :=
  (if negb (p_flags pt .& PROTO_CHILD =? 0) then
     (fix children (l : list ugc) : list uproto :=
        match l with
        | [] => []
        | o :: l' => children l' ++ match o with UProto c => protos_of c | _ => [] end
        end) (match pt with mkuproto _ _ _ _ _ kgc _ _ _ _ => kgc end)
   else []) ++ [pt].

Definition enc_header (strip : bool) (name : bytes) : bytes :=
  [BCDUMP_HEAD1; BCDUMP_HEAD2; BCDUMP_HEAD3; BCDUMP_VERSION; if strip then BCDUMP_F_STRIP else 0] ++
  if strip then [] else enc_u32 (zlen name) ++ name.

Definition enc_dump (strip : bool) (name : bytes) (pt : uproto) : bytes :=
  enc_header strip name ++ flat_map (enc_proto strip) (protos_of pt) ++ [0].

(** ** What is written is the encoding *)

(** [f] appends [bs] whenever it is defined. *)
Definition appends (f : sbuf -> option sbuf) (bs : bytes) : Prop :=
  forall sb sb', f sb = Some sb' -> sb_data sb' = sb_data sb ++ bs.

(** [f] is defined, and keeps the block, when [bs] and [slack] more bytes fit. *)
Definition fits (f : sbuf -> option sbuf) (bs : bytes) (slack : Z) : Prop :=
  forall sb, sbuflen sb + zlen bs + slack <= sb_size sb ->
    f sb = Some (mksbuf (sb_data sb ++ bs) (sb_size sb)).

Lemma appends_bind f g bs1 bs2 :
  appends f bs1 -> appends g bs2 -> appends (λ sb, f sb ≫= g) (bs1 ++ bs2).
Proof.
  intros Hf Hg sb sb'. destruct (f sb) as [sb1|] eqn:E; [|done]. simpl. intros Hs.
  by rewrite (Hg _ _ Hs), (Hf _ _ E), app_assoc.
Qed.

Lemma zlen_app {A} (l1 l2 : list A) : zlen (l1 ++ l2) = zlen l1 + zlen l2.
Proof. unfold zlen. rewrite length_app. lia. Qed.

Lemma zlen_nonneg {A} (l : list A) : 0 <= zlen l.
Proof. unfold zlen. lia. Qed.

Lemma fits_bind f g bs1 bs2 s :
  0 <= s -> fits f bs1 s -> fits g bs2 s -> fits (λ sb, f sb ≫= g) (bs1 ++ bs2) s.
Proof.
  intros Hs Hf Hg sb. rewrite zlen_app. pose proof (zlen_nonneg bs2). intros Hsb.
  rewrite (Hf sb) by lia. simpl. rewrite Hg; simpl; [by rewrite app_assoc|].
  unfold sbuflen in *. simpl. rewrite length_app. unfold zlen in *. lia.
Qed.

Lemma fits_weaken f bs s s' : s <= s' -> fits f bs s -> fits f bs s'.
Proof. intros Hs Hf sb Hsb. apply Hf. lia. Qed.

Lemma appends_wmem bs : appends (λ sb, kp_buf_wmem sb bs) bs.
Proof. intros sb sb'. unfold kp_buf_wmem. destruct (_ <=? _); [|done]. by intros [= <-]. Qed.

Lemma fits_wmem bs : fits (λ sb, kp_buf_wmem sb bs) bs 0.
Proof.
  intros sb H. unfold kp_buf_wmem. rewrite (proj2 (Z.leb_le _ _)); [done|]. unfold zlen in H. lia.
Qed.

Lemma appends_u32 v : appends (λ sb, bcwrite_uint32 sb v) (enc_u32 v).
Proof. apply appends_wmem. Qed.

Lemma fits_u32 v : fits (λ sb, bcwrite_uint32 sb v) (enc_u32 v) 0.
Proof. apply fits_wmem. Qed.

(** Reserving keeps the bytes; it keeps the block when enough is left. *)
Lemma appends_more f n bs : appends f bs -> appends (λ sb, f (kp_buf_more sb n)) bs.
Proof.
  intros Hf sb sb' E. rewrite (Hf _ _ E). unfold kp_buf_more. by destruct (_ >? _).
Qed.

Lemma fits_more f n bs s :
  n <= zlen bs + s -> fits f bs s -> fits (λ sb, f (kp_buf_more sb n)) bs s.
Proof.
  intros Hn Hf sb Hsb. unfold kp_buf_more, sbufleft.
  destruct (Z.gtb_spec n (sb_size sb - sbuflen sb)); [lia|]. by apply Hf.
Qed.

Lemma appends_nil : appends Some [].
Proof. intros sb sb' [= <-]. by rewrite app_nil_r. Qed.

Lemma fits_nil : fits Some [] 0.
Proof. intros [d n] _. simpl. by rewrite app_nil_r. Qed.

Lemma zlen_u32 v : zlen (enc_u32 v) = 4.
Proof. reflexivity. Qed.

Lemma zlen_le_bytes n v : zlen (le_bytes n v) = Z.of_nat n.
Proof. unfold zlen. by rewrite length_le_bytes. Qed.

(** Both at once. *)
Definition writes (f : sbuf -> option sbuf) (bs : bytes) (slack : Z) : Prop :=
  appends f bs /\ fits f bs slack.

Lemma writes_bind f g bs1 bs2 s :
  0 <= s -> writes f bs1 s -> writes g bs2 s -> writes (λ sb, f sb ≫= g) (bs1 ++ bs2) s.
Proof. intros Hs [? ?] [? ?]. split; [by apply appends_bind|by apply fits_bind]. Qed.

Lemma writes_weaken f bs s s' : s <= s' -> writes f bs s -> writes f bs s'.
Proof. intros ? [? ?]. split; [done|by eapply fits_weaken]. Qed.

Lemma writes_more f n bs s :
  n <= zlen bs + s -> writes f bs s -> writes (λ sb, f (kp_buf_more sb n)) bs s.
Proof. intros ? [? ?]. split; [by apply appends_more|by apply fits_more]. Qed.

Lemma writes_wmem bs s : 0 <= s -> writes (λ sb, kp_buf_wmem sb bs) bs s.
Proof. intros. split; [apply appends_wmem|]. eapply fits_weaken; [done|apply fits_wmem]. Qed.

Lemma writes_u32 v s : 0 <= s -> writes (λ sb, bcwrite_uint32 sb v) (enc_u32 v) s.
Proof. apply writes_wmem. Qed.

Lemma writes_nil s : 0 <= s -> writes Some [] s.
Proof. intros. split; [apply appends_nil|]. eapply fits_weaken; [done|apply fits_nil]. Qed.

Lemma writes_iter {A} (step : sbuf -> A -> option sbuf) (loop : sbuf -> list A -> option sbuf) enc s :
  0 <= s -> (forall sb, loop sb [] = Some sb) ->
  (forall sb x l, loop sb (x :: l) = step sb x ≫= λ sb, loop sb l) ->
  (forall x, writes (λ sb, step sb x) (enc x) s) ->
  forall l, writes (λ sb, loop sb l) (flat_map enc l) s.
Proof.
  intros Hs Hnil Hcons Hstep. induction l as [|x l IH].
  - split; intros sb; rewrite Hnil; apply (writes_nil s Hs).
  - destruct (writes_bind _ _ _ _ s Hs (Hstep x) IH) as [Ha Hf].
    split; intros sb; rewrite Hcons; [apply Ha|apply Hf].
Qed.

(** The room the reservations of the writer ask for beyond what is written. *)
Definition SLACK : Z := 16.

(** A tagged byte string. *)
Lemma writes_tagged v str : writes (λ sb, bcwrite_uint32 sb v ≫= λ sb, kp_buf_wmem sb str) (enc_u32 v ++ str) SLACK.
Proof. apply writes_bind; [done|by apply writes_u32|by apply writes_wmem]. Qed.

Lemma more_tagged v str n : n <= 4 + zlen str + SLACK ->
  writes (λ sb, bcwrite_uint32 (kp_buf_more sb n) v ≫= λ sb, kp_buf_wmem sb str) (enc_u32 v ++ str) SLACK.
Proof.
  intros Hn. refine (writes_more (λ sb, bcwrite_uint32 sb v ≫= λ sb, kp_buf_wmem sb str) n _ _ _ _).
  - by rewrite zlen_app, zlen_u32.
  - apply writes_tagged.
Qed.

Lemma more_u32 v n : n <= 4 + SLACK ->
  writes (λ sb, bcwrite_uint32 (kp_buf_more sb n) v) (enc_u32 v) SLACK.
Proof.
  intros Hn. refine (writes_more (λ sb, bcwrite_uint32 sb v) n _ _ _ _).
  - by rewrite zlen_u32.
  - by apply writes_u32.
Qed.

Lemma writes_ktabk o : writes (λ sb, bcwrite_ktabk ustr sb o) (enc_ktabk o) SLACK.
Proof.
  unfold bcwrite_ktabk, enc_ktabk. destruct (is_string o); [|destruct (is_number o)].
  - set (str := ustr (val o)). pose proof (zlen_nonneg str).
    refine (writes_more (λ sb, bcwrite_uint32 (kp_buf_more sb (5 + zlen str)) _ ≫= λ sb, kp_buf_wmem sb str)
      11 _ _ _ _); [rewrite zlen_app, zlen_u32; unfold SLACK; lia|].
    apply more_tagged. unfold SLACK. lia.
  - by apply more_tagged.
  - by apply more_u32.
Qed.

Lemma writes_ktabks l : writes (λ sb, bcwrite_ktabks ustr sb l) (enc_ktabks l) SLACK.
Proof.
  apply (writes_iter (bcwrite_ktabk ustr) (bcwrite_ktabks ustr)); try done. apply writes_ktabk.
Qed.

Lemma writes_ktab t : writes (λ sb, bcwrite_ktab ustr sb t) (enc_ktab t) SLACK.
Proof.
  unfold bcwrite_ktab, enc_ktab.
  repeat (apply writes_bind; [done|first [by apply writes_u32|apply writes_ktabks]|]).
  apply writes_ktabks.
Qed.

Lemma writes_kgc1 o : writes (λ sb, bcwrite_kgc1 ustr sb o) (enc_kgc1 o) SLACK.
Proof.
  destruct o as [s|t|p]; cbn [bcwrite_kgc1 enc_kgc1].
  - apply more_tagged. unfold zlen, SLACK. lia.
  - apply writes_bind; [done|by apply more_u32|apply writes_ktab].
  - by apply more_u32.
Qed.

Lemma writes_kgc l : writes (λ sb, bcwrite_kgc ustr sb l) (enc_kgc l) SLACK.
Proof.
  apply (writes_iter (bcwrite_kgc1 ustr) (bcwrite_kgc ustr)); try done. apply writes_kgc1.
Qed.

Lemma writes_knums l : writes (λ sb, bcwrite_knums sb l) (enc_knum l) SLACK.
Proof.
  apply (writes_iter (λ sb o, if is_number o then kp_buf_wmem sb (le_bytes 8 (u64 (nvalue o))) else Some sb)
    bcwrite_knums); try done.
  intros o. destruct (is_number o); [by apply writes_wmem|by apply writes_nil].
Qed.

Lemma writes_header strip pt : writes (λ sb, proto_header sb strip pt) (enc_phead strip pt) SLACK.
Proof.
  unfold proto_header, enc_phead.
  apply writes_bind; [done|by apply writes_wmem|].
  do 3 (apply writes_bind; [done|by apply writes_u32|]).
  destruct strip; [by apply writes_nil|]. apply writes_bind; [done|by apply writes_u32|].
  destruct (negb _); [|by apply writes_nil]. apply writes_bind; [done|by apply writes_u32..].
Qed.

(** ** One prototype *)

Definition slack_of (pt : uproto) : Z := SLACK + 10 * zlen (p_kn pt).

Lemma writes_knum l : writes (λ sb, bcwrite_knum sb l) (enc_knum l) (SLACK + 10 * zlen l).
Proof.
  unfold bcwrite_knum. pose proof (zlen_nonneg l). pose proof (zlen_nonneg (enc_knum l)).
  refine (writes_more (λ sb, bcwrite_knums sb l) _ _ _ _ _); [unfold zlen, SLACK in *; lia|].
  eapply writes_weaken; [|apply writes_knums]. lia.
Qed.

Definition write_dbg (strip : bool) (pt : uproto) (sb : sbuf) : option sbuf :=
  if negb (sizedbg strip pt =? 0)
  then kp_buf_wmem (kp_buf_more sb (sizedbg strip pt)) (default [] (p_dbg pt)) else Some sb.

Lemma sizedbg_enc strip pt : zlen (enc_dbg strip pt) = sizedbg strip pt.
Proof.
  unfold enc_dbg, sizedbg. destruct strip; [done|]. destruct (p_dbg pt) as [d|]; [|done].
  destruct (Z.eqb_spec (Z.of_nat (length d)) 0) as [E|]; simpl; [unfold zlen; simpl; lia|done].
Qed.

Lemma writes_dbg strip pt s : 0 <= s -> writes (write_dbg strip pt) (enc_dbg strip pt) s.
Proof.
  intros Hs. pose proof (sizedbg_enc strip pt) as Hd. revert Hd. unfold write_dbg, enc_dbg.
  destruct (negb _); [|by intros; apply writes_nil]. intros Hd.
  refine (writes_more (λ sb, kp_buf_wmem sb (default [] (p_dbg pt))) _ _ _ _ _); [lia|].
  by apply writes_wmem.
Qed.

Definition write_body (strip : bool) (pt : uproto) (sb : sbuf) : option sbuf :=
  sb ← proto_header sb strip pt;
  sb ← bcwrite_bytecode sb pt;
  sb ← kp_buf_wmem sb (flat_map (λ u, le_bytes 2 (u16 u)) (p_uv pt));
  sb ← bcwrite_kgc ustr sb (p_kgc pt);
  sb ← bcwrite_knum sb (p_kn pt);
  write_dbg strip pt sb.

Lemma writes_body strip pt : writes (write_body strip pt) (enc_body strip pt) (slack_of pt).
Proof.
  assert (H0 : SLACK <= slack_of pt) by (unfold slack_of; pose proof (zlen_nonneg (p_kn pt)); lia).
  assert (H1 : 0 <= slack_of pt) by (unfold SLACK in H0; lia).
  unfold write_body, enc_body.
  apply writes_bind; [done|eapply writes_weaken; [exact H0|apply writes_header]|].
  apply writes_bind; [done|by apply writes_wmem|].
  apply writes_bind; [done|by apply writes_wmem|].
  apply writes_bind; [done|eapply writes_weaken; [exact H0|apply writes_kgc]|].
  apply writes_bind; [done|apply writes_knum|]. by apply writes_dbg.
Qed.

(** The size field is filled in over the first four bytes. *)
Definition finish_proto (ctx : wctx) (sb : sbuf) : option wctx :=
  if w_status ctx =? 0 then
    let q := le_bytes 4 (u32 (sbuflen sb - 4)) ++ drop 4 (sb_data sb) in
    let '(status, out) := kp_writer q (w_out ctx) in
    Some (mkw (mksbuf q (sb_size sb)) out (w_strip ctx) status)
  else Some (mkw sb (w_out ctx) (w_strip ctx) (w_status ctx)).

Definition need (pt : uproto) : Z :=
  5 + 4 + 6 * 5 + (zlen (p_bc pt) - 1) * 4 + zlen (p_uv pt) * 2.

Lemma proto1_eq ctx pt :
  bcwrite_proto1 ustr ctx pt =
  sb ← kp_buf_wmem (mksbuf [] (sb_size (kp_buf_need (w_sb ctx) (need pt)))) [0; 0; 0; 0];
  sb ← write_body (w_strip ctx) pt sb;
  finish_proto ctx sb.
Proof.
  unfold bcwrite_proto1, write_body. cbv zeta. unfold need, zlen.
  destruct (kp_buf_wmem _ [0; 0; 0; 0]); cbn [mbind option_bind]; [|done].
  destruct (proto_header _ _ _); cbn [mbind option_bind]; [|done].
  destruct (bcwrite_bytecode _ _); cbn [mbind option_bind]; [|done].
  destruct (kp_buf_wmem _ _); cbn [mbind option_bind]; [|done].
  destruct (bcwrite_kgc _ _ _); cbn [mbind option_bind]; [|done].
  destruct (bcwrite_knum _ _); cbn [mbind option_bind]; done.
Qed.

Definition out_bytes (ctx : wctx) : bytes := tr_data (w_out ctx).

(** No failure, and [bs] more bytes of output. *)
Record emitted (ctx : wctx) (bs : bytes) (ctx' : wctx) : Prop := {
  em_out : out_bytes ctx' = out_bytes ctx ++ bs;
  em_strip : w_strip ctx' = w_strip ctx;
  em_status : w_status ctx' = 0
}.

Lemma emitted_trans ctx1 ctx2 ctx3 bs1 bs2 :
  emitted ctx1 bs1 ctx2 -> emitted ctx2 bs2 ctx3 -> emitted ctx1 (bs1 ++ bs2) ctx3.
Proof. intros [O1 S1 ?] [O2 S2 ?]. split; [by rewrite O2, O1, app_assoc|congruence|done]. Qed.

Lemma proto1_emits ctx pt ctx' :
  w_status ctx = 0 -> bcwrite_proto1 ustr ctx pt = Some ctx' ->
  emitted ctx (enc_proto (w_strip ctx) pt) ctx'.
Proof.
  intros Hst. rewrite proto1_eq.
  destruct (kp_buf_wmem _ [0; 0; 0; 0]) as [sb0|] eqn:E0; [|done]. cbn [mbind option_bind].
  destruct (write_body _ pt sb0) as [sb1|] eqn:E1; [|done]. cbn [mbind option_bind].
  pose proof (appends_wmem _ _ _ E0) as D0. pose proof (proj1 (writes_body _ _) _ _ E1) as D1.
  rewrite D0 in D1. unfold finish_proto, kp_writer. rewrite Hst. cbn [Z.eqb]. intros [= <-].
  split; [|done..]. unfold out_bytes. cbn [w_out tr_data]. f_equal. unfold sbuflen. rewrite D1.
  unfold enc_proto, enc_u32. cbn [sb_data app length drop]. rewrite drop_0.
  set (body := enc_body _ _). by replace (_ - 4) with (zlen body) by (unfold zlen; lia).
Qed.

(** The buffer the writer starts with, and the prototypes that fit it. *)
Definition BUF : Z := 1024.
Definition small (strip : bool) (pt : uproto) : Prop :=
  4 + zlen (enc_body strip pt) + slack_of pt <= BUF.

Lemma need_size sb n : BUF <= sb_size sb -> BUF <= sb_size (kp_buf_need sb n).
Proof. unfold kp_buf_need. destruct (Z.gtb_spec n (sb_size sb)); simpl; lia. Qed.

Lemma proto1_fits ctx pt :
  BUF <= sb_size (w_sb ctx) -> small (w_strip ctx) pt ->
  exists ctx', bcwrite_proto1 ustr ctx pt = Some ctx' /\ BUF <= sb_size (w_sb ctx').
Proof.
  intros Hb Hs. unfold small in Hs. rewrite proto1_eq. pose proof (need_size _ (need pt) Hb) as Hn.
  set (n := sb_size _) in *. pose proof (zlen_nonneg (enc_body (w_strip ctx) pt)).
  assert (0 <= slack_of pt) by (unfold slack_of, SLACK; pose proof (zlen_nonneg (p_kn pt)); lia).
  rewrite (fits_wmem [0; 0; 0; 0]) by (unfold sbuflen; simpl; unfold zlen; simpl; lia).
  cbn [mbind option_bind sb_data sb_size app].
  rewrite (proj2 (writes_body _ _)) by (unfold sbuflen; simpl; lia).
  cbn [mbind option_bind]. unfold finish_proto, kp_writer. destruct (w_status ctx =? 0); eauto.
Qed.

(** ** Trees of prototypes *)

Definition child_prop (P : uproto -> Prop) (o : ugc) : Prop :=
  match o with UProto c => P c | _ => True end.

Lemma uproto_induction (P : uproto -> Prop) :
  (forall pt, Forall (child_prop P) (p_kgc pt) -> P pt) -> forall pt, P pt.
Proof.
  intros H. fix IH 1. intros pt. apply H. destruct pt as [? ? ? ? ? kgc ? ? ? ?]. simpl.
  induction kgc as [|o l IHl]; constructor; [|exact IHl]. destruct o as [s|t|c]; simpl; [exact I..|apply IH].
Qed.

Definition has_child (pt : uproto) : bool := negb (p_flags pt .& PROTO_CHILD =? 0).

Fixpoint write_children (ctx : wctx) (l : list ugc) : option wctx :=
  match l with
  | [] => Some ctx
  | o :: l' =>
      ctx ← write_children ctx l';
      match o with UProto c => bcwrite_proto ustr ctx c | _ => Some ctx end
  end.

Lemma bcwrite_proto_eq ctx pt :
  bcwrite_proto ustr ctx pt =
  ctx ← (if has_child pt then write_children ctx (p_kgc pt) else Some ctx); bcwrite_proto1 ustr ctx pt.
Proof. by destruct pt. Qed.

Fixpoint children_of (l : list ugc) : list uproto :=
  match l with
  | [] => []
  | o :: l' => children_of l' ++ match o with UProto c => protos_of c | _ => [] end
  end.

Lemma protos_of_eq pt : protos_of pt = (if has_child pt then children_of (p_kgc pt) else []) ++ [pt].
Proof. by destruct pt. Qed.

Lemma children_emit ctx l ctx' :
  Forall (child_prop (λ c, forall ctx ctx', w_status ctx = 0 -> bcwrite_proto ustr ctx c = Some ctx' ->
    emitted ctx (flat_map (enc_proto (w_strip ctx)) (protos_of c)) ctx')) l ->
  w_status ctx = 0 -> write_children ctx l = Some ctx' ->
  emitted ctx (flat_map (enc_proto (w_strip ctx)) (children_of l)) ctx'.
Proof.
  intros HF. revert ctx'. induction HF as [|o l Ho _ IH]; intros ctx' Hst; simpl.
  - intros [= <-]. split; simpl; [by rewrite app_nil_r|done..].
  - destruct (write_children ctx l) as [ctx1|] eqn:E; [|done]. simpl. specialize (IH _ Hst eq_refl).
    rewrite flat_map_app. destruct o as [s|t|c]; simpl in Ho.
    1, 2: intros [= <-]; simpl; by rewrite app_nil_r.
    intros Hc. eapply emitted_trans; [done|]. rewrite <- (em_strip _ _ _ IH). apply Ho; [apply IH|done].
Qed.

Lemma proto_emits pt : forall ctx ctx',
  w_status ctx = 0 -> bcwrite_proto ustr ctx pt = Some ctx' ->
  emitted ctx (flat_map (enc_proto (w_strip ctx)) (protos_of pt)) ctx'.
Proof.
  induction pt as [pt IH] using uproto_induction. intros ctx ctx' Hst.
  rewrite bcwrite_proto_eq, protos_of_eq, flat_map_app. cbn [flat_map]. rewrite app_nil_r.
  destruct (has_child pt); cbn [mbind option_bind]; [|simpl; by apply proto1_emits].
  destruct (write_children ctx (p_kgc pt)) as [ctx1|] eqn:E; [|done]. cbn [mbind option_bind]. intros E'.
  pose proof (children_emit _ _ _ IH Hst E) as H1. eapply emitted_trans; [done|].
  rewrite <- (em_strip _ _ _ H1). apply proto1_emits; [apply H1|done].
Qed.

Lemma write_children_emits ctx l ctx' :
  w_status ctx = 0 -> write_children ctx l = Some ctx' ->
  emitted ctx (flat_map (enc_proto (w_strip ctx)) (children_of l)) ctx'.
Proof.
  apply children_emit, list.Forall_forall. intros [s|t|x] _; [done..|exact (proto_emits x)].
Qed.

(** The same for definedness. *)
Lemma children_fit ctx l :
  Forall (child_prop (λ c, forall ctx, w_status ctx = 0 -> BUF <= sb_size (w_sb ctx) ->
    Forall (small (w_strip ctx)) (protos_of c) ->
    exists ctx', bcwrite_proto ustr ctx c = Some ctx' /\ BUF <= sb_size (w_sb ctx'))) l ->
  w_status ctx = 0 -> BUF <= sb_size (w_sb ctx) -> Forall (small (w_strip ctx)) (children_of l) ->
  exists ctx', write_children ctx l = Some ctx' /\ BUF <= sb_size (w_sb ctx').
Proof.
  intros HF Hst Hb. induction HF as [|o l Ho _ IH]; simpl; [by eauto|].
  rewrite list.Forall_app. intros [Hl Hc]. destruct (IH Hl) as (ctx1 & E & Hb1). rewrite E. simpl.
  destruct o as [s|t|c]; [by eauto..|]. simpl in Ho.
  assert (H1 : emitted ctx (flat_map (enc_proto (w_strip ctx)) (children_of l)) ctx1).
  { by apply write_children_emits. }
  apply Ho; [apply H1|done|]. by rewrite (em_strip _ _ _ H1).
Qed.

Lemma proto_fits pt : forall ctx,
  w_status ctx = 0 -> BUF <= sb_size (w_sb ctx) -> Forall (small (w_strip ctx)) (protos_of pt) ->
  exists ctx', bcwrite_proto ustr ctx pt = Some ctx' /\ BUF <= sb_size (w_sb ctx').
Proof.
  induction pt as [pt IH] using uproto_induction. intros ctx Hst Hb.
  rewrite bcwrite_proto_eq, protos_of_eq, list.Forall_app. intros [Hc Hp].
  apply list.Forall_cons in Hp as [Hp _].
  destruct (has_child pt); cbn [mbind option_bind]; [|by apply proto1_fits].
  destruct (children_fit _ _ IH Hst Hb Hc) as (ctx1 & E & Hb1). rewrite E. cbn [mbind option_bind].
  assert (H1 : emitted ctx (flat_map (enc_proto (w_strip ctx)) (children_of (p_kgc pt))) ctx1).
  { by apply write_children_emits. }
  apply proto1_fits; [done|]. by rewrite (em_strip _ _ _ H1).
Qed.

Lemma header_emits ctx name : BUF <= sb_size (w_sb ctx) ->
  exists ctx', bcwrite_header ctx name = Some ctx' /\
    emitted ctx (enc_header (w_strip ctx) name) ctx' /\ BUF <= sb_size (w_sb ctx').
Proof.
  intros Hb. unfold bcwrite_header, enc_header. pose proof (need_size _ (5 + 5 + zlen name) Hb) as Hn.
  assert (Hl : 5 + 5 + zlen name <= sb_size (kp_buf_need (w_sb ctx) (5 + 5 + zlen name))).
  { unfold kp_buf_need. destruct (Z.gtb_spec (5 + 5 + zlen name) (sb_size (w_sb ctx))); simpl; lia. }
  fold (@zlen Z name). set (n := sb_size _) in *. pose proof (zlen_nonneg name).
  rewrite fits_wmem by (unfold sbuflen, zlen in *; simpl; lia).
  cbn [mbind option_bind sb_data sb_size app]. destruct (w_strip ctx) eqn:Es.
  - cbn [mbind option_bind]. eexists. split; [done|]. split; [by split|done].
  - rewrite fits_u32 by (unfold sbuflen, zlen in *; simpl; lia). cbn [mbind option_bind sb_data sb_size app].
    rewrite fits_wmem by (unfold sbuflen, zlen in *; simpl; lia). cbn [mbind option_bind sb_data sb_size app].
    eexists. split; [done|]. split; [by split|done].
Qed.

Lemma footer_emits ctx : w_status ctx = 0 -> emitted ctx [0] (bcwrite_footer ctx).
Proof. intros H. unfold bcwrite_footer. rewrite H. by split. Qed.

Lemma kp_bcwrite_emits pt name out strip st out' :
  kp_bcwrite ustr pt name out strip = Some (st, out') ->
  st = 0 /\ tr_data out' = tr_data out ++ enc_dump strip name pt.
Proof.
  unfold kp_bcwrite. set (ctx0 := mkw _ out strip 0).
  destruct (header_emits ctx0 name) as (ctx1 & -> & H1 & _); [done|]. cbn [mbind option_bind].
  destruct (bcwrite_proto ustr ctx1 pt) as [ctx2|] eqn:E2; [|done]. cbn [mbind option_bind].
  pose proof (proto_emits _ _ _ (em_status _ _ _ H1) E2) as H2.
  pose proof (footer_emits _ (em_status _ _ _ H2)) as H3. intros [= <- <-].
  pose proof (emitted_trans _ _ _ _ _ H1 (emitted_trans _ _ _ _ _ H2 H3)) as H.
  split; [apply H|]. rewrite (em_strip _ _ _ H1) in H. apply H.
Qed.

Lemma kp_bcwrite_fits pt name out strip :
  Forall (small strip) (protos_of pt) ->
  exists out', kp_bcwrite ustr pt name out strip = Some (0, out') /\
    tr_data out' = tr_data out ++ enc_dump strip name pt.
Proof.
  intros Hs. unfold kp_bcwrite. set (ctx0 := mkw _ out strip 0).
  destruct (header_emits ctx0 name) as (ctx1 & E1 & H1 & Hb1); [done|]. 
  destruct (proto_fits pt ctx1 (em_status _ _ _ H1) Hb1) as (ctx2 & E2 & _).
  { by rewrite (em_strip _ _ _ H1). }
  destruct (kp_bcwrite_emits pt name out strip (w_status (bcwrite_footer ctx2)) (w_out (bcwrite_footer ctx2)))
    as [Hst Hd]; unfold kp_bcwrite; fold ctx0; rewrite E1; cbn [mbind option_bind]; rewrite E2; [done|].
  cbn [mbind option_bind]. eexists. rewrite Hst. done.
Qed.

(** What the writer passes to its callback is the encoding of the program:
    whenever [kp_bcwrite] has defined behaviour it reports success and has
    appended to the output exactly the header, the prototypes in the order
    children before parents, each behind its size, and the terminating zero. *)
Theorem kp_bcwrite_encodes pt name out strip st out' :
  kp_bcwrite ustr pt name out strip = Some (st, out') ->
  st = 0 /\ tr_data out' = tr_data out ++ enc_dump strip name pt.
Proof. apply kp_bcwrite_emits. Qed.

(** The writer is defined on programs whose prototypes each fit the buffer of
    1024 bytes it starts with, counting the sixteen bytes and ten bytes per
    number constant its reservations ask for on top. *)
Theorem kp_bcwrite_small_defined pt name out strip :
  Forall (small strip) (protos_of pt) ->
  exists out', kp_bcwrite ustr pt name out strip = Some (0, out') /\
    tr_data out' = tr_data out ++ enc_dump strip name pt.
Proof. apply kp_bcwrite_fits. Qed.

(** The space the writer reserves is the size of a variable-length encoding
    it no longer uses: a child constant reserves one byte and writes four, a
    number in a template table reserves eleven and writes twelve.  When the block
    has room for what is reserved but not for what is written, the write runs
    past the end of the block. *)
Theorem reservations_too_small sb p o :
  (1 <= sbufleft sb < 4 -> bcwrite_kgc1 ustr sb (UProto p) = ub) /\
  (sbufleft sb = 11 -> is_number o = true -> bcwrite_ktabk ustr sb o = ub).
Proof.
  unfold sbufleft, sbuflen. split.
  - intros H. cbn [bcwrite_kgc1]. unfold kp_buf_more, sbufleft, sbuflen, bcwrite_uint32, kp_buf_wmem, sbuflen.
    destruct (Z.gtb_spec 1 (sb_size sb - Z.of_nat (length (sb_data sb)))); [lia|].
    rewrite length_le_bytes. rewrite (proj2 (Z.leb_gt _ _)); [done|lia].
  - intros H Hn. unfold bcwrite_ktabk. rewrite Hn.
    assert (Hs : is_string o = false) by (unfold is_number, is_string, itype in *; bool_to_Prop; by rewrite Hn).
    rewrite Hs. unfold kp_buf_more, sbufleft, sbuflen.
    destruct (Z.gtb_spec (1 + 10) (sb_size sb - Z.of_nat (length (sb_data sb)))); [lia|].
    rewrite fits_u32 by (unfold sbuflen; rewrite zlen_u32; lia). cbn [mbind option_bind].
    unfold kp_buf_wmem, sbuflen, enc_u32. cbn [sb_data sb_size]. rewrite length_app, !length_le_bytes.
    rewrite (proj2 (Z.leb_gt _ _)); [done|lia].
Qed.

End Enc.
