(* ===== verification/BcRound.v ===== *)
(** * BcRound: what the compiler dumps, the VM loads

    The reader of [runtime/kp_bcread.c] undoes the writer of
    [userspace/kp_bcwrite.c].  Reading is specified with a small logic of
    triples: what bytes an action consumes, which prototypes it takes from the
    stack, how many strings it interns at most, and what holds of its result in
    the string table it leaves behind.  Strings are used through the laws of
    [Intern] only. *)

From S2P Require Import Prelude Types Bytecode Mempool Tab TabInv TabSpec TabFill Intern BcWrite BcRead BcEnc.
#[local] Open Scope word_scope.

Notation "x <-- m ;; f" := (rbind m (λ x, f)) (at level 100, m at next level, right associativity).

(** ** The layout of a prototype *)

Lemma align16 n : n <= (n + 15) .& Z.lnot 15 <= n + 15 /\ ((n + 15) .& Z.lnot 15) mod 16 = 0.
Proof.
  change (Z.lnot 15) with (Z.lnot (Z.ones 4)). rewrite <- Z.ldiff_land, Z.ldiff_ones_r by lia.
  rewrite Z.shiftl_mul_pow2, Z.shiftr_div_pow2 by lia. change (2 ^ 4) with 16.
  rewrite Z.mod_mul by lia. pose proof (Z.div_mod (n + 15) 16). pose proof (Z.mod_pos_bound (n + 15) 16). lia.
Qed.

Lemma align2 n : n <= (n + 1) .& Z.lnot 1 <= n + 1.
Proof.
  change (Z.lnot 1) with (Z.lnot (Z.ones 1)). rewrite <- Z.ldiff_land, Z.ldiff_ones_r by lia.
  rewrite Z.shiftl_mul_pow2, Z.shiftr_div_pow2 by lia. change (2 ^ 1) with 2.
  pose proof (Z.div_mod (n + 1) 2). pose proof (Z.mod_pos_bound (n + 1) 2). lia.
Qed.

Lemma layout_bounds sizebc sizekgc sizekn sizeuv sizedbg :
  0 <= sizekn -> 0 <= sizeuv -> 0 <= sizedbg ->
  let l := proto_layout sizebc sizekgc sizekn sizeuv sizedbg in
  sizeof_ktap_proto + sizebc * 4 + sizekgc * 8 <= ofsk l < sizeof_ktap_proto + sizebc * 4 + sizekgc * 8 + 16 /\
  ofsk l mod 16 = 0 /\ ofsuv l = ofsk l + sizekn * 16 /\
  ofsuv l + sizeuv * 2 <= ofsdbg l <= ofsuv l + (sizeuv + 1) * 2 /\ sizept l = ofsdbg l + sizedbg.
Proof.
  intros H1 H2 H3. cbn [proto_layout ofsk ofsuv ofsdbg sizept]. unfold sizeof_ktap_val.
  set (n := sizeof_ktap_proto + sizebc * 4 + sizekgc * 8).
  replace (n + 16 - 1) with (n + 15) by lia. change (16 - 1) with 15.
  destruct (align16 n) as [? ?]. pose proof (align2 sizeuv). lia.
Qed.

Section Round.
Context {S : Type} {II : Intern S} {IL : InternLaws S}.
Context (ta : talloc).
Context (ustr : Z -> bytes).

Abbreviation R := (R (S := S)).

(** ** Pure reads *)

(** [m] consumes [bs], gives [v] and touches nothing else. *)
Definition reads {A} (m : R A) (bs : bytes) (v : A) : Prop :=
  forall rest stk st k, m (mkr (bs ++ rest) stk st k) = Some (Some v, mkr rest stk st k).

Lemma reads_ret {A} (v : A) : reads (rret v) [] v.
Proof. by intros rest stk st k. Qed.

Lemma reads_bind {A B} (m : R A) (f : A -> R B) bs1 bs2 v w :
  reads m bs1 v -> reads (f v) bs2 w -> reads (rbind m f) (bs1 ++ bs2) w.
Proof.
  intros Hm Hf rest stk st k. unfold rbind. rewrite <- app_assoc, Hm. apply Hf.
Qed.

Lemma reads_mem bs n : n = zlen bs -> reads (bcread_mem n) bs bs.
Proof.
  intros -> rest stk st k. unfold bcread_mem, zlen. cbn [r_in r_stack r_str r_err].
  rewrite (proj2 (Z.leb_le _ _)) by lia. rewrite (proj2 (Z.leb_le _ _)) by (rewrite length_app; lia).
  cbn [andb]. by rewrite Nat2Z.id, take_app_length, drop_app_length.
Qed.

Lemma reads_map {A B} (m : R A) (g : A -> B) bs v : reads m bs v -> reads (x <-- m;; rret (g x)) bs (g v).
Proof. intros Hm. rewrite <- (app_nil_r bs). eapply reads_bind; [done|apply reads_ret]. Qed.

Lemma reads_byte b : reads bcread_byte [b] b.
Proof.
  pose proof (reads_map _ le_val _ _ (reads_mem [b] 1 eq_refl)) as H.
  cbn [le_val] in H. by rewrite Z.mul_0_r, Z.add_0_r in H.
Qed.

Lemma reads_u32 v : reads bcread_uint32 (enc_u32 v) (u32 v).
Proof.
  pose proof (reads_map _ le_val _ _ (reads_mem (enc_u32 v) 4 eq_refl)) as H.
  unfold enc_u32 in H at 2. rewrite le_val_le_bytes in H. fold (u32 (u32 v)) in H.
  change (256 ^ Z.of_nat 4) with (2 ^ 32) in H. rewrite Z.mod_small in H by (by apply wrap_range). done.
Qed.

Lemma reads_int v : in_s 32 v -> reads bcread_int (enc_u32 v) v.
Proof.
  intros Hv. pose proof (reads_map _ s32 _ _ (reads_u32 v)) as H.
  assert (E : s32 (u32 v) = v); [|by rewrite E in H].
  rewrite <- (swrap_id 32 v) at 2 by done. unfold swrap, wrap. f_equal. by rewrite Zplus_mod_idemp_l.
Qed.

Lemma reads_num v : reads (n <-- bcread_mem 8;; rret (set_number (le_val n))) (le_bytes 8 (u64 v)) (set_number v).
Proof.
  pose proof (reads_map _ (λ n, set_number (le_val n)) _ _ (reads_mem (le_bytes 8 (u64 v)) 8 eq_refl)) as H.
  cbv beta in H. rewrite le_val_le_bytes in H. change (256 ^ Z.of_nat 8) with (2 ^ 64) in H.
  rewrite Z.mod_small in H by (by apply wrap_range).
  assert (E : set_number (u64 v) = set_number v); [|by rewrite E in H].
  unfold set_number, swrap, wrap. f_equal. f_equal. by rewrite Zplus_mod_idemp_l.
Qed.

(** ** Reads that intern strings and take prototypes *)

(** More strings. *)
Definition ext (st st' : S) : Prop :=
  (forall x b, bytes_at st x = Some b -> bytes_at st' x = Some b) /\
  (forall x h, hash_at st x = Some h -> hash_at st' x = Some h).

Definition mono (P : S -> Prop) : Prop := forall st st', ext st st' -> P st -> P st'.

Lemma ext_refl st : ext st st. Proof. done. Qed.
Lemma ext_trans st1 st2 st3 : ext st1 st2 -> ext st2 st3 -> ext st1 st3.
Proof. intros [? ?] [? ?]. split; eauto. Qed.

(** [st'] extends [st] by at most [n] strings. *)
Record extends (n : nat) (st st' : S) : Prop := {
  ex_ok : intern_ok st';
  ex_room : (intern_room st <= n + intern_room st')%nat;
  ex_ext : ext st st'
}.

Lemma extends_refl n st : intern_ok st -> extends n st st.
Proof. intros H. split; [done|lia|apply ext_refl]. Qed.

Lemma extends_trans n1 n2 st1 st2 st3 :
  extends n1 st1 st2 -> extends n2 st2 st3 -> extends (n1 + n2) st1 st3.
Proof. intros [? ? ?] [? ? ?]. split; [done|lia|by eapply ext_trans]. Qed.

(** From a state where [P] holds, with room for [n] strings, [m] consumes [bs],
    takes [pin] from the stack and leaves [pout], and [Q] holds of its result. *)
Definition triple {A} (P : S -> Prop) (m : R A) (bs : bytes) (pin pout : list kproto) (n : nat)
  (Q : A -> S -> Prop) : Prop :=
  forall rest stk st k, intern_ok st -> (n <= intern_room st)%nat -> P st ->
    exists x st', m (mkr (bs ++ rest) (pin ++ stk) st k) = Some (Some x, mkr rest (pout ++ stk) st' k) /\
      extends n st st' /\ Q x st'.

Lemma triple_bind {A B} P (m : R A) (f : A -> R B) bs1 bs2 p1 p2 p3 n1 n2 Q1 Q2 :
  triple P m bs1 p1 p2 n1 Q1 -> (forall x, triple (Q1 x) (f x) bs2 p2 p3 n2 Q2) ->
  triple P (rbind m f) (bs1 ++ bs2) p1 p3 (n1 + n2) Q2.
Proof.
  intros Hm Hf rest stk st k Hok Hn HP. unfold rbind. rewrite <- app_assoc.
  destruct (Hm (bs2 ++ rest) stk st k Hok ltac:(lia) HP) as (x & st1 & -> & E1 & HQ1).
  destruct (Hf x rest stk st1 k (ex_ok _ _ _ E1)) as (y & st2 & -> & E2 & HQ2);
    [pose proof (ex_room _ _ _ E1); lia|done|].
  exists y, st2. split_and!; [done|by eapply extends_trans|done].
Qed.

(** A pure read first. *)
Lemma triple_reads {A B} P (m : R A) (f : A -> R B) bs1 bs2 v p1 p2 n Q :
  reads m bs1 v -> triple P (f v) bs2 p1 p2 n Q -> triple P (rbind m f) (bs1 ++ bs2) p1 p2 n Q.
Proof.
  intros Hm Hf rest stk st k Hok Hn HP. unfold rbind. rewrite <- app_assoc, Hm. by apply Hf.
Qed.

Lemma triple_ret {A} (P : S -> Prop) (v : A) p (Q : A -> S -> Prop) :
  (forall st, P st -> Q v st) -> triple P (rret v) [] p p 0 Q.
Proof.
  intros HQ rest stk st k Hok _ HP. exists v, st. split_and!; [done|by apply extends_refl|auto].
Qed.

(** Adapt the pre- and postcondition. *)
Lemma triple_conseq {A} (P P' : S -> Prop) (m : R A) bs p1 p2 n (Q Q' : A -> S -> Prop) :
  (forall st, P' st -> P st) -> (forall x st, Q x st -> Q' x st) ->
  triple P m bs p1 p2 n Q -> triple P' m bs p1 p2 n Q'.
Proof.
  intros HP HQ Hm rest stk st k Hok Hn HP'. destruct (Hm rest stk st k Hok Hn (HP _ HP')) as (x & st' & ? & ? & ?).
  exists x, st'. auto.
Qed.

(** Facts that survive interning can be carried along. *)
Lemma triple_frame {A} (P F : S -> Prop) (m : R A) bs p1 p2 n (Q : A -> S -> Prop) :
  mono F -> triple P m bs p1 p2 n Q ->
  triple (λ st, P st /\ F st) m bs p1 p2 n (λ x st, Q x st /\ F st).
Proof.
  intros HF Hm rest stk st k Hok Hn [HP Hf]. destruct (Hm rest stk st k Hok Hn HP) as (x & st' & ? & E & ?).
  exists x, st'. split_and!; try done. eapply HF; [apply E|done].
Qed.

(** ** Strings *)

Definition str_ok (bs : bytes) : Prop :=
  Forall is_byte bs /\ (0 < length bs)%nat /\ zlen bs < KP_MAX_STR.

(** The string object at [a] has the bytes [bs] and a hash. *)
Definition str_at (bs : bytes) (a : Z) (st : S) : Prop :=
  bytes_at st a = Some bs /\ is_Some (hash_at st a) /\ in_s 64 a.

Lemma str_at_mono bs a : mono (str_at bs a).
Proof. intros st st' [Hb Hh] (? & [h Eh] & ?). split_and!; eauto. Qed.

Lemma triple_str P bs p : mono P -> str_ok bs ->
  triple P (kp_str_new bs) [] p p 1 (λ a st, a <> 0 /\ str_at bs a st /\ P st).
Proof.
  intros HP (Hb & H0 & Hl) rest stk st k Hok Hn HPst.
  destruct (intern_spec st k bs Hok ltac:(lia) Hb H0 Hl) as (a & st' & E & Ha & Hok' & Hroom & Hba & Hh & Hr).
  pose proof (intern_mono _ _ _ _ _ _ Hok E) as Hext.
  exists a, st'. unfold kp_str_new. cbn [r_str r_err r_in r_stack]. rewrite E. cbn [mbind option_bind].
  split_and!; try done. by eapply HP.
Qed.

(** A length and the bytes of a string behind a tag, as both kinds of constants
    have them. *)
Lemma triple_tagged {A} P bs (g : Z -> A) p : mono P -> str_ok bs ->
  triple P (q <-- bcread_mem (zlen bs);; ts <-- kp_str_new q;; if ts =? 0 then rfail else rret (g ts))
    bs p p 1 (λ x st, exists a, x = g a /\ str_at bs a st /\ P st).
Proof.
  intros HP Hbs. rewrite <- (app_nil_r bs) at 2. eapply triple_reads; [by apply reads_mem|].
  change 1%nat with (1 + 0)%nat. rewrite <- (app_nil_r []). eapply triple_bind; [by apply triple_str|].
  intros a rest stk st k Hok Hn (Ha & Hs & HPst). rewrite (proj2 (Z.eqb_neq a 0) Ha).
  exists (g a), st. split_and!; [done|by apply extends_refl|eauto].
Qed.

(** ** Constants of template tables *)

Definition is_pri (o : ktap_val) : Prop :=
  type o = KTAP_TNIL \/ type o = KTAP_TFALSE \/ type o = KTAP_TTRUE.

Definition uval_ok (o : ktap_val) : Prop :=
  (is_string o = true /\ str_ok (ustr (val o))) \/ (is_number o = true /\ in_s 64 (val o)) \/ is_pri o.

(** [o'] stands in the VM for what [o] is in the compiler. *)
Definition val_rel (o o' : ktap_val) (st : S) : Prop :=
  if is_string o then exists a, o' = set_string a /\ str_at (ustr (val o)) a st
  else if is_number o then o' = o
  else type o' = type o /\ in_s 64 (val o').

Lemma val_rel_mono o o' : mono (val_rel o o').
Proof.
  intros st st' E. unfold val_rel. destruct (is_string o); [|done].
  intros (a & -> & Ha). exists a. split; [done|]. by eapply str_at_mono.
Qed.

Lemma val_rel_type o o' st : val_rel o o' st -> type o' = type o.
Proof.
  unfold val_rel. destruct (is_string o) eqn:Es; [|destruct (is_number o)].
  - intros (a & -> & _). unfold is_string, itype in Es. bool_to_Prop. done.
  - by intros ->.
  - by intros [-> _].
Qed.

Lemma pri_cases o : is_pri o -> is_string o = false /\ is_number o = false /\
  exists c, BCDUMP_KTAB_NIL + u32 (Z.lnot (itype o)) = c /\ 0 <= c <= 2 /\ u32 (Z.lnot c) = type o.
Proof.
  unfold is_string, is_number, itype. intros [->|[->| ->]]; split_and!; try done;
    eexists; (split; [reflexivity|]); vm_compute; done.
Qed.

Lemma triple_ktabk P o junk p : mono P -> uval_ok o -> in_s 64 (val junk) ->
  triple P (bcread_ktabk junk) (enc_ktabk ustr o) p p 1 (λ o' st, val_rel o o' st /\ P st).
Proof.
  intros HP Hok Hj. unfold bcread_ktabk, enc_ktabk.
  destruct Hok as [[Hs Hstr]|[[Hn Hr]|Hp]].
  - rewrite Hs. pose proof Hstr as (_ & H0 & Hl).
    eapply triple_reads.
    { apply reads_int. unfold in_s, BCDUMP_KTAB_STR. change KP_MAX_STR with 512 in Hl. unfold zlen in *. lia. }
    cbv beta. destruct (Z.geb_spec (BCDUMP_KTAB_STR + zlen (ustr (val o))) BCDUMP_KTAB_STR) as [_|Hx];
      [|pose proof (zlen_nonneg (ustr (val o))); lia].
    replace (BCDUMP_KTAB_STR + zlen (ustr (val o)) - BCDUMP_KTAB_STR) with (zlen (ustr (val o))) by lia.
    eapply triple_conseq; [|intros x st|by apply (triple_tagged P (ustr (val o)) set_string)]; [done|].
    intros (a & -> & Ha & HPst). split; [|done]. unfold val_rel. rewrite Hs. eauto.
  - assert (Hs : is_string o = false) by (unfold is_number, is_string, itype in *; bool_to_Prop; by rewrite Hn).
    rewrite Hs, Hn. eapply triple_reads; [by apply reads_int|]. cbv beta. cbn [Z.geb Z.compare Z.eqb Pos.eqb BCDUMP_KTAB_NUM BCDUMP_KTAB_STR].
    intros rest stk st k Hok' _ HPst. rewrite reads_num. eexists _, st.
    split; [done|]. split; [by apply extends_refl|]. split; [|done]. unfold val_rel. rewrite Hs, Hn. unfold nvalue. by apply number_key.
  - destruct (pri_cases o Hp) as (Hs & Hn & c & Ec & Hc & Et). rewrite Hs, Hn, Ec.
    rewrite <- (app_nil_r (enc_u32 c)). eapply triple_reads; [apply reads_int; unfold in_s; lia|]. cbv beta.
    destruct (Z.geb_spec c BCDUMP_KTAB_STR) as [Hx|_]; [unfold BCDUMP_KTAB_STR in Hx; lia|].
    rewrite (proj2 (Z.eqb_neq c BCDUMP_KTAB_NUM)) by (unfold BCDUMP_KTAB_NUM; lia).
    intros rest stk st k Hok' _ HPst. eexists _, st.
    split; [done|]. split; [by apply extends_refl|]. split; [|done]. unfold val_rel. by rewrite Hs, Hn, Et.
Qed.

(** ** Template tables *)

(** A constant that can be a key. *)
Definition ukey_ok (o : ktap_val) : Prop := uval_ok o /\ is_nil o = false.

Lemma plain_of_key st o o' : ukey_ok o -> val_rel o o' st -> plain_key (tab_ctx st) o'.
Proof.
  intros [Hok Hnil] Hr. pose proof (val_rel_type _ _ _ Hr) as Et.
  assert (Hty : type o = KTAP_TSTR \/ type o = KTAP_TNUM \/ is_pri o).
  { unfold uval_ok, is_string, is_number, itype in Hok. destruct Hok as [[Ho _]|[[Ho _]|Ho]]; bool_to_Prop; auto. }
  split; unfold is_nil, is_eventstr, is_string, itype; rewrite ?Et.
  - exact Hnil.
  - by destruct Hty as [->|[->|[->|[->| ->]]]].
  - by destruct Hty as [->|[->|[->|[->| ->]]]].
  - by destruct Hty as [->|[->|[->|[->| ->]]]].
  - intros Hs. unfold val_rel, is_string, itype in Hr. rewrite Hs in Hr. by destruct Hr as (a & -> & _ & Ha & _).
  - unfold val_rel in Hr. destruct (is_string o); [by destruct Hr as (a & -> & _ & _ & ?)|].
    destruct (is_number o) eqn:En; [|apply Hr]. subst o'. unfold is_number, itype in En. bool_to_Prop.
    destruct Hok as [[Ho _]|[[_ ?]|Ho]]; [|done|].
    + unfold is_string, itype in Ho. by rewrite En in Ho.
    + unfold is_pri in Ho. rewrite En in Ho. by destruct Ho as [?|[?|?]].
Qed.

(** What a template table becomes: its entries, stored in order into an empty
    table. *)
Definition entry_rel (st : S) (e e' : ktap_val * ktap_val) : Prop :=
  val_rel e.1 e'.1 st /\ val_rel e.2 e'.2 st.

Definition puts (l : list (ktap_val * ktap_val)) (m : gmap keyid ktap_val) : gmap keyid ktap_val :=
  fold_left (λ m e, <[keyid_of e.1 := e.2]> m) l m.

Definition tab_rel (t : utab) (t' : ktap_tab) (st : S) : Prop :=
  tab_inv (tab_ctx st) t' /\
  exists kvs, Forall2 (entry_rel st) (hash_entries t) kvs /\ contents t' = puts kvs ∅.

Lemma tab_inv_mono t : mono (λ st, tab_inv (tab_ctx st) t).
Proof. intros st st' [_ Hh]. apply tab_inv_ext. apply Hh. Qed.

Lemma entries_mono es kvs : mono (λ st, Forall2 (entry_rel st) es kvs).
Proof.
  intros st st' E HF. eapply list.Forall2_impl; [exact HF|].
  intros e e' [? ?]. split; by eapply val_rel_mono.
Qed.

Lemma tab_rel_mono t t' : mono (tab_rel t t').
Proof.
  intros st st' E (Hi & kvs & Hk & Hc). split; [by eapply tab_inv_mono|].
  exists kvs. split; [|done]. by eapply entries_mono.
Qed.

Definition entry_ok (e : ktap_val * ktap_val) : Prop := ukey_ok e.1 /\ uval_ok e.2 /\ is_nil e.2 = false.

(** A table under construction. *)
Record filling (t : ktap_tab) (todo : nat) (m : gmap keyid ktap_val) (st : S) : Prop := {
  fl_inv : tab_inv (tab_ctx st) t;
  fl_live : no_dead t;
  fl_room : (size m + todo <= n_nodes t)%nat;
  fl_map : contents t = m
}.

Lemma filling_mono t n m : mono (filling t n m).
Proof. intros st st' E [? ? ? ?]. split; try done. by eapply (tab_inv_mono t). Qed.

Lemma size_insert_le (m : gmap keyid ktap_val) i x : (size (<[i := x]> m) <= Datatypes.S (size m))%nat.
Proof. rewrite map_size_insert. destruct (m !! i); simpl; lia. Qed.

Lemma triple_tab_set t key v n m k0 v0 p :
  ukey_ok k0 -> is_nil v0 = false ->
  triple (λ st, filling t (Datatypes.S n) m st /\ val_rel k0 key st /\ val_rel v0 v st)
    (tab_set_r t key v) [] p p 0
    (λ t' st, filling t' n (<[keyid_of key := v]> m) st /\ val_rel k0 key st /\ val_rel v0 v st).
Proof.
  intros Hk Hv rest stk st k Hok _ (F & Rk & Rv).
  assert (Hnil : is_nil v = false) by (unfold is_nil, itype in *; by rewrite (val_rel_type _ _ _ Rv)).
  destruct (set_live (tab_ctx st) t k key v (fl_inv _ _ _ _ F) (plain_of_key _ _ _ Hk Rk) Hnil (fl_live _ _ _ _ F))
    as (t' & Eset & I' & Ec & Hd & Hn); [rewrite (fl_map _ _ _ _ F); pose proof (fl_room _ _ _ _ F); lia|].
  exists t', st. unfold tab_set_r. cbn [r_str r_err r_in r_stack app]. rewrite Eset. cbn [mbind option_bind].
  split; [done|]. split; [by apply extends_refl|]. split; [|done].
  split; [done..| |by rewrite Ec, (fl_map _ _ _ _ F)].
  pose proof (size_insert_le m (keyid_of key) v). pose proof (fl_room _ _ _ _ F). lia.
Qed.

Context (Hjunk : in_s 64 (val (junk_val ta))).

Lemma triple_read_hash es t m P p : mono P -> Forall entry_ok es ->
  triple (λ st, filling t (length es) m st /\ P st) (read_hash ta (length es) t)
    (enc_ktabks ustr (flat_map (λ e, [e.1; e.2]) es)) p p (2 * length es)
    (λ t' st, (tab_inv (tab_ctx st) t' /\ exists kvs, Forall2 (entry_rel st) es kvs /\
       contents t' = puts kvs m) /\ P st).
Proof using Hjunk.
  intros HP HF. revert t m P HP. induction HF as [|[k0 v0] es (Hk & Hv & Hvn) HF IH]; intros t m P HP.
  - apply triple_ret. intros st [F HPst]. split; [|done]. split; [apply F|].
    exists []. split; [constructor|]. apply F.
  - cbn [length read_hash flat_map app enc_ktabks fst snd] in *. fold (enc_ktabks ustr).
    replace (2 * Datatypes.S (length es))%nat with (1 + (1 + (0 + 2 * length es)))%nat by lia.
    eapply triple_bind; [apply triple_ktabk; [|by apply Hk|done]|].
    { intros st st' E [? ?]. split; [by eapply filling_mono|by eapply HP]. }
    intros key. cbv beta.
    eapply triple_bind; [apply triple_ktabk; [|exact Hv|done]|].
    { intros st st' E (? & ? & ?). split_and!; [by eapply val_rel_mono|by eapply filling_mono|by eapply HP]. }
    intros v. cbv beta. rewrite <- (app_nil_l (flat_map _ _)).
    eapply triple_bind.
    { eapply triple_conseq; [|intros x st Hx; exact Hx
        |eapply triple_frame; [exact HP|exact (triple_tab_set t key v (length es) m k0 v0 p Hk Hvn)]].
      by intros st (? & ? & ? & ?). }
    intros t'. cbv beta.
    eapply triple_conseq; [| |apply (IH t' (<[keyid_of key := v]> m) (λ st, (val_rel k0 key st /\ val_rel v0 v st) /\ P st))].
    + intros st [[? ?] ?]. done.
    + intros t'' st ((? & kvs & HF2 & Hc) & [? ?] & ?). split; [|done]. split; [done|].
      exists ((key, v) :: kvs). split; [by constructor|done].
    + intros st st' E [[? ?] ?]. split_and!; [by eapply val_rel_mono..|by eapply HP].
Qed.

Context (Hobj : ok_obj ta = true) (Hnode : ok_node ta = true).

(** Template tables as the compiler builds them: no array part, at least one
    entry and no more than the reader has bits for. *)
Record utab_ok (t : utab) : Prop := {
  ut_arr : trim_nil (ut_array t) = [];
  ut_ents : Forall entry_ok (hash_entries t);
  ut_size : 1 <= zlen (hash_entries t) <= 2 ^ KP_MAX_HBITS
}.

Lemma triple_ktab t P p : mono P -> utab_ok t ->
  triple P (bcread_ktab ta) (enc_ktab ustr t) p p (2 * length (hash_entries t))
    (λ t' st, tab_rel t t' st /\ P st).
Proof using Hjunk Hobj Hnode.
  intros HP [Ha He Hs]. unfold bcread_ktab, enc_ktab. rewrite Ha.
  change (2 ^ KP_MAX_HBITS) with 67108864 in Hs.
  eapply triple_reads; [by apply reads_int|]. cbv beta.
  eapply triple_reads; [apply reads_int; unfold in_s; lia|]. cbv beta.
  cbn [enc_ktabks flat_map app]. fold (enc_ktabks ustr). set (es := hash_entries t) in *.
  rewrite <- (app_nil_l (enc_ktabks ustr _)).
  change (2 * length es)%nat with (0 + 2 * length es)%nat.
  eapply (triple_bind P (tab_new_r ta (u32 (zlen [])) (hsize2hbits (zlen es))) _ _ _ _ _ _ _ _
    (λ t0 st, (filling t0 (length es) ∅ st /\ array t0 = []) /\ P st)).
  { intros rest stk st k Hok _ HPst.
    destruct (fresh_table (tab_ctx st) k ta (zlen es) Hobj Hnode Hs) as (t0 & E & I & Ec & Hd & Ea & Hn).
    exists t0, st. unfold tab_new_r. cbn [r_str r_err r_in r_stack app].
    change (u32 (zlen [])) with 0. rewrite E. cbn [mbind option_bind].
    split; [done|]. split; [by apply extends_refl|]. split; [|done]. split; [|done].
    split; try done. rewrite map_size_empty. unfold zlen in Hn. lia. }
  intros t0. change (Z.to_nat (zlen [])) with 0%nat. cbn [take read_array]. 
  intros rest stk st k Hok Hn [[F Et] HPst]. unfold rbind.
  assert (E0 : with_array t0 [] = t0) by (rewrite <- Et; by destruct t0).
  rewrite drop_0, Et. cbn [take read_array rret app]. unfold rret. cbv beta iota. rewrite E0.
  replace (Z.to_nat (zlen es)) with (length es) by (unfold zlen; lia).
  destruct (triple_read_hash es t0 ∅ P p HP He rest stk st k Hok Hn) as (t' & st' & E' & X & [? ?]); [done|].
  exists t', st'. split; [exact E'|]. by split.
Qed.

(** ** Constants of prototypes *)

(** Line info and variable info of a prototype with debug information. *)
Definition dbg_rel (strip : bool) (pt : uproto) (o : option (bytes * nat)) : Prop :=
  if sizedbg strip pt =? 0 then o = None
  else exists d v, p_dbg pt = Some d /\ o = Some (d, v).

Inductive obj_rel (cn : Z) (strip : bool) (st : S) : ugc -> kobj -> Prop :=
  | rel_str s a : str_at (ustr s) a st -> obj_rel cn strip st (UStr s) (OStr a)
  | rel_tab t t' : tab_rel t t' st -> obj_rel cn strip st (UTab t) (OTab t')
  | rel_proto p p' : proto_rel cn strip st p p' -> obj_rel cn strip st (UProto p) (OProto p')
with proto_rel (cn : Z) (strip : bool) (st : S) : uproto -> kproto -> Prop :=
  | rel_proto_of pt kgc dbg sizept :
      Forall2 (obj_rel cn strip st) (p_kgc pt) kgc -> dbg_rel strip pt dbg ->
      proto_rel cn strip st pt
        (mkkproto (p_flags pt .& (PROTO_CHILD .| PROTO_VARARG .| PROTO_FFI)) (p_numparams pt)
           (p_framesize pt)
           (BCINS_AD (bcop_code (if negb (p_flags pt .& PROTO_VARARG =? 0) then BC_FUNCV else BC_FUNCF))
              (p_framesize pt) 0 :: tail (p_bc pt))
           (p_uv pt) kgc (p_kn pt)
           (if sizedbg strip pt =? 0 then 0 else p_firstline pt)
           (if sizedbg strip pt =? 0 then 0 else p_numline pt) dbg sizept cn).

Lemma objs_mono cn strip l l' :
  Forall (child_prop (λ c, forall c', mono (λ st, proto_rel cn strip st c c'))) l ->
  mono (λ st, Forall2 (obj_rel cn strip st) l l').
Proof.
  intros HF st st' E H2. revert HF. induction H2 as [|o o' l l' Ho H2 IH]; [constructor|].
  intros HF. apply list.Forall_cons in HF as [Hc HF]. constructor; [|by apply IH].
  destruct Ho as [s a Ha|t t' Ht|c c' Hp]; constructor.
  - by eapply str_at_mono.
  - by eapply tab_rel_mono.
  - by eapply Hc.
Qed.

Lemma proto_rel_mono cn strip pt : forall kp, mono (λ st, proto_rel cn strip st pt kp).
Proof.
  induction pt as [pt IH] using uproto_induction. intros kp st st' E H. destruct H as [pt kgc dbg sz Hk Hd].
  constructor; [|done]. by eapply (objs_mono _ _ _ _ IH).
Qed.

Lemma kgc_rel_mono cn strip l l' : mono (λ st, Forall2 (obj_rel cn strip st) l l').
Proof.
  apply objs_mono, list.Forall_forall. intros [s|t|c] _; [done..|]. simpl. intros c'. apply proto_rel_mono.
Qed.

(** The child prototypes among constants, in the order the reader wants them. *)
Fixpoint direct (l : list ugc) : list uproto :=
  match l with
  | [] => []
  | UProto c :: l' => c :: direct l'
  | _ :: l' => direct l'
  end.

Lemma stack_rel_mono cn strip l ps : mono (λ st, Forall2 (proto_rel cn strip st) l ps).
Proof.
  intros st st' E HF. eapply list.Forall2_impl; [exact HF|]. intros c c'. by apply proto_rel_mono.
Qed.

Lemma direct_app l1 l2 : direct (l1 ++ l2) = direct l1 ++ direct l2.
Proof. induction l1 as [|[s|t|c] l1 IH]; simpl; by rewrite ?IH. Qed.

Lemma triple_stack {A} P (m : R A) bs p1 p2 p n Q :
  triple P m bs p1 p2 n Q -> triple P m bs (p1 ++ p) (p2 ++ p) n Q.
Proof.
  intros Hm rest stk st k Hok Hn HP. destruct (Hm rest (p ++ stk) st k Hok Hn HP) as (x & st' & E & ? & ?).
  exists x, st'. by rewrite <- !app_assoc.
Qed.

Definition ugc_ok (o : ugc) : Prop :=
  match o with
  | UStr s => str_ok (ustr s)
  | UTab t => utab_ok t
  | UProto _ => True
  end.

(** Strings interned for a constant, at most. *)
Definition nstr (o : ugc) : nat :=
  match o with
  | UStr _ => 1
  | UTab t => 2 * length (hash_entries t)
  | UProto _ => 0
  end.

Definition nstrs (l : list ugc) : nat := foldr (λ o n, nstr o + n)%nat 0%nat l.

Section Consts.
Context (cn : Z) (strip : bool).

Lemma triple_kgc1 o ps P : mono P -> ugc_ok o ->
  triple (λ st, Forall2 (proto_rel cn strip st) (direct [o]) ps /\ P st)
    (bcread_kgc1 ta) (enc_kgc1 ustr o) ps [] (nstr o)
    (λ o' st, obj_rel cn strip st o o' /\ P st).
Proof using Hjunk Hobj Hnode.
  intros HP Hok. unfold bcread_kgc1. destruct o as [s|t|c]; cbn [enc_kgc1 nstr direct ugc_ok] in *.
  - pose proof Hok as (_ & H0 & Hl). change KP_MAX_STR with 512 in Hl. pose proof (zlen_nonneg (ustr s)).
    eapply triple_reads; [apply reads_int; unfold in_s, BCDUMP_KGC_STR; lia|]. cbv beta.
    destruct (Z.geb_spec (BCDUMP_KGC_STR + zlen (ustr s)) BCDUMP_KGC_STR) as [_|Hx]; [|lia].
    replace (BCDUMP_KGC_STR + zlen (ustr s) - BCDUMP_KGC_STR) with (zlen (ustr s)) by lia.
    intros rest stk st k Hok' Hn [H2 HPst]. apply Forall2_nil_inv_l in H2 as ->.
    destruct (triple_tagged P (ustr s) OStr [] HP Hok rest stk st k Hok' Hn HPst)
      as (x & st' & E & X & a & -> & Ha & HP'). exists (OStr a), st'. split; [exact E|]. split; [done|].
    split; [by constructor|done].
  - eapply triple_reads; [by apply reads_int|]. cbv beta.
    intros rest stk st k Hok' Hn [H2 HPst]. apply Forall2_nil_inv_l in H2 as ->.
    destruct (triple_ktab t P [] HP Hok rest stk st k Hok' Hn HPst) as (t' & st' & E & X & Ht & HP').
    exists (OTab t'), st'. split; [|split; [done|split; [by constructor|done]]].
    cbn [app] in *. change (BCDUMP_KGC_TAB >=? BCDUMP_KGC_STR) with false.
    change (BCDUMP_KGC_TAB =? BCDUMP_KGC_TAB) with true. cbv iota. unfold rbind. by rewrite E.
  - rewrite <- (app_nil_r (enc_u32 _)). eapply triple_reads; [by apply reads_int|]. cbv beta.
    intros rest stk st k Hok' Hn [H2 HPst]. apply Forall2_cons_inv_l in H2 as (c' & l' & Hc & H2 & ->).
    apply Forall2_nil_inv_l in H2 as ->. exists (OProto c'), st.
    split; [done|]. split; [by apply extends_refl|]. split; [by constructor|done].
Qed.

Lemma triple_kgc l : Forall ugc_ok l -> forall ps P, mono P ->
  triple (λ st, Forall2 (proto_rel cn strip st) (direct l) ps /\ P st)
    (bcread_kgc ta (length l)) (enc_kgc ustr l) ps [] (nstrs l)
    (λ l' st, Forall2 (obj_rel cn strip st) l l' /\ P st).
Proof using Hjunk Hobj Hnode.
  induction 1 as [|o l Ho HF IH]; intros ps P HP.
  { intros rest stk st k Hok' Hn [H2 HPst]. apply Forall2_nil_inv_l in H2 as ->. exists [], st.
    split; [done|]. split; [by apply extends_refl|]. done. }
  intros rest stk st k Hok' Hn [H2 HPst].
  change (direct (o :: l)) with (direct ([o] ++ l)) in H2. rewrite direct_app in H2.
  apply Forall2_app_inv_l in H2 as (ps1 & ps2 & H1 & H2 & ->).
  cbn [length bcread_kgc nstrs foldr] in *. fold (nstrs l) in *.
  change (enc_kgc ustr (o :: l)) with (enc_kgc1 ustr o ++ enc_kgc ustr l).
  revert rest stk st k Hok' Hn H1 H2 HPst. 
  enough (T : triple (λ st, Forall2 (proto_rel cn strip st) (direct [o]) ps1 /\
      Forall2 (proto_rel cn strip st) (direct l) ps2 /\ P st)
    (x <-- bcread_kgc1 ta;; os <-- bcread_kgc ta (length l);; rret (x :: os))
    (enc_kgc1 ustr o ++ enc_kgc ustr l) (ps1 ++ ps2) [] (nstr o + nstrs l)
    (λ l' st, Forall2 (obj_rel cn strip st) (o :: l) l' /\ P st)).
  { intros rest stk st k Hok' Hn H1 H2 HPst. by apply T. }
  eapply triple_bind.
  { apply (triple_stack _ _ _ _ []). apply triple_kgc1; [|done].
    intros st st' E [? ?]. split; [by eapply stack_rel_mono|by eapply HP]. }
  intros o'. cbv beta. cbn [app]. rewrite <- (app_nil_r (enc_kgc ustr l)), <- (Nat.add_0_r (nstrs l)).
  eapply triple_bind.
  { eapply triple_conseq; [|intros x st Hx; exact Hx|apply (IH ps2 (λ st, obj_rel cn strip st o o' /\ P st))].
    - intros st (? & ? & ?). done.
    - intros st st' E [Hr ?]. split; [|by eapply HP].
      assert (H2 : Forall2 (obj_rel cn strip st) [o] [o']) by (by constructor).
      eapply (kgc_rel_mono cn strip [o] [o'] st st' E) in H2. by inversion H2. }
  intros os. cbv beta. apply triple_ret. intros st (? & ? & ?). split; [by constructor|done].
Qed.

End Consts.

(** ** Vectors of words *)

Lemma words_enc (w : nat) (f : Z -> Z) l rest : (forall z, z ∈ l -> le_val (le_bytes w (f z)) = z) ->
  words w (length l) (flat_map (λ i, le_bytes w (f i)) l ++ rest) = l.
Proof.
  induction l as [|z l IH]; intros H; [done|]. cbn [length words flat_map]. rewrite <- app_assoc.
  rewrite take_app_length', drop_app_length' by (by rewrite length_le_bytes).
  rewrite IH by (intros; apply H; by right). f_equal. apply H. by left.
Qed.

Lemma length_enc (w : nat) (f : Z -> Z) l :
  length (flat_map (λ i, le_bytes w (f i)) l) = (w * length l)%nat.
Proof. induction l as [|z l IH]; simpl; [lia|]. rewrite length_app, length_le_bytes, IH. lia. Qed.

Lemma le_bytes_u32 z : in_u 32 z -> le_val (le_bytes 4 (u32 z)) = z.
Proof. intros Hz. rewrite le_val_le_bytes, wrap_id by done. by apply Z.mod_small. Qed.

Lemma le_bytes_u16 z : in_u 16 z -> le_val (le_bytes 2 (u16 z)) = z.
Proof. intros Hz. rewrite le_val_le_bytes, wrap_id by done. by apply Z.mod_small. Qed.

Lemma reads_knum l : Forall (λ o, is_number o = true /\ in_s 64 (val o)) l ->
  reads (bcread_knum (length l)) (enc_knum l) l.
Proof.
  induction 1 as [|o l [Ho Hr] _ IH]; [apply reads_ret|].
  cbn [length bcread_knum enc_knum flat_map]. rewrite Ho. intros rest stk st k. unfold rbind.
  rewrite <- app_assoc. rewrite (reads_mem (le_bytes 8 (u64 (nvalue o))) 8 eq_refl). cbn [rret].
  fold (enc_knum l). rewrite IH. unfold rret. do 4 f_equal.
  rewrite le_val_le_bytes. change (256 ^ Z.of_nat 8) with (2 ^ 64).
  rewrite Z.mod_small by (by apply wrap_range). rewrite <- (number_key o Ho Hr) at 2.
  unfold set_number, swrap, wrap, nvalue. f_equal. f_equal. by rewrite Zplus_mod_idemp_l.
Qed.

(** ** One prototype *)

Definition line_bytes (numline : Z) : Z := if numline <? 256 then 0 else if numline <? 65536 then 1 else 2.

(** What the compiler guarantees of a prototype, and what the reader can hold. *)
Record uproto_ok (strip : bool) (pt : uproto) : Prop := {
  po_params : in_u 8 (p_numparams pt);
  po_frame : in_u 8 (p_framesize pt);
  po_nuv : in_u 8 (zlen (p_uv pt));
  po_uv : Forall (in_u 16) (p_uv pt);
  po_bc : 1 <= zlen (p_bc pt);
  po_ins : Forall (in_u 32) (tail (p_bc pt));
  po_kgc : Forall ugc_ok (p_kgc pt);
  po_child : direct (p_kgc pt) <> [] -> has_child pt = true;
  po_kn : Forall (λ o, is_number o = true /\ in_s 64 (val o)) (p_kn pt);
  po_lines : in_s 32 (p_firstline pt) /\ in_s 32 (p_numline pt);
  po_dbg : sizedbg strip pt <> 0 -> exists v,
    bcread_varinfo (default [] (p_dbg pt))
      (Z.to_nat ((zlen (p_bc pt) - 1) ≪ line_bytes (p_numline pt))) (zlen (p_uv pt)) = Some v;
  po_sizes : sizept (proto_layout (zlen (p_bc pt)) (zlen (p_kgc pt)) (zlen (p_kn pt)) (zlen (p_uv pt))
               (sizedbg strip pt)) < 2 ^ 31 - 16;
  po_len : zlen (enc_body ustr strip pt) < 2 ^ 31 /\ zlen (enc_body ustr strip pt) mod 256 <> 0
}.

Lemma po_bounds strip pt : uproto_ok strip pt ->
  in_s 32 (zlen (p_kgc pt)) /\ in_s 32 (zlen (p_kn pt)) /\ in_s 32 (zlen (p_bc pt)) /\
  0 <= sizedbg strip pt /\ in_s 32 (sizedbg strip pt) /\
  sizes_ok ta (zlen (p_bc pt)) (zlen (p_kgc pt)) (zlen (p_kn pt)) (zlen (p_uv pt)) (sizedbg strip pt) = true.
Proof using Hobj.
  intros Hok. pose proof (po_bc _ _ Hok) as Hbc. pose proof (po_sizes _ _ Hok) as Hsz.
  pose proof (zlen_nonneg (p_kgc pt)) as H1. pose proof (zlen_nonneg (p_kn pt)) as H2.
  pose proof (zlen_nonneg (p_uv pt)) as H3.
  assert (H4 : 0 <= sizedbg strip pt) by (rewrite <- sizedbg_enc; apply zlen_nonneg).
  destruct (layout_bounds (zlen (p_bc pt)) (zlen (p_kgc pt)) _ _ _ H2 H3 H4) as (L1 & _ & L2 & L3 & L4).
  unfold sizeof_ktap_proto in L1. unfold in_s. change (2 ^ (32 - 1)) with 2147483648 in *.
  change (2 ^ 31 - 16) with 2147483632 in Hsz. split_and!; try lia.
  unfold sizes_ok. rewrite Hobj. change (2 ^ 31 - 16) with 2147483632.
  repeat (apply andb_true_iff; split); first [apply Z.leb_le|apply Z.ltb_lt|done]; lia.
Qed.

Definition flags_of (strip : bool) : Z := if strip then BCDUMP_F_STRIP else 0.

Lemma flags_strip strip : negb (flags_of strip .& BCDUMP_F_STRIP =? 0) = strip.
Proof. by destruct strip. Qed.

Lemma flags_swap strip : bcread_swap (flags_of strip) = false.
Proof. by destruct strip. Qed.

(** The optional fields of the header. *)
Definition enc_if (b : bool) (bs : bytes) : bytes := if b then bs else [].

Lemma phead_split strip pt :
  enc_phead strip pt =
  [u8 (p_flags pt .& (PROTO_CHILD .| PROTO_VARARG .| PROTO_FFI))] ++ [u8 (p_numparams pt)] ++
  [u8 (p_framesize pt)] ++ [u8 (zlen (p_uv pt))] ++
  enc_u32 (zlen (p_kgc pt)) ++ enc_u32 (zlen (p_kn pt)) ++ enc_u32 (zlen (p_bc pt) - 1) ++
  enc_if (negb strip) (enc_u32 (sizedbg strip pt)) ++
  enc_if (negb (sizedbg strip pt =? 0)) (enc_u32 (p_firstline pt)) ++
  enc_if (negb (sizedbg strip pt =? 0)) (enc_u32 (p_numline pt)).
Proof. unfold enc_phead. destruct strip; [done|]. by destruct (sizedbg false pt =? 0). Qed.

Lemma reads_if (b : bool) v : in_s 32 v ->
  reads (if b then bcread_int else rret 0) (enc_if b (enc_u32 v)) (if b then v else 0).
Proof. intros Hv. destruct b; [by apply reads_int|apply reads_ret]. Qed.

Lemma reads_ins strip pt : uproto_ok strip pt ->
  reads (bcread_bytecode (flags_of strip) (p_flags pt .& (PROTO_CHILD .| PROTO_VARARG .| PROTO_FFI))
           (p_framesize pt) (zlen (p_bc pt))) (enc_ins pt)
    (BCINS_AD (bcop_code (if negb (p_flags pt .& PROTO_VARARG =? 0) then BC_FUNCV else BC_FUNCF))
       (p_framesize pt) 0 :: tail (p_bc pt)).
Proof.
  intros Hok. unfold bcread_bytecode. rewrite flags_swap, <- Z.land_assoc.
  change ((PROTO_CHILD .| PROTO_VARARG .| PROTO_FFI) .& PROTO_VARARG) with PROTO_VARARG.
  pose proof (po_bc _ _ Hok) as Hbc. assert (Hl : length (tail (p_bc pt)) = Z.to_nat (zlen (p_bc pt) - 1)).
  { unfold zlen. destruct (p_bc pt); simpl; lia. }
  unfold enc_ins. rewrite <- Hl.
  assert (Hw : words 4 (length (tail (p_bc pt))) (flat_map (λ i, le_bytes 4 (u32 i)) (tail (p_bc pt)))
    = tail (p_bc pt)).
  { rewrite <- (app_nil_r (flat_map _ _)). apply words_enc. intros z Hz. apply le_bytes_u32.
    pose proof (po_ins _ _ Hok) as Hi. rewrite list.Forall_forall in Hi. by apply Hi. }
  intros rest stk st k. unfold rbind, bcread_block.
  rewrite reads_mem by (unfold zlen in *; rewrite length_enc; lia). unfold rret. by rewrite Hw.
Qed.

Lemma reads_uv strip pt : uproto_ok strip pt ->
  reads (bcread_uv (flags_of strip) (zlen (p_uv pt))) (enc_uv pt) (p_uv pt).
Proof.
  intros Hok. unfold bcread_uv, enc_uv. rewrite flags_swap.
  destruct (Z.eqb_spec (zlen (p_uv pt)) 0) as [E|E].
  - cbn [negb]. destruct (p_uv pt); [apply reads_ret|]. unfold zlen in E. simpl in E. lia.
  - cbn [negb]. assert (Hw : words 2 (length (p_uv pt)) (flat_map (λ u, le_bytes 2 (u16 u)) (p_uv pt)) = p_uv pt).
    { rewrite <- (app_nil_r (flat_map _ _)). apply words_enc. intros z Hz. apply le_bytes_u16.
      pose proof (po_uv _ _ Hok) as Hi. rewrite list.Forall_forall in Hi. by apply Hi. }
    intros rest stk st k. unfold rbind, bcread_block.
    rewrite reads_mem by (unfold zlen; rewrite length_enc; lia).
    unfold rret, zlen. by rewrite Nat2Z.id, Hw.
Qed.

Lemma reads_debug strip pt : uproto_ok strip pt ->
  exists o, reads (read_debug (flags_of strip) (if negb (sizedbg strip pt =? 0) then p_numline pt else 0)
    (zlen (p_bc pt)) (zlen (p_uv pt)) (sizedbg strip pt)) (enc_dbg strip pt) o /\ dbg_rel strip pt o.
Proof.
  intros Hok. pose proof (sizedbg_enc strip pt) as Hs. revert Hs. unfold read_debug, enc_dbg, dbg_rel.
  destruct (Z.eqb_spec (sizedbg strip pt) 0) as [E|E]; cbn [negb]; intros Hs.
  - exists None. split; [apply reads_ret|done].
  - destruct (po_dbg _ _ Hok E) as [v Hv].
    destruct (p_dbg pt) as [d|] eqn:Ed; [|unfold sizedbg in E; rewrite Ed in E; by destruct strip].
    simpl in Hs, Hv. exists (Some (d, v)). split; [|eauto]. simpl default.
    intros rest stk st k. unfold rbind at 1, bcread_dbg. rewrite flags_swap. cbn [andb].
    rewrite (reads_map _ (λ x, x) _ _ (reads_mem d _ (eq_sym Hs))).
    fold (line_bytes (p_numline pt)). by rewrite Hv.
Qed.

Lemma u8_id z : in_u 8 z -> u8 z = z.
Proof. apply wrap_id. Qed.

Lemma flags_u8 z : u8 (z .& (PROTO_CHILD .| PROTO_VARARG .| PROTO_FFI)) =
  z .& (PROTO_CHILD .| PROTO_VARARG .| PROTO_FFI).
Proof.
  apply wrap_id. change (PROTO_CHILD .| PROTO_VARARG .| PROTO_FFI) with (Z.ones 3).
  rewrite Z.land_ones by lia. change (2 ^ 3) with 8. unfold in_u. change (2 ^ 8) with 256.
  pose proof (Z.mod_pos_bound z 8). lia.
Qed.

Lemma triple_proto cn strip pt ps P : mono P -> uproto_ok strip pt ->
  triple (λ st, Forall2 (proto_rel cn strip st) (direct (p_kgc pt)) ps /\ P st)
    (bcread_proto ta (flags_of strip) cn) (enc_body ustr strip pt) ps [] (nstrs (p_kgc pt))
    (λ kp st, proto_rel cn strip st pt kp /\ P st).
Proof using Hjunk Hobj Hnode.
  intros HP Hok. destruct (po_bounds _ _ Hok) as (Hkgc & Hkn & Hbc & Hd0 & Hd & Hsz).
  unfold enc_body, bcread_proto. rewrite phead_split, flags_u8, !u8_id by apply Hok.
  rewrite <- !app_assoc.
  do 4 (eapply triple_reads; [apply reads_byte|]). cbv beta.
  eapply triple_reads; [by apply reads_int|]. eapply triple_reads; [by apply reads_int|].
  eapply triple_reads; [apply reads_u32|]. cbv beta zeta.
  pose proof (po_bc _ _ Hok) as Hb1. unfold in_s in Hbc. change (2 ^ (32 - 1)) with 2147483648 in Hbc.
  rewrite (wrap_id 32) by (unfold in_u; lia).
  replace (zlen (p_bc pt) - 1 + 1) with (zlen (p_bc pt)) by lia.
  rewrite swrap_id by (done || unfold in_s; lia). rewrite flags_strip.
  eapply triple_reads.
  { assert (E : (if strip then rret 0 else bcread_int (S := S)) = (if negb strip then bcread_int else rret 0))
      by (by destruct strip). rewrite E. by apply reads_if. }
  assert (Esd : (if negb strip then sizedbg strip pt else 0) = sizedbg strip pt) by (by destruct strip).
  rewrite Esd. cbv beta.
  eapply triple_reads; [apply reads_if, (po_lines _ _ Hok)|].
  eapply triple_reads; [apply reads_if, (po_lines _ _ Hok)|]. cbv beta.
  rewrite Hsz. cbn [negb].
  eapply triple_reads; [by apply reads_ins|]. eapply triple_reads; [by apply reads_uv|]. cbv beta.
  rewrite <- (Nat.add_0_r (nstrs _)).
  eapply triple_bind; [unfold zlen at 1; rewrite Nat2Z.id; by apply (triple_kgc cn strip _ (po_kgc _ _ Hok))|].
  intros kgc. cbv beta.
  eapply triple_reads; [unfold zlen at 1; rewrite Nat2Z.id; apply reads_knum, Hok|]. cbv beta.
  destruct (reads_debug strip pt Hok) as (o & Ho & Hr).
  rewrite <- (app_nil_r (enc_dbg strip pt)). eapply triple_reads; [exact Ho|]. cbv beta.
  apply triple_ret. intros st [Hk HPst]. split; [|done].
  pose proof (rel_proto_of cn strip st pt kgc o (sizept (proto_layout (zlen (p_bc pt)) (zlen (p_kgc pt))
    (zlen (p_kn pt)) (zlen (p_uv pt)) (sizedbg strip pt))) Hk Hr) as H.
  destruct (sizedbg strip pt =? 0); exact H.
Qed.

(** ** The sequence of prototypes *)

(** How many loaded prototypes wait on the stack at the same time, at most, while the
    tree of [pt] is read: children are read from the last to the first, and the ones
    read before wait while the tree of the next is read. *)
Fixpoint pending (pt : uproto) : nat :=
  Nat.max 1 ((fix kids (l : list ugc) : nat :=
    match l with
    | [] => 0
    | o :: l' => Nat.max (kids l') (match o with UProto c => length (direct l') + pending c | _ => 0 end)
    end%nat) (match pt with mkuproto _ _ _ _ _ kgc _ _ _ _ => kgc end)).

Fixpoint pending_kids (l : list ugc) : nat :=
  match l with
  | [] => 0
  | o :: l' => Nat.max (pending_kids l') (match o with UProto c => length (direct l') + pending c | _ => 0 end)
  end%nat.

Lemma pending_eq pt : pending pt = Nat.max 1 (pending_kids (p_kgc pt)).
Proof. by destruct pt. Qed.

(** There is room on the stack for [d] more. *)
Definition stack_room (stk : list kproto) (d : nat) : Prop := Z.of_nat (length stk + d) <= KTAP_STACK_SIZE.

Definition nstrs_all (l : list uproto) : nat := foldr (λ pt n, nstrs (p_kgc pt) + n)%nat 0%nat l.

Lemma nstrs_all_app l1 l2 : nstrs_all (l1 ++ l2) = (nstrs_all l1 + nstrs_all l2)%nat.
Proof. induction l1 as [|pt l1 IH]; simpl; lia. Qed.

(** One round of the loop on a prototype whose children are on the stack. *)
Lemma read_one cn strip pt ps fuel rest stk st k :
  uproto_ok strip pt -> intern_ok st -> (nstrs (p_kgc pt) <= intern_room st)%nat ->
  Forall2 (proto_rel cn strip st) (direct (p_kgc pt)) ps -> stack_room stk 1 ->
  exists kp st', read_protos ta (Datatypes.S fuel) (flags_of strip) cn
      (mkr (enc_proto ustr strip pt ++ rest) (ps ++ stk) st k) =
    read_protos ta fuel (flags_of strip) cn (mkr rest (kp :: stk) st' k) /\
    extends (nstrs (p_kgc pt)) st st' /\ proto_rel cn strip st' pt kp.
Proof using Hjunk Hobj Hnode.
  intros Hok Hst Hn Hps Hroom. destruct (po_len _ _ Hok) as [Hl Hm].
  set (body := enc_body ustr strip pt) in *. pose proof (zlen_nonneg body) as H0.
  destruct (triple_proto cn strip pt ps (λ _, True) ltac:(done) Hok rest stk st k Hst Hn (conj Hps I))
    as (kp & st' & E & X & Hr & _).
  exists kp, st'. split; [|by split]. fold body in E.
  assert (Hrd : reads bcread_int (enc_u32 (zlen body)) (zlen body)).
  { apply reads_int. unfold in_s. change (2 ^ (32 - 1)) with 2147483648.
    change (2 ^ 31) with 2147483648 in Hl. lia. }
  cbn [read_protos r_in]. unfold enc_proto. fold body. rewrite <- app_assoc.
  assert (Hb : exists b tl, enc_u32 (zlen body) ++ body ++ rest = b :: tl /\ b <> 0).
  { unfold enc_u32. cbn [le_bytes app]. eexists _, _. split; [done|]. intros Hz. apply Hm.
    rewrite wrap_id in Hz; [done|]. unfold in_u. change (2 ^ 32) with 4294967296.
    change (2 ^ 31) with 2147483648 in Hl. lia. }
  destruct Hb as (b & tl & Eb & Hb0).
  rewrite Eb at 1. destruct b as [|b|b]; [done|..]; (unfold rbind at 1; rewrite Hrd;
    rewrite (proj2 (Z.eqb_neq (zlen body) 0)) by (intros Hz; rewrite Hz in Hm; by apply Hm);
    unfold rbind, remaining; cbn [r_in]; rewrite E; cbn [r_in];
    rewrite length_app, (proj2 (Z.eqb_eq _ (zlen body))) by (unfold zlen; lia);
    cbn [negb]; unfold push_proto; cbn [r_stack r_in r_str r_err app];
    by rewrite (proj2 (Z.ltb_lt (Z.of_nat (length stk)) KTAP_STACK_SIZE)) by (unfold stack_room in Hroom; lia)).
Qed.

Definition loads (cn : Z) (strip : bool) (l top : list uproto) (d : nat) : Prop :=
  forall fuel rest stk st k, intern_ok st -> (nstrs_all l <= intern_room st)%nat -> stack_room stk d ->
    exists kps st', read_protos ta (length l + fuel) (flags_of strip) cn
        (mkr (flat_map (enc_proto ustr strip) l ++ rest) stk st k) =
      read_protos ta fuel (flags_of strip) cn (mkr rest (kps ++ stk) st' k) /\
      extends (nstrs_all l) st st' /\ Forall2 (proto_rel cn strip st') top kps.

Lemma loads_nil cn strip d : loads cn strip [] [] d.
Proof.
  intros fuel rest stk st k Hok _ _. exists [], st. split; [done|]. split; [by apply extends_refl|constructor].
Qed.

(** Prototypes loaded later end up on top. *)
Lemma loads_app cn strip l1 l2 top1 top2 d1 d2 :
  loads cn strip l1 top1 d1 -> loads cn strip l2 top2 d2 ->
  loads cn strip (l1 ++ l2) (top2 ++ top1) (Nat.max d1 (length top1 + d2)).
Proof.
  intros H1 H2 fuel rest stk st k Hok Hn Hr. unfold stack_room in Hr. rewrite nstrs_all_app in *.
  rewrite flat_map_app, <- app_assoc, length_app, <- Nat.add_assoc.
  destruct (H1 (length l2 + fuel)%nat (flat_map (enc_proto ustr strip) l2 ++ rest) stk st k Hok)
    as (k1 & st1 & -> & X1 & R1); [lia|unfold stack_room; lia|].
  destruct (H2 fuel rest (k1 ++ stk) st1 k (ex_ok _ _ _ X1)) as (k2 & st2 & -> & X2 & R2);
    [pose proof (ex_room _ _ _ X1); lia|unfold stack_room; rewrite length_app, <- (Forall2_length R1); lia|].
  exists (k2 ++ k1), st2. rewrite app_assoc. split; [done|]. split; [by eapply extends_trans|].
  apply Forall2_app; [done|]. eapply stack_rel_mono; [apply X2|done].
Qed.

Lemma loads_children cn strip l :
  Forall (child_prop (λ c, Forall (uproto_ok strip) (protos_of c) -> loads cn strip (protos_of c) [c] (pending c))) l ->
  Forall (uproto_ok strip) (children_of l) -> loads cn strip (children_of l) (direct l) (pending_kids l).
Proof.
  induction 1 as [|o l Ho _ IH]; intros Hok; [apply loads_nil|]. cbn [children_of] in *.
  apply list.Forall_app in Hok as [Hl Hc]. destruct o as [s|t|c]; cbn [direct] in *.
  1, 2: rewrite app_nil_r; cbn [pending_kids]; rewrite Nat.max_0_r; by apply IH.
  change (c :: direct l) with ([c] ++ direct l). apply loads_app; [by apply IH|by apply Ho].
Qed.

Lemma loads_tree cn strip pt : Forall (uproto_ok strip) (protos_of pt) -> loads cn strip (protos_of pt) [pt] (pending pt).
Proof using Hjunk Hobj Hnode.
  induction pt as [pt IH] using uproto_induction. rewrite protos_of_eq, list.Forall_app. intros [Hc Hp].
  apply list.Forall_cons in Hp as [Hp _].
  assert (Hkids : loads cn strip (if has_child pt then children_of (p_kgc pt) else []) (direct (p_kgc pt)) (pending_kids (p_kgc pt))).
  { destruct (has_child pt) eqn:Eh; [by apply loads_children|].
    destruct (direct (p_kgc pt)) as [|c l] eqn:Ed; [apply loads_nil|].
    pose proof (po_child _ _ Hp) as Hx. rewrite Ed, Eh in Hx. by specialize (Hx ltac:(done)). }
  intros fuel rest stk st k Hok Hn Hroom. unfold stack_room in Hroom. rewrite pending_eq in Hroom. rewrite nstrs_all_app in *.
  rewrite flat_map_app, <- app_assoc, length_app, <- Nat.add_assoc. cbn [flat_map length nstrs_all foldr] in *.
  destruct (Hkids (1 + fuel)%nat ((enc_proto ustr strip pt ++ []) ++ rest) stk st k Hok)
    as (k1 & st1 & -> & X1 & R1); [lia|unfold stack_room; lia|]. rewrite app_nil_r. change (1 + fuel)%nat with (Datatypes.S fuel).
  destruct (read_one cn strip pt k1 fuel rest stk st1 k Hp (ex_ok _ _ _ X1)) as (kp & st2 & -> & X2 & R2);
    [pose proof (ex_room _ _ _ X1); lia|done|unfold stack_room; lia|].
  exists [kp], st2. split; [done|]. rewrite Nat.add_0_r.
  split; [by eapply extends_trans|by repeat constructor].
Qed.

(** ** The dump *)

Definition STRIPED : bytes := [115; 116; 114; 105; 112; 101; 100].

Lemma striped_ok : str_ok STRIPED.
Proof. split_and!; [|simpl; lia|done]. repeat (constructor; [unfold is_byte; lia|]). constructor. Qed.

(** The chunk name the loaded prototypes carry. *)
Definition chunk_of (strip : bool) (name : bytes) : bytes := if strip then STRIPED else name.

Lemma triple_header strip name : str_ok name ->
  triple (λ _, True) bcread_header (enc_header strip name) [] [] 1
    (λ r st, r.1 = flags_of strip /\ str_at (chunk_of strip name) r.2 st).
Proof.
  intros Hname. unfold bcread_header.
  assert (E0 : enc_header strip name =
    [BCDUMP_HEAD1] ++ [BCDUMP_HEAD2] ++ [BCDUMP_HEAD3] ++ [BCDUMP_VERSION] ++ [flags_of strip] ++
    (if strip then [] else enc_u32 (zlen name) ++ name)) by done.
  rewrite E0. clear E0.
  do 4 (eapply triple_reads; [apply reads_byte|]; rewrite Z.eqb_refl; cbn [negb]).
  eapply triple_reads; [apply reads_byte|]. cbv beta.
  assert (E1 : (flags_of strip .& Z.lnot BCDUMP_F_KNOWN =? 0) = true) by (by destruct strip).
  assert (E2 : (flags_of strip .& BCDUMP_F_FFI =? 0) = true) by (by destruct strip).
  rewrite E1, E2, flags_strip. cbn [negb].
  assert (T : triple (λ _, True)
    (if strip then kp_str_new STRIPED else len <-- bcread_int;; p <-- bcread_mem len;; kp_str_new p)
    (if strip then [] else enc_u32 (zlen name) ++ name) [] [] 1
    (λ a st, a <> 0 /\ str_at (chunk_of strip name) a st /\ True)).
  { destruct strip; [apply triple_str; [done|apply striped_ok]|].
    destruct Hname as (Hb & H1 & H2). change KP_MAX_STR with 512 in H2. pose proof (zlen_nonneg name).
    eapply triple_reads; [apply reads_int; unfold in_s; lia|]. rewrite <- (app_nil_r name) at 2.
    eapply triple_reads; [by apply reads_mem|]. by apply triple_str. }
  rewrite <- (app_nil_r (if strip then _ else _)). change 1%nat with (1 + 0)%nat.
  eapply triple_bind; [exact T|]. intros a. cbv beta.
  intros rest stk st k Hok _ (Ha & Hs & _). rewrite (proj2 (Z.eqb_neq a 0) Ha).
  eexists _, st. split; [done|]. split; [by apply extends_refl|done].
Qed.

Lemma read_dump strip name pt st k :
  str_ok name -> Forall (uproto_ok strip) (protos_of pt) -> Z.of_nat (pending pt) <= KTAP_STACK_SIZE ->
  intern_ok st -> (1 + nstrs_all (protos_of pt) <= intern_room st)%nat ->
  exists kp st' cn, kp_bcread ta (enc_dump ustr strip name pt) st k = Some (Some kp, mkr [] [] st' k) /\
    extends (1 + nstrs_all (protos_of pt)) st st' /\
    str_at (chunk_of strip name) cn st' /\ proto_rel cn strip st' pt kp.
Proof using Hjunk Hobj Hnode.
  intros Hname Hok Hpend Hst Hn. unfold kp_bcread, enc_dump. set (l := protos_of pt) in *.
  destruct (triple_header strip name Hname (flat_map (enc_proto ustr strip) l ++ [0]) [] st k Hst)
    as ([fl cn] & st1 & Eh & X1 & [Ef Hcn]); [lia|done|]. simpl in Ef, Hcn. subst fl.
  cbn [app] in Eh. rewrite Eh.
  assert (Hlen : (length l + 1 <= Datatypes.S (length (enc_header strip name ++
    flat_map (enc_proto ustr strip) l ++ [0%Z])))%nat).
  { rewrite !length_app. cbn [length]. assert (length l <= length (flat_map (enc_proto ustr strip) l))%nat; [|lia].
    clear. induction l as [|x l IH]; [simpl; lia|].
    change (flat_map ?f (x :: l)) with (f x ++ flat_map f l). rewrite length_app.
    unfold enc_proto at 1, enc_u32. rewrite length_app, length_le_bytes. cbn [length]. lia. }
  apply Nat.le_sum in Hlen as [d ->]. rewrite <- Nat.add_assoc. unfold rbind.
  destruct (loads_tree cn strip pt Hok (1 + d)%nat [0] [] st1 k (ex_ok _ _ _ X1))
    as (kps & st2 & E2 & X2 & R2); [fold l; pose proof (ex_room _ _ _ X1); lia|exact Hpend|].
  fold l in E2. rewrite E2.
  apply Forall2_cons_inv_l in R2 as (kp & tl & R2 & Hnil & ->). apply Forall2_nil_inv_l in Hnil as ->.
  exists kp, st2, cn. split; [done|]. split; [by eapply extends_trans|]. split; [|done].
  eapply str_at_mono; [apply X2|done].
Qed.

(** C1.  What the compiler dumps, the VM loads: if the writer has defined
    behaviour, its prototypes are well-formed, none has an encoded size divisible by
    256, at most 120 loaded prototypes wait for their parents at any time (the size of
    the stack of the VM, which the reader does not test), and the strings can be
    interned, then the reader accepts the dump without an error, consumes
    all of it and returns one prototype, in which instructions, upvalue
    references, number constants, flags and debug information are those of the
    source prototype, string constants are the interned strings with the same
    bytes, template tables hold the same entries, and children are the loaded
    children, at the same constant index; the chunk name is the one written. *)
Theorem bytecode_roundtrip strip name pt out out' st k status :
  kp_bcwrite ustr pt name out strip = Some (status, out') -> tr_data out = [] ->
  str_ok name -> Forall (uproto_ok strip) (protos_of pt) -> Z.of_nat (pending pt) <= KTAP_STACK_SIZE ->
  intern_ok st -> (1 + nstrs_all (protos_of pt) <= intern_room st)%nat ->
  exists kp st' cn, kp_bcread ta (tr_data out') st k = Some (Some kp, mkr [] [] st' k) /\
    str_at (chunk_of strip name) cn st' /\ proto_rel cn strip st' pt kp.
Proof using Hjunk Hobj Hnode.
  intros Hw Ho Hname Hok Hpend Hst Hn. destruct (kp_bcwrite_emits _ _ _ _ _ _ _ Hw) as [_ ->]. rewrite Ho.
  destruct (read_dump strip name pt st k Hname Hok Hpend Hst Hn) as (kp & st' & cn & E & _ & Hc & Hr). eauto 6.
Qed.

End Round.
