(* ===== verification/BcSafe.v ===== *)
(** * BcSafe: the layout of loaded prototypes, and dumps the reader gets wrong

    The arrays behind a prototype do not overlap, and the store that closes the
    gap in front of the constants stays between them.  Two kinds of dumps of
    well-formed programs are not loaded as they should: one with a prototype
    whose size is divisible by 256, and one with an empty template table. *)

From S2P Require Import Prelude Types Bytecode Mempool Tab TabInv TabSpec TabFill Intern BcWrite BcRead BcEnc BcRound.
#[local] Open Scope word_scope.

(** The layout of a prototype: the instructions follow the fixed part, the
    collectable constants end where the number constants start, 16-byte aligned,
    the upvalue references and the debug information follow, and the total is
    the allocated size.  The four bytes zeroed between instructions and constants
    lie in the instruction array or in the padding behind it, never in the fixed
    part or in the constants. *)
Theorem proto_layout_safe sizebc sizekgc sizekn sizeuv sizedbg :
  1 <= sizebc -> 0 <= sizekgc -> 0 <= sizekn -> 0 <= sizeuv -> 0 <= sizedbg ->
  let l := proto_layout sizebc sizekgc sizekn sizeuv sizedbg in
  sizeof_ktap_proto + 4 * sizebc <= ofsk l - 8 * sizekgc /\
  sizeof_ktap_proto <= gap_ofs l sizekgc /\ gap_ofs l sizekgc + 4 <= ofsk l - 8 * sizekgc /\
  ofsk l mod 16 = 0 /\ ofsk l + 16 * sizekn = ofsuv l /\
  ofsuv l + 2 * sizeuv <= ofsdbg l /\ ofsdbg l + sizedbg = sizept l.
Proof.
  intros Hbc Hkgc Hkn Huv Hdbg l.
  destruct (layout_bounds sizebc sizekgc sizekn sizeuv sizedbg Hkn Huv Hdbg) as ([L0 L0'] & Lm & L1 & L2 & L3).
  fold l in L0, L0', Lm, L1, L2, L3. unfold gap_ofs, sizeof_ktap_proto in *. split_and!; try lia.
  destruct (decide (sizebc = 1)) as [->|]; [|lia].
  pose proof (Z.div_mod (ofsk l) 16 ltac:(lia)). lia.
Qed.

Section Safe.
Context {S : Type} {II : Intern S} {IL : InternLaws S}.
Context (ta : talloc).
Context (ustr : Z -> bytes).

(** The reader takes a zero byte where a length is expected for the end of the
    dump, but the length is a four-byte little-endian number: if the size of the
    first prototype written is divisible by 256, a dump that the writer produced
    is rejected as malformed. *)
Theorem size_256_rejected strip name pt pt0 pts out out' st k status :
  kp_bcwrite ustr pt name out strip = Some (status, out') -> tr_data out = [] ->
  str_ok name -> intern_ok st -> (1 <= intern_room st)%nat ->
  protos_of pt = pt0 :: pts -> zlen (enc_body ustr strip pt0) mod 256 = 0 ->
  exists s', kp_bcread ta (tr_data out') st k = Some (None, s') /\ r_err s' = kp_error KP_ERR_BCBAD k.
Proof.
  intros Hw Ho Hname Hst Hn Ep Hm. destruct (kp_bcwrite_emits _ _ _ _ _ _ _ Hw) as [_ ->].
  rewrite Ho. cbn [app]. unfold kp_bcread, enc_dump. rewrite Ep.
  set (tl := flat_map (enc_proto ustr strip) (pt0 :: pts) ++ [0]).
  assert (Etl : exists tl', tl = 0 :: tl').
  { unfold tl. change (flat_map ?f (pt0 :: pts)) with (f pt0 ++ flat_map f pts).
    unfold enc_proto at 1, enc_u32. rewrite <- !app_assoc. cbn [le_bytes app]. eexists. f_equal.
    unfold wrap. change (2 ^ 32) with (256 * 16777216). rewrite Z.rem_mul_r by lia. rewrite Hm, Z.add_0_l.
    rewrite Z.mul_comm. by apply Z.mod_mul. }
  destruct Etl as [tl' Etl].
  destruct (triple_header strip name Hname tl [] st k Hst) as ([fl cn] & st1 & Eh & _); [lia|done|].
  cbn [app] in Eh. rewrite Eh, Etl. unfold rbind. cbn [read_protos r_in r_stack r_str r_err].
  unfold finish, bcread_error. cbn [r_in r_stack r_str r_err].
  destruct (_ >? 0); eexists; split; done.
Qed.

(** An empty template table, which the compiler emits for a constructor whose
    values are all computed, is loaded as a table without a node vector; executing
    [BC_TDUP] on it reads through the uninitialised pointer: duplication never
    gives a table. *)
Theorem empty_template_undefined t rest stk st k :
  trim_nil (ut_array t) = [] -> hash_entries t = [] -> ok_obj ta = true ->
  exists t', bcread_ktab ta (mkr (enc_ktab ustr t ++ rest) stk st k) = Some (Some t', mkr rest stk st k) /\
    nodes t' = None /\ forall ks k' m r, kp_tab_dup ks k' m t' = Some r -> r.1 = None.
Proof.
  intros Ha Hh Ho. unfold enc_ktab. rewrite Ha, Hh. cbn [enc_ktabks flat_map app].
  rewrite app_nil_r, <- app_assoc. unfold bcread_ktab, rbind.
  rewrite (reads_int 0) by done. rewrite (reads_int 0) by done.
  unfold tab_new_r. cbn [r_str r_err r_in r_stack]. unfold kp_tab_new, newtab. rewrite Ho.
  cbn. eexists. split; [done|]. split; [done|].
  intros ks k' m r. cbn. destruct (kp_tab_new k' m _ _) as [[[t1|] k1]|]; cbn; intros Hr; by simplify_eq.
Qed.

End Safe.
