(* ===== verification/BcWit.v ===== *)
(** * BcWit: a small program through the writer and the reader

    A main prototype with a string, a template table, a child prototype, a
    number constant and debug information, as an instance of the theorems about
    the bytecode format.  Strings are those of the reference interner. *)

From S2P Require Import Prelude Types Bytecode Mempool Tab TabInv TabSpec TabFill Intern BcWrite BcRead BcEnc BcRound BcSafe.
#[local] Open Scope word_scope.

Definition demo_ustr (s : Z) : bytes := [102; 97 + s mod 26].
Definition demo_ta : talloc := mkta true true true kp_niltv (mknode kp_niltv kp_niltv None) 0.

Definition demo_child : uproto :=
  mkuproto 0 0 1 [BCINS_AD (bcop_code BC_FUNCF) 1 0; BCINS_AD (bcop_code BC_RET0) 0 1] [] [] [] None 0 0.

Definition demo_utab : utab :=
  mkutab [] [(kp_niltv, kp_niltv); (set_string 3, set_number 5); (set_number 12, set_string 4); (kp_niltv, kp_niltv)].

Definition demo_main : uproto :=
  mkuproto (PROTO_CHILD .| PROTO_VARARG) 0 4
    [BCINS_AD (bcop_code BC_FUNCV) 4 0; BCINS_AD (bcop_code BC_KSTR) 0 0xffff;
     BCINS_AD (bcop_code BC_RET0) 0 1]
    [0x8001] [UProto demo_child; UTab demo_utab; UStr 7] [set_number (-9)]
    (Some [1; 2; 120; 0; 0]) 1 2.

Definition demo_name : bytes := [109; 97; 105; 110].

Lemma demo_str_ok s : str_ok (demo_ustr s).
Proof.
  unfold str_ok, demo_ustr, is_byte, zlen. pose proof (Z.mod_pos_bound s 26 ltac:(lia)).
  split_and!; [|simpl; lia|done]. repeat (constructor; [lia|]). constructor.
Qed.

Lemma demo_utab_ok : utab_ok demo_ustr demo_utab.
Proof.
  split; [done| |by vm_compute].
  change (hash_entries demo_utab) with [(set_number 12, set_string 4); (set_string 3, set_number 5)].
  constructor; [|constructor; [|constructor]]; unfold entry_ok, ukey_ok; split_and!; try done; cbn [fst snd].
  - right; left; split; [done|by vm_compute].
  - left; split; [done|apply demo_str_ok].
  - left; split; [done|apply demo_str_ok].
  - right; left; split; [done|by vm_compute].
Qed.

Lemma demo_name_ok : str_ok demo_name.
Proof. split_and!; [|simpl; lia|done]. repeat (constructor; [unfold is_byte; lia|]). constructor. Qed.

(** Closed inequalities between numbers. *)
Ltac num := vm_compute; repeat split; first [reflexivity | let H := fresh in intros H; discriminate H].

Ltac proto_fields pt :=
  match goal with
  | |- Forall ?P _ => cbn [p_uv p_bc p_kgc p_kn pt tail]; solve [repeat (constructor; [num|]); constructor]
  | |- sizedbg _ _ <> 0 -> _ => idtac
  | |- direct _ <> [] -> _ => intros ?; reflexivity
  | |- _ => num
  end.

Lemma demo_child_ok : uproto_ok demo_ustr false demo_child.
Proof.
  split; try proto_fields demo_child.
  all: intros H; exfalso; by apply H.
Qed.

Lemma demo_main_ok : uproto_ok demo_ustr false demo_main.
Proof.
  split; try proto_fields demo_main.
  - cbn [p_kgc demo_main]. constructor; [exact I|]. constructor; [apply demo_utab_ok|].
    constructor; [apply (demo_str_ok 7)|constructor].
  - intros _. exists 4%nat. vm_compute. reflexivity.
Qed.

Lemma demo_protos_ok : Forall (uproto_ok demo_ustr false) (protos_of demo_main).
Proof.
  change (protos_of demo_main) with [demo_child; demo_main].
  constructor; [apply demo_child_ok|]. constructor; [apply demo_main_ok|constructor].
Qed.

Lemma demo_small : Forall (small demo_ustr false) (protos_of demo_main).
Proof.
  change (protos_of demo_main) with [demo_child; demo_main]. unfold small. repeat (constructor; [num|]). constructor.
Qed.

Definition demo_out : trunk :=
  mktrunk (enc_dump demo_ustr false demo_name demo_main) 308.

Lemma demo_write :
  kp_bcwrite demo_ustr demo_main demo_name (mktrunk [] 0) false = Some (0, demo_out).
Proof. vm_compute. reflexivity. Qed.

Lemma kp_bcwrite_encodes_witness :
  kp_bcwrite demo_ustr demo_main demo_name (mktrunk [] 0) false = Some (0, demo_out) /\
  (0 = 0 /\ tr_data demo_out = tr_data (mktrunk [] 0) ++ enc_dump demo_ustr false demo_name demo_main).
Proof. split; [apply demo_write|]. apply kp_bcwrite_encodes. apply demo_write. Defined.

Lemma kp_bcwrite_small_defined_witness :
  exists out', kp_bcwrite demo_ustr demo_main demo_name (mktrunk [] 0) false = Some (0, out') /\
    tr_data out' = tr_data (mktrunk [] 0) ++ enc_dump demo_ustr false demo_name demo_main.
Proof. apply kp_bcwrite_small_defined. apply demo_small. Defined.

Lemma bytecode_roundtrip_witness :
  exists kp st' cn, kp_bcread demo_ta (tr_data demo_out) ([] : list bytes) kerr0
      = Some (Some kp, mkr [] [] st' kerr0) /\
    str_at (chunk_of false demo_name) cn st' /\ proto_rel demo_ustr cn false st' demo_main kp.
Proof.
  apply (bytecode_roundtrip demo_ta demo_ustr ltac:(by vm_compute) eq_refl eq_refl
    false demo_name demo_main (mktrunk [] 0) demo_out [] kerr0 0).
  - apply demo_write.
  - reflexivity.
  - apply demo_name_ok.
  - apply demo_protos_ok.
  - by vm_compute.
  - exact I.
  - vm_compute. lia.
Defined.

Lemma proto_layout_safe_witness :
  sizeof_ktap_proto + 4 * 3 <= ofsk (proto_layout 3 2 1 1 5) - 8 * 2.
Proof. apply (proto_layout_safe 3 2 1 1 5); lia. Defined.

Definition proto256 : uproto := mkuproto 0 0 1 (replicate 61 0) [] [] [] None 0 0.

Lemma size_256_rejected_witness :
  exists s', kp_bcread demo_ta (enc_dump demo_ustr true demo_name proto256) ([] : list bytes) kerr0
      = Some (None, s') /\ r_err s' = kp_error KP_ERR_BCBAD kerr0.
Proof.
  apply (size_256_rejected demo_ta demo_ustr true demo_name proto256 proto256 [] (mktrunk [] 0)
    (mktrunk (enc_dump demo_ustr true demo_name proto256) 530) [] kerr0 0).
  - vm_compute. reflexivity.
  - reflexivity.
  - apply demo_name_ok.
  - exact I.
  - vm_compute. lia.
  - reflexivity.
  - vm_compute. reflexivity.
Defined.

(** A function with 121 functions in it, none of them with anything in it. *)
Definition many_children : uproto :=
  mkuproto PROTO_CHILD 0 1 [0] [] (replicate 121 (UProto (mkuproto 0 0 1 [0] [] [] [] None 0 0))) [] None 0 0.

(** The prototypes that wait for their parent are pushed without a test: the reader
    writes behind the stack. *)
Lemma stack_overrun :
  kp_bcread demo_ta (enc_dump demo_ustr true demo_name many_children) ([] : list bytes) kerr0 = None.
Proof. vm_compute. reflexivity. Qed.

Definition empty_utab : utab := mkutab [] [(set_string 3, kp_niltv); (kp_niltv, kp_niltv)].

Lemma empty_template_undefined_witness :
  exists t', bcread_ktab demo_ta (mkr (enc_ktab demo_ustr empty_utab ++ []) [] ([] : list bytes) kerr0)
      = Some (Some t', mkr [] [] [] kerr0) /\
    nodes t' = None /\ forall ks k' m r, kp_tab_dup ks k' m t' = Some r -> r.1 = None.
Proof. apply (empty_template_undefined demo_ta demo_ustr empty_utab); reflexivity. Defined.

(** ** Duplicating a template *)

Definition demo_fresh : ktap_tab := mktab [] 0 (Some [empty_node; empty_node]) 1 2 0.
Definition demo_template : ktap_tab :=
  mktab [] 0 (Some [mknode (set_number 5) (set_number 12) None; empty_node]) 1 2 1.

Lemma demo_fresh_inv : tab_inv ks0 demo_fresh /\ contents demo_fresh = ∅.
Proof.
  apply (clear_tab_inv ks0 demo_fresh 1); try done.
  - split; [constructor|]. exists [empty_node; empty_node]. split_and!; try done. by repeat constructor.
  - by intros ns [= <-].
Qed.

Lemma demo_template_ok : template ks0 demo_template.
Proof.
  destruct demo_fresh_inv as [I Ec].
  destruct (set_live ks0 demo_fresh kerr0 (set_number 12) (set_number 5) I) as (t & Et & It & _ & Hd & _);
    [by apply plain_number|done|..].
  - intros ns nd [= <-] Hin.
    do 2 (apply elem_of_cons in Hin as [->|Hin]; [done|]). by apply not_elem_of_nil in Hin.
  - rewrite Ec, map_size_empty. vm_compute. lia.
  - assert (E : t = demo_template) by (vm_compute in Et |- *; congruence). subst t.
    split; [exact It|reflexivity|exact Hd|by vm_compute|]. clear. intros ns nd [= <-] Hin Hk.
    apply elem_of_cons in Hin as [->|Hin]; [by apply plain_number|].
    apply elem_of_cons in Hin as [->|Hin]; [done|]. by apply not_elem_of_nil in Hin.
Qed.

Lemma kp_tab_dup_copies_witness :
  exists t, kp_tab_dup ks0 kerr0 demo_ta demo_template = Some (Some t, kerr0) /\ tab_inv ks0 t /\
    contents t = contents demo_template.
Proof. apply kp_tab_dup_copies; [apply demo_template_ok|reflexivity..]. Defined.
