(* ===== verification/Load.v ===== *)
(** * Load: a program from the compiler to the VM

    Writer, reader, tables, string table and memory pool together: the instance
    of the interning interface by the real string table closes the assumptions of
    the round trip. *)

From S2P Require Import Prelude Types Bytecode Mempool Str Tab TabInv TabSpec TabFill Intern StrIntern BcWrite BcRead BcEnc BcRound BcWit.
#[local] Open Scope word_scope.

Section Load.
Context {K : Kernel}.
Context (ustr : Z -> bytes) (ta : talloc) (buf addr : Z) (m : memory).

#[local] Instance load_Intern : Intern strstate := Str_Intern buf.
#[local] Instance load_InternLaws : InternLaws strstate := Str_InternLaws buf.

(** The machine at start-up: zeroed or other bytes, a pool below 2^63, and the
    buffer with the dump's strings below it. *)
Record boot : Prop := {
  bt_mem : mem_ok m;
  bt_addr : 0 < addr /\ addr + KP_MAX_MEMPOOL_SIZE * 1024 < 2 ^ 63;
  bt_buf : buf + KP_MAX_STR <= addr
}.

Lemma boot_ready : boot -> str_ready buf (str_init m addr 1023).
Proof.
  intros [Hm [Ha Hl] Hb].
  assert (I : str_inv (str_init m addr (Z.ones 10))).
  { apply str_init_inv; try done. change (2 ^ 64) with (2 * 2 ^ 63). lia. }
  change (Z.ones 10) with 1023 in I. split; [done|..].
  all: unfold str_init, kp_mempool_init; destruct (Z.eqb_spec addr 0); [lia|];
    cbn [fst snd kp_str_resize pool objs strnum mp_base mp_size]; try done.
Qed.

(** C7.  End to end: a program of well-formed prototypes that fit the writer's
    buffer, have at most 120 loaded prototypes waiting for their parents at any time
    and need no more than the string limit is written without undefined
    behaviour, and a freshly started VM loads the dump without an error, into a
    prototype that represents the program over a well-formed string table. *)
Theorem program_loads strip name pt :
  boot -> ok_obj ta = true -> ok_node ta = true -> in_s 64 (val (junk_val ta)) ->
  str_ok name -> Forall (uproto_ok ustr strip) (protos_of pt) -> Forall (small ustr strip) (protos_of pt) -> Z.of_nat (pending pt) <= KTAP_STACK_SIZE ->
  Z.of_nat (nstrs_all (protos_of pt)) <= KP_MAX_STRNUM ->
  exists out kp st cn,
    kp_bcwrite ustr pt name (mktrunk [] 0) strip = Some (0, out) /\
    kp_bcread ta (tr_data out) (str_init m addr 1023) kerr0 = Some (Some kp, mkr [] [] st kerr0) /\
    str_inv st /\ Str.contents st cn = Some (chunk_of strip name) /\ proto_rel ustr cn strip st pt kp.
Proof.
  intros B Ho Hn Hj Hname Hok Hsm Hpend Hnum.
  destruct (kp_bcwrite_fits ustr pt name (mktrunk [] 0) strip Hsm) as (out & Ew & Ed).
  cbn [tr_data app] in Ed.
  assert (R : intern_ok (str_init m addr 1023)).
  { cbv [intern_ok load_InternLaws Str_InternLaws]. by apply boot_ready. }
  destruct (read_dump ta ustr Hj Ho Hn strip name pt (str_init m addr 1023) kerr0 Hname Hok Hpend R)
    as (kp & st & cn & Er & X & Hc & Hp).
  { change (intern_room (str_init m addr 1023)) with (Z.to_nat (KP_MAX_STRNUM + 1 - 0)).
    unfold KP_MAX_STRNUM in *. lia. }
  exists out, kp, st, cn. rewrite Ed. split_and!; [done|exact Er|apply (ex_ok _ _ _ X)|apply Hc|done].
Qed.

End Load.

(** The small program, with the pool at 2^20 and the buffer at 2^16. *)
Lemma program_loads_witness :
  exists out kp st cn,
    kp_bcwrite demo_ustr demo_main demo_name (mktrunk [] 0) false = Some (0, out) /\
    @kp_bcread strstate (@Str_Intern kernel_x86 (2 ^ 16)) demo_ta (tr_data out)
      (str_init scratch (2 ^ 20) 1023) kerr0 = Some (Some kp, mkr [] [] st kerr0) /\
    str_inv st /\ Str.contents st cn = Some (chunk_of false demo_name) /\
    @proto_rel strstate (@Str_Intern kernel_x86 (2 ^ 16)) demo_ustr cn false st demo_main kp.
Proof.
  apply (@program_loads kernel_x86 demo_ustr demo_ta (2 ^ 16) (2 ^ 20) scratch false demo_name demo_main).
  - split; [apply scratch_ok|split; by vm_compute|by vm_compute].
  - reflexivity.
  - reflexivity.
  - by vm_compute.
  - apply demo_name_ok.
  - apply demo_protos_ok.
  - apply demo_small.
  - by vm_compute.
  - by vm_compute.
Defined.
