(* ===== verification/Vm.v ===== *)
(** * Vm: the bytecode interpreter ([runtime/kp_vm.c])

    The state of one [kp_vm_call]: the value stack, the registers of the
    interpreter ([base], [func], [fn], [pt], [kbase], [pc], [multres],
    [loop_count]) and the heap of functions, upvalues, tables and prototypes.
    Every opcode of the dispatch loop is one branch of [exec]; the loop itself
    is [run].

    The C functions a program may call are the parameter [cfunction], which [Lib]
    supplies for the libraries; what the event layer knows ([event_getarg], see
    [Events]), the traced task and the outcome of allocations are parameters as
    well.  Undefined behaviour is [None]: a read or write outside the stack or a
    constant array, a reference to an object that is not there, a division the
    processor traps. *)

From S2P Require Import Prelude Types Bytecode Mempool Tab Intern.
#[local] Open Scope word_scope.

Definition KTAP_MIN_RESERVED_STACK_SIZE : Z := 20.

(** ** Stack cells *)

(** A position in the code of a prototype. *)
Record pcaddr := mkpc { pc_proto : Z; pc_idx : Z }.

(** The saved program counter of a frame overlays the type tag of the slot that
    holds the called function. *)
Inductive cell :=
  | CVal (v : ktap_val)
  | CFrame (fn : Z) (pcr : option pcaddr).

Definition cell_payload (c : cell) : Z := match c with CVal v => val v | CFrame f _ => f end.
Definition cell_set_nil (c : cell) : cell := CVal (set_nil (mkval (cell_payload c) 0)).

(** ** Heap objects *)

Record kfunc := mkfunc { f_proto : Z; f_upvals : list Z }.

(** An open upvalue refers to a stack slot, a closed one holds the value. *)
Record kupval := mkuv { uv_slot : option Z; uv_tv : ktap_val; uv_immutable : Z }.

Record vproto := mkvp {
  vp_flags : Z; vp_numparams : Z; vp_framesize : Z;
  vp_bc : list Z; vp_uv : list Z;
  vp_kgc : list Z;               (* addresses, from k[-sizekgc] to k[-1] *)
  vp_kn : list ktap_val
}.

Record heap := mkheap {
  h_funcs : gmap Z kfunc; h_upvals : gmap Z kupval;
  h_tabs : gmap Z ktap_tab; h_protos : gmap Z vproto;
  h_next : Z;                    (* the address the next allocation gives *)
  h_allgc : list Z               (* collectable objects, newest first *)
}.

Section Vm.
Context {S : Type} `{Intern S}.

Record event := mkevent { e_argstr : option Z; e_name : Z }.

Record vm := mkvm {
  stack : list cell; top : Z; stack_last : Z; ks_func : Z;
  base : Z; func : Z; fn : Z; pt : Z; kbase : Z; pc : pcaddr;
  multres : Z; loop_count : Z;
  openupval : list Z;            (* highest slot first *)
  uvhead : list Z;
  hp : heap; strs : S; gtab : Z; gfunc_tbl : list Z;
  err : kerr; is_main : bool; current_ev : option event
}.

(** ** Parameters *)

Context (alloc_ok : Z -> bool) (ta : talloc).
Context (tctx : vm -> kctx).
Context (cfunction : Z -> vm -> option (Z * vm)).
Context (event_getarg : vm -> Z -> Z -> option (ktap_val * S * kerr)).
Context (task_pid task_tid task_uid task_cpu : Z) (task_comm : bytes).
Context (kp_tab_next_addr kp_max_loop_count percpu_buffer_size : Z).

(** ** Field updates *)

Definition with_stack (s : vm) (st : list cell) : vm :=
  mkvm st (top s) (stack_last s) (ks_func s) (base s) (func s) (fn s) (pt s) (kbase s) (pc s)
    (multres s) (loop_count s) (openupval s) (uvhead s) (hp s) (strs s) (gtab s) (gfunc_tbl s)
    (err s) (is_main s) (current_ev s).
Definition with_top (s : vm) (t : Z) : vm :=
  mkvm (stack s) t (stack_last s) (ks_func s) (base s) (func s) (fn s) (pt s) (kbase s) (pc s)
    (multres s) (loop_count s) (openupval s) (uvhead s) (hp s) (strs s) (gtab s) (gfunc_tbl s)
    (err s) (is_main s) (current_ev s).
Definition with_ks_func (s : vm) (f : Z) : vm :=
  mkvm (stack s) (top s) (stack_last s) f (base s) (func s) (fn s) (pt s) (kbase s) (pc s)
    (multres s) (loop_count s) (openupval s) (uvhead s) (hp s) (strs s) (gtab s) (gfunc_tbl s)
    (err s) (is_main s) (current_ev s).
(** The registers of a frame. *)
Definition with_frame (s : vm) (b f n p k : Z) (q : pcaddr) : vm :=
  mkvm (stack s) (top s) (stack_last s) (ks_func s) b f n p k q
    (multres s) (loop_count s) (openupval s) (uvhead s) (hp s) (strs s) (gtab s) (gfunc_tbl s)
    (err s) (is_main s) (current_ev s).
Definition with_pc (s : vm) (q : pcaddr) : vm :=
  with_frame s (base s) (func s) (fn s) (pt s) (kbase s) q.
Definition with_multres (s : vm) (m : Z) : vm :=
  mkvm (stack s) (top s) (stack_last s) (ks_func s) (base s) (func s) (fn s) (pt s) (kbase s) (pc s)
    m (loop_count s) (openupval s) (uvhead s) (hp s) (strs s) (gtab s) (gfunc_tbl s)
    (err s) (is_main s) (current_ev s).
Definition with_loop_count (s : vm) (n : Z) : vm :=
  mkvm (stack s) (top s) (stack_last s) (ks_func s) (base s) (func s) (fn s) (pt s) (kbase s) (pc s)
    (multres s) n (openupval s) (uvhead s) (hp s) (strs s) (gtab s) (gfunc_tbl s)
    (err s) (is_main s) (current_ev s).
Definition with_upvals (s : vm) (o u : list Z) (h : heap) : vm :=
  mkvm (stack s) (top s) (stack_last s) (ks_func s) (base s) (func s) (fn s) (pt s) (kbase s) (pc s)
    (multres s) (loop_count s) o u h (strs s) (gtab s) (gfunc_tbl s)
    (err s) (is_main s) (current_ev s).
Definition with_heap (s : vm) (h : heap) : vm := with_upvals s (openupval s) (uvhead s) h.
Definition with_strs (s : vm) (st : S) (k : kerr) : vm :=
  mkvm (stack s) (top s) (stack_last s) (ks_func s) (base s) (func s) (fn s) (pt s) (kbase s) (pc s)
    (multres s) (loop_count s) (openupval s) (uvhead s) (hp s) st (gtab s) (gfunc_tbl s)
    k (is_main s) (current_ev s).
Definition with_err (s : vm) (k : kerr) : vm := with_strs s (strs s) k.

Definition set_func_obj (h : heap) (a : Z) (f : kfunc) : heap :=
  mkheap (<[a := f]> (h_funcs h)) (h_upvals h) (h_tabs h) (h_protos h) (h_next h) (h_allgc h).
Definition set_upval_obj (h : heap) (a : Z) (u : kupval) : heap :=
  mkheap (h_funcs h) (<[a := u]> (h_upvals h)) (h_tabs h) (h_protos h) (h_next h) (h_allgc h).
Definition set_tab_obj (h : heap) (a : Z) (t : ktap_tab) : heap :=
  mkheap (h_funcs h) (h_upvals h) (<[a := t]> (h_tabs h)) (h_protos h) (h_next h) (h_allgc h).
Definition set_proto_obj (h : heap) (a : Z) (p : vproto) : heap :=
  mkheap (h_funcs h) (h_upvals h) (h_tabs h) (<[a := p]> (h_protos h)) (h_next h) (h_allgc h).
Definition link_gc (h : heap) (a : Z) : heap :=
  mkheap (h_funcs h) (h_upvals h) (h_tabs h) (h_protos h) (h_next h) (a :: h_allgc h).
(** [kp_malloc]: a fresh address. *)
Definition bump (h : heap) : heap :=
  mkheap (h_funcs h) (h_upvals h) (h_tabs h) (h_protos h) (h_next h + 1) (h_allgc h).

(** ** Reading and writing the stack *)

Definition cell_at (s : vm) (i : Z) : option cell :=
  if 0 <=? i then stack s !! Z.to_nat i else ub.
Definition put_cell (s : vm) (i : Z) (c : cell) : option vm :=
  if (0 <=? i) && (i <? Z.of_nat (length (stack s)))
  then Some (with_stack s (<[Z.to_nat i := c]> (stack s))) else ub.

(** Reading the type of a cell that holds a saved program counter is undefined. *)
Definition get (s : vm) (i : Z) : option ktap_val :=
  c ← cell_at s i; match c with CVal v => Some v | CFrame _ _ => ub end.
Definition put (s : vm) (i : Z) (v : ktap_val) : option vm := put_cell s i (CVal v).
(** Writing the tag only. *)
Definition put_type (s : vm) (i : Z) (t : Z) : option vm :=
  c ← cell_at s i; put s i (mkval (cell_payload c) t).
Definition put_nil (s : vm) (i : Z) : option vm := put_type s i KTAP_TNIL.

Definition RA (s : vm) (instr : Z) : Z := base s + bc_a instr.
Definition RB (s : vm) (instr : Z) : Z := base s + bc_b instr.
Definition RC (s : vm) (instr : Z) : Z := base s + bc_c instr.
Definition RD (s : vm) (instr : Z) : Z := base s + bc_d instr.

(** ** Constants and code *)

(** [kbase[~d]]: the [d]-th object constant, counted from the middle. *)
Definition kgc_at (s : vm) (d : Z) : option Z :=
  p ← h_protos (hp s) !! kbase s;
  let n := Z.of_nat (length (vp_kgc p)) in
  if (0 <=? d) && (d <? n) then vp_kgc p !! Z.to_nat (n - 1 - d) else ub.
Definition knum_at (s : vm) (d : Z) : option ktap_val :=
  p ← h_protos (hp s) !! kbase s; vp_kn p !! Z.to_nat d.

Definition code_at (s : vm) (q : pcaddr) : option Z :=
  p ← h_protos (hp s) !! pc_proto q;
  if 0 <=? pc_idx q then vp_bc p !! Z.to_nat (pc_idx q) else ub.
Definition pc_add (q : pcaddr) (n : Z) : pcaddr := mkpc (pc_proto q) (pc_idx q + n).

Definition dojump (s : vm) (instr e : Z) : vm :=
  with_pc s (pc_add (pc s) (bc_d instr - BCBIAS_J + e)).
Definition donextjump (s : vm) : option vm :=
  i ← code_at s (pc s); Some (dojump s i 1).
Definition skip (s : vm) : vm := with_pc s (pc_add (pc s) 1).

(** ** Outcomes of an instruction *)

Inductive res := Next (s : vm) | Return (s : vm).

Definition next (o : option vm) : option res := Next <$> o.
Definition fail (s : vm) (msg : string) : option res := Some (Return (with_err s (kp_error msg (err s)))).
(** [kp_puts] and return: the error state does not change. *)
Definition complain (s : vm) (msg : string) : option res :=
  Some (Return (with_err s (kp_printf msg (err s)))).

(** [if (c) pc++; else donextjump;] *)
Definition branch (s : vm) (skip_it : bool) : option res :=
  if skip_it then Some (Next (skip s)) else next (donextjump s).

(** ** Helper functions *)

(** [strncpy]: the bytes up to the first NUL, padded with NULs. *)
Fixpoint strncpy (bs : bytes) (n : nat) : bytes :=
  match n with
  | O => []
  | Datatypes.S n' =>
      match bs with
      | [] => replicate n 0
      | b :: bs' => if b =? 0 then replicate n 0 else b :: strncpy bs' n'
      end
  end.

(** The strings in the slots [i], ..., as far as all are strings. *)
Fixpoint gather (s : vm) (i : Z) (n : nat) : option (option (list bytes)) :=
  match n with
  | O => Some (Some [])
  | Datatypes.S n' =>
      v ← get s i;
      if is_string v then
        b ← bytes_at (strs s) (val v);
        r ← gather s (i + 1) n';
        Some (option_map (cons b) r)
      else Some None
  end.

(** Address 0 for NULL. *)
Definition str_concat (s : vm) (start end_ : Z) : option (Z * vm) :=
  o ← gather s (base s + start) (Z.to_nat (end_ - start + 1));
  match o with
  | None => Some (0, with_err s (kp_error "cannot concat non-string" (err s)))
  | Some l =>
      let len := Z.of_nat (length (concat l)) in
      if len >=? percpu_buffer_size
      then Some (0, with_err s (kp_error "Error: too long string concatenation" (err s)))
      else
        '(ts, st, k) ← intern (strs s) (err s) (concat (map (λ b, strncpy b (length b)) l));
        Some (ts, with_strs s st k)
  end.

(** The open list up to the slot, and what follows. *)
Fixpoint uv_search (h : heap) (l : list Z) (slot : Z) : option (list Z * list Z * option Z) :=
  match l with
  | [] => Some ([], [], None)
  | a :: l' =>
      u ← h_upvals h !! a;
      v ← uv_slot u;
      if v >=? slot then
        if v =? slot then Some ([], l, Some a)
        else '(l1, l2, o) ← uv_search h l' slot; Some (a :: l1, l2, o)
      else Some ([], l, None)
  end.

(** The result is the address of the upvalue, 0 for NULL. *)
Definition findupval (s : vm) (slot : Z) : option (Z * vm) :=
  '(l1, l2, o) ← uv_search (hp s) (openupval s) slot;
  match o with
  | Some a => Some (a, s)
  | None =>
      let a := h_next (hp s) in
      if alloc_ok a then
        let h := set_upval_obj (bump (hp s)) a (mkuv (Some slot) kp_niltv 0) in
        Some (a, with_upvals s (l1 ++ a :: l2) (a :: uvhead s) h)
      else Some (0, s)
  end.

Definition unlinkupval (l : list Z) (a : Z) : list Z := filter (λ x, x <> a) l.

(** Close the open upvalues from [level] up. *)
Fixpoint close_list (s : vm) (l : list Z) (level : Z) : option vm :=
  match l with
  | [] => Some (with_upvals s [] (uvhead s) (hp s))
  | a :: l' =>
      u ← h_upvals (hp s) !! a;
      slot ← uv_slot u;
      if slot >=? level then
        v ← get s slot;
        let h := link_gc (set_upval_obj (hp s) a (mkuv None v (uv_immutable u))) a in
        close_list (with_upvals s l' (unlinkupval (uvhead s) a) h) l' level
      else Some (with_upvals s (a :: l') (uvhead s) (hp s))
  end.

Definition func_closeuv (s : vm) (level : Z) : option vm := close_list s (openupval s) level.

(** A function with no upvalues yet; address 0 for NULL. *)
Definition func_new_empty (s : vm) (proto : Z) : Z * vm :=
  if negb (is_main s)
  then (0, with_err s (kp_error "only mainthread can create function" (err s)))
  else
    let a := h_next (hp s) in
    if alloc_ok a
    then (a, with_heap s (link_gc (set_func_obj (bump (hp s)) a (mkfunc proto [])) a))
    else (0, s).


Definition set_immutable (s : vm) (a v : Z) : option vm :=
  u ← h_upvals (hp s) !! a;
  Some (with_heap s (set_upval_obj (hp s) a
    (mkuv (uv_slot u) (uv_tv u) ((v / PROTO_UV_IMMUTABLE) .& 1)))).

(** Fill in the upvalues of function [a]: NULL on a failed allocation. *)
Fixpoint fill_upvals (s : vm) (a parent b : Z) (uvs : list Z) : option (Z * vm) :=
  match uvs with
  | [] => Some (a, s)
  | v :: rest =>
      '(uv, s) ←
        (if negb (v .& PROTO_UV_LOCAL =? 0) then
           '(uv, s) ← findupval s (b + (v .& 0xff));
           if uv =? 0 then Some (0, s) else s ← set_immutable s uv v; Some (uv, s)
         else
           p ← h_funcs (hp s) !! parent; uv ← f_upvals p !! Z.to_nat v; Some (uv, s));
      if uv =? 0 then Some (0, s)
      else
        f ← h_funcs (hp s) !! a;
        fill_upvals (with_heap s (set_func_obj (hp s) a (mkfunc (f_proto f) (f_upvals f ++ [uv]))))
          a parent b rest
  end.

Definition func_new (s : vm) (proto parent b : Z) : option (Z * vm) :=
  p ← h_protos (hp s) !! proto;
  let '(a, s) := func_new_empty s proto in
  if a =? 0 then Some (0, s) else fill_upvals s a parent b (vp_uv p).

(** [true]: the stack is too small. *)
Definition checkstack (s : vm) (n : Z) : bool * vm :=
  if stack_last s - top s <=? n
  then (true, with_err s (kp_error "stack overflow, please enlarge stack size" (err s)))
  else (false, s).

Fixpoint move_fixed (s : vm) (fixed : Z) (n : nat) : option vm :=
  match n with
  | O => Some s
  | Datatypes.S n' =>
      v ← get s fixed;
      s ← put s (top s) v;
      s ← put_nil s fixed;
      move_fixed (with_top s (top s + 1)) (fixed + 1) n'
  end.

(** The new base: the fixed arguments are copied above the others. *)
Definition adjust_varargs (s : vm) (p : vproto) (actual : Z) : option (Z * vm) :=
  let fixed := top s - actual in
  let b := top s in
  s ← move_fixed s fixed (Z.to_nat (vp_numparams p));
  Some (b, s).

Fixpoint fill_nil (s : vm) (i : Z) (n : nat) : option vm :=
  match n with O => Some s | Datatypes.S n' => s ← put_nil s i; fill_nil s (i + 1) n' end.

(** Copy results while there are any, then pad with nil; a negative [wanted]
    copies all and pads nothing. *)
Fixpoint poscall_loop (fuel : nat) (s : vm) (dst first : Z) (i : Z) : option vm :=
  match fuel with
  | O => ub
  | Datatypes.S f =>
      if negb (i =? 0) && (first <? top s) then
        v ← get s first; s ← put s dst v; poscall_loop f s (dst + 1) (first + 1) (i - 1)
      else fill_nil s dst (Z.to_nat i)
  end.

Definition poscall (s : vm) (dst first wanted : Z) : option vm :=
  poscall_loop (Datatypes.S (Z.to_nat (top s - first))) s dst first wanted.

Definition check_hot_loop (s : vm) : bool * vm :=
  let s' := with_loop_count s (loop_count s + 1) in
  if loop_count s =? kp_max_loop_count
  then (true, with_err s' (kp_error "loop execute count exceed max limit(%d)" (err s)))
  else (false, s').

(** ** Comparisons and tests *)

Definition falsy (v : ktap_val) : bool := (itype v =? KTAP_TNIL) || (itype v =? KTAP_TFALSE).
Definition prim (d : Z) : Z := u32 (Z.lnot d).

Definition exec_num_test (s : vm) (instr : Z) (skip_if : Z -> Z -> bool) : option res :=
  a ← get s (RA s instr); d ← get s (RD s instr);
  if negb (is_number a) || negb (is_number d) then fail s "compare with non-number"
  else branch s (skip_if (nvalue a) (nvalue d)).

Definition exec_compare (op : BCOp) (s : vm) (instr : Z) : option res :=
  let a := RA s instr in let d := RD s instr in
  match op with
  | BC_ISLT => exec_num_test s instr Z.geb
  | BC_ISGE => exec_num_test s instr Z.ltb
  | BC_ISLE => exec_num_test s instr Z.gtb
  | BC_ISGT => exec_num_test s instr Z.leb
  | BC_ISEQV => x ← get s a; y ← get s d; branch s (negb (kp_obj_equal (a =? d) x y))
  | BC_ISNEV => x ← get s a; y ← get s d; branch s (kp_obj_equal (a =? d) x y)
  | BC_ISEQS => x ← get s a; k ← kgc_at s (bc_d instr);
                branch s (negb (is_string x) || negb (val x =? k))
  | BC_ISNES => x ← get s a; k ← kgc_at s (bc_d instr); branch s (is_string x && (val x =? k))
  | BC_ISEQN => x ← get s a; k ← knum_at s (bc_d instr);
                branch s (negb (is_number x) || negb (nvalue x =? nvalue k))
  | BC_ISNEN => x ← get s a; k ← knum_at s (bc_d instr);
                branch s (is_number x && (nvalue x =? nvalue k))
  | BC_ISEQP => x ← get s a; branch s (negb (itype x =? prim (bc_d instr)))
  | BC_ISNEP => x ← get s a; branch s (itype x =? prim (bc_d instr))
  | BC_ISTC => y ← get s d; if falsy y then branch s true else s ← put s a y; branch s false
  | BC_ISFC => y ← get s d; if negb (falsy y) then branch s true else s ← put s a y; branch s false
  | BC_IST => y ← get s d; branch s (falsy y)
  | BC_ISF => y ← get s d; branch s (negb (falsy y))
  | _ => Some (Return s)
  end.

(** ** Moves and arithmetic *)

Inductive arith := NUMADD | NUMSUB | NUMMUL | NUMDIV | NUMMOD.

(** On 64-bit signed words; the processor traps on a zero divisor and on the
    quotient that does not fit. *)
Definition arith_op (o : arith) (a b : Z) : option Z :=
  let traps := (b =? 0) || ((a =? - 2 ^ 63) && (b =? -1)) in
  match o with
  | NUMADD => Some (a + b)
  | NUMSUB => Some (a - b)
  | NUMMUL => Some (a * b)
  | NUMDIV => if traps then ub else Some (Z.quot a b)
  | NUMMOD => if traps then ub else Some (Z.rem a b)
  end.

Definition put_number (s : vm) (i n : Z) : option vm := put s i (set_number n).

Definition arith_VV (s : vm) (instr : Z) (o : arith) : option res :=
  rb ← get s (RB s instr); rc ← get s (RC s instr);
  if is_number rb && is_number rc then
    r ← arith_op o (nvalue rb) (nvalue rc); next (put_number s (RA s instr) r)
  else complain s "Error: Cannot make arith operation".

Definition arith_VN (s : vm) (instr : Z) (o : arith) : option res :=
  rb ← get s (RB s instr);
  if is_number rb then
    k ← knum_at s (bc_c instr);
    r ← arith_op o (nvalue rb) (nvalue k); next (put_number s (RA s instr) r)
  else complain s "Error: Cannot make arith operation".

Definition arith_NV (s : vm) (instr : Z) (o : arith) : option res :=
  rb ← get s (RB s instr);
  if is_number rb then
    k ← knum_at s (bc_c instr);
    r ← arith_op o (nvalue k) (nvalue rb); next (put_number s (RA s instr) r)
  else complain s "Error: Cannot make arith operation".

(** The zero checks of the forms with a constant. *)
Definition exec_arith (op : BCOp) (s : vm) (instr : Z) : option res :=
  match op with
  | BC_ADDVN => arith_VN s instr NUMADD
  | BC_SUBVN => arith_VN s instr NUMSUB
  | BC_MULVN => arith_VN s instr NUMMUL
  | BC_DIVVN => k ← knum_at s (bc_c instr);
                if nvalue k =? 0 then fail s "divide 0 arith operation" else arith_VN s instr NUMDIV
  | BC_MODVN => k ← knum_at s (bc_c instr);
                if nvalue k =? 0 then fail s "mod 0 arith operation" else arith_VN s instr NUMMOD
  | BC_ADDNV => arith_NV s instr NUMADD
  | BC_SUBNV => arith_NV s instr NUMSUB
  | BC_MULNV => arith_NV s instr NUMMUL
  | BC_DIVNV => rb ← get s (RB s instr);
                if nvalue rb =? 0 then fail s "divide 0 arith operation" else arith_NV s instr NUMDIV
  | BC_MODNV => rb ← get s (RB s instr);
                if nvalue rb =? 0 then fail s "mod 0 arith operation" else arith_NV s instr NUMMOD
  | BC_ADDVV => arith_VV s instr NUMADD
  | BC_SUBVV => arith_VV s instr NUMSUB
  | BC_MULVV => arith_VV s instr NUMMUL
  | BC_DIVVV => arith_VV s instr NUMDIV
  | BC_MODVV => arith_VV s instr NUMMOD
  | _ => Some (Return s)
  end.

Definition exec_unary (op : BCOp) (s : vm) (instr : Z) : option res :=
  let a := RA s instr in let d := RD s instr in
  match op with
  | BC_MOV => v ← get s d; next (put s a v)
  | BC_NOT => v ← get s d; next (put_type s a (if falsy v then KTAP_TTRUE else KTAP_TFALSE))
  | BC_UNM => v ← get s d;
              if negb (is_number v) then fail s "use '-' operator on non-number"
              else next (put_number s a (- nvalue v))
  | _ => Some (Return s)
  end.

(** ** Constants *)

Definition exec_const (op : BCOp) (s : vm) (instr : Z) : option res :=
  let a := RA s instr in
  match op with
  | BC_CAT =>
      '(ts, s) ← str_concat s (bc_b instr) (bc_c instr);
      if ts =? 0 then Some (Return s) else next (put s a (set_string ts))
  | BC_KSTR => k ← kgc_at s (bc_d instr); next (put s a (set_string k))
  | BC_KCDATA => Some (Next s)
  | BC_KSHORT => next (put_number s a (bc_d instr))
  | BC_KNUM => k ← knum_at s (bc_d instr); next (put_number s a (nvalue k))
  | BC_KPRI => next (put_type s a (prim (bc_d instr)))
  | BC_KNIL => next (fill_nil s a (Z.to_nat (u32 (bc_d instr - bc_a instr) + 1)))
  | _ => Some (Return s)
  end.

(** ** Upvalues and functions *)

Definition upval_addr (s : vm) (i : Z) : option Z :=
  f ← h_funcs (hp s) !! fn s; f_upvals f !! Z.to_nat i.
Definition uv_get (s : vm) (a : Z) : option ktap_val :=
  u ← h_upvals (hp s) !! a;
  match uv_slot u with Some i => get s i | None => Some (uv_tv u) end.
Definition uv_put (s : vm) (a : Z) (v : ktap_val) : option vm :=
  u ← h_upvals (hp s) !! a;
  match uv_slot u with
  | Some i => put s i v
  | None => Some (with_heap s (set_upval_obj (hp s) a (mkuv None v (uv_immutable u))))
  end.

Definition exec_upval (op : BCOp) (s : vm) (instr : Z) : option res :=
  let a := RA s instr in
  match op with
  | BC_UGET => u ← upval_addr s (bc_d instr); v ← uv_get s u; next (put s a v)
  | BC_USETV => u ← upval_addr s (bc_a instr); v ← get s (RD s instr); next (uv_put s u v)
  | BC_UINCV =>
      u ← upval_addr s (bc_a instr); v ← uv_get s u; d ← get s (RD s instr);
      if negb (is_number d) || negb (is_number v) then fail s "use '+=' on non-number"
      else next (uv_put s u (set_number (nvalue v + nvalue d)))
  | BC_USETS => u ← upval_addr s (bc_a instr); k ← kgc_at s (bc_d instr);
                next (uv_put s u (set_string k))
  | BC_USETN => u ← upval_addr s (bc_a instr); k ← knum_at s (bc_d instr);
                next (uv_put s u (set_number (nvalue k)))
  | BC_UINCN =>
      u ← upval_addr s (bc_a instr); v ← uv_get s u; k ← knum_at s (bc_d instr);
      if negb (is_number v) then fail s "use '+=' on non-number"
      else next (uv_put s u (set_number (nvalue v + nvalue k)))
  | BC_USETP => u ← upval_addr s (bc_a instr); v ← uv_get s u;
                next (uv_put s u (setitype v (prim (bc_d instr))))
  | BC_UCLO =>
      s ← (match openupval s with [] => Some s | _ => func_closeuv s a end);
      Some (Next (dojump s instr 0))
  | BC_FNEW =>
      p ← kgc_at s (bc_d instr);
      '(f, s) ← func_new s p (fn s) (base s);
      if f =? 0 then Some (Return s) else next (put s a (set_func f))
  | _ => Some (Return s)
  end.

(** ** Tables *)

(** Only the main thread may create objects; without one, creation is undefined. *)
Definition new_table (s : vm) (mk : kerr -> talloc -> option (option ktap_tab * kerr))
  : option (Z * vm) :=
  let a := h_next (hp s) in
  let m := mkta (is_main s && alloc_ok a) (ok_arr ta) (ok_node ta)
                (junk_val ta) (junk_node ta) (junk_hnum ta) in
  '(o, k) ← mk (err s) m;
  match o with
  | None => Some (0, with_err s k)
  | Some t => Some (a, with_err (with_heap s (link_gc (set_tab_obj (bump (hp s)) a t) a)) k)
  end.

Definition tab_at (s : vm) (a : Z) : option ktap_tab := h_tabs (hp s) !! a.

(** Run an operation on the table at [a] that changes it. *)
Definition tab_update (s : vm) (a : Z) (f : ktap_tab -> option (ktap_tab * kerr)) : option res :=
  t ← tab_at s a; '(t, k) ← f t;
  Some (Next (with_err (with_heap s (set_tab_obj (hp s) a t)) k)).

Definition exec_table_get (op : BCOp) (s : vm) (instr : Z) : option res :=
  let a := RA s instr in
  let from_table (msg : string) (f : Z -> option res) : option res :=
    b ← get s (RB s instr);
    if negb (is_table b) then fail s msg else f (val b) in
  match op with
  | BC_TNEW =>
      '(t, s) ← new_table s (λ k m, kp_tab_new_ah k m 0 0);
      if t =? 0 then Some (Return s) else next (put s a (set_table t))
  | BC_TDUP =>
      k ← kgc_at s (bc_d instr); kt ← tab_at s k;
      '(t, s) ← new_table s (λ k m, kp_tab_dup (tctx s) k m kt);
      if t =? 0 then Some (Return s) else next (put s a (set_table t))
  | BC_GGET =>
      k ← kgc_at s (bc_d instr); g ← tab_at s (gtab s);
      v ← kp_tab_getstr (tctx s) g k; next (put s a v)
  | BC_TGETV => from_table "get key from non-table" (λ b,
      t ← tab_at s b; key ← get s (RC s instr);
      '(v, k) ← kp_tab_get (tctx s) t (err s) key; next (put (with_err s k) a v))
  | BC_TGETS => from_table "get key from non-table" (λ b,
      t ← tab_at s b; key ← kgc_at s (bc_c instr);
      v ← kp_tab_getstr (tctx s) t key; next (put s a v))
  | BC_TGETB => from_table "set key to non-table" (λ b,
      t ← tab_at s b; v ← kp_tab_getint t (bc_c instr); next (put s a v))
  | _ => Some (Return s)
  end.

Definition exec_table_set (op : BCOp) (s : vm) (instr : Z) : option res :=
  let to_table (f : Z -> option res) : option res :=
    b ← get s (RB s instr);
    if negb (is_table b) then fail s "set key to non-table" else f (val b) in
  let number (f : ktap_val -> option res) : option res :=
    v ← get s (RA s instr);
    if negb (is_number v) then fail s "use '+=' on non-number" else f v in
  match op with
  | BC_TSETV => to_table (λ b, key ← get s (RC s instr); v ← get s (RA s instr);
      tab_update s b (λ t, kp_tab_set (tctx s) t (err s) key v))
  | BC_TINCV => to_table (λ b, number (λ v, key ← get s (RC s instr);
      tab_update s b (λ t, kp_tab_incr (tctx s) t (err s) key (nvalue v))))
  | BC_TSETS => to_table (λ b, key ← kgc_at s (bc_c instr); v ← get s (RA s instr);
      tab_update s b (λ t, kp_tab_setstr (tctx s) t (err s) key v))
  | BC_TINCS => to_table (λ b, number (λ v, key ← kgc_at s (bc_c instr);
      tab_update s b (λ t, kp_tab_incrstr (tctx s) t (err s) key (nvalue v))))
  | BC_TSETB => to_table (λ b, v ← get s (RA s instr);
      tab_update s b (λ t, kp_tab_setint (tctx s) t (err s) (bc_c instr) v))
  | BC_TINCB => to_table (λ b, number (λ v,
      tab_update s b (λ t, kp_tab_incrint (tctx s) t (err s) (bc_c instr) (nvalue v))))
  | _ => Some (Return s)
  end.

(** ** Calls and returns *)

Definition proto_of_fn (s : vm) (f : Z) : option (Z * vproto) :=
  o ← h_funcs (hp s) !! f; p ← h_protos (hp s) !! f_proto o; Some (f_proto o, p).

(** A light C function runs on the same stack and says how many results it left. *)
Definition call_cfunction (s : vm) (newfunc oldtop nresults f : Z) : option res :=
  let '(over, s) := checkstack s KTAP_MIN_RESERVED_STACK_SIZE in
  if over then Some (Return s)
  else
    '(n, s) ← cfunction f (with_ks_func s newfunc);
    if n <? 0 then Some (Return s)
    else
      s ← poscall s newfunc (top s - n) nresults;
      Some (Next (with_multres (with_top s oldtop) (n + 1))).

(** A function of the program: complete the arguments and enter its frame. *)
Definition call_function (s : vm) (newfunc f : Z) : option res :=
  '(pa, p) ← proto_of_fn s f;
  let s := with_frame s (base s) newfunc (fn s) pa (kbase s) (pc s) in
  let '(over, s) := checkstack s (vp_framesize p) in
  if over then Some (Return s)
  else
    let n := top s - newfunc - 1 in
    let missing := Z.to_nat (vp_numparams p - n) in
    s ← fill_nil s (top s) missing;
    let s := with_top s (top s + Z.of_nat missing) in
    '(b, s) ← (if vp_flags p .& 0x02 =? 0 then Some (newfunc + 1, s)
               else adjust_varargs s p (n + Z.of_nat missing));
    s ← put_cell s newfunc (CFrame f (Some (pc_add (pc s) (-1))));
    Some (Next (with_top (with_frame s b newfunc f pa pa (mkpc pa 1)) (b + vp_framesize p))).

(** Move the arguments of a tail call into the frame of the caller. *)
Fixpoint move_args (s : vm) (nfunc ofunc aux : Z) (n : nat) : option vm :=
  match n with
  | O => Some s
  | Datatypes.S n' =>
      x ← get s (nfunc + aux); s ← put s (ofunc + aux) x; move_args s nfunc ofunc (aux + 1) n'
  end.

Definition exec_call (op : BCOp) (s : vm) (instr : Z) : option res :=
  let a := RA s instr in
  match op with
  | BC_CALLM | BC_CALL =>
      let c := bc_c instr in
      let nresults := bc_b instr - 1 in
      let oldtop := top s in
      let s := match op with
               | BC_CALLM => with_top s (a + c + multres s)
               | _ => if c =? 0 then s else with_top s (a + c)
               end in
      v ← get s a;
      if itype v =? KTAP_TCFUNC then call_cfunction s a oldtop nresults (val v)
      else if itype v =? KTAP_TFUNC then call_function s a (val v)
      else fail s "attempt to call nil function"
  | BC_CALLT =>
      v ← get s a;
      if itype v =? KTAP_TCFUNC then fail s "don't support callt for C function"
      else if itype v =? KTAP_TFUNC then
        '(pa, p) ← proto_of_fn s (val v);
        c ← cell_at s (func s);
        s ← put_cell s (func s)
              (match c with CVal w => CVal (mkval (val v) (type w)) | CFrame _ r => CFrame (val v) r end);
        s ← move_args s a (func s) 1 (Z.to_nat (vp_numparams p));
        Some (Next (with_top (with_frame s (base s) (func s) (val v) pa pa (mkpc pa 1))
                             (base s + vp_framesize p)))
      else fail s "attempt to call nil function"
  | _ => Some (Return s)
  end.

(** Back to the caller: the frame size used for the new top is the one of [pt],
    which still is the prototype called last. *)
Definition leave (s : vm) (q : pcaddr) : option res :=
  i ← code_at s q;
  let b := func s - bc_a i in
  c ← cell_at s (b - 1);
  let f := cell_payload c in
  '(pa, _) ← proto_of_fn s f;
  p ← h_protos (hp s) !! pt s;
  Some (Next (with_top (with_frame s b (b - 1) f (pt s) pa (pc_add q 1)) (b + vp_framesize p))).

Definition exec_ret (op : BCOp) (s : vm) (instr : Z) : option res :=
  match op with
  | BC_RET0 | BC_RET1 =>
      c ← cell_at s (func s);
      match c with
      | CVal _ => ub
      | CFrame _ None => Some (Return s)
      | CFrame _ (Some q) =>
          let s := with_multres s (bc_d instr) in
          s ← (match op with
               | BC_RET0 => put_cell s (func s) (cell_set_nil c)
               | _ => v ← get s (RA s instr); put s (base s - 1) v
               end);
          leave s q
      end
  | _ => Some (Return s)
  end.

(** ** Iteration and loops *)

Definition patch_op (s : vm) (q : pcaddr) (o : BCOp) : option vm :=
  p ← h_protos (hp s) !! pc_proto q;
  i ← code_at s q;
  Some (with_heap s (set_proto_obj (hp s) (pc_proto q)
    (mkvp (vp_flags p) (vp_numparams p) (vp_framesize p)
          (<[Z.to_nat (pc_idx q) := setbc_op i (bcop_code o)]> (vp_bc p))
          (vp_uv p) (vp_kgc p) (vp_kn p)))).

Definition exec_iter (op : BCOp) (s : vm) (instr : Z) : option res :=
  let a := RA s instr in
  match op with
  | BC_ITERN =>
      let '(hot, s) := check_hot_loop s in
      if hot then Some (Return s)
      else
        h ← get s (a - 2); t ← tab_at s (val h); key ← get s a;
        '(o, k) ← kp_tab_next (tctx s) t (err s) key;
        let s := with_err s k in
        match o with
        | Some (k', v) => s ← put s a k'; s ← put s (a + 1) v; next (donextjump s)
        | None => Some (Next (skip s))
        end
  | BC_ISNEXT =>
      f ← get s (a - 3); h ← get s (a - 2); c ← get s (a - 1);
      if negb (is_cfunc f) || negb (is_table h) || negb (is_nil c) ||
         negb (val f =? kp_tab_next_addr) then
        s ← patch_op s (pc_add (pc s) (-1)) BC_JMP;
        let s := dojump s instr 0 in
        next (patch_op s (pc s) BC_ITERC)
      else next (put_nil (dojump s instr 0) a)
  | _ => Some (Return s)
  end.

(** [NUMLT(0, step) ? NUMLE(idx, limit) : NUMLE(limit, idx)]. *)
Definition for_cond (idx limit step : Z) : bool :=
  if 0 <? step then idx <=? limit else limit <=? idx.

Definition exec_loop (op : BCOp) (s : vm) (instr : Z) : option res :=
  let a := RA s instr in
  match op with
  | BC_FORI =>
      i ← get s a; l ← get s (a + 1); st ← get s (a + 2);
      if negb (is_number i) || negb (is_number l) || negb (is_number st)
      then fail s "'for' init/limit/step value must be a number"
      else if for_cond (nvalue i) (nvalue l) (nvalue st)
      then next (put_number s (a + 3) (nvalue i))
      else Some (Next (dojump s instr 0))
  | BC_FORL =>
      i ← get s a; l ← get s (a + 1); st ← get s (a + 2);
      let idx := s64 (nvalue i + nvalue st) in
      s ← (if for_cond idx (nvalue l) (nvalue st)
           then s ← put_number (dojump s instr 0) a idx; put_number s (a + 3) idx
           else Some s);
      let '(hot, s) := check_hot_loop s in
      Some (if hot then Return s else Next s)
  | BC_LOOP => let '(hot, s) := check_hot_loop s in Some (if hot then Return s else Next s)
  | BC_JMP => Some (Next (dojump s instr 0))
  | _ => Some (Return s)
  end.

(** ** Event context and task *)

Definition exec_event (op : BCOp) (s : vm) (instr : Z) : option res :=
  let a := RA s instr in
  let in_event (f : event -> option res) : option res :=
    match current_ev s with None => fail s "invalid event context" | Some e => f e end in
  match op with
  | BC_VARGN => in_event (λ _,
      '(v, st, k) ← event_getarg s a (bc_d instr); next (put (with_strs s st k) a v))
  | BC_VARGSTR => in_event (λ e,
      match e_argstr e with
      | Some ts => next (put s a (set_string ts))
      | None => next (put_type s a KTAP_TEVENTSTR)
      end)
  | BC_VPROBENAME => in_event (λ e, next (put s a (set_string (e_name e))))
  | BC_VPID => next (put_number s a (s32 task_pid))
  | BC_VTID => next (put_number s a (s32 task_tid))
  | BC_VUID => next (put_number s a (s32 task_uid))
  | BC_VCPU => next (put_number s a (s32 task_cpu))
  | BC_VEXECNAME =>
      '(ts, st, k) ← intern (strs s) (err s) task_comm;
      let s := with_strs s st k in
      if ts =? 0 then Some (Return s) else next (put s a (set_string ts))
  | BC_GFUNC => f ← gfunc_tbl s !! Z.to_nat (bc_d instr); next (put s a (set_cfunc f))
  | _ => Some (Return s)
  end.

(** ** The interpreter *)

Definition exec (op : BCOp) (s : vm) (instr : Z) : option res :=
  match op with
  | BC_ISLT | BC_ISGE | BC_ISLE | BC_ISGT | BC_ISEQV | BC_ISNEV | BC_ISEQS | BC_ISNES
  | BC_ISEQN | BC_ISNEN | BC_ISEQP | BC_ISNEP | BC_ISTC | BC_ISFC | BC_IST | BC_ISF
  | BC_ISTYPE | BC_ISNUM => exec_compare op s instr
  | BC_MOV | BC_NOT | BC_UNM => exec_unary op s instr
  | BC_ADDVN | BC_SUBVN | BC_MULVN | BC_DIVVN | BC_MODVN | BC_ADDNV | BC_SUBNV | BC_MULNV
  | BC_DIVNV | BC_MODNV | BC_ADDVV | BC_SUBVV | BC_MULVV | BC_DIVVV | BC_MODVV
  | BC_POW => exec_arith op s instr
  | BC_CAT | BC_KSTR | BC_KCDATA | BC_KSHORT | BC_KNUM | BC_KPRI | BC_KNIL => exec_const op s instr
  | BC_UGET | BC_USETV | BC_UINCV | BC_USETS | BC_USETN | BC_UINCN | BC_USETP | BC_UCLO
  | BC_FNEW => exec_upval op s instr
  | BC_TNEW | BC_TDUP | BC_GGET | BC_GSET | BC_GINC | BC_TGETV | BC_TGETS | BC_TGETB
  | BC_TGETR => exec_table_get op s instr
  | BC_TSETV | BC_TINCV | BC_TSETS | BC_TINCS | BC_TSETB | BC_TINCB | BC_TSETM
  | BC_TSETR => exec_table_set op s instr
  | BC_CALLM | BC_CALL | BC_CALLMT | BC_CALLT => exec_call op s instr
  | BC_ITERC | BC_ITERN | BC_VARG | BC_ISNEXT => exec_iter op s instr
  | BC_RETM | BC_RET | BC_RET0 | BC_RET1 => exec_ret op s instr
  | BC_FORI | BC_JFORI | BC_FORL | BC_IFORL | BC_JFORL | BC_ITERL | BC_IITERL | BC_JITERL
  | BC_LOOP | BC_ILOOP | BC_JLOOP | BC_JMP => exec_loop op s instr
  | BC_FUNCF | BC_IFUNCF | BC_JFUNCF | BC_FUNCV | BC_IFUNCV | BC_JFUNCV | BC_FUNCC
  | BC_FUNCCW => Some (Return s)
  | BC_VARGN | BC_VARGSTR | BC_VPROBENAME | BC_VPID | BC_VTID | BC_VUID | BC_VCPU
  | BC_VEXECNAME | BC_GFUNC => exec_event op s instr
  end.

(** [DISPATCH]: fetch, advance, jump through the table. *)
Definition dispatch (s : vm) : option res :=
  instr ← code_at s (pc s);
  op ← bcop_of_code (bc_op instr);
  exec op (skip s) instr.

(** The loop, for at most [fuel] instructions. *)
Fixpoint run (fuel : nat) (s : vm) : option vm :=
  match fuel with
  | O => None
  | Datatypes.S f => r ← dispatch s; match r with Next s => run f s | Return s => Some s end
  end.

(** The state at the first dispatch of [kp_vm_call(ks, func, ...)]. *)
Definition kp_vm_enter (s : vm) (f : Z) : option vm :=
  c ← cell_at s f;
  let fn := cell_payload c in
  '(pa, p) ← proto_of_fn s fn;
  s ← put_cell s f (CFrame fn None);
  Some (with_loop_count (with_multres
    (with_top (with_frame s (f + 1) f fn pa pa (mkpc pa 1)) (f + 1 + vp_framesize p)) 0) 0).

Definition kp_vm_call (fuel : nat) (s : vm) (f : Z) : option vm :=
  s ← kp_vm_enter s f; run fuel s.

Definition kp_vm_call_proto (fuel : nat) (s : vm) (proto : Z) : option vm :=
  let '(a, s) := func_new_empty s proto in
  if a =? 0 then Some s
  else
    s ← put s (top s) (set_func a);
    let s := with_top s (top s + 1) in
    kp_vm_call fuel s (top s - 1).

(** ** Built-in functions *)

Definition gfunc_get (s : vm) (idx : Z) : option Z := gfunc_tbl s !! Z.to_nat idx.

Fixpoint find_index (l : list Z) (f : Z) (i : Z) : Z :=
  match l with
  | [] => -1
  | x :: l' => if x =? f then i else find_index l' f (i + 1)
  end.
Definition gfunc_getidx (tbl : list Z) (f : Z) : Z := find_index tbl f 0.

Definition gfunc_add (tbl : list Z) (k : kerr) (f : Z) : list Z * kerr :=
  if Z.of_nat (length tbl) =? KP_MAX_CACHED_CFUNCTION
  then (tbl, kp_error "please enlarge KP_MAX_CACHED_CFUNCTION %d" k)
  else (tbl ++ [f], k).

(** ** Validation *)

Definition set_code (s : vm) (a : Z) (bc : list Z) : vm :=
  match h_protos (hp s) !! a with
  | None => s
  | Some p => with_heap s (set_proto_obj (hp s) a
      (mkvp (vp_flags p) (vp_numparams p) (vp_framesize p) bc (vp_uv p) (vp_kgc p) (vp_kn p)))
  end.

Definition kgc_of (p : vproto) (d : Z) : option Z :=
  let n := Z.of_nat (length (vp_kgc p)) in
  if (0 <=? d) && (d <? n) then vp_kgc p !! Z.to_nat (n - 1 - d) else ub.

(** One instruction: [false] with an error, or [true] with the instruction as
    patched; [sub] validates the prototype of a closure. *)
Definition validate_instr (sub : vm -> Z -> Z -> option (bool * vm)) (s : vm) (p : vproto)
    (b instr : Z) : option (bool * Z * vm) :=
  let op := bc_op instr in
  let bad msg := Some (false, instr, with_err s (kp_error msg (err s))) in
  if op >=? BC__MAX then bad "unknown byte code %d"
  else
    match bcop_of_code op with
    | Some BC_FNEW =>
        c ← kgc_of p (bc_d instr);
        '(ok, s) ← sub s c (b + bc_a instr + 1); Some (ok, instr, s)
    | Some BC_RETM | Some BC_RET => bad "don't support return multiple values"
    | Some BC_GSET | Some BC_GINC => bad "cannot set global variable '%s'"
    | Some BC_GGET =>
        ts ← kgc_of p (bc_d instr);
        g ← tab_at s (gtab s);
        v ← kp_tab_getstr (tctx s) g ts;
        if is_nil v then bad "undefined global variable '%s'"
        else if is_cfunc v then
          let idx := gfunc_getidx (gfunc_tbl s) (val v) in
          if idx >=? 0 then Some (true, setbc_d (setbc_op instr (bcop_code BC_GFUNC)) idx, s)
          else Some (true, instr, s)
        else Some (true, instr, s)
    | Some BC_ITERC => bad "ktap only support pairs iteraor"
    | Some BC_POW => bad "ktap don't support pow arith"
    | _ => Some (true, instr, s)
    end.

(** The instructions of prototype [a] from position [i]. *)
Fixpoint validate_loop (sub : vm -> Z -> Z -> option (bool * vm)) (n : nat) (s : vm) (a b : Z) (i : nat)
  : option (bool * vm) :=
  match n with
  | O => Some (true, s)
  | Datatypes.S n' =>
      p ← h_protos (hp s) !! a;
      instr ← vp_bc p !! i;
      '(ok, instr', s) ← validate_instr sub s p b instr;
      if (ok : bool) then
        p ← h_protos (hp s) !! a;
        validate_loop sub n' (set_code s a (<[i := instr']> (vp_bc p))) a b (Datatypes.S i)
      else Some (false, s)
  end.

(** [fuel] bounds the nesting of functions. *)
Fixpoint kp_vm_validate_code (fuel : nat) (s : vm) (a b : Z) : option (bool * vm) :=
  match fuel with
  | O => None
  | Datatypes.S f =>
      p ← h_protos (hp s) !! a;
      if vp_framesize p >? KP_MAX_SLOTS
      then Some (false, with_err s (kp_error "exceed max frame size %d" (err s)))
      else if b + vp_framesize p >? stack_last s
      then Some (false, with_err s (kp_error "stack overflow" (err s)))
      else validate_loop (kp_vm_validate_code f) (length (vp_bc p) - 1) s a b 1
  end.

(** ** Libraries *)

Definition with_gfuncs (s : vm) (tbl : list Z) (k : kerr) : vm :=
  mkvm (stack s) (top s) (stack_last s) (ks_func s) (base s) (func s) (fn s) (pt s) (kbase s) (pc s)
    (multres s) (loop_count s) (openupval s) (uvhead s) (hp s) (strs s) (gtab s) tbl
    k (is_main s) (current_ev s).

(** Register the functions (name and address) of a library in table [target]. *)
Fixpoint register_funcs (s : vm) (target : Z) (funcs : list (bytes * Z)) : option (Z * vm) :=
  match funcs with
  | [] => Some (0, s)
  | (name, f) :: rest =>
      '(ts, st, k) ← intern (strs s) (err s) name;
      let s := with_strs s st k in
      if ts =? 0 then Some (- ENOMEM, s)
      else
        t ← tab_at s target;
        '(t, k) ← kp_tab_setstr (tctx s) t (err s) ts (set_cfunc f);
        let s := with_err (with_heap s (set_tab_obj (hp s) target t)) k in
        let '(tbl, k) := gfunc_add (gfunc_tbl s) (err s) f in
        register_funcs (with_gfuncs s tbl k) target rest
  end.

Definition kp_vm_register_lib (s : vm) (libname : option bytes) (funcs : list (bytes * Z))
  : option (Z * vm) :=
  match libname with
  | None => register_funcs s (gtab s) funcs
  | Some name =>
      '(ts, st, k) ← intern (strs s) (err s) name;
      let s := with_strs s st k in
      if ts =? 0 then Some (- ENOMEM, s)
      else
        '(t, s) ← new_table s (λ k m, kp_tab_new_ah k m 0 (Z.of_nat (length funcs) + 1));
        if t =? 0 then Some (- ENOMEM, s)
        else
          g ← tab_at s (gtab s);
          '(g, k) ← kp_tab_set (tctx s) g (err s) (set_string ts) (set_table t);
          register_funcs (with_err (with_heap s (set_tab_obj (hp s) (gtab s) g)) k) t funcs
  end.

End Vm.
