(* ===== verification/VmThm.v ===== *)
(** * VmThm: theorems about the interpreter

    Upvalues are shared and keep their value when they are closed; calls and
    returns are bracketed; results are copied and padded; validation rejects
    what the interpreter does not support and its patches do not change what is
    loaded; the loop counter bounds the number of loop instructions. *)

From Stdlib Require Import Sorting.Sorted.
From S2P Require Import Prelude Types Bytecode Mempool Tab Intern Vm.
#[local] Open Scope word_scope.

Section Stack.
Context {S : Type}.

Implicit Types s : vm (S := S).

(** ** Stack cells *)

Lemma put_cell_Some s i c s' :
  put_cell s i c = Some s' ->
  0 <= i < Z.of_nat (length (stack s)) /\ s' = with_stack s (<[Z.to_nat i := c]> (stack s)).
Proof.
  unfold put_cell. destruct (_ && _) eqn:E; [|done]. intros [= <-]. bool_to_Prop. done.
Qed.

Lemma put_cell_ok s i c :
  0 <= i < Z.of_nat (length (stack s)) ->
  put_cell s i c = Some (with_stack s (<[Z.to_nat i := c]> (stack s))).
Proof.
  intros Hi. unfold put_cell. rewrite (proj2 (Z.leb_le _ _)), (proj2 (Z.ltb_lt _ _)) by lia. done.
Qed.

Lemma cell_at_lt s i c : cell_at s i = Some c -> 0 <= i < Z.of_nat (length (stack s)).
Proof.
  unfold cell_at. destruct (Z.leb_spec 0 i); [|done]. intros Hi. apply lookup_lt_Some in Hi. lia.
Qed.

Lemma cell_at_insert s i j c :
  0 <= i < Z.of_nat (length (stack s)) ->
  cell_at (with_stack s (<[Z.to_nat i := c]> (stack s))) j = if decide (j = i) then Some c else cell_at s j.
Proof.
  intros Hi. unfold cell_at. simpl. case_decide as Hj.
  - subst j. rewrite (proj2 (Z.leb_le _ _)) by lia. apply list_lookup_insert_eq. lia.
  - destruct (Z.leb_spec 0 j); [|done]. apply list_lookup_insert_ne. lia.
Qed.

(** Two states with the same stack have the same cells. *)
Lemma get_stack s s' i : stack s' = stack s -> get s' i = get s i.
Proof. intros E. unfold get, cell_at. by rewrite E. Qed.

(** ** Upvalues *)

Definition slot_of (s : vm (S := S)) (a : Z) : option Z := u ← h_upvals (hp s) !! a; uv_slot u.

(** The open list: every entry is an open upvalue, from the highest slot down,
    and every open upvalue is listed. *)
Record uv_inv (s : vm (S := S)) : Prop := {
  ui_slots : exists slots, Forall2 (λ a sl, slot_of s a = Some sl) (openupval s) slots /\
               StronglySorted Z.gt slots;
  ui_all : forall a sl, slot_of s a = Some sl -> a ∈ openupval s;
  ui_fresh : forall a, is_Some (h_upvals (hp s) !! a) -> 0 < a < h_next (hp s);
  ui_pos : 0 < h_next (hp s)
}.

Lemma Forall2_slot_inj s l slots a b sl :
  Forall2 (λ a sl, slot_of s a = Some sl) l slots -> StronglySorted Z.gt slots ->
  a ∈ l -> b ∈ l -> slot_of s a = Some sl -> slot_of s b = Some sl -> a = b.
Proof.
  induction 1 as [|x y l slots Hx HF IH]; intros Hs Ha Hb Ea Eb; [by apply not_elem_of_nil in Ha|].
  apply StronglySorted_inv in Hs as [Hs Hy]. rewrite List.Forall_forall in Hy.
  assert (Hin : forall c, c ∈ l -> slot_of s c = Some sl -> In sl slots).
  { intros c Hc Ec. apply list_elem_of_lookup in Hc as [i Hi].
    destruct (Forall2_lookup_l _ _ _ _ _ HF Hi) as (z & Hz & Ez). simplify_eq.
    apply list_elem_of_In. by eapply list_elem_of_lookup_2. }
  apply elem_of_cons in Ha as [->|Ha], Hb as [->|Hb]; [done|..|auto].
  - specialize (Hy _ (Hin _ Hb Eb)). simplify_eq. lia.
  - specialize (Hy _ (Hin _ Ha Ea)). simplify_eq. lia.
Qed.

(** What the search returns: the upvalue of the slot, or where it belongs. *)
Lemma uv_search_spec s l slots slot :
  Forall2 (λ a sl, slot_of s a = Some sl) l slots -> StronglySorted Z.gt slots ->
  exists l1 l2 o, uv_search (hp s) l slot = Some (l1, l2, o) /\ l = l1 ++ l2 /\
    match o with
    | Some a => a ∈ l /\ slot_of s a = Some slot
    | None => exists sl1 sl2, slots = sl1 ++ sl2 /\ length sl1 = length l1 /\
                Forall (λ x, x > slot) sl1 /\ Forall (λ x, x < slot) sl2
    end.
Proof.
  induction 1 as [|a sl l slots Ha HF IH]; intros Hs; simpl.
  { do 3 eexists. split; [done|]. split; [done|]. by exists [], []. }
  unfold slot_of in Ha. destruct (h_upvals (hp s) !! a) as [u|] eqn:Eu; [|done]. simpl in *.
  rewrite Ha. simpl. apply StronglySorted_inv in Hs as [Hs Hlt].
  destruct (Z.geb_spec sl slot) as [Hge|Hlt'].
  - destruct (Z.eqb_spec sl slot) as [->|Hne].
    + exists [], (a :: l), (Some a). split_and!; [done..|by left|]. unfold slot_of. by rewrite Eu.
    + destruct (IH Hs) as (l1 & l2 & o & -> & -> & Ho). simpl. exists (a :: l1), l2, o.
      split_and!; [done..|]. destruct o as [b|].
      * destruct Ho. split; [by right|done].
      * destruct Ho as (sl1 & sl2 & -> & El & H1 & H2). exists (sl :: sl1), sl2.
        split_and!; [done|simpl; congruence| |done]. constructor; [lia|done].
  - exists [], (a :: l), None. split_and!; [done..|]. exists [], (sl :: slots).
    split_and!; [done..|]. constructor; [lia|]. eapply list.Forall_impl; [exact Hlt|]. simpl. lia.
Qed.

Lemma sorted_insert sl1 sl2 x :
  StronglySorted Z.gt (sl1 ++ sl2) -> Forall (λ y, y > x) sl1 -> Forall (λ y, y < x) sl2 ->
  StronglySorted Z.gt (sl1 ++ x :: sl2).
Proof.
  induction sl1 as [|y sl1 IH]; simpl; intros Hs H1 H2.
  - constructor; [done|]. eapply list.Forall_impl; [exact H2|]. simpl. lia.
  - apply StronglySorted_inv in Hs as [Hs Hy]. apply list.Forall_cons in H1 as [Hyx H1].
    constructor; [auto|]. rewrite list.Forall_app in *. destruct Hy. split; [done|]. by constructor.
Qed.

(** The state after a new upvalue was linked. *)
Definition linked s l1 l2 slot : vm (S := S) :=
  let a := h_next (hp s) in
  with_upvals s (l1 ++ a :: l2) (a :: uvhead s)
    (set_upval_obj (bump (hp s)) a (mkuv (Some slot) kp_niltv 0)).

Lemma linked_slot s l1 l2 slot b :
  slot_of (linked s l1 l2 slot) b = if decide (b = h_next (hp s)) then Some slot else slot_of s b.
Proof.
  unfold slot_of, linked. simpl. case_decide as Hb.
  - subst b. by rewrite lookup_insert_eq.
  - by rewrite lookup_insert_ne.
Qed.

Lemma linked_inv s l1 l2 slot sl1 sl2 :
  uv_inv s -> openupval s = l1 ++ l2 -> length sl1 = length l1 ->
  Forall2 (λ a sl, slot_of s a = Some sl) (l1 ++ l2) (sl1 ++ sl2) ->
  StronglySorted Z.gt (sl1 ++ sl2) ->
  Forall (λ y, y > slot) sl1 -> Forall (λ y, y < slot) sl2 ->
  uv_inv (linked s l1 l2 slot).
Proof.
  intros I El Hlen HF Hs H1 H2. apply Forall2_app_inv in HF as [HF1 HF2]; [|done].
  assert (Hne : forall b sl, slot_of s b = Some sl -> b <> h_next (hp s)).
  { intros b sl E ->. unfold slot_of in E. destruct (h_upvals (hp s) !! _) eqn:Eu; [|done].
    pose proof (ui_fresh _ I (h_next (hp s)) ltac:(by eexists)). lia. }
  split.
  - exists (sl1 ++ slot :: sl2). split; [|by apply sorted_insert].
    apply Forall2_app; [|constructor].
    + eapply list.Forall2_impl; [exact HF1|]. simpl. intros b sl E. rewrite linked_slot, decide_False; eauto.
    + by rewrite linked_slot, decide_True.
    + eapply list.Forall2_impl; [exact HF2|]. simpl. intros b sl E. rewrite linked_slot, decide_False; eauto.
  - intros b sl. rewrite linked_slot. simpl. case_decide as Hb; intros E.
    + subst b. apply elem_of_app. right. by left.
    + apply (ui_all _ I) in E. rewrite El, elem_of_app in E. rewrite elem_of_app, elem_of_cons. tauto.
  - intros b [u Hu]. unfold linked in *. simpl in *. rewrite lookup_insert_Some in Hu.
    pose proof (ui_pos _ I). destruct Hu as [[<- _]|[_ Hu]]; [lia|].
    pose proof (ui_fresh _ I b ltac:(by eexists)). lia.
  - simpl. pose proof (ui_pos _ I). lia.
Qed.

Section Find.
Context (alloc_ok : Z -> bool).

Lemma findupval_found s a slot :
  uv_inv s -> slot_of s a = Some slot -> findupval alloc_ok s slot = Some (a, s).
Proof.
  intros I E. destruct (ui_slots _ I) as (slots & HF & Hs).
  destruct (uv_search_spec s _ _ slot HF Hs) as (l1 & l2 & o & Es & El & Ho).
  unfold findupval. rewrite Es. simpl. pose proof (ui_all _ I _ _ E) as Hin. destruct o as [b|].
  - destruct Ho as [Hb Eb]. do 2 f_equal. by eapply Forall2_slot_inj.
  - destruct Ho as (sl1 & sl2 & -> & _ & H1 & H2). exfalso.
    apply list_elem_of_lookup in Hin as [i Hi].
    destruct (Forall2_lookup_l _ _ _ _ _ HF Hi) as (z & Hz & Ez). simplify_eq.
    apply list_elem_of_lookup_2, elem_of_app in Hz as [Hz|Hz];
      [rewrite list.Forall_forall in H1; specialize (H1 _ Hz)|
       rewrite list.Forall_forall in H2; specialize (H2 _ Hz)]; lia.
Qed.

(** Closures share the variables they capture: looking up the upvalue of a
    stack slot gives an open upvalue of that slot, keeps the open list sorted
    and complete, leaves every other upvalue as it was, and the next lookup of
    the same slot finds the same upvalue without changing anything. *)
Theorem findupval_shares s slot :
  uv_inv s -> alloc_ok (h_next (hp s)) = true ->
  exists a s', findupval alloc_ok s slot = Some (a, s') /\ a <> 0 /\ uv_inv s' /\
    slot_of s' a = Some slot /\ stack s' = stack s /\
    (forall b, b <> a -> h_upvals (hp s') !! b = h_upvals (hp s) !! b) /\
    findupval alloc_ok s' slot = Some (a, s').
Proof.
  intros I Hok. destruct (ui_slots _ I) as (slots & HF & Hs).
  destruct (uv_search_spec s _ _ slot HF Hs) as (l1 & l2 & o & Es & El & Ho).
  destruct o as [a|].
  - destruct Ho as [_ Ea]. pose proof (findupval_found s a slot I Ea) as Ef.
    exists a, s. split_and!; try done. unfold slot_of in Ea.
    destruct (h_upvals (hp s) !! a) eqn:Eu; [|done].
    pose proof (ui_fresh _ I a ltac:(by eexists)). lia.
  - destruct Ho as (sl1 & sl2 & -> & Hlen & H1 & H2).
    assert (I' : uv_inv (linked s l1 l2 slot)) by (eapply linked_inv; eauto; by rewrite <- El).
    assert (Ea : slot_of (linked s l1 l2 slot) (h_next (hp s)) = Some slot)
      by (by rewrite linked_slot, decide_True).
    exists (h_next (hp s)), (linked s l1 l2 slot). split_and!; try done.
    + unfold findupval. rewrite Es. simpl. by rewrite Hok.
    + pose proof (ui_pos _ I). lia.
    + intros b Hb. unfold linked. simpl. by rewrite lookup_insert_ne.
    + by apply findupval_found.
Qed.

End Find.

(** The state after the head of the open list was closed on value [v]. *)
Definition closed1 s a u v l' : vm (S := S) :=
  with_upvals s l' (unlinkupval (uvhead s) a)
    (link_gc (set_upval_obj (hp s) a (mkuv None v (uv_immutable u))) a).

Lemma closed1_slot s a u v l' b :
  slot_of (closed1 s a u v l') b = if decide (b = a) then None else slot_of s b.
Proof.
  unfold slot_of, closed1. simpl. case_decide as Hb.
  - subst b. by rewrite lookup_insert_eq.
  - by rewrite lookup_insert_ne.
Qed.

Lemma closed1_inv s a u v l' :
  uv_inv s -> openupval s = a :: l' -> is_Some (h_upvals (hp s) !! a) -> uv_inv (closed1 s a u v l').
Proof.
  intros I El Ha. destruct (ui_slots _ I) as (slots & HF & Hs). rewrite El in HF.
  apply Forall2_cons_inv_l in HF as (sl & slots' & Hsl & HF & ->).
  apply StronglySorted_inv in Hs as [Hs Hlt]. rewrite list.Forall_forall in Hlt. split.
  - exists slots'. split; [|done]. simpl. apply Forall2_same_length_lookup_2.
    { by eapply Forall2_length. }
    intros i b sl' Hb Hsl'. pose proof (Forall2_lookup_lr _ _ _ _ _ _ HF Hb Hsl') as E.
    rewrite closed1_slot, decide_False; [done|]. intros ->.
    assert (sl' = sl) as -> by congruence.
    pose proof (Hlt sl (list_elem_of_lookup_2 _ _ _ Hsl')). lia.
  - intros b sl'. rewrite closed1_slot. case_decide; [done|]. intros E.
    apply (ui_all _ I) in E. rewrite El in E. simpl. by apply elem_of_cons in E as [?|?].
  - intros b [w Hw]. simpl in *. rewrite lookup_insert_Some in Hw.
    destruct Hw as [[<- _]|[_ Hw]]; apply (ui_fresh _ I); [done|by eexists].
  - apply (ui_pos _ I).
Qed.

Lemma closed1_get s a u v l' b :
  h_upvals (hp s) !! a = Some u -> uv_slot u <> None -> uv_get s a = Some v ->
  uv_get (closed1 s a u v l') b = uv_get s b.
Proof.
  intros Hu _ Hv. unfold uv_get, closed1 in *. simpl. destruct (decide (b = a)) as [->|Hb].
  - rewrite lookup_insert_eq. rewrite Hu in *. simpl in *. done.
  - rewrite lookup_insert_ne by done. destruct (h_upvals (hp s) !! b); [|done]. simpl.
    by destruct (uv_slot k).
Qed.

Lemma close_list_spec l s level :
  openupval s = l -> uv_inv s ->
  (forall a sl, slot_of s a = Some sl -> is_Some (get s sl)) ->
  exists s', close_list s l level = Some s' /\ uv_inv s' /\ stack s' = stack s /\
    (forall a, uv_get s' a = uv_get s a) /\
    (forall a sl, slot_of s' a = Some sl <-> slot_of s a = Some sl /\ sl < level).
Proof.
  revert s. induction l as [|a l' IH]; intros s El I Hget.
  - eexists. split; [done|].
    assert (with_upvals s [] (uvhead s) (hp s) = s) as -> by (unfold with_upvals; rewrite <- El; by destruct s).
    split_and!; try done. intros a sl. split; [|tauto]. intros E. pose proof (ui_all _ I _ _ E) as Hin.
    rewrite El in Hin. by apply not_elem_of_nil in Hin.
  - destruct (ui_slots _ I) as (slots & HF & Hs). rewrite El in HF.
    apply Forall2_cons_inv_l in HF as (sl & slots' & Hsl & HF & ->).
    pose proof (Hget _ _ Hsl) as [v Hv]. unfold slot_of in Hsl.
    destruct (h_upvals (hp s) !! a) as [u|] eqn:Eu; [|done]. simpl in Hsl.
    cbn [close_list]. rewrite Eu. cbn [mbind option_bind]. rewrite Hsl. cbn [mbind option_bind].
    destruct (Z.geb_spec sl level) as [Hge|Hlt].
    + rewrite Hv. cbn [mbind option_bind]. fold (closed1 s a u v l').
      assert (Hua : uv_get s a = Some v) by (unfold uv_get; rewrite Eu; simpl; by rewrite Hsl).
      destruct (IH (closed1 s a u v l')) as (s' & -> & I' & Es & Hu & Hslot); [done|by apply closed1_inv| |].
      { intros b slb. rewrite closed1_slot. case_decide; [done|]. apply Hget. }
      exists s'. split_and!; try done.
      * intros b. rewrite Hu. apply closed1_get; [done|by rewrite Hsl|done].
      * intros b slb. rewrite Hslot, closed1_slot. case_decide as Hb; [|tauto].
        subst b. unfold slot_of. rewrite Eu. simpl. rewrite Hsl. split; [by intros []|].
        intros [[= ->] ?]. lia.
    + eexists. split; [done|].
      assert (with_upvals s (a :: l') (uvhead s) (hp s) = s) as -> by (unfold with_upvals; rewrite <- El; by destruct s).
      split_and!; try done. intros b slb. split; [|tauto]. intros Hb. split; [done|].
      apply StronglySorted_inv in Hs as [_ Hs]. rewrite list.Forall_forall in Hs.
      pose proof (ui_all _ I _ _ Hb) as Hin. rewrite El in Hin. apply elem_of_cons in Hin as [->|Hin].
      * unfold slot_of in Hb. rewrite Eu in Hb. simpl in Hb. simplify_eq. lia.
      * apply list_elem_of_lookup in Hin as [i Hi].
        destruct (Forall2_lookup_l _ _ _ _ _ HF Hi) as (z & Hz & Ez). simplify_eq.
        apply list_elem_of_lookup_2 in Hz. specialize (Hs _ Hz). lia.
Qed.

(** C26.  Closing upvalues when their scope ends: exactly the upvalues of the slots
    from [level] up are closed, the others stay open and listed in order, the
    stack does not change, and every upvalue reads the same value as before. *)
Theorem func_closeuv_keeps_values s level :
  uv_inv s -> (forall a sl, slot_of s a = Some sl -> is_Some (get s sl)) ->
  exists s', func_closeuv s level = Some s' /\ uv_inv s' /\ stack s' = stack s /\
    (forall a, uv_get s' a = uv_get s a) /\
    (forall a sl, slot_of s' a = Some sl <-> slot_of s a = Some sl /\ sl < level).
Proof. intros I Hg. by apply close_list_spec. Qed.

(** ** Writing ranges of the stack *)

(** [s'] differs from [s] in the stack only. *)
Definition same_but_stack s s' : Prop := exists st, s' = with_stack s st /\ length st = length (stack s).

Lemma sbs_refl s : same_but_stack s s.
Proof. exists (stack s). by destruct s. Qed.

Lemma sbs_trans s1 s2 s3 : same_but_stack s1 s2 -> same_but_stack s2 s3 -> same_but_stack s1 s3.
Proof. intros (st & -> & E) (st' & -> & E'). exists st'. split; [done|]. simpl in E'. congruence. Qed.

Lemma put_ok s i v :
  0 <= i < Z.of_nat (length (stack s)) ->
  exists s', put s i v = Some s' /\ same_but_stack s s' /\
    (forall j, cell_at s' j = if decide (j = i) then Some (CVal v) else cell_at s j).
Proof.
  intros Hi. eexists. split; [by apply put_cell_ok|]. split.
  - eexists. split; [done|]. apply length_insert.
  - intros j. by apply cell_at_insert.
Qed.

Lemma put_nil_ok s i :
  0 <= i < Z.of_nat (length (stack s)) ->
  exists s' v, put_nil s i = Some s' /\ is_nil v = true /\ same_but_stack s s' /\
    (forall j, cell_at s' j = if decide (j = i) then Some (CVal v) else cell_at s j).
Proof.
  intros Hi. unfold put_nil, put_type.
  assert (exists c, cell_at s i = Some c) as [c Ec].
  { unfold cell_at. rewrite (proj2 (Z.leb_le _ _)) by lia. apply lookup_lt_is_Some_2. lia. }
  rewrite Ec. simpl. destruct (put_ok s i (mkval (cell_payload c) KTAP_TNIL) Hi) as (s' & -> & Hs & Hc).
  exists s', (mkval (cell_payload c) KTAP_TNIL). done.
Qed.

Lemma fill_nil_ok n s i :
  0 <= i -> i + Z.of_nat n <= Z.of_nat (length (stack s)) ->
  exists s', fill_nil s i n = Some s' /\ same_but_stack s s' /\
    (forall j, i <= j < i + Z.of_nat n -> exists v, cell_at s' j = Some (CVal v) /\ is_nil v = true) /\
    (forall j, j < i \/ i + Z.of_nat n <= j -> cell_at s' j = cell_at s j).
Proof.
  revert s i. induction n as [|n IH]; intros s i Hi Hlen; cbn [fill_nil].
  { exists s. split_and!; [done|apply sbs_refl| |done]. lia. }
  destruct (put_nil_ok s i ltac:(lia)) as (s1 & v & -> & Hv & Hs & Hc). cbn [mbind option_bind].
  destruct Hs as (st & -> & Hl).
  destruct (IH (with_stack s st) (i + 1)) as (s2 & -> & Hs2 & Hin & Hout); [lia|simpl; lia|].
  exists s2. split_and!; [done| |..].
  - eapply sbs_trans; [|exact Hs2]. by exists st.
  - intros j Hj. destruct (decide (j = i)) as [->|Hne]; [|apply Hin; lia].
    rewrite Hout by lia. rewrite Hc, decide_True by done. eauto.
  - intros j Hj. rewrite Hout by lia. rewrite Hc, decide_False by lia. done.
Qed.

Lemma get_cell s i v : get s i = Some v <-> cell_at s i = Some (CVal v).
Proof.
  unfold get. destruct (cell_at s i) as [[w|]|]; simpl; split; intros E; simplify_eq; done.
Qed.


Lemma poscall_loop_ok fuel s dst first i :
  0 <= i -> 0 <= dst <= first -> Z.max 0 (top s - first) < Z.of_nat fuel ->
  dst + i <= Z.of_nat (length (stack s)) ->
  (forall j, first <= j < top s -> is_Some (get s j)) ->
  exists s', poscall_loop fuel s dst first i = Some s' /\ same_but_stack s s' /\
    (forall j, 0 <= j < i -> first + j < top s -> cell_at s' (dst + j) = cell_at s (first + j)) /\
    (forall j, 0 <= j < i -> top s <= first + j ->
       exists v, cell_at s' (dst + j) = Some (CVal v) /\ is_nil v = true) /\
    (forall j, j < dst \/ dst + i <= j -> cell_at s' j = cell_at s j).
Proof.
  revert s dst first i. induction fuel as [|fuel IH]; intros s dst first i Hi Hd Hf Hlen Hget; [lia|].
  cbn [poscall_loop]. destruct (negb (i =? 0) && (first <? top s)) eqn:E.
  - bool_to_Prop. destruct (Hget first ltac:(lia)) as [v Hv]. rewrite Hv. cbn [mbind option_bind].
    destruct (put_ok s dst v ltac:(lia)) as (s1 & -> & (st & -> & Hl) & Hc). cbn [mbind option_bind].
    assert (Hc' : forall j, dst < j -> cell_at (with_stack s st) j = cell_at s j)
      by (intros j Hj; rewrite Hc, decide_False by lia; done).
    destruct (IH (with_stack s st) (dst + 1) (first + 1) (i - 1))
      as (s2 & -> & Hs2 & Hcp & Hnil & Hout); simpl; try lia.
    { intros j Hj. destruct (Hget j ltac:(lia)) as [w Hw]. exists w.
      apply get_cell. apply get_cell in Hw. rewrite Hc' by lia. done. }
    simpl in *. exists s2. split_and!; [done|eapply sbs_trans; [|exact Hs2]; by exists st|..].
    + intros j Hj Hlt. destruct (decide (j = 0)) as [->|Hne].
      * rewrite !Z.add_0_r, Hout, Hc, decide_True by lia. symmetry. by apply get_cell.
      * replace (dst + j) with (dst + 1 + (j - 1)) by lia. rewrite Hcp by lia.
        replace (first + 1 + (j - 1)) with (first + j) by lia. apply Hc'. lia.
    + intros j Hj Hge. destruct (Hnil (j - 1) ltac:(lia) ltac:(lia)) as (w & Hw & ?). exists w.
      by replace (dst + j) with (dst + 1 + (j - 1)) by lia.
    + intros j Hj. rewrite Hout by lia. rewrite Hc, decide_False by lia. done.
  - destruct (fill_nil_ok (Z.to_nat i) s dst) as (s1 & -> & Hs & Hin & Hout); [lia|lia|].
    exists s1. split_and!; [done|done|..].
    + intros j Hj Hlt. apply andb_false_iff in E as [E|E]; bool_to_Prop; lia.
    + intros j Hj _. apply Hin. lia.
    + intros j Hj. apply Hout. lia.
Qed.

(** Returning from a C function: the wanted number of results is moved down
    to the slot of the function, missing ones are nil, and no other slot
    changes. *)
Theorem poscall_spec s dst first wanted :
  0 <= wanted -> 0 <= dst <= first -> dst + wanted <= Z.of_nat (length (stack s)) ->
  (forall j, first <= j < top s -> is_Some (get s j)) ->
  exists s', poscall s dst first wanted = Some s' /\ same_but_stack s s' /\
    (forall j, 0 <= j < wanted ->
       if first + j <? top s then cell_at s' (dst + j) = cell_at s (first + j)
       else exists v, cell_at s' (dst + j) = Some (CVal v) /\ is_nil v = true) /\
    (forall j, j < dst \/ dst + wanted <= j -> cell_at s' j = cell_at s j).
Proof.
  intros Hw Hd Hlen Hget. unfold poscall.
  destruct (poscall_loop_ok (Datatypes.S (Z.to_nat (top s - first))) s dst first wanted)
    as (s' & -> & Hs & Hcp & Hnil & Hout); try done; [lia|].
  exists s'. split_and!; try done. intros j Hj.
  destruct (Z.ltb_spec (first + j) (top s)); [by apply Hcp|by apply Hnil].
Qed.

End Stack.

Section VmThm.
Context {S : Type} `{Intern S}.
Context (alloc_ok : Z -> bool) (ta : talloc).
Context (tctx : vm (S := S) -> kctx).
Context (cfunction : Z -> vm (S := S) -> option (Z * vm (S := S))).
Context (event_getarg : vm (S := S) -> Z -> Z -> option (ktap_val * S * kerr)).
Context (task_pid task_tid task_uid task_cpu : Z) (task_comm : bytes).
Context (kp_tab_next_addr kp_max_loop_count percpu_buffer_size : Z).
Implicit Types s : vm (S := S).

(** ** Calls and returns *)

(** The registers describe the frame whose function is in slot [func]. *)
Record frame_ok s : Prop := {
  fo_base : func s = base s - 1;
  fo_fn : cell_payload <$> cell_at s (func s) = Some (fn s);
  fo_proto : exists p, proto_of_fn s (fn s) = Some (kbase s, p)
}.

Let exec := exec alloc_ok ta tctx cfunction event_getarg task_pid task_tid task_uid task_cpu task_comm
  kp_tab_next_addr kp_max_loop_count percpu_buffer_size.

Lemma cell_at_top s t i : cell_at (with_top s t) i = cell_at s i.
Proof. reflexivity. Qed.

(** Entering a function without varargs. *)
Lemma call_function_ok s a f pa p :
  proto_of_fn s f = Some (pa, p) -> vp_flags p .& 2 = 0 ->
  vp_framesize p < stack_last s - top s -> 0 <= a < top s ->
  0 <= vp_numparams p -> top s + vp_numparams p <= Z.of_nat (length (stack s)) ->
  exists s1, call_function s a f = Some (Next s1) /\
    base s1 = a + 1 /\ func s1 = a /\ fn s1 = f /\ kbase s1 = pa /\ pt s1 = pa /\ pc s1 = mkpc pa 1 /\
    top s1 = a + 1 + vp_framesize p /\ hp s1 = hp s /\
    length (stack s1) = length (stack s) /\
    cell_at s1 a = Some (CFrame f (Some (pc_add (pc s) (-1)))) /\
    (forall i, i < top s -> i <> a -> cell_at s1 i = cell_at s i) /\
    (forall i, top s <= i < a + 1 + vp_numparams p ->
       exists v, cell_at s1 i = Some (CVal v) /\ is_nil v = true).
Proof using.
  intros Hp Hfl Hroom Ha Hnp Hlen. unfold call_function. rewrite Hp. cbn [mbind option_bind].
  unfold checkstack. cbn [stack_last top with_frame].
  rewrite (proj2 (Z.leb_gt _ _)) by lia. cbn [mbind option_bind].
  set (m := Z.to_nat (vp_numparams p - (top s - a - 1))).
  set (s0 := with_frame s (base s) a (fn s) pa (kbase s) (pc s)).
  destruct (fill_nil_ok m s0 (top s)) as (s1 & E1 & (st & -> & Hl) & Hin & Hout); [lia|unfold m; simpl; lia|].
  change (top s0) with (top s). fold m. rewrite E1. cbn [mbind option_bind]. rewrite Hfl.
  cbn [Z.eqb mbind option_bind].
  rewrite put_cell_ok by (simpl; simpl in Hl; lia). cbn [mbind option_bind].
  eexists. split; [reflexivity|]. simpl. simpl in Hl. split_and!; try done.
  - by rewrite length_insert.
  - unfold cell_at. simpl. rewrite (proj2 (Z.leb_le _ _)) by lia. apply list_lookup_insert_eq. lia.
  - intros i Hi Hne. specialize (Hout i ltac:(lia)). change (cell_at s i) with (cell_at s0 i). rewrite <- Hout.
    unfold cell_at. simpl. destruct (Z.leb_spec 0 i); [|done]. rewrite list_lookup_insert_ne by lia. done.
  - intros i Hi. destruct (Hin i ltac:(unfold m; lia)) as (v & Hv & ?). exists v. split; [|done]. rewrite <- Hv.
    unfold cell_at. simpl. destruct (Z.leb_spec 0 i); [|done]. rewrite list_lookup_insert_ne by lia. done.
Qed.

(** Leaving a function whose frame is intact. *)
Lemma exec_ret1_ok s r v a f q i b fc pa pb pp :
  func s = a -> base s = a + 1 -> cell_at s a = Some (CFrame f (Some q)) ->
  get s (RA s r) = Some v -> code_at s q = Some i -> b = a - bc_a i  ->
  cell_payload <$> cell_at s (b - 1) = Some fc -> b - 1 < a ->
  proto_of_fn s fc = Some (pa, pb) -> h_protos (hp s) !! pt s = Some pp ->
  exists s', exec BC_RET1 s r = Some (Next s') /\ base s' = b /\ func s' = b - 1 /\ fn s' = fc /\
    kbase s' = pa /\ pc s' = pc_add q 1 /\ top s' = b + vp_framesize pp /\
    cell_at s' a = Some (CVal v) /\ (forall j, j <> a -> cell_at s' j = cell_at s j).
Proof using.
  intros Hfu Hba Hfr Hv Hi Hb Hc Hlt Hpf Hpt.
  unfold exec, Vm.exec, exec_ret. rewrite Hfu, Hfr. cbn [mbind option_bind].
  rewrite (get_stack s (with_multres s (bc_d r))) by done.
  change (RA (with_multres s (bc_d r)) r) with (RA s r). rewrite Hv. cbn [mbind option_bind].
  pose proof (cell_at_lt _ _ _ Hfr) as Ha.
  unfold put. change (base (with_multres s (bc_d r))) with (base s).
  replace (base s - 1) with a by lia. rewrite put_cell_ok by done. cbn [mbind option_bind].
  set (s1 := with_stack _ _).
  assert (Hcell : forall j, cell_at s1 j = if decide (j = a) then Some (CVal v) else cell_at s j)
    by (intros j; by apply (cell_at_insert (with_multres s (bc_d r)))).
  unfold leave. change (code_at s1 q) with (code_at s q). rewrite Hi. cbn [mbind option_bind].
  change (func s1) with (func s). rewrite Hfu, <- Hb. rewrite Hcell, decide_False by lia.
  apply fmap_Some in Hc as (c & -> & ->). cbn [mbind option_bind].
  change (proto_of_fn s1 (cell_payload c)) with (proto_of_fn s (cell_payload c)). rewrite Hpf.
  cbn [mbind option_bind]. change (h_protos (hp s1) !! pt s1) with (h_protos (hp s) !! pt s).
  rewrite Hpt. cbn [mbind option_bind].
  eexists. split; [done|]. split_and!; try done.
  - change (cell_at s1 a = Some (CVal v)). by rewrite Hcell, decide_True.
  - intros j Hj. change (cell_at s1 j = cell_at s j). by rewrite Hcell, decide_False.
Qed.

(** What a callee may do between its call and its return: anything that leaves
    its own registers, the code, and the stack up to its function slot alone. *)
Record callee_ran s1 s2 : Prop := {
  cr_base : base s2 = base s1;
  cr_func : func s2 = func s1;
  cr_pt : pt s2 = pt s1;
  cr_protos : h_protos (hp s2) = h_protos (hp s1);
  cr_funcs : h_funcs (hp s1) ⊆ h_funcs (hp s2);
  cr_stack : forall i, i <= func s1 -> cell_at s2 i = cell_at s1 i
}.

Lemma proto_of_fn_mono s1 s2 f x :
  h_protos (hp s2) = h_protos (hp s1) -> h_funcs (hp s1) ⊆ h_funcs (hp s2) ->
  proto_of_fn s1 f = Some x -> proto_of_fn s2 f = Some x.
Proof using.
  intros Ep Hsub. unfold proto_of_fn. rewrite Ep.
  destruct (h_funcs (hp s1) !! f) as [o|] eqn:Eo; [|done].
  by rewrite (lookup_weaken _ _ _ _ Eo Hsub).
Qed.

(** C27.  Calls are bracketed.  This is about [BC_CALL] with a fixed number of
    arguments, of a function of the program that has no variable arguments and
    whose frame fits the stack, and about a return of one value with [BC_RET1]; in
    between the callee ends in the frame it started with, changes no prototype and
    removes no closure, and writes no slot of the caller, not through an upvalue
    either.  The call enters the frame of the function with the arguments in place
    and the missing ones nil; after the return the caller has its base, function,
    constants and instruction pointer back, continues behind the call, has the
    slots below the called function as they were and the value in the slot of the
    function.  The stack top is not restored: it ends at the base of the caller
    plus the frame size of the function that was called. *)
Theorem call_return_brackets s instr f pa p :
  let a := RA s instr in
  frame_ok s -> code_at s (pc_add (pc s) (-1)) = Some instr ->
  get s a = Some (set_func f) -> proto_of_fn s f = Some (pa, p) -> vp_flags p .& 2 = 0 ->
  bc_c instr <> 0 -> 0 <= bc_a instr -> 0 <= bc_c instr -> 1 <= base s -> 0 <= vp_numparams p ->
  vp_framesize p < stack_last s - (a + bc_c instr) ->
  a + bc_c instr + vp_numparams p <= Z.of_nat (length (stack s)) ->
  exists s1, exec BC_CALL s instr = Some (Next s1) /\
    base s1 = a + 1 /\ fn s1 = f /\ pc s1 = mkpc pa 1 /\
    (forall i, a < i < a + bc_c instr -> cell_at s1 i = cell_at s i) /\
    (forall i, a + bc_c instr <= i < a + 1 + vp_numparams p ->
       exists v, cell_at s1 i = Some (CVal v) /\ is_nil v = true) /\
    forall s2 r v, callee_ran s1 s2 -> get s2 (RA s2 r) = Some v ->
      exists s3, exec BC_RET1 s2 r = Some (Next s3) /\
        base s3 = base s /\ func s3 = func s /\ fn s3 = fn s /\ kbase s3 = kbase s /\ pc s3 = pc s /\
        get s3 a = Some v /\ (forall i, i < a -> cell_at s3 i = cell_at s i) /\
        top s3 = base s + vp_framesize p.
Proof using All.
  intros a [Hb Hfn [pk Hpk]] Hcode Hget Hp Hfl Hc0 Ha0 Hc Hbase Hnp Hroom Hlen.
  assert (Hpp : h_protos (hp s) !! pa = Some p).
  { unfold proto_of_fn in Hp. destruct (h_funcs (hp s) !! f) as [o|]; [|done]. simpl in Hp.
    destruct (h_protos (hp s) !! f_proto o) eqn:E; [|done]. simpl in Hp. by simplify_eq. }
  destruct (call_function_ok (with_top s (a + bc_c instr)) a f pa p)
    as (s1 & E1 & B1 & F1 & N1 & K1 & P1 & PC1 & T1 & H1 & L1 & C1 & O1 & M1);
    try done; [simpl; unfold a, RA; lia..|].
  exists s1. split.
  { unfold exec, Vm.exec, exec_call. fold a. rewrite (proj2 (Z.eqb_neq _ _)) by done.
    rewrite (get_stack s (with_top s (a + bc_c instr))) by done. rewrite Hget. exact E1. }
  assert (Hlow : forall i, i < a -> cell_at s1 i = cell_at s i) by (intros; apply O1; simpl; lia).
  split_and!; try done.
  - intros i Hi. apply O1; simpl; lia.
  - intros s2 r v [B2 F2 P2 Hpr Hfs Hst] Hv.
    assert (Hcell2 : forall i, i < a -> cell_at s2 i = cell_at s i)
      by (intros i Hi; rewrite Hst by lia; by apply Hlow).
    destruct (exec_ret1_ok s2 r v a f (pc_add (pc s) (-1)) instr (base s) (fn s) (kbase s) pk p)
      as (s3 & E3 & B3 & F3 & N3 & K3 & PC3 & T3 & C3 & O3).
    + congruence.
    + congruence.
    + by rewrite Hst, C1 by lia.
    + done.
    + unfold code_at in *. rewrite Hpr, H1. exact Hcode.
    + unfold a, RA. lia.
    + rewrite Hcell2 by (unfold a, RA; lia). by rewrite <- Hb.
    + unfold a, RA. lia.
    + apply (proto_of_fn_mono s1); [done|done|]. unfold proto_of_fn in *. by rewrite H1.
    + rewrite Hpr, P2, P1, H1. done.
    + exists s3. split_and!; try done; [congruence| |by apply get_cell|].
      * rewrite PC3. unfold pc_add. simpl. destruct (pc s). simpl. f_equal. lia.
      * intros i Hi. rewrite O3 by lia. by apply Hcell2.
Qed.

(** ** Division *)

(** Division and modulus by zero: with a constant operand, or a constant
    dividend, the interpreter reports an error; with two variable operands
    ([DIVVV], [MODVV]) there is no check and the division traps. *)
Theorem div_by_zero s instr :
  (forall x, get s (RB s instr) = Some (set_number x) -> get s (RC s instr) = Some (set_number 0) ->
     exec BC_DIVVV s instr = None /\ exec BC_MODVV s instr = None) /\
  (forall k, knum_at s (bc_c instr) = Some k -> nvalue k = 0 ->
     exec BC_DIVVN s instr = Some (Return (with_err s (kp_error "divide 0 arith operation" (err s)))) /\
     exec BC_MODVN s instr = Some (Return (with_err s (kp_error "mod 0 arith operation" (err s))))) /\
  (forall b, get s (RB s instr) = Some b -> nvalue b = 0 ->
     exec BC_DIVNV s instr = Some (Return (with_err s (kp_error "divide 0 arith operation" (err s)))) /\
     exec BC_MODNV s instr = Some (Return (with_err s (kp_error "mod 0 arith operation" (err s))))).
Proof using All.
  unfold exec, Vm.exec, exec_arith, arith_VV. split_and!.
  - intros x -> ->. done.
  - intros k -> E. cbn [mbind option_bind]. by rewrite E.
  - intros b -> E. cbn [mbind option_bind]. by rewrite E.
Qed.

(** ** The loop counter *)

Definition is_loop_op (op : BCOp) : bool :=
  match op with BC_ITERN | BC_FORL | BC_LOOP => true | _ => false end.

(** C functions have no access to the local counter of the interpreter. *)
Context (cfunction_local : forall f s n s', cfunction f s = Some (n, s') -> loop_count s' = loop_count s).

Lemma put_lc s i v s' : put s i v = Some s' -> loop_count s' = loop_count s.
Proof using. intros E. apply put_cell_Some in E as [_ ->]. done. Qed.
Lemma put_cell_lc s i v s' : put_cell s i v = Some s' -> loop_count s' = loop_count s.
Proof using. intros E. apply put_cell_Some in E as [_ ->]. done. Qed.
Lemma put_type_lc s i v s' : put_type s i v = Some s' -> loop_count s' = loop_count s.
Proof using. unfold put_type. intros E. apply bind_Some in E as (c & _ & E). by eapply put_lc. Qed.
Lemma fill_nil_lc n s i s' : fill_nil s i n = Some s' -> loop_count s' = loop_count s.
Proof using.
  revert s i. induction n as [|n IH]; intros s i; cbn [fill_nil]; [by intros [= <-]|].
  intros E. apply bind_Some in E as (s1 & E1 & E). apply put_type_lc in E1. apply IH in E. congruence.
Qed.
Lemma move_fixed_lc n s i s' : move_fixed s i n = Some s' -> loop_count s' = loop_count s.
Proof using.
  revert s i. induction n as [|n IH]; intros s i; cbn [move_fixed]; [by intros [= <-]|].
  intros E. apply bind_Some in E as (v & _ & E). apply bind_Some in E as (s1 & E1 & E).
  apply bind_Some in E as (s2 & E2 & E). apply put_lc in E1. apply put_type_lc in E2.
  apply IH in E. simpl in E. congruence.
Qed.
Lemma poscall_lc fuel s d f i s' : poscall_loop fuel s d f i = Some s' -> loop_count s' = loop_count s.
Proof using.
  revert s d f i. induction fuel as [|fuel IH]; intros s d f i; cbn [poscall_loop]; [done|].
  destruct (_ && _); [|apply fill_nil_lc]. intros E.
  apply bind_Some in E as (v & _ & E). apply bind_Some in E as (s1 & E1 & E).
  apply put_lc in E1. apply IH in E. congruence.
Qed.
Lemma close_list_lc l s lv s' : close_list s l lv = Some s' -> loop_count s' = loop_count s.
Proof using.
  revert s. induction l as [|a l IH]; intros s; cbn [close_list]; [by intros [= <-]|].
  intros E. apply bind_Some in E as (u & _ & E). apply bind_Some in E as (sl & _ & E).
  destruct (sl >=? lv); [|by injection E as <-]. apply bind_Some in E as (v & _ & E).
  apply IH in E. done.
Qed.
Lemma findupval_lc s sl a s' : findupval alloc_ok s sl = Some (a, s') -> loop_count s' = loop_count s.
Proof using.
  unfold findupval. intros E. apply bind_Some in E as ([[l1 l2] o] & _ & E).
  destruct o; [by simplify_eq|]. destruct (alloc_ok _); by simplify_eq.
Qed.
Lemma fill_upvals_lc uvs s a p b r s' :
  fill_upvals alloc_ok s a p b uvs = Some (r, s') -> loop_count s' = loop_count s.
Proof using.
  revert s. induction uvs as [|v uvs IH]; intros s; cbn [fill_upvals]; [by intros [= _ <-]|].
  intros E. apply bind_Some in E as ([uv s1] & E1 & E).
  assert (loop_count s1 = loop_count s) as <-.
  { destruct (negb _).
    - apply bind_Some in E1 as ([uv0 s0] & E0 & E1). apply findupval_lc in E0. rewrite <- E0.
      destruct (uv0 =? 0); [by simplify_eq|]. apply bind_Some in E1 as (s2 & E2 & E1).
      apply bind_Some in E2 as (u & _ & E2). by simplify_eq.
    - apply bind_Some in E1 as (q & _ & E1). apply bind_Some in E1 as (w & _ & E1). by simplify_eq. }
  destruct (uv =? 0); [by simplify_eq|]. apply bind_Some in E as (f & _ & E). apply IH in E. done.
Qed.
Lemma func_new_lc s pr p b r s' :
  func_new alloc_ok s pr p b = Some (r, s') -> loop_count s' = loop_count s.
Proof using.
  unfold func_new, func_new_empty. intros E. apply bind_Some in E as (q & _ & E).
  destruct (negb (is_main s)); simpl in E; [by simplify_eq|].
  destruct (alloc_ok _); simpl in E; [|by simplify_eq].
  destruct (h_next (hp s) =? 0); [by simplify_eq|]. by apply fill_upvals_lc in E.
Qed.
Lemma new_table_lc s mk r s' : new_table alloc_ok ta s mk = Some (r, s') -> loop_count s' = loop_count s.
Proof using.
  unfold new_table. intros E. apply bind_Some in E as ([o k] & _ & E). destruct o; by simplify_eq.
Qed.
Lemma str_concat_lc s i e r s' :
  str_concat percpu_buffer_size s i e = Some (r, s') -> loop_count s' = loop_count s.
Proof using.
  unfold str_concat. intros E. apply bind_Some in E as (o & _ & E). destruct o; [|by simplify_eq].
  destruct (_ >=? _); [by simplify_eq|]. apply bind_Some in E as ([[ts st] k] & _ & E). by simplify_eq.
Qed.
Lemma uv_put_lc s a v s' : uv_put s a v = Some s' -> loop_count s' = loop_count s.
Proof using.
  unfold uv_put. intros E. apply bind_Some in E as (u & _ & E).
  destruct (uv_slot u); [by eapply put_lc|by simplify_eq].
Qed.
Lemma donextjump_lc s s' : donextjump s = Some s' -> loop_count s' = loop_count s.
Proof using. unfold donextjump. intros E. apply bind_Some in E as (i & _ & E). by simplify_eq. Qed.
Lemma patch_op_lc s q o s' : patch_op s q o = Some s' -> loop_count s' = loop_count s.
Proof using.
  unfold patch_op. intros E. apply bind_Some in E as (p & _ & E). apply bind_Some in E as (i & _ & E).
  by simplify_eq.
Qed.

Lemma checkstack_lc s n b s' : checkstack s n = (b, s') -> loop_count s' = loop_count s.
Proof using. unfold checkstack. destruct (_ <=? _); by intros [= _ <-]. Qed.

(** Open up the definition of an instruction that went on. *)
Ltac lc_inv :=
  repeat match goal with
  | E : mbind _ _ = Some _ |- _ => apply bind_Some in E as (? & ? & E)
  | E : next _ = Some (Next _) |- _ => unfold next in E; apply fmap_Some in E as (? & E & [=])
  | E : fail _ _ = Some (Next _) |- _ => discriminate E
  | E : complain _ _ = Some (Next _) |- _ => discriminate E
  | E : Some (Return _) = Some (Next _) |- _ => discriminate E
  | E : Some (Next _) = Some (Next _) |- _ => injection E as E
  | E : Some ?x = Some ?y |- _ => injection E as E
  | E : None = Some _ |- _ => discriminate E
  | E : (_, _) = (_, _) |- _ => injection E as E
  | E : branch _ _ = Some (Next _) |- _ => unfold branch in E
  | E : (let (_, _) := ?x in _) = Some _ |- _ => destruct x eqn:?
  | E : (if ?b then _ else _) = Some _ |- _ => destruct b eqn:?
  | E : match ?x with Some _ => _ | None => _ end = Some _ |- _ => destruct x eqn:?
  end.

(** Collect what the helpers say about the counter. *)
Ltac lc_done :=
  repeat match goal with
  | E : put _ _ _ = Some _ |- _ => apply put_lc in E
  | E : put_number _ _ _ = Some _ |- _ => apply put_lc in E
  | E : put_cell _ _ _ = Some _ |- _ => apply put_cell_lc in E
  | E : put_type _ _ _ = Some _ |- _ => apply put_type_lc in E
  | E : put_nil _ _ = Some _ |- _ => apply put_type_lc in E
  | E : fill_nil _ _ _ = Some _ |- _ => apply fill_nil_lc in E
  | E : move_fixed _ _ _ = Some _ |- _ => apply move_fixed_lc in E
  | E : func_closeuv _ _ = Some _ |- _ => apply close_list_lc in E
  | E : func_new _ _ _ _ _ = Some _ |- _ => apply func_new_lc in E
  | E : new_table _ _ _ _ = Some _ |- _ => apply new_table_lc in E
  | E : str_concat _ _ _ _ = Some _ |- _ => apply str_concat_lc in E
  | E : uv_put _ _ _ = Some _ |- _ => apply uv_put_lc in E
  | E : donextjump _ = Some _ |- _ => apply donextjump_lc in E
  | E : patch_op _ _ _ = Some _ |- _ => apply patch_op_lc in E
  | E : checkstack _ _ = (_, _) |- _ => apply checkstack_lc in E
  | E : poscall _ _ _ _ = Some _ |- _ => apply poscall_lc in E
  | E : cfunction _ _ = Some (_, _) |- _ => apply cfunction_local in E
  end; simpl in *; subst; simpl in *; try done; try congruence.

Lemma exec_compare_lc op s i s' :
  exec_compare op s i = Some (Next s') -> loop_count s' = loop_count s.
Proof using.
  intros E. destruct op; cbn [exec_compare] in E; unfold exec_num_test in E; try discriminate E;
    lc_inv; lc_done.
Qed.

Lemma exec_arith_lc op s i s' : exec_arith op s i = Some (Next s') -> loop_count s' = loop_count s.
Proof using.
  intros E. destruct op; cbn [exec_arith] in E; unfold arith_VV, arith_VN, arith_NV in E;
    try discriminate E; lc_inv; lc_done.
Qed.

Lemma exec_unary_lc op s i s' : exec_unary op s i = Some (Next s') -> loop_count s' = loop_count s.
Proof using. intros E. destruct op; cbn [exec_unary] in E; try discriminate E; lc_inv; lc_done. Qed.

Lemma exec_const_lc op s i s' :
  exec_const percpu_buffer_size op s i = Some (Next s') -> loop_count s' = loop_count s.
Proof using. intros E. destruct op; cbn [exec_const] in E; try discriminate E; lc_inv; lc_done. Qed.

Lemma exec_upval_lc op s i s' :
  exec_upval alloc_ok op s i = Some (Next s') -> loop_count s' = loop_count s.
Proof using.
  intros E. destruct op; cbn [exec_upval] in E; try discriminate E; lc_inv; lc_done.
Qed.

Lemma exec_table_get_lc op s i s' :
  exec_table_get alloc_ok ta tctx op s i = Some (Next s') -> loop_count s' = loop_count s.
Proof using. intros E. destruct op; cbn [exec_table_get] in E; try discriminate E; lc_inv; lc_done. Qed.

Lemma exec_table_set_lc op s i s' :
  exec_table_set tctx op s i = Some (Next s') -> loop_count s' = loop_count s.
Proof using.
  intros E. destruct op; cbn [exec_table_set] in E; unfold tab_update in E; try discriminate E;
    lc_inv; lc_done.
Qed.

Lemma call_function_lc s n f s' : call_function s n f = Some (Next s') -> loop_count s' = loop_count s.
Proof using.
  unfold call_function. intros E. lc_inv; unfold adjust_varargs in *; lc_inv; lc_done.
Qed.

Lemma call_cfunction_lc s n o r f s' :
  call_cfunction cfunction s n o r f = Some (Next s') -> loop_count s' = loop_count s.
Proof using cfunction_local.
  unfold call_cfunction. intros E. lc_inv; lc_done.
Qed.


Lemma move_args_lc n s a b x s' : move_args s a b x n = Some s' -> loop_count s' = loop_count s.
Proof using.
  revert s x. induction n as [|n IH]; intros s x; cbn [move_args]; [by intros [= <-]|].
  intros E. lc_inv. apply IH in E. lc_done.
Qed.

Lemma exec_call_lc op s i s' :
  exec_call cfunction op s i = Some (Next s') -> loop_count s' = loop_count s.
Proof using cfunction_local.
  intros E. destruct op; cbn [exec_call] in E; try discriminate E; lc_inv;
    try (apply call_cfunction_lc in E; simpl in E; by destruct (bc_c i =? 0));
    try (apply call_function_lc in E; simpl in E; by destruct (bc_c i =? 0)).
  match goal with E' : move_args _ _ _ _ _ = Some _ |- _ => apply move_args_lc in E' end. lc_done.
Qed.

Lemma exec_ret_lc op s i s' : exec_ret op s i = Some (Next s') -> loop_count s' = loop_count s.
Proof using.
  intros E. destruct op; cbn [exec_ret] in E; try discriminate E; lc_inv;
    repeat match goal with c : cell |- _ => destruct c end; lc_inv; unfold leave in *; lc_inv; lc_done.
Qed.

(** The two checked loop instructions outside [exec_loop]'s jumps, and the rest. *)
Lemma check_hot_loop_go s b s' :
  check_hot_loop kp_max_loop_count s = (b, s') -> b = false ->
  loop_count s' = loop_count s + 1 /\ loop_count s <> kp_max_loop_count.
Proof using.
  unfold check_hot_loop. destruct (Z.eqb_spec (loop_count s) kp_max_loop_count); intros [= <- <-]; done.
Qed.

Definition counted op s s' : Prop :=
  if is_loop_op op
  then loop_count s' = loop_count s + 1 /\ loop_count s <> kp_max_loop_count
  else loop_count s' = loop_count s.

Lemma exec_iter_lc op s i s' :
  exec_iter tctx kp_tab_next_addr kp_max_loop_count op s i = Some (Next s') -> counted op s s'.
Proof using.
  intros E. destruct op; cbn [exec_iter] in E; try discriminate E; unfold counted; cbn [is_loop_op].
  - destruct (check_hot_loop kp_max_loop_count s) as [b s1] eqn:Eh.
    destruct b; [discriminate E|]. apply check_hot_loop_go in Eh as [Eh ?]; [|done].
    split; [|done]. rewrite <- Eh. lc_inv; lc_done.
  - lc_inv; lc_done.
Qed.

Lemma exec_loop_lc op s i s' :
  exec_loop kp_max_loop_count op s i = Some (Next s') -> counted op s s'.
Proof using.
  intros E. destruct op; cbn [exec_loop] in E; try discriminate E; unfold counted; cbn [is_loop_op];
    try (lc_inv; lc_done; fail).
  - apply bind_Some in E as (x & _ & E). apply bind_Some in E as (l & _ & E).
    apply bind_Some in E as (st & _ & E). apply bind_Some in E as (s1 & E1 & E).
    assert (Hs1 : loop_count s1 = loop_count s) by (destruct (for_cond _ _ _); lc_inv; lc_done).
    destruct (check_hot_loop kp_max_loop_count s1) as [b s2] eqn:Eh.
    destruct b; [discriminate E|]. apply check_hot_loop_go in Eh as [? ?]; [|done].
    injection E as <-. split; congruence.
  - destruct (check_hot_loop kp_max_loop_count s) as [b s2] eqn:Eh.
    destruct b; [discriminate E|]. apply check_hot_loop_go in Eh as [? ?]; [|done].
    injection E as <-. done.
Qed.

Lemma exec_event_lc op s i s' :
  exec_event event_getarg task_pid task_tid task_uid task_cpu task_comm op s i = Some (Next s') ->
  loop_count s' = loop_count s.
Proof using.
  intros E. destruct op; cbn [exec_event] in E; try discriminate E; lc_inv; lc_done.
Qed.

Lemma exec_counted op s i s' : exec op s i = Some (Next s') -> counted op s s'.
Proof using cfunction_local.
  intros E. unfold exec in E.
  destruct op; cbn [Vm.exec] in E; try discriminate E;
    first [ by eapply exec_iter_lc | by eapply exec_loop_lc
          | unfold counted; cbn [is_loop_op];
            first [ by eapply exec_compare_lc | by eapply exec_arith_lc | by eapply exec_unary_lc
                  | by eapply exec_const_lc | by eapply exec_upval_lc | by eapply exec_table_get_lc
                  | by eapply exec_table_set_lc | by eapply exec_call_lc | by eapply exec_ret_lc
                  | by eapply exec_event_lc ] ].
Qed.

(** [runs s n s']: from [s] the interpreter reaches [s'], having executed [n]
    loop instructions. *)
Inductive runs s : nat -> vm (S := S) -> Prop :=
  | runs_refl : runs s 0 s
  | runs_step n s1 instr op s2 :
      runs s n s1 -> code_at s1 (pc s1) = Some instr -> bcop_of_code (bc_op instr) = Some op ->
      exec op (skip s1) instr = Some (Next s2) ->
      runs s (if is_loop_op op then Datatypes.S n else n) s2.

(** Loops are bounded: in one call of the interpreter at most
    [kp_max_loop_count] loop instructions ([LOOP], [FORL], [ITERN]) are executed
    with the program going on, in whatever frames they are. *)
Theorem loop_instructions_bounded s f s0 n s' :
  0 <= kp_max_loop_count -> kp_vm_enter s f = Some s0 -> runs s0 n s' ->
  Z.of_nat n <= kp_max_loop_count.
Proof using All.
  intros Hmax Hent Hr.
  assert (H0 : loop_count s0 = 0).
  { unfold kp_vm_enter in Hent. apply bind_Some in Hent as (c & _ & Hent).
    apply bind_Some in Hent as ([pa p] & _ & Hent). apply bind_Some in Hent as (s1 & _ & Hent).
    by injection Hent as <-. }
  cut (loop_count s' = Z.of_nat n /\ Z.of_nat n <= kp_max_loop_count); [tauto|].
  induction Hr as [|n s1 instr op s2 Hr [IH1 IH2] Hc Ho He]; [lia|].
  apply exec_counted in He. unfold counted in He. destruct (is_loop_op op); simpl in He; lia.
Qed.

End VmThm.
