(* ===== verification/VmValid.v ===== *)
(** * VmValid: the bytecode validator ([kp_vm_validate_code])

    Validation goes through the code of a prototype and of the prototypes its
    closures are made from; it refuses the instructions the interpreter does not
    implement and replaces the lookup of a built-in function by its index. *)

From S2P Require Import Prelude Types Bytecode Mempool Tab Intern Vm.
#[local] Open Scope word_scope.

Section VmValid.
Context {S : Type} `{Intern S}.
Context (tctx : vm (S := S) -> kctx).
Implicit Types s : vm (S := S).

(** Instructions the validator refuses. *)
Definition refused (op : BCOp) : bool :=
  match op with
  | BC_RETM | BC_RET | BC_GSET | BC_GINC | BC_ITERC | BC_POW => true
  | _ => false
  end.

Definition good_instr (instr : Z) : Prop :=
  exists op, bcop_of_code (bc_op instr) = Some op /\ refused op = false.

(** ** The patch *)

Lemma patched_fields instr idx :
  in_u 32 instr -> 0 <= idx < 2 ^ 16 ->
  let i' := setbc_d (setbc_op instr (bcop_code BC_GFUNC)) idx in
  in_u 32 i' /\ bcop_of_code (bc_op i') = Some BC_GFUNC /\ bc_a i' = bc_a instr /\ bc_d i' = idx.
Proof.
  intros Hi Hx. destruct (setbc_byte_fields instr (bcop_code BC_GFUNC) 0 Hi) as [Hq E].
  fold (setbc_op instr (bcop_code BC_GFUNC)) in *.
  set (q := setbc_op instr (bcop_code BC_GFUNC)) in *. injection E as E1 E2 _ _.
  destruct (setbc_d_fields q idx Hq) as (H1 & H2 & H3 & H4).
  split_and!; [done|by rewrite H2, E1|congruence|]. rewrite H4. by rewrite wrap_id.
Qed.


Lemma find_index_found l f i n :
  0 <= i -> find_index l f i = n -> 0 <= n ->
  i <= n < i + Z.of_nat (length l) /\ l !! Z.to_nat (n - i) = Some f.
Proof.
  revert i. induction l as [|x l IH]; intros i Hi; cbn [find_index]; [lia|].
  destruct (Z.eqb_spec x f) as [->|Hne].
  - intros <- _. rewrite Z.sub_diag. simpl length. split; [lia|done].
  - intros E Hn. destruct (IH (i + 1) ltac:(lia) E Hn) as [Hr Hl]. simpl length. split; [lia|].
    replace (Z.to_nat (n - i)) with (Datatypes.S (Z.to_nat (n - (i + 1)))) by lia. done.
Qed.

Section Patch.
Context (alloc_ok : Z -> bool) (ta : talloc).
Context (cfunction : Z -> vm (S := S) -> option (Z * vm (S := S))).
Context (event_getarg : vm (S := S) -> Z -> Z -> option (ktap_val * S * kerr)).
Context (task_pid task_tid task_uid task_cpu : Z) (task_comm : bytes).
Context (kp_tab_next_addr kp_max_loop_count percpu_buffer_size : Z).

(** The patch of the validator does not change the program: where the lookup
    of a global finds a registered C function, executing the patched
    instruction has the result executing the lookup would have. *)
Theorem gfunc_patch_equiv sub s p b instr instr' s' :
  in_u 32 instr -> bcop_of_code (bc_op instr) = Some BC_GGET ->
  h_protos (hp s) !! kbase s = Some p -> Z.of_nat (length (gfunc_tbl s)) <= KP_MAX_CACHED_CFUNCTION ->
  validate_instr tctx sub s p b instr = Some (true, instr', s') -> instr' <> instr ->
  let exec := exec alloc_ok ta tctx cfunction event_getarg task_pid task_tid task_uid task_cpu task_comm
    kp_tab_next_addr kp_max_loop_count percpu_buffer_size in
  bcop_of_code (bc_op instr') = Some BC_GFUNC /\ s' = s /\
  exec BC_GFUNC s instr' = exec BC_GGET s instr.
Proof.
  intros Hi Hop Hp Hlen Hv Hne exec. unfold validate_instr in Hv. rewrite Hop in Hv.
  destruct (bc_op instr >=? BC__MAX); [done|].
  destruct (kgc_of p (bc_d instr)) as [ts|] eqn:Ek; [|done]. cbn [mbind option_bind] in Hv.
  destruct (tab_at s (gtab s)) as [g|] eqn:Eg; [|done]. cbn [mbind option_bind] in Hv.
  destruct (kp_tab_getstr (tctx s) g ts) as [v|] eqn:Ev; [|done]. cbn [mbind option_bind] in Hv.
  destruct (is_nil v); [done|]. destruct (is_cfunc v) eqn:Ec; [|congruence].
  destruct (gfunc_getidx (gfunc_tbl s) (val v) >=? 0) eqn:Ei; [|congruence].
  injection Hv as <- <-. rewrite Z.geb_leb in Ei. apply Z.leb_le in Ei.
  destruct (find_index_found (gfunc_tbl s) (val v) 0 _ ltac:(lia) eq_refl Ei) as [Hr Hl].
  fold (gfunc_getidx (gfunc_tbl s) (val v)) in *. set (idx := gfunc_getidx _ _) in *.
  rewrite Z.sub_0_r in Hl. change KP_MAX_CACHED_CFUNCTION with 128 in Hlen.
  destruct (patched_fields instr idx Hi ltac:(lia)) as (_ & Ho & Ea & Ed).
  change (setbc_op instr 110) with (setbc_op instr (bcop_code BC_GFUNC)).
  set (i' := setbc_d (setbc_op instr (bcop_code BC_GFUNC)) idx) in *. clearbody i'.
  split_and!; try done. unfold exec, Vm.exec, exec_event, exec_table_get.
  rewrite Ed, Hl. cbn [mbind option_bind].
  unfold kgc_at. rewrite Hp. cbn [mbind option_bind]. fold (kgc_of p (bc_d instr)). rewrite Ek.
  cbn [mbind option_bind]. rewrite Eg. cbn [mbind option_bind]. rewrite Ev. cbn [mbind option_bind].
  unfold RA. rewrite Ea. do 2 f_equal. unfold is_cfunc, itype in Ec. bool_to_Prop.
  unfold set_cfunc. destruct v; simpl in *; congruence.
Qed.

End Patch.
(** ** Refusal *)

(** The only change validation makes: a lookup of a global becomes one of a function. *)
Definition patched (x x' : Z) : Prop :=
  x' = x \/ bcop_of_code (bc_op x) = Some BC_GGET /\ bcop_of_code (bc_op x') = Some BC_GFUNC.

Lemma patched_trans x y z : patched x y -> patched y z -> patched x z.
Proof. intros [->|[Ex Ey]] [->|[Ey' Ez]]; [by left|by right|by right|congruence]. Qed.
Lemma patched_good x x' : patched x x' -> good_instr x -> good_instr x'.
Proof. intros [->|[_ E]] Hg; [done|by exists BC_GFUNC]. Qed.
Lemma patched_fnew x x' : patched x x' -> bcop_of_code (bc_op x') = Some BC_FNEW -> x' = x.
Proof. intros [->|[_ E]] E'; [done|congruence]. Qed.

(** [s'] has the prototypes of [s], with the same code but for patches. *)
Definition code_le s s' : Prop :=
  forall a p, h_protos (hp s) !! a = Some p ->
    exists p', h_protos (hp s') !! a = Some p' /\ vp_framesize p' = vp_framesize p /\ vp_kgc p' = vp_kgc p /\
      Forall2 patched (vp_bc p) (vp_bc p').

Lemma code_le_refl s : code_le s s.
Proof. intros a p Hp. exists p. split_and!; try done. apply Forall_Forall2_diag, Forall_true. by left. Qed.

Lemma code_le_trans s1 s2 s3 : code_le s1 s2 -> code_le s2 s3 -> code_le s1 s3.
Proof.
  intros H12 H23 a p Hp. destruct (H12 a p Hp) as (p2 & Hp2 & F2 & K2 & B2).
  destruct (H23 a p2 Hp2) as (p3 & Hp3 & F3 & K3 & B3). exists p3.
  split_and!; [done|congruence|congruence|]. eapply Forall2_trans; [apply patched_trans|exact B2|exact B3].
Qed.

Lemma set_code_le s a p i x y :
  h_protos (hp s) !! a = Some p -> vp_bc p !! i = Some y -> patched y x -> code_le s (set_code s a (<[i := x]> (vp_bc p))).
Proof.
  intros Hp Hy Hyx b q Hq. unfold set_code. rewrite Hp. simpl. destruct (decide (b = a)) as [->|Hne].
  - rewrite lookup_insert_eq. eexists. split; [done|]. simpl. assert (q = p) as -> by congruence.
    split_and!; [done..|]. apply Forall2_same_length_lookup. split; [by rewrite length_insert|]. intros j u v Hu Hv.
    apply list_lookup_insert_Some in Hv as [(-> & <- & _)|[_ Hv]]; [by simplify_eq|]. left. congruence.
  - rewrite lookup_insert_ne by done. destruct (code_le_refl s b q Hq) as (q' & Hq' & R). assert (q' = q) as -> by congruence. by exists q.
Qed.

Lemma set_code_at s a p bc :
  h_protos (hp s) !! a = Some p ->
  exists p', h_protos (hp (set_code s a bc)) !! a = Some p' /\ vp_bc p' = bc /\
    vp_framesize p' = vp_framesize p.
Proof. intros Hp. unfold set_code. rewrite Hp. simpl. rewrite lookup_insert_eq. by eexists. Qed.

(** ** Prototypes and what they create *)

(** Code behind the function header that makes closures of prototype [c]. *)
Definition creates s (a c : Z) : Prop := exists p j x, h_protos (hp s) !! a = Some p /\ (1 <= j)%nat /\ vp_bc p !! j = Some x /\
  bcop_of_code (bc_op x) = Some BC_FNEW /\ kgc_of p (bc_d x) = Some c.
Definition supported s (c : Z) : Prop := exists p, h_protos (hp s) !! c = Some p /\ vp_framesize p <= KP_MAX_SLOTS /\
  forall j x, (1 <= j)%nat -> vp_bc p !! j = Some x -> good_instr x.
Definition all_supported s (a : Z) : Prop := forall c, rtc (creates s) a c -> supported s c.

Lemma supported_le s s' c : code_le s s' -> supported s c -> supported s' c.
Proof.
  intros Hle (p & Hp & Hf & Hg). destruct (Hle c p Hp) as (p' & Hp' & Ff & _ & Hb). exists p'. split_and!; [done|congruence|].
  intros j x Hj Hx. destruct (Forall2_lookup_r _ _ _ _ _ Hb Hx) as (y & Hy & Hyx). eapply patched_good; [done|by eapply Hg].
Qed.
Lemma creates_le s s' a c : code_le s s' -> supported s a -> creates s' a c -> creates s a c.
Proof.
  intros Hle (p & Hp & _) (p' & j & x & Hp' & Hj & Hx & Ho & Hk). destruct (Hle a p Hp) as (q & Hq & _ & Kq & Hb).
  assert (q = p') as -> by congruence. destruct (Forall2_lookup_r _ _ _ _ _ Hb Hx) as (y & Hy & Hyx).
  pose proof (patched_fnew _ _ Hyx Ho) as ->. exists p, j, y. split_and!; try done. unfold kgc_of in *. by rewrite <- Kq.
Qed.
Lemma all_supported_le s s' a : code_le s s' -> all_supported s a -> all_supported s' a.
Proof.
  intros Hle Ha c Hc. induction Hc as [a|a b c Hab _ IH]; [apply (supported_le s); [done|apply Ha, rtc_refl]|].
  apply IH. intros d Hd. apply Ha. eapply rtc_l; [|exact Hd]. eapply creates_le; [done| |done]. apply Ha, rtc_refl.
Qed.

Lemma bc_op_known instr : (bc_op instr >=? BC__MAX) = false -> is_Some (bcop_of_code (bc_op instr)).
Proof.
  intros E. rewrite Z.geb_leb in E. apply Z.leb_gt in E. unfold bcop_of_code.
  assert (0 <= bc_op instr) by (unfold bc_op; apply Z.land_nonneg; right; done).
  rewrite (proj2 (Z.ltb_ge _ _)) by done. apply fmap_is_Some, lookup_lt_is_Some_2.
  change BC__MAX with (Z.of_nat (length BCDEF)) in E. lia.
Qed.

Definition code_wf s : Prop :=
  forall a p i x, h_protos (hp s) !! a = Some p -> vp_bc p !! i = Some x -> in_u 32 x.

(** What validation may do to the state. *)
Record val_rel s s' : Prop := {
  vr_code : code_le s s';
  vr_gfunc : gfunc_tbl s' = gfunc_tbl s;
  vr_wf : code_wf s -> code_wf s';
  vr_last : stack_last s' = stack_last s
}.

Lemma val_rel_trans s1 s2 s3 : val_rel s1 s2 -> val_rel s2 s3 -> val_rel s1 s3.
Proof.
  intros [A B C D] [A' B' C' D']. split; [by eapply code_le_trans|congruence|auto|congruence].
Qed.

Lemma val_rel_err s k : val_rel s (with_err s k).
Proof. split; [exact (code_le_refl s)|done..]. Qed.

Lemma val_rel_refl s : val_rel s s.
Proof. split; [apply code_le_refl|done..]. Qed.

Lemma val_rel_set_code s a p i x y :
  h_protos (hp s) !! a = Some p -> vp_bc p !! i = Some y -> patched y x -> in_u 32 x ->
  val_rel s (set_code s a (<[i := x]> (vp_bc p))).
Proof.
  intros Hp Hy Gx Hx. split; [by eapply set_code_le|..]; unfold set_code; rewrite Hp; try done.
  intros Hwf b q j z. simpl. rewrite lookup_insert_Some. intros [[<- <-]|[_ Hq]] Hz; [|by eapply Hwf].
  simpl in Hz. apply list_lookup_insert_Some in Hz as [(_ & <- & _)|[_ Hz]]; [done|by eapply Hwf].
Qed.

(** What the loop assumes of the validation of a nested prototype. *)
Definition sub_ok (sub : vm (S := S) -> Z -> Z -> option (bool * vm (S := S))) : Prop :=
  forall s c b ok s', code_wf s -> Z.of_nat (length (gfunc_tbl s)) <= KP_MAX_CACHED_CFUNCTION ->
    sub s c b = Some (ok, s') -> val_rel s s' /\ (ok = true -> all_supported s' c).

(** A good instruction whose closure, if it makes one, is supported. *)
Definition instr_ok s (p : vproto) (x : Z) : Prop :=
  good_instr x /\ (bcop_of_code (bc_op x) = Some BC_FNEW -> forall c, kgc_of p (bc_d x) = Some c -> all_supported s c).
(** Validation of an instruction leaves the state, or the instruction. *)
Definition instr_kept s s' (x x' : Z) : Prop := patched x x' /\ (s' = s \/ x' = x /\ bcop_of_code (bc_op x) = Some BC_FNEW).

Lemma validate_instr_ok sub s p b instr ok instr' s' :
  sub_ok sub -> code_wf s -> in_u 32 instr ->
  Z.of_nat (length (gfunc_tbl s)) <= KP_MAX_CACHED_CFUNCTION ->
  validate_instr tctx sub s p b instr = Some (ok, instr', s') ->
  val_rel s s' /\ (ok = true -> in_u 32 instr' /\ instr_ok s' p instr' /\ instr_kept s s' instr instr').
Proof.
  intros Hsub Hwf Hi Hlen Hv. unfold validate_instr in Hv.
  destruct (bc_op instr >=? BC__MAX) eqn:Emax.
  { injection Hv as <- <- <-. split; [apply val_rel_err|done]. }
  destruct (bc_op_known _ Emax) as [op Eop]. rewrite Eop in Hv.
  assert (Hsame : refused op = false -> op <> BC_FNEW ->
    val_rel s s /\ (true = true -> in_u 32 instr /\ instr_ok s p instr /\ instr_kept s s instr instr)).
  { intros Hr Hn. split; [apply val_rel_refl|]. intros _. split_and!; [done| |split; by left]. split; [by exists op|]. intros E. congruence. }
  destruct op; cbn [refused] in Hsame;
    try (injection Hv as <- <- <-; (split; [apply val_rel_err|done]) || by apply Hsame).
  - (* FNEW *)
    destruct (kgc_of p (bc_d instr)) as [c|] eqn:Ek; [|done]. cbn [mbind option_bind] in Hv.
    destruct (sub s c _) as [[ok1 s1]|] eqn:Es; [|done]. injection Hv as <- <- <-.
    destruct (Hsub _ _ _ _ _ Hwf Hlen Es) as [Hrel Hall]. split; [done|]. intros Hok.
    split_and!; [done| |split; [by left|by right]]. split; [by exists BC_FNEW|]. intros _ c'. rewrite Ek. intros [= <-]. by apply Hall.
  - (* GGET *)
    destruct (kgc_of p (bc_d instr)) as [ts|]; [|done]. cbn [mbind option_bind] in Hv.
    destruct (tab_at s (gtab s)) as [g|]; [|done]. cbn [mbind option_bind] in Hv.
    destruct (kp_tab_getstr (tctx s) g ts) as [v|]; [|done]. cbn [mbind option_bind] in Hv.
    destruct (is_nil v); [injection Hv as <- <- <-; split; [apply val_rel_err|done]|].
    destruct (is_cfunc v); [|injection Hv as <- <- <-; by apply Hsame].
    destruct (gfunc_getidx (gfunc_tbl s) (val v) >=? 0) eqn:Ei; injection Hv as <- <- <-; [|by apply Hsame].
    rewrite Z.geb_leb in Ei. apply Z.leb_le in Ei. change KP_MAX_CACHED_CFUNCTION with 128 in Hlen.
    destruct (find_index_found (gfunc_tbl s) (val v) 0 _ ltac:(lia) eq_refl Ei) as [Hr _].
    destruct (patched_fields instr (gfunc_getidx (gfunc_tbl s) (val v)) Hi) as (Hu & Ho & _); [unfold gfunc_getidx; lia|].
    split; [apply val_rel_refl|]. intros _. split_and!; [done| |split; [by right|by left]].
    split; [by exists BC_GFUNC|]. intros E. pose proof (eq_trans (eq_sym Ho) E). done.
Qed.

Lemma instr_ok_le s s' p p' x : code_le s s' -> vp_kgc p' = vp_kgc p -> instr_ok s p x -> instr_ok s' p' x.
Proof.
  intros Hle Hk [Hg Hf]. split; [done|]. intros Ho c Hc. apply (all_supported_le s); [done|]. apply Hf; [done|].
  unfold kgc_of in *. by rewrite <- Hk.
Qed.
Lemma instr_ok_patched s p x x' : patched x x' -> instr_ok s p x -> instr_ok s p x'.
Proof.
  intros Hp [Hg Hf]. split; [by eapply patched_good|]. intros Ho. pose proof (patched_fnew _ _ Hp Ho) as ->. by apply Hf.
Qed.

(** Writing the instruction back. *)
Lemma instr_written s s1 a p b i instr instr1 :
  h_protos (hp s) !! a = Some p -> vp_bc p !! i = Some instr -> val_rel s s1 -> in_u 32 instr1 -> instr_ok s1 p instr1 ->
  instr_kept s s1 instr instr1 -> h_protos (hp s1) !! a = Some b ->
  let s2 := set_code s1 a (<[i := instr1]> (vp_bc b)) in
  val_rel s s2 /\ exists p2, h_protos (hp s2) !! a = Some p2 /\ vp_bc p2 !! i = Some instr1 /\ instr_ok s2 p2 instr1.
Proof.
  intros Hp Hi R1 Hu Hok [Hpat Hk] Hb s2. destruct (vr_code _ _ R1 a p Hp) as (b' & Hb' & _ & Kb & Fb). assert (b' = b) as -> by congruence.
  destruct (Forall2_lookup_l _ _ _ _ _ Fb Hi) as (y & Hy & Hpy).
  assert (Hyx : patched y instr1).
  { destruct Hk as [->|[-> Ho]]; [assert (b = p) as -> by congruence; by simplify_eq|].
    destruct Hpy as [->|[E _]]; [by left|congruence]. }
  pose proof (val_rel_set_code s1 a b i instr1 y Hb Hy Hyx Hu) as R2. fold s2 in R2. split; [by eapply val_rel_trans|].
  destruct (vr_code _ _ R2 a b Hb) as (p2 & Hp2 & _ & K2 & _). exists p2. split; [done|].
  destruct (set_code_at s1 a b (<[i:=instr1]> (vp_bc b)) Hb) as (p2' & Hp2' & B2 & _). fold s2 in Hp2'. assert (p2' = p2) as -> by congruence.
  split; [rewrite B2; apply list_lookup_insert_eq; by eapply lookup_lt_Some|]. eapply instr_ok_le; [apply R2| |exact Hok]. congruence.
Qed.

(** The loop leaves good code from where it started. *)
Lemma validate_loop_ok sub n s a b i ok s' :
  sub_ok sub -> code_wf s -> Z.of_nat (length (gfunc_tbl s)) <= KP_MAX_CACHED_CFUNCTION ->
  validate_loop tctx sub n s a b i = Some (ok, s') ->
  val_rel s s' /\
  (ok = true -> forall p', h_protos (hp s') !! a = Some p' ->
     forall j x, (i <= j < i + n)%nat -> vp_bc p' !! j = Some x -> instr_ok s' p' x).
Proof.
  intros Hsub. revert s i. induction n as [|n IH]; intros s i Hwf Hlen Hv; cbn [validate_loop] in Hv.
  { injection Hv as <- <-. split; [apply val_rel_refl|]. lia. }
  destruct (h_protos (hp s) !! a) as [p|] eqn:Hp; [|done]. cbn [mbind option_bind] in Hv.
  destruct (vp_bc p !! i) as [instr|] eqn:Hin; [|done]. cbn [mbind option_bind] in Hv.
  destruct (validate_instr tctx sub s p b instr) as [[[ok1 instr1] s1]|] eqn:E1; [|done]. cbn [mbind option_bind] in Hv.
  destruct (validate_instr_ok _ _ _ _ _ _ _ _ Hsub Hwf (Hwf _ _ _ _ Hp Hin) Hlen E1) as [R1 G1].
  destruct ok1; [|injection Hv as <- <-; done]. destruct (G1 eq_refl) as (Hu & Hok & Hkept).
  destruct (h_protos (hp s1) !! a) as [p1|] eqn:Hp1; [|done]. cbn [mbind option_bind] in Hv.
  destruct (instr_written s s1 a p p1 i instr instr1 Hp Hin R1 Hu Hok Hkept Hp1) as (R12 & p2 & Hp2 & B2 & O2).
  set (s2 := set_code s1 a (<[i:=instr1]> (vp_bc p1))) in *.
  destruct (IH s2 (Datatypes.S i)) as [R3 G3]; [by apply (vr_wf _ _ R12)|by rewrite (vr_gfunc _ _ R12)|done|].
  split; [by eapply val_rel_trans|]. intros Ht p' Hp' j x Hj Hx. destruct (decide (j = i)) as [->|Hne]; [|apply (G3 Ht p' Hp' j); [lia|done]].
  destruct (vr_code _ _ R3 a p2 Hp2) as (q & Hq & _ & Kq & Fq). assert (q = p') as -> by congruence.
  destruct (Forall2_lookup_r _ _ _ _ _ Fq Hx) as (y & Hy & Hyx). simplify_eq.
  apply (instr_ok_patched _ _ instr1); [done|]. by apply (instr_ok_le s2 _ p2); [apply R3| |].
Qed.

Lemma validate_ok fuel : sub_ok (kp_vm_validate_code tctx fuel).
Proof.
  induction fuel as [|fuel IH]; intros s a b ok s' Hwf Hlen Hv; cbn [kp_vm_validate_code] in Hv; [done|].
  destruct (h_protos (hp s) !! a) as [p|] eqn:Hp; [|done]. cbn [mbind option_bind] in Hv.
  destruct (Z.gtb_spec (vp_framesize p) KP_MAX_SLOTS); [injection Hv as <- <-; split; [apply val_rel_err|done]|].
  destruct (_ >? _); [injection Hv as <- <-; split; [apply val_rel_err|done]|].
  destruct (validate_loop_ok _ _ _ _ _ _ _ _ IH Hwf Hlen Hv) as [R G]. split; [done|]. intros Hok.
  destruct (vr_code _ _ R a p Hp) as (p' & Hp' & Fp & _ & Bp). specialize (G Hok p' Hp'). pose proof (Forall2_length Bp) as Hl.
  assert (Hj : forall j x, (1 <= j)%nat -> vp_bc p' !! j = Some x -> instr_ok s' p' x).
  { intros j x Hj Hx. apply (G j); [|done]. apply lookup_lt_Some in Hx. lia. }
  intros c Hc. inversion Hc as [|? b' ? Hab Hbc]; subst.
  - exists p'. split_and!; [done|congruence|]. intros j x H1 Hx. apply (Hj j x H1 Hx).
  - destruct Hab as (q & j & x & Hq & H1 & Hx & Ho & Hk). assert (q = p') as -> by congruence. destruct (Hj j x H1 Hx) as [_ Hf].
    by apply (Hf Ho b' Hk).
Qed.

(** C34.  Validated code holds none of the opcodes the validator is there to refuse: if
    validation of a prototype succeeds, then afterwards every instruction (the
    function headers apart) of the prototype and of all prototypes it creates
    closures of, directly or through others, has a known opcode that is not a
    multiple return, an assignment to a global, a generic iterator or a power, and
    the frames are within the slot limit; the frame of the first fits the stack.
    Instructions are 32-bit words and the table of built-in functions is within
    its limit.  Other opcodes the interpreter has no code for, such as [BC_VARG],
    [BC_TSETM] and [BC_CALLMT], pass the validation. *)
Theorem validated_code_supported fuel s a b s' p :
  code_wf s -> Z.of_nat (length (gfunc_tbl s)) <= KP_MAX_CACHED_CFUNCTION ->
  h_protos (hp s) !! a = Some p -> kp_vm_validate_code tctx fuel s a b = Some (true, s') ->
  b + vp_framesize p <= stack_last s' /\
  (exists p', h_protos (hp s') !! a = Some p' /\ length (vp_bc p') = length (vp_bc p) /\ vp_framesize p' = vp_framesize p) /\
  forall c, rtc (creates s') a c -> exists p', h_protos (hp s') !! c = Some p' /\ vp_framesize p' <= KP_MAX_SLOTS /\
    forall j x, (1 <= j)%nat -> vp_bc p' !! j = Some x ->
      exists op, bcop_of_code (bc_op x) = Some op /\
        op ∉ [BC_RETM; BC_RET; BC_GSET; BC_GINC; BC_ITERC; BC_POW].
Proof.
  intros Hwf Hlen Hp Hv. destruct (validate_ok fuel s a b true s' Hwf Hlen Hv) as [R Hall]. specialize (Hall eq_refl).
  destruct (vr_code _ _ R a p Hp) as (p' & Hp' & Fp & _ & Bp). split_and!.
  - destruct fuel as [|fuel]; cbn [kp_vm_validate_code] in Hv; [done|]. rewrite Hp in Hv. cbn [mbind option_bind] in Hv.
    destruct (_ >? KP_MAX_SLOTS); [done|]. destruct (Z.gtb_spec (b + vp_framesize p) (stack_last s)); [done|]. by rewrite (vr_last _ _ R).
  - exists p'. split_and!; [done| |done]. symmetry. exact (Forall2_length Bp).
  - intros c Hc. destruct (Hall c Hc) as (q & Hq & Hf & Hg). exists q. split_and!; [done..|]. intros j x Hj Hx.
    destruct (Hg j x Hj Hx) as (op & Ho & Hr). exists op. split; [done|]. rewrite !elem_of_cons.
    intros [->|[->|[->|[->|[->|[->|Hin]]]]]]; try done. by apply not_elem_of_nil in Hin.
Qed.

End VmValid.
