(* ===== verification/VmWit.v ===== *)
(** * VmWit: concrete runs of the interpreter

    A small program on the reference interner: a main function that calls a
    function of two parameters.  The theorems of [VmThm] and [VmValid] are
    applied to its states. *)

From Stdlib Require Import Sorting.Sorted.
From S2P Require Import Prelude Types Bytecode Mempool Tab Intern Vm VmThm VmValid.
#[local] Open Scope word_scope.

Definition ins (op : BCOp) (a d : Z) : Z := BCINS_AD (bcop_code op) a d.
Definition ins3 (op : BCOp) (a b c : Z) : Z := BCINS_ABC (bcop_code op) a b c.

(** main: slot 0 calls the function in slot 1 with one argument, then loops. *)
Definition main_proto : vproto :=
  mkvp 0 0 4
    [ins BC_FUNCF 4 0; ins BC_GGET 0 0; ins3 BC_CALL 1 2 2; ins BC_LOOP 0 0; ins BC_RET0 0 1]
    [] [1] [set_number 7].
(** callee: returns its first parameter. *)
Definition callee_proto : vproto := mkvp 0 2 3 [ins BC_FUNCF 3 0; ins BC_RET1 0 2] [] [] [].

(** The global table holds the built-in function 77 under the string at 1. *)
Definition gtable : ktap_tab :=
  mktab [] 0 (Some [mknode (set_cfunc 77) (set_string 1) None; mknode kp_niltv kp_niltv None]) 1 1 1.

Definition demo_heap : heap :=
  mkheap {[10 := mkfunc 20 []; 11 := mkfunc 21 []]}
    {[30 := mkuv (Some 3) kp_niltv 0; 31 := mkuv (Some 2) kp_niltv 0]}
    {[40 := gtable]} {[20 := main_proto; 21 := callee_proto]} 50 [].

Definition demo_stack : list cell :=
  [CFrame 10 None; CVal kp_niltv; CVal (set_func 11); CVal (set_number 5)] ++
  replicate 116 (CVal kp_niltv).

(** The main function is about to execute its call. *)
Definition demo : vm (S := list bytes) :=
  mkvm demo_stack 5 120 0 1 0 10 20 20 (mkpc 20 3) 0 0 [30; 31] [30; 31] demo_heap [[112]] 40 [66; 77]
    kerr0 true None.

Definition demo_ctx (s : vm (S := list bytes)) : kctx := mkctx (λ a, Some (a - 1)) None (λ _ _, None).
Definition demo_alloc (a : Z) : bool := true.
Definition demo_ta : talloc := mkta true true true kp_niltv (mknode kp_niltv kp_niltv None) 0.
Definition demo_cf (f : Z) (s : vm (S := list bytes)) : option (Z * vm (S := list bytes)) := Some (0, s).
Definition demo_arg (s : vm (S := list bytes)) (ra n : Z) : option (ktap_val * list bytes * kerr) :=
  Some (set_number n, strs s, err s).

Definition demo_exec := exec demo_alloc demo_ta demo_ctx demo_cf demo_arg 1 2 3 4 [115; 104] 9 100 12288.

Lemma demo_slots a sl : slot_of demo a = Some sl -> (a = 30 /\ sl = 3) \/ (a = 31 /\ sl = 2).
Proof.
  unfold slot_of. destruct (h_upvals (hp demo) !! a) as [u|] eqn:E; [|done]. cbn.
  change (h_upvals (hp demo)) with ({[30 := mkuv (Some 3) kp_niltv 0; 31 := mkuv (Some 2) kp_niltv 0]} : gmap Z kupval) in E.
  apply lookup_insert_Some in E as [[<- <-]|[_ E]]; [by intros [= <-]; left|].
  apply lookup_singleton_Some in E as [<- <-]. intros [= <-]. by right.
Qed.

Lemma demo_uv : uv_inv demo.
Proof.
  split.
  - exists [3; 2]. split; [by repeat constructor|]. repeat constructor; lia.
  - intros a sl Ha. apply demo_slots in Ha as [[-> _]|[-> _]]; cbn; [by left|right; by left].
  - intros a [u Hu].
    change (h_upvals (hp demo)) with ({[30 := mkuv (Some 3) kp_niltv 0; 31 := mkuv (Some 2) kp_niltv 0]} : gmap Z kupval) in Hu.
    apply lookup_insert_Some in Hu as [[<- _]|[_ Hu]]; [cbn; lia|].
    apply lookup_singleton_Some in Hu as [<- _]. cbn; lia.
  - cbn; lia.
Qed.

Lemma findupval_shares_witness :
  exists a s', findupval demo_alloc demo 1 = Some (a, s') /\ a <> 0 /\ uv_inv s' /\
    slot_of s' a = Some 1 /\ stack s' = stack demo /\
    (forall b, b <> a -> h_upvals (hp s') !! b = h_upvals (hp demo) !! b) /\
    findupval demo_alloc s' 1 = Some (a, s').
Proof. apply (findupval_shares demo_alloc demo 1); [apply demo_uv|reflexivity]. Defined.

Lemma func_closeuv_keeps_values_witness :
  exists s', func_closeuv demo 3 = Some s' /\ uv_inv s' /\ stack s' = stack demo /\
    (forall a, uv_get s' a = uv_get demo a) /\
    (forall a sl, slot_of s' a = Some sl <-> slot_of demo a = Some sl /\ sl < 3).
Proof.
  apply (func_closeuv_keeps_values demo 3); [apply demo_uv|].
  intros a sl Ha. apply demo_slots in Ha as [[_ ->]|[_ ->]]; vm_compute; by eexists.
Defined.

Lemma poscall_spec_witness :
  exists s', poscall demo 2 3 4 = Some s' /\ same_but_stack demo s' /\
    (forall j, 0 <= j < 4 ->
       if 3 + j <? top demo then cell_at s' (2 + j) = cell_at demo (3 + j)
       else exists v, cell_at s' (2 + j) = Some (CVal v) /\ is_nil v = true) /\
    (forall j, j < 2 \/ 2 + 4 <= j -> cell_at s' j = cell_at demo j).
Proof.
  apply (poscall_spec demo 2 3 4); [lia|lia|vm_compute; discriminate|].
  intros j Hj. change (top demo) with 5 in Hj.
  assert (j = 3 \/ j = 4) as [->| ->] by lia; vm_compute; by eexists.
Defined.

Lemma demo_frame : frame_ok demo.
Proof. split; [reflexivity|reflexivity|]. exists main_proto. reflexivity. Qed.

(** The call of the function in slot 1 with one argument. *)
Lemma call_return_brackets_witness :
  let i := ins3 BC_CALL 1 2 2 in
  exists s1, demo_exec BC_CALL demo i = Some (Next s1) /\
    base s1 = 3 /\ fn s1 = 11 /\ pc s1 = mkpc 21 1 /\
    (forall x, 2 < x < 2 + 2 -> cell_at s1 x = cell_at demo x) /\
    (forall x, 2 + 2 <= x < 2 + 1 + 2 -> exists v, cell_at s1 x = Some (CVal v) /\ is_nil v = true) /\
    forall s2 r v, callee_ran s1 s2 -> get s2 (RA s2 r) = Some v ->
      exists s3, demo_exec BC_RET1 s2 r = Some (Next s3) /\
        base s3 = 1 /\ func s3 = 0 /\ fn s3 = 10 /\ kbase s3 = 20 /\ pc s3 = mkpc 20 3 /\
        get s3 2 = Some v /\ (forall x, x < 2 -> cell_at s3 x = cell_at demo x) /\ top s3 = 1 + 3.
Proof.
  apply (call_return_brackets demo_alloc demo_ta demo_ctx demo_cf demo_arg 1 2 3 4 [115; 104] 9 100 12288
           demo (ins3 BC_CALL 1 2 2) 11 21 callee_proto); try (vm_compute; congruence).
  apply demo_frame.
Defined.

(** The loop instruction of the main function, from entry. *)
Definition demo_loop : vm (S := list bytes) := with_pc demo (mkpc 20 3).

Lemma loop_instructions_bounded_witness :
  exists s0, kp_vm_enter demo 0 = Some s0 /\ Z.of_nat 0 <= 100.
Proof.
  destruct (kp_vm_enter demo 0) as [s0|] eqn:E; [|discriminate E].
  exists s0. split; [reflexivity|].
  apply (loop_instructions_bounded demo_alloc demo_ta demo_ctx demo_cf demo_arg 1 2 3 4 [115; 104] 9 100
    12288) with (s := demo) (f := 0) (s0 := s0) (s' := s0).
  - intros f s n s'. unfold demo_cf. intros [= _ <-]. reflexivity.
  - lia.
  - exact E.
  - constructor.
Defined.

(** Validating the lookup of the built-in function. *)
Lemma gfunc_patch_equiv_witness :
  let i := ins BC_GGET 0 0 in
  let i' := ins BC_GFUNC 0 1 in
  validate_instr demo_ctx (λ _ _ _, None) demo main_proto 1 i = Some (true, i', demo) /\
  demo_exec BC_GFUNC demo i' = demo_exec BC_GGET demo i.
Proof.
  assert (E : validate_instr demo_ctx (λ _ _ _, None) demo main_proto 1 (ins BC_GGET 0 0)
              = Some (true, ins BC_GFUNC 0 1, demo)) by (vm_compute; reflexivity).
  split; [exact E|].
  apply (gfunc_patch_equiv demo_ctx demo_alloc demo_ta demo_cf demo_arg 1 2 3 4 [115; 104] 9 100 12288
    (λ _ _ _, None) demo main_proto 1 (ins BC_GGET 0 0) (ins BC_GFUNC 0 1) demo);
    try reflexivity; try (vm_compute; congruence). vm_compute; split; congruence.
Defined.

Lemma demo_code_wf : code_wf demo.
Proof.
  intros a p i x Hp Hx.
  change (h_protos (hp demo)) with ({[20 := main_proto; 21 := callee_proto]} : gmap Z vproto) in Hp.
  apply lookup_insert_Some in Hp as [[_ <-]|[_ Hp]]; [|apply lookup_singleton_Some in Hp as [_ <-]];
    apply list_elem_of_lookup_2 in Hx; revert x Hx; apply list.Forall_forall;
    repeat constructor; vm_compute; congruence.
Qed.

(** A function that makes a closure of the callee. *)
Definition maker_proto : vproto := mkvp 0 0 2 [ins BC_FUNCF 2 0; ins BC_FNEW 0 0; ins BC_RET0 0 1] [] [21] [].
Definition demo_maker : vm (S := list bytes) := with_heap demo (set_proto_obj (hp demo) 22 maker_proto).

Lemma demo_maker_wf : code_wf demo_maker.
Proof.
  intros a p i x Hp Hx. cbn in Hp. apply lookup_insert_Some in Hp as [[_ <-]|[_ Hp]]; [|by eapply demo_code_wf].
  apply list_elem_of_lookup_2 in Hx; revert x Hx; apply list.Forall_forall; repeat constructor; vm_compute; congruence.
Qed.

Lemma validated_code_supported_witness :
  exists s', kp_vm_validate_code demo_ctx 2 demo_maker 22 1 = Some (true, s') /\
    creates s' 22 21 /\
    exists p', h_protos (hp s') !! 21 = Some p' /\ vp_framesize p' <= KP_MAX_SLOTS.
Proof.
  destruct (kp_vm_validate_code demo_ctx 2 demo_maker 22 1) as [[ok s']|] eqn:E; [|discriminate E].
  destruct ok; [|vm_compute in E; discriminate E].
  exists s'. split; [reflexivity|].
  assert (Hc : creates s' 22 21).
  { exists maker_proto, 1%nat, (ins BC_FNEW 0 0). vm_compute in E. injection E as <-. split_and!; reflexivity || lia. }
  split; [exact Hc|].
  destruct (validated_code_supported demo_ctx 2 demo_maker 22 1 s' maker_proto) as (_ & _ & Hall).
  - apply demo_maker_wf.
  - vm_compute; congruence.
  - reflexivity.
  - exact E.
  - destruct (Hall 21 (rtc_once _ _ Hc)) as (p' & Hp' & Hf & _). exists p'. split; [exact Hp'|exact Hf].
Defined.
