(* ===== verification/JumpThm.v ===== *)
(** * JumpThm: jump lists of the code generator

    Jumps whose target is not known yet form lists, threaded through their own
    offset fields.  A list stands for the positions of its jumps; appending
    concatenates, and resolving makes every jump of the list go to the target. *)

From S2P Require Import Prelude Types Bytecode BcWrite Util Lex Gen Parse GenConst Intern Vm.
#[local] Open Scope word_scope.
#[local] Open Scope gen_scope.
#[local] Coercion bcop_code : BCOp >-> Z.

Implicit Types (code : list (Z * Z)) (p l : Z) (ps : list Z).

(** ** Lists *)

Definition ins_in code (p : Z) : option Z := if 0 <=? p then fst <$> code !! Z.to_nat p else None.
Definition next_in code (p : Z) : option Z :=
  i ← ins_in code p; Some (if u32 (bc_j i) =? NO_JMP then NO_JMP else u32 (p + 1 + bc_j i)).

Lemma next_jump_in f p : next_jump f p = next_in (fs_code f) p.
Proof. done. Qed.

(** The list at [l] consists of the jumps at [ps]. *)
Inductive jlist code : Z -> list Z -> Prop :=
  | jl_nil : jlist code NO_JMP []
  | jl_cons p l ps : p <> NO_JMP -> next_in code p = Some l -> jlist code l ps -> jlist code p (p :: ps).

Lemma jlist_det code l ps ps' : jlist code l ps -> jlist code l ps' -> ps = ps'.
Proof.
  intros H. revert ps'. induction H as [|p l ps Hp Hn _ IH]; intros ps' H'; inversion H'; try done; subst; try done.
  f_equal. apply IH. congruence.
Qed.
Lemma jlist_suffix code l ps p ps' : jlist code l (ps ++ p :: ps') -> jlist code p (p :: ps').
Proof.
  revert l. induction ps as [|q ps IH]; intros l H; inversion H; subst; [done|]. by eapply IH.
Qed.
Lemma jlist_NoDup code l ps : jlist code l ps -> NoDup ps.
Proof.
  induction 1 as [|p l ps Hp Hn H IH]; [constructor|]. constructor; [|done]. intros Hin.
  apply list_elem_of_split in Hin as (a & b & ->). apply jlist_suffix in H as H1.
  assert (E : p :: a ++ p :: b = p :: b) by (eapply jlist_det; [by econstructor|done]).
  injection E as E. apply (f_equal length) in E. rewrite length_app in E. cbn in E. lia.
Qed.
Lemma next_in_range code p l : next_in code p = Some l -> 0 <= p < Z.of_nat (length code).
Proof.
  unfold next_in, ins_in. destruct (Z.leb_spec 0 p); [|done]. destruct (code !! Z.to_nat p) eqn:E; [|done].
  apply lookup_lt_Some in E. intros _. lia.
Qed.
Lemma jlist_range code l ps p : jlist code l ps -> p ∈ ps -> 0 <= p < Z.of_nat (length code).
Proof.
  induction 1 as [|q l ps Hq Hn _ IH]; intros Hin; [by apply not_elem_of_nil in Hin|].
  apply elem_of_cons in Hin as [->|Hin]; [by eapply next_in_range|by apply IH].
Qed.
(** The fuel of the walks is enough. *)
Lemma jlist_length code l ps : jlist code l ps -> (length ps <= length code)%nat.
Proof.
  intros H. rewrite <- (length_seq (length code) 0), <- (length_map Z.to_nat ps).
  apply submseteq_length, NoDup_submseteq.
  - apply NoDup_fmap_2_strong; [|by eapply jlist_NoDup]. intros x y Hx Hy E.
    pose proof (jlist_range _ _ _ _ H Hx). pose proof (jlist_range _ _ _ _ H Hy). lia.
  - intros x Hx. apply list_elem_of_fmap in Hx as (p & -> & Hp). pose proof (jlist_range _ _ _ _ H Hp).
    apply elem_of_seq. lia.
Qed.
(** A list depends on its own jumps only. *)
Lemma jlist_frame code code' l ps : (forall p, p ∈ ps -> ins_in code' p = ins_in code p) -> jlist code l ps -> jlist code' l ps.
Proof.
  intros Heq H. induction H as [|p l ps Hp Hn _ IH]; [constructor|].
  econstructor; [done| |apply IH; intros; apply Heq; by right]. unfold next_in in *. rewrite Heq; [done|by left].
Qed.

Lemma NO_JMP_val : NO_JMP = 2 ^ 32 - 1.
Proof. reflexivity. Qed.

(** ** Changing one instruction *)

Definition set_ins code (p i : Z) : list (Z * Z) := alter (λ il, (i, snd il)) (Z.to_nat p) code.

Lemma ins_in_range code p i : ins_in code p = Some i -> 0 <= p < Z.of_nat (length code).
Proof.
  unfold ins_in. destruct (Z.leb_spec 0 p); [|done]. destruct (code !! Z.to_nat p) eqn:E; [|done].
  apply lookup_lt_Some in E. lia.
Qed.
Lemma set_ins_length code p i : length (set_ins code p i) = length code.
Proof. apply length_alter. Qed.
Lemma ins_in_set code p i j : ins_in code p = Some j -> ins_in (set_ins code p i) p = Some i.
Proof.
  unfold ins_in, set_ins. destruct (0 <=? p); [|done]. rewrite list_lookup_alter_eq.
  by destruct (code !! Z.to_nat p).
Qed.
Lemma ins_in_set_ne code p q i : 0 <= p -> p <> q -> ins_in (set_ins code p i) q = ins_in code q.
Proof.
  intros Hp Hne. unfold ins_in, set_ins. destruct (Z.leb_spec 0 q); [|done]. rewrite list_lookup_alter_ne; [done|lia].
Qed.

Section State.
Context (s : pstate) (f : FuncState) (Hf : cur_fs s = Some f).
Let code := fs_code f.

Lemma gwp_ins_at pc i (Φ : Z -> pstate -> Prop) : ins_in code pc = Some i -> Φ i s -> gwp (ins_at pc) s Φ.
Proof. intros Hi H. apply gwp_bind, (gwp_getfs s f); [done|]. by eapply gwp_opt. Qed.

Lemma gwp_put_ins pc i j (Φ : unit -> pstate -> Prop) : ins_in code pc = Some j ->
  Φ tt (with_fs s (fset_code f (set_ins code pc i))) -> gwp (put_ins pc i) s Φ.
Proof.
  intros Hj H. apply gwp_bind, (gwp_getfs s f); [done|]. unfold ins_in, code in Hj. destruct (0 <=? pc) eqn:E; [|done].
  destruct (fs_code f !! Z.to_nat pc) as [il|] eqn:El; [|done]. apply gwp_bind, (gwp_opt _ il); [done|].
  apply (gwp_putfs s f); [done|]. replace (<[Z.to_nat pc := (i, snd il)]> (fs_code f)) with (set_ins code pc i); [done|].
  unfold set_ins. apply list_eq. intros k. destruct (decide (k = Z.to_nat pc)) as [->|Hne].
  - rewrite list_lookup_alter_eq, list_lookup_insert_eq by by eapply lookup_lt_Some. unfold code. by rewrite El.
  - by rewrite list_lookup_alter_ne, list_lookup_insert_ne by done.
Qed.

Lemma gwp_next pc l (Φ : Z -> pstate -> Prop) : next_in code pc = Some l -> Φ l s -> gwp (jmp_next pc) s Φ.
Proof. intros Hl H. apply gwp_bind, (gwp_getfs s f); [done|]. by eapply gwp_opt. Qed.

Lemma gwp_with_code {A} (g : nat -> M A) Φ : gwp (g (S (length code))) s Φ -> gwp (with_code g) s Φ.
Proof. intros H. by apply gwp_bind, (gwp_getfs s f). Qed.
End State.

(** ** Jumps *)

(** The instruction at [p] made to jump to [dest]. *)
Definition jump_to (i p dest : Z) : Z := setbc_d i (dest - (p + 1) + BCBIAS_J).
(** The offset fits its field. *)
Definition near (p dest : Z) : Prop := - 0x8000 <= dest - (p + 1) < 0x8000.

(** Where the interpreter goes from a jump at [p]. *)
Definition target (i p : Z) : Z := p + 1 + bc_j i.

Lemma jump_to_fields i p dest : in_u 32 i -> near p dest ->
  let j := jump_to i p dest in in_u 32 j /\ bc_op j = bc_op i /\ bc_a j = bc_a i /\ target j p = dest.
Proof.
  intros Hi Hn j. destruct (setbc_d_fields i (dest - (p + 1) + BCBIAS_J) Hi) as (H1 & H2 & H3 & H4).
  fold j in H1, H2, H3, H4. split_and!; try done. unfold target, bc_j, j, jump_to. rewrite H4.
  unfold near, BCBIAS_J in *. rewrite wrap_id by (unfold in_u; lia). lia.
Qed.

(** Positions are far below the wrap-around. *)
Definition pos (p : Z) : Prop := 0 <= p < 2 ^ 31.

Lemma patch_offset p dest : pos p -> pos dest ->
  (u32 (dest - (p + 1) + BCBIAS_J) >? BCMAX_D) = false <-> near p dest.
Proof.
  unfold pos, near, BCBIAS_J, BCMAX_D. intros Hp Hd. rewrite Z.gtb_ltb, Z.ltb_ge. unfold u32, wrap.
  destruct (decide (0 <= dest - (p + 1) + 32768)).
  - rewrite Z.mod_small by lia. lia.
  - rewrite <- (Z.mod_add _ 1), Z.mod_small by lia. lia.
Qed.

(** The token in front can be named in an error message. *)
Definition reports (s : pstate) : Prop := forall A em, gwp (@err_syntax A em) s (λ _ _, False).

(** Reporting needs the token and the buffer it was scanned into. *)
Lemma reports_same s s' : l_tok (p_ls s') = l_tok (p_ls s) -> l_sb (p_ls s') = l_sb (p_ls s) -> reports s -> reports s'.
Proof.
  intros Et Eb H A em. specialize (H A em). revert H.
  unfold gwp, err_syntax, lex, lex_error_here, kp_lex_error, lbind, lget, lopt, lret, lex_save. rewrite Et.
  destruct (l_tok (p_ls s) =? 0); [done|]. destruct (_ || _).
  - rewrite Eb. destruct (kp_buf_putb (l_sb (p_ls s)) 0) as [sb|]; [cbn|done]. by destruct (cstr (sb_data sb)).
  - by destruct (kp_lex_token2str (l_tok (p_ls s))).
Qed.
Lemma reports_fs s g : reports s -> reports (with_fs s g).
Proof. by apply reports_same. Qed.
Lemma gwp_report {A} em s (Φ : A -> pstate -> Prop) : reports s -> gwp (err_syntax em) s Φ.
Proof. intros H. by eapply gwp_mono; [apply H|]. Qed.

Lemma gwp_patchins s f pc dest i (Φ : unit -> pstate -> Prop) : cur_fs s = Some f -> reports s ->
  ins_in (fs_code f) pc = Some i -> pos pc -> pos dest ->
  (near pc dest -> Φ tt (with_fs s (fset_code f (set_ins (fs_code f) pc (jump_to i pc dest))))) ->
  gwp (jmp_patchins pc dest) s Φ.
Proof.
  intros Hf Hr Hi Hp Hd H. apply gwp_bind. eapply gwp_ins_at; [done..|]. cbv zeta.
  destruct (_ >? _) eqn:E; [by apply gwp_report|]. apply patch_offset in E as Hn; [|done..].
  eapply gwp_put_ins; [done..|]. unfold jump_to in H. unfold near, BCBIAS_J in *.
  rewrite wrap_id by (unfold in_u; lia). by apply H.
Qed.

Lemma next_in_target code p i : ins_in code p = Some i -> target i p <> p -> pos (target i p) ->
  - 0x8000 <= bc_j i < 0x8000 -> next_in code p = Some (target i p).
Proof.
  intros Hi Hne Ht Hj. unfold next_in. rewrite Hi. cbn. unfold target, pos in *.
  destruct (Z.eqb_spec (u32 (bc_j i)) NO_JMP) as [E|_]; [|by rewrite wrap_id by (unfold in_u; lia)].
  rewrite NO_JMP_val in E. unfold u32, wrap in E. destruct (decide (0 <= bc_j i)).
  - rewrite Z.mod_small in E by lia. lia.
  - rewrite <- (Z.mod_add _ 1), Z.mod_small in E by lia. lia.
Qed.

(** A jump list inside the code: its jumps are jumps. *)
Definition is_jump (i : Z) : Prop :=
  in_u 32 i /\ bc_op i <> BC_ISTC /\ bc_op i <> BC_ISFC /\ bc_a i <> NO_REG.
Record jumps code l ps : Prop := {
  jp_list : jlist code l ps;
  jp_jump : forall p i, p ∈ ps -> ins_in code p = Some i -> is_jump i
}.
Definition small_code code : Prop := Z.of_nat (length code) < 2 ^ 30.

Lemma jumps_pos code l ps p : small_code code -> jumps code l ps -> p ∈ ps ->
  0 <= p < Z.of_nat (length code) /\ pos p /\ exists i, ins_in code p = Some i /\ is_jump i.
Proof.
  intros Hs [Hl Hj] Hp. pose proof (jlist_range _ _ _ _ Hl Hp) as Hr. unfold pos, small_code in *. split_and!; try lia.
  destruct (lookup_lt_is_Some_2 code (Z.to_nat p)) as [il Hil]; [lia|]. exists (fst il).
  assert (E : ins_in code p = Some (fst il)). { unfold ins_in. rewrite (proj2 (Z.leb_le 0 p)) by lia. by rewrite Hil. }
  split; [done|by eapply Hj].
Qed.

(** ** Appending *)

Lemma last_loop_spec fuel s f l ps p : cur_fs s = Some f -> jlist (fs_code f) l (ps ++ [p]) ->
  (length ps < fuel)%nat -> forall Φ : Z -> pstate -> Prop, Φ p s -> gwp (last_loop fuel l) s Φ.
Proof.
  intros Hf. revert l ps. induction fuel as [|fuel IH]; intros l ps Hl Hlt Φ H; [lia|]. cbn [last_loop].
  destruct ps as [|q ps]; cbn [app] in Hl.
  - inversion Hl as [|? l' ? Hp Hn Hn']; subst. inversion Hn'; subst.
    apply gwp_bind. eapply gwp_next; [done..|]. by apply gwp_ret.
  - inversion Hl as [|? l' ? Hp Hn Hn']; subst. apply gwp_bind. eapply gwp_next; [done..|].
    assert (Hl' : l' <> NO_JMP). { intros ->. inversion Hn' as [E|]; [by destruct ps|done]. }
    rewrite (proj2 (Z.eqb_neq _ _) Hl'). apply (IH l' ps); [done|cbn in Hlt; lia|done].
Qed.

Lemma jlist_splice code code' l ps p l2 (p2 : list Z) : jlist code l (ps ++ [p]) -> (forall q, q ∈ ps -> ins_in code' q = ins_in code q) ->
  next_in code' p = Some l2 -> jlist code' l2 p2 -> jlist code' l (ps ++ p :: p2).
Proof.
  revert l. induction ps as [|q ps IH]; intros l H Heq Hn H2; cbn [app] in *.
  - inversion H; subst. by econstructor.
  - inversion H as [|? l' ? Hq Hnx Hr]; subst. econstructor; [done| |].
    + unfold next_in in *. rewrite Heq; [exact Hnx|by left].
    + apply IH; [exact Hr|intros; apply Heq; by right|done..].
Qed.

(** Opcodes and registers stay; only offsets of jumps in [ps] change. *)
Definition same_but ps code code' : Prop :=
  length code' = length code /\
  forall q i, ins_in code q = Some i -> exists i', ins_in code' q = Some i' /\ bc_op i' = bc_op i /\
    bc_a i' = bc_a i /\ (q ∉ ps -> i' = i).

Lemma same_but_refl ps code : same_but ps code code.
Proof. split; [done|]. intros q i Hi. by exists i. Qed.

Lemma ins_in_some code p : 0 <= p < Z.of_nat (length code) -> exists i, ins_in code p = Some i.
Proof.
  intros Hp. destruct (lookup_lt_is_Some_2 code (Z.to_nat p)) as [il Hil]; [lia|]. exists (fst il).
  unfold ins_in. rewrite (proj2 (Z.leb_le 0 p)) by lia. by rewrite Hil.
Qed.

Lemma jmp_append_spec s f l1 l2 (p1 p2 : list Z) : let code := fs_code f in
  cur_fs s = Some f -> reports s -> small_code code -> jumps code l1 p1 -> jumps code l2 p2 ->
  (forall p, p ∈ p1 -> p ∉ p2) ->
  gwp (jmp_append l1 l2) s (λ l s', exists code', s' = with_fs s (fset_code f code') /\
    jumps code' l (p1 ++ p2) /\ same_but p1 code code').
Proof.
  intros code Hf Hr Hs J1 J2 Hdis. unfold jmp_append.
  assert (Hid : with_fs s (fset_code f code) = s) by (rewrite <- (with_fs_id s f) at 2 by done; by destruct f).
  destruct (Z.eqb_spec l2 NO_JMP) as [->|Hl2].
  { apply gwp_ret. exists code. destruct J2 as [J2 _]. inversion J2; subst; [|done]. rewrite app_nil_r.
    split_and!; [done..|apply same_but_refl]. }
  destruct (Z.eqb_spec l1 NO_JMP) as [->|Hl1].
  { apply gwp_ret. exists code. destruct J1 as [J1 _]. inversion J1; subst; [|done]. cbn [app].
    split_and!; [done..|apply same_but_refl]. }
  destruct (list_eq_dec Z.eq_dec p1 []) as [->|Hne]; [destruct J1 as [J1 _]; by inversion J1|].
  destruct (exists_last Hne) as (ps & p & ->). assert (Hp : p ∈ ps ++ [p]) by (apply elem_of_app; right; by left).
  assert (Hq : l2 ∈ p2). { destruct J2 as [J2 _]. inversion J2; subst; [done|by left]. }
  destruct (jumps_pos _ _ _ p Hs J1 Hp) as (Rp & Pp & i & Hi & Hj).
  destruct (jumps_pos _ _ _ l2 Hs J2 Hq) as (_ & P2 & _).
  apply gwp_bind, (gwp_with_code s f Hf), (last_loop_spec _ s f l1 ps p); [done|apply J1| |].
  { pose proof (jlist_length _ _ _ (jp_list _ _ _ J1)) as HL. rewrite length_app in HL. cbn in HL. unfold code in HL. lia. }
  apply gwp_bind, (gwp_patchins s f p l2 i); [done..|]. intros Hnear. apply gwp_ret.
  destruct (jump_to_fields i p l2 (proj1 Hj) Hnear) as (U & Eop & Ea & Et). set (j := jump_to i p l2) in *.
  exists (set_ins code p j).
  assert (Hother : forall q, q <> p -> ins_in (set_ins code p j) q = ins_in code q) by (intros; apply ins_in_set_ne; [lia|done]).
  assert (Hself : ins_in (set_ins code p j) p = Some j) by by eapply ins_in_set.
  assert (Hnp : p ∉ ps) by (pose proof (jlist_NoDup _ _ _ (jp_list _ _ _ J1)) as ND; apply list.NoDup_app in ND as (_ & ND & _);
    intros Hin; apply (ND p Hin); by left).
  split_and!; [done| |].
  - rewrite <- app_assoc. cbn [app]. split.
    + apply (jlist_splice code _ l1 ps p l2); [apply J1|intros q Hqs; apply Hother; congruence| |].
      * rewrite <- Et. apply next_in_target; [done| |by rewrite Et|].
        -- rewrite Et. intros ->. by apply (Hdis p).
        -- unfold near, target, bc_j in *. unfold BCBIAS_J in *. lia.
      * apply (jlist_frame code); [|apply J2]. intros q Hqs. apply Hother. intros ->. by apply (Hdis p).
    + intros q k Hqs Hk. destruct (decide (q = p)) as [->|Hqp].
      * rewrite Hself in Hk. injection Hk as <-. destruct Hj as (_ & ? & ? & ?). unfold is_jump. by rewrite Eop, Ea.
      * rewrite Hother in Hk by done. apply elem_of_app in Hqs as [Hqs|Hqs]; [eapply (jp_jump _ _ _ J1); [apply elem_of_app; by left|done]|].
        apply elem_of_cons in Hqs as [->|Hqs]; [done|]. by eapply (jp_jump _ _ _ J2).
  - split; [by rewrite set_ins_length|]. intros q k Hk. destruct (decide (q = p)) as [->|Hqp].
    + rewrite Hi in Hk. injection Hk as <-. by exists j; split_and!.
    + exists k. rewrite Hother by done. by split_and!.
Qed.

(** ** Resolving *)

(** A test that copies its operand becomes a plain test, and a load into no
    register a jump over nothing: the value is not wanted at the target. *)
Definition drop_test (i a : Z) : Z :=
  if (bc_op i =? BC_ISTC) || (bc_op i =? BC_ISFC) then setbc_a (setbc_op i (bc_op i + (BC_IST - BC_ISTC))) 0
  else if bc_a i =? NO_REG then BCINS_AJ BC_JMP a 0 else i.

Lemma drop_test_jump i a : is_jump i -> drop_test i a = i.
Proof.
  intros (_ & H1 & H2 & H3). unfold drop_test. by rewrite !(proj2 (Z.eqb_neq _ _)).
Qed.
Lemma set_ins_id code p i : ins_in code p = Some i -> set_ins code p i = code.
Proof.
  unfold ins_in, set_ins. destruct (0 <=? p); [|done]. destruct (code !! Z.to_nat p) as [[a b]|] eqn:E; [|done].
  intros [= <-]. apply list_eq. intros k. destruct (decide (k = Z.to_nat p)) as [->|Hne].
  - by rewrite list_lookup_alter_eq, E.
  - by rewrite list_lookup_alter_ne.
Qed.

Lemma patchtestreg_spec s f p i j (Φ : bool -> pstate -> Prop) : cur_fs s = Some f ->
  ins_in (fs_code f) (before_jump p) = Some i -> ins_in (fs_code f) p = Some j ->
  (forall b, Φ b (with_fs s (fset_code f (set_ins (fs_code f) (before_jump p) (drop_test i (bc_a j)))))) ->
  gwp (jmp_patchtestreg p NO_REG) s Φ.
Proof.
  intros Hf Hi Hj H. unfold jmp_patchtestreg. apply gwp_bind. eapply gwp_ins_at; [done..|]. cbv zeta.
  unfold drop_test in H. destruct (_ || _).
  - rewrite Z.eqb_refl. cbn [negb andb]. apply gwp_bind. eapply gwp_put_ins; [done..|]. apply gwp_ret, H.
  - destruct (bc_a i =? NO_REG) eqn:E.
    + rewrite Z.eqb_refl. apply gwp_bind, gwp_bind. eapply gwp_ins_at; [done..|].
      eapply gwp_put_ins; [done..|]. apply gwp_ret, H.
    + apply gwp_ret. specialize (H false). rewrite set_ins_id in H by done.
      replace (fset_code f (fs_code f)) with f in H by by destruct f. by rewrite with_fs_id in H.
Qed.

(** [code'] is [code] with the jumps of [ps] made to go to [t]. *)
Record resolved ps t code code' : Prop := {
  rs_len : length code' = length code;
  rs_jump : forall p i, p ∈ ps -> ins_in code p = Some i -> exists i', ins_in code' p = Some i' /\
    is_jump i' /\ bc_op i' = bc_op i /\ bc_a i' = bc_a i /\ target i' p = t;
  rs_other : forall q, q ∉ ps -> ins_in code' q = ins_in code q \/
    q + 1 ∈ ps /\ exists i j, ins_in code q = Some i /\ ins_in code (q + 1) = Some j /\ ins_in code' q = Some (drop_test i (bc_a j))
}.

(** One round: the test in front of [p], then the jump. *)
Lemma resolve_step code l p ps i j t : small_code code -> jumps code p (p :: ps) -> next_in code p = Some l -> near p t ->
  ins_in code (before_jump p) = Some i -> ins_in code p = Some j ->
  let code1 := set_ins (set_ins code (before_jump p) (drop_test i (bc_a j))) p (jump_to j p t) in
  ins_in (set_ins code (before_jump p) (drop_test i (bc_a j))) p = Some j /\
  jumps code1 l ps /\ resolved [p] t code code1.
Proof.
  intros Hs J Hl Hn Hi Hj code1.
  assert (Hp : 0 <= p < Z.of_nat (length code)) by by eapply ins_in_range.
  assert (Hb : before_jump p = p - 1 /\ 1 <= p \/ before_jump p = p /\ p = 0).
  { unfold before_jump. destruct (Z.geb_spec p 1); [left|right]; lia. }
  assert (Jj : is_jump j) by (eapply (jp_jump _ _ _ J); [by left|done]).
  assert (Hkeep : forall q, q ∈ p :: ps -> ins_in (set_ins code (before_jump p) (drop_test i (bc_a j))) q = ins_in code q).
  { intros q Hq. destruct (decide (before_jump p = q)) as [E|Hne]; [|apply ins_in_set_ne; [lia|done]].
    rewrite E in *. rewrite drop_test_jump by by eapply (jp_jump _ _ _ J). by rewrite set_ins_id. }
  assert (Hj0 : ins_in (set_ins code (before_jump p) (drop_test i (bc_a j))) p = Some j) by (rewrite Hkeep; [done|by left]).
  destruct (jump_to_fields j p t (proj1 Jj) Hn) as (U & Eop & Ea & Et).
  assert (Hp1 : ins_in code1 p = Some (jump_to j p t)) by by eapply ins_in_set.
  assert (Hother : forall q, q <> p -> ins_in code1 q = ins_in (set_ins code (before_jump p) (drop_test i (bc_a j))) q)
    by (intros; apply ins_in_set_ne; [lia|done]).
  pose proof (jlist_NoDup _ _ _ (jp_list _ _ _ J)) as ND. apply list.NoDup_cons in ND as [Hnp ND].
  assert (Hrest : forall q, q ∈ ps -> ins_in code1 q = ins_in code q).
  { intros q Hq. rewrite Hother by congruence. apply Hkeep. by right. }
  split_and!; [done| |].
  - split.
    + apply (jlist_frame code); [done|]. destruct J as [J _]. inversion J; subst. congruence.
    + intros q k Hq Hk. rewrite Hrest in Hk by done. eapply (jp_jump _ _ _ J); [by right|done].
  - split.
    + unfold code1. by rewrite !set_ins_length.
    + intros q k Hq Hk. apply list_elem_of_singleton in Hq as ->. rewrite Hj in Hk. injection Hk as <-.
      exists (jump_to j p t). split_and!; try done. destruct Jj as (_ & ? & ? & ?). unfold is_jump. by rewrite Eop, Ea.
    + intros q Hq. assert (Hqp : q <> p) by (intros ->; apply Hq; by left). rewrite Hother by done.
      destruct (decide (before_jump p = q)) as [E|Hne]; [|left; apply ins_in_set_ne; [lia|done]].
      right. assert (E1 : q + 1 = p) by lia. rewrite E1. split; [by left|]. rewrite E in *. exists i, j.
      split_and!; try done. by eapply ins_in_set.
Qed.

Lemma resolved_compose code code1 code' p ps t : (forall q i, q ∈ p :: ps -> ins_in code q = Some i -> is_jump i) ->
  is_Some (ins_in code p) -> p ∉ ps -> resolved [p] t code code1 -> resolved ps t code1 code' -> resolved (p :: ps) t code code'.
Proof.
  intros HJ [ip Hip] Hnp [L1 R1 O1] [L2 R2 O2].
  assert (Hkeep : forall q i, q ∈ ps -> ins_in code q = Some i -> ins_in code1 q = Some i).
  { intros q i Hq Hi. destruct (O1 q) as [E|(_ & k & j & Ek & _ & E)]; [by intros ->%list_elem_of_singleton|congruence|].
    assert (k = i) as -> by congruence. rewrite drop_test_jump in E; [done|]. eapply HJ; [by right|done]. }
  split; [congruence| |].
  - intros q i Hq Hi. apply elem_of_cons in Hq as [->|Hq]; [|by apply R2, Hkeep].
    destruct (R1 p i ltac:(by left) Hi) as (i1 & E1 & J1 & Eop & Ea & Et). exists i1. split_and!; try done.
    destruct (O2 p Hnp) as [->|(_ & k & j & Ek & _ & ->)]; [done|]. assert (k = i1) as -> by congruence.
    by rewrite drop_test_jump.
  - intros q Hq. apply not_elem_of_cons in Hq as [Hqp Hq].
    destruct (O1 q) as [E1|(Hp1 & i & j & Ei & Ej & E1)]; [by intros ->%list_elem_of_singleton| |].
    + destruct (O2 q Hq) as [E2|(Hin & i & j & Ei & Ej & E2)]; [left; congruence|]. right. split; [by right|].
      exists i, j. split_and!; [congruence| |done]. destruct (ins_in code (q + 1)) as [j0|] eqn:E0.
      * by rewrite (Hkeep _ _ Hin E0) in Ej.
      * destruct (O1 (q + 1)) as [E|(_ & ? & ? & E & _)]; [intros E%list_elem_of_singleton; by rewrite E in Hin|congruence|congruence].
    + apply list_elem_of_singleton in Hp1. right. rewrite Hp1. split; [by left|]. exists i, j.
      rewrite Hp1 in Ej. split_and!; try done. destruct (O2 q Hq) as [->|(Hin & _)]; [done|]. by rewrite Hp1 in Hin.
Qed.

Lemma patchval_spec fuel : forall s f l ps t, let code := fs_code f in
  cur_fs s = Some f -> reports s -> small_code code -> jumps code l ps -> pos t -> (length ps < fuel)%nat ->
  gwp (patchval_loop fuel l t NO_REG t) s (λ _ s', exists code', s' = with_fs s (fset_code f code') /\
    resolved ps t code code').
Proof.
  induction fuel as [|fuel IH]; intros s f l ps t code Hf Hr Hs J Ht Hlt; [lia|]. cbn [patchval_loop].
  destruct (Z.eqb_spec l NO_JMP) as [->|Hl].
  { apply gwp_ret. exists code. destruct J as [J _]. inversion J; subst; [|done]. split.
    - rewrite <- (with_fs_id s f) at 1 by done. by destruct f.
    - split; [done| |by left]. intros p i Hp. by apply not_elem_of_nil in Hp. }
  assert (exists ps', ps = l :: ps') as [ps' ->]. { destruct J as [J _]. inversion J; subst; [done|by eexists]. }
  assert (Hin : l ∈ l :: ps') by by left. destruct (jumps_pos _ _ _ l Hs J Hin) as (Rl & Pl & j & Hj & Jj).
  assert (exists l', next_in code l = Some l') as [l' Hl']. { destruct J as [J _]. inversion J; subst; by eexists. }
  destruct (ins_in_some code (before_jump l)) as [i Hi]; [unfold before_jump; destruct (l >=? 1) eqn:E; lia|].
  apply gwp_bind. eapply gwp_next; [done..|]. apply gwp_bind. eapply patchtestreg_spec; [done..|].
  intros b. set (f0 := fset_code f _). apply gwp_bind.
  assert (Hj0 : ins_in (fs_code f0) l = Some j).
  { cbn. destruct (decide (before_jump l = l)) as [E|Hne].
    - rewrite E in *. rewrite Hi in Hj. injection Hj as ->. rewrite drop_test_jump by done. by rewrite set_ins_id.
    - rewrite ins_in_set_ne; [done| |done]. unfold before_jump. destruct (Z.geb_spec l 1); lia. }
  assert (Et : (if b then t else t) = t) by by destruct b. rewrite Et.
  eapply gwp_patchins; [apply cur_with_fs|by apply reports_fs|exact Hj0|done..|]. intros Hn.
  destruct (resolve_step code l' l ps' i j t Hs J Hl' Hn Hi Hj) as (_ & J1 & R1). cbn [fs_code f0 fset_code].
  set (code1 := set_ins (set_ins _ _ _) _ _) in *. rewrite with_fs_twice. cbn in Hlt.
  eapply gwp_mono; [apply (IH _ (fset_code f code1) l' ps' t); [done|by apply reports_fs| |done|done|lia]|].
  { unfold small_code. cbn. by rewrite (rs_len _ _ _ _ R1). }
  cbv beta. intros _ s' (code' & -> & R2). exists code'. split; [done|]. cbn in R2.
  eapply resolved_compose; [intros; by eapply (jp_jump _ _ _ J)|by eexists| |done|done].
  pose proof (jlist_NoDup _ _ _ (jp_list _ _ _ J)) as ND. by apply list.NoDup_cons in ND as [].
Qed.

Lemma resolved_same_but ps (qs : list Z) t code code1 code2 : (forall p, p ∈ qs -> p ∈ ps) ->
  same_but qs code code1 -> resolved ps t code1 code2 -> resolved ps t code code2.
Proof.
  intros Hsub [L1 S1] [L2 R2 O2]. split; [congruence| |].
  - intros p i Hp Hi. destruct (S1 p i Hi) as (i1 & E1 & Eop & Ea & _).
    destruct (R2 p i1 Hp E1) as (i2 & E2 & J2 & Eop2 & Ea2 & Et). exists i2. split_and!; congruence.
  - assert (Hback : forall q i1, ins_in code1 q = Some i1 -> exists i, ins_in code q = Some i /\ bc_a i1 = bc_a i /\ (q ∉ ps -> i1 = i)).
    { intros q i1 E1. pose proof (ins_in_range _ _ _ E1) as Hr. destruct (ins_in_some code q) as [i Hi]; [lia|].
      destruct (S1 q i Hi) as (i' & E' & _ & Ea & Es). exists i. assert (i1 = i') as -> by congruence.
      split_and!; try done. intros Hq. apply Es. auto. }
    intros q Hq. destruct (O2 q Hq) as [E2|(Hin & i & j & Ei & Ej & E2)].
    + left. rewrite E2. destruct (ins_in code1 q) as [i1|] eqn:E1.
      * destruct (Hback q i1 E1) as (i & Hi & _ & Es). rewrite Hi. f_equal. auto.
      * destruct (ins_in code q) as [i|] eqn:Hi; [|done]. exfalso. destruct (S1 q i Hi) as (i' & E' & _). congruence.
    + right. split; [done|]. destruct (Hback q i Ei) as (i0 & Hi0 & _ & Es). destruct (Hback _ j Ej) as (j0 & Hj0 & Ea & _).
      specialize (Es Hq). subst i0. exists i, j0. rewrite <- Ea. by split_and!.
Qed.

Lemma gwp_checklimit v l m s f (Φ : unit -> pstate -> Prop) : cur_fs s = Some f -> Φ tt s -> gwp (checklimit v l m) s Φ.
Proof.
  intros Hf H. unfold checklimit. destruct (v >=? l); [|by apply gwp_ret].
  apply gwp_bind, (gwp_getfs s f); [done|]. done.
Qed.

(** [s] and [s'] differ in the current function and the size of the stack of
    instructions at most. *)
Definition emitted (s s' : pstate) (f' : FuncState) : Prop := exists n, s' = pset_sizebcstack (with_fs s f') n.

Lemma gwp_append_ins ins pc s f (Φ : Z -> pstate -> Prop) : cur_fs s = Some f ->
  (forall s', emitted s s' (fset_code (fset_jpc f NO_JMP) (fs_code f ++ [(ins, l_lastline (p_ls s))])) -> Φ pc s') ->
  gwp (modfs (λ f, fset_jpc f NO_JMP) ;;; grow_code pc ;;; l <~ gls ;;
       modfs (λ f, fset_code f (fs_code f ++ [(ins, l_lastline l)])) ;;; gret pc) s Φ.
Proof.
  intros Hf H. apply gwp_bind. eapply gwp_modfs; [done|]. set (f1 := fset_jpc _ _).
  apply gwp_bind. unfold grow_code. apply gwp_bind. eapply gwp_getfs; [done|]. apply gwp_bind, gwp_get.
  assert (Hfin : forall n, gwp (l <~ gls ;; modfs (λ f, fset_code f (fs_code f ++ [(ins, l_lastline l)])) ;;; gret pc)
    (pset_sizebcstack (with_fs s f1) n) Φ).
  { intros n. apply gwp_bind, gwp_bind, gwp_get, gwp_ret, gwp_bind. eapply gwp_modfs; [done|]. apply gwp_ret.
    apply H. exists n. by destruct f. }
  destruct (_ >=? _).
  - apply gwp_bind. eapply gwp_checklimit; [done|]. apply gwp_bind, gwp_get, gwp_put, Hfin.
  - apply gwp_ret. specialize (Hfin (p_sizebcstack s)). by destruct s.
Qed.

Lemma gwp_emit ins s f ps (Φ : Z -> pstate -> Prop) : let code := fs_code f in let pc := fs_pc f in
  cur_fs s = Some f -> reports s -> small_code code -> jumps code (fs_jpc f) ps ->
  (forall code' s', resolved ps pc code code' ->
    emitted s s' (fset_code (fset_jpc f NO_JMP) (code' ++ [(ins, l_lastline (p_ls s))])) -> Φ pc s') ->
  gwp (bcemit_INS ins) s Φ.
Proof.
  intros code pc Hf Hr Hs J H. unfold bcemit_INS. apply gwp_bind, (gwp_getfs s f); [done|]. cbv zeta.
  assert (Hpc : pos pc) by (unfold pos, pc, fs_pc, small_code, code in *; lia).
  apply gwp_bind, (gwp_with_code s f Hf). eapply gwp_mono.
  { apply (patchval_spec _ s f (fs_jpc f) ps pc); try done.
    pose proof (jlist_length _ _ _ (jp_list _ _ _ J)). unfold code in *. lia. }
  cbv beta. intros _ s1 (code' & -> & R). eapply gwp_append_ins; [done|]. intros s' (n & ->).
  apply (H code'); [done|]. exists n. by destruct f.
Qed.

(** With no list pending the instruction is appended and nothing else changes. *)
Lemma gwp_emit_plain ins s f (Φ : Z -> pstate -> Prop) : cur_fs s = Some f -> fs_jpc f = NO_JMP ->
  (forall s', emitted s s' (fset_code f (fs_code f ++ [(ins, l_lastline (p_ls s))])) -> Φ (fs_pc f) s') ->
  gwp (bcemit_INS ins) s Φ.
Proof.
  intros Hf Hj H. unfold bcemit_INS. apply gwp_bind, (gwp_getfs s f); [done|]. cbv zeta. rewrite Hj.
  apply gwp_bind, (gwp_with_code s f Hf), gwp_ret. eapply gwp_append_ins; [done|]. intros s' (n & ->).
  apply H. exists n. rewrite <- Hj at 1. by destruct f.
Qed.

(** ** The claims *)

Lemma ins_in_app code il q : ins_in (code ++ [il]) q = if q =? Z.of_nat (length code) then Some (fst il) else ins_in code q.
Proof.
  unfold ins_in. destruct (Z.leb_spec 0 q), (Z.eqb_spec q (Z.of_nat (length code))) as [E|E]; try done; try lia.
  - rewrite E, Nat2Z.id, lookup_app_r, Nat.sub_diag by done. done.
  - destruct (decide (q < Z.of_nat (length code))).
    + by rewrite lookup_app_l by lia.
    + rewrite (lookup_ge_None_2 (_ ++ _)), lookup_ge_None_2; [done|lia|]. rewrite length_app. cbn. lia.
Qed.

Lemma same_but_small ps code code' : same_but ps code code' -> small_code code -> small_code code'.
Proof. intros [E _]. unfold small_code. by rewrite E. Qed.

(** The code of [f'] is [code] with [ins] added at [pc], every jump of [ps] going
    to [pc], and no jump pending. *)
Record landed ps code (ins pc : Z) (f' : FuncState) : Prop := {
  ld_at : pc = Z.of_nat (length code);
  ld_len : length (fs_code f') = S (length code);
  ld_ins : ins_in (fs_code f') pc = Some ins;
  ld_done : fs_jpc f' = NO_JMP;
  ld_jump : forall p i, p ∈ ps -> ins_in code p = Some i -> exists i', ins_in (fs_code f') p = Some i' /\
    bc_op i' = bc_op i /\ bc_a i' = bc_a i /\ target i' p = pc;
  ld_other : forall q, q ∉ ps -> q <> pc -> ins_in (fs_code f') q = ins_in code q \/
    q + 1 ∈ ps /\ exists i a, ins_in code q = Some i /\ ins_in (fs_code f') q = Some (drop_test i a)
}.

Lemma landed_intro ps code code' ins line f' : (forall p, p ∈ ps -> p < Z.of_nat (length code)) ->
  resolved ps (Z.of_nat (length code)) code code' -> fs_code f' = code' ++ [(ins, line)] -> fs_jpc f' = NO_JMP ->
  landed ps code ins (Z.of_nat (length code)) f'.
Proof.
  intros Hb [L R O] Ec Ej.
  assert (Hin : forall q, q <> Z.of_nat (length code) -> ins_in (fs_code f') q = ins_in code' q).
  { intros q Hq. rewrite Ec, ins_in_app, L. by rewrite (proj2 (Z.eqb_neq _ _) Hq). }
  split; [done| | |done| |].
  - rewrite Ec, length_app, L. cbn. lia.
  - by rewrite Ec, ins_in_app, L, Z.eqb_refl.
  - intros p i Hp Hi. rewrite Hin by (specialize (Hb p Hp); lia).
    destruct (R p i Hp Hi) as (i' & E & _ & Eop & Ea & Et). by exists i'.
  - intros q Hq Hne. rewrite Hin by done. destruct (O q Hq) as [E|(Hp & i & j & Ei & _ & E)]; [by left|].
    right. split; [done|]. by exists i, (bc_a j).
Qed.

(** C4.  Jumps to the next instruction: when a list of jumps is directed to the
    current position and an instruction is emitted, every jump of that list and of
    the lists directed there before goes to the new instruction, which stands at
    the end of the code; no list is pending any more; opcodes and registers of the
    jumps are kept, and no other instruction changes, except that a test in front
    of such a jump stops copying its operand. *)
Theorem jumps_to_here ins l s f (ps qs : list Z) : let code := fs_code f in
  cur_fs s = Some f -> reports s -> small_code code -> jumps code (fs_jpc f) ps -> jumps code l qs ->
  (forall p, p ∈ ps -> p ∉ qs) ->
  gwp (jmp_tohere l ;;; bcemit_INS ins) s (λ pc s', exists f', cur_fs s' = Some f' /\ landed (ps ++ qs) code ins pc f').
Proof.
  intros code Hf Hr Hs J1 J2 Hdis. apply gwp_bind, gwp_bind. eapply gwp_modfs; [done|]. apply gwp_bind.
  eapply gwp_getfs; [apply cur_with_fs|]. apply gwp_bind. eapply gwp_mono.
  { eapply (jmp_append_spec _ (fset_lasttarget f (fs_pc f)) _ l ps qs); [apply cur_with_fs|by apply reports_fs|done..]. }
  cbv beta. intros l' s1 (code1 & -> & J & S1). eapply gwp_modfs; [apply cur_with_fs|]. rewrite !with_fs_twice.
  set (f2 := fset_jpc _ l'). pose proof (same_but_small _ _ _ S1 Hs) as Hs1. eapply (gwp_emit _ _ f2 (ps ++ qs)).
  { apply cur_with_fs. } { by apply reports_fs. } { done. } { done. }
  intros code' s' R (n & ->). exists (fset_code (fset_jpc f2 NO_JMP) (code' ++ [(ins, l_lastline (p_ls (with_fs s f2)))])).
  assert (E : fs_pc f2 = Z.of_nat (length code)) by (unfold fs_pc; cbn; by rewrite (proj1 S1)).
  rewrite E in *. cbn [fs_code f2 fset_jpc fset_code] in R.
  split; [by rewrite <- (cur_with_fs (with_fs s f2)) at 1|].
  eapply landed_intro; [|eapply resolved_same_but; [|exact S1|exact R]|done..].
  - intros p [Hp|Hp]%elem_of_app; [by apply (jlist_range _ _ _ _ (jp_list _ _ _ J1))|by apply (jlist_range _ _ _ _ (jp_list _ _ _ J2))].
  - intros p Hp. apply elem_of_app. by left.
Qed.

(** Jumps to a known place: directing a list of jumps to a position other than
    the current one makes every jump of the list go there, keeps their opcodes and
    registers, and changes no other instruction, except that a test in front of
    such a jump stops copying its operand. *)
Theorem jmp_patch_resolves l t s f (ps : list Z) : let code := fs_code f in
  cur_fs s = Some f -> reports s -> small_code code -> jumps code l ps -> pos t -> t <> fs_pc f ->
  gwp (jmp_patch l t) s (λ _ s', exists code', s' = with_fs s (fset_code f code') /\ resolved ps t code code').
Proof.
  intros code Hf Hr Hs J Ht Hne. apply gwp_bind, (gwp_getfs s f); [done|].
  rewrite (proj2 (Z.eqb_neq _ _) Hne). apply (gwp_with_code s f Hf), patchval_spec; try done.
  pose proof (jlist_length _ _ _ (jp_list _ _ _ J)). unfold code in *. lia.
Qed.

Lemma lex_error_msg A tok em ls e : @kp_lex_error A tok em ls = Some (inl e) -> e_msg e = em.
Proof.
  unfold kp_lex_error, lbind, lget, lret, lopt, lex_save. intros H.
  repeat (case_match; simplify_eq; try done).
  by destruct (kp_buf_putb (l_sb ls) 0).
Qed.
Lemma err_syntax_run A em s : reports s -> exists e, @err_syntax A em s = Some (inl (PErr e)) /\ e_msg e = em.
Proof.
  intros H. specialize (H A em). revert H. unfold gwp, err_syntax, lex.
  destruct (lex_error_here em (p_ls s)) as [[e|[]]|] eqn:E; try done. intros _. exists e.
  split; [done|]. exact (lex_error_msg _ _ _ _ _ E).
Qed.

Lemma ins_at_run s f p i : cur_fs s = Some f -> ins_in (fs_code f) p = Some i -> ins_at p s = Some (inr (i, s)).
Proof.
  intros Hf Hi. unfold ins_at, getfs, gbind, gget, gopt. unfold cur_fs in Hf. rewrite Hf.
  change (ins_of f p) with (ins_in (fs_code f) p). by rewrite Hi.
Qed.
Lemma put_ins_run s f p i j : cur_fs s = Some f -> ins_in (fs_code f) p = Some j -> exists s', put_ins p i s = Some (inr (tt, s')).
Proof.
  intros Hf Hj. unfold put_ins, getfs, gbind, gget, gopt, putfs. unfold cur_fs in Hf. rewrite Hf.
  unfold ins_in in Hj. destruct (0 <=? p); [|done]. destruct (fs_code f !! Z.to_nat p); [|done].
  destruct (p_fs s); [done|]. by eexists.
Qed.

(** What a jump patched to go from [p] to [dest] is in the interpreter: with the
    program counter behind it, it sets the program counter to [dest] and nothing
    else. *)
Definition runs_to (i p dest : Z) : Prop := forall S (s : @vm S) proto, pc s = mkpc proto (p + 1) ->
  dojump s i 0 = with_pc s (mkpc proto dest).

Lemma target_runs i p dest : target i p = dest -> runs_to i p dest.
Proof.
  intros E S s proto Hp. unfold dojump, pc_add. rewrite Hp. cbn [pc_proto pc_idx]. do 2 f_equal.
  unfold target, bc_j in E. lia.
Qed.

(** C6.  The range of jumps: patching a jump at [p] to go to [dest] succeeds exactly
    when the distance fits the signed sixteen bits of the operand; then only that
    instruction changes, its opcode and register are kept, and executing it the
    interpreter continues at [dest]; otherwise compilation ends with the message
    that the control structure is too long, and nothing is truncated. *)
Theorem jmp_patchins_range p dest s f i : let code := fs_code f in
  cur_fs s = Some f -> reports s -> ins_in code p = Some i -> in_u 32 i -> pos p -> pos dest ->
  (near p dest /\ exists i', jmp_patchins p dest s = Some (inr (tt, with_fs s (fset_code f (set_ins code p i')))) /\
     bc_op i' = bc_op i /\ bc_a i' = bc_a i /\ runs_to i' p dest) \/
  (~ near p dest /\ exists e, jmp_patchins p dest s = Some (inl (PErr e)) /\ e_msg e = KP_ERR_XJUMP).
Proof.
  intros code Hf Hr Hi Hu Hp Hd. unfold jmp_patchins, gbind. rewrite (ins_at_run s f p i) by done. cbv zeta.
  pose proof (patch_offset p dest Hp Hd) as Hn. destruct (_ >? _) eqn:E.
  - right. split; [by intros H%Hn|]. by apply err_syntax_run.
  - apply proj1 in Hn as Hn'. specialize (Hn' eq_refl). left. split; [done|]. exists (jump_to i p dest).
    destruct (jump_to_fields i p dest Hu Hn') as (_ & Eop & Ea & Et).
    split_and!; [|done..|by apply target_runs].
    destruct (put_ins_run s f p (setbc_d i (u32 (dest - (p + 1) + BCBIAS_J))) i Hf Hi) as [s' E'].
    rewrite E'. do 3 f_equal. symmetry.
    assert (H : gwp (put_ins p (jump_to i p dest)) s (λ _ s1, with_fs s (fset_code f (set_ins code p (jump_to i p dest))) = s1)).
    { by eapply gwp_put_ins. }
    eapply (gwp_run _ _ _ tt s' H). rewrite <- E'. unfold jump_to. unfold near, BCBIAS_J in *.
    by rewrite wrap_id by (unfold in_u; lia).
Qed.

(** Two jumps with an instruction between them: one list is pending, the other
    is directed to the same place. *)
Definition demo_jump : Z := BCINS_AJ BC_JMP 0 NO_JMP.
Definition demo_jump_fs : FuncState :=
  fset_jpc (fset_code demo_fs [(demo_jump, 1); (BCINS_AD BC_MOV 0 1, 1); (demo_jump, 1)]) 0.
Definition demo_jump_state : pstate := with_fs demo_pstate demo_jump_fs.

Lemma demo_reports : reports demo_jump_state.
Proof. intros A em. unfold gwp. vm_compute. exact I. Qed.
Lemma demo_jumps p : p = 0 \/ p = 2 -> jumps (fs_code demo_jump_fs) p [p].
Proof.
  intros Hp. assert (Hi : ins_in (fs_code demo_jump_fs) p = Some demo_jump) by (destruct Hp as [->| ->]; reflexivity). split.
  - econstructor; [destruct Hp as [->| ->]; discriminate| |constructor]. unfold next_in. rewrite Hi. reflexivity.
  - intros q i ->%list_elem_of_singleton Hq. rewrite Hi in Hq. injection Hq as <-.
    repeat split; vm_compute; congruence.
Qed.

Definition demo_here : M Z := jmp_tohere 2 ;;; bcemit_INS (BCINS_AD BC_RET0 0 1).
Definition demo_patch : M unit := jmp_patch 2 0.

Lemma jumps_to_here_witness : exists pc s' f', demo_here demo_jump_state = Some (inr (pc, s')) /\
  cur_fs s' = Some f' /\ landed [0; 2] (fs_code demo_jump_fs) (BCINS_AD BC_RET0 0 1) pc f'.
Proof.
  assert (H : gwp demo_here demo_jump_state (λ pc s', exists f', cur_fs s' = Some f' /\
    landed [0; 2] (fs_code demo_jump_fs) (BCINS_AD BC_RET0 0 1) pc f')).
  { apply (jumps_to_here (BCINS_AD BC_RET0 0 1) 2 demo_jump_state demo_jump_fs [0] [2]).
    - reflexivity.
    - apply demo_reports.
    - vm_compute; congruence.
    - apply demo_jumps. by left.
    - apply demo_jumps. by right.
    - intros p ->%list_elem_of_singleton. by intros H%list_elem_of_singleton. }
  assert (Hok : gok (demo_here demo_jump_state) = true) by (vm_compute; reflexivity).
  destruct (gwp_ok _ _ _ H Hok) as (pc & s' & E & f' & H1 & H2). exists pc, s', f'. exact (conj E (conj H1 H2)).
Defined.

Lemma jmp_patch_resolves_witness : exists s' code', demo_patch demo_jump_state = Some (inr (tt, s')) /\
  s' = with_fs demo_jump_state (fset_code demo_jump_fs code') /\ resolved [2] 0 (fs_code demo_jump_fs) code'.
Proof.
  assert (H : gwp demo_patch demo_jump_state (λ _ s', exists code', s' = with_fs demo_jump_state (fset_code demo_jump_fs code') /\
    resolved [2] 0 (fs_code demo_jump_fs) code')).
  { apply (jmp_patch_resolves 2 0 demo_jump_state demo_jump_fs [2]).
    - reflexivity.
    - apply demo_reports.
    - vm_compute; congruence.
    - apply demo_jumps. by right.
    - unfold pos. lia.
    - vm_compute; congruence. }
  assert (Hok : gok (demo_patch demo_jump_state) = true) by (vm_compute; reflexivity).
  destruct (gwp_ok _ _ _ H Hok) as ([] & s' & E & code' & H1 & H2). exists s', code'. exact (conj E (conj H1 H2)).
Defined.

Lemma jmp_patchins_range_witness : exists e, jmp_patchins 0 40000 demo_jump_state = Some (inl (PErr e)) /\ e_msg e = KP_ERR_XJUMP.
Proof.
  destruct (jmp_patchins_range 0 40000 demo_jump_state demo_jump_fs demo_jump eq_refl demo_reports eq_refl
    ltac:(vm_compute; intuition congruence) ltac:(unfold pos; lia) ltac:(unfold pos; lia)) as [[H _]|[_ H]]; [|exact H].
  unfold near in H. lia.
Defined.
