(* ===== verification/ArithGen.v ===== *)
(** * ArithGen: the code of arithmetic expressions

    The calls the parser makes for an expression of numbers, local variables and
    arithmetic operators ([expr_unop] and the loop of [expr_binop]), and what the
    instructions they emit compute.  A register machine that knows only these
    instructions stands between the generator and the interpreter: here the
    generated code is related to the value of the expression, in [ArithRun] the
    machine to the interpreter. *)

From S2P Require Import Prelude Types Bytecode BcWrite Util Lex Gen Parse UtilThm GenConst JumpThm Intern Vm.
#[local] Open Scope word_scope.
#[local] Open Scope gen_scope.
#[local] Coercion bcop_code : BCOp >-> Z.

(** ** Expressions *)

Inductive aexp := ANum (n : Z) | AVar (r : Z) | ANeg (a : aexp) | ABin (o : arith) (a b : aexp).

Definition opr_of (o : arith) : BinOpr :=
  match o with
  | NUMADD => OPR_ADD | NUMSUB => OPR_SUB | NUMMUL => OPR_MUL | NUMDIV => OPR_DIV | NUMMOD => OPR_MOD
  end.

Definition num_desc (n : Z) : ExpDesc := eset_nval (expr_init VKNUM 0) (set_number n).

(** The generator's calls for an expression. *)
Fixpoint gen (a : aexp) : M ExpDesc :=
  match a with
  | ANum n => gret (num_desc n)
  | AVar r => gret (expr_init VLOCAL r)
  | ANeg a => e <~ gen a ;; bcemit_unop BC_UNM e
  | ABin o a b =>
      e1 <~ gen a ;; e1 <~ bcemit_binop_left (opr_of o) e1 ;; e2 <~ gen b ;; bcemit_binop (opr_of o) e1 e2
  end.

(** Numbers in registers. *)
Abbreviation regs := (gmap Z Z).

(** The value of an expression: 64-bit signed words. *)
Fixpoint aeval (rf : regs) (a : aexp) : option Z :=
  match a with
  | ANum n => Some n
  | AVar r => rf !! r
  | ANeg a => x ← aeval rf a; Some (s64 (- x))
  | ABin o a b => x ← aeval rf a; y ← aeval rf b; s64 <$> arith_op o x y
  end.

Fixpoint size (a : aexp) : nat :=
  match a with ANum _ | AVar _ => 1 | ANeg a => S (size a) | ABin _ a b => S (size a + size b) end.

(** The variables are below [n]. *)
Fixpoint vars_below (n : Z) (a : aexp) : Prop :=
  match a with
  | ANum _ => True
  | AVar r => 0 <= r < n
  | ANeg a => vars_below n a
  | ABin _ a b => vars_below n a /\ vars_below n b
  end.

(** The number an operation on numbers is folded to, computed without overflow. *)
Definition cfold (o : arith) (x y : Z) : option Z :=
  match o with
  | NUMADD => Some (x + y)
  | NUMSUB => Some (x - y)
  | NUMMUL => Some (x * y)
  | NUMDIV => if y =? 0 then None else Some (Z.quot x y)
  | NUMMOD => None
  end.

(** The number a constant expression is folded to. *)
Fixpoint const_val (a : aexp) : option Z :=
  match a with
  | ANum n => Some n
  | AVar _ => None
  | ANeg a => n ← const_val a; if n =? 0 then None else Some (- n)
  | ABin o a b =>
      x ← const_val a; y ← const_val b; cfold o x y
  end.

(** Literals fit a word, and folding does not overflow, which would be undefined
    in the compiler. *)
Fixpoint fold_ok (a : aexp) : Prop :=
  (forall n, const_val a = Some n -> in_s 64 n) /\
  match a with
  | ANum _ | AVar _ => True
  | ANeg a => fold_ok a
  | ABin _ a b => fold_ok a /\ fold_ok b
  end.

Lemma fold_ok_val a n : fold_ok a -> const_val a = Some n -> in_s 64 n.
Proof. intros H. destruct a; apply H. Qed.

Lemma aeval_agree rf rf' n a : vars_below n a -> (forall r, r < n -> rf' !! r = rf !! r) -> aeval rf' a = aeval rf a.
Proof.
  intros Hv H. induction a as [| |a IH|o a IHa b IHb]; cbn in *; [done|apply H; lia|by rewrite IH|].
  destruct Hv. by rewrite IHa, IHb.
Qed.

Lemma in_s_range n : in_s 64 n <-> - 2 ^ 63 <= n < 2 ^ 63.
Proof. done. Qed.
Lemma s64_id n : in_s 64 n -> s64 n = n.
Proof. apply swrap_id. lia. Qed.
Lemma set_number_s64 n : set_number (s64 n) = set_number n.
Proof. unfold set_number. rewrite s64_id; [done|]. apply swrap_range. lia. Qed.
Lemma nvalue_set n : in_s 64 n -> nvalue (set_number n) = n.
Proof. apply s64_id. Qed.

(** Values are words. *)
Lemma aeval_range rf a v : (forall r x, rf !! r = Some x -> in_s 64 x) -> fold_ok a -> aeval rf a = Some v -> in_s 64 v.
Proof.
  intros Hr HF. destruct a as [n|r|a|o a b]; cbn.
  - intros [= <-]. apply HF. done.
  - apply Hr.
  - intros (x & _ & [= <-])%bind_Some. apply swrap_range. lia.
  - intros (x & _ & (y & _ & (z & _ & ->)%fmap_Some)%bind_Some)%bind_Some. apply swrap_range. lia.
Qed.

(** Folding computes the value. *)
Lemma cfold_op o x y v : cfold o x y = Some v -> in_s 64 v -> s64 <$> arith_op o x y = Some v.
Proof.
  intros H Hr. destruct o; cbn [arith_op cfold] in *; simplify_eq; try (cbn; by rewrite s64_id).
  destruct (y =? 0) eqn:Ey; [done|]. injection H as <-. cbn [orb].
  destruct ((x =? - 2 ^ 63) && (y =? -1)) eqn:E; [|cbn; by rewrite s64_id].
  apply andb_true_iff in E as [->%Z.eqb_eq ->%Z.eqb_eq]. exfalso. revert Hr. vm_compute. intros [_ H]. congruence.
Qed.
Lemma const_val_eval rf a n : fold_ok a -> const_val a = Some n -> aeval rf a = Some n.
Proof.
  revert n. induction a as [m|r|a IH|o a IHa b IHb]; intros n HF Hc; cbn in *.
  - done.
  - done.
  - destruct HF as [Hn HF]. apply bind_Some in Hc as (x & Hx & Hc). rewrite (IH x) by done. cbn.
    destruct (x =? 0) eqn:E; [done|]. injection Hc as <-. f_equal. apply s64_id, Hn. rewrite Hx. cbn. by rewrite E.
  - destruct HF as [Hn [HFa HFb]]. pose proof (Hn n Hc) as Hr.
    apply bind_Some in Hc as (x & Hx & (y & Hy & Hc)%bind_Some). rewrite (IHa x), (IHb y) by done. cbn.
    by apply cfold_op.
Qed.

(** ** A register machine *)

Inductive shape := VN | NV | VV.

Definition arith_ins (op : BCOp) : option (shape * arith) :=
  match op with
  | BC_ADDVN => Some (VN, NUMADD) | BC_SUBVN => Some (VN, NUMSUB) | BC_MULVN => Some (VN, NUMMUL)
  | BC_DIVVN => Some (VN, NUMDIV) | BC_MODVN => Some (VN, NUMMOD)
  | BC_ADDNV => Some (NV, NUMADD) | BC_SUBNV => Some (NV, NUMSUB) | BC_MULNV => Some (NV, NUMMUL)
  | BC_DIVNV => Some (NV, NUMDIV) | BC_MODNV => Some (NV, NUMMOD)
  | BC_ADDVV => Some (VV, NUMADD) | BC_SUBVV => Some (VV, NUMSUB) | BC_MULVV => Some (VV, NUMMUL)
  | BC_DIVVV => Some (VV, NUMDIV) | BC_MODVV => Some (VV, NUMMOD)
  | _ => None
  end.

(** The operands of an arithmetic instruction. *)
Definition operands (K : Z -> option Z) (sh : shape) (i : Z) (rf : regs) : option (Z * Z) :=
  match sh with
  | VN => x ← rf !! bc_b i; y ← K (bc_c i); Some (x, y)
  | NV => y ← rf !! bc_b i; x ← K (bc_c i); Some (x, y)
  | VV => x ← rf !! bc_b i; y ← rf !! bc_c i; Some (x, y)
  end.

(** The number an instruction puts into register A. *)
Definition ival (K : Z -> option Z) (i : Z) (rf : regs) : option Z :=
  op ← bcop_of_code (bc_op i);
  match op with
  | BC_KSHORT => Some (s64 (bc_d i))
  | BC_KNUM => K (bc_d i)
  | BC_MOV => rf !! bc_d i
  | BC_UNM => x ← rf !! bc_d i; Some (s64 (- x))
  | _ => '(sh, o) ← arith_ins op; '(x, y) ← operands K sh i rf; s64 <$> arith_op o x y
  end.

Definition istep (K : Z -> option Z) (i : Z) (rf : regs) : option regs := v ← ival K i rf; Some (<[bc_a i := v]> rf).
Fixpoint iexec (K : Z -> option Z) (il : list Z) (rf : regs) : option regs :=
  match il with [] => Some rf | i :: il => rf ← istep K i rf; iexec K il rf end.

Lemma iexec_app K il jl rf : iexec K (il ++ jl) rf = rf ← iexec K il rf; iexec K jl rf.
Proof. revert rf. induction il as [|i il IH]; intros rf; cbn; [done|]. destruct (istep K i rf); cbn; [apply IH|done]. Qed.
Lemma iexec_snoc K il i rf rf1 v : iexec K il rf = Some rf1 -> ival K i rf1 = Some v ->
  iexec K (il ++ [i]) rf = Some (<[bc_a i := v]> rf1).
Proof. intros H Hv. rewrite iexec_app, H. cbn. unfold istep. by rewrite Hv. Qed.

Lemma setbc_a_fields i r : in_u 32 i -> 0 <= r < 256 ->
  in_u 32 (setbc_a i r) /\ bc_op (setbc_a i r) = bc_op i /\ bc_a (setbc_a i r) = r /\
  bc_b (setbc_a i r) = bc_b i /\ bc_c (setbc_a i r) = bc_c i /\ bc_d (setbc_a i r) = bc_d i.
Proof.
  intros Hi Hr. destruct (setbc_byte_fields i r 1 Hi) as [Hq E]. change (setbc_byte i r 1) with (setbc_a i r) in *.
  injection E as E1 E2 E3 E4. rewrite wrap_id in E2 by (unfold in_u; lia).
  rewrite (bc_d_bytes (setbc_a i r)), (bc_d_bytes i) by done. split_and!; congruence.
Qed.
Lemma ival_setbc_a K i r rf : in_u 32 i -> 0 <= r < 256 -> ival K (setbc_a i r) rf = ival K i rf.
Proof.
  intros Hi Hr. destruct (setbc_a_fields i r Hi Hr) as (_ & E1 & _ & E2 & E3 & E4).
  unfold ival, operands. by rewrite E1, E2, E3, E4.
Qed.

(** ** States of the generator *)

(** No jump is pending, the registers are in order, and there is room for [n]
    more constants. *)
Record gstate (s : pstate) (f : FuncState) (n : nat) : Prop := {
  gs_k : kstate s f;
  gs_room : kroom s f n;
  gs_kn : fs_nkn f + Z.of_nat n <= 2 ^ 16;
  gs_rep : reports s;
  gs_jpc : fs_jpc f = NO_JMP;
  gs_act : 0 <= fs_nactvar f <= fs_freereg f;
  gs_regs : fs_freereg f <= fs_framesize f < KP_MAX_SLOTS;
  gs_frame : 0 < fs_framesize f
}.

Lemma gstate_fs s f n : gstate s f n -> cur_fs s = Some f.
Proof. intros [[H _]]. done. Qed.
Lemma gstate_less s f n m : gstate s f n -> (m <= n)%nat -> gstate s f m.
Proof. intros [] ?. split; try done; [|lia]. unfold kroom in *. lia. Qed.

(** From [s] to [s'] instructions [cs] were added, and [d] registers taken. *)
Record step (s : pstate) (f : FuncState) (s' : pstate) (f' : FuncState) (cs : list (Z * Z)) (d : Z) : Prop := {
  st_code : fs_code f' = fs_code f ++ cs;
  st_act : fs_nactvar f' = fs_nactvar f;
  st_reg : fs_freereg f' = fs_freereg f + d;
  st_frame : fs_framesize f <= fs_framesize f';
  st_slots : forall c v, slot (kt_of s) c v -> slot (kt_of s') c v;
  st_in : Forall (λ il, 0 <= bc_a (fst il) < fs_framesize f') cs
}.

Lemma step_refl s f : step s f s f [] 0.
Proof. split; try done; [by rewrite app_nil_r|lia]. Qed.
Lemma step_trans s f s1 f1 s2 f2 cs cs' d d' e : step s f s1 f1 cs d -> step s1 f1 s2 f2 cs' d' -> e = d + d' ->
  step s f s2 f2 (cs ++ cs') e.
Proof.
  intros [C A R F S I] [C' A' R' F' S' I'] ->. split; [by rewrite C', C, app_assoc|congruence|lia|lia|eauto|].
  apply Forall_app. split; [|done]. eapply Forall_impl; [|exact I]. cbv beta. lia.
Qed.
Lemma step_trans_nil s f s1 f1 s2 f2 cs d d' e : step s f s1 f1 cs d -> step s1 f1 s2 f2 [] d' -> e = d + d' ->
  step s f s2 f2 cs e.
Proof. intros H H' E. rewrite <- (app_nil_r cs). by eapply step_trans. Qed.

(** Changing only the current function, and neither its constants nor its jumps. *)
Lemma gstate_emitted s s' f f' n : gstate s f n -> emitted s s' f' ->
  fs_nkn f' = fs_nkn f -> fs_nkgc f' = fs_nkgc f -> fs_jpc f' = fs_jpc f ->
  0 <= fs_nactvar f' <= fs_freereg f' -> fs_freereg f' <= fs_framesize f' < KP_MAX_SLOTS -> 0 < fs_framesize f' -> gstate s' f' n.
Proof.
  intros [[Hf I] (R1 & R2) Hk Hr Hj Ha Hg Hfr] (m & ->) E1 E2 E3 Ha' Hg' Hfr'. split.
  - split; [done|]. rewrite E1, E2. done.
  - unfold kroom. rewrite E1, E2. done.
  - by rewrite E1.
  - by apply (reports_same s).
  - congruence.
  - done.
  - done.
  - done.
Qed.

Lemma emit_step ins s f n (Φ : Z -> pstate -> Prop) : gstate s f n -> 0 <= bc_a ins < fs_framesize f ->
  (forall s' f' line, gstate s' f' n -> step s f s' f' [(ins, line)] 0 -> Φ (fs_pc f) s') -> gwp (bcemit_INS ins) s Φ.
Proof.
  intros G Ha H. eapply gwp_emit_plain; [by eapply gstate_fs|apply G|]. intros s' E. eapply H.
  - eapply gstate_emitted; [done..| | |]; apply G.
  - destruct E as (m & ->). split; try done; [cbn; lia|]. by apply Forall_singleton.
Qed.

Lemma modfs_step g s f n d (Φ : unit -> pstate -> Prop) : gstate s f n -> let f' := g f in
  fs_nkn f' = fs_nkn f -> fs_nkgc f' = fs_nkgc f -> fs_jpc f' = fs_jpc f -> fs_code f' = fs_code f ->
  fs_nactvar f' = fs_nactvar f -> fs_freereg f' = fs_freereg f + d -> fs_framesize f <= fs_framesize f' ->
  fs_nactvar f <= fs_freereg f' <= fs_framesize f' -> fs_framesize f' < KP_MAX_SLOTS ->
  (forall s' , gstate s' f' n -> step s f s' f' [] d -> Φ tt s') -> gwp (modfs g) s Φ.
Proof.
  intros G f' E1 E2 E3 E4 E5 E6 E7 E8 E9 H. eapply gwp_modfs; [by eapply gstate_fs|]. apply H.
  - eapply gstate_emitted; [done|exists (p_sizebcstack s); by destruct s|done..| |lia|]; destruct G; lia.
  - split; try done. by rewrite app_nil_r.
Qed.

Lemma reserve_step s f n (Φ : unit -> pstate -> Prop) : gstate s f n ->
  (forall s' f', gstate s' f' n -> step s f s' f' [] 1 -> Φ tt s') -> gwp (bcreg_reserve 1) s Φ.
Proof.
  intros G H. pose proof (gs_act _ _ _ G) as Ha. pose proof (gs_regs _ _ _ G) as Hg. unfold KP_MAX_SLOTS in Hg.
  assert (E32 : u32 (fs_freereg f + 1) = fs_freereg f + 1) by (apply wrap_id; unfold in_u; lia).
  unfold bcreg_reserve, bcreg_bump. apply gwp_bind, gwp_bind, (gwp_getfs s f); [by eapply gstate_fs|]. cbv zeta. rewrite E32.
  destruct (Z.gtb_spec (fs_freereg f + 1) (fs_framesize f)) as [Hgt|Hle].
  - apply gwp_bind. destruct (Z.geb_spec (fs_freereg f + 1) KP_MAX_SLOTS) as [Hge|Hlt]; [apply gwp_report, G|].
    apply gwp_ret. unfold KP_MAX_SLOTS in Hlt.
    assert (E8 : u8 (fs_freereg f + 1) = fs_freereg f + 1) by (apply wrap_id; unfold in_u; lia).
    eapply (modfs_step _ _ _ _ 0); [done|cbn; rewrite ?E8; unfold KP_MAX_SLOTS; try done; lia..|].
    intros s1 G1 S1. eapply (modfs_step _ _ _ _ 1); [done|cbn; rewrite ?E32, ?E8; unfold KP_MAX_SLOTS; try done; lia..|].
    intros s2 G2 S2. eapply H; [done|]. by eapply step_trans_nil.
  - apply gwp_ret. eapply (modfs_step _ _ _ _ 1); [done|cbn; rewrite ?E32; unfold KP_MAX_SLOTS; try done; lia..|].
    intros s1 G1 S1. by eapply H.
Qed.

Lemma pop_step s f n (Φ : unit -> pstate -> Prop) : gstate s f n -> fs_nactvar f < fs_freereg f ->
  (forall s' f', gstate s' f' n -> step s f s' f' [] (-1) -> Φ tt s') -> gwp pop_reg s Φ.
Proof.
  intros G Hlt H. pose proof (gs_act _ _ _ G) as Ha. pose proof (gs_regs _ _ _ G) as Hg. unfold KP_MAX_SLOTS in Hg.
  assert (E32 : u32 (fs_freereg f - 1) = fs_freereg f - 1) by (apply wrap_id; unfold in_u; lia).
  eapply (modfs_step _ _ _ _ (-1)); [done|cbn; rewrite ?E32; unfold KP_MAX_SLOTS; try done; lia..|].
  intros s1 G1 S1. by eapply H.
Qed.

Lemma const_slot_again key n s nkn nkgc c : kinv (kt_of s) nkn nkgc -> const_key key -> slot (kt_of s) c key -> in_u 32 c ->
  const_slot key n s = Some (inr ((c, false), s)).
Proof.
  intros I Hk (i & nd & Hi & Ekey & Hv & <-) Hc. unfold const_slot, Util.kp_tab_set. change (l_kt (p_ls s)) with (kt_of s).
  destruct (get_node (kt_of s) key) as [j|] eqn:Hg.
  - destruct (get_node_Some _ _ _ Hk Hg) as (nd' & Hj & Ekey'). cbn [mbind option_bind]. rewrite Hj.
    assert (j = i) as ->. { eapply (ki_uniq _ _ _ I); [done..|by rewrite Ekey'|congruence]. }
    assert (nd' = nd) as -> by congruence. cbn. rewrite Hv. cbn. rewrite wrap_id by done. do 3 f_equal.
    unfold kt_of. by destruct s as [[] ? ? ? ? ? ? ? ?].
  - exfalso. by apply (get_node_None _ _ nd Hk Hg); [eapply list_elem_of_lookup_2|].
Qed.

(** The constant has a slot, or there is room for it besides [n] others. *)
Definition spare (s : pstate) (f : FuncState) (n : nat) (key : ktap_val) : Prop :=
  gstate s f n /\ ((exists c, slot (kt_of s) c key) \/ gstate s f (S n)).

Lemma number_const k : const_key (set_number k).
Proof. by left. Qed.

Lemma const_step e k s f n (Φ : Z -> pstate -> Prop) : e_nval e = set_number k -> spare s f n (set_number k) ->
  (forall c s' f', gstate s' f' n -> step s f s' f' [] 0 -> slot (kt_of s') c (set_number k) -> 0 <= c < 2 ^ 16 -> Φ c s') ->
  gwp (const_num e) s Φ.
Proof.
  intros Ee [G [[c Hc]|G1]] H.
  - destruct (gs_k _ _ _ G) as [Hf I]. pose proof (sl_range _ _ _ (ki_num _ _ _ I) _ _ Hc eq_refl) as Hr.
    pose proof (gs_kn _ _ _ G) as Hn. unfold const_num. apply gwp_bind, (gwp_getfs s f); [done|]. apply gwp_bind.
    unfold gwp at 1. rewrite Ee, (const_slot_again _ _ s _ _ c I (number_const k) Hc) by (unfold in_u; lia).
    cbn [fst snd]. apply gwp_bind, gwp_ret, gwp_ret. eapply H; [done|apply step_refl|done|lia].
  - assert (Ec : const_num e = const_of (set_number k)) by (unfold const_of, const_num; cbn; by rewrite Ee).
    rewrite Ec. pose proof G1 as [[Hf I] (R1 & R2 & R3 & R4 & R5) Hn Hr Hj Ha Hg Hfr]. eapply gwp_mono.
    { eapply const_of_spec; [done|apply number_const|right; lia|lia|lia]. }
    cbv beta. intros c s' (nkn & nkgc & kt' & -> & [Hf' I'] & [A1 A2 A3] & N1 & N2).
    eapply (H c _ (with_counts f nkn nkgc)).
    + split; [done| |cbn; lia| |done..].
      * unfold kroom. cbn. lia.
      * by apply (reports_same s).
    + split; try done; [by rewrite app_nil_r|cbn; lia].
    + done.
    + pose proof (sl_range _ _ _ (ki_num _ _ _ I') _ _ A1 eq_refl) as Hr'. cbn in Hr'. lia.
Qed.

(** ** Expression descriptors *)

(** The constants of the machine are those of the table. *)
Definition knows (K : Z -> option Z) (kt : uttab) : Prop := forall c n, slot kt c (set_number n) -> in_s 64 n -> K c = Some n.

Lemma knows_less K s f s' f' cs d : knows K (kt_of s') -> step s f s' f' cs d -> knows K (kt_of s).
Proof. intros H [_ _ _ _ S] c n Hs. by apply H, S. Qed.

Definition agree (lo : Z) (rf rf' : regs) : Prop := forall r, r < lo -> rf' !! r = rf !! r.

(** Whenever [ev] has a value [v], code [cs] runs, leaves the registers below [lo]
    alone, and brings the machine where [Q] holds of [v]. *)
Definition leads kt (lo : Z) (cs : list (Z * Z)) (ev : regs -> option Z) (Q : (Z -> option Z) -> regs -> Z -> Prop) : Prop :=
  forall K rf v, knows K kt -> ev rf = Some v -> exists rf1, iexec K cs.*1 rf = Some rf1 /\ agree lo rf rf1 /\ Q K rf1 v.

Definition in_reg (r : Z) (K : Z -> option Z) (rf : regs) (v : Z) : Prop := rf !! r = Some v.
Definition by_ins (i : Z) (K : Z -> option Z) (rf : regs) (v : Z) : Prop := ival K i rf = Some v.

(** What a descriptor means, for code generated between [s] and [s1]: a number, a
    register that holds the value, or a last instruction that computes it. *)
Inductive place (s : pstate) (f : FuncState) (s1 : pstate) (f1 : FuncState) (ev : regs -> option Z) (e : ExpDesc) : Prop :=
  | p_num n : e_k e = VKNUM -> step s f s1 f1 [] 0 -> e_nval e = set_number n -> in_s 64 n ->
      (forall rf v, ev rf = Some v -> v = n) -> place s f s1 f1 ev e
  | p_reg cs d : e_k e = VNONRELOC \/ e_k e = VLOCAL /\ d = 0 -> step s f s1 f1 cs d ->
      d = 0 /\ 0 <= e_info e < fs_nactvar f \/ d = 1 /\ e_info e = fs_freereg f ->
      leads (kt_of s1) (fs_freereg f) cs ev (in_reg (e_info e)) -> place s f s1 f1 ev e
  | p_reloc cs i line : e_k e = VRELOCABLE -> step s f s1 f1 (cs ++ [(i, line)]) 0 -> e_info e = fs_pc f1 - 1 -> in_u 32 i ->
      leads (kt_of s1) (fs_freereg f) cs ev (by_ins i) -> place s f s1 f1 ev e.

Definition nojump (e : ExpDesc) : Prop := e_t e = NO_JMP /\ e_f e = NO_JMP.
Lemma nojump_hasjump e : nojump e -> expr_hasjump e = false.
Proof. intros [E1 E2]. unfold expr_hasjump. rewrite E1, E2. done. Qed.

(** The value is in a register of its own or in that of a variable. *)
Definition settled s f s1 f1 ev e : Prop := place s f s1 f1 ev e /\ nojump e /\ e_k e = VNONRELOC.

Lemma leads_snoc kt lo cs ev i line r : bc_a i = r -> lo <= r -> leads kt lo cs ev (by_ins i) ->
  leads kt lo (cs ++ [(i, line)]) ev (in_reg r).
Proof.
  intros Ea Hr H K rf v HK Hv. destruct (H K rf v HK Hv) as (rf1 & E & A & Hi). exists (<[r := v]> rf1). split_and!.
  - rewrite fmap_app. cbn. rewrite <- Ea. by apply iexec_snoc.
  - intros q Hq. rewrite lookup_insert_ne by lia. by apply A.
  - apply lookup_insert_eq.
Qed.
Lemma leads_keep kt kt' lo cs ev Q : (forall K, knows K kt' -> knows K kt) -> leads kt lo cs ev Q -> leads kt' lo cs ev Q.
Proof. intros HK H K rf v Hk. apply H, HK, Hk. Qed.
Lemma leads_mono kt lo cs ev (Q Q' : (Z -> option Z) -> regs -> Z -> Prop) :
  (forall K rf v, knows K kt -> Q K rf v -> Q' K rf v) -> leads kt lo cs ev Q -> leads kt lo cs ev Q'.
Proof. intros HQ H K rf v HK Hv. destruct (H K rf v HK Hv) as (rf1 & E & A & Hi). exists rf1. eauto. Qed.

(** Later constants do not matter. *)
Lemma place_later s f s1 f1 s2 f2 ev e : place s f s1 f1 ev e -> step s1 f1 s2 f2 [] 0 -> place s f s2 f2 ev e.
Proof.
  intros P S. assert (HK : forall K, knows K (kt_of s2) -> knows K (kt_of s1)) by (intros K HK; by eapply knows_less).
  assert (E : fs_pc f2 = fs_pc f1) by (unfold fs_pc; by rewrite (st_code _ _ _ _ _ _ S), app_nil_r).
  destruct P as [n Hk S1 En Hn Hv|cs d Hk S1 Hd L|cs i line Hk S1 Hi Hu L].
  - eapply (p_num _ _ _ _ _ _ n); try done. by eapply step_trans_nil.
  - eapply (p_reg _ _ _ _ _ _ cs d); try done; [eapply step_trans_nil; [done..|lia]|by eapply leads_keep].
  - eapply (p_reloc _ _ _ _ _ _ cs i line); try done; [by eapply step_trans_nil|by rewrite E|by eapply leads_keep].
Qed.

Definition discharged (e : ExpDesc) : ExpDesc := if is_k e VLOCAL then eset_k e VNONRELOC else e.

Lemma discharge_place s f s1 f1 ev e : place s f s1 f1 ev e -> nojump e ->
  expr_discharge e = gret (discharged e) /\ place s f s1 f1 ev (discharged e) /\ nojump (discharged e) /\
  (e_k e = VKNUM <-> e_k (discharged e) = VKNUM) /\ e_k (discharged e) <> VLOCAL /\ e_nval (discharged e) = e_nval e.
Proof.
  intros P J. unfold expr_discharge, discharged, is_k.
  destruct P as [n Hk S1 En Hn Hv|cs d Hk S1 Hd L|cs i line Hk S1 Hi Hu L]; [|destruct Hk as [Hk|[Hk ->]]|];
    rewrite Hk; case_bool_decide; try done; (split_and!; [done| |done|by rewrite ?Hk|by rewrite ?Hk|done]).
  - by eapply p_num.
  - eapply p_reg; try done. by left.
  - eapply p_reg; try done. by left.
  - by eapply p_reloc.
Qed.

(** ** Loading into registers *)

(** The value is in the first register that was free at [s]. *)
Definition loaded s f s1 n ev (e : ExpDesc) (s2 : pstate) : Prop := exists f2, gstate s2 f2 n /\ settled s f s2 f2 ev e /\
  e_info e = fs_freereg f /\ fs_freereg f2 = fs_freereg f + 1 /\ forall c v, slot (kt_of s1) c v -> slot (kt_of s2) c v.

(** The register that was just taken is in the frame. *)
Lemma new_reg s f s1 f1 n cs r : 0 <= fs_freereg f -> gstate s1 f1 n -> step s f s1 f1 cs 1 -> r = fs_freereg f -> 0 <= r < fs_framesize f1.
Proof. intros H0 G S ->. pose proof (st_reg _ _ _ _ _ _ S). pose proof (gs_regs _ _ _ G). lia. Qed.

(** An instruction that computes the value of [ev] into the register that was
    just taken. *)
Lemma load_spec s f s0 s1 f1 n ev cs ins e : gstate s1 f1 n -> step s f s1 f1 cs 1 -> bc_a ins = fs_freereg f ->
  leads (kt_of s1) (fs_freereg f) cs ev (by_ins ins) -> nojump e -> 0 <= fs_freereg f ->
  (forall c v, slot (kt_of s0) c v -> slot (kt_of s1) c v) ->
  gwp (bcemit_INS ins ;;; gret (eset e VNONRELOC (fs_freereg f))) s1 (loaded s f s0 n ev).
Proof.
  intros G S Ea L J H0 Hs. apply gwp_bind. eapply emit_step; [done|by eapply new_reg|]. intros s2 f2 line G2 S2. apply gwp_ret.
  pose proof (step_trans _ _ _ _ _ _ _ _ _ _ 1 S S2 eq_refl) as S'. exists f2. split_and!; [done| |done|apply S'|].
  - split; [|done]. eapply (p_reg _ _ _ _ _ _ (cs ++ [(ins, line)]) 1); [by left|done|by right|].
    apply leads_snoc; [done|cbn; lia|]. eapply leads_keep; [|done]. intros K HK. by eapply knows_less.
  - intros c v Hc. by apply S2, Hs.
Qed.

Lemma code_last f cs i line : fs_code f = cs ++ [(i, line)] -> ins_in (fs_code f) (fs_pc f - 1) = Some i.
Proof.
  intros E. unfold ins_in, fs_pc. rewrite E, length_app. cbn [length]. rewrite (proj2 (Z.leb_le _ _)) by lia.
  replace (Z.to_nat (Z.of_nat (length cs + 1) - 1)) with (length cs) by lia.
  by rewrite lookup_app_r, Nat.sub_diag by done.
Qed.
Lemma set_code_last f cs i line j : fs_code f = cs ++ [(i, line)] -> set_ins (fs_code f) (fs_pc f - 1) j = cs ++ [(j, line)].
Proof.
  intros E. unfold set_ins, fs_pc. rewrite E, length_app. cbn [length].
  replace (Z.to_nat (Z.of_nat (length cs + 1) - 1)) with (length cs + 0)%nat by lia. by rewrite alter_app_r.
Qed.

(** The last instruction gets its register. *)
Lemma reloc_spec s f s0 s1 f1 n ev cs i line e : gstate s1 f1 n -> step s f s1 f1 (cs ++ [(i, line)]) 1 -> in_u 32 i ->
  leads (kt_of s1) (fs_freereg f) cs ev (by_ins i) -> nojump e -> e_info e = fs_pc f1 - 1 ->
  0 <= fs_freereg f < 256 -> (forall c v, slot (kt_of s0) c v -> slot (kt_of s1) c v) ->
  gwp (j <~ ins_at (e_info e) ;; put_ins (e_info e) (setbc_a j (fs_freereg f)) ;;; gret (eset e VNONRELOC (fs_freereg f))) s1
    (loaded s f s0 n ev).
Proof.
  intros G S Hu L J Ei Hr Hs. pose proof (gstate_fs _ _ _ G) as Hf. set (r := fs_freereg f) in *.
  pose proof (st_code _ _ _ _ _ _ S) as Ec. rewrite app_assoc in Ec. pose proof (code_last _ _ _ _ Ec) as El.
  apply gwp_bind. eapply gwp_ins_at; [done|by rewrite Ei|]. apply gwp_bind. eapply gwp_put_ins; [done|by rewrite Ei|].
  rewrite Ei, (set_code_last _ _ _ _ _ Ec). apply gwp_ret. destruct (setbc_a_fields i r Hu Hr) as (U & _ & Ea & _).
  set (f2 := fset_code f1 _). exists f2.
  pose proof (new_reg _ _ _ _ _ _ r (proj1 Hr) G S eq_refl) as Hin.
  assert (S' : step s f (with_fs s1 f2) f2 (cs ++ [(setbc_a i r, line)]) 1).
  { destruct S as [C A R F Sl I]. split; try done; [cbn; by rewrite app_assoc|]. apply Forall_app in I as [I _].
    apply Forall_app. split; [done|]. apply Forall_singleton. cbn [fst]. by rewrite Ea. }
  split_and!; [| |done|apply S'|done].
  - eapply gstate_emitted; [done|exists (p_sizebcstack s1); by destruct s1|done..|apply G|apply G|apply G].
  - split; [|done]. eapply (p_reg _ _ _ _ _ _ _ 1); [by left|exact S'|by right|].
    apply leads_snoc; [done|cbn; lia|]. eapply leads_mono; [|done]. intros K rf v _. unfold by_ins. by rewrite ival_setbc_a.
Qed.

(** With room for [N] constants, the constant of [e] and [n] others fit. *)
Definition enough (s : pstate) (n N : nat) (e : ExpDesc) : Prop :=
  (n <= N)%nat /\ (e_k e = VKNUM -> (exists c, slot (kt_of s) c (e_nval e)) \/ (n < N)%nat).

Lemma enough_later s f s' f' cs d n N e : enough s n N e -> step s f s' f' cs d -> enough s' n N e.
Proof. intros [H1 H2] S. split; [done|]. intros Hk. destruct (H2 Hk) as [[c Hc]|?]; [left; exists c; by apply S|by right]. Qed.
Lemma enough_spare s f n N e k : gstate s f N -> enough s n N e -> e_k e = VKNUM -> e_nval e = set_number k -> spare s f n (set_number k).
Proof.
  intros G [H1 H2] Hk E. split; [by eapply gstate_less|]. rewrite <- E. destruct (H2 Hk) as [?|?]; [by left|].
  right. eapply gstate_less; [done|lia].
Qed.

Lemma loaded_less s f s1 n N ev e s2 : loaded s f s1 N ev e s2 -> (n <= N)%nat -> loaded s f s1 n ev e s2.
Proof. intros (f2 & G & H) Hn. exists f2. split; [by eapply gstate_less|done]. Qed.

Lemma bcop_byte (o : BCOp) : is_byte o.
Proof. unfold is_byte. by destruct o. Qed.
Lemma AD_fields o a d : is_byte a -> 0 <= d <= BCMAX_D -> let i := BCINS_AD (bcop_code o) a d in
  in_u 32 i /\ bc_a i = a /\ bc_d i = d /\ bcop_of_code (bc_op i) = Some o.
Proof.
  intros Ha Hd i. destruct (bc_AD_fields o a d (bcop_byte o) Ha Hd) as (U & E1 & E2 & E3). fold i in U, E1, E2, E3.
  split_and!; try done. rewrite E1. apply bcop_of_code_code.
Qed.

Lemma num_load_spec s f s1 f1 n N ev e k : gstate s1 f1 N -> enough s1 n N e -> step s f s1 f1 [] 1 -> e_k e = VKNUM ->
  e_nval e = set_number k -> in_s 64 k -> (forall rf v, ev rf = Some v -> v = k) -> nojump e -> is_byte (fs_freereg f) ->
  gwp (expr_toreg_nobranch e (fs_freereg f)) s1 (loaded s f s1 n ev).
Proof.
  intros G H S Hk E Hr Hv J Hb. assert (H0 : 0 <= fs_freereg f) by apply Hb. unfold expr_toreg_nobranch, expr_discharge. rewrite Hk. apply gwp_bind, gwp_ret. rewrite Hk.
  unfold expr_numberV. rewrite E, nvalue_set by done. destruct (_ && _) eqn:Er.
  - bool_to_Prop. destruct (AD_fields BC_KSHORT (fs_freereg f) k) as (_ & Ea & Ed & Eo); [done|unfold BCMAX_D; lia|].
    rewrite (wrap_id 16 k) by (unfold in_u; lia). eapply gwp_mono; [|intros ? ? HL; eapply loaded_less; [exact HL|apply H]].
    eapply load_spec; try done. intros K rf v _ Hev. exists rf. split_and!; try done.
    unfold by_ins, ival. rewrite Eo. cbn [mbind option_bind]. by rewrite Ed, (Hv _ _ Hev), s64_id.
  - apply gwp_bind. eapply const_step; [done|by eapply enough_spare|]. intros c s2 f2 G2 S2 Hc Hc16.
    destruct (AD_fields BC_KNUM (fs_freereg f) c) as (_ & Ea & Ed & Eo); [done|unfold BCMAX_D; lia|].
    eapply load_spec; [done|by eapply step_trans_nil|done| |done|done|apply S2].
    intros K rf v HK Hev. exists rf. split_and!; try done. unfold by_ins, ival. rewrite Eo. cbn [mbind option_bind].
    rewrite Ed, (Hv _ _ Hev). by apply HK.
Qed.

Definition ordered (f : FuncState) : Prop := 0 <= fs_nactvar f <= fs_freereg f.

Lemma byte_reg s f n r : gstate s f n -> 0 <= r < fs_freereg f -> is_byte r.
Proof. intros [_ _ _ _ _ _ Hg] Hr. unfold is_byte, KP_MAX_SLOTS in *. lia. Qed.

Lemma nobranch_spec s f s0 f0 s1 f1 n N ev e d1 : ordered f -> place s f s0 f0 ev e -> nojump e -> e_k e <> VLOCAL ->
  step s0 f0 s1 f1 [] d1 -> fs_freereg f1 = fs_freereg f + 1 -> gstate s1 f1 N -> enough s1 n N e ->
  gwp (expr_toreg_nobranch e (fs_freereg f)) s1 (loaded s f s1 n ev).
Proof.
  intros Hord P J Hl S01 Er G En. unfold ordered in Hord.
  assert (Hb : is_byte (fs_freereg f)) by (eapply byte_reg; [done|lia]). assert (H0 : 0 <= fs_freereg f) by lia.
  assert (HK : forall K, knows K (kt_of s1) -> knows K (kt_of s0)) by (intros K HK; by eapply knows_less).
  assert (Hm : forall m, gwp m s1 (loaded s f s1 N ev) -> gwp m s1 (loaded s f s1 n ev)).
  { intros m H. eapply gwp_mono; [exact H|]. intros ? ? HL. eapply loaded_less; [exact HL|apply En]. }
  assert (Hstep : forall cs d, step s f s0 f0 cs d -> step s f s1 f1 cs 1).
  { intros cs d S. eapply step_trans_nil; [done..|]. destruct S as [_ _ R _ _], S01 as [_ _ R1 _ _]. lia. }
  destruct P as [k Hk S0 E Hr Hv|cs d Hk S0 Hd L|cs i line Hk S0 Hi Hu L].
  - eapply num_load_spec; try done. by apply Hstep in S0.
  - destruct Hk as [Hk|[Hk _]]; [|done]. apply Hm. pose proof (Hstep _ _ S0) as S.
    apply (leads_keep _ (kt_of s1)) in L; [|done]. unfold expr_toreg_nobranch, expr_discharge. rewrite Hk.
    apply gwp_bind, gwp_ret. rewrite Hk. destruct (Z.eqb_spec (fs_freereg f) (e_info e)) as [E|Hne].
    + apply gwp_ret. exists f1. split_and!; [done| |done|done|done]. split; [|done].
      eapply (p_reg _ _ _ _ _ _ cs 1); [by left|done|by right|]. cbn. by rewrite E at 2.
    + destruct (AD_fields BC_MOV (fs_freereg f) (e_info e)) as (_ & Ea & Ed & Eo); [done|unfold BCMAX_D, is_byte in *; lia|].
      eapply load_spec; try done. eapply leads_mono; [|done]. intros K rf v _. unfold in_reg, by_ins, ival. rewrite Eo.
      cbn [mbind option_bind]. by rewrite Ed.
  - apply Hm. pose proof (Hstep _ _ S0) as S. apply (leads_keep _ (kt_of s1)) in L; [|done].
    unfold expr_toreg_nobranch, expr_discharge. rewrite Hk. apply gwp_bind, gwp_ret. rewrite Hk.
    eapply reloc_spec; try done. rewrite Hi. f_equal. unfold fs_pc. by rewrite (st_code _ _ _ _ _ _ S01), app_nil_r.
Qed.

Lemma toreg_spec s f s0 f0 s1 f1 n N ev e d1 : ordered f -> place s f s0 f0 ev e -> nojump e -> e_k e <> VLOCAL ->
  step s0 f0 s1 f1 [] d1 -> fs_freereg f1 = fs_freereg f + 1 -> gstate s1 f1 N -> enough s1 n N e ->
  gwp (expr_toreg e (fs_freereg f)) s1 (loaded s f s1 n ev).
Proof.
  intros Hord P J Hl S01 Er G En. unfold expr_toreg. apply gwp_bind.
  eapply gwp_mono; [by eapply nobranch_spec|]. cbv beta. intros e' s2 (f2 & G2 & (P2 & J2 & K2) & I2 & R2 & Hs).
  apply gwp_bind. unfold is_k. rewrite K2. apply gwp_ret. apply gwp_bind. rewrite nojump_hasjump by done. apply gwp_ret, gwp_ret.
  exists f2. destruct J2 as [Jt Jf]. replace (mke _ _ _ _ _ _ _) with e'; [done|]. destruct e'. cbn in *. by subst.
Qed.

Lemma free_step e s f n (Φ : unit -> pstate -> Prop) : gstate s f n -> let t := is_k e VNONRELOC && (e_info e >=? fs_nactvar f) in
  (t = true -> fs_nactvar f < fs_freereg f) ->
  (forall s' f', gstate s' f' n -> step s f s' f' [] (if t then -1 else 0) -> Φ tt s') ->
  gwp (expr_free e) s Φ /\ gwp (free_operand e) s Φ.
Proof.
  intros G t Ht H. pose proof (gstate_fs _ _ _ G) as Hf.
  assert (Hp : t = true -> gwp pop_reg s Φ). { intros E. eapply pop_step; [done|auto|]. intros s' f' G' S'. eapply H; [done|]. by rewrite E. }
  assert (Hn : t = false -> Φ tt s). { intros E. eapply H; [done|]. rewrite E. apply step_refl. }
  split.
  - unfold expr_free, bcreg_free. destruct (is_k e VNONRELOC); [|by apply gwp_ret, Hn].
    apply gwp_bind, (gwp_getfs s f); [done|]. destruct (_ >=? _); [by apply Hp|by apply gwp_ret, Hn].
  - unfold free_operand. apply gwp_bind, (gwp_getfs s f); [done|]. fold t. destruct t; [by apply Hp|by apply gwp_ret, Hn].
Qed.

(** A register of its own. *)
Definition temp (f : FuncState) (e : ExpDesc) : bool := is_k e VNONRELOC && (e_info e >=? fs_nactvar f).

Lemma place_temp s f s1 f1 ev e : ordered f -> place s f s1 f1 ev e ->
  fs_nactvar f1 = fs_nactvar f /\ fs_freereg f1 = fs_freereg f + (if temp f1 e then 1 else 0).
Proof.
  intros Hord P. unfold temp, is_k, ordered in *. destruct P as [k Hk S _ _ _|cs d Hk S Hd _|cs i line Hk S _ _ _];
    pose proof (st_act _ _ _ _ _ _ S) as Ea; pose proof (st_reg _ _ _ _ _ _ S) as Er; (split; [done|]).
  - by rewrite Hk.
  - destruct Hk as [Hk|[Hk ->]]; rewrite Hk; [|done]. rewrite bool_decide_true, Ea, Er by done. cbn [andb]. destruct (Z.geb_spec (e_info e) (fs_nactvar f)); lia.
  - by rewrite Hk.
Qed.

Lemma tonextreg_spec s f s1 f1 n N ev e : ordered f -> place s f s1 f1 ev e -> nojump e -> gstate s1 f1 N -> enough s1 n N e ->
  gwp (expr_tonextreg e) s1 (loaded s f s1 n ev).
Proof.
  intros Hord P J G En. destruct (discharge_place _ _ _ _ _ _ P J) as (E & P' & J' & Hkn & Hkl & Env).
  unfold expr_tonextreg. apply gwp_bind. rewrite E. apply gwp_ret. set (e' := discharged e) in *.
  assert (En' : enough s1 n N e') by (destruct En as [H1 H2]; split; [done|]; intros Hk; rewrite Env; apply H2; by apply Hkn).
  destruct (place_temp _ _ _ _ _ _ Hord P') as [Ea Er]. unfold ordered in Hord. apply gwp_bind. eapply proj1, free_step; [done| |].
  { fold (temp f1 e'). intros Ht. rewrite Ht in Er. lia. }
  fold (temp f1 e'). intros s2 f2 G2 S2. apply gwp_bind. eapply reserve_step; [done|]. intros s3 f3 G3 S3.
  apply gwp_bind. eapply gwp_getfs; [by eapply gstate_fs|].
  assert (R3 : fs_freereg f3 = fs_freereg f + 1).
  { rewrite (st_reg _ _ _ _ _ _ S3), (st_reg _ _ _ _ _ _ S2), Er. destruct (temp f1 e'); lia. }
  pose proof (step_trans_nil _ _ _ _ _ _ _ _ _ _ S2 S3 eq_refl) as S13. pose proof (gs_regs _ _ _ G3) as Hg. unfold KP_MAX_SLOTS in Hg.
  replace (u32 (fs_freereg f3 - 1)) with (fs_freereg f) by (rewrite wrap_id; unfold in_u; lia).
  eapply gwp_mono; [eapply toreg_spec; [done..| |done|done|by eapply enough_later]|]; [exact S13|].
  cbv beta. intros e2 s4 (f4 & G4 & Hst & I4 & R4 & Hs). exists f4. split_and!; try done. intros c v Hc. by apply Hs, S13.
Qed.

(** The value is in a register. *)
Definition anyreg s f s1 n ev (e : ExpDesc) (s2 : pstate) : Prop := exists f2, gstate s2 f2 n /\ settled s f s2 f2 ev e /\
  forall c v, slot (kt_of s1) c v -> slot (kt_of s2) c v.

Lemma toanyreg_spec s f s1 f1 n N ev e : ordered f -> place s f s1 f1 ev e -> nojump e -> gstate s1 f1 N -> enough s1 n N e ->
  gwp (expr_toanyreg e) s1 (anyreg s f s1 n ev).
Proof.
  intros Hord P J G En. destruct (discharge_place _ _ _ _ _ _ P J) as (E & P' & J' & Hkn & Hkl & Env).
  unfold expr_toanyreg. apply gwp_bind. rewrite E. apply gwp_ret. set (e' := discharged e) in *.
  apply gwp_bind, (gwp_getfs s1 f1); [by eapply gstate_fs|]. rewrite (nojump_hasjump e') by done.
  unfold is_k. case_bool_decide as Hk; cbn [negb andb].
  - apply gwp_ret. exists f1. split_and!; [eapply gstate_less; [done|apply En]|by split|done].
  - eapply gwp_mono; [eapply (tonextreg_spec s f s1 f1 n N ev e'); try done|].
    + destruct En as [H1 H2]. split; [done|]. intros Hk'. rewrite Env. apply H2. by apply Hkn.
    + cbv beta. intros e2 s4 (f4 & G4 & Hst & _ & _ & Hs). by exists f4.
Qed.

(** ** Operands *)

Lemma gwp_assoc {A B C} (m : M A) (g : A -> M B) (h : B -> M C) s Φ :
  gwp (gbind (gbind m g) h) s Φ -> gwp (gbind m (λ x, gbind (g x) h)) s Φ.
Proof. unfold gwp, gbind. by destruct (m s) as [[|[]]|]. Qed.

(** A constant in slot [c], or a register. *)
Inductive operand s f s1 f1 ev (e : ExpDesc) : option Z -> Prop :=
  | o_num n c : e_k e = VKNUM -> step s f s1 f1 [] 0 -> e_nval e = set_number n -> in_s 64 n ->
      (forall rf v, ev rf = Some v -> v = n) -> slot (kt_of s1) c (set_number n) -> 0 <= c < 256 -> operand s f s1 f1 ev e (Some c)
  | o_reg : settled s f s1 f1 ev e -> operand s f s1 f1 ev e None.

Definition pend (e : ExpDesc) : nat := if is_k e VKNUM then 1 else 0.

Lemma isnumk_k e : expr_isnumk e = is_k e VKNUM.
Proof. done. Qed.
Lemma is_k_true e k : e_k e = k -> is_k e k = true.
Proof. intros E. by apply bool_decide_true. Qed.
Lemma is_k_false e k : e_k e <> k -> is_k e k = false.
Proof. intros E. by apply bool_decide_false. Qed.

(** A number gets a slot if that is wanted and the slot fits the operand, anything
    else a register; [g] builds the result. *)
Lemma const_operand_spec {A} (g : option Z -> ExpDesc -> A) b s f s1 f1 n ev e (Φ : A -> pstate -> Prop) :
  ordered f -> place s f s1 f1 ev e -> nojump e -> gstate s1 f1 (n + pend e) ->
  (forall o e' s2 f2, gstate s2 f2 n -> operand s f s2 f2 ev e' o -> nojump e' -> (b = false -> o = None) ->
     (forall c v, slot (kt_of s1) c v -> slot (kt_of s2) c v) -> Φ (g o e') s2) ->
  gwp (k <~ (if expr_isnumk e && b then c <~ const_num e ;; gret (if c <=? BCMAX_C then Some c else None) else gret None) ;;
       match k with
       | Some c => gret (g (Some c) e)
       | None => e <~ expr_toanyreg e ;; gret (g None e)
       end) s1 Φ.
Proof.
  intros Hord P J G H. rewrite isnumk_k. destruct (is_k e VKNUM && b) eqn:Hb.
  - apply andb_true_iff in Hb as [Hk ->]. unfold pend in G. rewrite Hk, Nat.add_1_r in G. apply bool_decide_eq_true in Hk.
    destruct P as [k _ S E Hr Hv|cs d Hk' S Hd L|cs i line Hk' S Hi Hu L]; [|destruct Hk' as [|[]]; congruence|congruence].
    apply gwp_bind, gwp_bind. eapply const_step; [done| |].
    { eapply (enough_spare _ _ n (Datatypes.S n) e); [done|split; [lia|by right; lia]|done..]. }
    intros c s2 f2 G2 S2 Hc Hr2. apply gwp_ret. pose proof (step_trans_nil _ _ _ _ _ _ _ _ _ 0 S S2 eq_refl) as S'.
    destruct (Z.leb_spec c BCMAX_C) as [Hle|Hgt]; unfold BCMAX_C in *.
    + apply gwp_ret. eapply H; [done| |done|done|apply S2]. eapply o_num; try done. lia.
    + apply gwp_bind. assert (P2 : place s f s2 f2 ev e) by by eapply p_num. eapply gwp_mono.
      { eapply (toanyreg_spec s f s2 f2 n n ev e); try done. split; [done|]. intros _. left. exists c. by rewrite E. }
      cbv beta. intros e' s3 (f3 & G3 & Hst & Hs). apply gwp_ret.
      eapply H; [done|by constructor|apply Hst|done|]. intros c' v Hc'. by apply Hs, S2.
  - apply gwp_bind, gwp_ret, gwp_bind. eapply gwp_mono.
    { eapply (toanyreg_spec s f s1 f1 n (n + pend e) ev e); try done. split; [lia|]. intros E. right. unfold pend. rewrite is_k_true by done. lia. }
    cbv beta. intros e' s3 (f3 & G3 & Hst & Hs). apply gwp_ret. eapply H; [done|by constructor|apply Hst|done|done].
Qed.

(** Two values at once. *)
Definition leads2 kt (lo : Z) (cs : list (Z * Z)) (ev ev' : regs -> option Z) (Q : (Z -> option Z) -> regs -> Z -> Z -> Prop) : Prop :=
  forall K rf x y, knows K kt -> ev rf = Some x -> ev' rf = Some y ->
    exists rf1, iexec K cs.*1 rf = Some rf1 /\ agree lo rf rf1 /\ Q K rf1 x y.

(** What survives when registers from [hi] on change. *)
Definition stable (hi : Z) (Q : (Z -> option Z) -> regs -> Z -> Prop) : Prop :=
  forall K rf rf' v, agree hi rf rf' -> Q K rf v -> Q K rf' v.
(** [ev] depends on registers below [lo] only. *)
Definition local (lo : Z) (ev : regs -> option Z) : Prop := forall rf rf', agree lo rf rf' -> ev rf' = ev rf.

Lemma leads_seq kt lo hi cs cs' ev ev' Q Q' : lo <= hi -> leads kt lo cs ev Q -> leads kt hi cs' ev' Q' -> stable hi Q -> local lo ev' ->
  leads2 kt lo (cs ++ cs') ev ev' (λ K rf x y, Q K rf x /\ Q' K rf y).
Proof.
  intros Hle L L' Hst Hloc K rf x y HK Hx Hy. destruct (L K rf x HK Hx) as (rf1 & E1 & A1 & H1).
  destruct (L' K rf1 y HK) as (rf2 & E2 & A2 & H2); [by rewrite (Hloc _ _ A1)|]. exists rf2. split_and!.
  - by rewrite fmap_app, iexec_app, E1.
  - intros r Hr. rewrite A2 by lia. by apply A1.
  - by eapply Hst.
  - done.
Qed.
Lemma leads2_swap kt lo cs ev ev' (Q : (Z -> option Z) -> regs -> Z -> Z -> Prop) :
  leads2 kt lo cs ev ev' Q -> leads2 kt lo cs ev' ev (λ K rf x y, Q K rf y x).
Proof. intros L K rf x y HK Hx Hy. by apply L. Qed.

(** Where the value of an operand is. *)
Definition opval (o : option Z) (e : ExpDesc) : (Z -> option Z) -> regs -> Z -> Prop :=
  match o with Some c => λ K _ v, K c = Some v | None => in_reg (e_info e) end.
Definition opfield (o : option Z) (e : ExpDesc) : Z := match o with Some c => c | None => e_info e end.

Lemma operand_leads s f s1 f1 n ev e o : ordered f -> gstate s1 f1 n -> operand s f s1 f1 ev e o ->
  exists cs, step s f s1 f1 cs (if temp f1 e then 1 else 0) /\ leads (kt_of s1) (fs_freereg f) cs ev (opval o e) /\
    stable (fs_freereg f1) (opval o e) /\ is_byte (opfield o e).
Proof.
  intros Hord G [k c Hk S E Hr Hv Hc Hcr|[P [J Hk]]].
  - exists []. unfold temp. rewrite is_k_false by congruence. split_and!; [done| |by intros K rf rf' v|done].
    intros K rf v HK Hev. exists rf. split_and!; try done. cbn. rewrite (Hv _ _ Hev). by apply HK.
  - destruct (place_temp _ _ _ _ _ _ Hord P) as [Ea Er]. unfold ordered in Hord.
    destruct P as [k Hk' S E Hr Hv|cs d Hk' S Hd L|cs i line Hk' S Hi Hu L]; [congruence| |congruence].
    pose proof (st_reg _ _ _ _ _ _ S) as Ed. assert (d = if temp f1 e then 1 else 0) as -> by lia.
    exists cs. split_and!; [done|done| |].
    + intros K rf rf' v A. unfold opval, in_reg. rewrite A; [done|]. destruct (temp f1 e); lia.
    + eapply byte_reg; [done|]. cbn. destruct (temp f1 e); lia.
Qed.

Definition arith_bc (sh : shape) (o : arith) : BCOp :=
  match sh, o with
  | VN, NUMADD => BC_ADDVN | VN, NUMSUB => BC_SUBVN | VN, NUMMUL => BC_MULVN | VN, NUMDIV => BC_DIVVN | VN, NUMMOD => BC_MODVN
  | NV, NUMADD => BC_ADDNV | NV, NUMSUB => BC_SUBNV | NV, NUMMUL => BC_MULNV | NV, NUMDIV => BC_DIVNV | NV, NUMMOD => BC_MODNV
  | VV, NUMADD => BC_ADDVV | VV, NUMSUB => BC_SUBVV | VV, NUMMUL => BC_MULVV | VV, NUMDIV => BC_DIVVV | VV, NUMMOD => BC_MODVV
  end.

Lemma arith_ABC sh o b c K rf : is_byte b -> is_byte c -> let i := BCINS_ABC (bcop_code (arith_bc sh o)) 0 b c in
  in_u 32 i /\ bc_a i = 0 /\ bc_b i = b /\ bc_c i = c /\ ival K i rf = '(x, y) ← operands K sh i rf; s64 <$> arith_op o x y.
Proof.
  intros Hb Hc i. destruct (bc_ABC_fields (arith_bc sh o) 0 b c (bcop_byte _) ltac:(done) Hb Hc) as (U & E1 & E0 & E2 & E3 & _).
  fold i in U, E1, E0, E2, E3. split_and!; try done. unfold ival. rewrite E1, bcop_of_code_code. by destruct sh, o.
Qed.

Definition binop_ev (o : arith) (ev ev' : regs -> option Z) (rf : regs) : option Z :=
  x ← ev rf; y ← ev' rf; s64 <$> arith_op o x y.

(** The instruction finds its operands. *)
Lemma arith_leads sh o kt lo cs ev ev' o1 e1 o2 e2 b c : is_byte b -> is_byte c ->
  leads2 kt lo cs ev ev' (λ K rf x y, opval o1 e1 K rf x /\ opval o2 e2 K rf y) ->
  match sh with
  | VN => o1 = None /\ b = opfield o1 e1 /\ o2 = Some c
  | NV => o1 = Some c /\ b = opfield o2 e2 /\ o2 = None
  | VV => o1 = None /\ o2 = None /\ b = opfield o1 e1 /\ c = opfield o2 e2
  end -> leads kt lo cs (binop_ev o ev ev') (by_ins (BCINS_ABC (bcop_code (arith_bc sh o)) 0 b c)).
Proof.
  intros Hb Hc L Hsh K rf v HK Hv. apply bind_Some in Hv as (x & Hx & (y & Hy & Hv)%bind_Some).
  destruct (L K rf x y HK Hx Hy) as (rf1 & E & A & Q1 & Q2). exists rf1. split_and!; try done. unfold by_ins.
  destruct (arith_ABC sh o b c K rf1 Hb Hc) as (_ & _ & E1 & E2 & ->). unfold operands. rewrite E1, E2.
  destruct sh; [destruct Hsh as (-> & -> & ->)|destruct Hsh as (-> & -> & ->)|destruct Hsh as (-> & -> & -> & ->)];
    cbn [opval opfield] in *; unfold in_reg in *; by rewrite Q1, Q2.
Qed.

Lemma toanyreg_settled e s f (Φ : ExpDesc -> pstate -> Prop) : cur_fs s = Some f -> e_k e = VNONRELOC -> nojump e -> Φ e s ->
  gwp (expr_toanyreg e) s Φ.
Proof.
  intros Hf Hk J H. unfold expr_toanyreg, expr_discharge. rewrite Hk. apply gwp_bind, gwp_ret, gwp_bind, (gwp_getfs s f); [done|].
  rewrite is_k_true, nojump_hasjump by done. by apply gwp_ret.
Qed.

Definition tmp (f : FuncState) (e : ExpDesc) : Z := if temp f e then 1 else 0.
Lemma tmp_act f f' e : fs_nactvar f' = fs_nactvar f -> tmp f' e = tmp f e.
Proof. intros E. unfold tmp, temp. by rewrite E. Qed.

(** The operands of [o] are computed, in whatever order. *)
Definition operands_ready s f n (o : arith) ev ev' (r : Z * Z * Z * ExpDesc * ExpDesc) (s' : pstate) : Prop :=
  let '(op, rb, rc, e1, e2) := r in exists f' cs sh, gstate s' f' n /\ step s f s' f' cs (tmp f' e1 + tmp f' e2) /\
    op = bcop_code (arith_bc sh o) /\ is_byte rb /\ is_byte rc /\ nojump e1 /\
    leads (kt_of s') (fs_freereg f) cs (binop_ev o ev ev') (by_ins (BCINS_ABC op 0 rb rc)).

Lemma opcode_forms o : let op := opr (opr_of o) - opr OPR_ADD + BC_ADDVV in
  op = arith_bc VV o /\ op - (BC_ADDVV - BC_ADDVN) = arith_bc VN o /\ op - (BC_ADDVV - BC_ADDNV) = arith_bc NV o.
Proof. by destruct o. Qed.

(** The first operand is in a register, the second follows. *)
Lemma ready_left s f s1 f1 s2 f2 n o ev ev' e1 e2 o2 : ordered f -> settled s f s1 f1 ev e1 -> gstate s2 f2 n ->
  operand s1 f1 s2 f2 ev' e2 o2 -> local (fs_freereg f) ev' ->
  let op := opr (opr_of o) - opr OPR_ADD + BC_ADDVV in
  operands_ready s f n o ev ev' (match o2 with Some _ => op - (BC_ADDVV - BC_ADDVN) | None => op end, e_info e1, opfield o2 e2, e1, e2) s2.
Proof.
  intros Hord (P & J & Hk) G O2 Hloc op. destruct (place_temp _ _ _ _ _ _ Hord P) as [Ea Er].
  pose proof P as [k Hk' _ _ _ _|cs1 d Hk' S1 Hd L1|cs1 i line Hk' _ _ _ _]; [congruence| |congruence]. unfold ordered in Hord.
  assert (Ho1 : ordered f1) by (unfold ordered; rewrite Ea, Er; destruct (temp f1 e1); lia).
  destruct (operand_leads _ _ _ _ _ _ _ _ Ho1 G O2) as (cs2 & S2 & L2 & _ & B2). destruct (opcode_forms o) as (EV & EN & _).
  fold op in EV, EN. pose proof (st_act _ _ _ _ _ _ S2) as Ea2. pose proof (st_reg _ _ _ _ _ _ S1) as Ed.
  pose proof (st_reg _ _ _ _ _ _ S2) as Ed2.
  assert (B1 : is_byte (e_info e1)). { eapply byte_reg; [done|]. rewrite Ed2. destruct (temp f2 e2); lia. }
  assert (LL : leads2 (kt_of s2) (fs_freereg f) (cs1 ++ cs2) ev ev' (λ K rf x y, opval None e1 K rf x /\ opval o2 e2 K rf y)).
  { eapply (leads_seq _ _ (fs_freereg f1)); [rewrite Ed; lia| |done| |done].
    - eapply leads_keep; [|done]. intros K HK. by eapply knows_less.
    - intros K rf rf' v A. unfold opval, in_reg. rewrite A; [done|]. lia. }
  exists f2, (cs1 ++ cs2), (if o2 is Some _ then VN else VV).
  assert (Eop : match o2 with Some _ => op - (BC_ADDVV - BC_ADDVN) | None => op end = arith_bc (if o2 is Some _ then VN else VV) o) by by destruct o2.
  rewrite Eop. split_and!; try done.
  - eapply step_trans; [done..|]. rewrite (tmp_act f1 f2 e1) by done. unfold tmp. lia.
  - eapply arith_leads; [done..|]. destruct o2; by cbn.
Qed.

(** The first operand is a number, used after the second is computed. *)
Lemma ready_right s f s1 f1 s2 f2 s3 f3 n m o ev ev' e1 e2 o1 o2 : ordered f -> step s f s1 f1 [] 0 -> gstate s2 f2 m -> gstate s3 f3 n ->
  operand s1 f1 s2 f2 ev' e2 o2 -> operand s2 f2 s3 f3 ev e1 o1 -> nojump e1 -> (o2 <> None -> o1 = None) ->
  local (fs_freereg f) ev -> let op := opr (opr_of o) - opr OPR_ADD + BC_ADDVV in
  operands_ready s f n o ev ev'
    match o1 with
    | Some t => (match o2 with Some _ => op - (BC_ADDVV - BC_ADDVN) | None => op end - (BC_ADDVV - BC_ADDNV), opfield o2 e2, t, e1, e2)
    | None => (match o2 with Some _ => op - (BC_ADDVV - BC_ADDVN) | None => op end, e_info e1, opfield o2 e2, e1, e2)
    end s3.
Proof.
  intros Hord S1 G2 G3 O2 O1 J Hno Hloc op. unfold ordered in Hord.
  pose proof (st_act _ _ _ _ _ _ S1) as A1. pose proof (st_reg _ _ _ _ _ _ S1) as R1.
  assert (Ho1 : ordered f1) by (unfold ordered; rewrite A1, R1; lia).
  assert (Ho2 : ordered f2) by apply (gs_act _ _ _ G2).
  destruct (operand_leads _ _ _ _ _ _ _ _ Ho1 G2 O2) as (cs2 & S2 & L2 & St2 & B2).
  destruct (operand_leads _ _ _ _ _ _ _ _ Ho2 G3 O1) as (cs3 & S3 & L3 & St3 & B3).
  pose proof (st_act _ _ _ _ _ _ S3) as A3. pose proof (st_reg _ _ _ _ _ _ S2) as R2.
  assert (E1 : fs_freereg f1 = fs_freereg f) by lia. rewrite E1 in *.
  assert (LL : leads2 (kt_of s3) (fs_freereg f) (cs2 ++ cs3) ev ev' (λ K rf x y, opval o1 e1 K rf x /\ opval o2 e2 K rf y)).
  { intros K rf x y HK Hx Hy.
    destruct (leads_seq (kt_of s3) (fs_freereg f) (fs_freereg f2) cs2 cs3 ev' ev (opval o2 e2) (opval o1 e1)) with (K := K) (rf := rf) (x := y) (y := x)
      as (rf1 & E & A & Q2 & Q1); try done.
    - rewrite R2. destruct (temp f2 e2); lia.
    - eapply leads_keep; [|done]. intros K' HK'. by eapply knows_less.
    - by exists rf1. }
  destruct (opcode_forms o) as (EV & EN & ENV). fold op in EV, EN, ENV.
  assert (SS : step s f s3 f3 (cs2 ++ cs3) (tmp f3 e1 + tmp f3 e2)).
  { eapply (step_trans _ _ _ _ _ _ [] _ 0); [done| |].
    - eapply step_trans; [done..|]. reflexivity.
    - rewrite (tmp_act f2 f3 e2) by done. unfold tmp. lia. }
  destruct o1 as [t|]; [destruct o2 as [u|]; [by specialize (Hno ltac:(done))|]|].
  - exists f3, (cs2 ++ cs3), NV. split_and!; try done. rewrite ENV. eapply arith_leads; [done..|]. by cbn.
  - exists f3, (cs2 ++ cs3), (if o2 is Some _ then VN else VV).
    assert (Eop : match o2 with Some _ => op - (BC_ADDVV - BC_ADDVN) | None => op end = arith_bc (if o2 is Some _ then VN else VV) o) by by destruct o2.
    rewrite Eop. split_and!; try done. eapply arith_leads; [done..|]. destruct o2; by cbn.
Qed.

Lemma toval_spec s f s1 f1 ev e (Φ : ExpDesc -> pstate -> Prop) s0 : place s f s1 f1 ev e -> nojump e ->
  (forall e', place s f s1 f1 ev e' -> nojump e' -> e_k e' <> VLOCAL -> pend e' = pend e -> (e_k e <> VLOCAL -> e' = e) -> Φ e' s0) ->
  gwp (expr_toval e) s0 Φ.
Proof.
  intros P J H. destruct (discharge_place _ _ _ _ _ _ P J) as (E & P' & J' & Hkn & Hkl & _).
  unfold expr_toval. rewrite nojump_hasjump, E by done. apply gwp_ret, H; try done.
  - unfold pend, is_k. by rewrite (bool_decide_ext _ _ Hkn).
  - intros Hk. unfold discharged. by rewrite is_k_false.
Qed.

Lemma arith_operands_spec s f s1 f1 s2 f2 n o ev ev' e1 e2 : ordered f -> place s f s1 f1 ev e1 -> nojump e1 ->
  e_k e1 = VNONRELOC \/ e_k e1 = VKNUM -> place s1 f1 s2 f2 ev' e2 -> nojump e2 -> gstate s2 f2 (n + pend e1 + pend e2) ->
  local (fs_freereg f) ev -> local (fs_freereg f) ev' ->
  gwp (arith_operands (opr_of o) e1 e2) s2 (operands_ready s f n o ev ev').
Proof.
  intros Hord P1 J1 Hk1 P2 J2 G Hl Hl'. unfold arith_operands. rewrite bool_decide_false by by destruct o. cbv zeta.
  set (op := opr (opr_of o) - opr OPR_ADD + BC_ADDVV). destruct (place_temp _ _ _ _ _ _ Hord P1) as [Ea Er].
  assert (Ho1 : ordered f1) by (unfold ordered in *; rewrite Ea, Er; destruct (temp f1 e1); lia).
  apply gwp_bind. eapply (toval_spec s1 f1 s2 f2 ev'); [done..|]. clear P2 J2. intros e2' P2 J2 Hk2 Ep _. rewrite <- Ep in G. clear Ep.
  apply gwp_assoc, gwp_bind. rewrite <- (andb_true_r (expr_isnumk e2')).
  eapply (const_operand_spec (λ k e, (match k with Some _ => op - (BC_ADDVV - BC_ADDVN) | None => op end, opfield k e, e)) true
    s1 f1 s2 f2 (n + pend e1) ev'); try done.
  intros o2 e2'' s3 f3 G3 O2 J2' _ Hs. cbv beta iota. apply gwp_bind.
  eapply (toval_spec s f s1 f1 ev); [done..|]. intros e1' _ _ _ _ Ee1. rewrite Ee1 by (destruct Hk1; congruence). clear e1' Ee1.
  destruct Hk1 as [Hk1|Hk1].
  - rewrite isnumk_k, is_k_false by congruence. cbn [andb]. apply gwp_bind, gwp_ret, gwp_bind.
    eapply toanyreg_settled; [by eapply gstate_fs|done..|]. apply gwp_ret. eapply ready_left; try done.
    eapply gstate_less; [done|lia].
  - destruct P1 as [k _ S1 E Hr Hv|cs d Hk' _ _ _|cs i line Hk' _ _ _ _]; [|destruct Hk' as [|[]]; congruence|congruence].
    eapply (const_operand_spec (λ t e1, match t with
      | Some t => (match o2 with Some _ => op - (BC_ADDVV - BC_ADDVN) | None => op end - (BC_ADDVV - BC_ADDNV), opfield o2 e2'', t, e1, e2'')
      | None => (match o2 with Some _ => op - (BC_ADDVV - BC_ADDVN) | None => op end, e_info e1, opfield o2 e2'', e1, e2'') end)
      (negb (expr_isnumk e2'')) s3 f3 s3 f3 n ev e1); [apply G3|eapply p_num; [done|apply step_refl|done..]|done|done|].
    intros o1 e1'' s4 f4 G4 O1 J1' Hno _. eapply (ready_right s f s1 f1 s3 f3); try done. intros Ho2. apply Hno.
    destruct O2 as [? ? Hk'|]; [|done]. rewrite isnumk_k. by rewrite is_k_true.
Qed.

(** ** Operators *)

(** The descriptor is that of the number [c], or of no number. *)
Definition cdesc (c : option Z) (e : ExpDesc) : Prop :=
  match c with Some x => e_k e = VKNUM /\ e_nval e = set_number x /\ in_s 64 x | None => e_k e <> VKNUM end.

Lemma slong_fits z : in_s 64 z -> slong z = Some z.
Proof.
  intros Hz. unfold slong. rewrite (proj2 (Z.leb_le _ _)), (proj2 (Z.ltb_lt _ _)); [done|..]; unfold in_s in Hz; cbn in *; lia.
Qed.

Lemma number_foldarith_num o x y v : cfold o x y = Some v -> in_s 64 v ->
  number_foldarith x y (opr (opr_of o) - opr OPR_ADD) = Some v.
Proof.
  intros H Hv. unfold number_foldarith. destruct o; cbn [cfold] in H; simplify_eq; cbn [opr_of].
  - change (opr OPR_ADD - opr OPR_ADD =? opr OPR_ADD - opr OPR_ADD) with true. by apply slong_fits.
  - change (opr OPR_SUB - opr OPR_ADD =? opr OPR_ADD - opr OPR_ADD) with false.
    rewrite Z.eqb_refl. by apply slong_fits.
  - change (opr OPR_MUL - opr OPR_ADD =? opr OPR_ADD - opr OPR_ADD) with false.
    change (opr OPR_MUL - opr OPR_ADD =? opr OPR_SUB - opr OPR_ADD) with false. rewrite Z.eqb_refl. by apply slong_fits.
  - change (opr OPR_DIV - opr OPR_ADD =? opr OPR_ADD - opr OPR_ADD) with false.
    change (opr OPR_DIV - opr OPR_ADD =? opr OPR_SUB - opr OPR_ADD) with false.
    change (opr OPR_DIV - opr OPR_ADD =? opr OPR_MUL - opr OPR_ADD) with false. rewrite Z.eqb_refl.
    destruct (y =? 0); [done|]. injection H as <-. by apply slong_fits.
Qed.

Lemma foldarith_num o e1 e2 x y : nojump e1 -> nojump e2 -> cdesc (Some x) e1 -> cdesc (Some y) e2 ->
  (forall v, cfold o x y = Some v -> in_s 64 v) ->
  foldarith (opr_of o) e1 e2 = Some ((λ v, eset_nval e1 (set_number v)) <$> cfold o x y).
Proof.
  intros J1 J2 (K1 & E1 & R1) (K2 & E2 & R2) Hf. unfold foldarith, expr_isnumk_nojump.
  rewrite !isnumk_k, !is_k_true, !nojump_hasjump by done. cbn [negb andb orb].
  unfold expr_numberV. rewrite E1, E2, !nvalue_set by done.
  destruct (cfold o x y) as [v|] eqn:E.
  - rewrite (number_foldarith_num o x y v) by auto. destruct o; try done. cbn in E |- *. by destruct (y =? 0).
  - destruct o; try done. cbn in E |- *. by destruct (y =? 0).
Qed.

Lemma foldarith_other o e1 e2 c1 c2 : cdesc c1 e1 -> cdesc c2 e2 -> c1 = None \/ c2 = None -> foldarith (opr_of o) e1 e2 = Some None.
Proof.
  intros H1 H2 Hn. unfold foldarith, expr_isnumk_nojump. rewrite !isnumk_k.
  destruct Hn as [-> | ->]; cbn in *; [rewrite (is_k_false e1) by done|rewrite (is_k_false e2) by done]; cbn; [done|].
  by rewrite orb_true_r.
Qed.

(** The expression is generated: what its descriptor means, the constant it is,
    and room for [n] constants besides. *)
Definition made s f n ev (c : option Z) (e : ExpDesc) (s' : pstate) : Prop := exists f', gstate s' f' (n + pend e) /\
  place s f s' f' ev e /\ nojump e /\ cdesc c e.

Lemma reloc_made s f n s1 f1 ev cs i line e : gstate s1 f1 n -> step s f s1 f1 (cs ++ [(i, line)]) 0 -> in_u 32 i -> nojump e ->
  leads (kt_of s1) (fs_freereg f) cs ev (by_ins i) -> made s f n ev None (eset e VRELOCABLE (fs_pc f1 - 1)) s1.
Proof.
  intros G S Hu J L. exists f1. split_and!; [|by eapply p_reloc|done|done].
  unfold pend. rewrite is_k_false by done. by rewrite Nat.add_0_r.
Qed.

Lemma pc_after s f s1 f1 il d : step s f s1 f1 [il] d -> fs_pc f = fs_pc f1 - 1.
Proof. intros S. unfold fs_pc. rewrite (st_code _ _ _ _ _ _ S), length_app. cbn. lia. Qed.

Lemma arith_emit_spec s f n o ev ev' r s1 : ordered f -> operands_ready s f n o ev ev' r s1 ->
  gwp (let '(op, rb, rc, e1, e2) := r in
       free_operand e1 ;;; free_operand e2 ;;; pc <~ bcemit_ABC op 0 rb rc ;; gret (eset e1 VRELOCABLE pc)) s1
    (made s f n (binop_ev o ev ev') None).
Proof.
  destruct r as [[[[op rb] rc] e1] e2]. intros Hord (f1 & cs & sh & G & S & -> & Bb & Bc & J & L). unfold ordered in Hord.
  pose proof (st_act _ _ _ _ _ _ S) as A1. pose proof (st_reg _ _ _ _ _ _ S) as R1. unfold tmp in *.
  apply gwp_bind. eapply proj2, free_step; [done| |]; fold (temp f1 e1).
  { intros Ht. rewrite Ht in R1. destruct (temp f1 e2); lia. }
  intros s2 f2 G2 S2. pose proof (st_act _ _ _ _ _ _ S2) as A2. pose proof (st_reg _ _ _ _ _ _ S2) as R2.
  assert (E2 : temp f2 e2 = temp f1 e2) by (unfold temp; by rewrite A2).
  apply gwp_bind. eapply proj2, free_step; [done| |]; fold (temp f2 e2); rewrite E2.
  { intros Ht. rewrite Ht in R1. destruct (temp f1 e1); lia. }
  intros s3 f3 G3 S3. destruct (arith_ABC sh o rb rc (λ _, None) ∅ Bb Bc) as (U & E0 & _).
  pose proof (gs_frame _ _ _ G3) as Hfr. apply gwp_bind. eapply emit_step; [done|rewrite E0; lia|]. intros s4 f4 line G4 S4. apply gwp_ret.
  rewrite (pc_after _ _ _ _ _ _ S4). pose proof (st_reg _ _ _ _ _ _ S3) as R3.
  pose proof (step_trans_nil _ _ _ _ _ _ _ _ _ _ S2 S3 eq_refl) as S13.
  pose proof (step_trans_nil _ _ _ _ _ _ _ _ _ 0 S S13 ltac:(destruct (temp f1 e1), (temp f1 e2); lia)) as S03.
  eapply reloc_made; [done|by eapply step_trans|done|done|].
  eapply leads_keep; [|done]. intros K HK. eapply knows_less; [|exact S13]. by eapply knows_less.
Qed.

Lemma place_num_both s f s1 f1 s2 f2 o ev ev' e1 e2 x y v : place s f s1 f1 ev e1 -> place s1 f1 s2 f2 ev' e2 ->
  cdesc (Some x) e1 -> cdesc (Some y) e2 -> cfold o x y = Some v -> in_s 64 v ->
  place s f s2 f2 (binop_ev o ev ev') (eset_nval e1 (set_number v)).
Proof.
  intros P1 P2 (K1 & E1 & R1) (K2 & E2 & R2) Hc Hv.
  destruct P1 as [k1 _ S1 N1 I1 V1|? ? [|[]] _ _ _|? ? ? ? _ _ _ _]; [|congruence..].
  destruct P2 as [k2 _ S2 N2 I2 V2|? ? [|[]] _ _ _|? ? ? ? _ _ _ _]; [|congruence..].
  assert (k1 = x) as -> by (rewrite <- (nvalue_set k1), <- (nvalue_set x) by done; congruence).
  assert (k2 = y) as -> by (rewrite <- (nvalue_set k2), <- (nvalue_set y) by done; congruence).
  eapply (p_num _ _ _ _ _ _ v); try done; [by eapply step_trans_nil|]. intros rf w Hw.
  apply bind_Some in Hw as (a & Ha & (b & Hb & Hw)%bind_Some). rewrite (V1 _ _ Ha), (V2 _ _ Hb) in Hw.
  rewrite (cfold_op o x y v) in Hw by done. congruence.
Qed.

Lemma bcemit_binop_spec s f s1 f1 s2 f2 n o ev ev' e1 e2 c1 c2 : ordered f -> place s f s1 f1 ev e1 -> nojump e1 -> cdesc c1 e1 ->
  e_k e1 = VNONRELOC \/ e_k e1 = VKNUM -> place s1 f1 s2 f2 ev' e2 -> nojump e2 -> cdesc c2 e2 ->
  gstate s2 f2 (n + pend e1 + pend e2) -> local (fs_freereg f) ev -> local (fs_freereg f) ev' ->
  let c := x ← c1; y ← c2; cfold o x y in (forall v, c = Some v -> in_s 64 v) ->
  gwp (bcemit_binop (opr_of o) e1 e2) s2 (made s f n (binop_ev o ev ev') c).
Proof.
  intros Hord P1 J1 C1 Hk1 P2 J2 C2 G Hl Hl' c Hc.
  assert (Hb : bcemit_binop (opr_of o) e1 e2 = bcemit_arith (opr_of o) e1 e2) by by destruct o.
  rewrite Hb. clear Hb. unfold bcemit_arith.
  assert (Hgen : foldarith (opr_of o) e1 e2 = Some None -> c = None ->
    gwp (fold <~ gopt (foldarith (opr_of o) e1 e2) ;; match fold with
      | Some e1 => gret e1
      | None => r <~ arith_operands (opr_of o) e1 e2 ;; let '(op, rb, rc, e1, e2) := r in
          free_operand e1 ;;; free_operand e2 ;;; pc <~ bcemit_ABC op 0 rb rc ;; gret (eset e1 VRELOCABLE pc)
      end) s2 (made s f n (binop_ev o ev ev') c)).
  { intros -> ->. apply gwp_bind, gwp_ret, gwp_bind. eapply gwp_mono; [by eapply arith_operands_spec|].
    cbv beta. intros r s3 R. by apply arith_emit_spec. }
  destruct c1 as [x|]; [destruct c2 as [y|]|]; cbn [mbind option_bind] in c.
  - pose proof (foldarith_num o e1 e2 x y J1 J2 C1 C2 Hc) as Ef. destruct (cfold o x y) as [v|] eqn:Ec; [|by apply Hgen].
    apply gwp_bind. rewrite Ef. apply gwp_ret. exists f2. split_and!.
    + eapply gstate_less; [done|]. assert (pend (eset_nval e1 (set_number v)) = pend e1) as -> by done. lia.
    + eapply place_num_both; [done..|by apply Hc].
    + done.
    + split_and!; [apply C1|done|auto].
  - apply Hgen; [|done]. eapply foldarith_other; [done..|by right].
  - apply Hgen; [|done]. eapply foldarith_other; [done..|by left].
Qed.

Lemma settled_made s f n ev c e e' s1 s2 : anyreg s f s1 n ev e' s2 -> cdesc c e -> e_k e <> VKNUM ->
  made s f n ev c e' s2 /\ e_k e' = VNONRELOC.
Proof.
  intros (f2 & G2 & (P & J & Hk) & _) C Hn. split; [|done]. exists f2. split_and!; try done.
  - unfold pend. rewrite is_k_false by congruence. by rewrite Nat.add_0_r.
  - destruct c as [x|]; [by destruct C|]. cbn. congruence.
Qed.

Lemma binop_left_spec s f n ev c e s1 o : ordered f -> made s f n ev c e s1 ->
  gwp (bcemit_binop_left (opr_of o) e) s1 (λ e' s2, made s f n ev c e' s2 /\ (e_k e' = VNONRELOC \/ e_k e' = VKNUM)).
Proof.
  intros Hord (f1 & G & P & J & C).
  assert (E : bcemit_binop_left (opr_of o) e = if negb (expr_isnumk_nojump e) then expr_toanyreg e else gret e) by by destruct o.
  rewrite E. clear E. unfold expr_isnumk_nojump. rewrite isnumk_k, nojump_hasjump by done. destruct (is_k e VKNUM) eqn:Hk; cbn [negb andb].
  - apply gwp_ret. apply bool_decide_eq_true in Hk. split; [|by right]. by exists f1.
  - apply bool_decide_eq_false in Hk. eapply gwp_mono; [eapply (toanyreg_spec s f s1 f1 n (n + pend e)); try done|].
    { split; [lia|]. intros ?. congruence. }
    cbv beta. intros e' s2 H. destruct (settled_made _ _ _ _ _ _ _ _ _ H C Hk). auto.
Qed.

Lemma unm_leads kt lo cs ev r : is_byte r -> leads kt lo cs ev (in_reg r) ->
  leads kt lo cs (λ rf, x ← ev rf; Some (s64 (- x))) (by_ins (BCINS_AD BC_UNM 0 r)).
Proof.
  intros Hr L K rf v HK Hv. apply bind_Some in Hv as (x & Hx & [= <-]). destruct (L K rf x HK Hx) as (rf1 & E & A & H).
  exists rf1. split_and!; try done. unfold by_ins, ival.
  destruct (AD_fields BC_UNM 0 r) as (_ & _ & Ed & Eo); [done|unfold BCMAX_D, is_byte in *; lia|]. rewrite Eo.
  cbn [mbind option_bind]. unfold in_reg in H. by rewrite Ed, H.
Qed.

Lemma emit_unm_spec s f n ev e s1 s0 : ordered f -> anyreg s f s0 n ev e s1 ->
  gwp (emit_unop BC_UNM e) s1 (made s f n (λ rf, x ← ev rf; Some (s64 (- x))) None).
Proof.
  intros Hord (f1 & G & (P & J & Hk) & _). destruct (place_temp _ _ _ _ _ _ Hord P) as [A1 R1]. unfold ordered in Hord.
  destruct P as [? ? _ _ _ _|cs d _ S Hd L|? ? ? ? _ _ _ _]; [congruence| |congruence]. pose proof (st_reg _ _ _ _ _ _ S) as R1'.
  assert (Hb : is_byte (e_info e)) by (eapply byte_reg; [done|lia]).
  unfold emit_unop. apply gwp_bind. eapply proj1, free_step; [done| |]; fold (temp f1 e).
  { intros Ht. rewrite Ht in R1. lia. }
  intros s2 f2 G2 S2. destruct (AD_fields BC_UNM 0 (e_info e)) as (U & E0 & _); [done|unfold BCMAX_D, is_byte in *; lia|].
  pose proof (gs_frame _ _ _ G2) as Hfr. apply gwp_bind. eapply emit_step; [done|rewrite E0; lia|]. intros s3 f3 line G3 S3. apply gwp_ret.
  rewrite (pc_after _ _ _ _ _ _ S3). eapply reloc_made; [done| |done|done|].
  - eapply step_trans; [eapply step_trans_nil; [done..|]|done|]; [reflexivity|]. destruct (temp f1 e); lia.
  - apply unm_leads; [done|]. eapply leads_keep; [|done]. intros K HK. eapply knows_less; [|exact S2]. by eapply knows_less.
Qed.

Lemma unop_spec s f n ev c e s1 : ordered f -> made s f n ev c e s1 ->
  let c' := x ← c; if x =? 0 then None else Some (- x) in (forall v, c' = Some v -> in_s 64 v) ->
  gwp (bcemit_unop BC_UNM e) s1 (made s f n (λ rf, x ← ev rf; Some (s64 (- x))) c').
Proof.
  intros Hord (f1 & G & P & J & C) c' Hc. unfold bcemit_unop.
  assert (Hreg : c' = None -> gwp (e <~ expr_toanyreg e ;; emit_unop BC_UNM e) s1 (made s f n (λ rf, x ← ev rf; Some (s64 (- x))) c')).
  { intros ->. apply gwp_bind. eapply gwp_mono; [eapply (toanyreg_spec s f s1 f1 n (n + pend e)); try done|].
    { split; [lia|]. intros Hk. right. unfold pend. rewrite is_k_true by done. lia. }
    cbv beta. intros e' s2 H. by eapply emit_unm_spec. }
  rewrite bool_decide_true, nojump_hasjump, isnumk_k by done. cbn [negb andb]. destruct c as [x|]; cbn [mbind option_bind] in c'.
  - destruct C as (Hk & E & Hr). rewrite is_k_true by done. unfold expr_numiszero, expr_numberV. rewrite E, nvalue_set by done.
    destruct (x =? 0) eqn:Ex; cbn [negb andb]; [by apply Hreg|]. subst c'.
    apply gwp_bind. eapply gwp_opt; [by apply slong_fits, Hc|]. apply gwp_ret. exists f1. split_and!; try done.
    + destruct P as [k _ S N I V|? ? [|[]] _ _ _|? ? ? ? _ _ _ _]; [|congruence..].
      assert (k = x) as -> by (rewrite <- (nvalue_set k), <- (nvalue_set x) by done; congruence).
      eapply (p_num _ _ _ _ _ _ (- x)); try done; [auto|]. intros rf v Hv. apply bind_Some in Hv as (y & Hy & [= <-]).
      rewrite (V _ _ Hy). apply s64_id. auto.
    + split_and!; [done..|auto].
  - rewrite is_k_false by done. cbn [andb]. by apply Hreg.
Qed.

(** Number literals. *)
Fixpoint nums (a : aexp) : nat :=
  match a with ANum _ => 1 | AVar _ => 0 | ANeg a => nums a | ABin _ a b => nums a + nums b end.

Lemma aeval_local f n a : vars_below n a -> n <= fs_freereg f -> local (fs_freereg f) (λ rf, aeval rf a).
Proof. intros Hv Hn rf rf' A. apply (aeval_agree _ _ n); [done|]. intros r Hr. apply A. lia. Qed.

(** What is generated for an expression means its value. *)
Lemma gen_spec a : forall s f n, gstate s f (n + nums a) -> vars_below (fs_nactvar f) a -> fold_ok a ->
  gwp (gen a) s (made s f n (λ rf, aeval rf a) (const_val a)).
Proof.
  induction a as [k|r|a IH|o a IHa b IHb]; intros s f n G Hv HF; cbn [gen nums] in *.
  - apply gwp_ret. pose proof (fold_ok_val (ANum k) k HF eq_refl) as Hk. exists f. split_and!; [done| |done|done].
    eapply (p_num _ _ _ _ _ _ k); try done; [apply step_refl|]. by intros rf v [= <-].
  - apply gwp_ret. exists f. split_and!; [done| |done|done]. cbn in Hv.
    eapply (p_reg _ _ _ _ _ _ [] 0); [by right|apply step_refl|left; split; [done|exact Hv]|].
    intros K rf v _ Hr. by exists rf.
  - destruct HF as [Hn HF]. apply gwp_bind. eapply gwp_mono; [by eapply IH|]. cbv beta. intros e s1 H.
    apply unop_spec; [apply (gs_act _ _ _ G)|done|done].
  - destruct HF as [Hn [HFa HFb]], Hv as [Hva Hvb]. pose proof (gs_act _ _ _ G) as Hord. apply gwp_bind. eapply gwp_mono.
    { eapply (IHa s f (n + nums b)%nat); [eapply gstate_less; [done|lia]|done..]. }
    cbv beta. intros e1 s1 M1. apply gwp_bind. eapply gwp_mono; [by apply binop_left_spec|].
    cbv beta. intros e1' s2 [(f2 & G2 & P2 & J2 & C2) Hk1]. destruct (place_temp _ _ _ _ _ _ Hord P2) as [A2 _].
    apply gwp_bind. eapply gwp_mono.
    { eapply (IHb s2 f2 (n + pend e1')%nat); [eapply gstate_less; [done|lia]|by rewrite A2|done]. }
    cbv beta. intros e2 s3 (f3 & G3 & P3 & J3 & C3). eapply bcemit_binop_spec; try done.
    + eapply aeval_local; [done|]. lia.
    + eapply aeval_local; [done|]. lia.
Qed.

(** Exponentiation is not computed: folding gives the base, whatever the exponent. *)
Lemma pow_folds_to_base e1 e2 x y : nojump e1 -> nojump e2 -> cdesc (Some x) e1 -> cdesc (Some y) e2 ->
  foldarith OPR_POW e1 e2 = Some (Some (eset_nval e1 (set_number x))).
Proof.
  intros J1 J2 (K1 & E1 & R1) (K2 & E2 & R2). unfold foldarith, expr_isnumk_nojump.
  rewrite !isnumk_k, !is_k_true, !nojump_hasjump by done. unfold expr_numberV. by rewrite E1, nvalue_set.
Qed.
