(* ===== verification/ArithRun.v ===== *)
(** * ArithRun: compiled arithmetic computes its value

    The register machine of [ArithGen] is the interpreter restricted to the
    instructions of arithmetic: as long as it runs, every instruction is one
    dispatch of the interpreter with the same effect on the registers.  With the
    theorem about the generator: the code compiled for an expression, loaded with
    the constants compiled for it, makes the interpreter compute the value of the
    expression. *)

From S2P Require Import Prelude Types Bytecode Mempool Tab Intern Vm VmThm VmWit BcWrite Util Lex Gen Parse UtilThm GenConst JumpThm ArithGen.
#[local] Open Scope word_scope.
#[local] Open Scope gen_scope.

Section ArithRun.
Context {S : Type} `{Intern S}.
Context (alloc_ok : Z -> bool) (ta : talloc).
Context (tctx : vm (S := S) -> kctx).
Context (cfunction : Z -> vm (S := S) -> option (Z * vm (S := S))).
Context (event_getarg : vm (S := S) -> Z -> Z -> option (ktap_val * S * kerr)).
Context (task_pid task_tid task_uid task_cpu : Z) (task_comm : bytes).
Context (kp_tab_next_addr kp_max_loop_count percpu_buffer_size : Z).

Implicit Types m : vm (S := S).

#[local] Abbreviation dispatch := (Vm.dispatch alloc_ok ta tctx cfunction event_getarg task_pid task_tid task_uid task_cpu
  task_comm kp_tab_next_addr kp_max_loop_count percpu_buffer_size).
#[local] Abbreviation exec := (Vm.exec alloc_ok ta tctx cfunction event_getarg task_pid task_tid task_uid task_cpu
  task_comm kp_tab_next_addr kp_max_loop_count percpu_buffer_size).

(** Exactly [n] instructions, none of which returns. *)
Fixpoint dispatches (n : nat) m : option (vm (S := S)) :=
  match n with
  | O => Some m
  | Datatypes.S n => r ← dispatch m; match r with Next m => dispatches n m | Return _ => None end
  end.

(** The registers of the frame hold the numbers [rf], and the frame of [n] slots is
    inside the stack. *)
Record mirrors m (rf : regs) (n : Z) : Prop := {
  mr_base : 0 <= base m;
  mr_stack : base m + n <= Z.of_nat (length (stack m));
  mr_reg : forall r v, rf !! r = Some v -> get m (base m + r) = Some (set_number v);
  mr_range : forall r v, rf !! r = Some v -> in_s 64 v
}.

(** The number constants of the frame. *)
Definition kof m (c : Z) : option Z := k ← knum_at m c; slong (nvalue k).

Lemma slong_some z v : slong z = Some v -> v = z /\ in_s 64 z.
Proof.
  unfold slong. destruct (_ && _) eqn:E; [|done]. intros [= <-]. split; [done|]. apply in_s_range. bool_to_Prop. lia.
Qed.
Lemma kof_some m c v : kof m c = Some v -> exists k, knum_at m c = Some k /\ nvalue k = v /\ in_s 64 v.
Proof. intros (k & Hk & [-> Hr]%slong_some)%bind_Some. by exists k. Qed.

Lemma ival_range m rf n i v : mirrors m rf n -> ival (kof m) i rf = Some v -> in_s 64 v.
Proof.
  intros M Hv. apply bind_Some in Hv as (op & _ & Hv).
  assert (Hs : forall z, in_s 64 (s64 z)) by (intros; apply swrap_range; lia).
  destruct op; cbn [arith_ins mbind option_bind] in Hv; try done;
    try (apply bind_Some in Hv as ([x y] & _ & (z & _ & ->)%fmap_Some); apply Hs).
  - by eapply mr_range.
  - apply bind_Some in Hv as (x & _ & [= <-]). apply Hs.
  - injection Hv as <-. apply Hs.
  - by apply kof_some in Hv as (k & _ & _ & Hr).
Qed.

Lemma put_same m a z : put_number m a z = put_number m a (s64 z).
Proof. unfold put_number. by rewrite set_number_s64. Qed.

Lemma arith_sim m rf n i sh o v : mirrors m rf n -> ('(x, y) ← operands (kof m) sh i rf; s64 <$> arith_op o x y) = Some v ->
  match sh with VN => arith_VN m i o | NV => arith_NV m i o | VV => arith_VV m i o end = next (put_number m (RA m i) v) /\
  match sh with
  | VN => exists k, knum_at m (bc_c i) = Some k /\ ((o = NUMDIV \/ o = NUMMOD) -> nvalue k <> 0)
  | NV => exists x, get m (RB m i) = Some x /\ ((o = NUMDIV \/ o = NUMMOD) -> nvalue x <> 0)
  | VV => True
  end.
Proof.
  intros M Hv. apply bind_Some in Hv as ([x y] & Ho & (z & Hz & ->)%fmap_Some). rewrite <- put_same.
  assert (Hy : (o = NUMDIV \/ o = NUMMOD) -> y <> 0) by (intros Hd ->; destruct Hd as [-> | ->]; done).
  assert (Hreg : forall r w, rf !! r = Some w -> get m (base m + r) = Some (set_number w) /\ nvalue (set_number w) = w).
  { intros r w Hr. split; [by apply (mr_reg _ _ _ M)|]. apply nvalue_set. by eapply mr_range. }
  destruct sh; cbn [operands] in Ho; apply bind_Some in Ho as (u & Hu & (w & Hw & [= <- <-])%bind_Some).
  - destruct (Hreg _ _ Hu) as [Gu Nu]. destruct (kof_some _ _ _ Hw) as (k & Hk & Nk & _). unfold arith_VN, RB.
    rewrite Gu. cbn. rewrite Hk. cbn. unfold nvalue in Nu. cbn in Nu. rewrite Nu, Nk, Hz. split; [done|]. exists k. rewrite Nk. auto.
  - destruct (Hreg _ _ Hu) as [Gu Nu]. destruct (kof_some _ _ _ Hw) as (k & Hk & Nk & _). unfold arith_NV, RB.
    rewrite Gu. cbn. rewrite Hk. cbn. unfold nvalue in Nu. cbn in Nu. rewrite Nu, Nk, Hz. split; [done|]. eexists. split; [done|].
    unfold nvalue. cbn. by rewrite Nu.
  - destruct (Hreg _ _ Hu) as [Gu Nu], (Hreg _ _ Hw) as [Gw Nw]. unfold arith_VV, RB, RC. rewrite Gu. cbn. rewrite Gw. cbn.
    unfold nvalue in Nu, Nw. cbn in Nu, Nw. by rewrite Nu, Nw, Hz.
Qed.

(** One instruction of the machine is one of the interpreter. *)
Lemma exec_sim m rf n i op v : mirrors m rf n -> bcop_of_code (bc_op i) = Some op -> ival (kof m) i rf = Some v ->
  exec op m i = next (put_number m (RA m i) v).
Proof.
  intros M Hop Hv. unfold ival in Hv. rewrite Hop in Hv. cbn [mbind option_bind] in Hv.
  destruct (arith_ins op) as [[sh o]|] eqn:Ea.
  - assert (Hv' : ('(x, y) ← operands (kof m) sh i rf; s64 <$> arith_op o x y) = Some v).
    { destruct op; cbn [arith_ins mbind option_bind] in Ea, Hv; simplify_eq; done. }
    destruct (arith_sim m rf n i sh o v M Hv') as [E D].
    destruct op; cbn [arith_ins] in Ea; simplify_eq; cbn [Vm.exec exec_arith]; try exact E;
      destruct D as (k & Hk & Hne); rewrite Hk; cbn [mbind option_bind];
      rewrite (proj2 (Z.eqb_neq _ _) (Hne ltac:(auto))); exact E.
  - destruct op; cbn [arith_ins mbind option_bind] in Ea, Hv; try done; cbn [Vm.exec exec_unary exec_const].
    + unfold RD. by rewrite (mr_reg _ _ _ M _ _ Hv).
    + apply bind_Some in Hv as (x & Hx & [= <-]). unfold RD. rewrite (mr_reg _ _ _ M _ _ Hx). cbn [mbind option_bind].
      rewrite nvalue_set by by eapply mr_range. cbn [negb is_number itype set_number type]. by rewrite <- put_same.
    + injection Hv as <-. by rewrite <- put_same.
    + destruct (kof_some _ _ _ Hv) as (k & Hk & Nk & _). rewrite Hk. cbn [mbind option_bind]. by rewrite Nk.
Qed.

(** The stack after an instruction. *)
Definition set_reg m (r v : Z) : vm (S := S) := with_stack m (<[Z.to_nat (base m + r) := CVal (set_number v)]> (stack m)).

Lemma get_set_reg m r v q : 0 <= base m + r < Z.of_nat (length (stack m)) ->
  get (set_reg m r v) (base m + q) = if decide (q = r) then Some (set_number v) else get m (base m + q).
Proof.
  intros Hr. unfold get, set_reg. rewrite cell_at_insert by done. repeat case_decide; try done; lia.
Qed.

Lemma mirrors_set m rf n r v : mirrors m rf n -> 0 <= r < n -> in_s 64 v -> mirrors (set_reg m r v) (<[r := v]> rf) n.
Proof.
  intros [B St R Ra] Hr Hv. split; [done|cbn; by rewrite length_insert| |].
  - intros q w Hq. change (base (set_reg m r v)) with (base m). rewrite get_set_reg by lia. case_decide as E.
    + subst q. rewrite lookup_insert_eq in Hq. congruence.
    + rewrite lookup_insert_ne in Hq by done. auto.
  - intros q w Hq. apply lookup_insert_Some in Hq as [[<- <-]|[_ Hq]]; eauto.
Qed.

Lemma dispatch_sim m rf n i rf' : mirrors m rf n -> code_at m (pc m) = Some i -> 0 <= bc_a i < n ->
  istep (kof m) i rf = Some rf' -> exists v, rf' = <[bc_a i := v]> rf /\ in_s 64 v /\ dispatch m = Some (Next (set_reg (skip m) (bc_a i) v)).
Proof.
  intros M Hc Ha (v & Hv & [= <-])%bind_Some. exists v. split_and!; [done|by eapply ival_range|].
  assert (M' : mirrors (skip m) rf n) by by destruct M.
  pose proof Hv as Hv'. apply bind_Some in Hv' as (op & Hop & _). unfold Vm.dispatch. rewrite Hc. cbn [mbind option_bind].
  rewrite Hop. cbn [mbind option_bind]. rewrite (exec_sim (skip m) rf n i op v M' Hop Hv).
  unfold next, put_number, put, RA. rewrite put_cell_ok; [done|]. destruct M. cbn. lia.
Qed.

(** Code [is] stands at the program counter. *)
Definition code_here m (il : list Z) : Prop := forall k i, il !! k = Some i -> code_at m (pc_add (pc m) (Z.of_nat k)) = Some i.

(** A stretch of code without jumps: the interpreter goes through it, changes only
    the stack, and ends behind it. *)
Lemma dispatches_sim il : forall m rf n rf', mirrors m rf n -> code_here m il -> Forall (λ i, 0 <= bc_a i < n) il ->
  iexec (kof m) il rf = Some rf' ->
  exists m' st, dispatches (length il) m = Some m' /\ m' = with_pc (with_stack m st) (pc_add (pc m) (Z.of_nat (length il))) /\ mirrors m' rf' n.
Proof.
  induction il as [|i il IH]; intros m rf n rf' M Hc HF Hx; cbn [iexec length dispatches] in *.
  - injection Hx as <-. exists m, (stack m). split_and!; [done| |done]. unfold pc_add. rewrite Z.add_0_r. by destruct m as [? ? ? ? ? ? ? ? ? []].
  - apply list.Forall_cons in HF as [Ha HF]. apply bind_Some in Hx as (rf1 & H1 & Hx).
    destruct (dispatch_sim m rf n i rf1 M) as (v & -> & Hv & Hd); [|done..|].
    { specialize (Hc 0%nat i eq_refl). unfold pc_add in Hc. rewrite Z.add_0_r in Hc. by destruct (pc m). }
    rewrite Hd. cbn [mbind option_bind]. set (m1 := set_reg (skip m) (bc_a i) v).
    destruct (IH m1 (<[bc_a i := v]> rf) n rf') as (m' & st & Hr & -> & M'); [|..|done| |].
    + apply mirrors_set; [by destruct M|done|done].
    + intros k j Hj. specialize (Hc (Datatypes.S k) j Hj). revert Hc. unfold code_at, pc_add. cbn.
      replace (pc_idx (pc m) + Z.of_nat (Datatypes.S k)) with (pc_idx (pc m) + 1 + Z.of_nat k) by lia. done.
    + done.
    + eexists _, st. split_and!; [done| |done]. unfold m1, set_reg, skip, with_pc, with_stack, with_frame, pc_add. cbn. f_equal.
      f_equal. lia.
Qed.

(** The frame uses the number constants [kn]. *)
Definition has_constants m (kn : list ktap_val) : Prop := exists p, h_protos (hp m) !! kbase m = Some p /\ vp_kn p = kn.

Lemma knows_loaded m kt k : has_constants m (fst k) -> (forall c v, slot kt c v -> resolves k v c) -> knows (kof m) kt.
Proof.
  intros (p & Hp & Ek) Hk c n Hs Hn. specialize (Hk _ _ Hs). unfold resolves in Hk. cbn [is_number itype set_number type] in Hk.
  unfold kof, knum_at. rewrite Hp. cbn [mbind option_bind]. rewrite Ek, Hk. cbn [mbind option_bind].
  rewrite nvalue_set by done. by apply slong_fits.
Qed.

(** Running [cs] from a state whose registers hold [rf] puts [v] into register [r],
    keeps the numbers in the registers below, changes nothing but the stack, and
    ends behind the code. *)
Definition computes m (cs : list (Z * Z)) (rf : regs) (r v : Z) : Prop := exists m' st, dispatches (length cs) m = Some m' /\
  m' = with_pc (with_stack m st) (pc_add (pc m) (Z.of_nat (length cs))) /\ get m' (base m + r) = Some (set_number v) /\
  forall q x, q < r -> rf !! q = Some x -> get m' (base m + q) = Some (set_number x).

(** C2.  Arithmetic is compiled correctly: for an expression of numbers, local variables
    and arithmetic operators, with folding that does not overflow and room for its
    constants, the generator is defined and, unless it reports that a limit is
    exceeded, appends code [cs] and leaves the result in the next free register;
    whenever that code and the finished constants are loaded and the variables hold
    numbers for which the expression has a value (no division by zero and no
    overflowing quotient), the interpreter executes exactly the instructions of
    [cs] and that register holds the value of the expression, modulo 2^64. *)
Theorem arith_compiled_computes ml a s f : gstate s f (nums a) -> vars_below (fs_nactvar f) a -> fold_ok a ->
  gwp (e <~ gen a ;; e <~ expr_tonextreg e ;; k <~ fs_fixup_k ml ;; gret (e, k)) s (λ r s', exists f' cs,
    cur_fs s' = Some f' /\ fs_code f' = fs_code f ++ cs /\ e_k (fst r) = VNONRELOC /\ e_info (fst r) = fs_freereg f /\
    forall m rf v, mirrors m rf (fs_framesize f') -> has_constants m (fst (snd r)) -> code_here m cs.*1 ->
      aeval rf a = Some v -> computes m cs rf (fs_freereg f) v).
Proof.
  intros G Hv HF. pose proof (gs_act _ _ _ G) as Hord. apply gwp_bind. eapply gwp_mono; [by apply (gen_spec a s f 0)|].
  cbv beta. intros e s1 (f1 & G1 & P1 & J1 & C1). apply gwp_bind. eapply gwp_mono.
  { eapply (tonextreg_spec s f s1 f1 0 (0 + pend e)); try done. split; [lia|]. intros Hk. right. unfold pend. rewrite is_k_true by done. lia. }
  cbv beta. intros e2 s2 (f2 & G2 & (P2 & J2 & K2) & I2 & R2 & _). apply gwp_bind.
  destruct (gs_room _ _ _ G2) as (_ & Hn & _ & Hg & _). eapply gwp_mono; [by apply (fs_fixup_k_spec ml s2 f2 (gs_k _ _ _ G2))|].
  cbv beta. intros k s3 [-> Hk]. apply gwp_ret. cbn [fst snd].
  destruct P2 as [? ? _ _ _ _|cs d _ S2 Hd L|? ? ? ? _ _ _ _]; [congruence| |congruence].
  exists f2, cs. split_and!; [by eapply gstate_fs|apply S2|done|done|]. intros m rf v M HK Hc Hev.
  destruct (L (kof m) rf v) as (rf1 & Hx & Ag & Hr); [by eapply knows_loaded|done|].
  destruct (dispatches_sim cs.*1 m rf (fs_framesize f2) rf1) as (m' & st & Hd' & -> & M'); [done..|by apply Forall_fmap, S2|done|].
  rewrite length_fmap in *. eexists _, st. split_and!; [done|done| |].
  - rewrite I2 in Hr. by apply (mr_reg _ _ _ M').
  - intros q x Hq Hx'. apply (mr_reg _ _ _ M'). by rewrite Ag.
Qed.

End ArithRun.

(** [x * (3 + 70000) - -y], with [x] and [y] in the first two registers. *)
Definition demo_aexp : aexp :=
  ABin NUMSUB (ABin NUMMUL (AVar 0) (ABin NUMADD (ANum 3) (ANum 70000))) (ANeg (AVar 1)).
Definition demo_arith_fs : FuncState := fset_nactvar (fset_freereg (fset_framesize demo_fs 2) 2) 2.
Definition demo_arith_state : pstate := with_fs demo_pstate demo_arith_fs.
Definition demo_arith : M (ExpDesc * (list ktap_val * list ugc)) :=
  e <~ gen demo_aexp ;; e <~ expr_tonextreg e ;; k <~ fs_fixup_k Z.of_nat ;; gret (e, k).

(** The instructions, the number constants and the frame size of the result. *)
Definition compiled_parts (r : option (perr + (ExpDesc * (list ktap_val * list ugc)) * pstate)) : option (list Z * list ktap_val * Z) :=
  match r with
  | Some (inr (ek, s')) => f ← cur_fs s'; Some ((fs_code f).*1, fst (snd ek), fs_framesize f)
  | _ => None
  end.
Definition demo_arith_code : list Z :=
  [BCINS_ABC (bcop_code BC_MULVN) 2 0 0; BCINS_AD (bcop_code BC_UNM) 3 1; BCINS_ABC (bcop_code BC_SUBVV) 2 2 3].
Definition demo_arith_proto : vproto := mkvp 0 0 4 demo_arith_code [] [] [set_number 70003].

(** A frame at slot 1 with 5 and 7 in its first registers. *)
Definition demo_arith_vm : vm (S := list bytes) :=
  mkvm ([CFrame 10 None; CVal (set_number 5); CVal (set_number 7)] ++ replicate 20 (CVal kp_niltv)) 5 23 0 1 0 10 20 20 (mkpc 20 0)
    0 0 [] [] (mkheap {[10 := mkfunc 20 []]} ∅ ∅ {[20 := demo_arith_proto]} 50 []) [] 40 [] kerr0 true None.

Lemma demo_arith_gstate : gstate demo_arith_state demo_arith_fs 2.
Proof.
  split.
  - split; [done|apply kinv_new].
  - unfold kroom. change (u_freetop (kt_of demo_arith_state)) with 1024%nat. cbn [fs_nkn fs_nkgc demo_arith_fs demo_fs fset_nactvar fset_freereg fset_framesize]. lia.
  - cbn. lia.
  - by apply (reports_same demo_jump_state), demo_reports.
  - done.
  - cbn. lia.
  - cbn. unfold KP_MAX_SLOTS. lia.
  - cbn. lia.
Qed.

Lemma arith_compiled_computes_witness : exists m',
  dispatches demo_alloc demo_ta demo_ctx demo_cf demo_arg 1 2 3 4 [115; 104] 9 100 12288 3 demo_arith_vm = Some m' /\
  get m' (1 + 2) = Some (set_number 350022).
Proof.
  assert (Hg : gwp demo_arith demo_arith_state (λ r s', exists f' cs,
    cur_fs s' = Some f' /\ fs_code f' = fs_code demo_arith_fs ++ cs /\ e_k (fst r) = VNONRELOC /\ e_info (fst r) = fs_freereg demo_arith_fs /\
    forall m rf v, mirrors m rf (fs_framesize f') -> has_constants m (fst (snd r)) -> code_here m cs.*1 -> aeval rf demo_aexp = Some v ->
      computes demo_alloc demo_ta demo_ctx demo_cf demo_arg 1 2 3 4 [115; 104] 9 100 12288 m cs rf (fs_freereg demo_arith_fs) v)).
  { apply (arith_compiled_computes demo_alloc demo_ta demo_ctx demo_cf demo_arg 1 2 3 4 [115; 104] 9 100 12288 Z.of_nat demo_aexp
      demo_arith_state demo_arith_fs demo_arith_gstate).
    - cbn. lia.
    - cbn -[in_s]. repeat split; intros; simplify_eq; unfold in_s; lia. }
  assert (Hp : compiled_parts (demo_arith demo_arith_state) = Some (demo_arith_code, [set_number 70003], 4)) by (vm_compute; reflexivity).
  assert (Hok : gok (demo_arith demo_arith_state) = true) by (vm_compute; reflexivity).
  destruct (gwp_ok _ _ _ Hg Hok) as ([e k] & s' & E & f' & cs & Hf & Hcs & _ & _ & Hrun). rewrite E in Hp. cbn [compiled_parts] in Hp.
  rewrite Hf in Hp. cbn [mbind option_bind fst snd] in Hp, Hrun. injection Hp as Hcode Hkn Hfr.
  change (fs_code f' = cs) in Hcs. rewrite Hcs in Hcode. clear E Hg Hok Hf Hcs.
  pose proof (f_equal length Hcode) as Hl. rewrite length_fmap in Hl. cbn [length demo_arith_code] in Hl.
  destruct (Hrun demo_arith_vm {[0 := 5; 1 := 7]} 350022) as (m' & st & Hd & _ & Hget & _).
  - rewrite Hfr. split; [cbn; lia|cbn; lia| |].
    + intros r v. rewrite lookup_insert_Some, lookup_singleton_Some. by intros [[<- <-]|[_ [<- <-]]].
    + intros r v. rewrite lookup_insert_Some, lookup_singleton_Some. intros [[<- <-]|[_ [<- <-]]]; unfold in_s; lia.
  - exists demo_arith_proto. split; [reflexivity|]. by rewrite Hkn.
  - rewrite Hcode. intros j i Hj. destruct j as [|[|[|j]]]; [injection Hj as <-; reflexivity..|done].
  - reflexivity.
  - rewrite Hl in Hd. exists m'. exact (conj Hd Hget).
Defined.
