(* ===== verification/StrFmt.v ===== *)
(** * StrFmt: formatted output ([kp_str_fmt] in [runtime/kp_str.c])

    The [printf] of the language: the format is walked from left to right, text is
    copied, and each conversion takes the next argument.  A pointer into the format
    is the rest of its bytes with the terminating zero.

    The sequence buffer is the kernel's: [trace_seq_putc] and [trace_seq_printf] are
    the record [seqops], with [SeqLaws] for what they do while there is room;
    [_trace_seq_puts] is code of the repository. *)

From S2P Require Import Prelude Types.
#[local] Open Scope word_scope.

(** ** The buffer *)

Definition PAGE_SIZE : Z := 4096.

Record trace_seq := mkseq { sq_buffer : bytes; sq_full : bool }.
Definition sq_len (q : trace_seq) : Z := Z.of_nat (length (sq_buffer q)).
Definition sq_append (q : trace_seq) (bs : bytes) : trace_seq := mkseq (sq_buffer q ++ bs) (sq_full q).

(** What C sees of a string: the bytes up to the first zero. *)
Fixpoint c_string (bs : bytes) : bytes :=
  match bs with [] => [] | b :: l => if b =? 0 then [] else b :: c_string l end.

Definition _trace_seq_puts (q : trace_seq) (str : bytes) : trace_seq :=
  if sq_full q then q
  else if Z.of_nat (length (c_string str)) >? PAGE_SIZE - 1 - sq_len q then mkseq (sq_buffer q) true
  else sq_append q (c_string str).

(** The kernel's operations, and the text [vsnprintf] makes of a number or a string. *)
Record seqops := mkops {
  trace_seq_putc : trace_seq -> Z -> trace_seq;
  trace_seq_printf_n : trace_seq -> bytes -> Z -> trace_seq;
  trace_seq_printf_s : trace_seq -> bytes -> bytes -> trace_seq;
  text_n : bytes -> Z -> bytes;
  text_s : bytes -> bytes -> bytes
}.

(** There is room for [bs] and a terminator. *)
Definition fits (q : trace_seq) (bs : bytes) : Prop := sq_full q = false /\ sq_len q + Z.of_nat (length bs) <= PAGE_SIZE - 2.

Record SeqLaws (ops : seqops) : Prop := {
  sl_putc : forall q c, fits q [c] -> trace_seq_putc ops q c = sq_append q [c];
  sl_printf_n : forall q form n, fits q (text_n ops form n) -> trace_seq_printf_n ops q form n = sq_append q (text_n ops form n);
  sl_printf_s : forall q form bs, fits q (text_s ops form bs) -> trace_seq_printf_s ops q form bs = sq_append q (text_s ops form bs)
}.

(** ** Conversion specifications *)

Definition FLAGS : bytes := byte_string "-+ #0".
Definition INTFRMLEN : bytes := byte_string "ll".
(** With the sizes of the two strings including their terminators. *)
Definition MAX_FORMAT : Z := 6 + 3 + 10.

Definition isdigit (c : Z) : bool := (48 <=? c) && (c <=? 57).
(** [*p]; reading behind the terminator is undefined. *)
Definition chr (p : bytes) : option Z := head p.
Definition is_flag (c : Z) : bool := negb (c =? 0) && bool_decide (c ∈ FLAGS).

Fixpoint skip_flags (p : bytes) : bytes :=
  match p with [] => [] | c :: l => if is_flag c then skip_flags l else p end.
Definition skip_digit (p : bytes) : bytes :=
  match p with c :: l => if isdigit c then l else p | [] => [] end.

(** The format in [form], without terminator, and the place of the conversion
    character; none for NULL.  A [form] that is too small is undefined. *)
Definition scanformat (k : kerr) (strfrmt : bytes) : option (option (bytes * bytes) * kerr) :=
  let p := skip_flags strfrmt in
  if Z.of_nat (length strfrmt - length p) >=? 6 then Some (None, kp_error "invalid format (repeated flags)" k)
  else
    let p := skip_digit (skip_digit p) in
    c ← chr p;
    let p := if c =? 46 then skip_digit (skip_digit (tail p)) else p in
    c ← chr p;
    if isdigit c then Some (None, kp_error "invalid format (width or precision too long)" k)
    else
      let form := 37 :: take (length strfrmt - length p + 1) strfrmt in
      if Z.of_nat (length form) + 1 <=? MAX_FORMAT then Some (Some (form, p), k) else ub.

(** Insert a length modifier in front of the conversion character. *)
Definition addlenmod (form lenmod : bytes) : option bytes :=
  spec ← list.last form;
  let r := take (length form - 1) form ++ lenmod ++ [spec] in
  if Z.of_nat (length r) + 1 <=? MAX_FORMAT then Some r else ub.

Definition arg_error (k : kerr) : kerr := kp_error "bad argument #%d: (%s)" k.
Definition arg_wrong (k : kerr) : kerr := kp_error "wrong type of argument %d" k.

(** ** [kp_str_fmt] *)

Section Fmt.
Context (ops : seqops).
(** The arguments, the bytes of strings, symbol names, and the text of the current
    event. *)
Context (kp_arg : Z -> option ktap_val) (argnum : Z).
Context (svalue : Z -> option bytes) (sprint_symbol : Z -> bytes) (kp_event_tostr : kerr -> option (option bytes * kerr)).

(** The outcome of a conversion: go on, or return a value. *)
Inductive fmt_res := FNext (q : trace_seq) | FRet (r : Z) (q : trace_seq) (k : kerr).

(** [kp_arg_checknumber] *)
Definition with_number (q : trace_seq) (k : kerr) (arg : Z) (f : Z -> option fmt_res) : option fmt_res :=
  v ← kp_arg arg;
  if is_number v then f (nvalue v) else Some (FRet (-1) q (arg_wrong k)).

Definition fmt_string (q : trace_seq) (k : kerr) (arg : Z) (form : bytes) : option fmt_res :=
  v ← kp_arg arg;
  if is_nil v then Some (FRet 0 (_trace_seq_puts q (byte_string "nil")) k)
  else if is_eventstr v then
    '(o, k) ← kp_event_tostr k;
    match o with
    | None => Some (FRet (-1) q k)
    | Some str => Some (FRet 0 (_trace_seq_puts q str) k)
    end
  else if negb (is_string v) then Some (FRet (-1) q (arg_wrong k))
  else
    s ← svalue (val v);
    if negb (bool_decide (46 ∈ form)) && (Z.of_nat (length s) >=? 100)
    then Some (FNext (_trace_seq_puts q s))
    else Some (FNext (trace_seq_printf_s ops q form (c_string s))).

Definition fmt_item (q : trace_seq) (k : kerr) (arg c : Z) (form : bytes) : option fmt_res :=
  if c =? 99 then with_number q k arg (λ n, Some (FNext (trace_seq_printf_n ops q form n)))
  else if (c =? 100) || (c =? 105) then
    with_number q k arg (λ n, form ← addlenmod form INTFRMLEN; Some (FNext (trace_seq_printf_n ops q form n)))
  else if c =? 112 then with_number q k arg (λ n, Some (FNext (_trace_seq_puts q (sprint_symbol n))))
  else if (c =? 111) || (c =? 117) || (c =? 120) || (c =? 88) then
    with_number q k arg (λ n, form ← addlenmod form INTFRMLEN; Some (FNext (trace_seq_printf_n ops q form (u64 n))))
  else if c =? 115 then fmt_string q k arg form
  else Some (FRet (-1) q (kp_error "invalid option '%%%c' to 'format'" k)).

(** The loop, from [p]; a rest of one byte is the terminator. *)
Fixpoint fmt_loop (fuel : nat) (q : trace_seq) (k : kerr) (arg : Z) (p : bytes) : option (Z * trace_seq * kerr) :=
  match fuel with
  | O => ub
  | S f =>
      if Z.of_nat (length p) <=? 1 then Some (0, q, k)
      else
        c ← chr p;
        if negb (c =? 37) then fmt_loop f (trace_seq_putc ops q c) k arg (tail p)
        else
          d ← chr (tail p);
          if d =? 37 then fmt_loop f (trace_seq_putc ops q d) k arg (tail (tail p))
          else if arg + 1 >? argnum then Some (-1, q, arg_error k)
          else
            '(o, k) ← scanformat k (tail p);
            match o with
            | None => ub                        (* NULL is dereferenced *)
            | Some (form, p) =>
                c ← chr p;
                r ← fmt_item q k (arg + 1) c form;
                match r with
                | FNext q => fmt_loop f q k (arg + 1) (tail p)
                | FRet r q k => Some (r, q, k)
                end
            end
  end.

(** The format is the first argument; its type is not tested. *)
Definition kp_str_fmt (q : trace_seq) (k : kerr) : option (Z * trace_seq * kerr) :=
  v ← kp_arg 1;
  if negb (is_string v) then ub
  else s ← svalue (val v); fmt_loop (S (length s)) q k 1 (s ++ [0]).

End Fmt.

(** ** The local buffer is large enough *)

Lemma skip_flags_suffix p : exists fl, p = fl ++ skip_flags p.
Proof. induction p as [|c l IH]; cbn; [by exists []|]. destruct (is_flag c); [|by exists []]. destruct IH as [fl E]. exists (c :: fl). cbn. by rewrite <- E. Qed.
Lemma skip_digit_suffix p : exists w, p = w ++ skip_digit p /\ (length w <= 1)%nat.
Proof. destruct p as [|c l]; cbn; [exists []; by auto|]. destruct (isdigit c); [exists [c]|exists []]; cbn; auto. Qed.

(** The precision: a dot and two digits at most. *)
Definition skip_precision (p : bytes) (c : Z) : bytes := if c =? 46 then skip_digit (skip_digit (tail p)) else p.

Lemma skip_precision_suffix p c : chr p = Some c -> exists w, p = w ++ skip_precision p c /\ (length w <= 3)%nat.
Proof.
  intros Hc. unfold skip_precision. destruct (c =? 46); [|exists []; split; [done|cbn; lia]].
  destruct p as [|d l]; [done|]. cbn [tail]. destruct (skip_digit_suffix l) as (w1 & E1 & L1).
  destruct (skip_digit_suffix (skip_digit l)) as (w2 & E2 & L2). exists (d :: w1 ++ w2). cbn [length app]. rewrite length_app.
  split; [|lia]. by rewrite <- app_assoc, <- E2, <- E1.
Qed.

(** A pointer into a string with its terminator. *)
Definition term (p : bytes) : Prop := exists l, p = l ++ [0].

Lemma term_tail c l : c <> 0 -> term (c :: l) -> term l.
Proof. intros Hc [[|d m] E]; cbn in E; simplify_eq. by exists m. Qed.
Lemma term_flags p : term p -> term (skip_flags p).
Proof.
  induction p as [|c l IH]; cbn; [done|]. intros H. unfold is_flag. destruct (Z.eqb_spec c 0); [done|].
  destruct (negb false && _); [|done]. by eapply IH, term_tail.
Qed.
Lemma term_digit p : term p -> term (skip_digit p).
Proof.
  destruct p as [|c l]; cbn; [done|]. intros H. destruct (isdigit c) eqn:E; [|done]. eapply term_tail; [|done].
  intros ->. done.
Qed.
Lemma term_chr p : term p -> exists c, chr p = Some c.
Proof. intros [l ->]. destruct l; by eexists. Qed.
Lemma term_precision p c : chr p = Some c -> term p -> term (skip_precision p c).
Proof.
  intros Hc H. unfold skip_precision. destruct (Z.eqb_spec c 46) as [->|]; [|done]. destruct p as [|d l]; [done|].
  injection Hc as ->. by apply term_digit, term_digit, (term_tail 46).
Qed.

(** What a scan finds: the conversion character is not a digit, and the copy has
    five flags, two digits of width, and three bytes of precision at most. *)
Definition scanned (p : bytes) (o : option (bytes * bytes)) : Prop :=
  match o with
  | Some (form, r) => (2 <= length form <= 12)%nat /\ term r /\ (length r <= length p)%nat
  | None => True
  end.

Lemma scanformat_fits k p : term p -> exists o k', scanformat k p = Some (o, k') /\ scanned p o.
Proof.
  intros Ht. unfold scanformat. cbv zeta. destruct (skip_flags_suffix p) as [fl Ef]. pose proof (term_flags p Ht) as T1.
  set (p1 := skip_flags p) in *. destruct (_ >=? _) eqn:E6; [by eexists _, _|].
  assert (Lf : (length fl <= 5)%nat).
  { rewrite Z.geb_leb in E6. apply Z.leb_gt in E6. rewrite Ef, length_app in E6. lia. }
  destruct (skip_digit_suffix p1) as (w1 & E1 & L1). pose proof (term_digit _ T1) as T2.
  destruct (skip_digit_suffix (skip_digit p1)) as (w2 & E2 & L2). pose proof (term_digit _ T2) as T3.
  set (p3 := skip_digit (skip_digit p1)) in *. destruct (term_chr _ T3) as [c Hc]. rewrite Hc. cbn [mbind option_bind].
  destruct (skip_precision_suffix p3 c Hc) as (w3 & E3 & L3). pose proof (term_precision _ _ Hc T3) as T4.
  fold (skip_precision p3 c). set (p4 := skip_precision p3 c) in *. destruct (term_chr _ T4) as [d Hd]. rewrite Hd.
  cbn [mbind option_bind]. destruct (isdigit d); [by eexists _, _|].
  assert (Ep : p = (fl ++ w1 ++ w2 ++ w3) ++ p4) by (rewrite Ef, E1, E2, E3 at 1; by rewrite <- !app_assoc).
  assert (Lp : (length p - length p4 <= 10)%nat) by (rewrite Ep, !length_app; lia).
  assert (Hp4 : (1 <= length p4 <= length p)%nat) by (split; [destruct p4; [done|cbn; lia]|rewrite Ep, !length_app; lia]).
  assert (Lform : (2 <= length (37%Z :: take (length p - length p4 + 1) p) <= 12)%nat) by (cbn; rewrite length_take; lia).
  rewrite (proj2 (Z.leb_le _ _)) by (unfold MAX_FORMAT; lia). eexists _, _. split; [done|]. cbn. split_and!; [cbn in Lform; lia..|done|lia].
Qed.

Lemma addlenmod_fits form : (1 <= length form <= 12)%nat -> exists r, addlenmod form INTFRMLEN = Some r.
Proof.
  intros Hl. unfold addlenmod. destruct (list.last form) as [c|] eqn:E; [|apply last_None in E; subst; cbn in Hl; lia].
  cbn [mbind option_bind]. rewrite (proj2 (Z.leb_le _ _)); [by eexists|].
  rewrite !length_app, length_take. change (length INTFRMLEN) with 2%nat. cbn [length]. unfold MAX_FORMAT. lia.
Qed.

Lemma term_rest c l : l <> [] -> term (c :: l) -> term l.
Proof. intros Hl [[|d m] E]; cbn in E; simplify_eq. by exists m. Qed.

Section Safe.
Context (ops : seqops) (kp_arg : Z -> option ktap_val) (argnum : Z).
Context (svalue : Z -> option bytes) (sprint_symbol : Z -> bytes) (kp_event_tostr : kerr -> option (option bytes * kerr)).
(** The arguments are on the stack, and strings are strings. *)
Definition args_ok : Prop := forall i, 1 <= i <= argnum ->
  exists v, kp_arg i = Some v /\ (is_string v = true -> is_Some (svalue (val v))).
Hypothesis Hargs : args_ok.
Hypothesis Htostr : forall k, is_Some (kp_event_tostr k).

Lemma with_number_some q k arg (f : Z -> option fmt_res) : 1 <= arg <= argnum -> (forall n, is_Some (f n)) ->
  is_Some (with_number kp_arg q k arg f).
Proof using Hargs.
  intros Ha Hf. destruct (Hargs arg Ha) as (v & Ev & _). unfold with_number. rewrite Ev. cbn. destruct (is_number v); [apply Hf|by eexists].
Qed.

Lemma fmt_item_some q k arg c form : 1 <= arg <= argnum -> (1 <= length form <= 12)%nat ->
  is_Some (fmt_item ops kp_arg svalue sprint_symbol kp_event_tostr q k arg c form).
Proof using Hargs Htostr.
  intros Ha Hl. destruct (addlenmod_fits form Hl) as [r Er]. unfold fmt_item. rewrite Er.
  repeat case_match; try (apply with_number_some; [done|by eexists]); [|by eexists].
  unfold fmt_string. destruct (Hargs arg Ha) as (v & Ev & Hs). rewrite Ev. cbn [mbind option_bind].
  destruct (is_nil v); [by eexists|]. destruct (is_eventstr v); [destruct (Htostr k) as [[[] ?] ->]; by eexists|].
  destruct (is_string v); [|by eexists]. cbn [negb]. destruct (Hs eq_refl) as [s ->]. cbn. case_match; by eexists.
Qed.

(** [p] has a conversion the scan of which gives NULL. *)
Definition bad_spec (p : bytes) : Prop := exists l p' k k', p = l ++ 37 :: p' /\ scanformat k p' = Some (None, k').

Lemma bad_spec_app w p : bad_spec p -> bad_spec (w ++ p).
Proof. intros (l & p' & k & k' & -> & E). exists (w ++ l), p', k, k'. by rewrite app_assoc. Qed.

Lemma scanformat_suffix k p form r k' : scanformat k p = Some (Some (form, r), k') -> exists w, p = w ++ r.
Proof.
  unfold scanformat. cbv zeta. destruct (_ >=? _); [done|]. intros (c & Hc & H)%bind_Some. apply bind_Some in H as (d & _ & H).
  destruct (isdigit d); [done|]. destruct (_ <=? _); [|done]. injection H as <- <- <-.
  destruct (skip_flags_suffix p) as [fl Ef]. destruct (skip_digit_suffix (skip_flags p)) as (w1 & E1 & _).
  destruct (skip_digit_suffix (skip_digit (skip_flags p))) as (w2 & E2 & _). destruct (skip_precision_suffix _ c Hc) as (w3 & E3 & _).
  exists (fl ++ w1 ++ w2 ++ w3). fold (skip_precision (skip_digit (skip_digit (skip_flags p))) c).
  by rewrite <- !app_assoc, <- E3, <- E2, <- E1.
Qed.

Lemma fmt_loop_safe fuel : forall q k arg p, term p -> (length p <= fuel)%nat -> 1 <= arg ->
  is_Some (fmt_loop ops kp_arg argnum svalue sprint_symbol kp_event_tostr fuel q k arg p) \/ bad_spec p.
Proof using Hargs Htostr.
  induction fuel as [|fuel IH]; intros q k arg p Ht Hf Ha; [destruct Ht as [l ->]; rewrite length_app in Hf; cbn in Hf; lia|].
  cbn [fmt_loop]. destruct (Z.leb_spec (Z.of_nat (length p)) 1) as [|Hlen]; [left; by eexists|].
  destruct p as [|c l]; [cbn in Hlen; lia|]. change (chr (c :: l)) with (Some c). cbn [mbind option_bind tail]. cbn [length] in Hf, Hlen.
  assert (Hl : term l) by (eapply term_rest; [|done]; intros ->; cbn in Hlen; lia).
  assert (Hnext : forall q k arg, 1 <= arg -> is_Some (fmt_loop ops kp_arg argnum svalue sprint_symbol kp_event_tostr fuel q k arg l) \/ bad_spec (c :: l)).
  { intros q' k' arg' Ha'. destruct (IH q' k' arg' l Hl ltac:(lia) Ha') as [?|Hb]; [by left|right; by apply (bad_spec_app [c])]. }
  destruct (Z.eqb_spec c 37) as [->|]; cbn [negb]; [|by apply Hnext].
  destruct (term_chr _ Hl) as [d Hd]. rewrite Hd. cbn [mbind option_bind].
  destruct (Z.eqb_spec d 37) as [->|].
  { destruct l as [|d l']; [done|]. injection Hd as ->. cbn [tail length] in *.
    destruct (IH (trace_seq_putc ops q 37) k arg l' (term_tail 37 l' ltac:(lia) Hl) ltac:(lia) Ha) as [?|Hb]; [by left|].
    right. by apply (bad_spec_app [37; 37]). }
  destruct (Z.gtb_spec (arg + 1) argnum); [left; by eexists|].
  destruct (scanformat_fits k l Hl) as (o & k' & Es & Ho). rewrite Es. cbn [mbind option_bind].
  destruct o as [[form r]|]; [|right; by exists [], l, k, k']. destruct Ho as (Hform & Hr & Hlr).
  destruct (scanformat_suffix _ _ _ _ _ Es) as [w Ew].
  destruct (term_chr _ Hr) as [e He]. rewrite He. cbn [mbind option_bind].
  destruct (fmt_item_some q k' (arg + 1) e form) as [res Hres]; [lia|lia|]. rewrite Hres. cbn [mbind option_bind].
  destruct res as [q'|r' q' k'']; [|left; by eexists]. destruct r as [|e' r]; [done|]. cbn [tail length] in *.
  destruct (decide (r = [])) as [->|Hne].
  - left. destruct fuel; [lia|]. cbn [fmt_loop]. by eexists.
  - destruct (IH q' k' (arg + 1) r (term_rest e' r Hne Hr) ltac:(lia) ltac:(lia)) as [?|Hb]; [by left|right].
    rewrite Ew. change (37 :: w ++ e' :: r) with ((37 :: w) ++ [e'] ++ r). by apply bad_spec_app, bad_spec_app.
Qed.
End Safe.

(** C35.  Formatting is memory safe but for one case: with a string as format, its
    arguments on the stack and the text of the event defined, every conversion fits
    the local buffer of nineteen bytes, the walk ends, and nothing is undefined, unless the format has
    a conversion with more than five flags or more than two digits, whose scan
    reports an error and returns NULL, which the caller dereferences. *)
Theorem kp_str_fmt_safe ops kp_arg argnum svalue sprint_symbol tostr q k v s :
  kp_arg 1 = Some v -> is_string v = true -> svalue (val v) = Some s -> args_ok kp_arg argnum svalue -> (forall k, is_Some (tostr k)) ->
  is_Some (kp_str_fmt ops kp_arg argnum svalue sprint_symbol tostr q k) \/ bad_spec (s ++ [0]).
Proof.
  intros Hv Hs Eb Hargs Ht. unfold kp_str_fmt. rewrite Hv. cbn [mbind option_bind]. rewrite Hs. cbn [negb]. rewrite Eb.
  cbn [mbind option_bind]. apply fmt_loop_safe; [done|done|by exists s| |lia]. rewrite length_app. cbn. lia.
Qed.

(** ** What is printed *)

(** A conversion without its character: flags, width and precision. *)
Definition valid_spec (sp : bytes) : Prop := exists fl w pr, sp = fl ++ w ++ pr /\
  Forall (λ c, is_flag c = true) fl /\ (length fl <= 5)%nat /\
  (w = [] \/ (exists d, w = [d] /\ isdigit d = true /\ is_flag d = false) \/
    exists d e, w = [d; e] /\ isdigit d = true /\ is_flag d = false /\ isdigit e = true) /\
  (pr = [] \/ pr = [46] \/ (exists d, pr = [46; d] /\ isdigit d = true) \/
    exists d e, pr = [46; d; e] /\ isdigit d = true /\ isdigit e = true).

(** Not part of a specification. *)
Definition conv_char (c : Z) : Prop := is_flag c = false /\ isdigit c = false /\ c <> 46 /\ c <> 37.

Lemma skip_flags_app fl p : Forall (λ c, is_flag c = true) fl -> (forall c, chr p = Some c -> is_flag c = false) ->
  skip_flags (fl ++ p) = p.
Proof.
  intros HF Hp. induction HF as [|c fl Hc _ IH]; cbn.
  - destruct p as [|c l]; cbn; [done|]. by rewrite (Hp c).
  - by rewrite Hc.
Qed.
Lemma skip_digit_no c l : isdigit c = false -> skip_digit (c :: l) = c :: l.
Proof. intros E. cbn. by rewrite E. Qed.
Lemma skip_digit_yes c l : isdigit c = true -> skip_digit (c :: l) = l.
Proof. intros E. cbn. by rewrite E. Qed.

Lemma scanformat_valid k sp c r : valid_spec sp -> conv_char c -> scanformat k (sp ++ c :: r) = Some (Some (37 :: sp ++ [c], c :: r), k).
Proof.
  intros (fl & w & pr & -> & Hfl & Lfl & Hw & Hpr) (Cf & Cd & C46 & _). unfold scanformat. cbv zeta.
  assert (D46 : isdigit 46 = false) by done. assert (F46 : is_flag 46 = false) by done.
  assert (E1 : skip_flags ((fl ++ w ++ pr) ++ c :: r) = w ++ pr ++ c :: r).
  { rewrite <- !app_assoc. apply skip_flags_app; [done|]. intros d Hd.
    destruct Hw as [->|[(x & -> & _ & Hx)|(x & y & -> & _ & Hx & _)]]; [|cbn in Hd; congruence..].
    destruct Hpr as [->|[->|[(x & -> & _)|(x & y & -> & _)]]]; cbn in Hd; congruence. }
  rewrite E1. assert (Elen : (length ((fl ++ w ++ pr) ++ c :: r) - length (w ++ pr ++ c :: r) = length fl)%nat).
  { rewrite !length_app. lia. }
  rewrite Elen. destruct (Z.geb_spec (Z.of_nat (length fl)) 6); [lia|].
  assert (E2 : skip_digit (skip_digit (w ++ pr ++ c :: r)) = pr ++ c :: r).
  { destruct Hw as [->|[(x & -> & Hx & _)|(x & y & -> & Hx & _ & Hy)]]; cbn [app].
    - destruct Hpr as [->|[->|[(x & -> & _)|(x & y & -> & _)]]]; cbn [app]; by rewrite !skip_digit_no by done.
    - rewrite skip_digit_yes by done. destruct Hpr as [->|[->|[(d & -> & _)|(d & e & -> & _)]]]; cbn [app]; by rewrite skip_digit_no by done.
    - rewrite skip_digit_yes by done. by rewrite skip_digit_yes. }
  rewrite E2.
  assert (E3 : exists d, chr (pr ++ c :: r) = Some d /\ (if d =? 46 then skip_digit (skip_digit (tail (pr ++ c :: r))) else pr ++ c :: r) = c :: r).
  { destruct Hpr as [->|[->|[(x & -> & Hx)|(x & y & -> & Hx & Hy)]]]; cbn [app]; (eexists; split; [done|]); cbn [tail].
    - by rewrite (proj2 (Z.eqb_neq _ _) C46).
    - change (46 =? 46) with true. by rewrite !skip_digit_no.
    - change (46 =? 46) with true. by rewrite skip_digit_yes, skip_digit_no.
    - change (46 =? 46) with true. by rewrite !skip_digit_yes. }
  destruct E3 as (d & Hd & Ed). rewrite Hd. cbn [mbind option_bind]. rewrite Ed. change (chr (c :: r)) with (Some c).
  cbn [mbind option_bind]. rewrite Cd.
  assert (Lw : (length w <= 2)%nat) by (destruct Hw as [->|[(x & -> & _)|(x & y & -> & _)]]; cbn; lia).
  assert (Lp : (length pr <= 3)%nat) by (destruct Hpr as [->|[->|[(x & -> & _)|(x & y & -> & _)]]]; cbn; lia).
  assert (Et : take (length ((fl ++ w ++ pr) ++ c :: r) - length (c :: r) + 1) ((fl ++ w ++ pr) ++ c :: r) = (fl ++ w ++ pr) ++ [c]).
  { rewrite (length_app _ (c :: r)), Nat.add_sub, take_app_ge, Nat.add_comm by lia.
    replace (1 + length (fl ++ w ++ pr) - length (fl ++ w ++ pr))%nat with 1%nat by lia. done. }
  rewrite Et. rewrite (proj2 (Z.leb_le _ _)); [done|]. cbn [length]. rewrite !length_app. cbn [length]. unfold MAX_FORMAT. lia.
Qed.

(** A piece of a format: a byte, a percent sign, or a conversion with the value of
    its argument. *)
Inductive item := ILit (c : Z) | IPct | IConv (sp : bytes) (c : Z) (v : ktap_val).

Definition show_item (i : item) : bytes :=
  match i with ILit c => [c] | IPct => [37; 37] | IConv sp c _ => 37 :: sp ++ [c] end.
Definition show_items (l : list item) : bytes := mjoin (show_item <$> l).

Section Items.
Context (ops : seqops) (laws : SeqLaws ops) (kp_arg : Z -> option ktap_val) (argnum : Z).
Context (svalue : Z -> option bytes) (sprint_symbol : Z -> bytes) (tostr : kerr -> option (option bytes * kerr)).

Definition int_form (sp : bytes) (c : Z) : bytes := 37 :: sp ++ INTFRMLEN ++ [c].

(** The text of a conversion, if its argument has the right type. *)
Definition conv_text (sp : bytes) (c : Z) (v : ktap_val) : option bytes :=
  if c =? 115 then
    if is_string v then
      s ← svalue (val v);
      Some (if negb (bool_decide (46 ∈ 37 :: sp ++ [c])) && (Z.of_nat (length s) >=? 100) then c_string s
            else text_s ops (37 :: sp ++ [c]) (c_string s))
    else None
  else if negb (is_number v) then None
  else if c =? 99 then Some (text_n ops (37 :: sp ++ [c]) (nvalue v))
  else if (c =? 100) || (c =? 105) then Some (text_n ops (int_form sp c) (nvalue v))
  else if c =? 112 then Some (c_string (sprint_symbol (nvalue v)))
  else if (c =? 111) || (c =? 117) || (c =? 120) || (c =? 88) then Some (text_n ops (int_form sp c) (u64 (nvalue v)))
  else None.

Definition item_text (i : item) : option bytes :=
  match i with ILit c => Some [c] | IPct => Some [37] | IConv sp c v => conv_text sp c v end.

Definition item_ok (i : item) : Prop :=
  match i with ILit c => c <> 37 | IPct => True | IConv sp _ _ => valid_spec sp end.

(** The conversions take the arguments behind [arg] in order. *)
Fixpoint takes_args (arg : Z) (l : list item) : Prop :=
  match l with
  | [] => True
  | IConv _ _ v :: l => arg + 1 <= argnum /\ kp_arg (arg + 1) = Some v /\ takes_args (arg + 1) l
  | _ :: l => takes_args arg l
  end.

Lemma fits_app q a b : fits q (a ++ b) -> fits q a /\ fits (sq_append q a) b.
Proof. unfold fits, sq_len, sq_append. cbn. rewrite !length_app. intros [? ?]. split_and!; try done; lia. Qed.
Lemma append_app q a b : sq_append (sq_append q a) b = sq_append q (a ++ b).
Proof. unfold sq_append. cbn. by rewrite app_assoc. Qed.

Lemma puts_fits q bs : fits q (c_string bs) -> _trace_seq_puts q bs = sq_append q (c_string bs).
Proof.
  intros [Hf Hl]. unfold _trace_seq_puts. rewrite Hf. destruct (Z.gtb_spec (Z.of_nat (length (c_string bs))) (PAGE_SIZE - 1 - sq_len q)); [lia|done].
Qed.

Lemma addlenmod_form sp c : (length sp <= 10)%nat -> addlenmod (37 :: sp ++ [c]) INTFRMLEN = Some (int_form sp c).
Proof.
  intros Hl. unfold addlenmod. change (37 :: sp ++ [c]) with ((37 :: sp) ++ [c]). rewrite last_snoc. cbn [mbind option_bind].
  replace (length ((37%Z :: sp) ++ [c]) - 1)%nat with (length (37%Z :: sp)) by (rewrite length_app; cbn; lia).
  rewrite take_app_length. rewrite (proj2 (Z.leb_le _ _)); [done|]. rewrite !length_app. cbn [length]. change (length INTFRMLEN) with 2%nat. unfold MAX_FORMAT. lia.
Qed.

Lemma valid_spec_length sp : valid_spec sp -> (length sp <= 10)%nat.
Proof.
  intros (fl & w & pr & -> & _ & Lf & Hw & Hp). rewrite !length_app.
  assert (length w <= 2)%nat by (destruct Hw as [->|[(? & -> & _)|(? & ? & -> & _)]]; cbn; lia).
  assert (length pr <= 3)%nat by (destruct Hp as [->|[->|[(? & -> & _)|(? & ? & -> & _)]]]; cbn; lia). lia.
Qed.

Lemma fmt_item_text q k arg sp c v t : kp_arg arg = Some v -> valid_spec sp -> conv_text sp c v = Some t -> fits q t ->
  fmt_item ops kp_arg svalue sprint_symbol tostr q k arg c (37 :: sp ++ [c]) = Some (FNext (sq_append q t)) /\ conv_char c.
Proof using laws.
  intros Hv Hsp Ht Hq. pose proof (addlenmod_form sp c (valid_spec_length sp Hsp)) as El.
  unfold conv_text in Ht. unfold fmt_item, with_number. rewrite Hv. cbn [mbind option_bind].
  destruct (Z.eqb_spec c 115) as [->|N115].
  - split; [|by split_and!]. change (115 =? 99) with false. change ((115 =? 100) || (115 =? 105)) with false.
    change (115 =? 112) with false. change ((115 =? 111) || (115 =? 117) || (115 =? 120) || (115 =? 88)) with false.
    unfold fmt_string. rewrite Hv. cbn [mbind option_bind]. destruct (is_string v) eqn:Es; [|done].
    assert (En : is_nil v = false /\ is_eventstr v = false).
    { unfold is_string, is_nil, is_eventstr in *. apply Z.eqb_eq in Es. by rewrite Es. }
    destruct En as [-> ->]. cbn [negb]. apply bind_Some in Ht as (s & -> & Ht). cbn [mbind option_bind]. injection Ht as <-.
    destruct (_ && _); [by rewrite puts_fits|by rewrite (sl_printf_s _ laws)].
  - destruct (is_number v); [|done]. cbn [negb] in Ht. rewrite El. cbn [mbind option_bind].
    destruct (Z.eqb_spec c 99) as [->|N99].
    { injection Ht as <-. split; [by rewrite (sl_printf_n _ laws)|by split_and!]. }
    destruct ((c =? 100) || (c =? 105)) eqn:E1.
    { injection Ht as <-. apply orb_true_iff in E1 as [->%Z.eqb_eq| ->%Z.eqb_eq]; (split; [by rewrite (sl_printf_n _ laws)|by split_and!]). }
    destruct (Z.eqb_spec c 112) as [->|N112].
    { injection Ht as <-. split; [by rewrite puts_fits|by split_and!]. }
    destruct ((c =? 111) || (c =? 117) || (c =? 120) || (c =? 88)) eqn:E2; [|done]. injection Ht as <-.
    split; [by rewrite (sl_printf_n _ laws)|].
    repeat (apply orb_true_iff in E2 as [E2|E2]); apply Z.eqb_eq in E2; subst; by split_and!.
Qed.

Lemma fmt_loop_items l : forall fuel q k arg ts, Forall item_ok l -> mapM item_text l = Some ts -> takes_args arg l ->
  fits q (mjoin ts) -> (length (show_items l) < fuel)%nat ->
  fmt_loop ops kp_arg argnum svalue sprint_symbol tostr fuel q k arg (show_items l ++ [0]) = Some (0, sq_append q (mjoin ts), k).
Proof using laws.
  induction l as [|i l IH]; intros fuel q k arg ts HF Hts Ha Hq Hf; (destruct fuel as [|fuel]; [lia|]).
  - injection Hts as <-. cbn. unfold sq_append. cbn. rewrite app_nil_r. by destruct q.
  - apply list.Forall_cons in HF as [Hi HF]. cbn [mapM] in Hts. apply bind_Some in Hts as (t & Ht & (ts' & Hts' & [= <-])%bind_Some).
    cbn [mjoin list_join] in Hq |- *. apply fits_app in Hq as [Hq1 Hq2]. rewrite <- append_app.
    assert (Es : show_items (i :: l) = show_item i ++ show_items l) by done. rewrite Es in *. rewrite <- app_assoc. rewrite length_app in Hf.
    cbn [fmt_loop]. destruct (Z.leb_spec (Z.of_nat (length (show_item i ++ show_items l ++ [0]))) 1) as [Hle|_].
    { exfalso. rewrite !length_app in Hle. destruct i; cbn [show_item length] in Hle; rewrite ?length_app in Hle; cbn in Hle; lia. }
    destruct i as [c| |sp c v]; cbn [show_item app item_text item_ok takes_args] in *.
    + change (chr (c :: ?l)) with (Some c). cbn [mbind option_bind tail]. rewrite (proj2 (Z.eqb_neq _ _) Hi). cbn [negb].
      injection Ht as <-. rewrite (sl_putc _ laws) by done. apply IH; try done. cbn in Hf. lia.
    + injection Ht as <-. change (chr (37 :: ?l)) with (Some 37). cbn [mbind option_bind tail]. change (negb (37 =? 37)) with false. cbv iota.
      change (chr (37 :: ?l)) with (Some 37). cbn [mbind option_bind tail]. change (37 =? 37) with true. cbv iota.
      rewrite (sl_putc _ laws) by done. apply IH; try done. cbn in Hf. lia.
    + destruct Ha as (Hn & Hv & Ha). destruct (fmt_item_text q k (arg + 1) sp c v t Hv Hi Ht Hq1) as [Hitem Hc].
      change (chr (37 :: ?l)) with (Some 37). cbn [mbind option_bind tail]. change (negb (37 =? 37)) with false. cbv iota.
      rewrite <- app_assoc. cbn [app].
      assert (Hd : exists d, chr (sp ++ c :: show_items l ++ [0]) = Some d /\ (d =? 37) = false).
      { destruct sp as [|d sp']; [exists c; split; [done|apply Z.eqb_neq, Hc]|]. exists d. split; [done|]. apply Z.eqb_neq. intros ->.
        destruct Hi as (fl & w & pr & E & Hfl & _ & Hw & Hp). destruct fl as [|x fl]; [|cbn in E; injection E as <- _; by apply list.Forall_cons in Hfl as [? _]].
        destruct Hw as [->|[(x & -> & Hx & _)|(x & y & -> & Hx & _)]]; [|cbn in E; by simplify_eq..].
        destruct Hp as [->|[->|[(x & -> & _)|(x & y & -> & _)]]]; cbn in E; by simplify_eq. }
      destruct Hd as (d & Hd & Hd37). rewrite Hd. cbn [mbind option_bind]. rewrite Hd37.
      destruct (Z.gtb_spec (arg + 1) argnum); [lia|]. rewrite scanformat_valid by done. cbn [mbind option_bind].
      change (chr (c :: ?l)) with (Some c). cbn [mbind option_bind]. rewrite Hitem. cbn [mbind option_bind tail].
      apply IH; try done. cbn [length] in Hf. lia.
Qed.

(** C20.  Formatting prints the format: whatever sequence of bytes, percent signs and
    valid conversions a format consists of, if the arguments behind the format have
    the types of the conversions and the text fits the page, the call succeeds and
    appends the bytes, one percent sign for two, and for each conversion the text
    of its argument, with the length modifier of a long long for integers. *)
Theorem kp_str_fmt_prints l ts q k v s : Forall item_ok l -> mapM item_text l = Some ts -> takes_args 1 l -> fits q (mjoin ts) ->
  kp_arg 1 = Some v -> is_string v = true -> svalue (val v) = Some s -> s = show_items l ->
  kp_str_fmt ops kp_arg argnum svalue sprint_symbol tostr q k = Some (0, sq_append q (mjoin ts), k).
Proof using laws.
  intros HF Hts Ha Hq Hv Hs Eb ->. unfold kp_str_fmt. rewrite Hv. cbn [mbind option_bind]. rewrite Hs. cbn [negb]. rewrite Eb.
  cbn [mbind option_bind]. apply fmt_loop_items; try done. lia.
Qed.
End Items.

(** A kernel that prints numbers as one byte, and three arguments: a format, a
    number and a string. *)
Definition demo_append (q : trace_seq) (bs : bytes) : trace_seq :=
  if sq_full q || (sq_len q + Z.of_nat (length bs) >? PAGE_SIZE - 2) then mkseq (sq_buffer q) true else sq_append q bs.
Definition demo_ops : seqops :=
  mkops (λ q c, demo_append q [c]) (λ q _ n, demo_append q [u8 n]) (λ q _ bs, demo_append q bs) (λ _ n, [u8 n]) (λ _ bs, bs).
Definition demo_format : bytes := byte_string "a%%%-5d%s".
Definition demo_items : list item := [ILit 97; IPct; IConv (byte_string "-5") 100 (set_number 42); IConv [] 115 (set_string 2)].
Definition demo_fmt_arg (i : Z) : option ktap_val :=
  if i =? 1 then Some (set_string 1) else if i =? 2 then Some (set_number 42) else if i =? 3 then Some (set_string 2) else None.
Definition demo_svalue (a : Z) : option bytes := if a =? 1 then Some demo_format else if a =? 2 then Some [98; 99] else None.

Lemma demo_seq_laws : SeqLaws demo_ops.
Proof.
  assert (H : forall q bs, fits q bs -> demo_append q bs = sq_append q bs).
  { intros q bs [Hf Hl]. unfold demo_append. rewrite Hf. destruct (Z.gtb_spec (sq_len q + Z.of_nat (length bs)) (PAGE_SIZE - 2)); [lia|done]. }
  split; intros; by apply H.
Qed.

Lemma kp_str_fmt_prints_witness :
  kp_str_fmt demo_ops demo_fmt_arg 3 demo_svalue (λ _, []) (λ k, Some (None, k)) (mkseq [] false) kerr0 = Some (0, mkseq [97; 37; 42; 98; 99] false, kerr0).
Proof.
  apply (kp_str_fmt_prints demo_ops demo_seq_laws demo_fmt_arg 3 demo_svalue (λ _, []) (λ k, Some (None, k)) demo_items
    [[97]; [37]; [42]; [98; 99]] (mkseq [] false) kerr0 (set_string 1) demo_format); try done.
  repeat (apply list.Forall_cons; split); try done; cbn.
  - exists (byte_string "-"), (byte_string "5"), []. split_and!; [done|by repeat constructor|cbn; lia|right; left; by eexists|by left].
  - exists [], [], []. split_and!; [done|done|cbn; lia|by left|by left].
Defined.

Lemma kp_str_fmt_safe_witness :
  is_Some (kp_str_fmt demo_ops demo_fmt_arg 3 demo_svalue (λ _, []) (λ k, Some (None, k)) (mkseq [] false) kerr0) \/ bad_spec (demo_format ++ [0]).
Proof.
  apply (kp_str_fmt_safe demo_ops demo_fmt_arg 3 demo_svalue (λ _, []) (λ k, Some (None, k)) (mkseq [] false) kerr0 (set_string 1) demo_format); try done.
  intros i Hi. assert (i = 1 \/ i = 2 \/ i = 3) as [->|[->| ->]] by lia.
  - exists (set_string 1). split; [reflexivity|]. intros _. exists demo_format. reflexivity.
  - exists (set_number 42). split; [reflexivity|]. discriminate.
  - exists (set_string 2). split; [reflexivity|]. intros _. exists [98; 99]. reflexivity.
Defined.
