(* ===== verification/Hist.v ===== *)
(** * Hist: histograms of tables ([kp_tab_print_hist] in [runtime/kp_tab.c])

    The entries of a table are collected into an array sized by the table's counters,
    sorted by value, and printed with a bar of at most 38 characters.  [sort] of
    the kernel, symbol names, the bytes of strings and the allocation are
    parameters; what is printed is a list of texts. *)

From Stdlib Require Import Sorting.Sorted.
From stdpp Require Import sorting.
From S2P Require Import Prelude Types Tab StrFmt.
#[local] Open Scope word_scope.

Section Hist.
Context (kmalloc_ok : bool) (sort : list (ktap_val * ktap_val) -> list (ktap_val * ktap_val)).
Context (svalue : Z -> option bytes) (sprint_symbol : Z -> bytes).
(** Whether messages are verbose, and the time taken. *)
Context (verbose : option Z).

(** [ktap_node2_t]: a key and a value. *)
#[local] Abbreviation ktap_node2 := (ktap_val * ktap_val)%type.

(** More before less: the comparison [sort] is given. *)
Definition hist_record_cmp (i j : ktap_node2) : Z :=
  let n1 := nvalue (snd i) in let n2 := nvalue (snd j) in
  if n1 =? n2 then 0 else if n1 <? n2 then 1 else -1.

(** Stopped with an error, or the records and their sum; the array has room for
    [cap] records and writing behind it is undefined, as is an overflowing sum. *)
Definition hist_acc : Type := list ktap_node2 * Z.

Definition hist_add (cap : Z) (st : hist_acc) (key v : ktap_val) : option hist_acc :=
  if Z.of_nat (length (fst st)) <? cap then
    let z := snd st + nvalue v in
    if (- 2 ^ 63 <=? z) && (z <? 2 ^ 63) then Some (fst st ++ [(key, v)], s32 z) else ub
  else ub.

(** One value of the table; nothing for a value that is not a number. *)
Definition hist_visit (cap : Z) (st : hist_acc) (key v : ktap_val) : option (option hist_acc) :=
  if is_nil v then Some (Some st)
  else if negb (is_number v) then Some None
  else st ← hist_add cap st key v; Some (Some st).

Fixpoint hist_collect (cap : Z) (st : hist_acc) (kvs : list ktap_node2) : option (option hist_acc) :=
  match kvs with
  | [] => Some (Some st)
  | (key, v) :: rest =>
      r ← hist_visit cap st key v;
      match r with Some st => hist_collect cap st rest | None => Some None end
  end.

(** What the two loops visit, in their order: the array with its indices as keys,
    then the nodes. *)
Definition hist_slots (t : ktap_tab) : option (list ktap_node2) :=
  if decide (Z.to_nat (asize t) <= length (array t))%nat then
    ns ← nodes t;
    if decide (Z.to_nat (hmask t) < length ns)%nat then
      Some (imap (λ i v, (set_number (Z.of_nat i), v)) (take (Z.to_nat (asize t)) (array t)) ++
            map (λ n, (n_key n, n_val n)) (take (S (Z.to_nat (hmask t))) ns))
    else ub
  else ub.

(** [string_convert] into a zeroed buffer of 32 bytes; exactly 32 characters leave it
    without a terminator. *)
Definition string_convert (input : bytes) : option bytes :=
  let n := length (c_string input) in
  if Z.of_nat n >? 32 then Some (take 28 (c_string input) ++ byte_string "...")
  else if Z.of_nat n =? 32 then ub else Some (c_string input).

(** The bar: a ratio outside 0 to 38 writes outside the array or over its
    terminator. *)
Definition dist_str (num sum : Z) : option bytes :=
  if sum =? 0 then ub
  else
    let ratio := s32 (u64 (num * 38) / u64 sum) in
    if (0 <=? ratio) && (ratio <=? 38) then Some (replicate (Z.to_nat ratio) 64 ++ replicate (38 - Z.to_nat ratio) 32) else ub.

Definition hist_row (name dist : bytes) (num : Z) : bytes :=
  pad_left 31 32 name ++ byte_string " |" ++ dist ++ pad_right 7 (print_d (s32 num)) ++ [10].

(** The texts for one record. *)
Definition hist_line (sum : Z) (r : ktap_node2) : option (list bytes) :=
  let num := nvalue (snd r) in
  dist ← dist_str num sum;
  if is_string (fst r) then
    s ← svalue (val (fst r));
    if Z.of_nat (length s) >? 32 then Some [c_string s; dist ++ [10] ++ print_d (s32 num) ++ [10; 10]]
    else Some [hist_row (c_string s) dist num]
  else if is_number (fst r) then Some [hist_row (print_d (s32 (nvalue (fst r)))) dist num]
  else if is_kip (fst r) then
    buf ← string_convert (sprint_symbol (nvalue (fst r))); Some [hist_row buf dist num]
  else Some [].

(** The printing loop: what is left of [shownums], and the texts. *)
Fixpoint hist_loop (sum : Z) (recs : list ktap_node2) (shownums : Z) : option (Z * list bytes) :=
  match recs with
  | [] => Some (shownums, [])
  | r :: rest =>
      if shownums =? - 2 ^ 31 then ub
      else if shownums - 1 =? 0 then Some (0, [])
      else
        l ← hist_line sum r;
        '(n, ls) ← hist_loop sum rest (shownums - 1); Some (n, l ++ ls)
  end.

Definition hist_out (k : kerr) (l : list bytes) : kerr := foldl (λ k b, kp_printf (string_bytes b) k) k l.

(** The message about the time taken. *)
Definition hist_time : list bytes :=
  match verbose with
  | Some d => [byte_string "[verbose] tab_histdump time: " ++ print_d d ++ byte_string " (us)" ++ [10]]
  | None => []
  end.

Definition tab_histdump (k : kerr) (t : ktap_tab) (shownums : Z) : option kerr :=
  if negb kmalloc_ok then Some k
  else
    kvs ← hist_slots t;
    r ← hist_collect (u32 (asize t + hnum t)) ([], 0) kvs;
    match r with
    | None => Some (hist_out (kp_error "print_hist only can print number" k) hist_time)
    | Some (recs, sum) =>
        '(n, ls) ← hist_loop sum (sort recs) shownums;
        let more := if (n =? 0) && negb (Z.of_nat (length recs) =? 0)
                    then [pad_left 31 32 (byte_string "...") ++ byte_string " |" ++ [10]] else [] in
        Some (hist_out k (ls ++ more ++ hist_time))
    end.

Definition DISTRIBUTION_STR : bytes := byte_string "------------- Distribution -------------".
Definition kp_tab_print_hist (k : kerr) (t : ktap_tab) (n : Z) : option kerr :=
  tab_histdump (hist_out k [pad_left 31 32 (byte_string "value ") ++ DISTRIBUTION_STR ++ byte_string " count" ++ [10]]) t n.

End Hist.

(** ** The bars *)

Definition entry_sum (l : list (ktap_val * ktap_val)) : Z := foldr (λ e s, nvalue (snd e) + s) 0 l.

(** What a table with only counts holds: its entries are those with a value. *)
Definition is_entry (e : ktap_val * ktap_val) : Prop := is_nil (snd e) = false.
#[global] Instance is_entry_dec e : Decision (is_entry e).
Proof. unfold is_entry. apply _. Defined.
Definition counts (l : list (ktap_val * ktap_val)) : Prop := Forall (λ e, is_number (snd e) = true /\ 0 <= nvalue (snd e)) l.

Lemma entry_sum_cons e l : entry_sum (e :: l) = nvalue (snd e) + entry_sum l.
Proof. done. Qed.
Lemma entry_sum_nonneg l : counts l -> 0 <= entry_sum l.
Proof. induction 1 as [|e l [_ He] _ IH]; [done|]. rewrite entry_sum_cons. lia. Qed.
Lemma entry_sum_app l l' : entry_sum (l ++ l') = entry_sum l + entry_sum l'.
Proof. induction l as [|e l IH]; [done|]. cbn [app]. rewrite !entry_sum_cons. lia. Qed.
Lemma entry_sum_perm l l' : l ≡ₚ l' -> entry_sum l = entry_sum l'.
Proof. induction 1; rewrite ?entry_sum_cons; lia. Qed.
Lemma entry_le_sum l e : counts l -> e ∈ l -> 0 <= nvalue (snd e) <= entry_sum l.
Proof.
  induction 1 as [|x l [_ Hx] H IH]; intros He; [by apply not_elem_of_nil in He|]. rewrite entry_sum_cons. pose proof (entry_sum_nonneg l H).
  apply elem_of_cons in He as [->|He]; [lia|]. specialize (IH He). lia.
Qed.

(** Everything is collected, and the sum is exact while it fits an int. *)
Lemma hist_collect_counts cap kvs : forall recs, counts recs -> counts (filter is_entry kvs) ->
  entry_sum recs + entry_sum (filter is_entry kvs) < 2 ^ 31 -> Z.of_nat (length recs + length (filter is_entry kvs)) <= cap ->
  hist_collect cap (recs, entry_sum recs) kvs = Some (Some (recs ++ filter is_entry kvs, entry_sum recs + entry_sum (filter is_entry kvs))).
Proof.
  induction kvs as [|[key v] kvs IH]; intros recs Hr Hc Hs Hcap; cbn [hist_collect].
  { rewrite filter_nil, app_nil_r. cbn. by rewrite Z.add_0_r. }
  rewrite filter_cons in *. unfold hist_visit. destruct (is_nil v) eqn:En.
  - rewrite decide_False in * by (unfold is_entry; cbn; congruence). cbn [mbind option_bind]. by apply IH.
  - rewrite decide_True in * by done. apply list.Forall_cons in Hc as [[Hn Hv] Hc]. cbn [snd] in Hn, Hv. rewrite Hn. cbn [negb].
    pose proof (entry_sum_nonneg _ Hr). pose proof (entry_sum_nonneg _ Hc). rewrite entry_sum_cons in *. cbn [snd] in *.
    unfold hist_add. cbn [fst snd length] in *. rewrite (proj2 (Z.ltb_lt _ _)) by lia.
    rewrite (proj2 (Z.leb_le _ _)), (proj2 (Z.ltb_lt _ _)) by lia. cbn [andb mbind option_bind].
    rewrite (swrap_id 32) by (unfold in_s; lia).
    assert (E : entry_sum recs + nvalue v = entry_sum (recs ++ [(key, v)])) by (rewrite entry_sum_app, entry_sum_cons; cbn; lia).
    rewrite E, IH.
    + rewrite <- app_assoc, <- E. cbn [app]. do 3 f_equal. lia.
    + apply Forall_app. split; [done|]. by apply Forall_singleton.
    + done.
    + rewrite <- E. lia.
    + rewrite length_app. cbn [length]. lia.
Qed.

(** The length of a bar. *)
Definition bar (num sum : Z) : Z := num * 38 / sum.

Lemma dist_str_bar num sum : 0 <= num <= sum -> 0 < sum < 2 ^ 31 -> 0 <= bar num sum <= 38 /\
  dist_str num sum = Some (replicate (Z.to_nat (bar num sum)) 64 ++ replicate (38 - Z.to_nat (bar num sum)) 32).
Proof.
  intros Hn Hs. assert (Hb : 0 <= bar num sum <= 38).
  { unfold bar. split; [apply Z.div_pos; lia|]. apply Z.div_le_upper_bound; lia. }
  split; [done|]. unfold dist_str. rewrite (proj2 (Z.eqb_neq _ _)) by lia.
  rewrite (wrap_id 64 (num * 38)), (wrap_id 64 sum) by (unfold in_u; lia). fold (bar num sum).
  rewrite (swrap_id 32) by (unfold in_s; lia). by rewrite (proj2 (Z.leb_le _ _)), (proj2 (Z.leb_le _ _)) by lia.
Qed.

(** ** What is printed *)

Section Prints.
Context (sort : list (ktap_val * ktap_val) -> list (ktap_val * ktap_val)).
Context (svalue : Z -> option bytes) (sprint_symbol : Z -> bytes) (verbose : option Z).

(** [sort] sorts: the same records, in the order of the comparison. *)
Definition sorts : Prop := forall l, sort l ≡ₚ l /\ StronglySorted (λ a b, hist_record_cmp a b <= 0) (sort l).
Hypothesis Hsort : sorts.

(** A key that can be printed: a string is there, and the symbol of a kernel address does
    not have exactly 32 characters. *)
Definition named (e : ktap_val * ktap_val) : Prop :=
  (is_string (fst e) = true -> is_Some (svalue (val (fst e)))) /\
  (is_kip (fst e) = true -> is_Some (string_convert (sprint_symbol (nvalue (fst e))))).

(** The texts of an entry, with a bar of [bar] characters. *)
Definition row_of (sum : Z) (e : ktap_val * ktap_val) (ls : list bytes) : Prop :=
  let n := nvalue (snd e) in 0 <= bar n sum <= 38 /\
  let dist := replicate (Z.to_nat (bar n sum)) 64 ++ replicate (38 - Z.to_nat (bar n sum)) 32 in
  if is_string (fst e) then exists s, svalue (val (fst e)) = Some s /\
    ls = if Z.of_nat (length s) >? 32 then [c_string s; dist ++ [10] ++ print_d (s32 n) ++ [10; 10]] else [hist_row (c_string s) dist n]
  else if is_number (fst e) then ls = [hist_row (print_d (s32 (nvalue (fst e)))) dist n]
  else if is_kip (fst e) then exists s, string_convert (sprint_symbol (nvalue (fst e))) = Some s /\ ls = [hist_row s dist n]
  else ls = [].

Lemma hist_line_row sum e : named e -> 0 <= nvalue (snd e) <= sum -> 0 < sum < 2 ^ 31 ->
  exists ls, hist_line svalue sprint_symbol sum e = Some ls /\ row_of sum e ls.
Proof.
  intros Hn Hv Hs. destruct (dist_str_bar _ _ Hv Hs) as [Hb Hd]. unfold hist_line, row_of. rewrite Hd. cbn [mbind option_bind].
  destruct Hn as [Hs' Hk]. destruct (is_string (fst e)) eqn:Es.
  - destruct (Hs' eq_refl) as [s ->]. cbn [mbind option_bind]. destruct (_ >? _) eqn:El; (eexists; split; [done|]); (split; [done|]); exists s; by rewrite El.
  - destruct (is_number (fst e)); [by eexists|]. destruct (is_kip (fst e)) eqn:Ek; [|by eexists].
    destruct (Hk eq_refl) as [s ->]. cbn [mbind option_bind]. eexists. split; [done|]. split; [done|]. by exists s.
Qed.

Lemma hist_loop_rows sum recs : forall n, 1 <= n -> Forall named recs -> (forall e, e ∈ recs -> 0 <= nvalue (snd e) <= sum) -> 0 < sum < 2 ^ 31 ->
  exists rows, Forall2 (row_of sum) (take (Z.to_nat (n - 1)) recs) rows /\
    hist_loop svalue sprint_symbol sum recs n = Some (Z.max 0 (n - Z.of_nat (length recs)), mjoin rows) /\
    (Z.max 0 (n - Z.of_nat (length recs)) = 0 <-> n <= Z.of_nat (length recs)).
Proof.
  induction recs as [|e recs IH]; intros n Hn Hnm Hv Hs; cbn [hist_loop length].
  { exists []. rewrite take_nil. cbn. split_and!; [constructor| |lia]. do 2 f_equal. lia. }
  apply list.Forall_cons in Hnm as [He Hnm]. rewrite (proj2 (Z.eqb_neq n (- 2 ^ 31))) by lia. destruct (Z.eqb_spec (n - 1) 0) as [E|Hne].
  - exists []. rewrite E. cbn. split_and!; [constructor| |lia]. do 2 f_equal. lia.
  - destruct (hist_line_row sum e He (Hv e ltac:(by left)) Hs) as (ls & Hl & Hrow). rewrite Hl. cbn [mbind option_bind].
    destruct (IH (n - 1)) as (rows & HF & Hloop & _); [lia|done|intros; apply Hv; by right|done|].
    exists (ls :: rows). rewrite Hloop. cbn [mbind option_bind].
    replace (Z.to_nat (n - 1)) with (S (Z.to_nat (n - 1 - 1))) by lia. cbn [take]. split_and!; [by constructor| |lia].
    cbn. do 2 f_equal. lia.
Qed.

(** Entries that are shown come before those that are not. *)
Lemma sorted_split m l : StronglySorted (λ a b, hist_record_cmp a b <= 0) l ->
  forall a b, a ∈ take m l -> b ∈ drop m l -> nvalue (snd b) <= nvalue (snd a).
Proof.
  revert m. induction l as [|e l IH]; intros m H a b Ha Hb; [rewrite take_nil in Ha; by apply not_elem_of_nil in Ha|].
  apply StronglySorted_inv in H as [H Hall]. destruct m as [|m]; [by apply not_elem_of_nil in Ha|]. cbn [take drop] in *.
  apply elem_of_cons in Ha as [->|Ha]; [|by eapply IH]. rewrite list.Forall_forall in Hall.
  assert (Hb' : b ∈ l) by (rewrite <- (take_drop m l); apply elem_of_app; by right). specialize (Hall b Hb').
  unfold hist_record_cmp in Hall. destruct (Z.eqb_spec (nvalue (snd e)) (nvalue (snd b))); [lia|].
  destruct (Z.ltb_spec (nvalue (snd e)) (nvalue (snd b))); lia.
Qed.

(** C37.  A histogram shows the largest counts.  The values of the table are numbers
    that are not negative, with a sum that is positive and below 2^31 (the sum is
    an [int] and the divisor); string keys are there, and the symbols of kernel
    addresses do not have exactly 32 characters, which leaves their buffer without
    a terminator; the allocation succeeds, the array size
    and the node counter of the table cover the entries, the caller asks for
    [n >= 1], and the kernel's [sort] sorts by the comparison.  Then printing is
    defined and prints, after the heading, the [n - 1] entries with the largest
    values, none smaller than an entry left out, each with a bar of
    [38 * value / sum] characters (a key that is no string, number or kernel
    address has no line), and a line of dots exactly when [n] entries or more
    exist. *)
Theorem print_hist_shows_largest k t n kvs : let es := filter is_entry kvs in let sum := entry_sum es in
  hist_slots t = Some kvs -> counts es -> Forall named es -> 0 < sum < 2 ^ 31 ->
  Z.of_nat (length es) <= u32 (asize t + hnum t) -> 1 <= n ->
  exists shown hidden rows, shown ++ hidden ≡ₚ es /\ length shown = Nat.min (Z.to_nat (n - 1)) (length es) /\
    (forall a b, a ∈ shown -> b ∈ hidden -> nvalue (snd b) <= nvalue (snd a)) /\ Forall2 (row_of sum) shown rows /\
    kp_tab_print_hist true sort svalue sprint_symbol verbose k t n =
      Some (hist_out k ((pad_left 31 32 (byte_string "value ") ++ DISTRIBUTION_STR ++ byte_string " count" ++ [10]) :: mjoin rows ++
        (if n <=? Z.of_nat (length es) then [pad_left 31 32 (byte_string "...") ++ byte_string " |" ++ [10]] else []) ++ hist_time verbose)).
Proof using Hsort.
  intros es sum Hsl Hc Hnm Hs Hcap Hn. destruct (Hsort es) as [Hp Hsorted]. set (m := Z.to_nat (n - 1)).
  pose proof (Permutation_length Hp) as Hlen.
  assert (Hv : forall e, e ∈ sort es -> 0 <= nvalue (snd e) <= sum).
  { intros e He. apply entry_le_sum; [done|]. by rewrite <- Hp. }
  destruct (hist_loop_rows sum (sort es) n Hn) as (rows & HF & Hloop & Hz); [by rewrite Hp|done|done|].
  exists (take m (sort es)), (drop m (sort es)), rows. split_and!.
  - by rewrite take_drop.
  - by rewrite length_take, Hlen.
  - intros a b. by apply sorted_split.
  - done.
  - unfold kp_tab_print_hist, tab_histdump. cbn [negb]. rewrite Hsl. cbn [mbind option_bind].
    pose proof (hist_collect_counts (u32 (asize t + hnum t)) kvs [] ltac:(constructor) Hc ltac:(cbn; fold es sum; lia) ltac:(cbn; fold es; lia)) as Hcol.
    change (entry_sum []) with 0 in Hcol. rewrite Hcol. cbn [mbind option_bind app]. rewrite Z.add_0_l. fold es sum. rewrite Hloop.
    cbn [mbind option_bind]. rewrite Hlen in *.
    destruct (Z.leb_spec n (Z.of_nat (length es))).
    + rewrite (proj2 Hz) by done. by rewrite (proj2 (Z.eqb_neq (Z.of_nat _) 0)) by lia.
    + by rewrite (proj2 (Z.eqb_neq (_ `max` _) 0)) by lia.
Qed.
End Prints.

(** ** A concrete histogram *)

Definition hist_le (a b : ktap_val * ktap_val) : Prop := hist_record_cmp a b <= 0.
#[global] Instance hist_le_dec a b : Decision (hist_le a b).
Proof. unfold hist_le. apply _. Defined.
Lemma hist_le_value a b : hist_le a b <-> nvalue (snd b) <= nvalue (snd a).
Proof.
  unfold hist_le, hist_record_cmp. destruct (Z.eqb_spec (nvalue (snd a)) (nvalue (snd b))); [lia|].
  destruct (Z.ltb_spec (nvalue (snd a)) (nvalue (snd b))); lia.
Qed.
#[global] Instance hist_le_total : Total hist_le.
Proof. intros a b. rewrite !hist_le_value. lia. Qed.
#[global] Instance hist_le_trans : Transitive hist_le.
Proof. intros a b c. rewrite !hist_le_value. lia. Qed.

Lemma merge_sort_sorts : sorts (merge_sort hist_le).
Proof. intros l. split; [apply merge_sort_Permutation|apply (StronglySorted_merge_sort hist_le)]. Qed.

(** One array value that is nil, one that is not, and two nodes: three entries are too many
    for [n = 3]. *)
Definition demo_hist : ktap_tab :=
  mktab [set_nil (set_number 0); set_number 3] 2
    (Some [mknode (set_number 5) (set_string 7) None; mknode (set_number 2) (set_number 9) None]) 1 0 2.
Definition demo_name (a : Z) : option bytes := Some (byte_string "read").

Lemma print_hist_shows_largest_witness :
  exists shown hidden rows, shown ++ hidden ≡ₚ [(set_number 1, set_number 3); (set_string 7, set_number 5); (set_number 9, set_number 2)] /\
    length shown = 2%nat /\ (forall a b, a ∈ shown -> b ∈ hidden -> nvalue (snd b) <= nvalue (snd a)) /\ Forall2 (row_of demo_name (λ _, []) 10) shown rows /\
    kp_tab_print_hist true (merge_sort hist_le) demo_name (λ _, []) None kerr0 demo_hist 3 =
      Some (hist_out kerr0 ((pad_left 31 32 (byte_string "value ") ++ DISTRIBUTION_STR ++ byte_string " count" ++ [10]) :: mjoin rows ++
        [pad_left 31 32 (byte_string "...") ++ byte_string " |" ++ [10]])).
Proof.
  apply (print_hist_shows_largest (merge_sort hist_le) demo_name (λ _, []) None merge_sort_sorts kerr0 demo_hist 3
    [(set_number 0, set_nil (set_number 0)); (set_number 1, set_number 3); (set_string 7, set_number 5); (set_number 9, set_number 2)]).
  - reflexivity.
  - repeat (apply list.Forall_cons; split; [split; [reflexivity|vm_compute; discriminate]|]). constructor.
  - repeat (apply list.Forall_cons; split; [split; [by eexists|discriminate]|]). constructor.
  - vm_compute. split; reflexivity.
  - vm_compute. discriminate.
  - lia.
Defined.
