(* ===== verification/Lib.v ===== *)
(** * Lib: the C functions a script calls

    [runtime/lib_base.c], [lib_table.c], [lib_ansi.c] and [lib_net.c], with the
    argument macros of [ktap.h], [kp_obj_show] and [kp_obj_len] of [kp_obj.c], and
    the text of an event ([kp_event_tostr], [kp_event_stringify] of
    [kp_events.c]).  A library function works on the state of the interpreter: its
    arguments lie behind [ks->func] on the stack, its results are pushed, and it
    returns their number or a negative number.

    The kernel is the record [kernel]: what it prints, reads and knows. *)

From S2P Require Import Prelude Types Tab Intern StrFmt Hist Vm.
#[local] Open Scope word_scope.

(** What the kernel provides. *)
Record kernel := mkkernel {
  seq_ops : seqops;
  sort : list (ktap_val * ktap_val) -> list (ktap_val * ktap_val);
  SPRINT_SYMBOL : Z -> bytes;
  kmalloc_ok : bool;
  verbose_time : option Z;              (* when messages are verbose, the time measured *)
  event_trace : option bytes;           (* what the callback of the event prints *)
  event_entry : string;                 (* the entry of the event in the ring buffer *)
  kstack_entry : Z -> Z -> string;      (* a stack trace in the ring buffer *)
  slot_address : Z -> Z;
  gettimeofday_ns : Z;
  ring_buffer_time_stamp : Z;
  num_online_cpus : Z;
  uts_machine : bytes;
  uts_release : bytes;
  kernel_memory : Z -> option bytes;    (* up to 256 bytes from an address, as [strncpy] reads them *)
  user_memory : Z -> bytes;             (* what can be read of 256 bytes *)
  sizeof_task_struct : Z;
  task_word : Z -> Z -> option Z;       (* offset and width *)
  in_iowait : Z;
  in_interrupt : Z;
  sock_family : Z -> option Z;
  sock_saddr : Z -> option Z;
  sock_daddr : Z -> option Z;
  print_ip4 : Z -> bytes
}.

Definition HISTOGRAM_DEFAULT_TOP_NUM : Z := 20.
Definition KP_MAX_STACK_DEPTH : Z := 50.
Definition USEC_PER_SEC : Z := 1000000.
Definition NSEC_PER_USEC : Z := 1000.
Definition NSEC_PER_MSEC : Z := 1000000.
Definition NSEC_PER_SEC : Z := 1000000000.
Definition AF_INET : Z := 2.

Section Lib.
Context {S : Type} `{Intern S}.
Context (K : kernel) (alloc_ok : Z -> bool) (ta : talloc) (kp_tab_next_addr : Z).
#[local] Abbreviation vm := (Vm.vm (S := S)).

(** ** Functions that may return early *)

Inductive ret (A : Type) := Go (a : A) | Ret (n : Z).
Arguments Go {A}. Arguments Ret {A}.

(** Undefined, or a value or an early return, and the new state. *)
Definition lib (A : Type) : Type := vm -> option (ret A * vm).
Definition lret {A} (a : A) : lib A := λ s, Some (Go a, s).
Definition lbind {A B} (m : lib A) (f : A -> lib B) : lib B := λ s,
  '(r, s) ← m s; match r with Go a => f a s | Ret n => Some (Ret n, s) end.
#[local] Notation "x <~ m ;; f" := (lbind m (λ x, f)) (at level 100, m at next level, right associativity).
#[local] Notation "m ;;; f" := (lbind m (λ _, f)) (at level 100, right associativity).

Definition lreturn {A} (n : Z) : lib A := λ s, Some (Ret n, s).
Definition lundef {A} : lib A := λ _, ub.
Definition lopt {A} (o : option A) : lib A := λ s, a ← o; Some (Go a, s).
Definition lget {A} (f : vm -> A) : lib A := λ s, Some (Go (f s), s).
Definition lmod (f : vm -> option vm) : lib unit := λ s, s ← f s; Some (Go tt, s).
Definition lerr (f : kerr -> kerr) : lib unit := lmod (λ s, Some (with_err s (f (err s)))).

(** The function as the interpreter calls it; every one ends in a return. *)
Definition run_lib (m : lib Z) : vm -> option (Z * vm) := λ s,
  '(r, s) ← m s; Some (match r with Go n => n | Ret n => n end, s).

Definition print (bs : bytes) : lib unit := lerr (kp_printf (string_bytes bs)).

(** Push a value; the [set_*] functions write the whole value or its tag. *)
Definition push (v : ktap_val) : lib unit := lmod (λ s, s ← put s (top s) v; Some (with_top s (top s + 1))).
Definition push_nil : lib unit := lmod (λ s, s ← put_nil s (top s); Some (with_top s (top s + 1))).

(** ** Arguments *)

Definition kp_arg (idx : Z) : lib ktap_val := λ s, v ← get s (ks_func s + idx); Some (Go v, s).
Definition kp_arg_nr (s : vm) : Z := s32 (top s - (ks_func s + 1)).

Definition kp_arg_check (idx type : Z) : lib unit :=
  v <~ kp_arg idx;;
  if negb (itype v =? type) then lerr arg_wrong ;;; lreturn (-1) else lret tt.
Definition kp_arg_checknumber (idx : Z) : lib Z :=
  v <~ kp_arg idx;;
  if negb (is_number v) then lerr arg_wrong ;;; lreturn (-1) else lret (nvalue v).
Definition kp_arg_checkoptnumber (idx def : Z) : lib Z :=
  n <~ lget kp_arg_nr;;
  if idx >? n then lret def else kp_arg_checknumber idx.

(** ** The text of an event *)

Definition dummy_msg : bytes := byte_string "argstr_not_available".
Definition kp_event_tostr (s : vm) (k : kerr) : option (option bytes * kerr) :=
  match current_ev s with
  | None => Some (None, kp_error "cannot stringify event str in invalid context" k)
  | Some e =>
      match e_argstr e with
      | Some a => bs ← bytes_at (strs s) a; Some (Some bs, k)
      | None => Some (Some (default dummy_msg (event_trace K)), k)
      end
  end.

(** [kp_str_newz]: address 0 for NULL. *)
Definition kp_str_newz (bs : bytes) : lib Z := λ s,
  '(ts, st, k) ← intern (strs s) (err s) (c_string bs); Some (Go ts, with_strs s st k).

Definition with_event (s : vm) (e : option event) : vm :=
  mkvm (stack s) (top s) (stack_last s) (ks_func s) (base s) (func s) (fn s) (pt s) (kbase s) (pc s)
    (multres s) (loop_count s) (openupval s) (uvhead s) (hp s) (strs s) (gtab s) (gfunc_tbl s)
    (err s) (is_main s) e.

(** The current event is not tested. *)
Definition kp_event_stringify : lib Z :=
  e <~ (λ s, e ← current_ev s; Some (Go e, s));;
  match e_argstr e with
  | Some a => lret a
  | None =>
      o <~ (λ s, '(o, k) ← kp_event_tostr s (err s); Some (Go o, with_err s k));;
      match o with
      | None => lret 0
      | Some str =>
          ts <~ kp_str_newz str;;
          lmod (λ s, Some (with_event s (Some (mkevent (if ts =? 0 then None else Some ts) (e_name e))))) ;;;
          lret ts
      end
  end.

(** ** Values as text *)

(** The value in a slot; the address of a light userdata is that of its field. *)
Definition kp_obj_show (slot : Z) (v : ktap_val) : lib unit :=
  let t := itype v in
  let hex (name : string) (a : Z) := print (byte_string name ++ print_x (u64 a)) in
  if t =? KTAP_TNIL then print (byte_string "nil")
  else if t =? KTAP_TTRUE then print (byte_string "true")
  else if t =? KTAP_TFALSE then print (byte_string "false")
  else if t =? KTAP_TNUM then print (print_d (nvalue v))
  else if t =? KTAP_TLIGHTUD then hex "lightud 0x" (slot_address K slot)
  else if t =? KTAP_TCFUNC then hex "cfunction 0x" (val v)
  else if t =? KTAP_TFUNC then hex "function 0x" (val v)
  else if t =? KTAP_TSTR then
    bs <~ (λ s, bs ← bytes_at (strs s) (val v); Some (Go bs, s));; print (c_string bs)
  else if t =? KTAP_TTAB then hex "table 0x" (val v)
  else if t =? KTAP_TEVENTSTR then
    e <~ lget current_ev;;
    match e with
    | None => lerr (kp_error "cannot stringify event str in invalid context")
    | Some _ => lerr (kp_printf (event_entry K))
    end
  else if t =? KTAP_TKSTACK then lerr (kp_printf (kstack_entry K (stack_depth v) (stack_skip v)))
  else lerr (kp_error "print unknown value type: %d").

Definition kp_obj_len (v : ktap_val) : lib Z :=
  if itype v =? KTAP_TTAB then
    n <~ (λ s, t ← tab_at s (val v); n ← kp_tab_len t; Some (Go n, s));; lret (s32 n)
  else if itype v =? KTAP_TSTR then
    bs <~ (λ s, bs ← bytes_at (strs s) (val v); Some (Go bs, s));; lret (s32 (Z.of_nat (length bs)))
  else print (byte_string "cannot get length of type " ++ print_d (s32 (type v)) ++ [10]) ;;; lret (-1).

(** ** Base library *)

(** The arguments from [i], [n] of them. *)
Fixpoint print_loop (i : Z) (n : nat) : lib unit :=
  match n with
  | O => lret tt
  | Datatypes.S n' =>
      v <~ kp_arg i;;
      (if i >? 1 then print [9] else lret tt) ;;;
      f <~ lget ks_func;;
      kp_obj_show (f + i) v ;;;
      print_loop (i + 1) n'
  end.
Definition kplib_print : lib Z :=
  n <~ lget kp_arg_nr;; print_loop 1 (Z.to_nat n) ;;; print [10] ;;; lret 0.

Definition kplib_printf : lib Z :=
  r <~ (λ s, '(r, q, k) ← kp_str_fmt (seq_ops K) (λ i, get s (ks_func s + i)) (kp_arg_nr s) (bytes_at (strs s))
                            (SPRINT_SYMBOL K) (kp_event_tostr s) (mkseq [] false) (err s);
             Some (Go (r, q), with_err s k));;
  let '(r, q) := r in
  if negb (r =? 0) then lret 0
  else if sq_len q <? PAGE_SIZE then print (sq_buffer q) ;;; lret 0 else lundef.

Definition kplib_print_hist : lib Z :=
  kp_arg_check 1 KTAP_TTAB ;;;
  n <~ kp_arg_checkoptnumber 2 HISTOGRAM_DEFAULT_TOP_NUM;;
  let n := Z.max (Z.min (s32 n) 1000) HISTOGRAM_DEFAULT_TOP_NUM in
  v <~ kp_arg 1;;
  lmod (λ s, t ← tab_at s (val v);
             k ← kp_tab_print_hist (kmalloc_ok K) (sort K) (bytes_at (strs s)) (SPRINT_SYMBOL K) (verbose_time K) (err s) t n;
             Some (with_err s k)) ;;;
  lret 0.

Definition kplib_pairs : lib Z :=
  kp_arg_check 1 KTAP_TTAB ;;;
  push (set_cfunc kp_tab_next_addr) ;;;
  v <~ kp_arg 1;;
  push (set_table (val v)) ;;;
  push_nil ;;;
  lret 3.

Definition kplib_len : lib Z :=
  v <~ kp_arg 1;;
  len <~ kp_obj_len v;;
  if len <? 0 then lret (-1) else push (set_number len) ;;; lret 1.

Definition kplib_delete : lib Z :=
  kp_arg_check 1 KTAP_TTAB ;;;
  v <~ kp_arg 1;;
  lmod (λ s, t ← tab_at s (val v); t ← kp_tab_clear t; Some (with_heap s (set_tab_obj (hp s) (val v) t))) ;;;
  lret 0.

(** With [CONFIG_STACKTRACE]. *)
Definition kplib_stack : lib Z :=
  depth <~ kp_arg_checkoptnumber 1 10;;
  let depth := Z.min (u16 depth) KP_MAX_STACK_DEPTH in
  skip <~ kp_arg_checkoptnumber 2 10;;
  lmod (λ s, c ← cell_at s (top s);
             s ← put s (top s) (set_kstack (mkval (cell_payload c) 0) depth (u16 skip));
             Some (with_top s (top s + 1))) ;;;
  lret 1.

Definition ns2usecs (nsec : Z) : Z := u64 (nsec + 500) / 1000.
Definition kplib_print_trace_clock : lib Z :=
  let t := ns2usecs (ring_buffer_time_stamp K) in
  print (pad_left 5 32 (print_d (t / USEC_PER_SEC)) ++ [46] ++ pad_left 6 48 (print_d (t mod USEC_PER_SEC)) ++ [10]) ;;; lret 0.

Definition push_number (n : Z) : lib Z := push (set_number n) ;;; lret 1.
Definition kplib_num_cpus : lib Z := push_number (num_online_cpus K).

(** A new string as the result, or the failure to make it. *)
Definition push_string (bs : bytes) : lib Z :=
  ts <~ kp_str_newz bs;; if ts =? 0 then lret (-1) else push (set_string ts) ;;; lret 1.
Definition kplib_arch : lib Z := push_string (uts_machine K).
Definition kplib_kernel_v : lib Z := push_string (uts_release K).
(** At most 255 characters and the terminator. *)
Definition kplib_kernel_string : lib Z :=
  addr <~ kp_arg_checknumber 1;; bs <~ lopt (kernel_memory K (u64 addr));; push_string (take 255 bs).
Definition kplib_user_string : lib Z :=
  addr <~ kp_arg_checknumber 1;; push_string (take 255 (user_memory K (u64 addr))).

Definition kplib_stringof : lib Z :=
  v <~ kp_arg 1;;
  ts <~ (if itype v =? KTAP_TEVENTSTR then kp_event_stringify
         else if itype v =? KTAP_TKIP then kp_str_newz (SPRINT_SYMBOL K (nvalue v))
         else lret 0);;
  if ts =? 0 then lret (-1) else push (set_string ts) ;;; lret 1.

Definition kplib_ipof : lib Z := addr <~ kp_arg_checknumber 1;; push (set_ip addr) ;;; lret 1.

Definition kplib_gettimeofday_ns : lib Z := push_number (gettimeofday_ns K).
Definition kplib_gettimeofday_us : lib Z := push_number (gettimeofday_ns K ÷ NSEC_PER_USEC).
Definition kplib_gettimeofday_ms : lib Z := push_number (gettimeofday_ns K ÷ NSEC_PER_MSEC).
Definition kplib_gettimeofday_s : lib Z := push_number (gettimeofday_ns K ÷ NSEC_PER_SEC).

(** The offset is compared as an unsigned number. *)
Definition kplib_curr_taskinfo : lib Z :=
  offset <~ kp_arg_checknumber 1;;
  fetch_bytes <~ kp_arg_checkoptnumber 2 4;;
  if u64 (s32 offset) >=? sizeof_task_struct K then
    push_nil ;;; lerr (kp_error "access out of bound value of task_struct") ;;; lret 1
  else if (s32 fetch_bytes =? 4) || (s32 fetch_bytes =? 8) then
    n <~ lopt (task_word K (s32 offset) (s32 fetch_bytes));; push_number n
  else lerr (kp_error "unsupported fetch bytes in curr_task_info") ;;; push_nil ;;; lret 1.

Definition kplib_in_iowait : lib Z := push_number (in_iowait K).
Definition kplib_in_interrupt : lib Z := push_number (in_interrupt K).
Definition kplib_exit : lib Z := lerr kp_vm_try_to_exit ;;; lret (-1).

(** ** Tables, terminal and network *)

Definition kplib_table_new : lib Z :=
  narr <~ kp_arg_checkoptnumber 1 0;;
  nrec <~ kp_arg_checkoptnumber 2 0;;
  h <~ (λ s, '(h, s) ← new_table alloc_ok ta s (λ k m, kp_tab_new_ah k m (s32 narr) (s32 nrec)); Some (Go h, s));;
  (if h =? 0 then push_nil else push (set_table h)) ;;; lret 1.

(** [ESC \[ ... m] *)
Definition sgr (ns : list Z) : lib unit :=
  print ([27; 91] ++ mjoin (imap (λ i n, (if decide (i = 0%nat) then [] else [59]) ++ print_d (s32 n)) ns) ++ [109]).
Definition kplib_ansi_clear_screen : lib Z := print ([27; 91] ++ byte_string "1;1H" ++ [27; 91; 74]) ;;; lret 0.
Definition kplib_ansi_set_color : lib Z := fg <~ kp_arg_checknumber 1;; sgr [fg] ;;; lret 0.
Definition kplib_ansi_set_color2 : lib Z :=
  fg <~ kp_arg_checknumber 1;; bg <~ kp_arg_checknumber 2;; sgr [fg; bg] ;;; lret 0.
Definition kplib_ansi_set_color3 : lib Z :=
  fg <~ kp_arg_checknumber 1;; bg <~ kp_arg_checknumber 2;; attr <~ kp_arg_checknumber 3;;
  (if negb (s32 attr =? 0) then sgr [fg; bg; attr] else sgr [fg; bg]) ;;; lret 0.
Definition kplib_ansi_reset_color : lib Z := sgr [0; 0] ;;; lret 0.
Definition kplib_ansi_new_line : lib Z := print [10] ;;; lret 0.

Definition ip_sock_addr (field : Z -> option Z) (msg : string) : lib Z :=
  isk <~ kp_arg_checknumber 1;;
  family <~ lopt (sock_family K (u64 isk));;
  (if family =? AF_INET then n <~ lopt (field (u64 isk));; push (set_number n)
   else lerr (kp_error msg) ;;; push_nil) ;;; lret 1.
Definition kplib_net_ip_sock_saddr : lib Z := ip_sock_addr (sock_saddr K) "ip_sock_saddr only support ipv4 now".
Definition kplib_net_ip_sock_daddr : lib Z := ip_sock_addr (sock_daddr K) "ip_sock_daddr only support ipv4 now".
(** The string is made twice. *)
Definition kplib_net_format_ip_addr : lib Z :=
  ip <~ kp_arg_checknumber 1;;
  ts <~ kp_str_newz (print_ip4 K (u32 ip));;
  if negb (ts =? 0) then ts <~ kp_str_newz (print_ip4 K (u32 ip));; push (set_string ts) ;;; lret 1 else lret (-1).

(** ** The libraries *)

Definition base_lib_funcs : list (string * lib Z) :=
  [("print", kplib_print); ("printf", kplib_printf); ("print_hist", kplib_print_hist);
   ("pairs", kplib_pairs); ("len", kplib_len); ("delete", kplib_delete);
   ("stack", kplib_stack); ("print_trace_clock", kplib_print_trace_clock);
   ("num_cpus", kplib_num_cpus); ("arch", kplib_arch); ("kernel_v", kplib_kernel_v);
   ("kernel_string", kplib_kernel_string); ("user_string", kplib_user_string);
   ("stringof", kplib_stringof); ("ipof", kplib_ipof);
   ("gettimeofday_ns", kplib_gettimeofday_ns); ("gettimeofday_us", kplib_gettimeofday_us);
   ("gettimeofday_ms", kplib_gettimeofday_ms); ("gettimeofday_s", kplib_gettimeofday_s);
   ("curr_taskinfo", kplib_curr_taskinfo);
   ("in_iowait", kplib_in_iowait); ("in_interrupt", kplib_in_interrupt); ("exit", kplib_exit)].
Definition table_lib_funcs : list (string * lib Z) := [("new", kplib_table_new)].
Definition ansi_lib_funcs : list (string * lib Z) :=
  [("clear_screen", kplib_ansi_clear_screen); ("set_color", kplib_ansi_set_color);
   ("set_color2", kplib_ansi_set_color2); ("set_color3", kplib_ansi_set_color3);
   ("reset_color", kplib_ansi_reset_color); ("new_line", kplib_ansi_new_line)].
Definition net_lib_funcs : list (string * lib Z) :=
  [("ip_sock_saddr", kplib_net_ip_sock_saddr); ("ip_sock_daddr", kplib_net_ip_sock_daddr);
   ("format_ip_addr", kplib_net_format_ip_addr)].

(** A function pointer is the position of the function in the libraries, counted
    from [addr0]. *)
Context (addr0 : Z).
Definition lib_funcs : list (string * lib Z) := base_lib_funcs ++ table_lib_funcs ++ ansi_lib_funcs ++ net_lib_funcs.
Definition library (f : Z) : vm -> option (Z * vm) := λ s,
  if f <? addr0 then ub else '(_, m) ← lib_funcs !! Z.to_nat (f - addr0); run_lib m s.

(** Names and addresses, from a position on. *)
Definition named_funcs (i : nat) (l : list (string * lib Z)) : list (bytes * Z) :=
  imap (λ j e, (byte_string (fst e), addr0 + Z.of_nat (i + j))) l.

Context (tctx : vm -> kctx).
#[local] Abbreviation register := (kp_vm_register_lib alloc_ok ta tctx).
Definition kp_lib_init_base (s : vm) : option (Z * vm) := register s None (named_funcs 0 base_lib_funcs).
Definition kp_lib_init_table (s : vm) : option (Z * vm) :=
  register s (Some (byte_string "table")) (named_funcs (length base_lib_funcs) table_lib_funcs).
Definition kp_lib_init_ansi (s : vm) : option (Z * vm) :=
  register s (Some (byte_string "ansi")) (named_funcs (length (base_lib_funcs ++ table_lib_funcs)) ansi_lib_funcs).
Definition kp_lib_init_net (s : vm) : option (Z * vm) :=
  register s (Some (byte_string "net")) (named_funcs (length (base_lib_funcs ++ table_lib_funcs ++ ansi_lib_funcs)) net_lib_funcs).
End Lib.
