(* ===== verification/LibThm.v ===== *)
(** * LibThm: the contract of library functions

    What the interpreter relies on when it calls a library function: its
    registers, frames, functions, upvalues and prototypes are left alone, the
    stack below the arguments' end is kept, and a result [n] that is not negative
    means that the [n] values on top of the stack are the results.  With the contract,
    the loop over [pairs] is related to the table it walks. *)

From S2P Require Import Prelude Types Bytecode Tab TabInv TabSpec Intern StrFmt Hist Vm VmThm Lib.
#[local] Open Scope word_scope.

Section LibThm.
Context {S : Type} `{Intern S}.
Context (K : kernel) (alloc_ok : Z -> bool) (ta : talloc) (kp_tab_next_addr : Z).
#[local] Abbreviation vm := (Vm.vm (S := S)).
#[local] Abbreviation lib := (Lib.lib (S := S)).

(** What a library function may not touch. *)
Record kept (s s' : vm) : Prop := {
  kp_regs : (base s', func s', fn s', pt s', kbase s', pc s', multres s', loop_count s') =
            (base s, func s, fn s, pt s, kbase s, pc s, multres s, loop_count s);
  kp_frame : (stack_last s', ks_func s', gtab s', gfunc_tbl s', is_main s') =
             (stack_last s, ks_func s, gtab s, gfunc_tbl s, is_main s);
  kp_uvs : openupval s' = openupval s /\ uvhead s' = uvhead s;
  kp_heap : (h_funcs (hp s'), h_upvals (hp s'), h_protos (hp s')) = (h_funcs (hp s), h_upvals (hp s), h_protos (hp s));
  kp_size : length (stack s') = length (stack s)
}.

#[global] Instance kept_preorder : PreOrder kept.
Proof.
  split; [by split|]. intros s1 s2 s3 [A1 A2 [A3 A3'] A4 A5] [B1 B2 [B3 B3'] B4 B5].
  split; [congruence..| |congruence|congruence]. split; congruence.
Qed.

(** The values pushed between two states. *)
Definition pushed (s s' : vm) (p : Z) : Prop :=
  top s' = top s + p /\ 0 <= p /\ (forall j, j < top s -> cell_at s' j = cell_at s j) /\
  (forall j, top s <= j < top s' -> is_Some (get s' j)).

Lemma pushed_0 s s' : stack s' = stack s -> top s' = top s -> pushed s s' 0.
Proof. intros Es Et. unfold pushed, cell_at. rewrite Es, Et. split_and!; [lia|lia|done|lia]. Qed.

Lemma pushed_trans s1 s2 s3 p q : pushed s1 s2 p -> pushed s2 s3 q -> pushed s1 s3 (p + q).
Proof.
  intros (T1 & P1 & B1 & G1) (T2 & P2 & B2 & G2). split_and!; [lia|lia| |].
  - intros j Hj. rewrite B2 by lia. by apply B1.
  - intros j Hj. destruct (decide (j < top s2)) as [Hl|Hl]; [|apply G2; lia].
    unfold get. rewrite B2 by done. apply G1. lia.
Qed.

(** [lsafe m Q]: [m] keeps to the contract, and [Q] is about its value and the number of values pushed; an early
    return is -1. *)
Definition lsafe {A} (m : lib A) (Q : A -> Z -> Prop) : Prop := forall s r s', m s = Some (r, s') ->
  kept s s' /\ exists p, pushed s s' p /\ match r with Go _ a => Q a p | Ret _ n => n = -1 end.

Lemma lsafe_bind {A B} (m : lib A) (f : A -> lib B) j Q R : lsafe m (λ _ p, p = j) ->
  (forall a, lsafe (f a) Q) -> (forall b p, Q b p -> R b (j + p)) -> lsafe (lbind m f) R.
Proof.
  intros Hm Hf HR s r s'. unfold lbind. intros ([r1 s1] & E1 & E)%bind_Some. destruct (Hm _ _ _ E1) as (K1 & p & P1 & Q1).
  destruct r1 as [a|n]; [|injection E as <- <-; split; [done|by exists p]]. subst p.
  destruct (Hf a _ _ _ E) as (K2 & q & P2 & Q2). split; [by trans s1|]. exists (j + q). split; [by eapply pushed_trans|].
  destruct r; [by apply HR|done].
Qed.

(** Pushing exactly [j] values, and a function body behind [j] pushes. *)
Definition pushes {A} (j : Z) (m : lib A) : Prop := lsafe m (λ _ p, p = j).
Definition ends (j : Z) (m : lib Z) : Prop := lsafe m (λ n p, n = -1 \/ n = j + p).

Lemma pushes_bind {A B} (m : lib A) (f : A -> lib B) j i : pushes j m -> (forall a, pushes (i - j) (f a)) -> pushes i (lbind m f).
Proof. intros Hm Hf. eapply lsafe_bind; [done|done|]. intros b p ->. lia. Qed.
Lemma pushes_bind_add {A B} (m : lib A) (f : A -> lib B) j i : pushes j m -> (forall a, pushes i (f a)) -> pushes (j + i) (lbind m f).
Proof. intros Hm Hf. eapply lsafe_bind; [done|done|]. intros b p ->. lia. Qed.
Lemma pushes_eq {A} (m : lib A) j i : pushes j m -> j = i -> pushes i m.
Proof. by intros Hm <-. Qed.
Lemma ends_bind {A} (m : lib A) (f : A -> lib Z) j i : pushes j m -> (forall a, ends (i + j) (f a)) -> ends i (lbind m f).
Proof. intros Hm Hf. eapply lsafe_bind; [done|done|]. intros b p [->| ->]; [by left|right; lia]. Qed.
Lemma ends_eq m j i : ends j m -> j = i -> ends i m.
Proof. by intros Hm <-. Qed.
Lemma pushes_ret {A} (a : A) : pushes 0 (lret a).
Proof. intros s r s' [= <- <-]. split; [done|]. exists 0. split; [by apply pushed_0|done]. Qed.
Lemma ends_ret n j : n = -1 \/ n = j -> ends j (lret n).
Proof. intros Hn s r s' [= <- <-]. split; [done|]. exists 0. split; [by apply pushed_0|lia]. Qed.
Lemma pushes_return {A} j : pushes j (lreturn (A := A) (-1)).
Proof. intros s r s' [= <- <-]. split; [done|]. exists 0. split; [by apply pushed_0|done]. Qed.
Lemma ends_return j : ends j (lreturn (-1)).
Proof. intros s r s' [= <- <-]. split; [done|]. exists 0. split; [by apply pushed_0|done]. Qed.
Lemma lsafe_undef {A} (Q : A -> Z -> Prop) : lsafe lundef Q.
Proof. by intros s r s'. Qed.

(** What only reads or changes the error state, strings, tables or the event. *)
Definition quiet (s s' : vm) : Prop := kept s s' /\ stack s' = stack s /\ top s' = top s.
Lemma pushes_quiet {A} (m : lib A) : (forall s r s', m s = Some (r, s') -> quiet s s' /\ exists a, r = Go _ a) -> pushes 0 m.
Proof.
  intros Hm s r s' E. destruct (Hm _ _ _ E) as ((Hk & Es & Et) & a & ->). split; [done|]. exists 0. split; [by apply pushed_0|done].
Qed.
Lemma quiet_err s k : quiet s (with_err s k).
Proof. by split. Qed.
Lemma quiet_strs s st k : quiet s (with_strs s st k).
Proof. by split. Qed.
Lemma quiet_event s e : quiet s (with_event s e).
Proof. by split. Qed.
Lemma quiet_tab s h t : quiet s (with_heap s (set_tab_obj (hp s) h t)).
Proof. by split. Qed.

Lemma pushes_lmod f : (forall s s', f s = Some s' -> quiet s s') -> pushes 0 (lmod f).
Proof.
  intros Hf. apply pushes_quiet. intros s r s'. unfold lmod. intros (s1 & E1 & [= <- <-])%bind_Some. split; [by eapply Hf|by eexists].
Qed.
Lemma pushes_lerr f : pushes 0 (lerr f).
Proof. apply pushes_lmod. intros s s' [= <-]. apply quiet_err. Qed.
Lemma pushes_read {A} (f : vm -> option A) : pushes 0 (λ s, a ← f s; Some (Go _ a, s)).
Proof. apply pushes_quiet. intros s r s' (a & _ & [= <- <-])%bind_Some. split; [by split|by eexists]. Qed.
Lemma pushes_lget {A} (f : vm -> A) : pushes 0 (lget f).
Proof. apply pushes_quiet. intros s r s' [= <- <-]. split; [by split|by eexists]. Qed.
Lemma pushes_lopt {A} (o : option A) : pushes 0 (lopt (S := S) o).
Proof. apply (pushes_read (λ _, o)). Qed.

Lemma cell_at_put (s : vm) i c s' j : put_cell s i c = Some s' -> cell_at s' j = if decide (j = i) then Some c else cell_at s j.
Proof. intros [Hi ->]%put_cell_Some. by apply cell_at_insert. Qed.

(** One cell written at the top. *)
Lemma pushed_put (s : vm) v s1 : put s (top s) v = Some s1 ->
  kept s (with_top s1 (top s1 + 1)) /\ pushed s (with_top s1 (top s1 + 1)) 1.
Proof.
  intros E. pose proof (λ j, cell_at_put _ _ _ _ j E) as Hc. apply put_cell_Some in E as [Hi ->]. split.
  - split; try done. apply length_insert.
  - split_and!; cbn [top with_top with_stack]; [done|lia| |].
    + intros j Hj. transitivity (cell_at (with_stack s (<[Z.to_nat (top s) := CVal v]> (stack s))) j); [done|].
      rewrite Hc, decide_False by lia. done.
    + intros j Hj. assert (j = top s) as -> by lia. exists v. apply get_cell.
      transitivity (cell_at (with_stack s (<[Z.to_nat (top s) := CVal v]> (stack s))) (top s)); [done|].
      by rewrite Hc, decide_True.
Qed.

Lemma pushes_put (f : vm -> option ktap_val) : pushes 1 (lmod (λ s, v ← f s; s ← put s (top s) v; Some (with_top s (top s + 1)))).
Proof.
  intros s r s' (s1 & E & [= <- <-])%bind_Some. apply bind_Some in E as (v & _ & E). apply bind_Some in E as (s2 & E & [= <-]).
  destruct (pushed_put _ _ _ E) as [Hk Hp]. split; [done|]. by exists 1.
Qed.
Lemma pushes_push v : pushes 1 (push v).
Proof. apply (pushes_put (λ _, Some v)). Qed.
Lemma pushes_push_nil : pushes 1 push_nil.
Proof.
  intros s r s' (s1 & E & [= <- <-])%bind_Some. apply bind_Some in E as (s2 & E & [= <-]).
  apply bind_Some in E as (c & _ & E). destruct (pushed_put _ _ _ E) as [Hk Hp]. split; [done|]. by exists 1.
Qed.

(** ** The functions *)

Create HintDb lib discriminated.
#[local] Hint Resolve pushes_ret pushes_return pushes_lerr pushes_read pushes_lget pushes_lopt pushes_push pushes_push_nil : lib.

(** Walk through a body: its conditions, its calls and its returns. *)
Ltac lib_walk := lazymatch goal with
  | |- forall _, _ => intros ?; lib_walk
  | |- pushes _ (if ?b then _ else _) => destruct b; lib_walk
  | |- ends _ (if ?b then _ else _) => destruct b; lib_walk
  | |- pushes _ (match ?o with _ => _ end) => destruct o; lib_walk
  | |- ends _ (match ?o with _ => _ end) => destruct o; lib_walk
  | |- pushes ?i (lbind _ _) =>
      tryif is_evar i then (eapply pushes_bind_add; [lib_walk|lib_walk]) else (eapply pushes_bind; [lib_walk|lib_walk])
  | |- ends _ (lbind _ _) => eapply ends_bind; [lib_walk|lib_walk]
  | |- ends _ (lret _) => apply ends_ret; lia
  | |- ends _ (lreturn _) => apply ends_return
  | |- ends _ lundef => apply lsafe_undef
  | |- ends _ _ => eapply ends_eq; [solve [eauto with lib]|lia]
  | |- pushes ?i _ =>
      tryif is_evar i then solve [eauto with lib]
      else first [apply pushes_return | eapply pushes_eq; [solve [eauto with lib]|lia]]
  end.

Lemma pushes_arg i : pushes 0 (kp_arg i).
Proof. apply (pushes_read (λ s, get s (ks_func s + i))). Qed.
#[local] Hint Resolve pushes_arg : lib.
Lemma pushes_print bs : pushes 0 (print bs).
Proof. apply pushes_lerr. Qed.
#[local] Hint Resolve pushes_print : lib.
Lemma pushes_check i t : pushes 0 (kp_arg_check i t).
Proof. unfold kp_arg_check. lib_walk. Qed.
Lemma pushes_checknumber i : pushes 0 (kp_arg_checknumber i).
Proof. unfold kp_arg_checknumber. lib_walk. Qed.
#[local] Hint Resolve pushes_check pushes_checknumber : lib.
Lemma pushes_checkoptnumber i d : pushes 0 (kp_arg_checkoptnumber i d).
Proof. unfold kp_arg_checkoptnumber. lib_walk. Qed.
Lemma pushes_newz bs : pushes 0 (kp_str_newz bs).
Proof.
  apply pushes_quiet. intros s r s' ([[ts st] k] & _ & [= <- <-])%bind_Some. split; [apply quiet_strs|by eexists].
Qed.
#[local] Hint Resolve pushes_checkoptnumber pushes_newz : lib.
Lemma pushes_tostr : pushes 0 (λ s, '(o, k) ← kp_event_tostr K s (err s); Some (Go _ o, with_err s k)).
Proof.
  apply pushes_quiet. intros s r s' ([o k] & _ & [= <- <-])%bind_Some. split; [apply quiet_err|by eexists].
Qed.
Lemma pushes_event e : pushes 0 (lmod (λ s, Some (with_event s e))).
Proof. apply pushes_lmod. intros s s' [= <-]. apply quiet_event. Qed.
#[local] Hint Resolve pushes_tostr pushes_event : lib.
Lemma pushes_stringify : pushes 0 (kp_event_stringify K).
Proof. unfold kp_event_stringify. lib_walk. Qed.
Lemma pushes_show i v : pushes 0 (kp_obj_show K i v).
Proof. unfold kp_obj_show. cbv zeta. lib_walk. Qed.
Lemma pushes_tab_len a : pushes 0 (λ s, t ← tab_at s a; n ← kp_tab_len t; Some (Go _ n, s)).
Proof.
  apply pushes_quiet. intros s r s' (t & _ & (n & _ & [= <- <-])%bind_Some)%bind_Some. split; [by split|by eexists].
Qed.
#[local] Hint Resolve pushes_tab_len : lib.
Lemma pushes_len v : pushes 0 (kp_obj_len v).
Proof. unfold kp_obj_len. lib_walk. Qed.
#[local] Hint Resolve pushes_stringify pushes_show pushes_len : lib.
Lemma pushes_print_loop n : forall i, pushes 0 (print_loop K i n).
Proof. induction n as [|n IH]; intros i; cbn [print_loop]; [apply pushes_ret|]. lib_walk. Qed.
Lemma pushes_fmt : pushes 0 (λ s, '(r, q, k) ← kp_str_fmt (seq_ops K) (λ i, get s (ks_func s + i)) (kp_arg_nr s) (bytes_at (strs s))
    (SPRINT_SYMBOL K) (kp_event_tostr K s) (mkseq [] false) (err s); Some (Go _ (r, q), with_err s k)).
Proof.
  apply pushes_quiet. intros s r s' ([[n q] k] & _ & [= <- <-])%bind_Some. split; [apply quiet_err|by eexists].
Qed.
Lemma pushes_hist a n : pushes 0 (lmod (λ s, t ← tab_at s a;
    k ← kp_tab_print_hist (kmalloc_ok K) (Lib.sort K) (bytes_at (strs s)) (SPRINT_SYMBOL K) (verbose_time K) (err s) t n; Some (with_err s k))).
Proof. apply pushes_lmod. intros s s' (t & _ & (k & _ & [= <-])%bind_Some)%bind_Some. apply quiet_err. Qed.
Lemma pushes_clear a : pushes 0 (lmod (λ s, t ← tab_at s a; t ← kp_tab_clear t; Some (with_heap s (set_tab_obj (hp s) a t)))).
Proof. apply pushes_lmod. intros s s' (t & _ & (k & _ & [= <-])%bind_Some)%bind_Some. apply quiet_tab. Qed.
Lemma pushes_kstack d k : pushes 1 (lmod (λ s, c ← cell_at s (top s);
    s ← put s (top s) (set_kstack (mkval (cell_payload c) 0) d k); Some (with_top s (top s + 1)))).
Proof.
  intros s r s' (s1 & (c & _ & (s2 & E & [= <-])%bind_Some)%bind_Some & [= <- <-])%bind_Some.
  destruct (pushed_put _ _ _ E) as [Hk Hp]. split; [done|]. by exists 1.
Qed.
Lemma pushes_new_table mk : pushes 0 (λ s, '(h, s) ← new_table alloc_ok ta s mk; Some (Go _ h, s)).
Proof.
  apply pushes_quiet. intros s r s' ([h s1] & E & [= <- <-])%bind_Some. split; [|by eexists].
  apply bind_Some in E as ([[t|] k] & _ & [= <- <-]); by split.
Qed.
#[local] Hint Resolve pushes_print_loop pushes_fmt pushes_hist pushes_clear pushes_kstack pushes_new_table : lib.
Lemma ends_push_number n : ends 0 (push_number n).
Proof. unfold push_number. lib_walk. Qed.
Lemma ends_push_string bs : ends 0 (push_string bs).
Proof. unfold push_string. lib_walk. Qed.
Lemma pushes_sgr l : pushes 0 (sgr l).
Proof. apply pushes_print. Qed.
#[local] Hint Resolve pushes_sgr : lib.
Lemma ends_ip_sock f msg : ends 0 (ip_sock_addr K f msg).
Proof. unfold ip_sock_addr. lib_walk. Qed.

#[local] Hint Resolve ends_push_number ends_push_string ends_ip_sock : lib.

Ltac head_of t := lazymatch t with ?f _ => head_of f | _ => t end.
Lemma lib_funcs_end : Forall (λ e, ends 0 (snd e)) (lib_funcs K alloc_ok ta kp_tab_next_addr).
Proof.
  unfold lib_funcs, base_lib_funcs, table_lib_funcs, ansi_lib_funcs, net_lib_funcs. cbn [app].
  repeat (apply list.Forall_cons; split;
    [cbn [snd]; lazymatch goal with |- ends _ ?m => let f := head_of m in unfold f end; cbv zeta; lib_walk|]).
  by constructor.
Qed.

Context (addr0 : Z).
#[local] Abbreviation library := (Lib.library K alloc_ok ta kp_tab_next_addr addr0).

Lemma library_kept f s n s' : library f s = Some (n, s') ->
  kept s s' /\ exists p, pushed s s' p /\ (n = -1 \/ n = p).
Proof.
  unfold Lib.library. destruct (f <? addr0); [done|]. intros ([name m] & Hm & E)%bind_Some.
  apply bind_Some in E as ([r s1] & E & [= <- <-]).
  pose proof (proj1 (list.Forall_lookup _ _) lib_funcs_end _ _ Hm) as He. destruct (He _ _ _ E) as (Hk & p & Hp & Hr).
  split; [done|]. exists p. split; [done|]. destruct r; [cbn in Hr; lia|by left].
Qed.


(** ** Calls from the interpreter *)

(** The frame the interpreter is in. *)
Definition same_frame (s s' : vm) : Prop :=
  (base s', func s', fn s', pt s', kbase s', pc s', loop_count s') = (base s, func s, fn s, pt s, kbase s, pc s, loop_count s).

(** A call of a library function brackets: it leaves the interpreter in its frame
    at the next instruction with the old top, the slots below the function as they
    were, and in the slots from the function up the wanted number of results, in
    order, nil for those the function did not give. *)
Lemma library_call_results (s : vm) a oldtop wanted f n s1 : 0 <= a <= top s -> 0 <= wanted ->
  a + wanted <= Z.of_nat (length (stack s)) -> KTAP_MIN_RESERVED_STACK_SIZE < stack_last s - top s ->
  library f (with_ks_func s a) = Some (n, s1) -> 0 <= n ->
  exists st, let s2 := with_multres (with_top (with_stack s1 st) oldtop) (n + 1) in
    call_cfunction library s a oldtop wanted f = Some (Next s2) /\ length st = length (stack s) /\ same_frame s s2 /\
    (forall j, j < a -> cell_at s2 j = cell_at s j) /\
    forall j, 0 <= j < wanted ->
      if j <? n then cell_at s2 (a + j) = cell_at s1 (top s + j)
      else exists v, cell_at s2 (a + j) = Some (CVal v) /\ is_nil v = true.
Proof.
  intros Ha Hw Hlen Hover Ef Hn. destruct (library_kept _ _ _ _ Ef) as (Hk & p & (Ht & Hp & Hb & Hg) & [->| ->]); [lia|].
  cbn [top with_ks_func] in *. destruct Hk as [Kr Kf _ _ Kl]. cbn in Kr, Kf, Kl.
  destruct (poscall_loop_ok (Datatypes.S (Z.to_nat (top s1 - top s))) s1 a (top s) wanted)
    as (s' & Es' & (st & -> & Hst) & Hcp & Hnil & Hout); [lia|lia|lia|lia|done|].
  exists st. split_and!; [|congruence|unfold same_frame; cbn; congruence| |].
  - unfold call_cfunction, checkstack. rewrite (proj2 (Z.leb_gt _ _)) by lia. rewrite Ef. cbn [mbind option_bind].
    rewrite (proj2 (Z.ltb_ge _ _)) by lia. unfold poscall. replace (top s1 - p) with (top s) by lia. by rewrite Es'.
  - intros j Hj. transitivity (cell_at (with_stack s1 st) j); [done|]. rewrite Hout by lia. by rewrite Hb by lia.
  - intros j Hj. destruct (Z.ltb_spec j p).
    + transitivity (cell_at (with_stack s1 st) (a + j)); [done|]. apply Hcp; lia.
    + apply Hnil; lia.
Qed.

(** What [pairs] leaves: the iterator, the table and nil. *)
Lemma pairs_results (s : vm) v : get s (ks_func s + 1) = Some v -> is_table v = true -> ks_func s + 1 < top s ->
  0 <= top s -> top s + 3 <= Z.of_nat (length (stack s)) ->
  exists s' w, run_lib (kplib_pairs kp_tab_next_addr) s = Some (3, s') /\
    cell_at s' (top s) = Some (CVal (set_cfunc kp_tab_next_addr)) /\
    cell_at s' (top s + 1) = Some (CVal (set_table (val v))) /\ cell_at s' (top s + 2) = Some (CVal w) /\ is_nil w = true /\
    exists st, s' = with_top (with_stack s st) (top s + 3).
Proof.
  intros Hv Ht Harg H0 Hroom. unfold run_lib, kplib_pairs, kp_arg_check, kp_arg, lbind. rewrite Hv. cbn [mbind option_bind].
  unfold is_table in Ht. rewrite Ht. cbn [negb]. unfold lret, push, lmod. cbn [mbind option_bind].
  destruct (put_ok s (top s) (set_cfunc kp_tab_next_addr) ltac:(lia)) as (s1 & -> & (st1 & -> & L1) & C1). cbn [mbind option_bind].
  set (t1 := with_top (with_stack s st1) (top (with_stack s st1) + 1)). cbn [top with_stack ks_func with_top] in *.
  assert (Hv1 : get t1 (ks_func t1 + 1) = Some v).
  { apply get_cell in Hv. apply get_cell. transitivity (cell_at (with_stack s st1) (ks_func s + 1)); [done|].
    by rewrite C1, decide_False by lia. }
  rewrite Hv1. cbn [mbind option_bind].
  destruct (put_ok t1 (top t1) (set_table (val v))) as (s2 & -> & (st2 & -> & L2) & C2); [cbn; lia|]. cbn [mbind option_bind].
  unfold push_nil, lmod. set (t2 := with_top (with_stack t1 st2) (top (with_stack t1 st2) + 1)).
  destruct (put_nil_ok t2 (top t2)) as (s3 & w & -> & Hw & (st3 & -> & L3) & C3); [cbn in *; lia|]. cbn [mbind option_bind].
  eexists _, w. split; [done|]. cbn [top with_top with_stack t1 t2] in C1, C2, C3.
  assert (Hc : forall (s : vm) t j, cell_at (with_top s t) j = cell_at s j) by done. rewrite !Hc.
  split_and!; [| | |done|by exists st3; cbn; replace (top s + 1 + 1 + 1) with (top s + 3) by lia].
  - rewrite C3, decide_False by lia. unfold t2. rewrite Hc, C2, decide_False by lia. unfold t1. by rewrite Hc, C1, decide_True.
  - rewrite C3, decide_False by lia. unfold t2. by rewrite Hc, C2, decide_True.
  - rewrite C3. rewrite decide_True by lia. done.
Qed.
End LibThm.
