(* ===== verification/LibPairs.v ===== *)
(** * LibPairs: the loop over the entries of a table

    [for (k, v in pairs(t)) { ... }] is compiled to a call of [pairs], an [ISNEXT]
    that jumps to the end of the loop, and there an [ITERN] followed by the jump back
    to the body.  Library, interpreter and tables together: the loop visits every
    entry of the table exactly once. *)

From S2P Require Import Prelude Types Bytecode Tab TabInv TabSpec Intern StrFmt Hist Vm VmThm Lib LibThm.
#[local] Open Scope word_scope.

Section Pairs.
Context {S : Type} `{Intern S}.
Context (K : kernel) (alloc_ok : Z -> bool) (ta : talloc) (kp_tab_next_addr addr0 : Z).
#[local] Abbreviation vm := (Vm.vm (S := S)).
Context (tctx : vm -> kctx).
Context (event_getarg : vm -> Z -> Z -> option (ktap_val * S * kerr)).
Context (task_pid task_tid task_uid task_cpu : Z) (task_comm : bytes).
Context (kp_max_loop_count percpu_buffer_size : Z).
#[local] Abbreviation library := (Lib.library K alloc_ok ta kp_tab_next_addr addr0).
#[local] Abbreviation dispatch := (Vm.dispatch alloc_ok ta tctx library event_getarg task_pid task_tid task_uid task_cpu task_comm
  kp_tab_next_addr kp_max_loop_count percpu_buffer_size).

(** The loop uses the slots from [A] of the frame; [q] is the place of its [ITERN], [r]
    that of the first instruction of its body; the table [t] is at [h]. *)
Context (A h : Z) (q r : pcaddr) (itn jl : Z) (t : ktap_tab).

(** Any number of rounds of the interpreter. *)
Definition runs : vm -> vm -> Prop := rtc (λ s s', dispatch s = Some (Next s')).

(** Execution of the loop from its [ITERN]: the entries the body is run with. *)
Inductive walk : vm -> list (ktap_val * ktap_val) -> vm -> Prop :=
  | walk_end s s' : dispatch s = Some (Next s') -> pc s' = pc_add q 2 -> walk s [] s'
  | walk_step s s1 s2 k v l s' : dispatch s = Some (Next s1) -> pc s1 = r ->
      get s1 (base s1 + A + 3) = Some k -> get s1 (base s1 + A + 4) = Some v ->
      runs s1 s2 -> pc s2 = q -> walk s2 l s' -> walk s ((k, v) :: l) s'.

(** What the instructions of the loop itself leave alone: the registers of the frame,
    the heap, the strings, the event, and the slots of the frame below [A]. *)
Definition control (s s' : vm) : Prop :=
  (base s', func s', fn s', pt s', kbase s') = (base s, func s, fn s, pt s, kbase s) /\
  hp s' = hp s /\ strs s' = strs s /\ gtab s' = gtab s /\ current_ev s' = current_ev s /\
  length (stack s') = length (stack s) /\ forall j, j < base s + A -> cell_at s' j = cell_at s j.

(** What the body has to leave alone: the frame, the code, the table, the two slots the
    loop keeps it and the key in, and what the tables see of the strings.  Its own loops
    add at most [m] to the counter of rounds. *)
Definition body_keeps (m : Z) (s s' : vm) : Prop :=
  pc s' = q /\ base s' = base s /\ length (stack s') = length (stack s) /\
  cell_at s' (base s + A + 1) = cell_at s (base s + A + 1) /\ cell_at s' (base s + A + 3) = cell_at s (base s + A + 3) /\
  tab_at s' h = tab_at s h /\ h_protos (hp s') = h_protos (hp s) /\ tctx s' = tctx s /\
  loop_count s <= loop_count s' <= loop_count s + m.

(** The tables' view of the VM is made of the strings and the event. *)
Definition tctx_local : Prop := forall s s' : vm, strs s' = strs s -> current_ev s' = current_ev s -> tctx s' = tctx s.

(** At the [ITERN], with the key [key]. *)
Record at_iter (c : kctx) (key : ktap_val) (s : vm) : Prop := {
  ai_pc : pc s = q;
  ai_itn : code_at s q = Some itn /\ bcop_of_code (bc_op itn) = Some BC_ITERN /\ bc_a itn = A + 3;
  ai_jl : code_at s (pc_add q 1) = Some jl /\ pc_add q (2 + (bc_d jl - BCBIAS_J)) = r;
  ai_tab : tab_at s h = Some t /\ tctx s = c;
  ai_cell : get s (base s + A + 1) = Some (set_table h);
  ai_key : get s (base s + A + 3) = Some key;
  ai_room : 0 <= base s + A /\ base s + A + 5 <= Z.of_nat (length (stack s))
}.

(** [J] is what the body relies on and keeps: from where [J] holds, with a key in its
    slot, the interpreter runs the body and comes back to the [ITERN]. *)
Definition body_runs (c : kctx) (m : Z) (J : vm -> Prop) : Prop :=
  (forall s s', J s -> control s s' -> J s') /\
  (forall s key, J s -> pc s = r -> at_iter c key (with_pc s q) -> exists s', runs s s' /\ body_keeps m s s' /\ J s').

Context (c : kctx) (m : Z) (J : vm -> Prop) (Hbody : body_runs c m J) (Htctx : tctx_local).

Lemma code_at_protos (s s' : vm) p : h_protos (hp s') = h_protos (hp s) -> code_at s' p = code_at s p.
Proof using. intros E. unfold code_at. by rewrite E. Qed.

(** The body comes back to the [ITERN]. *)
Lemma body_at_iter key s : J s -> pc s = r -> at_iter c key (with_pc s q) ->
  exists s', runs s s' /\ at_iter c key s' /\ J s' /\ loop_count s' <= loop_count s + m.
Proof using Hbody Htctx.
  intros Hj Hr HI. destruct (proj2 Hbody s key Hj Hr HI) as (s' & Hruns & (B1 & B2 & B3 & B4 & B5 & B6 & B7 & B8 & B9) & Hj').
  exists s'. split_and!; [done| |done|lia]. destruct HI as [I1 I2 I3 I4 I5 I6 I7].
  assert (Hc : forall p, code_at s' p = code_at (with_pc s q) p) by (intros p; by apply code_at_protos).
  assert (Hg : forall j, cell_at s' j = cell_at s j -> get s' j = get (with_pc s q) j) by (intros j E; unfold get; by rewrite E).
  split; rewrite ?Hc, ?B2; try done.
  - rewrite B6, B8. destruct I4 as [I4 <-]. split; [done|]. symmetry. by apply Htctx.
  - by rewrite Hg.
  - by rewrite Hg.
  - rewrite B3. done.
Qed.

(** One round of the [ITERN]. *)
Definition counted_skip (s : vm) : vm := with_loop_count (skip s) (loop_count s + 1).
Lemma itern_exec key s : at_iter c key s -> loop_count s <> kp_max_loop_count ->
  dispatch s = '(o, k) ← kp_tab_next c t (err s) key;
    let s1 := with_err (counted_skip s) k in
    match o with
    | Some (k', v) => s2 ← put s1 (base s + A + 3) k'; s3 ← put s2 (base s + A + 4) v; next (donextjump s3)
    | None => Some (Next (skip s1))
    end.
Proof using Htctx.
  intros [I1 (I2 & I2' & I2'') I3 [I4 Ic] I5 I6 I7] Hlc. unfold Vm.dispatch. rewrite I1, I2. cbn [mbind option_bind].
  rewrite I2'. cbn [mbind option_bind exec exec_iter]. unfold check_hot_loop, RA. cbn [loop_count skip with_pc with_frame base].
  rewrite (proj2 (Z.eqb_neq _ _)) by done. rewrite I2''. fold (counted_skip s).
  replace (base s + (A + 3) - 2) with (base s + A + 1) by lia. replace (base s + (A + 3)) with (base s + A + 3) by lia.
  replace (base s + A + 3 + 1) with (base s + A + 4) by lia.
  assert (E2 : get (counted_skip s) (base s + A + 1) = Some (set_table h)) by done.
  assert (E3 : get (counted_skip s) (base s + A + 3) = Some key) by done. rewrite E2, E3. cbn [mbind option_bind].
  change (tab_at (counted_skip s) (val (set_table h))) with (tab_at s h). rewrite I4. cbn [mbind option_bind].
  by rewrite (Htctx s (counted_skip s)), Ic.
Qed.

Lemma itern_end key s : at_iter c key s -> loop_count s <> kp_max_loop_count ->
  (forall k, kp_tab_next c t k key = Some (None, k)) ->
  exists s', dispatch s = Some (Next s') /\ pc s' = pc_add q 2.
Proof using Htctx.
  intros I Hlc Hn. rewrite (itern_exec _ _ I Hlc), Hn. eexists. split; [done|]. cbn. rewrite (ai_pc _ _ _ I).
  unfold pc_add. cbn. f_equal. lia.
Qed.

Lemma itern_next key k' v s : at_iter c key s -> loop_count s <> kp_max_loop_count ->
  (forall k, kp_tab_next c t k key = Some (Some (k', v), k)) ->
  exists s1, dispatch s = Some (Next s1) /\ pc s1 = r /\ control s s1 /\ get s1 (base s1 + A + 3) = Some k' /\
    get s1 (base s1 + A + 4) = Some v /\ at_iter c k' (with_pc s1 q) /\ loop_count s1 = loop_count s + 1.
Proof using Htctx.
  intros I Hlc Hn. rewrite (itern_exec _ _ I Hlc), Hn. cbn [mbind option_bind]. cbv zeta. set (s1 := with_err _ _).
  destruct I as [I1 I2 I3 [I4 Ic] I5 I6 [I7 I8]].
  destruct (put_ok s1 (base s + A + 3) k') as (s2 & -> & (st2 & -> & L2) & C2); [cbn; lia|]. cbn [mbind option_bind].
  destruct (put_ok (with_stack s1 st2) (base s + A + 4) v) as (s3 & -> & (st3 & -> & L3) & C3); [cbn in *; lia|]. cbn [mbind option_bind].
  set (s3 := with_stack _ st3) in *. unfold donextjump. assert (Ej : code_at s3 (pc s3) = Some jl).
  { destruct I3 as [<- _]. by rewrite <- I1. }
  rewrite Ej. cbn [mbind option_bind]. eexists. split; [done|].
  assert (Hcell : forall j, cell_at s3 j = if decide (j = base s + A + 4) then Some (CVal v) else
    if decide (j = base s + A + 3) then Some (CVal k') else cell_at s j).
  { intros j. rewrite C3, C2. done. }
  assert (Hget : forall j, get (dojump s3 jl 1) j = get s3 j) by done.
  assert (Hget' : forall j, get (with_pc (dojump s3 jl 1) q) j = get s3 j) by done.
  assert (Ek : get s3 (base s + A + 3) = Some k').
  { apply get_cell. rewrite Hcell, decide_False by lia. by rewrite decide_True. }
  split; [|split; [|split; [by rewrite Hget|split; [rewrite Hget; apply get_cell; by rewrite Hcell, decide_True|split; [|done]]]]].
  - cbn. rewrite I1. destruct I3 as [_ <-]. unfold pc_add. cbn. f_equal. lia.
  - split_and!; try done; [cbn in *; congruence|]. intros j Hj. transitivity (cell_at s3 j); [done|]. rewrite Hcell, !decide_False by lia. done.
  - split; [done|done|done| | | |].
    + split; [done|]. rewrite <- Ic. by apply Htctx.
    + rewrite Hget'. apply get_cell. cbn. rewrite Hcell, !decide_False by lia. by apply get_cell.
    + by rewrite Hget'.
    + cbn in *. lia.
Qed.

(** The loop visits what the table enumerates. *)
Lemma walk_enum key l : 0 <= m -> enum c t key l -> forall s, at_iter c key s -> J s ->
  loop_count s + Z.of_nat (length l) * (1 + m) < kp_max_loop_count -> exists s', walk s l s'.
Proof using Hbody Htctx.
  intros Hm. induction 1 as [key Hn|key k' v l Hn _ IH]; intros s I Hj Hlc; cbn [length] in Hlc.
  - destruct (itern_end key s I ltac:(lia) Hn) as (s' & E & Hpc). exists s'. by apply walk_end.
  - destruct (itern_next key k' v s I ltac:(lia) Hn) as (s1 & E & Hpc & Hco & Hk & Hv & I1 & Hl1).
    destruct (body_at_iter _ _ (proj1 Hbody _ _ Hj Hco) Hpc I1) as (s2 & Hr & I2 & Hj2 & Hl2).
    destruct (IH s2 I2 Hj2) as [s' Hw]; [lia|]. exists s'. apply (walk_step _ s1 s2); try done. apply I2.
Qed.

(** ** Entering the loop *)

(** The code of the loop at [p], and the function and its argument on the stack. *)
Record at_pairs (call isn : Z) (s : vm) : Prop := {
  ap_call : code_at s (pc s) = Some call /\ bcop_of_code (bc_op call) = Some BC_CALL /\
            bc_a call = A /\ bc_b call = 4 /\ bc_c call = 2;
  ap_isn : code_at s (pc_add (pc s) 1) = Some isn /\ bcop_of_code (bc_op isn) = Some BC_ISNEXT /\ bc_a isn = A + 3 /\
           pc_add (pc s) (2 + (bc_d isn - BCBIAS_J)) = q /\ pc_add (pc s) 2 = r;
  ap_itn : code_at s q = Some itn /\ bcop_of_code (bc_op itn) = Some BC_ITERN /\ bc_a itn = A + 3;
  ap_jl : code_at s (pc_add q 1) = Some jl /\ bcop_of_code (bc_op jl) = Some BC_ITERL /\
          pc_add q (2 + (bc_d jl - BCBIAS_J)) = r;
  ap_fun : get s (base s + A) = Some (set_cfunc (addr0 + 3)) /\ get s (base s + A + 1) = Some (set_table h);
  ap_tab : tab_at s h = Some t;
  ap_room : 0 <= base s + A /\ base s + A + 5 <= Z.of_nat (length (stack s)) /\
            KTAP_MIN_RESERVED_STACK_SIZE < stack_last s - (base s + A + 2)
}.

Lemma library_pairs s : library (addr0 + 3) s = run_lib (kplib_pairs kp_tab_next_addr) s.
Proof using.
  unfold Lib.library. rewrite (proj2 (Z.ltb_ge _ _)) by lia. by replace (Z.to_nat (addr0 + 3 - addr0)) with 3%nat by lia.
Qed.

Lemma pairs_called call isn s : at_pairs call isn s ->
  exists s1 w, dispatch s = Some (Next s1) /\ get s1 (base s + A) = Some (set_cfunc kp_tab_next_addr) /\
    get s1 (base s + A + 1) = Some (set_table h) /\ get s1 (base s + A + 2) = Some w /\ is_nil w = true /\
    pc s1 = pc_add (pc s) 1 /\ control s s1 /\
    loop_count s1 = loop_count s /\ length (stack s1) = length (stack s).
Proof using.
  intros [(P1 & P1' & Ea & Eb & Ec) _ _ _ [P5 P5'] P6 (P7 & P8 & P9)]. unfold Vm.dispatch. rewrite P1. cbn [mbind option_bind].
  rewrite P1'. cbn [mbind option_bind exec exec_call]. unfold RA. cbn [base skip with_pc with_frame]. rewrite Ea, Eb, Ec.
  cbn [Z.eqb]. set (s0 := with_top _ _). assert (E0 : get s0 (base s + A) = Some (set_cfunc (addr0 + 3))) by done.
  rewrite E0. cbn [mbind option_bind]. change (itype (set_cfunc (addr0 + 3)) =? KTAP_TCFUNC) with true.
  change (val (set_cfunc (addr0 + 3))) with (addr0 + 3). change (4 - 1) with 3.
  destruct (pairs_results kp_tab_next_addr (with_ks_func s0 (base s + A)) (set_table h)) as (s1 & w & Er & R1 & R2 & R3 & Hw & st1 & ->);
    [done|done|cbn; lia|cbn; lia|cbn; lia|]. rewrite <- library_pairs in Er. cbn [top with_ks_func s0 with_top] in R1, R2, R3.
  destruct (library_call_results K alloc_ok ta kp_tab_next_addr addr0 s0 (base s + A) (top s) 3 (addr0 + 3) 3 _ ltac:(cbn; lia) ltac:(lia)
    ltac:(cbn; lia) ltac:(cbn; lia) Er ltac:(lia)) as (st & Ecall & Lst & _ & Hlow & Hcells).
  pose proof (Hcells 0 ltac:(lia)) as H0. pose proof (Hcells 1 ltac:(lia)) as H1. pose proof (Hcells 2 ltac:(lia)) as H2.
  change (0 <? 3) with true in H0. change (1 <? 3) with true in H1. change (2 <? 3) with true in H2. cbv iota in H0, H1, H2.
  rewrite !Z.add_0_r in H0.
  eexists _, w. split; [exact Ecall|]. rewrite !get_cell. split_and!; try done.
  - etrans; [exact H0|exact R1].
  - etrans; [exact H1|exact R2].
  - etrans; [exact H2|exact R3].
Qed.

Lemma pairs_entered call isn s : at_pairs call isn s -> tctx s = c ->
  exists s1 s2 key, dispatch s = Some (Next s1) /\ dispatch s1 = Some (Next s2) /\ at_iter c key s2 /\
    is_nil key = true /\ loop_count s2 = loop_count s /\ control s s2.
Proof using Htctx.
  intros HP Hcx. destruct (pairs_called _ _ _ HP) as (s1 & w & E1 & G0 & G1 & G2 & Hw & Hpc & Hco & Hl & Hlen).
  destruct HP as [_ (Q1 & Q2 & Q3 & Q4 & Q5) Hitn (Hjl & _ & Hr) _ Htab (R1 & R2 & _)].
  pose proof Hco as (Hregs & Hh & Hs & Hgt & He & _ & Hlow). injection Hregs as Hb _ _ _ _.
  assert (Hcode : forall p, code_at s1 p = code_at s p) by (intros p; apply code_at_protos; by rewrite Hh).
  set (s1' := dojump (skip s1) isn 0).
  destruct (put_nil_ok s1' (base s + A + 3)) as (s2 & key & E2 & Hkey & (st & -> & Lst) & Hc); [cbn; lia|].
  exists s1, (with_stack s1' st), key. split; [done|]. split; [|split; [|split; [done|split; [done|]]]].
  - unfold Vm.dispatch. rewrite Hpc, Hcode, Q1. cbn [mbind option_bind]. rewrite Q2. cbn [mbind option_bind exec exec_iter].
    unfold RA. cbn [base skip with_pc with_frame]. rewrite Hb, Q3.
    replace (base s + (A + 3) - 3) with (base s + A) by lia. replace (base s + (A + 3) - 2) with (base s + A + 1) by lia.
    replace (base s + (A + 3) - 1) with (base s + A + 2) by lia. replace (base s + (A + 3)) with (base s + A + 3) by lia.
    assert (Hg : forall j, get (skip s1) j = get s1 j) by done. rewrite !Hg, G0, G1, G2. cbn [mbind option_bind]. rewrite Hw.
    change (is_cfunc (set_cfunc kp_tab_next_addr)) with true. change (is_table (set_table h)) with true.
    change (val (set_cfunc kp_tab_next_addr)) with kp_tab_next_addr. rewrite Z.eqb_refl. cbn [negb orb].
    fold s1'. by rewrite E2.
  - assert (Hcode' : forall p, code_at (with_stack s1' st) p = code_at s p) by (intros p; by rewrite <- Hcode).
    split; rewrite ?Hcode'; try done.
    + cbn. rewrite Hpc, <- Q4. unfold pc_add. cbn. f_equal. lia.
    + split; [by rewrite <- Htab; unfold tab_at; cbn; rewrite Hh|]. rewrite <- Hcx. by apply Htctx.
    + cbn. rewrite Hb. apply get_cell. rewrite Hc, decide_False by lia. by apply get_cell.
    + cbn. rewrite Hb. apply get_cell. by rewrite Hc, decide_True.
    + cbn in *. rewrite Hb. lia.
  - destruct Hco as (Hregs & _). split_and!; try done; [cbn in *; congruence|]. intros j Hj. rewrite Hc, decide_False by lia. transitivity (cell_at s1 j); [done|by apply Hlow].
Qed.

(** C11.  A loop over [pairs] visits every entry once: where the compiled loop over a
    well-formed table starts, with the function [pairs] and the table on the stack, two
    dispatches of the interpreter reach the [ITERN], and from there the interpreter
    runs the loop to its end: each round of the [ITERN] puts the next entry into its
    slots and continues at the first instruction of the body, the interpreter runs the
    body back to the [ITERN], and when there are no more entries it continues behind
    the loop; the body is run with exactly the entries of the table, each once.  The
    body is any code that the interpreter runs back to the [ITERN] from every state of
    its invariant [J], which may speak of the frame below the loop, the heap and the
    strings, and that leaves alone the frame and its size, the code, the table with its
    slot, the slot of the key, and what the tables see of the strings (it interns no new
    string).  Its own loops may count [m] rounds; the limit of the interpreter allows
    [1 + m] for each entry. *)
Theorem pairs_loop_visits_all call isn s : at_pairs call isn s -> J s -> tctx s = c -> tab_inv c t -> 0 <= m ->
  loop_count s + Z.of_nat (size (contents t)) * (1 + m) < kp_max_loop_count ->
  exists s1 s2 l s', dispatch s = Some (Next s1) /\ dispatch s1 = Some (Next s2) /\ pc s2 = q /\ walk s2 l s' /\
    map_to_list (contents t) ≡ₚ map (λ e, (keyid_of e.1, e.2)) l /\ NoDup (map (keyid_of ∘ fst) l).
Proof using Hbody Htctx.
  intros HP Hj Hcx HI Hm Hlc. destruct (pairs_entered _ _ _ HP Hcx) as (s1 & s2 & key & E1 & E2 & Hat & Hkey & Hl & Hco).
  destruct (enum_complete c t HI) as (l & He & Hp & Hnd). pose proof (Permutation_length Hp) as Hlen.
  rewrite length_map_to_list, length_map in Hlen.
  destruct (walk_enum _ _ Hm (He key Hkey) s2 Hat (proj1 Hbody _ _ Hj Hco)) as [s' Hw]; [by rewrite Hl, <- Hlen|].
  exists s1, s2, l, s'. split_and!; try done. by apply Hat.
Qed.
End Pairs.
