(* ===== verification/LibWit.v ===== *)
(** * LibWit: concrete calls of library functions

    The theorems of [LibThm] and [LibPairs] applied to a small state on the reference
    interner: a function that runs an empty loop over a table with one entry. *)

From stdpp Require Import sorting.
From S2P Require Import Prelude Types Bytecode Tab TabInv TabSpec Intern StrFmt Hist Vm VmThm VmWit Lib LibThm LibPairs.
#[local] Open Scope word_scope.

Definition demo_kernel : kernel :=
  mkkernel demo_ops (merge_sort hist_le) (λ _, byte_string "symbol") true None None "event"
    (λ _ _, "stack") (λ i, i) 1500000000 1500000000 4 (byte_string "x86_64") (byte_string "3.13.0")
    (λ _, Some (byte_string "text")) (λ _, byte_string "text") 64 (λ _ _, Some 0) 0 0
    (λ _, Some AF_INET) (λ _, Some 1) (λ _, Some 2) (λ _, byte_string "1.2.3.4").

(** Key 7 set. *)
Definition tab_live : ktap_tab :=
  mktab [kp_niltv; kp_niltv] 2 (Some [empty_node; mknode (set_number 5) (set_number 7) None]) 1 2 1.

Lemma tab_live_inv : tab_inv ks0 tab_live.
Proof.
  destruct tab0_inv as [I _].
  destruct (set_slot_cases ks0 tab0 kerr0 (set_number 7) (set_number 5) I (plain_number 7 ltac:(by split)))
    as (t1 & k1 & E1 & I1 & _).
  assert (E : Tab.kp_tab_set ks0 tab0 kerr0 (set_number 7) (set_number 5) = Some (tab_live, kerr0)) by (vm_compute; reflexivity).
  rewrite E in E1. by injection E1 as <- _.
Qed.

(** The loop, with the [ITERN] at position 4; the library starts at address 1000. *)
Definition loop_proto : vproto :=
  mkvp 0 0 8
    [ins BC_FUNCF 8 0; ins3 BC_CALL 0 4 2; ins BC_ISNEXT 3 (BCBIAS_J + 1); ins BC_KPRI 5 0;
     ins3 BC_ITERN 3 3 3; ins BC_ITERL 3 (BCBIAS_J - 3); ins BC_RET0 0 1] [] [] [].

Definition demo_pairs : vm (S := list bytes) :=
  mkvm ([CFrame 10 None; CVal (set_cfunc 1003); CVal (set_table 41)] ++ replicate 117 (CVal kp_niltv)) 9 120 0 1 0 10 20 20
    (mkpc 20 1) 0 0 [] [] (mkheap {[10 := mkfunc 20 []]} ∅ {[41 := tab_live]} {[20 := loop_proto]} 50 []) [[112]] 40 []
    kerr0 true None.


(** What the body of the loop, [KPRI] into slot 5, relies on. *)
Definition demo_inv (s : vm (S := list bytes)) : Prop :=
  h_protos (hp s) = {[20 := loop_proto]} /\ base s = 1 /\ length (stack s) = 120%nat.

#[local] Abbreviation demo_dispatch := (Vm.dispatch demo_alloc demo_ta (λ _, ks0) (Lib.library demo_kernel demo_alloc demo_ta 9 1000) demo_arg
  1 2 3 4 [115; 104] 9 100 12288).

Lemma demo_body : body_runs demo_kernel demo_alloc demo_ta 9 1000 (λ _, ks0) demo_arg 1 2 3 4 [115; 104] 100 12288 0 41 (mkpc 20 4) (mkpc 20 3)
  (ins3 BC_ITERN 3 3 3) (ins BC_ITERL 3 (BCBIAS_J - 3)) tab_live ks0 0 demo_inv.
Proof.
  split.
  - intros s s' (H1 & H2 & H3) ([=] & Hh & _ & _ & _ & Hl & _). split_and!; [by rewrite Hh|congruence|congruence].
  - intros s key (H1 & H2 & H3) Hpc Hat. assert (Hc : code_at s (mkpc 20 3) = Some (ins BC_KPRI 5 0)) by (unfold code_at; rewrite H1; vm_compute; reflexivity).
    destruct (put_nil_ok (skip s) 6) as (s' & w & Hp & _ & (st & -> & Hl) & Hcells); [cbn; lia|].
    exists (with_stack (skip s) st). split; [|split; [split_and!; try done|split_and!; try done]]; try (cbn in *; first [lia|congruence]).
    + apply rtc_once. unfold Vm.dispatch. rewrite Hpc, Hc. cbn [mbind option_bind]. change (bcop_of_code (bc_op (ins BC_KPRI 5 0))) with (Some BC_KPRI).
      cbn [mbind option_bind exec exec_const]. unfold RA. cbn [base skip with_pc with_frame]. rewrite H2. change (1 + bc_a (ins BC_KPRI 5 0)) with 6.
      unfold put_nil in Hp. change (prim (bc_d (ins BC_KPRI 5 0))) with KTAP_TNIL. by rewrite Hp.
    + cbn. rewrite Hpc. reflexivity.
    + rewrite Hcells, H2, decide_False by lia. done.
    + rewrite Hcells, H2, decide_False by lia. done.
Qed.

Lemma pairs_loop_visits_all_witness :
  exists s1 s2 l s', demo_dispatch demo_pairs = Some (Next s1) /\ demo_dispatch s1 = Some (Next s2) /\ pc s2 = mkpc 20 4 /\
    walk demo_kernel demo_alloc demo_ta 9 1000 (λ _, ks0) demo_arg 1 2 3 4 [115; 104] 100 12288 0 (mkpc 20 4) (mkpc 20 3) s2 l s' /\
    map_to_list (contents tab_live) ≡ₚ map (λ e, (keyid_of e.1, e.2)) l /\ NoDup (map (keyid_of ∘ fst) l).
Proof.
  apply (pairs_loop_visits_all demo_kernel demo_alloc demo_ta 9 1000 (λ _, ks0) demo_arg 1 2 3 4 [115; 104] 100 12288 0 41 (mkpc 20 4) (mkpc 20 3)
    (ins3 BC_ITERN 3 3 3) (ins BC_ITERL 3 (BCBIAS_J - 3)) tab_live ks0 0 demo_inv demo_body ltac:(done)
    (ins3 BC_CALL 0 4 2) (ins BC_ISNEXT 3 (BCBIAS_J + 1)) demo_pairs).
  - split; try (vm_compute; split_and!; try reflexivity; discriminate); vm_compute; reflexivity.
  - split_and!; reflexivity.
  - reflexivity.
  - apply tab_live_inv.
  - lia.
  - vm_compute. reflexivity.
Defined.
