(* ===== verification/Transport.v ===== *)
(** * Transport: from the VM to the reader ([runtime/kp_transport.c])

    What a script prints is written as entries into the ring buffer of the CPU it
    runs on; reading the trace pipe takes the entries of all CPUs in the order of
    their time stamps, formats them into a page and hands the page out in pieces
    of the size the reader asks for.

    The ring buffer is the kernel's, allocated with [RB_FL_OVERWRITE]: a queue of
    entries with time stamps per CPU.  A reservation may fail, and one that
    succeeds may overwrite entries not read yet; which ones, the kernel chooses,
    and the choice is a parameter of every write.  A read sees the buffer as it is
    when it starts, so that writes happen before or after a read and not during
    it; where the code sleeps the result is [RWait].  Symbol names, the memory constant
    strings are in, the kernel's own events and the copy to user space are
    parameters. *)

From S2P Require Import Prelude Types StrFmt.
#[local] Open Scope word_scope.

Definition TRACE_FN : Z := 1.
Definition TRACE_PRINT : Z := 2.
Definition TRACE_BPUTS : Z := 3.
Definition TRACE_STACK : Z := 4.
Definition TRACE_USER_STACK : Z := 5.
Definition ULONG_MAX : Z := 2 ^ 64 - 1.
Definition EBUSY : Z := 16.
Definition EFAULT : Z := 14.
Definition EAGAIN : Z := 11.
Definition EINTR : Z := 4.

(** An entry: its type, and what follows the header as bytes and as words. *)
Record trace_entry := mkent { ent_type : Z; ent_bytes : bytes; ent_words : list Z }.

(** The queues of the CPUs, oldest entry first, and the number of lost entries. *)
Record ring := mkring { queues : list (list (Z * trace_entry)); events_missed : Z }.

(** The open pipe. *)
Record pipe := mkpipe { p_seq : trace_seq; p_readpos : Z }.
Definition pipe0 : pipe := mkpipe (mkseq [] false) 0.

Inductive print_line := TRACE_TYPE_PARTIAL_LINE | TRACE_TYPE_HANDLED | TRACE_TYPE_NO_CONSUME.
#[global] Instance print_line_dec : EqDecision print_line.
Proof. solve_decision. Defined.

Section Transport.
(** [trace_seq_printf] with [%s], with its result: not 0 unless the buffer is full. *)
Context (trace_seq_printf_str : trace_seq -> bytes -> bool * trace_seq).
Context (sprint_symbol : Z -> bytes) (string_at : Z -> option bytes).
(** The printing callback of an event of the kernel, none without one. *)
Context (ftrace_trace : Z -> option (trace_entry -> trace_seq -> print_line * trace_seq)).
Context (copy_to_user : bytes -> Z).
Context (save_stack_trace : Z -> Z -> list Z).

(** ** Writing *)

(** Where and how a write happens: the CPU the code runs on, its clock, whether the
    reservation succeeds, and which unread entries of the CPU it overwrites: those
    of the oldest page but for the entries on the page being read, that is
    [overwritten] entries behind the first [kept] ones. *)
Record place := mkplace { on_cpu : nat; at_time : Z; reserved : bool; kept : nat; overwritten : nat }.

Definition ring_buffer_write (p : place) (r : ring) (e : trace_entry) : ring :=
  if reserved p then mkring (alter (λ l, take (kept p) l ++ drop (kept p + overwritten p) l ++ [(at_time p, e)]) (on_cpu p) (queues r)) (events_missed r)
  else mkring (queues r) (events_missed r + 1).

Definition kp_transport_write (p : place) (r : ring) (data : bytes) : ring :=
  ring_buffer_write p r (mkent TRACE_PRINT data []).
Definition kp_transport_print_kstack (p : place) (r : ring) (depth skip : Z) : ring :=
  ring_buffer_write p r (mkent TRACE_STACK [] (save_stack_trace depth skip)).
Definition kp_transport_event_write (p : place) (r : ring) (ev_entry : trace_entry) : ring :=
  ring_buffer_write p r ev_entry.
(** The formatted text is cut off at 1023 bytes. *)
Definition transport_printf (p : place) (r : ring) (text : bytes) : ring :=
  kp_transport_write p r (take 1023 text ++ [0]).
Definition __kp_puts (p : place) (r : ring) (str : bytes) : ring := kp_transport_write p r (c_string str ++ [0]).
Definition __kp_bputs (p : place) (r : ring) (str : Z) : ring := ring_buffer_write p r (mkent TRACE_BPUTS [] [str]).

(** ** The oldest entry *)

Definition trace_empty (r : ring) : bool := forallb (λ l : list (Z * trace_entry), match l with [] => true | _ => false end) (queues r).

(** The entry with the smallest time stamp so far: CPU, time and entry. *)
Fixpoint find_loop (cpu : nat) (qs : list (list (Z * trace_entry))) (next : option (nat * Z * trace_entry))
  : option (nat * Z * trace_entry) :=
  match qs with
  | [] => next
  | l :: qs' =>
      let next := match l with
                  | [] => next
                  | (ts, ent) :: _ =>
                      match next with
                      | None => Some (cpu, ts, ent)
                      | Some (_, next_ts, _) => if ts <? next_ts then Some (cpu, ts, ent) else next
                      end
                  end in
      find_loop (S cpu) qs' next
  end.
Definition __find_next_entry (r : ring) : option (nat * Z * trace_entry) := find_loop 0 (queues r) None.
Definition trace_consume (r : ring) (cpu : nat) : ring := mkring (alter (λ l, tail l) cpu (queues r)) (events_missed r).

(** ** Printing entries *)

(** [_trace_seq_puts] with its result. *)
Definition seq_puts (q : trace_seq) (str : bytes) : bool * trace_seq :=
  let q' := _trace_seq_puts q str in (negb (length (c_string str) =? 0)%nat && negb (sq_full q'), q').

Fixpoint print_stack_loop (q : trace_seq) (ws : list Z) : print_line * trace_seq :=
  match ws with
  | [] => (TRACE_TYPE_HANDLED, q)
  | p :: ws' =>
      if p =? ULONG_MAX then (TRACE_TYPE_HANDLED, q)
      else
        let '(ok, q) := trace_seq_printf_str q (byte_string " => " ++ sprint_symbol p ++ [10]) in
        if ok then print_stack_loop q ws' else (TRACE_TYPE_PARTIAL_LINE, q)
  end.
Definition print_trace_stack (q : trace_seq) (e : trace_entry) : print_line * trace_seq :=
  let '(ok, q) := seq_puts q (byte_string "<stack trace>" ++ [10]) in
  if ok then print_stack_loop q (ent_words e) else (TRACE_TYPE_PARTIAL_LINE, q).

Definition stamp (ts : Z) : bytes :=
  let t := u64 (ts + 500) / 1000 in
  pad_left 5 32 (print_d (t / 1000000)) ++ [46] ++ pad_left 6 48 (print_d (t mod 1000000)) ++ byte_string ": ".
Definition trace_print_timestamp (q : trace_seq) (ts : Z) : bool * trace_seq := trace_seq_printf_str q (stamp ts).

(** Every part must be printed in full. *)
Fixpoint puts_all (q : trace_seq) (l : list bytes) : print_line * trace_seq :=
  match l with
  | [] => (TRACE_TYPE_HANDLED, q)
  | b :: l' => let '(ok, q) := seq_puts q b in if ok then puts_all q l' else (TRACE_TYPE_PARTIAL_LINE, q)
  end.

Definition print_trace_fn (print_timestamp : bool) (ts : Z) (q : trace_seq) (e : trace_entry) : option (print_line * trace_seq) :=
  let '(ok, q) := if print_timestamp then trace_print_timestamp q ts else (true, q) in
  if ok then
    ip ← ent_words e !! 0%nat; parent_ip ← ent_words e !! 1%nat;
    Some (puts_all q [sprint_symbol ip; byte_string " <- "; sprint_symbol parent_ip])
  else Some (TRACE_TYPE_PARTIAL_LINE, q).

Definition print_trace_bputs (q : trace_seq) (e : trace_entry) : option (print_line * trace_seq) :=
  a ← ent_words e !! 0%nat; str ← string_at a; Some (puts_all q [str]).

(** The callback's text loses its last byte; there must be one. *)
Definition print_trace_fmt (print_timestamp : bool) (ts : Z) (q : trace_seq) (e : trace_entry) : option (print_line * trace_seq) :=
  let '(ok, q) := if print_timestamp then trace_print_timestamp q ts else (true, q) in
  if ok then
    match ftrace_trace (ent_type e) with
    | Some trace =>
        let '(ret, q) := trace e q in
        match sq_buffer q with
        | [] => ub
        | _ => Some (ret, mkseq (take (length (sq_buffer q) - 1) (sq_buffer q)) (sq_full q))
        end
    | None => Some (TRACE_TYPE_PARTIAL_LINE, q)
    end
  else Some (TRACE_TYPE_PARTIAL_LINE, q).

Definition print_trace_line (print_timestamp : bool) (ts : Z) (q : trace_seq) (e : trace_entry) : option (print_line * trace_seq) :=
  if ent_type e =? TRACE_PRINT then
    let '(ok, q) := trace_seq_printf_str q (c_string (ent_bytes e)) in
    Some (if ok then TRACE_TYPE_HANDLED else TRACE_TYPE_PARTIAL_LINE, q)
  else if ent_type e =? TRACE_BPUTS then print_trace_bputs q e
  else if ent_type e =? TRACE_STACK then Some (print_trace_stack q e)
  else if ent_type e =? TRACE_FN then print_trace_fn print_timestamp ts q e
  else print_trace_fmt print_timestamp ts q e.

(** ** Reading *)

Inductive rres := RRet (n : Z) (out : bytes) | RWait.

(** The part of the page not handed out yet. *)
Definition unread (p : pipe) : bytes := drop (Z.to_nat (p_readpos p)) (sq_buffer (p_seq p)).

(** Bytes handed out, or a negative result. *)
Definition _trace_seq_to_user (p : pipe) (cnt : Z) : Z * bytes * pipe :=
  if cnt =? 0 then (0, [], p)
  else if sq_len (p_seq p) <=? p_readpos p then (- EBUSY, [], p)
  else
    let cnt := Z.min cnt (sq_len (p_seq p) - p_readpos p) in
    let chunk := take (Z.to_nat cnt) (unread p) in
    let ret := copy_to_user chunk in
    if ret =? cnt then (- EFAULT, [], p)
    else (cnt - ret, take (Z.to_nat (cnt - ret)) chunk, mkpipe (p_seq p) (p_readpos p + (cnt - ret))).

(** The loop over the entries; running out of [fuel] is not returning. *)
Fixpoint read_loop (fuel : nat) (print_timestamp : bool) (cnt : Z) (r : ring) (q : trace_seq) : option (ring * trace_seq) :=
  match fuel with
  | O => None
  | S f =>
      match __find_next_entry r with
      | None => Some (r, q)
      | Some (cpu, ts, e) =>
          '(ret, q') ← print_trace_line print_timestamp ts q e;
          if decide (ret = TRACE_TYPE_PARTIAL_LINE) then Some (r, mkseq (take (length (sq_buffer q)) (sq_buffer q')) (sq_full q'))
          else
            let r := if decide (ret = TRACE_TYPE_NO_CONSUME) then r else trace_consume r cpu in
            if sq_len q' >=? cnt then Some (r, q') else read_loop f print_timestamp cnt r q'
      end
  end.

(** [waitagain]; [wait_user] and [nonblock] are flags of the VM and of the file. *)
Fixpoint wait_again (fuel : nat) (print_timestamp nonblock wait_user : bool) (cnt : Z) (r : ring) (p : pipe)
  : option (rres * ring * pipe) :=
  match fuel with
  | O => None
  | S f =>
      if trace_empty r then
        Some (if nonblock then RRet (- EAGAIN) [] else if wait_user then RRet (- EINTR) [] else RWait, r, p)
      else
        let cnt := if cnt >=? PAGE_SIZE then PAGE_SIZE - 1 else cnt in
        '(r, q) ← read_loop f print_timestamp cnt r (mkseq [] false);
        let '(sret, out, p) := _trace_seq_to_user (mkpipe q 0) cnt in
        let p := if p_readpos p >=? sq_len (p_seq p) then pipe0 else p in
        if sret =? - EBUSY then wait_again f print_timestamp nonblock wait_user cnt r p
        else Some (RRet sret out, r, p)
  end.

Definition tracing_read_pipe (fuel : nat) (print_timestamp nonblock wait_user : bool) (cnt : Z) (r : ring) (p : pipe)
  : option (rres * ring * pipe) :=
  let '(sret, out, p) := _trace_seq_to_user p cnt in
  if negb (sret =? - EBUSY) then Some (RRet sret out, r, p)
  else wait_again fuel print_timestamp nonblock wait_user cnt r p.

End Transport.
