(* ===== verification/TransportThm.v ===== *)
(** * TransportThm: what a reader of the trace pipe gets

    Every entry the kernel has not overwritten is handed out exactly once and in the
    order of its CPU, the oldest entry of all CPUs first, whatever the order of
    reads and writes and whatever sizes are asked for.  An entry that does not fit
    a page is never taken from its queue by a read. *)

From Stdlib Require Import Sorting.Sorted.
From S2P Require Import Prelude Types StrFmt Transport.
#[local] Open Scope word_scope.

Section Pipe.
Context (printf_str : trace_seq -> bytes -> bool * trace_seq).
Context (sprint_symbol : Z -> bytes) (string_at : Z -> option bytes).
Context (ftrace_trace : Z -> option (trace_entry -> trace_seq -> print_line * trace_seq)).
Context (copy_to_user : bytes -> Z) (pts : bool).

(** [trace_seq_printf] appends all of the text or, when there is no room, nothing. *)
Definition printf_law : Prop := forall q bs,
  (fits q bs -> printf_str q bs = (true, sq_append q bs)) /\
  (~ fits q bs -> exists full, printf_str q bs = (false, mkseq (sq_buffer q) full)).
Context (Hprintf : printf_law).

#[local] Abbreviation print_trace_line := (Transport.print_trace_line printf_str sprint_symbol string_at ftrace_trace pts).
#[local] Abbreviation read_loop := (Transport.read_loop printf_str sprint_symbol string_at ftrace_trace).

(** ** The text of an entry *)

Fixpoint stack_text (ws : list Z) : bytes :=
  match ws with
  | [] => []
  | p :: ws' => if p =? ULONG_MAX then [] else (byte_string " => " ++ sprint_symbol p ++ [10]) ++ stack_text ws'
  end.

(** The entries the VM writes; a constant or a symbol is not empty. *)
Inductive entry_text (ts : Z) : trace_entry -> bytes -> Prop :=
  | text_print bs ws : entry_text ts (mkent TRACE_PRINT bs ws) (c_string bs)
  | text_bputs bs a ws str : string_at a = Some str -> c_string str <> [] ->
      entry_text ts (mkent TRACE_BPUTS bs (a :: ws)) (c_string str)
  | text_stack bs ws : entry_text ts (mkent TRACE_STACK bs ws) (byte_string "<stack trace>" ++ [10] ++ stack_text ws)
  | text_fn bs ip parent ws : c_string (sprint_symbol ip) <> [] -> c_string (sprint_symbol parent) <> [] ->
      entry_text ts (mkent TRACE_FN bs (ip :: parent :: ws))
        ((if pts then stamp ts else []) ++ c_string (sprint_symbol ip) ++ byte_string " <- " ++ c_string (sprint_symbol parent)).

(** Printing gives the whole text, does so when there is room, and stays in the page;
    a partial line leaves what was there. *)
Definition in_page (q : trace_seq) : Prop := sq_len q <= PAGE_SIZE - 1.
Definition prints (q : trace_seq) (text : bytes) (ret : print_line) (q' : trace_seq) : Prop :=
  (ret = TRACE_TYPE_HANDLED /\ q' = sq_append q text \/
   ret = TRACE_TYPE_PARTIAL_LINE /\ take (length (sq_buffer q)) (sq_buffer q') = sq_buffer q) /\
  (fits q text -> ret = TRACE_TYPE_HANDLED) /\ (ret = TRACE_TYPE_HANDLED -> in_page q -> in_page q').

Lemma seq_puts_cases q str : c_string str <> [] -> (exists full, seq_puts q str = (false, mkseq (sq_buffer q) full)) /\ ~ fits q (c_string str) \/
  seq_puts q str = (true, sq_append q (c_string str)) /\ in_page (sq_append q (c_string str)).
Proof.
  intros Hne. unfold seq_puts, _trace_seq_puts, fits. assert (Hl : (length (c_string str) =? 0)%nat = false) by (by destruct (c_string str)).
  rewrite Hl. destruct (sq_full q) eqn:Ef.
  - left. rewrite Ef. cbn. split; [exists true; by destruct q; cbn in *; subst|by intros []].
  - destruct (Z.gtb_spec (Z.of_nat (length (c_string str))) (PAGE_SIZE - 1 - sq_len q)); cbn.
    + left. split; [by exists true|lia].
    + right. rewrite Ef. split; [done|]. unfold in_page, sq_len, sq_append in *. cbn. rewrite length_app. lia.
Qed.

Lemma append_nil q : sq_append q [] = q.
Proof. destruct q. unfold sq_append. cbn. by rewrite app_nil_r. Qed.
Lemma take_append q a : take (length (sq_buffer q)) (sq_buffer (sq_append q a)) = sq_buffer q.
Proof. unfold sq_append. cbn. by rewrite take_app_length. Qed.

(** A first part that is printed, then the rest. *)
Lemma fits_page q a : fits q a -> in_page (sq_append q a).
Proof. intros [_ Hl]. unfold in_page, sq_append, sq_len in *. cbn. rewrite length_app. lia. Qed.
Lemma prints_app q a b ret q' : in_page (sq_append q a) -> prints (sq_append q a) b ret q' -> prints q (a ++ b) ret q'.
Proof.
  intros Hin (Hc & Hf & Hp). split; [|split; [intros Hab; by apply Hf, fits_app|intros Hr _; by apply Hp]].
  destruct Hc as [[-> ->]|[-> Ht]]; [left; by rewrite append_app|right]. split; [done|].
  assert (E : sq_buffer (sq_append q a) = sq_buffer q ++ a) by done. rewrite E in Ht.
  apply (f_equal (take (length (sq_buffer q)))) in Ht. rewrite take_take, take_app_length in Ht.
  rewrite length_app in Ht. by rewrite Nat.min_l in Ht by lia.
Qed.
Lemma prints_partial q text b full : ~ fits q b -> (fits q text -> fits q b) -> prints q text TRACE_TYPE_PARTIAL_LINE (mkseq (sq_buffer q) full).
Proof. intros Hb Hi. split; [right; split; [done|cbn; by rewrite firstn_all]|]. split; [|done]. intros Ht. by destruct Hb; apply Hi. Qed.
Lemma prints_done q : prints q [] TRACE_TYPE_HANDLED q.
Proof. split; [left; by rewrite append_nil|by split]. Qed.

Lemma puts_all_prints l : forall q, Forall (λ b, c_string b <> []) l ->
  prints q (mjoin (map c_string l)) (fst (puts_all q l)) (snd (puts_all q l)).
Proof.
  induction l as [|b l IH]; intros q Hl; cbn [puts_all map]; [apply prints_done|]. apply list.Forall_cons in Hl as [Hb Hl].
  change (mjoin (c_string b :: map c_string l)) with (c_string b ++ mjoin (map c_string l)).
  destruct (seq_puts_cases q b Hb) as [[[full ->] Hn]|[-> Hin]].
  - eapply prints_partial; [done|]. intros [? _]%fits_app. done.
  - apply prints_app; [done|by apply IH].
Qed.

Lemma stack_loop_prints ws : forall q,
  prints q (stack_text ws) (fst (print_stack_loop printf_str sprint_symbol q ws)) (snd (print_stack_loop printf_str sprint_symbol q ws)).
Proof using Hprintf.
  induction ws as [|p ws IH]; intros q; cbn [print_stack_loop stack_text]; [apply prints_done|].
  destruct (p =? ULONG_MAX); [apply prints_done|]. set (b := byte_string " => " ++ sprint_symbol p ++ [10]).
  destruct (decide (sq_full q = false /\ sq_len q + Z.of_nat (length b) <= PAGE_SIZE - 2)) as [Hf|Hf]; fold (fits q b) in Hf.
  - rewrite (proj1 (Hprintf q b) Hf). apply prints_app; [by apply fits_page|apply IH].
  - destruct (proj2 (Hprintf q b) Hf) as [full ->]. eapply prints_partial; [done|]. by intros [? _]%fits_app.
Qed.

Lemma fits_dec q b : fits q b \/ ~ fits q b.
Proof. destruct (decide (sq_full q = false /\ sq_len q + Z.of_nat (length b) <= PAGE_SIZE - 2)); [by left|by right]. Qed.

Lemma line_prints ts e text q : entry_text ts e text ->
  exists ret q', print_trace_line ts q e = Some (ret, q') /\ prints q text ret q'.
Proof using Hprintf.
  intros Ht. unfold Transport.print_trace_line. destruct Ht; cbn [ent_type ent_bytes].
  - destruct (fits_dec q (c_string bs)) as [Hf|Hf].
    + rewrite (proj1 (Hprintf q _) Hf). eexists _, _. split; [done|]. split; [by left|]. split; [done|]. intros _ _. by apply fits_page.
    + destruct (proj2 (Hprintf q _) Hf) as [full ->]. eexists _, _. split; [done|]. by eapply prints_partial.
  - cbn. rewrite H. cbn [mbind option_bind]. eexists _, _. rewrite <- surjective_pairing. split; [done|].
    pose proof (puts_all_prints [str] q) as Hp. cbn [map] in Hp. change (mjoin [c_string str]) with (c_string str ++ []) in Hp.
    rewrite app_nil_r in Hp. apply Hp. by constructor.
  - change (TRACE_STACK =? TRACE_PRINT) with false. change (TRACE_STACK =? TRACE_BPUTS) with false. change (TRACE_STACK =? TRACE_STACK) with true.
    cbv iota. unfold print_trace_stack. eexists _, _. rewrite <- surjective_pairing. split; [done|].
    destruct (seq_puts_cases q (byte_string "<stack trace>" ++ [10])) as [[[full ->] Hn]|[-> Hin]]; [done| |].
    + eapply prints_partial; [exact Hn|]. rewrite app_assoc. by intros [? _]%fits_app.
    + rewrite app_assoc. apply prints_app; [exact Hin|apply stack_loop_prints].
  - cbn. assert (Hall : forall q, prints q (c_string (sprint_symbol ip) ++ byte_string " <- " ++ c_string (sprint_symbol parent))
      (fst (puts_all q [sprint_symbol ip; byte_string " <- "; sprint_symbol parent]))
      (snd (puts_all q [sprint_symbol ip; byte_string " <- "; sprint_symbol parent]))).
    { intros q0. pose proof (puts_all_prints [sprint_symbol ip; byte_string " <- "; sprint_symbol parent] q0) as Hp. cbn [map] in Hp.
      change (mjoin _) with (c_string (sprint_symbol ip) ++ byte_string " <- " ++ c_string (sprint_symbol parent) ++ []) in Hp.
      rewrite app_nil_r in Hp. apply Hp. by repeat constructor. }
    unfold print_trace_fn, trace_print_timestamp. cbn [ent_words lookup list_lookup]. destruct pts; cbn [mbind option_bind].
    + destruct (fits_dec q (stamp ts)) as [Hf|Hf].
      * rewrite (proj1 (Hprintf q _) Hf). cbn [mbind option_bind]. eexists _, _. rewrite <- surjective_pairing. split; [done|]. apply prints_app; [by apply fits_page|apply Hall].
      * destruct (proj2 (Hprintf q _) Hf) as [full ->]. eexists _, _. split; [done|]. eapply prints_partial; [done|]. by intros [? _]%fits_app.
    + eexists _, _. rewrite <- surjective_pairing. split; [done|]. apply Hall.
Qed.

(** ** The oldest entry *)

Definition head_at (qs : list (list (Z * trace_entry))) (i : nat) (ts : Z) (e : trace_entry) : Prop :=
  exists l, qs !! i = Some ((ts, e) :: l).

Lemma find_loop_spec qs : forall cpu next, match find_loop cpu qs next with
  | None => next = None /\ forall i ts e, ~ head_at qs i ts e
  | Some (c, ts, e) => (next = Some (c, ts, e) \/ exists i, c = (cpu + i)%nat /\ head_at qs i ts e) /\
      (forall c' ts' e', next = Some (c', ts', e') -> ts <= ts') /\ (forall i ts' e', head_at qs i ts' e' -> ts <= ts')
  end.
Proof using.
  induction qs as [|l qs IH]; intros cpu next; cbn [find_loop].
  { destruct next as [[[c ts] e]|]; [|by split; [|intros ??? []]]. split_and!; [by left|by intros ??? [= <- <- <-]|by intros ??? []]. }
  set (next' := match l with [] => next | _ => _ end). specialize (IH (S cpu) next').
  assert (Hl : forall i ts e, head_at (l :: qs) i ts e <-> (i = 0%nat /\ exists l', l = (ts, e) :: l') \/ exists j, i = S j /\ head_at qs j ts e).
  { intros [|i] ts e; unfold head_at; cbn; split.
    - intros [l' [= ->]]. left. split; [done|by eexists].
    - intros [[_ [l' ->]]|(j & ? & _)]; [by eexists|done].
    - intros Hh. right. by exists i.
    - intros [[? _]|(j & [= <-] & Hj)]; done. }
  assert (Hn : forall c ts e, next' = Some (c, ts, e) -> (next = Some (c, ts, e) \/ c = cpu /\ exists l', l = (ts, e) :: l') /\
    (forall c' ts' e', next = Some (c', ts', e') -> ts <= ts') /\ (forall ts' e' l', l = (ts', e') :: l' -> ts <= ts')).
  { intros c ts e. unfold next'. destruct l as [|[ts0 e0] l']; [intros ->; split_and!; [by left|by intros ??? [= <- <- <-]|done]|].
    destruct next as [[[c1 ts1] e1]|]; [destruct (Z.ltb_spec ts0 ts1)|]; intros [= <- <- <-]; split_and!; try (by left); try (right; by eauto);
      intros ??? [= <- <- <-]; lia. }
  destruct (find_loop (S cpu) qs next') as [[[c ts] e]|].
  - destruct IH as (Hin & Hle & Hall). split_and!.
    + destruct Hin as [Hin|(i & -> & Hi)].
      * destruct (Hn _ _ _ Hin) as ([?|[-> Hh]] & _); [by left|right]. exists 0%nat. rewrite Nat.add_0_r. split; [done|]. apply Hl. by left.
      * right. exists (S i). split; [lia|]. apply Hl. right. by exists i.
    + intros c' ts' e' E. destruct next' as [[[c1 ts1] e1]|] eqn:En.
      * specialize (Hle _ _ _ eq_refl). destruct (Hn _ _ _ eq_refl) as (_ & Hm & _). specialize (Hm _ _ _ E). lia.
      * unfold next' in En. destruct l as [|[ts0 e0] l']; [congruence|]. rewrite E in En. by destruct (_ <? _).
    + intros i ts' e' [[-> [l' E]]|(j & -> & Hj)]%Hl; [|by eapply Hall].
      destruct next' as [[[c1 ts1] e1]|] eqn:En.
      * specialize (Hle _ _ _ eq_refl). destruct (Hn _ _ _ eq_refl) as (_ & _ & Hm). specialize (Hm _ _ _ E). lia.
      * unfold next' in En. rewrite E in En. destruct next as [[[? ?] ?]|]; [by destruct (_ <? _)|done].
  - destruct IH as [IHn IHh]. unfold next' in IHn. destruct l as [|[ts0 e0] l'].
    + split; [done|]. intros i ts e [[_ [? ?]]|(j & _ & Hj)]%Hl; [done|]. by eapply IHh.
    + destruct next as [[[? ?] ?]|]; [by destruct (_ <? _)|done].
Qed.

Lemma find_next_spec r : match __find_next_entry r with
  | None => forall i ts e, ~ head_at (queues r) i ts e
  | Some (c, ts, e) => head_at (queues r) c ts e /\ forall i ts' e', head_at (queues r) i ts' e' -> ts <= ts'
  end.
Proof using.
  unfold __find_next_entry. pose proof (find_loop_spec (queues r) 0 None) as Hs. destruct (find_loop _ _ _) as [[[c ts] e]|]; [|apply Hs].
  destruct Hs as ([?|(i & -> & Hi)] & _ & Hall); [done|]. by split.
Qed.

Lemma trace_empty_spec r : trace_empty r = true <-> forall i ts e, ~ head_at (queues r) i ts e.
Proof using.
  unfold trace_empty. rewrite forallb_forall. split.
  - intros Hall i ts e [l Hl]. apply list_elem_of_lookup_2, list_elem_of_In, Hall in Hl. done.
  - intros Hn l Hl. destruct l as [|[ts e] l]; [done|]. apply list_elem_of_In, list_elem_of_lookup in Hl as [i Hi]. exfalso. eapply Hn. by eexists.
Qed.

(** ** Taking entries *)

Definition entries (r : ring) : nat := sum_list (map length (queues r)).

(** Taking the oldest entries, with their CPUs. *)
Inductive takes : ring -> list (nat * Z * trace_entry) -> ring -> Prop :=
  | takes_nil r : takes r [] r
  | takes_cons r c ts e l r' : __find_next_entry r = Some (c, ts, e) -> takes (trace_consume r c) l r' ->
      takes r ((c, ts, e) :: l) r'.

Lemma sum_alter_tail (qs : list (list (Z * trace_entry))) i x l : qs !! i = Some (x :: l) ->
  S (sum_list (map length (alter tail i qs))) = sum_list (map length qs).
Proof using.
  revert i. induction qs as [|y qs IH]; intros [|i] E; cbn in *; try done; [injection E as ->; cbn; lia|]. specialize (IH i E). lia.
Qed.
Lemma entries_consume r c ts e : head_at (queues r) c ts e -> S (entries (trace_consume r c)) = entries r.
Proof using. intros [l Hl]. by eapply sum_alter_tail. Qed.

Lemma takes_app r1 l1 r2 l2 r3 : takes r1 l1 r2 -> takes r2 l2 r3 -> takes r1 (l1 ++ l2) r3.
Proof using. induction 1; [done|]. intros H2. cbn [app]. constructor; [done|]. by apply IHtakes. Qed.

(** The texts of entries, one after the other. *)
Definition texts (l : list (nat * Z * trace_entry)) (bs : bytes) : Prop :=
  exists ts, Forall2 (λ x t, entry_text (snd (fst x)) (snd x) t) l ts /\ bs = mjoin ts.

Lemma texts_nil : texts [] [].
Proof using. exists []. by split; [constructor|]. Qed.
Lemma texts_cons c ts e t l bs : entry_text ts e t -> texts l bs -> texts ((c, ts, e) :: l) (t ++ bs).
Proof using. intros He (us & Hus & ->). exists (t :: us). by split; [constructor|]. Qed.
Lemma texts_app l1 l2 b1 b2 : texts l1 b1 -> texts l2 b2 -> texts (l1 ++ l2) (b1 ++ b2).
Proof using. intros (u1 & H1 & ->) (u2 & H2 & ->). exists (u1 ++ u2). split; [by apply Forall2_app|]. by rewrite join_app. Qed.

(** Every entry has a text that fits a page. *)
Definition page_fits (ts : Z) (e : trace_entry) : Prop := exists t, entry_text ts e t /\ fits (mkseq [] false) t.
Definition ring_ok (r : ring) : Prop := Forall (Forall (λ x, page_fits (fst x) (snd x))) (queues r).

Lemma ring_ok_head r c ts e : ring_ok r -> head_at (queues r) c ts e -> page_fits ts e.
Proof using. intros Hr [l Hl]. eapply list.Forall_lookup_1 in Hr; [|done]. by apply list.Forall_cons in Hr as [? _]. Qed.
Lemma ring_ok_consume r c : ring_ok r -> ring_ok (trace_consume r c).
Proof using.
  intros Hr. unfold ring_ok. cbn. apply Forall_alter; [done|]. intros l Hl Hx. by destruct Hx; [constructor|].
Qed.

Lemma read_loop_takes cnt fuel : forall r q, ring_ok r -> (entries r < fuel)%nat ->
  exists l r' q' bs, read_loop fuel pts cnt r q = Some (r', q') /\ takes r l r' /\ texts l bs /\
    sq_buffer q' = sq_buffer q ++ bs /\ ring_ok r' /\ (q = mkseq [] false -> trace_empty r = false -> l <> []).
Proof using Hprintf.
  induction fuel as [|fuel IH]; intros r q Hr Hf; [lia|]. cbn [Transport.read_loop]. pose proof (find_next_spec r) as Hn.
  destruct (__find_next_entry r) as [[[c ts] e]|] eqn:Ef.
  - destruct Hn as [Hh _]. destruct (ring_ok_head _ _ _ _ Hr Hh) as (t & Ht & Hfit).
    destruct (line_prints ts e t q Ht) as (ret & q' & -> & Hp & Hall & _). cbn [mbind option_bind].
    destruct Hp as [[-> ->]|[-> Hpre]].
    + rewrite !decide_False by done. cbv zeta. destruct (_ >=? _).
      * exists [(c, ts, e)], (trace_consume r c), (sq_append q t), (t ++ []). split_and!; [done| | | |by apply ring_ok_consume|done].
        -- econstructor; [done|constructor].
        -- apply texts_cons; [done|apply texts_nil].
        -- by rewrite app_nil_r.
      * destruct (IH (trace_consume r c) (sq_append q t)) as (l & r' & q' & bs & -> & T & X & E & R & _);
          [by apply ring_ok_consume|pose proof (entries_consume _ _ _ _ Hh); lia|].
        exists ((c, ts, e) :: l), r', q', (t ++ bs). split_and!; [done|by econstructor|by apply texts_cons| |done|done].
        rewrite E. unfold sq_append. cbn. by rewrite <- app_assoc.
    + rewrite decide_True by done. exists [], r, (mkseq (sq_buffer q) (sq_full q')), []. rewrite Hpre, app_nil_r.
      split_and!; [done|constructor|apply texts_nil|done|done|]. intros -> _. by specialize (Hall Hfit).
  - exists [], r, q, []. rewrite app_nil_r. split_and!; [done|constructor|apply texts_nil|done|done|].
    intros _ He. apply trace_empty_spec in Hn. congruence.
Qed.

(** ** A read *)

Definition copies : Prop := forall bs, 0 <= copy_to_user bs <= Z.of_nat (length bs).
Context (Hcopy : copies).
Definition pipe_ok (p : pipe) : Prop := 0 <= p_readpos p.

(** Handing out takes a first part of what is left. *)
Lemma to_user_spec p cnt n out p' : 0 <= cnt -> pipe_ok p -> _trace_seq_to_user copy_to_user p cnt = (n, out, p') ->
  unread p = out ++ unread p' /\ pipe_ok p' /\ p_seq p' = p_seq p /\ (0 <= n -> Z.of_nat (length out) = n) /\
  (n < 0 -> out = [] /\ p' = p) /\ (n = - EBUSY -> unread p = []).
Proof using Hcopy.
  intros Hc Hp. unfold _trace_seq_to_user, pipe_ok in *. destruct (Z.eqb_spec cnt 0); [intros [= <- <- <-]; by split_and!|].
  destruct (Z.leb_spec (sq_len (p_seq p)) (p_readpos p)).
  { intros [= <- <- <-]. split_and!; try done. intros _. unfold unread. apply drop_ge. unfold sq_len in *. lia. }
  set (c := Z.min _ _). set (chunk := take (Z.to_nat c) (unread p)).
  assert (Hlen : Z.of_nat (length (unread p)) = sq_len (p_seq p) - p_readpos p) by (unfold unread, sq_len in *; rewrite length_drop; lia).
  assert (Hch : Z.of_nat (length chunk) = c) by (unfold chunk, c in *; rewrite length_take; lia). pose proof (Hcopy chunk) as Hr.
  destruct (Z.eqb_spec (copy_to_user chunk) c) as [E|E]; [intros [= <- <- <-]; by split_and!|]. intros [= <- <- <-].
  assert (Htk : take (Z.to_nat (c - copy_to_user chunk)) chunk = take (Z.to_nat (c - copy_to_user chunk)) (unread p)).
  { unfold chunk at 2. rewrite take_take. f_equal. lia. }
  cbn. split_and!; [|lia|done| |lia|unfold EBUSY; lia].
  - rewrite Htk. unfold unread at 3. cbn. replace (Z.to_nat (p_readpos p + (c - copy_to_user chunk)))
      with (Z.to_nat (p_readpos p) + Z.to_nat (c - copy_to_user chunk))%nat by lia.
    rewrite <- drop_drop. fold (unread p). by rewrite take_drop.
  - intros _. rewrite length_take. lia.
Qed.

Lemma takes_entries r l r' : takes r l r' -> (entries r' + length l = entries r)%nat.
Proof using.
  induction 1 as [|r c ts e l r' Hn _ IH]; cbn [length]; [lia|]. pose proof (find_next_spec r) as Hs. rewrite Hn in Hs.
  pose proof (entries_consume _ _ _ _ (proj1 Hs)). lia.
Qed.

Definition out_of (res : rres) : bytes := match res with RRet _ out => out | RWait => [] end.
Definition res_ok (res : rres) : Prop := match res with RRet n out => 0 <= n -> Z.of_nat (length out) = n | RWait => True end.

#[local] Abbreviation wait_again := (Transport.wait_again printf_str sprint_symbol string_at ftrace_trace copy_to_user).
#[local] Abbreviation tracing_read_pipe := (Transport.tracing_read_pipe printf_str sprint_symbol string_at ftrace_trace copy_to_user).

Lemma unread_reset p : pipe_ok p -> unread (if p_readpos p >=? sq_len (p_seq p) then pipe0 else p) = unread p.
Proof using.
  intros Hp. unfold pipe_ok in Hp. rewrite Z.geb_leb. destruct (Z.leb_spec (sq_len (p_seq p)) (p_readpos p)); [|done].
  unfold unread. cbn. symmetry. apply drop_ge. unfold sq_len in *. lia.
Qed.

Lemma wait_again_spec nb wu fuel : forall cnt r p, ring_ok r -> 0 < cnt -> pipe_ok p -> unread p = [] -> (S (entries r) < fuel)%nat ->
  exists res r' p' l bs, wait_again fuel pts nb wu cnt r p = Some (res, r', p') /\ takes r l r' /\ texts l bs /\
    out_of res ++ unread p' = bs /\ ring_ok r' /\ pipe_ok p' /\ res_ok res.
Proof using Hprintf Hcopy.
  induction fuel as [|fuel IH]; intros cnt r p Hr Hc Hp Hu Hf; [lia|]. cbn [Transport.wait_again].
  destruct (trace_empty r) eqn:Ee.
  { eexists _, r, p, [], []. split; [done|]. split_and!; [apply takes_nil|apply texts_nil|by destruct nb, wu|done|done|].
    destruct nb, wu; cbn; unfold EAGAIN, EINTR; try done; lia. }
  set (cnt' := if cnt >=? PAGE_SIZE then PAGE_SIZE - 1 else cnt). assert (Hc' : 0 < cnt') by (unfold cnt'; destruct (_ >=? _); unfold PAGE_SIZE; lia).
  destruct (read_loop_takes cnt' fuel r (mkseq [] false) Hr ltac:(lia)) as (l & r1 & q1 & bs & -> & T & X & E & R & Hne). cbn [mbind option_bind].
  destruct (_trace_seq_to_user _ _ _) as [[n out] p1] eqn:Eu.
  destruct (to_user_spec (mkpipe q1 0) cnt' n out p1 ltac:(lia) ltac:(done) Eu) as (Hun & Hp1 & Hq & Hn & Hneg & Hbusy).
  assert (Hq1 : unread (mkpipe q1 0) = bs) by (unfold unread; cbn; rewrite drop_0; by rewrite E).
  rewrite Hq1 in Hun. set (p2 := if p_readpos p1 >=? _ then _ else _).
  assert (Hu2 : unread p2 = unread p1) by (by apply unread_reset).
  assert (Hp2 : pipe_ok p2) by (unfold p2; destruct (p_readpos p1 >=? sq_len (p_seq p1)); [unfold pipe_ok; cbn; lia|done]).
  destruct (Z.eqb_spec n (- EBUSY)) as [->|Hnb].
  - destruct (Hneg ltac:(done)) as [-> ->]. specialize (Hbusy eq_refl). rewrite Hq1 in Hbusy. subst bs.
    pose proof (takes_entries _ _ _ T). specialize (Hne eq_refl Ee). assert (length l <> 0%nat) by (by destruct l).
    destruct (IH cnt' r1 p2 R Hc' Hp2) as (res & r' & p' & l' & bs' & Ew & T' & X' & Eo & R' & P' & Rr); [by rewrite Hu2, Hq1|lia|].
    exists res, r', p', (l ++ l'), ([] ++ bs'). split; [done|]. split_and!; [by eapply takes_app| |done|done|done|done].
    apply texts_app; [|done]. by rewrite Hbusy in X.
  - exists (RRet n out), r1, p2, l, bs. split; [done|]. split_and!; [done|done|cbn; by rewrite Hu2|done|done|done].
Qed.

(** A read hands out what was left, or new entries. *)
Lemma read_pipe_spec nb wu cnt r p fuel : ring_ok r -> 0 <= cnt -> pipe_ok p -> (S (entries r) < fuel)%nat ->
  exists res r' p' l bs, tracing_read_pipe fuel pts nb wu cnt r p = Some (res, r', p') /\ takes r l r' /\ texts l bs /\
    out_of res ++ unread p' = unread p ++ bs /\ ring_ok r' /\ pipe_ok p' /\ res_ok res.
Proof using Hprintf Hcopy.
  intros Hr Hc Hp Hf. unfold Transport.tracing_read_pipe. destruct (_trace_seq_to_user _ _ _) as [[n out] p1] eqn:Eu.
  destruct (to_user_spec p cnt n out p1 Hc Hp Eu) as (Hun & Hp1 & _ & Hn & Hneg & Hbusy).
  destruct (Z.eqb_spec n (- EBUSY)) as [->|Hnb]; cbn [negb].
  - destruct (Hneg ltac:(done)) as [-> ->]. rewrite (Hbusy eq_refl) in *.
    assert (Hc0 : cnt <> 0) by (intros ->; by injection Eu).
    destruct (wait_again_spec nb wu fuel cnt r p Hr ltac:(lia) Hp (Hbusy eq_refl) Hf) as (res & r' & p' & l & bs & ? & ? & ? & ? & ? & ? & ?).
    by exists res, r', p', l, bs.
  - exists (RRet n out), r, p1, [], []. rewrite app_nil_r. split_and!; try done; [constructor|apply texts_nil].
Qed.

(** ** Histories *)

Inductive pipe_op := OWrite (p : place) (e : trace_entry) | ORead (cnt : Z) (nonblock wait_user : bool).

(** What the reader gets in all. *)
Fixpoint run_pipe (fuel : nat) (ops : list pipe_op) (r : ring) (p : pipe) : option (bytes * ring * pipe) :=
  match ops with
  | [] => Some ([], r, p)
  | OWrite w e :: ops => run_pipe fuel ops (ring_buffer_write w r e) p
  | ORead cnt nb wu :: ops =>
      '(res, r, p) ← tracing_read_pipe fuel pts nb wu cnt r p;
      '(out, r, p) ← run_pipe fuel ops r p; Some (out_of res ++ out, r, p)
  end.

Definition of_cpu (c : nat) (l : list (nat * Z * trace_entry)) : list (Z * trace_entry) :=
  map (λ x, (snd (fst x), snd x)) (filter (λ x, fst (fst x) = c) l).

(** The entries written, in order. *)
Definition written (ops : list pipe_op) : list (nat * Z * trace_entry) :=
  mjoin (map (λ o, match o with OWrite w e => if reserved w then [(on_cpu w, at_time w, e)] else [] | ORead _ _ _ => [] end) ops).

Definition op_ok (ncpus : nat) (o : pipe_op) : Prop :=
  match o with OWrite w e => (on_cpu w < ncpus)%nat /\ page_fits (at_time w) e | ORead cnt _ _ => 0 <= cnt end.

Lemma of_cpu_app c l1 l2 : of_cpu c (l1 ++ l2) = of_cpu c l1 ++ of_cpu c l2.
Proof using. unfold of_cpu. by rewrite list.filter_app, map_app. Qed.
Lemma of_cpu_cons c x l : of_cpu c (x :: l) = (if decide (fst (fst x) = c) then [(snd (fst x), snd x)] else []) ++ of_cpu c l.
Proof using. unfold of_cpu. rewrite filter_cons. by destruct (decide _). Qed.

(** The queue of a CPU, and what taking and writing do to it. *)
Definition queue (r : ring) (c : nat) : list (Z * trace_entry) := default [] (queues r !! c).

Lemma takes_queue r l r' c : takes r l r' -> queue r c = of_cpu c l ++ queue r' c.
Proof using.
  induction 1 as [|r c0 ts e l r' Hn _ IH]; [done|]. rewrite of_cpu_cons. cbn [fst snd]. pose proof (find_next_spec r) as Hs. rewrite Hn in Hs.
  destruct Hs as [[q Hq] _]. rewrite <- app_assoc, <- IH. unfold queue, trace_consume. cbn [queues]. destruct (decide (c0 = c)) as [->|Hne].
  - by rewrite list_lookup_alter_eq, Hq.
  - by rewrite list_lookup_alter_ne.
Qed.
(** The entries a write may overwrite on a CPU. *)
Definition overwrites (c : nat) (o : pipe_op) : nat :=
  match o with OWrite w _ => if decide (on_cpu w = c) then overwritten w else 0 | ORead _ _ _ => 0 end.

Lemma cut_sublist {A} i k (l : list A) :
  sublist (take i l ++ drop (i + k) l) l /\ (length l <= length (take i l ++ drop (i + k) l) + k)%nat.
Proof using.
  split; [|rewrite length_app, length_take, length_drop; lia]. rewrite <- drop_drop. rewrite <- (take_drop i l) at 3.
  apply sublist_app; [done|apply sublist_drop].
Qed.
Lemma write_queue w r e c : (on_cpu w < length (queues r))%nat ->
  let old := queue r c ++ (if reserved w then of_cpu c [(on_cpu w, at_time w, e)] else []) in
  sublist (queue (ring_buffer_write w r e) c) old /\
  (length old <= length (queue (ring_buffer_write w r e) c) + overwrites c (OWrite w e))%nat.
Proof using.
  intros Hw. unfold ring_buffer_write, queue, overwrites. destruct (reserved w); cbn [queues]; [|rewrite app_nil_r; split; [done|lia]].
  rewrite of_cpu_cons. cbn. destruct (decide (on_cpu w = c)) as [Ec|Hne].
  - rewrite Ec in *. rewrite list_lookup_alter_eq. destruct (lookup_lt_is_Some_2 _ _ Hw) as [q ->]. cbn [fmap option_fmap option_map default].
    destruct (cut_sublist (kept w) (overwritten w) q) as [Hs Hl]. rewrite (app_assoc (take _ _)). split; [by apply sublist_app|].
    cbn. rewrite !length_app in *. cbn. lia.
  - rewrite list_lookup_alter_ne, app_nil_r by done. split; [done|lia].
Qed.

Lemma takes_cpus r l r' : takes r l r' -> length (queues r') = length (queues r).
Proof using. induction 1 as [|r c ts e l r' _ _ IH]; [done|]. rewrite IH. apply length_alter. Qed.
Lemma write_ok w r e : ring_ok r -> page_fits (at_time w) e -> ring_ok (ring_buffer_write w r e).
Proof using.
  intros Hr He. unfold ring_buffer_write. destruct (reserved w); [|done]. unfold ring_ok. cbn. apply Forall_alter; [done|].
  intros q _ Hq. repeat (apply Forall_app; split); [by apply list.Forall_take|by apply list.Forall_drop|by apply Forall_singleton].
Qed.
Lemma write_cpus w r e : length (queues (ring_buffer_write w r e)) = length (queues r).
Proof using. unfold ring_buffer_write. destruct (reserved w); [apply length_alter|done]. Qed.
Lemma write_entries w r e : (entries (ring_buffer_write w r e) <= S (entries r))%nat.
Proof using.
  unfold ring_buffer_write, entries. destruct (reserved w); cbn [queues]; [|lia]. generalize (on_cpu w). induction (queues r) as [|q qs IH]; intros [|c]; cbn; [lia..| |].
  - rewrite app_assoc, length_app. cbn. pose proof (sublist_length _ _ (proj1 (cut_sublist (kept w) (overwritten w) q))). lia.
  - specialize (IH c). lia.
Qed.

(** What was written on a CPU against what has arrived or is still queued: nothing new,
    nothing twice, nothing out of order, and missing only what was overwritten. *)
Definition accounted (c : nat) (all got : list (Z * trace_entry)) (ops : list pipe_op) : Prop :=
  sublist got all /\ (length all <= length got + sum_list (map (overwrites c) ops))%nat.

Lemma written_cons c w e ops : of_cpu c (written (OWrite w e :: ops)) =
  (if reserved w then of_cpu c [(on_cpu w, at_time w, e)] else []) ++ of_cpu c (written ops).
Proof using. unfold written at 1. cbn [map]. destruct (reserved w); [apply of_cpu_app|done]. Qed.

Lemma run_pipe_delivers ops : forall fuel r p, Forall (op_ok (length (queues r))) ops -> ring_ok r -> pipe_ok p ->
  (S (entries r + length ops) < fuel)%nat ->
  exists out r' p' taken, run_pipe fuel ops r p = Some (out, r', p') /\
    (exists bs, texts taken bs /\ out ++ unread p' = unread p ++ bs) /\
    forall c, accounted c (queue r c ++ of_cpu c (written ops)) (of_cpu c taken ++ queue r' c) ops.
Proof using Hprintf Hcopy.
  induction ops as [|o ops IH]; intros fuel r p Hops Hr Hp Hf; cbn [run_pipe].
  { exists [], r, p, []. split; [done|]. split; [exists []; split; [apply texts_nil|by rewrite app_nil_r]|]. intros c. cbn. rewrite app_nil_r.
    split; [done|lia]. }
  apply list.Forall_cons in Hops as [Ho Hops]. cbn [length] in Hf. destruct o as [w e|cnt nb wu]; cbn [op_ok] in Ho.
  - destruct Ho as [Hw He]. pose proof (write_entries w r e).
    destruct (IH fuel (ring_buffer_write w r e) p) as (out & r' & p' & taken & E & Ht & Hq); [by rewrite write_cpus|by apply write_ok|done|lia|].
    exists out, r', p', taken. split_and!; [done|done|]. intros c. destruct (Hq c) as [Hs Hl]. destruct (write_queue w r e c Hw) as [Hs' Hl'].
    rewrite written_cons, app_assoc. split; [etrans; [done|by apply sublist_app]|].
    rewrite length_app in Hl |- *. cbn [map sum_list_with] in *; unfold id in *. lia.
  - destruct (read_pipe_spec nb wu cnt r p fuel Hr Ho Hp ltac:(lia)) as (res & r1 & p1 & l & bs & -> & T & X & Eo & R1 & P1 & _). cbn [mbind option_bind].
    pose proof (takes_entries _ _ _ T). pose proof (takes_cpus _ _ _ T) as Hcp.
    destruct (IH fuel r1 p1) as (out & r' & p' & taken & -> & (bs' & X' & Eo') & Hq); [by rewrite Hcp|done|done|lia|]. cbn [mbind option_bind].
    exists (out_of res ++ out), r', p', (l ++ taken). split; [done|]. split.
    + exists (bs ++ bs'). split; [by apply texts_app|]. rewrite <- app_assoc, Eo', !app_assoc. by f_equal.
    + intros c. destruct (Hq c) as [Hs Hl]. rewrite of_cpu_app, <- app_assoc, (takes_queue r l r1) by done. rewrite <- app_assoc.
      split; [by apply sublist_app|]. rewrite !(length_app (of_cpu c l)). change (written (ORead cnt nb wu :: ops)) with (written ops). cbn [map sum_list_with overwrites]. unfold id in *. lia.
Qed.

(** C17.  The pipe delivers.  Entries are written on the CPUs, in any order, and reads of
    any size happen in between, one after the other, with any failures to copy;
    the entries are of the four kinds the VM writes itself (text, constant
    string, kernel stack, function) with a text that fits a page, and the
    kernel may overwrite unread entries of the CPU at every write.  Then every
    read returns, and all bytes handed out so far, followed by those kept for the
    next read, are the texts of a sequence of entries, none torn apart.  Of each
    CPU, the entries of that sequence followed by those still in its queue are
    entries written there, each at most once and in the order of writing, and no
    more are missing than the kernel has overwritten: without overwriting
    nothing is lost. *)
Theorem pipe_delivers ops n : Forall (op_ok n) ops ->
  exists out r p taken, run_pipe (3 + length ops) ops (mkring (replicate n []) 0) pipe0 = Some (out, r, p) /\
    texts taken (out ++ unread p) /\ forall c, accounted c (of_cpu c (written ops)) (of_cpu c taken ++ queue r c) ops.
Proof using Hprintf Hcopy.
  intros Hops. destruct (run_pipe_delivers ops (3 + length ops) (mkring (replicate n []) 0) pipe0) as (out & r & p & taken & E & (bs & X & Eo) & Hq).
  - cbn [queues]. by rewrite length_replicate.
  - apply Forall_replicate. constructor.
  - unfold pipe_ok. cbn. lia.
  - assert (Hz : entries (mkring (replicate n []) 0) = 0%nat) by (unfold entries; cbn; clear; induction n as [|n IH]; [done|exact IH]). lia.
  - exists out, r, p, taken. split_and!; [done|by rewrite Eo|]. intros c. specialize (Hq c). unfold queue at 1 in Hq. cbn in Hq.
    by destruct (replicate n [] !! c) eqn:El; [apply lookup_replicate in El as [-> _]|].
Qed.

(** ** Order and blocking *)

Definition stamp_of (x : nat * Z * trace_entry) : Z := snd (fst x).
Definition in_ring (r : ring) (x : Z * trace_entry) : Prop := exists i q, queues r !! i = Some q /\ x ∈ q.

(** Each CPU writes with its own clock. *)
Definition clocked (r : ring) : Prop := Forall (StronglySorted (λ x y, fst x <= fst y)) (queues r).

Lemma clocked_oldest r c ts e : clocked r -> __find_next_entry r = Some (c, ts, e) -> forall x, in_ring r x -> ts <= fst x.
Proof using.
  intros Hk Hn x (i & q & Hq & Hx). pose proof (find_next_spec r) as Hs. rewrite Hn in Hs. destruct Hs as [_ Hmin].
  pose proof (list.Forall_lookup_1 _ _ _ _ Hk Hq) as Hsorted. destruct q as [|[ts0 e0] q]; [by apply not_elem_of_nil in Hx|].
  specialize (Hmin i ts0 e0 ltac:(by eexists)). apply StronglySorted_inv in Hsorted as [_ Hall].
  apply elem_of_cons in Hx as [->|Hx]; [done|]. rewrite list.Forall_forall in Hall. specialize (Hall _ Hx). cbn in Hall. lia.
Qed.
Lemma in_ring_consume r c x : in_ring (trace_consume r c) x -> in_ring r x.
Proof using.
  intros (i & q & Hq & Hx). cbn in Hq. destruct (decide (i = c)) as [->|Hne].
  - rewrite list_lookup_alter_eq in Hq. apply fmap_Some in Hq as (q0 & Hq0 & ->). exists c, q0. split; [done|].
    destruct q0; [done|by right].
  - rewrite list_lookup_alter_ne in Hq by done. by exists i, q.
Qed.
Lemma clocked_consume r c : clocked r -> clocked (trace_consume r c).
Proof using.
  intros Hk. unfold clocked. cbn. apply Forall_alter; [done|]. intros q _ Hq. destruct q; [done|]. by apply StronglySorted_inv in Hq as [? _].
Qed.

Lemma takes_ordered r l r' : takes r l r' -> clocked r ->
  StronglySorted (λ x y, stamp_of x <= stamp_of y) l /\ (forall x, x ∈ l -> forall y, in_ring r' y -> stamp_of x <= fst y) /\
  (forall x, x ∈ l -> in_ring r (snd (fst x), snd x)) /\ (forall y, in_ring r' y -> in_ring r y).
Proof using.
  induction 1 as [|r c ts e l r' Hn _ IH]; intros Hk; [split_and!; [constructor|by intros ? ?%not_elem_of_nil..|done]|].
  destruct (IH (clocked_consume _ c Hk)) as (Hs & Hle & Hin & Hsub). pose proof (clocked_oldest _ _ _ _ Hk Hn) as Hold. split_and!.
  - constructor; [done|]. apply list.Forall_forall. intros x Hx. apply (Hold _ (in_ring_consume _ _ _ (Hin x Hx))).
  - intros x [->|Hx]%elem_of_cons y Hy; [|by apply Hle]. apply Hold. by apply (in_ring_consume r c), Hsub.
  - intros x [->|Hx]%elem_of_cons; [|by eapply in_ring_consume, Hin]. pose proof (find_next_spec r) as Hf. rewrite Hn in Hf.
    destruct Hf as [[q Hq] _]. exists c, ((ts, e) :: q). split; [done|by left].
  - intros y Hy. by apply (in_ring_consume r c), Hsub.
Qed.

(** C21.  The oldest entries come first.  The queues, as they are when the read starts,
    hold entries of the four kinds the VM writes itself, each with a text that
    fits a page, and each CPU has written with a clock that does not run
    backwards.  Then the page the read fills holds the texts of entries in the
    order of their time stamps over all CPUs, no entry left in the queues is older
    than one of them, and unless the queues are empty there is at least one. *)
Theorem read_takes_oldest cnt fuel r : ring_ok r -> clocked r -> (entries r < fuel)%nat ->
  exists l r' q, read_loop fuel pts cnt r (mkseq [] false) = Some (r', q) /\ texts l (sq_buffer q) /\
    StronglySorted (λ x y, stamp_of x <= stamp_of y) l /\ (forall x y, x ∈ l -> in_ring r' y -> stamp_of x <= fst y) /\
    (trace_empty r = false -> l <> []).
Proof using Hprintf.
  intros Hr Hk Hf. destruct (read_loop_takes cnt fuel r (mkseq [] false) Hr Hf) as (l & r' & q & bs & E & T & X & Eb & _ & Hne).
  destruct (takes_ordered _ _ _ T Hk) as (Hs & Hle & _). exists l, r', q. split_and!; [done|by rewrite Eb|done| |by apply Hne].
  intros x y Hx Hy. by apply Hle.
Qed.

(** An entry too long for a page: when the oldest entry has a text of a page or more,
    filling the page takes nothing from the queues and prints nothing, so that
    there is nothing to hand out and the read looks at the same entry again. *)
Lemma oversized_entry_stays r c ts e t fuel cnt : __find_next_entry r = Some (c, ts, e) -> entry_text ts e t ->
  PAGE_SIZE <= Z.of_nat (length t) -> exists full, read_loop (S fuel) pts cnt r (mkseq [] false) = Some (r, mkseq [] full).
Proof using Hprintf.
  intros Hn Ht Hlong. cbn [Transport.read_loop]. rewrite Hn.
  destruct (line_prints ts e t (mkseq [] false) Ht) as (ret & q' & -> & [[-> ->]|[-> Hpre]] & _ & Hpage).
  - specialize (Hpage eq_refl ltac:(done)). unfold in_page, sq_append, sq_len in Hpage. cbn in Hpage. unfold PAGE_SIZE in *. lia.
  - cbn [mbind option_bind]. rewrite decide_True by done. by eexists.
Qed.
End Pipe.

(** ** Concrete pipes *)

Definition demo_printf (q : trace_seq) (bs : bytes) : bool * trace_seq :=
  if decide (sq_full q = false /\ sq_len q + Z.of_nat (length bs) <= PAGE_SIZE - 2) then (true, sq_append q bs) else (false, mkseq (sq_buffer q) true).
Lemma demo_printf_law : printf_law demo_printf.
Proof. intros q bs. unfold demo_printf, fits. split; intros Hf; [by rewrite decide_True|rewrite decide_False by done; by exists true]. Qed.
Definition demo_symbol (a : Z) : bytes := byte_string "do_fork".
Definition demo_string (a : Z) : option bytes := Some (byte_string "nil").
(** The second byte of every copy fails. *)
Definition demo_copy (bs : bytes) : Z := Z.of_nat (length bs - 1).
Lemma demo_copies : copies demo_copy.
Proof. intros bs. unfold demo_copy. lia. Qed.

Definition demo_print (s : string) : trace_entry := mkent TRACE_PRINT (byte_string s) [].
Definition demo_ops_pipe : list pipe_op :=
  [OWrite (mkplace 1 20 true 0 0) (demo_print "b"); OWrite (mkplace 0 10 true 0 0) (mkent TRACE_STACK [] [5; ULONG_MAX]);
   OWrite (mkplace 1 25 true 0 1) (demo_print "bb"); ORead 100 false false; OWrite (mkplace 0 30 false 0 0) (demo_print "lost"); ORead 2 true false; ORead 0 true false].

Lemma fits_short bs : (Z.of_nat (length bs) <=? 4000) = true -> fits (mkseq [] false) bs.
Proof. intros Hl%Z.leb_le. split; [done|]. unfold sq_len, PAGE_SIZE. cbn. lia. Qed.
Lemma demo_print_fits ts s : (Z.of_nat (length (c_string (byte_string s))) <=? 4000) = true -> page_fits demo_symbol demo_string true ts (demo_print s).
Proof. intros Hl. eexists. split; [apply text_print|by apply fits_short]. Qed.

Lemma pipe_delivers_witness :
  exists out r p taken, run_pipe demo_printf demo_symbol demo_string (λ _, None) demo_copy true 10 demo_ops_pipe (mkring [[]; []] 0) pipe0 = Some (out, r, p) /\
    texts demo_symbol demo_string true taken (out ++ unread p) /\ forall c, accounted c (of_cpu c (written demo_ops_pipe)) (of_cpu c taken ++ queue r c) demo_ops_pipe.
Proof.
  apply (pipe_delivers demo_printf demo_symbol demo_string (λ _, None) demo_copy true demo_printf_law demo_copies demo_ops_pipe 2).
  repeat (apply list.Forall_cons; split); try (cbn; lia); try by constructor.
  - split; [cbn; lia|apply demo_print_fits; reflexivity].
  - split; [cbn; lia|]. eexists. split; [apply text_stack|]. apply fits_short. reflexivity.
  - split; [cbn; lia|apply demo_print_fits; reflexivity].
  - split; [cbn; lia|apply demo_print_fits; reflexivity].
Defined.

Definition demo_ring : ring := mkring [[(10, demo_print "a"); (30, demo_print "c")]; [(20, demo_print "b")]] 0.

Lemma read_takes_oldest_witness :
  exists l r' q, read_loop demo_printf demo_symbol demo_string (λ _, None) 4 true 100 demo_ring (mkseq [] false) = Some (r', q) /\
    texts demo_symbol demo_string true l (sq_buffer q) /\
    StronglySorted (λ x y, stamp_of x <= stamp_of y) l /\ (forall x y, x ∈ l -> in_ring r' y -> stamp_of x <= fst y) /\
    (trace_empty demo_ring = false -> l <> []).
Proof.
  apply (read_takes_oldest demo_printf demo_symbol demo_string (λ _, None) true demo_printf_law 100 4 demo_ring).
  - repeat first [apply list.Forall_cons; split | apply List.Forall_nil]; apply demo_print_fits; reflexivity.
  - repeat constructor; cbn; lia.
  - cbn. lia.
Defined.

(** A stack of the largest depth, of functions with names of ninety characters. *)
Definition long_symbol (a : Z) : bytes := replicate 90 97.
Definition demo_stack_ring : ring := mkring [[(10, mkent TRACE_STACK [] (replicate 50 1)); (11, demo_print "behind")]] 0.
Example deep_stack_stays :
  tracing_read_pipe demo_printf long_symbol demo_string (λ _, None) demo_copy 50 true false false 100 demo_stack_ring pipe0 = None /\
  exists full, read_loop demo_printf long_symbol demo_string (λ _, None) 50 true 100 demo_stack_ring (mkseq [] false) = Some (demo_stack_ring, mkseq [] full).
Proof. split; [vm_compute; reflexivity|]. exists true. vm_compute. reflexivity. Qed.
