(* ===== verification/Events.v ===== *)
(** * Events: tracing events and timers

    [runtime/kp_events.c], [lib_timer.c], [lib_kdebug.c], and the recursion contexts
    of [ktap.h].  A script asks for events and timers; the kernel calls back, and
    the callback runs the closure of the script on the VM state of its context.

    The perf, kprobe and timer interfaces of the kernel are the record [tracing].
    The libraries [timer] and [kdebug] are functions of the VM like those of [Lib],
    with the event state [tstate] beside it. *)

From S2P Require Import Prelude Types Tab Intern StrFmt Vm Lib.
#[local] Open Scope word_scope.

Definition ENOMEM : Z := 12.

(** ** Recursion contexts *)

(** [trace_get_context_bit] *)
Definition trace_get_context_bit (in_interrupt in_nmi in_irq : bool) : nat :=
  if in_interrupt then if in_nmi then 0 else if in_irq then 1 else 2 else 3.

(** The flags [recursion_context\[rctx\]] of the CPUs that are set. *)
Definition contexts : Type := gset (nat * nat).

(** None is the result -1. *)
Definition get_recursion_context (c : contexts) (cpu rctx : nat) : option nat * contexts :=
  if decide ((cpu, rctx) ∈ c) then (None, c) else (Some rctx, {[(cpu, rctx)]} ∪ c).
Definition put_recursion_context (c : contexts) (cpu rctx : nat) : contexts := c ∖ {[(cpu, rctx)]}.

(** Callbacks that run, innermost first: CPU, context and function.  The VM state
    they run on is that of the CPU and the context. *)
Record running := mkrun { r_ctx : contexts; r_active : list (nat * nat * Z) }.

(** The first part of [perf_callback] and [pre_handler_kprobe], up to the call of the
    closure: nothing happens when the tracer is stopping or the context is taken. *)
Definition event_enter (stop : bool) (cpu rctx : nat) (fn : Z) (r : running) : running :=
  if stop then r
  else match get_recursion_context (r_ctx r) cpu rctx with
       | (None, _) => r
       | (Some rctx, c) => mkrun c ((cpu, rctx, fn) :: r_active r)
       end.
(** [hrtimer_ktap_fn] does not test the result: -1 as an index is undefined. *)
Definition timer_enter (cpu rctx : nat) (fn : Z) (r : running) : option running :=
  match get_recursion_context (r_ctx r) cpu rctx with
  | (None, _) => ub
  | (Some rctx, c) => Some (mkrun c ((cpu, rctx, fn) :: r_active r))
  end.
(** The end of a callback: the innermost of its CPU. *)
Fixpoint leave_first (cpu : nat) (l : list (nat * nat * Z)) : option (nat * list (nat * nat * Z)) :=
  match l with
  | [] => None
  | (c, rctx, fn) :: l' =>
      if decide (c = cpu) then Some (rctx, l')
      else '(r, l') ← leave_first cpu l'; Some (r, (c, rctx, fn) :: l')
  end.
Definition callback_leave (cpu : nat) (r : running) : option running :=
  '(rctx, l) ← leave_first cpu (r_active r); Some (mkrun (put_recursion_context (r_ctx r) cpu rctx) l).

(** ** Fields of an event *)

Inductive field_type :=
  | KTAP_EVENT_FIELD_TYPE_INVALID | KTAP_EVENT_FIELD_TYPE_INT | KTAP_EVENT_FIELD_TYPE_LONG
  | KTAP_EVENT_FIELD_TYPE_STRING | KTAP_EVENT_FIELD_TYPE_REGESTER | KTAP_EVENT_FIELD_TYPE_CONST
  | KTAP_EVENT_FIELD_TYPE_NIL.
Record event_field := mkfield { f_type : field_type; f_offset : Z }.

(** A field as the kernel describes it. *)
Record ftrace_event_field := mkft { ft_offset : Z; ft_size : Z; ft_type : bytes }.
(** A tracepoint: its name and its fields, as the list of the kernel has them. *)
Record tp_call := mktp { tp_name : bytes; tp_fields : list ftrace_event_field }.

Definition field_of (f : ftrace_event_field) : event_field :=
  mkfield (if ft_size f =? 4 then KTAP_EVENT_FIELD_TYPE_INT
           else if ft_size f =? 8 then KTAP_EVENT_FIELD_TYPE_LONG
           else if decide (take 4 (ft_type f) = byte_string "char") then KTAP_EVENT_FIELD_TYPE_STRING
           else KTAP_EVENT_FIELD_TYPE_INVALID) (ft_offset f).

(** The loop over the fields from the end, [n] of them done; the rest is nil. *)
Fixpoint init_fields (n : nat) (fs : list ftrace_event_field) : list event_field :=
  match fs with
  | [] => replicate (9 - n) (mkfield KTAP_EVENT_FIELD_TYPE_NIL 0)
  | f :: fs' => if decide (n = 9%nat) then [] else field_of f :: init_fields (S n) fs'
  end.

(** What a callback has of its event: the fields, the raw record and the registers. *)
Record event_data := mkdata { d_fields : list event_field; d_raw : bytes; d_regs : bytes }.

Definition load (bs : bytes) (off : Z) (n : nat) : option Z :=
  if (0 <=? off) && (off + Z.of_nat n <=? Z.of_nat (length bs))
  then Some (le_val (take n (drop (Z.to_nat off) bs))) else ub.
Definition load_string (bs : bytes) (off : Z) : option bytes :=
  if (0 <=? off) && bool_decide (0 ∈ drop (Z.to_nat off) bs) then Some (c_string (drop (Z.to_nat off) bs)) else ub.

Section Getarg.
Context {S : Type} `{Intern S}.
#[local] Abbreviation vm := (Vm.vm (S := S)).

(** The value for slot [ra], the strings and the error state. *)
Definition kp_event_getarg (d : event_data) (s : vm) (ra idx : Z) : option (ktap_val * S * kerr) :=
  let number n := Some (set_number n, strs s, err s) in
  let nil (k : kerr) := c ← cell_at s ra; Some (set_nil (mkval (cell_payload c) 0), strs s, k) in
  f ← (if 0 <=? idx then d_fields d !! Z.to_nat idx else ub);
  match f_type f with
  | KTAP_EVENT_FIELD_TYPE_INT => n ← load (d_raw d) (f_offset f) 4; number (s32 n)
  | KTAP_EVENT_FIELD_TYPE_LONG => n ← load (d_raw d) (f_offset f) 8; number (s64 n)
  | KTAP_EVENT_FIELD_TYPE_STRING =>
      bs ← load_string (d_raw d) (f_offset f);
      '(ts, st, k) ← intern (strs s) (err s) bs;
      if ts =? 0 then '(v, _, _) ← nil k; Some (v, st, k) else Some (set_string ts, st, k)
  | KTAP_EVENT_FIELD_TYPE_CONST => number (f_offset f)
  | KTAP_EVENT_FIELD_TYPE_REGESTER => n ← load (d_regs d) (f_offset f) 8; number n
  | KTAP_EVENT_FIELD_TYPE_NIL => nil (err s)
  | KTAP_EVENT_FIELD_TYPE_INVALID => nil (kp_error "the field type is not supported yet" (err s))
  end.
End Getarg.

(** ** Creating and destroying events *)

Inductive event_type := KTAP_EVENT_TYPE_PERF | KTAP_EVENT_TYPE_KPROBE.
#[global] Instance event_type_dec : EqDecision event_type.
Proof. solve_decision. Defined.
(** [ev_perf] is the handle of the kernel, [ev_name] the address of the name, 0 for
    none. *)
Record kevent := mkev { ev_type : event_type; ev_fn : Z; ev_perf : Z; ev_fields : list event_field; ev_name : Z }.
(** A new event is cleared memory: the type of every field is 0. *)
Definition zero_fields : list event_field := replicate 9 (mkfield KTAP_EVENT_FIELD_TYPE_INVALID 0).

Record attr := mkattr { a_type : Z; a_config : Z; a_sample_period : Z }.
Definition PERF_TYPE_SOFTWARE : Z := 1.
Definition PERF_TYPE_TRACEPOINT : Z := 2.
Definition PERF_COUNT_SW_CPU_CLOCK : Z := 0.

Record ktimer := mktimer { tm_fn : Z; tm_ns : Z }.
Record eventdesc := mkdesc { ed_ids : list Z; ed_filter : option bytes }.

(** What the kernel does. *)
Record tracing := mktracing {
  cpumask : list Z;
  verbose : bool;
  event_alloc : Z -> bool;
  perf_event_create : attr -> Z -> Z + Z;          (* an error, or a handle *)
  perf_tp_event : Z -> option tp_call;
  profile_set_filter : Z -> bytes -> Z;
  register_kprobe : bytes -> Z;
  timer_alloc : bool;
  user_eventdesc : Z -> option eventdesc;          (* none: the copy fails *)
  kdebug_alloc : bool;
  signal_pending : nat -> bool
}.

(** The events and timers of the VM, and the handles that are registered. *)
Record tstate := mkts {
  t_events : list kevent;
  t_perfs : list Z;
  t_probes : list bytes;
  t_timers : list ktimer;
  trace_end_closure : option Z;
  trace_enabled : bool
}.
Definition with_events (t : tstate) (es : list kevent) (ps : list Z) : tstate :=
  mkts es ps (t_probes t) (t_timers t) (trace_end_closure t) (trace_enabled t).

Section Create.
Context {S : Type} `{Intern S}.
Context (T : tracing).
#[local] Abbreviation vm := (Vm.vm (S := S)).

(** Undefined, or a result and the new states. *)
Definition tres : Type := option (Z * tstate * vm).

Definition with_k (s : vm) (f : kerr -> kerr) : vm := with_err s (f (err s)).
Definition newz (s : vm) (bs : bytes) : option (Z * vm) :=
  '(ts, st, k) ← intern (strs s) (err s) (c_string bs); Some (ts, with_strs s st k).

Definition init_event_fields (ev : kevent) (s : vm) : option (Z * kevent * vm) :=
  match perf_tp_event T (ev_perf ev) with
  | None => Some (0, ev, s)
  | Some call =>
      '(ts, s) ← newz s (tp_name call);
      if ts =? 0 then Some (- ENOMEM, mkev (ev_type ev) (ev_fn ev) (ev_perf ev) (ev_fields ev) 0, s)
      else Some (0, mkev (ev_type ev) (ev_fn ev) (ev_perf ev) (init_fields 0 (rev (tp_fields call))) ts, s)
  end.

(** [kp_verbose_printf] *)
Definition verbose_printf (msg : string) (s : vm) : vm := if verbose T then with_k s (kp_printf msg) else s.
Definition created_message (a : attr) : string :=
  if a_type a =? PERF_TYPE_TRACEPOINT then "[verbose] enable perf event: [cpu: %d; id: %d; name: %s; filter: %s; pid: %d]"
  else if (a_type a =? PERF_TYPE_SOFTWARE) && (a_config a =? PERF_COUNT_SW_CPU_CLOCK)
  then "[verbose] enable profile event: [cpu: %d; sample_period: %d]" else "[verbose] unknown perf event type".

(** The loop over the CPUs; [ret] is the variable, none while it is not initialised. *)
Fixpoint create_loop (a : attr) (filter : option bytes) (fn : Z) (cpus : list Z) (ret : option Z) (t : tstate) (s : vm) : tres :=
  match cpus with
  | [] => Some (0, t, s)
  | cpu :: cpus' =>
      if negb (event_alloc T cpu) then Some (- ENOMEM, t, s)
      else
        match perf_event_create T a cpu with
        | inl e => Some (e, t, with_k s (kp_error "unable register perf event: [cpu: %d; id: %d; err: %d]"))
        | inr perf =>
            let s := verbose_printf (created_message a) s in
            '(r, ev, s) ← init_event_fields (mkev KTAP_EVENT_TYPE_PERF fn perf zero_fields 0) s;
            if negb (r =? 0) then
              let s := with_k s (kp_error "unable init event fields id %d") in
              match ret with Some r => Some (r, t, s) | None => ub end
            else
              match filter with
              | None => create_loop a filter fn cpus' ret (with_events t (t_events t ++ [ev]) (t_perfs t ++ [perf])) s
              | Some flt =>
                  let r := profile_set_filter T perf flt in
                  if negb (r =? 0) then Some (r, t, with_k s (kp_error "unable set event filter: [id: %d; filter: %s; ret: %d]"))
                  else create_loop a filter fn cpus' (Some r) (with_events t (t_events t ++ [ev]) (t_perfs t ++ [perf])) s
              end
        end
  end.

Definition kp_event_create (a : attr) (filter : option bytes) (fn : Z) (t : tstate) (s : vm) : tres :=
  create_loop a filter fn (cpumask T) None t (with_k s (λ k, mkerr (k_state k) 1 (k_out k))).

Definition kp_event_create_kprobe (event_name : bytes) (fn : Z) (t : tstate) (s : vm) : tres :=
  if negb (event_alloc T 0) then Some (- ENOMEM, t, s)
  else
    '(ts, s) ← newz s event_name;
    if ts =? 0 then Some (- ENOMEM, t, s)
    else
      let ret := register_kprobe T event_name in
      if negb (ret =? 0) then Some (ret, t, with_k s (kp_error "register kprobe event %s failed, ret: %d"))
      else Some (0, mkts (t_events t ++ [mkev KTAP_EVENT_TYPE_KPROBE fn 0 zero_fields ts]) (t_perfs t) (t_probes t ++ [event_name])
                      (t_timers t) (trace_end_closure t) (trace_enabled t), s).

(** Release what the events hold, then forget them. *)
Definition perfs_of (es : list kevent) : list Z :=
  map ev_perf (filter (λ e, ev_type e = KTAP_EVENT_TYPE_PERF) es).
Definition events_destroy (t : tstate) : tstate :=
  mkts [] (list_difference (t_perfs t) (perfs_of (t_events t))) [] (t_timers t) (trace_end_closure t) (trace_enabled t).

(** [call] runs a closure. *)
Definition kp_events_exit (call : Z -> vm -> option vm) (t : tstate) (s : vm) : option (tstate * vm) :=
  if negb (trace_enabled t) then Some (t, s)
  else
    let t := events_destroy t in
    match trace_end_closure t with
    | Some fn =>
        if negb (k_state (err s) =? KTAP_ERROR) then
          let s := with_k s (λ k, mkerr KTAP_TRACE_END (k_stop k) (k_out k)) in
          s ← put s (top s) (set_func fn);
          s ← call (top s) (with_top s (top s + 1));
          Some (mkts (t_events t) (t_perfs t) (t_probes t) (t_timers t) None false, s)
        else Some (mkts (t_events t) (t_perfs t) (t_probes t) (t_timers t) (Some fn) false, s)
    | None => Some (mkts (t_events t) (t_perfs t) (t_probes t) (t_timers t) None false, s)
    end.

(** ** Timers *)

(** The interval: undefined when the digits do not fit their buffer with a
    terminator; -1 for a number out of range, an unknown unit or no number. *)
Fixpoint span_digits (bs : bytes) : bytes * bytes :=
  match bs with
  | [] => ([], [])
  | c :: l => if isdigit c then let '(d, r) := span_digits l in (c :: d, r) else ([], bs)
  end.
Definition decimal (ds : bytes) : Z := foldl (λ n c, 10 * n + (c - 48)) 0 ds.
(** [kstrtoint] of a string of digits. *)
Definition kstrtoint (ds : bytes) : option Z :=
  match ds with [] => None | _ => if decimal ds <? 2 ^ 31 then Some (decimal ds) else None end.
Fixpoint until_blank (bs : bytes) : bytes :=
  match bs with [] => [] | c :: l => if (c =? 32) || (c =? 0) then [] else c :: until_blank l end.
Definition time_factor (suffix : bytes) : option Z :=
  if bool_decide (suffix = byte_string "s") || bool_decide (suffix = byte_string "sec") then Some NSEC_PER_SEC
  else if bool_decide (suffix = byte_string "ms") || bool_decide (suffix = byte_string "msec") then Some NSEC_PER_MSEC
  else if bool_decide (suffix = byte_string "us") || bool_decide (suffix = byte_string "usec") then Some NSEC_PER_USEC
  else None.
Definition parse_interval (str : bytes) : option (option Z) :=
  let '(ds, rest) := span_digits (c_string str) in
  if Z.of_nat (length ds) >=? 32 then ub
  else Some (n ← kstrtoint ds; factor ← time_factor (until_blank (take 9 rest)); Some (u64 (u64 factor * u64 n))).

Definition set_tick_timer (period fn : Z) (t : tstate) (s : vm) : tres :=
  if negb (timer_alloc T) then Some (- ENOMEM, t, with_k s (kp_error "kmalloc failed"))
  else Some (0, mkts (t_events t) (t_perfs t) (t_probes t) (mktimer fn period :: t_timers t) (trace_end_closure t) (trace_enabled t), s).
Definition set_profile_timer (period fn : Z) (t : tstate) (s : vm) : tres :=
  kp_event_create (mkattr PERF_TYPE_SOFTWARE PERF_COUNT_SW_CPU_CLOCK period) None fn t s.
Definition kp_exit_timers (t : tstate) : tstate :=
  mkts (t_events t) (t_perfs t) (t_probes t) [] (trace_end_closure t) (trace_enabled t).

(** ** The libraries [timer] and [kdebug] *)

Definition kp_arg_checkstring (idx : Z) : Lib.lib (S := S) bytes := λ s,
  v ← get s (ks_func s + idx);
  if negb (is_string v) then Some (Ret _ (-1), with_k s arg_wrong)
  else bs ← bytes_at (strs s) (val v); Some (Go _ bs, s).
Definition kp_arg_checkfunction (idx : Z) : Lib.lib (S := S) Z := λ s,
  v ← get s (ks_func s + idx);
  if negb (is_function v) then Some (Ret _ (-1), with_k s arg_wrong) else Some (Go _ (val v), s).

(** An argument, or the early return. *)
Definition with_arg {A} (m : Lib.lib (S := S) A) (t : tstate) (s : vm) (f : A -> vm -> tres) : tres :=
  '(r, s) ← m s; match r with Go _ a => f a s | Ret _ n => Some (n, t, s) end.
Definition fails (msg : string) (t : tstate) (s : vm) : tres := Some (-1, t, with_k s (kp_error msg)).

Definition do_tick_profile (is_tick : bool) (t : tstate) (s : vm) : tres :=
  with_arg (kp_arg_checkstring 1) t s (λ str s, with_arg (kp_arg_checkfunction 2) t s (λ fn s,
    o ← parse_interval str;
    match o with
    | None => fails "cannot parse timer interval: %s" t s
    | Some period => if is_tick then set_tick_timer period fn t s else set_profile_timer period fn t s
    end)).
Definition kplib_timer_tick (t : tstate) (s : vm) : tres :=
  if negb (k_state (err s) =? KTAP_RUNNING) then fails "timer.tick only can be called in RUNNING state" t s
  else do_tick_profile true t s.
Definition kplib_timer_profile (t : tstate) (s : vm) : tres :=
  if negb (k_state (err s) =? KTAP_RUNNING) then fails "timer.profile only can be called in RUNNING state" t s
  else do_tick_profile false t s.

(** One event after the other, up to the first failure, which is not reported. *)
Fixpoint trace_ids (i : nat) (ids : list Z) (filter : option bytes) (fn : Z) (t : tstate) (s : vm) : tres :=
  match ids with
  | [] => Some (0, t, s)
  | id :: ids' =>
      if signal_pending T i then Some (-1, t, s)
      else
        '(ret, t, s) ← kp_event_create (mkattr PERF_TYPE_TRACEPOINT id 1) filter fn t s;
        if ret <? 0 then Some (0, t, s) else trace_ids (Datatypes.S i) ids' filter fn t s
  end.
(** The results of [copy_from_user] are tested for negative numbers, which they are
    not: when a copy fails the code goes on with what it has. *)
Definition kplib_kdebug_trace_by_id (t : tstate) (s : vm) : tres :=
  with_arg (kp_arg_checknumber 1) t s (λ uaddr s, with_arg (kp_arg_checkfunction 2) t s (λ fn s,
    if negb (is_main s) then fails "kdebug.trace_by_id only can be called in mainthread" t s
    else if negb (k_state (err s) =? KTAP_RUNNING) then fails "kdebug.trace_by_id only can be called in RUNNING state" t s
    else
      d ← user_eventdesc T (u64 uaddr);
      if match ed_filter d with Some flt => Z.of_nat (length flt) + 1 >? 0x1000 | None => false end then Some (-1, t, s)
      else if negb (kdebug_alloc T) then Some (-1, t, s)
      else trace_ids 0 (ed_ids d) (ed_filter d) fn t s)).
Definition kplib_kdebug_trace_end (t : tstate) (s : vm) : tres :=
  with_arg (kp_arg_checkfunction 1) t s (λ fn s,
    Some (0, mkts (t_events t) (t_perfs t) (t_probes t) (t_timers t) (Some fn) (trace_enabled t), s)).
Definition kplib_kdebug_kprobe (t : tstate) (s : vm) : tres :=
  with_arg (kp_arg_checkstring 1) t s (λ name s, with_arg (kp_arg_checkfunction 2) t s (λ fn s,
    if negb (is_main s) then fails "kdebug.kprobe only can be called in mainthread" t s
    else if negb (k_state (err s) =? KTAP_RUNNING) then fails "kdebug.kprobe only can be called in RUNNING state" t s
    else kp_event_create_kprobe name fn t s)).
End Create.
