(* ===== verification/EventsThm.v ===== *)
(** * EventsThm: events and timers

    Callbacks have a VM state of their own, every event that is created is released,
    arguments of events are the fields of their record, and intervals are read as
    they are written. *)

From S2P Require Import Prelude Types Mempool Str StrIntern Load Tab Intern StrFmt Vm VmThm VmWit Lib Events.
#[local] Open Scope word_scope.

(** ** Contexts *)

(** What may happen: the kernel calls a handler of an event or of a timer, or the
    innermost handler of a CPU ends. *)
Inductive cb_step : running -> running -> Prop :=
  | cb_event stop cpu rctx fn r : cb_step r (event_enter stop cpu rctx fn r)
  | cb_timer cpu rctx fn r r' : timer_enter cpu rctx fn r = Some r' -> cb_step r r'
  | cb_leave cpu r r' : callback_leave cpu r = Some r' -> cb_step r r'.

(** The flags are those of the handlers that run, and no two share one. *)
Definition cb_inv (r : running) : Prop :=
  (forall x, x ∈ r_ctx r <-> x ∈ map fst (r_active r)) /\ NoDup (map fst (r_active r)).

Lemma enter_inv r cpu rctx fn c x : get_recursion_context (r_ctx r) cpu rctx = (Some x, c) -> cb_inv r ->
  cb_inv (mkrun c ((cpu, x, fn) :: r_active r)).
Proof.
  unfold get_recursion_context. case_decide as Hd; [done|]. intros [= <- <-] [Hf Hn]. split; cbn.
  - intros y. rewrite elem_of_union, elem_of_singleton, elem_of_cons. by rewrite Hf.
  - constructor; [|done]. by rewrite <- Hf.
Qed.

Lemma leave_first_spec cpu l rctx l' : leave_first cpu l = Some (rctx, l') -> exists fn l1 l2, l = l1 ++ (cpu, rctx, fn) :: l2 /\ l' = l1 ++ l2.
Proof.
  revert l'. induction l as [|[[c x] fn] l IH]; intros l'; cbn [leave_first]; [done|]. case_decide as Hd.
  - intros [= <- <-]. subst. by exists fn, [], l.
  - intros ([r l2] & E & [= <- <-])%bind_Some. destruct (IH _ E) as (fn' & l1 & l3 & -> & ->). by exists fn', ((c, x, fn) :: l1), l3.
Qed.

Lemma cb_step_inv r r' : cb_step r r' -> cb_inv r -> cb_inv r'.
Proof.
  intros [stop cpu rctx fn r0|cpu rctx fn r0 r1 E|cpu r0 r1 E] Hi.
  - unfold event_enter. destruct stop; [done|]. destruct (get_recursion_context _ _ _) as [[x|] c] eqn:E; [by eapply enter_inv|done].
  - unfold timer_enter in E. destruct (get_recursion_context _ _ _) as [[x|] c] eqn:Eg; [|done]. injection E as <-. by eapply enter_inv.
  - unfold callback_leave in E. apply bind_Some in E as ([x l] & E & [= <-]). destruct (leave_first_spec _ _ _ _ E) as (fn & l1 & l2 & El & ->).
    destruct Hi as [Hf Hn]. rewrite El, map_app in *. cbn [map fst] in *. apply list.NoDup_app in Hn as (N1 & Nd & N2).
    apply list.NoDup_cons in N2 as [Nx N2].
    assert (Hout : (cpu, x) ∉ map fst l1) by (intros Hin; eapply Nd; [done|by left]).
    split; cbn.
    + intros y. unfold put_recursion_context. rewrite elem_of_difference, elem_of_singleton, Hf, map_app, !elem_of_app, elem_of_cons.
      split; [intros [[?|[->|?]] ?]; [by left|done|by right]|]. intros [Hy|Hy]; (split; [tauto|]); intros ->; done.
    + rewrite map_app. apply list.NoDup_app. split_and!; [done| |done]. intros y Hy Hy'. eapply Nd; [done|by right].
Qed.

(** C18.  Callbacks do not share a VM state: however callbacks of events and timers
    interrupt each other, no two that run have the same CPU and context, exactly
    their contexts are taken, so that none stays taken when all have ended, and an
    event in a taken context is dropped.  A timer that fires in a taken context is
    not dropped: its behaviour is undefined. *)
Theorem contexts_exclusive r : rtc cb_step (mkrun ∅ []) r ->
  NoDup (map fst (r_active r)) /\ (forall x, x ∈ r_ctx r <-> x ∈ map fst (r_active r)) /\
  forall cpu rctx fn, (cpu, rctx) ∈ map fst (r_active r) ->
    event_enter false cpu rctx fn r = r /\ timer_enter cpu rctx fn r = None.
Proof.
  intros Hr. assert (Hi : cb_inv r).
  { assert (H0 : cb_inv (mkrun ∅ [])) by (split; [intros x; split; [by intros ?%elem_of_empty|by intros ?%not_elem_of_nil]|constructor]).
    revert H0. induction Hr as [|r1 r2 r3 Hs _ IH]; [done|]. intros H1. apply IH. by eapply cb_step_inv. }
  destruct Hi as [Hf Hn]. split_and!; [done|done|]. intros cpu rctx fn Hin. apply Hf in Hin.
  unfold event_enter, timer_enter, get_recursion_context. rewrite decide_True by done. done.
Qed.

Definition demo_running : running := mkrun ({[(0, 1)]} ∪ ({[(0, 3)]} ∪ ∅))%nat [(0%nat, 1%nat, 7); (0%nat, 3%nat, 5)].
Lemma contexts_exclusive_witness :
  NoDup (map fst (r_active demo_running)) /\ (forall x, x ∈ r_ctx demo_running <-> x ∈ map fst (r_active demo_running)) /\
  forall cpu rctx fn, (cpu, rctx) ∈ map fst (r_active demo_running) ->
    event_enter false cpu rctx fn demo_running = demo_running /\ timer_enter cpu rctx fn demo_running = None.
Proof.
  apply (contexts_exclusive demo_running).
  apply (rtc_l _ _ (event_enter false 0 3 5 (mkrun ∅ []))); [constructor|].
  apply (rtc_l _ _ (event_enter false 0 1 7 (event_enter false 0 3 5 (mkrun ∅ [])))); [constructor|].
  assert (E : event_enter false 0 1 7 (event_enter false 0 3 5 (mkrun ∅ [])) = demo_running) by (vm_compute; reflexivity).
  rewrite E. apply rtc_refl.
Defined.

(** ** Intervals *)

Lemma decimal_app m ds : foldl (λ n c, 10 * n + (c - 48)) m ds = m * 10 ^ Z.of_nat (length ds) + decimal ds.
Proof.
  unfold decimal. revert m. induction ds as [|c ds IH]; intros m; cbn [foldl length]; [lia|].
  rewrite IH, (IH (10 * 0 + _)). rewrite Nat2Z.inj_succ, Z.pow_succ_r by lia. lia.
Qed.

Lemma digits_spec fuel : forall n acc, 0 <= n < 10 ^ Z.of_nat (S fuel) -> exists ds, digits (S fuel) n acc = ds ++ acc /\
  Forall (λ c, isdigit c = true) ds /\ (1 <= length ds <= S fuel)%nat /\ decimal ds = n.
Proof.
  induction fuel as [|fuel IH]; intros n acc Hn; cbn [digits]; destruct (Z.ltb_spec n 10) as [Hl|Hl].
  1, 3: (exists [48 + n]; split_and!; [done|constructor; [unfold isdigit; rewrite !(proj2 (Z.leb_le _ _)) by lia; done|constructor]|cbn; lia|cbn; lia|unfold decimal; cbn; lia]).
  - rewrite Z.pow_1_r in Hn. lia.
  - destruct (IH (n / 10) (48 + n mod 10 :: acc)) as (ds & E & Hd & Hlen & Hv).
    { rewrite (Nat2Z.inj_succ (S fuel)), Z.pow_succ_r in Hn by lia. split; [apply Z.div_pos; lia|apply Z.div_lt_upper_bound; lia]. }
    pose proof (Z.mod_pos_bound n 10 ltac:(lia)). pose proof (Z.div_mod n 10 ltac:(lia)).
    exists (ds ++ [48 + n mod 10]). split_and!.
    + cbn [digits] in E. rewrite E. by rewrite <- app_assoc.
    + apply Forall_app. split; [done|]. constructor; [|constructor]. unfold isdigit. by rewrite !(proj2 (Z.leb_le _ _)) by lia.
    + rewrite length_app. cbn. lia.
    + rewrite length_app. cbn. lia.
    + unfold decimal. rewrite foldl_app. fold (decimal ds). rewrite Hv. cbn. lia.
Qed.

Lemma span_digits_app ds rest : Forall (λ c, isdigit c = true) ds -> match rest with [] => True | c :: _ => isdigit c = false end ->
  span_digits (ds ++ rest) = (ds, rest).
Proof.
  induction 1 as [|c ds Hc _ IH]; intros Hr; cbn [app span_digits].
  - destruct rest as [|c r]; [done|]. cbn. by rewrite Hr.
  - rewrite Hc, IH by done. done.
Qed.
Lemma c_string_nonzero bs : Forall (λ c, c <> 0) bs -> c_string bs = bs.
Proof. induction 1 as [|c l Hc _ IH]; cbn; [done|]. by rewrite (proj2 (Z.eqb_neq _ _)), IH by done. Qed.

(** Units with what they stand for. *)
Definition units : list (bytes * Z) :=
  [(byte_string "s", 1000000000); (byte_string "sec", 1000000000); (byte_string "ms", 1000000); (byte_string "msec", 1000000);
   (byte_string "us", 1000); (byte_string "usec", 1000)].

(** Intervals are read as they are written: a number that fits an int and one of
    the units give the period in nanoseconds, without wrapping around. *)
Theorem interval_reads n unit factor : 0 <= n < 2 ^ 31 -> (unit, factor) ∈ units ->
  parse_interval (print_d n ++ unit) = Some (Some (n * factor)).
Proof.
  intros Hn Hu. unfold print_d. rewrite (proj2 (Z.ltb_ge _ _)) by lia.
  assert (H20 : 2 ^ 31 < 10 ^ Z.of_nat 20) by done. destruct (digits_spec 19 n [] ltac:(lia)) as (ds & -> & Hd & Hlen & Hv). rewrite app_nil_r.
  assert (Hunit : Forall (λ c, c <> 0) unit /\ match unit with [] => True | c :: _ => isdigit c = false end /\
    time_factor (until_blank (take 9 unit)) = Some factor /\ 0 <= factor <= 10 ^ 9).
  { repeat (apply elem_of_cons in Hu as [[= -> ->]|Hu]; [split_and!; [by repeat constructor|reflexivity..|lia|lia]|]). destruct (not_elem_of_nil _ Hu). }
  destruct Hunit as (Hz & Hfirst & Hf & Hr). unfold parse_interval.
  rewrite c_string_nonzero.
  2: { apply Forall_app. split; [|done]. eapply Forall_impl; [|exact Hd]. intros c Hc ->. discriminate Hc. }
  rewrite span_digits_app by done. rewrite Z.geb_leb, (proj2 (Z.leb_gt _ _)) by lia.
  assert (Hk : kstrtoint ds = Some n).
  { unfold kstrtoint. destruct ds; [cbn in Hlen; lia|]. rewrite Hv, (proj2 (Z.ltb_lt _ _)) by lia. done. }
  rewrite Hk. cbn [mbind option_bind]. rewrite Hf. cbn [mbind option_bind].
  assert (Hp : 0 <= factor * n <= 10 ^ 9 * 2 ^ 31).
  { split; [apply Z.mul_nonneg_nonneg; lia|apply Z.mul_le_mono_nonneg; lia]. }
  rewrite (wrap_id 64 factor), (wrap_id 64 n), wrap_id by (unfold in_u; lia). by rewrite Z.mul_comm.
Qed.

Lemma interval_reads_witness : parse_interval (byte_string "250ms") = Some (Some 250000000).
Proof.
  assert (Hu : (byte_string "ms", 1000000) ∈ units) by (right; right; left).
  exact (interval_reads 250 (byte_string "ms") 1000000 ltac:(lia) Hu).
Defined.

(** Thirty-two digits or more do not fit the local buffer. *)
Theorem interval_overflows ds unit : Forall (λ c, isdigit c = true) ds -> (32 <= length ds)%nat ->
  Forall (λ c, c <> 0) unit -> match unit with [] => True | c :: _ => isdigit c = false end -> parse_interval (ds ++ unit) = None.
Proof.
  intros Hd Hl Hz Hfirst. unfold parse_interval. rewrite c_string_nonzero.
  2: { apply Forall_app. split; [|done]. eapply Forall_impl; [|exact Hd]. intros c Hc ->. discriminate Hc. }
  rewrite span_digits_app by done. by rewrite Z.geb_leb, (proj2 (Z.leb_le _ _)) by lia.
Qed.

(** ** Arguments of events *)

Section Args.
Context {S : Type} `{Intern S}.
Context (T : tracing).
#[local] Abbreviation vm := (Vm.vm (S := S)).

Lemma init_fields_lookup n fs i : (n + i < 9)%nat ->
  init_fields n fs !! i = Some (match fs !! i with Some f => field_of f | None => mkfield KTAP_EVENT_FIELD_TYPE_NIL 0 end).
Proof.
  revert n i. induction fs as [|f fs IH]; intros n i Hi; cbn [init_fields].
  - apply lookup_replicate. split; [by destruct i|lia].
  - rewrite decide_False by lia. destruct i as [|i]; [done|]. cbn. apply IH. lia.
Qed.
Lemma init_fields_length n fs : (n <= 9)%nat -> length (init_fields n fs) = (9 - n)%nat.
Proof.
  revert n. induction fs as [|f fs IH]; intros n Hn; cbn [init_fields]; [apply length_replicate|].
  case_decide; [subst; cbn; lia|]. cbn [length]. rewrite IH by lia. lia.
Qed.

(** The value of a field in a record, by its size and type; the new strings. *)
Definition field_value (f : ftrace_event_field) (raw : bytes) (s : vm) (ra : Z) : option (ktap_val * S * kerr) :=
  let nil (st : S) (k : kerr) := c ← cell_at s ra; Some (mkval (cell_payload c) KTAP_TNIL, st, k) in
  if ft_size f =? 4 then n ← load raw (ft_offset f) 4; Some (mkval (s64 (s32 n)) KTAP_TNUM, strs s, err s)
  else if ft_size f =? 8 then n ← load raw (ft_offset f) 8; Some (mkval (s64 (s64 n)) KTAP_TNUM, strs s, err s)
  else if decide (take 4 (ft_type f) = byte_string "char") then
    bs ← load_string raw (ft_offset f); '(ts, st, k) ← intern (strs s) (err s) bs;
    if ts =? 0 then nil st k else Some (mkval ts KTAP_TSTR, st, k)
  else nil (strs s) (kp_error "the field type is not supported yet" (err s)).

Lemma init_event_fields_named ev s call ev' s' : perf_tp_event T (ev_perf ev) = Some call ->
  init_event_fields T ev s = Some (0, ev', s') -> ev_fields ev' = init_fields 0 (rev (tp_fields call)).
Proof.
  unfold init_event_fields. intros ->. intros ([ts s1] & _ & E)%bind_Some. destruct (ts =? 0); [discriminate E|]. by injection E as <- _.
Qed.

(** C23.  Arguments are fields: once the fields of a tracepoint are set up, argument
    [i] below 9 is the value of its [i]-th field, counted from the end of the
    kernel's list, and nil when it has no such field.  Argument 9, which the
    language has too, reads behind the array. *)
Theorem getarg_reads_field ev (s0 s : vm) call ev' s' raw regs ra : perf_tp_event T (ev_perf ev) = Some call ->
  init_event_fields T ev s0 = Some (0, ev', s') -> is_Some (cell_at s ra) ->
  (forall i : nat, (i < 9)%nat -> kp_event_getarg (mkdata (ev_fields ev') raw regs) s ra (Z.of_nat i) =
    match rev (tp_fields call) !! i with
    | Some f => field_value f raw s ra
    | None => c ← cell_at s ra; Some (mkval (cell_payload c) KTAP_TNIL, strs s, err s)
    end) /\
  kp_event_getarg (mkdata (ev_fields ev') raw regs) s ra 9 = None.
Proof.
  intros Hc Hi [c Hcell]. rewrite (init_event_fields_named _ _ _ _ _ Hc Hi). unfold kp_event_getarg. cbn [d_fields d_raw d_regs]. split.
  - intros i Hlt. rewrite (proj2 (Z.leb_le 0 _)) by lia. rewrite Nat2Z.id, init_fields_lookup by lia. cbn [mbind option_bind]. rewrite Hcell.
    destruct (rev (tp_fields call) !! i) as [f|]; [|done]. unfold field_value, field_of. cbn [f_type f_offset]. rewrite Hcell.
    destruct (ft_size f =? 4); [done|]. destruct (ft_size f =? 8); [done|]. case_decide; [|done].
    destruct (load_string raw (ft_offset f)) as [bs|]; [|done]. cbn [mbind option_bind].
    destruct (intern (strs s) (err s) bs) as [[[ts st] k]|]; [|done]. cbn [mbind option_bind]. by destruct (ts =? 0).
  - cbn [Z.leb Z.compare]. rewrite lookup_ge_None_2; [done|]. rewrite init_fields_length by lia. cbn. lia.
Qed.

(** ** Events are released *)

Definition ev_inv (t : tstate) : Prop := t_perfs t = perfs_of (t_events t).
(** The names of tracepoints are strings the table takes. *)
Definition names_ok : Prop := forall h call, perf_tp_event T h = Some call ->
  Forall is_byte (c_string (tp_name call)) /\ (0 < length (c_string (tp_name call)))%nat /\
  Z.of_nat (length (c_string (tp_name call))) < KP_MAX_STR.
Context {HL : InternLaws S} (Hnames : names_ok).
(** Room for the names of [n] more events. *)
Definition name_room (n : nat) (s : vm) : Prop := intern_ok (strs s) /\ (n <= intern_room (strs s))%nat.

Lemma init_ok ev n (s : vm) : name_room (Datatypes.S n) s -> exists ev' s', init_event_fields T ev s = Some (0, ev', s') /\ name_room n s' /\
  ev_type ev' = ev_type ev /\ ev_fn ev' = ev_fn ev /\
  ev_perf ev' = ev_perf ev /\ (length (ev_fields ev) = 9%nat -> length (ev_fields ev') = 9%nat).
Proof using Hnames.
  intros [Hok Hroom]. unfold init_event_fields. destruct (perf_tp_event T (ev_perf ev)) as [call|] eqn:Ec.
  - destruct (Hnames _ _ Ec) as (Hb & H0 & Hl). unfold newz.
    destruct (intern_spec (strs s) (err s) (c_string (tp_name call)) Hok ltac:(lia) Hb H0 Hl) as (ts & st & -> & Hts & Hok' & Hr & _).
    cbn [mbind option_bind]. rewrite (proj2 (Z.eqb_neq _ _)) by done.
    eexists _, _. split_and!; [done|split; [exact Hok'|cbn; lia]|done..|]. intros _. cbn. rewrite init_fields_length by lia. done.
  - exists ev, s. split_and!; try done. split; [done|lia].
Qed.

(** The events of a first part of [n] CPUs are added. *)
Definition made (fn : Z) (n : nat) (t : tstate) (o : option (Z * tstate * vm)) : Prop := exists r t' s' new, o = Some (r, t', s') /\
  t_events t' = t_events t ++ new /\ t_perfs t' = t_perfs t ++ map ev_perf new /\
  Forall (λ e, ev_type e = KTAP_EVENT_TYPE_PERF /\ ev_fn e = fn /\ length (ev_fields e) = 9%nat) new /\
  (length new <= n)%nat /\ (length new = n -> r = 0) /\ trace_enabled t' = trace_enabled t /\ trace_end_closure t' = trace_end_closure t.

Lemma made_none fn n t r s : made fn (Datatypes.S n) t (Some (r, t, s)).
Proof using. exists r, t, s, []. cbn. rewrite !app_nil_r. by split_and!; [done..|constructor|lia|done|done|done]. Qed.
Lemma made_cons fn n t ev perf o : ev_type ev = KTAP_EVENT_TYPE_PERF -> ev_fn ev = fn -> length (ev_fields ev) = 9%nat -> ev_perf ev = perf ->
  made fn n (with_events t (t_events t ++ [ev]) (t_perfs t ++ [perf])) o -> made fn (Datatypes.S n) t o.
Proof using.
  intros E1 E2 E3 <- (r & t' & s' & new & -> & F1 & F2 & F3 & F4 & F5 & F6 & F7). exists r, t', s', (ev :: new).
  split_and!; [done|rewrite F1; cbn; by rewrite <- app_assoc|rewrite F2; cbn; by rewrite <- app_assoc|by constructor|cbn; lia| |done|done].
  intros Hl. apply F5. cbn in Hl. lia.
Qed.

Lemma create_loop_spec a flt fn cpus : forall ret t s, name_room (length cpus) s -> made fn (length cpus) t (create_loop T a flt fn cpus ret t s).
Proof using Hnames.
  induction cpus as [|cpu cpus IH]; intros ret t s Hr; cbn [create_loop length] in *.
  { exists 0, t, s, []. rewrite !app_nil_r. by split_and!. }
  destruct (event_alloc T cpu); cbn [negb]; [|apply made_none]. destruct (perf_event_create T a cpu) as [e|perf]; [apply made_none|].
  destruct (init_ok (mkev KTAP_EVENT_TYPE_PERF fn perf zero_fields 0) (length cpus) (verbose_printf T (created_message a) s)) as (ev & s1 & -> & R1 & E1 & E2 & E3 & E4);
    [unfold verbose_printf; by destruct (verbose T)|].
  cbn [mbind option_bind negb Z.eqb]. destruct flt as [f|]; [destruct (_ =? 0); cbn [negb]; [|apply made_none]|];
    (apply (made_cons _ _ _ ev perf); [done|done|by apply E4|done|by apply IH]).
Qed.

Lemma perfs_of_app es new : Forall (λ e, ev_type e = KTAP_EVENT_TYPE_PERF) new -> perfs_of (es ++ new) = perfs_of es ++ map ev_perf new.
Proof using.
  intros Hn. unfold perfs_of. rewrite list.filter_app, map_app. f_equal. induction Hn as [|e l He _ IH]; [done|].
  rewrite filter_cons, decide_True by done. cbn. by rewrite IH.
Qed.

(** Leaving: what the kernel holds for the events is given back. *)
Definition released (t : tstate) : Prop := t_events t = [] /\ t_perfs t = [] /\ t_probes t = [] /\ trace_enabled t = false.

Lemma destroy_perfs t : ev_inv t -> t_perfs (events_destroy t) = [].
Proof using.
  intros Hi. cbn. rewrite Hi. apply elem_of_nil_inv. by intros x [Hx Hn]%list_elem_of_difference.
Qed.
Lemma exit_releases call t (s : vm) t' s' : ev_inv t -> trace_enabled t = true -> kp_events_exit call t s = Some (t', s') -> released t'.
Proof using.
  intros Hi%destroy_perfs He. unfold kp_events_exit. rewrite He. cbn [negb].
  destruct (trace_end_closure (events_destroy t)) as [fn|]; [destruct (negb _)|].
  - intros (s1 & _ & (s2 & _ & [= <- _])%bind_Some)%bind_Some. by split_and!.
  - intros [= <- _]. by split_and!.
  - intros [= <- _]. by split_and!.
Qed.

(** C22.  Creating an event for all CPUs, while tracing is enabled, with a string table
    that has room for one more name per CPU and tracepoints whose names are not empty
    and shorter than the longest string: it always returns; the events of a first
    part of the CPUs are added, each set up with the function and registered, a
    result of 0 being certain when it is all of them, and nothing else is
    registered: what the kernel holds are exactly the handles of the events in the
    list.  Whenever [kp_events_exit] returns from there, no event, handle or probe
    is left, and it does return when there is no closure to run at the end of the
    trace. *)
Theorem events_created_and_released a flt fn t s : ev_inv t -> trace_enabled t = true -> name_room (length (cpumask T)) s -> exists r t' s' new,
  kp_event_create T a flt fn t s = Some (r, t', s') /\ t_events t' = t_events t ++ new /\
  Forall (λ e, ev_type e = KTAP_EVENT_TYPE_PERF /\ ev_fn e = fn /\ length (ev_fields e) = 9%nat) new /\
  (length new <= length (cpumask T))%nat /\ (length new = length (cpumask T) -> r = 0) /\
  ev_inv t' /\ (forall call t2 s2, kp_events_exit call t' s' = Some (t2, s2) -> released t2) /\
  (trace_end_closure t = None -> forall call, is_Some (kp_events_exit call t' s')).
Proof using Hnames.
  intros Hi He Hr. destruct (create_loop_spec a flt fn (cpumask T) None t (with_k s (λ k, mkerr (k_state k) 1 (k_out k))) Hr)
    as (r & t' & s' & new & E & E1 & E2 & E3 & E4 & E5 & E6 & E7).
  assert (Hi' : ev_inv t').
  { unfold ev_inv in *. rewrite E1, E2, perfs_of_app, Hi; [done|]. eapply Forall_impl; [|exact E3]. by intros e []. }
  rewrite He in E6. exists r, t', s', new. split_and!; try done; [intros call t2 s2; by apply exit_releases|].
  intros Hc call. unfold kp_events_exit. rewrite E6. cbn. rewrite E7, Hc. by eexists.
Qed.
End Args.

(** ** A concrete tracepoint *)

Definition demo_call : tp_call :=
  mktp (byte_string "sched_switch") [mkft 28 4 (byte_string "int"); mkft 24 4 (byte_string "pid_t"); mkft 8 16 (byte_string "char[16]")].
Definition demo_tracing : tracing :=
  mktracing [0; 1] false (λ _, true) (λ _ cpu, inr (100 + cpu)) (λ _, Some demo_call) (λ _ _, 0) (λ _, 0) true (λ _, None) true (λ _, false).
Definition demo_raw : bytes := replicate 8 0 ++ byte_string "bash" ++ replicate 12 0 ++ [7; 0; 0; 0] ++ [120; 0; 0; 0].
Definition demo_ev : kevent := mkev KTAP_EVENT_TYPE_PERF 10 100 zero_fields 0.

Lemma demo_names : names_ok demo_tracing.
Proof. intros h call [= <-]. split_and!; [|vm_compute; lia|by vm_compute]. vm_compute. repeat constructor; discriminate. Qed.

(** A VM on the string table as it is when the VM starts. *)
Definition fresh_vm : Vm.vm (S := strstate) :=
  mkvm demo_stack 5 120 0 1 0 10 20 20 (mkpc 20 3) 0 0 [30; 31] [30; 31] demo_heap (str_init scratch (2 ^ 20) 1023) 40 [66; 77] kerr0 true None.
Lemma fresh_room : @name_room strstate (Str_Intern (2 ^ 16)) (Str_InternLaws (2 ^ 16)) 2 fresh_vm.
Proof.
  split; [|change (2 <= Z.to_nat (KP_MAX_STRNUM + 1 - 0))%nat; unfold KP_MAX_STRNUM; lia].
  apply (boot_ready (2 ^ 16) (2 ^ 20) scratch). split; [apply scratch_ok|split; by vm_compute|by vm_compute].
Qed.

Definition demo_ev_set : kevent := mkev KTAP_EVENT_TYPE_PERF 10 100 (init_fields 0 (rev (tp_fields demo_call))) 2.

Lemma getarg_reads_field_witness : exists s',
  init_event_fields demo_tracing demo_ev demo = Some (0, demo_ev_set, s') /\
  (forall i : nat, (i < 9)%nat -> kp_event_getarg (mkdata (ev_fields demo_ev_set) demo_raw []) demo 5 (Z.of_nat i) =
    match rev (tp_fields demo_call) !! i with
    | Some f => field_value f demo_raw demo 5
    | None => c ← cell_at demo 5; Some (mkval (cell_payload c) KTAP_TNIL, strs demo, err demo)
    end) /\
  kp_event_getarg (mkdata (ev_fields demo_ev_set) demo_raw []) demo 5 9 = None.
Proof.
  eexists. split; [vm_compute; reflexivity|].
  eapply (getarg_reads_field demo_tracing demo_ev demo demo demo_call demo_ev_set _ demo_raw [] 5 eq_refl).
  - vm_compute. reflexivity.
  - by eexists.
Defined.

Lemma events_created_and_released_witness : exists r t' s' new,
  @kp_event_create strstate (Str_Intern (2 ^ 16)) demo_tracing (mkattr PERF_TYPE_TRACEPOINT 5 1) (Some (byte_string "pid == 1")) 10
    (mkts [] [] [] [] None true) fresh_vm = Some (r, t', s') /\
  t_events t' = [] ++ new /\
  Forall (λ e, ev_type e = KTAP_EVENT_TYPE_PERF /\ ev_fn e = 10 /\ length (ev_fields e) = 9%nat) new /\
  (length new <= 2)%nat /\ (length new = 2%nat -> r = 0) /\
  ev_inv t' /\ (forall call t2 s2, kp_events_exit call t' s' = Some (t2, s2) -> released t2) /\
  (trace_end_closure (mkts [] [] [] [] None true) = None -> forall call, is_Some (kp_events_exit call t' s')).
Proof.
  apply (@events_created_and_released strstate (Str_Intern (2 ^ 16)) demo_tracing (Str_InternLaws (2 ^ 16)) demo_names
    (mkattr PERF_TYPE_TRACEPOINT 5 1) (Some (byte_string "pid == 1")) 10 (mkts [] [] [] [] None true) fresh_vm).
  - reflexivity.
  - reflexivity.
  - apply fresh_room.
Defined.
