(* ===== verification/KList.v ===== *)
(** Generic lists of the overlay file system (lists/kernel_lists.c): linked lists with
    a primary index, alternate sorted indexes and a lock per list.

    Pointers are numbers, 0 is NULL. Nodes of abstract lists are a map from addresses
    ([km_nodes]); the arrays of an index belong to one field of one structure each, so
    they are values of that field, with a cell that was never written as [None]. A
    function that works on one list maps the memory and the structure of the list to
    their next contents ([LM]), where [None] is an access outside of an object, through
    NULL, to memory that was released or to a cell that was not written. The functions
    other modules call ([KM]) find the list by its address, take its lock and may also
    block for ever. Comparison functions are functions of the two pointers they are
    given. The answers of the allocators are a function of the number of requests. *)
From S2P Require Import Prelude.
Open Scope Z_scope.

Definition comp_func_t : Type := Z -> Z -> Z.

Inductive list_type_t := USER_LIST | ABSTRACT.
Inductive index_mode_t := NOT_INDEXED | FLAT | SORTED.
Inductive index_state_t := KLIST_INDEX__UP_TO_DATE | KLIST_INDEX__NEEDS_UPDATE.

#[export] Instance list_type_eq : EqDecision list_type_t.
Proof. solve_decision. Defined.
#[export] Instance index_mode_eq : EqDecision index_mode_t.
Proof. solve_decision. Defined.
#[export] Instance index_state_eq : EqDecision index_state_t.
Proof. solve_decision. Defined.

Definition SUCCESS : Z := 0.
Definition ALLOCATE_FAILED : Z := 20.
Definition LOCK_INTERRUPTED : Z := 21.
Definition EINVAL : Z := 22.
Definition ENOMEM : Z := 12.
Definition ENOENT : Z := 2.
Definition EINTR : Z := 4.
Definition KLIST_INDEX__LAZY_UPD : Z := 1.

(** An array of pointers; a cell that was not written yet is [None]. *)
Definition arr : Type := list (option Z).

Definition aget (a : arr) (i : Z) : option Z :=
  if i <? 0 then None else mjoin (a !! Z.to_nat i).

Definition aset (a : arr) (i v : Z) : option arr :=
  if (0 <=? i) && (i <? Z.of_nat (length a)) then Some (<[Z.to_nat i := Some v]> a) else None.

(** memmove of [cnt] cells inside an array. *)
Definition amove (a : arr) (dst src cnt : Z) : option arr :=
  let n := Z.of_nat (length a) in
  if (0 <=? cnt) && (0 <=? dst) && (0 <=? src) && (dst + cnt <=? n) && (src + cnt <=? n)
  then Some (take (Z.to_nat dst) a ++ take (Z.to_nat cnt) (drop (Z.to_nat src) a) ++ drop (Z.to_nat (dst + cnt)) a)
  else None.

Record link_list_struct := Node { element : Z; next : Z }.

(** Memory: the nodes of abstract lists, the data of the users of user lists, the next
    address and the number of requests, the functions kmalloc and do_malloc stand for,
    and the static variable of the linear search. *)
Record kmem := KMem {
  km_nodes : gmap Z link_list_struct;
  km_user : gmap Z Z;
  km_next : Z;
  km_allocs : nat;
  km_kmalloc : nat -> bool;
  km_do_malloc : nat -> bool;
  km_element_count : Z
}.

Record klist_index_struct := KIndex {
  ix_comp_func : option comp_func_t;
  ix_flags : Z;
  ix_state : index_state_t;
  ix_elements : option arr
}.

Definition next_node_func_t : Type := kmem -> Z -> option Z.
Definition add_node_func_t : Type := kmem -> Z -> Z -> option (Z * kmem).

Record list_struct := KL {
  ll_number_of_elements : Z;
  ll_list_type : list_type_t;
  ll_index_mode : index_mode_t;
  ll_first_element : Z;
  ll_last_element : Z;
  ll_element_list : option arr;
  ll_next_node : next_node_func_t;
  ll_element_compare : option comp_func_t;
  ll_search_func : option comp_func_t;
  ll_add_node : option add_node_func_t;
  ll_add_at_end : option add_node_func_t;
  ll_auto_lock : bool;
  ll_sem : Z;
  ll_index_arr_size : Z;
  ll_indexes : option (list (option klist_index_struct))
}.

(** ** Assignments to fields *)
Definition with_index (l : list_struct) (mode : index_mode_t) (a : option arr) : list_struct :=
  KL (ll_number_of_elements l) (ll_list_type l) mode (ll_first_element l) (ll_last_element l) a (ll_next_node l)
     (ll_element_compare l) (ll_search_func l) (ll_add_node l) (ll_add_at_end l) (ll_auto_lock l) (ll_sem l)
     (ll_index_arr_size l) (ll_indexes l).

Definition with_chain (l : list_struct) (n first last : Z) : list_struct :=
  KL n (ll_list_type l) (ll_index_mode l) first last (ll_element_list l) (ll_next_node l)
     (ll_element_compare l) (ll_search_func l) (ll_add_node l) (ll_add_at_end l) (ll_auto_lock l) (ll_sem l)
     (ll_index_arr_size l) (ll_indexes l).

Definition with_indexes (l : list_struct) (size : Z) (ixs : option (list (option klist_index_struct))) : list_struct :=
  KL (ll_number_of_elements l) (ll_list_type l) (ll_index_mode l) (ll_first_element l) (ll_last_element l)
     (ll_element_list l) (ll_next_node l) (ll_element_compare l) (ll_search_func l) (ll_add_node l)
     (ll_add_at_end l) (ll_auto_lock l) (ll_sem l) size ixs.

Definition with_funcs (l : list_struct) (cmp search : option comp_func_t) : list_struct :=
  KL (ll_number_of_elements l) (ll_list_type l) (ll_index_mode l) (ll_first_element l) (ll_last_element l)
     (ll_element_list l) (ll_next_node l) cmp search (ll_add_node l)
     (ll_add_at_end l) (ll_auto_lock l) (ll_sem l) (ll_index_arr_size l) (ll_indexes l).

Definition with_type (l : list_struct) (t : list_type_t) : list_struct :=
  KL (ll_number_of_elements l) t (ll_index_mode l) (ll_first_element l) (ll_last_element l)
     (ll_element_list l) (ll_next_node l) (ll_element_compare l) (ll_search_func l) (ll_add_node l)
     (ll_add_at_end l) (ll_auto_lock l) (ll_sem l) (ll_index_arr_size l) (ll_indexes l).

Definition with_lock (l : list_struct) (auto : bool) (sem : Z) : list_struct :=
  KL (ll_number_of_elements l) (ll_list_type l) (ll_index_mode l) (ll_first_element l) (ll_last_element l)
     (ll_element_list l) (ll_next_node l) (ll_element_compare l) (ll_search_func l) (ll_add_node l)
     (ll_add_at_end l) auto sem (ll_index_arr_size l) (ll_indexes l).

Definition set_ix_state (ix : klist_index_struct) (st : index_state_t) : klist_index_struct :=
  KIndex (ix_comp_func ix) (ix_flags ix) st (ix_elements ix).

Definition set_ix_elements (ix : klist_index_struct) (a : option arr) : klist_index_struct :=
  KIndex (ix_comp_func ix) (ix_flags ix) (ix_state ix) a.

Definition km_set_nodes (m : kmem) (ns : gmap Z link_list_struct) : kmem :=
  KMem ns (km_user m) (km_next m) (km_allocs m) (km_kmalloc m) (km_do_malloc m) (km_element_count m).

Definition km_set_count (m : kmem) (c : Z) : kmem :=
  KMem (km_nodes m) (km_user m) (km_next m) (km_allocs m) (km_kmalloc m) (km_do_malloc m) c.

(** ** Functions on one list *)
Definition LM (A : Type) : Type := kmem -> list_struct -> option (A * kmem * list_struct).

Definition lret {A} (a : A) : LM A := λ m l, Some (a, m, l).
Definition lbind {A B} (f : LM A) (g : A -> LM B) : LM B :=
  λ m l, match f m l with Some (a, m', l') => g a m' l' | None => None end.
Definition lopt {A} (o : option A) : LM A := λ m l, a ← o; Some (a, m, l).
Definition lget : LM list_struct := λ m l, Some (l, m, l).
Definition lmod (f : list_struct -> list_struct) : LM unit := λ m l, Some (tt, m, f l).
Definition lmem (f : kmem -> kmem) : LM unit := λ m l, Some (tt, f m, l).

Declare Scope klist_scope.
Notation "'let!' x ':=' e 'in' k" := (lbind e (λ x, k)) (at level 10, x pattern, e at level 200, k at level 200) : klist_scope.
Notation "'do!' e 'in' k" := (lbind e (λ _, k)) (at level 10, e at level 200, k at level 200) : klist_scope.
Open Scope klist_scope.

(** *** Memory *)

(** One request to an allocator: the answer, and an address no other object has. *)
Definition request (g : kmem -> nat -> bool) (m : kmem) : option Z * kmem :=
  (if g m (km_allocs m) then Some (km_next m) else None,
   KMem (km_nodes m) (km_user m) (km_next m + 16) (S (km_allocs m)) (km_kmalloc m) (km_do_malloc m) (km_element_count m)).

Definition do_malloc : LM (option Z) := λ m l, let '(r, m') := request km_do_malloc m in Some (r, m', l).
Definition do_kmalloc : LM (option Z) := λ m l, let '(r, m') := request km_kmalloc m in Some (r, m', l).

Definition klist_define_malloc (f : option (nat -> bool)) (m : kmem) : kmem :=
  KMem (km_nodes m) (km_user m) (km_next m) (km_allocs m) (km_kmalloc m)
       (match f with None => km_kmalloc m | Some g => g end) (km_element_count m).

(** do_free of a node. *)
Definition free_node (p : Z) (m : kmem) : option kmem :=
  match km_nodes m !! p with Some _ => Some (km_set_nodes m (delete p (km_nodes m))) | None => None end.

(** The size of a pointer, for the processors of 32 bits these kernels are for, and the
    size of [n] of them in bytes, as the int that is passed for it. *)
Definition sizeof_ptr : Z := 4.
Definition ptr_bytes (n : Z) : Z := s32 (n * sizeof_ptr).
Definition ptr_cells (bytes : Z) : nat := Z.to_nat (bytes / sizeof_ptr).

(** [None] is NULL: the array stays as it was. Sizes are ints, in bytes; a negative one
    is a size_t of more than 2^31, which kmalloc does not give. *)
Definition my_realloc (obj : option arr) (old_size new_size : Z) : LM (option arr) :=
  let! r := do_kmalloc in
  match r with
  | None => lret None
  | Some _ =>
      if new_size <? 0 then lret None
      else
        match obj with
        | None => lret (Some (replicate (ptr_cells new_size) None))
        | Some a =>
            let c := ptr_cells (Z.min new_size old_size) in
            if (0 <=? old_size) && (c <=? length a)%nat
            then lret (Some (take c a ++ replicate (ptr_cells new_size - c) None))
            else lopt None
        end
  end.

(** *** Sorting and searching arrays *)

(** The inner loop of ssort: the smallest of the cells from [cur] on and [smallest]. *)
Fixpoint ssort_smallest (base : arr) (compar : comp_func_t) (k cur smallest : nat) : option nat :=
  match k with
  | O => Some smallest
  | S k' =>
      ele1 ← mjoin (base !! smallest); ele2 ← mjoin (base !! cur);
      ssort_smallest base compar k' (S cur) (if 0 <? compar ele1 ele2 then cur else smallest)
  end.

Definition swap_cells (base : arr) (i j : nat) : option arr :=
  x ← base !! i; y ← base !! j; Some (<[j := x]> (<[i := y]> base)).

(** The outer loop, with [k] positions left. *)
Fixpoint ssort_loop (base : arr) (num_el : nat) (compar : comp_func_t) (k pos : nat) : option arr :=
  match k with
  | O => Some base
  | S k' =>
      smallest ← ssort_smallest base compar (num_el - S pos) (S pos) pos;
      base' ← (if decide (smallest = pos) then Some base else swap_cells base pos smallest);
      ssort_loop base' num_el compar k' (S pos)
  end.

(** Every call sorts an array of pointers and compares what they point to. *)
Definition ssort (base : option arr) (num_el : Z) (compar : option comp_func_t) : option (option arr) :=
  match base, compar with
  | Some a, Some c =>
      let n := Z.to_nat (wrap 64 num_el) in
      if decide (n = 0%nat) then Some base else Some <$> ssort_loop a n c (n - 1) 0
  | _, _ => Some base
  end.

(** The loop of bsearch and of __find_insert_pos: the last position looked at and the
    last answer of the comparison. *)
Fixpoint probe_loop (fuel : nat) (a : arr) (f : Z -> Z) (low high : Z) : option (Z * Z) :=
  match fuel with
  | O => None
  | S fuel' =>
      let cur := Z.quot (swrap 32 (low + high)) 2 in
      ele ← aget a cur;
      let not_found := f ele in
      let high' := if not_found <? 0 then cur - 1 else high in
      let low' := if not_found <? 0 then low else if 0 <? not_found then cur + 1 else low in
      if negb (not_found =? 0) && (low' <=? high')
      then probe_loop fuel' a f low' high'
      else Some (cur, not_found)
  end.

Definition bsearch (value : Z) (base : option arr) (num_el : Z) (compar : option comp_func_t) : option (option Z) :=
  match base, compar with
  | Some a, Some c =>
      if wrap 64 num_el =? 0 then Some None
      else
        '(cur, not_found) ← probe_loop (S (length a)) a (c value) 0 (swrap 32 (num_el - 1));
        Some (if not_found =? 0 then Some cur else None)
  | _, _ => Some None
  end.

Definition __find_insert_pos (number_of_elements new_data : Z) (comp_cb : option comp_func_t) (index_ptr : option arr) : option Z :=
  a ← index_ptr; c ← comp_cb;
  '(cur, not_found) ← probe_loop (S (length a)) a (c new_data) 0 (swrap 32 (number_of_elements - 1));
  Some (if negb (not_found =? 0) && (0 <? not_found) then cur + 1 else cur).

Definition find_insert_pos (l : list_struct) (new_data : Z) : option Z :=
  __find_insert_pos (ll_number_of_elements l) new_data (ll_element_compare l) (ll_element_list l).

(** *** Nodes of abstract lists *)
Definition next_abs_node : next_node_func_t := λ m p, next <$> km_nodes m !! p.

Definition add_abs_node : add_node_func_t := λ m data_ptr front_of_list,
  match request km_do_malloc m with
  | (None, m') => Some (0, m')
  | (Some p, m') => Some (p, km_set_nodes m' (<[p := Node data_ptr front_of_list]> (km_nodes m')))
  end.

Definition add_abs_node_at_end : add_node_func_t := λ m data_ptr e_o_list,
  match request km_do_malloc m with
  | (None, m') => Some (0, m')
  | (Some p, m') =>
      ns ← (if e_o_list =? 0 then Some (km_nodes m')
            else n ← km_nodes m' !! e_o_list; Some (<[e_o_list := Node (element n) p]> (km_nodes m')));
      Some (p, km_set_nodes m' (<[p := Node data_ptr 0]> ns))
  end.

Definition list_length (l : list_struct) : Z := ll_number_of_elements l.

(** What a node holds for the user: its data in an abstract list. *)
Definition node_data (l : list_struct) (m : kmem) (node : Z) : option Z :=
  match ll_list_type l with ABSTRACT => element <$> km_nodes m !! node | USER_LIST => Some node end.

Definition LIST_NODE_DATA (node : Z) : LM Z := λ m l,
  match ll_list_type l with
  | ABSTRACT => if node =? 0 then Some (0, m, l) else e ← node_data l m node; Some (e, m, l)
  | USER_LIST => Some (node, m, l)
  end.

(** *** The primary index *)
Definition is_indexed (l : list_struct) : bool := negb (bool_decide (ll_index_mode l = NOT_INDEXED)).

Fixpoint make_index_loop (l : list_struct) (m : kmem) (k : nat) (node : Z) : option arr :=
  match k with
  | O => Some []
  | S k' =>
      e ← node_data l m node;
      node' ← ll_next_node l m node;
      rest ← make_index_loop l m k' node';
      Some (Some e :: rest)
  end.

Definition make_index : LM (option arr) :=
  let! r := do_malloc in
  match r with
  | None => lret None
  | Some _ => λ m l,
      a ← make_index_loop l m (Z.to_nat (ll_number_of_elements l)) (ll_first_element l);
      if Z.of_nat (length a) * sizeof_ptr <=? u32 (ll_number_of_elements l * sizeof_ptr) then Some (Some a, m, l) else None
  end.

Definition __index_list : LM Z :=
  let! a := make_index in
  match a with
  | None => do! lmod (λ l, with_index l (ll_index_mode l) None) in lret ALLOCATE_FAILED
  | Some a => do! lmod (λ l, with_index l FLAT (Some a)) in lret SUCCESS
  end.

Definition check_index : LM Z := let! l := lget in if is_indexed l then lret SUCCESS else __index_list.

(** The result: whether the index has grown. *)
Definition grow_index (old_size : Z) : LM bool :=
  let! l := lget in
  let! r := my_realloc (ll_element_list l) (ptr_bytes old_size) (ptr_bytes (ll_number_of_elements l)) in
  match r with
  | Some a => do! lmod (λ l, with_index l FLAT (Some a)) in lret true
  | None => lret false
  end.

Definition grow_index_ordered (new_data pos old_size : Z) : LM bool :=
  let! l := lget in
  let! r := my_realloc (ll_element_list l) (ptr_bytes old_size) (ptr_bytes (ll_number_of_elements l)) in
  match r with
  | Some a =>
      let! a' := lopt (amove a (pos + 1) pos (list_length l - pos - 1)) in
      let! a'' := lopt (aset a' pos new_data) in
      do! lmod (λ l, with_index l (ll_index_mode l) (Some a'')) in lret true
  | None => do! lmod (λ l, with_index l NOT_INDEXED None) in lret false
  end.

Definition cleanup_index : LM unit :=
  lmod (λ l, with_index l NOT_INDEXED (if is_indexed l then None else ll_element_list l)).

(** tbl_ptr[i] = v on the primary index. *)
Definition set_index_cell (i v : Z) : LM unit :=
  let! l := lget in
  let! a := lopt (ll_element_list l) in
  let! a' := lopt (aset a i v) in
  lmod (λ l, with_index l (ll_index_mode l) (Some a')).

Definition __sort_list : LM Z :=
  let! c := check_index in
  let! l := lget in
  match ll_element_compare l with
  | Some _ =>
      if c =? SUCCESS then
        let! a := lopt (ssort (ll_element_list l) (ll_number_of_elements l) (ll_element_compare l)) in
        do! lmod (λ l, with_index l SORTED a) in lret 1
      else lret 0
  | None => lret 0
  end.

(** [unsigned int num_el] makes the bound an unsigned comparison. *)
Definition sort_sublist_body (first_el num_el : Z) : LM Z :=
  let! c := check_index in
  let! l := lget in
  match ll_element_compare l with
  | Some _ =>
      if (c =? SUCCESS) && (0 <? first_el) && (wrap 32 (first_el + num_el - 1) <=? wrap 32 (ll_number_of_elements l)) then
        let! a := lopt (ll_element_list l) in
        let! sub := lopt (ssort (Some (drop (Z.to_nat (first_el - 1)) a)) num_el (ll_element_compare l)) in
        do! lmod (λ l, with_index l SORTED (Some (take (Z.to_nat (first_el - 1)) a ++ default [] sub))) in lret 1
      else lret 0
  | None => lret 0
  end.

Definition __nth_element (nth : Z) : LM Z :=
  let! c := check_index in
  let! l := lget in
  if (c =? SUCCESS) && (0 <? nth) && (nth <=? ll_number_of_elements l)
  then let! a := lopt (ll_element_list l) in lopt (aget a (nth - 1))
  else lret 0.

(** *** Searching the list *)

(** The loop of l_search: the element found, if any, and the number of nodes looked at. *)
Fixpoint l_search_loop (l : list_struct) (m : kmem) (f : Z -> Z) (k : nat) (node count : Z) : option (option Z * Z) :=
  match k with
  | O => Some (None, count)
  | S k' =>
      e ← node_data l m node;
      if f e =? 0 then Some (Some e, count + 1)
      else node' ← ll_next_node l m node; l_search_loop l m f k' node' (count + 1)
  end.

(** [None] is NULL. The search function is only called when there is an element. *)
Definition l_search (value : Z) : LM (option Z) := λ m l,
  let n := Z.to_nat (ll_number_of_elements l) in
  match n, ll_search_func l with
  | O, _ => Some (None, km_set_count m 0, l)
  | S _, None => None
  | S _, Some f =>
      '(r, count) ← l_search_loop l m (f value) n (ll_first_element l) 0;
      Some (r, km_set_count m count, l)
  end.

Definition search_element_pos_body (value : Z) : LM Z :=
  let! c := check_index in
  let! l := lget in
  if (c =? SUCCESS) && bool_decide (ll_index_mode l = SORTED) then
    let! answer := lopt (bsearch value (ll_element_list l) (ll_number_of_elements l) (ll_search_func l)) in
    lret (match answer with Some pos => pos + 1 | None => 0 end)
  else
    let! answer := l_search value in
    (* a NULL element that matches counts as not found *)
    match answer with
    | Some e => if e =? 0 then lret 0 else λ m l, Some (km_element_count m, m, l)
    | None => lret 0
    end.

Definition search_for_element_body (value : Z) : LM Z :=
  let! c := check_index in
  let! l := lget in
  if (c =? SUCCESS) && bool_decide (ll_index_mode l = SORTED) then
    let! answer := lopt (bsearch value (ll_element_list l) (ll_number_of_elements l) (ll_search_func l)) in
    match answer with
    | Some pos => let! a := lopt (ll_element_list l) in lopt (aget a pos)
    | None => lret 0
    end
  else let! answer := l_search value in lret (default 0 answer).

(** *** Alternate indexes *)

(** list->indexes[id - 1]; the inner [None] is an unused slot. *)
Definition get_slot (id : Z) : LM (option klist_index_struct) := λ m l,
  ixs ← ll_indexes l;
  if 1 <=? id then s ← ixs !! Z.to_nat (id - 1); Some (s, m, l) else None.

Definition set_slot (id : Z) (ix : option klist_index_struct) : LM unit :=
  lmod (λ l, with_indexes l (ll_index_arr_size l) ((λ ixs, <[Z.to_nat (id - 1) := ix]> ixs) <$> ll_indexes l)).

(** The guards the three updates of an alternate index start with: an unused slot or an
    index that is out of date is left alone, a lazy one is marked out of date. *)
Definition alt_index_guard (id : Z) (k : klist_index_struct -> arr -> LM unit) : LM unit :=
  let! slot := get_slot id in
  match slot with
  | None => lret tt
  | Some ix =>
      match ix_state ix, ix_elements ix with
      | KLIST_INDEX__NEEDS_UPDATE, _ | _, None => lret tt
      | KLIST_INDEX__UP_TO_DATE, Some a =>
          if negb (Z.land (ix_flags ix) KLIST_INDEX__LAZY_UPD =? 0)
          then set_slot id (Some (set_ix_state ix KLIST_INDEX__NEEDS_UPDATE))
          else k ix a
      end
  end.

Definition alt_index_insert (id ele : Z) : LM unit :=
  alt_index_guard id (λ ix a,
    let! l := lget in
    let n := ll_number_of_elements l in
    let! insert_pos := lopt (__find_insert_pos n ele (ix_comp_func ix) (Some a)) in
    let! a' := lopt (if insert_pos <? n then amove a (insert_pos + 1) insert_pos (n - insert_pos) else Some a) in
    let! a'' := lopt (aset a' insert_pos ele) in
    set_slot id (Some (set_ix_elements ix (Some a'')))).

(** Cells added at the end are set to NULL. *)
Definition alt_index_resize (id change : Z) : LM unit :=
  alt_index_guard id (λ ix a,
    let! l := lget in
    let old_size := ptr_bytes (ll_number_of_elements l) in
    let new_size := ptr_bytes (ll_number_of_elements l + change) in
    if new_size =? 0 then set_slot id (Some (set_ix_elements ix None))
    else
      let! r := my_realloc (Some a) old_size new_size in
      match r with
      | None => set_slot id (Some (KIndex (ix_comp_func ix) (ix_flags ix) KLIST_INDEX__NEEDS_UPDATE None))
      | Some a' =>
          let a'' := if old_size <? new_size
                     then take (ptr_cells old_size) a' ++ replicate (ptr_cells (new_size - old_size)) (Some 0) else a' in
          set_slot id (Some (set_ix_elements ix (Some a'')))
      end).

(** The two scans of __find_remove_pos beside the match: [step] is -1 or 1, [stop] the
    position the scan does not look at. *)
Fixpoint remove_scan (fuel : nat) (a : arr) (comp_cb : comp_func_t) (ele step stop cur : Z) : option Z :=
  match fuel with
  | O => None
  | S fuel' =>
      if (if step <? 0 then stop <? cur else cur <? stop) then
        x ← aget a cur;
        if x =? ele then Some cur
        else if negb (comp_cb ele x =? 0) then Some 0
        else remove_scan fuel' a comp_cb ele step stop (cur + step)
      else Some 0
  end.

Definition __find_remove_pos (number_of_elements ele : Z) (comp_cb : option comp_func_t) (index_arr : arr) : option Z :=
  search_result ← bsearch ele (Some index_arr) number_of_elements comp_cb;
  match search_result, comp_cb with
  | None, _ | _, None => Some 0
  | Some pos, Some c =>
      x ← aget index_arr pos;
      if x =? ele then Some pos
      else
        r ← remove_scan (S (length index_arr)) index_arr c ele (-1) 0 (pos - 1);
        if negb (r =? 0) then Some r
        else remove_scan (S (length index_arr)) index_arr c ele 1 number_of_elements (pos + 1)
  end.

Definition alt_index_delete (id ele : Z) : LM unit :=
  alt_index_guard id (λ ix a,
    let! l := lget in
    let n := ll_number_of_elements l in
    let! remove_pos := lopt (__find_remove_pos n ele (ix_comp_func ix) a) in
    if remove_pos <? 1 then set_slot id (Some (set_ix_state ix KLIST_INDEX__NEEDS_UPDATE))
    else
      let! a' := lopt (if remove_pos <? n - 1 then amove a remove_pos (remove_pos + 1) (n - (remove_pos + 1)) else Some a) in
      let! a'' := lopt (aset a' (n - 1) 0) in
      set_slot id (Some (set_ix_elements ix (Some a'')))).

Definition update_alt_index (id : Z) : LM Z :=
  let! slot := get_slot id in
  let! ix := lopt slot in
  let! l := lget in
  if ll_number_of_elements l =? 0 then do! set_slot id (Some (set_ix_elements ix None)) in lret 0
  else
    let! r := make_index in
    match r with
    | None => do! set_slot id (Some (set_ix_elements ix None)) in lret (- ENOMEM)
    | Some a =>
        let! a' := lopt (ssort (Some a) (ll_number_of_elements l) (ix_comp_func ix)) in
        do! set_slot id (Some (KIndex (ix_comp_func ix) (ix_flags ix) KLIST_INDEX__UP_TO_DATE a')) in
        lret 0
    end.

(** while ( cur_ind <= index_arr_size ): [f] for the [k] identifiers from [id] on. *)
Fixpoint for_indexes (f : Z -> LM unit) (k : nat) (id : Z) : LM unit :=
  match k with
  | O => lret tt
  | S k' => do! f id in for_indexes f k' (id + 1)
  end.

Definition all_indexes (f : Z -> LM unit) : LM unit :=
  let! l := lget in for_indexes f (Z.to_nat (ll_index_arr_size l)) 1.

(** *** Inserting *)

(** The index after one element was added at its end, or the index is given up. *)
Definition index_append (ptr1 old_size : Z) : LM unit :=
  let! tbl_ptr := grow_index old_size in
  let! l := lget in
  if tbl_ptr then set_index_cell (list_length l - 1) ptr1 else cleanup_index.

Definition call_add (f : add_node_func_t) (ptr1 at_ : Z) : LM Z := λ m l,
  '(p, m') ← f m ptr1 at_; Some (p, m', l).

Definition insert_into_list_body (ptr1 : Z) : LM Z :=
  let! l := lget in
  let! new_first := match ll_add_node l with Some f => call_add f ptr1 (ll_first_element l) | None => lret 0 end in
  do! (if new_first =? 0 then lret tt
       else
         do! lmod (λ l, with_chain l (ll_number_of_elements l) new_first (ll_last_element l)) in
         let old_size := ll_number_of_elements l in
         do! all_indexes (λ id, do! alt_index_resize id 1 in alt_index_insert id ptr1) in
         do! lmod (λ l, with_chain l (swrap 32 (ll_number_of_elements l + 1)) (ll_first_element l) (ll_last_element l)) in
         let! l := lget in
         if is_indexed l then
           match ll_list_type l with
           | ABSTRACT => index_append ptr1 old_size
           | USER_LIST => cleanup_index
           end
         else lret tt) in
  LIST_NODE_DATA new_first.

Definition insert_into_list_sorted_body (ptr1 : Z) : LM Z :=
  let! l := lget in
  let! new_first := match ll_add_node l with Some f => call_add f ptr1 (ll_first_element l) | None => lret 0 end in
  do! (if new_first =? 0 then lret tt
       else
         do! all_indexes (λ id, do! alt_index_resize id 1 in alt_index_insert id ptr1) in
         do! lmod (λ l, with_chain l (ll_number_of_elements l) new_first (ll_last_element l)) in
         let! l := lget in
         let old_size := ll_number_of_elements l in
         let grow := lmod (λ l, with_chain l (swrap 32 (ll_number_of_elements l + 1)) (ll_first_element l) (ll_last_element l)) in
         match ll_index_mode l with
         | SORTED =>
             let! ins_pos := lopt (find_insert_pos l ptr1) in
             do! grow in
             let! tbl_ptr := grow_index_ordered ptr1 ins_pos old_size in
             if tbl_ptr then lret tt else cleanup_index
         | _ =>
             do! grow in
             let! l := lget in
             do! (if is_indexed l then index_append ptr1 old_size else lret tt) in
             do! __sort_list in lret tt
         end) in
  LIST_NODE_DATA new_first.

Definition insert_at_end_body (ptr1 : Z) : LM Z :=
  let! l := lget in
  let! new_last := match ll_add_node l, ll_list_type l with
                   | Some _, ABSTRACT => let! f := lopt (ll_add_at_end l) in call_add f ptr1 (ll_last_element l)
                   | _, _ => lret 0
                   end in
  do! (if new_last =? 0 then lret tt
       else
         let old_size := ll_number_of_elements l in
         do! lmod (λ l, with_chain l (swrap 32 (ll_number_of_elements l + 1))
                          (if ll_first_element l =? 0 then new_last else ll_first_element l) new_last) in
         let! l := lget in
         if is_indexed l then
           match ll_list_type l with
           | ABSTRACT => index_append ptr1 old_size
           | USER_LIST => cleanup_index
           end
         else lret tt) in
  LIST_NODE_DATA new_last.

(** *** Removing *)

(** The walk of the three removals: the node the test [hit] stops at and the one before. *)
Fixpoint remove_walk (fuel : nat) (m : kmem) (hit : Z -> nat -> bool) (k : nat) (last cur : Z) : option (Z * Z) :=
  match fuel with
  | O => None
  | S fuel' =>
      if cur =? 0 then Some (last, 0)
      else
        n ← km_nodes m !! cur;
        if hit (element n) k then Some (last, cur) else remove_walk fuel' m hit (S k) cur (next n)
  end.

(** Unlinking and releasing the node [cur] after [last]. *)
Definition unlink_node (last cur : Z) : LM Z := λ m l,
  n ← km_nodes m !! cur;
  ns ← (if last =? 0 then Some (km_nodes m)
        else p ← km_nodes m !! last; Some (<[last := Node (element p) (next n)]> (km_nodes m)));
  Some (element n, km_set_nodes m (delete cur ns),
        with_chain l (ll_number_of_elements l) (if last =? 0 then next n else ll_first_element l)
                     (if ll_last_element l =? cur then last else ll_last_element l)).

(** The order of the steps that follow differs between the functions; the alternate
    indexes do not look at the primary index or the nodes. *)
Definition remove_body (hit : Z -> nat -> bool) : LM Z :=
  let! walk := (λ m l, r ← remove_walk (S (size (km_nodes m))) m hit 0 0 (ll_first_element l); Some (r, m, l)) in
  let '(last, cur) := walk in
  if cur =? 0 then lret 0
  else
    let! removed_data := unlink_node last cur in
    do! cleanup_index in
    do! all_indexes (λ id, do! alt_index_delete id removed_data in alt_index_resize id (-1)) in
    do! lmod (λ l, with_chain l (swrap 32 (ll_number_of_elements l - 1)) (ll_first_element l) (ll_last_element l)) in
    lret removed_data.

Definition remove_element_body (search_val : Z) : LM Z :=
  let! l := lget in
  match ll_search_func l with
  | Some f => remove_body (λ e _, f search_val e =? 0)
  | None => if ll_first_element l =? 0 then lret 0 else lopt None
  end.

Definition remove_nth_body (nth : Z) : LM Z := remove_body (λ _ k, Z.of_nat (S k) =? nth).

Definition remove_node_body (node_ptr : Z) : LM Z := remove_body (λ e _, e =? node_ptr).

(** ** Functions of the module *)

(** [ks_signal]: a signal is pending, so that a wait for a lock is interrupted. *)
Record kst := KSt {
  ks_mem : kmem;
  ks_lists : gmap Z list_struct;
  ks_signal : bool
}.

(** [KFault] is an access to memory that is not there, [KBlock] a wait that nobody ends. *)
Inductive kout (A : Type) :=
  | KRet (a : A) (s : kst)
  | KFault
  | KBlock.
Arguments KRet {A} a s.
Arguments KFault {A}.
Arguments KBlock {A}.

Definition KM (A : Type) : Type := kst -> kout A.
Definition kret {A} (a : A) : KM A := λ s, KRet a s.
Definition kbind {A B} (f : KM A) (g : A -> KM B) : KM B :=
  λ s, match f s with KRet a s' => g a s' | KFault => KFault | KBlock => KBlock end.

Notation "'let*' x ':=' e 'in' k" := (kbind e (λ x, k)) (at level 10, x name, e at level 200, k at level 200) : klist_scope.
Notation "'do*' e 'in' k" := (kbind e (λ _, k)) (at level 10, e at level 200, k at level 200) : klist_scope.

(** A function on one list, at its address. *)
Definition on_list {A} (p : Z) (f : LM A) : KM A := λ s,
  match ks_lists s !! p with
  | None => KFault
  | Some l =>
      match f (ks_mem s) l with
      | None => KFault
      | Some (a, m', l') => KRet a (KSt m' (<[p := l']> (ks_lists s)) (ks_signal s))
      end
  end.

Definition get_list (p : Z) : KM list_struct := on_list p lget.

(** *** Locks *)

(** down_interruptible on the semaphore of the list. *)
Definition down_interruptible (p : Z) : KM Z := λ s,
  match ks_lists s !! p with
  | None => KFault
  | Some l =>
      if 0 <? ll_sem l then KRet 0 (KSt (ks_mem s) (<[p := with_lock l (ll_auto_lock l) (ll_sem l - 1)]> (ks_lists s)) (ks_signal s))
      else if ks_signal s then KRet (- EINTR) s
      else KBlock
  end.

Definition lock_list (p : Z) : KM Z :=
  if p =? 0 then kret 0
  else let* r := down_interruptible p in if r <? 0 then kret (- EINTR) else kret 0.

Definition unlock_list (p : Z) : KM Z :=
  if p =? 0 then kret 0
  else do* on_list p (lmod (λ l, with_lock l (ll_auto_lock l) (ll_sem l + 1))) in kret 0.

Definition set_list_autolock (p : Z) (do_locking : bool) : KM unit :=
  if p =? 0 then kret tt else on_list p (lmod (λ l, with_lock l do_locking (ll_sem l))).

Definition klist_auto_lock (p : Z) : KM Z :=
  if p =? 0 then kret (- EINVAL)
  else let* l := get_list p in if ll_auto_lock l then lock_list p else kret 0.

Definition klist_auto_unlock (p : Z) : KM unit :=
  if p =? 0 then kret tt
  else let* l := get_list p in if ll_auto_lock l then do* unlock_list p in kret tt else kret tt.

(** The frame of most functions: [null] for no list, [fail] when the lock is not taken. *)
Definition locked {A} (p : Z) (null fail : A) (f : KM A) : KM A :=
  if p =? 0 then kret null
  else
    let* r := klist_auto_lock p in
    if r <? 0 then kret fail
    else let* a := f in do* klist_auto_unlock p in kret a.

(** *** Creating a list *)
Definition create_list (next_node : option next_node_func_t) (element_compare search_function : option comp_func_t)
    (add_function : option add_node_func_t) : KM Z := λ s,
  match request km_do_malloc (ks_mem s) with
  | (None, m) => KRet 0 (KSt m (ks_lists s) (ks_signal s))
  | (Some p, m) =>
      let l := match next_node, add_function with
               | Some nx, Some ad =>
                   KL 0 USER_LIST NOT_INDEXED 0 0 None nx element_compare search_function (Some ad) None true 1 0 None
               | _, _ =>
                   KL 0 ABSTRACT NOT_INDEXED 0 0 None next_abs_node element_compare search_function
                      (Some add_abs_node) (Some add_abs_node_at_end) true 1 0 None
               end in
      KRet p (KSt m (<[p := l]> (ks_lists s)) (ks_signal s))
  end.

(** *** The functions that take the lock of a list *)
Definition index_list (p : Z) : KM Z := locked p (-1) LOCK_INTERRUPTED (kret SUCCESS).
Definition set_compare_func (p : Z) (f : option comp_func_t) : KM unit :=
  locked p tt tt (on_list p (lmod (λ l, with_funcs l f (ll_search_func l)))).
Definition set_search_func (p : Z) (f : option comp_func_t) : KM unit :=
  locked p tt tt (on_list p (lmod (λ l, with_funcs l (ll_element_compare l) f))).
Definition sort_list (p : Z) : KM Z := locked p (-1) (-1) (on_list p __sort_list).
Definition sort_sublist (p first_el num_el : Z) : KM Z := locked p 0 0 (on_list p (sort_sublist_body first_el num_el)).
Definition nth_element (p nth : Z) : KM Z := locked p 0 0 (on_list p (__nth_element nth)).
Definition search_element_pos (p value : Z) : KM Z := locked p 0 (-1) (on_list p (search_element_pos_body value)).
Definition search_for_element (p value : Z) : KM Z := locked p 0 0 (on_list p (search_for_element_body value)).
Definition insert_into_list (p ptr1 : Z) : KM Z := locked p 0 0 (on_list p (insert_into_list_body ptr1)).
Definition insert_into_list_sorted (p ptr1 : Z) : KM Z := locked p 0 0 (on_list p (insert_into_list_sorted_body ptr1)).
Definition insert_at_end (p ptr1 : Z) : KM Z := locked p 0 0 (on_list p (insert_at_end_body ptr1)).

Definition first_element (p : Z) : KM Z :=
  locked p 0 0 (on_list p (let! l := lget in LIST_NODE_DATA (ll_first_element l))).

(** A removal from a list that is not abstract is refused before the lock is taken. *)
Definition removal (p : Z) (ok : bool) (f : LM Z) : KM Z :=
  if p =? 0 then kret (-1)
  else
    let* l := get_list p in
    match ll_list_type l with
    | ABSTRACT => if ok then locked p (-1) (-1) (on_list p f) else kret (-1)
    | USER_LIST => kret (-1)
    end.

Definition remove_element (p search_val : Z) : KM Z := removal p true (remove_element_body search_val).
Definition remove_nth (p nth : Z) : KM Z := removal p (1 <=? nth) (remove_nth_body nth).
Definition remove_node (p node_ptr : Z) : KM Z := removal p true (remove_node_body node_ptr).

(** *** Visiting, clearing, copying *)

(** The two loops; [fuel] bounds the nodes visited, a loop that needs more does not end. *)
Fixpoint foreach_walk (fuel : nat) (p : Z) (user_func : Z -> KM unit) (cur_node : Z) : KM unit :=
  match fuel with
  | O => λ _, KBlock
  | S fuel' =>
      if cur_node =? 0 then kret tt
      else
        let* e := on_list p (λ m l, e ← node_data l m cur_node; Some (e, m, l)) in
        do* user_func e in
        let* cur_node' := on_list p (λ m l, n ← ll_next_node l m cur_node; Some (n, m, l)) in
        foreach_walk fuel' p user_func cur_node'
  end.

Fixpoint foreach_index (fuel : nat) (p : Z) (user_func : Z -> KM unit) (cur_pos : Z) : KM unit :=
  match fuel with
  | O => λ _, KBlock
  | S fuel' =>
      let* l := get_list p in
      if cur_pos <=? ll_number_of_elements l then
        let* cur_node := on_list p (__nth_element cur_pos) in
        do* user_func cur_node in foreach_index fuel' p user_func (cur_pos + 1)
      else kret tt
  end.

Definition foreach_node (fuel : nat) (p : Z) (user_func : Z -> KM unit) : KM unit :=
  locked p tt tt
    (let* l := get_list p in
     if is_indexed l then foreach_index fuel p user_func 1
     else foreach_walk fuel p user_func (ll_first_element l)).

Definition do_free (q : Z) : KM unit := λ s,
  match free_node q (ks_mem s) with
  | Some m => KRet tt (KSt m (ks_lists s) (ks_signal s))
  | None => KFault
  end.

Definition clear_list (fuel : nat) (p : Z) : KM unit :=
  locked p tt tt
    (do* on_list p cleanup_index in
     let* l := get_list p in
     do* match ll_list_type l with
         | ABSTRACT =>
             do* on_list p (lmod (λ l, with_type l USER_LIST)) in
             do* foreach_node fuel p do_free in
             on_list p (lmod (λ l, with_type l ABSTRACT))
         | USER_LIST => kret tt
         end in
     on_list p (lmod (λ l, with_chain l 0 0 0))).

Fixpoint merge_loop (k : nat) (list1 list2 cur_el : Z) : KM unit :=
  match k with
  | O => kret tt
  | S k' =>
      let* one_el := on_list list2 (__nth_element cur_el) in
      do* insert_at_end list1 one_el in
      merge_loop k' list1 list2 (cur_el + 1)
  end.

Definition __merge_list (list1 list2 : Z) : KM Z :=
  if (list2 =? 0) || (list1 =? 0) then kret (-1)
  else
    let* l := get_list list2 in
    do* merge_loop (Z.to_nat (list_length l)) list1 list2 1 in kret SUCCESS.

Definition merge_list (list1 list2 : Z) : KM Z :=
  if (list1 =? 0) || (list2 =? 0) then kret (-1)
  else
    let* r := klist_auto_lock list1 in
    if r <? 0 then kret (-1)
    else
      let* r := klist_auto_lock list2 in
      if r <? 0 then do* klist_auto_unlock list1 in kret (-1)
      else
        let* ret_code := __merge_list list1 list2 in
        do* klist_auto_unlock list1 in
        do* klist_auto_unlock list2 in
        kret ret_code.

(** Releasing the nodes from the front. *)
Fixpoint destroy_loop (fuel : nat) : LM unit :=
  match fuel with
  | O => lopt None
  | S fuel' =>
      let! l := lget in
      let one_node := ll_first_element l in
      if one_node =? 0 then lret tt
      else
        let! nx := (λ m l, n ← ll_next_node l m one_node; Some (n, m, l)) in
        do! lmod (λ l, with_chain l (ll_number_of_elements l) nx (ll_last_element l)) in
        do! (λ m l, m' ← free_node one_node m; Some (tt, m', l)) in
        destroy_loop fuel'
  end.

Definition __drop_index (id : Z) : LM unit :=
  let! slot := get_slot id in
  match slot with None => lret tt | Some _ => set_slot id None end.

Definition destroy_body : LM unit :=
  let! l := lget in
  do! match ll_indexes l with
      | None => lret tt
      | Some _ => do! all_indexes __drop_index in lmod (λ l, with_indexes l 0 None)
      end in
  do! lmod (λ l, with_index l (ll_index_mode l) (if is_indexed l then None else ll_element_list l)) in
  match ll_list_type l with
  | ABSTRACT =>
      do! lmod (λ l, with_index (with_type l USER_LIST) NOT_INDEXED (ll_element_list l)) in
      λ m l, destroy_loop (S (size (km_nodes m))) m l
  | USER_LIST => lret tt
  end.

Definition destroy_list (p : Z) : KM unit :=
  if p =? 0 then kret tt
  else
    let* r := klist_auto_lock p in
    if r <? 0 then kret tt
    else
      do* on_list p destroy_body in
      do* klist_auto_unlock p in
      λ s, KRet tt (KSt (ks_mem s) (delete p (ks_lists s)) (ks_signal s)).

Definition dup_list (d_list : Z) : KM Z :=
  locked d_list 0 0
    (let* l := get_list d_list in
     let* result := match ll_list_type l with
                    | ABSTRACT => create_list None (ll_element_compare l) (ll_search_func l) None
                    | USER_LIST => create_list (Some (ll_next_node l)) (ll_element_compare l) (ll_search_func l) (ll_add_node l)
                    end in
     if result =? 0 then kret 0
     else
       let* r := __merge_list result d_list in
       if r =? SUCCESS then kret result else do* destroy_list result in kret 0).

(** *** Alternate indexes *)

(** The first unused slot of an array of indexes, from identifier [id] on. *)
Fixpoint free_slot (ixs : list (option klist_index_struct)) (id : Z) : Z :=
  match ixs with
  | Some _ :: ixs' => free_slot ixs' (id + 1)
  | _ => id
  end.

(** A slot for a new index: its identifier, or [None] when there is no memory. *)
Definition new_slot : LM (option Z) :=
  let! l := lget in
  if ll_index_arr_size l =? 0 then
    let! r := do_malloc in
    match r with
    | None => do! lmod (λ l, with_indexes l 0 None) in lret None
    | Some _ => do! lmod (λ l, with_indexes l 1 (Some [None])) in lret (Some 1)
    end
  else
    let! ixs := lopt (ll_indexes l) in
    let result := free_slot ixs 1 in
    if result <=? ll_index_arr_size l then lret (Some result)
    else
      let! r := do_kmalloc in
      match r with
      | None => lret None
      | Some _ => do! lmod (λ l, with_indexes l (ll_index_arr_size l + 1) (Some (ixs ++ [None]))) in
                  lret (Some (ll_index_arr_size l + 1))
      end.

(** The return code and what is stored in *r_index_id, if anything. *)
Definition add_index_body (cb_func : comp_func_t) (flags : Z) : LM (Z * option Z) :=
  let! slot := new_slot in
  match slot with
  | None => lret (- ENOMEM, None)
  | Some result =>
      let! r := do_malloc in
      match r with
      | None => lret (- ENOMEM, None)
      | Some _ =>
          do! set_slot result (Some (KIndex (Some cb_func) flags KLIST_INDEX__NEEDS_UPDATE None)) in
          do! update_alt_index result in
          lret (0, Some result)
      end
  end.

(** The functions on indexes return the code of the lock when it is not taken. *)
Definition index_op {A} (p : Z) (dflt : A) (f : LM (Z * A)) : KM (Z * A) :=
  if p =? 0 then kret (- EINVAL, dflt)
  else
    let* r := klist_auto_lock p in
    if negb (r =? 0) then kret (r, dflt)
    else let* a := on_list p f in do* klist_auto_unlock p in kret a.

Definition add_index (p : Z) (cb_func : option comp_func_t) (flags : Z) : KM (Z * option Z) :=
  match cb_func with
  | None => kret (- EINVAL, None)
  | Some c => index_op p None (add_index_body c flags)
  end.

(** The slot of an identifier that was given by the caller, if it is in use. *)
Definition valid_slot (id : Z) : LM (option klist_index_struct) :=
  let! l := lget in
  if (id <? 1) || (ll_index_arr_size l <? id) then lret None else get_slot id.

Definition drop_index (p id : Z) : KM (Z * unit) :=
  index_op p tt
    (let! slot := valid_slot id in
     match slot with
     | None => lret (- EINVAL, tt)
     | Some _ => do! __drop_index id in lret (0, tt)
     end).

(** Bringing an index up to date before it is used: the code and its array. *)
Definition fresh_index (id : Z) (ix : klist_index_struct) : LM (Z * klist_index_struct) :=
  if decide (ix_state ix = KLIST_INDEX__UP_TO_DATE) then lret (0, ix)
  else
    let! r := update_alt_index id in
    let! slot := get_slot id in
    let! ix' := lopt slot in
    lret (r, ix').

Definition read_index_body (id nth : Z) : LM (Z * option Z) :=
  let! l := lget in
  if (id <? 1) || (ll_index_arr_size l <? id) || (nth <? 1) || (ll_number_of_elements l <? nth)
  then lret (- EINVAL, None)
  else
    let! slot := get_slot id in
    match slot with
    | None => lret (- EINVAL, None)
    | Some ix =>
        let! fr := fresh_index id ix in
        let '(r, ix') := fr in
        if negb (r =? 0) then lret (r, None)
        else
          let! a := lopt (ix_elements ix') in
          let! e := lopt (aget a (nth - 1)) in
          lret (0, Some e)
    end.

Definition read_index (p id nth : Z) : KM (Z * option Z) := index_op p None (read_index_body id nth).

Definition search_index_body (id data : Z) : LM (Z * option Z) :=
  let! slot := valid_slot id in
  match slot with
  | None => lret (- EINVAL, None)
  | Some ix =>
      let! fr := fresh_index id ix in
      let '(r, ix') := fr in
      if negb (r =? 0) then lret (r, None)
      else
        let! l := lget in
        let! answer := lopt (bsearch data (ix_elements ix') (ll_number_of_elements l) (ix_comp_func ix')) in
        match answer with
        | None => lret (- ENOENT, None)
        | Some pos => lret (0, Some (pos + 1))
        end
  end.

Definition search_index (p id data : Z) : KM (Z * option Z) := index_op p None (search_index_body id data).

Definition change_index_sort_body (id : Z) (new_cb : option comp_func_t) : LM (Z * unit) :=
  let! slot := valid_slot id in
  match slot with
  | None => lret (- EINVAL, tt)
  | Some ix =>
      do! set_slot id (Some (KIndex new_cb (ix_flags ix) KLIST_INDEX__NEEDS_UPDATE (ix_elements ix))) in
      if Z.land (ix_flags ix) KLIST_INDEX__LAZY_UPD =? 0
      then do! update_alt_index id in lret (0, tt)
      else lret (0, tt)
  end.

Definition change_index_sort (p id : Z) (new_cb : option comp_func_t) : KM (Z * unit) :=
  index_op p tt (change_index_sort_body id new_cb).
