(* ===== verification/KListSort.v ===== *)
(** Sorting and searching of the lists of the overlay file system: selection sort,
    binary search, the position an element is inserted at or removed from, on arrays
    whose cells are all written. *)
From stdpp Require Import sorting.
From S2P Require Import Prelude KList.
Open Scope Z_scope.

(** What the code expects of a comparison function: a total preorder. *)
Class comp_order (c : comp_func_t) : Prop := {
  comp_anti x y : Z.sgn (c x y) = - Z.sgn (c y x);
  comp_trans x y z : c x y <= 0 -> c y z <= 0 -> c x z <= 0
}.

Definition cle (c : comp_func_t) (x y : Z) : Prop := c x y <= 0.

(** The array of a list of pointers. *)
Definition cells (xs : list Z) : arr := Some <$> xs.

(** The array is sorted: earlier cells are not larger than later ones. *)
Definition sorted_by (c : comp_func_t) (xs : list Z) : Prop := StronglySorted (cle c) xs.

Section Order.
Context (c : comp_func_t) `{Hc : !comp_order c}.

Lemma comp_flip x y : c x y <= 0 <-> 0 <= c y x.
Proof using Hc. pose proof (comp_anti x y). pose proof (Z.sgn_nonneg (c y x)). lia. Qed.

Lemma comp_lt_flip x y : c x y < 0 <-> 0 < c y x.
Proof using Hc. pose proof (comp_flip y x). lia. Qed.

Lemma comp_refl x : c x x = 0.
Proof using Hc. pose proof (comp_anti x x). lia. Qed.
End Order.

(** ** Lists by position *)
Section Positions.
Context {A : Type} (R : A -> A -> Prop).

Lemma sorted_lookup l : StronglySorted R l <->
  ∀ i j x y, (i < j)%nat -> l !! i = Some x -> l !! j = Some y -> R x y.
Proof.
  induction l as [|a l IH].
  - split; [intros _ [|i] j x y _ H; discriminate|constructor].
  - split.
    + inversion 1 as [|? ? Hs Hf]; subst. intros [|i] [|j] x y Hij Hx Hy; try lia; simpl in *.
      * simplify_eq. by apply (proj1 (list.Forall_forall _ _) Hf), list_elem_of_lookup_2 with j.
      * eapply (proj1 IH); [done| |done..]. lia.
    + intros H. constructor.
      * apply IH. intros i j x y Hij Hx Hy. apply (H (Datatypes.S i) (Datatypes.S j)); [lia|done..].
      * apply list.Forall_forall. intros y [j Hj]%list_elem_of_lookup.
        apply (H 0%nat (Datatypes.S j)); [lia|done..].
Qed.
End Positions.

Lemma length_cells xs : length (cells xs) = length xs.
Proof. apply length_fmap. Qed.

Lemma cells_inj xs ys : cells xs = cells ys -> ys = xs.
Proof. intros H. symmetry. revert H. apply list_fmap_eq_inj. by intros ?? [= ->]. Qed.

Lemma cells_lookup xs i : mjoin (cells xs !! i) = xs !! i.
Proof. unfold cells, arr. rewrite list_lookup_fmap. by destruct (xs !! i). Qed.

Lemma aget_cells xs i : 0 <= i -> aget (cells xs) i = xs !! Z.to_nat i.
Proof. intros. unfold aget. rewrite (proj2 (Z.ltb_ge i 0)) by lia. apply cells_lookup. Qed.

Lemma aset_cells xs i v : 0 <= i < Z.of_nat (length xs) -> aset (cells xs) i v = Some (cells (<[Z.to_nat i := v]> xs)).
Proof.
  intros [? ?]. unfold aset. rewrite length_cells, (proj2 (Z.leb_le 0 i)), (proj2 (Z.ltb_lt i _)) by lia.
  simpl. unfold cells, arr. by rewrite list_fmap_insert.
Qed.

(** ** Selection sort *)
Section SelectionSort.
Context (c : comp_func_t) `{Hc : !comp_order c}.

(** [x] is not larger than the elements at the positions from [i] to [j] - 1. *)
Definition least (xs : list Z) (i j : nat) (x : Z) : Prop :=
  ∀ k y, (i <= k < j)%nat -> xs !! k = Some y -> c x y <= 0.

Lemma ssort_smallest_spec xs pos k cur s x :
  (cur + k = length xs)%nat -> (pos <= s < cur)%nat ->
  xs !! s = Some x -> least xs pos cur x ->
  ∃ s' x', ssort_smallest (cells xs) c k cur s = Some s' ∧ (pos <= s' < length xs)%nat ∧
    xs !! s' = Some x' ∧ least xs pos (length xs) x'.
Proof using Hc.
  revert cur s x. induction k as [|k IH]; intros cur s x Hk Hs Hx Hl; simpl.
  - replace cur with (length xs) in * by lia. exists s, x. split_and!; [done|lia..|done|done].
  - destruct (lookup_lt_is_Some_2 xs cur) as [y Hy]; [lia|].
    rewrite !cells_lookup, Hx, Hy. cbn [mbind option_bind].
    destruct (Z.ltb_spec 0 (c x y)) as [Hgt|Hle].
    + eapply IH; [lia|lia|exact Hy|]. intros k' z Hk' Hz.
      destruct (decide (k' = cur)) as [->|].
      * rewrite Hz in Hy. injection Hy as ->. rewrite (comp_refl c). lia.
      * apply (comp_trans y x z); [apply (comp_flip c); lia|]. apply (Hl k'); [lia|done].
    + eapply IH; [lia|lia|exact Hx|]. intros k' z Hk' Hz.
      destruct (decide (k' = cur)) as [->|]; [rewrite Hz in Hy; injection Hy as ->; lia|].
      apply (Hl k'); [lia|done].
Qed.

(** The elements in front of [pos] are in their final order. *)
Definition settled (xs : list Z) (pos : nat) : Prop :=
  ∀ i j x y, (i < j)%nat -> (i < pos)%nat -> xs !! i = Some x -> xs !! j = Some y -> c x y <= 0.

Lemma settled_step xs pos s a x : settled xs pos -> (pos <= s < length xs)%nat ->
  xs !! pos = Some a -> xs !! s = Some x -> least xs pos (length xs) x ->
  settled (<[s := a]> (<[pos := x]> xs)) (Datatypes.S pos).
Proof.
  intros Hp Hs Ha Hx Hl i j u v Hij Hi Hu Hv.
  assert (Hin : ∀ k w, (pos <= k)%nat -> (<[s := a]> (<[pos := x]> xs)) !! k = Some w ->
    ∃ k', (pos <= k')%nat ∧ xs !! k' = Some w).
  { intros k w Hk Hw. destruct (decide (k = s)) as [->|].
    - rewrite list_lookup_insert_eq in Hw by (rewrite length_insert; lia). injection Hw as <-. by exists pos.
    - rewrite list_lookup_insert_ne in Hw by done. destruct (decide (k = pos)) as [->|].
      + rewrite list_lookup_insert_eq in Hw by lia. injection Hw as <-. exists s. split; [lia|done].
      + rewrite list_lookup_insert_ne in Hw by done. by exists k. }
  destruct (decide (i = pos)) as [->|].
  - assert (u = x) as ->.
    { destruct (decide (s = pos)) as [->|].
      - rewrite list_lookup_insert_eq in Hu by (rewrite length_insert; lia). congruence.
      - rewrite list_lookup_insert_ne, list_lookup_insert_eq in Hu by (done || lia). congruence. }
    destruct (Hin j v) as (j' & Hj' & Hv'); [lia|done|].
    apply (Hl j' v); [|done]. split; [done|]. eapply lookup_lt_Some; eassumption.
  - rewrite !list_lookup_insert_ne in Hu by lia.
    destruct (decide (j < pos)%nat).
    + rewrite !list_lookup_insert_ne in Hv by lia. apply (Hp i j u v); [lia|lia|done|done].
    + destruct (Hin j v) as (j' & Hj' & Hv'); [lia|done|]. apply (Hp i j' u v); [lia|lia|done|done].
Qed.

Lemma swap_cells_cells xs i j x y : xs !! i = Some x -> xs !! j = Some y ->
  swap_cells (cells xs) i j = Some (cells (<[j := x]> (<[i := y]> xs))).
Proof.
  intros Hx Hy. unfold swap_cells, cells, arr. rewrite !list_lookup_fmap, Hx, Hy. simpl.
  by rewrite !list_fmap_insert.
Qed.

Lemma ssort_loop_spec k xs pos : (pos + k + 1 = length xs)%nat -> settled xs pos ->
  ∃ ys, ssort_loop (cells xs) (length xs) c k pos = Some (cells ys) ∧ xs ≡ₚ ys ∧ settled ys (length xs - 1).
Proof using Hc.
  revert xs pos. induction k as [|k IH]; intros xs pos Hk Hp; simpl.
  - exists xs. replace (length xs - 1)%nat with pos by lia. done.
  - destruct (lookup_lt_is_Some_2 xs pos) as [a Ha]; [lia|].
    destruct (ssort_smallest_spec xs pos (length xs - Datatypes.S pos) (Datatypes.S pos) pos a) as (s & x & -> & Hs & Hx & Hl);
      [lia|lia|done| |].
    { intros k' y Hk' Hy. replace k' with pos in * by lia. rewrite Ha in Hy. injection Hy as ->.
      rewrite (comp_refl c). lia. }
    cbn [mbind option_bind].
    pose proof (settled_step xs pos s a x Hp Hs Ha Hx Hl) as Hst.
    pose proof (Permutation_insert_swap xs pos s a x Ha Hx) as Hperm.
    assert (Hlen : length (<[s := a]> (<[pos := x]> xs)) = length xs) by by rewrite !length_insert.
    destruct (IH (<[s := a]> (<[pos := x]> xs)) (Datatypes.S pos)) as (ys & Hys & Hp' & Hset); [lia|done|]. rewrite Hlen in *.
    exists ys. split_and!; [|by rewrite <- Hp'|done].
    destruct (decide (s = pos)) as [->|].
    + rewrite list_insert_insert_eq, (list_insert_id xs pos a Ha) in Hys. exact Hys.
    + by rewrite (swap_cells_cells xs pos s a x Ha Hx).
Qed.

Lemma ssort_spec xs : Z.of_nat (length xs) < 2 ^ 64 ->
  ∃ ys, ssort (Some (cells xs)) (Z.of_nat (length xs)) (Some c) = Some (Some (cells ys)) ∧ xs ≡ₚ ys ∧ sorted_by c ys.
Proof using Hc.
  intros Hlen. unfold ssort, wrap. rewrite Z.mod_small, Nat2Z.id by lia.
  destruct (decide (length xs = 0%nat)) as [E|E].
  - apply nil_length_inv in E as ->. exists []. split_and!; [done|done|constructor].
  - destruct (ssort_loop_spec (length xs - 1) xs 0) as (ys & -> & Hp & Hs); [lia|intros ????; lia|].
    exists ys. split_and!; [done|done|]. apply sorted_lookup. intros i j x y Hij Hx Hy.
    apply (Hs i j); [done| |done..]. apply lookup_lt_Some in Hy. rewrite <- Hp in Hy. lia.
Qed.
End SelectionSort.

(** ** Binary search *)

(** The answers of the comparison along an array: first positive (the value comes
    later), then 0, then negative. *)
Definition falling (f : Z -> Z) (xs : list Z) : Prop :=
  ∀ i j x y, (i < j)%nat -> xs !! i = Some x -> xs !! j = Some y -> (f x < 0 -> f y < 0) ∧ (0 < f y -> 0 < f x).

(** Where the loop ends: on a match, or beside the only place the value could be. *)
Definition probed (f : Z -> Z) (xs : list Z) (cur nf : Z) : Prop :=
  (∃ x, 0 <= cur ∧ xs !! Z.to_nat cur = Some x ∧ nf = f x) ∧
  (nf = 0 ∨
   let pos := if 0 <? nf then cur + 1 else cur in
   (∀ i x, Z.of_nat i < pos -> xs !! i = Some x -> 0 < f x) ∧
   (∀ i x, pos <= Z.of_nat i -> xs !! i = Some x -> f x < 0)).

Lemma falling_above f xs cur x j y : falling f xs -> 0 <= cur -> xs !! Z.to_nat cur = Some x -> f x < 0 ->
  cur <= Z.of_nat j -> xs !! j = Some y -> f y < 0.
Proof.
  intros Hf Hc Hx Hneg Hj Hy. destruct (decide (j = Z.to_nat cur)) as [->|].
  - rewrite Hx in Hy. by injection Hy as <-.
  - destruct (Hf (Z.to_nat cur) j x y) as [H _]; [lia|done|done|auto].
Qed.

Lemma falling_below f xs cur x j y : falling f xs -> 0 <= cur -> xs !! Z.to_nat cur = Some x -> 0 < f x ->
  Z.of_nat j <= cur -> xs !! j = Some y -> 0 < f y.
Proof.
  intros Hf Hc Hx Hpos Hj Hy. destruct (decide (j = Z.to_nat cur)) as [->|].
  - rewrite Hx in Hy. by injection Hy as <-.
  - destruct (Hf j (Z.to_nat cur) y x) as [_ H]; [lia|done|done|auto].
Qed.

Lemma aget_prefix xs tail i : 0 <= i < Z.of_nat (length xs) -> aget (cells xs ++ tail) i = xs !! Z.to_nat i.
Proof.
  intros [? ?]. unfold aget. rewrite (proj2 (Z.ltb_ge i 0)) by lia. unfold arr.
  rewrite lookup_app_l by (rewrite length_cells; lia). apply cells_lookup.
Qed.

(** The array may be longer than the part that is searched. *)
Lemma probe_loop_spec f xs tail fuel low high : Z.of_nat (length xs) <= 2 ^ 28 -> falling f xs ->
  0 <= low <= high -> high < Z.of_nat (length xs) -> high - low < Z.of_nat fuel ->
  (∀ i x, Z.of_nat i < low -> xs !! i = Some x -> 0 < f x) ->
  (∀ i x, high < Z.of_nat i -> xs !! i = Some x -> f x < 0) ->
  ∃ cur nf, probe_loop fuel (cells xs ++ tail) f low high = Some (cur, nf) ∧ probed f xs cur nf.
Proof.
  intros Hlen Hf. revert low high. induction fuel as [|fuel IH]; intros low high Hlh Hh Hfu Hlo Hhi; [lia|].
  cbn [probe_loop]. rewrite swrap_id by (unfold in_s; lia). rewrite Z.quot_div_nonneg by lia.
  set (cur := (low + high) `div` 2).
  assert (Hcur : low <= cur <= high) by (subst cur; split; [apply Z.div_le_lower_bound|apply Z.div_le_upper_bound]; lia).
  rewrite aget_prefix by lia.
  destruct (lookup_lt_is_Some_2 xs (Z.to_nat cur)) as [x Hx]; [lia|]. rewrite Hx. cbn [mbind option_bind].
  clearbody cur.
  assert (Hat : ∃ x0, 0 <= cur ∧ xs !! Z.to_nat cur = Some x0 ∧ f x = f x0) by (exists x; split_and!; [lia|done|done]).
  destruct (Z.ltb_spec (f x) 0) as [Hneg|Hnn].
  - rewrite (proj2 (Z.eqb_neq (f x) 0)) by lia. simpl.
    destruct (Z.leb_spec low (cur - 1)).
    + apply IH; [lia|lia|lia|done|]. intros i y Hi. apply (falling_above f xs cur x); [done|lia|done|done|lia].
    + exists cur, (f x). split; [done|]. split; [done|]. right.
      rewrite (proj2 (Z.ltb_ge 0 (f x))) by lia. split; [intros i y Hi; apply Hlo; lia|].
      intros i y. apply (falling_above f xs cur x); [done|lia|done|done].
  - destruct (Z.ltb_spec 0 (f x)) as [Hpos|Hz].
    + rewrite (proj2 (Z.eqb_neq (f x) 0)) by lia. simpl.
      destruct (Z.leb_spec (cur + 1) high).
      * apply IH; [lia|lia|lia| |done]. intros i y Hi. apply (falling_below f xs cur x); [done|lia|done|done|lia].
      * exists cur, (f x). split; [done|]. split; [done|]. right.
        rewrite (proj2 (Z.ltb_lt 0 (f x))) by lia. split; [|intros i y Hi; apply Hhi; lia].
        intros i y Hi. apply (falling_below f xs cur x); [done|lia|done|done|lia].
    + rewrite (proj2 (Z.eqb_eq (f x) 0)) by lia. simpl. exists cur, (f x). split; [done|]. split; [done|]. left. lia.
Qed.

Lemma probe_whole f xs tail : xs ≠ [] -> Z.of_nat (length xs) <= 2 ^ 28 -> falling f xs ->
  ∃ cur nf, probe_loop (Datatypes.S (length (cells xs ++ tail))) (cells xs ++ tail) f 0 (swrap 32 (Z.of_nat (length xs) - 1)) = Some (cur, nf)
            ∧ probed f xs cur nf.
Proof.
  intros Hne Hlen Hf. assert (0 < length xs)%nat by (destruct xs; [done|simpl; lia]).
  rewrite swrap_id by (unfold in_s; lia). rewrite length_app, length_cells.
  apply probe_loop_spec; [done|done|lia|lia|lia|intros; lia|].
  intros i x Hi Hx. apply lookup_lt_Some in Hx. lia.
Qed.

(** The position of a match, or none when nothing in the array matches. *)
Lemma bsearch_spec (c : comp_func_t) v xs : Z.of_nat (length xs) <= 2 ^ 28 -> falling (c v) xs ->
  ∃ r, bsearch v (Some (cells xs)) (Z.of_nat (length xs)) (Some c) = Some r ∧
    match r with
    | Some pos => ∃ x, 0 <= pos ∧ xs !! Z.to_nat pos = Some x ∧ c v x = 0
    | None => Forall (λ x, c v x ≠ 0) xs
    end.
Proof.
  intros Hlen Hf. unfold bsearch, wrap. rewrite Z.mod_small by lia.
  destruct (Z.eqb_spec (Z.of_nat (length xs)) 0) as [E|E].
  - exists None. split; [done|]. destruct xs; [constructor|simpl in E; lia].
  - destruct (probe_whole (c v) xs []) as (cur & nf & Hrun & (x & Hcur & Hx & Hnf) & Hend);
      [intros ->; done|done|done|].
    rewrite app_nil_r in Hrun. rewrite Hrun.
    cbn [mbind option_bind]. eexists. split; [done|].
    destruct (Z.eqb_spec nf 0) as [->|Hn]; [by exists x|].
    destruct Hend as [?|[Hlo Hhi]]; [done|]. apply list.Forall_forall. intros y [i Hi]%list_elem_of_lookup.
    destruct (Z.lt_ge_cases (Z.of_nat i) (if 0 <? nf then cur + 1 else cur)) as [Hl|Hg].
    + specialize (Hlo i y Hl Hi). lia.
    + specialize (Hhi i y Hg Hi). lia.
Qed.

(** ** Inserting into a sorted array *)
Section Insert.
Context (c : comp_func_t) `{Hc : !comp_order c}.

Lemma sorted_falling v xs : sorted_by c xs -> falling (c v) xs.
Proof using Hc.
  intros Hs i j x y Hij Hx Hy. pose proof (proj1 (sorted_lookup _ _) Hs i j x y Hij Hx Hy) as Hle. unfold cle in Hle.
  split; intros H.
  - destruct (Z.lt_ge_cases (c v y) 0) as [|Hge]; [done|]. exfalso.
    assert (c y v <= 0) by (apply (comp_flip c); lia). assert (c x v <= 0) by (eapply comp_trans; eauto).
    apply (comp_flip c) in H1. lia.
  - destruct (Z.lt_ge_cases 0 (c v x)) as [|Hge]; [done|]. exfalso.
    assert (c v y <= 0) by (eapply comp_trans; eauto). lia.
Qed.

(** An element put at [pos] leaves the array sorted. *)
Definition insertion_point (v : Z) (xs : list Z) (pos : nat) : Prop :=
  (pos <= length xs)%nat ∧ Forall (λ x, c x v <= 0) (take pos xs) ∧ Forall (λ x, c v x <= 0) (drop pos xs).

Lemma insertion_sorted v xs pos : sorted_by c xs -> insertion_point v xs pos ->
  sorted_by c (take pos xs ++ v :: drop pos xs).
Proof.
  intros Hs (_ & Hlo & Hhi). rewrite <- (take_drop pos xs) in Hs. unfold sorted_by in *.
  apply StronglySorted_app in Hs as (Hx & Hs1 & Hs2). apply StronglySorted_app. split_and!; [|done|by constructor].
  intros x y Hin [->|Hin']%elem_of_cons; [|by apply Hx].
  by apply (proj1 (list.Forall_forall _ _) Hlo).
Qed.

Lemma find_insert_pos_spec v xs tail : xs ≠ [] -> Z.of_nat (length xs) <= 2 ^ 28 -> sorted_by c xs ->
  ∃ pos, __find_insert_pos (Z.of_nat (length xs)) v (Some c) (Some (cells xs ++ tail)) = Some (Z.of_nat pos)
         ∧ insertion_point v xs pos.
Proof using Hc.
  intros Hne Hlen Hs. unfold __find_insert_pos. cbn [mbind option_bind].
  destruct (probe_whole (c v) xs tail) as (cur & nf & -> & (x & Hcur & Hx & ->) & Hend); [done|done|by apply sorted_falling|].
  cbn [mbind option_bind]. pose proof (lookup_lt_Some _ _ _ Hx) as Hlt.
  set (pos := if negb (c v x =? 0) && (0 <? c v x) then cur + 1 else cur).
  assert (Hpos : 0 <= pos <= Z.of_nat (length xs)) by (subst pos; destruct (negb (c v x =? 0) && (0 <? c v x)); lia).
  exists (Z.to_nat pos). rewrite Z2Nat.id by lia. split; [done|].
  assert (Hboth : (∀ i y, Z.of_nat i < pos -> xs !! i = Some y -> c y v <= 0) ∧
                  (∀ i y, pos <= Z.of_nat i -> xs !! i = Some y -> c v y <= 0)).
  { subst pos. destruct (Z.eqb_spec (c v x) 0) as [E|E]; simpl.
    - assert (c x v = 0) by (pose proof (comp_anti v x); lia).
      split; intros i y Hi Hy.
      + apply (comp_trans y x v); [|lia]. eapply (proj1 (sorted_lookup _ _) Hs i (Z.to_nat cur)); [lia|done..].
      + destruct (decide (i = Z.to_nat cur)) as [->|]; [rewrite Hx in Hy; injection Hy as <-; lia|].
        apply (comp_trans v x y); [lia|]. eapply (proj1 (sorted_lookup _ _) Hs (Z.to_nat cur) i); [lia|done..].
    - destruct Hend as [|[Hlo Hhi]]; [done|]. split; intros i y Hi Hy.
      + apply (comp_flip c). specialize (Hlo i y Hi Hy). lia.
      + specialize (Hhi i y Hi Hy). lia. }
  destruct Hboth as [Hlo Hhi]. split; [lia|]. split; apply list.Forall_forall; intros y [i Hi]%list_elem_of_lookup.
  - apply lookup_take_Some in Hi as [Hi ?]. apply (Hlo i); [lia|done].
  - rewrite lookup_drop in Hi. eapply Hhi; [|exact Hi]. lia.
Qed.
End Insert.

(** ** Moving cells *)
Lemma take_cells n xs : take n (cells xs) = cells (take n xs).
Proof. unfold cells. by rewrite fmap_take. Qed.
Lemma drop_cells n xs : drop n (cells xs) = cells (drop n xs).
Proof. unfold cells. by rewrite fmap_drop. Qed.
Lemma cells_app xs ys : cells (xs ++ ys) = cells xs ++ cells ys.
Proof. unfold cells. by rewrite fmap_app. Qed.

Lemma amove_ok a dst src cnt : 0 <= cnt -> 0 <= dst -> 0 <= src ->
  dst + cnt <= Z.of_nat (length a) -> src + cnt <= Z.of_nat (length a) ->
  amove a dst src cnt = Some (take (Z.to_nat dst) a ++ take (Z.to_nat cnt) (drop (Z.to_nat src) a) ++ drop (Z.to_nat (dst + cnt)) a).
Proof.
  intros. unfold amove.
  by rewrite !(proj2 (Z.leb_le 0 _)), !(proj2 (Z.leb_le (_ + cnt) _)) by lia.
Qed.

Lemma amove_none a dst src : 0 <= dst <= Z.of_nat (length a) -> 0 <= src <= Z.of_nat (length a) -> amove a dst src 0 = Some a.
Proof. intros. rewrite amove_ok by lia. rewrite Z.add_0_r, take_0. simpl. by rewrite take_drop. Qed.

(** A hole is opened at [pos] and filled. *)
Lemma open_hole xs z v (pos : nat) n : n = Z.of_nat (length xs) -> (pos <= length xs)%nat ->
  ∃ a, amove (cells xs ++ [z]) (Z.of_nat pos + 1) (Z.of_nat pos) (n - Z.of_nat pos) = Some a ∧
       aset a (Z.of_nat pos) v = Some (cells (take pos xs ++ v :: drop pos xs)).
Proof.
  intros -> Hp.
  assert (Hl : length (cells xs ++ [z]) = Datatypes.S (length xs)) by (rewrite length_app, length_cells; simpl; lia).
  rewrite amove_ok by lia. eexists. split; [done|].
  replace (Z.to_nat (Z.of_nat pos + 1)) with (Datatypes.S pos) by lia.
  replace (Z.to_nat (Z.of_nat pos + 1 + (Z.of_nat (length xs) - Z.of_nat pos))) with (length (cells xs ++ [z])) by lia.
  rewrite drop_all, app_nil_r. replace (Z.to_nat (Z.of_nat (length xs) - Z.of_nat pos)) with (length xs - pos)%nat by lia.
  rewrite Nat2Z.id.
  replace (take (length xs - pos) (drop pos (cells xs ++ [z]))) with (cells (drop pos xs)).
  2:{ rewrite drop_app_le by (rewrite length_cells; lia). rewrite drop_cells, take_app_le by (rewrite length_cells, length_drop; lia).
      rewrite take_ge; [done|]. rewrite length_cells, length_drop. lia. }
  destruct (lookup_lt_is_Some_2 (cells xs ++ [z]) pos) as [w Hw]; [lia|].
  rewrite (take_S_r _ pos w Hw), take_app_le, take_cells by (rewrite length_cells; lia).
  unfold aset. rewrite !length_app, !length_cells, length_take, length_drop. simpl.
  rewrite (proj2 (Z.leb_le 0 _)), (proj2 (Z.ltb_lt (Z.of_nat pos) _)), Nat2Z.id by lia. simpl. f_equal.
  unfold arr. rewrite <- app_assoc, insert_app_r_alt by (rewrite length_cells, length_take; lia).
  rewrite length_cells, length_take, Nat.min_l, Nat.sub_diag by lia. simpl. by rewrite cells_app.
Qed.

(** The cells behind [pos] move down by one, the last cell becomes NULL. *)
Lemma close_hole xs (pos : nat) n : n = Z.of_nat (length xs) -> (pos < length xs)%nat ->
  ∃ a, (if Z.of_nat pos <? n - 1 then amove (cells xs) (Z.of_nat pos) (Z.of_nat pos + 1) (n - (Z.of_nat pos + 1)) else Some (cells xs)) = Some a ∧
       aset a (n - 1) 0 = Some (cells (take pos xs ++ drop (Datatypes.S pos) xs) ++ [Some 0]).
Proof.
  intros -> Hp.
  assert (Hif : (if Z.of_nat pos <? Z.of_nat (length xs) - 1 then amove (cells xs) (Z.of_nat pos) (Z.of_nat pos + 1) (Z.of_nat (length xs) - (Z.of_nat pos + 1)) else Some (cells xs))
    = amove (cells xs) (Z.of_nat pos) (Z.of_nat pos + 1) (Z.of_nat (length xs) - (Z.of_nat pos + 1))).
  { destruct (Z.ltb_spec (Z.of_nat pos) (Z.of_nat (length xs) - 1)); [done|].
    replace (Z.of_nat (length xs) - (Z.of_nat pos + 1)) with 0 by lia. rewrite amove_none; rewrite ?length_cells; done || lia. }
  rewrite Hif, amove_ok by (rewrite ?length_cells; lia). eexists. split; [done|].
  replace (Z.to_nat (Z.of_nat pos + 1)) with (Datatypes.S pos) by lia.
  replace (Z.to_nat (Z.of_nat pos + (Z.of_nat (length xs) - (Z.of_nat pos + 1)))) with (length xs - 1)%nat by lia.
  replace (Z.to_nat (Z.of_nat (length xs) - (Z.of_nat pos + 1))) with (length xs - Datatypes.S pos)%nat by lia.
  rewrite Nat2Z.id, !drop_cells, !take_cells.
  rewrite (take_ge (drop (Datatypes.S pos) xs)) by (rewrite length_drop; lia).
  destruct (lookup_lt_is_Some_2 xs (length xs - 1)) as [w Hw]; [lia|].
  rewrite (drop_S xs w _ Hw), (drop_ge xs (Datatypes.S (length xs - 1))) by lia. rewrite <- !cells_app, app_assoc.
  assert (Hl : length (take pos xs ++ drop (Datatypes.S pos) xs) = (length xs - 1)%nat) by (rewrite length_app, length_take, length_drop; lia).
  rewrite aset_cells by (rewrite length_app, Hl; simpl; lia). f_equal.
  rewrite insert_app_r_alt by lia. rewrite Hl. replace (Z.to_nat (Z.of_nat (length xs) - 1) - (length xs - 1))%nat with 0%nat by lia.
  simpl. by rewrite cells_app.
Qed.

(** ** The position of an element to remove *)
Section Remove.
Context (c : comp_func_t) `{Hc : !comp_order c}.

(** No position, given as 0, or one behind the first that holds the element. *)
Definition removal_point (xs : list Z) (ele r : Z) : Prop := r = 0 ∨ 1 <= r ∧ xs !! Z.to_nat r = Some ele.

Lemma remove_scan_down xs ele fuel cur : cur < Z.of_nat (length xs) -> cur < Z.of_nat fuel -> (0 < fuel)%nat ->
  ∃ r, remove_scan fuel (cells xs) c ele (-1) 0 cur = Some r ∧ removal_point xs ele r.
Proof.
  revert cur. induction fuel as [|fuel IH]; intros cur Hcur Hf Hp; [lia|]. cbn [remove_scan Z.ltb].
  change (-1 <? 0) with true. cbv iota.
  destruct (Z.ltb_spec 0 cur) as [Hc0|]; [|exists 0; split; [done|by left]].
  rewrite aget_cells by lia. destruct (lookup_lt_is_Some_2 xs (Z.to_nat cur)) as [x Hx]; [lia|].
  rewrite Hx. cbn [mbind option_bind].
  destruct (Z.eqb_spec x ele) as [->|]; [exists cur; split; [done|right; split; [lia|done]]|].
  destruct (negb (c ele x =? 0)); [exists 0; split; [done|by left]|]. apply IH; lia.
Qed.

Lemma remove_scan_up xs ele fuel cur : 1 <= cur -> Z.of_nat (length xs) - cur < Z.of_nat fuel ->
  (0 < fuel)%nat ->
  ∃ r, remove_scan fuel (cells xs) c ele 1 (Z.of_nat (length xs)) cur = Some r ∧ removal_point xs ele r.
Proof.
  revert cur. induction fuel as [|fuel IH]; intros cur Hcur Hf Hp; [lia|]. cbn [remove_scan Z.ltb].
  change (1 <? 0) with false. cbv iota.
  destruct (Z.ltb_spec cur (Z.of_nat (length xs))) as [Hc0|]; [|exists 0; split; [done|by left]].
  rewrite aget_cells by lia. destruct (lookup_lt_is_Some_2 xs (Z.to_nat cur)) as [x Hx]; [lia|].
  rewrite Hx. cbn [mbind option_bind].
  destruct (Z.eqb_spec x ele) as [->|]; [exists cur; split; [done|right; split; [lia|done]]|].
  destruct (negb (c ele x =? 0)); [exists 0; split; [done|by left]|]. apply IH; lia.
Qed.

Lemma find_remove_pos_spec xs ele : Z.of_nat (length xs) <= 2 ^ 28 -> sorted_by c xs ->
  ∃ r, __find_remove_pos (Z.of_nat (length xs)) ele (Some c) (cells xs) = Some r ∧ removal_point xs ele r.
Proof using Hc.
  intros Hlen Hs. unfold __find_remove_pos.
  destruct (bsearch_spec c ele xs Hlen) as (b & -> & Hb); [by apply (sorted_falling c)|]. cbn [mbind option_bind].
  destruct b as [pos|]; [|exists 0; split; [done|by left]].
  destruct Hb as (x & Hp & Hx & _). rewrite aget_cells, Hx by lia. cbn [mbind option_bind].
  pose proof (lookup_lt_Some _ _ _ Hx).
  assert (Hpt : x = ele -> removal_point xs ele pos).
  { intros ->. destruct (decide (pos = 0)); [by left|right; split; [lia|done]]. }
  destruct (Z.eqb_spec x ele) as [E|]; [exists pos; auto|]. rewrite length_cells.
  destruct (remove_scan_down xs ele (Datatypes.S (length xs)) (pos - 1)) as (r & -> & Hr); [lia|lia|lia|].
  cbn [mbind option_bind]. destruct (Z.eqb_spec r 0) as [->|]; cbn [negb]; [|by exists r].
  apply remove_scan_up; lia.
Qed.

Lemma sorted_remove xs pos : sorted_by c xs -> sorted_by c (take pos xs ++ drop (Datatypes.S pos) xs).
Proof.
  intros Hs. apply sorted_lookup.
  intros i j x y Hij Hx Hy. pose proof (proj1 (sorted_lookup _ _) Hs) as H.
  assert (Hat : ∀ k z, (take pos xs ++ drop (Datatypes.S pos) xs) !! k = Some z ->
    xs !! (if decide (k < pos)%nat then k else Datatypes.S k) = Some z).
  { intros k z. rewrite <- delete_take_drop. destruct (decide (k < pos)%nat).
    - by rewrite list_lookup_delete_lt by done.
    - by rewrite list_lookup_delete_ge by lia. }
  apply Hat in Hx, Hy. eapply H; [|exact Hx|exact Hy]. repeat case_decide; lia.
Qed.
End Remove.

(** ** Sorting and searching any array *)

(** C25.  The selection sort of the list module, given a comparison function that is a total
    preorder, returns the pointers of the array, each as often as before, in an order in
    which no pointer is larger than a later one. *)
Theorem ssort_sorts c xs : comp_order c -> Z.of_nat (length xs) < 2 ^ 64 ->
  ∃ ys, ssort (Some (cells xs)) (Z.of_nat (length xs)) (Some c) = Some (Some (cells ys)) ∧ xs ≡ₚ ys ∧
    ∀ i j x y, (i < j)%nat -> ys !! i = Some x -> ys !! j = Some y -> c x y <= 0.
Proof.
  intros Ho Hlen. destruct (ssort_spec c xs Hlen) as (ys & Hs & Hp & Hso). exists ys. split_and!; [done|done|].
  by apply sorted_lookup.
Qed.

Lemma probe_total f xs fuel low high : Z.of_nat (length xs) <= 2 ^ 28 -> 0 <= low <= high -> high < Z.of_nat (length xs) ->
  high - low < Z.of_nat fuel -> ∃ cur x, probe_loop fuel (cells xs) f low high = Some (cur, f x) ∧
    low <= cur <= high ∧ xs !! Z.to_nat cur = Some x.
Proof.
  intros Hlen. revert low high. induction fuel as [|fuel IH]; intros low high Hlh Hh Hf; [lia|].
  cbn [probe_loop]. rewrite swrap_id by (unfold in_s; lia). rewrite Z.quot_div_nonneg by lia.
  assert (Hcur : low <= (low + high) `div` 2 <= high) by (split; [apply Z.div_le_lower_bound|apply Z.div_le_upper_bound]; lia).
  revert Hcur. generalize ((low + high) `div` 2) as cur. intros cur Hcur. rewrite aget_cells by lia.
  destruct (lookup_lt_is_Some_2 xs (Z.to_nat cur)) as [x Hx]; [lia|]. rewrite Hx. cbn [mbind option_bind].
  destruct (negb (f x =? 0) && _) eqn:Hgo; [|by eauto 10].
  apply andb_true_iff in Hgo as [Hnz Hle%Z.leb_le]. apply negb_true_iff, Z.eqb_neq in Hnz.
  assert (Hin : ∀ l h, low <= l <= h -> h <= high -> h - l < high - low ->
    ∃ cur x, probe_loop fuel (cells xs) f l h = Some (cur, f x) ∧ low <= cur <= high ∧ xs !! Z.to_nat cur = Some x).
  { intros l h Hl Hh' Hless. destruct (IH l h) as (cur' & x' & ? & ? & ?); [lia|lia|lia|]. exists cur', x'. split_and!; [done|lia|lia|done]. }
  destruct (Z.ltb_spec (f x) 0); [apply Hin; lia|]. destruct (Z.ltb_spec 0 (f x)); [apply Hin; lia|lia].
Qed.

(** The binary search of the list module ends for any comparison function, also for one
    that is no order, and never reads outside of the array: it returns a position of the
    array whose element the function answers 0 for, or none. *)
Theorem bsearch_total (c : comp_func_t) v xs : Z.of_nat (length xs) <= 2 ^ 28 ->
  ∃ r, bsearch v (Some (cells xs)) (Z.of_nat (length xs)) (Some c) = Some r ∧
    ∀ pos, r = Some pos -> 0 <= pos ∧ ∃ x, xs !! Z.to_nat pos = Some x ∧ c v x = 0.
Proof.
  intros Hlen. unfold bsearch, wrap. rewrite Z.mod_small by lia.
  destruct (Z.eqb_spec (Z.of_nat (length xs)) 0) as [E|E]; [by exists None|].
  rewrite swrap_id by (unfold in_s; lia). rewrite length_cells.
  destruct (probe_total (c v) xs (Datatypes.S (length xs)) 0 (Z.of_nat (length xs) - 1)) as (cur & x & -> & Hcur & Hx); [lia|lia|lia|lia|].
  cbn [mbind option_bind]. eexists. split; [done|]. destruct (Z.eqb_spec (c v x) 0); [|done].
  intros pos [= <-]. split; [lia|]. eauto.
Qed.
