(* ===== verification/KListInv.v ===== *)
(** The invariant of an abstract list of the overlay file system and what keeps it: the
    chain of nodes holds the elements, the primary index is a permutation of them (sorted
    when it says so), an alternate index that is up to date is sorted by its function. *)
From stdpp Require Import sorting.
From S2P Require Import Prelude KList KListSort.
Open Scope Z_scope.

(** ** The invariant *)

(** From [p] the nodes at [ps] follow each other and hold [es]. *)
Inductive chain (ns : gmap Z link_list_struct) : Z -> list Z -> list Z -> Prop :=
  | chain_nil : chain ns 0 [] []
  | chain_cons p e nx ps es : p ≠ 0 -> p ∉ ps -> ns !! p = Some (Node e nx) -> chain ns nx ps es ->
      chain ns p (p :: ps) (e :: es).

(** A slot for an alternate index: its function is an order, and [U] holds of the
    function and the array while the index is up to date. *)
Definition slot_shape (U : comp_func_t -> option arr -> Prop) (s : option klist_index_struct) : Prop :=
  match s with
  | None => True
  | Some ix =>
      ∃ c, ix_comp_func ix = Some c ∧ comp_order c ∧
        (ix_state ix = KLIST_INDEX__UP_TO_DATE -> U c (ix_elements ix))
  end.

(** The array holds the elements [es] in the order of [c], and [tail] after them. *)
Definition index_of (es : list Z) (tail : arr) (c : comp_func_t) (a : option arr) : Prop :=
  es ≠ [] ∧ ∃ xs, a = Some (cells xs ++ tail) ∧ xs ≡ₚ es ∧ sorted_by c xs.

Definition slot_ok (es : list Z) : option klist_index_struct -> Prop := slot_shape (index_of es []).

(** The array of alternate indexes: its size, and what holds of every slot. *)
Definition slots (P : option klist_index_struct -> Prop) (l : list_struct) : Prop :=
  match ll_indexes l with
  | None => ll_index_arr_size l = 0
  | Some ixs => ll_index_arr_size l = Z.of_nat (length ixs) ∧ (0 < length ixs)%nat ∧ Forall P ixs
  end.

Definition primary_ok (l : list_struct) (es : list Z) : Prop :=
  match ll_index_mode l with
  | NOT_INDEXED => ll_element_list l = None
  | FLAT => ∃ xs, ll_element_list l = Some (cells xs) ∧ xs ≡ₚ es
  | SORTED => ∃ xs c, ll_element_list l = Some (cells xs) ∧ xs ≡ₚ es ∧ ll_element_compare l = Some c ∧ sorted_by c xs
  end.

(** What stays as it is while a list is used. *)
Record kl_const (l : list_struct) : Prop := {
  kc_type : ll_list_type l = ABSTRACT;
  kc_next : ll_next_node l = next_abs_node;
  kc_add : ll_add_node l = Some add_abs_node;
  kc_end : ll_add_at_end l = Some add_abs_node_at_end;
  kc_cmp : ∀ c, ll_element_compare l = Some c -> comp_order c
}.

(** Nodes are below the next address. *)
Definition mem_ok (m : kmem) : Prop := 0 < km_next m ∧ ∀ p n, km_nodes m !! p = Some n -> p < km_next m.

Record kl_ok (m : kmem) (l : list_struct) (ps es : list Z) : Prop := {
  kl_chain : chain (km_nodes m) (ll_first_element l) ps es;
  kl_number : ll_number_of_elements l = Z.of_nat (length es);
  kl_bound : Z.of_nat (length es) <= 2 ^ 28;
  kl_mem : mem_ok m;
  kl_same : kl_const l;
  kl_primary : primary_ok l es;
  kl_slots : slots (slot_ok es) l
}.

(** The memory after requests that made no node. *)
Record mem_le (m m' : kmem) : Prop := {
  ml_nodes : km_nodes m' = km_nodes m;
  ml_next : km_next m <= km_next m';
  ml_malloc : km_do_malloc m' = km_do_malloc m
}.

#[export] Instance mem_le_pre : PreOrder mem_le.
Proof.
  split; [done|]. intros m1 m2 m3 [H1 H2 H3] [G1 G2 G3]. split; [congruence|lia|congruence].
Qed.

Lemma mem_le_ok m m' : mem_le m m' -> mem_ok m -> mem_ok m'.
Proof. intros [H1 H2 _] [H3 H4]. split; [lia|]. rewrite H1. intros p n Hp. specialize (H4 p n Hp). lia. Qed.

Lemma request_le g m r m' : request g m = (r, m') -> mem_le m m'.
Proof. unfold request. intros [= <- <-]. split; simpl; [done|lia|done]. Qed.

(** The next request to do_malloc fails. *)
Definition no_memory (m : kmem) : Prop := km_do_malloc m (km_allocs m) = false.

Lemma do_malloc_full m l : ∃ r m', do_malloc m l = Some (r, m', l) ∧ mem_le m m' ∧ (r = None -> no_memory m).
Proof.
  unfold do_malloc. destruct (request km_do_malloc m) as [r m'] eqn:E. eexists _, _. split_and!; [done|by eapply request_le|].
  unfold request in E. injection E as E _. unfold no_memory. destruct (km_do_malloc m (km_allocs m)); by subst.
Qed.

Lemma do_malloc_le m l : ∃ r m', do_malloc m l = Some (r, m', l) ∧ mem_le m m'.
Proof. destruct (do_malloc_full m l) as (r & m' & ? & ? & _). eauto. Qed.

Lemma do_kmalloc_le m l : ∃ r m', do_kmalloc m l = Some (r, m', l) ∧ mem_le m m'.
Proof. unfold do_kmalloc. destruct (request _ m) as [r m'] eqn:E. eauto using request_le. Qed.

(** ** Running the functions on a list *)
Lemma lbind_run {A B} (f : LM A) (g : A -> LM B) m l a m' l' : f m l = Some (a, m', l') -> lbind f g m l = g a m' l'.
Proof. unfold lbind. by intros ->. Qed.
Lemma lbind_lget {B} (g : list_struct -> LM B) m l : lbind lget g m l = g l m l.
Proof. done. Qed.
Lemma lbind_lret {A B} (a : A) (g : A -> LM B) m l : lbind (lret a) g m l = g a m l.
Proof. done. Qed.
Lemma lbind_lmod {B} f (g : unit -> LM B) m l : lbind (lmod f) g m l = g tt m (f l).
Proof. done. Qed.
Lemma lbind_assoc {A B C} (f : LM A) (g : A -> LM B) (h : B -> LM C) m l :
  lbind (lbind f g) h m l = lbind f (λ a, lbind (g a) h) m l.
Proof. unfold lbind. by destruct (f m l) as [[[??]?]|]. Qed.
Lemma lbind_lopt {A B} (o : option A) (g : A -> LM B) a m l : o = Some a -> lbind (lopt o) g m l = g a m l.
Proof. by intros ->. Qed.

Create HintDb klist.
Create Rewrite HintDb klist.
#[export] Hint Rewrite @lbind_assoc @lbind_lget @lbind_lret @lbind_lmod : klist.

Ltac lrun := autorewrite with klist; cbv beta iota zeta.

(** ** Chains *)
Section Chains.
Context (ns : gmap Z link_list_struct).

Lemma chain_nodes_length p ps es : chain ns p ps es -> length ps = length es.
Proof. induction 1; simpl; congruence. Qed.

Lemma chain_nodes p ps es q : chain ns p ps es -> q ∈ ps -> q ≠ 0 ∧ is_Some (ns !! q).
Proof. induction 1; [by rewrite elem_of_nil|]. rewrite elem_of_cons. intros [->|?]; eauto. Qed.

Lemma chain_nodup p ps es : chain ns p ps es -> NoDup ps.
Proof. induction 1; [constructor|]. by apply list.NoDup_cons. Qed.

(** Nodes outside of the chain may change. *)
Lemma chain_other ns' p ps es : chain ns p ps es -> (∀ q, q ∈ ps -> ns' !! q = ns !! q) -> chain ns' p ps es.
Proof.
  induction 1 as [|p e nx ps es Hp Hni Hl Hch IH]; intros Hsame; [constructor|].
  econstructor; [done|done| |apply IH; intros q Hq; apply Hsame; by right].
  rewrite Hsame; [done|by left].
Qed.

Lemma chain_size p ps es : chain ns p ps es -> (length ps <= size ns)%nat.
Proof.
  intros Hch. rewrite <- (size_list_to_set (C := gset Z) ps) by eauto using chain_nodup.
  rewrite <- (size_dom ns). apply subseteq_size. intros q Hq%elem_of_list_to_set.
  apply elem_of_dom. by eapply chain_nodes.
Qed.

Lemma chain_zero ps es : chain ns 0 ps es -> ps = [] ∧ es = [].
Proof. inversion 1; done. Qed.
End Chains.

(** The node an insertion at the front makes. *)
Lemma add_abs_node_spec m x first : mem_ok m -> ∃ p m', add_abs_node m x first = Some (p, m') ∧
  (p = 0 ∧ mem_le m m' ∧ no_memory m ∨
   p ≠ 0 ∧ km_nodes m !! p = None ∧ mem_ok m' ∧ km_nodes m' = <[p := Node x first]> (km_nodes m) ∧
   km_do_malloc m' = km_do_malloc m).
Proof.
  intros [Hn Hb]. unfold add_abs_node. destruct (request km_do_malloc m) as [r m'] eqn:E.
  pose proof (request_le _ _ _ _ E) as Hle. unfold request in E. injection E as E1 E2. subst m'.
  destruct (km_do_malloc m (km_allocs m)) eqn:Eno; subst r; simpl in *; eexists _, _; (split; [done|]).
  - right. assert (Hfresh : km_nodes m !! km_next m = None).
    { destruct (km_nodes m !! km_next m) eqn:E'; [|done]. specialize (Hb _ _ E'). lia. }
    split_and!; [lia|done| |done|done]. split; simpl; [lia|]. intros p n.
    rewrite lookup_insert_Some. intros [[<- _]|[_ Hp]]; [lia|]. specialize (Hb p n Hp). lia.
  - left. split_and!; [done|done|exact Eno].
Qed.

(** ** Steps on a list *)

(** The lock and the functions of the list stay. *)
Record kl_frame (l l' : list_struct) : Prop := {
  kf_auto : ll_auto_lock l' = ll_auto_lock l;
  kf_sem : ll_sem l' = ll_sem l;
  kf_cmp : ll_element_compare l' = ll_element_compare l;
  kf_search : ll_search_func l' = ll_search_func l
}.

#[export] Instance kl_frame_pre : PreOrder kl_frame.
Proof. split; [done|]. intros ??? [] []. split; congruence. Qed.

(** The list with the nodes [ps] and elements [es] is now one with [ps'] and [es']: the
    new nodes are its old ones or new, and no other node has changed. *)
Record lstep (m : kmem) (l : list_struct) (ps : list Z) (m' : kmem) (l' : list_struct) (ps' es' : list Z) : Prop := {
  ls_ok : kl_ok m' l' ps' es';
  ls_frame : kl_frame l l';
  ls_next : km_next m <= km_next m';
  ls_other q : q < km_next m -> q ∉ ps -> km_nodes m' !! q = km_nodes m !! q;
  ls_own q : q ∈ ps' -> q ∈ ps ∨ km_next m <= q;
  ls_malloc : km_do_malloc m' = km_do_malloc m
}.

Lemma lstep_trans m l ps m1 l1 ps1 es1 m2 l2 ps2 es2 :
  lstep m l ps m1 l1 ps1 es1 -> lstep m1 l1 ps1 m2 l2 ps2 es2 -> lstep m l ps m2 l2 ps2 es2.
Proof.
  intros [H1 H2 H3 H4 H5 H6] [G1 G2 G3 G4 G5 G6]. split; [done|by transitivity l1|lia| | |congruence].
  - intros q Hq Hni. rewrite G4; [by apply H4|lia|]. intros Hin. destruct (H5 q Hin); [done|lia].
  - intros q Hin. destruct (G5 q Hin) as [Hin'|]; [by apply H5|right; lia].
Qed.

Lemma lstep_refl m l ps es : kl_ok m l ps es -> lstep m l ps m l ps es.
Proof. intros H. split; [done|done|lia|done|by left|done]. Qed.

Lemma kl_ok_mem m m' l ps es : mem_le m m' -> kl_ok m l ps es -> kl_ok m' l ps es.
Proof.
  intros Hle []. split; try done.
  - by rewrite (ml_nodes _ _ Hle).
  - by eapply mem_le_ok.
Qed.

Lemma lstep_mem m m' l ps es : mem_le m m' -> kl_ok m l ps es -> lstep m l ps m' l ps es.
Proof.
  intros Hle H. split; [by eapply kl_ok_mem|done|apply Hle| |by left|apply Hle].
  intros q _ _. by rewrite (ml_nodes _ _ Hle).
Qed.

(** Only the primary index changes. *)
Lemma kl_ok_index m l ps es mode a : kl_ok m l ps es -> primary_ok (with_index l mode a) es ->
  kl_ok m (with_index l mode a) ps es.
Proof. intros [] Hp. split; try done. by destruct kl_same0. Qed.

Lemma lstep_index m m' l ps es mode a : mem_le m m' -> kl_ok m l ps es -> primary_ok (with_index l mode a) es ->
  lstep m l ps m' (with_index l mode a) ps es.
Proof.
  intros Hle H Hp. eapply lstep_trans; [by apply (lstep_mem m m')|].
  split; [|done|lia|done|by left|done]. apply kl_ok_index; [by eapply kl_ok_mem|done].
Qed.

(** ** The primary index *)
Lemma node_data_abs l m p n : kl_const l -> km_nodes m !! p = Some n -> node_data l m p = Some (element n).
Proof. intros Hk H. unfold node_data. by rewrite (kc_type _ Hk), H. Qed.

Lemma make_index_loop_chain l m p ps es : kl_const l -> chain (km_nodes m) p ps es ->
  make_index_loop l m (length es) p = Some (cells es).
Proof.
  intros Hk. induction 1 as [|p e nx ps es Hp Hni Hl Hch IH]; simpl; [done|].
  rewrite (node_data_abs l m p (Node e nx)), (kc_next _ Hk) by done. unfold next_abs_node at 1. rewrite Hl.
  cbn [mbind option_bind fmap option_fmap option_map]. simpl. by rewrite IH.
Qed.

Lemma make_index_spec m l ps es : kl_ok m l ps es ->
  ∃ r m', make_index m l = Some (r, m', l) ∧ mem_le m m' ∧ (r = None ∧ no_memory m ∨ r = Some (cells es)).
Proof.
  intros H. unfold make_index. destruct (do_malloc_full m l) as (r & m' & Hr & Hle & Hno).
  rewrite (lbind_run _ _ _ _ _ _ _ Hr). destruct r; [|eexists _, _; split_and!; [done|done|left; split; [done|by apply Hno]]].
  rewrite (kl_number _ _ _ _ H), Nat2Z.id, (make_index_loop_chain l m' _ ps es); [|apply H|].
  - cbn [mbind option_bind]. pose proof (kl_bound _ _ _ _ H) as Hb.
    rewrite length_cells, (wrap_id 32), Z.leb_refl by (unfold in_u, sizeof_ptr; lia). eexists _, _. eauto.
  - rewrite (ml_nodes _ _ Hle). apply H.
Qed.

Lemma is_indexed_spec l : is_indexed l = false <-> ll_index_mode l = NOT_INDEXED.
Proof. unfold is_indexed. by rewrite negb_false_iff, bool_decide_eq_true. Qed.

Lemma indexed_cells l es : primary_ok l es -> is_indexed l = true -> ∃ xs, ll_element_list l = Some (cells xs) ∧ xs ≡ₚ es.
Proof. unfold primary_ok, is_indexed. destruct (ll_index_mode l); [done|by eauto|]. intros (xs & c & ? & ? & _). eauto. Qed.

(** An index is there afterwards, or there was no memory for it. *)
Lemma check_index_spec m l ps es : kl_ok m l ps es ->
  ∃ r m' l', check_index m l = Some (r, m', l') ∧ lstep m l ps m' l' ps es ∧ ll_last_element l' = ll_last_element l ∧
    (r = SUCCESS ∧ is_indexed l' = true ∧ (is_indexed l = true -> l' = l ∧ m' = m) ∧
       (is_indexed l = false -> ll_element_list l' = Some (cells es)) ∨
     r = ALLOCATE_FAILED ∧ l' = l ∧ is_indexed l = false ∧ no_memory m).
Proof.
  intros H. unfold check_index. lrun. destruct (is_indexed l) eqn:E.
  { eexists _, _, _. split; [done|]. split_and!; [by apply lstep_refl|done|]. left. done. }
  unfold __index_list. destruct (make_index_spec m l ps es H) as (r & m' & Hr & Hle & Hcase).
  rewrite (lbind_run _ _ _ _ _ _ _ Hr). destruct Hcase as [[-> Hno]| ->]; lrun; eexists _, _, _; (split; [done|]).
  - pose proof (proj1 (is_indexed_spec l) E) as Hm.
    assert (Hl : with_index l (ll_index_mode l) None = l).
    { pose proof (kl_primary _ _ _ _ H) as Hp. unfold primary_ok in Hp. rewrite Hm in Hp. destruct l; simpl in *; by subst. }
    rewrite Hl. split_and!; [by apply lstep_mem|done|by right].
  - split_and!; [|done|by left]. apply lstep_index; [done|done|]. by exists es.
Qed.

(** After a change of the elements of a list that is not indexed any more. *)
Lemma cleanup_index_run m l es : primary_ok l es -> cleanup_index m l = Some (tt, m, with_index l NOT_INDEXED None).
Proof.
  unfold primary_ok, cleanup_index, lmod, is_indexed. destruct (ll_index_mode l); simpl; [intros ->|intros _..]; done.
Qed.

(** Sizes in bytes are ints up to 2^28 elements, also with pointers of 8 bytes. *)
Lemma ptr_bytes_id n : 0 <= n <= 2 ^ 28 -> ptr_bytes n = n * sizeof_ptr.
Proof. intros Hn. unfold ptr_bytes, sizeof_ptr. apply swrap_id; [done|]. unfold in_s. lia. Qed.
Lemma ptr_cells_mul n : ptr_cells (n * sizeof_ptr) = Z.to_nat n.
Proof. unfold ptr_cells. by rewrite Z.div_mul. Qed.

(** In terms of elements. *)
Lemma my_realloc_fits a old new m l : 0 <= old <= 2 ^ 28 -> 0 <= new <= 2 ^ 28 -> (Z.to_nat (Z.min new old) <= length a)%nat ->
  ∃ r m', my_realloc (Some a) (ptr_bytes old) (ptr_bytes new) m l = Some (r, m', l) ∧ mem_le m m' ∧
    (r = None ∨ r = Some (take (Z.to_nat (Z.min new old)) a ++ replicate (Z.to_nat new - Z.to_nat (Z.min new old)) None)).
Proof.
  intros Ho Hn Hl. unfold my_realloc. destruct (do_kmalloc_le m l) as (r & m' & Hr & Hle).
  rewrite (lbind_run _ _ _ _ _ _ _ Hr). destruct r; [|eexists _, _; eauto]. rewrite !ptr_bytes_id by done.
  rewrite (proj2 (Z.ltb_ge _ 0)) by (unfold sizeof_ptr; lia). rewrite Z.mul_min_distr_nonneg_r by (unfold sizeof_ptr; lia).
  rewrite !ptr_cells_mul, (proj2 (Z.leb_le 0 _)), (proj2 (Nat.leb_le _ _)) by (done || unfold sizeof_ptr; lia).
  eexists _, _. split_and!; [done|done|]. by right.
Qed.

Lemma my_realloc_cells m l xs old new : old = Z.of_nat (length xs) -> old <= new -> new <= 2 ^ 28 ->
  ∃ r m', my_realloc (Some (cells xs)) (ptr_bytes old) (ptr_bytes new) m l = Some (r, m', l) ∧ mem_le m m' ∧
    (r = None ∨ r = Some (cells xs ++ replicate (Z.to_nat (new - old)) None)).
Proof.
  intros -> Hn Hb. destruct (my_realloc_fits (cells xs) (Z.of_nat (length xs)) new m l) as (r & m' & Hr & Hle & Hc);
    [lia|lia|rewrite length_cells; lia|]. exists r, m'. split_and!; [done|done|]. destruct Hc as [->| ->]; [by left|].
  rewrite Z.min_r, Nat2Z.id by lia.
  right. rewrite take_ge by (rewrite length_cells; lia). do 3 f_equal. lia.
Qed.

(** ** Alternate indexes *)
Lemma with_indexes_same l : with_indexes l (ll_index_arr_size l) (ll_indexes l) = l.
Proof. by destruct l. Qed.

(** [f] changes the one slot it is given the identifier of, from [P] to [Q]; the list has
    [n] elements and no node is made. *)
Definition slot_change (n : Z) (P Q : option klist_index_struct -> Prop) (f : Z -> LM unit) : Prop :=
  ∀ id m l ixs s, ll_number_of_elements l = n -> ll_indexes l = Some ixs -> 1 <= id ->
    ixs !! Z.to_nat (id - 1) = Some s -> P s ->
    ∃ m' s', f id m l = Some (tt, m', with_indexes l (ll_index_arr_size l) (Some (<[Z.to_nat (id - 1) := s']> ixs))) ∧
      mem_le m m' ∧ Q s'.

Lemma slot_change_seq n P Q R f g : slot_change n P Q f -> slot_change n Q R g -> slot_change n P R (λ id, lbind (f id) (λ _, g id)).
Proof.
  intros Hf Hg id m l ixs s Hn Hix Hid Hs HP.
  destruct (Hf id m l ixs s Hn Hix Hid Hs HP) as (m1 & s1 & Hr1 & Hle1 & HQ).
  pose proof (lookup_lt_Some _ _ _ Hs).
  destruct (Hg id m1 (with_indexes l (ll_index_arr_size l) (Some (<[Z.to_nat (id - 1) := s1]> ixs))) (<[Z.to_nat (id - 1) := s1]> ixs) s1)
    as (m2 & s2 & Hr2 & Hle2 & HR); [done|done|done|by apply list_lookup_insert_eq|done|].
  exists m2, s2. rewrite (lbind_run _ _ _ _ _ _ _ Hr1), Hr2. simpl. rewrite list_insert_insert_eq.
  split_and!; [done|by transitivity m1|done].
Qed.

Lemma for_indexes_spec n P Q f k : slot_change n P Q f -> ∀ m l before after,
  ll_number_of_elements l = n -> ll_indexes l = Some (before ++ after) -> length after = k -> Forall P after ->
  ∃ m' after', for_indexes f k (Z.of_nat (length before) + 1) m l =
      Some (tt, m', with_indexes l (ll_index_arr_size l) (Some (before ++ after'))) ∧
    mem_le m m' ∧ length after' = k ∧ Forall Q after'.
Proof.
  intros Hf. induction k as [|k IH]; intros m l before after Hn Hix Hk HP.
  { apply nil_length_inv in Hk as ->. exists m, []. simpl. rewrite <- Hix, with_indexes_same. split_and!; [done|done|done|constructor]. }
  destruct after as [|s after]; [discriminate|]. injection Hk as Hk. apply list.Forall_cons in HP as [Hs HP].
  cbn [for_indexes].
  destruct (Hf (Z.of_nat (length before) + 1) m l (before ++ s :: after) s) as (m1 & s1 & Hr1 & Hle1 & HQ1); [done|done|lia| |done|].
  { rewrite Z.add_simpl_r, Nat2Z.id. apply list_lookup_middle. done. }
  rewrite (lbind_run _ _ _ _ _ _ _ Hr1). rewrite Z.add_simpl_r, Nat2Z.id.
  rewrite insert_app_r_alt, Nat.sub_diag by lia. simpl.
  destruct (IH m1 (with_indexes l (ll_index_arr_size l) (Some ((before ++ [s1]) ++ after))) (before ++ [s1]) after)
    as (m2 & after' & Hr2 & Hle2 & Hl2 & HQ2); [done|done|done|done|].
  exists m2, (s1 :: after'). rewrite length_app in Hr2. simpl in Hr2.
  rewrite Nat2Z.inj_add in Hr2. change (Z.of_nat 1) with 1 in Hr2. rewrite <- app_assoc in Hr2. simpl in Hr2.
  rewrite Hr2. rewrite <- app_assoc. simpl. split_and!; [done|by transitivity m1|lia|by constructor].
Qed.

Lemma all_indexes_spec n P Q f m l : slot_change n P Q f -> ll_number_of_elements l = n -> slots P l ->
  ∃ m' ixs, all_indexes f m l = Some (tt, m', with_indexes l (ll_index_arr_size l) ixs) ∧ mem_le m m' ∧
    slots Q (with_indexes l (ll_index_arr_size l) ixs).
Proof.
  intros Hf Hn Hs. unfold all_indexes. lrun. unfold slots in Hs. destruct (ll_indexes l) as [ixs|] eqn:Hix.
  - destruct Hs as (Hsize & Hpos & HP).
    destruct (for_indexes_spec n P Q f (length ixs) Hf m l [] ixs) as (m' & ixs' & Hr & Hle & Hlen & HQ); [done|done|done|done|].
    rewrite Hsize, Nat2Z.id in *. exists m', (Some ixs'). change (Z.of_nat (@length (option klist_index_struct) []) + 1) with 1 in Hr. rewrite Hr. simpl.
    split_and!; [done|done|]. unfold slots. simpl. rewrite Hlen. done.
  - rewrite Hs. exists m, None. simpl. split_and!; [|done|done]. unfold lret. do 2 f_equal. rewrite <- Hs, <- Hix at 1.
    symmetry. apply with_indexes_same.
Qed.

Lemma set_slot_run id s m l ixs : ll_indexes l = Some ixs ->
  set_slot id s m l = Some (tt, m, with_indexes l (ll_index_arr_size l) (Some (<[Z.to_nat (id - 1) := s]> ixs))).
Proof. intros H. unfold set_slot, lmod. by rewrite H. Qed.

(** The guards: only an index that is up to date and not lazy is worked on. *)
Lemma alt_index_guard_spec n es tail V (k : Z -> klist_index_struct -> arr -> LM unit) :
  (∀ id m l ixs ix c xs, ll_number_of_elements l = n -> ll_indexes l = Some ixs -> ix_comp_func ix = Some c -> comp_order c ->
     ix_state ix = KLIST_INDEX__UP_TO_DATE -> es ≠ [] -> xs ≡ₚ es -> sorted_by c xs ->
     ∃ m' s', k id ix (cells xs ++ tail) m l = Some (tt, m', with_indexes l (ll_index_arr_size l) (Some (<[Z.to_nat (id - 1) := s']> ixs))) ∧
       mem_le m m' ∧ slot_shape V s') ->
  slot_change n (slot_shape (index_of es tail)) (slot_shape V) (λ id, alt_index_guard id (k id)).
Proof.
  intros Hk id m l ixs s Hn Hix Hid Hs HP. unfold alt_index_guard.
  assert (Hg : get_slot id m l = Some (s, m, l)).
  { unfold get_slot. rewrite Hix. cbn [mbind option_bind]. by rewrite (proj2 (Z.leb_le 1 id)), Hs by lia. }
  rewrite (lbind_run _ _ _ _ _ _ _ Hg).
  assert (Hsame : with_indexes l (ll_index_arr_size l) (Some (<[Z.to_nat (id - 1) := s]> ixs)) = l).
  { rewrite list_insert_id by done. rewrite <- Hix. apply with_indexes_same. }
  destruct s as [ix|]; [|exists m, None; by rewrite Hsame]. destruct HP as (c & Hc & Ho & HU).
  destruct (ix_state ix) eqn:Hst.
  - destruct (HU eq_refl) as (Hne & xs & Ha & Hp & Hso). rewrite Ha.
    destruct (negb _); [|by apply (Hk id m l ixs ix c xs)].
    rewrite (set_slot_run _ _ _ _ _ Hix). eexists m, _. split_and!; [done|done|]. by exists c.
  - exists m, (Some ix). rewrite Hsame. split_and!; [done|done|]. exists c. split_and!; [done|done|]. by rewrite Hst.
Qed.

Lemma resize_grow es : Z.of_nat (length es) < 2 ^ 28 -> slot_change (Z.of_nat (length es)) (slot_ok es) (slot_shape (index_of es [Some 0])) (λ id, alt_index_resize id 1).
Proof.
  intros Hb. apply alt_index_guard_spec.
  intros id m l ixs ix c xs Hn Hix Hc Ho Hst Hne Hp Hs. rewrite app_nil_r. lrun. rewrite Hn.
  rewrite (proj2 (Z.eqb_neq (ptr_bytes (_ + 1)) 0)) by (rewrite ptr_bytes_id; unfold sizeof_ptr; lia).
  assert (Hlen : length xs = length es) by by rewrite Hp.
  destruct (my_realloc_cells m l xs (Z.of_nat (length es)) (Z.of_nat (length es) + 1)) as (r & m' & Hr & Hle & Hcase); [lia|lia|lia|].
  rewrite (lbind_run _ _ _ _ _ _ _ Hr). destruct Hcase as [->| ->]; rewrite (set_slot_run _ _ _ _ _ Hix); eexists _, _;
    (split_and!; [done|done|]); exists c; (split_and!; [done|done|]); simpl; [done|]. rewrite Hst. intros _. split; [done|].
  exists xs. split_and!; [|done|done]. rewrite !ptr_bytes_id, (proj2 (Z.ltb_lt _ _)) by (unfold sizeof_ptr; lia).
  rewrite <- Z.mul_sub_distr_r, !ptr_cells_mul, Nat2Z.id. replace (Z.of_nat (length es) + 1 - Z.of_nat (length es)) with 1 by lia.
  rewrite take_app_le, take_ge by (rewrite length_cells; lia). done.
Qed.

Lemma insert_grown es x : Z.of_nat (length es) < 2 ^ 28 ->
  slot_change (Z.of_nat (length es)) (slot_shape (index_of es [Some 0])) (slot_ok (x :: es)) (λ id, alt_index_insert id x).
Proof.
  intros Hb. apply alt_index_guard_spec.
  intros id m l ixs ix c xs Hn Hix Hc Ho Hst Hne Hp Hs. lrun. rewrite Hn.
  assert (Hlen : length xs = length es) by by rewrite Hp. rewrite <- Hlen, Hc.
  destruct (find_insert_pos_spec c x xs [Some 0]) as (pos & Hpos & Hpt); [|lia|done|].
  { intros ->. apply Hne. by apply nil_length_inv. }
  rewrite (lbind_lopt _ _ _ _ _ Hpos).
  destruct (open_hole xs (Some 0) x pos (Z.of_nat (length xs))) as (a & Ha & Hset); [done|apply Hpt|].
  assert (Hmove : (if Z.of_nat pos <? Z.of_nat (length xs) then amove (cells xs ++ [Some 0]) (Z.of_nat pos + 1) (Z.of_nat pos) (Z.of_nat (length xs) - Z.of_nat pos)
                   else Some (cells xs ++ [Some 0])) = Some a).
  { destruct (Z.ltb_spec (Z.of_nat pos) (Z.of_nat (length xs))); [done|]. rewrite <- Ha. symmetry.
    destruct Hpt as [? _]. replace (Z.of_nat (length xs) - Z.of_nat pos) with 0 by lia.
    apply amove_none; rewrite length_app, length_cells; simpl; lia. }
  rewrite (lbind_lopt _ _ _ _ _ Hmove), (lbind_lopt _ _ _ _ _ Hset), (set_slot_run _ _ _ _ _ Hix).
  eexists _, _. split_and!; [done|done|]. exists c. split_and!; [done|done|]. intros _. split; [done|].
  eexists. split_and!; [by rewrite app_nil_r| |by apply insertion_sorted].
  rewrite <- Permutation_middle, take_drop, Hp. done.
Qed.

Lemma resize_insert es x : Z.of_nat (length es) < 2 ^ 28 ->
  slot_change (Z.of_nat (length es)) (slot_ok es) (slot_ok (x :: es)) (λ id, lbind (alt_index_resize id 1) (λ _, alt_index_insert id x)).
Proof. intros Hb. eapply slot_change_seq; [by apply resize_grow|by apply insert_grown]. Qed.

(** An index whose last cell is not used any more. *)
Lemma delete_shrinks es ele es' : Z.of_nat (length es) <= 2 ^ 28 -> es ≡ₚ ele :: es' ->
  slot_change (Z.of_nat (length es)) (slot_ok es) (slot_shape (index_of es' [Some 0])) (λ id, alt_index_delete id ele).
Proof.
  intros Hb Hes. apply alt_index_guard_spec.
  intros id m l ixs ix c xs Hn Hix Hc Ho Hst Hne Hp Hs. rewrite app_nil_r. lrun. rewrite Hn.
  assert (Hlen : length xs = length es) by by rewrite Hp. rewrite <- Hlen, Hc.
  destruct (find_remove_pos_spec c xs ele) as (r & Hr & Hpt); [lia|done|].
  rewrite (lbind_lopt _ _ _ _ _ Hr).
  destruct Hpt as [->|[Hr1 Hat]].
  { simpl. rewrite (set_slot_run _ _ _ _ _ Hix). eexists _, _. split_and!; [done|done|]. exists c. done. }
  rewrite (proj2 (Z.ltb_ge r 1)) by lia. pose proof (lookup_lt_Some _ _ _ Hat) as Hlt.
  destruct (close_hole xs (Z.to_nat r) (Z.of_nat (length xs))) as (a & Hmove & Hset); [done|done|].
  rewrite Z2Nat.id in Hmove by lia.
  rewrite (lbind_lopt _ _ _ _ _ Hmove), (lbind_lopt _ _ _ _ _ Hset), (set_slot_run _ _ _ _ _ Hix).
  eexists _, _. split_and!; [done|done|]. exists c. split_and!; [done|done|]. intros _.
  assert (Hp' : take (Z.to_nat r) xs ++ drop (Datatypes.S (Z.to_nat r)) xs ≡ₚ es').
  { apply (Permutation_cons_inv (a := ele)). rewrite <- Hes, <- Hp, <- delete_take_drop. symmetry. by apply delete_Permutation. }
  split.
  + intros ->. apply Permutation_nil_r, app_eq_nil in Hp' as [Ht _]. apply (f_equal length) in Ht. rewrite length_take in Ht. simpl in Ht. lia.
  + eexists. split_and!; [done|done|by apply sorted_remove].
Qed.

Lemma resize_shrinks es' : Z.of_nat (length es') < 2 ^ 28 ->
  slot_change (Z.of_nat (length es') + 1) (slot_shape (index_of es' [Some 0])) (slot_ok es') (λ id, alt_index_resize id (-1)).
Proof.
  intros Hb. apply alt_index_guard_spec.
  intros id m l ixs ix c xs Hn Hix Hc Ho Hst Hne Hp Hs. lrun. rewrite Hn.
  assert (Hlen : length xs = length es') by by rewrite Hp.
  assert (length es' ≠ 0%nat) by (intros ?%nil_length_inv; done).
  replace (Z.of_nat (length es') + 1 + -1) with (Z.of_nat (length es')) by lia.
  rewrite (proj2 (Z.eqb_neq (ptr_bytes (Z.of_nat _)) 0)) by (rewrite ptr_bytes_id; unfold sizeof_ptr; lia).
  destruct (my_realloc_fits (cells xs ++ [Some 0]) (Z.of_nat (length es') + 1) (Z.of_nat (length es')) m l) as (r & m' & Hr & Hle & Hcase);
    [lia|lia|rewrite length_app, length_cells; lia|]. rewrite (lbind_run _ _ _ _ _ _ _ Hr).
  destruct Hcase as [->| ->]; rewrite (set_slot_run _ _ _ _ _ Hix); eexists _, _; (split_and!; [done|done|]); exists c; [done|].
  split_and!; [done|done|]. intros _. split; [done|].
  exists xs. split_and!; [|done|done]. rewrite !ptr_bytes_id, (proj2 (Z.ltb_ge _ _)) by (unfold sizeof_ptr; lia).
  rewrite Z.min_l, Nat2Z.id, <- Hlen, Nat.sub_diag by lia. simpl. by rewrite take_app_le, take_ge by (rewrite length_cells; lia).
Qed.

Lemma delete_resize es ele es' : Z.of_nat (length es) <= 2 ^ 28 -> es ≡ₚ ele :: es' ->
  slot_change (Z.of_nat (length es)) (slot_ok es) (slot_ok es')
    (λ id, lbind (alt_index_delete id ele) (λ _, alt_index_resize id (-1))).
Proof.
  intros Hb Hes. eapply slot_change_seq; [by apply delete_shrinks|].
  apply Permutation_length in Hes. simpl in Hes. replace (Z.of_nat (length es)) with (Z.of_nat (length es') + 1) by lia. apply resize_shrinks. lia.
Qed.
