(* ===== verification/KListOps.v ===== *)
(** The operations on an abstract list of the overlay file system, with the list given:
    what each returns and what it leaves of the list. *)
From stdpp Require Import sorting.
From S2P Require Import Prelude KList KListSort KListInv.
Open Scope Z_scope.

(** The invariant without the primary index, which an operation changes last. *)
Record kl_core (m : kmem) (l : list_struct) (ps es : list Z) : Prop := {
  co_chain : chain (km_nodes m) (ll_first_element l) ps es;
  co_number : ll_number_of_elements l = Z.of_nat (length es);
  co_bound : Z.of_nat (length es) <= 2 ^ 28;
  co_mem : mem_ok m;
  co_same : kl_const l;
  co_slots : slots (slot_ok es) l
}.

Lemma kl_build m l ps es : kl_core m l ps es -> primary_ok l es -> kl_ok m l ps es.
Proof. intros [] ?. by split. Qed.

Lemma kl_core_of m l ps es : kl_ok m l ps es -> kl_core m l ps es.
Proof. intros []. by split. Qed.

Lemma kl_core_index m m' l ps es mode a : mem_le m m' -> kl_core m l ps es -> kl_core m' (with_index l mode a) ps es.
Proof.
  intros Hle []. split; try done; [by rewrite (ml_nodes _ _ Hle)|by eapply mem_le_ok|by destruct co_same0].
Qed.

Lemma kl_const_chain l n f la : kl_const l -> kl_const (with_chain l n f la).
Proof. by intros []. Qed.
Lemma kl_const_indexes l n ixs : kl_const l -> kl_const (with_indexes l n ixs).
Proof. by intros []. Qed.
Lemma kl_const_index l mode a : kl_const l -> kl_const (with_index l mode a).
Proof. by intros []. Qed.

#[export] Hint Resolve kl_const_chain kl_const_indexes kl_const_index : klist.

(** ** The primary index after an insertion *)

(** The index, when there is one, has the elements in the order of the list. *)
Definition flat_order (l : list_struct) (es : list Z) : Prop := is_indexed l = true -> ll_element_list l = Some (cells es).

Lemma aset_last xs v : aset (cells xs ++ [None]) (Z.of_nat (length xs)) v = Some (cells (xs ++ [v])).
Proof.
  unfold aset. rewrite length_app, length_cells. simpl.
  rewrite (proj2 (Z.leb_le 0 _)), (proj2 (Z.ltb_lt _ _)), Nat2Z.id by lia. simpl. f_equal. unfold arr.
  rewrite insert_app_r_alt, length_cells, Nat.sub_diag by (rewrite length_cells; lia). simpl. by rewrite cells_app.
Qed.

(** The element is appended, or there is no index any more. *)
Lemma index_append_spec m l es x : primary_ok l es -> is_indexed l = true -> ll_number_of_elements l = Z.of_nat (length es) + 1 -> Z.of_nat (length es) < 2 ^ 28 ->
  ∃ m' mode a, index_append x (Z.of_nat (length es)) m l = Some (tt, m', with_index l mode a) ∧ mem_le m m' ∧
    (∀ es', es' ≡ₚ x :: es -> primary_ok (with_index l mode a) es') ∧
    (ll_element_list l = Some (cells es) -> flat_order (with_index l mode a) (es ++ [x])) ∧ mode ≠ SORTED.
Proof.
  intros Hp Hi Hn Hb. destruct (indexed_cells l es Hp Hi) as (xs & Hxs & Hperm).
  assert (Hlen : length xs = length es) by by rewrite Hperm.
  unfold index_append, grow_index. lrun. rewrite Hxs, Hn.
  destruct (my_realloc_cells m l xs (Z.of_nat (length es)) (Z.of_nat (length es) + 1)) as (r & m' & Hr & Hle & Hcase); [lia|lia|lia|].
  rewrite (lbind_run _ _ _ _ _ _ _ Hr). destruct Hcase as [->| ->].
  - lrun. rewrite (cleanup_index_run m' l es Hp). eexists _, _, _. split_and!; [done|done|by intros es' _|done|done].
  - lrun. simpl. replace (Z.to_nat _) with 1%nat by lia. unfold set_index_cell, list_length. lrun. simpl.
    rewrite (lbind_lopt _ _ _ _ _ eq_refl). rewrite Hn, Z.add_simpl_r, <- Hlen, (lbind_lopt _ _ _ _ _ (aset_last xs x)).
    eexists _, _, _. split_and!; [done|done| | |done].
    + intros es' Hes'. exists (xs ++ [x]). split; [done|]. rewrite Hes', <- Hperm, Permutation_app_comm. done.
    + intros [= Hce%cells_inj] _. by subst.
Qed.

(** ** Inserting at the front *)
Lemma chain_front m m' p x first ps es : km_nodes m !! p = None -> p ≠ 0 -> km_nodes m' = <[p := Node x first]> (km_nodes m) ->
  chain (km_nodes m) first ps es -> chain (km_nodes m') p (p :: ps) (x :: es).
Proof.
  intros Hf Hp Hns Hch.
  assert (Hni : p ∉ ps). { intros Hin. destruct (chain_nodes _ _ _ _ _ Hch Hin) as [_ [n Hn]]. congruence. }
  econstructor; [done|done|by rewrite Hns, lookup_insert_eq|].
  eapply chain_other; [exact Hch|]. intros q Hq. rewrite Hns, lookup_insert_ne; [done|]. intros ->. done.
Qed.

(** The front of the two insertions: the node and the alternate indexes. *)
Lemma insert_front_core m l ps es x p m1 : kl_ok m l ps es -> Z.of_nat (length es) < 2 ^ 28 ->
  add_abs_node m x (ll_first_element l) = Some (p, m1) -> p ≠ 0 -> km_nodes m !! p = None -> mem_ok m1 ->
  km_nodes m1 = <[p := Node x (ll_first_element l)]> (km_nodes m) ->
  ∀ l1, ll_number_of_elements l1 = ll_number_of_elements l -> ll_indexes l1 = ll_indexes l -> ll_index_arr_size l1 = ll_index_arr_size l ->
  ∃ m2 ixs, all_indexes (λ id, lbind (alt_index_resize id 1) (λ _, alt_index_insert id x)) m1 l1
      = Some (tt, m2, with_indexes l1 (ll_index_arr_size l) ixs) ∧ mem_le m1 m2 ∧
    kl_core m2 (with_chain (with_indexes l (ll_index_arr_size l) ixs) (swrap 32 (ll_number_of_elements l + 1)) p (ll_last_element l)) (p :: ps) (x :: es).
Proof.
  intros H Hb Ha Hp Hf Hm1 Hns l1 Hn Hix Hsz. pose proof (kl_number _ _ _ _ H) as Hnum.
  destruct (all_indexes_spec (Z.of_nat (length es)) _ _ _ m1 l1 (resize_insert es x Hb)) as (m2 & ixs & Hr & Hle & Hsl); [lia| |].
  { unfold slots. rewrite Hix, Hsz. apply H. }
  rewrite Hsz in *. exists m2, ixs. split_and!; [done|done|]. split; simpl.
  - rewrite (ml_nodes _ _ Hle). eapply chain_front; [exact Hf|done|done|apply H].
  - rewrite Hnum, swrap_id by (unfold in_s; lia). lia.
  - lia.
  - by eapply mem_le_ok.
  - destruct H as [_ _ _ _ [] _ _]. by split.
  - exact Hsl.
Qed.

(** The end of an insertion at the front. *)
Lemma lstep_front m l ps m' l' x es p : kl_ok m' l' (p :: ps) (x :: es) -> kl_frame l l' -> mem_ok m -> km_next m <= p ->
  (∃ first, km_nodes m' = <[p := Node x first]> (km_nodes m)) -> km_do_malloc m' = km_do_malloc m -> lstep m l ps m' l' (p :: ps) (x :: es).
Proof.
  intros Hk Hf Hm Hp [first Hns] Hmal. pose proof (kl_mem _ _ _ _ Hk) as [_ Hb]. split; [done|done| | | |done].
  - assert (p < km_next m'); [|lia]. eapply Hb. rewrite Hns. apply lookup_insert_eq.
  - intros q Hq _. rewrite Hns, lookup_insert_ne; [done|lia].
  - intros q [->|?]%elem_of_cons; [by right|by left].
Qed.

(** Gives the structure the next step works on its short name. *)
Ltac list_is t := match goal with |- context [lbind _ _ _ ?l] => change l with t end.

Lemma call_add_run f x at_ m l p m' : f m x at_ = Some (p, m') -> call_add f x at_ m l = Some (p, m', l).
Proof. unfold call_add. by intros ->. Qed.

Lemma list_node_data_run p e nx m l : kl_const l -> p ≠ 0 -> km_nodes m !! p = Some (Node e nx) ->
  LIST_NODE_DATA p m l = Some (e, m, l).
Proof.
  intros Hk Hp Hn. unfold LIST_NODE_DATA. rewrite (kc_type _ Hk), (proj2 (Z.eqb_neq p 0)) by done.
  by rewrite (node_data_abs l m p (Node e nx) Hk Hn).
Qed.

Lemma list_node_data_null m l : kl_const l -> LIST_NODE_DATA 0 m l = Some (0, m, l).
Proof. intros Hk. unfold LIST_NODE_DATA. by rewrite (kc_type _ Hk). Qed.

(** What an insertion at the front does: nothing, without memory, or the element is the
    new first one. *)
Definition inserted_front (m : kmem) (l : list_struct) (ps es : list Z) (x : Z) (out : option (Z * kmem * list_struct)) : Prop :=
  ∃ r m' l', out = Some (r, m', l') ∧
    (r = 0 ∧ no_memory m ∧ lstep m l ps m' l' ps es ∨
     (∃ p, r = x ∧ (p ∉ ps) ∧ lstep m l ps m' l' (p :: ps) (x :: es))).

Section InsertFront.
Context (m : kmem) (l : list_struct) (ps es : list Z) (x : Z).
Context (H : kl_ok m l ps es) (Hb : Z.of_nat (length es) < 2 ^ 28).

Lemma add_front : ∃ p m1, call_add add_abs_node x (ll_first_element l) m l = Some (p, m1, l) ∧
  (p = 0 ∧ mem_le m m1 ∧ no_memory m ∨
   p ≠ 0 ∧ km_next m <= p ∧ (p ∉ ps) ∧ km_nodes m1 = <[p := Node x (ll_first_element l)]> (km_nodes m) ∧ km_do_malloc m1 = km_do_malloc m ∧
   (∀ l1, ll_number_of_elements l1 = ll_number_of_elements l -> ll_indexes l1 = ll_indexes l -> ll_index_arr_size l1 = ll_index_arr_size l ->
     ∃ m2 ixs, all_indexes (λ id, lbind (alt_index_resize id 1) (λ _, alt_index_insert id x)) m1 l1
         = Some (tt, m2, with_indexes l1 (ll_index_arr_size l) ixs) ∧ mem_le m1 m2 ∧
       kl_core m2 (with_chain (with_indexes l (ll_index_arr_size l) ixs) (swrap 32 (ll_number_of_elements l + 1)) p (ll_last_element l)) (p :: ps) (x :: es))).
Proof using H Hb.
  destruct (add_abs_node_spec m x (ll_first_element l) (kl_mem _ _ _ _ H)) as (p & m1 & Ha & Hcase).
  exists p, m1. split; [by apply call_add_run|]. destruct Hcase as [?|(Hp & Hf & Hm1 & Hns & Hmal)]; [by left|right].
  assert (Hge : km_next m <= p).
  { unfold add_abs_node, request in Ha. destruct (km_do_malloc m (km_allocs m)); simplify_eq; lia. }
  split_and!; [done|done| |done|done|by eapply insert_front_core].
  intros Hin. destruct (chain_nodes _ _ _ _ _ (kl_chain _ _ _ _ H) Hin) as [_ [n Hn]]. congruence.
Qed.

(** The state after an insertion, once the primary index is right. *)
Lemma insert_front_done p m2 m3 l1 mode a : km_next m <= p ->
  km_nodes m2 = <[p := Node x (ll_first_element l)]> (km_nodes m) -> km_do_malloc m2 = km_do_malloc m -> mem_le m2 m3 ->
  kl_core m2 l1 (p :: ps) (x :: es) -> kl_frame l l1 -> primary_ok (with_index l1 mode a) (x :: es) ->
  lstep m l ps m3 (with_index l1 mode a) (p :: ps) (x :: es).
Proof using H.
  intros Hge Hns Hmal Hle Hco Hfr Hpr. apply lstep_front; [| |apply H|done| |by rewrite (ml_malloc _ _ Hle)].
  - apply kl_build; [by eapply kl_core_index|done].
  - destruct Hfr. by split.
  - exists (ll_first_element l). by rewrite (ml_nodes _ _ Hle).
Qed.

Lemma insert_result p m' l' : p ∉ ps -> lstep m l ps m' l' (p :: ps) (x :: es) ->
  inserted_front m l ps es x (LIST_NODE_DATA p m' l').
Proof.
  intros Hni Hst. pose proof (ls_ok _ _ _ _ _ _ _ Hst) as Hk. pose proof (kl_chain _ _ _ _ Hk) as Hch.
  inversion Hch; subst. erewrite list_node_data_run; [|apply Hk|done|eassumption].
  eexists _, _, _. split; [done|]. right. eauto.
Qed.

Lemma insert_null m1 : mem_le m m1 -> no_memory m -> inserted_front m l ps es x (LIST_NODE_DATA 0 m1 l).
Proof using H.
  intros Hle Hno. rewrite list_node_data_null by apply H. eexists _, _, _. split; [done|]. left. split_and!; [done|done|by apply lstep_mem].
Qed.

Lemma insert_into_list_spec : inserted_front m l ps es x (insert_into_list_body x m l).
Proof using H Hb.
  unfold insert_into_list_body. lrun. rewrite (kc_add _ (kl_same _ _ _ _ H)).
  destruct add_front as (p & m1 & Ha & Hcase). rewrite (lbind_run _ _ _ _ _ _ _ Ha).
  destruct Hcase as [(-> & Hle & Hno)|(Hp & Hge & Hni & Hns & Hmal & Halt)]; [lrun; by apply insert_null|].
  rewrite (proj2 (Z.eqb_neq p 0)) by done. lrun.
  destruct (Halt (with_chain l (ll_number_of_elements l) p (ll_last_element l)) eq_refl eq_refl eq_refl) as (m2 & ixs & Hr & Hle2 & Hco).
  rewrite (lbind_run _ _ _ _ _ _ _ Hr). lrun.
  set (l2 := with_chain (with_indexes l (ll_index_arr_size l) ixs) (swrap 32 (ll_number_of_elements l + 1)) p (ll_last_element l)) in *.
  list_is l2. pose proof (kl_primary _ _ _ _ H) as Hpr.
  assert (Hpr2 : primary_ok l2 es) by exact Hpr.
  assert (Hns2 : km_nodes m2 = <[p := Node x (ll_first_element l)]> (km_nodes m)) by by rewrite (ml_nodes _ _ Hle2).
  assert (Hmal2 : km_do_malloc m2 = km_do_malloc m) by by rewrite (ml_malloc _ _ Hle2).
  destruct (is_indexed l2) eqn:Hi.
  - change (ll_list_type l2) with (ll_list_type l). rewrite (kc_type _ (kl_same _ _ _ _ H)).
    destruct (index_append_spec m2 l2 es x Hpr2 Hi) as (m3 & mode & a & Hap & Hle3 & Hpa & _).
    { rewrite (co_number _ _ _ _ Hco). simpl. lia. }
    { done. }
    rewrite (kl_number _ _ _ _ H), (lbind_run _ _ _ _ _ _ _ Hap).
    apply insert_result; [done|]. eapply insert_front_done; [done|exact Hns2|exact Hmal2|done|done|done|by apply Hpa].
  - lrun. apply is_indexed_spec in Hi. unfold primary_ok in Hpr2. rewrite Hi in Hpr2.
    replace l2 with (with_index l2 NOT_INDEXED None) by (rewrite <- Hi, <- Hpr2; done).
    apply insert_result; [done|]. eapply insert_front_done; [done|exact Hns2|exact Hmal2|done|done|done|done].
Qed.
End InsertFront.

(** ** Sorting *)
Lemma sort_list_spec m l ps es : kl_ok m l ps es ->
  ∃ r m' l', __sort_list m l = Some (r, m', l') ∧ lstep m l ps m' l' ps es ∧
    (r = 1 ∧ ll_index_mode l' = SORTED ∨ r = 0).
Proof.
  intros H. unfold __sort_list.
  destruct (check_index_spec m l ps es H) as (r & m1 & l1 & Hr & Hst & Hn & Hcase).
  rewrite (lbind_run _ _ _ _ _ _ _ Hr). lrun. pose proof (ls_ok _ _ _ _ _ _ _ Hst) as H1.
  destruct (ll_element_compare l1) as [c|] eqn:Hc; [|eexists _, _, _; split_and!; [done|done|by right]].
  destruct Hcase as [(-> & Hi & _)|[-> _]]; [|eexists _, _, _; split_and!; [done|done|by right]].
  destruct (indexed_cells l1 es (kl_primary _ _ _ _ H1) Hi) as (xs & Hxs & Hp).
  assert (Hlen : length xs = length es) by by rewrite Hp.
  pose proof (kl_bound _ _ _ _ H1) as Hbd.
  pose proof (kc_cmp _ (kl_same _ _ _ _ H1) c Hc) as Ho.
  destruct (ssort_spec c xs) as (ys & Hs & Hp2 & Hso); [lia|].
  change (SUCCESS =? SUCCESS) with true. cbv iota.
  rewrite Hxs, (kl_number _ _ _ _ H1), <- Hlen, (lbind_lopt _ _ _ _ _ Hs). lrun.
  eexists _, _, _. split_and!; [done| |by left]. eapply lstep_trans; [exact Hst|].
  apply lstep_index; [done|done|]. exists ys, c. split_and!; [done|by rewrite <- Hp2|done|done].
Qed.

(** ** Inserting into the sorted index *)
Lemma my_realloc_one m l xs n : n = Z.of_nat (length xs) -> n < 2 ^ 28 ->
  ∃ r m', my_realloc (Some (cells xs)) (ptr_bytes n) (ptr_bytes (n + 1)) m l = Some (r, m', l) ∧ mem_le m m' ∧
  (r = None ∨ r = Some (cells xs ++ [None])).
Proof.
  intros Hn Hb. destruct (my_realloc_cells m l xs n (n + 1)) as (r & m' & Hr & Hle & Hc); [done|lia|lia|].
  replace (Z.to_nat (n + 1 - n)) with 1%nat in Hc by lia. eauto.
Qed.

Lemma grow_ordered_spec m l xs c x pos es : ll_element_list l = Some (cells xs) -> ll_index_mode l = SORTED ->
  ll_element_compare l = Some c -> xs ≡ₚ es -> sorted_by c xs -> insertion_point c x xs pos ->
  ll_number_of_elements l = Z.of_nat (length es) + 1 -> Z.of_nat (length es) < 2 ^ 28 ->
  ∃ ok m' mode a, grow_index_ordered x (Z.of_nat pos) (Z.of_nat (length es)) m l = Some (ok, m', with_index l mode a) ∧ mem_le m m' ∧
    primary_ok (with_index l mode a) (x :: es) ∧ (ok = false -> mode = NOT_INDEXED ∧ a = None).
Proof.
  intros Hxs Hm Hc Hp Hs Hpt Hn Hb. assert (Hlen : length xs = length es) by by rewrite Hp.
  unfold grow_index_ordered, list_length. lrun. rewrite Hxs, Hn.
  destruct (my_realloc_one m l xs (Z.of_nat (length es))) as (r & m' & Hr & Hle & Hcase); [lia|lia|].
  rewrite (lbind_run _ _ _ _ _ _ _ Hr). destruct Hcase as [->| ->].
  - lrun. eexists _, _, _, _. split_and!; [done|done|done|done].
  - destruct (open_hole xs None x pos (Z.of_nat (length xs))) as (a & Ha & Hset); [done|apply Hpt|].
    replace (Z.of_nat (length es) + 1 - Z.of_nat pos - 1) with (Z.of_nat (length xs) - Z.of_nat pos) by lia.
    rewrite (lbind_lopt _ _ _ _ _ Ha), (lbind_lopt _ _ _ _ _ Hset). lrun.
    eexists _, _, _, _. split_and!; [done|done| |done]. unfold primary_ok. simpl. rewrite Hm.
    eexists _, c. split_and!; [done| |done|by apply insertion_sorted].
    rewrite <- Permutation_middle, take_drop, Hp. done.
Qed.

Lemma with_index_twice l mode a mode' a' : with_index (with_index l mode a) mode' a' = with_index l mode' a'.
Proof. done. Qed.


Section InsertSorted.
Context (m : kmem) (l : list_struct) (ps es : list Z) (x : Z).
Context (H : kl_ok m l ps es) (Hb : Z.of_nat (length es) < 2 ^ 28).
(** The index of a list without elements must not be sorted: see [sorted_empty_faults]. *)
Context (Hempty : ll_index_mode l = SORTED -> es ≠ []).

(** The list after the node and the alternate indexes. *)
Definition with_front (ixs : option (list (option klist_index_struct))) (p : Z) : list_struct :=
  with_chain (with_indexes l (ll_index_arr_size l) ixs) (swrap 32 (ll_number_of_elements l + 1)) p (ll_last_element l).

(** An index that is not sorted grows first and is sorted then. *)
Lemma insert_then_sort p m2 ixs (l2 := with_front ixs p) : (p ∉ ps) -> km_next m <= p ->
  km_nodes m2 = <[p := Node x (ll_first_element l)]> (km_nodes m) -> km_do_malloc m2 = km_do_malloc m -> kl_core m2 l2 (p :: ps) (x :: es) ->
  inserted_front m l ps es x
    (lbind (if is_indexed l2 then index_append x (ll_number_of_elements l) else lret tt)
           (λ _, lbind (lbind __sort_list (λ _, lret tt)) (λ _, LIST_NODE_DATA p)) m2 l2).
Proof using H Hb.
  intros Hni Hge Hns Hmal Hco. pose proof (kl_primary _ _ _ _ H) as Hpr.
  assert (∃ m3 l3, (if is_indexed l2 then index_append x (ll_number_of_elements l) else lret tt) m2 l2 = Some (tt, m3, l3) ∧
    lstep m l ps m3 l3 (p :: ps) (x :: es)) as (m3 & l3 & Hf3 & Hst).
  { destruct (is_indexed l2) eqn:Hi.
    - rewrite (kl_number _ _ _ _ H). destruct (index_append_spec m2 l2 es x Hpr Hi) as (m3 & mode & a & Hap & Hle3 & Hpa & _).
      { rewrite (co_number _ _ _ _ Hco). simpl. lia. }
      { done. }
      eexists _, _. split; [exact Hap|]. eapply insert_front_done; [exact H|done|exact Hns|done|done|done|done|by apply Hpa].
    - eexists _, _. split; [done|]. apply is_indexed_spec in Hi. unfold primary_ok in Hpr.
      change (ll_index_mode l) with (ll_index_mode l2) in Hpr. rewrite Hi in Hpr.
      replace l2 with (with_index l2 NOT_INDEXED None) by (rewrite <- Hi, <- Hpr; done).
      eapply insert_front_done; [exact H|done|exact Hns|done|done|done|done|done]. }
  rewrite (lbind_run _ _ _ _ _ _ _ Hf3). lrun.
  destruct (sort_list_spec m3 l3 (p :: ps) (x :: es)) as (r & m4 & l4 & Hr4 & Hst4 & _); [apply Hst|].
  rewrite (lbind_run _ _ _ _ _ _ _ Hr4). lrun. apply insert_result; [done|by eapply lstep_trans].
Qed.

Lemma insert_into_list_sorted_spec : inserted_front m l ps es x (insert_into_list_sorted_body x m l).
Proof using H Hb Hempty.
  unfold insert_into_list_sorted_body. lrun. rewrite (kc_add _ (kl_same _ _ _ _ H)).
  destruct (add_front m l ps es x H Hb) as (p & m1 & Ha & Hcase). rewrite (lbind_run _ _ _ _ _ _ _ Ha).
  destruct Hcase as [(-> & Hle & Hno)|(Hp & Hge & Hni & Hns & Hmal & Halt)]; [lrun; by apply insert_null|].
  rewrite (proj2 (Z.eqb_neq p 0)) by done. lrun.
  destruct (Halt l eq_refl eq_refl eq_refl) as (m2 & ixs & Hr & Hle2 & Hco).
  rewrite (lbind_run _ _ _ _ _ _ _ Hr). lrun.
  set (l1 := with_chain (with_indexes l (ll_index_arr_size l) ixs) (ll_number_of_elements l) p (ll_last_element l)).
  list_is l1. set (l2 := with_front ixs p). change (with_chain _ (swrap 32 _) _ _) with l2 in Hco.
  pose proof (kl_primary _ _ _ _ H) as Hpr. pose proof (kl_number _ _ _ _ H) as Hnum.
  assert (Hns2 : km_nodes m2 = <[p := Node x (ll_first_element l)]> (km_nodes m)) by by rewrite (ml_nodes _ _ Hle2).
  assert (Hmal2 : km_do_malloc m2 = km_do_malloc m) by by rewrite (ml_malloc _ _ Hle2).
  change (ll_index_mode l1) with (ll_index_mode l). change (ll_number_of_elements l1) with (ll_number_of_elements l).
  destruct (ll_index_mode l) eqn:Hmode.
  1,2: lrun; list_is l2; by apply insert_then_sort.
  unfold primary_ok in Hpr. rewrite Hmode in Hpr. destruct Hpr as (xs & c & Hxs & Hperm & Hc & Hs).
  pose proof (kc_cmp _ (kl_same _ _ _ _ H) c Hc) as Ho. assert (Hlen : length xs = length es) by by rewrite Hperm.
  destruct (find_insert_pos_spec c x xs []) as (pos & Hpos & Hpt); [|lia|done|].
  { intros ->. apply Hempty; [done|by apply nil_length_inv]. }
  change (@Some (list (option Z))) with (@Some arr) in Hpos. rewrite app_nil_r, Hlen, <- Hnum, <- Hc, <- Hxs in Hpos. lrun.
  rewrite (lbind_lopt (find_insert_pos l1 x) _ _ _ _ Hpos). lrun. list_is l2.
  destruct (grow_ordered_spec m2 l2 xs c x pos es Hxs Hmode Hc Hperm Hs Hpt) as (ok & m3 & mode & a & Hg & Hle3 & Hpa & Hno).
  { rewrite (co_number _ _ _ _ Hco). simpl. lia. }
  { done. }
  rewrite Hnum, (lbind_run _ _ _ _ _ _ _ Hg).
  assert (Hst : lstep m l ps m3 (with_index l2 mode a) (p :: ps) (x :: es)) by (eapply insert_front_done; [exact H|done|exact Hns2|exact Hmal2|done..]).
  destruct ok; lrun; [by apply insert_result|]. destruct (Hno eq_refl) as [-> ->]. by apply insert_result.
Qed.
End InsertSorted.

(** ** Reading the list *)
Lemma nth_element_spec m l ps es nth : kl_ok m l ps es ->
  ∃ r m' l', __nth_element nth m l = Some (r, m', l') ∧ lstep m l ps m' l' ps es ∧
    ll_last_element l' = ll_last_element l ∧ (flat_order l es -> flat_order l' es) ∧
    (r = 0 ∧ (is_indexed l = false ∧ no_memory m ∨ ¬ 1 <= nth <= Z.of_nat (length es)) ∨
     1 <= nth ∧ ∃ xs, ll_element_list l' = Some (cells xs) ∧ is_indexed l' = true ∧ (is_indexed l = true -> l' = l ∧ m' = m) ∧
       (is_indexed l = false -> xs = es) ∧
       xs ≡ₚ es ∧ xs !! Z.to_nat (nth - 1) = Some r).
Proof.
  intros H. unfold __nth_element.
  destruct (check_index_spec m l ps es H) as (r & m1 & l1 & Hr & Hst & Hn & Hcase).
  rewrite (lbind_run _ _ _ _ _ _ _ Hr). lrun. pose proof (ls_ok _ _ _ _ _ _ _ Hst) as H1.
  rewrite (kl_number _ _ _ _ H1). destruct Hcase as [(-> & Hi & Hkeep & Hnew)|(-> & -> & Hi & Hno)].
  2:{ eexists _, _, _. split_and!; [done|done|done|done|left; auto]. }
  assert (Hfl : flat_order l es -> flat_order l1 es).
  { intros Hfl _. destruct (is_indexed l) eqn:E; [|by apply Hnew]. destruct (Hkeep eq_refl) as [-> _]. by apply Hfl. }
  destruct (indexed_cells l1 es (kl_primary _ _ _ _ H1) Hi) as (xs & Hxs & Hp).
  assert (Hlen : length xs = length es) by by rewrite Hp.
  destruct (Z.ltb_spec 0 nth); destruct (Z.leb_spec nth (Z.of_nat (length es)));
    [|eexists _, _, _; (split_and!; [done|done|done|done|left; split; [done|right; lia]])..].
  change ((SUCCESS =? SUCCESS) && true && true) with true. cbv iota. rewrite (lbind_lopt _ _ _ _ _ Hxs).
  unfold lopt. rewrite aget_cells by lia. destruct (lookup_lt_is_Some_2 xs (Z.to_nat (nth - 1))) as [e He]; [lia|].
  rewrite He. eexists _, _, _. split_and!; [done|done|done|done|]. right. split; [lia|]. exists xs. split_and!; try done.
  intros Hn'. rewrite (Hnew Hn') in Hxs. injection Hxs as Hxs. by apply cells_inj.
Qed.

(** The search function follows the order of the index. *)
Definition search_agrees (l : list_struct) (f : Z -> Z) : Prop :=
  ∀ c x y, ll_element_compare l = Some c -> c x y <= 0 -> (f x < 0 -> f y < 0) ∧ (0 < f y -> 0 < f x).

(** The element found, or NULL when none matches. *)
Definition search_result (f : Z -> Z) (es : list Z) (r : option Z) : Prop :=
  match r with Some e => e ∈ es ∧ f e = 0 | None => Forall (λ e, f e ≠ 0) es end.

Lemma l_search_loop_chain l m f p ps es cnt : kl_const l -> chain (km_nodes m) p ps es ->
  ∃ r n, l_search_loop l m f (length es) p cnt = Some (r, n) ∧ search_result f es r.
Proof.
  intros Hk Hch. revert cnt. induction Hch as [|p e nx ps es Hp Hni Hl Hch IH]; intros cnt; simpl.
  { eexists _, _. split; [done|constructor]. }
  rewrite (node_data_abs l m p (Node e nx)) by done. cbn [mbind option_bind element].
  destruct (Z.eqb_spec (f e) 0).
  - eexists _, _. split; [done|]. split; [by left|done].
  - rewrite (kc_next _ Hk). unfold next_abs_node. rewrite Hl.
    destruct (IH (cnt + 1)) as (r & n' & Hr & Hres). exists r, n'. split; [exact Hr|].
    destruct r; simpl in *; [destruct Hres; split; [by right|done]|by constructor].
Qed.

Lemma l_search_spec m l ps es v f : kl_ok m l ps es -> ll_search_func l = Some f ->
  ∃ r m', l_search v m l = Some (r, m', l) ∧ mem_le m m' ∧ search_result (f v) es r.
Proof.
  intros H Hf. unfold l_search. rewrite (kl_number _ _ _ _ H), Nat2Z.id, Hf.
  assert (Hle : ∀ k, mem_le m (km_set_count m k)) by (split; simpl; [done|lia|done]).
  destruct (l_search_loop_chain l m (f v) (ll_first_element l) ps es 0) as (r & n & Hl & Hres); [apply H|apply H|].
  destruct es as [|e es']; simpl length in *; [eexists None, _; split_and!; [done|done|constructor]|].
  rewrite Hl. cbn [mbind option_bind]. eauto.
Qed.

Lemma search_for_element_spec m l ps es v f : kl_ok m l ps es -> ll_search_func l = Some f -> search_agrees l (f v) ->
  ∃ r m' l', search_for_element_body v m l = Some (default 0 r, m', l') ∧ lstep m l ps m' l' ps es ∧ search_result (f v) es r.
Proof.
  intros H Hf Hag. unfold search_for_element_body.
  destruct (check_index_spec m l ps es H) as (c & m1 & l1 & Hr & Hst & Hn & _).
  rewrite (lbind_run _ _ _ _ _ _ _ Hr). lrun. pose proof (ls_ok _ _ _ _ _ _ _ Hst) as H1.
  pose proof (ls_frame _ _ _ _ _ _ _ Hst) as [_ _ Hcmp Hse].
  destruct ((c =? SUCCESS) && bool_decide (ll_index_mode l1 = SORTED)) eqn:Hb.
  - apply andb_true_iff in Hb as [_ Hm%bool_decide_eq_true]. pose proof (kl_primary _ _ _ _ H1) as Hpr.
    unfold primary_ok in Hpr. rewrite Hm in Hpr. destruct Hpr as (xs & o & Hxs & Hp & Hc & Hs).
    assert (Hlen : length xs = length es) by by rewrite Hp.
    destruct (bsearch_spec f v xs) as (r & Hbs & Hres); [rewrite Hlen; apply H| |].
    { intros i j x y Hij Hx Hy. apply (Hag o x y); [congruence|]. by apply (proj1 (sorted_lookup _ _) Hs i j). }
    rewrite Hxs, Hse, Hf, (kl_number _ _ _ _ H1), <- Hlen, (lbind_lopt _ _ _ _ _ Hbs).
    destruct r as [pos|].
    + destruct Hres as (x & Hpos & Hx & Hfx). rewrite (lbind_lopt _ _ _ _ _ eq_refl). unfold lopt. rewrite aget_cells, Hx by done.
      eexists (Some x), _, _. split_and!; [done|done|]. split; [|done]. rewrite <- Hp. by eapply list_elem_of_lookup_2.
    + eexists None, _, _. split_and!; [done|done|]. simpl. by rewrite <- Hp.
  - destruct (l_search_spec m1 l1 ps es v f H1) as (r & m2 & Hl & Hle & Hres); [congruence|].
    rewrite (lbind_run _ _ _ _ _ _ _ Hl). exists r, m2, l1. split; [done|]. split; [|done].
    eapply lstep_trans; [exact Hst|by apply lstep_mem].
Qed.

(** ** Removing *)

(** The position of the first element that is hit; [k] counts from the front. *)
Fixpoint find_hit (hit : Z -> nat -> bool) (k : nat) (es : list Z) : option nat :=
  match es with
  | [] => None
  | e :: es' => if hit e k then Some 0%nat else Datatypes.S <$> find_hit hit (Datatypes.S k) es'
  end.

Lemma remove_walk_chain m hit fuel k last p ps es : chain (km_nodes m) p ps es -> (length es < fuel)%nat ->
  ∃ la q, remove_walk fuel m hit k last p = Some (la, q) ∧
    match find_hit hit k es with
    | None => q = 0
    | Some i => ps !! i = Some q ∧ match i with O => la = last | S j => ps !! j = Some la end
    end.
Proof.
  intros Hch. revert fuel k last. induction Hch as [|p e nx ps es Hp Hni Hl Hch IH]; intros fuel k last Hf.
  - destruct fuel; [lia|]. simpl. eauto.
  - destruct fuel as [|fuel]; [simpl in Hf; lia|]. cbn [remove_walk]. rewrite (proj2 (Z.eqb_neq p 0)), Hl by done.
    cbn [mbind option_bind element next find_hit]. destruct (hit e k); [eexists _, _; split; [done|]; done|].
    destruct (IH fuel (Datatypes.S k) p) as (la & q & Hw & Hres); [simpl in Hf; lia|]. exists la, q. split; [done|].
    destruct (find_hit hit (Datatypes.S k) es) as [i|]; [|done]. destruct Hres as [Hq Hla]. split; [done|].
    destruct i; simpl in *; [by subst|done].
Qed.

(** Taking a node out of the chain. *)
Lemma chain_unlink ns p ps es i q e nx : chain ns p ps es -> ps !! i = Some q -> ns !! q = Some (Node e nx) ->
  es !! i = Some e ∧
  match i with
  | O => q = p ∧ chain (delete q ns) nx (delete 0%nat ps) (delete 0%nat es)
  | S j => ∃ la ea na, ps !! j = Some la ∧ la ≠ 0 ∧ la ≠ q ∧ ns !! la = Some (Node ea na) ∧
             chain (delete q (<[la := Node ea nx]> ns)) p (delete i ps) (delete i es)
  end.
Proof.
  intros Hch. revert i. induction Hch as [|p e' nx' ps es Hp Hni Hl Hch IH]; intros i Hi Hq; [done|].
  destruct i as [|i]; simpl in Hi.
  { simplify_eq. split_and!; [done|done|]. eapply chain_other; [exact Hch|]. intros q' Hq'.
    rewrite lookup_delete_ne; [done|]. by intros ->. }
  destruct (IH i Hi Hq) as [He Hrest]. split; [done|].
  assert (Hpq : p ≠ q). { intros ->. apply Hni. by eapply list_elem_of_lookup_2. }
  assert (Hdel : p ∉ delete i ps). { intros Hin. apply Hni. by eapply list_elem_of_delete_inv. }
  destruct i as [|j].
  - destruct Hrest as [-> Hch']. exists p, e', nx'. split_and!; [done|done|done|done|].
    simpl. econstructor; [done|done|by rewrite lookup_delete_ne, lookup_insert_eq|].
    eapply chain_other; [exact Hch'|]. intros q' Hq'. destruct (decide (q' = nx')) as [->|].
    + by rewrite !lookup_delete_eq.
    + rewrite !lookup_delete_ne, lookup_insert_ne; [done| |done|done]. intros ->. done.
  - destruct Hrest as (la & ea & na & Hla & Hl0 & Hlq & Hnl & Hch'). exists la, ea, na. split_and!; [done|done|done|done|].
    simpl. econstructor; [done|done| |exact Hch'].
    rewrite lookup_delete_ne, lookup_insert_ne; [done| |done]. intros ->. apply Hni. by eapply list_elem_of_lookup_2.
Qed.

Lemma unlink_node_spec m l ps es i la q : kl_ok m l ps es -> ps !! i = Some q ->
  match i with O => la = 0 | S j => ps !! j = Some la end ->
  ∃ e m' first last, unlink_node la q m l = Some (e, m', with_chain l (ll_number_of_elements l) first last) ∧
    es !! i = Some e ∧ mem_ok m' ∧ km_next m' = km_next m ∧ km_do_malloc m' = km_do_malloc m ∧ chain (km_nodes m') first (delete i ps) (delete i es) ∧
    ∀ q', q' ∉ ps -> km_nodes m' !! q' = km_nodes m !! q'.
Proof.
  intros H Hq Hla. pose proof (kl_chain _ _ _ _ H) as Hch.
  assert (Hin : q ∈ ps) by by eapply list_elem_of_lookup_2.
  destruct (chain_nodes _ _ _ _ _ Hch Hin) as [Hq0 [[e nx] Hn]].
  destruct (chain_unlink _ _ _ _ _ _ _ _ Hch Hq Hn) as [He Hrest]. destruct (kl_mem _ _ _ _ H) as [Hpos Hbd].
  unfold unlink_node. rewrite Hn. cbn [mbind option_bind]. destruct i as [|j].
  - subst la. cbn [Z.eqb]. destruct Hrest as [_ Hch']. eexists _, _, _, _. split; [done|]. split_and!; [done| |done|done|exact Hch'|].
    + split; [done|]. simpl. intros p n [_ Hp]%lookup_delete_Some. eauto.
    + simpl. intros q' Hq'. rewrite lookup_delete_ne; [done|]. by intros ->.
  - destruct Hrest as (la' & ea & na & Hla' & Hl0 & Hlq & Hnl & Hch'). assert (la' = la) as -> by congruence.
    rewrite (proj2 (Z.eqb_neq la 0)), Hnl by done. cbn [mbind option_bind element next].
    eexists _, _, _, _. split; [done|]. split_and!; [done| |done|done|exact Hch'|].
    + split; [done|]. simpl. intros p n [_ [[<- _]|[_ Hp]]%lookup_insert_Some]%lookup_delete_Some; eauto.
    + simpl. intros q' Hq'. rewrite lookup_delete_ne, lookup_insert_ne; [done| |]; intros ->; [|done].
      apply Hq'. by eapply list_elem_of_lookup_2.
Qed.

(** What a removal leaves: the list without the element that is hit first. *)
Definition removed (m : kmem) (l : list_struct) (ps es : list Z) (hit : Z -> nat -> bool) (out : option (Z * kmem * list_struct)) : Prop :=
  match find_hit hit 0 es with
  | None => out = Some (0, m, l)
  | Some i => ∃ e m' l', out = Some (e, m', l') ∧ es !! i = Some e ∧ ll_index_mode l' = NOT_INDEXED ∧ lstep m l ps m' l' (delete i ps) (delete i es)
  end.

Lemma remove_body_spec m l ps es hit : kl_ok m l ps es -> removed m l ps es hit (remove_body hit m l).
Proof.
  intros H. unfold remove_body, removed. pose proof (kl_chain _ _ _ _ H) as Hch.
  destruct (remove_walk_chain m hit (Datatypes.S (size (km_nodes m))) 0 0 _ _ _ Hch) as (la & q & Hw & Hres).
  { rewrite <- (chain_nodes_length _ _ _ _ Hch). pose proof (chain_size _ _ _ _ Hch). lia. }
  rewrite (lbind_run _ _ m l (la, q) m l) by by rewrite Hw.
  destruct (find_hit hit 0 es) as [i|]; [|by subst q]. destruct Hres as [Hq Hla].
  assert (Hq0 : q ≠ 0) by (eapply chain_nodes; [exact Hch|by eapply list_elem_of_lookup_2]).
  rewrite (proj2 (Z.eqb_neq q 0)) by done.
  destruct (unlink_node_spec m l ps es i la q H Hq Hla) as (e & m1 & first & last & Hu & He & Hm1 & Hnx & Hmal & Hch1 & Hoth).
  rewrite (lbind_run _ _ _ _ _ _ _ Hu).
  rewrite (lbind_run _ _ _ _ _ _ _ (cleanup_index_run m1 (with_chain l (ll_number_of_elements l) first last) es (kl_primary _ _ _ _ H))).
  assert (Hperm : es ≡ₚ e :: delete i es) by by apply delete_Permutation.
  assert (Hlen : length es = Datatypes.S (length (delete i es))) by by rewrite Hperm at 1.
  pose proof (kl_number _ _ _ _ H) as Hnum.
  destruct (all_indexes_spec (Z.of_nat (length es)) _ _ _ m1 (with_index (with_chain l (ll_number_of_elements l) first last) NOT_INDEXED None)
    (delete_resize es e (delete i es) (kl_bound _ _ _ _ H) Hperm) Hnum (kl_slots _ _ _ _ H)) as (m2 & ixs & Hr & Hle & Hsl).
  pose proof (kl_bound _ _ _ _ H) as Hbd.
  rewrite (lbind_run _ _ _ _ _ _ _ Hr). lrun. eexists _, _, _. split; [done|]. split; [done|]. split; [done|]. split.
  - split; simpl; [by rewrite (ml_nodes _ _ Hle)| |lia|by eapply mem_le_ok| |done|done].
    + rewrite Hnum, swrap_id by (unfold in_s; lia). lia.
    + destruct H as [_ _ _ _ [] _ _]. by split.
  - done.
  - pose proof (ml_next _ _ Hle). lia.
  - intros q' _ Hq'. rewrite (ml_nodes _ _ Hle). by apply Hoth.
  - intros q' Hq'. left. by eapply list_elem_of_delete_inv.
  - by rewrite (ml_malloc _ _ Hle).
Qed.

(** ** Appending *)

(** The last node is known. It is not after an insertion into an empty list at the front:
    see [front_then_end_faults]. *)
Definition end_ok (l : list_struct) (ps : list Z) : Prop := ll_last_element l = default 0 (list.last ps).

(** No alternate index is up to date: insert_at_end does not update them, see
    [end_stale_index_faults]. *)
Definition indexes_idle (l : list_struct) : Prop := slots (slot_shape (λ _ _, False)) l.

Lemma idle_slots l es : indexes_idle l -> slots (slot_ok es) l.
Proof.
  unfold indexes_idle, slots. destruct (ll_indexes l) as [ixs|]; [|done]. intros (? & ? & HF). split_and!; [done|done|].
  eapply Forall_impl; [|exact HF]. intros [ix|]; [|done]. intros (c & Hc & Ho & HU). exists c. split_and!; [done|done|].
  intros Hs. by destruct (HU Hs).
Qed.

Lemma chain_snoc ns p ps es la q x : chain ns p ps es -> list.last ps = Some la -> q ≠ 0 -> q ∉ ps ->
  ∃ ea, ns !! la = Some (Node ea 0) ∧ chain (<[q := Node x 0]> (<[la := Node ea q]> ns)) p (ps ++ [q]) (es ++ [x]).
Proof.
  intros Hch Hla Hq Hni. induction Hch as [|p e nx ps es Hp Hnp Hn Hch IH]; [done|].
  rewrite not_elem_of_cons in Hni. destruct Hni as [Hqp Hni].
  destruct ps as [|p2 ps2].
  - injection Hla as <-. inversion Hch; subst. exists e. split; [done|]. simpl.
    econstructor; [done|rewrite list_elem_of_singleton; congruence|by rewrite lookup_insert_ne, lookup_insert_eq|].
    econstructor; [done|apply not_elem_of_nil|by rewrite lookup_insert_eq|constructor].
  - destruct (IH Hla Hni) as (ea & Hea & Hch'). exists ea. split; [done|]. simpl.
    econstructor; [done| | |exact Hch'].
    + change (p ∉ (p2 :: ps2) ++ [q]). rewrite not_elem_of_app, list_elem_of_singleton. split; [done|congruence].
    + rewrite lookup_insert_ne, lookup_insert_ne; [done| |done]. intros ->. apply Hnp. by apply last_Some_elem_of.
Qed.

Lemma add_at_end_spec m l ps es x : kl_ok m l ps es -> end_ok l ps ->
  ∃ p m', add_abs_node_at_end m x (ll_last_element l) = Some (p, m') ∧
    (p = 0 ∧ mem_le m m' ∧ no_memory m ∨
     p ≠ 0 ∧ (p ∉ ps) ∧ km_next m <= p < km_next m' ∧ mem_ok m' ∧ km_do_malloc m' = km_do_malloc m ∧
     chain (km_nodes m') (if ll_first_element l =? 0 then p else ll_first_element l) (ps ++ [p]) (es ++ [x]) ∧
     ∀ q, q < km_next m -> q ∉ ps -> km_nodes m' !! q = km_nodes m !! q).
Proof.
  intros H Hend. pose proof (kl_chain _ _ _ _ H) as Hch. destruct (kl_mem _ _ _ _ H) as [Hpos Hb].
  unfold add_abs_node_at_end, request. destruct (km_do_malloc m (km_allocs m)) eqn:Hg.
  2:{ eexists _, _. split; [done|]. left. split_and!; [done|split; simpl; [done|lia|done]|done]. }
  assert (Hni : km_next m ∉ ps).
  { intros Hin. destruct (chain_nodes _ _ _ _ _ Hch Hin) as [_ [n Hn]]. specialize (Hb _ _ Hn). lia. }
  unfold end_ok in Hend. destruct (list.last ps) as [la|] eqn:Hla.
  - destruct (chain_snoc _ _ _ _ la (km_next m) x Hch Hla) as (ea & Hea & Hch'); [lia|done|].
    assert (Hlain : la ∈ ps) by by apply last_Some_elem_of. pose proof (chain_nodes _ _ _ _ _ Hch Hlain) as [Hl0 _].
    pose proof (Hb _ _ Hea) as Hlab.
    rewrite Hend. simpl. rewrite (proj2 (Z.eqb_neq la 0)), Hea by done. cbn [mbind option_bind element].
    eexists _, _. split; [done|]. right. simpl. split_and!; [lia|done|lia|lia| |done| |].
    + split; simpl; [lia|]. intros q n [[<- _]|[_ [[<- _]|[_ Hq]]%lookup_insert_Some]]%lookup_insert_Some; [lia|lia|].
      specialize (Hb _ _ Hq). lia.
    + inversion Hch; subst; [done|]. by rewrite (proj2 (Z.eqb_neq (ll_first_element l) 0)) by done.
    + intros q Hq Hqn. rewrite lookup_insert_ne by lia. rewrite lookup_insert_ne; [done|]. by intros ->.
  - apply last_None in Hla as ->. rewrite Hend. simpl. eexists _, _. split; [done|]. right. simpl.
    inversion Hch as [Hf|]; subst. split_and!; [lia|done|lia|lia| |done| |].
    + split; simpl; [lia|]. intros q n [[<- _]|[_ Hq]]%lookup_insert_Some; [lia|]. specialize (Hb _ _ Hq). lia.
    + simpl. econstructor; [lia|apply not_elem_of_nil|by rewrite lookup_insert_eq|constructor].
    + intros q Hq _. by rewrite lookup_insert_ne by lia.
Qed.

(** Appending to a list whose alternate indexes are idle. *)
Lemma insert_at_end_spec m l ps es x : kl_ok m l ps es -> Z.of_nat (length es) < 2 ^ 28 -> end_ok l ps -> indexes_idle l ->
  ∃ r m' l', insert_at_end_body x m l = Some (r, m', l') ∧ ll_indexes l' = ll_indexes l ∧ ll_index_arr_size l' = ll_index_arr_size l ∧
    (r = 0 ∧ no_memory m ∧ lstep m l ps m' l' ps es ∧ end_ok l' ps ∧ l' = l ∨
     ∃ p, r = x ∧ lstep m l ps m' l' (ps ++ [p]) (es ++ [x]) ∧ end_ok l' (ps ++ [p]) ∧ (flat_order l es -> flat_order l' (es ++ [x])) ∧
       (ll_index_mode l' = SORTED -> ll_index_mode l = SORTED)).
Proof.
  intros H Hb Hend Hidle. unfold insert_at_end_body. lrun. destruct (kl_same _ _ _ _ H) as [Ht Hn Ha He Hc].
  rewrite Ha, Ht, He. destruct (add_at_end_spec m l ps es x H Hend) as (p & m1 & Hadd & Hcase).
  rewrite lbind_assoc, (lbind_lopt _ _ _ _ _ eq_refl), (lbind_run _ _ _ _ _ _ _ (call_add_run _ _ _ _ l _ _ Hadd)).
  destruct Hcase as [(-> & Hle & Hno)|(Hp & Hni & Hrange & Hm1 & Hmal & Hch & Hoth)].
  { change (0 =? 0) with true. cbv iota. lrun. rewrite list_node_data_null by (by apply H). eexists _, _, _. split_and!; [done|done|done|]. left.
    split_and!; [done|done|by apply lstep_mem|done|done]. }
  rewrite (proj2 (Z.eqb_neq p 0)) by done. lrun. pose proof (kl_number _ _ _ _ H) as Hnum.
  set (l1 := with_chain l (swrap 32 (ll_number_of_elements l + 1)) (if ll_first_element l =? 0 then p else ll_first_element l) p).
  list_is l1. change (ll_list_type l1) with (ll_list_type l). rewrite Ht.
  assert (Hn1 : ll_number_of_elements l1 = Z.of_nat (length es) + 1) by (simpl; rewrite Hnum, swrap_id by (unfold in_s; lia); lia).
  assert (Hco : kl_core m1 l1 (ps ++ [p]) (es ++ [x])).
  { split; [exact Hch| | |done|by split|by apply idle_slots]; rewrite length_app; simpl length; lia. }
  assert (Hpr1 : primary_ok l1 es) by exact (kl_primary _ _ _ _ H).
  assert (Hx : es ++ [x] ≡ₚ x :: es) by by rewrite Permutation_app_comm.
  assert (Hfin : ∀ m3 mode a, mem_le m1 m3 -> primary_ok (with_index l1 mode a) (es ++ [x]) ->
    (flat_order l es -> flat_order (with_index l1 mode a) (es ++ [x])) -> mode ≠ SORTED ->
    ∃ r m' l', LIST_NODE_DATA p m3 (with_index l1 mode a) = Some (r, m', l') ∧ ll_indexes l' = ll_indexes l ∧ ll_index_arr_size l' = ll_index_arr_size l ∧
    (r = 0 ∧ no_memory m ∧ lstep m l ps m' l' ps es ∧ end_ok l' ps ∧ l' = l ∨
     ∃ p, r = x ∧ lstep m l ps m' l' (ps ++ [p]) (es ++ [x]) ∧ end_ok l' (ps ++ [p]) ∧ (flat_order l es -> flat_order l' (es ++ [x])) ∧
       (ll_index_mode l' = SORTED -> ll_index_mode l = SORTED))).
  { intros m3 mode a Hle3 Hpr3 Hfl Hmo.
    assert (Hk : kl_ok m3 (with_index l1 mode a) (ps ++ [p]) (es ++ [x])) by (apply kl_build; [by eapply kl_core_index|done]).
    assert (Hnode : km_nodes m3 !! p = Some (Node x 0)).
    { rewrite (ml_nodes _ _ Hle3). unfold add_abs_node_at_end, request in Hadd.
      destruct (km_do_malloc m (km_allocs m)); [|by simplify_eq]. case_match; simplify_option_eq; simpl; by rewrite lookup_insert_eq. }
    rewrite (list_node_data_run p x 0); [|apply Hk|done|done]. eexists _, _, _. split_and!; [done|done|done|]. right.
    exists p. split_and!; [done| |unfold end_ok; by rewrite last_snoc|done|done]. pose proof (ml_next _ _ Hle3).
    split; [done|done|lia| | |by rewrite (ml_malloc _ _ Hle3)].
    - intros q Hq Hqn. rewrite (ml_nodes _ _ Hle3). by apply Hoth.
    - intros q [?|Hq]%elem_of_app; [by left|]. apply list_elem_of_singleton in Hq as ->. right. lia. }
  destruct (is_indexed l1) eqn:Hi.
  - destruct (index_append_spec m1 l1 es x Hpr1 Hi Hn1) as (m3 & mode & a & Hap & Hle3 & Hpa & Hfl & Hmo); [done|].
    rewrite Hnum, (lbind_run _ _ _ _ _ _ _ Hap). apply Hfin; [done|by apply Hpa|intros Hf; by apply Hfl, Hf|done].
  - lrun. apply is_indexed_spec in Hi. unfold primary_ok in Hpr1. rewrite Hi in Hpr1.
    replace l1 with (with_index l1 NOT_INDEXED None) by (rewrite <- Hi, <- Hpr1; done). by apply Hfin.
Qed.
