(* ===== verification/KListIdx.v ===== *)
(** Alternate indexes of the lists of the overlay file system: creating, updating,
    reading and searching them, with the list given. *)
From stdpp Require Import sorting.
From S2P Require Import Prelude KList KListSort KListInv KListOps.
Open Scope Z_scope.

(** The index [id] is up to date, has the function [c] and the array [xs]. *)
Definition index_holds (l : list_struct) (id : Z) (c : comp_func_t) (xs : list Z) : Prop :=
  ∃ ixs ix, ll_indexes l = Some ixs ∧ 1 <= id ∧ ixs !! Z.to_nat (id - 1) = Some (Some ix) ∧
    ix_state ix = KLIST_INDEX__UP_TO_DATE ∧ ix_comp_func ix = Some c ∧ ix_elements ix = Some (cells xs).

(** The slot of an index that exists. *)
Definition index_at (l : list_struct) (id : Z) (ix : klist_index_struct) : Prop :=
  ∃ ixs, ll_indexes l = Some ixs ∧ 1 <= id ∧ ixs !! Z.to_nat (id - 1) = Some (Some ix).

Lemma get_slot_at l id ix m : index_at l id ix -> get_slot id m l = Some (Some ix, m, l).
Proof.
  intros (ixs & Hix & Hid & Hs). unfold get_slot. rewrite Hix. cbn [mbind option_bind].
  by rewrite (proj2 (Z.leb_le 1 id)), Hs by lia.
Qed.

(** Filling a slot. *)
Lemma set_slot_step m m' l ps es ixs id s : kl_ok m l ps es -> ll_indexes l = Some ixs -> 1 <= id <= ll_index_arr_size l ->
  slot_ok es s -> mem_le m m' ->
  let l' := with_indexes l (ll_index_arr_size l) (Some (<[Z.to_nat (id - 1) := s]> ixs)) in
  set_slot id s m' l = Some (tt, m', l') ∧ lstep m l ps m' l' ps es ∧ (∀ ix, s = Some ix -> index_at l' id ix).
Proof.
  intros H Hix Hid Hs Hle l'. pose proof (kl_slots _ _ _ _ H) as Hsl. unfold slots in Hsl. rewrite Hix in Hsl.
  destruct Hsl as (Hsz & Hpos & HF). split_and!; [by apply set_slot_run| |].
  - eapply lstep_trans; [by apply (lstep_mem m m')|]. split; [|done|lia|done|by left|done].
    destruct (kl_ok_mem _ _ _ _ _ Hle H) as [? ? ? ? [] ? ?]. split; [done|done|done|done|by split|done|].
    unfold slots. simpl. rewrite length_insert. split_and!; [done|done|]. by apply Forall_insert.
  - intros ix ->. eexists. split_and!; [done|lia|]. apply list_lookup_insert_eq. lia.
Qed.

Lemma index_at_range m l ps es id ix : kl_ok m l ps es -> index_at l id ix -> 1 <= id <= ll_index_arr_size l.
Proof.
  intros H (ixs & Hix & Hid & Hs). pose proof (kl_slots _ _ _ _ H) as Hsl. unfold slots in Hsl. rewrite Hix in Hsl.
  apply lookup_lt_Some in Hs. lia.
Qed.

Lemma index_at_ok m l ps es id ix : kl_ok m l ps es -> index_at l id ix -> slot_ok es (Some ix).
Proof.
  intros H (ixs & Hix & _ & Hs). pose proof (kl_slots _ _ _ _ H) as Hsl. unfold slots in Hsl. rewrite Hix in Hsl.
  destruct Hsl as (_ & _ & HF). by eapply Forall_lookup_1 in HF.
Qed.

(** Updating: the array is sorted again, or there is no memory, or nothing to sort. *)
Lemma update_alt_index_spec m l ps es id ix c : kl_ok m l ps es -> index_at l id ix -> ix_comp_func ix = Some c ->
  ix_state ix = KLIST_INDEX__NEEDS_UPDATE ->
  ∃ r ix' m' l', update_alt_index id m l = Some (r, m', l') ∧ lstep m l ps m' l' ps es ∧ index_at l' id ix' ∧
    ix_comp_func ix' = Some c ∧
    (r = - ENOMEM ∧ no_memory m ∨ r = 0 ∧ es = [] ∧ ix_elements ix' = None ∨
     r = 0 ∧ es ≠ [] ∧ ix_state ix' = KLIST_INDEX__UP_TO_DATE ∧ ∃ xs, ix_elements ix' = Some (cells xs) ∧ xs ≡ₚ es ∧ sorted_by c xs).
Proof.
  intros H Hat Hc Hst. pose proof (index_at_ok _ _ _ _ _ _ H Hat) as (c' & Hc' & Ho & _).
  assert (c' = c) as -> by congruence. pose proof (index_at_range _ _ _ _ _ _ H Hat) as Hid.
  unfold update_alt_index. rewrite (lbind_run _ _ _ _ _ _ _ (get_slot_at l id ix m Hat)). lrun.
  rewrite (lbind_lopt _ _ _ _ _ eq_refl). lrun. rewrite (kl_number _ _ _ _ H).
  destruct Hat as (ixs & Hix & _).
  assert (Hnone : slot_ok es (Some (set_ix_elements ix None))).
  { exists c. split_and!; [done|done|]. simpl. by rewrite Hst. }
  destruct (Z.eqb_spec (Z.of_nat (length es)) 0) as [E|E].
  { destruct (set_slot_step m m l ps es ixs id (Some (set_ix_elements ix None)) H Hix Hid Hnone) as (Hr & Hls & Hin); [done|].
    rewrite (lbind_run _ _ _ _ _ _ _ Hr). eexists _, _, _, _. split_and!; [done|done|by apply Hin|done|].
    right. left. split_and!; [done|by apply nil_length_inv; lia|done]. }
  destruct (make_index_spec m l ps es H) as (r & m1 & Hr & Hle & Hcase). rewrite (lbind_run _ _ _ _ _ _ _ Hr).
  destruct Hcase as [[-> Hno]| ->].
  { destruct (set_slot_step m m1 l ps es ixs id (Some (set_ix_elements ix None)) H Hix Hid Hnone Hle) as (Hr2 & Hls & Hin).
    rewrite (lbind_run _ _ _ _ _ _ _ Hr2). eexists _, _, _, _. split_and!; [done|done|by apply Hin|done|by left]. }
  destruct (ssort_spec c es) as (ys & Hs & Hp & Hso); [pose proof (kl_bound _ _ _ _ H); lia|].
  rewrite Hc, (lbind_lopt _ _ _ _ _ Hs).
  assert (Hne : es ≠ []) by (intros ->; done).
  assert (Hok : slot_ok es (Some (KIndex (Some c) (ix_flags ix) KLIST_INDEX__UP_TO_DATE (Some (cells ys))))).
  { exists c. split_and!; [done|done|]. intros _. split; [done|]. exists ys. rewrite app_nil_r. done. }
  destruct (set_slot_step m m1 l ps es ixs id _ H Hix Hid Hok Hle) as (Hr2 & Hls & Hin).
  rewrite (lbind_run _ _ _ _ _ _ _ Hr2). eexists _, _, _, _. split_and!; [done|done|by apply Hin|done|].
  right. right. split_and!; [done|done|done|]. by exists ys.
Qed.

(** An index before it is used: it holds a sorted array of the elements. *)
Lemma fresh_index_spec m l ps es id ix : kl_ok m l ps es -> index_at l id ix ->
  ∃ r ix' m' l' c, fresh_index id ix m l = Some ((r, ix'), m', l') ∧ lstep m l ps m' l' ps es ∧
    ix_comp_func ix = Some c ∧ ix_comp_func ix' = Some c ∧ comp_order c ∧
    (r = - ENOMEM ∧ no_memory m ∧ ix_state ix = KLIST_INDEX__NEEDS_UPDATE ∨ r = 0 ∧ es = [] ∧ ix_elements ix' = None ∨
     r = 0 ∧ ∃ xs, ix_elements ix' = Some (cells xs) ∧ xs ≡ₚ es ∧ sorted_by c xs ∧ index_holds l' id c xs ∧
       ∀ ys, index_holds l id c ys -> ys = xs).
Proof.
  intros H Hat. pose proof (index_at_ok _ _ _ _ _ _ H Hat) as (c & Hc & Ho & HU). unfold fresh_index.
  destruct (decide (ix_state ix = KLIST_INDEX__UP_TO_DATE)) as [Hst|Hst].
  - destruct (HU Hst) as (_ & xs & Hxs & Hp & Hs). rewrite app_nil_r in Hxs. exists 0, ix, m, l, c.
    split_and!; [done|by apply lstep_refl|done|done|done|]. right. right. split; [done|]. exists xs.
    destruct Hat as (ixs & Hix & Hid & Hsl). split_and!; [done|done|done|by exists ixs, ix|].
    intros ys (ixs' & ix' & Hix' & _ & Hs' & _ & _ & Hys). rewrite Hix in Hix'. injection Hix' as <-.
    rewrite Hsl in Hs'. injection Hs' as <-. rewrite Hxs in Hys. injection Hys as Hys.
    by apply cells_inj.
  - assert (Hn : ix_state ix = KLIST_INDEX__NEEDS_UPDATE) by by destruct (ix_state ix).
    destruct (update_alt_index_spec m l ps es id ix c H Hat Hc Hn) as (r & ix' & m' & l' & Hr & Hls & Hat' & Hc' & Hcase).
    rewrite (lbind_run _ _ _ _ _ _ _ Hr), (lbind_run _ _ _ _ _ _ _ (get_slot_at l' id ix' m' Hat')), (lbind_lopt _ _ _ _ _ eq_refl).
    exists r, ix', m', l', c. split_and!; [done|done|done|done|done|].
    destruct Hcase as [[-> ?]|[?|(-> & _ & Hup & xs & Hxs & Hp & Hs)]]; [by left|by right; left|]. right. right. split; [done|].
    exists xs. destruct Hat' as (ixs' & Hix' & Hid & Hsl'). split_and!; [done|done|done|by exists ixs', ix'|].
    destruct Hat as (ixs & Hix & _ & Hsl). intros ys (ixs2 & ix2 & Hix2 & _ & Hs2 & Hup2 & _). rewrite Hix in Hix2. injection Hix2 as <-.
    congruence.
Qed.

(** ** Reading and searching *)
Lemma read_index_spec m l ps es id nth ix : kl_ok m l ps es -> index_at l id ix -> 1 <= nth <= Z.of_nat (length es) ->
  ∃ r m' l', read_index_body id nth m l = Some (r, m', l') ∧ lstep m l ps m' l' ps es ∧
    (r = (- ENOMEM, None) ∧ no_memory m ∧ ix_state ix = KLIST_INDEX__NEEDS_UPDATE ∨
     ∃ c xs e, ix_comp_func ix = Some c ∧ r = (0, Some e) ∧ xs ≡ₚ es ∧ sorted_by c xs ∧ xs !! Z.to_nat (nth - 1) = Some e ∧
       index_holds l' id c xs ∧ ∀ ys, index_holds l id c ys -> ys = xs).
Proof.
  intros H Hat Hn. unfold read_index_body. lrun. pose proof (index_at_range _ _ _ _ _ _ H Hat) as Hid.
  rewrite (kl_number _ _ _ _ H), (proj2 (Z.ltb_ge id 1)), (proj2 (Z.ltb_ge (ll_index_arr_size l) id)), (proj2 (Z.ltb_ge nth 1)),
    (proj2 (Z.ltb_ge (Z.of_nat (length es)) nth)) by lia. cbn [orb].
  rewrite (lbind_run _ _ _ _ _ _ _ (get_slot_at l id ix m Hat)).
  destruct (fresh_index_spec m l ps es id ix H Hat) as (r & ix' & m' & l' & c & Hr & Hls & Hc & Hc' & Ho & Hcase).
  rewrite (lbind_run _ _ _ _ _ _ _ Hr). destruct Hcase as [(-> & Hno & Hst)|[(-> & -> & _)|(-> & xs & Hxs & Hp & Hs & Hh & Hu)]].
  - eexists _, _, _. split_and!; [done|done|by left].
  - simpl in Hn. lia.
  - assert (Hlen : length xs = length es) by by rewrite Hp. cbn [Z.eqb negb]. rewrite Hxs, (lbind_lopt _ _ _ _ _ eq_refl).
    destruct (lookup_lt_is_Some_2 xs (Z.to_nat (nth - 1))) as [e He]; [lia|].
    rewrite (lbind_lopt _ _ e) by (rewrite aget_cells by lia; done).
    eexists _, _, _. split_and!; [done|done|]. right. exists c, xs, e. done.
Qed.

Lemma search_index_spec m l ps es id v ix : kl_ok m l ps es -> index_at l id ix ->
  ∃ r m' l' c, search_index_body id v m l = Some (r, m', l') ∧ lstep m l ps m' l' ps es ∧ ix_comp_func ix = Some c ∧
    (r = (- ENOMEM, None) ∧ no_memory m ∧ ix_state ix = KLIST_INDEX__NEEDS_UPDATE ∨
     r = (- ENOENT, None) ∧ Forall (λ e, c v e ≠ 0) es ∧ (es = [] ∨ ∃ xs, index_holds l' id c xs) ∨
     ∃ xs pos e, r = (0, Some (pos + 1)) ∧ 0 <= pos ∧ index_holds l' id c xs ∧ xs ≡ₚ es ∧ sorted_by c xs ∧
       xs !! Z.to_nat pos = Some e ∧ c v e = 0).
Proof.
  intros H Hat. unfold search_index_body, valid_slot. lrun. pose proof (index_at_range _ _ _ _ _ _ H Hat) as Hid.
  rewrite (proj2 (Z.ltb_ge id 1)), (proj2 (Z.ltb_ge (ll_index_arr_size l) id)) by lia. cbn [orb].
  rewrite (lbind_run _ _ _ _ _ _ _ (get_slot_at l id ix m Hat)).
  destruct (fresh_index_spec m l ps es id ix H Hat) as (r & ix' & m' & l' & c & Hr & Hls & Hc & Hc' & Ho & Hcase).
  rewrite (lbind_run _ _ _ _ _ _ _ Hr). pose proof (ls_ok _ _ _ _ _ _ _ Hls) as H'.
  destruct Hcase as [(-> & Hnm)|[(-> & -> & Hno)|(-> & xs & Hxs & Hp & Hs & Hh & Hu)]]; cbn [Z.eqb negb].
  - eexists _, _, _, c. split_and!; [done|done|done|by left].
  - lrun. rewrite Hno. rewrite (lbind_lopt _ _ None) by done.
    eexists _, _, _, c. split_and!; [done|done|done|]. right. left. split_and!; [done|constructor|by left].
  - lrun. assert (Hlen : length xs = length es) by by rewrite Hp. rewrite (kl_number _ _ _ _ H'), Hxs, Hc', <- Hlen.
    destruct (bsearch_spec c v xs) as (b & Hb & Hres); [rewrite Hlen; apply H|by apply (sorted_falling c)|].
    rewrite (lbind_lopt _ _ _ _ _ Hb). destruct b as [pos|].
    + destruct Hres as (e & Hpos & He & Hce). eexists _, _, _, c. split_and!; [done|done|done|]. right. right. exists xs, pos, e. done.
    + eexists _, _, _, c. split_and!; [done|done|done|]. right. left. split_and!; [done|by rewrite <- Hp|right; by exists xs].
Qed.

(** ** Creating and dropping *)
Lemma free_slot_spec ixs i : let id := free_slot ixs (Z.of_nat i + 1) in
  Z.of_nat i + 1 <= id <= Z.of_nat (i + length ixs) + 1 ∧
  (id <= Z.of_nat (i + length ixs) -> ixs !! Z.to_nat (id - Z.of_nat i - 1) = Some None).
Proof.
  revert i. induction ixs as [|[ix|] ixs IH]; intros i; simpl.
  - split; lia.
  - specialize (IH (Datatypes.S i)). replace (Z.of_nat (Datatypes.S i) + 1) with (Z.of_nat i + 1 + 1) in IH by lia.
    destruct IH as [IH1 IH2]. set (id := free_slot ixs (Z.of_nat i + 1 + 1)) in *. split; [lia|]. intros Hle.
    replace (Z.to_nat (id - Z.of_nat i - 1)) with (Datatypes.S (Z.to_nat (id - Z.of_nat (Datatypes.S i) - 1))) by lia.
    apply IH2. lia.
  - split; [lia|]. intros _. by replace (Z.to_nat (Z.of_nat i + 1 - Z.of_nat i - 1)) with 0%nat by lia.
Qed.

Lemma with_slots_step m m' l ps es n ixs : kl_ok m l ps es -> mem_le m m' -> slots (slot_ok es) (with_indexes l n ixs) ->
  lstep m l ps m' (with_indexes l n ixs) ps es.
Proof.
  intros H Hle Hs. eapply lstep_trans; [by apply (lstep_mem m m')|]. split; [|done|lia|done|by left|done].
  destruct (kl_ok_mem _ _ _ _ _ Hle H) as [? ? ? ? [] ? ?]. split; [done|done|done|done|by split|done|done].
Qed.

Lemma new_slot_spec m l ps es : kl_ok m l ps es ->
  ∃ r m' l', new_slot m l = Some (r, m', l') ∧ lstep m l ps m' l' ps es ∧
    match r with
    | None => True
    | Some id => 1 <= id <= ll_index_arr_size l' ∧ ∃ ixs, ll_indexes l' = Some ixs ∧ ixs !! Z.to_nat (id - 1) = Some None
    end.
Proof.
  intros H. unfold new_slot. lrun. pose proof (kl_slots _ _ _ _ H) as Hs. unfold slots in Hs.
  destruct (ll_indexes l) as [ixs|] eqn:Hix.
  - destruct Hs as (Hsz & Hpos & HF). rewrite (proj2 (Z.eqb_neq _ 0)), (lbind_lopt _ _ _ _ _ eq_refl) by lia.
    pose proof (free_slot_spec ixs 0) as [Hr Hsl]. change (Z.of_nat 0 + 1) with 1 in *. revert Hr Hsl. generalize (free_slot ixs 1) as id. intros id Hr Hsl.
    destruct (Z.leb_spec id (ll_index_arr_size l)).
    + eexists _, _, _. split; [done|]. split; [by apply lstep_refl|]. split; [simpl in *; lia|]. exists ixs. split; [done|].
      replace (id - 1) with (id - 0 - 1) by lia. apply Hsl. lia.
    + destruct (do_kmalloc_le m l) as (r & m' & Hr' & Hle). rewrite (lbind_run _ _ _ _ _ _ _ Hr'). destruct r; lrun.
      2:{ eexists _, _, _. split_and!; [done|by apply lstep_mem|done]. }
      eexists _, _, _. split; [done|]. split.
      { apply with_slots_step; [done|done|]. unfold slots. simpl. rewrite length_app. simpl. split_and!; [lia|lia|].
        apply Forall_app. split; [done|by repeat constructor]. }
      simpl. split; [lia|]. eexists. split; [done|]. rewrite Hsz, Z.add_simpl_r, Nat2Z.id. by apply list_lookup_middle.
  - rewrite Hs. destruct (do_malloc_le m l) as (r & m' & Hr & Hle). cbn [Z.eqb]. rewrite (lbind_run _ _ _ _ _ _ _ Hr).
    destruct r; lrun; eexists _, _, _; (split; [done|]); (split; [apply with_slots_step; [done|done|]|]); simpl; try done.
    + unfold slots. simpl. split_and!; [done|lia|by repeat constructor].
    + split; [lia|]. by exists [None].
Qed.

Lemma add_index_spec m l ps es c flags : kl_ok m l ps es -> comp_order c ->
  ∃ r m' l', add_index_body c flags m l = Some (r, m', l') ∧ lstep m l ps m' l' ps es ∧
    (r = (- ENOMEM, None) ∨ ∃ id ix, r = (0, Some id) ∧ index_at l' id ix ∧ ix_comp_func ix = Some c).
Proof.
  intros H Ho. unfold add_index_body. destruct (new_slot_spec m l ps es H) as (r & m1 & l1 & Hr & Hst & Hslot).
  rewrite (lbind_run _ _ _ _ _ _ _ Hr). destruct r as [id|]; [|eexists _, _, _; split_and!; [done|done|by left]].
  destruct (do_malloc_le m1 l1) as (r2 & m2 & Hr2 & Hle). rewrite (lbind_run _ _ _ _ _ _ _ Hr2).
  destruct r2; [|eexists _, _, _; (split_and!; [done| |by left]); eapply lstep_trans; [exact Hst|apply lstep_mem; [done|apply Hst]]].
  destruct Hslot as (Hid & ixs & Hix & _).
  destruct (set_slot_step m1 m2 l1 ps es ixs id (Some (KIndex (Some c) flags KLIST_INDEX__NEEDS_UPDATE None))) as (Hr3 & Hst3 & Hin);
    [apply Hst|done|done|by exists c|done|].
  rewrite (lbind_run _ _ _ _ _ _ _ Hr3). specialize (Hin _ eq_refl).
  destruct (update_alt_index_spec m2 _ ps es id _ c (ls_ok _ _ _ _ _ _ _ Hst3) Hin eq_refl eq_refl) as (r4 & ix' & m4 & l4 & Hr4 & Hst4 & Hat & Hc & _).
  rewrite (lbind_run _ _ _ _ _ _ _ Hr4). eexists _, _, _. split_and!; [done| |right; eauto].
  eapply lstep_trans; [exact Hst|]. by eapply lstep_trans.
Qed.

Lemma change_index_sort_spec m l ps es id c ix : kl_ok m l ps es -> index_at l id ix -> comp_order c ->
  ∃ m' l' ix', change_index_sort_body id (Some c) m l = Some ((0, tt), m', l') ∧ lstep m l ps m' l' ps es ∧
    index_at l' id ix' ∧ ix_comp_func ix' = Some c.
Proof.
  intros H Hat Ho. unfold change_index_sort_body, valid_slot. lrun. pose proof (index_at_range _ _ _ _ _ _ H Hat) as Hid.
  rewrite (proj2 (Z.ltb_ge id 1)), (proj2 (Z.ltb_ge (ll_index_arr_size l) id)) by lia. cbn [orb].
  rewrite (lbind_run _ _ _ _ _ _ _ (get_slot_at l id ix m Hat)). destruct Hat as (ixs & Hix & _).
  destruct (set_slot_step m m l ps es ixs id (Some (KIndex (Some c) (ix_flags ix) KLIST_INDEX__NEEDS_UPDATE (ix_elements ix)))) as (Hr & Hst & Hin);
    [done|done|done|by exists c|done|].
  rewrite (lbind_run _ _ _ _ _ _ _ Hr). specialize (Hin _ eq_refl). destruct (Z.land _ _ =? 0).
  - destruct (update_alt_index_spec m _ ps es id _ c (ls_ok _ _ _ _ _ _ _ Hst) Hin eq_refl eq_refl) as (r4 & ix' & m4 & l4 & Hr4 & Hst4 & Hat & Hc & _).
    rewrite (lbind_run _ _ _ _ _ _ _ Hr4). eexists _, _, _. split_and!; [done|by eapply lstep_trans|done|done].
  - eexists _, _, _. split_and!; [done|done|done|done].
Qed.

Lemma drop_slot_spec m l ps es id ix : kl_ok m l ps es -> index_at l id ix ->
  ∃ l', __drop_index id m l = Some (tt, m, l') ∧ lstep m l ps m l' ps es.
Proof.
  intros H Hat. unfold __drop_index. rewrite (lbind_run _ _ _ _ _ _ _ (get_slot_at l id ix m Hat)).
  pose proof (index_at_range _ _ _ _ _ _ H Hat) as Hid. destruct Hat as (ixs & Hix & _).
  destruct (set_slot_step m m l ps es ixs id None H Hix Hid) as (Hr & Hst & _); [done|done|]. eauto.
Qed.
