(* ===== verification/KListThm.v ===== *)
(** The lists of the overlay file system as other modules use them: fifteen operations of
    an abstract list implement the operations on the sequence of its elements, and the
    alternate indexes read as sorted sequences. *)
From stdpp Require Import sorting.
From S2P Require Import Prelude KList KListSort KListInv KListOps KListIdx.
Open Scope Z_scope.

(** ** The lock *)

(** The list while its lock is held by the automatic locking, and after. *)
Definition lock_view (l : list_struct) : list_struct :=
  if ll_auto_lock l then with_lock l (ll_auto_lock l) (ll_sem l - 1) else l.
Definition unlock_view (l : list_struct) : list_struct :=
  if ll_auto_lock l then with_lock l (ll_auto_lock l) (ll_sem l + 1) else l.

(** Nobody holds the lock. *)
Definition lock_free (l : list_struct) : Prop := ll_auto_lock l = true -> ll_sem l = 1.

Lemma kl_ok_lock m l ps es a s : kl_ok m l ps es -> kl_ok m (with_lock l a s) ps es.
Proof. intros [? ? ? ? [] ? ?]. split; try done; by split. Qed.

Lemma kl_ok_lock_view m l ps es : kl_ok m l ps es -> kl_ok m (lock_view l) ps es.
Proof. unfold lock_view. destruct (ll_auto_lock l); [apply kl_ok_lock|done]. Qed.
Lemma kl_ok_unlock_view m l ps es : kl_ok m l ps es -> kl_ok m (unlock_view l) ps es.
Proof. unfold unlock_view. destruct (ll_auto_lock l); [apply kl_ok_lock|done]. Qed.

Lemma kbind_run {A B} (f : KM A) (g : A -> KM B) s a s' : f s = KRet a s' -> kbind f g s = g a s'.
Proof. unfold kbind. by intros ->. Qed.

Lemma on_list_run {A} p (f : LM A) s l a m' l' : ks_lists s !! p = Some l -> f (ks_mem s) l = Some (a, m', l') ->
  on_list p f s = KRet a (KSt m' (<[p := l']> (ks_lists s)) (ks_signal s)).
Proof. intros Hl Hf. unfold on_list. by rewrite Hl, Hf. Qed.

Lemma get_list_run p s l : ks_lists s !! p = Some l -> get_list p s = KRet l s.
Proof.
  intros Hl. unfold get_list. rewrite (on_list_run p lget s l l (ks_mem s) l Hl eq_refl), insert_id by done. by destruct s.
Qed.

Definition set_list (s : kst) (p : Z) (m : kmem) (l : list_struct) : kst := KSt m (<[p := l]> (ks_lists s)) (ks_signal s).

Lemma auto_lock_run p s l : p ≠ 0 -> ks_lists s !! p = Some l -> lock_free l ->
  klist_auto_lock p s = KRet 0 (set_list s p (ks_mem s) (lock_view l)).
Proof.
  intros Hp Hl Hfree. unfold klist_auto_lock. rewrite (proj2 (Z.eqb_neq p 0)), (kbind_run _ _ _ _ _ (get_list_run p s l Hl)) by done.
  unfold lock_view, lock_free in *. destruct (ll_auto_lock l) eqn:Ha.
  - unfold lock_list, kbind, down_interruptible. rewrite (proj2 (Z.eqb_neq p 0)), Hl, Hfree by done. simpl. by rewrite Ha.
  - unfold kret, set_list. rewrite insert_id by done. by destruct s.
Qed.

Lemma auto_unlock_run p s l : p ≠ 0 -> ks_lists s !! p = Some l ->
  klist_auto_unlock p s = KRet tt (set_list s p (ks_mem s) (unlock_view l)).
Proof.
  intros Hp Hl. unfold klist_auto_unlock. rewrite (proj2 (Z.eqb_neq p 0)), (kbind_run _ _ _ _ _ (get_list_run p s l Hl)) by done.
  unfold unlock_view. destruct (ll_auto_lock l) eqn:Ha.
  - unfold unlock_list, kbind. rewrite (proj2 (Z.eqb_neq p 0)) by done. unfold on_list, lmod. rewrite Hl. unfold kret. by rewrite Ha.
  - unfold kret, set_list. rewrite insert_id by done. by destruct s.
Qed.

(** A function that runs on the list while it is locked. *)
Lemma locked_run {A} p (null fail : A) (f : LM A) s l a m' l' : p ≠ 0 -> ks_lists s !! p = Some l -> lock_free l ->
  f (ks_mem s) (lock_view l) = Some (a, m', l') ->
  locked p null fail (on_list p f) s = KRet a (set_list s p m' (unlock_view l')).
Proof.
  intros Hp Hl Hfree Hf. unfold locked. rewrite (proj2 (Z.eqb_neq p 0)) by done.
  rewrite (kbind_run _ _ _ _ _ (auto_lock_run p s l Hp Hl Hfree)). change (0 <? 0) with false. cbv iota.
  erewrite kbind_run; [|eapply on_list_run; [apply lookup_insert_eq|exact Hf]].
  erewrite kbind_run; [|eapply auto_unlock_run; [done|apply lookup_insert_eq]].
  unfold kret, set_list. simpl. by rewrite !insert_insert_eq.
Qed.

Lemma index_op_run {A} p (d : A) (f : LM (Z * A)) s l a m' l' : p ≠ 0 -> ks_lists s !! p = Some l -> lock_free l ->
  f (ks_mem s) (lock_view l) = Some (a, m', l') ->
  index_op p d f s = KRet a (set_list s p m' (unlock_view l')).
Proof.
  intros Hp Hl Hfree Hf. unfold index_op. rewrite (proj2 (Z.eqb_neq p 0)) by done.
  rewrite (kbind_run _ _ _ _ _ (auto_lock_run p s l Hp Hl Hfree)). change (negb (0 =? 0)) with false. cbv iota.
  erewrite kbind_run; [|eapply on_list_run; [apply lookup_insert_eq|exact Hf]].
  erewrite kbind_run; [|eapply auto_unlock_run; [done|apply lookup_insert_eq]].
  unfold kret, set_list. simpl. by rewrite !insert_insert_eq.
Qed.

(** ** The lists of the module *)

(** The lists at some addresses with their nodes and elements: each is right and not
    locked, and no two share a node. *)
Record world_ok (s : kst) (W : gmap Z (list Z * list Z)) : Prop := {
  wo_mem : mem_ok (ks_mem s);
  wo_list p ps es : W !! p = Some (ps, es) ->
    p ≠ 0 ∧ ∃ l, ks_lists s !! p = Some l ∧ kl_ok (ks_mem s) l ps es ∧ lock_free l;
  wo_apart p q ps es ps' es' n : W !! p = Some (ps, es) -> W !! q = Some (ps', es') -> n ∈ ps -> n ∈ ps' -> p = q;
  wo_next p l : ks_lists s !! p = Some l -> p < km_next (ks_mem s)
}.

(** None of the lists has one of the nodes [ps]. *)
Definition apart (W : gmap Z (list Z * list Z)) (ps : list Z) : Prop :=
  ∀ q ps2 es2 n, W !! q = Some (ps2, es2) -> n ∈ ps2 -> n ∉ ps.

(** A step on one list leaves a list without common nodes alone. *)
Lemma kl_ok_other m l ps m' l' ps' es' l2 ps2 es2 : lstep m l ps m' l' ps' es' -> kl_ok m l2 ps2 es2 -> (∀ n, n ∈ ps2 -> n ∉ ps) ->
  kl_ok m' l2 ps2 es2 ∧ (∀ n, n ∈ ps2 -> n ∉ ps').
Proof.
  intros [Hok Hfr Hnx Hoth Hown _] [H1 H2 H3 H4 H5 H6 H7] Hap.
  assert (Hbelow : ∀ n, n ∈ ps2 -> n < km_next m).
  { intros n Hn. destruct (chain_nodes _ _ _ _ _ H1 Hn) as [_ [nd Hnd]]. by eapply H4. }
  split.
  - split; [|done|done|apply Hok|done|done|done]. eapply chain_other; [exact H1|].
    intros n Hn. apply Hoth; [by apply Hbelow|by apply Hap].
  - intros n Hn Hn'. destruct (Hown n Hn') as [Hin|Hge]; [by apply (Hap n)|]. specialize (Hbelow n Hn). lia.
Qed.

Lemma world_outside s W p l l0 ps m' l' l2 ps' es' : world_ok s W -> W !! p = None -> ks_lists s !! p = Some l -> apart W ps ->
  lstep (ks_mem s) l0 ps m' l' ps' es' -> world_ok (set_list s p m' l2) W ∧ apart W ps'.
Proof.
  intros HW Hp Hl Hap Hst.
  assert (Hother : ∀ q ps2 es2, W !! q = Some (ps2, es2) -> ∃ lq, ks_lists s !! q = Some lq ∧ q ≠ 0 ∧ lock_free lq ∧
    kl_ok m' lq ps2 es2 ∧ (∀ n, n ∈ ps2 -> n ∉ ps')).
  { intros q ps2 es2 Hq. destruct (wo_list _ _ HW _ _ _ Hq) as [Hq0 (lq & Hlq & Hk & Hf)].
    destruct (kl_ok_other _ _ _ _ _ _ _ _ _ _ Hst Hk (λ n Hn, Hap q ps2 es2 n Hq Hn)) as [Hk' Hno]. exists lq. done. }
  split.
  - split.
    + apply Hst.
    + intros q ps2 es2 Hq. destruct (Hother q ps2 es2 Hq) as (lq & Hlq & Hq0 & Hf & Hk & _). split; [done|].
      exists lq. simpl. rewrite lookup_insert_ne by congruence. done.
    + apply (wo_apart _ _ HW).
    + simpl. pose proof (ls_next _ _ _ _ _ _ _ Hst).
      intros q lq [[<- _]|[_ Hq]]%lookup_insert_Some; [pose proof (wo_next _ _ HW _ _ Hl)|pose proof (wo_next _ _ HW _ _ Hq)]; lia.
  - intros q ps2 es2 n Hq Hn. destruct (Hother q ps2 es2 Hq) as (lq & _ & _ & _ & _ & Hno). by apply Hno.
Qed.

Lemma world_add s W p l ps es : world_ok s W -> p ≠ 0 -> ks_lists s !! p = Some l -> kl_ok (ks_mem s) l ps es -> lock_free l ->
  apart W ps -> world_ok s (<[p := (ps, es)]> W).
Proof.
  intros HW Hp Hl Hk Hf Hap. split; [apply HW| | |apply HW].
  - intros q ps2 es2 [[<- [= <- <-]]|[_ Hq]]%lookup_insert_Some; [by eauto|by eapply wo_list].
  - intros q1 q2 ps1 es1 ps2 es2 n [[<- [= <- <-]]|[Hne1 Hq1]]%lookup_insert_Some [[<- [= <- <-]]|[Hne2 Hq2]]%lookup_insert_Some Hn1 Hn2;
      [done| | |by eapply (wo_apart _ _ HW)].
    + exfalso. by eapply (Hap q2).
    + exfalso. by eapply (Hap q1).
Qed.

Lemma world_drop s W p : world_ok s W -> world_ok s (delete p W) ∧ (∀ ps es, W !! p = Some (ps, es) -> apart (delete p W) ps).
Proof.
  intros HW. split.
  - split; [apply HW| | |apply HW].
    + intros q ps es [_ Hq]%lookup_delete_Some. by eapply wo_list.
    + intros q1 q2 ps1 es1 ps2 es2 n [_ H1]%lookup_delete_Some [_ H2]%lookup_delete_Some. by eapply wo_apart.
  - intros ps es Hp q ps2 es2 n [Hne Hq]%lookup_delete_Some Hn Hn'. apply Hne. by eapply (wo_apart _ _ HW p q).
Qed.

Lemma lock_free_step l l' : lock_free l -> kl_frame (lock_view l) l' -> lock_free (unlock_view l').
Proof.
  intros Hfree [Ha Hs _ _]. unfold lock_free, unlock_view, lock_view in *. rewrite Ha.
  destruct (ll_auto_lock l) eqn:E; simpl in *; rewrite ?E in *; [|by rewrite Ha].
  intros _. rewrite Hs. specialize (Hfree eq_refl). lia.
Qed.

(** One list after a step, seen from outside. *)
Lemma world_step s W p ps es l m' l' ps' es' : world_ok s W -> W !! p = Some (ps, es) -> ks_lists s !! p = Some l -> lock_free l ->
  lstep (ks_mem s) (lock_view l) ps m' l' ps' es' ->
  world_ok (set_list s p m' (unlock_view l')) (<[p := (ps', es')]> W).
Proof.
  intros HW Hp Hl Hfree Hst. destruct (wo_list _ _ HW _ _ _ Hp) as [Hp0 _].
  destruct (world_drop s W p HW) as [HW' Hap].
  destruct (world_outside s (delete p W) p l (lock_view l) ps m' l' (unlock_view l') ps' es' HW') as [HW2 Hap2];
    [apply lookup_delete_eq|done|by eapply Hap|done|].
  rewrite <- insert_delete_eq. eapply world_add; [done|done|apply lookup_insert_eq| | |done].
  - apply kl_ok_unlock_view, Hst.
  - eapply lock_free_step; [done|apply Hst].
Qed.

(** ** The operations *)
Inductive lop :=
  | LInsert (x : Z) | LInsertSorted (x : Z) | LInsertEnd (x : Z)
  | LRemove (v : Z) | LRemoveNth (n : Z) | LRemoveNode (x : Z)
  | LSort | LNth (n : Z) | LSearch (v : Z) | LFirst
  | LAddIndex (c : comp_func_t) (flags : Z) | LDropIndex (id : Z)
  | LReadIndex (id n : Z) | LSearchIndex (id v : Z) | LChangeSort (id : Z) (c : comp_func_t).

Definition simple (f : KM Z) : KM (Z * option Z) := kbind f (λ r, kret (r, None)).

Definition run_lop (p : Z) (op : lop) : KM (Z * option Z) :=
  match op with
  | LInsert x => simple (insert_into_list p x)
  | LInsertSorted x => simple (insert_into_list_sorted p x)
  | LInsertEnd x => simple (insert_at_end p x)
  | LRemove v => simple (remove_element p v)
  | LRemoveNth n => simple (remove_nth p n)
  | LRemoveNode x => simple (remove_node p x)
  | LSort => simple (sort_list p)
  | LNth n => simple (nth_element p n)
  | LSearch v => simple (search_for_element p v)
  | LFirst => simple (first_element p)
  | LAddIndex c flags => add_index p (Some c) flags
  | LDropIndex id => kbind (drop_index p id) (λ r, kret (fst r, None))
  | LReadIndex id n => read_index p id n
  | LSearchIndex id v => search_index p id v
  | LChangeSort id c => kbind (change_index_sort p id (Some c)) (λ r, kret (fst r, None))
  end.

(** What the caller has to see to; [ps] are the nodes. Appending is for lists whose last
    node is known and that have no alternate index that is up to date. *)
Definition lop_pre (op : lop) (l : list_struct) (ps es : list Z) : Prop :=
  match op with
  | LInsert _ => Z.of_nat (length es) < 2 ^ 28
  | LInsertSorted _ => Z.of_nat (length es) < 2 ^ 28 ∧ (ll_index_mode l = SORTED -> es ≠ [])
  | LInsertEnd _ => Z.of_nat (length es) < 2 ^ 28 ∧ end_ok l ps ∧ indexes_idle l
  | LRemove _ => ll_search_func l ≠ None
  | LSearch v => ∃ f, ll_search_func l = Some f ∧ search_agrees l (f v)
  | LAddIndex c _ => comp_order c
  | LDropIndex id | LSearchIndex id _ => ∃ ix, index_at l id ix
  | LReadIndex id n => (∃ ix, index_at l id ix) ∧ 1 <= n <= Z.of_nat (length es)
  | LChangeSort id c => (∃ ix, index_at l id ix) ∧ comp_order c
  | _ => True
  end.

(** A removal takes out the first element that is hit, if there is one. *)
Definition removal_post (hit : Z -> nat -> bool) (es : list Z) (r : Z) (es' : list Z) : Prop :=
  match find_hit hit 0 es with
  | None => r = 0 ∧ es' = es
  | Some i => es !! i = Some r ∧ es' = delete i es
  end.

(** The element of the index at a position: the index is there or can be made, and holds
    the elements in their order when it is sorted. *)
Definition nth_post (l : list_struct) (es : list Z) (n r : Z) : Prop :=
  r = 0 ∧ (is_indexed l = false ∨ ¬ 1 <= n <= Z.of_nat (length es)) ∨
  1 <= n ∧ ∃ xs, xs ≡ₚ es ∧ xs !! Z.to_nat (n - 1) = Some r ∧
    (ll_index_mode l = SORTED -> ∃ c, ll_element_compare l = Some c ∧ sorted_by c xs).

(** The result and the elements afterwards. NULL and -ENOMEM stand for a failed request. *)
Definition lop_post (op : lop) (l : list_struct) (es : list Z) (r : Z * option Z) (es' : list Z) : Prop :=
  match op with
  | LInsert x | LInsertSorted x => r = (0, None) ∧ es' = es ∨ r = (x, None) ∧ es' = x :: es
  | LInsertEnd x => r = (0, None) ∧ es' = es ∨ r = (x, None) ∧ es' = es ++ [x]
  | LRemove v => ∃ f, ll_search_func l = Some f ∧ removal_post (λ e _, f v e =? 0) es (fst r) es'
  | LRemoveNth n => (n < 1 -> r = (-1, None) ∧ es' = es) ∧
      (1 <= n -> removal_post (λ _ k, Z.of_nat (Datatypes.S k) =? n) es (fst r) es')
  | LRemoveNode x => removal_post (λ e _, e =? x) es (fst r) es'
  | LSort => es' = es ∧ (fst r = 0 ∨ fst r = 1)
  | LNth n => es' = es ∧ nth_post l es n (fst r)
  | LSearch v => es' = es ∧ ∃ f o, ll_search_func l = Some f ∧ fst r = default 0 o ∧ search_result (f v) es o
  | LFirst => es' = es ∧ fst r = default 0 (head es)
  | LAddIndex _ _ => es' = es ∧ (r = (- ENOMEM, None) ∨ ∃ id, r = (0, Some id) ∧ 1 <= id)
  | LDropIndex _ | LChangeSort _ _ => es' = es ∧ fst r = 0
  | LReadIndex id n => es' = es ∧
      (r = (- ENOMEM, None) ∨
       ∃ ix c xs e, index_at l id ix ∧ ix_comp_func ix = Some c ∧ r = (0, Some e) ∧ xs ≡ₚ es ∧ sorted_by c xs ∧
         xs !! Z.to_nat (n - 1) = Some e)
  | LSearchIndex id v => es' = es ∧
      ∃ ix c, index_at l id ix ∧ ix_comp_func ix = Some c ∧
        (r = (- ENOMEM, None) ∨ r = (- ENOENT, None) ∧ Forall (λ e, c v e ≠ 0) es ∨
         ∃ xs pos e, r = (0, Some (pos + 1)) ∧ 0 <= pos ∧ xs ≡ₚ es ∧ sorted_by c xs ∧ xs !! Z.to_nat pos = Some e ∧ c v e = 0)
  end.

(** Outside of the lock nothing but the semaphore differs. *)
Lemma lock_view_fields l : ll_search_func (lock_view l) = ll_search_func l ∧ ll_index_mode (lock_view l) = ll_index_mode l ∧
  ll_element_compare (lock_view l) = ll_element_compare l ∧ ll_indexes (lock_view l) = ll_indexes l ∧
  ll_first_element (lock_view l) = ll_first_element l ∧ ll_list_type (lock_view l) = ll_list_type l ∧
  ll_element_list (lock_view l) = ll_element_list l.
Proof. unfold lock_view. by destruct (ll_auto_lock l). Qed.

Lemma index_at_lock l id ix : index_at l id ix -> index_at (lock_view l) id ix.
Proof. intros (ixs & H & ?). exists ixs. by rewrite (proj1 (proj2 (proj2 (proj2 (lock_view_fields l))))). Qed.

(** The run of an operation: it returns, the lists are right, [Q] holds of the result
    and the elements. *)
Definition op_ok {A} (out : kout A) (W : gmap Z (list Z * list Z)) (p : Z) (Q : A -> list Z -> Prop) : Prop :=
  ∃ a s' ps' es', out = KRet a s' ∧ world_ok s' (<[p := (ps', es')]> W) ∧ Q a es'.

Lemma op_ok_map {A B} (f : KM A) (g : A -> B) s W p (Q : B -> list Z -> Prop) :
  op_ok (f s) W p (λ a, Q (g a)) -> op_ok (kbind f (λ a, kret (g a)) s) W p Q.
Proof. intros (a & s' & ps' & es' & Hr & ?). exists (g a), s', ps', es'. by rewrite (kbind_run _ _ _ _ _ Hr). Qed.

(** What is known of a list an operation starts on. *)
Section Operation.
Context (s : kst) (W : gmap Z (list Z * list Z)) (p : Z) (ps es : list Z) (l : list_struct).
Context (HW : world_ok s W) (Hp : W !! p = Some (ps, es)) (Hl : ks_lists s !! p = Some l).

Definition body_ok {A} (f : LM A) (Q : A -> list Z -> Prop) : Prop :=
  ∃ a m' l' ps' es', f (ks_mem s) (lock_view l) = Some (a, m', l') ∧ lstep (ks_mem s) (lock_view l) ps m' l' ps' es' ∧ Q a es'.

Lemma op_start : p ≠ 0 ∧ lock_free l ∧ kl_ok (ks_mem s) l ps es ∧ kl_ok (ks_mem s) (lock_view l) ps es.
Proof using HW Hp Hl.
  destruct (wo_list _ _ HW _ _ _ Hp) as [Hp0 (l2 & Hl2 & Hk & Hf)]. rewrite Hl in Hl2. injection Hl2 as <-.
  split_and!; [done|done|done|by apply kl_ok_lock_view].
Qed.

Lemma op_locked {A} (null fail : A) f Q : body_ok f Q -> op_ok (locked p null fail (on_list p f) s) W p Q.
Proof using HW Hp Hl.
  destruct op_start as (Hp0 & Hf & _). intros (a & m' & l' & ps' & es' & Hr & Hst & HQ).
  exists a, (set_list s p m' (unlock_view l')), ps', es'. split_and!; [by eapply locked_run|by eapply world_step|done].
Qed.

Lemma op_index {A} (d : A) f Q : body_ok f Q -> op_ok (index_op p d f s) W p Q.
Proof using HW Hp Hl.
  destruct op_start as (Hp0 & Hf & _). intros (a & m' & l' & ps' & es' & Hr & Hst & HQ).
  exists a, (set_list s p m' (unlock_view l')), ps', es'. split_and!; [by eapply index_op_run|by eapply world_step|done].
Qed.

Lemma op_insert x f : inserted_front (ks_mem s) (lock_view l) ps es x (f (ks_mem s) (lock_view l)) ->
  op_ok (simple (locked p 0 0 (on_list p f)) s) W p (λ r es', r = (0, None) ∧ es' = es ∨ r = (x, None) ∧ es' = x :: es).
Proof using HW Hp Hl.
  intros (r & m' & l' & Hr & Hcase). apply op_ok_map, op_locked.
  destruct Hcase as [(-> & _ & Hst)|(q & -> & _ & Hst)]; eexists _, _, _, _, _; split_and!; eauto.
Qed.

Lemma op_insert_end x : lop_pre (LInsertEnd x) l ps es -> op_ok (run_lop p (LInsertEnd x) s) W p (lop_post (LInsertEnd x) l es).
Proof using HW Hp Hl.
  intros (Hb & He & Hi). destruct op_start as (_ & _ & _ & Hkv). apply op_ok_map, op_locked.
  destruct (insert_at_end_spec (ks_mem s) (lock_view l) ps es x Hkv Hb) as (r & m' & l' & Hr & _ & _ & Hcase);
    [unfold end_ok, lock_view in *; by destruct (ll_auto_lock l)|unfold indexes_idle, slots, lock_view in *; by destruct (ll_auto_lock l)|].
  destruct Hcase as [(-> & _ & Hst & _)|(q & -> & Hst & _)]; eexists _, _, _, _, _; split_and!; eauto; [by left|by right].
Qed.

Lemma op_remove f hit : f (ks_mem s) (lock_view l) = remove_body hit (ks_mem s) (lock_view l) ->
  op_ok (simple (removal p true f) s) W p (λ r, removal_post hit es (fst r)).
Proof using HW Hp Hl.
  intros Hfb. destruct op_start as (Hp0 & Hf & Hk & Hkv). apply op_ok_map. unfold removal.
  rewrite (proj2 (Z.eqb_neq p 0)), (kbind_run _ _ _ _ _ (get_list_run p s l Hl)), (kc_type _ (kl_same _ _ _ _ Hk)) by done.
  apply op_locked. pose proof (remove_body_spec _ _ _ _ hit Hkv) as Hrem. rewrite <- Hfb in Hrem. unfold removed, removal_post in *.
  destruct (find_hit hit 0 es) as [i|].
  - destruct Hrem as (e & m' & l' & Hr & He & _ & Hst). eexists _, _, _, _, _. split; [exact Hr|]. split; [exact Hst|]. done.
  - eexists _, _, _, _, _. split; [exact Hrem|]. split; [by apply lstep_refl|]. done.
Qed.

Lemma op_reads f Q : body_ok f (λ a es', es' = es ∧ Q a) ->
  op_ok (simple (locked p 0 0 (on_list p f)) s) W p (λ r es', es' = es ∧ Q (fst r)).
Proof using HW Hp Hl. intros H. by apply op_ok_map, op_locked. Qed.

Lemma op_nth n : lop_pre (LNth n) l ps es -> op_ok (run_lop p (LNth n) s) W p (lop_post (LNth n) l es).
Proof using HW Hp Hl.
  intros _. destruct op_start as (_ & _ & Hk & Hkv). destruct (lock_view_fields l) as (_ & Hm & Hc & _ & _ & _ & Hel).
  apply (op_reads (__nth_element n) (nth_post l es n)).
  destruct (nth_element_spec _ _ _ _ n Hkv) as (r & m' & l' & Hr & Hst & _ & _ & Hcase).
  eexists _, _, _, _, _. split; [exact Hr|]. split; [exact Hst|]. split; [done|].
  assert (Hi : is_indexed (lock_view l) = is_indexed l) by (unfold is_indexed; by rewrite Hm). rewrite Hi in Hcase.
  destruct Hcase as [[? [[? _]|?]]|(Hn & xs & Hxs & _ & Hkeep & _ & Hperm & Hat)]; [left; auto..|right]. split; [done|].
  exists xs. split_and!; [done|done|]. intros Hs. destruct Hkeep as [-> _]; [unfold is_indexed; by rewrite Hs|].
  pose proof (kl_primary _ _ _ _ Hk) as Hpr. unfold primary_ok in Hpr. rewrite Hs in Hpr.
  destruct Hpr as (ys & c & Hys & _ & Hcmp & Hso). exists c. split; [done|]. rewrite Hel, Hys in Hxs. injection Hxs as Hxs%cells_inj. by subst.
Qed.

Lemma op_search v : lop_pre (LSearch v) l ps es -> op_ok (run_lop p (LSearch v) s) W p (lop_post (LSearch v) l es).
Proof using HW Hp Hl.
  intros (f & Hf & Hag). destruct op_start as (_ & _ & Hk & Hkv). destruct (lock_view_fields l) as (Hse & _ & Hc & _).
  apply (op_reads (search_for_element_body v) (λ r, ∃ f o, ll_search_func l = Some f ∧ r = default 0 o ∧ search_result (f v) es o)).
  destruct (search_for_element_spec _ _ _ _ v f Hkv) as (o & m' & l' & Hr & Hst & Hres).
  { by rewrite Hse. }
  { unfold search_agrees. by rewrite Hc. }
  eexists _, _, _, _, _. split; [exact Hr|]. split; [exact Hst|]. split; [done|]. by exists f, o.
Qed.

Lemma op_first : op_ok (run_lop p LFirst s) W p (lop_post LFirst l es).
Proof using HW Hp Hl.
  destruct op_start as (_ & _ & Hk & Hkv). apply (op_reads _ (λ r, r = default 0 (head es))).
  pose proof (kl_chain _ _ _ _ Hkv) as Hch. eexists _, _, _, _, _. split; [|split; [by apply lstep_refl|split; [done|reflexivity]]].
  lrun. inversion Hch as [|q e nx ps' es' Hq Hni Hn Hch']; subst; simpl.
  - apply list_node_data_null, Hkv.
  - eapply list_node_data_run; [apply Hkv|done|exact Hn].
Qed.

Lemma op_sort : op_ok (run_lop p LSort s) W p (lop_post LSort l es).
Proof using HW Hp Hl.
  destruct op_start as (_ & _ & Hk & Hkv). apply op_ok_map. apply (op_locked (-1) (-1)).
  destruct (sort_list_spec _ _ _ _ Hkv) as (r & m' & l' & Hr & Hst & Hcase).
  eexists _, _, _, _, _. split; [exact Hr|]. split; [exact Hst|]. split; [done|].
  destruct Hcase as [[-> _]| ->]; [by right|by left].
Qed.

Lemma op_remove_nth n : op_ok (run_lop p (LRemoveNth n) s) W p (lop_post (LRemoveNth n) l es).
Proof using HW Hp Hl.
  destruct op_start as (Hp0 & _ & Hk & _). simpl. unfold remove_nth. destruct (Z.leb_spec 1 n).
  - destruct (op_remove (remove_nth_body n) (λ _ k, Z.of_nat (Datatypes.S k) =? n) eq_refl) as (a & s' & ps' & es' & Hr & Hw & Hpost).
    exists a, s', ps', es'. split; [done|]. split; [done|]. split; [lia|by intros _].
  - exists (-1, None), s, ps, es. unfold simple, removal.
    rewrite (proj2 (Z.eqb_neq p 0)) by done. unfold kbind at 1. rewrite (kbind_run _ _ _ _ _ (get_list_run p s l Hl)).
    rewrite (kc_type _ (kl_same _ _ _ _ Hk)). unfold kret. split; [done|]. split; [by rewrite insert_id|]. split; [done|lia].
Qed.

Lemma op_add_index c flags : comp_order c -> op_ok (run_lop p (LAddIndex c flags) s) W p (lop_post (LAddIndex c flags) l es).
Proof using HW Hp Hl.
  intros Ho. destruct op_start as (_ & _ & Hk & Hkv). apply op_index.
  destruct (add_index_spec _ _ _ _ c flags Hkv Ho) as (r & m' & l' & Hr & Hst & Hcase).
  eexists _, _, _, _, _. split; [exact Hr|]. split; [exact Hst|]. split; [done|].
  destruct Hcase as [->|(id & ix & -> & (ixs & _ & Hid & _) & _)]; [by left|right; by exists id].
Qed.

Lemma op_read_index id n : lop_pre (LReadIndex id n) l ps es -> op_ok (run_lop p (LReadIndex id n) s) W p (lop_post (LReadIndex id n) l es).
Proof using HW Hp Hl.
  intros [[ix Hat] Hn]. destruct op_start as (_ & _ & Hk & Hkv). apply op_index.
  destruct (read_index_spec _ _ _ _ id n ix Hkv (index_at_lock _ _ _ Hat) Hn) as (r & m' & l' & Hr & Hst & Hcase).
  eexists _, _, _, _, _. split; [exact Hr|]. split; [exact Hst|]. split; [done|].
  destruct Hcase as [[-> _]|(c & xs & e & Hc & -> & Hperm & Hs & He & _)]; [by left|right]. by exists ix, c, xs, e.
Qed.

Lemma op_search_index id v : lop_pre (LSearchIndex id v) l ps es ->
  op_ok (run_lop p (LSearchIndex id v) s) W p (lop_post (LSearchIndex id v) l es).
Proof using HW Hp Hl.
  intros [ix Hat]. destruct op_start as (_ & _ & Hk & Hkv). apply op_index.
  destruct (search_index_spec _ _ _ _ id v ix Hkv (index_at_lock _ _ _ Hat)) as (r & m' & l' & c & Hr & Hst & Hc & Hcase).
  eexists _, _, _, _, _. split; [exact Hr|]. split; [exact Hst|]. split; [done|]. exists ix, c. split_and!; [done|done|].
  destruct Hcase as [(-> & _)|[(? & ? & _)|(xs & pos & e & -> & Hpos & _ & Hperm & Hs & He & Hce)]]; [by left|by right; left|].
  right. right. by exists xs, pos, e.
Qed.

Lemma op_drop_index id : lop_pre (LDropIndex id) l ps es -> op_ok (run_lop p (LDropIndex id) s) W p (lop_post (LDropIndex id) l es).
Proof using HW Hp Hl.
  intros [ix Hat]. destruct op_start as (_ & _ & Hk & Hkv). apply op_ok_map, op_index. apply index_at_lock in Hat.
  pose proof (index_at_range _ _ _ _ _ _ Hkv Hat) as Hid.
  destruct (drop_slot_spec _ _ _ _ id ix Hkv Hat) as (l' & Hr & Hst).
  exists (0, tt), (ks_mem s), l', ps, es. split; [|split; [exact Hst|split; reflexivity]].
  unfold valid_slot. lrun. rewrite (proj2 (Z.ltb_ge id 1)), (proj2 (Z.ltb_ge _ id)) by lia. cbn [orb].
  rewrite (lbind_run _ _ _ _ _ _ _ (get_slot_at _ id ix (ks_mem s) Hat)). by rewrite (lbind_run _ _ _ _ _ _ _ Hr).
Qed.

Lemma op_change_sort id c : lop_pre (LChangeSort id c) l ps es -> op_ok (run_lop p (LChangeSort id c) s) W p (lop_post (LChangeSort id c) l es).
Proof using HW Hp Hl.
  intros [[ix Hat] Ho]. destruct op_start as (_ & _ & Hk & Hkv). apply op_ok_map, op_index.
  destruct (change_index_sort_spec _ _ _ _ id c ix Hkv (index_at_lock _ _ _ Hat) Ho) as (m' & l' & ix' & Hr & Hst & _).
  eexists _, _, _, _, _. split; [exact Hr|]. split; [exact Hst|]. done.
Qed.
End Operation.


(** ** Reading an alternate index *)

(** read_index for [k] positions from [n] on. *)
Fixpoint read_all (k : nat) (p id n : Z) : KM (list (Z * option Z)) :=
  match k with
  | O => kret []
  | S k' => kbind (read_index p id n) (λ r, kbind (read_all k' p id (n + 1)) (λ rs, kret (r :: rs)))
  end.

Lemma index_holds_lock l id c xs : index_holds l id c xs <-> index_holds (lock_view l) id c xs.
Proof. unfold index_holds. by rewrite (proj1 (proj2 (proj2 (proj2 (lock_view_fields l))))). Qed.

Lemma index_holds_unlock l id c xs : index_holds l id c xs -> index_holds (unlock_view l) id c xs.
Proof. unfold index_holds, unlock_view. by destruct (ll_auto_lock l). Qed.

(** One read: the index holds a sorted array afterwards, the same as before if it was up
    to date, and the result is its cell. *)
Lemma read_index_one s W p ps es l id n ix c : world_ok s W -> W !! p = Some (ps, es) -> ks_lists s !! p = Some l ->
  index_at l id ix -> ix_comp_func ix = Some c -> 1 <= n <= Z.of_nat (length es) ->
  (¬ no_memory (ks_mem s) ∨ ∃ xs, index_holds l id c xs) ->
  ∃ e s' l' xs, read_index p id n s = KRet (0, Some e) s' ∧ world_ok s' W ∧ ks_lists s' !! p = Some l' ∧
    xs ≡ₚ es ∧ sorted_by c xs ∧ xs !! Z.to_nat (n - 1) = Some e ∧ index_holds l' id c xs ∧ ∀ ys, index_holds l id c ys -> ys = xs.
Proof.
  intros HW Hp Hl Hat Hc Hn Hmem. destruct (op_start s W p ps es l HW Hp Hl) as (Hp0 & Hf & Hk & Hkv).
  destruct (read_index_spec _ _ _ _ id n ix Hkv (index_at_lock _ _ _ Hat) Hn) as (r & m' & l' & Hr & Hst & Hcase).
  destruct Hcase as [(-> & Hno & Hneed)|(c' & xs & e & Hc' & -> & Hperm & Hs & He & Hh & Hu)].
  { exfalso. destruct Hmem as [?|(xs & ixs & ix2 & Hix & _ & Hs2 & Hup & _)]; [done|].
    destruct Hat as (ixs' & Hix' & _ & Hs'). rewrite Hix in Hix'. injection Hix' as <-. congruence. }
  assert (c' = c) as -> by congruence. exists e, (set_list s p m' (unlock_view l')), (unlock_view l'), xs.
  split_and!; [by eapply index_op_run| |by apply lookup_insert_eq|done|done|done|by apply index_holds_unlock|].
  - pose proof (world_step s W p ps es l m' l' ps es HW Hp Hl Hf Hst) as HW'. by rewrite insert_id in HW'.
  - intros ys Hys. apply Hu. by apply index_holds_lock in Hys.
Qed.

Lemma read_rest p id c k : ∀ s W ps es l xs n, world_ok s W -> W !! p = Some (ps, es) -> ks_lists s !! p = Some l ->
  index_holds l id c xs -> 1 <= n -> n + Z.of_nat k - 1 = Z.of_nat (length es) ->
  length xs = length es ->
  ∃ s', read_all k p id n s = KRet ((λ e, (0, Some e)) <$> drop (Z.to_nat (n - 1)) xs) s' ∧ world_ok s' W.
Proof.
  induction k as [|k IH]; intros s W ps es l xs n HW Hp Hl Hh Hn1 Hn Hlen.
  { exists s. simpl. rewrite drop_ge by lia. done. }
  pose proof Hh as (ixs & ix & Hix & Hid & Hs & Hup & Hc & Hxs).
  destruct (read_index_one s W p ps es l id n ix c HW Hp Hl) as (e & s1 & l1 & xs1 & Hr & HW1 & Hl1 & Hperm & Hso & He & Hh1 & Hu);
    [by exists ixs|done|lia|right; eauto|].
  rewrite <- (Hu xs Hh) in *. cbn [read_all]. rewrite (kbind_run _ _ _ _ _ Hr).
  destruct (IH s1 W ps es l1 xs (n + 1) HW1 Hp Hl1 Hh1) as (s2 & Hr2 & HW2); [lia|lia|done|].
  rewrite (kbind_run _ _ _ _ _ Hr2). exists s2. split; [|done]. rewrite (drop_S xs e _ He). simpl.
  by replace (Z.to_nat (n + 1 - 1)) with (Datatypes.S (Z.to_nat (n - 1))) by lia.
Qed.

(** C13.  An alternate index reads as the sorted sequence of the elements: in every state
    in which the lists are right, as the operations of [klist_refines] leave it, whether
    the index is lazy, out of date or up to date, reading its positions one after the
    other gives every element of the list once, in the order of the function of the
    index, provided there is memory for the first read or the index is up to date.
    (After an insertion at the end of a list with an index that is up to date the lists
    are not right, and the read faults: [KListWit.end_stale_index_faults].) *)
Theorem index_reads_sorted s W p ps es l id ix c : world_ok s W -> W !! p = Some (ps, es) -> ks_lists s !! p = Some l ->
  index_at l id ix -> ix_comp_func ix = Some c -> (¬ no_memory (ks_mem s) ∨ ∃ xs, index_holds l id c xs) ->
  ∃ xs s', read_all (length es) p id 1 s = KRet ((λ e, (0, Some e)) <$> xs) s' ∧ xs ≡ₚ es ∧ sorted_by c xs ∧ world_ok s' W.
Proof.
  intros HW Hp Hl Hat Hc Hmem. destruct es as [|e0 es0] eqn:Ees.
  { exists [], s. split_and!; [done|done|constructor|done]. }
  destruct (read_index_one s W p ps (e0 :: es0) l id 1 ix c HW Hp Hl Hat Hc) as (e & s1 & l1 & xs & Hr & HW1 & Hl1 & Hperm & Hso & He & Hh1 & _);
    [simpl; lia|done|].
  assert (Hlen : length xs = length (e0 :: es0)) by by rewrite Hperm.
  destruct (read_rest p id c (length es0) s1 W ps (e0 :: es0) l1 xs (1 + 1) HW1 Hp Hl1 Hh1) as (s2 & Hr2 & HW2); [lia|simpl; lia|done|].
  exists xs, s2. split_and!; [|done|done|done]. simpl length. cbn [read_all].
  rewrite (kbind_run _ _ _ _ _ Hr), (kbind_run _ _ _ _ _ Hr2). change (Z.to_nat (1 + 1 - 1)) with 1%nat.
  destruct xs as [|x xs']; [simpl in Hlen; lia|]. simpl in He. injection He as ->. done.
Qed.
