(* ===== verification/KListDup.v ===== *)
(** Lists of the overlay file system: creating and copying; and the operations
    that cannot work: clearing and merging lists that lock themselves. *)
From stdpp Require Import sorting.
From S2P Require Import Prelude KList KListSort KListInv KListOps KListIdx KListThm.
Open Scope Z_scope.

(** ** Creating *)
Definition new_list (cmp srch : option comp_func_t) : list_struct :=
  KL 0 ABSTRACT NOT_INDEXED 0 0 None next_abs_node cmp srch (Some add_abs_node) (Some add_abs_node_at_end) true 1 0 None.

Lemma new_list_ok m cmp srch : mem_ok m -> (∀ c, cmp = Some c -> comp_order c) -> kl_ok m (new_list cmp srch) [] [].
Proof. intros Hm Hc. split; simpl; [constructor|done|lia|done|by split|done|done]. Qed.

Lemma create_list_spec s W cmp srch : world_ok s W -> (∀ c, cmp = Some c -> comp_order c) ->
  ∃ r s', create_list None cmp srch None s = KRet r s' ∧ mem_le (ks_mem s) (ks_mem s') ∧
    (r = 0 ∧ no_memory (ks_mem s) ∨
     r ≠ 0 ∧ ks_lists s !! r = None ∧ W !! r = None ∧ ks_lists s' = <[r := new_list cmp srch]> (ks_lists s) ∧
     world_ok s' (<[r := ([], [])]> W)).
Proof.
  intros HW Hc. unfold create_list. destruct (request km_do_malloc (ks_mem s)) as [r m] eqn:E.
  pose proof (request_le _ _ _ _ E) as Hle. destruct (wo_mem _ _ HW) as [Hpos Hb].
  assert (Hfresh : ks_lists s !! km_next (ks_mem s) = None).
  { destruct (ks_lists s !! km_next (ks_mem s)) eqn:E'; [|done]. pose proof (wo_next _ _ HW _ _ E'). lia. }
  unfold request in E. injection E as E Em. destruct (km_do_malloc (ks_mem s) (km_allocs (ks_mem s))) eqn:Hg; subst r.
  2:{ eexists _, _. split; [done|]. split; [done|]. by left. }
  eexists _, _. split; [done|]. split; [done|]. right.
  assert (HWf : W !! km_next (ks_mem s) = None).
  { destruct (W !! km_next (ks_mem s)) as [[ps es]|] eqn:E'; [|done].
    destruct (wo_list _ _ HW _ _ _ E') as [_ (l & Hl & _)]. congruence. }
  split_and!; [lia|done|done|done|].
  assert (HW1 : world_ok (KSt m (<[km_next (ks_mem s) := new_list cmp srch]> (ks_lists s)) (ks_signal s)) W).
  { split; simpl.
    - by eapply mem_le_ok, HW.
    - intros q ps es Hq. destruct (wo_list _ _ HW _ _ _ Hq) as [Hq0 (l & Hl & Hk & Hf)]. split; [done|].
      exists l. rewrite lookup_insert_ne by congruence. split_and!; [done|by eapply kl_ok_mem|done].
    - apply (wo_apart _ _ HW).
    - intros q l [[<- _]|[_ Hq]]%lookup_insert_Some; [subst m; simpl; lia|].
      pose proof (wo_next _ _ HW _ _ Hq). pose proof (ml_next _ _ Hle). lia. }
  eapply world_add; [done|lia|by apply lookup_insert_eq|apply new_list_ok; [apply HW1|done]|done|].
  intros q ps2 es2 n _ _. apply not_elem_of_nil.
Qed.

(** ** Copying *)

(** While the list at [d] is copied to [r]: it is locked, and not one of the lists [W]. *)
Record copying (s : kst) (W : gmap Z (list Z * list Z)) (d : Z) (l0 ld : list_struct) (psd esd : list Z)
    (r : Z) (lr : list_struct) (psr esr : list Z) : Prop := {
  cp_world : world_ok s (<[r := (psr, esr)]> W);
  cp_names : W !! d = None ∧ d ≠ r ∧ d ≠ 0;
  cp_list : ks_lists s !! d = Some ld;
  cp_ok : kl_ok (ks_mem s) ld psd esd;
  cp_frame : kl_frame (lock_view l0) ld;
  cp_apart : apart (<[r := (psr, esr)]> W) psd;
  cp_copy : ks_lists s !! r = Some lr ∧ end_ok lr psr ∧ indexes_idle lr;
  cp_memory n : km_do_malloc (ks_mem s) n = true
}.

(** One element. *)
Lemma copy_one s W d l0 ld psd esd r lr psr esr n : copying s W d l0 ld psd esd r lr psr esr ->
  1 <= n <= Z.of_nat (length esd) -> Z.of_nat (length esr) < 2 ^ 28 ->
  ∃ e xs s1 s2 ld' lr' psr', on_list d (__nth_element n) s = KRet e s1 ∧ insert_at_end r e s1 = KRet e s2 ∧
    xs !! Z.to_nat (n - 1) = Some e ∧ xs ≡ₚ esd ∧ copying s2 W d l0 ld' psd esd r lr' psr' (esr ++ [e]) ∧
    is_indexed ld' = true ∧ ll_element_list ld' = Some (cells xs) ∧
    (is_indexed ld = true -> ld' = ld) ∧ (is_indexed ld = false -> xs = esd).
Proof.
  intros [HW (HWd & Hdr & Hd0) Hd Hk Hfr Hap (Hr & Hend & Hidle) Hmem] Hn Hb.
  assert (Hyes : ∀ m, km_do_malloc m = km_do_malloc (ks_mem s) -> ¬ no_memory m) by (intros m Hm; unfold no_memory; by rewrite Hm, Hmem).
  destruct (nth_element_spec _ _ _ _ n Hk) as (e & m1 & ld' & Hrun & Hst & _ & _ & Hcase).
  destruct Hcase as [[_ [[_ Hno]|?]]|(_ & xs & Hxs & Hi & Hkeep & Hnew & Hperm & He)]; [by destruct (Hyes (ks_mem s))|lia|].
  destruct (world_outside s _ d ld ld psd m1 ld' ld' psd esd HW) as [HW1 Hap1];
    [by rewrite lookup_insert_ne|done|done|exact Hst|].
  set (s1 := set_list s d m1 ld') in *.
  assert (Hr1 : ks_lists s1 !! r = Some lr) by (simpl; by rewrite lookup_insert_ne).
  destruct (op_start s1 _ r psr esr lr HW1 (lookup_insert_eq _ _ _) Hr1) as (Hr0 & Hfree & Hkr & Hkrv).
  destruct (insert_at_end_spec m1 (lock_view lr) psr esr e Hkrv Hb) as (x & m2 & lr' & Hins & Hix & Hsz & Hcase);
    [unfold end_ok, lock_view in *; by destruct (ll_auto_lock lr)|unfold indexes_idle, slots, lock_view in *; by destruct (ll_auto_lock lr)|].
  destruct Hcase as [(_ & Hno & _)|(q & -> & Hst2 & Hend2 & _)]; [by destruct (Hyes m1); [apply (ls_malloc _ _ _ _ _ _ _ Hst)|]|].
  set (s2 := set_list s1 r m2 (unlock_view lr')).
  pose proof (world_step s1 _ r psr esr lr m2 lr' _ _ HW1 (lookup_insert_eq _ _ _) Hr1 Hfree Hst2) as HW2. rewrite insert_insert_eq in HW2.
  destruct (kl_ok_other _ _ _ _ _ _ _ ld' psd esd Hst2 (ls_ok _ _ _ _ _ _ _ Hst)) as [Hk2 Hap2].
  { intros k Hk1 Hk2. by apply (Hap1 r psr esr k (lookup_insert_eq _ _ _) Hk2). }
  exists e, xs, s1, s2, ld', (unlock_view lr'), (psr ++ [q]).
  split; [by eapply on_list_run|]. split; [by eapply locked_run|]. split_and!; [done|done| |done|done|intros Hx; by apply Hkeep in Hx as []|done].
  split; [exact HW2|done|simpl; rewrite lookup_insert_ne by done; apply lookup_insert_eq|done| | | |].
  - etransitivity; [exact Hfr|apply Hst].
  - intros k ps2 es2 x [[<- [= <- <-]]|[Hne Hk']]%lookup_insert_Some Hx Hx'; [by apply (Hap2 x)|].
    apply (Hap1 k ps2 es2 x); [by rewrite lookup_insert_ne|done|done].
  - split; [apply lookup_insert_eq|]. unfold end_ok, indexes_idle, slots, unlock_view in *.
    destruct (ll_auto_lock lr'); simpl in *; rewrite Hix, Hsz; unfold lock_view in *; destruct (ll_auto_lock lr); done.
  - intros k. simpl. by rewrite (ls_malloc _ _ _ _ _ _ _ Hst2), (ls_malloc _ _ _ _ _ _ _ Hst).
Qed.

(** The rest of the elements, once the list is indexed. *)
Lemma copy_rest W d l0 ld psd esd r xs k : ∀ s lr psr esr n, copying s W d l0 ld psd esd r lr psr esr ->
  is_indexed ld = true -> ll_element_list ld = Some (cells xs) -> length xs = length esd ->
  1 <= n -> n + Z.of_nat k = Z.of_nat (length xs) + 1 -> esr = take (Z.to_nat (n - 1)) xs ->
  ∃ s' lr' psr', merge_loop k r d n s = KRet tt s' ∧ copying s' W d l0 ld psd esd r lr' psr' xs.
Proof.
  induction k as [|k IH]; intros s lr psr esr n Hc Hi Hxs Hlen Hn1 Hn Hesr.
  { rewrite take_ge in Hesr by lia. subst. eexists s, _, _. split; [done|exact Hc]. }
  assert (Hb : Z.of_nat (length xs) <= 2 ^ 28) by (rewrite Hlen; apply (cp_ok _ _ _ _ _ _ _ _ _ _ _ Hc)).
  destruct (copy_one s W d l0 ld psd esd r lr psr esr n Hc) as (e & ys & s1 & s2 & ld' & lr' & psr' & Hr1 & Hr2 & He & Hp & Hc2 & Hi2 & Hys & Hkeep & _);
    [lia|rewrite Hesr, length_take; lia|].
  rewrite (Hkeep Hi) in *. rewrite Hxs in Hys. injection Hys as Hys%cells_inj. subst ys.
  cbn [merge_loop]. rewrite (kbind_run _ _ _ _ _ Hr1), (kbind_run _ _ _ _ _ Hr2).
  eapply IH; [exact Hc2|done|done|done|lia|lia|].
  rewrite Hesr. replace (Z.to_nat (n + 1 - 1)) with (Datatypes.S (Z.to_nat (n - 1))) by lia. symmetry. by apply take_S_r.
Qed.

Lemma merge_copies s W d l0 ld psd esd r lr : copying s W d l0 ld psd esd r lr [] [] ->
  ∃ xs s' ld' lr' psr', __merge_list r d s = KRet SUCCESS s' ∧ copying s' W d l0 ld' psd esd r lr' psr' xs ∧ xs ≡ₚ esd ∧
    (is_indexed ld = false -> xs = esd) ∧ (is_indexed ld = true -> ll_element_list ld = Some (cells xs)).
Proof.
  intros Hc. pose proof Hc as [HW (HWd & Hdr & Hd0) Hd Hk _ _ (Hr & _) _].
  destruct (wo_list _ _ HW _ _ _ (lookup_insert_eq _ _ _)) as [Hr0 _].
  assert (Hrun : __merge_list r d s = kbind (merge_loop (length esd) r d 1) (λ _, kret SUCCESS) s).
  { unfold __merge_list. rewrite (proj2 (Z.eqb_neq d 0)), (proj2 (Z.eqb_neq r 0)) by done. cbn [orb].
    rewrite (kbind_run _ _ _ _ _ (get_list_run d s ld Hd)). unfold list_length. by rewrite (kl_number _ _ _ _ Hk), Nat2Z.id. }
  rewrite Hrun. destruct (length esd) as [|k] eqn:Hlen.
  { apply nil_length_inv in Hlen as ->. exists [], s, ld, lr, []. split_and!; [done|done|done|done|].
    intros Hi. destruct (indexed_cells ld [] (kl_primary _ _ _ _ Hk) Hi) as (xs & Hxs & Hp). by apply Permutation_nil_r in Hp as ->. }
  destruct (copy_one s W d l0 ld psd esd r lr [] [] 1 Hc) as (e & xs & s1 & s2 & ld' & lr' & psr' & Hr1 & Hr2 & He & Hp & Hc2 & Hi2 & Hxs & Hkeep & Hnew);
    [lia|simpl; lia|].
  assert (Hxlen : length xs = length esd) by by rewrite Hp.
  destruct (copy_rest W d l0 ld' psd esd r xs k s2 lr' psr' ([] ++ [e]) (1 + 1) Hc2 Hi2 Hxs Hxlen) as (s3 & lr3 & psr3 & Hr3 & Hc3); [lia|lia| |].
  { simpl. change (Z.to_nat (1 + 1 - 1)) with 1%nat. destruct xs; [done|]. simpl in He. by injection He as ->. }
  cbn [merge_loop]. exists xs, s3, ld', lr3, psr3. split_and!; [|done|done|done|].
  - rewrite (kbind_run _ _ s tt s3); [done|]. by rewrite (kbind_run _ _ _ _ _ Hr1), (kbind_run _ _ _ _ _ Hr2).
  - intros Hi. by rewrite <- (Hkeep Hi).
Qed.

(** C24.  When memory does not run out, dup_list of an abstract list returns a new list that
    shares no node with another, is not locked and holds the same elements: in the order
    of the primary index when there is one, and else in the order of the list. The
    original keeps its elements and is unlocked again. *)
Theorem dup_list_copies s W d l ps es : world_ok s W -> W !! d = Some (ps, es) -> ks_lists s !! d = Some l ->
  (∀ n, km_do_malloc (ks_mem s) n = true) ->
  ∃ r s' ps' xs, dup_list d s = KRet r s' ∧ W !! r = None ∧ world_ok s' (<[r := (ps', xs)]> W) ∧ xs ≡ₚ es ∧
    (is_indexed l = false -> xs = es) ∧ (is_indexed l = true -> ll_element_list l = Some (cells xs)).
Proof.
  intros HW Hd Hl Hmem. destruct (op_start s W d ps es l HW Hd Hl) as (Hd0 & Hfree & Hk & Hkv).
  destruct (lock_view_fields l) as (Hse & Hmode & Hcmp & _ & _ & Hty & Hel).
  unfold dup_list, locked. rewrite (proj2 (Z.eqb_neq d 0)), (kbind_run _ _ _ _ _ (auto_lock_run d s l Hd0 Hl Hfree)) by done.
  change (0 <? 0) with false. cbv iota. set (s1 := set_list s d (ks_mem s) (lock_view l)).
  destruct (world_drop s W d HW) as [HWd Hap]. specialize (Hap ps es Hd).
  destruct (world_outside s (delete d W) d l l ps (ks_mem s) l (lock_view l) ps es HWd) as [HW1 _];
    [apply lookup_delete_eq|done|done|by apply lstep_refl|].
  destruct (create_list_spec s1 (delete d W) (ll_element_compare l) (ll_search_func l) HW1 (kc_cmp _ (kl_same _ _ _ _ Hk)))
    as (r & s2 & Hcr & Hle & Hcase).
  destruct Hcase as [[_ Hno]|(Hr0 & Hrf & HrW & Hlists & HW2)]; [unfold no_memory in Hno; simpl in Hno; congruence|].
  assert (Hdr : d ≠ r) by (intros ->; simpl in Hrf; by rewrite lookup_insert_eq in Hrf).
  assert (Hc : copying s2 (delete d W) d l (lock_view l) ps es r (new_list (ll_element_compare l) (ll_search_func l)) [] []).
  { split; [done|split_and!; [apply lookup_delete_eq|done|done]| |by eapply kl_ok_mem|done| | |].
    - rewrite Hlists, lookup_insert_ne by done. apply lookup_insert_eq.
    - intros q ps2 es2 n [[<- [= <- <-]]|[_ Hq]]%lookup_insert_Some Hn; [by apply elem_of_nil in Hn|by apply (Hap q ps2 es2)].
    - rewrite Hlists. split_and!; [apply lookup_insert_eq|done|done].
    - intros n. by rewrite (ml_malloc _ _ Hle). }
  destruct (merge_copies _ _ _ _ _ _ _ _ _ Hc) as (xs & s3 & ld & lr & psr & Hm & [HW3 (_ & _ & _) Hd3 Hk3 Hfr3 Hap3 _ _] & Hp & Hni & Hin).
  exists r, (set_list s3 d (ks_mem s3) (unlock_view ld)), psr, xs.
  split; [|split; [|split]].
  - rewrite (kbind_run _ _ s1 r s3).
    + by rewrite (kbind_run _ _ _ _ _ (auto_unlock_run d s3 ld Hd0 Hd3)).
    + rewrite (kbind_run _ _ _ _ _ (get_list_run d s1 (lock_view l) (lookup_insert_eq _ _ _))).
      rewrite Hty, (kc_type _ (kl_same _ _ _ _ Hk)), Hcmp, Hse, (kbind_run _ _ _ _ _ Hcr).
      by rewrite (proj2 (Z.eqb_neq r 0)), (kbind_run _ _ _ _ _ Hm) by done.
  - by rewrite lookup_delete_ne in HrW.
  - replace (<[r := (psr, xs)]> W) with (<[d := (ps, es)]> (<[r := (psr, xs)]> (delete d W)))
      by (rewrite insert_insert_ne, insert_delete_eq, (insert_id W) by done; done).
    destruct (world_outside s3 _ d ld ld ps (ks_mem s3) ld (unlock_view ld) ps es HW3) as [HW4 Hap4];
      [by rewrite lookup_insert_ne, lookup_delete_eq|done|done|by apply lstep_refl|].
    eapply world_add; [done|done|apply lookup_insert_eq|by apply kl_ok_unlock_view|by eapply lock_free_step|done].
  - unfold is_indexed in *. rewrite Hmode, Hel in *. done.
Qed.

(** ** Lists that lock themselves *)

Lemma locked_again {A} p (null fail : A) f s l : p ≠ 0 -> ks_lists s !! p = Some l -> ll_auto_lock l = true -> ll_sem l <= 0 ->
  ks_signal s = false -> locked p null fail f s = KBlock.
Proof.
  intros Hp Hl Ha Hs Hsig. unfold locked, klist_auto_lock. rewrite (proj2 (Z.eqb_neq p 0)) by done.
  unfold kbind at 1. rewrite (kbind_run _ _ _ _ _ (get_list_run p s l Hl)), Ha. unfold lock_list, kbind, down_interruptible.
  by rewrite (proj2 (Z.eqb_neq p 0)), Hl, (proj2 (Z.ltb_ge 0 (ll_sem l))), Hsig by done.
Qed.

(** clear_list holds the lock when it calls foreach_node, which takes it again. *)
Theorem clear_list_blocks s W p l ps es fuel : world_ok s W -> W !! p = Some (ps, es) -> ks_lists s !! p = Some l ->
  ll_auto_lock l = true -> ks_signal s = false -> clear_list fuel p s = KBlock.
Proof.
  intros HW Hp Hl Ha Hsig. destruct (op_start s W p ps es l HW Hp Hl) as (Hp0 & Hfree & Hk & Hkv).
  unfold clear_list, locked at 1. rewrite (proj2 (Z.eqb_neq p 0)), (kbind_run _ _ _ _ _ (auto_lock_run p s l Hp0 Hl Hfree)) by done.
  change (0 <? 0) with false. cbv iota. unfold kbind at 1.
  erewrite kbind_run; [|eapply on_list_run; [apply lookup_insert_eq|by eapply cleanup_index_run, Hkv]].
  erewrite kbind_run; [|eapply get_list_run; apply lookup_insert_eq].
  replace (ll_list_type _) with ABSTRACT by (simpl; rewrite (kc_type _ (kl_same _ _ _ _ Hkv)); done).
  unfold kbind at 1 2. erewrite on_list_run; [|apply lookup_insert_eq|done].
  unfold kbind, foreach_node. erewrite locked_again; [done|done|apply lookup_insert_eq| | |done];
    unfold lock_view; rewrite Ha; [done|]. simpl. rewrite (Hfree Ha). lia.
Qed.

(** merge_list holds the lock of the first list when it appends to it. *)
Theorem merge_list_blocks s W p q l1 l2 ps1 es1 ps2 es2 : world_ok s W -> p ≠ q ->
  W !! p = Some (ps1, es1) -> W !! q = Some (ps2, es2) -> ks_lists s !! p = Some l1 -> ks_lists s !! q = Some l2 ->
  ll_auto_lock l1 = true -> es2 ≠ [] -> ks_signal s = false -> merge_list p q s = KBlock.
Proof.
  intros HW Hpq Hp Hq Hl1 Hl2 Ha Hne Hsig. destruct (op_start s W p ps1 es1 l1 HW Hp Hl1) as (Hp0 & Hf1 & _).
  destruct (op_start s W q ps2 es2 l2 HW Hq Hl2) as (Hq0 & Hf2 & Hk2 & Hkv2).
  unfold merge_list. rewrite (proj2 (Z.eqb_neq p 0)), (proj2 (Z.eqb_neq q 0)) by done. cbn [orb].
  rewrite (kbind_run _ _ _ _ _ (auto_lock_run p s l1 Hp0 Hl1 Hf1)). change (0 <? 0) with false. cbv iota.
  set (s1 := set_list s p (ks_mem s) (lock_view l1)).
  assert (Hl2' : ks_lists s1 !! q = Some l2) by (simpl; by rewrite lookup_insert_ne).
  rewrite (kbind_run _ _ _ _ _ (auto_lock_run q s1 l2 Hq0 Hl2' Hf2)). change (0 <? 0) with false. cbv iota.
  set (s2 := set_list s1 q (ks_mem s) (lock_view l2)).
  assert (Hq2 : ks_lists s2 !! q = Some (lock_view l2)) by apply lookup_insert_eq.
  unfold kbind at 1, __merge_list. rewrite (proj2 (Z.eqb_neq q 0)), (proj2 (Z.eqb_neq p 0)) by done. cbn [orb].
  rewrite (kbind_run _ _ _ _ _ (get_list_run q s2 _ Hq2)). unfold list_length. rewrite (kl_number _ _ _ _ Hkv2), Nat2Z.id.
  destruct es2 as [|e es2]; [done|]. cbn [length merge_loop].
  destruct (nth_element_spec _ _ _ _ 1 Hkv2) as (r & m' & l' & Hr & Hst & _).
  unfold kbind at 1. erewrite kbind_run; [|eapply on_list_run; [exact Hq2|exact Hr]].
  unfold kbind, insert_at_end. erewrite locked_again; [done|done| | | |done].
  - simpl. rewrite lookup_insert_ne, lookup_insert_ne, lookup_insert_eq by done. done.
  - unfold lock_view. by rewrite Ha.
  - unfold lock_view. rewrite Ha. simpl. rewrite (Hf1 Ha). lia.
Qed.
