(* ===== verification/KListWit.v ===== *)
(** Lists of the overlay file system on concrete inputs: the theorems applied to a list of
    two elements, and runs that fail. *)
From S2P Require Import Prelude KList KListSort KListInv KListOps KListIdx KListThm KListDup.
Open Scope Z_scope.

(** Pointers compared as numbers. *)
Definition zcmp : comp_func_t := λ x y, x - y.

#[export] Instance zcmp_order : comp_order zcmp.
Proof. split; unfold zcmp; lia. Qed.

Definition empty_mem : kmem := KMem ∅ ∅ 4096 0 (λ _, true) (λ _, true) 0.
Definition empty_state : kst := KSt empty_mem ∅ false.

(** The elements 5 and 3, a sorted primary index and an alternate index. *)
Definition demo_mem : kmem :=
  KMem (<[4112 := Node 5 4128]> (<[4128 := Node 3 0]> ∅)) ∅ 4144 3 (λ _, true) (λ _, true) 0.

Definition demo_ix : klist_index_struct := KIndex (Some zcmp) 0 KLIST_INDEX__UP_TO_DATE (Some (cells [3; 5])).

Definition demo_list : list_struct :=
  KL 2 ABSTRACT SORTED 4112 4128 (Some (cells [3; 5])) next_abs_node (Some zcmp) (Some zcmp)
     (Some add_abs_node) (Some add_abs_node_at_end) true 1 1
     (Some [Some demo_ix]).

Definition demo_state : kst := KSt demo_mem {[4096 := demo_list]} false.
Definition demo_world : gmap Z (list Z * list Z) := {[4096 := ([4112; 4128], [5; 3])]}.

Lemma demo_sorted : sorted_by zcmp [3; 5].
Proof. repeat constructor; unfold cle, zcmp; lia. Qed.

Lemma demo_ok : kl_ok demo_mem demo_list [4112; 4128] [5; 3].
Proof.
  split; [| done | simpl; lia | | | |].
  - repeat (econstructor; [lia|by apply (bool_decide_unpack _)|done|]). constructor.
  - split; [simpl; lia|]. intros p n. simpl.
    intros [[<- _]|[_ [[<- _]|[_ []%lookup_empty_Some]]%lookup_insert_Some]]%lookup_insert_Some; lia.
  - split; try done. intros c [= <-]. apply zcmp_order.
  - exists [3; 5], zcmp. split_and!; [done|apply Permutation_swap|done|apply demo_sorted].
  - split_and!; [done|simpl; lia|]. constructor; [|constructor]. exists zcmp. split_and!; [done|apply zcmp_order|].
    intros _. split; [done|]. exists [3; 5]. split_and!; [done|apply Permutation_swap|apply demo_sorted].
Qed.

Lemma demo_world_ok : world_ok demo_state demo_world.
Proof.
  unfold demo_world, demo_state. split; simpl.
  - apply demo_ok.
  - intros p ps es [<- [= <- <-]]%lookup_singleton_Some. split; [lia|]. exists demo_list.
    split_and!; [by apply lookup_singleton_eq|apply demo_ok|done].
  - intros p q ps es ps' es' n [<- _]%lookup_singleton_Some [<- _]%lookup_singleton_Some _ _. done.
  - intros p l [<- _]%lookup_singleton_Some. simpl. lia.
Qed.

Lemma demo_lookup : ks_lists demo_state !! 4096 = Some demo_list.
Proof. by apply lookup_singleton_eq. Qed.

Lemma demo_index : index_at demo_list 1 demo_ix.
Proof. eexists. split_and!; [done|lia|done]. Qed.


Lemma index_reads_sorted_witness :
  ∃ xs s', read_all 2 4096 1 1 demo_state = KRet ((λ e, (0, Some e)) <$> xs) s' ∧ xs ≡ₚ [5; 3] ∧ sorted_by zcmp xs ∧ world_ok s' demo_world.
Proof.
  apply (index_reads_sorted demo_state demo_world 4096 [4112; 4128] [5; 3] demo_list 1 demo_ix zcmp demo_world_ok).
  - by apply lookup_singleton_eq.
  - apply demo_lookup.
  - apply demo_index.
  - reflexivity.
  - left. discriminate.
Defined.

Lemma dup_list_copies_witness :
  ∃ r s' ps' xs, dup_list 4096 demo_state = KRet r s' ∧ demo_world !! r = None ∧ world_ok s' (<[r := (ps', xs)]> demo_world) ∧
    xs ≡ₚ [5; 3] ∧ (is_indexed demo_list = false -> xs = [5; 3]) ∧
    (is_indexed demo_list = true -> ll_element_list demo_list = Some (cells xs)).
Proof.
  apply (dup_list_copies demo_state demo_world 4096 demo_list [4112; 4128] [5; 3] demo_world_ok).
  - by apply lookup_singleton_eq.
  - apply demo_lookup.
  - reflexivity.
Defined.

Lemma ssort_sorts_witness :
  ∃ ys, ssort (Some (cells [5; 3; 4])) 3 (Some zcmp) = Some (Some (cells ys)) ∧ [5; 3; 4] ≡ₚ ys ∧
    ∀ i j x y, (i < j)%nat -> ys !! i = Some x -> ys !! j = Some y -> zcmp x y <= 0.
Proof. apply (ssort_sorts zcmp [5; 3; 4] zcmp_order). simpl. lia. Defined.

Lemma bsearch_total_witness :
  ∃ r, bsearch 4 (Some (cells [3; 4; 5])) 3 (Some zcmp) = Some r ∧
    ∀ pos, r = Some pos -> 0 <= pos ∧ ∃ x, [3; 4; 5] !! Z.to_nat pos = Some x ∧ zcmp 4 x = 0.
Proof. apply (bsearch_total zcmp 4 [3; 4; 5]). simpl. lia. Defined.

(** ** Runs that fail *)
Open Scope klist_scope.

Definition outcome {A} (o : kout A) : option (option A) :=
  match o with KRet a _ => Some (Some a) | KBlock => Some None | KFault => None end.

Definition new_demo : KM Z := create_list None (Some zcmp) (Some zcmp) None.

(** An empty list is sorted, then an element is inserted into the sorted index: the
    position is looked for in an array without cells. *)
Lemma sorted_empty_faults :
  outcome ((let* p := new_demo in do* sort_list p in insert_into_list_sorted p 1) empty_state) = None.
Proof. vm_compute. reflexivity. Qed.

(** An element is inserted at the front of an empty list, one at the end: the second
    node is counted, but not linked. *)
Lemma front_then_end_faults :
  outcome ((let* p := new_demo in do* insert_into_list p 1 in do* insert_at_end p 2 in nth_element p 2) empty_state) = None.
Proof. vm_compute. reflexivity. Qed.

(** insert_at_end leaves an alternate index that is up to date as it was: its last
    position is outside of the array. *)
Lemma end_stale_index_faults :
  outcome ((let* p := new_demo in do* insert_at_end p 1 in do* add_index p (Some zcmp) 0 in
            do* insert_at_end p 2 in read_index p 1 2) empty_state) = None.
Proof. vm_compute. reflexivity. Qed.

(** Without locking, clear_list reads the link of a node it has released. *)
Lemma clear_list_faults :
  outcome ((let* p := new_demo in do* set_list_autolock p false in do* insert_into_list p 1 in clear_list 10 p) empty_state) = None.
Proof. vm_compute. reflexivity. Qed.

(** index_list returns success, but the list is not indexed. *)
Lemma index_list_does_nothing :
  outcome ((let* p := new_demo in do* insert_into_list p 1 in let* r := index_list p in
            let* l := get_list p in kret (r, is_indexed l)) empty_state) = Some (Some (SUCCESS, false)).
Proof. vm_compute. reflexivity. Qed.

(** A sequence of operations that works. *)
Lemma klist_session :
  outcome ((let* p := new_demo in do* add_index p (Some zcmp) 0 in
            do* insert_into_list p 5 in do* insert_into_list p 3 in do* insert_into_list p 9 in
            let* a := read_all 3 p 1 1 in do* insert_into_list p 4 in let* x := remove_element p 9 in
            let* b := read_all 3 p 1 1 in let* q := search_index p 1 5 in
            let* d := dup_list p in let* e := nth_element d 2 in kret (a, x, b, q, e)) empty_state)
  = Some (Some ([(0, Some 3); (0, Some 5); (0, Some 9)], 9, [(0, Some 3); (0, Some 4); (0, Some 5)], (0, Some 3), 3)).
Proof. vm_compute. reflexivity. Qed.
