(* ===== verification/KListKeep.v ===== *)
(** What the operations on a list of the overlay file system leave alone beside the
    elements: the functions of the alternate indexes and the answers of the allocators
    ([keeps]); and which of them never leave an index that calls itself sorted where it
    was not ([calm]). Both hold of a program when they hold of its steps. *)
From S2P Require Import Prelude KList.
Open Scope Z_scope.

(** The functions of the alternate indexes, slot by slot. *)
Definition index_funcs (l : list_struct) : option (list (option (option comp_func_t))) :=
  option_map (map (option_map ix_comp_func)) (ll_indexes l).

Record kept (m : kmem) (l : list_struct) (m' : kmem) (l' : list_struct) : Prop := {
  kp_funcs : index_funcs l' = index_funcs l;
  kp_size : ll_index_arr_size l' = ll_index_arr_size l;
  kp_kmalloc : km_kmalloc m' = km_kmalloc m
}.

Definition keeps {A} (f : LM A) : Prop := ∀ m l a m' l', f m l = Some (a, m', l') -> kept m l m' l'.

Lemma kept_refl m l : kept m l m l.
Proof. done. Qed.
Lemma kept_trans m l m1 l1 m2 l2 : kept m l m1 l1 -> kept m1 l1 m2 l2 -> kept m l m2 l2.
Proof. intros [] []. split; congruence. Qed.

Lemma keeps_bind {A B} (f : LM A) (g : A -> LM B) : keeps f -> (∀ a, keeps (g a)) -> keeps (lbind f g).
Proof.
  intros Hf Hg m l b m2 l2. unfold lbind. destruct (f m l) as [[[a m1] l1]|] eqn:E; [|done]. intros Hb.
  eapply kept_trans; [by eapply Hf|by eapply Hg].
Qed.
Lemma keeps_ret {A} (a : A) : keeps (lret a).
Proof. intros m l ? ? ? [= <- <- <-]. done. Qed.
Lemma keeps_opt {A} (o : option A) : keeps (lopt o).
Proof. intros m l ? ? ?. unfold lopt. destruct o; cbn [mbind option_bind]; [|done]. by intros [= <- <- <-]. Qed.
Lemma keeps_get : keeps lget.
Proof. intros m l ? ? ? [= <- <- <-]. done. Qed.
Lemma keeps_mod f : (∀ l, index_funcs (f l) = index_funcs l ∧ ll_index_arr_size (f l) = ll_index_arr_size l) -> keeps (lmod f).
Proof. intros Hf m l ? ? ? [= <- <- <-]. split; [apply Hf..|done]. Qed.
Lemma keeps_malloc : keeps do_malloc.
Proof. intros m l ? ? ? [= <- <- <-]. done. Qed.
Lemma keeps_kmalloc : keeps do_kmalloc.
Proof. intros m l ? ? ? [= <- <- <-]. done. Qed.

Create HintDb lkeeps.
#[export] Hint Resolve keeps_ret keeps_opt keeps_get keeps_malloc keeps_kmalloc : lkeeps.

(** Goes through the steps of a program. *)
Ltac keep_tac :=
  repeat first
    [ progress cbv zeta
    | solve [auto with lkeeps]
    | apply keeps_bind; [|intros ?]
    | apply keeps_mod; intros ?; done
    | match goal with
      | |- keeps (match ?x with _ => _ end) => destruct x
      | |- keeps (if ?b then _ else _) => destruct b
      | |- keeps (let '(_, _) := ?x in _) => destruct x
      end ].

Lemma keeps_make_index : keeps make_index.
Proof.
  unfold make_index. apply keeps_bind; [auto with lkeeps|]. intros [?|]; [|auto with lkeeps].
  intros m l a m' l'. destruct (make_index_loop _ _ _ _); cbn [mbind option_bind]; [|done]. destruct (_ <=? _); [|done]. by intros [= <- <- <-].
Qed.
#[export] Hint Resolve keeps_make_index : lkeeps.

Lemma keeps_check_index : keeps check_index.
Proof. unfold check_index, __index_list. keep_tac. Qed.
Lemma keeps_realloc o a b : keeps (my_realloc o a b).
Proof. unfold my_realloc. keep_tac. Qed.
#[export] Hint Resolve keeps_check_index keeps_realloc : lkeeps.

Lemma keeps_sort : keeps __sort_list.
Proof. unfold __sort_list. keep_tac. Qed.
Lemma keeps_nth n : keeps (__nth_element n).
Proof. unfold __nth_element. keep_tac. Qed.
Lemma keeps_cleanup : keeps cleanup_index.
Proof. unfold cleanup_index. keep_tac. Qed.
#[export] Hint Resolve keeps_sort keeps_nth keeps_cleanup : lkeeps.

Lemma keeps_append x n : keeps (index_append x n).
Proof. unfold index_append, grow_index, set_index_cell. keep_tac. Qed.
Lemma keeps_ordered x p n : keeps (grow_index_ordered x p n).
Proof. unfold grow_index_ordered. keep_tac. Qed.
#[export] Hint Resolve keeps_append keeps_ordered : lkeeps.

Lemma keeps_l_search v : keeps (l_search v).
Proof.
  intros m l a m' l'. unfold l_search. destruct (Z.to_nat _); [by intros [= <- <- <-]|]. destruct (ll_search_func l); [|done].
  destruct (l_search_loop _ _ _ _ _ _) as [[r k]|]; cbn [mbind option_bind]; [|done]. by intros [= <- <- <-].
Qed.
#[export] Hint Resolve keeps_l_search : lkeeps.

Lemma keeps_search v : keeps (search_for_element_body v).
Proof. unfold search_for_element_body. keep_tac. Qed.

(** The function of one slot, which a program that keeps the functions keeps. *)
Definition func_at (id : Z) (c : option comp_func_t) (l : list_struct) : Prop :=
  ∃ fs, index_funcs l = Some fs ∧ 1 <= id ∧ fs !! Z.to_nat (id - 1) = Some (Some c).

Definition keeps_at {A} (id : Z) (c : option comp_func_t) (f : LM A) : Prop :=
  ∀ m l a m' l', func_at id c l -> f m l = Some (a, m', l') -> kept m l m' l'.

Lemma func_at_kept id c m l m' l' : kept m l m' l' -> func_at id c l -> func_at id c l'.
Proof. intros [Hf _ _]. unfold func_at. by rewrite Hf. Qed.

Lemma keeps_at_any {A} id c (f : LM A) : keeps f -> keeps_at id c f.
Proof. intros Hf m l a m' l' _. by apply Hf. Qed.
Lemma keeps_at_bind {A B} id c (f : LM A) (g : A -> LM B) : keeps_at id c f -> (∀ a, keeps_at id c (g a)) -> keeps_at id c (lbind f g).
Proof.
  intros Hf Hg m l b m2 l2 Hat. unfold lbind. destruct (f m l) as [[[a m1] l1]|] eqn:E; [|done]. intros Hb.
  specialize (Hf _ _ _ _ _ Hat E). eapply kept_trans; [exact Hf|]. eapply Hg; [by eapply func_at_kept|exact Hb].
Qed.
Lemma keeps_at_set id c ix : ix_comp_func ix = c -> keeps_at id c (set_slot id (Some ix)).
Proof.
  intros Hc m l a m' l' (fs & Hfs & _ & Hat) [= <- <- <-]. split; [|done|done]. unfold index_funcs in *. simpl.
  destruct (ll_indexes l) as [ixs|]; [|done]. simpl in *. injection Hfs as Hfs. f_equal.
  change (map ?f ?l) with (f <$> l) in *. rewrite list_fmap_insert. simpl. rewrite Hc. rewrite Hfs. by apply list_insert_id.
Qed.

Lemma get_slot_inv id m l s m' l' : get_slot id m l = Some (s, m', l') -> m' = m ∧ l' = l ∧ ∀ ix, s = Some ix -> func_at id (ix_comp_func ix) l.
Proof.
  unfold get_slot, func_at, index_funcs. destruct (ll_indexes l) as [ixs|]; [|done]. cbn [mbind option_bind]. destruct (Z.leb_spec 1 id); [|done].
  destruct (ixs !! Z.to_nat (id - 1)) as [s0|] eqn:E; [|done]. cbn [mbind option_bind]. intros [= <- <- <-].
  split_and!; [done|done|]. intros ix ->. eexists. split; [done|]. split; [done|]. change (map ?f ?l) with (f <$> l). by rewrite list_lookup_fmap, E.
Qed.

(** Reading a slot, and going on with what it holds. *)
Lemma keeps_slot {A} id (g : option klist_index_struct -> LM A) :
  keeps (g None) -> (∀ ix, keeps_at id (ix_comp_func ix) (g (Some ix))) -> keeps (lbind (get_slot id) g).
Proof.
  intros Hn Hg m l a m' l'. unfold lbind. destruct (get_slot id m l) as [[[s m1] l1]|] eqn:E; [|done].
  apply get_slot_inv in E as (-> & -> & Hs). destruct s as [ix|]; [|by apply Hn]. apply Hg. by apply Hs.
Qed.
Lemma keeps_get_slot id : keeps (get_slot id).
Proof. intros m l a m' l' (-> & -> & _)%get_slot_inv. done. Qed.
#[export] Hint Resolve keeps_get_slot : lkeeps.

Ltac keep_at_tac :=
  repeat first
    [ progress cbv zeta
    | apply keeps_at_set; reflexivity
    | solve [apply keeps_at_any; auto with lkeeps]
    | apply keeps_at_bind; [|intros ?]
    | match goal with
      | |- keeps_at _ _ (match ?x with _ => _ end) => destruct x
      | |- keeps_at _ _ (if ?b then _ else _) => destruct b
      end ].

Lemma keeps_guard id k : (∀ ix a, keeps_at id (ix_comp_func ix) (k ix a)) -> keeps (alt_index_guard id k).
Proof.
  intros Hk. unfold alt_index_guard. apply keeps_slot; [auto with lkeeps|]. intros ix.
  destruct (ix_state ix); [|apply keeps_at_any; auto with lkeeps]. destruct (ix_elements ix); [|apply keeps_at_any; auto with lkeeps].
  destruct (negb _); [by apply keeps_at_set|apply Hk].
Qed.

Lemma keeps_alt_insert id x : keeps (alt_index_insert id x).
Proof. apply keeps_guard. intros ix a. keep_at_tac. Qed.
Lemma keeps_alt_resize id n : keeps (alt_index_resize id n).
Proof. apply keeps_guard. intros ix a. keep_at_tac. Qed.
Lemma keeps_alt_delete id x : keeps (alt_index_delete id x).
Proof. apply keeps_guard. intros ix a. keep_at_tac. Qed.
#[export] Hint Resolve keeps_alt_insert keeps_alt_resize keeps_alt_delete : lkeeps.

Lemma keeps_all f : (∀ id, keeps (f id)) -> keeps (all_indexes f).
Proof.
  intros Hf. unfold all_indexes. apply keeps_bind; [auto with lkeeps|]. intros l. generalize 1.
  induction (Z.to_nat (ll_index_arr_size l)) as [|k IH]; intros id; simpl; [auto with lkeeps|]. apply keeps_bind; [apply Hf|by intros _].
Qed.

Lemma keeps_update id : keeps (update_alt_index id).
Proof.
  unfold update_alt_index. apply keeps_slot.
  - intros m l a m' l'. by unfold lbind, lopt.
  - intros ix. change (lbind (lopt (Some ix)) ?g) with (g ix). cbv beta. keep_at_tac.
Qed.
#[export] Hint Resolve keeps_update : lkeeps.

Lemma keeps_fresh id ix : keeps (fresh_index id ix).
Proof. unfold fresh_index. keep_tac. Qed.
#[export] Hint Resolve keeps_fresh : lkeeps.

Lemma keeps_read id n : keeps (read_index_body id n).
Proof. unfold read_index_body. keep_tac. Qed.
Lemma keeps_search_index id v : keeps (search_index_body id v).
Proof. unfold search_index_body, valid_slot. keep_tac. Qed.

(** ** Inserting and removing *)
Lemma add_front_kmalloc m x q a m' : add_abs_node m x q = Some (a, m') -> km_kmalloc m' = km_kmalloc m.
Proof. unfold add_abs_node, request. destruct (km_do_malloc m _); by intros [= <- <-]. Qed.
Lemma add_end_kmalloc m x q a m' : add_abs_node_at_end m x q = Some (a, m') -> km_kmalloc m' = km_kmalloc m.
Proof.
  unfold add_abs_node_at_end, request. destruct (km_do_malloc m _); [|by intros [= <- <-]]. destruct (q =? 0).
  - cbn [mbind option_bind]. by intros [= <- <-].
  - simpl. destruct (km_nodes m !! q); cbn [mbind option_bind]; [|done]. by intros [= <- <-].
Qed.

Lemma keeps_node_data p : keeps (LIST_NODE_DATA p).
Proof.
  intros m l a m' l'. unfold LIST_NODE_DATA. destruct (ll_list_type l); [by intros [= <- <- <-]|].
  destruct (p =? 0); [by intros [= <- <- <-]|]. destruct (node_data l m p); cbn [mbind option_bind]; [|done]. by intros [= <- <- <-].
Qed.
#[export] Hint Resolve keeps_node_data : lkeeps.

(** A program that goes on after a node was added by [f]. *)
Lemma keeps_add {A} (f : add_node_func_t) x q (g : Z -> LM A) : (∀ m a m', f m x q = Some (a, m') -> km_kmalloc m' = km_kmalloc m) ->
  (∀ r, keeps (g r)) -> keeps (lbind (call_add f x q) g).
Proof.
  intros Hf Hg. apply keeps_bind; [|done]. intros m l a m' l'. unfold call_add.
  destruct (f m x q) as [[r m1]|] eqn:E; cbn [mbind option_bind]; [|done]. intros [= <- <- <-]. split; [done|done|by eapply Hf].
Qed.

Lemma keeps_insert_sorted x m l a m' l' : ll_add_node l = Some add_abs_node ->
  insert_into_list_sorted_body x m l = Some (a, m', l') -> kept m l m' l'.
Proof.
  intros Ha. unfold insert_into_list_sorted_body. unfold lbind at 1, lget at 1. rewrite Ha. apply keeps_add; [eauto using add_front_kmalloc|].
  intros r. apply keeps_bind; [|intros ?; auto with lkeeps]. destruct (r =? 0); [auto with lkeeps|].
  apply keeps_bind; [apply keeps_all; intros id; keep_tac|intros _]. keep_tac.
Qed.

Lemma keeps_insert_end x m l a m' l' : ll_add_node l = Some add_abs_node -> ll_list_type l = ABSTRACT -> ll_add_at_end l = Some add_abs_node_at_end ->
  insert_at_end_body x m l = Some (a, m', l') -> kept m l m' l'.
Proof.
  intros Ha Ht He. unfold insert_at_end_body. unfold lbind at 1, lget at 1. rewrite Ha, Ht, He.
  change (lbind (lbind (lopt (Some ?f)) ?g) ?h m l) with (lbind (g f) h m l). cbv beta. apply keeps_add; [eauto using add_end_kmalloc|].
  intros r. apply keeps_bind; [|intros ?; auto with lkeeps]. keep_tac.
Qed.

Lemma keeps_remove v : keeps (remove_element_body v).
Proof.
  unfold remove_element_body, remove_body. apply keeps_bind; [auto with lkeeps|intros l0]. destruct (ll_search_func l0); [|keep_tac].
  apply keeps_bind; [|intros [la q]].
  - intros m l a m' l'. destruct (remove_walk _ _ _ _ _ _); cbn [mbind option_bind]; [|done]. by intros [= <- <- <-].
  - destruct (q =? 0); [auto with lkeeps|]. apply keeps_bind; [|intros e].
    + intros m l a m' l'. unfold unlink_node. destruct (km_nodes m !! q); cbn [mbind option_bind]; [|done].
      destruct (la =? 0); [|destruct (km_nodes m !! la)]; cbn [mbind option_bind]; [by intros [= <- <- <-]..|done].
    + apply keeps_bind; [auto with lkeeps|intros _]. apply keeps_bind; [apply keeps_all; intros id; keep_tac|intros _]. keep_tac.
Qed.

(** ** The mode of the primary index *)
Definition calm {A} (f : LM A) : Prop := ∀ m l a m' l', f m l = Some (a, m', l') -> ll_index_mode l' = SORTED -> ll_index_mode l = SORTED.

Lemma calm_bind {A B} (f : LM A) (g : A -> LM B) : calm f -> (∀ a, calm (g a)) -> calm (lbind f g).
Proof.
  intros Hf Hg m l b m2 l2. unfold lbind. destruct (f m l) as [[[a m1] l1]|] eqn:E; [|done]. intros Hb Hs. eapply Hf; [done|by eapply Hg].
Qed.
Lemma calm_same {A} (f : LM A) : (∀ m l a m' l', f m l = Some (a, m', l') -> ll_index_mode l' = ll_index_mode l) -> calm f.
Proof. intros Hf m l a m' l' Hr. by rewrite (Hf _ _ _ _ _ Hr). Qed.
Lemma calm_ret {A} (a : A) : calm (lret a).
Proof. apply calm_same. by intros ? ? ? ? ? [= <- <- <-]. Qed.
Lemma calm_opt {A} (o : option A) : calm (lopt o).
Proof. apply calm_same. intros m l ? ? ?. unfold lopt. destruct o; cbn [mbind option_bind]; [|done]. by intros [= <- <- <-]. Qed.
Lemma calm_get : calm lget.
Proof. apply calm_same. by intros ? ? ? ? ? [= <- <- <-]. Qed.
Lemma calm_mod f : (∀ l, ll_index_mode (f l) = SORTED -> ll_index_mode l = SORTED) -> calm (lmod f).
Proof. intros Hf m l ? ? ? [= <- <- <-]. apply Hf. Qed.
Lemma calm_malloc : calm do_malloc.
Proof. apply calm_same. by intros ? ? ? ? ? [= <- <- <-]. Qed.
Lemma calm_get_slot id : calm (get_slot id).
Proof. apply calm_same. intros m l a m' l' (_ & -> & _)%get_slot_inv. done. Qed.
Lemma calm_set_slot id s : calm (set_slot id s).
Proof. unfold set_slot. by apply calm_mod. Qed.
Lemma calm_make_index : calm make_index.
Proof.
  unfold make_index. apply calm_bind; [apply calm_malloc|]. intros [?|]; [|apply calm_ret].
  intros m l a m' l'. destruct (make_index_loop _ _ _ _); cbn [mbind option_bind]; [|done]. destruct (_ <=? _); [|done]. by intros [= <- <- <-].
Qed.
Lemma calm_l_search v : calm (l_search v).
Proof.
  intros m l a m' l'. unfold l_search. destruct (Z.to_nat _); [by intros [= <- <- <-]|]. destruct (ll_search_func l); [|done].
  destruct (l_search_loop _ _ _ _ _ _) as [[r k]|]; cbn [mbind option_bind]; [|done]. by intros [= <- <- <-].
Qed.

Create HintDb lcalm.
#[export] Hint Resolve calm_ret calm_opt calm_get calm_malloc calm_get_slot calm_set_slot calm_make_index calm_l_search : lcalm.

Ltac calm_tac :=
  repeat first
    [ progress cbv zeta
    | solve [auto with lcalm]
    | apply calm_bind; [|intros ?]
    | apply calm_mod; intros ?; (done || discriminate)
    | match goal with
      | |- calm (match ?x with _ => _ end) => destruct x
      | |- calm (if ?b then _ else _) => destruct b
      | |- calm (let '(_, _) := ?x in _) => destruct x
      end ].

Lemma calm_check_index : calm check_index.
Proof. unfold check_index, __index_list. calm_tac. Qed.
#[export] Hint Resolve calm_check_index : lcalm.

Lemma calm_nth n : calm (__nth_element n).
Proof. unfold __nth_element. calm_tac. Qed.
Lemma calm_search v : calm (search_for_element_body v).
Proof. unfold search_for_element_body. calm_tac. Qed.
Lemma calm_read id n : calm (read_index_body id n).
Proof. unfold read_index_body, fresh_index, update_alt_index. calm_tac. Qed.
Lemma calm_search_index id v : calm (search_index_body id v).
Proof. unfold search_index_body, valid_slot, fresh_index, update_alt_index. calm_tac. Qed.
