(* ===== verification/FileIo.v ===== *)
(** File descriptors of the overlay file system (file_io/file_io.c): a table of open files
    for the kernel modules, with reading, writing and seeking through it.

    What the kernel does for an open file is a parameter ([file_operations]); the code is
    used with regular files, whose documented behaviour is [regular_file]. Every function
    holds the lock of the table while it looks at it and for nothing else, so that a call
    is one step. *)
From S2P Require Import Prelude.
Open Scope Z_scope.

Definition FIO_MAX_FILE : nat := 256.
Definition FIO_EBADF : Z := 9.
Definition FIO_EINVAL : Z := 22.
Definition FIO_ENFILE : Z := 23.

(** f_op: reading gives the result and the bytes that were stored; each also gives the
    file afterwards. [filp_open] is an open file or the error. *)
Class file_operations (F : Type) := {
  f_read : F -> Z -> Z * list Z * F;
  f_write : F -> list Z -> Z * F;
  f_llseek : F -> Z -> Z -> Z * F
}.

Definition FILE_IO__SEEK_SET : Z := 0.
Definition FILE_IO__SEEK_CUR : Z := 1.
Definition FILE_IO__SEEK_END : Z := 2.

(** A regular file has contents and a position inside of them. Reading gives what there
    is from the position on, as much as was asked for; writing puts all the bytes at the
    position, or fails; seeking inside of the contents succeeds. *)
Class regular_file (F : Type) `{file_operations F} := {
  f_data : F -> list Z;
  f_pos : F -> nat;
  f_room : F -> nat;
  f_pos_in f : (f_pos f <= length (f_data f))%nat;
  f_read_ok f n : 0 <= n ->
    let bs := take (Z.to_nat n) (drop (f_pos f) (f_data f)) in
    ∃ f', f_read f n = (Z.of_nat (length bs), bs, f') ∧ f_data f' = f_data f ∧ f_pos f' = (f_pos f + length bs)%nat ∧ f_room f' = f_room f;
  f_write_ok f bs : (f_pos f + length bs <= f_room f)%nat ->
    ∃ f', f_write f bs = (Z.of_nat (length bs), f') ∧
      f_data f' = take (f_pos f) (f_data f) ++ bs ++ drop (f_pos f + length bs) (f_data f) ∧ f_pos f' = (f_pos f + length bs)%nat ∧
      f_room f' = f_room f;
  f_write_full f bs : (f_room f < f_pos f + length bs)%nat -> bs ≠ [] -> ∃ e f', f_write f bs = (e, f') ∧ e < 0;
  f_seek_set f p : 0 <= p <= Z.of_nat (length (f_data f)) ->
    ∃ f', f_llseek f p FILE_IO__SEEK_SET = (p, f') ∧ f_data f' = f_data f ∧ f_pos f' = Z.to_nat p ∧ f_room f' = f_room f;
  f_seek_cur f o : 0 <= Z.of_nat (f_pos f) + o <= Z.of_nat (length (f_data f)) ->
    ∃ f', f_llseek f o FILE_IO__SEEK_CUR = (Z.of_nat (f_pos f) + o, f') ∧ f_data f' = f_data f ∧
      f_pos f' = Z.to_nat (Z.of_nat (f_pos f) + o) ∧ f_room f' = f_room f;
  f_seek_end f :
    ∃ f', f_llseek f 0 FILE_IO__SEEK_END = (Z.of_nat (length (f_data f)), f') ∧ f_data f' = f_data f ∧
      f_pos f' = length (f_data f) ∧ f_room f' = f_room f
}.

Record fio_file_info_t (F : Type) := FioFile { filp : option F; in_use : bool }.
Arguments FioFile {F} filp in_use.
Arguments filp {F} f.
Arguments in_use {F} f.

Abbreviation fio_tbl F := (list (fio_file_info_t F)).

Section Table.
Context {F : Type} `{!file_operations F}.

Definition FIO_file_tbl : fio_tbl F := replicate FIO_MAX_FILE (FioFile None false).

(** The file of a descriptor the functions accept. *)
Definition fio_get (tbl : fio_tbl F) (fd : Z) : option (fio_file_info_t F) :=
  if (fd <? 0) || (Z.of_nat FIO_MAX_FILE <=? fd) then None
  else e ← tbl !! Z.to_nat fd; if in_use e then Some e else None.

Definition fio_put (tbl : fio_tbl F) (fd : Z) (f : F) : fio_tbl F := <[Z.to_nat fd := FioFile (Some f) true]> tbl.

Definition file_write (fd : Z) (buf : list Z) (tbl : fio_tbl F) : Z * fio_tbl F :=
  match fio_get tbl fd with
  | None => (- FIO_EBADF, tbl)
  | Some e =>
      match filp e with
      | None => (- FIO_EBADF, tbl)
      | Some f => let '(ret_code, f') := f_write f buf in (ret_code, fio_put tbl fd f')
      end
  end.

(** The result, what was stored in the buffer and the table. *)
Definition file_read (fd count : Z) (tbl : fio_tbl F) : Z * list Z * fio_tbl F :=
  match fio_get tbl fd with
  | None => (- FIO_EBADF, [], tbl)
  | Some e =>
      match filp e with
      | None => (- FIO_EINVAL, [], tbl)
      | Some f => let '(ret_code, bs, f') := f_read f count in (ret_code, bs, fio_put tbl fd f')
      end
  end.

Definition file_lseek (fd offset from_where : Z) (tbl : fio_tbl F) : Z * fio_tbl F :=
  match fio_get tbl fd with
  | None => (- FIO_EBADF, tbl)
  | Some e =>
      match filp e with
      | None => (- FIO_EINVAL, tbl)
      | Some f => let '(ret_code, f') := f_llseek f offset from_where in (ret_code, fio_put tbl fd f')
      end
  end.

(** while ( ( FIO_file_tbl[slot].in_use ) && ( slot < FIO_MAX_FILE ) ): the first entry
    that is not in use. The entry is read before its number is compared, so that a
    table that is full is read behind its end ([None]). *)
Fixpoint free_entry (tbl : fio_tbl F) (slot : nat) : option nat :=
  match tbl with
  | [] => None
  | e :: tbl' => if in_use e then free_entry tbl' (S slot) else Some slot
  end.

(** [opened] is what filp_open gives for the path and the mode: a file or an error. *)
Definition file_open (opened : F + Z) (tbl : fio_tbl F) : option (Z * fio_tbl F) :=
  slot ← free_entry tbl 0;
  if (FIO_MAX_FILE <=? slot)%nat then Some (- FIO_ENFILE, tbl)
  else
    let e := default (FioFile None false) (tbl !! slot) in
    match opened with
    | inl f => Some (Z.of_nat slot, <[slot := FioFile (Some f) true]> tbl)
    | inr err => Some (err, <[slot := FioFile (filp e) true]> tbl)
    end.

Definition file_dup_filp (f : option F) (tbl : fio_tbl F) : option (Z * fio_tbl F) :=
  match f with
  | None => Some (- FIO_EINVAL, tbl)
  | Some f =>
      slot ← free_entry tbl 0;
      if (slot <? FIO_MAX_FILE)%nat then Some (Z.of_nat slot, <[slot := FioFile (Some f) true]> tbl)
      else Some (- FIO_ENFILE, tbl)
  end.

(** The table, and the file that is closed. *)
Definition file_close (fd : Z) (tbl : fio_tbl F) : option F * fio_tbl F :=
  match fio_get tbl fd with
  | None => (None, tbl)
  | Some e => (filp e, <[Z.to_nat fd := FioFile None false]> tbl)
  end.

(** ** The table as a map from descriptors to files *)
Definition file_at (tbl : fio_tbl F) (fd : Z) : option F := e ← fio_get tbl fd; filp e.

Lemma fio_get_put tbl fd f e : length tbl = FIO_MAX_FILE -> fio_get tbl fd = Some e -> fio_get (fio_put tbl fd f) fd = Some (FioFile (Some f) true).
Proof.
  unfold fio_get, fio_put. intros Hlen. destruct ((fd <? 0) || (Z.of_nat FIO_MAX_FILE <=? fd)) eqn:E; [done|].
  apply orb_false_iff in E as [E1%Z.ltb_ge E2%Z.leb_gt]. intros _. rewrite list_lookup_insert_eq by (rewrite Hlen; lia). done.
Qed.

Lemma fio_get_insert_ne (tbl : fio_tbl F) fd fd' e : fd ≠ fd' -> 0 <= fd -> fio_get (<[Z.to_nat fd := e]> tbl) fd' = fio_get tbl fd'.
Proof.
  unfold fio_get. intros Hne Hfd. destruct ((fd' <? 0) || _) eqn:E; [done|].
  apply orb_false_iff in E as [E1%Z.ltb_ge _]. by rewrite list_lookup_insert_ne by lia.
Qed.

Lemma file_at_get tbl fd f : file_at tbl fd = Some f -> ∃ e, fio_get tbl fd = Some e ∧ filp e = Some f.
Proof. unfold file_at. destruct (fio_get tbl fd) as [e|]; [|done]. eauto. Qed.

(** The table after an operation on one of its files. *)
Record fio_step (tbl : fio_tbl F) (fd : Z) (f' : F) (tbl' : fio_tbl F) : Prop := {
  fs_len : length tbl' = length tbl;
  fs_here : file_at tbl' fd = Some f';
  fs_other fd' : fd' ≠ fd -> file_at tbl' fd' = file_at tbl fd'
}.

Lemma fio_put_step tbl fd f f' : length tbl = FIO_MAX_FILE -> file_at tbl fd = Some f -> fio_step tbl fd f' (fio_put tbl fd f').
Proof.
  intros Hlen (e & He & _)%file_at_get. split.
  - apply length_insert.
  - unfold file_at. by rewrite (fio_get_put _ _ _ e).
  - intros fd' Hne. unfold file_at, fio_put. rewrite fio_get_insert_ne; [done|done|].
    unfold fio_get in He. destruct (Z.ltb_spec fd 0); [done|lia].
Qed.

Lemma file_read_at tbl fd f n r bs f' : file_at tbl fd = Some f -> f_read f n = (r, bs, f') -> file_read fd n tbl = (r, bs, fio_put tbl fd f').
Proof. intros (e & He & Hf)%file_at_get Hr. unfold file_read. by rewrite He, Hf, Hr. Qed.
Lemma file_write_at tbl fd f bs r f' : file_at tbl fd = Some f -> f_write f bs = (r, f') -> file_write fd bs tbl = (r, fio_put tbl fd f').
Proof. intros (e & He & Hf)%file_at_get Hr. unfold file_write. by rewrite He, Hf, Hr. Qed.
Lemma file_lseek_at tbl fd f o w r f' : file_at tbl fd = Some f -> f_llseek f o w = (r, f') -> file_lseek fd o w tbl = (r, fio_put tbl fd f').
Proof. intros (e & He & Hf)%file_at_get Hr. unfold file_lseek. by rewrite He, Hf, Hr. Qed.

(** ** Descriptors *)
Lemma free_entry_spec tbl k slot : free_entry tbl k = Some slot ->
  (k <= slot < k + length tbl)%nat ∧ (∃ e, tbl !! (slot - k)%nat = Some e ∧ in_use e = false) ∧
  ∀ j, (k <= j < slot)%nat -> ∃ e, tbl !! (j - k)%nat = Some e ∧ in_use e = true.
Proof.
  revert k. induction tbl as [|e tbl IH]; intros k; simpl; [done|]. destruct (in_use e) eqn:E.
  - intros (Hr & Hs & Hj)%IH. split; [lia|]. replace (slot - k)%nat with (S (slot - S k)) by lia. split; [done|].
    intros j Hjk. destruct (decide (j = k)) as [->|]; [rewrite Nat.sub_diag; eauto|].
    replace (j - k)%nat with (S (j - S k)) by lia. apply Hj. lia.
  - intros [= <-]. split; [lia|]. rewrite Nat.sub_diag. split; [eauto|lia].
Qed.

Lemma free_entry_none tbl k : free_entry tbl k = None <-> Forall (λ e, in_use e = true) tbl.
Proof.
  revert k. induction tbl as [|e tbl IH]; intros k; simpl; [by split|]. rewrite list.Forall_cons.
  destruct (in_use e); [rewrite IH; tauto|]. split; [done|]. by intros [[=] _].
Qed.
End Table.

(** ** A regular file in memory *)
Record memfile := MemFile { mf_data : list Z; mf_pos : nat; mf_room : nat }.

(** The position, which is never behind the end. *)
Definition mf_at (f : memfile) : nat := Nat.min (mf_pos f) (length (mf_data f)).

Definition mf_set_pos (f : memfile) (p : Z) : Z * memfile :=
  if (p <? 0) || (Z.of_nat (length (mf_data f)) <? p) then (- FIO_EINVAL, f)
  else (p, MemFile (mf_data f) (Z.to_nat p) (mf_room f)).

#[export] Instance memfile_ops : file_operations memfile := {
  f_read f n :=
    let bs := take (Z.to_nat n) (drop (mf_at f) (mf_data f)) in
    (Z.of_nat (length bs), bs, MemFile (mf_data f) (mf_at f + length bs) (mf_room f));
  f_write f bs :=
    let e := (mf_at f + length bs)%nat in
    if (e <=? mf_room f)%nat
    then (Z.of_nat (length bs), MemFile (take (mf_at f) (mf_data f) ++ bs ++ drop e (mf_data f)) e (mf_room f))
    else (-28, f);
  f_llseek f o w :=
    mf_set_pos f (if w =? FILE_IO__SEEK_SET then o else if w =? FILE_IO__SEEK_CUR then Z.of_nat (mf_at f) + o
                  else Z.of_nat (length (mf_data f)) + o)
}.

Lemma mf_set_pos_in f p : 0 <= p <= Z.of_nat (length (mf_data f)) -> mf_set_pos f p = (p, MemFile (mf_data f) (Z.to_nat p) (mf_room f)).
Proof. intros Hp. unfold mf_set_pos. by rewrite (proj2 (Z.ltb_ge p 0)), (proj2 (Z.ltb_ge (Z.of_nat _) p)) by lia. Qed.

#[export] Program Instance memfile_regular : regular_file memfile := {| f_data := mf_data; f_pos := mf_at; f_room := mf_room |}.
Next Obligation. intros f. unfold mf_at. lia. Qed.
Next Obligation.
  intros f n Hn. eexists. split; [reflexivity|]. unfold mf_at. simpl. rewrite length_take, length_drop. split_and!; [done|lia|done].
Qed.
Next Obligation.
  intros f bs Hr. simpl. rewrite (proj2 (Nat.leb_le _ _)) by done. eexists. split; [reflexivity|]. split_and!; [done| |done]. unfold mf_at at 1. simpl.
  rewrite !length_app, length_take, length_drop. unfold mf_at. lia.
Qed.
Next Obligation. intros f bs Hr _. simpl. rewrite (proj2 (Nat.leb_gt _ _)) by done. eexists _, _. split; [reflexivity|lia]. Qed.
Next Obligation.
  intros f p Hp. simpl. rewrite mf_set_pos_in by done. eexists. split; [reflexivity|]. split_and!; [done| |done]. unfold mf_at. simpl. lia.
Qed.
Next Obligation.
  intros f o Hp. simpl. rewrite mf_set_pos_in by done. eexists. split; [reflexivity|]. split_and!; [done| |done]. unfold mf_at. simpl. unfold mf_at in Hp. lia.
Qed.
Next Obligation.
  intros f. simpl. rewrite mf_set_pos_in by lia. eexists. rewrite Z.add_0_r. split; [reflexivity|]. split_and!; [done| |done]. unfold mf_at. simpl. lia.
Qed.
