(* ===== verification/Stg.v ===== *)
(** Storage of the overlay file system in memory (fs/ovl_stg.c, include/ovl_stg.h): the
    inodes, their directory entries and the mappings between inodes, kept in the
    generic lists of [KList].

    Objects are at addresses ([s_obj]), as in the lists, which hold addresses. A name is
    owned by the one structure that points to it, so it is a value of that structure.
    The functions a list compares its elements by look at the objects, so what such a
    function is depends on the memory: [s_funcs] is the function each list was created
    with, and a call into the list module is made with its meaning in the memory of the
    call ([with_callbacks]). A variable on the stack whose address is passed is an object
    at an address of its own for the time of the call ([with_tmp]). There is one super
    block, so the pointers to it are not NULL. [None] is an access to memory that is not
    there, or a wait for ever. *)
From S2P Require Import Prelude KList.
Open Scope Z_scope.

(** ** Constants *)
Definition OVLFS_SUPER_MAGIC : Z := 0xFE0F.
Definition OVLFS_ROOT_INO : Z := 1.
Definition OVLFS_STG_CK_MEM : Z := 2.
Definition OVLFS_STORE_BASE_MAP : Z := 8.
Definition OVLFS_STORE_STG_MAP : Z := 16.
Definition OVLFS_UPD_UMOUNT_ONLY : Z := 32.
Definition OVLFS_DIRENT_NORMAL : Z := 0.
Definition OVLFS_DIRENT_UNLINKED : Z := 1.
Definition OVLFS_DIRENT_RELINKED : Z := 2.
Definition OVL_IFLAG__NO_BASE_REF : Z := 2.
Definition NODEV : Z := 0.
Definition EEXIST : Z := 17.
Definition EIO : Z := 5.

(** [x & m] as a condition. *)
Definition has (x m : Z) : bool := negb (Z.land x m =? 0).

(** ** Structures *)
Record ovlfs_dir_info_t := DirInfo {
  di_name : list Z; di_len : Z; di_ino : Z; di_flags : Z; di_pos : Z
}.

Record ovlfs_ino_map_t := InoMap { im_dev : Z; im_ino : Z; im_ovl_ino : Z }.

(** [sp_name] is [None] for NULL. *)
Record ovlfs_inode_special_t := Special {
  sp_parent_ino : Z; sp_base_dev : Z; sp_base_ino : Z; sp_stg_dev : Z; sp_stg_ino : Z; sp_flags : Z;
  sp_name : option (list Z); sp_len : Z
}.

(** What an inode has in common with the inode of the kernel. *)
Record inode_attr := Attr {
  at_mode : Z; at_size : Z; at_uid : Z; at_gid : Z; at_atime : Z; at_mtime : Z; at_ctime : Z; at_nlink : Z;
  at_blksize : Z; at_blocks : Z; at_version : Z; at_nrpages : Z
}.

(** [oi_u] is the union, as an integer. *)
Record ovlfs_inode_t := Inode {
  oi_attr : inode_attr; oi_u : Z; oi_ino : Z; oi_s : ovlfs_inode_special_t; oi_num_rm_ent : Z;
  oi_dir_entries : Z; oi_last_dir_pos : Z; oi_pos_index : Z; oi_att_valid_f : bool
}.

Inductive object := OInode (i : ovlfs_inode_t) | ODirent (d : ovlfs_dir_info_t) | OMap (m : ovlfs_ino_map_t).

(** The functions the lists of this module compare by. *)
Inductive lkind := KInodes | KMaps | KDirents.

#[export] Instance lkind_eq : EqDecision lkind.
Proof. solve_decision. Defined.

(** What the module keeps of the super block; [sb_stg_name] is [None] for NULL. *)
Record super_info := Super {
  sb_magic : Z; sb_storage_opts : Z; sb_dirt : bool; sb_inodes : Z; sb_base_to_ovl : Z; sb_stg_to_ovl : Z;
  sb_stg_name : option (list Z); sb_stg_name_len : Z
}.

(** The memory of the lists, the functions of the lists, the objects, the super block
    and what si_meminfo tells of free and total memory. *)
Record sst := SSt {
  s_k : kst; s_funcs : gmap Z lkind; s_obj : gmap Z object; s_sup : super_info; s_freeram : Z; s_totalram : Z
}.

(** ** Assignments to fields *)
Definition set_k (st : sst) (k : kst) : sst := SSt k (s_funcs st) (s_obj st) (s_sup st) (s_freeram st) (s_totalram st).
Definition set_funcs (st : sst) (f : gmap Z lkind) : sst := SSt (s_k st) f (s_obj st) (s_sup st) (s_freeram st) (s_totalram st).
Definition set_objs (st : sst) (o : gmap Z object) : sst := SSt (s_k st) (s_funcs st) o (s_sup st) (s_freeram st) (s_totalram st).
Definition set_sup (st : sst) (b : super_info) : sst := SSt (s_k st) (s_funcs st) (s_obj st) b (s_freeram st) (s_totalram st).

Definition sup_dirt (b : super_info) : super_info :=
  Super (sb_magic b) (sb_storage_opts b) true (sb_inodes b) (sb_base_to_ovl b) (sb_stg_to_ovl b) (sb_stg_name b) (sb_stg_name_len b).
Definition sup_inodes (p : Z) (b : super_info) : super_info :=
  Super (sb_magic b) (sb_storage_opts b) (sb_dirt b) p (sb_base_to_ovl b) (sb_stg_to_ovl b) (sb_stg_name b) (sb_stg_name_len b).
Definition sup_base (p : Z) (b : super_info) : super_info :=
  Super (sb_magic b) (sb_storage_opts b) (sb_dirt b) (sb_inodes b) p (sb_stg_to_ovl b) (sb_stg_name b) (sb_stg_name_len b).
Definition sup_stg (p : Z) (b : super_info) : super_info :=
  Super (sb_magic b) (sb_storage_opts b) (sb_dirt b) (sb_inodes b) (sb_base_to_ovl b) p (sb_stg_name b) (sb_stg_name_len b).

Definition sp_set_base (dev ino : Z) (s : ovlfs_inode_special_t) : ovlfs_inode_special_t :=
  Special (sp_parent_ino s) dev ino (sp_stg_dev s) (sp_stg_ino s) (sp_flags s) (sp_name s) (sp_len s).
Definition sp_set_stg (dev ino : Z) (s : ovlfs_inode_special_t) : ovlfs_inode_special_t :=
  Special (sp_parent_ino s) (sp_base_dev s) (sp_base_ino s) dev ino (sp_flags s) (sp_name s) (sp_len s).
Definition sp_set_flags (f : Z) (s : ovlfs_inode_special_t) : ovlfs_inode_special_t :=
  Special (sp_parent_ino s) (sp_base_dev s) (sp_base_ino s) (sp_stg_dev s) (sp_stg_ino s) f (sp_name s) (sp_len s).
Definition sp_set_parent (p : Z) (s : ovlfs_inode_special_t) : ovlfs_inode_special_t :=
  Special p (sp_base_dev s) (sp_base_ino s) (sp_stg_dev s) (sp_stg_ino s) (sp_flags s) (sp_name s) (sp_len s).
Definition sp_set_name (n : option (list Z)) (len : Z) (s : ovlfs_inode_special_t) : ovlfs_inode_special_t :=
  Special (sp_parent_ino s) (sp_base_dev s) (sp_base_ino s) (sp_stg_dev s) (sp_stg_ino s) (sp_flags s) n len.

Definition oi_set_s (f : ovlfs_inode_special_t -> ovlfs_inode_special_t) (i : ovlfs_inode_t) : ovlfs_inode_t :=
  Inode (oi_attr i) (oi_u i) (oi_ino i) (f (oi_s i)) (oi_num_rm_ent i) (oi_dir_entries i) (oi_last_dir_pos i)
    (oi_pos_index i) (oi_att_valid_f i).
Definition oi_set_rm (n : Z) (i : ovlfs_inode_t) : ovlfs_inode_t :=
  Inode (oi_attr i) (oi_u i) (oi_ino i) (oi_s i) n (oi_dir_entries i) (oi_last_dir_pos i) (oi_pos_index i) (oi_att_valid_f i).
Definition oi_set_dir (l ix : Z) (i : ovlfs_inode_t) : ovlfs_inode_t :=
  Inode (oi_attr i) (oi_u i) (oi_ino i) (oi_s i) (oi_num_rm_ent i) l (oi_last_dir_pos i) ix (oi_att_valid_f i).
Definition oi_set_last (p : Z) (i : ovlfs_inode_t) : ovlfs_inode_t :=
  Inode (oi_attr i) (oi_u i) (oi_ino i) (oi_s i) (oi_num_rm_ent i) (oi_dir_entries i) p (oi_pos_index i) (oi_att_valid_f i).
Definition oi_set_attr (a : inode_attr) (u : Z) (v : bool) (i : ovlfs_inode_t) : ovlfs_inode_t :=
  Inode a u (oi_ino i) (oi_s i) (oi_num_rm_ent i) (oi_dir_entries i) (oi_last_dir_pos i) (oi_pos_index i) v.

Definition di_set_flags (f : Z) (d : ovlfs_dir_info_t) : ovlfs_dir_info_t := DirInfo (di_name d) (di_len d) (di_ino d) f (di_pos d).
Definition di_set_ino (n : Z) (d : ovlfs_dir_info_t) : ovlfs_dir_info_t := DirInfo (di_name d) (di_len d) n (di_flags d) (di_pos d).

(** ** The functions lists are sorted by *)

(** strncmp, with the results of the kernel; a NUL ends the names. The names are at
    least as long as the number of bytes that are looked at. *)
Fixpoint strncmp (a b : list Z) (n : nat) : Z :=
  match n, a, b with
  | S n', x :: a', y :: b' => if x =? y then if x =? 0 then 0 else strncmp a' b' n' else if x <? y then -1 else 1
  | _, _, _ => 0
  end.

Definition comp_ovl_ino (ino1 ino2 : option ovlfs_inode_t) : Z :=
  match ino1, ino2 with
  | None, _ => 1
  | Some _, None => -1
  | Some i, Some j =>
      if sp_base_dev (oi_s i) =? sp_base_dev (oi_s j)
      then s32 (sp_base_ino (oi_s i) - sp_base_ino (oi_s j))
      else sp_base_dev (oi_s i) - sp_base_dev (oi_s j)
  end.

(** The difference of the unsigned inode numbers is returned as an int. *)
Definition comp_ino_map (map1 map2 : option ovlfs_ino_map_t) : Z :=
  match map1, map2 with
  | None, _ => 1
  | Some _, None => -1
  | Some a, Some b => if im_dev a =? im_dev b then s32 (im_ino a - im_ino b) else im_dev a - im_dev b
  end.

Definition comp_dirent (ent1 ent2 : option ovlfs_dir_info_t) : Z :=
  match ent1, ent2 with
  | None, _ => 1
  | Some _, None => -1
  | Some a, Some b =>
      if di_len a =? di_len b then strncmp (di_name a) (di_name b) (Z.to_nat (di_len a)) else s32 (di_len a - di_len b)
  end.

Definition comp_dirent_pos (ent1 ent2 : option ovlfs_dir_info_t) : Z :=
  match ent1, ent2 with
  | None, _ => 1
  | Some _, None => -1
  | Some a, Some b => s32 (di_pos a - di_pos b)
  end.

Definition get_inode (h : gmap Z object) (p : Z) : option ovlfs_inode_t :=
  match h !! p with Some (OInode i) => Some i | _ => None end.
Definition get_dirent (h : gmap Z object) (p : Z) : option ovlfs_dir_info_t :=
  match h !! p with Some (ODirent d) => Some d | _ => None end.
Definition get_map (h : gmap Z object) (p : Z) : option ovlfs_ino_map_t :=
  match h !! p with Some (OMap m) => Some m | _ => None end.

(** A comparison as a function of two addresses. A list only compares its elements and
    the value it is asked for. Two addresses that both hold no such object are ordered
    as numbers here; the functions give 1 for two NULL pointers. *)
Definition as_callback {A} (get : Z -> option A) (f : option A -> option A -> Z) : comp_func_t := λ x y,
  match get x, get y with
  | None, None => x - y
  | a, b => f a b
  end.

Definition callback (h : gmap Z object) (k : lkind) : comp_func_t :=
  match k with
  | KInodes => as_callback (get_inode h) comp_ovl_ino
  | KMaps => as_callback (get_map h) comp_ino_map
  | KDirents => as_callback (get_dirent h) comp_dirent
  end.

(** Directory entries have one more index, by position. *)
Definition pos_callback (h : gmap Z object) : comp_func_t := as_callback (get_dirent h) comp_dirent_pos.

Definition slot_callback (h : gmap Z object) (k : lkind) (ix : klist_index_struct) : klist_index_struct :=
  match k with
  | KDirents => KIndex (Some (pos_callback h)) (ix_flags ix) (ix_state ix) (ix_elements ix)
  | _ => ix
  end.

Definition with_callbacks (h : gmap Z object) (k : lkind) (l : list_struct) : list_struct :=
  with_indexes (with_funcs l (Some (callback h k)) (Some (callback h k))) (ll_index_arr_size l)
    (option_map (map (option_map (slot_callback h k))) (ll_indexes l)).

(** The lists with the meaning their functions have in the memory [h]. *)
Definition rebind (h : gmap Z object) (fs : gmap Z lkind) (s : kst) : kst :=
  KSt (ks_mem s) (map_imap (λ p l, Some (match fs !! p with Some k => with_callbacks h k l | None => l end)) (ks_lists s))
      (ks_signal s).

(** ** Running *)
Definition SM (A : Type) : Type := sst -> option (A * sst).

Definition sret {A} (a : A) : SM A := λ st, Some (a, st).
Definition sbind {A B} (f : SM A) (g : A -> SM B) : SM B :=
  λ st, match f st with Some (a, st') => g a st' | None => None end.
Definition sopt {A} (o : option A) : SM A := λ st, option_map (λ a, (a, st)) o.
Definition sget : SM sst := λ st, Some (st, st).
Definition smod (f : sst -> sst) : SM unit := λ st, Some (tt, f st).

Declare Scope stg_scope.
Notation "'let@' x ':=' e 'in' k" := (sbind e (λ x, k)) (at level 10, x pattern, e at level 200, k at level 200) : stg_scope.
Notation "'do@' e 'in' k" := (sbind e (λ _, k)) (at level 10, e at level 200, k at level 200) : stg_scope.
Open Scope stg_scope.

(** A call into the list module. *)
Definition lcall {A} (f : KM A) : SM A := λ st,
  match f (rebind (s_obj st) (s_funcs st) (s_k st)) with
  | KRet a k => Some (a, set_k st k)
  | _ => None
  end.

(** kmalloc, and the object that is then written to the new memory. *)
Definition MALLOC : SM (option Z) := λ st,
  let '(r, m) := request km_kmalloc (ks_mem (s_k st)) in
  Some (r, set_k st (KSt m (ks_lists (s_k st)) (ks_signal (s_k st)))).
Definition put (p : Z) (o : object) : SM unit := smod (λ st, set_objs st (<[p := o]> (s_obj st))).
Definition FREE (p : Z) : SM unit := smod (λ st, set_objs st (delete p (s_obj st))).

(** The structure at an address. *)
Definition inode_at (p : Z) : SM ovlfs_inode_t := λ st, sopt (get_inode (s_obj st) p) st.
Definition dirent_at (p : Z) : SM ovlfs_dir_info_t := λ st, sopt (get_dirent (s_obj st) p) st.
Definition map_at (p : Z) : SM ovlfs_ino_map_t := λ st, sopt (get_map (s_obj st) p) st.

Definition upd_inode (p : Z) (f : ovlfs_inode_t -> ovlfs_inode_t) : SM unit := let@ i := inode_at p in put p (OInode (f i)).
Definition upd_dirent (p : Z) (f : ovlfs_dir_info_t -> ovlfs_dir_info_t) : SM unit := let@ d := dirent_at p in put p (ODirent (f d)).

(** The address of the variables on the stack that are passed to lists. *)
Definition TMP : Z := -16.

Definition with_tmp {A} (o : object) (f : SM A) : SM A :=
  do@ put TMP o in let@ a := f in do@ FREE TMP in sret a.

Definition sup : SM super_info := λ st, Some (s_sup st, st).
Definition upd_sup (f : super_info -> super_info) : SM unit := smod (λ st, set_sup st (f (s_sup st))).

(** sup_blk->s_dirt = 1, unless the storage is only written when it is unmounted. *)
Definition mark_dirty : SM unit :=
  let@ b := sup in
  if has (sb_storage_opts b) OVLFS_UPD_UMOUNT_ONLY then sret tt else upd_sup sup_dirt.

(** [len] bytes of a buffer. *)
Definition memcpy (buf : list Z) (len : Z) : option (list Z) :=
  if (0 <=? len) && (len <=? Z.of_nat (length buf)) then Some (take (Z.to_nat len) buf) else None.

(** [None] is NULL. *)
Definition dup_buffer (buf : option (list Z)) (len : Z) : SM (option (list Z)) :=
  match buf with
  | Some b =>
      if 0 <? len then
        let@ r := MALLOC in
        match r with
        | Some _ => let@ c := sopt (memcpy b len) in sret (Some c)
        | None => sret None
        end
      else sret None
  | None => sret None
  end.

(** ** Creating lists *)

(** klist_func(create_list)(NULL, f, f, NULL) *)
Definition create_kind (k : lkind) : SM Z := λ st,
  let c := Some (callback (s_obj st) k) in
  (let@ p := lcall (create_list None c c None) in
   do@ (if p =? 0 then sret tt else smod (λ st, set_funcs st (<[p := k]> (s_funcs st)))) in
   sret p) st.

Definition create_inode_list : SM Z := create_kind KInodes.
Definition create_ino_map_list : SM Z := create_kind KMaps.

(** The list and what is stored in *r_index_id, if anything. *)
Definition create_dirent_list : SM (Z * option Z) :=
  let@ ret_code := create_kind KDirents in
  if ret_code =? 0 then sret (0, None)
  else
    let@ st := sget in
    let@ (rc, id) := lcall (add_index ret_code (Some (pos_callback (s_obj st))) 0) in
    if rc =? 0 then sret (ret_code, id)
    else do@ lcall (destroy_list ret_code) in sret (0, id).

(** ** Inodes *)

Definition new_special : ovlfs_inode_special_t := Special 0 NODEV 0 NODEV 0 0 None 0.
Definition new_inode (ino : Z) : ovlfs_inode_t :=
  Inode (Attr 0 0 0 0 0 0 0 0 0 0 0 0) 0 ino new_special 0 0 0 0 false.

Definition alloc_inode : SM (option Z) :=
  let@ b := sup in
  let@ st := sget in
  if has (sb_storage_opts b) OVLFS_STG_CK_MEM && (s_freeram st * 10 <? s_totalram st) then sret None else MALLOC.

(** free_ovlfs_inode on an inode that has no directory entries, as the caller has it. *)
Definition free_new_inode (p : Z) : SM unit := FREE p.

(** The name of an inode, when one is given. *)
Definition set_ref_name (p : Z) (name : option (list Z)) (len : Z) : SM unit :=
  match name with
  | Some _ =>
      if 0 <? len then
        let@ n := dup_buffer name len in
        upd_inode p (oi_set_s (sp_set_name n (match n with Some _ => len | None => 0 end)))
      else sret tt
  | None => sret tt
  end.

(** The inode list, made when it is not there; 0 when it cannot be made. *)
Definition need_inode_list : SM Z :=
  let@ b := sup in
  if sb_inodes b =? 0 then
    let@ l := create_inode_list in
    do@ upd_sup (sup_inodes l) in
    if l =? 0 then sret 0 else do@ mark_dirty in sret l
  else sret (sb_inodes b).

(** list_length of a list, 0 for NULL. *)
Definition list_length_of (p : Z) : SM Z :=
  if p =? 0 then sret 0 else lcall (kbind (get_list p) (λ l, kret (list_length l))).

Definition ovlfs_add_inode (name : option (list Z)) (len : Z) : SM Z :=
  let@ b := sup in
  if negb (sb_magic b =? OVLFS_SUPER_MAGIC) then sret 0
  else
    let@ inodes := need_inode_list in
    if inodes =? 0 then sret 0
    else
      let@ r := alloc_inode in
      match r with
      | None => sret 0
      | Some result =>
          let@ n := list_length_of inodes in
          do@ put result (OInode (new_inode (n + 1))) in
          do@ set_ref_name result name len in
          let@ e := lcall (insert_at_end inodes result) in
          if e =? 0 then do@ free_new_inode result in sret 0
          else do@ mark_dirty in sret result
      end.

Definition ovlfs_get_ino (ino : Z) : SM Z :=
  let@ b := sup in
  if negb (sb_magic b =? OVLFS_SUPER_MAGIC) then sret 0
  else if ino =? 0 then sret 0
  else if sb_inodes b =? 0 then sret 0
  else lcall (nth_element (sb_inodes b) (s32 ino)).

Definition set_ino_flags (ino set_flags : Z) : SM unit :=
  let@ p := ovlfs_get_ino ino in
  if p =? 0 then sret tt else upd_inode p (oi_set_s (λ s, sp_set_flags (Z.lor (sp_flags s) set_flags) s)).

Definition clear_ino_flags (ino clear_flags : Z) : SM unit :=
  let@ p := ovlfs_get_ino ino in
  if p =? 0 then sret tt else upd_inode p (oi_set_s (λ s, sp_set_flags (Z.land (sp_flags s) (Z.lnot clear_flags)) s)).

(** ** Mappings *)

(** The mapping is not there (0), or it was there and is updated (1). *)
Definition check_mapping (map_list dev ino ovl_ino : Z) : SM Z :=
  if map_list =? 0 then sret 0
  else
    let@ mapping := with_tmp (OMap (InoMap dev ino ovl_ino)) (lcall (search_for_element map_list TMP)) in
    if mapping =? 0 then sret 0
    else let@ m := map_at mapping in do@ put mapping (OMap (InoMap (im_dev m) (im_ino m) ovl_ino)) in sret 1.

(** The two mapping lists of the super block, by the letter of the file system. *)
Inductive other_fs := FsBase | FsStg.

(** 'b', 'o' and 's'. *)
Definition which_fs (which : Z) : option other_fs :=
  if which =? 98 then Some FsBase else if (which =? 111) || (which =? 115) then Some FsStg else None.

Definition map_list_of (f : other_fs) (b : super_info) : Z :=
  match f with FsBase => sb_base_to_ovl b | FsStg => sb_stg_to_ovl b end.
Definition sup_map_list (f : other_fs) (p : Z) : super_info -> super_info :=
  match f with FsBase => sup_base p | FsStg => sup_stg p end.
Definition sp_set_other (f : other_fs) (dev ino : Z) : ovlfs_inode_special_t -> ovlfs_inode_special_t :=
  match f with FsBase => sp_set_base dev ino | FsStg => sp_set_stg dev ino end.

(** m_list[0], made when it is not there; 0 when it cannot be made. *)
Definition need_map_list (f : other_fs) : SM Z :=
  let@ b := sup in
  if map_list_of f b =? 0 then let@ l := create_ino_map_list in do@ upd_sup (sup_map_list f l) in sret l
  else sret (map_list_of f b).

(** The device number is a dev_t, the inode number an unsigned int. *)
Definition stg1_inode_set_other (ino dev inum which : Z) : SM Z :=
  let@ b := sup in
  if ino =? 0 then sret (- EINVAL)
  else if negb (sb_magic b =? OVLFS_SUPER_MAGIC) then sret (- EINVAL)
  else
    match which_fs which with
    | None => sret (- EINVAL)
    | Some f =>
        do@ upd_inode ino (oi_set_s (sp_set_other f dev inum)) in
        let@ i := inode_at ino in
        let@ found := check_mapping (map_list_of f b) dev inum (u32 (oi_ino i)) in
        if negb (found =? 0) then sret 0
        else
          let@ r := MALLOC in
          match r with
          | None => sret (- ENOMEM)
          | Some mapping =>
              do@ put mapping (OMap (InoMap dev inum (u32 (oi_ino i)))) in
              let@ l := need_map_list f in
              if l =? 0 then do@ FREE mapping in sret (- ENOMEM)
              else
                let@ e := lcall (insert_into_list_sorted l mapping) in
                if e =? 0 then do@ FREE mapping in sret (- ENOMEM)
                else do@ mark_dirty in sret 0
          end
    end.

(** ** Directory entries *)

(** tmp.name = name; tmp.len = len. Nothing else of tmp is looked at. *)
Definition name_key (name : list Z) (len : Z) : object := ODirent (DirInfo name len 0 0 0).

Definition ovlfs_ino_find_dirent (ino : Z) (name : list Z) (len : Z) : SM Z :=
  if ino =? 0 then sret 0
  else
    let@ i := inode_at ino in
    if oi_dir_entries i =? 0 then sret 0
    else with_tmp (name_key name len) (lcall (search_for_element (oi_dir_entries i) TMP)).

Definition free_dir_entry (d_ent : Z) : SM unit := if d_ent =? 0 then sret tt else FREE d_ent.

Definition ovlfs_remove_dirent (ino : Z) (name : option (list Z)) (len : Z) : SM Z :=
  match name with
  | None => sret (- EINVAL)
  | Some nm =>
      if ino =? 0 then sret (- EINVAL)
      else
        let@ i := inode_at ino in
        if oi_dir_entries i =? 0 then sret 0
        else
          let@ ret := with_tmp (name_key nm len) (lcall (remove_element (oi_dir_entries i) TMP)) in
          if (ret =? 0) || (ret =? -1) then sret (- ENOENT)
          else
            let@ d := dirent_at ret in
            do@ (if has (di_flags d) OVLFS_DIRENT_UNLINKED then upd_inode ino (λ i, oi_set_rm (s32 (oi_num_rm_ent i - 1)) i) else sret tt) in
            do@ free_dir_entry ret in
            sret 0
  end.

Definition ovlfs_unlink_dirent (ino : Z) (name : option (list Z)) (len : Z) : SM Z :=
  match name with
  | None => sret (- EINVAL)
  | Some nm =>
      if ino =? 0 then sret (- EINVAL)
      else
        let@ i := inode_at ino in
        if oi_dir_entries i =? 0 then sret 0
        else
          let@ dirent := with_tmp (name_key nm len) (lcall (search_for_element (oi_dir_entries i) TMP)) in
          if (dirent =? 0) || (dirent =? -1) then sret (- ENOENT)
          else
            let@ d := dirent_at dirent in
            if has (di_flags d) OVLFS_DIRENT_UNLINKED then sret (- ENOENT)
            else
              do@ put dirent (ODirent (di_set_flags (Z.lor (di_flags d) OVLFS_DIRENT_UNLINKED) d)) in
              do@ upd_inode ino (λ i, oi_set_rm (s32 (oi_num_rm_ent i + 1)) i) in
              sret 0
  end.

(** The part of ovlfs_ino_add_dirent after the name was looked up. *)
Definition new_dirent (ino : Z) (name : list Z) (len ent_ino flags : Z) : SM Z :=
  let@ i := inode_at ino in
  if oi_dir_entries i =? 0 then sret (- ENOMEM)
  else
    let@ r := MALLOC in
    match r with
    | None => sret (- ENOMEM)
    | Some dirent =>
        let@ r2 := MALLOC in
        match r2 with
        | None => sret (- ENOMEM)
        | Some _ =>
            let@ nm := sopt (memcpy name len) in
            do@ put dirent (ODirent (DirInfo nm len ent_ino flags (oi_last_dir_pos i))) in
            do@ upd_inode ino (oi_set_last (u32 (oi_last_dir_pos i + 1))) in
            let@ e := lcall (insert_into_list_sorted (oi_dir_entries i) dirent) in
            if e =? 0 then do@ FREE dirent in sret (- ENOMEM)
            else
              do@ (if has flags OVLFS_DIRENT_UNLINKED then upd_inode ino (λ i, oi_set_rm (s32 (oi_num_rm_ent i + 1)) i) else sret tt) in
              sret 0
        end
    end.

Definition ovlfs_ino_add_dirent (ino : Z) (name : option (list Z)) (len ent_ino flags : Z) : SM Z :=
  match name with
  | None => sret (- EINVAL)
  | Some nm =>
      if ino =? 0 then sret (- EINVAL)
      else
        let@ i := inode_at ino in
        do@ (if oi_dir_entries i =? 0 then
               let@ (l, id) := create_dirent_list in
               upd_inode ino (λ i, oi_set_dir l (default (oi_pos_index i) id) i)
             else sret tt) in
        let@ dirent := ovlfs_ino_find_dirent ino nm len in
        if dirent =? 0 then new_dirent ino nm len ent_ino flags
        else
          let@ d := dirent_at dirent in
          if has (di_flags d) OVLFS_DIRENT_UNLINKED then
            let@ ret_code := ovlfs_remove_dirent ino name len in
            if ret_code <? 0 then sret ret_code
            else
              do@ set_ino_flags ent_ino OVL_IFLAG__NO_BASE_REF in
              new_dirent ino nm len ent_ino (Z.lor flags OVLFS_DIRENT_RELINKED)
          else sret (- EEXIST)
  end.

(** ** The storage operations of the module *)

(** An inode of the kernel: its number and attributes, and what the file system keeps
    with it ([None] for a generic_ip that is NULL). *)
Record vfs_inode := VInode { v_ino : Z; v_attr : inode_attr; v_rdev : Z; v_info : option ovlfs_inode_special_t }.

Definition S_IFMT : Z := 61440.
Definition S_IFDIR : Z := 16384.
Definition S_ISDIR (mode : Z) : bool := Z.land mode S_IFMT =? S_IFDIR.
Definition S_ISCHR (mode : Z) : bool := Z.land mode S_IFMT =? 8192.
Definition S_ISBLK (mode : Z) : bool := Z.land mode S_IFMT =? 24576.
Definition is_device (mode : Z) : bool := S_ISBLK mode || S_ISCHR mode.

(** The return code and what is stored in *result. *)
Definition ovlfs_stg1_add_inode (parent_dir_inum : Z) (name : option (list Z)) (namelen flags : Z) : SM (Z * option Z) :=
  let@ ino := ovlfs_add_inode None 0 in
  if ino =? 0 then sret (- ENOMEM, None)
  else
    do@ upd_inode ino (oi_set_s (λ s, sp_set_parent parent_dir_inum (sp_set_flags flags s))) in
    do@ set_ref_name ino name namelen in
    let@ i := inode_at ino in
    sret (0, Some (oi_ino i)).

(** The attributes that are copied to and from the inode of the kernel; nrpages is not
    in kernels after 2.2 and is 0. *)
Definition copied_attr (a : inode_attr) (nrpages : Z) : inode_attr :=
  Attr (at_mode a) (at_size a) (at_uid a) (at_gid a) (at_atime a) (at_mtime a) (at_ctime a) (at_nlink a)
    (at_blksize a) (at_blocks a) (at_version a) nrpages.

(** What is copied to the information [info] of the inode of the kernel, if it has any: the
    special information, with a copy of the name. *)
Definition read_info (info : option ovlfs_inode_special_t) (s : ovlfs_inode_special_t) : SM (option ovlfs_inode_special_t) :=
  match info with
  | None => sret None
  | Some _ =>
      match sp_name s with
      | Some _ =>
          if 0 <? sp_len s then
            let@ n := dup_buffer (sp_name s) (sp_len s) in
            sret (Some (sp_set_name n (match n with Some _ => sp_len s | None => 0 end) s))
          else sret (Some s)
      | None => sret (Some s)
      end
  end.

(** The code, *r_valid_f and the inode afterwards. *)
Definition ovlfs_stg1_read_inode (v : vfs_inode) : SM (Z * option bool * vfs_inode) :=
  let@ ino := ovlfs_get_ino (v_ino v) in
  if ino =? 0 then sret (- ENOENT, None, v)
  else
    let@ i := inode_at ino in
    let a := oi_attr i in
    let v1 := if oi_att_valid_f i
              then VInode (v_ino v) (copied_attr a (at_nrpages (v_attr v))) (if is_device (at_mode a) then u16 (oi_u i) else 0) (v_info v)
              else v in
    let s := oi_s i in
    let@ info := read_info (v_info v) s in
    sret (0, Some (oi_att_valid_f i), VInode (v_ino v1) (v_attr v1) (v_rdev v1) info).

(** The special information, whose name is only replaced when there is one. *)
Definition upd_special (ino : Z) (s : ovlfs_inode_special_t) : SM unit :=
  do@ upd_inode ino (oi_set_s (λ o, Special (sp_parent_ino s) (sp_base_dev s) (sp_base_ino s) (sp_stg_dev s) (sp_stg_ino s)
                                      (sp_flags s) (sp_name o) (sp_len o))) in
  match sp_name s with
  | Some _ =>
      if 0 <? sp_len s then
        let@ tmp := dup_buffer (sp_name s) (sp_len s) in
        match tmp with
        | None => sret tt
        | Some _ => upd_inode ino (oi_set_s (sp_set_name tmp (sp_len s)))
        end
      else sret tt
  | None => sret tt
  end.

(** u.rdev = rdev: the low half of the union. *)
Definition set_rdev (rdev u : Z) : Z := u - u16 u + u16 rdev.

Definition ovlfs_stg1_upd_inode (v : vfs_inode) : SM Z :=
  let@ ino := ovlfs_get_ino (v_ino v) in
  if ino =? 0 then sret (- ENOENT)
  else
    let a := copied_attr (v_attr v) 0 in
    do@ upd_inode ino (λ i, oi_set_attr a (if is_device (at_mode a) then set_rdev (v_rdev v) (oi_u i) else 0) true i) in
    do@ match v_info v with Some s => upd_special ino s | None => sret tt end in
    sret 0.

Definition ovlfs_stg1_num_dirent (inum : Z) (inc_rm : bool) : SM Z :=
  let@ ino := ovlfs_get_ino inum in
  if ino =? 0 then sret (- ENOENT)
  else
    let@ i := inode_at ino in
    if oi_dir_entries i =? 0 then sret 0
    else let@ n := list_length_of (oi_dir_entries i) in sret (if inc_rm then n else s32 (n - oi_num_rm_ent i)).

Definition ovlfs_stg1_map_inode (inum1 dev2 inum2 which : Z) : SM Z :=
  let@ ino := ovlfs_get_ino inum1 in
  if ino =? 0 then sret (- ENOENT) else stg1_inode_set_other ino dev2 (u32 inum2) which.

(** The code and what is stored in *result. An invalid super block gives 0. *)
Definition ovlfs_stg1_map_lookup (dev inum which : Z) : SM (Z * option Z) :=
  let@ b := sup in
  if negb (sb_magic b =? OVLFS_SUPER_MAGIC) then sret (0, None)
  else
    match which_fs which with
    | None => sret (- ENOENT, None)
    | Some f =>
        if map_list_of f b =? 0 then sret (- ENOENT, None)
        else
          let@ i_map := with_tmp (OMap (InoMap dev (u32 inum) 0)) (lcall (search_for_element (map_list_of f b) TMP)) in
          if i_map =? 0 then sret (- ENOENT, None)
          else let@ m := map_at i_map in sret (0, Some (im_ovl_ino m))
    end.

(** The code and the device and inode numbers. *)
Definition ovlfs_stg1_get_mapping (inum which : Z) : SM (Z * option (Z * Z)) :=
  let@ ino := ovlfs_get_ino inum in
  if ino =? 0 then sret (- ENOENT, None)
  else
    let@ i := inode_at ino in
    match which_fs which with
    | Some FsBase => sret (0, Some (sp_base_dev (oi_s i), sp_base_ino (oi_s i)))
    | Some FsStg => sret (0, Some (sp_stg_dev (oi_s i), sp_stg_ino (oi_s i)))
    | None => sret (- EINVAL, None)
    end.

(** The loop that looks for the entry with the lowest position from [pos] on; the
    interval shrinks with every turn. *)
Fixpoint next_loop (fuel : nat) (dir_entries pos_index pos low high best : Z) : SM Z :=
  if low <=? high then
    match fuel with
    | O => λ _, None
    | S fuel' =>
        let cur := (low + high) ÷ 2 in
        let@ (rc, dent) := lcall (read_index dir_entries pos_index cur) in
        if negb (rc =? 0) then next_loop fuel' dir_entries pos_index pos low (cur - 1) best
        else
          let@ p := sopt dent in
          let@ d := dirent_at p in
          if pos <=? di_pos d then next_loop fuel' dir_entries pos_index pos low (cur - 1) p
          else next_loop fuel' dir_entries pos_index pos (cur + 1) high best
    end
  else sret best.

(** The code and what is stored in *result, if anything. *)
Definition ovlfs_stg1_find_next (ino pos : Z) : SM (Z * option Z) :=
  let@ i := inode_at ino in
  let l := oi_dir_entries i in
  let@ (ret_code, loc) := with_tmp (ODirent (DirInfo [] 0 0 0 (u32 pos))) (lcall (search_index l (oi_pos_index i) TMP)) in
  if ret_code =? 0 then
    let@ at_ := sopt loc in
    let@ (rc, e) := lcall (read_index l (oi_pos_index i) at_) in
    sret (0, if rc =? - ENOENT then Some 0 else e)
  else if negb (ret_code =? - ENOENT) then sret (ret_code, None)
  else
    let@ high := list_length_of l in
    let@ best := next_loop (S (Z.to_nat high)) l (oi_pos_index i) pos 1 high 0 in
    sret (0, Some best).

(** The code, the entry (0 when there are no more) and the next position. *)
Definition ovlfs_stg1_get_dirent (inum pos : Z) : SM (Z * option Z * Z) :=
  let@ ino := ovlfs_get_ino inum in
  if ino =? 0 then sret (- ENOENT, None, pos)
  else
    let@ i := inode_at ino in
    if oi_dir_entries i =? 0 then sret (0, Some 0, pos)
    else
      let@ (ret, result) := ovlfs_stg1_find_next ino pos in
      if ret =? 0 then
        let@ p := sopt result in
        if p =? 0 then sret (ret, Some 0, pos)
        else let@ d := dirent_at p in sret (ret, Some p, u32 (di_pos d + 1))
      else sret (ret, result, pos).

(** The code, the inode number and the flags of the entry. *)
Definition ovlfs_stg1_lookup (inum : Z) (name : list Z) (len : Z) : SM (Z * option (Z * Z)) :=
  let@ ino := ovlfs_get_ino inum in
  if ino =? 0 then sret (- ENOENT, None)
  else
    let@ p := ovlfs_ino_find_dirent ino name len in
    if p =? 0 then sret (- ENOENT, None)
    else let@ d := dirent_at p in sret (0, Some (di_ino d, di_flags d)).

(** The operations that are done on the directory of an inode, if it is there. *)
Definition on_dir (inum : Z) (f : Z -> SM Z) : SM Z :=
  let@ ino := ovlfs_get_ino inum in if ino =? 0 then sret (- ENOENT) else f ino.

Definition ovlfs_stg1_add_dirent (dir : Z) (name : option (list Z)) (len inum : Z) : SM Z :=
  on_dir dir (λ ino, ovlfs_ino_add_dirent ino name len inum OVLFS_DIRENT_NORMAL).
Definition ovlfs_stg1_unlink (dir : Z) (name : option (list Z)) (len : Z) : SM Z :=
  on_dir dir (λ ino, ovlfs_unlink_dirent ino name len).
Definition ovlfs_stg1_delete_dirent (dir : Z) (name : option (list Z)) (len : Z) : SM Z :=
  on_dir dir (λ ino, ovlfs_remove_dirent ino name len).

(** The number of entries that are marked as removed. *)
Definition count_rm (ino by_ : Z) : SM unit := upd_inode ino (λ i, oi_set_rm (s32 (oi_num_rm_ent i + by_)) i).

(** What ovlfs_stg1_rename does with the directory it found. *)
Definition rename_in (ino : Z) (oname : list Z) (olen : Z) (nname : list Z) (nlen : Z) : SM Z :=
  let@ d_info := ovlfs_ino_find_dirent ino oname olen in
  if d_info =? 0 then sret (- ENOENT)
  else
    let@ d := dirent_at d_info in
    if has (di_flags d) OVLFS_DIRENT_UNLINKED then sret (- ENOENT)
    else
      let@ n_info := ovlfs_ino_find_dirent ino nname nlen in
      if n_info =? d_info then sret 0
      else
        do@ upd_dirent d_info (λ d, di_set_flags (Z.lor (di_flags d) OVLFS_DIRENT_UNLINKED) d) in
        do@ count_rm ino 1 in
        if negb (n_info =? 0) then
          let@ n := dirent_at n_info in
          do@ (if has (di_flags n) OVLFS_DIRENT_UNLINKED then
                 do@ upd_dirent n_info (λ n, di_set_flags (Z.lor (Z.land (di_flags n) (Z.lnot OVLFS_DIRENT_UNLINKED)) OVLFS_DIRENT_RELINKED) n) in
                 count_rm ino (-1)
               else sret tt) in
          do@ upd_dirent n_info (di_set_ino (di_ino d)) in
          sret 0
        else
          let@ ret := ovlfs_ino_add_dirent ino (Some nname) nlen (di_ino d) OVLFS_DIRENT_NORMAL in
          if ret <? 0 then
            do@ upd_dirent d_info (λ d, di_set_flags (Z.land (di_flags d) (Z.lnot OVLFS_DIRENT_UNLINKED)) d) in
            do@ count_rm ino (-1) in
            sret ret
          else sret ret.

Definition ovlfs_stg1_rename (dir : Z) (oname : list Z) (olen : Z) (nname : list Z) (nlen : Z) : SM Z :=
  on_dir dir (λ ino, rename_in ino oname olen nname nlen).
