(* ===== verification/StgFile.v ===== *)
(** The storage file of the overlay file system (fs/ovl_stg.c, FILE I/O): writing the
    inodes, directories and mappings of a file system to a file and reading them back.

    Functions run on the storage in memory ([Stg]) and the table of open files
    ([FileIo]). A function that stores a result through a pointer returns it beside its
    code, as [None] when nothing was stored; using such a result is a fault. The address
    limit that set_fs changes is not modelled: every call passes 0 for change_mode. Both
    int and long have 32 bits. *)
From S2P Require Import Prelude KList Stg FileIo.
Open Scope Z_scope.

Section StgFile.
Context {F : Type} `{!file_operations F}.

Definition FM (A : Type) : Type := sst -> fio_tbl F -> option (A * sst * fio_tbl F).

Definition fret {A} (a : A) : FM A := λ st tbl, Some (a, st, tbl).
Definition fbind {A B} (f : FM A) (g : A -> FM B) : FM B :=
  λ st tbl, match f st tbl with Some (a, st', tbl') => g a st' tbl' | None => None end.
Definition fopt {A} (o : option A) : FM A := λ st tbl, option_map (λ a, (a, st, tbl)) o.
(** A step on the storage, and one on the table. *)
Definition on_stg {A} (m : SM A) : FM A := λ st tbl, option_map (λ '(a, st'), (a, st', tbl)) (m st).
Definition on_tbl {A} (f : fio_tbl F -> A * fio_tbl F) : FM A := λ st tbl, let '(a, tbl') := f tbl in Some (a, st, tbl').

Local Notation "'let%' x ':=' e 'in' k" := (fbind e (λ x, k)) (at level 10, x pattern, e at level 200, k at level 200).
Local Notation "'do%' e 'in' k" := (fbind e (λ _, k)) (at level 10, e at level 200, k at level 200).

(** ** Bytes *)

(** Storing bytes in a buffer from an offset on. *)
Definition blit (buf : list (option Z)) (off : Z) (bs : list Z) : option (list (option Z)) :=
  if (0 <=? off) && (off + Z.of_nat (length bs) <=? Z.of_nat (length buf))
  then Some (take (Z.to_nat off) buf ++ map Some bs ++ drop (Z.to_nat off + length bs) buf) else None.

(** The loop of read_bytes. The offset and the count of a read are those left by the
    read before it. Every turn that goes on adds to [tot_rd]. *)
Fixpoint read_bytes_loop (fuel : nat) (fd amount : Z) (buf : list (option Z)) (tot_rd rd_amount : Z) : FM (Z * list (option Z)) :=
  if tot_rd <? amount then
    match fuel with
    | O => fopt None
    | S fuel' =>
        let% (r, bs) := on_tbl (file_read fd (amount - rd_amount)) in
        let% buf' := fopt (blit buf rd_amount bs) in
        if 0 <? r then read_bytes_loop fuel' fd amount buf' (tot_rd + r) r
        else if r =? 0 then fret (- EIO, buf') else fret (r, buf')
    end
  else fret (rd_amount, buf).

Definition read_bytes (fd amount : Z) : FM (Z * list (option Z)) :=
  read_bytes_loop (S (Z.to_nat amount)) fd amount (replicate (Z.to_nat amount) None) 0 0.

(** The loop of write_bytes; a turn that writes nothing counts as one that never ends. *)
Fixpoint write_bytes_loop (fuel : nat) (fd : Z) (buf : list Z) (amount wr_amount : Z) : FM Z :=
  if wr_amount <? amount then
    match fuel with
    | O => fopt None
    | S fuel' =>
        let% r := on_tbl (file_write fd (take (Z.to_nat (amount - wr_amount)) (drop (Z.to_nat wr_amount) buf))) in
        if r <? 0 then fret r else write_bytes_loop fuel' fd buf amount (wr_amount + r)
    end
  else fret wr_amount.

Definition write_bytes (fd : Z) (buf : list Z) (amount : Z) : FM Z := write_bytes_loop (S (Z.to_nat amount)) fd buf amount 0.

(** ** Integers *)
Definition sizeof_int : Z := 4.
Definition sizeof_long : Z := 4.

Definition write_integer (fd value : Z) : FM Z :=
  let% ret := write_bytes fd (le_bytes (Z.to_nat sizeof_int) (u32 value)) sizeof_int in
  fret (if negb (ret =? sizeof_int) && (0 <=? ret) then - EIO else ret).

Definition write_long (fd value : Z) : FM Z :=
  let% ret := write_bytes fd (le_bytes (Z.to_nat sizeof_long) (u32 value)) sizeof_long in
  fret (if ret =? sizeof_long then ret else - EIO).

(** result[0] |= buf[cur] << (cur * 8) *)
Fixpoint or_bytes (buf : list Z) (cur result : Z) : Z :=
  match buf with
  | [] => result
  | b :: buf' => or_bytes buf' (cur + 1) (u32 (Z.lor result (Z.shiftl b (cur * 8))))
  end.

(** read_integer and read_long, which differ in the type of the result only. *)
Definition read_word (fd size : Z) : FM (Z * option Z) :=
  let% (ret, buf) := read_bytes fd size in
  if ret <? 0 then fret (ret, None)
  else if negb (ret =? size) then fret (- EIO, None)
  else let% bs := fopt (mapM id buf) in fret (ret, Some (or_bytes bs 0 0)).

Definition read_integer (fd : Z) : FM (Z * option Z) := read_word fd sizeof_int.
Definition read_long (fd : Z) : FM (Z * option Z) := read_word fd sizeof_long.

(** A value that is read and used, or the code that is returned. *)
Definition with_read (m : FM (Z * option Z)) (k : Z -> FM Z) : FM Z :=
  let% (ret, v) := m in if ret <? 0 then fret ret else let% x := fopt v in k x.

(** The next step unless the code is negative. *)
Definition and_then (m : FM Z) (k : FM Z) : FM Z := let% ret := m in if ret <? 0 then fret ret else k.

Local Notation "'try%' x ':=' e 'in' k" := (with_read e (λ x, k)) (at level 10, x name, e at level 200, k at level 200).
Local Notation "'seq%' e 'in' k" := (and_then e k) (at level 10, e at level 200, k at level 200).

(** ** Details of an inode *)
Definition write_dirent (fd entry : Z) : FM Z :=
  if entry =? 0 then fret (- EIO)
  else
    let% d := on_stg (dirent_at entry) in
    seq% write_integer fd (di_len d) in
    let% ret := write_bytes fd (di_name d) (di_len d) in
    if ret =? di_len d then seq% write_integer fd (u32 (di_ino d)) in write_integer fd (di_flags d)
    else fret (if 0 <=? ret then - EIO else ret).

(** The entries [cur_ent] to the [k]th from it, while there is no error; [ret] is the
    code so far. *)
Fixpoint write_dirents (k : nat) (fd dir_entries cur_ent ret : Z) : FM Z :=
  match k with
  | O => fret ret
  | S k' =>
      if 0 <=? ret then
        let% entry := on_stg (lcall (nth_element dir_entries cur_ent)) in
        let% ret := write_dirent fd entry in
        write_dirents k' fd dir_entries (cur_ent + 1) ret
      else fret ret
  end.

Definition stg1_write_inode_det (fd ino : Z) : FM Z :=
  if ino =? 0 then fret (- EIO)
  else
    let% i := on_stg (inode_at ino) in
    if is_device (at_mode (oi_attr i)) then write_integer fd (oi_u i)
    else if S_ISDIR (at_mode (oi_attr i)) then
      let% tot_ent := on_stg (list_length_of (oi_dir_entries i)) in
      let% ret := write_integer fd tot_ent in
      write_dirents (Z.to_nat tot_ent) fd (oi_dir_entries i) 1 ret
    else fret 0.

(** The name of an entry, of [len] bytes. *)
Definition read_name (fd len : Z) : FM (Z * option (list Z)) :=
  if 0 <? len then
    let% r := on_stg MALLOC in
    match r with
    | None => fret (- ENOMEM, None)
    | Some _ =>
        let% (ret, buf) := read_bytes fd len in
        if ret =? len then let% bs := fopt (mapM id buf) in fret (ret, Some bs)
        else fret (if 0 <=? ret then - EIO else ret, None)
    end
  else fret (0, None).

Definition read_dirent (fd ino : Z) : FM Z :=
  try% len := read_integer fd in
  let% (ret, name) := read_name fd (s32 len) in
  if ret <? 0 then fret ret
  else
    try% e_ino := read_integer fd in
    try% e_flags := read_integer fd in
    on_stg (ovlfs_ino_add_dirent ino name (s32 len) e_ino (s32 e_flags)).

Fixpoint read_dirents (k : nat) (fd ino ret : Z) : FM Z :=
  match k with
  | O => fret ret
  | S k' => if 0 <=? ret then let% ret := read_dirent fd ino in read_dirents k' fd ino ret else fret ret
  end.

Definition stg1_read_inode_det (fd ino : Z) : FM Z :=
  if ino =? 0 then fret (- EIO)
  else
    let% i := on_stg (inode_at ino) in
    if is_device (at_mode (oi_attr i)) then
      let% (ret, v) := read_integer fd in
      if ret <? 0 then fret ret
      else let% x := fopt v in do% on_stg (upd_inode ino (λ i, oi_set_attr (oi_attr i) (s32 x) (oi_att_valid_f i) i)) in fret ret
    else if S_ISDIR (at_mode (oi_attr i)) then
      let% (ret, tot_ent) := read_integer fd in
      if ret <? 0 then fret ret else let% n := fopt tot_ent in read_dirents (Z.to_nat (s32 n)) fd ino ret
    else fret 0.

(** ** The special attributes *)
Definition OVL_STG_FLAG__BASE_MAPPINGS : Z := 1.
Definition OVL_STG_FLAG__STG_MAPPINGS : Z := 2.

(** A device and an inode number, if [c]. *)
Definition write_pair (c : bool) (fd dev ino ret : Z) : FM Z :=
  if c then seq% write_integer fd dev in write_long fd ino else fret ret.

Definition stg1_write_inode_spec (fd : Z) (s : ovlfs_inode_special_t) : FM Z :=
  let% b := on_stg sup in
  let% ret := write_long fd (sp_parent_ino s) in
  if ret <? 0 then fret ret
  else
    let% ret := write_pair (has (sb_storage_opts b) OVLFS_STORE_BASE_MAP) fd (sp_base_dev s) (sp_base_ino s) ret in
    if ret <? 0 then fret ret
    else
      seq% write_pair (has (sb_storage_opts b) OVLFS_STORE_STG_MAP) fd (sp_stg_dev s) (sp_stg_ino s) ret in
      seq% write_integer fd (sp_flags s) in
      let% ret := write_integer fd (if sp_len s <? 0 then 0 else sp_len s) in
      if (0 <=? ret) && (0 <? sp_len s) then let% n := fopt (sp_name s) in write_bytes fd n (sp_len s) else fret ret.

(** The numbers are in the file when [c], and used when the mount says so. *)
Definition read_pair (c use : bool) (fd ino : Z) (f : Z -> Z -> ovlfs_inode_special_t -> ovlfs_inode_special_t) (k : FM Z) : FM Z :=
  if c then
    try% dev := read_integer fd in
    try% num := read_long fd in
    do% (if use then on_stg (upd_inode ino (oi_set_s (f (u16 dev) num))) else fret tt) in
    k
  else k.

(** When the name cannot be read whole, the inode keeps a buffer of which not all is
    written; it is not used then, and left out. *)
Definition stg1_read_inode_spec (fd ino stg_flags : Z) : FM Z :=
  let% b := on_stg sup in
  try% parent := read_long fd in
  do% on_stg (upd_inode ino (oi_set_s (sp_set_parent parent))) in
  read_pair (has stg_flags OVL_STG_FLAG__BASE_MAPPINGS) (has (sb_storage_opts b) OVLFS_STORE_BASE_MAP) fd ino sp_set_base
    (read_pair (has stg_flags OVL_STG_FLAG__STG_MAPPINGS) (has (sb_storage_opts b) OVLFS_STORE_STG_MAP) fd ino sp_set_stg
      (try% flags := read_integer fd in
       do% on_stg (upd_inode ino (oi_set_s (sp_set_flags (s32 flags)))) in
       let% (ret, len) := read_integer fd in
       if ret <? 0 then fret ret
       else
         let% n := fopt len in
         do% on_stg (upd_inode ino (oi_set_s (λ s, sp_set_name (sp_name s) (s32 n) s))) in
         if 0 <? s32 n then
           let% r := on_stg MALLOC in
           match r with
           | None => do% on_stg (upd_inode ino (oi_set_s (sp_set_name None (s32 n)))) in fret (- ENOMEM)
           | Some _ =>
               let% (ret, buf) := read_bytes fd (s32 n) in
               if ret <? 0 then fret ret
               else
                 let% bs := fopt (mapM id buf) in
                 do% on_stg (upd_inode ino (oi_set_s (sp_set_name (Some bs) (s32 n)))) in
                 fret ret
           end
         else fret ret)).

(** ** Inodes *)

(** The integers of an inode before its special attributes, in the order of the file.
    The mode is 0 when the attributes were never set. *)
Definition attr_words (i : ovlfs_inode_t) : list Z :=
  let a := oi_attr i in
  [sp_flags (oi_s i); at_uid a; at_gid a; if oi_att_valid_f i then at_mode a else 0; at_size a; at_atime a; at_mtime a;
   at_ctime a; at_nlink a].
Definition attr_longs (i : ovlfs_inode_t) : list Z :=
  let a := oi_attr i in [at_blksize a; at_blocks a; at_version a; at_nrpages a].

(** One write after the other, up to the first that fails. *)
Fixpoint write_each (w : Z -> FM Z) (vs : list Z) (k : FM Z) : FM Z :=
  match vs with
  | [] => k
  | v :: vs' => seq% w v in write_each w vs' k
  end.

Definition stg1_write_inode (fd ino : Z) : FM Z :=
  if ino =? 0 then fret (- EIO)
  else
    let% pos := on_tbl (file_lseek fd 0 FILE_IO__SEEK_CUR) in
    if pos <? 0 then fret pos
    else
      let% i := on_stg (inode_at ino) in
      seq% write_integer fd 0 in
      write_each (write_integer fd) (attr_words i)
        (write_each (write_long fd) (attr_longs i)
          (seq% stg1_write_inode_spec fd (oi_s i) in
           seq% stg1_write_inode_det fd ino in
           let% result_pos := on_tbl (file_lseek fd 0 FILE_IO__SEEK_CUR) in
           if result_pos <? 0 then fret result_pos
           else
             let% ret := on_tbl (file_lseek fd pos FILE_IO__SEEK_SET) in
             if ret <? 0 then fret ret
             else
               seq% write_integer fd (result_pos - pos) in
               on_tbl (file_lseek fd result_pos FILE_IO__SEEK_SET))).

(** One field that is read and stored. *)
Definition read_attr (m : FM (Z * option Z)) (ino : Z) (f : Z -> inode_attr -> inode_attr) (k : FM Z) : FM Z :=
  try% v := m in do% on_stg (upd_inode ino (λ i, oi_set_attr (f v (oi_attr i)) (oi_u i) (oi_att_valid_f i) i)) in k.

Definition at_set_uid (v : Z) (a : inode_attr) : inode_attr :=
  Attr (at_mode a) (at_size a) v (at_gid a) (at_atime a) (at_mtime a) (at_ctime a) (at_nlink a) (at_blksize a) (at_blocks a) (at_version a) (at_nrpages a).
Definition at_set_gid (v : Z) (a : inode_attr) : inode_attr :=
  Attr (at_mode a) (at_size a) (at_uid a) v (at_atime a) (at_mtime a) (at_ctime a) (at_nlink a) (at_blksize a) (at_blocks a) (at_version a) (at_nrpages a).
Definition at_set_mode (v : Z) (a : inode_attr) : inode_attr :=
  Attr (u16 v) (at_size a) (at_uid a) (at_gid a) (at_atime a) (at_mtime a) (at_ctime a) (at_nlink a) (at_blksize a) (at_blocks a) (at_version a) (at_nrpages a).
Definition at_set_size (v : Z) (a : inode_attr) : inode_attr :=
  Attr (at_mode a) (s32 v) (at_uid a) (at_gid a) (at_atime a) (at_mtime a) (at_ctime a) (at_nlink a) (at_blksize a) (at_blocks a) (at_version a) (at_nrpages a).
Definition at_set_atime (v : Z) (a : inode_attr) : inode_attr :=
  Attr (at_mode a) (at_size a) (at_uid a) (at_gid a) (s32 v) (at_mtime a) (at_ctime a) (at_nlink a) (at_blksize a) (at_blocks a) (at_version a) (at_nrpages a).
Definition at_set_mtime (v : Z) (a : inode_attr) : inode_attr :=
  Attr (at_mode a) (at_size a) (at_uid a) (at_gid a) (at_atime a) (s32 v) (at_ctime a) (at_nlink a) (at_blksize a) (at_blocks a) (at_version a) (at_nrpages a).
Definition at_set_ctime (v : Z) (a : inode_attr) : inode_attr :=
  Attr (at_mode a) (at_size a) (at_uid a) (at_gid a) (at_atime a) (at_mtime a) (s32 v) (at_nlink a) (at_blksize a) (at_blocks a) (at_version a) (at_nrpages a).
Definition at_set_nlink (v : Z) (a : inode_attr) : inode_attr :=
  Attr (at_mode a) (at_size a) (at_uid a) (at_gid a) (at_atime a) (at_mtime a) (at_ctime a) (u16 v) (at_blksize a) (at_blocks a) (at_version a) (at_nrpages a).
Definition at_set_blksize (v : Z) (a : inode_attr) : inode_attr :=
  Attr (at_mode a) (at_size a) (at_uid a) (at_gid a) (at_atime a) (at_mtime a) (at_ctime a) (at_nlink a) v (at_blocks a) (at_version a) (at_nrpages a).
Definition at_set_blocks (v : Z) (a : inode_attr) : inode_attr :=
  Attr (at_mode a) (at_size a) (at_uid a) (at_gid a) (at_atime a) (at_mtime a) (at_ctime a) (at_nlink a) (at_blksize a) v (at_version a) (at_nrpages a).
Definition at_set_version (v : Z) (a : inode_attr) : inode_attr :=
  Attr (at_mode a) (at_size a) (at_uid a) (at_gid a) (at_atime a) (at_mtime a) (at_ctime a) (at_nlink a) (at_blksize a) (at_blocks a) v (at_nrpages a).
Definition at_set_nrpages (v : Z) (a : inode_attr) : inode_attr :=
  Attr (at_mode a) (at_size a) (at_uid a) (at_gid a) (at_atime a) (at_mtime a) (at_ctime a) (at_nlink a) (at_blksize a) (at_blocks a) (at_version a) v.

Definition stg1_read_inode (fd ino stg_flags : Z) : FM Z :=
  if ino =? 0 then fret (- EIO)
  else
    let int := read_attr (read_integer fd) ino in
    let long := read_attr (read_long fd) ino in
    try% tot_size := read_integer fd in
    try% flags := read_integer fd in
    do% on_stg (upd_inode ino (oi_set_s (sp_set_flags (s32 flags)))) in
    int at_set_uid
      (int at_set_gid
        (int at_set_mode
          (do% on_stg (upd_inode ino (λ i, oi_set_attr (oi_attr i) (oi_u i) (negb (at_mode (oi_attr i) =? 0)) i)) in
           int at_set_size
            (int at_set_atime
              (int at_set_mtime
                (int at_set_ctime
                  (int at_set_nlink
                    (long at_set_blksize
                      (long at_set_blocks
                        (long at_set_version
                          (long at_set_nrpages
                            (seq% stg1_read_inode_spec fd ino stg_flags in
                             stg1_read_inode_det fd ino)))))))))))).

(** ** Mappings *)
Definition write_mapping (fd one_map : Z) : FM Z :=
  if one_map =? 0 then fret (- EIO)
  else
    let% m := on_stg (map_at one_map) in
    seq% write_integer fd (im_dev m) in seq% write_integer fd (im_ino m) in write_integer fd (im_ovl_ino m).

Fixpoint write_mapping_loop (k : nat) (fd map_list cur_ent ret : Z) : FM Z :=
  match k with
  | O => fret ret
  | S k' =>
      if 0 <=? ret then
        let% one_map := on_stg (lcall (nth_element map_list cur_ent)) in
        let% ret := write_mapping fd one_map in
        write_mapping_loop k' fd map_list (cur_ent + 1) ret
      else fret ret
  end.

Definition ovlfs_write_mappings (fd map_list : Z) (skip : bool) : FM Z :=
  let% tot_ent := if (map_list =? 0) || skip then fret 0 else on_stg (list_length_of map_list) in
  let% ret := write_integer fd tot_ent in
  write_mapping_loop (Z.to_nat tot_ent) fd map_list 1 ret.

Definition read_mapping (fd map_list : Z) : FM Z :=
  let% r := on_stg MALLOC in
  match r with
  | None => fret (- ENOMEM)
  | Some one_map =>
      try% dev := read_integer fd in
      try% ino := read_integer fd in
      let% (ret, o) := read_integer fd in
      if ret <? 0 then fret ret
      else
        let% ovl_ino := fopt o in
        do% on_stg (put one_map (OMap (InoMap (u16 dev) ino ovl_ino))) in
        let% e := on_stg (lcall (insert_into_list_sorted map_list one_map)) in
        if e =? 0 then do% on_stg (FREE one_map) in fret (- ENOMEM) else fret ret
  end.

Fixpoint read_mapping_loop (k : nat) (fd map_list ret : Z) : FM Z :=
  match k with
  | O => fret ret
  | S k' => if 0 <=? ret then let% ret := read_mapping fd map_list in read_mapping_loop k' fd map_list ret else fret ret
  end.

Definition ovlfs_read_mappings (fd : Z) (which : other_fs) (skip : bool) : FM Z :=
  let% (ret, n) := read_integer fd in
  if ret <? 0 then fret ret
  else
    let% tot_ent := fopt n in
    if 0 <? s32 tot_ent then
      if skip then
        let% p := on_tbl (file_lseek fd (u32 (sizeof_int * 3 * s32 tot_ent)) 1) in
        fret (if p =? -1 then - EIO else ret)
      else
        let% l := on_stg (need_map_list which) in
        if l =? 0 then fret (- ENOMEM) else read_mapping_loop (Z.to_nat (s32 tot_ent)) fd l ret
    else fret ret.

(** ** The storage file *)

(** How the storage file is opened: through its inode, which gives the open file or an
    error; by its name, when there is no inode; or there is neither. *)
Inductive stg_access := ByInode (opened : F + Z) | ByName (opened : F + Z) | NoFile.

(** A file that is opened by name is not used: the code returned is that of no file. *)
Definition open_stg_file (how : stg_access) : FM Z :=
  match how with
  | NoFile => fret (- ENOENT)
  | ByName opened => λ st tbl, option_map (λ '(_, tbl'), (- ENOENT, st, tbl')) (file_open opened tbl)
  | ByInode (inr e) => fret e
  | ByInode (inl f) => λ st tbl, option_map (λ '(fd, tbl'), (fd, st, tbl')) (file_dup_filp (Some f) tbl)
  end.

(** The file that is closed, if there is one. *)
Definition close_file (fd : Z) : FM (option F) := on_tbl (file_close fd).

Definition MAGIC_WORD_V3 : list Z := [79; 118; 108; 51].
Definition MAGIC_WORD_V4 : list Z := [79; 118; 108; 52].
Definition MAGIC_WORD_LEN : Z := 4.

(** The flags of the file for the options of the mount. *)
Definition stg_flags_of (opts : Z) : Z :=
  Z.lor (if has opts OVLFS_STORE_BASE_MAP then OVL_STG_FLAG__BASE_MAPPINGS else 0)
        (if has opts OVLFS_STORE_STG_MAP then OVL_STG_FLAG__STG_MAPPINGS else 0).

Fixpoint write_inodes (k : nat) (fd inodes cur_ino ret : Z) : FM Z :=
  match k with
  | O => fret ret
  | S k' =>
      if 0 <=? ret then
        let% ino := on_stg (lcall (nth_element inodes cur_ino)) in
        let% ret := stg1_write_inode fd ino in
        write_inodes k' fd inodes (cur_ino + 1) ret
      else fret ret
  end.

(** The part of ovlfs_stg1_write_super between opening and closing the file. *)
Definition write_super_body (fd : Z) : FM Z :=
  let% b := on_stg sup in
  seq% write_integer fd (sb_magic b) in
  seq% write_bytes fd MAGIC_WORD_V4 MAGIC_WORD_LEN in
  do% write_integer fd (stg_flags_of (sb_storage_opts b)) in
  let% tot_ino := on_stg (list_length_of (sb_inodes b)) in
  let% ret := write_integer fd tot_ino in
  seq% write_inodes (Z.to_nat tot_ino) fd (sb_inodes b) 1 ret in
  seq% ovlfs_write_mappings fd (sb_base_to_ovl b) (negb (has (sb_storage_opts b) OVLFS_STORE_BASE_MAP)) in
  ovlfs_write_mappings fd (sb_stg_to_ovl b) (negb (has (sb_storage_opts b) OVLFS_STORE_STG_MAP)).

(** The code, and the file as it was closed. *)
Definition ovlfs_stg1_write_super (how : stg_access) : FM (Z * option F) :=
  let% fd := open_stg_file how in
  if fd <? 0 then fret (fd, None)
  else let% ret := write_super_body fd in let% f := close_file fd in fret (ret, f).

Definition is_empty (fd : Z) : FM bool :=
  let% pos := on_tbl (file_lseek fd 0 1) in
  if negb (pos =? 0) then fret false
  else
    let% pos := on_tbl (file_lseek fd 0 2) in
    do% on_tbl (file_lseek fd 0 0) in
    fret (pos =? 0).

(** The code and the flags, if they are set. *)
Definition stg1_read_magic (fd : Z) : FM (Z * option Z) :=
  let% (ret, buf) := read_bytes fd MAGIC_WORD_LEN in
  if ret <? 0 then fret (ret, None)
  else
    let% magic_buf := fopt (mapM id buf) in
    if bool_decide (magic_buf = MAGIC_WORD_V4) then read_integer fd
    else if bool_decide (magic_buf = MAGIC_WORD_V3)
    then fret (ret, Some (Z.lor OVL_STG_FLAG__BASE_MAPPINGS OVL_STG_FLAG__STG_MAPPINGS))
    else fret (- EIO, None).

(** The inodes of the file; the code before the first is not looked at. *)
Fixpoint read_inodes (k : nat) (fd stg_flags ret : Z) : FM Z :=
  match k with
  | O => fret ret
  | S k' =>
      let% ino := on_stg (ovlfs_add_inode None 0) in
      if ino =? 0 then fret (- ENOMEM)
      else seq% stg1_read_inode fd ino stg_flags in read_inodes k' fd stg_flags 0
  end.

(** The part of stg1_read_super after the file was found not to be empty. *)
Definition read_super_body (fd : Z) : FM Z :=
  let% b := on_stg sup in
  let% (_, m) := read_integer fd in
  let% magic := fopt m in
  if negb (magic =? sb_magic b) then fret (- EIO)
  else
    let% (ret, flags) := stg1_read_magic fd in
    if ret <? 0 then fret ret
    else
      let% stg_flags := fopt flags in
      let% (ret, n) := read_integer fd in
      let% tot_ino := fopt n in
      seq% read_inodes (Z.to_nat (s32 tot_ino)) fd stg_flags 0 in
      seq% ovlfs_read_mappings fd FsBase (negb (has (sb_storage_opts b) OVLFS_STORE_BASE_MAP)) in
      ovlfs_read_mappings fd FsStg (negb (has (sb_storage_opts b) OVLFS_STORE_STG_MAP)).

(** When there is no file, the code goes on with the negative descriptor. *)
Definition stg1_read_super (how : stg_access) : FM Z :=
  let% fd := open_stg_file how in
  if (fd <? 0) && negb (fd =? - ENOENT) then fret fd
  else
    let% e := if fd <? 0 then fret false else is_empty fd in
    let% ret := if e then fret (- ENOENT) else read_super_body fd in
    do% close_file fd in
    fret ret.
End StgFile.
