(* ===== verification/StgOrd.v ===== *)
(** Storage of the overlay file system: the functions its lists are sorted by are orders
    on objects whose numbers are in range, and tell two keys apart. *)
From stdpp Require Import sorting.
From S2P Require Import Prelude KList KListSort Stg.
Open Scope Z_scope.

(** ** Names *)
Lemma strncmp_flip a b n : strncmp a b n = - strncmp b a n.
Proof.
  revert a b. induction n as [|n IH]; intros [|x a] [|y b]; simpl; try done.
  rewrite (Z.eqb_sym y x). destruct (Z.eqb_spec x y) as [->|Hne]; [by destruct (y =? 0)|].
  destruct (Z.ltb_spec x y), (Z.ltb_spec y x); lia.
Qed.

Lemma strncmp_refl a n : strncmp a a n = 0.
Proof. pose proof (strncmp_flip a a n). lia. Qed.

Lemma strncmp_trans a b c n : length a = n -> length b = n -> length c = n ->
  strncmp a b n <= 0 -> strncmp b c n <= 0 -> strncmp a c n <= 0.
Proof.
  revert a b c. induction n as [|n IH]; intros [|x a] [|y b] [|z c]; simpl; try lia. intros [= Ha] [= Hb] [= Hc].
  destruct (Z.eqb_spec x y) as [->|]; destruct (Z.eqb_spec y z) as [->|]; rewrite ?Z.eqb_refl.
  - destruct (z =? 0); [lia|]. by apply IH.
  - destruct (Z.eqb_spec y z); [done|]. destruct (Z.ltb_spec y z); lia.
  - destruct (Z.eqb_spec x z); [done|]. destruct (Z.ltb_spec x z); lia.
  - destruct (Z.ltb_spec x y); [|lia]. destruct (Z.ltb_spec y z); [|lia].
    destruct (Z.eqb_spec x z); [lia|]. destruct (Z.ltb_spec x z); lia.
Qed.

(** What a name is made of: bytes, none of them NUL. *)
Definition name_char (b : Z) : Prop := 0 < b < 256.

Lemma strncmp_eq a b n : length a = n -> length b = n -> Forall name_char a -> strncmp a b n = 0 -> a = b.
Proof.
  revert a b. induction n as [|n IH]; intros [|x a] [|y b]; simpl; try done. intros [= Ha] [= Hb] [Hx HF]%list.Forall_cons.
  destruct (Z.eqb_spec x y) as [->|]; [|destruct (x <? y); done]. unfold name_char in Hx.
  rewrite (proj2 (Z.eqb_neq y 0)) by lia. intros Hc. f_equal. by apply IH.
Qed.

(** ** Objects whose numbers are in range *)
Definition name_ok (name : list Z) (len : Z) : Prop :=
  len = Z.of_nat (length name) ∧ 0 < len < 2 ^ 31 ∧ Forall name_char name.

Definition dirent_ok (d : ovlfs_dir_info_t) : Prop :=
  di_len d = Z.of_nat (length (di_name d)) ∧ di_len d < 2 ^ 31 ∧ Forall name_char (di_name d) ∧ 0 <= di_pos d < 2 ^ 31.
Definition map_ok (m : ovlfs_ino_map_t) : Prop := 0 <= im_dev m < 2 ^ 16 ∧ 0 <= im_ino m < 2 ^ 31.
Definition inode_ok (i : ovlfs_inode_t) : Prop :=
  0 <= sp_base_dev (oi_s i) < 2 ^ 16 ∧ 0 <= sp_base_ino (oi_s i) < 2 ^ 31.

Definition obj_ok (o : object) : Prop :=
  match o with OInode i => inode_ok i | ODirent d => dirent_ok d | OMap m => map_ok m end.

Definition keys_ok (h : gmap Z object) : Prop := ∀ p o, h !! p = Some o -> obj_ok o.

Lemma s32_diff a b : 0 <= a < 2 ^ 31 -> 0 <= b < 2 ^ 31 -> s32 (a - b) = a - b.
Proof. intros. apply swrap_id; unfold in_s; lia. Qed.

(** ** Comparing addresses *)
Section Callback.
Context {A : Type} (get : Z -> option A) (f : option A -> option A -> Z) (P : A -> Prop).
Context (Hget : ∀ p a, get p = Some a -> P a).
Context (Hnull : ∀ b, f None (Some b) = 1) (Hnull2 : ∀ a, f (Some a) None = -1).
Context (Hanti : ∀ a b, P a -> P b -> Z.sgn (f (Some a) (Some b)) = - Z.sgn (f (Some b) (Some a))).
Context (Htrans : ∀ a b c, P a -> P b -> P c -> f (Some a) (Some b) <= 0 -> f (Some b) (Some c) <= 0 -> f (Some a) (Some c) <= 0).

Lemma as_callback_order : comp_order (as_callback get f).
Proof using All.
  split.
  - intros x y. unfold as_callback. destruct (get x) eqn:Hx, (get y) eqn:Hy; rewrite ?Hnull, ?Hnull2; [|done|done|lia].
    apply Hanti; eauto.
  - intros x y z. unfold as_callback. destruct (get x) eqn:Hx, (get y) eqn:Hy, (get z) eqn:Hz; rewrite ?Hnull, ?Hnull2; try lia.
    apply Htrans; eauto.
Qed.
End Callback.

Lemma comp_dirent_in a b : dirent_ok a -> dirent_ok b ->
  comp_dirent (Some a) (Some b) =
  if di_len a =? di_len b then strncmp (di_name a) (di_name b) (length (di_name a)) else di_len a - di_len b.
Proof.
  intros (Ha & Ha2 & _) (Hb & Hb2 & _). simpl. destruct (Z.eqb_spec (di_len a) (di_len b)); [by rewrite Ha, Nat2Z.id|].
  apply s32_diff; lia.
Qed.

Lemma comp_ino_map_in a b : map_ok a -> map_ok b ->
  comp_ino_map (Some a) (Some b) = if im_dev a =? im_dev b then im_ino a - im_ino b else im_dev a - im_dev b.
Proof. intros [_ Ha] [_ Hb]. simpl. destruct (_ =? _); [by apply s32_diff|done]. Qed.

Lemma comp_ovl_ino_in a b : inode_ok a -> inode_ok b ->
  comp_ovl_ino (Some a) (Some b) =
  if sp_base_dev (oi_s a) =? sp_base_dev (oi_s b) then sp_base_ino (oi_s a) - sp_base_ino (oi_s b)
  else sp_base_dev (oi_s a) - sp_base_dev (oi_s b).
Proof. intros [_ Ha] [_ Hb]. simpl. destruct (_ =? _); [by apply s32_diff|done]. Qed.

Lemma comp_dirent_pos_in a b : dirent_ok a -> dirent_ok b -> comp_dirent_pos (Some a) (Some b) = di_pos a - di_pos b.
Proof. intros (_ & _ & _ & Ha) (_ & _ & _ & Hb). by apply s32_diff. Qed.

Section Orders.
Context (h : gmap Z object) (Hk : keys_ok h).

Lemma get_dirent_ok p d : get_dirent h p = Some d -> dirent_ok d.
Proof using Hk. unfold get_dirent. destruct (h !! p) as [[| |]|] eqn:E; try done. intros [= ->]. exact (Hk _ _ E). Qed.
Lemma get_map_ok p m : get_map h p = Some m -> map_ok m.
Proof using Hk. unfold get_map. destruct (h !! p) as [[| |]|] eqn:E; try done. intros [= ->]. exact (Hk _ _ E). Qed.
Lemma get_inode_ok p i : get_inode h p = Some i -> inode_ok i.
Proof using Hk. unfold get_inode. destruct (h !! p) as [[| |]|] eqn:E; try done. intros [= ->]. exact (Hk _ _ E). Qed.

Lemma pos_callback_order : comp_order (pos_callback h).
Proof using Hk.
  apply (as_callback_order _ _ dirent_ok get_dirent_ok); try done.
  - intros a b Ha Hb. rewrite !comp_dirent_pos_in by done. lia.
  - intros a b c Ha Hb Hc. rewrite !comp_dirent_pos_in by done. lia.
Qed.

Lemma callback_order k : comp_order (callback h k).
Proof using Hk.
  destruct k; simpl.
  - apply (as_callback_order _ _ inode_ok get_inode_ok); try done.
    + intros a b Ha Hb. rewrite !comp_ovl_ino_in, (Z.eqb_sym (sp_base_dev (oi_s b))) by done. destruct (_ =? _); lia.
    + intros a b c Ha Hb Hc. rewrite !comp_ovl_ino_in by done. repeat case_match; lia.
  - apply (as_callback_order _ _ map_ok get_map_ok); try done.
    + intros a b Ha Hb. rewrite !comp_ino_map_in, (Z.eqb_sym (im_dev b)) by done. destruct (_ =? _); lia.
    + intros a b c Ha Hb Hc. rewrite !comp_ino_map_in by done. repeat case_match; lia.
  - apply (as_callback_order _ _ dirent_ok get_dirent_ok); try done.
    + intros a b Ha Hb. rewrite !comp_dirent_in, (Z.eqb_sym (di_len b)) by done. destruct (Z.eqb_spec (di_len a) (di_len b)) as [E|]; [|lia].
      destruct Ha as [Ha _], Hb as [Hb _]. replace (length (di_name b)) with (length (di_name a)) by lia. rewrite strncmp_flip. lia.
    + intros a b c Ha Hb Hc. rewrite !comp_dirent_in by done. destruct Ha as [Ha _], Hb as [Hb _], Hc as [Hc _].
      destruct (Z.eqb_spec (di_len a) (di_len b)), (Z.eqb_spec (di_len b) (di_len c)), (Z.eqb_spec (di_len a) (di_len c)); try lia.
      replace (length (di_name b)) with (length (di_name a)) by lia. apply strncmp_trans; lia.
Qed.
End Orders.

(** ** Equal keys *)
Lemma comp_dirent_zero a b : dirent_ok a -> dirent_ok b -> comp_dirent (Some a) (Some b) = 0 <-> di_name a = di_name b.
Proof.
  intros Ha Hb. rewrite comp_dirent_in by done. destruct Ha as (Ha & _ & HF & _), Hb as (Hb & _). split.
  - destruct (Z.eqb_spec (di_len a) (di_len b)); [|lia]. apply strncmp_eq; [done|lia|done].
  - intros E. rewrite Ha, Hb, E, Z.eqb_refl. apply strncmp_refl.
Qed.

Lemma comp_ino_map_zero a b : map_ok a -> map_ok b -> comp_ino_map (Some a) (Some b) = 0 <-> im_dev a = im_dev b ∧ im_ino a = im_ino b.
Proof. intros Ha Hb. rewrite comp_ino_map_in by done. destruct (Z.eqb_spec (im_dev a) (im_dev b)); lia. Qed.

(** Out of range the functions are no orders: three inode numbers go around in a circle. *)
Example comp_ino_map_cycle : let c x y := comp_ino_map (Some (InoMap 1 x 0)) (Some (InoMap 1 y 0)) in
  c 0 (2 ^ 31 - 1) < 0 ∧ c (2 ^ 31 - 1) (2 ^ 31 + 2 ^ 30) < 0 ∧ c (2 ^ 31 + 2 ^ 30) 0 < 0.
Proof. done. Qed.
