(* ===== verification/StgInv.v ===== *)
(** Storage of the overlay file system: the lists of the module are right in the memory
    they are used in, and stay right when the objects change in what they are not
    sorted by, and when the list module is called. *)
From stdpp Require Import sorting.
From S2P Require Import Prelude KList KListSort KListInv KListOps KListIdx KListThm KListDup KListKeep Stg StgOrd.
Open Scope Z_scope.

(** ** Lists and the functions they are sorted by *)

(** The alternate indexes a list of a kind has. *)
Definition kind_funcs (h : gmap Z object) (k : lkind) : option (list (option (option comp_func_t))) :=
  match k with KDirents => Some [Some (Some (pos_callback h))] | _ => None end.

(** Objects of the kind a list holds. *)
Definition of_kind (h : gmap Z object) (k : lkind) (p : Z) : Prop :=
  match k with
  | KInodes => is_Some (get_inode h p)
  | KMaps => is_Some (get_map h p)
  | KDirents => is_Some (get_dirent h p)
  end.

Record bound (h : gmap Z object) (k : lkind) (l : list_struct) : Prop := {
  bd_cmp : ll_element_compare l = Some (callback h k);
  bd_search : ll_search_func l = Some (callback h k);
  bd_funcs : index_funcs l = kind_funcs h k
}.

Lemma slot_callback_id h ixs : map (option_map ix_comp_func) ixs = [Some (Some (pos_callback h))] ->
  map (option_map (slot_callback h KDirents)) ixs = ixs.
Proof. destruct ixs as [|[[c fl s e]|] [|]]; simpl; try done. by intros [= ->]. Qed.

Lemma with_callbacks_bound h k l : bound h k l -> with_callbacks h k l = l.
Proof.
  intros [Hc Hs Hf]. unfold with_callbacks, index_funcs in *. destruct l as [n t md fi la el nx cm se ad ae au sem sz ixs]; simpl in *.
  subst. f_equal. destruct ixs as [ixs|]; [|done]. simpl in *. destruct k; try done. injection Hf as Hf. simpl. f_equal.
  by apply slot_callback_id.
Qed.

(** What is known of one list. Inodes are kept in the order they are made in. *)
Record list_ok (h : gmap Z object) (k : lkind) (m : kmem) (l : list_struct) (ps es : list Z) : Prop := {
  li_ok : kl_ok m l ps es;
  li_bound : bound h k l;
  li_mode : ll_index_mode l = SORTED -> es ≠ [];
  li_kind : Forall (of_kind h k) es;
  li_end : k = KInodes -> end_ok l ps ∧ flat_order l es ∧ ll_index_mode l ≠ SORTED
}.

Abbreviation klists st := (rebind (s_obj st) (s_funcs st) (s_k st)).

Record lists_ok (st : sst) (W : gmap Z (list Z * list Z)) : Prop := {
  lo_keys : keys_ok (s_obj st);
  lo_world : world_ok (klists st) W;
  lo_list p ps es : W !! p = Some (ps, es) ->
    ∃ k l, s_funcs st !! p = Some k ∧ ks_lists (klists st) !! p = Some l ∧ list_ok (s_obj st) k (ks_mem (s_k st)) l ps es
}.

Lemma rebind_lookup h fs s p : ks_lists (rebind h fs s) !! p =
  (λ l, match fs !! p with Some k => with_callbacks h k l | None => l end) <$> ks_lists s !! p.
Proof. unfold rebind. simpl. rewrite map_lookup_imap. by destruct (ks_lists s !! p). Qed.

Lemma rebind_id h fs s : (∀ p k l, fs !! p = Some k -> ks_lists s !! p = Some l -> with_callbacks h k l = l) -> rebind h fs s = s.
Proof.
  intros Hb. destruct s as [m ls sg]. unfold rebind. simpl in *. f_equal. apply map_eq. intros p. rewrite map_lookup_imap.
  destruct (ls !! p) as [l|] eqn:Hl; [|done]. simpl. f_equal. destruct (fs !! p) as [k|] eqn:Hk; [|done]. by apply (Hb p).
Qed.

Lemma with_callbacks_twice h h' k l : with_callbacks h k (with_callbacks h' k l) = with_callbacks h k l.
Proof.
  unfold with_callbacks. destruct l; simpl. f_equal. destruct ll_indexes as [ixs|]; [|done]. simpl. f_equal. rewrite map_map.
  apply map_ext. intros [ix|]; [|done]. simpl. f_equal. by destruct k.
Qed.

Lemma rebind_twice h h' fs s : rebind h fs (rebind h' fs s) = rebind h fs s.
Proof.
  unfold rebind. simpl. f_equal. apply map_eq. intros p. rewrite !map_lookup_imap. destruct (ks_lists s !! p) as [l|]; [|done]. simpl.
  destruct (fs !! p); [|done]. by rewrite with_callbacks_twice.
Qed.

(** ** Changing objects *)

(** What a list is sorted by is the same in both memories; inodes are not sorted. *)
Definition same_key (h h' : gmap Z object) (k : lkind) (p : Z) : Prop :=
  match k with
  | KInodes => is_Some (get_inode h p) -> is_Some (get_inode h' p)
  | KMaps => ∀ a, get_map h p = Some a -> ∃ b, get_map h' p = Some b ∧ im_dev b = im_dev a ∧ im_ino b = im_ino a
  | KDirents => ∀ a, get_dirent h p = Some a ->
      ∃ b, get_dirent h' p = Some b ∧ di_name b = di_name a ∧ di_len b = di_len a ∧ di_pos b = di_pos a
  end.

Lemma same_key_kind h h' k p : same_key h h' k p -> of_kind h k p -> of_kind h' k p.
Proof. destruct k; simpl; [done|intros H [a Ha]; destruct (H a Ha) as (b & ? & _); eauto..]. Qed.

Lemma same_key_refl h h' k p : h' !! p = h !! p -> same_key h h' k p.
Proof. intros E. destruct k; simpl; unfold get_inode, get_map, get_dirent; rewrite E; eauto. Qed.

Lemma callback_same h h' k x y : k ≠ KInodes -> same_key h h' k x -> same_key h h' k y -> of_kind h k x -> of_kind h k y ->
  callback h' k x y = callback h k x y.
Proof.
  destruct k; [done|..]; simpl; intros _ Hx Hy [a Ha] [b Hb]; unfold as_callback;
    destruct (Hx a Ha) as (a' & -> & E1), (Hy b Hb) as (b' & -> & E2); rewrite Ha, Hb; simpl.
  - destruct E1 as [-> ->], E2 as [-> ->]. done.
  - destruct E1 as (-> & -> & _), E2 as (-> & -> & _). done.
Qed.

Lemma pos_callback_same h h' x y : same_key h h' KDirents x -> same_key h h' KDirents y -> of_kind h KDirents x -> of_kind h KDirents y ->
  pos_callback h' x y = pos_callback h x y.
Proof.
  simpl. intros Hx Hy [a Ha] [b Hb]. unfold pos_callback, as_callback.
  destruct (Hx a Ha) as (a' & -> & _ & _ & E1), (Hy b Hb) as (b' & -> & _ & _ & E2). rewrite Ha, Hb. simpl. by rewrite E1, E2.
Qed.

Lemma sorted_same (c c' : comp_func_t) xs : (∀ x y, x ∈ xs -> y ∈ xs -> c' x y = c x y) -> sorted_by c xs -> sorted_by c' xs.
Proof.
  intros Heq Hs. unfold sorted_by in *. induction Hs as [|x xs Hs IH HF]; constructor.
  - apply IH. intros ? ? ? ?. apply Heq; by right.
  - rewrite list.Forall_forall in HF |- *. intros y Hy. unfold cle. rewrite Heq; [by apply HF|by left|by right].
Qed.

Section HeapChange.
Context (h h' : gmap Z object) (Hkeys : keys_ok h').

Lemma same_on_perm k xs es : xs ≡ₚ es -> Forall (of_kind h k) es -> Forall (same_key h h' k) es ->
  ∀ x y, x ∈ xs -> y ∈ xs -> same_key h h' k x ∧ same_key h h' k y ∧ of_kind h k x ∧ of_kind h k y.
Proof.
  intros Hp HF HS x y Hx Hy. rewrite Hp in Hx, Hy. rewrite !list.Forall_forall in HF, HS. by split_and!; auto.
Qed.

Lemma slots_change k l es : slots (slot_ok es) l -> bound h k l -> Forall (of_kind h k) es -> Forall (same_key h h' k) es ->
  slots (slot_ok es) (with_callbacks h' k l).
Proof using Hkeys.
  intros Hs [_ _ Hf] Hk HS. unfold slots, index_funcs in *. simpl. destruct (ll_indexes l) as [ixs|]; [|done]. simpl in *.
  destruct k; [done|done|]. injection Hf as Hf. destruct ixs as [|[ix|] [|]]; simpl in Hf; try done. injection Hf as Hc.
  destruct Hs as (Hsz & Hpos & HF). simpl in *. split_and!; [done|lia|]. apply list.Forall_cons in HF as [Hslot _].
  apply list.Forall_cons. split; [|constructor]. destruct Hslot as (c & Hc' & Ho & HU). rewrite Hc in Hc'. injection Hc' as <-.
  exists (pos_callback h'). split; [done|]. split; [by apply pos_callback_order|]. simpl. intros Hst.
  destruct (HU Hst) as (Hne & xs & Hxs & Hp & Hso). split; [done|]. exists xs. split_and!; [done|done|].
  eapply sorted_same; [|exact Hso]. intros x y Hx Hy. destruct (same_on_perm KDirents xs es Hp Hk HS x y Hx Hy) as (? & ? & ? & ?).
  by apply pos_callback_same.
Qed.

Lemma list_ok_change k m l ps es : list_ok h k m l ps es -> Forall (same_key h h' k) es -> list_ok h' k m (with_callbacks h' k l) ps es.
Proof using Hkeys.
  intros [Hok Hb Hm Hk He] HS. pose proof Hb as [Hc Hse Hf]. split.
  - destruct Hok as [H1 H2 H3 H4 [H5 H6 H7 H8 H9] H10 H11]. split; try done.
    + split; try done. simpl. intros c [= <-]. by apply callback_order.
    + unfold primary_ok in *. simpl. destruct (ll_index_mode l) eqn:Em; [done|done|]. destruct H10 as (xs & c & Hxs & Hp & Hcmp & Hso).
      rewrite Hc in Hcmp. injection Hcmp as <-. exists xs, (callback h' k). split_and!; [done|done|done|].
      destruct (decide (k = KInodes)) as [->|Hki]; [by destruct (He eq_refl) as (_ & _ & ?)|].
      eapply sorted_same; [|exact Hso]. intros x y Hx Hy. destruct (same_on_perm k xs es Hp Hk HS x y Hx Hy) as (? & ? & ? & ?).
      by apply callback_same.
    + by apply slots_change.
  - split; [done|done|]. unfold index_funcs in *. simpl. destruct (ll_indexes l) as [ixs|]; simpl in *; [|by destruct k].
    destruct k; [done|done|]. injection Hf as Hf. simpl. f_equal. destruct ixs as [|[ix|] [|]]; simpl in *; by simplify_eq.
  - done.
  - rewrite list.Forall_forall in Hk, HS |- *. intros p Hp. eapply same_key_kind; [by apply HS|by apply Hk].
  - intros Ek. destruct (He Ek) as (? & ? & ?). done.
Qed.
End HeapChange.

(** Objects change; the lists do not see it. *)
Lemma lists_ok_objs st W h' : lists_ok st W -> keys_ok h' ->
  (∀ p k ps es, W !! p = Some (ps, es) -> s_funcs st !! p = Some k -> Forall (same_key (s_obj st) h' k) es) ->
  lists_ok (set_objs st h') W.
Proof.
  intros [Hk HW HL] Hk' HS.
  assert (Hall : ∀ p ps es, W !! p = Some (ps, es) -> ∃ k l, s_funcs st !! p = Some k ∧
    ks_lists (rebind h' (s_funcs st) (s_k st)) !! p = Some l ∧ list_ok h' k (ks_mem (s_k st)) l ps es ∧
    ∃ l0, ks_lists (klists st) !! p = Some l0 ∧ l = with_callbacks h' k l0).
  { intros p ps es Hp. destruct (HL p ps es Hp) as (k & l & Hf & Hl & Hlo). exists k, (with_callbacks h' k l).
    rewrite <- (rebind_twice h' (s_obj st)), rebind_lookup, Hl, Hf. split_and!; [done|done| |by exists l].
    apply (list_ok_change (s_obj st)); [done|done|by eapply HS]. }
  split; [done| |].
  - destruct HW as [H1 H2 H3 H4]. split; [done| |done|].
    + intros p ps es Hp. destruct (H2 p ps es Hp) as [Hp0 (l1 & Hl1 & _ & Hfree)]. split; [done|].
      destruct (Hall p ps es Hp) as (k & l & Hf & Hl & Hlo & l0 & Hl0 & ->). exists (with_callbacks h' k l0).
      split_and!; [done|apply Hlo|]. rewrite Hl1 in Hl0. by injection Hl0 as <-.
    + intros p l Hl. simpl in *. rewrite map_lookup_imap in Hl. destruct (ks_lists (s_k st) !! p) as [l0|] eqn:E; [|done].
      eapply H4. rewrite map_lookup_imap, E. done.
  - intros p ps es Hp. destruct (Hall p ps es Hp) as (k & l & Hf & Hl & Hlo & _). by exists k, l.
Qed.

(** ** Calling the list module *)

(** Nothing but the lists and the memory they use has changed; there may be new lists. *)
Record sframe (st st' : sst) : Prop := {
  sf_funcs : s_funcs st ⊆ s_funcs st';
  sf_sup : s_sup st' = s_sup st;
  sf_ram : s_freeram st' = s_freeram st ∧ s_totalram st' = s_totalram st;
  sf_next : km_next (ks_mem (s_k st)) <= km_next (ks_mem (s_k st'));
  sf_malloc : km_do_malloc (ks_mem (s_k st')) = km_do_malloc (ks_mem (s_k st));
  sf_kmalloc : km_kmalloc (ks_mem (s_k st')) = km_kmalloc (ks_mem (s_k st))
}.

#[export] Instance sframe_pre : PreOrder sframe.
Proof.
  split; [done|]. intros x y z [H1 H2 H3 H4 H5 H6] [G1 G2 G3 G4 G5 G6]. split; [by etransitivity|congruence| |lia|congruence|congruence].
  destruct H3, G3. split; congruence.
Qed.

Lemma sframe_objs st h : sframe st (set_objs st h).
Proof. done. Qed.

(** The run of a function on one list that leaves it as this module needs it. *)
Record lrun_ok (h : gmap Z object) (k : lkind) (m : kmem) (l : list_struct) (ps : list Z) (m' : kmem) (l' : list_struct) (ps' es' : list Z) : Prop := {
  lr_step : lstep m l ps m' l' ps' es';
  lr_kept : kept m l m' l';
  lr_mode : ll_index_mode l' = SORTED -> es' ≠ [];
  lr_kind : Forall (of_kind h k) es';
  lr_end : k = KInodes -> end_ok l' ps' ∧ flat_order l' es' ∧ ll_index_mode l' ≠ SORTED
}.

Lemma index_funcs_view l : index_funcs (lock_view l) = index_funcs l ∧ index_funcs (unlock_view l) = index_funcs l.
Proof. unfold lock_view, unlock_view. by destruct (ll_auto_lock l). Qed.

Lemma list_ok_view h k m l ps es : list_ok h k m l ps es -> list_ok h k m (lock_view l) ps es.
Proof.
  intros [H1 [H2 H3 H4] H5 H6 H7]. split; [by apply kl_ok_lock_view| |by unfold lock_view; destruct (ll_auto_lock l)|done|].
  - split; [by rewrite (proj1 (proj2 (proj2 (lock_view_fields l))))|by rewrite (proj1 (lock_view_fields l))|by rewrite (proj1 (index_funcs_view l))].
  - intros E. destruct (H7 E) as (? & ? & ?). by unfold lock_view; destruct (ll_auto_lock l).
Qed.

Lemma lrun_list_ok h k m l ps m' l' ps' es' : bound h k l -> lrun_ok h k m l ps m' l' ps' es' -> list_ok h k m' (unlock_view l') ps' es'.
Proof.
  intros [Hc Hs Hf] [Hst Hke Hmo Hki Hen]. pose proof (ls_frame _ _ _ _ _ _ _ Hst) as [_ _ Fc Fs]. split.
  - apply kl_ok_unlock_view, Hst.
  - split; [unfold unlock_view; destruct (ll_auto_lock l'); simpl; congruence..|].
    rewrite (proj2 (index_funcs_view l')), (kp_funcs _ _ _ _ Hke). done.
  - by unfold unlock_view; destruct (ll_auto_lock l').
  - done.
  - intros E. destruct (Hen E) as (? & ? & ?). by unfold unlock_view; destruct (ll_auto_lock l').
Qed.

(** Lists are bound to the memory a call is made in. *)
Lemma klists_bound st p k l : s_funcs st !! p = Some k -> ks_lists (klists st) !! p = Some l -> with_callbacks (s_obj st) k l = l.
Proof.
  intros Hf. rewrite rebind_lookup, Hf. destruct (ks_lists (s_k st) !! p); [|done]. intros [= <-]. apply with_callbacks_twice.
Qed.

(** A call that replaces one list, which may not have been one of those of the module. *)
Lemma lcall_core {A} (op : KM A) st W p ps es k l a m' l' ps' es' : keys_ok (s_obj st) -> world_ok (klists st) (<[p := (ps, es)]> W) ->
  (∀ q ps2 es2, q ≠ p -> W !! q = Some (ps2, es2) ->
    ∃ k l, s_funcs st !! q = Some k ∧ ks_lists (klists st) !! q = Some l ∧ list_ok (s_obj st) k (ks_mem (s_k st)) l ps2 es2) ->
  s_funcs st !! p = Some k -> ks_lists (klists st) !! p = Some l ->
  op (klists st) = KRet a (set_list (klists st) p m' (unlock_view l')) ->
  lstep (ks_mem (s_k st)) (lock_view l) ps m' l' ps' es' -> km_kmalloc m' = km_kmalloc (ks_mem (s_k st)) ->
  list_ok (s_obj st) k m' (unlock_view l') ps' es' ->
  ∃ st', lcall op st = Some (a, st') ∧ s_obj st' = s_obj st ∧ sframe st st' ∧ lists_ok st' (<[p := (ps', es')]> W) ∧
    klists st' = set_list (klists st) p m' (unlock_view l').
Proof.
  intros Hk HW HL Hf Hl Hop Hst Hkm Hlo'.
  set (s' := set_list (klists st) p m' (unlock_view l')) in *. set (st' := set_k st s').
  assert (Hid : klists st' = s').
  { apply rebind_id. intros q kq lq Hfq Hlq. simpl in *. apply lookup_insert_Some in Hlq as [[<- <-]|[Hne Hlq]].
    - rewrite Hf in Hfq. injection Hfq as <-. by apply with_callbacks_bound, Hlo'.
    - by apply (klists_bound st q). }
  exists st'. unfold lcall. rewrite Hop. split_and!; [done|done| | |done].
  - split; try done; apply Hst.
  - destruct (wo_list _ _ HW _ _ _ (lookup_insert_eq _ _ _)) as [_ (l1 & Hl1 & _ & Hfree)]. rewrite Hl in Hl1. injection Hl1 as <-.
    split; [done| |].
    + rewrite Hid, <- (insert_insert_eq W p (ps', es') (ps, es)).
      eapply world_step; [exact HW|apply lookup_insert_eq|exact Hl|done|exact Hst].
    + intros q ps2 es2 Hq. rewrite Hid. destruct (decide (q = p)) as [->|Hne].
      * rewrite lookup_insert_eq in Hq. injection Hq as <- <-. exists k, (unlock_view l'). split_and!; [done|apply lookup_insert_eq|exact Hlo'].
      * rewrite lookup_insert_ne in Hq by done. destruct (HL q ps2 es2 Hne Hq) as (kq & lq & Hfq & Hlq & [G1 G2 G3 G4 G5]).
        exists kq, lq. split_and!; [done|simpl; by rewrite lookup_insert_ne|]. split; try done. simpl.
        destruct (kl_ok_other _ _ _ _ _ _ _ lq ps2 es2 Hst G1) as [G1' _]; [|done].
        intros n Hn Hn'. apply Hne. eapply (wo_apart _ _ HW q p ps2 es2 ps es n); [by rewrite lookup_insert_ne|apply lookup_insert_eq|done|done].
Qed.

(** A call that replaces one of the lists. *)
Lemma lcall_step {A} (op : KM A) st W p ps es k l a m' l' ps' es' : lists_ok st W -> W !! p = Some (ps, es) -> s_funcs st !! p = Some k ->
  ks_lists (klists st) !! p = Some l -> list_ok (s_obj st) k (ks_mem (s_k st)) l ps es ->
  op (klists st) = KRet a (set_list (klists st) p m' (unlock_view l')) ->
  lrun_ok (s_obj st) k (ks_mem (s_k st)) (lock_view l) ps m' l' ps' es' ->
  ∃ st', lcall op st = Some (a, st') ∧ s_obj st' = s_obj st ∧ sframe st st' ∧ lists_ok st' (<[p := (ps', es')]> W) ∧
    klists st' = set_list (klists st) p m' (unlock_view l').
Proof.
  intros [Hk HW HL] Hp Hf Hl Hlo Hop Hrun. eapply (lcall_core op st W p ps es k l); [done|by rewrite insert_id| |done|done|done|apply Hrun| |].
  - intros q ps2 es2 _. apply HL.
  - apply (kp_kmalloc _ _ _ _ (lr_kept _ _ _ _ _ _ _ _ _ Hrun)).
  - eapply lrun_list_ok; [|exact Hrun]. apply (li_bound _ _ _ _ _ _ (list_ok_view _ _ _ _ _ _ Hlo)).
Qed.
