(* ===== verification/StgList.v ===== *)
(** Storage of the overlay file system: what the calls into the list module give this
    module, in terms of the sequences of elements. *)
From stdpp Require Import sorting.
From S2P Require Import Prelude KList KListSort KListInv KListOps KListIdx KListThm KListDup KListKeep Stg StgOrd StgInv.
Open Scope Z_scope.

(** A call on one list has a result [a], and the list has the nodes [ps'] and elements
    [es'] then. *)
Definition call_post {A} (st : sst) (W : gmap Z (list Z * list Z)) (p : Z) (Q : A -> list Z * list Z -> Prop) (out : option (A * sst)) : Prop :=
  ∃ a st' ps' es', out = Some (a, st') ∧ s_obj st' = s_obj st ∧ sframe st st' ∧ lists_ok st' (<[p := (ps', es')]> W) ∧ Q a (ps', es').

Section Calls.
Context (st : sst) (W : gmap Z (list Z * list Z)) (p : Z) (ps es : list Z) (k : lkind).
Context (HL : lists_ok st W) (Hp : W !! p = Some (ps, es)) (Hf : s_funcs st !! p = Some k).

Lemma call_start : ∃ l, p ≠ 0 ∧ ks_lists (klists st) !! p = Some l ∧ lock_free l ∧ list_ok (s_obj st) k (ks_mem (s_k st)) l ps es ∧
  list_ok (s_obj st) k (ks_mem (s_k st)) (lock_view l) ps es.
Proof using HL Hp Hf.
  destruct (lo_list _ _ HL _ _ _ Hp) as (k1 & l & Hf1 & Hl & Hlo). rewrite Hf in Hf1. injection Hf1 as <-.
  destruct (wo_list _ _ (lo_world _ _ HL) _ _ _ Hp) as [Hp0 (l1 & Hl1 & _ & Hfree)]. rewrite Hl in Hl1. injection Hl1 as <-.
  exists l. split_and!; [done|done|done|done|by apply list_ok_view].
Qed.

(** The body of a function of the list module that takes the lock. *)
Definition body_post {A} (f : LM A) (Q : A -> list Z * list Z -> Prop) : Prop :=
  ∀ l, list_ok (s_obj st) k (ks_mem (s_k st)) l ps es ->
    ∃ a m' l' ps' es', f (ks_mem (s_k st)) l = Some (a, m', l') ∧ lrun_ok (s_obj st) k (ks_mem (s_k st)) l ps m' l' ps' es' ∧ Q a (ps', es').

Lemma call_locked {A} (null fail : A) f Q : body_post f Q -> call_post st W p Q (lcall (locked p null fail (on_list p f)) st).
Proof using HL Hp Hf.
  intros Hb. destruct call_start as (l & Hp0 & Hl & Hfree & Hlo & Hlv). destruct (Hb _ Hlv) as (a & m' & l' & ps' & es' & Hr & Hrun & HQ).
  destruct (lcall_step (locked p null fail (on_list p f)) st W p ps es k l a m' l' ps' es' HL Hp Hf Hl Hlo) as (st' & H1 & H2 & H3 & H4 & _); [|done|].
  - by eapply locked_run.
  - by exists a, st', ps', es'.
Qed.

Lemma call_index {A} (d : A) f Q : body_post f Q -> call_post st W p Q (lcall (index_op p d f) st).
Proof using HL Hp Hf.
  intros Hb. destruct call_start as (l & Hp0 & Hl & Hfree & Hlo & Hlv). destruct (Hb _ Hlv) as (a & m' & l' & ps' & es' & Hr & Hrun & HQ).
  destruct (lcall_step (index_op p d f) st W p ps es k l a m' l' ps' es' HL Hp Hf Hl Hlo) as (st' & H1 & H2 & H3 & H4 & _); [|done|].
  - by eapply index_op_run.
  - by exists a, st', ps', es'.
Qed.

(** A run that leaves the elements. *)
Lemma lrun_same l m' l' : list_ok (s_obj st) k (ks_mem (s_k st)) l ps es -> lstep (ks_mem (s_k st)) l ps m' l' ps es ->
  kept (ks_mem (s_k st)) l m' l' -> (ll_index_mode l' = SORTED -> ll_index_mode l = SORTED) ->
  (k = KInodes -> end_ok l' ps ∧ flat_order l' es) -> lrun_ok (s_obj st) k (ks_mem (s_k st)) l ps m' l' ps es.
Proof.
  intros [H1 H2 H3 H4 H5] Hst Hke Hmo Hen. split; [done|done|by auto|done|]. intros E. destruct (H5 E) as (_ & _ & Hns), (Hen E).
  split_and!; [done|done|]. intros Hs. by apply Hns, Hmo.
Qed.

Lemma order_agrees c v x y : comp_order c -> c x y <= 0 -> (c v x < 0 -> c v y < 0) ∧ (0 < c v y -> 0 < c v x).
Proof.
  intros Ho Hxy. pose proof (comp_anti (c := c) v x) as A1. pose proof (comp_anti (c := c) v y) as A2. split; intros Hv.
  - assert (Hvy : c v y <= 0) by (apply (comp_trans v x y); [lia|done]). destruct (Z.eq_dec (c v y) 0) as [E|]; [|lia].
    assert (Hyv : c y v <= 0) by lia. pose proof (comp_trans x y v Hxy Hyv). lia.
  - destruct (Z.le_gt_cases (c v x) 0) as [Hle|]; [|lia]. pose proof (comp_trans v x y Hle Hxy). lia.
Qed.

Lemma call_search v : k ≠ KInodes ->
  call_post st W p (λ r w, w = (ps, es) ∧ ∃ o, r = default 0 o ∧ search_result (callback (s_obj st) k v) es o) (lcall (search_for_element p v) st).
Proof using HL Hp Hf.
  intros Hk. apply call_locked. intros l Hlo. pose proof Hlo as [H1 [Hc Hs _] _ _ _].
  destruct (search_for_element_spec _ _ _ _ v _ H1 Hs) as (o & m' & l' & Hr & Hst & Hres).
  { intros c x y Hc'. rewrite Hc in Hc'. injection Hc' as <-. apply order_agrees, callback_order, HL. }
  exists (default 0 o), m', l', ps, es. split_and!; [done| |done|by exists o].
  apply lrun_same; [done|done|by eapply keeps_search|by eapply calm_search|done].
Qed.

Lemma call_insert_sorted x : k ≠ KInodes -> of_kind (s_obj st) k x -> Z.of_nat (length es) < 2 ^ 28 ->
  call_post st W p (λ r w, r = 0 ∧ no_memory (ks_mem (s_k st)) ∧ w = (ps, es) ∨ r = x ∧ ∃ q, w = (q :: ps, x :: es)) (lcall (insert_into_list_sorted p x) st).
Proof using HL Hp Hf.
  intros Hk Hx Hlen. apply call_locked. intros l Hlo. pose proof Hlo as [H1 [Hc Hs _] H3 H4 _].
  destruct (insert_into_list_sorted_spec _ l ps es x H1 Hlen H3) as (r & m' & l' & Hr & Hcase).
  assert (Hke : kept (ks_mem (s_k st)) l m' l') by (eapply keeps_insert_sorted; [apply H1|exact Hr]).
  destruct Hcase as [(-> & Hno & Hst)|(q & -> & Hq & Hst)].
  - exists 0, m', l', ps, es. split_and!; [done| |by left]. split; [done|done| |done|done].
    intros Hm ->. destruct (ll_index_mode l) eqn:E; [| |by apply H3].
    all: revert Hr; unfold insert_into_list_sorted_body, lbind at 1, lget at 1; rewrite (kc_add _ (kl_same _ _ _ _ H1)).
    all: unfold lbind at 1, call_add, add_abs_node, request; rewrite Hno; cbn [mbind option_bind].
    all: change (0 =? 0) with true; cbv iota; unfold lbind at 1, lret at 1, LIST_NODE_DATA; rewrite (kc_type _ (kl_same _ _ _ _ H1)).
    all: intros [= <- <-]; congruence.
  - exists x, m', l', (q :: ps), (x :: es). split_and!; [done| |right; eauto]. split; [done|done|done|by constructor|done].
Qed.

Lemma find_hit_some hit j xs i : find_hit (λ e _, hit e) j xs = Some i -> ∃ e, xs !! i = Some e ∧ hit e = true.
Proof.
  revert i j. induction xs as [|x xs IH]; intros i j; simpl; [done|]. destruct (hit x) eqn:E; [intros [= <-]; eauto|].
  destruct (find_hit _ _ xs) as [i'|] eqn:Ei; [|done]. intros [= <-]. by apply (IH i' (Datatypes.S j)).
Qed.
Lemma find_hit_none hit j xs : find_hit (λ e _, hit e) j xs = None -> Forall (λ e, hit e = false) xs.
Proof.
  revert j. induction xs as [|x xs IH]; intros j; simpl; [constructor|]. destruct (hit x) eqn:E; [done|].
  destruct (find_hit _ _ xs) eqn:Ei; [done|]. intros _. constructor; [done|by apply (IH (Datatypes.S j))].
Qed.

Lemma call_remove v : k ≠ KInodes ->
  call_post st W p (λ r w, r = 0 ∧ w = (ps, es) ∧ Forall (λ e, callback (s_obj st) k v e ≠ 0) es ∨
      ∃ i, es !! i = Some r ∧ w = (delete i ps, delete i es) ∧ callback (s_obj st) k v r = 0) (lcall (remove_element p v) st).
Proof using HL Hp Hf.
  intros Hk. destruct call_start as (l & Hp0 & Hl & Hfree & Hlo & Hlv). pose proof Hlv as [H1 [Hc Hs _] H3 H4 _].
  pose proof (remove_body_spec _ _ _ _ (λ e _, callback (s_obj st) k v e =? 0) H1) as Hrem. unfold removed in Hrem.
  assert (Hbody : remove_element_body v (ks_mem (s_k st)) (lock_view l) =
    remove_body (λ e _, callback (s_obj st) k v e =? 0) (ks_mem (s_k st)) (lock_view l)).
  { unfold remove_element_body, lbind at 1, lget. by rewrite Hs. }
  assert (Hrun : ∃ r m' l' ps' es', remove_element_body v (ks_mem (s_k st)) (lock_view l) = Some (r, m', l') ∧
    lrun_ok (s_obj st) k (ks_mem (s_k st)) (lock_view l) ps m' l' ps' es' ∧
    (r = 0 ∧ (ps', es') = (ps, es) ∧ Forall (λ e, callback (s_obj st) k v e ≠ 0) es ∨ ∃ i, es !! i = Some r ∧ (ps', es') = (delete i ps, delete i es) ∧ callback (s_obj st) k v r = 0)).
  { rewrite Hbody. destruct (find_hit _ 0 es) as [i|] eqn:Eh.
    - destruct Hrem as (e & m' & l' & Hr & He & Hm & Hst). exists e, m', l', (delete i ps), (delete i es). split; [done|]. split.
      + split; [done|eapply keeps_remove; by rewrite Hbody|by rewrite Hm| |done].
        rewrite list.Forall_forall in H4 |- *. intros x Hx. apply H4. by eapply list_elem_of_delete_inv.
      + right. exists i. split_and!; [done|done|]. destruct (find_hit_some _ _ _ _ Eh) as (e' & He' & Hz). assert (e' = e) as -> by congruence. lia.
    - exists 0, (ks_mem (s_k st)), (lock_view l), ps, es. split; [done|]. split; [eapply lrun_same; [exact Hlv|exact (lstep_refl _ _ _ _ H1)|done|done|done]|].
      left. split_and!; [done|done|]. eapply Forall_impl; [|exact (find_hit_none (λ e, callback (s_obj st) k v e =? 0) 0 es Eh)]. simpl. intros e. lia. }
  destruct Hrun as (r & m' & l' & ps' & es' & Hr & Hrun & HQ).
  destruct (lcall_step (remove_element p v) st W p ps es k l r m' l' ps' es' HL Hp Hf Hl Hlo) as (st' & G1 & G2 & G3 & G4 & _); [|done|].
  - unfold remove_element, removal. rewrite (proj2 (Z.eqb_neq p 0)), (kbind_run _ _ _ _ _ (get_list_run p _ l Hl)) by done.
    rewrite (kc_type _ (kl_same _ _ _ _ (li_ok _ _ _ _ _ _ Hlo))). by eapply locked_run.
  - by exists r, st', ps', es'.
Qed.

(** The positions of the list show the elements [xs]. *)
Definition shown (st : sst) (p : Z) (xs : list Z) : Prop :=
  ∃ l, ks_lists (klists st) !! p = Some l ∧ is_indexed l = true ∧ ll_element_list l = Some (cells xs).

Lemma view_shown l xs : is_indexed l = true ∧ ll_element_list l = Some (cells xs) <->
  is_indexed (unlock_view l) = true ∧ ll_element_list (unlock_view l) = Some (cells xs).
Proof. unfold unlock_view. by destruct (ll_auto_lock l). Qed.
Lemma lock_shown l xs : is_indexed l = true ∧ ll_element_list l = Some (cells xs) <->
  is_indexed (lock_view l) = true ∧ ll_element_list (lock_view l) = Some (cells xs).
Proof. unfold lock_view. by destruct (ll_auto_lock l). Qed.

(** Reading a position: the element there, or NULL when the position is not one of the
    list, or when there is no index yet and no memory for it. *)
Lemma call_nth n : ∃ r st', lcall (nth_element p n) st = Some (r, st') ∧ s_obj st' = s_obj st ∧ sframe st st' ∧ lists_ok st' W ∧
  (r = 0 ∧ (no_memory (ks_mem (s_k st)) ∧ (∀ ys, ¬ shown st p ys) ∨ ¬ 1 <= n <= Z.of_nat (length es)) ∨
   1 <= n ∧ ∃ xs, shown st' p xs ∧ (∀ ys, shown st p ys -> ys = xs) ∧ (k = KInodes -> xs = es) ∧ xs ≡ₚ es ∧ xs !! Z.to_nat (n - 1) = Some r).
Proof using HL Hp Hf.
  destruct call_start as (l & Hp0 & Hl & Hfree & Hlo & Hlv). pose proof Hlv as [H1 [Hc Hs _] H3 H4 H5].
  destruct (nth_element_spec _ _ _ _ n H1) as (r & m' & l' & Hr & Hst & Hla & Hflat & Hcase).
  assert (Hsh : ∀ ys, shown st p ys -> is_indexed (lock_view l) = true ∧ ll_element_list (lock_view l) = Some (cells ys)).
  { intros ys (l1 & Hl1 & Hsh). rewrite Hl in Hl1. injection Hl1 as <-. exact (proj1 (lock_shown l ys) Hsh). }
  assert (Hend : k = KInodes -> end_ok l' ps ∧ flat_order l' es).
  { intros E. destruct (H5 E) as (He & Hfl & _). unfold end_ok in *. rewrite Hla. by auto. }
  destruct (lcall_step (nth_element p n) st W p ps es k l r m' l' ps es HL Hp Hf Hl Hlo) as (st' & G1 & G2 & G3 & G4 & G5).
  { by eapply locked_run. }
  { eapply lrun_same; [exact Hlv|done|by eapply keeps_nth|by eapply calm_nth|done]. }
  exists r, st'. rewrite insert_id in G4 by done. split_and!; [done|done|done|done|].
  destruct Hcase as [[-> [[Hi Hno]|Hno]]|(Hn & xs & Hxs & Hi & Hsame & Hnew & Hperm & He)].
  - left. split; [done|]. left. split; [done|]. intros ys [Hys _]%Hsh. congruence.
  - left. split; [done|by right].
  - right. split; [done|]. exists xs. split_and!; [| | |done|done].
    + exists (unlock_view l'). rewrite G5. split; [apply lookup_insert_eq|exact (proj1 (view_shown l' xs) (conj Hi Hxs))].
    + intros ys [Hiy Hys]%Hsh. destruct (Hsame Hiy) as [-> _]. rewrite Hxs in Hys. injection Hys as Hys. by apply cells_inj.
    + intros E. destruct (Hend E) as [_ Hfl]. rewrite (Hfl Hi) in Hxs. injection Hxs as Hxs. by symmetry; apply cells_inj.
Qed.

(** Appending an inode. *)
Lemma call_insert_end x : k = KInodes -> of_kind (s_obj st) k x -> Z.of_nat (length es) < 2 ^ 28 ->
  call_post st W p (λ r w, r = 0 ∧ no_memory (ks_mem (s_k st)) ∧ w = (ps, es) ∨ r = x ∧ ∃ q, w = (ps ++ [q], es ++ [x])) (lcall (insert_at_end p x) st).
Proof using HL Hp Hf.
  intros Ek Hx Hlen. apply call_locked. intros l Hlo. pose proof Hlo as [H1 [Hc Hs Hfn] H3 H4 H5]. destruct (H5 Ek) as (He & Hfl & Hmo).
  destruct (insert_at_end_spec _ l ps es x H1 Hlen He) as (r & m' & l' & Hr & Hix & Hsz & Hcase).
  { rewrite Ek in Hfn. unfold index_funcs in Hfn. simpl in Hfn. unfold indexes_idle, slots.
    pose proof (kl_slots _ _ _ _ H1) as Hsl. unfold slots in Hsl. by destruct (ll_indexes l). }
  assert (Hke : kept (ks_mem (s_k st)) l m' l') by (eapply keeps_insert_end; [apply H1..|exact Hr]).
  destruct Hcase as [(-> & Hno & Hst & Hend & ->)|(q & -> & Hst & Hend & Hfl' & Hmo')].
  - exists 0, m', l, ps, es. split_and!; [done| |by left]. eapply lrun_same; [exact Hlo|done|done|done|done].
  - exists x, m', l', (ps ++ [q]), (es ++ [x]). split_and!; [done| |right; eauto]. split; [done|done| | |].
    + intros _ E. by apply app_nil in E as [_ ?].
    + apply Forall_app. split; [done|by constructor].
    + intros _. split_and!; [done|by apply Hfl'|]. intros Hso. by apply Hmo, Hmo'.
Qed.

(** The index by position shows the elements [xs]. *)
Definition by_pos (st : sst) (p : Z) (xs : list Z) : Prop :=
  ∃ l, ks_lists (klists st) !! p = Some l ∧ index_holds l 1 (pos_callback (s_obj st)) xs.

Lemma pos_slot l : list_ok (s_obj st) KDirents (ks_mem (s_k st)) l ps es ->
  ∃ ix, index_at l 1 ix ∧ ix_comp_func ix = Some (pos_callback (s_obj st)).
Proof.
  intros [_ [_ _ Hfn] _ _ _]. unfold index_funcs in Hfn. destruct (ll_indexes l) as [ixs|] eqn:E; [|done]. simpl in Hfn. injection Hfn as Hfn.
  destruct ixs as [|[ix|] [|]]; try done. injection Hfn as Hc. exists ix. split; [|done]. by exists [Some ix].
Qed.

Lemma holds_at l ix c xs : index_holds l 1 c xs -> index_at l 1 ix -> ix_state ix = KLIST_INDEX__UP_TO_DATE.
Proof. intros (ixs & ix' & H1 & H2 & H3 & H4 & _) (ixs2 & G1 & G2 & G3). assert (ix = ix') as -> by congruence. done. Qed.

Lemma call_read_index n : k = KDirents -> 1 <= n <= Z.of_nat (length es) ->
  ∃ r st', lcall (read_index p 1 n) st = Some (r, st') ∧ s_obj st' = s_obj st ∧ sframe st st' ∧ lists_ok st' W ∧
  (r = (- ENOMEM, None) ∧ no_memory (ks_mem (s_k st)) ∧ (∀ ys, ¬ by_pos st p ys) ∨
   ∃ xs e, r = (0, Some e) ∧ xs ≡ₚ es ∧ sorted_by (pos_callback (s_obj st)) xs ∧ xs !! Z.to_nat (n - 1) = Some e ∧ by_pos st' p xs ∧
     ∀ ys, by_pos st p ys -> ys = xs).
Proof using HL Hp Hf.
  intros Ek Hn. destruct call_start as (l & Hp0 & Hl & Hfree & Hlo & Hlv). pose proof Hlv as Hlv'. rewrite Ek in Hlv'.
  destruct (pos_slot _ Hlv') as (ix & Hat & Hc). destruct (read_index_spec _ _ _ _ 1 n ix (li_ok _ _ _ _ _ _ Hlv) Hat Hn) as (r & m' & l' & Hr & Hst & Hcase).
  assert (Hby : ∀ ys, by_pos st p ys -> index_holds (lock_view l) 1 (pos_callback (s_obj st)) ys).
  { intros ys (l1 & Hl1 & Hh). rewrite Hl in Hl1. injection Hl1 as <-. exact (proj1 (index_holds_lock _ _ _ _) Hh). }
  destruct (lcall_step (read_index p 1 n) st W p ps es k l r m' l' ps es HL Hp Hf Hl Hlo) as (st' & G1 & G2 & G3 & G4 & G5).
  { by eapply index_op_run. }
  { eapply lrun_same; [exact Hlv|done|exact (keeps_read _ _ _ _ _ _ _ Hr)|exact (calm_read _ _ _ _ _ _ _ Hr)|by rewrite Ek]. }
  exists r, st'. rewrite insert_id in G4 by done. split_and!; [done|done|done|done|].
  destruct Hcase as [(-> & Hno & Hns)|(c & xs & e & Hc' & -> & Hperm & Hs & He & Hh & Hu)].
  - left. split_and!; [done|done|]. intros ys Hy%Hby. pose proof (holds_at _ _ _ _ Hy Hat). congruence.
  - rewrite Hc in Hc'. injection Hc' as <-. right. exists xs, e. split_and!; [done|done|done|done| |].
    + exists (unlock_view l'). rewrite G5, G2. split; [apply lookup_insert_eq|by apply index_holds_unlock].
    + intros ys Hy. by apply Hu, Hby.
Qed.

Lemma call_search_index v : k = KDirents ->
  ∃ r st', lcall (search_index p 1 v) st = Some (r, st') ∧ s_obj st' = s_obj st ∧ sframe st st' ∧ lists_ok st' W ∧
  (r = (- ENOMEM, None) ∧ no_memory (ks_mem (s_k st)) ∧ (∀ ys, ¬ by_pos st p ys) ∨
   r = (- ENOENT, None) ∧ Forall (λ e, pos_callback (s_obj st) v e ≠ 0) es ∧ (es = [] ∨ ∃ xs, by_pos st' p xs) ∨
   ∃ xs i e, r = (0, Some (i + 1)) ∧ 0 <= i ∧ by_pos st' p xs ∧ xs ≡ₚ es ∧ sorted_by (pos_callback (s_obj st)) xs ∧
     xs !! Z.to_nat i = Some e ∧ pos_callback (s_obj st) v e = 0).
Proof using HL Hp Hf.
  intros Ek. destruct call_start as (l & Hp0 & Hl & Hfree & Hlo & Hlv). pose proof Hlv as Hlv'. rewrite Ek in Hlv'.
  destruct (pos_slot _ Hlv') as (ix & Hat & Hc).
  destruct (search_index_spec _ _ _ _ 1 v ix (li_ok _ _ _ _ _ _ Hlv) Hat) as (r & m' & l' & c & Hr & Hst & Hc' & Hcase).
  rewrite Hc in Hc'. injection Hc' as <-.
  destruct (lcall_step (search_index p 1 v) st W p ps es k l r m' l' ps es HL Hp Hf Hl Hlo) as (st' & G1 & G2 & G3 & G4 & G5).
  { by eapply index_op_run. }
  { eapply lrun_same; [exact Hlv|done|exact (keeps_search_index _ _ _ _ _ _ _ Hr)|exact (calm_search_index _ _ _ _ _ _ _ Hr)|by rewrite Ek]. }
  exists r, st'. rewrite insert_id in G4 by done. split_and!; [done|done|done|done|].
  assert (Hby : ∀ xs, index_holds l' 1 (pos_callback (s_obj st)) xs -> by_pos st' p xs).
  { intros xs Hh. exists (unlock_view l'). rewrite G5, G2. split; [apply lookup_insert_eq|by apply index_holds_unlock]. }
  destruct Hcase as [(-> & Hno & Hns)|[(-> & HF & Hx)|(xs & i & e & -> & Hi & Hh & Hperm & Hs & He & Hce)]].
  - left. split_and!; [done|done|]. intros ys (l1 & Hl1 & Hh). rewrite Hl in Hl1. injection Hl1 as <-. apply (proj1 (index_holds_lock _ _ _ _)) in Hh.
    pose proof (holds_at _ _ _ _ Hh Hat). congruence.
  - right. left. split_and!; [done|done|]. destruct Hx as [?|[xs Hh]]; [by left|right; eauto].
  - right. right. exists xs, i, e. split_and!; eauto.
Qed.
End Calls.
