(* ===== verification/StgStep.v ===== *)
(** Storage of the overlay file system: memory, new lists, and values on the stack that
    lists are asked for. *)
From stdpp Require Import sorting.
From S2P Require Import Prelude KList KListSort KListInv KListOps KListIdx KListThm KListDup KListKeep Stg StgOrd StgInv StgList.
Open Scope Z_scope.

(** The lists are right, and every object is at an address of its own. *)
Record stg_ok (st : sst) (W : gmap Z (list Z * list Z)) : Prop := {
  so_lists : lists_ok st W;
  so_addr p o : s_obj st !! p = Some o -> 0 < p < km_next (ks_mem (s_k st));
  so_funcs p k : s_funcs st !! p = Some k -> p < km_next (ks_mem (s_k st))
}.

(** Every request for memory is granted. *)
Definition plenty (st : sst) : Prop :=
  (∀ n, km_do_malloc (ks_mem (s_k st)) n = true) ∧ (∀ n, km_kmalloc (ks_mem (s_k st)) n = true).

Lemma plenty_frame st st' : sframe st st' -> plenty st -> plenty st'.
Proof. intros [_ _ _ _ H1 H2] [P1 P2]. split; intros n; by rewrite ?H1, ?H2. Qed.
Lemma plenty_memory st : plenty st -> ¬ no_memory (ks_mem (s_k st)).
Proof. intros [H _]. unfold no_memory. by rewrite H. Qed.

Lemma lcall_funcs {A} (op : KM A) st a st' : lcall op st = Some (a, st') -> s_funcs st' = s_funcs st.
Proof. unfold lcall. destruct (op _); try done. by intros [= _ <-]. Qed.

Lemma sbind_run {A B} (f : SM A) (g : A -> SM B) st a st' : f st = Some (a, st') -> sbind f g st = g a st'.
Proof. unfold sbind. by intros ->. Qed.

(** ** Memory *)
Lemma lists_ok_mem st W m : lists_ok st W -> mem_le (ks_mem (s_k st)) m ->
  lists_ok (set_k st (KSt m (ks_lists (s_k st)) (ks_signal (s_k st)))) W.
Proof.
  intros [Hk HW HL] Hle. split; [done| |].
  - destruct HW as [H1 H2 H3 H4]. split; [by eapply mem_le_ok| |done|].
    + intros p ps es Hp. destruct (H2 p ps es Hp) as [Hp0 (l & Hl & Hkl & Hfree)]. split; [done|]. exists l.
      split_and!; [exact Hl|by eapply kl_ok_mem|done].
    + intros p l Hl. specialize (H4 p l Hl). pose proof (ml_next _ _ Hle). simpl in *. lia.
  - intros p ps es Hp. destruct (HL p ps es Hp) as (k & l & Hf & Hl & [G1 G2 G3 G4 G5]). exists k, l. split_and!; [done|exact Hl|].
    split; try done. by eapply kl_ok_mem.
Qed.

Lemma MALLOC_spec st W : stg_ok st W -> ∃ r st', MALLOC st = Some (r, st') ∧ s_obj st' = s_obj st ∧ sframe st st' ∧ stg_ok st' W ∧
  match r with
  | None => ¬ plenty st
  | Some p => 0 < p < km_next (ks_mem (s_k st')) ∧ s_obj st !! p = None
  end.
Proof.
  intros [HL Ha Hfu]. unfold MALLOC. destruct (request km_kmalloc (ks_mem (s_k st))) as [r m] eqn:E.
  pose proof (request_le _ _ _ _ E) as Hle. eexists _, _. split; [done|]. split; [done|].
  destruct (wo_mem _ _ (lo_world _ _ HL)) as [Hpos _]. simpl in Hpos. unfold request in E. injection E as E1 E2. split; [|split].
  - subst m. split; simpl; try done. lia.
  - pose proof (ml_next _ _ Hle). split; [by apply lists_ok_mem| |]; simpl.
    + intros p o Hp. specialize (Ha p o Hp). lia.
    + intros p k Hp. specialize (Hfu p k Hp). lia.
  - destruct (km_kmalloc (ks_mem (s_k st)) (km_allocs (ks_mem (s_k st)))) eqn:Em; subst r.
    + split; [subst m; simpl; lia|]. destruct (s_obj st !! km_next (ks_mem (s_k st))) as [o|] eqn:Eo; [|done]. specialize (Ha _ _ Eo). lia.
    + intros [_ Hp]. by rewrite Hp in Em.
Qed.

(** ** Writing objects *)

(** An address that no list holds is written or released. *)
Lemma stg_ok_fresh st W p o : stg_ok st W -> s_obj st !! p = None -> obj_ok o -> 0 < p < km_next (ks_mem (s_k st)) ->
  stg_ok (set_objs st (<[p := o]> (s_obj st))) W.
Proof.
  intros [HL Ha Hfu] Hp Ho Hr. split; [| |done].
  - apply lists_ok_objs; [done| |].
    + intros q o' [[<- <-]|[_ Hq]]%lookup_insert_Some; [done|]. by eapply lo_keys.
    + intros q k ps es Hq Hf. destruct (lo_list _ _ HL _ _ _ Hq) as (k1 & l & Hf1 & _ & Hlo). rewrite Hf in Hf1. injection Hf1 as <-.
      eapply Forall_impl; [|exact (li_kind _ _ _ _ _ _ Hlo)]. intros e He. apply same_key_refl. apply lookup_insert_ne. intros <-.
      destruct k; simpl in He; unfold get_inode, get_map, get_dirent in He; rewrite Hp in He; by destruct He.
  - intros q o'. simpl. intros [[<- _]|[_ Hq]]%lookup_insert_Some; [done|]. by eapply Ha.
Qed.

(** A change that every list that holds the object does not see. *)
Lemma stg_ok_write st W p o o' : stg_ok st W -> s_obj st !! p = Some o -> obj_ok o' ->
  (∀ k, of_kind (s_obj st) k p -> same_key (s_obj st) (<[p := o']> (s_obj st)) k p) -> stg_ok (set_objs st (<[p := o']> (s_obj st))) W.
Proof.
  intros [HL Ha Hfu] Hp Ho HS. split; [| |done].
  - apply lists_ok_objs; [done| |].
    + intros q o2 [[<- <-]|[_ Hq]]%lookup_insert_Some; [done|]. by eapply lo_keys.
    + intros q k ps es Hq Hf. destruct (lo_list _ _ HL _ _ _ Hq) as (k1 & l & Hf1 & _ & Hlo). rewrite Hf in Hf1. injection Hf1 as <-.
      eapply Forall_impl; [|exact (li_kind _ _ _ _ _ _ Hlo)]. intros e He. destruct (decide (e = p)) as [->|Hne]; [by apply HS|].
      apply same_key_refl. by apply lookup_insert_ne.
  - intros q o2. simpl. intros [[<- _]|[_ Hq]]%lookup_insert_Some; by eapply Ha.
Qed.

(** Releasing an object that is in no list. *)
Lemma stg_ok_free st W p : stg_ok st W -> (∀ q ps es, W !! q = Some (ps, es) -> p ∉ es) -> stg_ok (set_objs st (delete p (s_obj st))) W.
Proof.
  intros [HL Ha Hfu] Hni. split; [| |done].
  - apply lists_ok_objs; [done| |].
    + intros q o [_ Hq]%lookup_delete_Some. by eapply lo_keys.
    + intros q k ps es Hq Hf. rewrite list.Forall_forall. intros e He. apply same_key_refl, lookup_delete_ne. intros <-. by eapply Hni.
  - intros q o. simpl. intros [_ Hq]%lookup_delete_Some. by eapply Ha.
Qed.

(** ** Values on the stack *)

(** What a list is asked for is compared like an object of it. *)
Definition cmp_with (o : object) (h : gmap Z object) (k : lkind) (e : Z) : Z := callback (<[TMP := o]> h) k TMP e.
Definition pos_with (o : object) (h : gmap Z object) (e : Z) : Z := pos_callback (<[TMP := o]> h) TMP e.

Lemma no_tmp st W q ps es : stg_ok st W -> W !! q = Some (ps, es) -> TMP ∉ es.
Proof.
  intros [HL Ha _] Hq Hin. destruct (lo_list _ _ HL _ _ _ Hq) as (k & l & _ & _ & Hlo). pose proof (li_kind _ _ _ _ _ _ Hlo) as HF.
  rewrite list.Forall_forall in HF. specialize (HF TMP Hin).
  assert (Hn : s_obj st !! TMP = None). { destruct (s_obj st !! TMP) as [o|] eqn:E; [|done]. specialize (Ha _ _ E). unfold TMP in Ha. lia. }
  destruct k; simpl in HF; unfold get_inode, get_map, get_dirent in HF; rewrite Hn in HF; by destruct HF.
Qed.

Section WithTmp.
Context (st : sst) (W : gmap Z (list Z * list Z)) (o : object).
Context (HS : stg_ok st W) (Ho : obj_ok o).

Definition tmp_state : sst := set_objs st (<[TMP := o]> (s_obj st)).

Lemma tmp_free : s_obj st !! TMP = None.
Proof using HS. destruct (s_obj st !! TMP) as [x|] eqn:E; [|done]. pose proof (so_addr _ _ HS _ _ E) as H. unfold TMP in H. lia. Qed.

Lemma tmp_lists : lists_ok tmp_state W.
Proof using HS Ho.
  destruct HS as [HL Ha _]. apply lists_ok_objs; [done| |].
  - intros q x [[<- <-]|[_ Hq]]%lookup_insert_Some; [done|]. by eapply lo_keys.
  - intros q k ps es Hq Hf. rewrite list.Forall_forall. intros e He. apply same_key_refl, lookup_insert_ne. intros <-. by eapply no_tmp.
Qed.

(** A call that is made while the value is there. *)
Lemma with_tmp_call {A} (op : KM A) a st2 W' : lcall op tmp_state = Some (a, st2) -> s_obj st2 = s_obj tmp_state -> sframe tmp_state st2 ->
  lists_ok st2 W' -> (∀ q ps es, W' !! q = Some (ps, es) -> TMP ∉ es) ->
  with_tmp o (lcall op) st = Some (a, set_objs st2 (s_obj st)) ∧ sframe st (set_objs st2 (s_obj st)) ∧ stg_ok (set_objs st2 (s_obj st)) W'.
Proof using HS Ho.
  intros Hrun Hobj Hfr HL2 Hni. pose proof tmp_free as Hfree.
  assert (Hback : delete TMP (s_obj st2) = s_obj st) by (rewrite Hobj; simpl; by rewrite delete_insert_id).
  split; [|split].
  - unfold with_tmp, put, FREE, smod, sbind, sret. change (set_objs st (<[TMP:=o]> (s_obj st))) with tmp_state. rewrite Hrun. by rewrite Hback.
  - by destruct Hfr.
  - split.
    + apply lists_ok_objs; [done|apply (lo_keys _ _ (so_lists _ _ HS))|]. intros q k ps es Hq Hf. rewrite list.Forall_forall. intros e He.
      apply same_key_refl. rewrite <- Hback. apply lookup_delete_ne. intros <-. by eapply Hni.
    + simpl. intros p x Hp. pose proof (so_addr _ _ HS _ _ Hp). pose proof (sf_next _ _ Hfr). simpl in *. lia.
    + simpl. intros p k Hp. rewrite (lcall_funcs _ _ _ _ Hrun) in Hp. pose proof (so_funcs _ _ HS _ _ Hp). pose proof (sf_next _ _ Hfr). simpl in *. lia.
Qed.

Lemma with_tmp_post {A} (op : KM A) p Q : call_post tmp_state W p Q (lcall op tmp_state) -> (∀ a ps' es', Q a (ps', es') -> TMP ∉ es') ->
  ∃ a st' ps' es', with_tmp o (lcall op) st = Some (a, st') ∧ s_obj st' = s_obj st ∧ sframe st st' ∧ stg_ok st' (<[p := (ps', es')]> W) ∧ Q a (ps', es').
Proof using HS Ho.
  intros (a & st2 & ps' & es' & Hrun & Hobj & Hfr & HL2 & HQ) Hni.
  destruct (with_tmp_call op a st2 _ Hrun Hobj Hfr HL2) as (H1 & H2 & H3).
  - intros q ps es [[<- [= <- <-]]|[_ Hq]]%lookup_insert_Some; [by eapply Hni|by eapply no_tmp].
  - by exists a, (set_objs st2 (s_obj st)), ps', es'.
Qed.
End WithTmp.

(** ** Looking for a value and removing it *)
Section Keyed.
Context (st : sst) (W : gmap Z (list Z * list Z)) (o : object) (p : Z) (ps es : list Z) (k : lkind).
Context (HS : stg_ok st W) (Ho : obj_ok o) (Hp : W !! p = Some (ps, es)) (Hf : s_funcs st !! p = Some k) (Hk : k ≠ KInodes).

Lemma tmp_search : ∃ r st', with_tmp o (lcall (search_for_element p TMP)) st = Some (r, st') ∧ s_obj st' = s_obj st ∧ sframe st st' ∧
  stg_ok st' W ∧ (r = 0 ∧ Forall (λ e, cmp_with o (s_obj st) k e ≠ 0) es ∨ r ∈ es ∧ cmp_with o (s_obj st) k r = 0).
Proof using HS Ho Hp Hf Hk.
  destruct (with_tmp_post st W o HS Ho (search_for_element p TMP) p _ (call_search (tmp_state st o) W p ps es k (tmp_lists st W o HS Ho) Hp Hf TMP Hk))
    as (r & st' & ps' & es' & H1 & H2 & H3 & H4 & E & x & -> & Hx).
  - intros a ps' es' [[= _ ->] _]. by eapply no_tmp.
  - injection E as -> ->. rewrite insert_id in H4 by done. exists (default 0 x), st'. split_and!; [done|done|done|done|].
    destruct x; [by right|by left].
Qed.

Lemma tmp_remove : ∃ r st' ps' es', with_tmp o (lcall (remove_element p TMP)) st = Some (r, st') ∧ s_obj st' = s_obj st ∧ sframe st st' ∧
  stg_ok st' (<[p := (ps', es')]> W) ∧
  (r = 0 ∧ ps' = ps ∧ es' = es ∧ Forall (λ e, cmp_with o (s_obj st) k e ≠ 0) es ∨
   ∃ i, es !! i = Some r ∧ es' = delete i es ∧ cmp_with o (s_obj st) k r = 0).
Proof using HS Ho Hp Hf Hk.
  destruct (with_tmp_post st W o HS Ho (remove_element p TMP) p _ (call_remove (tmp_state st o) W p ps es k (tmp_lists st W o HS Ho) Hp Hf TMP Hk))
    as (r & st' & ps' & es' & H1 & H2 & H3 & H4 & HQ).
  - intros a ps' es' [(_ & [= _ ->] & _)|(i & _ & [= _ ->] & _)]; [by eapply no_tmp|]. intros Hin%list_elem_of_delete_inv. by eapply no_tmp.
  - exists r, st', ps', es'. split_and!; [done|done|done|done|].
    destruct HQ as [(-> & [= -> ->] & HF)|(i & Hi & [= -> ->] & Hc)]; [by left|right; by exists i].
Qed.
End Keyed.

(** ** New lists *)
(** The lists as a call sees them. *)
Lemma lists_ok_klists st W : lists_ok st W -> lists_ok (set_k st (klists st)) W.
Proof.
  intros [Hk HW HL]. assert (E : klists (set_k st (klists st)) = klists st) by apply rebind_twice.
  split; [done|by rewrite E|by rewrite E].
Qed.

(** A new list, which has no alternate index yet. *)
Lemma create_kind_raw st W k : stg_ok st W -> ∃ r st', create_kind k st = Some (r, st') ∧ s_obj st' = s_obj st ∧ sframe st st' ∧ stg_ok st' W ∧
  (r = 0 ∧ no_memory (ks_mem (s_k st)) ∨
   r ≠ 0 ∧ W !! r = None ∧ s_funcs st' !! r = Some k ∧ world_ok (klists st') (<[r := ([], [])]> W) ∧
   ks_lists (klists st') !! r = Some (new_list (Some (callback (s_obj st) k)) (Some (callback (s_obj st) k)))).
Proof.
  intros HS. pose proof HS as [HL Ha Hfu]. pose proof HL as [Hk HW HLi]. set (c := Some (callback (s_obj st) k)).
  destruct (create_list_spec (klists st) W c c HW) as (r & s' & Hr & Hle & Hcase); [intros c' [= <-]; by apply callback_order|].
  pose proof (wo_mem _ _ HW) as [Hpos _]. pose proof (ml_next _ _ Hle) as Hnx. simpl in Hpos, Hnx.
  assert (Hkm : km_kmalloc (ks_mem s') = km_kmalloc (ks_mem (s_k st))).
  { revert Hr. unfold create_list, request. simpl. destruct (km_do_malloc _ _); by intros [= _ <-]. }
  unfold create_kind. fold c. rewrite (sbind_run _ _ st r (set_k st s')) by by unfold lcall; rewrite Hr.
  destruct Hcase as [[-> Hno]|(Hr0 & Hfresh & HWr & Hls & HW')].
  - change (0 =? 0) with true. cbv iota. rewrite (sbind_run _ _ _ tt (set_k st s')) by done. exists 0, (set_k st s').
    assert (Hs' : s' = KSt (ks_mem s') (ks_lists (klists st)) (ks_signal (klists st))).
    { revert Hr. unfold create_list, request. simpl. destruct (km_do_malloc _ _); intros Hi; [injection Hi as E _; lia|by injection Hi as <-]. }
    split; [done|]. split; [done|]. split; [|split; [|by left]].
    + split; simpl; try done. apply Hle.
    + split; [|intros p o Hp; specialize (Ha p o Hp); simpl; lia|intros p q Hp; specialize (Hfu p q Hp); simpl; lia].
      rewrite Hs'. by apply (lists_ok_mem (set_k st (klists st)) W (ks_mem s')); [apply lists_ok_klists|].
  - rewrite (proj2 (Z.eqb_neq r 0)) by done. set (st' := set_funcs (set_k st s') (<[r := k]> (s_funcs st))).
    rewrite (sbind_run _ _ _ tt st') by done.
    assert (Hrn : r = km_next (ks_mem (s_k st)) ∧ r < km_next (ks_mem s')).
    { revert Hr. unfold create_list, request. simpl. destruct (km_do_malloc _ _); intros Hi; [injection Hi as <- <-; simpl; lia|by injection Hi as <- _]. }
    assert (Hid : klists st' = s').
    { apply rebind_id. simpl. rewrite Hls. intros q kq lq [[<- <-]|[Hne Hfq]]%lookup_insert_Some Hlq.
      - rewrite lookup_insert_eq in Hlq. by injection Hlq as <-.
      - rewrite lookup_insert_ne in Hlq by done. by apply (klists_bound st q). }
    exists r, st'. split; [done|]. split; [done|]. split; [|split].
    + split; simpl; try done; [|apply Hle]. apply insert_subseteq. destruct (s_funcs st !! r) as [k'|] eqn:E; [|done]. specialize (Hfu _ _ E). lia.
    + assert (HWn : world_ok s' W).
      { replace W with (delete r (<[r := ([], [])]> W)) by by rewrite delete_insert_id. apply world_drop, HW'. }
      split; [split; [done| |]| |].
      * by rewrite Hid.
      * intros q ps es Hq. destruct (HLi q ps es Hq) as (kq & lq & Hfq & Hlq & Hlo). exists kq, lq. rewrite Hid. simpl. rewrite Hls.
        assert (q ≠ r) by congruence. rewrite !lookup_insert_ne by done. split_and!; [done|done|].
        destruct Hlo as [G1 G2 G3 G4 G5]. split; try done. by eapply kl_ok_mem.
      * simpl. intros p o Hp. specialize (Ha p o Hp). lia.
      * simpl. intros p q [[<- <-]|[_ Hp]]%lookup_insert_Some; [lia|]. specialize (Hfu _ _ Hp). lia.
    + right. rewrite Hid. split_and!; [done|done|apply lookup_insert_eq|done|]. rewrite Hls. apply lookup_insert_eq.
Qed.

(** A new list of inodes or of mappings. *)
Lemma create_kind_spec st W k : stg_ok st W -> k ≠ KDirents -> ∃ r st', create_kind k st = Some (r, st') ∧ s_obj st' = s_obj st ∧ sframe st st' ∧
  (r = 0 ∧ no_memory (ks_mem (s_k st)) ∧ stg_ok st' W ∨
   r ≠ 0 ∧ W !! r = None ∧ s_funcs st' !! r = Some k ∧ stg_ok st' (<[r := ([], [])]> W)).
Proof.
  intros HS Hk. destruct (create_kind_raw st W k HS) as (r & st' & Hr & Hobj & Hfr & HS' & Hcase). exists r, st'. split_and!; [done|done|done|].
  destruct Hcase as [[-> Hno]|(Hr0 & HWr & Hf & HW & Hl)]; [by left|right]. split_and!; [done|done|done|].
  destruct HS' as [[G1 G2 G3] Ha Hfu]. split; [split; [done|done|]|done|done].
  intros q ps es [[<- [= <- <-]]|[_ Hq]]%lookup_insert_Some; [|by apply G3].
  exists k, (new_list (Some (callback (s_obj st) k)) (Some (callback (s_obj st) k))). split_and!; [done|done|]. rewrite Hobj. split.
  - apply new_list_ok; [apply HW|]. intros c [= <-]. apply callback_order. by rewrite <- Hobj.
  - split; [done|done|]. by destruct k.
  - done.
  - constructor.
  - done.
Qed.

(** *** Directories *)
Definition new_index (h : gmap Z object) : klist_index_struct := KIndex (Some (pos_callback h)) 0 KLIST_INDEX__NEEDS_UPDATE None.

Lemma add_index_new c d m : let l := lock_view (new_list c c) in
  ∃ rc m' l', add_index_body d 0 m l = Some (rc, m', l') ∧ mem_le m m' ∧ km_kmalloc m' = km_kmalloc m ∧
    (rc = (0, Some 1) ∧ l' = with_indexes l 1 (Some [Some (KIndex (Some d) 0 KLIST_INDEX__NEEDS_UPDATE None)]) ∨
     rc = (- ENOMEM, None) ∧ (l' = l ∨ l' = with_indexes l 1 (Some [None])) ∧ ∃ n, km_do_malloc m n = false).
Proof.
  intros l. unfold add_index_body, new_slot, lbind at 1, lbind at 1, lget at 1. change (ll_index_arr_size l =? 0) with true. cbv iota.
  unfold do_malloc at 1, request, lbind at 1. destruct (km_do_malloc m (km_allocs m)) eqn:E1.
  - unfold lbind at 1, lmod at 1, lret at 1, do_malloc, request, lbind at 1. simpl. destruct (km_do_malloc m (S (km_allocs m))) eqn:E2.
    + eexists _, _, _. split; [reflexivity|]. split; [split; simpl; done || lia|]. split; [done|]. by left.
    + eexists _, _, _. split; [reflexivity|]. split; [split; simpl; done || lia|]. split; [done|]. right. split; [done|]. split; [by right|eauto].
  - eexists _, _, _. split; [reflexivity|]. split; [split; simpl; done || lia|]. split; [done|]. right. split; [done|]. split; [by left|eauto].
Qed.

Lemma destroy_new c p s l : p ≠ 0 -> ks_lists s !! p = Some l -> l = new_list c c ∨ l = with_indexes (new_list c c) 1 (Some [None]) ->
  destroy_list p s = KRet tt (KSt (ks_mem s) (delete p (ks_lists s)) (ks_signal s)).
Proof.
  intros Hp Hl Hcase. assert (Hfree : lock_free l) by by destruct Hcase as [->| ->].
  unfold destroy_list. rewrite (proj2 (Z.eqb_neq p 0)), (kbind_run _ _ _ _ _ (auto_lock_run p s l Hp Hl Hfree)) by done.
  change (0 <? 0) with false. cbv iota.
  assert (∃ l', destroy_body (ks_mem s) (lock_view l) = Some (tt, ks_mem s, l')) as [l' Hr] by (destruct Hcase as [->| ->]; unfold destroy_body, lbind, lget, lmod, lret; simpl; eexists; reflexivity).
  erewrite kbind_run; [|eapply on_list_run; [apply lookup_insert_eq|exact Hr]].
  erewrite kbind_run; [|eapply auto_unlock_run; [done|apply lookup_insert_eq]].
  unfold set_list. simpl. by rewrite !insert_insert_eq, delete_insert_eq.
Qed.

(** A new directory: the list has the index by position as its first one. *)
Lemma create_dirent_list_spec st W : stg_ok st W -> ∃ r id st', create_dirent_list st = Some ((r, id), st') ∧ s_obj st' = s_obj st ∧ sframe st st' ∧
  (r = 0 ∧ id = None ∧ ¬ plenty st ∧ stg_ok st' W ∨
   r ≠ 0 ∧ id = Some 1 ∧ W !! r = None ∧ s_funcs st' !! r = Some KDirents ∧ stg_ok st' (<[r := ([], [])]> W)).
Proof.
  intros HS. destruct (create_kind_raw st W KDirents HS) as (r & st1 & Hr & Hobj & Hfr & HS1 & Hcase). unfold create_dirent_list.
  rewrite (sbind_run _ _ _ _ _ Hr). destruct Hcase as [[-> Hno]|(Hr0 & HWr & Hf & HW & Hl)].
  { exists 0, None, st1. split_and!; [done|done|done|]. left. split_and!; [done|done| |done]. intros Hpl. by apply (plenty_memory st). }
  rewrite (proj2 (Z.eqb_neq r 0)), (sbind_run _ _ _ _ _ (eq_refl : sget st1 = Some (st1, st1))) by done. rewrite Hobj.
  set (c := Some (callback (s_obj st) KDirents)) in *. set (pc := pos_callback (s_obj st)).
  pose proof HS1 as [[Hk1 HW1 HL1] Ha1 Hfu1].
  assert (Hco : comp_order (callback (s_obj st) KDirents)) by (apply callback_order; by rewrite <- Hobj).
  destruct (add_index_new c pc (ks_mem (s_k st1))) as (rc & m' & l' & Hrun & Hle & Hkm & Hadd).
  assert (Hop : add_index r (Some pc) 0 (klists st1) = KRet rc (set_list (klists st1) r m' (unlock_view l'))) by by eapply index_op_run.
  pose proof (ml_next _ _ Hle) as Hnx.
  destruct Hadd as [[-> El']|(-> & El' & [n Hn])].
  - assert (Hst : lstep (ks_mem (s_k st1)) (lock_view (new_list c c)) [] m' l' [] []).
    { destruct (add_index_spec (ks_mem (s_k st1)) (lock_view (new_list c c)) [] [] pc 0) as (rc & m2 & l2 & Hr2 & Hst & _).
      - apply kl_ok_lock_view, new_list_ok; [apply HW|]. by intros d [= <-].
      - apply pos_callback_order. by rewrite <- Hobj.
      - rewrite Hrun in Hr2. by injection Hr2 as <- <- <-. }
    destruct (lcall_core (add_index r (Some pc) 0) st1 W r [] [] KDirents (new_list c c) (0, Some 1) m' l' [] [] Hk1 HW) as (st2 & G1 & G2 & G3 & G4 & _);
      [by intros q ps es _; apply HL1|done|done|done|done|done| |].
    { rewrite Hobj, El'. split; [apply kl_ok_unlock_view; rewrite <- El'; apply Hst|done|done|constructor|done]. }
    rewrite (sbind_run _ _ _ _ _ G1). change (0 =? 0) with true. cbv iota. exists r, (Some 1), st2.
    split_and!; [done|congruence|by transitivity st1|]. right. split_and!; [done|done|done| |].
    + pose proof (lcall_funcs _ _ _ _ G1) as ->. done.
    + split; [done| |]; rewrite ?G2, ?(lcall_funcs _ _ _ _ G1).
      * intros p o Hp. specialize (Ha1 p o Hp). pose proof (sf_next _ _ G3). lia.
      * intros p q Hp. specialize (Hfu1 p q Hp). pose proof (sf_next _ _ G3). lia.
  - set (st2 := set_k st1 (set_list (klists st1) r m' (unlock_view l'))).
    rewrite (sbind_run _ _ st1 (- ENOMEM, None) st2) by by unfold lcall; rewrite Hop. change (- ENOMEM =? 0) with false. cbv iota.
    set (s3 := KSt m' (delete r (ks_lists (klists st1))) (ks_signal (klists st1))).
    assert (Hkl2 : klists st2 = set_list (klists st1) r m' (unlock_view l')).
    { apply rebind_id. simpl. intros q kq lq Hfq [[<- <-]|[_ Hlq]]%lookup_insert_Some; [|by apply (klists_bound st1 q)].
      rewrite Hf in Hfq. injection Hfq as <-. rewrite Hobj. by destruct El' as [->| ->]. }
    assert (Hd : destroy_list r (klists st2) = KRet tt s3).
    { rewrite Hkl2, (destroy_new c r _ (unlock_view l')); [|done|apply lookup_insert_eq|by destruct El' as [->| ->]; [left|right]].
      unfold s3, set_list. simpl. by rewrite delete_insert_eq. }
    rewrite (sbind_run _ _ st2 tt (set_k st2 s3)) by by unfold lcall; rewrite Hd. exists 0, None, (set_k st2 s3).
    assert (Hkl3 : klists (set_k st2 s3) = s3).
    { apply rebind_id. simpl. intros q kq lq Hfq [_ Hlq]%lookup_delete_Some. by apply (klists_bound st1 q). }
    split; [done|]. split; [done|]. split; [|left; split_and!; [done|done| |]].
    + etransitivity; [exact Hfr|]. split; simpl; try done; apply Hle.
    + intros [Hp _]. rewrite <- (sf_malloc _ _ Hfr) in Hp. by rewrite Hp in Hn.
    + split; [split; [done| |]| |].
      * rewrite Hkl3. destruct HW1 as [H1 H2 H3 H4]. split; simpl; [by eapply mem_le_ok| |done|].
        -- intros p ps es Hp. destruct (H2 p ps es Hp) as [Hp0 (l & Hlp & Hkl & Hfree)]. split; [done|]. exists l.
           rewrite lookup_delete_ne by congruence. split_and!; [done|by eapply kl_ok_mem|done].
        -- intros p l [_ Hlp]%lookup_delete_Some. specialize (H4 p l Hlp). simpl in H4. lia.
      * intros q ps es Hq. destruct (HL1 q ps es Hq) as (kq & lq & Hfq & Hlq & [K1 K2 K3 K4 K5]). exists kq, lq. rewrite Hkl3. simpl.
        rewrite lookup_delete_ne by congruence. split_and!; [done|done|]. split; try done. by eapply kl_ok_mem.
      * simpl. intros p o Hp. specialize (Ha1 p o Hp). lia.
      * simpl. intros p q Hp. specialize (Hfu1 p q Hp). lia.
Qed.
