(* ===== verification/StgSpec.v ===== *)
(** Storage of the overlay file system: what the module promises its users. A directory
    is a map from names to inode numbers and flags, the inodes are numbered from 1, and
    each of the two other file systems has a map from its inodes to those of the overlay
    file system. Every storage operation is a function of this state. *)
From stdpp Require Import sorting.
From S2P Require Import Prelude KList Stg.
Open Scope Z_scope.

Abbreviation dmap := (gmap (list Z) (Z * Z)).

Record vnode := VNode {
  vn_attr : inode_attr; vn_u : Z; vn_valid : bool; vn_s : ovlfs_inode_special_t; vn_dir : option dmap
}.

Record vfs := Vfs { vf_nodes : list vnode; vf_base : gmap (Z * Z) Z; vf_stg : gmap (Z * Z) Z }.

(** The element with a number. *)
Definition at_num {A} (xs : list A) (num : Z) : option A := if 1 <=? num then xs !! Z.to_nat (num - 1) else None.

Definition vf_map (f : other_fs) (v : vfs) : gmap (Z * Z) Z := match f with FsBase => vf_base v | FsStg => vf_stg v end.
Definition vf_set_map (f : other_fs) (mp : gmap (Z * Z) Z) (v : vfs) : vfs :=
  match f with FsBase => Vfs (vf_nodes v) mp (vf_stg v) | FsStg => Vfs (vf_nodes v) (vf_base v) mp end.
Definition vf_set_nodes (ns : list vnode) (v : vfs) : vfs := Vfs ns (vf_base v) (vf_stg v).

Definition vn_set_dir (d : dmap) (a : vnode) : vnode := VNode (vn_attr a) (vn_u a) (vn_valid a) (vn_s a) (Some d).
Definition vn_set_s (s : ovlfs_inode_special_t) (a : vnode) : vnode := VNode (vn_attr a) (vn_u a) (vn_valid a) s (vn_dir a).

Definition vf_alter (num : Z) (g : vnode -> vnode) (v : vfs) : vfs :=
  if 1 <=? num then vf_set_nodes (alter g (Z.to_nat (num - 1)) (vf_nodes v)) v else v.
Definition vf_flag (num flags : Z) (v : vfs) : vfs := vf_alter num (λ a, vn_set_s (sp_set_flags (Z.lor (sp_flags (vn_s a)) flags) (vn_s a)) a) v.
Definition vf_set_dir (num : Z) (d : dmap) (v : vfs) : vfs := vf_alter num (vn_set_dir d) v.

Definition gone (flags : Z) : bool := has flags OVLFS_DIRENT_UNLINKED.
Definition names (a : vnode) : dmap := default ∅ (vn_dir a).

(** ** The operations *)
Inductive sop :=
  | OpAddInode (parent : Z) (name : option (list Z)) (len flags : Z)
  | OpNumDirent (inum : Z) (inc_rm : bool)
  | OpLookup (dir : Z) (name : list Z) (len : Z)
  | OpAddDirent (dir : Z) (name : list Z) (len inum : Z)
  | OpUnlink (dir : Z) (name : list Z) (len : Z)
  | OpDelete (dir : Z) (name : list Z) (len : Z)
  | OpRename (dir : Z) (oname : list Z) (olen : Z) (nname : list Z) (nlen : Z)
  | OpMapInode (inum dev inum2 which : Z)
  | OpMapLookup (dev inum which : Z)
  | OpGetMapping (inum which : Z)
  | OpUpdInode (i : vfs_inode)
  | OpReadInode (i : vfs_inode).

(** What reading an inode gives: whether its attributes were ever set, the device, the
    attributes, and what the file system keeps with it. *)
Definition attr_list (t : inode_attr) : list Z :=
  [at_mode t; at_size t; at_uid t; at_gid t; at_atime t; at_mtime t; at_ctime t; at_nlink t; at_blksize t; at_blocks t; at_version t; at_nrpages t].
Definition special_list (s : ovlfs_inode_special_t) : list Z :=
  [sp_parent_ino s; sp_base_dev s; sp_base_ino s; sp_stg_dev s; sp_stg_ino s; sp_flags s; sp_len s] ++ default [] (sp_name s).
Definition read_result (valid : option bool) (i : vfs_inode) : list Z :=
  match valid with
  | None => []
  | Some b => (if b then 1 else 0) :: v_rdev i :: attr_list (v_attr i) ++ match v_info i with Some s => special_list s | None => [] end
  end.

(** The code and the values an operation stores for its caller. *)
Definition run_sop (o : sop) : SM (Z * list Z) :=
  match o with
  | OpAddInode parent name len flags => let@ (c, r) := ovlfs_stg1_add_inode parent name len flags in sret (c, option_list r)
  | OpNumDirent inum inc_rm => let@ c := ovlfs_stg1_num_dirent inum inc_rm in sret (c, [])
  | OpLookup dir name len => let@ (c, r) := ovlfs_stg1_lookup dir name len in sret (c, match r with Some (x, y) => [x; y] | None => [] end)
  | OpAddDirent dir name len inum => let@ c := ovlfs_stg1_add_dirent dir (Some name) len inum in sret (c, [])
  | OpUnlink dir name len => let@ c := ovlfs_stg1_unlink dir (Some name) len in sret (c, [])
  | OpDelete dir name len => let@ c := ovlfs_stg1_delete_dirent dir (Some name) len in sret (c, [])
  | OpRename dir oname olen nname nlen => let@ c := ovlfs_stg1_rename dir oname olen nname nlen in sret (c, [])
  | OpMapInode inum dev inum2 which => let@ c := ovlfs_stg1_map_inode inum dev inum2 which in sret (c, [])
  | OpMapLookup dev inum which => let@ (c, r) := ovlfs_stg1_map_lookup dev inum which in sret (c, option_list r)
  | OpGetMapping inum which => let@ (c, r) := ovlfs_stg1_get_mapping inum which in sret (c, match r with Some (x, y) => [x; y] | None => [] end)
  | OpUpdInode i => let@ c := ovlfs_stg1_upd_inode i in sret (c, [])
  | OpReadInode i => let@ (c, valid, i') := ovlfs_stg1_read_inode i in sret (c, read_result valid i')
  end.

Fixpoint run_sops (os : list sop) : SM (list (Z * list Z)) :=
  match os with
  | [] => sret []
  | o :: os' => let@ r := run_sop o in let@ rs := run_sops os' in sret (r :: rs)
  end.

(** ** What they promise *)
Definition on_node (num : Z) (v : vfs) (g : vnode -> (Z * list Z) * vfs) : (Z * list Z) * vfs :=
  match at_num (vf_nodes v) num with Some a => g a | None => ((- ENOENT, []), v) end.

Definition spec_add (dir : Z) (name : list Z) (inum : Z) (v : vfs) : (Z * list Z) * vfs :=
  on_node dir v (λ a,
    match names a !! name with
    | None => ((0, []), vf_set_dir dir (<[name := (inum, OVLFS_DIRENT_NORMAL)]> (names a)) v)
    | Some (_, fl) =>
        if gone fl
        then ((0, []), vf_set_dir dir (<[name := (inum, OVLFS_DIRENT_RELINKED)]> (names a)) (vf_flag inum OVL_IFLAG__NO_BASE_REF v))
        else ((- EEXIST, []), v)
    end).

(** A directory without a list has nothing to remove, and says so with 0. *)
Definition spec_remove (dir : Z) (name : list Z) (v : vfs) (g : dmap -> Z * Z -> option dmap) : (Z * list Z) * vfs :=
  on_node dir v (λ a,
    match vn_dir a with
    | None => ((0, []), v)
    | Some d => match d !! name ≫= g d with Some d' => ((0, []), vf_set_dir dir d' v) | None => ((- ENOENT, []), v) end
    end).
Definition spec_unlink (dir : Z) (name : list Z) (v : vfs) : (Z * list Z) * vfs :=
  spec_remove dir name v (λ d '(ino, fl), if gone fl then None else Some (<[name := (ino, Z.lor fl OVLFS_DIRENT_UNLINKED)]> d)).
Definition spec_delete (dir : Z) (name : list Z) (v : vfs) : (Z * list Z) * vfs := spec_remove dir name v (λ d _, Some (delete name d)).

(** The old name is marked as removed, the new one stands for the inode. *)
Definition spec_rename (dir : Z) (oname nname : list Z) (v : vfs) : (Z * list Z) * vfs :=
  on_node dir v (λ a,
    match names a !! oname with
    | None => ((- ENOENT, []), v)
    | Some (ino, fl) =>
        if gone fl then ((- ENOENT, []), v)
        else if decide (oname = nname) then ((0, []), v)
        else
          let fl' := match names a !! nname with
                     | None => OVLFS_DIRENT_NORMAL
                     | Some (_, f) => if gone f then Z.lor (Z.land f (Z.lnot OVLFS_DIRENT_UNLINKED)) OVLFS_DIRENT_RELINKED else f
                     end in
          ((0, []), vf_set_dir dir (<[nname := (ino, fl')]> (<[oname := (ino, Z.lor fl OVLFS_DIRENT_UNLINKED)]> (names a))) v)
    end).

Definition new_node (parent : Z) (name : option (list Z)) (len flags : Z) : vnode :=
  VNode (Attr 0 0 0 0 0 0 0 0 0 0 0 0) 0 false
    (Special parent NODEV 0 NODEV 0 flags name (match name with Some _ => len | None => 0 end)) None.

(** The name an inode is known by is only replaced by another one. *)
Definition merge_special (s old : ovlfs_inode_special_t) : ovlfs_inode_special_t :=
  let keep := match sp_name s with Some _ => negb (0 <? sp_len s) | None => true end in
  Special (sp_parent_ino s) (sp_base_dev s) (sp_base_ino s) (sp_stg_dev s) (sp_stg_ino s) (sp_flags s)
    (if keep then sp_name old else sp_name s) (if keep then sp_len old else sp_len s).

Definition upd_node (i : vfs_inode) (a : vnode) : vnode :=
  VNode (copied_attr (v_attr i) 0) (if is_device (at_mode (v_attr i)) then set_rdev (v_rdev i) (vn_u a) else 0) true
    (match v_info i with Some s => merge_special s (vn_s a) | None => vn_s a end) (vn_dir a).

(** Attributes that were never set are left to the caller. *)
Definition filled (i : vfs_inode) (a : vnode) : vfs_inode :=
  VInode (v_ino i) (if vn_valid a then copied_attr (vn_attr a) (at_nrpages (v_attr i)) else v_attr i)
    (if vn_valid a then if is_device (at_mode (vn_attr a)) then u16 (vn_u a) else 0 else v_rdev i)
    (match v_info i with Some _ => Some (vn_s a) | None => None end).

(** The name has the length that is kept with it. *)
Definition name_there (s : ovlfs_inode_special_t) : Prop := 0 < sp_len s -> ∃ nm, sp_name s = Some nm ∧ sp_len s = Z.of_nat (length nm).
Definition names_there (v : vfs) : Prop := Forall (λ a, name_there (vn_s a)) (vf_nodes v).

Definition spec_sop (o : sop) (v : vfs) : (Z * list Z) * vfs :=
  match o with
  | OpAddInode parent name len flags =>
      ((0, [Z.of_nat (length (vf_nodes v)) + 1]), vf_set_nodes (vf_nodes v ++ [new_node parent name len flags]) v)
  | OpNumDirent inum inc_rm => on_node inum v (λ a,
      let d := names a in
      ((Z.of_nat (size (if inc_rm then d else filter (λ kv, gone (kv.2).2 = false) d)), []), v))
  | OpLookup dir name len => on_node dir v (λ a, match names a !! name with Some (x, y) => ((0, [x; y]), v) | None => ((- ENOENT, []), v) end)
  | OpAddDirent dir name len inum => spec_add dir name inum v
  | OpUnlink dir name len => spec_unlink dir name v
  | OpDelete dir name len => spec_delete dir name v
  | OpRename dir oname olen nname nlen => spec_rename dir oname nname v
  | OpMapInode inum dev inum2 which => on_node inum v (λ a,
      match which_fs which with
      | None => ((- EINVAL, []), v)
      | Some f => ((0, []), vf_set_map f (<[(dev, inum2) := inum]> (vf_map f v)) (vf_alter inum (λ a, vn_set_s (sp_set_other f dev inum2 (vn_s a)) a) v))
      end)
  | OpMapLookup dev inum which =>
      (match which_fs which with
       | None => (- ENOENT, [])
       | Some f => match vf_map f v !! (dev, inum) with Some o => (0, [o]) | None => (- ENOENT, []) end
       end, v)
  | OpGetMapping inum which => on_node inum v (λ a,
      match which_fs which with
      | Some FsBase => ((0, [sp_base_dev (vn_s a); sp_base_ino (vn_s a)]), v)
      | Some FsStg => ((0, [sp_stg_dev (vn_s a); sp_stg_ino (vn_s a)]), v)
      | None => ((- EINVAL, []), v)
      end)
  | OpUpdInode i => on_node (v_ino i) v (λ a, ((0, []), vf_alter (v_ino i) (upd_node i) v))
  | OpReadInode i => on_node (v_ino i) v (λ a, ((0, read_result (Some (vn_valid a)) (filled i a)), v))
  end.

Fixpoint spec_sops (os : list sop) (v : vfs) : list (Z * list Z) * vfs :=
  match os with
  | [] => ([], v)
  | o :: os' => let '(r, v1) := spec_sop o v in let '(rs, v2) := spec_sops os' v1 in (r :: rs, v2)
  end.
