(* ===== verification/StgView.v ===== *)
(** A list of records with unique keys as a map: what adding, replacing and removing a
    record does to the map. *)
From S2P Require Import Prelude.

Section View.
Context {A K V : Type} `{Countable K} (key : A -> K) (val : A -> V).

Definition view_of (xs : list A) : gmap K V := list_to_map ((λ x, (key x, val x)) <$> xs).

Lemma view_keys xs : ((λ x, (key x, val x)) <$> xs).*1 = key <$> xs.
Proof. induction xs as [|x xs IH]; simpl; [done|]. f_equal. exact IH. Qed.

Lemma view_none xs k : Forall (λ x, key x ≠ k) xs -> view_of xs !! k = None.
Proof.
  intros HF. apply not_elem_of_list_to_map_1. rewrite view_keys. intros (x & -> & Hx)%list_elem_of_fmap. rewrite list.Forall_forall in HF. by apply (HF x Hx).
Qed.

Lemma view_cons x xs : view_of (x :: xs) = <[key x := val x]> (view_of xs).
Proof. done. Qed.

Lemma view_some xs x : NoDup (key <$> xs) -> x ∈ xs -> view_of xs !! key x = Some (val x).
Proof. intros Hnd Hx. apply elem_of_list_to_map_1; [by rewrite view_keys|]. apply (list_elem_of_fmap_2 (λ x, (key x, val x))). done. Qed.

Lemma view_elem xs k v : NoDup (key <$> xs) -> view_of xs !! k = Some v <-> ∃ x, x ∈ xs ∧ key x = k ∧ val x = v.
Proof.
  intros Hnd. split.
  - intros Hv. apply elem_of_list_to_map_2 in Hv. apply list_elem_of_fmap in Hv as (x & [= -> ->] & Hx). eauto.
  - intros (x & Hx & <- & <-). by apply view_some.
Qed.

Lemma view_insert xs j x x' : NoDup (key <$> xs) -> xs !! j = Some x -> key x' = key x -> view_of (<[j := x']> xs) = <[key x := val x']> (view_of xs).
Proof.
  revert j. induction xs as [|y xs IH]; intros [|j]; simpl; try done; rewrite list.NoDup_cons; intros [Hy Hnd].
  - intros [= ->] E. rewrite !view_cons, insert_insert_eq. by rewrite E.
  - intros Hj E. rewrite !view_cons, (IH j) by done. apply insert_insert_ne. intros Ek. apply Hy. rewrite Ek.
    apply list_elem_of_fmap_2. by eapply list_elem_of_lookup_2.
Qed.

Lemma view_delete xs j x : NoDup (key <$> xs) -> xs !! j = Some x -> view_of (delete j xs) = delete (key x) (view_of xs).
Proof.
  revert j. induction xs as [|y xs IH]; intros [|j]; simpl; try done; rewrite list.NoDup_cons; intros [Hy Hnd].
  - intros [= ->]. rewrite view_cons, delete_insert_id; [done|]. apply view_none. rewrite list.Forall_forall. intros z Hz Ez. apply Hy. rewrite <- Ez.
    by apply list_elem_of_fmap_2.
  - intros Hj. rewrite !view_cons, (IH j) by done. rewrite delete_insert_ne; [done|]. intros Ek. apply Hy. rewrite <- Ek.
    apply list_elem_of_fmap_2. by eapply list_elem_of_lookup_2.
Qed.

(** Looking for a key in the list. *)
Lemma view_find xs k : view_of xs !! k = val <$> List.find (λ x, bool_decide (key x = k)) xs.
Proof.
  induction xs as [|x xs IH]; simpl; [done|]. rewrite view_cons. case_bool_decide as E; [rewrite E; apply lookup_insert_eq|].
  by rewrite lookup_insert_ne.
Qed.

(** The number of records. *)
Lemma view_size_all xs : NoDup (key <$> xs) -> size (view_of xs) = length xs.
Proof. intros Hnd. unfold view_of. etransitivity; [apply map_size_list_to_map; by rewrite view_keys|apply length_fmap]. Qed.

(** The number of records with a property of their value. *)
Lemma view_size (P : K * V -> Prop) `{∀ kv, Decision (P kv)} (p : A -> bool) xs : (∀ x, P (key x, val x) <-> p x = true) -> NoDup (key <$> xs) ->
  size (filter P (view_of xs)) = length (List.filter p xs).
Proof.
  intros HP. induction xs as [|x xs IH]; simpl; [done|]. rewrite list.NoDup_cons. intros [Hx Hnd]. rewrite view_cons.
  assert (Hn : view_of xs !! key x = None).
  { apply view_none. rewrite list.Forall_forall. intros z Hz Ez. apply Hx. rewrite <- Ez. by apply list_elem_of_fmap_2. }
  destruct (p x) eqn:Ep; simpl.
  - rewrite map_filter_insert_True by (by apply HP). rewrite map_size_insert_None; [by rewrite IH|]. apply map_lookup_filter_None. by left.
  - rewrite map_filter_insert_False by (rewrite HP; congruence). rewrite delete_id by done. by apply IH.
Qed.
End View.
