(* ===== verification/StgDir.v ===== *)
(** Directories of the storage of the overlay file system: what each operation on the
    entries of one directory returns, and what it leaves of them. *)
From stdpp Require Import sorting.
From S2P Require Import Prelude KList KListSort KListInv KListOps KListIdx KListThm KListDup KListKeep Stg StgOrd StgInv StgList StgStep StgSpec.
Open Scope Z_scope.

Ltac srun H := rewrite (sbind_run _ _ _ _ _ H); cbv beta iota.

(** ** Elements belong to one list *)
Record own (W : gmap Z (list Z * list Z)) : Prop := {
  ow_nodup p ps es : W !! p = Some (ps, es) -> NoDup es;
  ow_apart p q ps es ps' es' e : W !! p = Some (ps, es) -> W !! q = Some (ps', es') -> e ∈ es -> e ∈ es' -> p = q
}.

(** The address is in no list. *)
Definition free_of (W : gmap Z (list Z * list Z)) (x : Z) : Prop := ∀ p ps es, W !! p = Some (ps, es) -> x ∉ es.

Lemma own_set W p ps es ps' es' : own W -> W !! p = Some (ps, es) -> NoDup es' -> (∀ e, e ∈ es' -> e ∈ es ∨ free_of W e) ->
  own (<[p := (ps', es')]> W).
Proof.
  intros [Hn Ha] Hp Hnd Hin. split.
  - intros q ps2 es2 [[<- [= <- <-]]|[_ Hq]]%lookup_insert_Some; [done|by eapply Hn].
  - intros q1 q2 ps1 es1 ps2 es2 e [[<- [= <- <-]]|[Hne1 Hq1]]%lookup_insert_Some [[<- [= <- <-]]|[Hne2 Hq2]]%lookup_insert_Some He1 He2.
    + done.
    + destruct (Hin e He1) as [He|Hf]; [by eapply (Ha p q2)|by destruct (Hf _ _ _ Hq2)].
    + destruct (Hin e He2) as [He|Hf]; [by eapply (Ha q1 p)|by destruct (Hf _ _ _ Hq1)].
    + by eapply (Ha q1 q2).
Qed.

(** A list gets an element that no list has. *)
Lemma own_cons W p ps es x q : own W -> W !! p = Some (ps, es) -> free_of W x -> own (<[p := (q :: ps, x :: es)]> W).
Proof.
  intros Hown HW Hx. eapply own_set; [done|done| |].
  - apply list.NoDup_cons. split; [by eapply Hx|by eapply ow_nodup].
  - intros e [->|He]%elem_of_cons; [by right|by left].
Qed.

Lemma own_new W r ps : own W -> own (<[r := (ps, [])]> W).
Proof.
  intros [Hn Ha]. split.
  - intros q ps2 es2 [[<- [= <- <-]]|[_ Hq]]%lookup_insert_Some; [constructor|by eapply Hn].
  - intros q1 q2 ps1 es1 ps2 es2 e [[<- [= <- <-]]|[Hne1 Hq1]]%lookup_insert_Some [[<- [= <- <-]]|[Hne2 Hq2]]%lookup_insert_Some He1 He2;
      [done|by apply not_elem_of_nil in He1|by apply not_elem_of_nil in He2|by eapply (Ha q1 q2)].
Qed.

Lemma fresh_free st W x : stg_ok st W -> s_obj st !! x = None -> free_of W x.
Proof.
  intros [HL _ _] Hx q ps es Hq Hin. destruct (lo_list _ _ HL _ _ _ Hq) as (k & l & _ & _ & Hlo). pose proof (li_kind _ _ _ _ _ _ Hlo) as HF.
  rewrite list.Forall_forall in HF. specialize (HF x Hin).
  destruct k; simpl in HF; unfold get_inode, get_map, get_dirent in HF; rewrite Hx in HF; by destruct HF.
Qed.

(** ** What the storage holds *)

(** An inode with the entries of its directory, newest first ([None] when it has no list
    yet); [an_last] is the position the next entry gets. *)
Record anode := ANode {
  an_attr : inode_attr; an_u : Z; an_valid : bool; an_s : ovlfs_inode_special_t;
  an_dir : option (list ovlfs_dir_info_t); an_last : Z
}.

(** The inodes, in the order of their numbers, and the mappings from the other two file
    systems. *)
Record afs := AFs { af_nodes : list anode; af_base : list ovlfs_ino_map_t; af_stg : list ovlfs_ino_map_t }.

Definition af_maps (f : other_fs) (fs : afs) : list ovlfs_ino_map_t := match f with FsBase => af_base fs | FsStg => af_stg fs end.

Definition entries (a : anode) : list ovlfs_dir_info_t := default [] (an_dir a).
Definition unlinked (d : ovlfs_dir_info_t) : bool := has (di_flags d) OVLFS_DIRENT_UNLINKED.
Definition rm_count (ds : list ovlfs_dir_info_t) : Z := Z.of_nat (length (List.filter unlinked ds)).

Definition find_name (name : list Z) (ds : list ovlfs_dir_info_t) : option ovlfs_dir_info_t :=
  List.find (λ d, bool_decide (di_name d = name)) ds.

(** A list the storage may not have made yet. *)
Definition list_at (st : sst) (W : gmap Z (list Z * list Z)) (p : Z) (k : lkind) (es : list Z) : Prop :=
  p = 0 ∧ es = [] ∨ ∃ ps, W !! p = Some (ps, es) ∧ s_funcs st !! p = Some k.

Definition dir_at (st : sst) (W : gmap Z (list Z * list Z)) (i : ovlfs_inode_t) (dir : option (list ovlfs_dir_info_t)) : Prop :=
  match dir with
  | None => oi_dir_entries i = 0
  | Some ds => ∃ ps es, W !! oi_dir_entries i = Some (ps, es) ∧ s_funcs st !! oi_dir_entries i = Some KDirents ∧
      oi_pos_index i = 1 ∧ Forall2 (λ e d, get_dirent (s_obj st) e = Some d) es ds
  end.

(** Names and positions are unique, positions grow, and the entries marked as removed
    are counted. *)
Record entries_ok (last num_rm : Z) (ds : list ovlfs_dir_info_t) : Prop := {
  eo_names : NoDup (di_name <$> ds);
  eo_pos : NoDup (di_pos <$> ds);
  eo_last : Forall (λ d, di_pos d < last) ds;
  eo_len : Z.of_nat (length ds) <= last;
  eo_rm : num_rm = rm_count ds
}.

Record node_rep (st : sst) (W : gmap Z (list Z * list Z)) (i : ovlfs_inode_t) (a : anode) : Prop := {
  nr_attr : oi_attr i = an_attr a ∧ oi_u i = an_u a ∧ oi_att_valid_f i = an_valid a ∧ oi_s i = an_s a ∧ oi_last_dir_pos i = an_last a;
  nr_dir : dir_at st W i (an_dir a);
  nr_entries : entries_ok (an_last a) (oi_num_rm_ent i) (entries a)
}.

Definition map_key (m : ovlfs_ino_map_t) : Z * Z := (im_dev m, im_ino m).

(** The storage at the addresses [ips] of its inodes; there is memory, and room for [n]
    more objects of every kind. *)
Record fs_ok (n : Z) (st : sst) (W : gmap Z (list Z * list Z)) (ips : list Z) (fs : afs) : Prop := {
  fo_stg : stg_ok st W;
  fo_own : own W;
  fo_plenty : plenty st;
  fo_ram : s_totalram st <= s_freeram st * 10;
  fo_magic : sb_magic (s_sup st) = OVLFS_SUPER_MAGIC;
  fo_inodes : list_at st W (sb_inodes (s_sup st)) KInodes ips;
  fo_len : length ips = length (af_nodes fs);
  fo_node m ip a : ips !! m = Some ip -> af_nodes fs !! m = Some a ->
    ∃ i, get_inode (s_obj st) ip = Some i ∧ oi_ino i = Z.of_nat m + 1 ∧ node_rep st W i a;
  fo_apart m1 m2 ip1 ip2 i1 i2 : ips !! m1 = Some ip1 -> ips !! m2 = Some ip2 -> get_inode (s_obj st) ip1 = Some i1 ->
    get_inode (s_obj st) ip2 = Some i2 -> oi_dir_entries i1 = oi_dir_entries i2 -> oi_dir_entries i1 ≠ 0 -> m1 = m2;
  fo_maps f : ∃ es, list_at st W (map_list_of f (s_sup st)) KMaps es ∧ Forall2 (λ e m, get_map (s_obj st) e = Some m) es (af_maps f fs);
  fo_keys f : NoDup (map_key <$> af_maps f fs);
  fo_two : sb_base_to_ovl (s_sup st) = sb_stg_to_ovl (s_sup st) -> sb_base_to_ovl (s_sup st) = 0;
  fo_room : 0 <= n ∧ Z.of_nat (length (af_nodes fs)) + n < 2 ^ 28 ∧ Z.of_nat (length (af_base fs)) + n < 2 ^ 28 ∧
    Z.of_nat (length (af_stg fs)) + n < 2 ^ 28 ∧ Forall (λ a, an_last a + n < 2 ^ 28) (af_nodes fs)
}.

(** ** Calls that change nothing of it *)
Lemma stg_call {A} (op : KM A) st W W' a st' : stg_ok st W -> lcall op st = Some (a, st') -> s_obj st' = s_obj st -> sframe st st' ->
  lists_ok st' W' -> stg_ok st' W'.
Proof.
  intros [_ Ha Hfu] Hr Hobj Hfr HL. pose proof (sf_next _ _ Hfr). split; [done|rewrite Hobj|rewrite (lcall_funcs _ _ _ _ Hr)].
  - intros p o Hp. specialize (Ha p o Hp). lia.
  - intros p k Hp. specialize (Hfu p k Hp). lia.
Qed.

Lemma list_at_frame st st' W p k es : sframe st st' -> list_at st W p k es -> list_at st' W p k es.
Proof. intros Hfr [?|(ps & HW & Hf)]; [by left|right]. exists ps. split; [done|]. eapply lookup_weaken; [done|apply Hfr]. Qed.

Lemma dir_at_frame st st' W i dir : s_obj st' = s_obj st -> sframe st st' -> dir_at st W i dir -> dir_at st' W i dir.
Proof.
  intros Hobj Hfr. unfold dir_at. destruct dir as [ds|]; [|done]. rewrite Hobj. intros (ps & es & HW & Hf & H). exists ps, es. split_and!; [done| |apply H..].
  eapply lookup_weaken; [done|apply Hfr].
Qed.

Lemma fs_ok_quiet n st W ips fs st' : fs_ok n st W ips fs -> s_obj st' = s_obj st -> sframe st st' -> stg_ok st' W -> fs_ok n st' W ips fs.
Proof.
  intros [H1 H2 H3 H4 H5 H6 H7 H8 H9 H10 H11 H12 H13] Hobj Hfr HS. pose proof Hfr as [_ Hsup [Hr1 Hr2] _ _ _].
  split; try done; rewrite ?Hsup, ?Hr1, ?Hr2, ?Hobj; try done.
  - by eapply plenty_frame.
  - by eapply list_at_frame.
  - intros m ip a Hm Ha. destruct (H8 m ip a Hm Ha) as (i & Hi & Hino & [N1 N2 N3]). exists i. split_and!; [done|done|].
    split; [done|by eapply dir_at_frame|done].
  - intros f. destruct (H10 f) as (es & Hes & HF). exists es. split; [by eapply list_at_frame|done].
Qed.

(** ** Inode numbers *)
Lemma at_num_some {A} (xs : list A) num x : at_num xs num = Some x -> 1 <= num <= Z.of_nat (length xs) ∧ xs !! Z.to_nat (num - 1) = Some x.
Proof. unfold at_num. destruct (Z.leb_spec 1 num); [|done]. intros Hx. pose proof (lookup_lt_Some _ _ _ Hx). split; [lia|done]. Qed.

Lemma s32_num num : 0 <= num < 2 ^ 32 -> 1 <= s32 num -> s32 num = num.
Proof.
  intros Hn Hs. destruct (Z.lt_ge_cases num (2 ^ 31)); [apply swrap_id; unfold in_s; lia|]. exfalso. unfold swrap in Hs.
  replace (num + 2 ^ (32 - 1)) with (num - 2 ^ 31 + 1 * 2 ^ 32) in Hs by lia. rewrite Z.mod_add, Z.mod_small in Hs by lia. lia.
Qed.

Section Fs.
Context (n : Z) (st : sst) (W : gmap Z (list Z * list Z)) (ips : list Z) (fs : afs) (HF : fs_ok n st W ips fs).

Lemma get_ino_run num : 0 <= num < 2 ^ 32 ->
  ∃ st', ovlfs_get_ino num st = Some (default 0 (at_num ips num), st') ∧ s_obj st' = s_obj st ∧ sframe st st' ∧ fs_ok n st' W ips fs.
Proof using HF.
  intros Hnum. pose proof HF as [H1 H2 H3 H4 H5 H6 H7 _ _ _ _ _ H13]. unfold ovlfs_get_ino, sup.
  rewrite (sbind_run _ _ st (s_sup st) st) by done. rewrite H5. change (negb _) with false. cbv iota.
  destruct (Z.eqb_spec num 0) as [->|Hn0]; [by exists st|].
  destruct H6 as [[-> ->]|(ps & HW & Hf)]; simpl; [exists st; unfold at_num; by destruct (1 <=? num)|].
  destruct (wo_list _ _ (lo_world _ _ (so_lists _ _ H1)) _ _ _ HW) as [Hp0 _]. rewrite (proj2 (Z.eqb_neq _ 0)) by done.
  destruct (call_nth st W _ ps ips KInodes (so_lists _ _ H1) HW Hf (s32 num)) as (r & st' & Hr & Hobj & Hfr & HL & Hcase).
  exists st'. rewrite Hr. split; [|split_and!; [done|done|]].
  - f_equal. f_equal. unfold at_num. destruct Hcase as [[-> [[Hno _]|Hout]]|(Hlo & xs & _ & _ & Hxs & _ & Hx)].
    + by apply plenty_memory in Hno.
    + destruct (Z.leb_spec 1 num); [|done]. rewrite lookup_ge_None_2; [done|].
      destruct (Z.lt_ge_cases num (2 ^ 31)).
      * replace (s32 num) with num in Hout by (symmetry; apply swrap_id; unfold in_s; lia). lia.
      * rewrite H7. lia.
    + rewrite (Hxs eq_refl) in Hx. pose proof (lookup_lt_Some _ _ _ Hx) as Hlt.
      pose proof (s32_num num Hnum Hlo) as E.
      rewrite E in *. destruct (Z.leb_spec 1 num); [|lia]. by rewrite Hx.
  - eapply fs_ok_quiet; [done|done|done|]. by eapply stg_call.
Qed.

(** The objects the addresses of the storage stand for. *)
Lemma ips_nodup : NoDup ips.
Proof using HF. destruct (fo_inodes _ _ _ _ _ HF) as [[_ ->]|(ps & HW & _)]; [constructor|]. by eapply (ow_nodup _ (fo_own _ _ _ _ _ HF)). Qed.

Lemma node_at m a : af_nodes fs !! m = Some a ->
  ∃ ip i, ips !! m = Some ip ∧ get_inode (s_obj st) ip = Some i ∧ oi_ino i = Z.of_nat m + 1 ∧ node_rep st W i a.
Proof using HF.
  intros Ha. destruct (lookup_lt_is_Some_2 ips m) as [ip Hip]; [rewrite (fo_len _ _ _ _ _ HF); by eapply lookup_lt_Some|].
  destruct (fo_node _ _ _ _ _ HF m ip a Hip Ha) as (i & Hi). by exists ip, i.
Qed.
End Fs.

(** ** A change to one inode and its directory *)
Definition touch (W : gmap Z (list Z * list Z)) (d p : Z) : Prop := ∃ ps es, W !! d = Some (ps, es) ∧ p ∈ es.

(** Only the object at [ip], the list [d] and the objects in it have changed. *)
Record near (ip d : Z) (st : sst) (W : gmap Z (list Z * list Z)) (st' : sst) (W' : gmap Z (list Z * list Z)) : Prop := {
  ne_frame : sframe st st';
  ne_keep p o : s_obj st !! p = Some o -> p ≠ ip -> ¬ touch W d p -> s_obj st' !! p = Some o ∧ ¬ touch W' d p;
  ne_lists q : q ≠ d -> W' !! q = W !! q
}.

Lemma near_trans ip d st W st1 W1 st2 W2 : near ip d st W st1 W1 -> near ip d st1 W1 st2 W2 -> near ip d st W st2 W2.
Proof.
  intros [H1 H2 H3] [G1 G2 G3]. split.
  - by transitivity st1.
  - intros p o Hp Hne Ht. destruct (H2 p o Hp Hne Ht) as [Hp1 Ht1]. by apply G2.
  - intros q Hq. by rewrite G3, H3.
Qed.

Lemma near_quiet ip d st W st' : s_obj st' = s_obj st -> sframe st st' -> near ip d st W st' W.
Proof. intros Hobj Hfr. split; [done|by rewrite Hobj|done]. Qed.

Definition set_nodes (ns : list anode) (fs : afs) : afs := AFs ns (af_base fs) (af_stg fs).

Lemma get_inode_some h p i : get_inode h p = Some i <-> h !! p = Some (OInode i).
Proof. unfold get_inode. split; [|by intros ->]. destruct (h !! p) as [[| |]|]; try done. by intros [= ->]. Qed.
Lemma get_dirent_some h p d : get_dirent h p = Some d <-> h !! p = Some (ODirent d).
Proof. unfold get_dirent. split; [|by intros ->]. destruct (h !! p) as [[| |]|]; try done. by intros [= ->]. Qed.
Lemma get_map_some h p m : get_map h p = Some m <-> h !! p = Some (OMap m).
Proof. unfold get_map. split; [|by intros ->]. destruct (h !! p) as [[| |]|]; try done. by intros [= ->]. Qed.

Lemma Forall2_in {A B} (P Q : A -> B -> Prop) xs ys : Forall2 P xs ys -> (∀ x y, x ∈ xs -> P x y -> Q x y) -> Forall2 Q xs ys.
Proof.
  intros HF HI. induction HF as [|x y xs ys Hxy HF IH]; constructor; [by apply HI; [left|]|]. apply IH. intros. apply HI; [by right|done].
Qed.

Section Near.
Context (n : Z) (st : sst) (W : gmap Z (list Z * list Z)) (ips : list Z) (fs : afs) (HF : fs_ok n st W ips fs).
Context (m : nat) (ip : Z) (a : anode) (i : ovlfs_inode_t).
Context (Hip : ips !! m = Some ip) (Ha : af_nodes fs !! m = Some a) (Hi : get_inode (s_obj st) ip = Some i).

Lemma node_now : oi_ino i = Z.of_nat m + 1 ∧ node_rep st W i a.
Proof using All. destruct (fo_node _ _ _ _ _ HF m ip a Hip Ha) as (i' & Hi' & H). rewrite Hi in Hi'. by injection Hi' as <-. Qed.

(** The directory list of the inode, or one that is new. *)
Definition own_dir (d : Z) : Prop := oi_dir_entries i = d ∨ oi_dir_entries i = 0 ∧ W !! d = None.

Lemma own_dir_kind d ps es : own_dir d -> W !! d = Some (ps, es) ->
  oi_dir_entries i = d ∧ s_funcs st !! d = Some KDirents ∧ ∃ ds, an_dir a = Some ds ∧ oi_pos_index i = 1 ∧ Forall2 (λ e d, get_dirent (s_obj st) e = Some d) es ds.
Proof using All.
  intros [Hd|[_ Hd]] HW; [|congruence]. split; [done|]. destruct node_now as [_ [_ Hdir _]]. unfold dir_at in Hdir. destruct (an_dir a) as [ds|].
  - destruct Hdir as (ps' & es' & HW' & Hf & Hx & HF2). rewrite Hd, HW in HW'. injection HW' as <- <-. rewrite Hd in Hf. eauto.
  - destruct (wo_list _ _ (lo_world _ _ (so_lists _ _ (fo_stg _ _ _ _ _ HF))) _ _ _ HW). congruence.
Qed.

Lemma touch_dirent d e : own_dir d -> touch W d e -> ∃ x, s_obj st !! e = Some (ODirent x).
Proof using All.
  intros Hd (ps & es & HW & He). destruct (own_dir_kind d ps es Hd HW) as (_ & _ & ds & _ & _ & HF2).
  apply list_elem_of_lookup in He as [j Hj]. destruct (Forall2_lookup_l _ _ _ _ _ HF2 Hj) as (x & _ & Hx). exists x. by apply get_dirent_some.
Qed.

Lemma other_list d q k es : own_dir d -> list_at st W q k es -> k ≠ KDirents -> q = 0 ∧ es = [] ∨ q ≠ d ∧ ∃ ps, W !! q = Some (ps, es) ∧ s_funcs st !! q = Some k.
Proof using All.
  intros Hd [?|(ps & HW & Hf)] Hk; [by left|right]. split; [|by exists ps]. intros ->.
  destruct (own_dir_kind d ps es Hd HW) as (_ & Hf' & _). congruence.
Qed.

Context (d : Z) (st' : sst) (W' : gmap Z (list Z * list Z)) (i' : ovlfs_inode_t) (a' : anode).
Context (Hd : own_dir d) (Hd' : oi_dir_entries i' = d) (HS' : stg_ok st' W') (Hown' : own W') (Hnear : near ip d st W st' W').
Context (Hi' : get_inode (s_obj st') ip = Some i') (Hino : oi_ino i' = oi_ino i) (Hrep : node_rep st' W' i' a').

Lemma near_inode q j : get_inode (s_obj st) q = Some j -> q ≠ ip -> get_inode (s_obj st') q = Some j.
Proof using All.
  intros Hq Hne. apply get_inode_some. apply get_inode_some in Hq. apply (ne_keep _ _ _ _ _ _ Hnear); [done|done|].
  intros Ht. destruct (touch_dirent d q Hd Ht). congruence.
Qed.

Lemma near_list_at q k es : k ≠ KDirents -> list_at st W q k es -> list_at st' W' q k es.
Proof using All.
  intros Hk Hq. destruct (other_list d q k es Hd Hq Hk) as [?|(Hne & ps & HW & Hf)]; [by left|right]. exists ps.
  rewrite (ne_lists _ _ _ _ _ _ Hnear) by done. split; [done|]. eapply lookup_weaken; [done|apply (ne_frame _ _ _ _ _ _ Hnear)].
Qed.

Lemma near_other_dir m2 ip2 i2 : m2 ≠ m -> ips !! m2 = Some ip2 -> get_inode (s_obj st) ip2 = Some i2 -> oi_dir_entries i2 ≠ 0 ->
  is_Some (W !! oi_dir_entries i2) -> oi_dir_entries i2 ≠ d.
Proof using All.
  intros Hne Hip2 Hi2 H0 [w HW] Heq. destruct Hd as [Hd0|[_ Hn]]; [|congruence].
  apply Hne. by eapply (fo_apart _ _ _ _ _ HF m2 m ip2 ip i2 i); [..|congruence|].
Qed.

Lemma near_node m2 ip2 a2 : m2 ≠ m -> ips !! m2 = Some ip2 -> af_nodes fs !! m2 = Some a2 ->
  ∃ i2, get_inode (s_obj st) ip2 = Some i2 ∧ get_inode (s_obj st') ip2 = Some i2 ∧ oi_ino i2 = Z.of_nat m2 + 1 ∧ node_rep st' W' i2 a2 ∧
    (oi_dir_entries i2 = 0 ∨ oi_dir_entries i2 ≠ d).
Proof using All.
  intros Hne Hip2 Ha2. destruct (fo_node _ _ _ _ _ HF m2 ip2 a2 Hip2 Ha2) as (i2 & Hi2 & Hino2 & [N1 N2 N3]). exists i2.
  assert (ip2 ≠ ip). { intros ->. apply Hne. by eapply NoDup_lookup; [eapply ips_nodup| |]. }
  unfold dir_at in N2. destruct (an_dir a2) as [ds2|] eqn:Edir.
  - destruct N2 as (ps2 & es2 & HW2 & Hf2 & Hx2 & HF2). destruct (wo_list _ _ (lo_world _ _ (so_lists _ _ (fo_stg _ _ _ _ _ HF))) _ _ _ HW2) as [Hp0 _].
    pose proof (near_other_dir m2 ip2 i2 Hne Hip2 Hi2 Hp0 (ex_intro _ _ HW2)) as Hned.
    split_and!; [done|by apply near_inode|done| |by right]. split; [done| |done]. unfold dir_at. rewrite Edir. exists ps2, es2.
    rewrite (ne_lists _ _ _ _ _ _ Hnear) by done. split_and!; [done|eapply lookup_weaken; [done|apply (ne_frame _ _ _ _ _ _ Hnear)]|done|].
    apply (Forall2_in _ _ _ _ HF2). intros e x He Hx. apply get_dirent_some. apply get_dirent_some in Hx. apply (ne_keep _ _ _ _ _ _ Hnear); [done| |].
    + intros ->. apply get_inode_some in Hi. congruence.
    + intros (ps & es & HW & He'). apply Hned. by eapply (ow_apart _ (fo_own _ _ _ _ _ HF)).
  - split_and!; [done|by apply near_inode|done| |by left]. split; [done| |done]. unfold dir_at. by rewrite Edir.
Qed.

Lemma fs_near n' : 0 <= n' <= n -> an_last a' + n' < 2 ^ 28 -> fs_ok n' st' W' ips (set_nodes (<[m := a']> (af_nodes fs)) fs).
Proof using All.
  intros Hn Hlast. pose proof HF as [H1 H2 H3 H4 H5 H6 H7 H8 H9 H10 H11 H12 H13]. pose proof (ne_frame _ _ _ _ _ _ Hnear) as Hfr.
  pose proof Hfr as [_ Hsup [Hr1 Hr2] _ _ _]. split; rewrite ?Hsup, ?Hr1, ?Hr2; try done.
  - by eapply plenty_frame.
  - by apply near_list_at.
  - simpl. by rewrite length_insert.
  - simpl. intros m2 ip2 a2 Hip2 Ha2. destruct (decide (m2 = m)) as [->|Hne].
    + assert (ip2 = ip) as -> by congruence. rewrite list_lookup_insert_eq in Ha2 by (by eapply lookup_lt_Some). injection Ha2 as <-.
      exists i'. split_and!; [done| |done]. rewrite Hino. apply node_now.
    + rewrite list_lookup_insert_ne in Ha2 by done. destruct (near_node m2 ip2 a2 Hne Hip2 Ha2) as (i2 & _ & ? & ? & ? & _). by exists i2.
  - intros m1 m2 ip1 ip2 i1 i2 Hip1 Hip2 Hi1 Hi2 Heq H0.
    assert (Hcase : ∀ mm p j, ips !! mm = Some p -> get_inode (s_obj st') p = Some j ->
      mm = m ∧ oi_dir_entries j = d ∨ mm ≠ m ∧ get_inode (s_obj st) p = Some j ∧ (oi_dir_entries j = 0 ∨ oi_dir_entries j ≠ d)).
    { intros mm p j Hp Hj. destruct (decide (mm = m)) as [->|Hne].
      - assert (p = ip) as -> by congruence. left. split; [done|]. rewrite Hi' in Hj. by injection Hj as <-.
      - right. destruct (lookup_lt_is_Some_2 (af_nodes fs) mm) as [aa Haa]; [rewrite <- H7; by eapply lookup_lt_Some|].
        destruct (near_node mm p aa Hne Hp Haa) as (j2 & Hj2 & Hj2' & _ & _ & Hc). rewrite Hj in Hj2'. injection Hj2' as <-. done. }
    destruct (Hcase m1 ip1 i1 Hip1 Hi1) as [[-> E1]|(Hn1 & G1 & C1)], (Hcase m2 ip2 i2 Hip2 Hi2) as [[-> E2]|(Hn2 & G2 & C2)].
    + done.
    + destruct C2; congruence.
    + destruct C1; congruence.
    + by eapply (H9 m1 m2 ip1 ip2 i1 i2).
  - intros f. destruct (H10 f) as (es & Hes & HF2). exists es. split; [by apply near_list_at|].
    apply (Forall2_in _ _ _ _ HF2). intros e x He Hx. apply get_map_some. apply get_map_some in Hx. apply (ne_keep _ _ _ _ _ _ Hnear); [done| |].
    + intros ->. apply get_inode_some in Hi. congruence.
    + intros Ht. destruct (touch_dirent d e Hd Ht). congruence.
  - simpl. rewrite length_insert. destruct H13 as (? & ? & ? & ? & HFl). split_and!; try lia.
    apply Forall_insert; [|lia]. eapply Forall_impl; [|exact HFl]. simpl. lia.
Qed.
End Near.
