(* ===== verification/StgEnt.v ===== *)
(** Storage of the overlay file system: the operations on the entries of one directory,
    by what they return and what they leave in the storage. *)
From stdpp Require Import sorting.
From S2P Require Import Prelude KList KListSort KListInv KListOps KListIdx KListThm KListDup KListKeep Stg StgOrd StgInv StgList StgStep StgSpec StgDir.
Open Scope Z_scope.

(** ** Names of entries *)
Lemma find_name_some name ds d : find_name name ds = Some d -> d ∈ ds ∧ di_name d = name.
Proof. intros [Hin Hd]%List.find_some. split; [by apply list_elem_of_In|by apply bool_decide_eq_true in Hd]. Qed.
Lemma find_name_none name ds : find_name name ds = None <-> Forall (λ d, di_name d ≠ name) ds.
Proof.
  unfold find_name. induction ds as [|x ds IH]; simpl; [by split|]. rewrite list.Forall_cons. case_bool_decide; [split; [done|by intros []]|].
  rewrite IH. by split; [|intros []].
Qed.
Lemma find_name_in name ds d : NoDup (di_name <$> ds) -> d ∈ ds -> di_name d = name -> find_name name ds = Some d.
Proof.
  induction ds as [|x ds IH]; simpl; [by intros _ ?%not_elem_of_nil|]. rewrite list.NoDup_cons, elem_of_cons. intros [Hx Hnd] [->|Hd] E.
  - unfold find_name. simpl. by rewrite bool_decide_eq_true_2.
  - unfold find_name. simpl. rewrite bool_decide_eq_false_2; [by apply IH|]. intros Ex. apply Hx. rewrite Ex, <- E. by apply list_elem_of_fmap_2.
Qed.

Lemma cmp_with_dirent st e d k : dirent_ok k -> dirent_ok d -> get_dirent (s_obj st) e = Some d -> e ≠ TMP ->
  cmp_with (ODirent k) (s_obj st) KDirents e = 0 <-> di_name d = di_name k.
Proof.
  intros Hk Hd He Hne. unfold cmp_with, callback, as_callback, get_dirent in *. rewrite lookup_insert_eq, lookup_insert_ne by done.
  destruct (s_obj st !! e) as [[| |]|]; try done. injection He as ->.
  split; [intros H; symmetry; by apply comp_dirent_zero|intros H; by apply comp_dirent_zero].
Qed.

Lemma name_key_ok name len : name_ok name len -> obj_ok (name_key name len).
Proof. intros (H1 & H2 & H3). unfold name_key, obj_ok, dirent_ok. simpl. split_and!; [done|lia|done|lia..]. Qed.

Lemma nodup_rest name ds d j : NoDup (di_name <$> ds) -> ds !! j = Some d -> di_name d = name -> Forall (λ x, di_name x ≠ name) (delete j ds).
Proof.
  revert j. induction ds as [|x ds IH]; intros [|j]; simpl; try done; rewrite list.NoDup_cons; intros [Hx Hnd].
  - intros [= ->] E. rewrite list.Forall_forall. intros y Hy Ey. apply Hx. rewrite E, <- Ey. by apply list_elem_of_fmap_2.
  - intros Hj E. constructor; [|by eapply IH]. intros Ex. apply Hx. rewrite Ex, <- E. apply list_elem_of_fmap_2. by eapply list_elem_of_lookup_2.
Qed.

(** ** The counts *)
Definition b2z (b : bool) : Z := if b then 1 else 0.

Lemma rm_count_cons d ds : rm_count (d :: ds) = b2z (unlinked d) + rm_count ds.
Proof. unfold rm_count, b2z. simpl. destruct (unlinked d); simpl; lia. Qed.
Lemma rm_count_delete ds d j : ds !! j = Some d -> rm_count (delete j ds) = rm_count ds - b2z (unlinked d).
Proof.
  revert j. induction ds as [|x ds IH]; intros [|j]; simpl; try done.
  - intros [= ->]. rewrite rm_count_cons. lia.
  - intros Hj. rewrite !rm_count_cons, (IH j) by done. lia.
Qed.
Lemma rm_count_insert ds d d' j : ds !! j = Some d -> rm_count (<[j := d']> ds) = rm_count ds - b2z (unlinked d) + b2z (unlinked d').
Proof.
  revert j. induction ds as [|x ds IH]; intros [|j]; simpl; try done.
  - intros [= ->]. rewrite !rm_count_cons. lia.
  - intros Hj. rewrite !rm_count_cons, (IH j) by done. lia.
Qed.
Lemma rm_count_le ds : 0 <= rm_count ds <= Z.of_nat (length ds).
Proof. unfold rm_count. pose proof (List.filter_length_le unlinked ds). lia. Qed.

Section EntriesOk.
Context (last rm : Z) (ds : list ovlfs_dir_info_t) (HE : entries_ok last rm ds).

Lemma entries_ok_new d : di_pos d = last -> Forall (λ x, di_name x ≠ di_name d) ds ->
  entries_ok (last + 1) (rm + b2z (unlinked d)) (d :: ds).
Proof using HE.
  intros Hpos Hn. destruct HE as [H1 H2 H3 H4 H5]. split; simpl.
  - apply list.NoDup_cons. split; [|done]. intros (x & Hx & Hin)%list_elem_of_fmap. rewrite list.Forall_forall in Hn. by destruct (Hn x Hin).
  - apply list.NoDup_cons. split; [|done]. intros (x & Hx & Hin)%list_elem_of_fmap. rewrite list.Forall_forall in H3. specialize (H3 x Hin). lia.
  - constructor; [lia|]. eapply Forall_impl; [|exact H3]. simpl. lia.
  - lia.
  - rewrite rm_count_cons. lia.
Qed.

Lemma entries_ok_delete j d : ds !! j = Some d -> entries_ok last (rm - b2z (unlinked d)) (delete j ds).
Proof using HE.
  intros Hj. destruct HE as [H1 H2 H3 H4 H5]. split.
  - rewrite list_fmap_delete. by eapply sublist_NoDup; [|apply sublist_delete].
  - rewrite list_fmap_delete. by eapply sublist_NoDup; [|apply sublist_delete].
  - by apply Forall_delete.
  - rewrite length_delete by eauto. lia.
  - rewrite (rm_count_delete ds d j) by done. lia.
Qed.

Lemma entries_ok_insert j d d' : ds !! j = Some d -> di_name d' = di_name d -> di_pos d' = di_pos d ->
  entries_ok last (rm - b2z (unlinked d) + b2z (unlinked d')) (<[j := d']> ds).
Proof using HE.
  intros Hj En Ep. destruct HE as [H1 H2 H3 H4 H5].
  assert (Hid : ∀ {B} (g : ovlfs_dir_info_t -> B), g d' = g d -> g <$> <[j := d']> ds = g <$> ds).
  { intros B g E. rewrite list_fmap_insert, list_insert_id; [done|]. by rewrite list_lookup_fmap, Hj, E. }
  split; rewrite ?Hid by done; [done|done| | |].
  - apply Forall_insert; [done|]. rewrite Ep. rewrite list.Forall_forall in H3. apply H3. by eapply list_elem_of_lookup_2.
  - by rewrite length_insert.
  - rewrite (rm_count_insert ds d d' j) by done. lia.
Qed.
End EntriesOk.

(** ** Reading and writing one object *)
Lemma inode_at_run p st i : get_inode (s_obj st) p = Some i -> inode_at p st = Some (i, st).
Proof. unfold inode_at, sopt. by intros ->. Qed.
Lemma dirent_at_run p st d : get_dirent (s_obj st) p = Some d -> dirent_at p st = Some (d, st).
Proof. unfold dirent_at, sopt. by intros ->. Qed.
Lemma upd_inode_run p st i f : get_inode (s_obj st) p = Some i -> upd_inode p f st = Some (tt, set_objs st (<[p := OInode (f i)]> (s_obj st))).
Proof. intros H. unfold upd_inode. by rewrite (sbind_run _ _ _ _ _ (inode_at_run _ _ _ H)). Qed.
Lemma upd_dirent_run p st d f : get_dirent (s_obj st) p = Some d -> upd_dirent p f st = Some (tt, set_objs st (<[p := ODirent (f d)]> (s_obj st))).
Proof. intros H. unfold upd_dirent. by rewrite (sbind_run _ _ _ _ _ (dirent_at_run _ _ _ H)). Qed.

Lemma get_inode_insert_ne h p q o : p ≠ q -> get_inode (<[p := o]> h) q = get_inode h q.
Proof. intros. unfold get_inode. by rewrite lookup_insert_ne. Qed.
Lemma get_inode_insert h p i : get_inode (<[p := OInode i]> h) p = Some i.
Proof. unfold get_inode. by rewrite lookup_insert_eq. Qed.
Lemma get_dirent_insert_ne h p q o : p ≠ q -> get_dirent (<[p := o]> h) q = get_dirent h q.
Proof. intros. unfold get_dirent. by rewrite lookup_insert_ne. Qed.
Lemma get_dirent_insert h p d : get_dirent (<[p := ODirent d]> h) p = Some d.
Proof. unfold get_dirent. by rewrite lookup_insert_eq. Qed.

Lemma same_key_inode h p i i' k : h !! p = Some (OInode i) -> of_kind h k p -> same_key h (<[p := OInode i']> h) k p.
Proof.
  intros Hp. destruct k; simpl; unfold get_inode, get_map, get_dirent; rewrite Hp, lookup_insert_eq; [by eauto|by intros []..].
Qed.
Lemma same_key_dirent h p d d' k : h !! p = Some (ODirent d) -> di_name d' = di_name d -> di_len d' = di_len d -> di_pos d' = di_pos d ->
  of_kind h k p -> same_key h (<[p := ODirent d']> h) k p.
Proof.
  intros Hp E1 E2 E3. destruct k; simpl; unfold get_inode, get_map, get_dirent; rewrite Hp, lookup_insert_eq; [by intros []..|].
  intros _ x [= <-]. eauto.
Qed.

Lemma Forall2_point {A B} (P Q : A -> B -> Prop) xs ys j x y' : Forall2 P xs ys -> NoDup xs -> xs !! j = Some x -> Q x y' ->
  (∀ x' y, x' ≠ x -> x' ∈ xs -> P x' y -> Q x' y) -> Forall2 Q xs (<[j := y']> ys).
Proof.
  intros HF. revert j. induction HF as [|x0 y0 xs ys Hxy HF IH]; intros [|j]; simpl; try done; rewrite list.NoDup_cons; intros [Hx Hnd].
  - intros [= ->] HQ HI. constructor; [done|]. apply (Forall2_in _ _ _ _ HF). intros e y He. apply HI; [by intros ->|by right].
  - intros Hj HQ HI. constructor.
    + apply HI; [|by left|done]. intros ->. by apply Hx, (list_elem_of_lookup_2 _ j).
    + apply IH; [done|done|done|]. intros. apply HI; [done|by right|done].
Qed.

Lemma entries_dir a ds : an_dir a = Some ds -> entries a = ds.
Proof. unfold entries. by intros ->. Qed.

Definition set_dir (dir : option (list ovlfs_dir_info_t)) (last : Z) (a : anode) : anode :=
  ANode (an_attr a) (an_u a) (an_valid a) (an_s a) dir last.

Lemma inode_rm_id i : oi_set_rm (oi_num_rm_ent i) i = i.
Proof. by destruct i. Qed.

Section Dir.
Context (n : Z) (st : sst) (W : gmap Z (list Z * list Z)) (ips : list Z) (fs : afs) (HF : fs_ok n st W ips fs).
Context (m : nat) (ip : Z) (a : anode) (i : ovlfs_inode_t).
Context (Hip : ips !! m = Some ip) (Ha : af_nodes fs !! m = Some a) (Hi : get_inode (s_obj st) ip = Some i).

Lemma inode_addr : s_obj st !! ip = Some (OInode i) ∧ ip ≠ 0 ∧ inode_ok i ∧ ip ≠ TMP.
Proof using HF Hi.
  pose proof (proj1 (get_inode_some _ _ _) Hi) as Ho. destruct (fo_stg _ _ _ _ _ HF) as [[Hk _ _] Had _]. specialize (Had _ _ Ho).
  split_and!; [done|lia|exact (Hk _ _ Ho)|unfold TMP; lia].
Qed.

(** The entry [d] is at the address [r], and it is number [j] of its directory. *)
Definition entry_at (j : nat) (r : Z) (d : ovlfs_dir_info_t) : Prop :=
  ∃ ds ps es, an_dir a = Some ds ∧ W !! oi_dir_entries i = Some (ps, es) ∧ es !! j = Some r ∧ ds !! j = Some d.

Lemma entry_obj j r d : entry_at j r d -> s_obj st !! r = Some (ODirent d) ∧ r ≠ 0 ∧ r ≠ -1 ∧ r ≠ ip ∧ r ≠ TMP ∧ dirent_ok d ∧ touch W (oi_dir_entries i) r.
Proof using All.
  intros (ds & ps & es & Hds & HW & Hj & Hd). destruct (own_dir_kind _ _ _ _ _ HF m ip a i Hip Ha Hi _ ps es (or_introl eq_refl) HW) as (_ & _ & ds' & Hds' & _ & HF2).
  rewrite Hds in Hds'. injection Hds' as <-.
  assert (Ho : s_obj st !! r = Some (ODirent d)) by (apply get_dirent_some; exact (Forall2_lookup_lr _ _ _ _ _ _ HF2 Hj Hd)).
  destruct (fo_stg _ _ _ _ _ HF) as [[Hk _ _] Had _]. pose proof (Had _ _ Ho). pose proof (Hk _ _ Ho).
  split_and!; [done|lia|lia| |unfold TMP; lia|done|exists ps, es; split; [done|by eapply list_elem_of_lookup_2]].
  intros ->. destruct inode_addr as [Hx _]. congruence.
Qed.

(** The elements of the list and the entries that have the name. *)
Lemma name_matches name len ds ps es : name_ok name len -> an_dir a = Some ds -> W !! oi_dir_entries i = Some (ps, es) ->
  ∀ j r d, es !! j = Some r -> ds !! j = Some d -> cmp_with (name_key name len) (s_obj st) KDirents r = 0 <-> di_name d = name.
Proof using All.
  intros Hn Hds HW j r d Hj Hd. assert (He : entry_at j r d) by (by exists ds, ps, es).
  destruct (entry_obj j r d He) as (Ho & _ & _ & _ & Ht & Hok & _).
  apply (cmp_with_dirent st r d (DirInfo name len 0 0 0)); [exact (name_key_ok _ _ Hn)|done|by apply get_dirent_some|done].
Qed.

Lemma dir_list ds : an_dir a = Some ds -> ∃ ps es, oi_dir_entries i ≠ 0 ∧ W !! oi_dir_entries i = Some (ps, es) ∧ s_funcs st !! oi_dir_entries i = Some KDirents ∧
  oi_pos_index i = 1 ∧ Forall2 (λ e d, get_dirent (s_obj st) e = Some d) es ds.
Proof using All.
  intros Hds. destruct (node_now _ _ _ _ _ HF m ip a i Hip Ha Hi) as [_ [_ Hdir _]]. unfold dir_at in Hdir. rewrite Hds in Hdir.
  destruct Hdir as (ps & es & HW & H). exists ps, es. split; [|done].
  by destruct (wo_list _ _ (lo_world _ _ (so_lists _ _ (fo_stg _ _ _ _ _ HF))) _ _ _ HW).
Qed.

Lemma no_dir_list : an_dir a = None -> oi_dir_entries i = 0.
Proof using All. intros Hds. destruct (node_now _ _ _ _ _ HF m ip a i Hip Ha Hi) as [_ [_ Hdir _]]. unfold dir_at in Hdir. by rewrite Hds in Hdir. Qed.

Lemma node_entries : entries_ok (an_last a) (oi_num_rm_ent i) (entries a).
Proof using All. apply (node_now _ _ _ _ _ HF m ip a i Hip Ha Hi). Qed.

(** No element compares equal: no entry has the name. *)
Lemma name_absent name len ds ps es : name_ok name len -> an_dir a = Some ds -> W !! oi_dir_entries i = Some (ps, es) ->
  Forall (λ e, cmp_with (name_key name len) (s_obj st) KDirents e ≠ 0) es -> Forall (λ d, di_name d ≠ name) ds.
Proof using All.
  intros Hn Hds HW HFs. destruct (dir_list ds Hds) as (ps' & es' & _ & HW' & _ & _ & HF2). rewrite HW in HW'. injection HW' as <- <-.
  rewrite list.Forall_lookup. intros j d Hd Ed. destruct (Forall2_lookup_r _ _ _ _ _ HF2 Hd) as (r & Hr & _).
  rewrite list.Forall_lookup in HFs. apply (HFs j r Hr). by eapply name_matches.
Qed.

Lemma find_run name len : name_ok name len -> ∃ r st', ovlfs_ino_find_dirent ip name len st = Some (r, st') ∧ s_obj st' = s_obj st ∧ sframe st st' ∧
  fs_ok n st' W ips fs ∧ (r = 0 ∧ find_name name (entries a) = None ∨ r ≠ 0 ∧ ∃ j d, entry_at j r d ∧ di_name d = name ∧ find_name name (entries a) = Some d).
Proof using All.
  intros Hn. unfold ovlfs_ino_find_dirent. destruct inode_addr as (_ & Hip0 & _). rewrite (proj2 (Z.eqb_neq _ _) Hip0).
  srun (inode_at_run _ _ _ Hi). unfold entries. destruct (an_dir a) as [ds|] eqn:Hds.
  - destruct (dir_list ds Hds) as (ps & es & H0 & HW & Hf & Hx & HF2). rewrite (proj2 (Z.eqb_neq _ _) H0).
    destruct (tmp_search st W (name_key name len) _ ps es KDirents (fo_stg _ _ _ _ _ HF) (name_key_ok _ _ Hn) HW Hf) as (r & st' & Hr & Hobj & Hfr & HS & Hcase); [done|].
    exists r, st'. split_and!; [done|done|done|by eapply fs_ok_quiet|].
    destruct Hcase as [[-> HFs]|[Hin Hc]].
    + left. split; [done|]. apply find_name_none. by eapply name_absent.
    + right. apply list_elem_of_lookup in Hin as [j Hj]. destruct (Forall2_lookup_l _ _ _ _ _ HF2 Hj) as (d & Hd & _).
      assert (He : entry_at j r d) by (by exists ds, ps, es). split; [apply (entry_obj _ _ _ He)|]. exists j, d.
      assert (di_name d = name) by (by eapply name_matches). split_and!; [done|done|]. apply find_name_in; [|by eapply list_elem_of_lookup_2|done].
      pose proof (eo_names _ _ _ node_entries) as Hnd. unfold entries in Hnd. by rewrite Hds in Hnd.
  - rewrite (no_dir_list Hds). exists 0, st. split_and!; [done|done|done|done|by left].
Qed.

(** *** Changing an entry *)
Definition marked (d d' : ovlfs_dir_info_t) : ovlfs_inode_t := oi_set_rm (oi_num_rm_ent i - b2z (unlinked d) + b2z (unlinked d')) i.
Definition set_entry_st (r : Z) (d d' : ovlfs_dir_info_t) : sst :=
  set_objs st (<[ip := OInode (marked d d')]> (<[r := ODirent d']> (s_obj st))).
Definition put_dir (ds : list ovlfs_dir_info_t) (last : Z) : afs := set_nodes (<[m := set_dir (Some ds) last a]> (af_nodes fs)) fs.

Lemma last_room : 0 <= n ∧ an_last a + n < 2 ^ 28.
Proof using HF Ha. destruct (fo_room _ _ _ _ _ HF) as (H0 & _ & _ & _ & HFl). split; [done|]. rewrite list.Forall_lookup in HFl. by eapply HFl. Qed.

(** What of an inode is not its directory. *)
Lemma node_attrs : oi_attr i = an_attr a ∧ oi_u i = an_u a ∧ oi_att_valid_f i = an_valid a ∧ oi_s i = an_s a ∧ oi_last_dir_pos i = an_last a.
Proof using All. apply (node_now _ _ _ _ _ HF m ip a i Hip Ha Hi). Qed.

Lemma set_entry_ok j r d d' : entry_at j r d -> di_name d' = di_name d -> di_len d' = di_len d -> di_pos d' = di_pos d ->
  fs_ok n (set_entry_st r d d') W ips (put_dir (<[j := d']> (entries a)) (an_last a)).
Proof using All.
  intros He E1 E2 E3. destruct (entry_obj j r d He) as (Ho & _ & _ & Hne & _ & Hok & Ht). destruct inode_addr as (Hio & _ & Hiok & _).
  pose proof He as (ds & ps & es & Hds & HW & Hj & Hd). destruct (dir_list ds Hds) as (ps' & es' & H0 & HW' & Hf & Hx & HF2).
  rewrite HW in HW'. injection HW' as <- <-.
  pose proof node_entries as HE. rewrite (entries_dir a ds Hds) in HE |- *.
  assert (Hok' : dirent_ok d') by (unfold dirent_ok in *; by rewrite E1, E2, E3).
  assert (HS : stg_ok (set_entry_st r d d') W).
  { refine (stg_ok_write (set_objs st (<[r := ODirent d']> (s_obj st))) W ip (OInode i) (OInode (marked d d')) _ _ _ _).
    - eapply stg_ok_write; [apply (fo_stg _ _ _ _ _ HF)|done|done|]. intros k. by apply (same_key_dirent _ _ d d').
    - simpl. by rewrite lookup_insert_ne.
    - done.
    - intros k. apply (same_key_inode _ _ i). simpl. by rewrite lookup_insert_ne. }
  apply (fs_near n st W ips fs HF m ip a i Hip Ha Hi (oi_dir_entries i) _ W (marked d d')); [by left|done|done|apply (fo_own _ _ _ _ _ HF)| | |done| |split; [|done]; apply last_room|apply last_room].
  - split; [done| |done]. intros p o Hp Hnp Hnt. split; [|done]. simpl. rewrite !lookup_insert_ne; [done| |done]. intros ->. done.
  - simpl. apply get_inode_insert.
  - split; [apply node_attrs| |].
    + simpl. exists ps, es. split_and!; [done|done|done|]. eapply Forall2_point; [exact HF2|by eapply (ow_nodup _ (fo_own _ _ _ _ _ HF))|done| |].
      * simpl. rewrite get_dirent_insert_ne by done. apply get_dirent_insert.
      * intros e x Hne2 Hin Hex. simpl. assert (e ≠ ip) by (intros ->; unfold get_dirent in Hex; by rewrite Hio in Hex).
        by rewrite !get_dirent_insert_ne.
    + by apply entries_ok_insert.
Qed.

(** *** Removing an entry *)
Lemma rm_range ds : an_dir a = Some ds -> 0 <= oi_num_rm_ent i < 2 ^ 28.
Proof using All.
  intros Hds. pose proof node_entries as HE. rewrite (entries_dir a ds Hds) in HE. pose proof (rm_count_le ds).
  destruct HE as [_ _ _ Hl ->]. pose proof last_room. lia.
Qed.

Definition removed_st (st1 : sst) (r : Z) (d : ovlfs_dir_info_t) : sst :=
  set_objs st1 (delete r (<[ip := OInode (oi_set_rm (oi_num_rm_ent i - b2z (unlinked d)) i)]> (s_obj st))).

Lemma removed_ok st1 ps ps' es ds j r d : an_dir a = Some ds -> W !! oi_dir_entries i = Some (ps, es) -> es !! j = Some r -> ds !! j = Some d ->
  s_obj st1 = s_obj st -> sframe st st1 -> stg_ok st1 (<[oi_dir_entries i := (ps', delete j es)]> W) ->
  fs_ok n (removed_st st1 r d) (<[oi_dir_entries i := (ps', delete j es)]> W) ips (put_dir (delete j ds) (an_last a)).
Proof using All.
  intros Hds HW Hj Hd Hobj Hfr HS. assert (He : entry_at j r d) by (by exists ds, ps, es).
  destruct (entry_obj j r d He) as (Ho & _ & _ & Hne & _ & Hok & Ht). destruct inode_addr as (Hio & _ & Hiok & _).
  destruct (dir_list ds Hds) as (ps2 & es2 & H0 & HW' & Hf & Hx & HF2). rewrite HW in HW'. injection HW' as <- <-.
  pose proof (fo_own _ _ _ _ _ HF) as Hown. pose proof (ow_nodup _ Hown _ _ _ HW) as Hnd.
  assert (Hr : r ∉ delete j es). { intros (jj & Hjj)%list_elem_of_lookup. destruct (decide (jj < j)%nat).
    - rewrite list_lookup_delete_lt in Hjj by done. pose proof (NoDup_lookup es _ _ _ Hnd Hj Hjj). lia.
    - rewrite list_lookup_delete_ge in Hjj by lia. pose proof (NoDup_lookup es _ _ _ Hnd Hj Hjj). lia. }
  set (i2 := oi_set_rm (oi_num_rm_ent i - b2z (unlinked d)) i).
  apply (fs_near n st W ips fs HF m ip a i Hip Ha Hi (oi_dir_entries i) _ _ i2); [by left|done| | | | |done| |split; [|done]; apply last_room|apply last_room].
  - refine (stg_ok_free (set_objs st1 (<[ip := OInode i2]> (s_obj st))) _ r _ _).
    + rewrite <- Hobj. eapply stg_ok_write; [done|by rewrite Hobj|done|]. intros k. apply (same_key_inode _ _ i). by rewrite Hobj.
    + intros q ps2 es2 [[<- [= <- <-]]|[Hq HWq]]%lookup_insert_Some; [done|]. intros Hin. apply Hq.
      by eapply (ow_apart _ Hown _ _ _ _ _ _ r HW HWq); [eapply list_elem_of_lookup_2|].
  - eapply own_set; [done|done|by eapply sublist_NoDup; [|apply sublist_delete]|]. intros e Hin. left. by eapply list_elem_of_delete_inv.
  - split; [by destruct Hfr| |].
    + intros p o Hp Hnp Hnt. split.
      * simpl. rewrite lookup_delete_ne, lookup_insert_ne; [done|done|]. by intros <-.
      * intros (ps2 & es2 & HW2 & Hin). rewrite lookup_insert_eq in HW2. injection HW2 as <- <-. apply Hnt. exists ps, es. split; [done|].
        by eapply list_elem_of_delete_inv.
    + intros q Hq. by rewrite lookup_insert_ne.
  - apply get_inode_some. simpl. by rewrite lookup_delete_ne, lookup_insert_eq.
  - split; [apply node_attrs| |].
    + simpl. exists ps', (delete j es). rewrite lookup_insert_eq. split_and!; [done|eapply lookup_weaken; [done|apply Hfr]|done|].
      apply (Forall2_in _ _ _ _ (Forall2_delete _ _ _ j HF2)). intros e x Hin Hex.
      assert (e ≠ ip) by (intros ->; unfold get_dirent in Hex; by rewrite Hio in Hex).
      unfold get_dirent. rewrite lookup_delete_ne, lookup_insert_ne; [done|done|]. by intros <-.
    + pose proof node_entries as HE. rewrite (entries_dir a ds Hds) in HE. by apply entries_ok_delete.
Qed.

Lemma remove_run name len : name_ok name len -> ∃ c st' W' fs', ovlfs_remove_dirent ip (Some name) len st = Some (c, st') ∧ fs_ok n st' W' ips fs' ∧
  match an_dir a with
  | None => c = 0 ∧ fs' = fs
  | Some ds =>
      match find_name name ds with
      | None => c = - ENOENT ∧ fs' = fs
      | Some d => c = 0 ∧ ∃ j, ds !! j = Some d ∧ fs' = put_dir (delete j ds) (an_last a)
      end
  end.
Proof using All.
  intros Hn. unfold ovlfs_remove_dirent. destruct inode_addr as (Hio & Hip0 & _). rewrite (proj2 (Z.eqb_neq _ _) Hip0).
  srun (inode_at_run _ _ _ Hi). destruct (an_dir a) as [ds|] eqn:Hds.
  2: { rewrite (no_dir_list Hds). by exists 0, st, W, fs. }
  destruct (dir_list ds Hds) as (ps & es & H0 & HW & Hf & Hx & HF2). rewrite (proj2 (Z.eqb_neq _ _) H0).
  destruct (tmp_remove st W (name_key name len) _ ps es KDirents (fo_stg _ _ _ _ _ HF) (name_key_ok _ _ Hn) HW Hf)
    as (r & st1 & ps' & es' & Hr & Hobj & Hfr & HS & Hcase); [done|]. srun Hr.
  destruct Hcase as [(-> & -> & -> & HFs)|(j & Hj & -> & Hc)].
  { rewrite insert_id in HS by done. exists (- ENOENT), st1, W, fs. split_and!; [done|by eapply fs_ok_quiet|].
    by rewrite (proj2 (find_name_none name ds) (name_absent name len ds ps es Hn Hds HW HFs)). }
  destruct (Forall2_lookup_l _ _ _ _ _ HF2 Hj) as (d & Hd & _). assert (He : entry_at j r d) by (by exists ds, ps, es).
  destruct (entry_obj j r d He) as (Ho & Hr0 & Hr1 & Hne & _). rewrite (proj2 (Z.eqb_neq _ _) Hr0), (proj2 (Z.eqb_neq _ _) Hr1). cbn [orb].
  assert (Hname : di_name d = name) by (by eapply name_matches).
  assert (Hfind : find_name name ds = Some d).
  { apply find_name_in; [|by eapply list_elem_of_lookup_2|done]. rewrite <- (entries_dir a ds Hds). apply node_entries. }
  rewrite Hfind. assert (Hgr : get_dirent (s_obj st1) r = Some d) by (rewrite Hobj; by apply get_dirent_some). srun (dirent_at_run _ _ _ Hgr).
  exists 0, (removed_st st1 r d), (<[oi_dir_entries i := (ps', delete j es)]> W), (put_dir (delete j ds) (an_last a)).
  split_and!; [|by eapply removed_ok|done|by exists j]. fold (unlinked d). pose proof (rm_range ds Hds). unfold removed_st, free_dir_entry.
  destruct (unlinked d); cbn [b2z].
  - assert (Hi1 : get_inode (s_obj st1) ip = Some i) by by rewrite Hobj. srun (upd_inode_run ip st1 i (λ i, oi_set_rm (s32 (oi_num_rm_ent i - 1)) i) Hi1).
    rewrite (proj2 (Z.eqb_neq _ _) Hr0). unfold FREE, smod, sbind, sret. simpl. rewrite Hobj, swrap_id by (unfold in_s; lia). done.
  - rewrite (sbind_run _ _ st1 tt st1) by done. rewrite (proj2 (Z.eqb_neq _ _) Hr0). unfold FREE, smod, sbind, sret. simpl.
    rewrite Hobj, Z.sub_0_r, inode_rm_id, insert_id by done. done.
Qed.

(** *** A new entry *)
Lemma memcpy_name name len : name_ok name len -> memcpy name len = Some name.
Proof.
  intros (-> & H & _). unfold memcpy. rewrite (proj2 (Z.leb_le 0 _)), Z.leb_refl by lia. simpl. by rewrite Nat2Z.id, firstn_all.
Qed.

Lemma new_entry_ok st3 W3 x ds ps es d q : an_dir a = Some ds -> W !! oi_dir_entries i = Some (ps, es) -> 1 <= n ->
  sframe st st3 -> W3 = <[oi_dir_entries i := (q :: ps, x :: es)]> W -> stg_ok st3 W3 -> s_obj st !! x = None ->
  s_obj st3 = <[ip := OInode (oi_set_rm (oi_num_rm_ent i + b2z (unlinked d)) (oi_set_last (an_last a + 1) i))]> (<[x := ODirent d]> (s_obj st)) ->
  di_pos d = an_last a -> find_name (di_name d) ds = None -> fs_ok (n - 1) st3 W3 ips (put_dir (d :: ds) (an_last a + 1)).
Proof using All.
  intros Hds HW Hn1 Hfr -> HS Hx Hobj Hpos Hnone. destruct inode_addr as (Hio & _ & Hiok & _).
  destruct (dir_list ds Hds) as (ps2 & es2 & H0 & HW' & Hf & Hix & HF2). rewrite HW in HW'. injection HW' as <- <-.
  pose proof (fo_own _ _ _ _ _ HF) as Hown. pose proof (ow_nodup _ Hown _ _ _ HW) as Hnd.
  pose proof (fresh_free st W x (fo_stg _ _ _ _ _ HF) Hx) as Hfree. assert (x ≠ ip) by congruence.
  apply (fs_near n st W ips fs HF m ip a i Hip Ha Hi (oi_dir_entries i) _ _ (oi_set_rm (oi_num_rm_ent i + b2z (unlinked d)) (oi_set_last (an_last a + 1) i)));
    [by left|done|done| | | |done| |pose proof last_room; lia|simpl; pose proof last_room; lia].
  - by apply own_cons.
  - split; [done| |].
    + intros p o Hp Hnp Hnt. assert (p ≠ x) by congruence. split; [by rewrite Hobj, !lookup_insert_ne|].
      intros (ps2 & es2 & HW2 & Hin). rewrite lookup_insert_eq in HW2. injection HW2 as <- <-. apply elem_of_cons in Hin as [->|Hin]; [done|].
      apply Hnt. by exists ps, es.
    + intros p Hp. by rewrite lookup_insert_ne.
  - rewrite Hobj. apply get_inode_insert.
  - split; [destruct node_attrs as (? & ? & ? & ? & _); done| |].
    + simpl. exists (q :: ps), (x :: es). rewrite lookup_insert_eq, Hobj. split_and!; [done|eapply lookup_weaken; [done|apply Hfr]|done|]. constructor.
      * rewrite get_dirent_insert_ne by done. apply get_dirent_insert.
      * apply (Forall2_in _ _ _ _ HF2). intros e y Hin Hey. assert (e ≠ ip) by (intros ->; unfold get_dirent in Hey; by rewrite Hio in Hey).
        assert (e ≠ x) by (intros ->; by eapply Hfree). by rewrite !get_dirent_insert_ne.
    + pose proof node_entries as HE. rewrite (entries_dir a ds Hds) in HE. apply entries_ok_new; [done|done|]. by apply find_name_none.
Qed.

Lemma new_run name len ent_ino flags ds : name_ok name len -> an_dir a = Some ds -> find_name name ds = None -> 1 <= n ->
  ∃ st' W', new_dirent ip name len ent_ino flags st = Some (0, st') ∧ sframe st st' ∧
    fs_ok (n - 1) st' W' ips (put_dir (DirInfo name len ent_ino flags (an_last a) :: ds) (an_last a + 1)).
Proof using All.
  intros Hn Hds Hnone Hn1. unfold new_dirent. destruct inode_addr as (Hio & Hip0 & Hiok & _). srun (inode_at_run _ _ _ Hi).
  destruct (dir_list ds Hds) as (ps & es & H0 & HW & Hf & Hix & HF2). rewrite (proj2 (Z.eqb_neq _ _) H0).
  pose proof (fo_plenty _ _ _ _ _ HF) as Hpl. pose proof last_room as Hroom. destruct node_attrs as (_ & _ & _ & _ & Hlast).
  destruct (MALLOC_spec st W (fo_stg _ _ _ _ _ HF)) as ([x|] & st1 & Hm1 & Ho1 & Hfr1 & HS1 & Hx); [|done]. srun Hm1.
  destruct (MALLOC_spec st1 W HS1) as ([y|] & st2 & Hm2 & Ho2 & Hfr2 & HS2 & Hy); [|by destruct Hy; eapply plenty_frame]. srun Hm2.
  unfold sopt at 1. rewrite (memcpy_name _ _ Hn). unfold sbind at 1. cbn [option_map]. destruct Hx as [Hxr Hxo].
  set (d := DirInfo name len ent_ino flags (oi_last_dir_pos i)). set (st3 := set_objs st2 (<[x := ODirent d]> (s_obj st2))).
  rewrite (sbind_run _ _ st2 tt st3) by done. cbv beta iota. assert (x ≠ ip) by congruence.
  assert (Hok : dirent_ok d). { destruct Hn as (? & ? & ?). split_and!; simpl; try done; try lia. rewrite Hlast. destruct node_entries as [_ _ _ ? _]. lia. }
  assert (HS3 : stg_ok st3 W). { apply stg_ok_fresh; [done|by rewrite Ho2, Ho1|done|]. pose proof (sf_next _ _ Hfr2). lia. }
  assert (Hi3 : get_inode (s_obj st3) ip = Some i) by (simpl; rewrite get_inode_insert_ne by done; by rewrite Ho2, Ho1).
  srun (upd_inode_run ip st3 i (oi_set_last (u32 (oi_last_dir_pos i + 1))) Hi3).
  set (i4 := oi_set_last (u32 (oi_last_dir_pos i + 1)) i). set (st4 := set_objs st3 (<[ip := OInode i4]> (s_obj st3))).
  assert (HS4 : stg_ok st4 W). { eapply stg_ok_write; [done|by apply get_inode_some|done|]. intros k. apply (same_key_inode _ _ i). by apply get_inode_some. }
  assert (Hfr4 : sframe st st4) by (transitivity st2; [by transitivity st1|done]).
  assert (Hf4 : s_funcs st4 !! oi_dir_entries i = Some KDirents) by (eapply lookup_weaken; [done|apply Hfr4]).
  destruct (call_insert_sorted st4 W _ ps es KDirents (so_lists _ _ HS4) HW Hf4 x) as (r & st5 & ps' & es' & Hr & Ho5 & Hfr5 & HL5 & Hcase); [done| | |].
  { exists d. simpl. rewrite get_dirent_insert_ne by done. apply get_dirent_insert. }
  { rewrite (Forall2_length HF2). destruct node_entries as [_ _ _ Hl _]. rewrite (entries_dir a ds Hds) in Hl. lia. }
  destruct Hcase as [(_ & Hno & _)|(-> & q & [= -> ->])]; [by apply plenty_memory in Hno; [|eapply plenty_frame]|].
  srun Hr. rewrite (proj2 (Z.eqb_neq x 0)) by lia. assert (HS5 : stg_ok st5 (<[oi_dir_entries i := (q :: ps, x :: es)]> W)) by (by eapply stg_call).
  assert (Hlast1 : u32 (oi_last_dir_pos i + 1) = an_last a + 1).
  { rewrite Hlast. apply Z.mod_small. destruct node_entries as [_ _ _ ? _]. lia. }
  assert (Hi5 : get_inode (s_obj st5) ip = Some i4) by (rewrite Ho5; simpl; apply get_inode_insert).
  pose proof (rm_range ds Hds) as Hrm. set (d' := DirInfo name len ent_ino flags (an_last a)). assert (d = d') as Ed by (by unfold d; rewrite Hlast).
  set (i6 := oi_set_rm (oi_num_rm_ent i + b2z (unlinked d')) (oi_set_last (an_last a + 1) i)).
  assert (Hend : ∃ st6, (if has flags OVLFS_DIRENT_UNLINKED then upd_inode ip (λ i, oi_set_rm (s32 (oi_num_rm_ent i + 1)) i) else sret tt) st5 = Some (tt, st6) ∧
    sframe st5 st6 ∧ stg_ok st6 (<[oi_dir_entries i := (q :: ps, x :: es)]> W) ∧ s_obj st6 = <[ip := OInode i6]> (<[x := ODirent d']> (s_obj st))).
  { unfold i6. rewrite <- Ed. unfold unlinked. simpl. destruct (has flags OVLFS_DIRENT_UNLINKED); cbn [b2z].
    - rewrite (upd_inode_run ip st5 i4 _ Hi5). eexists. split; [done|]. split; [done|]. split.
      + eapply stg_ok_write; [done|by apply get_inode_some|done|]. intros k. apply (same_key_inode _ _ i4). by apply get_inode_some.
      + simpl. rewrite Ho5. simpl. rewrite Ho2, Ho1, insert_insert_eq. unfold i4. rewrite Hlast1. simpl. by rewrite swrap_id by (unfold in_s; lia).
    - exists st5. split_and!; [done|done|done|]. rewrite Ho5. simpl. rewrite Ho2, Ho1. unfold i4. rewrite Hlast1, Z.add_0_r. by destruct i. }
  destruct Hend as (st6 & Hrun & Hfr6 & HS6 & Ho6). srun Hrun. exists st6, (<[oi_dir_entries i := (q :: ps, x :: es)]> W). split; [done|].
  assert (sframe st st6) by (transitivity st5; [by transitivity st4|done]). split; [done|]. by eapply (new_entry_ok st6 _ x ds ps es d' q).
Qed.

(** *** A new list *)
Lemma create_run : an_dir a = None ->
  ∃ st' W', (let@ (l, id) := create_dirent_list in upd_inode ip (λ i, oi_set_dir l (default (oi_pos_index i) id) i)) st = Some (tt, st') ∧
    sframe st st' ∧ fs_ok n st' W' ips (put_dir [] (an_last a)).
Proof using All.
  intros Hds. destruct inode_addr as (Hio & _ & Hiok & _).
  destruct (create_dirent_list_spec st W (fo_stg _ _ _ _ _ HF)) as (r & id & st1 & Hr & Ho & Hfr & Hcase). srun Hr.
  destruct Hcase as [(_ & _ & Hno & _)|(Hr0 & -> & HW & Hf & HS)]; [by destruct Hno; apply (fo_plenty _ _ _ _ _ HF)|].
  assert (Hi1 : get_inode (s_obj st1) ip = Some i) by by rewrite Ho. rewrite (upd_inode_run ip st1 i _ Hi1).
  eexists _, (<[r := ([], [])]> W). split; [done|]. split; [by transitivity st1|].
  apply (fs_near n st W ips fs HF m ip a i Hip Ha Hi r _ _ (oi_set_dir r (default (oi_pos_index i) (Some 1)) i)); [|done| | | | |done| |split; [|done]; apply last_room|apply last_room].
  - right. split; [by apply no_dir_list|done].
  - eapply stg_ok_write; [done|by apply get_inode_some|done|]. intros k. apply (same_key_inode _ _ i). by apply get_inode_some.
  - apply own_new, (fo_own _ _ _ _ _ HF).
  - split; [by transitivity st1| |intros p Hp; by rewrite lookup_insert_ne]. intros p o Hp Hnp _. split; [simpl; by rewrite lookup_insert_ne, Ho|].
    intros (ps2 & es2 & HW2 & Hin). rewrite lookup_insert_eq in HW2. injection HW2 as <- <-. by apply not_elem_of_nil in Hin.
  - simpl. apply get_inode_insert.
  - split; [apply node_attrs| |].
    + simpl. exists [], []. rewrite lookup_insert_eq. split_and!; [done|done|done|constructor].
    + pose proof node_entries as HE. unfold entries in HE |- *. by rewrite Hds in HE.
Qed.
End Dir.
