(* ===== verification/StgNode.v ===== *)
(** Storage of the overlay file system: new inodes, changes to an inode, and the
    mappings from the inodes of the other file systems. *)
From stdpp Require Import sorting.
From S2P Require Import Prelude KList KListSort KListInv KListOps KListIdx KListThm KListDup KListKeep Stg StgOrd StgInv StgList StgStep StgSpec StgDir StgEnt.
Open Scope Z_scope.

(** ** The super block *)
Definition sup_same (b b' : super_info) : Prop :=
  sb_magic b' = sb_magic b ∧ sb_inodes b' = sb_inodes b ∧ sb_base_to_ovl b' = sb_base_to_ovl b ∧ sb_stg_to_ovl b' = sb_stg_to_ovl b.

Lemma map_list_same f b b' : sup_same b b' -> map_list_of f b' = map_list_of f b.
Proof. intros (_ & _ & ? & ?). by destruct f. Qed.

Lemma stg_ok_sup st W b : stg_ok st W -> stg_ok (set_sup st b) W.
Proof. by intros [[H1 H2 H3] H4 H5]. Qed.

Lemma fs_ok_sup n st W ips fs b : fs_ok n st W ips fs -> sup_same (s_sup st) b -> fs_ok n (set_sup st b) W ips fs.
Proof.
  intros [H1 H2 H3 H4 H5 H6 H7 H8 H9 H10 H11 H12 H13] Hs. pose proof Hs as (E1 & E2 & E3 & E4).
  split; simpl; rewrite ?E1, ?E2, ?E3, ?E4; try done; [by apply stg_ok_sup| |].
  - intros m ip a Hm Ha. destruct (H8 m ip a Hm Ha) as (i & Hi & Hino & [N1 N2 N3]). exists i. split_and!; [done|done|]. by split.
  - intros f. rewrite (map_list_same f _ _ Hs). destruct (H10 f) as (es & Hes). exists es. done.
Qed.

Lemma mark_dirty_run st : ∃ b, mark_dirty st = Some (tt, set_sup st b) ∧ sup_same (s_sup st) b.
Proof.
  unfold mark_dirty, sup, upd_sup, smod. unfold sbind at 1. destruct (has _ _).
  - exists (s_sup st). split; [|done]. unfold sret. by destruct st.
  - by exists (sup_dirt (s_sup st)).
Qed.

(** Allocation and the like while the storage is in use. *)
Lemma alloc_run n st W ips fs : fs_ok n st W ips fs ->
  ∃ p st', alloc_inode st = Some (Some p, st') ∧ s_obj st' = s_obj st ∧ sframe st st' ∧ fs_ok n st' W ips fs ∧ 0 < p < km_next (ks_mem (s_k st')) ∧ s_obj st !! p = None.
Proof.
  intros HF. unfold alloc_inode, sup, sget. unfold sbind at 1. unfold sbind at 1. pose proof (fo_ram _ _ _ _ _ HF).
  rewrite (proj2 (Z.ltb_ge _ _)), andb_false_r by done.
  destruct (MALLOC_spec st W (fo_stg _ _ _ _ _ HF)) as ([p|] & st' & Hm & Ho & Hfr & HS & Hp); [|by destruct Hp; apply (fo_plenty _ _ _ _ _ HF)].
  exists p, st'. split_and!; [done|done|done|by eapply fs_ok_quiet|apply Hp..].
Qed.

(** ** A change to an inode outside its directory *)
Section Inode.
Context (n : Z) (st : sst) (W : gmap Z (list Z * list Z)) (ips : list Z) (fs : afs) (HF : fs_ok n st W ips fs).
Context (m : nat) (ip : Z) (a : anode) (i : ovlfs_inode_t).
Context (Hip : ips !! m = Some ip) (Ha : af_nodes fs !! m = Some a) (Hi : get_inode (s_obj st) ip = Some i).

Definition same_dir (i' : ovlfs_inode_t) : Prop :=
  oi_ino i' = oi_ino i ∧ oi_dir_entries i' = oi_dir_entries i ∧ oi_pos_index i' = oi_pos_index i ∧ oi_num_rm_ent i' = oi_num_rm_ent i ∧
  oi_last_dir_pos i' = oi_last_dir_pos i.

Lemma set_inode_ok i' : inode_ok i' -> same_dir i' ->
  fs_ok n (set_objs st (<[ip := OInode i']> (s_obj st))) W ips
    (set_nodes (<[m := ANode (oi_attr i') (oi_u i') (oi_att_valid_f i') (oi_s i') (an_dir a) (an_last a)]> (af_nodes fs)) fs).
Proof using All.
  intros Hok (E1 & E2 & E3 & E4 & E5). destruct (inode_addr n st W ips fs HF ip i Hi) as (Hio & _ & _ & _).
  destruct (node_now n st W ips fs HF m ip a i Hip Ha Hi) as [_ [N1 N2 N3]].
  apply (fs_near n st W ips fs HF m ip a i Hip Ha Hi (oi_dir_entries i) _ W i'); [by left|done| |apply (fo_own _ _ _ _ _ HF)| | |done| | |].
  - eapply stg_ok_write; [apply (fo_stg _ _ _ _ _ HF)|done|done|]. intros k. by apply (same_key_inode _ _ i).
  - split; [done| |done]. intros p o Hp Hnp Hnt. simpl. by rewrite lookup_insert_ne.
  - simpl. apply get_inode_insert.
  - split; [by rewrite E5; destruct N1 as (_ & _ & _ & _ & ->)| |by simpl; rewrite E4].
    unfold dir_at in *. simpl. destruct (an_dir a) as [ds|]; [|by rewrite E2]. rewrite E2, E3. destruct N2 as (ps & es & HW & Hf & Hx & HF2). exists ps, es.
    split_and!; [done|done|done|]. apply (Forall2_in _ _ _ _ HF2). intros e y Hin Hey.
    assert (e ≠ ip) by (intros ->; unfold get_dirent in Hey; by rewrite Hio in Hey). by rewrite get_dirent_insert_ne.
  - split; [|done]. apply (last_room n st W ips fs HF m a Ha).
  - apply (last_room n st W ips fs HF m a Ha).
Qed.

(** Changing what is special of it. *)
Lemma set_special_run f : inode_ok (oi_set_s f i) ->
  ∃ st', upd_inode ip (oi_set_s f) st = Some (tt, st') ∧ get_inode (s_obj st') ip = Some (oi_set_s f i) ∧ sframe st st' ∧
    fs_ok n st' W ips (set_nodes (<[m := ANode (an_attr a) (an_u a) (an_valid a) (f (an_s a)) (an_dir a) (an_last a)]> (af_nodes fs)) fs).
Proof using All.
  intros Hok. rewrite (upd_inode_run ip st i _ Hi). eexists. split; [done|]. split; [simpl; apply get_inode_insert|]. split; [done|].
  destruct (node_now n st W ips fs HF m ip a i Hip Ha Hi) as [_ [(<- & <- & <- & <- & _) _ _]]. by apply set_inode_ok.
Qed.
End Inode.

(** ** A new inode *)
Lemma fs_new_inode n st W ips fs p i a st' ps ps' : fs_ok n st W ips fs -> 1 <= n -> sb_inodes (s_sup st) ≠ 0 ->
  W !! sb_inodes (s_sup st) = Some (ps, ips) -> s_obj st !! p = None -> s_obj st' = <[p := OInode i]> (s_obj st) -> sframe st st' ->
  stg_ok st' (<[sb_inodes (s_sup st) := (ps', ips ++ [p])]> W) -> oi_ino i = Z.of_nat (length ips) + 1 -> oi_dir_entries i = 0 ->
  an_dir a = None -> an_last a = 0 -> oi_num_rm_ent i = 0 ->
  oi_attr i = an_attr a ∧ oi_u i = an_u a ∧ oi_att_valid_f i = an_valid a ∧ oi_s i = an_s a ∧ oi_last_dir_pos i = an_last a ->
  fs_ok (n - 1) st' (<[sb_inodes (s_sup st) := (ps', ips ++ [p])]> W) (ips ++ [p]) (set_nodes (af_nodes fs ++ [a]) fs).
Proof.
  intros HF Hn1 H0 HW Hp Hobj Hfr HS Hino Hdir Had Hal Hrm Hattr. pose proof HF as [H1 H2 H3 H4 H5 H6 H7 H8 H9 H10 H11 H12 H13].
  pose proof (fresh_free st W p H1 Hp) as Hfree. pose proof Hfr as [Hfu Hsup [Hr1 Hr2] _ _ _].
  assert (Hlk : s_funcs st !! sb_inodes (s_sup st) = Some KInodes). { destruct H6 as [[? _]|(? & _ & ?)]; [lia|done]. }
  assert (Hget : ∀ q o, s_obj st !! q = Some o -> s_obj st' !! q = Some o) by (intros q o Hq; rewrite Hobj, lookup_insert_ne; [done|congruence]).
  assert (Hother : ∀ q k es, list_at st W q k es -> k ≠ KInodes -> list_at st' (<[sb_inodes (s_sup st) := (ps', ips ++ [p])]> W) q k es).
  { intros q k es [?|(ps2 & HWq & Hfq)] Hk; [by left|right]. exists ps2. rewrite lookup_insert_ne by (intros <-; congruence). split; [done|by eapply lookup_weaken]. }
  assert (Hcase : ∀ m q, (ips ++ [p]) !! m = Some q -> ips !! m = Some q ∧ is_Some (af_nodes fs !! m) ∧ (af_nodes fs ++ [a]) !! m = af_nodes fs !! m ∨
    m = length ips ∧ q = p ∧ (af_nodes fs ++ [a]) !! m = Some a).
  { intros m q [Hq|[Hle Hq]]%lookup_app_Some.
    - left. pose proof (lookup_lt_Some _ _ _ Hq). rewrite lookup_app_l by lia. split_and!; [done|apply lookup_lt_is_Some_2; lia|done].
    - right. apply list_lookup_singleton_Some in Hq as [Hz <-]. split_and!; [lia|done|]. rewrite lookup_app_r by lia. by replace (m - length (af_nodes fs))%nat with O by lia. }
  split; rewrite ?Hsup, ?Hr1, ?Hr2; try done.
  - eapply own_set; [done|done| |].
    + apply list.NoDup_app. split_and!; [by eapply ow_nodup| |apply list.NoDup_singleton]. intros e He ->%list_elem_of_singleton. by eapply Hfree.
    + intros e [He| ->%list_elem_of_singleton]%elem_of_app; [by left|by right].
  - by eapply plenty_frame.
  - right. exists ps'. rewrite lookup_insert_eq. split; [done|by eapply lookup_weaken].
  - simpl. rewrite !length_app. simpl. lia.
  - simpl. intros m q b Hq Hb. destruct (Hcase m q Hq) as [(Hq1 & _ & E)|(-> & -> & E)]; rewrite E in Hb.
    + destruct (H8 m q b Hq1 Hb) as (j & Hj & Hjno & [N1 N2 N3]). exists j. split_and!; [apply get_inode_some, Hget; by apply get_inode_some|done|].
      split; [done| |done]. unfold dir_at in *. destruct (an_dir b) as [ds|]; [|done]. destruct N2 as (ps2 & es2 & HW2 & Hf2 & Hx2 & HF2). exists ps2, es2.
      rewrite lookup_insert_ne by (intros E2; congruence). split_and!; [done|by eapply lookup_weaken|done|].
      apply (Forall2_in _ _ _ _ HF2). intros e d _ Hd. apply get_dirent_some, Hget. by apply get_dirent_some.
    + injection Hb as <-. exists i. split_and!; [rewrite Hobj; apply get_inode_insert|lia|]. split; [done|unfold dir_at; by rewrite Had|].
      unfold entries. rewrite Had, Hal, Hrm. simpl. split; simpl; [constructor|constructor|constructor|lia|done].
  - intros m1 m2 q1 q2 i1 i2 Hq1 Hq2 Hi1 Hi2 Heq Hne.
    assert (Hold : ∀ m q j, (ips ++ [p]) !! m = Some q -> get_inode (s_obj st') q = Some j -> oi_dir_entries j ≠ 0 -> ips !! m = Some q ∧ get_inode (s_obj st) q = Some j).
    { intros m q j Hq Hj Hj0. destruct (Hcase m q Hq) as [(Hq' & [b Hb] & _)|(_ & -> & _)].
      - destruct (H8 m q b Hq' Hb) as (j2 & Hj2 & _). assert (get_inode (s_obj st') q = Some j2) by (apply get_inode_some, Hget; by apply get_inode_some).
        split; [done|congruence].
      - rewrite Hobj, get_inode_insert in Hj. congruence. }
    destruct (Hold m1 q1 i1 Hq1 Hi1 Hne) as [? ?], (Hold m2 q2 i2 Hq2 Hi2) as [? ?]; [congruence|]. by eapply (H9 m1 m2 q1 q2 i1 i2).
  - intros f. destruct (H10 f) as (es & Hes & HF2). exists es. split; [by apply Hother|].
    apply (Forall2_in _ _ _ _ HF2). intros e d _ Hd. apply get_map_some, Hget. by apply get_map_some.
  - simpl. rewrite length_app. simpl. destruct H13 as (? & ? & ? & ? & HFl). split_and!; try lia.
    apply Forall_app. split; [eapply Forall_impl; [|exact HFl]; simpl; lia|]. constructor; [|constructor]. lia.
Qed.

(** ** A new list in the super block *)
Lemma list_at_new st st1 W r q k es : W !! r = None -> sframe st st1 -> list_at st W q k es -> list_at st1 (<[r := ([], [])]> W) q k es.
Proof.
  intros Hr Hfr [?|(ps & HW & Hf)]; [by left|right]. exists ps. rewrite lookup_insert_ne by congruence. split; [done|]. eapply lookup_weaken; [done|apply Hfr].
Qed.

Section NewList.
Context (n : Z) (st : sst) (W : gmap Z (list Z * list Z)) (ips : list Z) (fs : afs) (HF : fs_ok n st W ips fs).
Context (r : Z) (k : lkind) (st1 : sst) (Hobj : s_obj st1 = s_obj st) (Hfr : sframe st st1) (HWr : W !! r = None) (Hr0 : r ≠ 0).
Context (Hf : s_funcs st1 !! r = Some k) (HS : stg_ok st1 (<[r := ([], [])]> W)).

Lemma fs_new_list b : sb_magic b = sb_magic (s_sup st) ->
  (sb_inodes b = sb_inodes (s_sup st) ∨ k = KInodes ∧ sb_inodes b = r ∧ sb_inodes (s_sup st) = 0) ->
  (∀ f, map_list_of f b = map_list_of f (s_sup st) ∨ k = KMaps ∧ map_list_of f b = r ∧ map_list_of f (s_sup st) = 0) ->
  (sb_base_to_ovl b = sb_base_to_ovl (s_sup st) ∨ sb_stg_to_ovl b = sb_stg_to_ovl (s_sup st)) ->
  fs_ok n (set_sup st1 b) (<[r := ([], [])]> W) ips fs.
Proof using All.
  intros Em Ei Ef Eb. pose proof HF as [H1 H2 H3 H4 H5 H6 H7 H8 H9 H10 H11 H12 H13]. pose proof Hfr as [Hfu Hsup [Hr1 Hr2] _ _ _].
  assert (Hnull : ∀ q ps es, W !! q = Some (ps, es) -> q ≠ 0) by (intros q ps es Hq; apply (wo_list _ _ (lo_world _ _ (so_lists _ _ H1)) _ _ _ Hq)).
  assert (Hnew : ∀ es, list_at st W 0 k es -> list_at st1 (<[r := ([], [])]> W) r k es).
  { intros es [[_ ->]|(ps & HW & _)]; [|by destruct (Hnull _ _ _ HW)]. right. exists []. by rewrite lookup_insert_eq. }
  assert (Hold : ∀ q kq es, list_at st W q kq es -> list_at st1 (<[r := ([], [])]> W) q kq es) by (intros; by eapply list_at_new).
  assert (Hr : ∀ f, map_list_of f (s_sup st) ≠ r).
  { intros f E. destruct (H10 f) as (es & [[E0 _]|(ps & HW & _)] & _); congruence. }
  split; simpl; rewrite ?Hobj, ?Hr1, ?Hr2; try done.
  - by apply stg_ok_sup.
  - by apply own_new.
  - by apply (plenty_frame st st1).
  - congruence.
  - destruct Ei as [->|(-> & -> & E0)]; [by apply (Hold _ _ ips)|]. rewrite E0 in H6. by apply (Hnew ips).
  - intros m ip a Hm Ha. destruct (H8 m ip a Hm Ha) as (i & Hi & Hino & [N1 N2 N3]). exists i. split_and!; [done|done|]. split; [done| |done].
    unfold dir_at in *. destruct (an_dir a) as [ds|]; [|done]. destruct N2 as (ps & es & HW & Hfd & Hx & HF2). exists ps, es. simpl. rewrite Hobj.
    rewrite lookup_insert_ne by congruence. split_and!; [done|by eapply lookup_weaken|done|done].
  - intros f. destruct (H10 f) as (es & Hes & HF2). exists es. split; [|done]. destruct (Ef f) as [->|(-> & -> & E0)]; [by apply (Hold _ _ es)|].
    rewrite E0 in Hes. by apply (Hnew es).
  - pose proof (Hr FsBase) as HrB. pose proof (Hr FsStg) as HrS. destruct (Ef FsBase) as [E1|(_ & E1 & _)], (Ef FsStg) as [E2|(_ & E2 & _)]; simpl in *; rewrite E1, E2; try done.
    destruct Eb; congruence.
Qed.
End NewList.

Lemma need_inode_run n st W ips fs : fs_ok n st W ips fs -> ∃ p st' W' ps, need_inode_list st = Some (p, st') ∧ s_obj st' = s_obj st ∧
  fs_ok n st' W' ips fs ∧ sb_inodes (s_sup st') = p ∧ p ≠ 0 ∧ W' !! p = Some (ps, ips) ∧ s_funcs st' !! p = Some KInodes.
Proof.
  intros HF. unfold need_inode_list, sup. unfold sbind at 1. destruct (Z.eqb_spec (sb_inodes (s_sup st)) 0) as [E|Hne].
  - destruct (create_kind_spec st W KInodes (fo_stg _ _ _ _ _ HF)) as (r & st1 & Hr & Hobj & Hfr & Hcase); [done|]. unfold create_inode_list. srun Hr.
    destruct Hcase as [(_ & Hno & _)|(Hr0 & HW & Hf & HS)]; [by apply plenty_memory in Hno; [|apply (fo_plenty _ _ _ _ _ HF)]|].
    rewrite (sbind_run _ _ st1 tt (set_sup st1 (sup_inodes r (s_sup st1)))) by done. rewrite (proj2 (Z.eqb_neq _ _) Hr0).
    destruct (mark_dirty_run (set_sup st1 (sup_inodes r (s_sup st1)))) as (b & Hb & Hsame). srun Hb. rewrite (sf_sup _ _ Hfr) in *.
    assert (HF1 : fs_ok n (set_sup st1 (sup_inodes r (s_sup st))) (<[r := ([], [])]> W) ips fs).
    { eapply fs_new_list; [exact HF|exact Hobj|exact Hfr|done|done|exact Hf|done|done|by right|by left; destruct f|by left]. }
    exists r, (set_sup (set_sup st1 (sup_inodes r (s_sup st))) b), (<[r := ([], [])]> W), []. split_and!; [done|done|by apply fs_ok_sup| |done| |done].
    + simpl. by destruct Hsame as (_ & -> & _).
    + rewrite lookup_insert_eq. destruct (fo_inodes _ _ _ _ _ HF) as [[_ ->]|(ps & HW0 & _)]; [done|]. rewrite E in HW0.
      by destruct (wo_list _ _ (lo_world _ _ (so_lists _ _ (fo_stg _ _ _ _ _ HF))) _ _ _ HW0).
  - destruct (fo_inodes _ _ _ _ _ HF) as [[? _]|(ps & HW & Hf)]; [done|]. by exists (sb_inodes (s_sup st)), st, W, ps.
Qed.

(** *** Making an inode *)
Definition name_opt_ok (name : option (list Z)) (len : Z) : Prop := match name with Some nm => name_ok nm len | None => True end.

Lemma list_length_run st W p ps es k : stg_ok st W -> W !! p = Some (ps, es) -> s_funcs st !! p = Some k ->
  ∃ st', list_length_of p st = Some (Z.of_nat (length es), st') ∧ s_obj st' = s_obj st ∧ sframe st st' ∧ stg_ok st' W ∧ ∀ q xs, by_pos st q xs -> by_pos st' q xs.
Proof.
  intros HS HW Hf. destruct (call_start st W p ps es k (so_lists _ _ HS) HW Hf) as (l & Hp0 & Hl & Hfree & Hlo & _).
  unfold list_length_of. rewrite (proj2 (Z.eqb_neq _ _) Hp0). exists (set_k st (klists st)).
  split; [|split_and!; [done|done| |]].
  - unfold lcall. rewrite (kbind_run _ _ _ _ _ (get_list_run p _ l Hl)). unfold kret, list_length.
    by rewrite (kl_number _ _ _ _ (li_ok _ _ _ _ _ _ Hlo)).
  - destruct HS as [HL Ha Hfu]. split; [by apply lists_ok_klists|done|done].
  - intros q xs (l1 & Hl1 & Hh). exists l1. split; [|done]. change (klists (set_k st (klists st))) with (rebind (s_obj st) (s_funcs st) (klists st)). by rewrite rebind_twice.
Qed.

Lemma set_ref_name_run n st W ips fs m ip a i name len : fs_ok n st W ips fs -> ips !! m = Some ip -> af_nodes fs !! m = Some a ->
  get_inode (s_obj st) ip = Some i -> name_opt_ok name len ->
  ∃ st', set_ref_name ip name len st = Some (tt, st') ∧ fs_ok n st' W ips (set_nodes (<[m := ANode (an_attr a) (an_u a) (an_valid a)
      (match name with Some _ => sp_set_name name len (an_s a) | None => an_s a end) (an_dir a) (an_last a)]> (af_nodes fs)) fs) ∧
    ∃ j, get_inode (s_obj st') ip = Some j ∧ oi_ino j = oi_ino i.
Proof.
  intros HF Hip Ha Hi Hn. unfold set_ref_name. destruct name as [nm|].
  - pose proof Hn as (_ & Hlen & _). rewrite (proj2 (Z.ltb_lt 0 len)) by lia. unfold dup_buffer. rewrite (proj2 (Z.ltb_lt 0 len)) by lia.
    destruct (MALLOC_spec st W (fo_stg _ _ _ _ _ HF)) as ([p|] & st1 & Hm & Ho & Hfr & HS & Hp); [|by destruct Hp; apply (fo_plenty _ _ _ _ _ HF)].
    rewrite (sbind_run _ _ st (Some nm) st1) by (by rewrite (sbind_run _ _ _ _ _ Hm); unfold sopt; rewrite (memcpy_name _ _ Hn)). cbv beta iota.
    pose proof (fs_ok_quiet n st W ips fs st1 HF Ho Hfr HS) as HF1. assert (Hi1 : get_inode (s_obj st1) ip = Some i) by by rewrite Ho.
    destruct (inode_addr n st W ips fs HF ip i Hi) as (_ & _ & Hok & _).
    destruct (set_special_run n st1 W ips fs HF1 m ip a i Hip Ha Hi1 (sp_set_name (Some nm) len) Hok) as (st' & Hr & Hj & _ & HF').
    exists st'. split_and!; [done|done|by eexists].
  - exists st. split; [done|]. split; [|by exists i]. replace (ANode _ _ _ _ _ _) with a by by destruct a. rewrite list_insert_id by done. by destruct fs.
Qed.

Lemma add_inode_run n st W ips fs : fs_ok n st W ips fs -> 1 <= n -> ∃ p st' W', ovlfs_add_inode None 0 st = Some (p, st') ∧ p ≠ 0 ∧
  fs_ok (n - 1) st' W' (ips ++ [p]) (set_nodes (af_nodes fs ++ [ANode (Attr 0 0 0 0 0 0 0 0 0 0 0 0) 0 false new_special None 0]) fs).
Proof.
  intros HF Hn1. unfold ovlfs_add_inode, sup. unfold sbind at 1. rewrite (fo_magic _ _ _ _ _ HF). change (negb _) with false. cbv iota.
  destruct (need_inode_run n st W ips fs HF) as (l & st1 & W1 & ps & Hl & Ho1 & HF1 & Hsup & Hl0 & HW1 & Hf1). srun Hl.
  rewrite (proj2 (Z.eqb_neq _ _) Hl0). destruct (alloc_run n st1 W1 ips fs HF1) as (p & st2 & Hp & Ho2 & Hfr2 & HF2 & Hpr & Hpn). srun Hp.
  assert (Hf2 : s_funcs st2 !! l = Some KInodes) by (eapply lookup_weaken; [done|apply Hfr2]).
  destruct (list_length_run st2 W1 l ps ips KInodes (fo_stg _ _ _ _ _ HF2) HW1 Hf2) as (st3 & Hlen & Ho3 & Hfr3 & HS3 & _). srun Hlen.
  set (i := new_inode (Z.of_nat (length ips) + 1)). set (st4 := set_objs st3 (<[p := OInode i]> (s_obj st3))).
  rewrite (sbind_run _ _ st3 tt st4) by done. cbv beta. rewrite (sbind_run (set_ref_name p None 0) _ st4 tt st4) by done. cbv beta.
  pose proof (fs_ok_quiet n st2 W1 ips fs st3 HF2 Ho3 Hfr3 HS3) as HF3. assert (Hp3 : s_obj st3 !! p = None) by (by rewrite Ho3, Ho2).
  assert (HS4 : stg_ok st4 W1). { apply stg_ok_fresh; [done|done|done|]. pose proof (sf_next _ _ Hfr3). lia. }
  assert (Hf4 : s_funcs st4 !! l = Some KInodes) by (eapply lookup_weaken; [exact Hf2|apply Hfr3]).
  destruct (call_insert_end st4 W1 l ps ips KInodes (so_lists _ _ HS4) HW1 Hf4 p) as (r & st5 & ps' & es' & Hr & Ho5 & Hfr5 & HL5 & Hcase); [done| | |].
  { exists i. simpl. apply get_inode_insert. }
  { destruct (fo_room _ _ _ _ _ HF) as (? & ? & _). rewrite (fo_len _ _ _ _ _ HF). lia. }
  destruct Hcase as [(_ & Hno & _)|(-> & q & [= -> ->])]; [by apply plenty_memory in Hno; [|apply (fo_plenty _ _ _ _ _ HF3)]|]. srun Hr.
  rewrite (proj2 (Z.eqb_neq p 0)) by lia. destruct (mark_dirty_run st5) as (b & Hb & Hsame). srun Hb.
  assert (El : sb_inodes (s_sup st3) = l) by (by rewrite (sf_sup _ _ Hfr3), (sf_sup _ _ Hfr2)).
  exists p, (set_sup st5 b), (<[sb_inodes (s_sup st3) := (ps ++ [q], ips ++ [p])]> W1). split; [done|]. split; [lia|]. apply fs_ok_sup; [|done].
  eapply (fs_new_inode n st3 W1 ips fs p i _ st5 ps); rewrite ?El; try done.
  - by transitivity st4.
  - by eapply stg_call.
Qed.
