(* ===== verification/StgMap.v ===== *)
(** Storage of the overlay file system: the mappings from the inodes of the other file
    systems. *)
From stdpp Require Import sorting.
From S2P Require Import Prelude KList KListSort KListInv KListOps KListIdx KListThm KListDup KListKeep Stg StgOrd StgInv StgList StgStep StgSpec StgView StgDir StgEnt StgNode.
Open Scope Z_scope.

Definition set_maps (f : other_fs) (ms : list ovlfs_ino_map_t) (fs : afs) : afs :=
  match f with FsBase => AFs (af_nodes fs) ms (af_stg fs) | FsStg => AFs (af_nodes fs) (af_base fs) ms end.

#[export] Instance other_fs_eq : EqDecision other_fs.
Proof. solve_decision. Defined.

Lemma af_maps_set f g ms fs : af_maps g (set_maps f ms fs) = if decide (g = f) then ms else af_maps g fs.
Proof. by destruct f, g. Qed.
Lemma af_nodes_set f ms fs : af_nodes (set_maps f ms fs) = af_nodes fs.
Proof. by destruct f. Qed.

Definition find_map (key : Z * Z) (ms : list ovlfs_ino_map_t) : option ovlfs_ino_map_t := List.find (λ m, bool_decide (map_key m = key)) ms.

Lemma find_map_none key ms : find_map key ms = None <-> Forall (λ m, map_key m ≠ key) ms.
Proof.
  unfold find_map. induction ms as [|x ms IH]; simpl; [by split|]. rewrite list.Forall_cons. case_bool_decide; [split; [done|by intros []]|].
  rewrite IH. by split; [|intros []].
Qed.
Lemma find_map_at key ms m j : NoDup (map_key <$> ms) -> ms !! j = Some m -> map_key m = key -> find_map key ms = Some m.
Proof.
  revert j. unfold find_map. induction ms as [|x ms IH]; intros [|j]; simpl; try done; rewrite list.NoDup_cons; intros [Hx Hnd].
  - intros [= ->] E. by rewrite bool_decide_eq_true_2.
  - intros Hj E. rewrite bool_decide_eq_false_2; [by eapply IH|]. intros Ex. apply Hx. rewrite Ex, <- E. apply list_elem_of_fmap_2. by eapply list_elem_of_lookup_2.
Qed.

Lemma cmp_with_map st e m k : map_ok k -> map_ok m -> get_map (s_obj st) e = Some m -> e ≠ TMP ->
  cmp_with (OMap k) (s_obj st) KMaps e = 0 <-> map_key m = map_key k.
Proof.
  intros Hk Hm He Hne. unfold cmp_with, callback, as_callback, get_map in *. rewrite lookup_insert_eq, lookup_insert_ne by done.
  destruct (s_obj st !! e) as [[| |]|]; try done. injection He as ->. unfold map_key.
  split; [intros [-> ->]%comp_ino_map_zero; done|intros [= E1 E2]; by apply comp_ino_map_zero].
Qed.

(** ** Changing one of the mapping lists *)
Section Maps.
Context (n : Z) (st : sst) (W : gmap Z (list Z * list Z)) (ips : list Z) (fs : afs) (HF : fs_ok n st W ips fs).
Context (f : other_fs).
Local Abbreviation L := (map_list_of f (s_sup st)).

(** The list, its elements and the mappings they are. *)
Lemma map_list ps es : W !! L = Some (ps, es) -> L ≠ 0 ∧ s_funcs st !! L = Some KMaps ∧ Forall2 (λ e m, get_map (s_obj st) e = Some m) es (af_maps f fs).
Proof using HF.
  intros HW. destruct (fo_maps _ _ _ _ _ HF f) as (es' & [[E _]|(ps' & HW' & Hf)] & HF2).
  - by destruct (wo_list _ _ (lo_world _ _ (so_lists _ _ (fo_stg _ _ _ _ _ HF))) _ _ _ HW).
  - rewrite HW in HW'. injection HW' as <- <-. split_and!; [|done|done].
    by destruct (wo_list _ _ (lo_world _ _ (so_lists _ _ (fo_stg _ _ _ _ _ HF))) _ _ _ HW).
Qed.

Lemma map_no_list : L = 0 -> af_maps f fs = [].
Proof using HF.
  intros E. destruct (fo_maps _ _ _ _ _ HF f) as (es & [[_ ->]|(ps & HW & _)] & HF2).
  - by apply Forall2_nil_inv_l in HF2.
  - rewrite E in HW. by destruct (wo_list _ _ (lo_world _ _ (so_lists _ _ (fo_stg _ _ _ _ _ HF))) _ _ _ HW).
Qed.

Lemma touch_map e : touch W L e -> ∃ m, s_obj st !! e = Some (OMap m).
Proof using HF.
  intros (ps & es & HW & He). destruct (map_list ps es HW) as (_ & _ & HF2). apply list_elem_of_lookup in He as [j Hj].
  destruct (Forall2_lookup_l _ _ _ _ _ HF2 Hj) as (m & _ & Hm). exists m. by apply get_map_some.
Qed.

Lemma fs_set_maps n' st' W' ps' es' ms' : L ≠ 0 -> s_funcs st !! L = Some KMaps -> sframe st st' -> stg_ok st' W' -> own W' ->
  (∀ p o, s_obj st !! p = Some o -> ¬ touch W L p -> s_obj st' !! p = Some o) -> (∀ q, q ≠ L -> W' !! q = W !! q) ->
  W' !! L = Some (ps', es') -> Forall2 (λ e m, get_map (s_obj st') e = Some m) es' ms' -> NoDup (map_key <$> ms') ->
  0 <= n' <= n -> Z.of_nat (length ms') + n' < 2 ^ 28 -> fs_ok n' st' W' ips (set_maps f ms' fs).
Proof using HF.
  intros H0 HfL Hfr HS Hown Hkeep Hlists HWL HF2 Hnd Hn Hlen. pose proof HF as [H1 H2 H3 H4 H5 H6 H7 H8 H9 H10 H11 H12 H13].
  pose proof Hfr as [Hfu Hsup [Hr1 Hr2] _ _ _].
  assert (Hin : ∀ p i, get_inode (s_obj st) p = Some i -> get_inode (s_obj st') p = Some i).
  { intros p i Hp%get_inode_some. apply get_inode_some, Hkeep; [done|]. intros [m Hm]%touch_map. congruence. }
  assert (Hne : ∀ q k, s_funcs st !! q = Some k -> k ≠ KMaps -> q ≠ L) by (intros q k Hq Hk ->; congruence).
  split; rewrite ?Hsup, ?Hr1, ?Hr2, ?af_nodes_set; try done.
  - by eapply plenty_frame.
  - destruct H6 as [?|(ps & HW & Hf)]; [by left|right]. exists ps. rewrite Hlists by (by eapply Hne). split; [done|by eapply lookup_weaken].
  - intros m ip a Hm Ha. destruct (H8 m ip a Hm Ha) as (i & Hi & Hino & [N1 N2 N3]). exists i. split_and!; [by apply Hin|done|]. split; [done| |done].
    unfold dir_at in *. destruct (an_dir a) as [ds|]; [|done]. destruct N2 as (ps & es & HW & Hfd & Hx & HFd). exists ps, es.
    rewrite Hlists by (by eapply Hne). split_and!; [done|by eapply lookup_weaken|done|].
    apply (Forall2_in _ _ _ _ HFd). intros e d _ Hd%get_dirent_some. apply get_dirent_some, Hkeep; [done|]. intros [m' Hm']%touch_map. congruence.
  - intros m1 m2 q1 q2 i1 i2 Hq1 Hq2 Hi1 Hi2.
    assert (Hback : ∀ m q i, ips !! m = Some q -> get_inode (s_obj st') q = Some i -> get_inode (s_obj st) q = Some i).
    { intros m q i Hq Hi. destruct (lookup_lt_is_Some_2 (af_nodes fs) m) as [b Hb]; [rewrite <- H7; by eapply lookup_lt_Some|].
      destruct (H8 m q b Hq Hb) as (j & Hj & _). pose proof (Hin _ _ Hj). congruence. }
    by apply (H9 m1 m2 q1 q2); eauto.
  - intros g. rewrite af_maps_set. destruct (decide (g = f)) as [->|Hg].
    + exists es'. split; [right; exists ps'; split; [done|by eapply lookup_weaken]|done].
    + destruct (H10 g) as (es & Hes & HFg). assert (HL : map_list_of g (s_sup st) = 0 ∨ map_list_of g (s_sup st) ≠ L).
      { destruct (decide (map_list_of g (s_sup st) = L)) as [E|]; [|by right]. left.  destruct f, g; simpl in *; try done; [rewrite E|]; apply H12; congruence. }
      assert (Hat : list_at st' W' (map_list_of g (s_sup st)) KMaps es ∧ ∀ e, e ∈ es -> ¬ touch W L e).
      { destruct Hes as [[E ->]|(ps & HW & Hf)].
        - split; [by left|]. by intros e ?%not_elem_of_nil.
        - assert (map_list_of g (s_sup st) ≠ L). { destruct HL as [E|]; [|done]. rewrite E. done. }
          split; [right; exists ps; rewrite Hlists by done; split; [done|by eapply lookup_weaken]|].
          intros e He (ps2 & es2 & HW2 & He2). by eapply H, (ow_apart _ H2). }
      exists es. split; [apply Hat|]. apply (Forall2_in _ _ _ _ HFg). intros e m He Hm%get_map_some. apply get_map_some, Hkeep; [done|by apply Hat].
  - intros g. rewrite af_maps_set. by destruct (decide (g = f)).
  - destruct H13 as (? & ? & ? & ? & HFl). split_and!; [lia|lia|destruct f; simpl; lia|destruct f; simpl; lia|]. eapply Forall_impl; [|exact HFl]. simpl. lia.
Qed.

(** The mapping [m] is at the address [r], and it is number [j] of its list. *)
Definition map_entry (j : nat) (r : Z) (m : ovlfs_ino_map_t) : Prop :=
  ∃ ps es, W !! L = Some (ps, es) ∧ es !! j = Some r ∧ af_maps f fs !! j = Some m.

Lemma map_entry_obj j r m : map_entry j r m -> s_obj st !! r = Some (OMap m) ∧ r ≠ 0 ∧ r ≠ TMP ∧ map_ok m ∧ touch W L r.
Proof using HF.
  intros (ps & es & HW & Hj & Hm). destruct (map_list ps es HW) as (_ & _ & HF2).
  assert (Ho : s_obj st !! r = Some (OMap m)) by (apply get_map_some; exact (Forall2_lookup_lr _ _ _ _ _ _ HF2 Hj Hm)).
  destruct (fo_stg _ _ _ _ _ HF) as [[Hk _ _] Had _]. pose proof (Had _ _ Ho). pose proof (Hk _ _ Ho).
  split_and!; [done|lia|unfold TMP; lia|done|]. exists ps, es. split; [done|by eapply list_elem_of_lookup_2].
Qed.

(** Looking for a mapping. *)
Lemma map_search_run dev ino o : L ≠ 0 -> map_ok (InoMap dev ino o) -> ∃ r st', with_tmp (OMap (InoMap dev ino o)) (lcall (search_for_element L TMP)) st = Some (r, st') ∧
  s_obj st' = s_obj st ∧ sframe st st' ∧ fs_ok n st' W ips fs ∧
  (r = 0 ∧ find_map (dev, ino) (af_maps f fs) = None ∨
   r ≠ 0 ∧ ∃ j m, map_entry j r m ∧ map_key m = (dev, ino) ∧ find_map (dev, ino) (af_maps f fs) = Some m).
Proof using HF.
  intros H0 Hok. destruct (fo_maps _ _ _ _ _ HF f) as (es & [[? _]|(ps & HW & Hf)] & HF2); [done|].
  destruct (tmp_search st W (OMap (InoMap dev ino o)) _ ps es KMaps (fo_stg _ _ _ _ _ HF) Hok HW Hf) as (r & st' & Hr & Hobj & Hfr & HS & Hcase); [done|].
  assert (Hmatch : ∀ j e m, es !! j = Some e -> af_maps f fs !! j = Some m -> cmp_with (OMap (InoMap dev ino o)) (s_obj st) KMaps e = 0 <-> map_key m = (dev, ino)).
  { intros j e m He Hm. assert (Hent : map_entry j e m) by (by exists ps, es). destruct (map_entry_obj j e m Hent) as (Ho & _ & Ht & Hmok & _).
    apply (cmp_with_map st e m (InoMap dev ino o)); [done|done|by apply get_map_some|done]. }
  exists r, st'. split_and!; [done|done|done|by eapply fs_ok_quiet|]. destruct Hcase as [[-> HFs]|[Hin Hc]].
  - left. split; [done|]. apply find_map_none. rewrite list.Forall_lookup in HFs. rewrite list.Forall_lookup. intros j m Hm Em.
    destruct (Forall2_lookup_r _ _ _ _ _ HF2 Hm) as (e & He & _). by apply (HFs j e He), (Hmatch j e m).
  - right. apply list_elem_of_lookup in Hin as [j Hj]. destruct (Forall2_lookup_l _ _ _ _ _ HF2 Hj) as (m & Hm & _).
    assert (Hent : map_entry j r m) by (by exists ps, es). assert (map_key m = (dev, ino)) by (by apply (Hmatch j r m)).
    split; [apply (map_entry_obj _ _ _ Hent)|]. exists j, m. split_and!; [done|done|]. eapply find_map_at; [apply (fo_keys _ _ _ _ _ HF)|done|done].
Qed.

Lemma map_at_run p s m : get_map (s_obj s) p = Some m -> map_at p s = Some (m, s).
Proof. unfold map_at, sopt. by intros ->. Qed.

(** Changing the inode a mapping stands for. *)
Lemma set_map_ok j r m o : map_entry j r m ->
  fs_ok n (set_objs st (<[r := OMap (InoMap (im_dev m) (im_ino m) o)]> (s_obj st))) W ips (set_maps f (<[j := InoMap (im_dev m) (im_ino m) o]> (af_maps f fs)) fs).
Proof using HF.
  intros He. destruct (map_entry_obj j r m He) as (Ho & _ & _ & Hok & Ht). destruct He as (ps & es & HW & Hj & Hm). destruct (map_list ps es HW) as (H0 & Hf & HF2).
  eapply fs_set_maps; [done|done|done| |apply (fo_own _ _ _ _ _ HF)| |done|exact HW| | | |].
  - eapply stg_ok_write; [apply (fo_stg _ _ _ _ _ HF)|done|done|]. intros k. destruct k; simpl; unfold get_inode, get_map, get_dirent; rewrite Ho, lookup_insert_eq.
    + by intros [].
    + intros _ x [= <-]. by eexists.
    + by intros [].
  - intros p x Hp Hnt. simpl. rewrite lookup_insert_ne; [done|]. by intros <-.
  - eapply Forall2_point; [exact HF2|by eapply (ow_nodup _ (fo_own _ _ _ _ _ HF))|done| |].
    + unfold get_map. simpl. by rewrite lookup_insert_eq.
    + intros e x Hne _ Hx. unfold get_map in *. simpl. by rewrite lookup_insert_ne.
  - rewrite list_fmap_insert, list_insert_id; [apply (fo_keys _ _ _ _ _ HF)|]. by rewrite list_lookup_fmap, Hm.
  - split; [|done]. by destruct (fo_room _ _ _ _ _ HF).
  - rewrite length_insert. destruct (fo_room _ _ _ _ _ HF) as (_ & _ & ? & ? & _). by destruct f.
Qed.
End Maps.

Lemma check_mapping_run n st W ips fs f dev ino o : fs_ok n st W ips fs -> map_ok (InoMap dev ino o) ->
  ∃ c st' fs', check_mapping (map_list_of f (s_sup st)) dev ino o st = Some (c, st') ∧ sframe st st' ∧ fs_ok n st' W ips fs' ∧
  match find_map (dev, ino) (af_maps f fs) with
  | None => c = 0 ∧ fs' = fs ∧ s_obj st' = s_obj st
  | Some m => c = 1 ∧ ∃ j, af_maps f fs !! j = Some m ∧ map_key m = (dev, ino) ∧ fs' = set_maps f (<[j := InoMap dev ino o]> (af_maps f fs)) fs
  end.
Proof.
  intros HF Hok. unfold check_mapping. destruct (Z.eqb_spec (map_list_of f (s_sup st)) 0) as [E|H0].
  { exists 0, st, fs. by rewrite (map_no_list n st W ips fs HF f E). }
  destruct (map_search_run n st W ips fs HF f dev ino o H0 Hok) as (r & st1 & Hr & Hobj & Hfr & HF1 & Hcase). srun Hr.
  destruct Hcase as [[-> ->]|(Hr0 & j & m & He & Hkey & ->)]; [by exists 0, st1, fs|].
  rewrite (proj2 (Z.eqb_neq _ _) Hr0). assert (Hg : get_map (s_obj st1) r = Some m).
  { rewrite Hobj. apply get_map_some, (map_entry_obj n st W ips fs HF f j r m He). }
  srun (map_at_run _ _ _ Hg). eexists 1, _, _. split; [done|]. split; [by transitivity st1|].
  assert (He1 : map_entry st1 W fs f j r m) by (unfold map_entry; by rewrite (sf_sup _ _ Hfr)).
  split; [exact (set_map_ok n st1 W ips fs HF1 f j r m o He1)|]. pose proof Hkey as Hk2. injection Hk2 as E1 E2. rewrite E1, E2. split; [done|]. exists j. split_and!; [|done|done]. by destruct He as (? & ? & _ & _ & ?).
Qed.

Lemma need_map_run n st W ips fs f : fs_ok n st W ips fs -> ∃ p st' W' ps es, need_map_list f st = Some (p, st') ∧ s_obj st' = s_obj st ∧
  km_next (ks_mem (s_k st)) <= km_next (ks_mem (s_k st')) ∧
  fs_ok n st' W' ips fs ∧ map_list_of f (s_sup st') = p ∧ p ≠ 0 ∧ W' !! p = Some (ps, es) ∧ s_funcs st' !! p = Some KMaps ∧ ∀ x, free_of W x -> free_of W' x.
Proof.
  intros HF. unfold need_map_list, sup. unfold sbind at 1. destruct (Z.eqb_spec (map_list_of f (s_sup st)) 0) as [E|Hne].
  - destruct (create_kind_spec st W KMaps (fo_stg _ _ _ _ _ HF)) as (r & st1 & Hr & Hobj & Hfr & Hcase); [done|]. unfold create_ino_map_list. srun Hr.
    destruct Hcase as [(_ & Hno & _)|(Hr0 & HW & Hf & HS)]; [by apply plenty_memory in Hno; [|apply (fo_plenty _ _ _ _ _ HF)]|].
    rewrite (sbind_run _ _ st1 tt (set_sup st1 (sup_map_list f r (s_sup st1)))) by done. pose proof (sf_next _ _ Hfr). rewrite (sf_sup _ _ Hfr).
    exists r, (set_sup st1 (sup_map_list f r (s_sup st))), (<[r := ([], [])]> W), [], []. split_and!; [done|done|done| |by destruct f|done|by rewrite lookup_insert_eq|done|].
    2: { intros x Hx q ps es [[<- [= <- <-]]|[_ Hq]]%lookup_insert_Some; [apply not_elem_of_nil|by eapply Hx]. }
    eapply fs_new_list; [exact HF|exact Hobj|exact Hfr|done|done|exact Hf|done|by destruct f|by left; destruct f| |by destruct f; [right|left]].
    intros g. destruct f, g; simpl in *; auto.
  - destruct (fo_maps _ _ _ _ _ HF f) as (es & [[? _]|(ps & HW & Hf)] & _); [done|]. by exists (map_list_of f (s_sup st)), st, W, ps, es.
Qed.

(** ** Adding a mapping *)
Definition map_view : list ovlfs_ino_map_t -> gmap (Z * Z) Z := view_of map_key im_ovl_ino.

Lemma fs_ok_less n n' st W ips fs : fs_ok n st W ips fs -> 0 <= n' <= n -> fs_ok n' st W ips fs.
Proof.
  intros [H1 H2 H3 H4 H5 H6 H7 H8 H9 H10 H11 H12 H13] Hn. split; try done. destruct H13 as (? & ? & ? & ? & HFl). split_and!; try lia.
  eapply Forall_impl; [|exact HFl]. simpl. lia.
Qed.

Definition special_node (s : ovlfs_inode_special_t) (a : anode) : anode := ANode (an_attr a) (an_u a) (an_valid a) s (an_dir a) (an_last a).

(** The part of stg1_inode_set_other that makes a new mapping. *)
Definition new_mapping (f : other_fs) (dev inum ovl : Z) : SM Z :=
  let@ r := MALLOC in
  match r with
  | None => sret (- ENOMEM)
  | Some mapping =>
      do@ put mapping (OMap (InoMap dev inum ovl)) in
      let@ l := need_map_list f in
      if l =? 0 then do@ FREE mapping in sret (- ENOMEM)
      else
        let@ e := lcall (insert_into_list_sorted l mapping) in
        if e =? 0 then do@ FREE mapping in sret (- ENOMEM)
        else do@ mark_dirty in sret 0
  end.

(** An object that no list holds yet. *)
Lemma fs_ok_fresh n st W ips fs p o : fs_ok n st W ips fs -> s_obj st !! p = None -> obj_ok o -> 0 < p < km_next (ks_mem (s_k st)) ->
  fs_ok n (set_objs st (<[p := o]> (s_obj st))) W ips fs.
Proof.
  intros HF Hp Hok Hr. pose proof HF as [H1 H2 H3 H4 H5 H6 H7 H8 H9 H10 H11 H12 H13].
  assert (Hget : ∀ q x, s_obj st !! q = Some x -> <[p := o]> (s_obj st) !! q = Some x) by (intros q x Hq; rewrite lookup_insert_ne; [done|congruence]).
  assert (Hin : ∀ q i, get_inode (s_obj st) q = Some i -> get_inode (<[p := o]> (s_obj st)) q = Some i).
  { intros q i Hq. apply get_inode_some, Hget. by apply get_inode_some. }
  split; simpl; try done.
  - by apply stg_ok_fresh.
  - intros m ip a Hm Ha. destruct (H8 m ip a Hm Ha) as (i & Hi & Hino & [N1 N2 N3]). exists i. split_and!; [by apply Hin|done|]. split; [done| |done].
    unfold dir_at in *. destruct (an_dir a) as [ds|]; [|done]. destruct N2 as (ps & es & HW & Hf & Hx & HF2). exists ps, es. split_and!; [done|done|done|].
    apply (Forall2_in _ _ _ _ HF2). intros e d _ Hd. apply get_dirent_some, Hget. by apply get_dirent_some.
  - intros m1 m2 q1 q2 i1 i2 Hq1 Hq2 Hi1 Hi2.
    assert (Hback : ∀ m q i, ips !! m = Some q -> get_inode (<[p := o]> (s_obj st)) q = Some i -> get_inode (s_obj st) q = Some i).
    { intros m q i Hq Hi. destruct (lookup_lt_is_Some_2 (af_nodes fs) m) as [b Hb]; [rewrite <- H7; by eapply lookup_lt_Some|].
      destruct (H8 m q b Hq Hb) as (j & Hj & _). pose proof (Hin _ _ Hj). congruence. }
    by apply (H9 m1 m2 q1 q2); eauto.
  - intros f. destruct (H10 f) as (es & Hes & HF2). exists es. split; [done|]. apply (Forall2_in _ _ _ _ HF2). intros e d _ Hd. apply get_map_some, Hget. by apply get_map_some.
Qed.

(** A mapping that no list holds yet goes into a list that is there. *)
Lemma map_insert_run n st W ips fs f l ps es x m : fs_ok n st W ips fs -> 1 <= n -> map_list_of f (s_sup st) = l -> l ≠ 0 -> W !! l = Some (ps, es) ->
  s_funcs st !! l = Some KMaps -> free_of W x -> get_map (s_obj st) x = Some m -> find_map (map_key m) (af_maps f fs) = None ->
  ∃ st' W', lcall (insert_into_list_sorted l x) st = Some (x, st') ∧ s_sup st' = s_sup st ∧ fs_ok (n - 1) st' W' ips (set_maps f (m :: af_maps f fs) fs) ∧
    ∃ ps' es', W' !! l = Some (ps', es') ∧ s_funcs st' !! l = Some KMaps.
Proof.
  intros HF Hn1 El Hl0 HW Hf Hx Hg Hnone.
  assert (HFm : Forall2 (λ e m, get_map (s_obj st) e = Some m) es (af_maps f fs)). { rewrite <- El in HW. apply (map_list n st W ips fs HF f ps es HW). }
  assert (Hlen : Z.of_nat (length (af_maps f fs)) + n < 2 ^ 28) by (destruct (fo_room _ _ _ _ _ HF) as (_ & _ & ? & ? & _); by destruct f).
  destruct (call_insert_sorted st W l ps es KMaps (so_lists _ _ (fo_stg _ _ _ _ _ HF)) HW Hf x) as (r & st1 & ps' & es' & Hr & Ho & Hfr & HL & Hcase);
    [done|by eexists|rewrite (Forall2_length HFm); lia|].
  destruct Hcase as [(_ & Hno & _)|(-> & q & [= -> ->])]; [by apply plenty_memory in Hno; [|apply (fo_plenty _ _ _ _ _ HF)]|].
  exists st1, (<[l := (q :: ps, x :: es)]> W). split; [done|]. split; [apply Hfr|]. split.
  - eapply (fs_set_maps n st W ips fs HF f); rewrite ?El; [done|done|done|exact (stg_call _ _ _ _ _ _ (fo_stg _ _ _ _ _ HF) Hr Ho Hfr HL)|
      by apply (own_cons W l ps); [apply (fo_own _ _ _ _ _ HF)|..]|by rewrite Ho| |apply lookup_insert_eq| | |lia|simpl; lia].
    + intros p Hp. by rewrite lookup_insert_ne.
    + constructor; [by rewrite Ho|]. by rewrite Ho.
    + simpl. apply list.NoDup_cons. split; [|apply (fo_keys _ _ _ _ _ HF)]. intros (y & Hy & Hin)%list_elem_of_fmap.
      apply find_map_none in Hnone. rewrite list.Forall_forall in Hnone. by apply (Hnone y Hin).
  - exists (q :: ps), (x :: es). split; [apply lookup_insert_eq|]. eapply lookup_weaken; [done|apply Hfr].
Qed.

Lemma new_mapping_run n st W ips fs f dev inum o : fs_ok n st W ips fs -> 1 <= n -> map_ok (InoMap dev inum o) -> find_map (dev, inum) (af_maps f fs) = None ->
  ∃ st' W', new_mapping f dev inum o st = Some (0, st') ∧ fs_ok (n - 1) st' W' ips (set_maps f (InoMap dev inum o :: af_maps f fs) fs).
Proof.
  intros HF Hn1 Hok Hnone. unfold new_mapping.
  destruct (MALLOC_spec st W (fo_stg _ _ _ _ _ HF)) as ([x|] & st1 & Hm & Ho1 & Hfr1 & HS1 & Hx); [|by destruct Hx; apply (fo_plenty _ _ _ _ _ HF)]. srun Hm.
  destruct Hx as [Hxr Hxn]. pose proof (fs_ok_quiet n st W ips fs st1 HF Ho1 Hfr1 HS1) as HF1.
  set (st2 := set_objs st1 (<[x := OMap (InoMap dev inum o)]> (s_obj st1))). rewrite (sbind_run _ _ st1 tt st2) by done. cbv beta.
  assert (HF2 : fs_ok n st2 W ips fs) by (apply fs_ok_fresh; [done|by rewrite Ho1|done|done]).
  destruct (need_map_run n st2 W ips fs f HF2) as (l & st3 & W3 & ps & es & Hl & Ho3 & Hnx & HF3 & El & Hl0 & HW3 & Hf3 & Hfree). srun Hl.
  rewrite (proj2 (Z.eqb_neq _ _) Hl0).
  destruct (map_insert_run n st3 W3 ips fs f l ps es x (InoMap dev inum o)) as (st4 & W4 & Hr & _ & HF4 & _); [done..| | |done|].
  { apply Hfree, (fresh_free st W); [apply (fo_stg _ _ _ _ _ HF)|done]. }
  { rewrite Ho3. unfold get_map. simpl. by rewrite lookup_insert_eq. }
  srun Hr. rewrite (proj2 (Z.eqb_neq x 0)) by lia. destruct (mark_dirty_run st4) as (b & Hb & Hsame). srun Hb.
  exists (set_sup st4 b), W4. split; [done|]. by apply fs_ok_sup.
Qed.
