(* ===== verification/StgThm.v ===== *)
(** Storage of the overlay file system: the storage operations implement the maps of
    [StgSpec], whatever the order they are called in. *)
From stdpp Require Import sorting.
From S2P Require Import Prelude KList KListSort KListInv KListOps KListIdx KListThm KListDup KListKeep Stg StgOrd StgInv StgList StgStep StgSpec StgView StgDir StgEnt StgNode StgMap.
Open Scope Z_scope.

(** ** The storage as its users see it *)
Definition dir_view : list ovlfs_dir_info_t -> dmap := view_of di_name (λ d, (di_ino d, di_flags d)).

Definition view_node (a : anode) : vnode := VNode (an_attr a) (an_u a) (an_valid a) (an_s a) (dir_view <$> an_dir a).
Definition view (fs : afs) : vfs := Vfs (view_node <$> af_nodes fs) (map_view (af_base fs)) (map_view (af_stg fs)).

(** The storage is in a state that stands for [v], with room for [n] more objects. *)
Definition represents (n : Z) (st : sst) (v : vfs) : Prop := ∃ W ips fs, fs_ok n st W ips fs ∧ view fs = v.

(** A run has the result [r], and the storage stands for [v] then. *)
Definition gives {A} (n : Z) (out : option (A * sst)) (r : A) (v : vfs) : Prop := ∃ st', out = Some (r, st') ∧ represents n st' v.

Lemma gives_bind {A B} n (f : SM A) (g : A -> SM B) st a st' r v : f st = Some (a, st') -> gives n (g a st') r v -> gives n (sbind f g st) r v.
Proof. intros H. unfold gives. by rewrite (sbind_run _ _ _ _ _ H). Qed.

Lemma gives_ret {A} n st W ips fs (r : A) v : fs_ok n st W ips fs -> view fs = v -> gives n (sret r st) r v.
Proof. intros HF Hv. exists st. split; [done|]. by exists W, ips, fs. Qed.

Lemma names_view a : names (view_node a) = dir_view (entries a).
Proof. unfold names, entries. simpl. by destruct (an_dir a). Qed.

Lemma at_num_view fs num : at_num (vf_nodes (view fs)) num = view_node <$> at_num (af_nodes fs) num.
Proof. unfold at_num. simpl. destruct (1 <=? num); [apply list_lookup_fmap|done]. Qed.

Lemma view_find_name a name : names (view_node a) !! name = (λ d, (di_ino d, di_flags d)) <$> find_name name (entries a).
Proof. rewrite names_view. apply view_find. Qed.

(** Changing a node. *)
Lemma view_set_node fs num a g b : at_num (af_nodes fs) num = Some a -> view_node b = g (view_node a) ->
  view (set_nodes (<[Z.to_nat (num - 1) := b]> (af_nodes fs)) fs) = vf_alter num g (view fs).
Proof.
  intros [Hnum Ha]%at_num_some Hb. unfold vf_alter. rewrite (proj2 (Z.leb_le 1 num)) by lia. unfold view, vf_set_nodes, set_nodes. simpl. f_equal.
  rewrite list_fmap_insert, Hb, list_insert_alter. apply list_alter_ext; [|done]. intros x Hx. rewrite list_lookup_fmap, Ha in Hx. by injection Hx as <-.
Qed.

Lemma view_same_nodes fs : view (set_nodes (af_nodes fs) fs) = view fs.
Proof. by destruct fs. Qed.

(** ** Finding the inode *)
Section Get.
Context (n : Z) (st : sst) (W : gmap Z (list Z * list Z)) (ips : list Z) (fs : afs) (HF : fs_ok n st W ips fs).

Lemma get_node num : 0 <= num < 2 ^ 32 -> ∃ ip st', ovlfs_get_ino num st = Some (ip, st') ∧ s_obj st' = s_obj st ∧ sframe st st' ∧ fs_ok n st' W ips fs ∧
  match at_num (af_nodes fs) num with
  | None => ip = 0
  | Some a => ip ≠ 0 ∧ ips !! Z.to_nat (num - 1) = Some ip ∧ af_nodes fs !! Z.to_nat (num - 1) = Some a ∧ ∃ i, get_inode (s_obj st') ip = Some i
  end.
Proof using HF.
  intros Hnum. destruct (get_ino_run n st W ips fs HF num Hnum) as (st' & Hr & Hobj & Hfr & HF'). exists (default 0 (at_num ips num)), st'.
  split_and!; [done|done|done|done|]. destruct (at_num (af_nodes fs) num) as [a|] eqn:Ea.
  - apply at_num_some in Ea as [Hr1 Ea]. destruct (node_at n st W ips fs HF _ a Ea) as (ip & i & Hip & Hi & _).
    unfold at_num. rewrite (proj2 (Z.leb_le 1 num)), Hip by lia. simpl. split_and!; [|done|done|exists i; by rewrite Hobj].
    apply (inode_addr n st W ips fs HF ip i Hi).
  - unfold at_num in *. destruct (1 <=? num); [|done]. apply lookup_ge_None in Ea. rewrite lookup_ge_None_2; [done|]. by rewrite (fo_len _ _ _ _ _ HF).
Qed.

(** An operation on the inode with a number. *)
Lemma on_dir_gives num (f : Z -> SM Z) m g : 0 <= num < 2 ^ 32 -> 0 <= m <= n ->
  (∀ st1 ip a i, s_obj st1 = s_obj st -> sframe st st1 -> fs_ok n st1 W ips fs -> at_num (af_nodes fs) num = Some a -> ip ≠ 0 -> ips !! Z.to_nat (num - 1) = Some ip ->
    af_nodes fs !! Z.to_nat (num - 1) = Some a -> get_inode (s_obj st1) ip = Some i ->
    gives m (f ip st1) (fst (fst (g (view_node a)))) (snd (g (view_node a)))) ->
  gives m (on_dir num f st) (fst (fst (on_node num (view fs) g))) (snd (on_node num (view fs) g)).
Proof using HF.
  intros Hnum Hm Hf. destruct (get_node num Hnum) as (ip & st1 & Hr & Hobj & Hfr & HF1 & Hcase). unfold on_dir. eapply gives_bind; [exact Hr|].
  unfold on_node. rewrite at_num_view. destruct (at_num (af_nodes fs) num) as [a|] eqn:Ea; simpl.
  - destruct Hcase as (H0 & Hip & Ha & i & Hi). rewrite (proj2 (Z.eqb_neq _ _) H0). by eapply Hf.
  - rewrite Hcase. simpl. eapply gives_ret; [|done]. by eapply fs_ok_less.
Qed.
End Get.

(** ** Changing the abstract state *)
Lemma vf_set_dir_twice num X Y v : vf_set_dir num X (vf_set_dir num Y v) = vf_set_dir num X v.
Proof.
  unfold vf_set_dir, vf_alter. destruct (1 <=? num); [|done]. unfold vf_set_nodes. simpl. f_equal. by rewrite list_alter_alter_eq.
Qed.

Lemma vf_set_dir_flag num k fl X Y v : vf_set_dir num X (vf_flag k fl (vf_set_dir num Y v)) = vf_set_dir num X (vf_flag k fl v).
Proof.
  unfold vf_set_dir, vf_flag, vf_alter. destruct (1 <=? num), (1 <=? k); try done; unfold vf_set_nodes; simpl; f_equal; [|by rewrite list_alter_alter_eq].
  destruct (decide (Z.to_nat (k - 1) = Z.to_nat (num - 1))) as [->|Hne]; [by rewrite !list_alter_alter_eq|].
  rewrite (list_alter_alter_ne _ _ _ (Z.to_nat (k - 1))) by done. by rewrite list_alter_alter_eq.
Qed.

Lemma vf_set_dir_id fs num a : at_num (af_nodes fs) num = Some a -> is_Some (an_dir a) -> vf_set_dir num (names (view_node a)) (view fs) = view fs.
Proof.
  intros Ha [ds Hds]. unfold vf_set_dir. rewrite <- (view_set_node fs num a (vn_set_dir (names (view_node a))) a Ha).
  - apply at_num_some in Ha as [_ Ha]. rewrite list_insert_id by done. apply view_same_nodes.
  - unfold names, view_node, vn_set_dir. simpl. by rewrite Hds.
Qed.

(** ** Flags *)
Lemma has_lor x : has (Z.lor x OVLFS_DIRENT_UNLINKED) OVLFS_DIRENT_UNLINKED = true.
Proof.
  unfold has. assert (Z.land (Z.lor x OVLFS_DIRENT_UNLINKED) OVLFS_DIRENT_UNLINKED = 1) as ->; [|done].
  rewrite Z.land_lor_distr_l. change (Z.land OVLFS_DIRENT_UNLINKED OVLFS_DIRENT_UNLINKED) with 1. unfold OVLFS_DIRENT_UNLINKED.
  apply Z.bits_inj'. intros k Hk. rewrite Z.lor_spec, Z.land_spec. by destruct (Z.testbit 1 k), (Z.testbit x k).
Qed.
Lemma has_cleared x : has (Z.lor (Z.land x (Z.lnot OVLFS_DIRENT_UNLINKED)) OVLFS_DIRENT_RELINKED) OVLFS_DIRENT_UNLINKED = false.
Proof.
  unfold has. rewrite Z.land_lor_distr_l, <- Z.land_assoc. change (Z.land (Z.lnot OVLFS_DIRENT_UNLINKED) OVLFS_DIRENT_UNLINKED) with 0. by rewrite Z.land_0_r.
Qed.

(** ** The operations on a directory *)
Section Op.
Context (n : Z) (st : sst) (W : gmap Z (list Z * list Z)) (ips : list Z) (fs : afs) (HF : fs_ok n st W ips fs).
Context (num ip : Z) (a : anode) (i : ovlfs_inode_t) (Hat : at_num (af_nodes fs) num = Some a).
Context (Hip : ips !! Z.to_nat (num - 1) = Some ip) (Ha : af_nodes fs !! Z.to_nat (num - 1) = Some a) (Hi : get_inode (s_obj st) ip = Some i).

Lemma view_put_dir ds last : view (put_dir fs (Z.to_nat (num - 1)) a ds last) = vf_set_dir num (dir_view ds) (view fs).
Proof using Hat. by apply (view_set_node fs num a). Qed.

Lemma dir_nodup : NoDup (di_name <$> entries a).
Proof using All. apply (node_entries n st W ips fs HF _ ip a i Hip Ha Hi). Qed.

(** The search the operations make, when there is a list. *)
Lemma find_search name len ds : an_dir a = Some ds ->
  ovlfs_ino_find_dirent ip name len st = with_tmp (name_key name len) (lcall (search_for_element (oi_dir_entries i) TMP)) st.
Proof using All.
  intros Hds. destruct (dir_list n st W ips fs HF _ ip a i Hip Ha Hi ds Hds) as (_ & _ & H0 & _). destruct (inode_addr n st W ips fs HF ip i Hi) as (_ & Hip0 & _).
  unfold ovlfs_ino_find_dirent. rewrite (proj2 (Z.eqb_neq _ _) Hip0), (sbind_run _ _ _ _ _ (inode_at_run _ _ _ Hi)). by rewrite (proj2 (Z.eqb_neq _ _) H0).
Qed.

Lemma lookup_gives name len : name_ok name len ->
  gives n ((let@ p := ovlfs_ino_find_dirent ip name len in
            if p =? 0 then sret (- ENOENT, None) else let@ d := dirent_at p in sret (0, Some (di_ino d, di_flags d))) st)
    (match names (view_node a) !! name with Some (x, y) => (0, Some (x, y)) | None => (- ENOENT, None) end) (view fs).
Proof using All.
  intros Hn. destruct (find_run n st W ips fs HF _ ip a i Hip Ha Hi name len Hn) as (r & st1 & Hr & Hobj & Hfr & HF1 & Hcase).
  eapply gives_bind; [exact Hr|]. rewrite view_find_name. destruct Hcase as [[-> ->]|(Hr0 & j & d & He & Hd & ->)]; simpl; [by eapply gives_ret|].
  rewrite (proj2 (Z.eqb_neq _ _) Hr0). destruct (entry_obj n st W ips fs HF _ ip a i Hip Ha Hi j r d He) as (Ho & _).
  eapply gives_bind; [apply dirent_at_run, get_dirent_some; by rewrite Hobj|]. by eapply gives_ret.
Qed.

(** An entry is changed and counted. *)
Lemma mark_run j r d d' by_ : entry_at W a i j r d -> di_name d' = di_name d -> di_len d' = di_len d -> di_pos d' = di_pos d ->
  by_ = b2z (unlinked d') - b2z (unlinked d) ->
  count_rm ip by_ (set_objs st (<[r := ODirent d']> (s_obj st))) = Some (tt, set_entry_st st ip i r d d') ∧
  fs_ok n (set_entry_st st ip i r d d') W ips (put_dir fs (Z.to_nat (num - 1)) a (<[j := d']> (entries a)) (an_last a)) ∧
  view (put_dir fs (Z.to_nat (num - 1)) a (<[j := d']> (entries a)) (an_last a)) =
    vf_set_dir num (<[di_name d := (di_ino d', di_flags d')]> (names (view_node a))) (view fs).
Proof using All.
  intros He E1 E2 E3 ->. destruct (entry_obj n st W ips fs HF _ ip a i Hip Ha Hi j r d He) as (_ & _ & _ & Hne & _). pose proof He as (ds & ps & es & Hds & HW & Hj & Hd).
  split; [|split].
  - unfold count_rm. rewrite (upd_inode_run ip _ i) by (simpl; by rewrite get_inode_insert_ne).
    unfold set_entry_st, marked. pose proof (rm_range n st W ips fs HF _ ip a i Hip Ha Hi ds Hds). rewrite swrap_id by (unfold in_s, b2z; repeat case_match; lia).
    by replace (oi_num_rm_ent i + (b2z (unlinked d') - b2z (unlinked d))) with (oi_num_rm_ent i - b2z (unlinked d) + b2z (unlinked d')) by lia.
  - by apply (set_entry_ok n st W ips fs HF _ ip a i Hip Ha Hi j r d d').
  - rewrite view_put_dir, names_view. f_equal. unfold dir_view. rewrite (entries_dir a ds Hds).
    rewrite (view_insert di_name (λ d, (di_ino d, di_flags d)) ds j d d'); [done| |done|done]. rewrite <- (entries_dir a ds Hds). apply dir_nodup.
Qed.
End Op.

Section Remove.
Context (n : Z) (st : sst) (W : gmap Z (list Z * list Z)) (ips : list Z) (fs : afs) (HF : fs_ok n st W ips fs).
Context (num ip : Z) (a : anode) (i : ovlfs_inode_t) (Hat : at_num (af_nodes fs) num = Some a).
Context (Hip : ips !! Z.to_nat (num - 1) = Some ip) (Ha : af_nodes fs !! Z.to_nat (num - 1) = Some a) (Hi : get_inode (s_obj st) ip = Some i).

Lemma unlink_gives name len : name_ok name len ->
  gives n (ovlfs_unlink_dirent ip (Some name) len st) (fst (fst (spec_unlink num name (view fs)))) (snd (spec_unlink num name (view fs))).
Proof using All.
  intros Hn. unfold spec_unlink, spec_remove, on_node. rewrite at_num_view, Hat. cbn [fmap option_fmap option_map]. unfold ovlfs_unlink_dirent.
  destruct (inode_addr n st W ips fs HF ip i Hi) as (_ & Hip0 & _). rewrite (proj2 (Z.eqb_neq _ _) Hip0).
  eapply gives_bind; [exact (inode_at_run _ _ _ Hi)|]. simpl. destruct (an_dir a) as [ds|] eqn:Hds; simpl.
  2: { rewrite (no_dir_list n st W ips fs HF _ ip a i Hip Ha Hi Hds). by eapply gives_ret. }
  destruct (find_run n st W ips fs HF _ ip a i Hip Ha Hi name len Hn) as (r & st1 & Hr & Hobj & Hfr & HF1 & Hcase).
  rewrite (find_search n st W ips fs HF num ip a i Hat Hip Ha Hi name len ds Hds) in Hr.
  destruct (dir_list n st W ips fs HF _ ip a i Hip Ha Hi ds Hds) as (_ & _ & H0 & _). rewrite (proj2 (Z.eqb_neq _ _) H0).
  eapply gives_bind; [exact Hr|]. pose proof (view_find_name a name) as Hv. unfold names in Hv. simpl in Hv. rewrite Hds, (entries_dir a ds Hds) in Hv. simpl in Hv.
  rewrite (entries_dir a ds Hds) in Hcase.
  destruct Hcase as [[-> Hnone]|(Hr0 & j & d & He & <- & Hsome)]; [rewrite Hnone in Hv; rewrite Hv; by eapply gives_ret|].
  destruct (entry_obj n st W ips fs HF _ ip a i Hip Ha Hi j r d He) as (Ho & _ & Hr1 & _). rewrite (proj2 (Z.eqb_neq _ _) Hr0), (proj2 (Z.eqb_neq _ _) Hr1). cbn [orb].
  assert (Hi1 : get_inode (s_obj st1) ip = Some i) by by rewrite Hobj.
  eapply gives_bind; [apply dirent_at_run, get_dirent_some; by rewrite Hobj|]. rewrite Hsome in Hv. rewrite Hv. simpl. unfold gone.
  destruct (has (di_flags d) OVLFS_DIRENT_UNLINKED) eqn:Eg; [by eapply gives_ret|]. simpl.
  set (d' := di_set_flags (Z.lor (di_flags d) OVLFS_DIRENT_UNLINKED) d).
  destruct (mark_run n st1 W ips fs HF1 num ip a i Hat Hip Ha Hi1 j r d d' 1 He) as (H1 & H2 & H3); [done..| |].
  { unfold unlinked. simpl. by rewrite has_lor, Eg. }
  eapply gives_bind; [done|]. eapply gives_bind; [exact H1|]. eapply gives_ret; [exact H2|]. rewrite H3. unfold names. simpl. by rewrite Hds.
Qed.

Lemma delete_gives name len : name_ok name len ->
  gives n (ovlfs_remove_dirent ip (Some name) len st) (fst (fst (spec_delete num name (view fs)))) (snd (spec_delete num name (view fs))).
Proof using All.
  intros Hn. unfold spec_delete, spec_remove, on_node. rewrite at_num_view, Hat. cbn [fmap option_fmap option_map].
  destruct (remove_run n st W ips fs HF _ ip a i Hip Ha Hi name len Hn) as (c & st' & W' & fs' & Hr & HF' & Hcase). unfold gives. rewrite Hr.
  exists st'. simpl. destruct (an_dir a) as [ds|] eqn:Hds; simpl; [|destruct Hcase as [-> ->]; split; [done|by exists W', ips, fs]].
  pose proof (view_find_name a name) as Hv. unfold names in Hv. simpl in Hv. rewrite Hds, (entries_dir a ds Hds) in Hv. simpl in Hv. rewrite Hv.
  destruct (find_name name ds) as [d|] eqn:Ef; simpl.
  - destruct Hcase as (-> & j & Hj & ->). split; [done|]. exists W', ips, (put_dir fs (Z.to_nat (num - 1)) a (delete j ds) (an_last a)). split; [done|].
    rewrite (view_put_dir fs num a Hat). f_equal. apply find_name_some in Ef as [_ <-]. apply view_delete; [|done].
    rewrite <- (entries_dir a ds Hds). apply (dir_nodup n st W ips fs HF num ip a i Hat Hip Ha Hi).
  - destruct Hcase as [-> ->]. split; [done|]. by exists W', ips, fs.
Qed.

Lemma num_gives inc_rm :
  gives n ((let@ i := inode_at ip in
            if oi_dir_entries i =? 0 then sret 0
            else let@ n := list_length_of (oi_dir_entries i) in sret (if inc_rm : bool then n else s32 (n - oi_num_rm_ent i))) st)
    (Z.of_nat (size (if inc_rm then names (view_node a) else filter (λ kv, gone (kv.2).2 = false) (names (view_node a))))) (view fs).
Proof using All.
  eapply gives_bind; [exact (inode_at_run _ _ _ Hi)|]. rewrite names_view. unfold entries. destruct (an_dir a) as [ds|] eqn:Hds.
  2: { rewrite (no_dir_list n st W ips fs HF _ ip a i Hip Ha Hi Hds). destruct inc_rm; by eapply gives_ret. }
  destruct (dir_list n st W ips fs HF _ ip a i Hip Ha Hi ds Hds) as (ps & es & H0 & HW & Hf & _ & HF2). rewrite (proj2 (Z.eqb_neq _ _) H0).
  destruct (list_length_run st W _ ps es KDirents (fo_stg _ _ _ _ _ HF) HW Hf) as (st1 & Hl & Hobj & Hfr & HS1 & _).
  eapply gives_bind; [exact Hl|]. pose proof (fs_ok_quiet n st W ips fs st1 HF Hobj Hfr HS1) as HF1. pose proof (Forall2_length HF2) as El.
  pose proof (node_entries n st W ips fs HF _ ip a i Hip Ha Hi) as [HN _ _ Hle ->]. rewrite (entries_dir a ds Hds) in *.
  pose proof (last_room n st W ips fs HF _ a Ha). simpl.
  assert (Hall : size (dir_view ds) = length ds).
  { by apply view_size_all. }
  assert (Hin : size (filter (λ kv, gone (kv.2).2 = false) (dir_view ds)) = length (List.filter (λ d, negb (unlinked d)) ds)).
  { apply view_size; [|done]. intros d. simpl. unfold gone, unlinked. by destruct (has _ _). }
  assert (Hsum : (length (List.filter (λ d, negb (unlinked d)) ds) + length (List.filter unlinked ds) = length ds)%nat).
  { pose proof (List.filter_length unlinked ds). lia. }
  destruct inc_rm; [rewrite Hall, El; by eapply gives_ret|]. rewrite Hin. unfold rm_count. rewrite swrap_id by (unfold in_s; lia).
  replace (Z.of_nat (length es) - _) with (Z.of_nat (length (List.filter (λ d, negb (unlinked d)) ds))) by lia. by eapply gives_ret.
Qed.
End Remove.

(** ** Adding an entry *)

Lemma alter_none {A} (g : A -> A) m (xs : list A) : xs !! m = None -> alter g m xs = xs.
Proof. intros Hm. etransitivity; [|by apply (list_alter_id id)]. apply list_alter_ext; [|done]. intros x Hx. congruence. Qed.

(** The flags of an inode are set, if there is one with the number. *)
Lemma flags_run n st W ips fs num fl : fs_ok n st W ips fs -> 0 <= num < 2 ^ 32 ->
  ∃ st' fs', set_ino_flags num fl st = Some (tt, st') ∧ fs_ok n st' W ips fs' ∧ view fs' = vf_flag num fl (view fs) ∧
    ∀ m a, af_nodes fs !! m = Some a -> ∃ a', af_nodes fs' !! m = Some a' ∧ an_dir a' = an_dir a ∧ an_last a' = an_last a.
Proof.
  intros HF Hnum. destruct (get_node n st W ips fs HF num Hnum) as (ip & st1 & Hr & Hobj & Hfr & HF1 & Hcase). unfold set_ino_flags. srun Hr.
  destruct (at_num (af_nodes fs) num) as [a|] eqn:Ea.
  - destruct Hcase as (Hip0 & Hip & Ha & i & Hi). rewrite (proj2 (Z.eqb_neq _ _) Hip0).
    destruct (inode_addr n st1 W ips fs HF1 ip i Hi) as (_ & _ & Hok & _).
    destruct (set_special_run n st1 W ips fs HF1 _ ip a i Hip Ha Hi (λ s, sp_set_flags (Z.lor (sp_flags s) fl) s) Hok) as (st2 & Hr2 & _ & _ & HF2).
    exists st2. eexists. split; [done|]. split; [exact HF2|]. split; [by apply (view_set_node fs num a)|].
    intros m b Hb. simpl. destruct (decide (m = Z.to_nat (num - 1))) as [->|Hne].
    + rewrite list_lookup_insert_eq by (by eapply lookup_lt_Some). eexists. split; [done|]. assert (b = a) as -> by congruence. done.
    + rewrite list_lookup_insert_ne by done. by exists b.
  - rewrite Hcase. exists st1, fs. split; [done|]. split; [done|]. split; [|intros m b Hb; by exists b].
    unfold vf_flag, vf_alter. unfold at_num in Ea. destruct (1 <=? num); [|done]. unfold view, vf_set_nodes. simpl. f_equal.
    symmetry. apply alter_none. by rewrite list_lookup_fmap, Ea.
Qed.

Section Add.
Context (n : Z) (st : sst) (W : gmap Z (list Z * list Z)) (ips : list Z) (fs : afs) (HF : fs_ok n st W ips fs).
Context (num ip : Z) (a : anode) (i : ovlfs_inode_t) (Hat : at_num (af_nodes fs) num = Some a).
Context (Hip : ips !! Z.to_nat (num - 1) = Some ip) (Ha : af_nodes fs !! Z.to_nat (num - 1) = Some a) (Hi : get_inode (s_obj st) ip = Some i).

Lemma ensure_run : ∃ st1 W1 fs1 a1 i1, (if oi_dir_entries i =? 0 then
      let@ (l, id) := create_dirent_list in upd_inode ip (λ i, oi_set_dir l (default (oi_pos_index i) id) i) else sret tt) st = Some (tt, st1) ∧
  fs_ok n st1 W1 ips fs1 ∧ af_nodes fs1 !! Z.to_nat (num - 1) = Some a1 ∧ get_inode (s_obj st1) ip = Some i1 ∧
  an_dir a1 = Some (entries a) ∧ view fs1 = vf_set_dir num (names (view_node a)) (view fs).
Proof using All.
  destruct (an_dir a) as [ds|] eqn:Hds.
  - destruct (dir_list n st W ips fs HF _ ip a i Hip Ha Hi ds Hds) as (_ & _ & H0 & _). rewrite (proj2 (Z.eqb_neq _ _) H0). exists st, W, fs, a, i.
    split_and!; [done|done|done|done|by rewrite (entries_dir a ds Hds)|]. symmetry. apply vf_set_dir_id; [done|by exists ds].
  - rewrite (no_dir_list n st W ips fs HF _ ip a i Hip Ha Hi Hds).
    destruct (create_run n st W ips fs HF _ ip a i Hip Ha Hi Hds) as (st1 & W1 & Hr & Hfr & HF1). change (0 =? 0) with true. cbv iota. rewrite Hr.
    assert (Ha1 : af_nodes (put_dir fs (Z.to_nat (num - 1)) a [] (an_last a)) !! Z.to_nat (num - 1) = Some (set_dir (Some []) (an_last a) a)).
    { simpl. rewrite list_lookup_insert_eq; [done|]. by eapply lookup_lt_Some. }
    destruct (node_at n st1 W1 ips _ HF1 _ _ Ha1) as (ip1 & i1 & Hip1 & Hi1 & _). assert (ip1 = ip) as -> by congruence.
    exists st1, W1, (put_dir fs (Z.to_nat (num - 1)) a [] (an_last a)), (set_dir (Some []) (an_last a) a), i1.
    split_and!; [done|done|done|done|unfold entries; by rewrite Hds|]. rewrite (view_put_dir fs num a Hat), names_view. unfold entries. by rewrite Hds.
Qed.

(** A new entry in a directory that has a list. *)
Lemma new_gives name len inum fl ds : name_ok name len -> an_dir a = Some ds -> find_name name ds = None -> 1 <= n ->
  gives (n - 1) (new_dirent ip name len inum fl st) 0 (vf_set_dir num (<[name := (inum, fl)]> (names (view_node a))) (view fs)).
Proof using All.
  intros Hn Hds Hnone Hn1. destruct (new_run n st W ips fs HF _ ip a i Hip Ha Hi name len inum fl ds Hn Hds Hnone Hn1) as (st' & W' & Hr & _ & HF').
  exists st'. split; [done|]. eexists W', ips, _. split; [exact HF'|]. rewrite (view_put_dir fs num a Hat), names_view, (entries_dir a ds Hds). done.
Qed.
End Add.

Lemma add_gives n st W ips fs num ip a i name len inum : fs_ok n st W ips fs -> at_num (af_nodes fs) num = Some a -> ips !! Z.to_nat (num - 1) = Some ip ->
  af_nodes fs !! Z.to_nat (num - 1) = Some a -> get_inode (s_obj st) ip = Some i -> name_ok name len -> (find_name name (entries a) = None ∨ 0 <= inum < 2 ^ 32) -> 1 <= n ->
  gives (n - 1) (ovlfs_ino_add_dirent ip (Some name) len inum OVLFS_DIRENT_NORMAL st) (fst (fst (spec_add num name inum (view fs)))) (snd (spec_add num name inum (view fs))).
Proof.
  intros HF Hat Hip Ha Hi Hn Hinum Hn1. unfold spec_add, on_node. rewrite at_num_view, Hat. cbn [fmap option_fmap option_map]. unfold ovlfs_ino_add_dirent.
  destruct (inode_addr n st W ips fs HF ip i Hi) as (_ & Hip0 & _). rewrite (proj2 (Z.eqb_neq _ _) Hip0).
  eapply gives_bind; [exact (inode_at_run _ _ _ Hi)|].
  destruct (ensure_run n st W ips fs HF num ip a i Hat Hip Ha Hi) as (st1 & W1 & fs1 & a1 & i1 & Hr1 & HF1 & Ha1 & Hi1 & Hd1 & Hv1).
  eapply gives_bind; [exact Hr1|]. destruct (find_run n st1 W1 ips fs1 HF1 _ ip a1 i1 Hip Ha1 Hi1 name len Hn) as (r & st2 & Hr2 & Hobj2 & Hfr2 & HF2 & Hcase).
  eapply gives_bind; [exact Hr2|]. assert (Hi2 : get_inode (s_obj st2) ip = Some i1) by by rewrite Hobj2.
  assert (Hat1 : at_num (af_nodes fs1) num = Some a1) by (by apply at_num_some in Hat as [Hr _]; unfold at_num; rewrite (proj2 (Z.leb_le 1 num)) by lia).
  rewrite view_find_name. rewrite (entries_dir a1 _ Hd1) in Hcase. assert (Hnm : names (view_node a1) = names (view_node a)) by (rewrite !names_view; by rewrite (entries_dir a1 _ Hd1)).
  destruct Hcase as [[-> Hnone]|(Hr0 & j & d & He & Hdn & Hsome)].
  - rewrite Hnone. simpl.
    pose proof (new_gives n st2 W1 ips fs1 HF2 num ip a1 i1 Hat1 Hip Ha1 Hi2 name len inum OVLFS_DIRENT_NORMAL _ Hn Hd1 Hnone Hn1) as HG.
    by rewrite Hnm, Hv1, vf_set_dir_twice in HG.
  - rewrite Hsome. rewrite (proj2 (Z.eqb_neq _ _) Hr0). destruct (entry_obj n st1 W1 ips fs1 HF1 _ ip a1 i1 Hip Ha1 Hi1 j r d He) as (Ho & _). simpl.
    eapply gives_bind; [apply dirent_at_run, get_dirent_some; by rewrite Hobj2|]. unfold gone. destruct (has (di_flags d) OVLFS_DIRENT_UNLINKED) eqn:Eg.
    + destruct Hinum as [Hx|Hinum]; [congruence|].
      destruct (remove_run n st2 W1 ips fs1 HF2 _ ip a1 i1 Hip Ha1 Hi2 name len Hn) as (c & st3 & W3 & fs3 & Hr3 & HF3 & Hc3). rewrite Hd1, Hsome in Hc3.
      destruct Hc3 as (-> & jj & Hjj & ->). eapply gives_bind; [exact Hr3|]. change (0 <? 0) with false. cbv iota.
      set (fs3 := put_dir fs1 (Z.to_nat (num - 1)) a1 (delete jj (entries a)) (an_last a1)) in *.
      destruct (flags_run n st3 W3 ips fs3 inum OVL_IFLAG__NO_BASE_REF HF3 Hinum) as (st4 & fs4 & Hr4 & HF4 & Hv4 & Hn4). eapply gives_bind; [exact Hr4|].
      assert (Ha3 : af_nodes fs3 !! Z.to_nat (num - 1) = Some (set_dir (Some (delete jj (entries a))) (an_last a1) a1)).
      { simpl. rewrite list_lookup_insert_eq; [done|]. by eapply lookup_lt_Some. }
      destruct (Hn4 _ _ Ha3) as (a4 & Ha4 & Hd4 & _). simpl in Hd4. destruct (node_at n st4 W3 ips fs4 HF4 _ _ Ha4) as (ip4 & i4 & Hip4 & Hi4 & _). assert (ip4 = ip) as -> by congruence.
      assert (Hat4 : at_num (af_nodes fs4) num = Some a4) by (by apply at_num_some in Hat as [Hr _]; unfold at_num; rewrite (proj2 (Z.leb_le 1 num)) by lia).
      assert (Hnd : NoDup (di_name <$> entries a)).
      { pose proof (dir_nodup n st1 W1 ips fs1 HF1 num ip a1 i1 Hat1 Hip Ha1 Hi1) as Hx. by rewrite (entries_dir a1 _ Hd1) in Hx. }
      assert (Hnone : find_name name (delete jj (entries a)) = None).
      { apply find_name_none. by eapply nodup_rest. }
      pose proof (new_gives n st4 W3 ips fs4 HF4 num ip a4 i4 Hat4 Hip Ha4 Hi4 name len inum (Z.lor OVLFS_DIRENT_NORMAL OVLFS_DIRENT_RELINKED) _ Hn Hd4 Hnone Hn1) as HG.
      rewrite Hv4 in HG. unfold fs3 in HG. rewrite (view_put_dir fs1 num a1 Hat1), Hv1, vf_set_dir_twice, vf_set_dir_flag in HG.
      replace (names (view_node a4)) with (delete name (names (view_node a))) in HG; [by rewrite insert_delete_eq in HG|].
      rewrite !names_view, (entries_dir a4 _ Hd4). rewrite <- Hdn. symmetry. by apply view_delete.
    + eapply gives_ret; [by eapply (fs_ok_less n); [|lia]|]. rewrite Hv1. apply vf_set_dir_id; [done|]. destruct (an_dir a) eqn:E; [by eexists|].
      unfold entries in Hsome. by rewrite E in Hsome.
Qed.

(** ** Renaming *)
Section Change.
Context (n : Z) (st : sst) (W : gmap Z (list Z * list Z)) (ips : list Z) (fs : afs) (HF : fs_ok n st W ips fs).
Context (num ip : Z) (a : anode) (i : ovlfs_inode_t) (Hat : at_num (af_nodes fs) num = Some a).
Context (Hip : ips !! Z.to_nat (num - 1) = Some ip) (Ha : af_nodes fs !! Z.to_nat (num - 1) = Some a) (Hi : get_inode (s_obj st) ip = Some i).


(** An entry is changed, and still counted as before. *)
Lemma change_run j r d d' : entry_at W a i j r d -> di_name d' = di_name d -> di_len d' = di_len d -> di_pos d' = di_pos d -> unlinked d' = unlinked d ->
  fs_ok n (set_objs st (<[r := ODirent d']> (s_obj st))) W ips (put_dir fs (Z.to_nat (num - 1)) a (<[j := d']> (entries a)) (an_last a)).
Proof using All.
  intros He E1 E2 E3 E4. destruct (mark_run n st W ips fs HF num ip a i Hat Hip Ha Hi j r d d' 0 He E1 E2 E3) as (_ & H & _); [rewrite E4; lia|].
  destruct (entry_obj n st W ips fs HF _ ip a i Hip Ha Hi j r d He) as (_ & _ & _ & Hne & _). destruct (inode_addr n st W ips fs HF ip i Hi) as (Hio & _).
  unfold set_entry_st, marked in H. rewrite E4 in H. replace (oi_num_rm_ent i - b2z (unlinked d) + b2z (unlinked d)) with (oi_num_rm_ent i) in H by lia.
  rewrite (inode_rm_id i), insert_id in H; [done|]. by rewrite lookup_insert_ne.
Qed.

(** An entry has one address. *)
Lemma entry_addr j1 r1 j2 r2 d : entry_at W a i j1 r1 d -> entry_at W a i j2 r2 d -> r1 = r2.
Proof using All.
  intros (ds & ps & es & Hds & HW & Hj & Hd) (ds2 & ps2 & es2 & Hds2 & HW2 & Hj2 & Hd2). rewrite Hds in Hds2. injection Hds2 as <-.
  rewrite HW in HW2. injection HW2 as <- <-. pose proof (dir_nodup n st W ips fs HF num ip a i Hat Hip Ha Hi) as Hnd. rewrite (entries_dir a ds Hds) in Hnd.
  assert (j1 = j2); [|congruence]. apply (NoDup_lookup _ _ _ (di_name d) Hnd); rewrite list_lookup_fmap; [by rewrite Hd|by rewrite Hd2].
Qed.

(** The directory after an entry was changed: the other entries are where they were. *)
Lemma changed_entry j r d d' j2 r2 d2 : entry_at W a i j r d -> entry_at W a i j2 r2 d2 -> j2 ≠ j ->
  entry_at W (set_dir (Some (<[j := d']> (entries a))) (an_last a) a) (marked i d d') j2 r2 d2.
Proof.
  intros (ds & ps & es & Hds & HW & Hj & Hd) (ds2 & ps2 & es2 & Hds2 & HW2 & Hj2 & Hd2) Hne. rewrite Hds in Hds2. injection Hds2 as <-.
  rewrite HW in HW2. injection HW2 as <- <-. exists (<[j := d']> ds), ps, es. simpl. rewrite (entries_dir a ds Hds).
  split_and!; [done|done|done|]. by rewrite list_lookup_insert_ne.
Qed.
Lemma same_entry j r d d' : entry_at W a i j r d -> entry_at W (set_dir (Some (<[j := d']> (entries a))) (an_last a) a) (marked i d d') j r d'.
Proof.
  intros (ds & ps & es & Hds & HW & Hj & Hd). exists (<[j := d']> ds), ps, es. simpl. rewrite (entries_dir a ds Hds). split_and!; [done|done|done|].
  rewrite list_lookup_insert_eq; [done|]. by eapply lookup_lt_Some.
Qed.

Lemma put_dir_at ds last : at_num (af_nodes (put_dir fs (Z.to_nat (num - 1)) a ds last)) num = Some (set_dir (Some ds) last a) ∧
  af_nodes (put_dir fs (Z.to_nat (num - 1)) a ds last) !! Z.to_nat (num - 1) = Some (set_dir (Some ds) last a).
Proof using Hat Ha.
  apply at_num_some in Hat as [Hr _]. unfold at_num. rewrite (proj2 (Z.leb_le 1 num)) by lia. simpl.
  rewrite list_lookup_insert_eq; [done|]. by eapply lookup_lt_Some.
Qed.

Lemma put_dir_view ds last : names (view_node (set_dir (Some ds) last a)) = dir_view ds.
Proof. done. Qed.
End Change.

Definition relinked (fl : Z) : Z := if gone fl then Z.lor (Z.land fl (Z.lnot OVLFS_DIRENT_UNLINKED)) OVLFS_DIRENT_RELINKED else fl.

(** The entry of the new name stands for the inode. *)
Section TakeOver.
Context (n : Z) (st : sst) (W : gmap Z (list Z * list Z)) (ips : list Z) (fs : afs) (HF : fs_ok n st W ips fs).
Context (num ip : Z) (a : anode) (i : ovlfs_inode_t) (Hat : at_num (af_nodes fs) num = Some a).
Context (Hip : ips !! Z.to_nat (num - 1) = Some ip) (Ha : af_nodes fs !! Z.to_nat (num - 1) = Some a) (Hi : get_inode (s_obj st) ip = Some i).


Lemma set_ino_gives j r d ino : entry_at W a i j r d ->
  gives n ((do@ upd_dirent r (di_set_ino ino) in sret 0) st) 0 (vf_set_dir num (<[di_name d := (ino, di_flags d)]> (names (view_node a))) (view fs)).
Proof using All.
  intros He. destruct (entry_obj n st W ips fs HF _ ip a i Hip Ha Hi j r d He) as (Ho & _).
  eapply gives_bind; [apply (upd_dirent_run r st d); by apply get_dirent_some|].
  eapply gives_ret; [exact (change_run n st W ips fs HF num ip a i Hat Hip Ha Hi j r d (di_set_ino ino d) He eq_refl eq_refl eq_refl eq_refl)|].
  by destruct (mark_run n st W ips fs HF num ip a i Hat Hip Ha Hi j r d (di_set_ino ino d) 0 He) as (_ & _ & ->); [| | |unfold unlinked; simpl; lia|].
Qed.
End TakeOver.

Lemma take_over n st W ips fs num ip a i j r d ino : fs_ok n st W ips fs -> at_num (af_nodes fs) num = Some a -> ips !! Z.to_nat (num - 1) = Some ip ->
  af_nodes fs !! Z.to_nat (num - 1) = Some a -> get_inode (s_obj st) ip = Some i -> entry_at W a i j r d ->
  gives n ((do@ (if has (di_flags d) OVLFS_DIRENT_UNLINKED then
                   do@ upd_dirent r (λ n, di_set_flags (Z.lor (Z.land (di_flags n) (Z.lnot OVLFS_DIRENT_UNLINKED)) OVLFS_DIRENT_RELINKED) n) in
                   count_rm ip (-1)
                 else sret tt) in
            do@ upd_dirent r (di_set_ino ino) in
            sret 0) st) 0 (vf_set_dir num (<[di_name d := (ino, relinked (di_flags d))]> (names (view_node a))) (view fs)).
Proof.
  intros HF Hat Hip Ha Hi He. unfold relinked, gone. destruct (has (di_flags d) OVLFS_DIRENT_UNLINKED) eqn:Eg.
  - set (d' := di_set_flags (Z.lor (Z.land (di_flags d) (Z.lnot OVLFS_DIRENT_UNLINKED)) OVLFS_DIRENT_RELINKED) d).
    destruct (entry_obj n st W ips fs HF _ ip a i Hip Ha Hi j r d He) as (Ho & _).
    destruct (mark_run n st W ips fs HF num ip a i Hat Hip Ha Hi j r d d' (-1) He) as (H1 & H2 & H3); [done..| |].
    { unfold unlinked. simpl. by rewrite has_cleared, Eg. }
    eapply gives_bind; [rewrite (sbind_run _ _ _ _ _ (upd_dirent_run r st d _ (proj2 (get_dirent_some _ _ _) Ho))); exact H1|].
    destruct (put_dir_at fs num a Hat Ha (<[j := d']> (entries a)) (an_last a)) as [Hat1 Ha1].
    pose proof (set_ino_gives n _ W ips _ H2 num ip _ (marked i d d') Hat1 Hip Ha1 (get_inode_insert _ _ _) j r d' ino (same_entry W a i j r d d' He)) as HG.
    rewrite H3, vf_set_dir_twice in HG. revert HG. rewrite put_dir_view. unfold dir_view. destruct He as (ds & ps & es & Hds & HW & Hj & Hd).
    rewrite (view_insert di_name _ (entries a) j d d'), insert_insert_eq; [|apply (dir_nodup n st W ips fs HF num ip a i Hat Hip Ha Hi)|by rewrite (entries_dir a ds Hds)|done].
    by rewrite names_view.
  - eapply gives_bind; [done|]. by eapply (set_ino_gives n st W ips fs HF num ip a i Hat Hip Ha Hi j r d).
Qed.

Lemma rename_gives n st W ips fs num ip a i oname olen nname nlen : fs_ok n st W ips fs -> at_num (af_nodes fs) num = Some a -> ips !! Z.to_nat (num - 1) = Some ip ->
  af_nodes fs !! Z.to_nat (num - 1) = Some a -> get_inode (s_obj st) ip = Some i -> name_ok oname olen -> name_ok nname nlen -> 1 <= n ->
  gives (n - 1) (rename_in ip oname olen nname nlen st) (fst (fst (spec_rename num oname nname (view fs)))) (snd (spec_rename num oname nname (view fs))).
Proof.
  intros HF Hat Hip Ha Hi Ho Hn Hn1. unfold spec_rename, on_node. rewrite at_num_view, Hat. cbn [fmap option_fmap option_map]. unfold rename_in.
  destruct (find_run n st W ips fs HF _ ip a i Hip Ha Hi oname olen Ho) as (r1 & st1 & Hr1 & Ho1 & Hfr1 & HF1 & Hc1). eapply gives_bind; [exact Hr1|].
  assert (Hless : fs_ok (n - 1) st1 W ips fs) by (by eapply (fs_ok_less n); [|lia]).
  rewrite view_find_name. destruct Hc1 as [[-> ->]|(Hr10 & j1 & d1 & He1 & Hd1 & Hs1)]; [simpl; by eapply gives_ret|]. rewrite Hs1, (proj2 (Z.eqb_neq _ _) Hr10).
  assert (Hi1 : get_inode (s_obj st1) ip = Some i) by by rewrite Ho1.
  destruct (entry_obj n st W ips fs HF _ ip a i Hip Ha Hi j1 r1 d1 He1) as (Hobj1 & _).
  eapply gives_bind; [apply dirent_at_run, get_dirent_some; by rewrite Ho1|]. simpl. change (has (di_flags d1) OVLFS_DIRENT_UNLINKED) with (gone (di_flags d1)).
  destruct (gone (di_flags d1)) eqn:Eg; [by eapply gives_ret|].
  destruct (find_run n st1 W ips fs HF1 _ ip a i Hip Ha Hi1 nname nlen Hn) as (r2 & st2 & Hr2 & Ho2 & Hfr2 & HF2 & Hc2). eapply gives_bind; [exact Hr2|].
  assert (Hi2 : get_inode (s_obj st2) ip = Some i) by by rewrite Ho2. rewrite !view_find_name.
  pose proof (dir_nodup n st W ips fs HF num ip a i Hat Hip Ha Hi) as Hnd.
  destruct (decide (oname = nname)) as [<-|Hne].
  { destruct Hc2 as [[_ Hx]|(_ & j2 & d2 & He2 & _ & Hs2)]; [congruence|]. assert (d2 = d1) as -> by congruence.
    assert (r2 = r1) as -> by (by eapply (entry_addr n st W ips fs HF num ip a i Hat Hip Ha Hi)). rewrite Z.eqb_refl. eapply gives_ret; [|done]. by eapply (fs_ok_less n); [|lia]. }
  set (d1' := di_set_flags (Z.lor (di_flags d1) OVLFS_DIRENT_UNLINKED) d1).
  destruct (mark_run n st2 W ips fs HF2 num ip a i Hat Hip Ha Hi2 j1 r1 d1 d1' 1 He1) as (H1 & H2 & H3); [done..| |].
  { unfold unlinked. simpl. rewrite has_lor. unfold gone in Eg. by rewrite Eg. }
  destruct (put_dir_at fs num a Hat Ha (<[j1 := d1']> (entries a)) (an_last a)) as [Hat3 Ha3].
  pose proof (get_inode_insert (<[r1 := ODirent d1']> (s_obj st2)) ip (marked i d1 d1')) as Hi3.
  assert (Hv3 : names (view_node (set_dir (Some (<[j1 := d1']> (entries a))) (an_last a) a)) = <[oname := (di_ino d1, Z.lor (di_flags d1) OVLFS_DIRENT_UNLINKED)]> (names (view_node a))).
  { rewrite put_dir_view, names_view, <- Hd1. destruct He1 as (ds & ps & es & Hds & HW & Hj & Hd). unfold dir_view.
    rewrite (view_insert di_name _ (entries a) j1 d1 d1'); [done|done|by rewrite (entries_dir a ds Hds)|done]. }
  assert (Hrun : ∀ (k : SM Z) r v, gives (n - 1) (k (set_entry_st st2 ip i r1 d1 d1')) r v ->
    gives (n - 1) ((do@ upd_dirent r1 (λ d, di_set_flags (Z.lor (di_flags d) OVLFS_DIRENT_UNLINKED) d) in do@ count_rm ip 1 in k) st2) r v).
  { intros k r v Hk. eapply gives_bind; [apply (upd_dirent_run r1 st2 d1), get_dirent_some; by rewrite Ho2, Ho1|]. by eapply gives_bind; [exact H1|]. }
  destruct Hc2 as [[-> Hs2]|(Hr20 & j2 & d2 & He2 & Hd2 & Hs2)].
  - rewrite (proj2 (Z.eqb_neq 0 r1)) by lia. apply Hrun. change (negb (0 =? 0)) with false. cbv iota. rewrite Hs2. simpl.
    destruct (add_gives n _ W ips _ num ip _ _ nname nlen (di_ino d1) H2 Hat3 Hip Ha3 Hi3 Hn) as (st4 & Hr4 & HR4); [left|done|].
    { pose proof (view_find_name (set_dir (Some (<[j1 := d1']> (entries a))) (an_last a) a) nname) as Hf.
      rewrite Hv3, lookup_insert_ne, view_find_name, Hs2 in Hf by done. symmetry in Hf. exact (proj1 (fmap_None _ _) Hf). }
    revert Hr4 HR4. unfold spec_add, on_node. rewrite at_num_view, Hat3. cbn [fmap option_fmap option_map]. rewrite Hv3, lookup_insert_ne, view_find_name, Hs2 by done. simpl.
    rewrite H3, vf_set_dir_twice. intros Hr4 HR4. eapply gives_bind; [exact Hr4|]. by exists st4.
  - destruct (entry_obj n st W ips fs HF _ ip a i Hip Ha Hi j2 r2 d2 He2) as (Hobj2 & _). assert (r2 ≠ r1) by (intros ->; rewrite Hobj1 in Hobj2; injection Hobj2 as <-; congruence).
    assert (j2 ≠ j1). { destruct He1 as (ds & ps & es & _ & HW & Hj & _), He2 as (ds2 & ps2 & es2 & _ & HW2 & Hj2 & _). congruence. }
    rewrite (proj2 (Z.eqb_neq r2 r1)) by done. apply Hrun. rewrite (proj2 (Z.eqb_neq _ _) Hr20). simpl. pose proof (changed_entry W a i j1 r1 d1 d1' j2 r2 d2 He1 He2 H0) as He3.
    destruct (entry_obj n _ W ips _ H2 _ ip _ _ Hip Ha3 Hi3 j2 r2 d2 He3) as (Hobj3 & _).
    eapply gives_bind; [apply dirent_at_run, get_dirent_some; exact Hobj3|].
    destruct (take_over n _ W ips _ num ip _ _ j2 r2 d2 (di_ino d1) H2 Hat3 Hip Ha3 Hi3 He3) as (st4 & Hr4 & W4 & ips4 & fs4 & HF4 & HV4).
    exists st4. split; [exact Hr4|]. exists W4, ips4, fs4. split; [by eapply (fs_ok_less n); [|lia]|]. rewrite HV4, H3, vf_set_dir_twice, Hv3, Hs2, Hd2. done.
Qed.
