(* ===== verification/StgRefine.v ===== *)
(** Storage of the overlay file system: every sequence of storage operations does what
    [StgSpec] promises, from an empty storage on. *)
From stdpp Require Import sorting.
From S2P Require Import Prelude KList KListSort KListInv KListOps KListIdx KListThm KListDup KListKeep Stg StgOrd StgInv StgList StgStep StgSpec StgView StgDir StgEnt StgNode StgMap StgThm.
Open Scope Z_scope.

(** ** New inodes *)
Lemma add_inode_gives n st W ips fs parent name len flags : fs_ok n st W ips fs -> 1 <= n -> name_opt_ok name len ->
  gives (n - 1) (ovlfs_stg1_add_inode parent name len flags st) (0, Some (Z.of_nat (length (vf_nodes (view fs))) + 1))
    (vf_set_nodes (vf_nodes (view fs) ++ [new_node parent name len flags]) (view fs)).
Proof.
  intros HF Hn1 Hname. unfold ovlfs_stg1_add_inode. destruct (add_inode_run n st W ips fs HF Hn1) as (p & st1 & W1 & Hr1 & Hp0 & HF1).
  eapply gives_bind; [exact Hr1|]. rewrite (proj2 (Z.eqb_neq _ _) Hp0).
  set (a1 := ANode (Attr 0 0 0 0 0 0 0 0 0 0 0 0) 0 false new_special None 0) in *. set (m := length (af_nodes fs)).
  set (fs1 := set_nodes (af_nodes fs ++ [a1]) fs) in *.
  assert (Ha1 : af_nodes fs1 !! m = Some a1) by (apply list_lookup_middle; done).
  assert (Hip1 : (ips ++ [p]) !! m = Some p) by (apply list_lookup_middle; by rewrite (fo_len _ _ _ _ _ HF)).
  destruct (node_at _ _ _ _ _ HF1 m a1 Ha1) as (q & i1 & Hq & Hi1 & Hino1 & _). assert (q = p) as -> by congruence.
  destruct (inode_addr _ _ _ _ _ HF1 p i1 Hi1) as (_ & _ & Hok & _).
  destruct (set_special_run _ _ _ _ _ HF1 m p a1 i1 Hip1 Ha1 Hi1 (λ s, sp_set_parent parent (sp_set_flags flags s)) Hok) as (st2 & Hr2 & Hi2 & _ & HF2).
  eapply gives_bind; [exact Hr2|]. set (a2 := ANode (an_attr a1) (an_u a1) (an_valid a1) (sp_set_parent parent (sp_set_flags flags (an_s a1))) (an_dir a1) (an_last a1)) in *.
  set (fs2 := set_nodes (<[m := a2]> (af_nodes fs1)) fs1) in *.
  assert (Ha2 : af_nodes fs2 !! m = Some a2) by (simpl; rewrite list_lookup_insert_eq; [done|by eapply lookup_lt_Some]).
  destruct (set_ref_name_run _ _ _ _ _ m p a2 _ name len HF2 Hip1 Ha2 Hi2 Hname) as (st3 & Hr3 & HF3 & j & Hj & Hjno).
  eapply gives_bind; [exact Hr3|]. eapply gives_bind; [exact (inode_at_run _ _ _ Hj)|].
  assert (Eno : oi_ino j = Z.of_nat (length (vf_nodes (view fs))) + 1) by (rewrite Hjno; simpl; rewrite Hino1; unfold m; by rewrite length_fmap).
  rewrite Eno. eapply gives_ret; [exact HF3|]. unfold view, vf_set_nodes, fs2, fs1, set_nodes. simpl. f_equal.
  rewrite list_insert_insert_eq, insert_app_r_alt by (unfold m; lia). replace (m - length (af_nodes fs))%nat with O by (unfold m; lia).
  simpl. rewrite fmap_app. do 2 f_equal. unfold view_node, new_node. simpl. by destruct name.
Qed.

(** ** Mappings *)
Lemma map_view_set f ms fs : view (set_maps f ms fs) = vf_set_map f (map_view ms) (view fs).
Proof. by destruct f. Qed.
Lemma map_view_of f fs : map_view (af_maps f fs) = vf_map f (view fs).
Proof. by destruct f. Qed.
Lemma map_view_find f fs key : vf_map f (view fs) !! key = im_ovl_ino <$> find_map key (af_maps f fs).
Proof. rewrite <- map_view_of. apply view_find. Qed.

Lemma map_lookup_gives n st W ips fs dev inum which : fs_ok n st W ips fs -> 0 <= dev < 2 ^ 16 -> 0 <= inum < 2 ^ 31 ->
  gives n (ovlfs_stg1_map_lookup dev inum which st)
    (match which_fs which with
     | None => (- ENOENT, None)
     | Some f => match vf_map f (view fs) !! (dev, inum) with Some o => (0, Some o) | None => (- ENOENT, None) end
     end) (view fs).
Proof.
  intros HF Hdev Hinum. unfold ovlfs_stg1_map_lookup. eapply gives_bind; [done|]. rewrite (fo_magic _ _ _ _ _ HF). change (negb _) with false. cbv iota.
  destruct (which_fs which) as [f|]; [|by eapply gives_ret]. rewrite map_view_find.
  destruct (Z.eqb_spec (map_list_of f (s_sup st)) 0) as [E|H0]; [rewrite (map_no_list n st W ips fs HF f E); by eapply gives_ret|].
  assert (u32 inum = inum) as -> by (apply Z.mod_small; lia).
  destruct (map_search_run n st W ips fs HF f dev inum 0 H0) as (r & st1 & Hr & Hobj & Hfr & HF1 & Hcase); [by split; simpl|].
  eapply gives_bind; [exact Hr|]. destruct Hcase as [[-> ->]|(Hr0 & j & m & He & _ & ->)]; [by eapply gives_ret|]. rewrite (proj2 (Z.eqb_neq _ _) Hr0).
  destruct (map_entry_obj n st W ips fs HF f j r m He) as (Ho & _). eapply gives_bind; [apply map_at_run, get_map_some; by rewrite Hobj|]. by eapply gives_ret.
Qed.

Lemma set_other_gives n st W ips fs num ip a i dev inum which f : fs_ok n st W ips fs -> at_num (af_nodes fs) num = Some a -> ips !! Z.to_nat (num - 1) = Some ip ->
  af_nodes fs !! Z.to_nat (num - 1) = Some a -> get_inode (s_obj st) ip = Some i -> 0 <= dev < 2 ^ 16 -> 0 <= inum < 2 ^ 31 -> 1 <= n -> which_fs which = Some f ->
  gives (n - 1) (stg1_inode_set_other ip dev inum which st) 0
    (vf_set_map f (<[(dev, inum) := num]> (vf_map f (view fs))) (vf_alter num (λ a, vn_set_s (sp_set_other f dev inum (vn_s a)) a) (view fs))).
Proof.
  intros HF Hat Hip Ha Hi Hdev Hinum Hn1 Hf. unfold stg1_inode_set_other. eapply gives_bind; [done|].
  destruct (inode_addr n st W ips fs HF ip i Hi) as (_ & Hip0 & Hok & _). rewrite (proj2 (Z.eqb_neq _ _) Hip0), (fo_magic _ _ _ _ _ HF), Z.eqb_refl. change (negb true) with false. cbv iota.
  rewrite Hf. assert (Hok' : inode_ok (oi_set_s (sp_set_other f dev inum) i)) by (destruct f; [by split|done]).
  destruct (set_special_run n st W ips fs HF _ ip a i Hip Ha Hi _ Hok') as (st1 & Hr1 & Hi1 & Hfr1 & HF1). eapply gives_bind; [exact Hr1|].
  eapply gives_bind; [exact (inode_at_run _ _ _ Hi1)|]. set (fs1 := set_nodes _ fs) in HF1.
  assert (Hv1 : view fs1 = vf_alter num (λ a, vn_set_s (sp_set_other f dev inum (vn_s a)) a) (view fs)) by (by apply (view_set_node fs num a)).
  assert (Hm1 : vf_map f (view fs) = vf_map f (view fs1)) by (by rewrite <- !map_view_of; destruct f).
  assert (Eo : u32 (oi_ino (oi_set_s (sp_set_other f dev inum) i)) = num).
  { destruct (node_now n st W ips fs HF _ ip a i Hip Ha Hi) as [Hino _]. simpl. rewrite Hino. apply at_num_some in Hat as [Hr _].
    destruct (fo_room _ _ _ _ _ HF) as (_ & Hro & _). rewrite Z2Nat.id by lia. replace (num - 1 + 1) with num by lia. apply Z.mod_small. lia. }
  rewrite Eo, <- (sf_sup _ _ Hfr1). assert (Hmok : map_ok (InoMap dev inum num)) by by split.
  destruct (check_mapping_run n st1 W ips fs1 f dev inum num HF1 Hmok) as (c & st2 & fs2 & Hr2 & Hfr2 & HF2 & Hcase). eapply gives_bind; [exact Hr2|].
  destruct (find_map (dev, inum) (af_maps f fs1)) as [m|] eqn:Ef.
  - destruct Hcase as (-> & j & Hj & Hkey & ->). change (negb (1 =? 0)) with true. cbv iota. eapply gives_ret; [by eapply (fs_ok_less n); [|lia]|].
    rewrite map_view_set, Hv1, Hm1, <- map_view_of. f_equal. rewrite <- Hkey. unfold map_view.
    rewrite (view_insert map_key im_ovl_ino _ j m); [done|apply (fo_keys _ _ _ _ _ HF1)|done|]. by rewrite Hkey.
  - destruct Hcase as (-> & -> & _). change (negb (0 =? 0)) with false. cbv iota.
    destruct (new_mapping_run n st2 W ips fs1 f dev inum num HF2 Hn1 Hmok Ef) as (st3 & W3 & Hr3 & HF3). exists st3. split; [exact Hr3|].
    eexists W3, ips, _. split; [exact HF3|]. rewrite map_view_set, Hv1, Hm1, <- map_view_of. done.
Qed.

(** ** One operation *)

(** What a caller has to keep to: names are not empty and have no NUL, inode numbers fit
    into 32 bits, and those of the other file systems into 31 (the comparison of
    mappings is no order above that). *)
Definition info_ok (info : option ovlfs_inode_special_t) : Prop :=
  match info with Some s => 0 <= sp_base_dev s < 2 ^ 16 ∧ 0 <= sp_base_ino s < 2 ^ 31 ∧ name_opt_ok (sp_name s) (sp_len s) | None => True end.

Definition sop_ok (o : sop) : Prop :=
  match o with
  | OpAddInode parent name len flags => name_opt_ok name len
  | OpNumDirent inum _ | OpGetMapping inum _ => 0 <= inum < 2 ^ 32
  | OpLookup dir name len | OpUnlink dir name len | OpDelete dir name len => 0 <= dir < 2 ^ 32 ∧ name_ok name len
  | OpAddDirent dir name len inum => 0 <= dir < 2 ^ 32 ∧ name_ok name len ∧ 0 <= inum < 2 ^ 32
  | OpRename dir oname olen nname nlen => 0 <= dir < 2 ^ 32 ∧ name_ok oname olen ∧ name_ok nname nlen
  | OpMapInode inum dev inum2 which => 0 <= inum < 2 ^ 32 ∧ 0 <= dev < 2 ^ 16 ∧ 0 <= inum2 < 2 ^ 31
  | OpMapLookup dev inum which => 0 <= dev < 2 ^ 16 ∧ 0 <= inum < 2 ^ 31
  | OpUpdInode i => 0 <= v_ino i < 2 ^ 32 ∧ info_ok (v_info i)
  | OpReadInode i => 0 <= v_ino i < 2 ^ 32
  end.

(** The result is only rearranged. *)
Lemma gives_then {A B} n (f : SM A) (h : A -> SM B) st x y v : gives n (f st) x v -> (∀ s, h x s = Some (y, s)) -> gives n (sbind f h st) y v.
Proof. intros (st' & H & HR) Hh. exists st'. split; [|done]. by rewrite (sbind_run _ _ _ _ _ H), Hh. Qed.

Lemma gives_less {A} n m (out : option (A * sst)) r v : gives n out r v -> 0 <= m <= n -> gives m out r v.
Proof. intros (st' & H & W & ips & fs & HF & Hv) Hm. exists st'. split; [done|]. exists W, ips, fs. split; [by eapply fs_ok_less|done]. Qed.

(** An operation on the inode with a number. *)
Lemma node_op {A} n m st W ips fs num (f : Z -> SM A) (none : A) (h : A -> Z * list Z) g : fs_ok n st W ips fs -> 0 <= num < 2 ^ 32 -> 0 <= m <= n ->
  h none = (- ENOENT, []) ->
  (∀ st1 ip a i, fs_ok n st1 W ips fs -> at_num (af_nodes fs) num = Some a -> ips !! Z.to_nat (num - 1) = Some ip ->
    af_nodes fs !! Z.to_nat (num - 1) = Some a -> get_inode (s_obj st1) ip = Some i ->
    ∃ x, h x = fst (on_node num (view fs) g) ∧ gives m (f ip st1) x (snd (on_node num (view fs) g))) ->
  ∃ x, h x = fst (on_node num (view fs) g) ∧
    gives m ((let@ ino := ovlfs_get_ino num in if ino =? 0 then sret none else f ino) st) x (snd (on_node num (view fs) g)).
Proof.
  intros HF Hnum Hm Hnone Hf. destruct (get_node n st W ips fs HF num Hnum) as (ip & st1 & Hr & Hobj & Hfr & HF1 & Hcase).
  destruct (at_num (af_nodes fs) num) as [a|] eqn:Ea.
  - destruct Hcase as (H0 & Hip & Ha & i & Hi). destruct (Hf st1 ip a i HF1 eq_refl Hip Ha Hi) as (x & Hx & HG). exists x. split; [done|].
    eapply gives_bind; [exact Hr|]. by rewrite (proj2 (Z.eqb_neq _ _) H0).
  - exists none. unfold on_node. rewrite at_num_view, Ea, Hcase in *. split; [done|]. eapply gives_bind; [exact Hr|]. eapply gives_ret; [by eapply fs_ok_less|done].
Qed.

(** One that gives a code. *)
Lemma dir_op n st W ips fs num (f : Z -> SM Z) g : fs_ok (n + 1) st W ips fs -> 0 <= num < 2 ^ 32 -> 0 <= n -> (∀ a, snd (fst (g a)) = []) ->
  (∀ st1 ip a i, fs_ok (n + 1) st1 W ips fs -> at_num (af_nodes fs) num = Some a -> ips !! Z.to_nat (num - 1) = Some ip ->
    af_nodes fs !! Z.to_nat (num - 1) = Some a -> get_inode (s_obj st1) ip = Some i ->
    gives n (f ip st1) (fst (fst (on_node num (view fs) g))) (snd (on_node num (view fs) g))) ->
  gives n ((let@ c := on_dir num f in sret (c, [])) st) (fst (on_node num (view fs) g)) (snd (on_node num (view fs) g)).
Proof.
  intros HF Hnum Hn Hg Hf.
  destruct (node_op (n + 1) n st W ips fs num f (- ENOENT) (λ c, (c, [])) g HF Hnum) as (x & Hx & HG); [lia|done| |].
  - intros st1 ip a i HF1 Hat Hip Ha Hi. eexists. split; [|by eapply Hf]. unfold on_node. rewrite at_num_view, Hat. simpl. specialize (Hg (view_node a)).
    destruct (fst (g (view_node a))) as [c l]. simpl in *. by rewrite Hg.
  - rewrite <- Hx. eapply gives_then; [exact HG|done].
Qed.

Definition pair_list (r : option (Z * Z)) : list Z := match r with Some (x, y) => [x; y] | None => [] end.

(** The parts of the operations on the attributes of an inode. *)
Lemma upd_special_run n st W ips fs m ip a i s : fs_ok n st W ips fs -> ips !! m = Some ip -> af_nodes fs !! m = Some a -> get_inode (s_obj st) ip = Some i ->
  info_ok (Some s) -> ∃ st', upd_special ip s st = Some (tt, st') ∧ fs_ok n st' W ips (set_nodes (<[m := special_node (merge_special s (an_s a)) a]> (af_nodes fs)) fs).
Proof.
  intros HF Hip Ha Hi (Hd & Hino & Hname). unfold upd_special. set (g o := Special (sp_parent_ino s) (sp_base_dev s) (sp_base_ino s) (sp_stg_dev s) (sp_stg_ino s) (sp_flags s) (sp_name o) (sp_len o)).
  destruct (set_special_run n st W ips fs HF m ip a i Hip Ha Hi g) as (st1 & Hr1 & Hi1 & _ & HF1); [by split|]. srun Hr1.
  set (a1 := ANode (an_attr a) (an_u a) (an_valid a) (g (an_s a)) (an_dir a) (an_last a)) in *. destruct (sp_name s) as [nm|] eqn:En.
  - pose proof Hname as (_ & Hlen & _). rewrite (proj2 (Z.ltb_lt 0 _)) by lia. unfold dup_buffer. rewrite (proj2 (Z.ltb_lt 0 _)) by lia.
    destruct (MALLOC_spec st1 W (fo_stg _ _ _ _ _ HF1)) as ([p|] & st2 & Hm & Ho & Hfr & HS & Hp); [|by destruct Hp; apply (fo_plenty _ _ _ _ _ HF1)].
    rewrite (sbind_run _ _ st1 (Some nm) st2) by (by rewrite (sbind_run _ _ _ _ _ Hm); unfold sopt; rewrite (memcpy_name _ _ Hname)). cbv beta iota.
    pose proof (fs_ok_quiet n st1 W ips _ st2 HF1 Ho Hfr HS) as HF2. assert (Hi2 : get_inode (s_obj st2) ip = Some (oi_set_s g i)) by by rewrite Ho.
    assert (Ha1 : af_nodes (set_nodes (<[m := a1]> (af_nodes fs)) fs) !! m = Some a1) by (simpl; rewrite list_lookup_insert_eq; [done|by eapply lookup_lt_Some]).
    destruct (set_special_run n st2 W ips _ HF2 m ip a1 _ Hip Ha1 Hi2 (sp_set_name (Some nm) (sp_len s))) as (st3 & Hr3 & _ & _ & HF3); [by split|].
    exists st3. split; [done|]. simpl in HF3. rewrite list_insert_insert_eq in HF3. unfold special_node, merge_special. rewrite En, (proj2 (Z.ltb_lt 0 (sp_len s))) by lia. exact HF3.
  - exists st1. split; [done|]. unfold special_node, merge_special. rewrite En. exact HF1.
Qed.

(** What ovlfs_stg1_read_inode does with the inode it found. *)
Definition read_found (v : vfs_inode) (ino : Z) : SM (Z * option bool * vfs_inode) :=
  let@ i := inode_at ino in
  let a := oi_attr i in
  let v1 := if oi_att_valid_f i
            then VInode (v_ino v) (copied_attr a (at_nrpages (v_attr v))) (if is_device (at_mode a) then u16 (oi_u i) else 0) (v_info v)
            else v in
  let s := oi_s i in
  let@ info := read_info (v_info v) s in
  sret (0, Some (oi_att_valid_f i), VInode (v_ino v1) (v_attr v1) (v_rdev v1) info).

Lemma read_info_run n st W ips fs s info : fs_ok n st W ips fs -> name_there s ->
  ∃ st', read_info info s st = Some (match info with Some _ => Some s | None => None end, st') ∧ fs_ok n st' W ips fs.
Proof.
  intros HF Hn. unfold read_info. destruct info as [i|]; [|by exists st]. destruct (sp_name s) as [nm|] eqn:En; [|by exists st].
  destruct (Z.ltb_spec 0 (sp_len s)) as [Hl|]; [|by exists st]. destruct (Hn Hl) as (nm' & E & El). rewrite En in E. injection E as <-. unfold dup_buffer. rewrite (proj2 (Z.ltb_lt 0 _)) by lia.
  destruct (MALLOC_spec st W (fo_stg _ _ _ _ _ HF)) as ([p|] & st1 & Hm & Ho & Hfr & HS & Hp); [|by destruct Hp; apply (fo_plenty _ _ _ _ _ HF)].
  assert (Hcp : memcpy nm (sp_len s) = Some nm). { unfold memcpy. rewrite (proj2 (Z.leb_le 0 _)), El, Z.leb_refl by lia. simpl. by rewrite Nat2Z.id, firstn_all. }
  rewrite (sbind_run _ _ st (Some nm) st1) by (by rewrite (sbind_run _ _ _ _ _ Hm); unfold sopt; rewrite Hcp). exists st1. split; [|by eapply fs_ok_quiet].
  unfold sret, sp_set_name. rewrite <- En. by destruct s.
Qed.

Section Step.
Context (n : Z) (st : sst) (W : gmap Z (list Z * list Z)) (ips : list Z) (fs : afs) (HF : fs_ok (n + 1) st W ips fs) (Hn : 0 <= n).

Lemma step_num inum inc_rm : sop_ok (OpNumDirent inum inc_rm) ->
  gives n (run_sop (OpNumDirent inum inc_rm) st) (fst (spec_sop (OpNumDirent inum inc_rm) (view fs))) (snd (spec_sop (OpNumDirent inum inc_rm) (view fs))).
Proof using All.
  intros Hok. apply (dir_op n st W ips fs inum (λ ino, let@ i := inode_at ino in
    if oi_dir_entries i =? 0 then sret 0 else let@ n := list_length_of (oi_dir_entries i) in sret (if inc_rm then n else s32 (n - oi_num_rm_ent i)))); [done|done|done|done|].
  intros st1 ip a i HF1 Hat Hip Ha Hi. unfold on_node. rewrite at_num_view, Hat. eapply (gives_less (n + 1)); [|lia].
  exact (num_gives _ st1 W ips fs HF1 inum ip a i Hat Hip Ha Hi inc_rm).
Qed.

Lemma step_lookup dir name len : sop_ok (OpLookup dir name len) ->
  gives n (run_sop (OpLookup dir name len) st) (fst (spec_sop (OpLookup dir name len) (view fs))) (snd (spec_sop (OpLookup dir name len) (view fs))).
Proof using All.
  intros [Hd Hname]. destruct (node_op (n + 1) n st W ips fs dir (λ ino, let@ p := ovlfs_ino_find_dirent ino name len in
      if p =? 0 then sret (- ENOENT, None) else let@ d := dirent_at p in sret (0, Some (di_ino d, di_flags d))) (- ENOENT, None) (λ p, (p.1, pair_list p.2))
      (λ a, match names a !! name with Some (x, y) => ((0, [x; y]), view fs) | None => ((- ENOENT, []), view fs) end) HF Hd) as (x & Hx & HG); [lia|done| |].
  - intros st1 ip a i HF1 Hat Hip Ha Hi. pose proof (lookup_gives _ st1 W ips fs HF1 dir ip a i Hat Hip Ha Hi name len Hname) as HG.
    apply (gives_less _ n) in HG; [|lia]. unfold on_node. rewrite at_num_view, Hat. simpl.
    destruct (names (view_node a) !! name) as [[x y]|]; eexists; (split; [|exact HG]); done.
  - unfold spec_sop. rewrite <- Hx. eapply gives_then; [exact HG|]. by destruct x as [c [[]|]].
Qed.

Lemma step_get_mapping inum which : sop_ok (OpGetMapping inum which) ->
  gives n (run_sop (OpGetMapping inum which) st) (fst (spec_sop (OpGetMapping inum which) (view fs))) (snd (spec_sop (OpGetMapping inum which) (view fs))).
Proof using All.
  intros Hok. destruct (node_op (n + 1) n st W ips fs inum (λ ino, let@ i := inode_at ino in
      match which_fs which with
      | Some FsBase => sret (0, Some (sp_base_dev (oi_s i), sp_base_ino (oi_s i)))
      | Some FsStg => sret (0, Some (sp_stg_dev (oi_s i), sp_stg_ino (oi_s i)))
      | None => sret (- EINVAL, None)
      end) (- ENOENT, None) (λ p, (p.1, pair_list p.2))
      (λ a, match which_fs which with
            | Some FsBase => ((0, [sp_base_dev (vn_s a); sp_base_ino (vn_s a)]), view fs)
            | Some FsStg => ((0, [sp_stg_dev (vn_s a); sp_stg_ino (vn_s a)]), view fs)
            | None => ((- EINVAL, []), view fs)
            end) HF Hok) as (x & Hx & HG); [lia|done| |].
  - intros st1 ip a i HF1 Hat Hip Ha Hi. destruct (node_now _ st1 W ips fs HF1 _ ip a i Hip Ha Hi) as [_ [(_ & _ & _ & Es & _) _ _]].
    pose proof (fs_ok_less (n + 1) n st1 W ips fs HF1) as HF2. unfold on_node. rewrite at_num_view, Hat. simpl.
    destruct (which_fs which) as [[]|]; rewrite <- ?Es; eexists (_, _); (split; [|eapply gives_bind; [exact (inode_at_run _ _ _ Hi)|]; eapply gives_ret; [apply HF2; lia|done]]); done.
  - unfold spec_sop. rewrite <- Hx. eapply gives_then; [exact HG|]. by destruct x as [c [[]|]].
Qed.

Lemma step_map_inode inum dev inum2 which : sop_ok (OpMapInode inum dev inum2 which) ->
  gives n (run_sop (OpMapInode inum dev inum2 which) st) (fst (spec_sop (OpMapInode inum dev inum2 which) (view fs))) (snd (spec_sop (OpMapInode inum dev inum2 which) (view fs))).
Proof using All.
  intros (Hd & Hdev & Hin). unfold run_sop, ovlfs_stg1_map_inode, spec_sop. assert (u32 inum2 = inum2) as -> by (apply Z.mod_small; lia).
  apply (dir_op n st W ips fs inum (λ ino, stg1_inode_set_other ino dev inum2 which)); [done|done|done|intros a; by repeat case_match|].
  intros st1 ip a i HF1 Hat Hip Ha Hi1. unfold on_node. rewrite at_num_view, Hat. cbn [fmap option_fmap option_map]. destruct (which_fs which) as [f|] eqn:Ef.
  - replace n with (n + 1 - 1) by lia. eapply set_other_gives; eauto. lia.
  - unfold stg1_inode_set_other. eapply gives_bind; [done|]. destruct (inode_addr _ st1 W ips fs HF1 ip i Hi1) as (_ & Hip0 & _).
    rewrite (proj2 (Z.eqb_neq _ _) Hip0), (fo_magic _ _ _ _ _ HF1), Ef. simpl. eapply gives_ret; [eapply fs_ok_less; [done|lia]|done].
Qed.

(** *** The attributes of an inode *)
Lemma step_upd i : sop_ok (OpUpdInode i) -> gives n (run_sop (OpUpdInode i) st) (fst (spec_sop (OpUpdInode i) (view fs))) (snd (spec_sop (OpUpdInode i) (view fs))).
Proof using All.
  intros [Hd Hinfo]. set (t := copied_attr (v_attr i) 0).
  apply (dir_op n st W ips fs (v_ino i) (λ ino,
    do@ upd_inode ino (λ j, oi_set_attr t (if is_device (at_mode t) then set_rdev (v_rdev i) (oi_u j) else 0) true j) in
    do@ match v_info i with Some s => upd_special ino s | None => sret tt end in sret 0)); [done|done|done|done|].
  intros st1 ip a j HF1 Hat Hip Ha Hj. unfold on_node. rewrite at_num_view, Hat. cbn [fmap option_fmap option_map fst snd].
  destruct (inode_addr _ st1 W ips fs HF1 ip j Hj) as (_ & _ & Hok & _). destruct (node_attrs _ st1 W ips fs HF1 _ ip a j Hip Ha Hj) as (_ & Eu & _ & Es & _).
  eapply gives_bind; [apply (upd_inode_run ip st1 j _ Hj)|]. set (j' := oi_set_attr t (if is_device (at_mode t) then set_rdev (v_rdev i) (oi_u j) else 0) true j).
  pose proof (set_inode_ok _ st1 W ips fs HF1 _ ip a j Hip Ha Hj j' Hok) as HF2. specialize (HF2 ltac:(done)). set (m := Z.to_nat (v_ino i - 1)) in *.
  match type of HF2 with fs_ok _ _ _ _ (set_nodes (<[_ := ?x]> _) _) => set (a2 := x) in HF2 end.
  destruct (v_info i) as [s|] eqn:Ei.
  - set (fs2 := set_nodes (<[m := a2]> (af_nodes fs)) fs) in *. assert (Ha2 : af_nodes fs2 !! m = Some a2) by (simpl; rewrite list_lookup_insert_eq; [done|by eapply lookup_lt_Some]).
    destruct (upd_special_run _ _ _ _ _ m ip a2 j' s HF2 Hip Ha2) as (st3 & Hr3 & HF3); [simpl; apply get_inode_insert|done|].
    eapply gives_bind; [exact Hr3|]. eapply gives_ret; [eapply fs_ok_less; [exact HF3|lia]|]. simpl. rewrite list_insert_insert_eq.
    apply (view_set_node fs (v_ino i) a); [done|]. unfold view_node, upd_node. simpl. by rewrite Ei, Es, Eu.
  - eapply gives_bind; [done|]. eapply gives_ret; [eapply fs_ok_less; [exact HF2|lia]|]. apply (view_set_node fs (v_ino i) a); [done|].
    unfold view_node, upd_node. simpl. by rewrite Ei, Es, Eu.
Qed.

Lemma step_read i : sop_ok (OpReadInode i) -> names_there (view fs) ->
  gives n (run_sop (OpReadInode i) st) (fst (spec_sop (OpReadInode i) (view fs))) (snd (spec_sop (OpReadInode i) (view fs))).
Proof using All.
  intros Hd Hnames. destruct (node_op (n + 1) n st W ips fs (v_ino i) (read_found i) (- ENOENT, None, i) (λ '(c, valid, i'), (c, read_result valid i'))
    (λ a, ((0, read_result (Some (vn_valid a)) (filled i a)), view fs)) HF Hd) as (x & Hx & HG); [lia|done| |].
  - intros st1 ip a j HF1 Hat Hip Ha Hj. unfold on_node. rewrite at_num_view, Hat. cbn [fmap option_fmap option_map fst snd].
    exists (0, Some (vn_valid (view_node a)), filled i (view_node a)). split; [done|]. destruct (node_attrs _ st1 W ips fs HF1 _ ip a j Hip Ha Hj) as (Ea & Eu & Ev & Es & _).
    eapply gives_bind; [exact (inode_at_run _ _ _ Hj)|]. cbv zeta. rewrite Ea, Eu, Ev, Es.
    assert (Hna : name_there (an_s a)).
    { unfold names_there in Hnames. simpl in Hnames. rewrite list.Forall_fmap, list.Forall_forall in Hnames. apply (Hnames a). by eapply list_elem_of_lookup_2. }
    destruct (read_info_run _ st1 W ips fs (an_s a) (v_info i) HF1 Hna) as (st2 & Hr2 & HF2). eapply gives_bind; [exact Hr2|].
    exists st2. split; [|exists W, ips, fs; split; [eapply fs_ok_less; [exact HF2|lia]|done]]. unfold sret, filled. simpl. by destruct (an_valid a).
  - unfold spec_sop. rewrite <- Hx. eapply gives_then; [exact HG|]. intros s. destruct x as [[c valid] i']. done.
Qed.
End Step.

Lemma sop_step o n st v : represents (n + 1) st v -> 0 <= n -> sop_ok o -> names_there v -> gives n (run_sop o st) (fst (spec_sop o v)) (snd (spec_sop o v)).
Proof.
  intros (W & ips & fs & HF & <-) Hn Hok Hnames. destruct o as [parent name len flags| | |dir name len inum|dir name len|dir name len|dir on ol nn nl| |dev inum which| | |].
  - replace n with (n + 1 - 1) by lia. eapply gives_then; [apply (add_inode_gives _ st W ips fs parent name len flags HF); [lia|done]|done].
  - by eapply step_num.
  - by eapply step_lookup.
  - destruct Hok as (Hd & Hname & Hi). apply (dir_op n st W ips fs dir); [done|done|done|intros a; by repeat case_match|].
    intros st1 ip a i HF1 Hat Hip Ha Hi1. replace n with (n + 1 - 1) by lia. eapply add_gives; eauto. lia.
  - destruct Hok as (Hd & Hname). apply (dir_op n st W ips fs dir); [done|done|done|intros a; by repeat case_match|].
    intros st1 ip a i HF1 Hat Hip Ha Hi1. eapply (gives_less (n + 1)); [|lia]. by eapply unlink_gives.
  - destruct Hok as (Hd & Hname). apply (dir_op n st W ips fs dir); [done|done|done|intros a; by repeat case_match|].
    intros st1 ip a i HF1 Hat Hip Ha Hi1. eapply (gives_less (n + 1)); [|lia]. by eapply delete_gives.
  - destruct Hok as (Hd & Hon & Hnn). apply (dir_op n st W ips fs dir); [done|done|done|intros a; by repeat case_match|].
    intros st1 ip a i HF1 Hat Hip Ha Hi1. replace n with (n + 1 - 1) by lia. eapply rename_gives; eauto. lia.
  - by eapply step_map_inode.
  - destruct Hok as (Hdev & Hin). eapply (gives_less (n + 1)); [|lia]. eapply gives_then; [exact (map_lookup_gives _ st W ips fs dev inum which HF Hdev Hin)|].
    intros s. simpl. destruct (which_fs which) as [f|]; [|done]. by destruct (vf_map f (view fs) !! (dev, inum)).
  - by eapply step_get_mapping.
  - by eapply step_upd.
  - by eapply step_read.
Qed.

(** *** Names stay there *)
Lemma names_alter num g v : names_there v -> (∀ a, name_there (vn_s a) -> name_there (vn_s (g a))) -> names_there (vf_alter num g v).
Proof.
  intros Hv Hg. unfold vf_alter. destruct (1 <=? num); [|done]. unfold names_there. simpl. apply Forall_alter; [done|]. intros a _. by apply Hg.
Qed.
Lemma names_map f mp v : names_there v -> names_there (vf_set_map f mp v).
Proof. by destruct f. Qed.
Lemma names_node num v g : names_there v -> (∀ a, name_there (vn_s a) -> names_there (snd (g a))) -> names_there (snd (on_node num v g)).
Proof.
  intros Hv Hg. unfold on_node, at_num. destruct (1 <=? num); [|done]. destruct (vf_nodes v !! _) as [a|] eqn:Ha; [|done]. apply Hg.
  unfold names_there in Hv. rewrite list.Forall_lookup in Hv. by eapply Hv.
Qed.

Lemma names_dir dir d v : names_there v -> names_there (vf_set_dir dir d v).
Proof. intros Hv. by apply names_alter. Qed.
Lemma names_remove dir name v g : names_there v -> names_there (snd (spec_remove dir name v g)).
Proof.
  intros Hv. apply names_node; [done|]. intros a _. destruct (vn_dir a) as [d|]; [|done]. destruct (d !! name ≫= g d); [by apply names_dir|done].
Qed.

Lemma names_step o v : sop_ok o -> names_there v -> names_there (snd (spec_sop o v)).
Proof.
  intros Hok Hv. destruct o as [parent name len flags| | |dir name len inum|dir name len|dir name len|dir on ol nn nl|inum dev inum2 which| | |i|]; simpl spec_sop;
    try (apply names_remove; done); try (apply names_node; [done|]; intros a Ha); try done.
  - unfold names_there. simpl. apply Forall_app. split; [done|]. constructor; [|constructor]. unfold name_there, new_node. simpl. destruct name as [nm|]; [|lia].
    intros _. exists nm. split; [done|]. apply Hok.
  - by destruct (names a !! name) as [[]|].
  - destruct (names a !! name) as [[k fl]|]; [|by apply names_dir]. destruct (gone fl); [|done]. apply names_dir. by apply names_alter.
  - destruct (names a !! on) as [[k fl]|]; [|done]. destruct (gone fl); [done|]. destruct (decide (on = nn)); [done|]. by apply names_dir.
  - destruct (which_fs which) as [f|]; [|done]. apply names_map, names_alter; [done|]. intros b Hb. by destruct f.
  - by destruct (which_fs which) as [[]|].
  - apply names_alter; [done|]. intros b Hb. destruct Hok as [_ Hi]. simpl. destruct (v_info i) as [s|]; [|done]. destruct Hi as (_ & _ & Hname).
    unfold name_there, merge_special. simpl. destruct (sp_name s) as [nm|]; simpl; [|done]. destruct Hname as (-> & Hl & _). rewrite (proj2 (Z.ltb_lt 0 _)) by lia. eauto.
Qed.

(** ** From an empty storage *)
Definition empty_super (opts : Z) : super_info := Super OVLFS_SUPER_MAGIC opts false 0 0 0 None 0.

(** A mounted file system whose storage file was empty. *)
Definition empty_storage (m : kmem) (opts freeram totalram : Z) : sst := SSt (KSt m ∅ false) ∅ ∅ (empty_super opts) freeram totalram.

Lemma empty_represents m opts freeram totalram n : mem_ok m -> (∀ k, km_do_malloc m k = true) -> (∀ k, km_kmalloc m k = true) ->
  totalram <= freeram * 10 -> 0 <= n < 2 ^ 28 -> represents n (empty_storage m opts freeram totalram) (Vfs [] ∅ ∅).
Proof.
  intros Hm H1 H2 Hram Hn. exists ∅, [], (AFs [] [] []). split; [|done]. split; simpl; try done.
  - by left.
  - intros f. exists []. split; [left; by destruct f|by destruct f; constructor].
  - intros f. destruct f; constructor.
  - split_and!; [lia|lia|lia|lia|constructor].
Qed.

(** Many of them. *)
Lemma sops_run os n st v : represents (Z.of_nat (length os) + n) st v -> 0 <= n -> Forall sop_ok os -> names_there v ->
  ∃ st', run_sops os st = Some (fst (spec_sops os v), st') ∧ represents n st' (snd (spec_sops os v)).
Proof.
  revert st v. induction os as [|o os IH]; intros st v HR Hn HF Hnames; [by exists st|]. apply list.Forall_cons in HF as [Ho HF].
  destruct (sop_step o (Z.of_nat (length os) + n) st v) as (st1 & Hr & HR1); [|lia|done|done|].
  { by replace (Z.of_nat (length os) + n + 1) with (Z.of_nat (length (o :: os)) + n) by (simpl; lia). }
  destruct (IH st1 _ HR1 Hn HF (names_step o v Ho Hnames)) as (st2 & Hr2 & HR2). exists st2. simpl. rewrite (sbind_run _ _ _ _ _ Hr), (sbind_run _ _ _ _ _ Hr2).
  destruct (spec_sop o v) as [r v1]. simpl in *. by destruct (spec_sops os v1).
Qed.

(** C14.  A sequence of storage operations under the conditions below (new inodes, their attributes, entries of
    directories that are added, looked up, renamed, marked as removed and removed,
    mappings from the inodes of the base and the storage file system) returns the codes
    and values that the abstract storage gives, in which a directory is a map from names,
    and leaves the storage in a state that stands for the abstract one; the calls return,
    and no call accesses memory that is not there.  The
    conditions ([sop_ok], [represents]): names are not empty and have no zero byte and the
    length they are given with, device numbers are below 2^16, inode numbers of the other
    file systems below 2^31 (above that mappings are lost, [StgOrd.comp_ino_map_cycle]),
    every allocation is granted, and there are fewer than 2^28 objects of each kind. *)
Theorem storage_refines os n st v : represents (Z.of_nat (length os) + n) st v -> 0 <= n -> Forall sop_ok os -> names_there v ->
  ∃ st', run_sops os st = Some (fst (spec_sops os v), st') ∧ represents n st' (snd (spec_sops os v)).
Proof. apply sops_run. Qed.

(** A file system with two inodes, one of them in the directory of the other. *)
Lemma storage_refines_witness :
  let st0 := empty_storage (KMem ∅ ∅ 16 0 (λ _, true) (λ _, true) 0) 0 10 20 in
  let os := [OpAddInode 0 None 0 0; OpAddInode 1 (Some [97]) 1 0; OpAddDirent 1 [97] 1 2; OpUnlink 1 [97] 1; OpLookup 1 [97] 1; OpAddDirent 1 [97] 1 2;
             OpRename 1 [97] 1 [98; 99] 2; OpLookup 1 [98; 99] 2; OpMapInode 2 5 7 98; OpMapLookup 5 7 98;
             OpUpdInode (VInode 2 (Attr 33188 42 0 0 1 2 3 1 512 1 0 0) 0 None);
             OpReadInode (VInode 2 (Attr 0 0 0 0 0 0 0 0 0 0 0 0) 0 (Some new_special))] in
  ∃ st', run_sops os st0 = Some ([(0, [1]); (0, [2]); (0, []); (0, []); (0, [2; 1]); (0, []); (0, []); (0, [2; 0]); (0, []); (0, [2]); (0, []);
    (0, [1; 0; 33188; 42; 0; 0; 1; 2; 3; 1; 512; 1; 0; 0; 1; 5; 7; 0; 0; 2; 1; 97])], st').
Proof.
  intros st0 os. destruct (storage_refines os 5 st0 (Vfs [] ∅ ∅)) as (st' & Hr & _).
  - apply empty_represents; [split; [simpl; lia|done]|done|done|lia|simpl; lia].
  - lia.
  - unfold os. repeat constructor; simpl; unfold name_char; try lia.
  - constructor.
  - exists st'. rewrite Hr. vm_compute. reflexivity.
Defined.
