(* ===== verification/StgNext.v ===== *)
(** Storage of the overlay file system: reading a directory. The entries are visited in
    the order of their positions, each of them once. *)
From stdpp Require Import sorting.
From S2P Require Import Prelude KList KListSort KListInv KListOps KListIdx KListThm KListDup KListKeep Stg StgOrd StgInv StgList StgStep StgSpec StgView StgDir StgEnt StgNode StgMap StgThm StgRefine.
Open Scope Z_scope.

Definition pos_of (h : gmap Z object) (e : Z) : Z := match get_dirent h e with Some d => di_pos d | None => 0 end.

Lemma pos_cmp h x y a b : keys_ok h -> get_dirent h x = Some a -> get_dirent h y = Some b -> pos_callback h x y = di_pos a - di_pos b.
Proof.
  intros Hk Hx Hy. unfold pos_callback, as_callback. rewrite Hx, Hy.
  by apply comp_dirent_pos_in; eapply get_dirent_ok.
Qed.

(** The index by position does not see other objects change. *)
Lemma by_pos_objs st p xs h : s_funcs st !! p = Some KDirents -> by_pos st p xs -> by_pos (set_objs st h) p xs.
Proof.
  intros Hf (l & Hl & ixs & ix & H1 & H2 & H3 & H4 & H5 & H6). exists (with_callbacks h KDirents l). split.
  - change (klists (set_objs st h)) with (rebind h (s_funcs st) (s_k st)). by rewrite <- (rebind_twice h (s_obj st)), rebind_lookup, Hl, Hf.
  - exists (map (option_map (slot_callback h KDirents)) ixs), (slot_callback h KDirents ix). simpl. rewrite H1. split_and!; try done.
    change (map (option_map (slot_callback h KDirents)) ixs) with (option_map (slot_callback h KDirents) <$> ixs). by rewrite list_lookup_fmap, H3.
Qed.

Lemma sorted_le c xs a b x y : sorted_by c xs -> (a < b)%nat -> xs !! a = Some x -> xs !! b = Some y -> c x y <= 0.
Proof.
  intros Hs. revert a b. induction Hs as [|z xs Hs IH HF]; intros a b Hab Hx Hy; [done|]. destruct b as [|b]; [lia|]. destruct a as [|a]; simpl in *.
  - injection Hx as ->. rewrite list.Forall_lookup in HF. by eapply HF.
  - apply (IH a b); [lia|done|done].
Qed.

(** A list that is sorted by position. *)
Definition pos_sorted (h : gmap Z object) (xs : list Z) : Prop := ∀ a b x y, (a <= b)%nat -> xs !! a = Some x -> xs !! b = Some y -> pos_of h x <= pos_of h y.

Lemma sorted_pos h xs : keys_ok h -> Forall (λ e, is_Some (get_dirent h e)) xs -> sorted_by (pos_callback h) xs -> pos_sorted h xs.
Proof.
  intros Hk HF Hs a b x y Hab Hx Hy. rewrite list.Forall_lookup in HF. destruct (HF _ _ Hx) as [dx Hdx], (HF _ _ Hy) as [dy Hdy].
  unfold pos_of. rewrite Hdx, Hdy. destruct (decide (a = b)) as [->|Hne]; [assert (dx = dy) as -> by congruence; done|].
  assert (Hc : pos_callback h x y <= 0). { eapply (sorted_le _ xs a b); eauto. lia. }
  rewrite (pos_cmp h x y dx dy) in Hc by done. lia.
Qed.

(** Where the entries from [pos] on start. *)
Definition splits (h : gmap Z object) (pos : Z) (xs : list Z) (k : nat) : Prop :=
  (∀ j e, (j < k)%nat -> xs !! j = Some e -> pos_of h e < pos) ∧ (∀ j e, (k <= j)%nat -> xs !! j = Some e -> pos <= pos_of h e).

Section Loop.
Context (W : gmap Z (list Z * list Z)) (p : Z) (ps es xs : list Z) (pos : Z) (h : gmap Z object).
Context (HW : W !! p = Some (ps, es)).

Record loop_ok (st : sst) : Prop := {
  lk_stg : stg_ok st W;
  lk_plenty : plenty st;
  lk_funcs : s_funcs st !! p = Some KDirents;
  lk_obj : s_obj st = h;
  lk_by : by_pos st p xs
}.

Context (Hdir : Forall (λ e, is_Some (get_dirent h e)) es).

Lemma loop_read st n : loop_ok st -> 1 <= n <= Z.of_nat (length es) ->
  ∃ e st', lcall (read_index p 1 n) st = Some ((0, Some e), st') ∧ sframe st st' ∧ loop_ok st' ∧ xs !! Z.to_nat (n - 1) = Some e ∧
    is_Some (get_dirent h e) ∧ pos_sorted h xs ∧ xs ≡ₚ es.
Proof using All.
  intros [H1 H2 H3 H4 H5] Hn. destruct (call_read_index st W p ps es KDirents (so_lists _ _ H1) HW H3 n eq_refl Hn) as (r & st' & Hr & Hobj & Hfr & HL & Hcase).
  destruct Hcase as [(_ & Hno & _)|(ys & e & -> & Hp & Hs & He & Hby & Hu)]; [by apply plenty_memory in Hno|]. rewrite <- (Hu xs H5) in *.
  assert (HFx : Forall (λ e, is_Some (get_dirent h e)) xs) by by rewrite Hp.
  exists e, st'. split_and!; [done|done| |done| | |done].
  - split; [by eapply stg_call|by eapply plenty_frame|eapply lookup_weaken; [done|apply Hfr]|congruence|done].
  - rewrite list.Forall_lookup in HFx. by eapply HFx.
  - subst h. apply sorted_pos; [apply (lo_keys _ _ (so_lists _ _ H1))|done|done].
Qed.

Lemma loop_run fuel low high best st : loop_ok st -> 1 <= low -> low <= high + 1 -> high <= Z.of_nat (length es) -> (Z.to_nat (high - low + 1) <= fuel)%nat ->
  (∀ j e, (j < Z.to_nat (low - 1))%nat -> xs !! j = Some e -> pos_of h e < pos) ->
  (∀ j e, (Z.to_nat high <= j)%nat -> xs !! j = Some e -> pos <= pos_of h e) -> best = default 0 (xs !! Z.to_nat high) ->
  ∃ k st', next_loop fuel p 1 pos low high best st = Some (default 0 (xs !! k), st') ∧ sframe st st' ∧ loop_ok st' ∧ splits h pos xs k.
Proof using All.
  revert low high best st. induction fuel as [|fuel IH]; intros low high best st Hst Hlow Hlh Hhigh Hfuel Hlt Hge ->.
  { simpl. rewrite (proj2 (Z.leb_gt low high)) by lia. exists (Z.to_nat high), st. split_and!; [done|done|done|]. split; [|done]. intros j e Hj. apply Hlt. lia. }
  simpl. destruct (Z.leb_spec low high) as [Hle|Hgt].
  2: { exists (Z.to_nat high), st. split_and!; [done|done|done|]. split; [|done]. intros j e Hj. apply Hlt. lia. }
  set (cur := (low + high) ÷ 2). assert (Hcur : low <= cur <= high). { unfold cur. rewrite Z.quot_div_nonneg by lia. split; [apply Z.div_le_lower_bound|apply Z.div_le_upper_bound]; lia. }
  destruct (loop_read st cur Hst) as (e & st1 & Hr & Hfr & Hst1 & He & [d Hd] & Hs & _); [lia|]. srun Hr. change (negb (0 =? 0)) with false. cbv iota.
  unfold sopt at 1. unfold sbind at 1. cbn [option_map]. assert (Hd1 : get_dirent (s_obj st1) e = Some d) by by rewrite (lk_obj _ Hst1). srun (dirent_at_run _ _ _ Hd1).
  assert (Ep : pos_of h e = di_pos d) by (unfold pos_of; by rewrite Hd).
  destruct (Z.leb_spec pos (di_pos d)) as [Hpos|Hpos].
  - destruct (IH low (cur - 1) e st1 Hst1) as (k & st' & Hr' & Hfr' & Hst' & Hk); [lia|lia|lia|lia|done| |by rewrite He|].
    + intros j y Hj Hy. pose proof (Hs (Z.to_nat (cur - 1)) j e y Hj He Hy). lia.
    + exists k, st'. split_and!; [done|by transitivity st1|done|done].
  - destruct (IH (cur + 1) high (default 0 (xs !! Z.to_nat high)) st1 Hst1) as (k & st' & Hr' & Hfr' & Hst' & Hk); [lia|lia|lia|lia| |done|done|].
    + intros j y Hj Hy. assert (Hjc : (j <= Z.to_nat (cur - 1))%nat) by lia. pose proof (Hs j (Z.to_nat (cur - 1)) y e Hjc Hy He). lia.
    + exists k, st'. split_and!; [done|by transitivity st1|done|done].
Qed.
End Loop.

(** ** The next entry *)

(** The entry at [r] is the one with the lowest position from [pos] on; 0 when there is none. *)
Definition next_at (h : gmap Z object) (ds : list ovlfs_dir_info_t) (pos r : Z) : Prop :=
  r = 0 ∧ Forall (λ d, di_pos d < pos) ds ∨
  r ≠ 0 ∧ ∃ d, get_dirent h r = Some d ∧ d ∈ ds ∧ pos <= di_pos d ∧ Forall (λ x, pos <= di_pos x -> di_pos d <= di_pos x) ds.

Lemma split_next h ds es xs pos k : Forall2 (λ e d, get_dirent h e = Some d) es ds -> Forall (λ e, e ≠ 0) es -> xs ≡ₚ es -> pos_sorted h xs ->
  splits h pos xs k -> next_at h ds pos (default 0 (xs !! k)).
Proof.
  intros HF2 Hne Hp Hs [Hlt Hge].
  assert (Hds : ∀ x, x ∈ ds -> ∃ j e, xs !! j = Some e ∧ pos_of h e = di_pos x).
  { intros x [m Hm]%list_elem_of_lookup. destruct (Forall2_lookup_r _ _ _ _ _ HF2 Hm) as (e & He & Hx). assert (Hin : e ∈ xs) by (rewrite Hp; by eapply list_elem_of_lookup_2).
    apply list_elem_of_lookup in Hin as [j Hj]. exists j, e. split; [done|]. unfold pos_of. by rewrite Hx. }
  destruct (xs !! k) as [e|] eqn:Ek; simpl.
  - right. assert (Hin : e ∈ es) by (rewrite <- Hp; by eapply list_elem_of_lookup_2). rewrite list.Forall_forall in Hne. split; [by apply Hne|].
    apply list_elem_of_lookup in Hin as [m Hm]. destruct (Forall2_lookup_l _ _ _ _ _ HF2 Hm) as (d & Hd & Hg). exists d.
    assert (Ep : pos_of h e = di_pos d) by (unfold pos_of; by rewrite Hg). split_and!; [done|by eapply list_elem_of_lookup_2|rewrite <- Ep; by eapply Hge|].
    rewrite list.Forall_forall. intros x Hx Hpx. destruct (Hds x Hx) as (j & y & Hj & Ey). rewrite <- Ep, <- Ey. apply (Hs k j); [|done|done].
    destruct (decide (j < k)%nat) as [Hjk|]; [|lia]. specialize (Hlt j y Hjk Hj). lia.
  - left. split; [done|]. rewrite list.Forall_forall. intros x Hx. destruct (Hds x Hx) as (j & y & Hj & <-). apply (Hlt j y); [|done].
    apply lookup_ge_None in Ek. apply lookup_lt_Some in Hj. lia.
Qed.

Section Next.
Context (n : Z) (st : sst) (W : gmap Z (list Z * list Z)) (ips : list Z) (fs : afs) (HF : fs_ok n st W ips fs).
Context (m : nat) (ip : Z) (a : anode) (i : ovlfs_inode_t).
Context (Hip : ips !! m = Some ip) (Ha : af_nodes fs !! m = Some a) (Hi : get_inode (s_obj st) ip = Some i).

(** The search for an entry at the position. *)
Lemma pos_search ds pos : an_dir a = Some ds -> 0 <= pos < 2 ^ 31 -> ∃ r st1,
  with_tmp (ODirent (DirInfo [] 0 0 0 pos)) (lcall (search_index (oi_dir_entries i) 1 TMP)) st = Some (r, st1) ∧ s_obj st1 = s_obj st ∧ sframe st st1 ∧ stg_ok st1 W ∧
  ((∃ xs j e, r = (0, Some (j + 1)) ∧ 0 <= j ∧ by_pos st1 (oi_dir_entries i) xs ∧ length xs = length ds ∧ xs !! Z.to_nat j = Some e ∧ pos_of (s_obj st) e = pos) ∨
   r = (- ENOENT, None) ∧ (ds = [] ∨ ∃ xs, by_pos st1 (oi_dir_entries i) xs)).
Proof using All.
  intros Hds Hpos. destruct (dir_list n st W ips fs HF m ip a i Hip Ha Hi ds Hds) as (ps & es & H0 & HW & Hf & Hx & HF2). pose proof (fo_stg _ _ _ _ _ HF) as HS.
  set (o := ODirent (DirInfo [] 0 0 0 pos)). assert (Hok : obj_ok o) by (unfold o, obj_ok, dirent_ok; simpl; split_and!; [done|lia|constructor|lia..]).
  destruct (call_search_index (tmp_state st o) W _ ps es KDirents (tmp_lists st W o HS Hok) HW Hf TMP eq_refl) as (r & st2 & Hr & Hobj & Hfr & HL & Hcase).
  destruct (with_tmp_call st W o HS Hok (search_index (oi_dir_entries i) 1 TMP) r st2 W Hr Hobj Hfr HL) as (H1 & H2 & H3).
  { intros q ps' es' Hq. by eapply (no_tmp st W q). }
  exists r, (set_objs st2 (s_obj st)). split_and!; [done|done|done|done|].
  assert (Hf2 : s_funcs st2 !! oi_dir_entries i = Some KDirents) by (eapply lookup_weaken; [exact Hf|apply Hfr]).
  destruct Hcase as [(_ & Hno & _)|[(-> & _ & Hby)|(xs & j & e & -> & Hj & Hby & Hp & _ & He & Hz)]].
  - destruct (fo_plenty _ _ _ _ _ HF) as [Hpl _]. unfold no_memory in Hno. simpl in Hno. by rewrite Hpl in Hno.
  - right. split; [done|]. destruct Hby as [->|[xs Hby]]; [left; by apply Forall2_nil_inv_l in HF2|right; exists xs; by apply by_pos_objs].
  - left. exists xs, j, e. split_and!; [done|done|by apply by_pos_objs|by rewrite Hp, (Forall2_length HF2)|done|]. assert (Hin : e ∈ es) by (rewrite <- Hp; by eapply list_elem_of_lookup_2).
    assert (Het : e ≠ TMP) by (intros ->; by eapply no_tmp). apply list_elem_of_lookup in Hin as [q Hq]. destruct (Forall2_lookup_l _ _ _ _ _ HF2 Hq) as (d & _ & Hd).
    rewrite (pos_cmp _ TMP e (DirInfo [] 0 0 0 pos) d) in Hz; [|apply (lo_keys _ _ (tmp_lists st W o HS Hok))|simpl; apply get_dirent_insert|simpl; by rewrite get_dirent_insert_ne].
    unfold pos_of. rewrite Hd. simpl in Hz. lia.
Qed.

Lemma find_next_run ds pos : an_dir a = Some ds -> 0 <= pos < 2 ^ 31 ->
  ∃ r st', ovlfs_stg1_find_next ip pos st = Some ((0, Some r), st') ∧ s_obj st' = s_obj st ∧ sframe st st' ∧ fs_ok n st' W ips fs ∧ next_at (s_obj st) ds pos r.
Proof using All.
  intros Hds Hpos. destruct (dir_list n st W ips fs HF m ip a i Hip Ha Hi ds Hds) as (ps & es & H0 & HW & Hf & Hx & HF2).
  assert (Hdir : Forall (λ e, is_Some (get_dirent (s_obj st) e)) es).
  { rewrite list.Forall_lookup. intros j e Hj. destruct (Forall2_lookup_l _ _ _ _ _ HF2 Hj) as (d & _ & Hd). by exists d. }
  assert (Hne : Forall (λ e, e ≠ 0) es).
  { rewrite list.Forall_forall in Hdir |- *. intros e He. destruct (Hdir e He) as [d Hd%get_dirent_some]. pose proof (so_addr _ _ (fo_stg _ _ _ _ _ HF) _ _ Hd). lia. }
  unfold ovlfs_stg1_find_next. srun (inode_at_run _ _ _ Hi). rewrite Hx. assert (u32 pos = pos) as -> by (apply Z.mod_small; lia).
  destruct (pos_search ds pos Hds Hpos) as (r & st1 & Hr & Hobj & Hfr & HS1 & Hcase). srun Hr.
  assert (Hlk : ∀ xs, by_pos st1 (oi_dir_entries i) xs -> loop_ok W (oi_dir_entries i) xs (s_obj st) st1).
  { intros xs Hby. split; [done|eapply plenty_frame; [exact Hfr|apply (fo_plenty _ _ _ _ _ HF)]|eapply lookup_weaken; [done|apply Hfr]|done|done]. }
  assert (Hend : ∀ xs st', sframe st1 st' -> loop_ok W (oi_dir_entries i) xs (s_obj st) st' -> s_obj st' = s_obj st ∧ sframe st st' ∧ fs_ok n st' W ips fs).
  { intros xs st' Hfr' [G1 G2 G3 G4 G5]. assert (sframe st st') by (by transitivity st1). split_and!; [done|done|by eapply fs_ok_quiet]. }
  destruct Hcase as [(xs & j & e & -> & Hj & Hby & Hlen & He & Hpe)|(-> & Hby)].
  - change (0 =? 0) with true. cbv iota. unfold sopt at 1. unfold sbind at 1. cbn [option_map]. pose proof (lookup_lt_Some _ _ _ He). pose proof (Forall2_length HF2).
    destruct (loop_read W _ ps es xs pos (s_obj st) HW Hdir st1 (j + 1) (Hlk xs Hby)) as (e' & st2 & Hr2 & Hfr2 & Hlk2 & He' & _ & _ & Hp); [lia|].
    replace (j + 1 - 1) with j in He' by lia. assert (e' = e) as -> by congruence. srun Hr2. exists e, st2. split; [done|].
    destruct (Hend xs st2 Hfr2 Hlk2) as (? & ? & ?). split_and!; [done|done|done|]. right. assert (Hin : e ∈ es) by (rewrite <- Hp; by eapply list_elem_of_lookup_2).
    rewrite list.Forall_forall in Hne. split; [by apply Hne|]. apply list_elem_of_lookup in Hin as [q Hq]. destruct (Forall2_lookup_l _ _ _ _ _ HF2 Hq) as (d & Hd & Hg).
    unfold pos_of in Hpe. rewrite Hg in Hpe. exists d. split_and!; [done|by eapply list_elem_of_lookup_2|lia|]. rewrite list.Forall_forall. intros x _. lia.
  - change (- ENOENT =? 0) with false. change (negb (- ENOENT =? - ENOENT)) with false. cbv iota.
    destruct (list_length_run st1 W _ ps es KDirents HS1 HW) as (st2 & Hl & Hobj2 & Hfr2 & HS2 & Hby2); [eapply lookup_weaken; [done|apply Hfr]|]. srun Hl.
    destruct (decide (es = [])) as [->|Hes].
    + apply Forall2_nil_inv_l in HF2 as ->. exists 0, st2. split; [done|]. assert (sframe st st2) by (by transitivity st1).
      split_and!; [congruence|done|eapply fs_ok_quiet; [done|congruence|done|done]|]. by left.
    + destruct Hby as [->|[xs Hby]]; [by apply Forall2_nil_inv_r in HF2|]. assert (Hlk2 : loop_ok W (oi_dir_entries i) xs (s_obj st) st2).
      { destruct (Hlk xs Hby) as [G1 G2 G3 G4 G5]. split; [done|by eapply plenty_frame|eapply lookup_weaken; [done|apply Hfr2]|congruence|by apply Hby2]. }
      assert (Hl1 : 1 <= 1 <= Z.of_nat (length es)) by (destruct es; [done|simpl; lia]).
      destruct (loop_read W _ ps es xs pos (s_obj st) HW Hdir st2 1 Hlk2 Hl1) as (_ & _ & _ & _ & _ & _ & _ & Hs & Hp). pose proof (Permutation_length Hp) as Hpl.
      destruct (loop_run W _ ps es xs pos (s_obj st) HW Hdir (Datatypes.S (Z.to_nat (Z.of_nat (length es)))) 1 (Z.of_nat (length es)) 0 st2 Hlk2) as (k & st3 & Hr3 & Hfr3 & Hlk3 & Hk);
        [lia|lia|lia|lia|intros j e Hj; lia|intros j e Hj He%lookup_lt_Some; lia|rewrite lookup_ge_None_2; [done|lia]|].
      srun Hr3. exists (default 0 (xs !! k)), st3. split; [done|]. destruct (Hend xs st3 (transitivity Hfr2 Hfr3) Hlk3) as (? & ? & ?). split_and!; [done|done|done|].
      by eapply split_next.
Qed.
End Next.

(** ** Reading a whole directory *)

(** The calls a reader makes: from position 0 on, each with the position the last one
    left, until there is no entry. *)
Fixpoint list_dir (fuel : nat) (inum pos : Z) : SM (list ovlfs_dir_info_t) :=
  match fuel with
  | O => λ _, None
  | S fuel' =>
      let@ (_, r, pos') := ovlfs_stg1_get_dirent inum pos in
      let@ p := sopt r in
      if p =? 0 then sret []
      else
        let@ d := dirent_at p in
        let@ rest := list_dir fuel' inum pos' in
        sret (d :: rest)
  end.

(** What is left to visit. *)
Definition from_pos (pos : Z) (ds : list ovlfs_dir_info_t) : list ovlfs_dir_info_t := List.filter (λ d, pos <=? di_pos d) ds.

Lemma in_from pos ds d : d ∈ from_pos pos ds <-> d ∈ ds ∧ pos <= di_pos d.
Proof. unfold from_pos. rewrite list_elem_of_In, List.filter_In, <- list_elem_of_In. by rewrite Z.leb_le. Qed.

Lemma from_nil pos ds : Forall (λ d, di_pos d < pos) ds -> from_pos pos ds = [].
Proof. induction 1 as [|d ds Hd _ IH]; simpl; [done|]. by rewrite (proj2 (Z.leb_gt pos (di_pos d))). Qed.

Lemma from_next pos ds d : NoDup (di_pos <$> ds) -> d ∈ ds -> pos <= di_pos d -> Forall (λ x, pos <= di_pos x -> di_pos d <= di_pos x) ds ->
  from_pos pos ds ≡ₚ d :: from_pos (di_pos d + 1) ds.
Proof.
  intros Hnd Hd Hp HF. induction ds as [|x ds IH]; [by apply not_elem_of_nil in Hd|]. simpl in Hnd. apply list.NoDup_cons in Hnd as [Hx Hnd].
  apply list.Forall_cons in HF as [HFx HF]. simpl. apply elem_of_cons in Hd as [<-|Hd].
  - rewrite (proj2 (Z.leb_le pos (di_pos d))), (proj2 (Z.leb_gt (di_pos d + 1) (di_pos d))) by lia. constructor. apply Permutation_refl'. unfold from_pos.
    apply List.filter_ext_in. intros y Hy%list_elem_of_In. rewrite list.Forall_forall in HF. specialize (HF y Hy).
    assert (di_pos y ≠ di_pos d) by (intros E; apply Hx; rewrite <- E; by apply list_elem_of_fmap_2). lia.
  - specialize (IH Hnd Hd HF). assert (Hne : di_pos d ≠ di_pos x) by (intros E; apply Hx; rewrite <- E; by apply list_elem_of_fmap_2).
    destruct (Z.leb_spec pos (di_pos x)) as [Hle|Hlt].
    + rewrite (proj2 (Z.leb_le (di_pos d + 1) (di_pos x))) by (specialize (HFx Hle); lia). rewrite IH. constructor.
    + by rewrite (proj2 (Z.leb_gt (di_pos d + 1) (di_pos x))) by lia.
Qed.

Section List.
Context (n : Z) (W : gmap Z (list Z * list Z)) (ips : list Z) (fs : afs) (num : Z) (a : anode).
Context (Hnum : 0 <= num < 2 ^ 32) (Hat : at_num (af_nodes fs) num = Some a).

(** One call: the entry with the lowest position from [pos] on, and the position after it. *)
Lemma get_dirent_run st pos : fs_ok n st W ips fs -> 0 <= pos < 2 ^ 31 ->
  ∃ r st', ovlfs_stg1_get_dirent num pos st = Some ((0, Some r, if r =? 0 then pos else u32 (pos_of (s_obj st) r + 1)), st') ∧ s_obj st' = s_obj st ∧
    fs_ok n st' W ips fs ∧ next_at (s_obj st) (entries a) pos r.
Proof using All.
  intros HF Hpos. destruct (get_node n st W ips fs HF num Hnum) as (ip & st1 & Hr & Hobj & Hfr & HF1 & Hcase). rewrite Hat in Hcase.
  destruct Hcase as (Hip0 & Hip & Ha & i & Hi). unfold ovlfs_stg1_get_dirent. srun Hr. rewrite (proj2 (Z.eqb_neq _ _) Hip0). srun (inode_at_run _ _ _ Hi).
  destruct (an_dir a) as [ds|] eqn:Hds.
  2: { rewrite (no_dir_list n st1 W ips fs HF1 _ ip a i Hip Ha Hi Hds). exists 0, st1. split; [done|]. split_and!; [done|done|]. unfold entries. rewrite Hds. left. split; [done|constructor]. }
  destruct (dir_list n st1 W ips fs HF1 _ ip a i Hip Ha Hi ds Hds) as (_ & _ & H0 & _). rewrite (proj2 (Z.eqb_neq _ _) H0).
  destruct (find_next_run n st1 W ips fs HF1 _ ip a i Hip Ha Hi ds pos Hds Hpos) as (r & st2 & Hr2 & Hobj2 & Hfr2 & HF2 & Hnext). srun Hr2. change (0 =? 0) with true. cbv iota.
  unfold sopt at 1. unfold sbind at 1. cbn [option_map]. rewrite (entries_dir a ds Hds), <- Hobj. exists r, st2.
  destruct Hnext as [[-> HFn]|(Hr0 & d & Hd & Hin & Hp & HFn)].
  - split; [done|]. split_and!; [congruence|done|by left].
  - rewrite (proj2 (Z.eqb_neq _ _) Hr0). assert (Hd2 : get_dirent (s_obj st2) r = Some d) by by rewrite Hobj2. srun (dirent_at_run _ _ _ Hd2).
    split; [unfold pos_of; by rewrite Hd|]. split_and!; [congruence|done|]. right. split; [done|]. exists d. split_and!; [congruence|done|done|done].
Qed.

Lemma list_dir_run fuel pos st : fs_ok n st W ips fs -> 0 <= pos < 2 ^ 31 -> (length (from_pos pos (entries a)) < fuel)%nat ->
  ∃ xs st', list_dir fuel num pos st = Some (xs, st') ∧ fs_ok n st' W ips fs ∧ xs ≡ₚ from_pos pos (entries a) ∧ StronglySorted (λ x y, di_pos x < di_pos y) xs.
Proof using All.
  revert pos st. induction fuel as [|fuel IH]; intros pos st HF Hpos Hfuel; [lia|]. simpl.
  destruct (get_dirent_run st pos HF Hpos) as (r & st1 & Hr & Hobj & HF1 & Hnext). srun Hr. unfold sopt at 1. unfold sbind at 1. cbn [option_map].
  destruct Hnext as [[-> HFn]|(Hr0 & d & Hd & Hin & Hp & HFn)].
  - exists [], st1. split; [done|]. rewrite (from_nil _ _ HFn). split_and!; [done|done|constructor].
  - rewrite (proj2 (Z.eqb_neq _ _) Hr0). assert (Hd1 : get_dirent (s_obj st1) r = Some d) by by rewrite Hobj. srun (dirent_at_run _ _ _ Hd1).
    assert (Ha : af_nodes fs !! Z.to_nat (num - 1) = Some a) by by apply at_num_some in Hat as [_ ?].
    destruct (node_at n st1 W ips fs HF1 _ a Ha) as (ip & i & Hip & Hi & _ & [_ _ [_ Hnd Hlast _ _]]). pose proof (last_room n st1 W ips fs HF1 _ a Ha).
    rewrite list.Forall_forall in Hlast. pose proof (Hlast d Hin). assert (Ep : u32 (pos_of (s_obj st) r + 1) = di_pos d + 1).
    { unfold pos_of. rewrite Hd. apply Z.mod_small. lia. }
    rewrite Ep. pose proof (from_next pos (entries a) d Hnd Hin Hp HFn) as Hperm. pose proof (Permutation_length Hperm) as Hlen. simpl in Hlen.
    destruct (IH (di_pos d + 1) st1 HF1) as (xs & st2 & Hr2 & HF2 & Hxs & Hsorted); [lia|lia|]. srun Hr2. exists (d :: xs), st2. split; [done|]. split_and!; [done| |].
    + by rewrite Hperm, Hxs.
    + constructor; [done|]. rewrite list.Forall_forall. intros y Hy. rewrite Hxs in Hy. apply in_from in Hy as [_ Hy]. lia.
Qed.
End List.

Lemma entry_pos n st W ips fs num a : fs_ok n st W ips fs -> at_num (af_nodes fs) num = Some a -> from_pos 0 (entries a) = entries a.
Proof.
  intros HF [_ Ha]%at_num_some. destruct (node_at n st W ips fs HF _ a Ha) as (ip & i & _ & _ & _ & [_ Hdir _]).
  assert (Hp : Forall (λ d, 0 <= di_pos d) (entries a)).
  { unfold entries, dir_at in *. destruct (an_dir a) as [ds|]; simpl; [|constructor]. destruct Hdir as (ps & es & _ & _ & _ & HF2).
    rewrite list.Forall_lookup. intros j d Hj. destruct (Forall2_lookup_r _ _ _ _ _ HF2 Hj) as (e & _ & He).
    destruct (get_dirent_ok _ (lo_keys _ _ (so_lists _ _ (fo_stg _ _ _ _ _ HF))) e d He) as (_ & _ & _ & ?). lia. }
  induction Hp as [|d ds Hd _ IH]; simpl; [done|]. by rewrite (proj2 (Z.leb_le 0 (di_pos d))), IH.
Qed.

(** C16.  Reading a directory from its start with ovlfs_stg1_get_dirent, each call at the
    position the one before left, ends, and gives every entry of the directory exactly
    once, in the order of the positions (which is the order they were added in); the
    storage still stands for the same abstract one. *)
Theorem directory_listing n st v num b : represents n st v -> 0 <= num < 2 ^ 32 -> at_num (vf_nodes v) num = Some b ->
  ∃ xs st', list_dir (S (size (names b))) num 0 st = Some (xs, st') ∧
    ((λ d, (di_name d, (di_ino d, di_flags d))) <$> xs) ≡ₚ map_to_list (names b) ∧
    StronglySorted (λ x y, di_pos x < di_pos y) xs ∧ represents n st' v.
Proof.
  intros (W & ips & fs & HF & <-) Hnum Hb. rewrite at_num_view in Hb. destruct (at_num (af_nodes fs) num) as [a|] eqn:Ea; [|done]. injection Hb as <-.
  pose proof (entry_pos n st W ips fs num a HF Ea) as E0. pose proof Ea as [_ Ha]%at_num_some.
  destruct (node_at n st W ips fs HF _ a Ha) as (ip & i & _ & _ & _ & [_ _ [Hnd _ _ _ _]]). rewrite names_view.
  assert (Hsize : size (dir_view (entries a)) = length (entries a)) by by apply view_size_all.
  destruct (list_dir_run n W ips fs num a Hnum Ea (S (size (dir_view (entries a)))) 0 st HF) as (xs & st' & Hr & HF' & Hp & Hs); [lia|rewrite E0, Hsize; lia|].
  rewrite E0 in Hp. exists xs, st'. split_and!; [done| |done|by exists W, ips, fs].
  rewrite Hp. symmetry. apply map_to_list_to_map. by rewrite view_keys.
Qed.

(** A directory with three entries, one of them marked as removed. *)
Lemma directory_listing_witness :
  let st0 := empty_storage (KMem ∅ ∅ 16 0 (λ _, true) (λ _, true) 0) 0 10 20 in
  let os := [OpAddInode 0 None 0 0; OpAddDirent 1 [99] 1 2; OpAddDirent 1 [97] 1 3; OpAddDirent 1 [98; 98] 2 4; OpUnlink 1 [97] 1] in
  ∃ rs st1 xs st2, run_sops os st0 = Some (rs, st1) ∧ list_dir 4 1 0 st1 = Some (xs, st2) ∧ length xs = 3%nat.
Proof.
  intros st0 os. destruct (sops_run os 0 st0 (Vfs [] ∅ ∅)) as (st1 & Hr & HR).
  - apply empty_represents; [split; [simpl; lia|done]|done|done|lia|simpl; lia].
  - lia.
  - unfold os. repeat constructor; simpl; unfold name_char; try lia.
  - constructor.
  - assert (∃ b, at_num (vf_nodes (spec_sops os (Vfs [] ∅ ∅)).2) 1 = Some b ∧ size (names b) = 3%nat) as (b & Hb & Hsize).
    { eexists. split; [vm_compute; reflexivity|vm_compute; reflexivity]. }
    destruct (directory_listing 0 st1 _ 1 b HR) as (xs & st2 & Hl & Hp & _); [lia|exact Hb|]. rewrite Hsize in Hl.
    exists (spec_sops os (Vfs [] ∅ ∅)).1, st1, xs, st2. split_and!; [exact Hr|exact Hl|]. apply Permutation_length in Hp.
    rewrite length_fmap, length_map_to_list, Hsize in Hp. exact Hp.
Defined.
