(* ===== verification/StgFmt.v ===== *)
(** The format of the storage file of the overlay file system, and the steps that read
    and write its words. *)
From S2P Require Import Prelude Bytecode KList Stg FileIo StgFile StgSpec.
Open Scope Z_scope.

(** ** The format *)
Definition int_bytes (v : Z) : list Z := le_bytes 4 (u32 v).

Abbreviation dirent_data := (list Z * (Z * Z))%type.
Abbreviation map_data := (Z * Z * Z)%type.

Definition entry_bytes (e : dirent_data) : list Z :=
  let '(name, (ino, fl)) := e in int_bytes (Z.of_nat (length name)) ++ name ++ int_bytes ino ++ int_bytes fl.

(** The integers at the start of an inode; the mode is 0 when there are no attributes. *)
Definition node_words (a : vnode) : list Z :=
  let t := vn_attr a in
  [sp_flags (vn_s a); at_uid t; at_gid t; if vn_valid a then at_mode t else 0; at_size t; at_atime t; at_mtime t; at_ctime t;
   at_nlink t; at_blksize t; at_blocks t; at_version t; at_nrpages t].

Definition pair_bytes (c : bool) (dev ino : Z) : list Z := if c then int_bytes dev ++ int_bytes ino else [].

Definition spec_bytes (opts : Z) (s : ovlfs_inode_special_t) : list Z :=
  int_bytes (sp_parent_ino s) ++ pair_bytes (has opts OVLFS_STORE_BASE_MAP) (sp_base_dev s) (sp_base_ino s) ++
  pair_bytes (has opts OVLFS_STORE_STG_MAP) (sp_stg_dev s) (sp_stg_ino s) ++ int_bytes (sp_flags s) ++
  int_bytes (Z.max 0 (sp_len s)) ++ (if 0 <? sp_len s then default [] (sp_name s) else []).

(** What follows depends on the mode: the number of the device, or the entries. *)
Definition det_bytes (a : vnode) (es : list dirent_data) : list Z :=
  if is_device (at_mode (vn_attr a)) then int_bytes (vn_u a)
  else if S_ISDIR (at_mode (vn_attr a)) then int_bytes (Z.of_nat (length es)) ++ concat (entry_bytes <$> es)
  else [].

Definition node_body (opts : Z) (a : vnode) (es : list dirent_data) : list Z :=
  concat (int_bytes <$> node_words a) ++ spec_bytes opts (vn_s a) ++ det_bytes a es.

(** An inode starts with the number of bytes it has. *)
Definition node_bytes (opts : Z) (a : vnode) (es : list dirent_data) : list Z :=
  int_bytes (4 + Z.of_nat (length (node_body opts a es))) ++ node_body opts a es.

Definition map_bytes (m : map_data) : list Z := let '(dev, ino, o) := m in int_bytes dev ++ int_bytes ino ++ int_bytes o.
Definition maps_bytes (ms : list map_data) : list Z := int_bytes (Z.of_nat (length ms)) ++ concat (map_bytes <$> ms).

Definition image (opts : Z) (ns : list vnode) (ess : list (list dirent_data)) (base stg : list map_data) : list Z :=
  int_bytes OVLFS_SUPER_MAGIC ++ MAGIC_WORD_V4 ++ int_bytes (stg_flags_of opts) ++ int_bytes (Z.of_nat (length ns)) ++
  concat (zip_with (node_bytes opts) ns ess) ++ maps_bytes base ++ maps_bytes stg.

(** The mappings that are stored. *)
Definition stored (opts opt : Z) (mp : gmap (Z * Z) Z) : list map_data := if has opts opt then map_to_list mp else [].

(** The entries of a directory and the mappings are in any order. *)
Definition storage_file (opts : Z) (v : vfs) (bs : list Z) : Prop :=
  ∃ ess base stg, Forall2 (λ a es, es ≡ₚ map_to_list (names a)) (vf_nodes v) ess ∧
    base ≡ₚ stored opts OVLFS_STORE_BASE_MAP (vf_base v) ∧ stg ≡ₚ stored opts OVLFS_STORE_STG_MAP (vf_stg v) ∧
    bs = image opts (vf_nodes v) ess base stg.

(** The size of the file. *)
Definition node_size (opts : Z) (a : vnode) : nat := length (node_bytes opts a (map_to_list (names a))).
Definition file_size (opts : Z) (v : vfs) : nat :=
  (16 + sum_list_with (node_size opts) (vf_nodes v) + (4 + 12 * length (stored opts OVLFS_STORE_BASE_MAP (vf_base v))) +
   (4 + 12 * length (stored opts OVLFS_STORE_STG_MAP (vf_stg v))))%nat.

Lemma length_int v : length (int_bytes v) = 4%nat.
Proof. apply length_le_bytes. Qed.

Lemma concat_cons {A} (f : A -> list Z) x xs : concat (f <$> x :: xs) = f x ++ concat (f <$> xs).
Proof. done. Qed.

Lemma concat_perm {A} (f : A -> list Z) xs ys : xs ≡ₚ ys -> length (concat (f <$> xs)) = length (concat (f <$> ys)).
Proof. induction 1; csimpl; rewrite ?length_app; lia. Qed.

Lemma length_maps ms : length (maps_bytes ms) = (4 + 12 * length ms)%nat.
Proof.
  unfold maps_bytes. rewrite length_app, length_int. f_equal. induction ms as [|[[dev ino] o] ms IH]; [done|].
  rewrite concat_cons, length_app. unfold map_bytes at 1. rewrite !length_app, !length_int, IH. simpl length. lia.
Qed.

Lemma node_body_size opts a es : es ≡ₚ map_to_list (names a) -> length (node_body opts a es) = length (node_body opts a (map_to_list (names a))).
Proof.
  intros Hp. unfold node_body. rewrite !length_app. do 2 f_equal. unfold det_bytes. repeat case_match; try done.
  by rewrite !length_app, !length_int, (concat_perm _ _ _ Hp).
Qed.

(** ** Words *)
Lemma or_bytes_val bs cur res : Forall is_byte bs -> 0 <= cur -> 0 <= res < 2 ^ (cur * 8) -> cur + Z.of_nat (length bs) <= 4 ->
  or_bytes bs cur res = res + 2 ^ (cur * 8) * le_val bs.
Proof.
  intros Hb. revert cur res. induction Hb as [|b bs Hb _ IH]; intros cur res Hc Hr Hlen; cbn [or_bytes le_val]; [lia|]. simpl length in Hlen.
  unfold is_byte in Hb. change (b ≪ (cur * 8)) with (Z.shiftl b (cur * 8)) in *. rewrite lor_shiftl_add by lia.
  assert (Hp : 2 ^ ((cur + 1) * 8) = 2 ^ (cur * 8) * 256) by (replace ((cur + 1) * 8) with (cur * 8 + 8) by lia; rewrite Z.pow_add_r by lia; done).
  assert (Hm : 2 ^ ((cur + 1) * 8) <= 2 ^ 32) by (apply Z.pow_le_mono_r; lia).
  unfold wrap. rewrite Z.mod_small by nia. rewrite IH; [rewrite Hp; lia|lia|nia|lia].
Qed.

Lemma int_value v : or_bytes (int_bytes v) 0 0 = u32 v.
Proof.
  rewrite or_bytes_val; [|apply le_bytes_is_byte|lia|lia|rewrite length_int; lia]. unfold int_bytes. rewrite le_val_le_bytes. unfold wrap.
  change (256 ^ Z.of_nat 4) with (2 ^ 32). rewrite Z.mod_mod by lia. lia.
Qed.

Lemma int_bytes_u32 v : int_bytes (u32 v) = int_bytes v.
Proof. unfold int_bytes. by rewrite wrap_idemp. Qed.

#[global] Opaque int_bytes.

Lemma mapM_Some {A} (xs : list A) : mapM id (map Some xs) = Some xs.
Proof. induction xs as [|x xs IH]; [done|]. simpl. by rewrite IH. Qed.

(** ** Files and positions *)
Section Steps.
Context {F : Type} `{HOps : !file_operations F, HReg : !regular_file F}.

(** The descriptor is at the end of [pre] in a file that holds [pre ++ post]. *)
Definition at_file (tbl : fio_tbl F) (fd : Z) (room : nat) (pre post : list Z) : Prop :=
  length tbl = FIO_MAX_FILE ∧ ∃ f, file_at tbl fd = Some f ∧ f_data f = pre ++ post ∧ f_pos f = length pre ∧ f_room f = room.

Lemma at_file_put tbl fd f f' room pre post : length tbl = FIO_MAX_FILE -> file_at tbl fd = Some f -> f_data f' = pre ++ post -> f_pos f' = length pre ->
  f_room f' = room -> at_file (fio_put tbl fd f') fd room pre post.
Proof. intros Hl Hf Hd Hp Hr. destruct (fio_put_step tbl fd f f' Hl Hf) as [E Hh _]. split; [congruence|]. eauto. Qed.

Lemma fbind_run {A B} (f : FM A) (g : A -> FM B) st (tbl : fio_tbl F) a st' tbl' : f st tbl = Some (a, st', tbl') -> fbind f g st tbl = g a st' tbl'.
Proof. unfold fbind. by intros ->. Qed.

Lemma on_stg_run {A} (m : SM A) st (tbl : fio_tbl F) a st' : m st = Some (a, st') -> on_stg m st tbl = Some (a, st', tbl).
Proof. unfold on_stg. by intros ->. Qed.

(** ** Writing *)
Lemma write_bytes_run st tbl fd room pre post bs : at_file tbl fd room pre post -> (length pre + length bs <= room)%nat ->
  ∃ tbl', write_bytes fd bs (Z.of_nat (length bs)) st tbl = Some (Z.of_nat (length bs), st, tbl') ∧
    at_file tbl' fd room (pre ++ bs) (drop (length bs) post).
Proof.
  intros (Hl & f & Hf & Hd & Hp & <-) Hr. unfold write_bytes. rewrite Nat2Z.id. destruct (decide (bs = [])) as [->|Hne].
  { exists tbl. split; [done|]. split; [done|]. exists f. by rewrite app_nil_r. }
  assert (0 < length bs)%nat by (destruct bs; [done|simpl; lia]). simpl. rewrite (proj2 (Z.ltb_lt _ _)) by lia. rewrite Z.sub_0_r, Nat2Z.id, firstn_all.
  destruct (f_write_ok f bs) as (f' & Hw & Hd' & Hp' & Hr'); [lia|]. unfold on_tbl, fbind. change (drop (Z.to_nat 0) bs) with bs. rewrite (file_write_at _ _ _ _ _ _ Hf Hw).
  rewrite (proj2 (Z.ltb_ge _ _)) by lia. exists (fio_put tbl fd f'). split.
  - destruct (length bs) as [|k] eqn:E; [lia|]. cbn [write_bytes_loop]. by rewrite Z.add_0_l, Z.ltb_irrefl.
  - eapply at_file_put; [done|done| | |done].
    + rewrite Hd', Hd, Hp, take_app_length, drop_app_add. by rewrite app_assoc.
    + rewrite Hp', Hp, length_app. done.
Qed.

Lemma write_word_run st tbl fd room pre post v : at_file tbl fd room pre post -> (length pre + 4 <= room)%nat ->
  ∃ tbl', write_bytes fd (int_bytes v) 4 st tbl = Some (4, st, tbl') ∧ at_file tbl' fd room (pre ++ int_bytes v) (drop 4 post).
Proof.
  intros Ha Hr. destruct (write_bytes_run st tbl fd room pre post (int_bytes v) Ha) as (tbl' & H); rewrite length_int in *; [lia|]. by exists tbl'.
Qed.

(** ** Reading *)
Lemma read_bytes_run st tbl fd room pre bs post : at_file tbl fd room pre (bs ++ post) ->
  ∃ tbl', read_bytes fd (Z.of_nat (length bs)) st tbl = Some ((Z.of_nat (length bs), map Some bs), st, tbl') ∧ at_file tbl' fd room (pre ++ bs) post.
Proof.
  intros (Hl & f & Hf & Hd & Hp & <-). unfold read_bytes. rewrite Nat2Z.id. destruct (decide (bs = [])) as [->|Hne].
  { exists tbl. split; [done|]. split; [done|]. exists f. by rewrite app_nil_r. }
  assert (0 < length bs)%nat by (destruct bs; [done|simpl; lia]). cbn [read_bytes_loop]. rewrite (proj2 (Z.ltb_lt _ _)) by lia. rewrite Z.sub_0_r.
  destruct (f_read_ok f (Z.of_nat (length bs))) as (f' & Hw & Hd' & Hp' & Hr'); [lia|]. rewrite Nat2Z.id, Hd, Hp, drop_app_length, take_app_length in *.
  unfold on_tbl at 1, fbind at 1. rewrite (file_read_at _ _ _ _ _ _ _ Hf Hw). exists (fio_put tbl fd f'). split.
  - unfold fopt at 1, fbind at 1, blit. rewrite length_replicate. simpl (Z.to_nat 0). cbn [Z.leb]. rewrite (proj2 (Z.leb_le _ _)) by lia. cbn [andb option_map take app].
    rewrite drop_ge, app_nil_r by (rewrite length_replicate; lia). rewrite (proj2 (Z.ltb_lt 0 _)) by lia.
    destruct (length bs) as [|k] eqn:E; [lia|]. cbn [read_bytes_loop]. by rewrite Z.add_0_l, Z.leb_refl, Z.ltb_irrefl.
  - eapply at_file_put; [done|done| | |done].
    + by rewrite Hd', app_assoc.
    + rewrite Hp', length_app. done.
Qed.

Lemma read_word_run st tbl fd room pre v post : at_file tbl fd room pre (int_bytes v ++ post) ->
  ∃ tbl', read_word fd 4 st tbl = Some ((4, Some (u32 v)), st, tbl') ∧ at_file tbl' fd room (pre ++ int_bytes v) post.
Proof.
  intros Ha. destruct (read_bytes_run st tbl fd room pre (int_bytes v) post Ha) as (tbl' & Hr & Ha'). rewrite length_int in Hr. exists tbl'. split; [|done].
  unfold read_word. rewrite (fbind_run _ _ _ _ _ _ _ Hr). change (Z.of_nat 4) with 4. cbn [Z.ltb Z.eqb negb Z.compare Pos.compare Pos.compare_cont Pos.eqb].
  unfold fopt, fbind. rewrite mapM_Some. simpl option_map. cbv iota beta. by rewrite int_value.
Qed.

(** Seeking inside of the file. *)
Lemma seek_set_run tbl fd room pre post pre' post' : at_file tbl fd room pre post -> pre ++ post = pre' ++ post' ->
  ∃ tbl', file_lseek fd (Z.of_nat (length pre')) FILE_IO__SEEK_SET tbl = (Z.of_nat (length pre'), tbl') ∧ at_file tbl' fd room pre' post'.
Proof.
  intros (Hl & f & Hf & Hd & Hp & <-) E. destruct (f_seek_set f (Z.of_nat (length pre'))) as (f' & Hs & Hd' & Hp' & Hr').
  { rewrite Hd, E, length_app. lia. }
  exists (fio_put tbl fd f'). split; [exact (file_lseek_at _ _ _ _ _ _ _ Hf Hs)|]. eapply at_file_put; [done|done|congruence|lia|done].
Qed.

Lemma seek_cur_run tbl fd room pre bs post : at_file tbl fd room pre (bs ++ post) ->
  ∃ tbl', file_lseek fd (Z.of_nat (length bs)) FILE_IO__SEEK_CUR tbl = (Z.of_nat (length (pre ++ bs)), tbl') ∧ at_file tbl' fd room (pre ++ bs) post.
Proof.
  intros (Hl & f & Hf & Hd & Hp & <-). destruct (f_seek_cur f (Z.of_nat (length bs))) as (f' & Hs & Hd' & Hp' & Hr').
  { rewrite Hd, !length_app. lia. }
  assert (E : Z.of_nat (f_pos f) + Z.of_nat (length bs) = Z.of_nat (length (pre ++ bs))) by (rewrite Hp, length_app; lia). rewrite E in *.
  exists (fio_put tbl fd f'). split; [exact (file_lseek_at _ _ _ _ _ _ _ Hf Hs)|]. eapply at_file_put; [done|done|by rewrite Hd', Hd, app_assoc|lia|done].
Qed.

Lemma seek_end_run tbl fd room pre post : at_file tbl fd room pre post ->
  ∃ tbl', file_lseek fd 0 FILE_IO__SEEK_END tbl = (Z.of_nat (length (pre ++ post)), tbl') ∧ at_file tbl' fd room (pre ++ post) [].
Proof.
  intros (Hl & f & Hf & Hd & Hp & <-). destruct (f_seek_end f) as (f' & Hs & Hd' & Hp' & Hr'). rewrite Hd in *.
  exists (fio_put tbl fd f'). split; [exact (file_lseek_at _ _ _ _ _ _ _ Hf Hs)|]. eapply at_file_put; [done|done|by rewrite app_nil_r|done|done].
Qed.
End Steps.
