(* ===== verification/StgWrite.v ===== *)
(** Writing the storage file of the overlay file system: what is written is a file of the
    format in [StgFmt], and the storage stays as it is. *)
From S2P Require Import Prelude KList KListSort KListInv KListOps KListIdx KListThm KListDup KListKeep Stg FileIo StgFile StgOrd StgInv StgList StgStep StgSpec StgView StgDir StgEnt StgNode StgMap StgThm StgRefine StgFmt.
Open Scope Z_scope.

Section Steps.
Context {F : Type} `{HOps : !file_operations F, HReg : !regular_file F} (fd : Z) (room : nat).

(** Where there is room, [m] succeeds and appends [len] bytes, which are as [B] says; what
    [I] says of the storage stays true. *)
Definition wrt (I : sst -> Prop) (m : FM (F := F) Z) (len : nat) (B : list Z -> Prop) : Prop := ∀ st tbl pre post,
  I st -> at_file tbl fd room pre post -> (length pre + len <= room)%nat ->
  ∃ r st' tbl' bs, m st tbl = Some (r, st', tbl') ∧ 0 <= r ∧ I st' ∧ length bs = len ∧ B bs ∧ at_file tbl' fd room (pre ++ bs) (drop len post).

Section I.
Context (I : sst -> Prop).

Lemma wrt_ret r (B : list Z -> Prop) : 0 <= r -> B [] -> wrt I (fret r) 0 B.
Proof. intros Hr HB st tbl pre post Hi Ha _. exists r, st, tbl, []. by rewrite app_nil_r, drop_0. Qed.

Lemma wrt_bytes bs : wrt I (write_bytes fd bs (Z.of_nat (length bs))) (length bs) (eq bs).
Proof.
  intros st tbl pre post Hi Ha Hr. destruct (write_bytes_run st tbl fd room pre post bs Ha Hr) as (tbl' & Hw & Ha').
  exists (Z.of_nat (length bs)), st, tbl', bs. split_and!; try done. lia.
Qed.

Lemma wrt_int v : wrt I (write_integer fd v) 4 (eq (int_bytes v)).
Proof.
  intros st tbl pre post Hi Ha Hr. destruct (write_word_run st tbl fd room pre post v Ha Hr) as (tbl' & Hw & Ha').
  exists 4, st, tbl', (int_bytes v). split_and!; try done. unfold write_integer, sizeof_int. by rewrite (fbind_run _ _ _ _ _ _ _ Hw).
Qed.

Lemma wrt_long v : wrt I (write_long fd v) 4 (eq (int_bytes v)).
Proof.
  intros st tbl pre post Hi Ha Hr. destruct (write_word_run st tbl fd room pre post v Ha Hr) as (tbl' & Hw & Ha').
  exists 4, st, tbl', (int_bytes v). split_and!; try done. unfold write_long, sizeof_long. by rewrite (fbind_run _ _ _ _ _ _ _ Hw).
Qed.

(** One after the other. *)
Lemma wrt_bind m k l1 l2 (B1 B : list Z -> Prop) : wrt I m l1 B1 -> (∀ r b1, 0 <= r -> B1 b1 -> wrt I (k r) l2 (λ b2, B (b1 ++ b2))) ->
  wrt I (fbind m k) (l1 + l2) B.
Proof.
  intros Hm Hk st tbl pre post Hi Ha Hr. destruct (Hm st tbl pre post Hi Ha) as (r & st1 & tbl1 & b1 & Hw & Hr0 & Hi1 & Hl1 & HB1 & Ha1); [lia|].
  destruct (Hk r b1 Hr0 HB1 st1 tbl1 _ _ Hi1 Ha1) as (r2 & st2 & tbl2 & b2 & Hw2 & Hr2 & Hi2 & Hl2 & HB2 & Ha2); [rewrite length_app; lia|].
  exists r2, st2, tbl2, (b1 ++ b2). rewrite (fbind_run _ _ _ _ _ _ _ Hw), length_app. split_and!; [done|done|done|lia|done|].
  by rewrite app_assoc, <- drop_drop.
Qed.

Lemma wrt_seq m k l1 l2 (B1 B : list Z -> Prop) : wrt I m l1 B1 -> (∀ b1, B1 b1 -> wrt I k l2 (λ b2, B (b1 ++ b2))) -> wrt I (and_then m k) (l1 + l2) B.
Proof.
  intros Hm Hk. eapply wrt_bind; [exact Hm|]. intros r b1 Hr HB. rewrite (proj2 (Z.ltb_ge _ _)) by done. by apply Hk.
Qed.

(** With what is written known. *)
Lemma wrt_then m k l1 l2 x (B : list Z -> Prop) : wrt I m l1 (eq x) -> wrt I k l2 (λ b2, B (x ++ b2)) -> wrt I (and_then m k) (l1 + l2) B.
Proof. intros Hm Hk. eapply wrt_seq; [exact Hm|]. by intros ? <-. Qed.

Lemma wrt_bytes_bind bs k l (B : list Z -> Prop) : wrt I (k (Z.of_nat (length bs))) l (λ b2, B (bs ++ b2)) ->
  wrt I (fbind (write_bytes fd bs (Z.of_nat (length bs))) k) (length bs + l) B.
Proof.
  intros Hk st tbl pre post Hi Ha Hr. destruct (write_bytes_run st tbl fd room pre post bs Ha) as (tbl1 & Hw & Ha1); [lia|].
  destruct (Hk st tbl1 _ _ Hi Ha1) as (r2 & st2 & tbl2 & b2 & Hw2 & Hr2 & Hi2 & Hl2 & HB2 & Ha2); [rewrite length_app; lia|].
  exists r2, st2, tbl2, (bs ++ b2). rewrite (fbind_run _ _ _ _ _ _ _ Hw), length_app. split_and!; [done|done|done|lia|done|].
  by rewrite app_assoc, <- drop_drop.
Qed.

(** A step on the storage. *)
Lemma wrt_stg {A} (m : SM A) (k : A -> FM Z) a l B : (∀ st, I st -> ∃ st', m st = Some (a, st') ∧ I st') -> wrt I (k a) l B ->
  wrt I (fbind (on_stg m) k) l B.
Proof.
  intros Hm Hk st tbl pre post Hi Ha Hr. destruct (Hm st Hi) as (st1 & Hr1 & Hi1). rewrite (fbind_run _ _ _ _ _ _ _ (on_stg_run _ _ _ _ _ Hr1)). by apply Hk.
Qed.

Lemma wrt_mono m l l' (B B' : list Z -> Prop) : wrt I m l B -> l' = l -> (∀ bs, B bs -> B' bs) -> wrt I m l' B'.
Proof.
  intros Hm -> HB st tbl pre post Hi Ha Hr. destruct (Hm st tbl pre post Hi Ha Hr) as (r & st1 & tbl1 & b1 & ? & ? & ? & ? & ? & ?).
  exists r, st1, tbl1, b1. split_and!; auto.
Qed.

Lemma wrt_each w vs k l B : (∀ v, wrt I (w v) 4 (eq (int_bytes v))) -> wrt I k l (λ bs, B (concat (int_bytes <$> vs) ++ bs)) ->
  wrt I (write_each w vs k) (4 * length vs + l) B.
Proof.
  intros Hw. revert B. induction vs as [|v vs IH]; intros B Hk; [done|]. simpl write_each.
  replace (4 * length (v :: vs) + l)%nat with (4 + (4 * length vs + l))%nat by (simpl; lia).
  eapply wrt_then; [apply Hw|]. apply IH. eapply wrt_mono; [exact Hk|done|]. intros bs. by rewrite concat_cons, app_assoc.
Qed.
End I.

Lemma wrt_iff (I J : sst -> Prop) m l B : (∀ st, I st <-> J st) -> wrt I m l B -> wrt J m l B.
Proof.
  intros HIJ Hm st tbl pre post Hi Ha Hr. destruct (Hm st tbl pre post (proj2 (HIJ st) Hi) Ha Hr) as (r & st1 & tbl1 & b1 & ? & ? & ? & ? & ? & ?).
  exists r, st1, tbl1, b1. split_and!; try done. by apply HIJ.
Qed.
End Steps.

(** The loops over the elements of a list, by what is done with one of them. *)
Fixpoint write_loop {F} (w : Z -> FM (F := F) Z) (k : nat) (l cur ret : Z) : FM (F := F) Z :=
  match k with
  | O => fret ret
  | S k' =>
      if 0 <=? ret then fbind (on_stg (lcall (nth_element l cur))) (λ e, fbind (w e) (λ ret, write_loop w k' l (cur + 1) ret))
      else fret ret
  end.

Section Loop.
Context {F : Type} `{HOps : !file_operations F, HReg : !regular_file F} (fd : Z) (room : nat).
Context (n : Z) (W : gmap Z (list Z * list Z)) (ips : list Z) (fs : afs) (h : gmap Z object) (b : super_info).

(** What writing does not change. *)
Definition inv (st : sst) : Prop := fs_ok n st W ips fs ∧ s_obj st = h ∧ s_sup st = b.

Context (p : Z) (ps es : list Z) (kind : lkind) (HW : W !! p = Some (ps, es)) (Hkind : ∀ st, inv st -> s_funcs st !! p = Some kind).

(** The elements are read in the order [xs]. *)
Definition ordered (xs : list Z) (st : sst) : Prop := inv st ∧ (kind = KInodes ∧ xs = es ∨ kind ≠ KInodes ∧ shown st p xs).

Lemma nth_inv st j : inv st -> (j < length es)%nat ->
  ∃ xs e st', lcall (nth_element p (Z.of_nat j + 1)) st = Some (e, st') ∧ ordered xs st' ∧ (∀ ys, ordered ys st -> ys = xs) ∧ xs ≡ₚ es ∧ xs !! j = Some e.
Proof using HW Hkind.
  intros Hi Hj. pose proof Hi as (HF & Hh & Hb). pose proof (Hkind st Hi) as Hf.
  destruct (call_nth st W p ps es kind (so_lists _ _ (fo_stg _ _ _ _ _ HF)) HW Hf (Z.of_nat j + 1)) as (r & st' & Hr & Hobj & Hfr & HL & Hcase).
  destruct Hcase as [[_ [[Hno _]|Hout]]|(_ & xs & Hs & Hsame & Hin & Hp & Hx)]; [by apply plenty_memory in Hno; [|apply (fo_plenty _ _ _ _ _ HF)]|lia|].
  exists xs, r, st'. replace (Z.to_nat (Z.of_nat j + 1 - 1)) with j in Hx by lia. split; [done|]. split; [|split; [|done]].
  - split.
    + split; [|split; [congruence|by rewrite (sf_sup _ _ Hfr)]]. eapply fs_ok_quiet; [done|done|done|].
      eapply stg_call; [apply (fo_stg _ _ _ _ _ HF)|exact Hr|done..].
    + destruct (decide (kind = KInodes)) as [E|E]; [left|right]; auto.
  - intros ys [_ [[E ->]|[E Hy]]]; [by rewrite Hin|by apply Hsame].
Qed.

Context (w : Z -> FM (F := F) Z) (sz : Z -> nat) (B : Z -> list Z -> Prop) (Hw : ∀ e xs, e ∈ es -> wrt fd room (ordered xs) (w e) (sz e) (B e)).

(** The bytes of some elements. *)
Definition bytes_of (xs : list Z) (bs : list Z) : Prop := ∃ bss, Forall2 B xs bss ∧ bs = concat bss.

(** Element number [j] and those after it. *)
Lemma loop_body k j xs e : xs ≡ₚ es -> xs !! j = Some e ->
  (∀ ret, 0 <= ret -> wrt fd room (ordered xs) (write_loop w k p (Z.of_nat (S j) + 1) ret) (sum_list_with sz (drop (S j) xs)) (bytes_of (drop (S j) xs))) ->
  wrt fd room (ordered xs) (fbind (w e) (λ ret, write_loop w k p (Z.of_nat j + 1 + 1) ret)) (sum_list_with sz (drop j xs)) (bytes_of (drop j xs)).
Proof using Hw.
  intros Hp He IH. rewrite (drop_S _ _ _ He). simpl sum_list_with.
  eapply wrt_bind; [apply Hw; rewrite <- Hp; by eapply list_elem_of_lookup_2|]. intros r b1 Hr HB. replace (Z.of_nat j + 1 + 1) with (Z.of_nat (S j) + 1) by lia.
  eapply wrt_mono; [by apply IH|done|]. intros bs (bss & HF & ->). exists (b1 :: bss). split; [by constructor|done].
Qed.

Lemma loop_rest k j xs ret : (j + k = length es)%nat -> 0 <= ret -> xs ≡ₚ es ->
  wrt fd room (ordered xs) (write_loop w k p (Z.of_nat j + 1) ret) (sum_list_with sz (drop j xs)) (bytes_of (drop j xs)).
Proof using All.
  intros Hjk Hret Hp. revert j ret Hjk Hret. induction k as [|k IH]; intros j ret Hjk Hret; simpl write_loop.
  { rewrite (drop_ge xs) by (rewrite Hp; lia). apply wrt_ret; [done|]. by exists []. }
  rewrite (proj2 (Z.leb_le 0 ret)) by done. destruct (lookup_lt_is_Some_2 xs j) as [e He]; [rewrite Hp; lia|].
  eapply (wrt_stg _ _ _ _ _ e); [|apply loop_body; [done|done|intros r Hr; apply IH; [lia|done]]].
  intros st Hst. destruct (nth_inv st j) as (ys & e' & st1 & Hn & Ho & Hsame & _ & He'); [apply Hst|lia|]. rewrite <- (Hsame xs Hst) in *.
  exists st1. split; [|done]. congruence.
Qed.

Lemma loop_all ret : 0 <= ret ->
  wrt fd room inv (write_loop w (length es) p 1 ret) (sum_list_with sz es) (λ bs, ∃ xs, xs ≡ₚ es ∧ (kind = KInodes -> xs = es) ∧ bytes_of xs bs).
Proof using All.
  intros Hret. destruct (length es) as [|k] eqn:Hlen; simpl write_loop.
  { apply nil_length_inv in Hlen as ->. apply wrt_ret; [done|]. exists []. split; [done|]. split; [done|]. by exists []. }
  rewrite (proj2 (Z.leb_le 0 ret)) by done.
  intros st tbl pre post Hi Ha Hr. destruct (nth_inv st 0 Hi) as (xs & e & st1 & Hn & Ho & _ & Hp & He); [lia|].
  assert (Hsz : sum_list_with sz es = sum_list_with sz xs) by (clear -Hp; induction Hp; simpl; lia). rewrite Hsz in *.
  change 1 with (Z.of_nat 0 + 1). rewrite (fbind_run _ _ _ _ _ _ _ (on_stg_run _ _ _ _ _ Hn)).
  destruct (loop_body k 0 xs e Hp He) with (st := st1) (tbl := tbl) (pre := pre) (post := post) as (r & st' & tbl' & bs & Hw' & Hr' & Ho' & Hl & HB & Ha');
    [intros; apply loop_rest; [lia|done|done]|done|done|done|].
  exists r, st', tbl', bs. split_and!; [done|done|apply Ho'|done| |done]. exists xs. split; [done|]. split; [|done].
  intros E. by destruct Ho as [_ [[_ ?]|[? _]]].
Qed.
End Loop.

(** ** Elements *)
Definition dirent_pair (d : ovlfs_dir_info_t) : dirent_data := (di_name d, (di_ino d, di_flags d)).
Definition map_triple (m : ovlfs_ino_map_t) : map_data := (map_key m, im_ovl_ino m).

Section Elements.
Context {F : Type} `{HOps : !file_operations F, HReg : !regular_file F} (fd : Z) (room : nat).
Context (I : sst -> Prop) (h : gmap Z object) (b : super_info) (HIh : ∀ st, I st -> s_obj st = h) (HIb : ∀ st, I st -> s_sup st = b).

Lemma wrt_dirent e d : get_dirent h e = Some d -> e ≠ 0 -> dirent_ok d ->
  wrt fd room I (write_dirent (F := F) fd e) (length (entry_bytes (dirent_pair d))) (eq (entry_bytes (dirent_pair d))).
Proof using HIh HReg.
  intros Hd He (Hlen & _). unfold write_dirent. rewrite (proj2 (Z.eqb_neq _ _) He). eapply wrt_mono.
  - eapply (wrt_stg _ _ _ _ _ d); [intros st Hst; exists st; split; [apply dirent_at_run; by rewrite HIh|done]|].
    eapply wrt_then; [apply wrt_int|]. rewrite Hlen. eapply wrt_bytes_bind. rewrite Z.eqb_refl. eapply wrt_then; [apply wrt_int|].
    eapply wrt_mono; [apply wrt_int|done|]. intros bs <-. rewrite int_bytes_u32. exact (eq_refl (entry_bytes (dirent_pair d))).
  - unfold entry_bytes, dirent_pair. rewrite !length_app, !length_int. lia.
  - done.
Qed.

Lemma wrt_map e m : get_map h e = Some m -> e ≠ 0 -> wrt fd room I (write_mapping (F := F) fd e) 12 (eq (map_bytes (map_triple m))).
Proof using HIh HReg.
  intros Hm He. unfold write_mapping. rewrite (proj2 (Z.eqb_neq _ _) He).
  eapply (wrt_stg _ _ _ _ _ m); [intros st Hst; exists st; split; [apply map_at_run; by rewrite HIh|done]|].
  eapply (wrt_then _ _ _ _ _ 4 8); [apply wrt_int|]. eapply (wrt_then _ _ _ _ _ 4 4); [apply wrt_int|]. eapply wrt_mono; [apply wrt_int|done|]. by intros bs <-.
Qed.

Lemma wrt_pair c dev ino ret : 0 <= ret -> wrt fd room I (write_pair (F := F) c fd dev ino ret) (length (pair_bytes c dev ino)) (eq (pair_bytes c dev ino)).
Proof using HReg.
  intros Hr. unfold write_pair, pair_bytes. destruct c; [|by apply wrt_ret]. rewrite length_app, !length_int.
  eapply wrt_then; [apply wrt_int|]. eapply wrt_mono; [apply wrt_long|done|]. by intros bs <-.
Qed.

Lemma wrt_spec s : name_there s ->
  wrt fd room I (stg1_write_inode_spec (F := F) fd s) (length (spec_bytes (sb_storage_opts b) s)) (eq (spec_bytes (sb_storage_opts b) s)).
Proof using HIb HReg.
  intros Hn. unfold stg1_write_inode_spec. eapply wrt_mono.
  - eapply (wrt_stg _ _ _ _ _ b); [intros st Hst; exists st; by rewrite <- (HIb st Hst)|].
    eapply wrt_bind; [apply wrt_long|]. intros r ? Hr <-. rewrite (proj2 (Z.ltb_ge _ _)) by done.
    eapply wrt_bind; [by apply wrt_pair|]. intros r2 ? Hr2 <-. rewrite (proj2 (Z.ltb_ge _ _)) by done.
    eapply wrt_then; [by apply wrt_pair|]. eapply wrt_then; [apply wrt_int|]. eapply (wrt_bind _ _ _ _ _ _ (length (if 0 <? sp_len s then default [] (sp_name s) else []))).
    { apply wrt_int. }
    intros r3 ? Hr3 <-. rewrite (proj2 (Z.leb_le _ _)) by done. cbn [andb].
    apply (wrt_mono _ _ _ _ (length (if 0 <? sp_len s then default [] (sp_name s) else [])) _ (eq (if 0 <? sp_len s then default [] (sp_name s) else []))); [|done|].
    + destruct (Z.ltb_spec 0 (sp_len s)) as [Hl|]; [|by apply wrt_ret]. destruct (Hn Hl) as (nm & -> & ->). simpl.
      intros st tbl pre post Hi Ha Hr'. unfold fbind, fopt. simpl. by apply wrt_bytes.
    + intros bs <-. replace (if sp_len s <? 0 then 0 else sp_len s) with (Z.max 0 (sp_len s)) by (destruct (Z.ltb_spec (sp_len s) 0); lia).
      exact (eq_refl (spec_bytes (sb_storage_opts b) s)).
  - unfold spec_bytes. rewrite !length_app, !length_int. lia.
  - done.
Qed.
End Elements.

(** ** Lists of elements *)
Lemma write_dirents_loop {F} `{!file_operations F} fd k l cur ret st (tbl : fio_tbl F) : write_dirents k fd l cur ret st tbl = write_loop (write_dirent fd) k l cur ret st tbl.
Proof.
  revert cur ret st tbl. induction k as [|k IH]; intros cur ret st tbl; [done|]. simpl. destruct (0 <=? ret); [|done]. unfold fbind.
  destruct (on_stg _ st tbl) as [[[e st1] tbl1]|]; [|done]. destruct (write_dirent fd e st1 tbl1) as [[[r st2] tbl2]|]; [|done]. apply IH.
Qed.
Lemma write_mapping_loop_eq {F} `{!file_operations F} fd k l cur ret st (tbl : fio_tbl F) : write_mapping_loop k fd l cur ret st tbl = write_loop (write_mapping fd) k l cur ret st tbl.
Proof.
  revert cur ret st tbl. induction k as [|k IH]; intros cur ret st tbl; [done|]. simpl. destruct (0 <=? ret); [|done]. unfold fbind.
  destruct (on_stg _ st tbl) as [[[e st1] tbl1]|]; [|done]. destruct (write_mapping fd e st1 tbl1) as [[[r st2] tbl2]|]; [|done]. apply IH.
Qed.
Lemma write_inodes_loop {F} `{!file_operations F} fd k l cur ret st (tbl : fio_tbl F) : write_inodes k fd l cur ret st tbl = write_loop (stg1_write_inode fd) k l cur ret st tbl.
Proof.
  revert cur ret st tbl. induction k as [|k IH]; intros cur ret st tbl; [done|]. simpl. destruct (0 <=? ret); [|done]. unfold fbind.
  destruct (on_stg _ st tbl) as [[[e st1] tbl1]|]; [|done]. destruct (stg1_write_inode fd e st1 tbl1) as [[[r st2] tbl2]|]; [|done]. apply IH.
Qed.

Lemma wrt_ext {F} `{HOps : !file_operations F, HReg : !regular_file F} fd room I (m m' : FM (F := F) Z) l B : (∀ st tbl, m st tbl = m' st tbl) -> wrt fd room I m' l B -> wrt fd room I m l B.
Proof. intros E Hm st tbl pre post Hi Ha Hr. rewrite E. by apply Hm. Qed.

Lemma bytes_of_eq (g : Z -> list Z) xs bs : bytes_of (λ e, eq (g e)) xs bs -> bs = concat (g <$> xs).
Proof. intros (bss & HF & ->). f_equal. induction HF as [|x y xs ys <- _ IH]; [done|]. csimpl. by f_equal. Qed.

Lemma sum_sizes {A} (g : A -> list Z) xs : sum_list_with (λ e, length (g e)) xs = length (concat (g <$> xs)).
Proof. induction xs as [|x xs IH]; [done|]. rewrite concat_cons, length_app, <- IH. done. Qed.

Definition pair_at (h : gmap Z object) (e : Z) : dirent_data := default ([], (0, 0)) (dirent_pair <$> get_dirent h e).
Definition triple_at (h : gmap Z object) (e : Z) : map_data := default (0, 0, 0) (map_triple <$> get_map h e).

Lemma pairs_of h es ds : Forall2 (λ e d, get_dirent h e = Some d) es ds -> pair_at h <$> es = dirent_pair <$> ds.
Proof. induction 1 as [|e d es ds He _ IH]; [done|]. csimpl. f_equal; [|done]. unfold pair_at. by rewrite He. Qed.
Lemma triples_of h es ms : Forall2 (λ e m, get_map h e = Some m) es ms -> triple_at h <$> es = map_triple <$> ms.
Proof. induction 1 as [|e d es ds He _ IH]; [done|]. csimpl. f_equal; [|done]. unfold triple_at. by rewrite He. Qed.

Lemma dir_pairs ds : NoDup (di_name <$> ds) -> map_to_list (dir_view ds) ≡ₚ dirent_pair <$> ds.
Proof. intros Hnd. apply (map_to_list_to_map (M := gmap (list Z))). pose proof (view_keys di_name (λ d, (di_ino d, di_flags d)) ds) as E. by rewrite <- E in Hnd. Qed.
Lemma map_triples ms : NoDup (map_key <$> ms) -> map_to_list (map_view ms) ≡ₚ map_triple <$> ms.
Proof. intros Hnd. apply (map_to_list_to_map (M := gmap (Z * Z))). pose proof (view_keys map_key im_ovl_ino ms) as E. by rewrite <- E in Hnd. Qed.

(** *** Continuations *)
Lemma and_then_assoc {F} (m k c : FM (F := F) Z) st tbl : and_then (and_then m k) c st tbl = and_then m (and_then k c) st tbl.
Proof.
  unfold and_then, fbind. destruct (m st tbl) as [[[r st1] tbl1]|]; [|done]. destruct (r <? 0) eqn:E; [|done]. unfold fret. by rewrite E.
Qed.
Lemma and_then_ext {F} (m k c : FM (F := F) Z) st tbl : (∀ st tbl, k st tbl = c st tbl) -> and_then m k st tbl = and_then m c st tbl.
Proof. intros E. unfold and_then, fbind. destruct (m st tbl) as [[[r st1] tbl1]|]; [|done]. by destruct (r <? 0). Qed.
Lemma write_each_then {F} w vs (k c : FM (F := F) Z) st tbl : write_each w vs (and_then k c) st tbl = and_then (write_each w vs k) c st tbl.
Proof.
  revert st tbl. induction vs as [|v vs IH]; intros st tbl; [done|]. simpl write_each. rewrite and_then_assoc. by apply and_then_ext.
Qed.
Lemma write_each_ext {F} w vs (k c : FM (F := F) Z) st tbl : (∀ st tbl, k st tbl = c st tbl) -> write_each w vs k st tbl = write_each w vs c st tbl.
Proof. intros E. revert st tbl. induction vs as [|v vs IH]; intros st tbl; [apply E|]. simpl write_each. by apply and_then_ext. Qed.

Section Super.
Context {F : Type} `{HOps : !file_operations F, HReg : !regular_file F} (fd : Z) (room : nat).
Context (n : Z) (W : gmap Z (list Z * list Z)) (ips : list Z) (fs : afs) (h : gmap Z object) (b : super_info).
Context (st0 : sst) (Hst0 : inv n W ips fs h b st0).
Abbreviation J := (inv n W ips fs h b).

Lemma inv_quiet st st' : J st -> s_obj st' = s_obj st -> sframe st st' -> stg_ok st' W -> J st'.
Proof. intros (HF & Hh & Hb) Ho Hfr HS. split; [by eapply fs_ok_quiet|]. split; [congruence|by rewrite (sf_sup _ _ Hfr)]. Qed.

Lemma inv_length st p ps es k : J st -> W !! p = Some (ps, es) -> s_funcs st !! p = Some k -> ∃ st', list_length_of p st = Some (Z.of_nat (length es), st') ∧ J st'.
Proof.
  intros HJ HW Hk. destruct (list_length_run st W p ps es k) as (st' & Hr & Ho & Hfr & HS & _); [apply (fo_stg n _ _ ips fs), HJ|done|done|].
  exists st'. split; [done|]. by eapply inv_quiet.
Qed.

Section Node.
Context (m : nat) (ip : Z) (a : anode) (i : ovlfs_inode_t) (Hip : ips !! m = Some ip) (Ha : af_nodes fs !! m = Some a) (Hi : get_inode h ip = Some i).

Lemma inode_inv st : J st -> ∃ st', inode_at ip st = Some (i, st') ∧ J st'.
Proof using Hi. intros HJ. exists st. split; [|done]. apply inode_at_run. by rewrite (proj1 (proj2 HJ)). Qed.

Lemma wrt_det : wrt fd room J (stg1_write_inode_det (F := F) fd ip) (length (det_bytes (view_node a) (map_to_list (names (view_node a)))))
  (λ bs, ∃ es, es ≡ₚ map_to_list (names (view_node a)) ∧ bs = det_bytes (view_node a) es).
Proof using All.
  pose proof Hst0 as (HF & Hh & Hb). assert (Hi0 : get_inode (s_obj st0) ip = Some i) by by rewrite Hh.
  destruct (inode_addr n st0 W ips fs HF ip i Hi0) as (_ & Hip0 & _). destruct (node_attrs n st0 W ips fs HF m ip a i Hip Ha Hi0) as (Ea & Eu & _).
  unfold stg1_write_inode_det. rewrite (proj2 (Z.eqb_neq _ _) Hip0). eapply (wrt_stg _ _ _ _ _ i); [apply inode_inv|]. unfold det_bytes. cbn [view_node vn_attr vn_u]. rewrite Ea, Eu.
  destruct (is_device _); [eapply wrt_mono; [apply wrt_int|apply length_int|]; intros bs <-; by eexists|].
  destruct (S_ISDIR _); [|apply wrt_ret; [done|by eexists]]. rewrite length_app, length_int. rewrite names_view. unfold entries. destruct (an_dir a) as [ds|] eqn:Hds; simpl default.
  - destruct (dir_list n st0 W ips fs HF m ip a i Hip Ha Hi0 ds Hds) as (ps & es & H0 & HW & Hf & _ & HF2). rewrite Hh in HF2.
    assert (Hk : ∀ st, J st -> s_funcs st !! oi_dir_entries i = Some KDirents).
    { intros st (HFs & Hhs & _). assert (His : get_inode (s_obj st) ip = Some i) by by rewrite Hhs.
      by destruct (dir_list n st W ips fs HFs m ip a i Hip Ha His ds Hds) as (_ & _ & _ & _ & ? & _). }
    eapply (wrt_stg _ _ _ _ _ (Z.of_nat (length es))); [intros st HJ; eapply inv_length; [done|done|by apply Hk]|]. rewrite Nat2Z.id.
    assert (Hnd : NoDup (di_name <$> ds)). { rewrite <- (entries_dir a ds Hds). apply (node_entries n st0 W ips fs HF m ip a i Hip Ha Hi0). }
    pose proof (dir_pairs ds Hnd) as Hp. rewrite <- (pairs_of h es ds HF2) in Hp. eapply wrt_bind; [apply wrt_int|]. intros r ? Hr <-.
    eapply wrt_ext; [intros; apply write_dirents_loop|]. eapply wrt_mono.
    + apply (loop_all fd room n W ips fs h b (oi_dir_entries i) ps es KDirents HW Hk (write_dirent fd) (λ e, length (entry_bytes (pair_at h e))) (λ e, eq (entry_bytes (pair_at h e)))); [|done].
      intros e xs Hin. apply list_elem_of_lookup in Hin as [j Hj]. destruct (Forall2_lookup_l _ _ _ _ _ HF2 Hj) as (d & Hd & Hg). unfold pair_at. rewrite Hg. simpl.
      apply get_dirent_some in Hg as Ho. destruct (fo_stg _ _ _ _ _ HF) as [[Hko _ _] Had _]. rewrite Hh in Had, Hko. pose proof (Had _ _ Ho).
      eapply (wrt_dirent fd room _ h); [intros st ((_ & ? & _) & _); done|done|lia|exact (Hko _ _ Ho)].
    + rewrite sum_sizes. rewrite (concat_perm _ _ _ Hp). by rewrite <- list_fmap_compose.
    + intros bs (xs & Hx & _ & Hbs). apply (bytes_of_eq (λ e, entry_bytes (pair_at h e))) in Hbs as ->. exists (pair_at h <$> xs).
      split; [by rewrite Hp, Hx|]. rewrite <- list_fmap_compose, length_fmap, (Permutation_length Hx). done.
  - rewrite (no_dir_list n st0 W ips fs HF m ip a i Hip Ha Hi0 Hds). eapply (wrt_stg _ _ _ _ _ 0); [intros st HJ; by exists st|]. change (dir_view []) with (∅ : dmap). rewrite map_to_list_empty.
    eapply (wrt_bind _ _ _ _ _ _ 0); [apply wrt_int|]. intros r ? Hr <-. apply wrt_ret; [done|]. exists []. by rewrite app_nil_r.
Qed.

(** What of an inode is written after its size. *)
Definition inode_body : FM (F := F) Z :=
  write_each (write_integer fd) (attr_words i) (write_each (write_long fd) (attr_longs i) (and_then (stg1_write_inode_spec fd (oi_s i)) (stg1_write_inode_det fd ip))).

Lemma wrt_body : name_there (an_s a) ->
  wrt fd room J inode_body (length (node_body (sb_storage_opts b) (view_node a) (map_to_list (names (view_node a)))))
    (λ bs, ∃ es, es ≡ₚ map_to_list (names (view_node a)) ∧ bs = node_body (sb_storage_opts b) (view_node a) es).
Proof using All.
  intros Hn. pose proof Hst0 as (HF & Hh & Hb). assert (Hi0 : get_inode (s_obj st0) ip = Some i) by by rewrite Hh.
  destruct (node_attrs n st0 W ips fs HF m ip a i Hip Ha Hi0) as (Ea & Eu & Ev & Es & _). unfold inode_body. rewrite Es.
  assert (Ew : node_words (view_node a) = attr_words i ++ attr_longs i) by (unfold node_words, attr_words, attr_longs; simpl; by rewrite Ea, Ev, Es).
  assert (Eb : ∀ es, node_body (sb_storage_opts b) (view_node a) es = concat (int_bytes <$> attr_words i) ++ concat (int_bytes <$> attr_longs i) ++
    spec_bytes (sb_storage_opts b) (an_s a) ++ det_bytes (view_node a) es) by (intros es; unfold node_body; rewrite Ew, fmap_app, concat_app, <- app_assoc; done).
  refine (wrt_mono _ _ _ _ _ _ (λ bs, ∃ es, es ≡ₚ map_to_list (names (view_node a)) ∧ bs = node_body (sb_storage_opts b) (view_node a) es) _ _ _ _).
  - eapply wrt_each; [apply wrt_int|]. eapply wrt_each; [apply wrt_long|].
    eapply wrt_then; [exact (wrt_spec fd room J b (λ st H, proj2 (proj2 H)) (an_s a) Hn)|]. eapply wrt_mono; [exact wrt_det|done|].
    intros bs (es & Hp & ->). exists es. split; [done|]. symmetry. apply Eb.
  - rewrite Eb, !length_app. assert (Hc : ∀ vs, length (concat (int_bytes <$> vs)) = (4 * length vs)%nat).
    { induction vs as [|v vs IH]; [done|]. rewrite concat_cons, length_app, length_int, IH. simpl length. lia. }
    rewrite !Hc. lia.
  - done.
Qed.

(** The size is written last, at the start of the inode. *)
Lemma wrt_inode : name_there (an_s a) ->
  wrt fd room J (stg1_write_inode (F := F) fd ip) (node_size (sb_storage_opts b) (view_node a))
    (λ bs, ∃ es, es ≡ₚ map_to_list (names (view_node a)) ∧ bs = node_bytes (sb_storage_opts b) (view_node a) es).
Proof using All.
  intros Hn st tbl pre post HJ Haf Hroom. pose proof HJ as (HF & Hh & Hb). assert (Hi0 : get_inode (s_obj st) ip = Some i) by by rewrite Hh.
  destruct (inode_addr n st W ips fs HF ip i Hi0) as (_ & Hip0 & _). unfold stg1_write_inode. rewrite (proj2 (Z.eqb_neq _ _) Hip0).
  unfold node_size, node_bytes in Hroom. rewrite length_app, length_int in Hroom. set (N := length (node_body _ _ _)) in *.
  destruct (seek_cur_run tbl fd room pre [] post Haf) as (tbl1 & Hs1 & Haf1). rewrite app_nil_r in *. change (Z.of_nat (length (@nil Z))) with 0 in Hs1.
  rewrite (fbind_run _ _ st tbl (Z.of_nat (length pre)) st tbl1) by (unfold on_tbl; by rewrite Hs1). rewrite (proj2 (Z.ltb_ge _ _)) by lia.
  rewrite (fbind_run _ _ _ _ _ _ _ (on_stg_run _ _ _ _ _ (inode_at_run _ _ _ Hi0))).
  destruct (wrt_int fd room J 0 st tbl1 pre post HJ Haf1) as (r1 & st1 & tbl2 & bs1 & Hw1 & Hr1 & HJ1 & _ & <- & Haf2); [lia|].
  unfold and_then at 1. rewrite (fbind_run _ _ _ _ _ _ _ Hw1), (proj2 (Z.ltb_ge _ _)) by done.
  destruct (wrt_body Hn st1 tbl2 _ _ HJ1 Haf2) as (r2 & st2 & tbl3 & bs2 & Hw2 & Hr2 & HJ2 & Hl2 & (es & Hp & Ebs) & Haf3); [rewrite length_app, length_int; lia|].
  fold N in Hl2, Haf3. match goal with |- context [and_then (stg1_write_inode_det fd ip) ?c] => set (C := c) end.
  assert (Hk : write_each (write_integer fd) (attr_words i) (write_each (write_long fd) (attr_longs i)
      (and_then (stg1_write_inode_spec fd (oi_s i)) (and_then (stg1_write_inode_det fd ip) C))) st1 tbl2 = C st2 tbl3).
  { transitivity (and_then inode_body C st1 tbl2); [|unfold and_then at 1; by rewrite (fbind_run _ _ _ _ _ _ _ Hw2), (proj2 (Z.ltb_ge _ _)) by done].
    unfold inode_body. rewrite <- write_each_then. apply write_each_ext. intros s t. rewrite <- write_each_then. apply write_each_ext. intros s' t'. by rewrite and_then_assoc. }
  rewrite Hk. unfold C. set (pos2 := (pre ++ int_bytes 0) ++ bs2) in *. set (post2 := drop N (drop 4 post)) in *.
  destruct (seek_cur_run tbl3 fd room pos2 [] post2 Haf3) as (tbl4 & Hs4 & Haf4). rewrite app_nil_r in *. change (Z.of_nat (length (@nil Z))) with 0 in Hs4.
  rewrite (fbind_run _ _ st2 tbl3 (Z.of_nat (length pos2)) st2 tbl4) by (unfold on_tbl; by rewrite Hs4). rewrite (proj2 (Z.ltb_ge _ _)) by lia.
  destruct (seek_set_run tbl4 fd room pos2 post2 pre (int_bytes 0 ++ bs2 ++ post2) Haf4) as (tbl5 & Hs5 & Haf5); [unfold pos2; by rewrite <- !app_assoc|].
  rewrite (fbind_run _ _ st2 tbl4 (Z.of_nat (length pre)) st2 tbl5) by (unfold on_tbl; by rewrite Hs5). rewrite (proj2 (Z.ltb_ge _ _)) by lia.
  assert (Elen : Z.of_nat (length pos2) - Z.of_nat (length pre) = 4 + Z.of_nat (length bs2)) by (unfold pos2; rewrite !length_app, length_int; lia). rewrite Elen.
  destruct (wrt_int fd room J (4 + Z.of_nat (length bs2)) st2 tbl5 pre _ HJ2 Haf5) as (r6 & st6 & tbl6 & bs6 & Hw6 & Hr6 & HJ6 & _ & <- & Haf6); [lia|].
  unfold and_then at 1. rewrite (fbind_run _ _ _ _ _ _ _ Hw6), (proj2 (Z.ltb_ge _ _)) by done.
  assert (Ed : drop 4 (int_bytes 0 ++ bs2 ++ post2) = bs2 ++ post2) by (rewrite drop_app_length' by (by rewrite length_int); done). rewrite Ed in Haf6.
  set (bs := int_bytes (4 + Z.of_nat (length bs2)) ++ bs2).
  destruct (seek_set_run tbl6 fd room _ _ (pre ++ bs) post2 Haf6) as (tbl7 & Hs7 & Haf7); [unfold bs; by rewrite <- !app_assoc|].
  assert (Epos : length pos2 = length (pre ++ bs)) by (unfold pos2, bs; rewrite !length_app, !length_int; lia). rewrite Epos.
  exists (Z.of_nat (length (pre ++ bs))), st6, tbl7, bs. unfold on_tbl. rewrite Hs7. split_and!; [done|lia|done| | |].
  - unfold bs, node_size, node_bytes. rewrite !length_app, !length_int. fold N. lia.
  - exists es. split; [done|]. unfold bs. rewrite Ebs. done.
  - unfold node_size, node_bytes. rewrite length_app, length_int. fold N. unfold post2 in Haf7. by rewrite drop_drop in Haf7.
Qed.
End Node.

(** ** Mappings *)
Lemma wrt_maps f opt :
  wrt fd room J (ovlfs_write_mappings (F := F) fd (map_list_of f b) (negb (has (sb_storage_opts b) opt)))
    (4 + 12 * length (stored (sb_storage_opts b) opt (vf_map f (view fs))))
    (λ bs, ∃ ms, ms ≡ₚ stored (sb_storage_opts b) opt (vf_map f (view fs)) ∧ bs = maps_bytes ms).
Proof using Hst0 HReg.
  pose proof Hst0 as (HF & Hh & Hb). unfold ovlfs_write_mappings, stored. rewrite <- map_view_of.
  assert (Hnone : wrt fd room J (fbind (fret 0) (λ tot_ent, fbind (write_integer fd tot_ent) (λ ret, write_mapping_loop (Z.to_nat tot_ent) fd (map_list_of f b) 1 ret))) 4 (eq (maps_bytes []))).
  { intros st tbl pre post HJ Haf Hr. unfold fret at 1, fbind at 1. revert st tbl pre post HJ Haf Hr. change (wrt fd room J (fbind (write_integer fd 0) (λ ret, fret ret)) 4 (eq (maps_bytes []))).
    eapply (wrt_bind _ _ _ _ _ 4 0); [apply wrt_int|]. intros r ? Hr <-. by apply wrt_ret. }
  destruct (Z.eqb_spec (map_list_of f b) 0) as [E|H0]; cbn [orb].
  { rewrite <- Hb in E. rewrite (map_no_list n st0 W ips fs HF f E). change (map_view []) with (∅ : gmap (Z * Z) Z). rewrite map_to_list_empty.
    eapply wrt_mono; [exact Hnone|by destruct (has _ _)|]. intros bs <-. exists []. by destruct (has _ _). }
  destruct (has (sb_storage_opts b) opt); cbn [negb].
  2: { eapply wrt_mono; [exact Hnone|done|]. intros bs <-. by exists []. }
  destruct (fo_maps _ _ _ _ _ HF f) as (es & [[E _]|(ps & HW & Hf)] & HF2); rewrite Hb in *; [done|]. rewrite Hh in HF2.
  assert (Hk : ∀ st, J st -> s_funcs st !! map_list_of f b = Some KMaps).
  { intros st (HFs & Hhs & <-). by destruct (map_list n st W ips fs HFs f ps es HW) as (_ & ? & _). }
  eapply (wrt_stg _ _ _ _ _ (Z.of_nat (length es))); [intros st HJ; eapply inv_length; [done|done|by apply Hk]|]. rewrite Nat2Z.id.
  pose proof (map_triples _ (fo_keys _ _ _ _ _ HF f)) as Hp. rewrite <- (triples_of h es _ HF2) in Hp.
  eapply wrt_bind; [apply wrt_int|]. intros r ? Hr <-. eapply wrt_ext; [intros; apply write_mapping_loop_eq|]. eapply wrt_mono.
  - apply (loop_all fd room n W ips fs h b (map_list_of f b) ps es KMaps HW Hk (write_mapping fd) (λ _, 12%nat) (λ e, eq (map_bytes (triple_at h e)))); [|done].
    intros e xs Hin. apply list_elem_of_lookup in Hin as [j Hj]. destruct (Forall2_lookup_l _ _ _ _ _ HF2 Hj) as (d & Hd & Hg). unfold triple_at. rewrite Hg. simpl default.
    apply get_map_some in Hg as Ho. pose proof (so_addr _ _ (fo_stg _ _ _ _ _ HF)) as Had. rewrite Hh in Had. pose proof (Had _ _ Ho).
    eapply (wrt_map fd room _ h); [intros st ((_ & ? & _) & _); done|done|lia].
  - rewrite (Permutation_length Hp), length_fmap. clear. induction es; simpl sum_list_with; simpl length; lia.
  - intros bs (xs & Hx & _ & Hbs). apply (bytes_of_eq (λ e, map_bytes (triple_at h e))) in Hbs as ->. exists (triple_at h <$> xs).
    split; [by rewrite Hp, Hx|]. unfold maps_bytes. rewrite <- list_fmap_compose, length_fmap, (Permutation_length Hx). done.
Qed.

(** ** The whole file *)
Lemma wrt_nodes ret : Forall (λ a, name_there (an_s a)) (af_nodes fs) -> 0 <= ret ->
  wrt fd room J (write_inodes (F := F) (length ips) fd (sb_inodes b) 1 ret) (sum_list_with (node_size (sb_storage_opts b)) (vf_nodes (view fs)))
    (λ bs, ∃ ess, Forall2 (λ a es, es ≡ₚ map_to_list (names a)) (vf_nodes (view fs)) ess ∧ bs = concat (zip_with (node_bytes (sb_storage_opts b)) (vf_nodes (view fs)) ess)).
Proof using Hst0 HReg.
  intros Hn Hret. pose proof Hst0 as (HF & Hh & Hb). eapply wrt_ext; [intros; apply write_inodes_loop|].
  destruct (fo_inodes _ _ _ _ _ HF) as [[_ E]|(ps & HW & Hf)]; rewrite ?Hb in *.
  { assert (En : af_nodes fs = []) by (apply nil_length_inv; by rewrite <- (fo_len _ _ _ _ _ HF), E). unfold view. rewrite E, En. simpl. apply wrt_ret; [done|]. by exists []. }
  assert (Hk : ∀ st, J st -> s_funcs st !! sb_inodes b = Some KInodes).
  { intros st (HFs & Hhs & <-). destruct (fo_inodes _ _ _ _ _ HFs) as [[E _]|(? & ? & ?)]; [|done]. rewrite E in HW.
    by destruct (wo_list _ _ (lo_world _ _ (so_lists _ _ (fo_stg _ _ _ _ _ HF))) _ _ _ HW). }
  set (node e := default (VNode (Attr 0 0 0 0 0 0 0 0 0 0 0 0) 0 false new_special None) (j ← list_find (eq e) ips; view_node <$> af_nodes fs !! j.1)).
  assert (Hnode : ∀ j e a, ips !! j = Some e -> af_nodes fs !! j = Some a -> node e = view_node a).
  { intros j e a Hj Haj. unfold node. assert (Ef : list_find (eq e) ips = Some (j, e)).
    { apply list_find_Some. split_and!; [done|done|]. intros j' y Hy Hlt ->. pose proof (NoDup_lookup _ _ _ _ (ips_nodup _ _ _ _ _ HF) Hj Hy). lia. }
    rewrite Ef. simpl. by rewrite Haj. }
  assert (Hmap : node <$> ips = vf_nodes (view fs)).
  { apply list_eq. intros j. simpl. rewrite !list_lookup_fmap. destruct (ips !! j) as [e|] eqn:Ej.
    - destruct (lookup_lt_is_Some_2 (af_nodes fs) j) as [a Haj]; [rewrite <- (fo_len _ _ _ _ _ HF); by eapply lookup_lt_Some|]. rewrite Haj. simpl. f_equal. by eapply Hnode.
    - apply lookup_ge_None in Ej. by rewrite lookup_ge_None_2 by (rewrite <- (fo_len _ _ _ _ _ HF); done). }
  clearbody node. rewrite <- Hmap. eapply wrt_mono.
  - apply (loop_all fd room n W ips fs h b (sb_inodes b) ps ips KInodes HW Hk (stg1_write_inode fd) (λ e, node_size (sb_storage_opts b) (node e))
      (λ e bs, ∃ es, es ≡ₚ map_to_list (names (node e)) ∧ bs = node_bytes (sb_storage_opts b) (node e) es)); [|done].
    intros e xs Hin. apply list_elem_of_lookup in Hin as [j Hj].
    destruct (lookup_lt_is_Some_2 (af_nodes fs) j) as [a Haj]; [rewrite <- (fo_len _ _ _ _ _ HF); by eapply lookup_lt_Some|]. rewrite (Hnode j e a Hj Haj).
    destruct (fo_node _ _ _ _ _ HF j e a Hj Haj) as (i & Hi & _). rewrite Hh in Hi.
    intros st tbl pre post [HJ [[_ ->]|[? _]]] Haf Hr; [|done]. rewrite list.Forall_forall in Hn.
    destruct (wrt_inode j e a i Hj Haj Hi (Hn a ltac:(by eapply list_elem_of_lookup_2)) st tbl pre post HJ Haf Hr) as (r & st' & tbl' & bs & ? & ? & ? & ? & ? & ?).
    exists r, st', tbl', bs. split_and!; try done. split; [done|by left].
  - clear -node. induction ips as [|e l IH]; [done|]. csimpl. by rewrite IH.
  - intros bs (xs & _ & -> & bss & HB & ->); [|done]. clear -HB. induction HB as [|e bs l bss (es & Hes & ->) _ (ess & HFs & E)]; [by exists []|].
    exists (es :: ess). split; [by constructor|]. simpl. by rewrite E.
Qed.

Lemma wrt_super : Forall (λ a, name_there (an_s a)) (af_nodes fs) ->
  wrt fd room J (write_super_body (F := F) fd) (file_size (sb_storage_opts b) (view fs)) (storage_file (sb_storage_opts b) (view fs)).
Proof using Hst0 HReg.
  intros Hn. pose proof Hst0 as (HF & Hh & Hb). unfold write_super_body.
  refine (wrt_mono _ _ _ _ _ _ (storage_file (sb_storage_opts b) (view fs)) _ _ _ _); [|shelve|done].
  eapply (wrt_stg _ _ _ _ _ b); [intros st HJ; exists st; split; [|done]; by rewrite <- (proj2 (proj2 HJ))|].
  pose proof (fo_magic _ _ _ _ _ HF) as Hm. rewrite Hb in Hm. rewrite Hm.
  eapply wrt_then; [apply wrt_int|]. eapply wrt_then; [exact (wrt_bytes fd room J MAGIC_WORD_V4)|].
  eapply wrt_bind; [apply wrt_int|]. intros _ ? _ <-.
  assert (Hlen : ∀ st, J st -> ∃ st', list_length_of (sb_inodes b) st = Some (Z.of_nat (length ips), st') ∧ J st').
  { intros st HJ. pose proof HJ as (HFs & Hhs & Hbs). destruct (fo_inodes _ _ _ _ _ HFs) as [[E0 E]|(ps & HW & Hf)]; rewrite Hbs in *.
    - exists st. rewrite E0. split; [by rewrite E|done].
    - by eapply inv_length. }
  eapply (wrt_stg _ _ _ _ _ (Z.of_nat (length ips))); [exact Hlen|]. eapply wrt_bind; [apply wrt_int|]. intros r ? Hr <-. rewrite Nat2Z.id.
  eapply wrt_seq; [by apply wrt_nodes|]. intros b1 (ess & Hess & ->). eapply wrt_seq; [exact (wrt_maps FsBase OVLFS_STORE_BASE_MAP)|]. intros b2 (base & Hbase & ->).
  eapply wrt_mono; [exact (wrt_maps FsStg OVLFS_STORE_STG_MAP)|done|]. intros bs (stg & Hstg & ->). exists ess, base, stg. split_and!; [done|done|done|].
  unfold image. rewrite (fo_len _ _ _ _ _ HF). simpl vf_nodes. by rewrite length_fmap.
  Unshelve. unfold file_size. simpl length. simpl vf_map. lia.
Qed.
End Super.
