(* ===== verification/StgRead.v ===== *)
(** Reading the storage file of the overlay file system: a file of the format in [StgFmt]
    is read into an empty storage, which then stands for what was stored. *)
From S2P Require Import Prelude KList KListSort KListInv KListOps KListIdx KListThm KListDup KListKeep Stg FileIo StgFile StgOrd StgInv StgList StgStep StgSpec StgView StgDir StgEnt StgNode StgMap StgThm StgRefine StgFmt StgWrite.
Open Scope Z_scope.

(** ** The options of the mount stay as they are *)
Definition opts_of (st : sst) : Z := sb_storage_opts (s_sup st).
Definition keeps_opts {A} (m : SM A) : Prop := ∀ st a st', m st = Some (a, st') -> opts_of st' = opts_of st.

Lemma opts_bind {A B} (m : SM A) (k : A -> SM B) : keeps_opts m -> (∀ a, keeps_opts (k a)) -> keeps_opts (sbind m k).
Proof. intros Hm Hk st b st'. unfold sbind. destruct (m st) as [[a st1]|] eqn:E; [|done]. intros H%Hk. by rewrite H, (Hm _ _ _ E). Qed.
Lemma opts_ret {A} (a : A) : keeps_opts (sret a).
Proof. by intros st b st' [= _ <-]. Qed.
Lemma opts_same {A} (m : SM A) : (∀ st a st', m st = Some (a, st') -> s_sup st' = s_sup st) -> keeps_opts m.
Proof. intros H st a st' Hr. unfold opts_of. by rewrite (H _ _ _ Hr). Qed.
Lemma opts_lcall {A} (f : KM A) : keeps_opts (lcall f).
Proof. apply opts_same. intros st a st'. unfold lcall. destruct (f _); try done. by intros [= _ <-]. Qed.
Lemma opts_sopt {A} (o : option A) : keeps_opts (sopt o).
Proof. intros st a st'. unfold sopt. destruct o; [|done]. by intros [= _ <-]. Qed.
Lemma opts_get {A} (g : sst -> option A) : keeps_opts (λ st, sopt (g st) st).
Proof. intros st. apply opts_sopt. Qed.
Lemma opts_state {A} (g : sst -> A) : keeps_opts (λ st, Some (g st, st)).
Proof. by intros st a st' [= _ <-]. Qed.
Lemma opts_mod (f : sst -> sst) : (∀ st, opts_of (f st) = opts_of st) -> keeps_opts (smod f).
Proof. intros H st a st' [= _ <-]. apply H. Qed.
Lemma opts_malloc : keeps_opts MALLOC.
Proof. apply opts_same. intros st a st'. unfold MALLOC. destruct (request _ _). by intros [= _ <-]. Qed.

Create HintDb opts.
#[export] Hint Resolve opts_ret opts_lcall opts_sopt opts_malloc : opts.

Ltac opts_tac := repeat first
  [ solve [auto with opts]
  | apply opts_bind; [|intros ?]
  | apply opts_mod; intros ?; done
  | apply opts_get
  | apply opts_state
  | match goal with |- keeps_opts (if ?c then _ else _) => destruct c end
  | match goal with |- keeps_opts (match ?x with _ => _ end) => destruct x end
  | progress unfold inode_at, dirent_at, map_at, upd_inode, upd_dirent, put, FREE, sup, upd_sup, sget, free_dir_entry, free_new_inode ].

Lemma opts_dirty : keeps_opts mark_dirty.
Proof. unfold mark_dirty. opts_tac. Qed.
Lemma opts_tmp {A} o (m : SM A) : keeps_opts m -> keeps_opts (with_tmp o m).
Proof. intros H. unfold with_tmp. opts_tac. Qed.
#[export] Hint Resolve opts_dirty : opts.
Lemma opts_create k : keeps_opts (create_kind k).
Proof.
  intros st a st'. unfold create_kind. unfold lcall at 1, sbind at 1. destruct (create_list _ _ _ _ _); try done. unfold sbind.
  destruct (_ =? 0); by intros [= _ <-].
Qed.
#[export] Hint Resolve opts_create : opts.
Lemma opts_dirents : keeps_opts create_dirent_list.
Proof. unfold create_dirent_list. opts_tac. Qed.
Lemma opts_length p : keeps_opts (list_length_of p).
Proof. unfold list_length_of. opts_tac. Qed.
Lemma opts_dup b len : keeps_opts (dup_buffer b len).
Proof. unfold dup_buffer. opts_tac. Qed.
Lemma opts_ref p nm len : keeps_opts (set_ref_name p nm len).
Proof. unfold set_ref_name. pose proof opts_dup. opts_tac. Qed.
Lemma opts_add_inode : keeps_opts (ovlfs_add_inode None 0).
Proof. unfold ovlfs_add_inode, need_inode_list, create_inode_list, alloc_inode. pose proof opts_length. pose proof opts_ref. opts_tac. Qed.
Lemma opts_get_ino k : keeps_opts (ovlfs_get_ino k).
Proof. unfold ovlfs_get_ino. opts_tac. Qed.
Lemma opts_find p nm len : keeps_opts (ovlfs_ino_find_dirent p nm len).
Proof. unfold ovlfs_ino_find_dirent. pose proof (@opts_tmp Z). opts_tac. Qed.
Lemma opts_remove p nm len : keeps_opts (ovlfs_remove_dirent p nm len).
Proof. unfold ovlfs_remove_dirent. pose proof (@opts_tmp Z). opts_tac. Qed.
Lemma opts_flags k fl : keeps_opts (set_ino_flags k fl).
Proof. unfold set_ino_flags. pose proof opts_get_ino. opts_tac. Qed.
Lemma opts_new p nm len k fl : keeps_opts (new_dirent p nm len k fl).
Proof. unfold new_dirent. opts_tac. Qed.
Lemma opts_add p nm len k fl : keeps_opts (ovlfs_ino_add_dirent p nm len k fl).
Proof. unfold ovlfs_ino_add_dirent. pose proof opts_dirents. pose proof opts_find. pose proof opts_remove. pose proof opts_flags. pose proof opts_new. opts_tac. Qed.
Lemma opts_need f : keeps_opts (need_map_list f).
Proof. unfold need_map_list, create_ino_map_list. destruct f; opts_tac. Qed.

(** ** A new entry with any flags *)
Lemma add_absent n st W ips fs m ip a i name len ino fl : fs_ok n st W ips fs -> ips !! m = Some ip -> af_nodes fs !! m = Some a -> get_inode (s_obj st) ip = Some i ->
  name_ok name len -> find_name name (entries a) = None -> 1 <= n ->
  ∃ st' W', ovlfs_ino_add_dirent ip (Some name) len ino fl st = Some (0, st') ∧
    fs_ok (n - 1) st' W' ips (set_nodes (<[m := set_dir (Some (DirInfo name len ino fl (an_last a) :: entries a)) (an_last a + 1) a]> (af_nodes fs)) fs).
Proof.
  intros HF Hip Ha Hi Hn Hnone Hn1. unfold ovlfs_ino_add_dirent. destruct (inode_addr n st W ips fs HF ip i Hi) as (_ & Hip0 & _). rewrite (proj2 (Z.eqb_neq _ _) Hip0).
  srun (inode_at_run _ _ _ Hi). set (a1 := set_dir (Some (entries a)) (an_last a) a).
  assert (Hens : ∃ st1 W1, (if oi_dir_entries i =? 0 then let@ (l, id) := create_dirent_list in upd_inode ip (λ i, oi_set_dir l (default (oi_pos_index i) id) i) else sret tt) st = Some (tt, st1) ∧
    fs_ok n st1 W1 ips (set_nodes (<[m := a1]> (af_nodes fs)) fs)).
  { unfold a1, entries. destruct (an_dir a) as [ds|] eqn:Hds.
    - destruct (dir_list n st W ips fs HF m ip a i Hip Ha Hi ds Hds) as (_ & _ & H0 & _). rewrite (proj2 (Z.eqb_neq _ _) H0). exists st, W. split; [done|].
      replace (set_dir (Some (default [] (Some ds))) (an_last a) a) with a by (destruct a; simpl in *; by rewrite Hds). rewrite list_insert_id by done. by destruct fs.
    - rewrite (no_dir_list n st W ips fs HF m ip a i Hip Ha Hi Hds). destruct (create_run n st W ips fs HF m ip a i Hip Ha Hi Hds) as (st1 & W1 & Hr & _ & HF1). by exists st1, W1. }
  destruct Hens as (st1 & W1 & Hr1 & HF1). srun Hr1. set (fs1 := set_nodes (<[m := a1]> (af_nodes fs)) fs) in *.
  assert (Ha1 : af_nodes fs1 !! m = Some a1) by (simpl; rewrite list_lookup_insert_eq; [done|by eapply lookup_lt_Some]).
  destruct (node_at n st1 W1 ips fs1 HF1 m a1 Ha1) as (q & i1 & Hq & Hi1 & _). assert (q = ip) as -> by congruence.
  destruct (find_run n st1 W1 ips fs1 HF1 m ip a1 i1 Hip Ha1 Hi1 name len Hn) as (r & st2 & Hr2 & Ho2 & _ & HF2 & Hcase). srun Hr2.
  change (entries a1) with (entries a) in Hcase. destruct Hcase as [[-> _]|(_ & j & d & _ & _ & E)]; [|congruence]. change (0 =? 0) with true. cbv iota.
  assert (Hi2 : get_inode (s_obj st2) ip = Some i1) by by rewrite Ho2.
  destruct (new_run n st2 W1 ips fs1 HF2 m ip a1 i1 Hip Ha1 Hi2 name len ino fl (entries a) Hn eq_refl Hnone Hn1) as (st3 & W3 & Hr3 & _ & HF3).
  exists st3, W3. split; [done|]. unfold put_dir in HF3. simpl in HF3. by rewrite list_insert_insert_eq in HF3.
Qed.

(** ** Steps *)
Section Reads.
Context {F : Type} `{HOps : !file_operations F, HReg : !regular_file F} (fd : Z).

Definition reading (tbl : fio_tbl F) (post : list Z) : Prop := ∃ room pre, at_file tbl fd room pre post.

(** [m] reads the bytes [bs] and takes the storage from [P] to [Q]. *)
Definition reads (m : FM (F := F) Z) (bs : list Z) (P Q : sst -> Prop) : Prop := ∀ st tbl post,
  P st -> reading tbl (bs ++ post) -> ∃ r st' tbl', m st tbl = Some (r, st', tbl') ∧ 0 <= r ∧ Q st' ∧ reading tbl' post.

Lemma freads_ret r (P Q : sst -> Prop) : 0 <= r -> (∀ st, P st -> Q st) -> reads (fret r) [] P Q.
Proof. intros Hr HPQ st tbl post HP Hre. exists r, st, tbl. split_and!; auto. Qed.

Lemma reads_word (K : Z * option Z -> FM Z) v bs P Q : reads (K (4, Some (u32 v))) bs P Q -> reads (fbind (read_word fd 4) K) (int_bytes v ++ bs) P Q.
Proof.
  intros HK st tbl post HP (room & pre & Ha). rewrite <- app_assoc in Ha. destruct (read_word_run st tbl fd room pre v _ Ha) as (tbl' & Hr & Ha').
  rewrite (fbind_run _ _ _ _ _ _ _ Hr). apply HK; [done|]. by eexists _, _.
Qed.

(** A word that is used. *)
Lemma reads_try (k : Z -> FM Z) v bs P Q : reads (k (u32 v)) bs P Q -> reads (with_read (read_word fd 4) k) (int_bytes v ++ bs) P Q.
Proof. intros Hk. apply reads_word. intros st tbl post HP Hre. by apply Hk. Qed.

Lemma reads_stg {A} (m : SM A) (k : A -> FM Z) a bs P R Q : (∀ st, P st -> ∃ st', m st = Some (a, st') ∧ R st') -> reads (k a) bs R Q -> reads (fbind (on_stg m) k) bs P Q.
Proof.
  intros Hm Hk st tbl post HP Hre. destruct (Hm st HP) as (st' & Hr & HR). rewrite (fbind_run _ _ _ _ _ _ _ (on_stg_run _ _ _ _ _ Hr)). by apply Hk.
Qed.

Lemma reads_some {A} (m : SM A) (k : A -> FM Z) bs P (R : A -> sst -> Prop) Q : (∀ st, P st -> ∃ a st', m st = Some (a, st') ∧ R a st') ->
  (∀ a, reads (k a) bs (R a) Q) -> reads (fbind (on_stg m) k) bs P Q.
Proof.
  intros Hm Hk st tbl post HP Hre. destruct (Hm st HP) as (a & st' & Hr & HR). rewrite (fbind_run _ _ _ _ _ _ _ (on_stg_run _ _ _ _ _ Hr)). by apply (Hk a).
Qed.

Lemma freads_bind m (k : Z -> FM Z) b1 b2 P R Q : reads m b1 P R -> (∀ r, 0 <= r -> reads (k r) b2 R Q) -> reads (fbind m k) (b1 ++ b2) P Q.
Proof.
  intros Hm Hk st tbl post HP Hre. rewrite <- app_assoc in Hre. destruct (Hm st tbl _ HP Hre) as (r & st1 & tbl1 & Hr & Hr0 & HR & Hre1).
  rewrite (fbind_run _ _ _ _ _ _ _ Hr). by apply (Hk r Hr0).
Qed.

Lemma reads_seq m k b1 b2 P R Q : reads m b1 P R -> reads k b2 R Q -> reads (and_then m k) (b1 ++ b2) P Q.
Proof. intros Hm Hk. eapply freads_bind; [exact Hm|]. intros r Hr. by rewrite (proj2 (Z.ltb_ge _ _)). Qed.

(** Bytes of a known number. *)
Lemma reads_bytes (K : Z * list (option Z) -> FM Z) nm bs P Q : reads (K (Z.of_nat (length nm), map Some nm)) bs P Q ->
  reads (fbind (read_bytes fd (Z.of_nat (length nm))) K) (nm ++ bs) P Q.
Proof.
  intros HK st tbl post HP (room & pre & Ha). rewrite <- app_assoc in Ha. destruct (read_bytes_run st tbl fd room pre nm _ Ha) as (tbl' & Hr & Ha').
  rewrite (fbind_run _ _ _ _ _ _ _ Hr). apply HK; [done|]. by eexists _, _.
Qed.

Lemma reads_post m bs (P Q Q' : sst -> Prop) : reads m bs P Q -> (∀ st, Q st -> Q' st) -> reads m bs P Q'.
Proof. intros Hm HQ st tbl post Hp Hre. destruct (Hm st tbl post Hp Hre) as (r & st' & tbl' & ? & ? & ? & ?). exists r, st', tbl'. split_and!; auto. Qed.

(** The last step. *)
Lemma reads_last (m : SM Z) (P Q : sst -> Prop) : (∀ st, P st -> ∃ r st', m st = Some (r, st') ∧ 0 <= r ∧ Q st') -> reads (on_stg m) [] P Q.
Proof. intros Hm st tbl post HP Hre. destruct (Hm st HP) as (r & st' & Hr & H0 & HQ). exists r, st', tbl. split_and!; [by apply on_stg_run|done|done|done]. Qed.

Lemma reads_fopt {A} (o : option A) (k : A -> FM Z) a bs P Q : o = Some a -> reads (k a) bs P Q -> reads (fbind (fopt o) k) bs P Q.
Proof. intros -> Hk st tbl post. unfold fopt, fbind. simpl. apply Hk. Qed.
End Reads.

(** ** What a file keeps *)
Definition attr_ok (t : inode_attr) : Prop :=
  in_u 16 (at_mode t) ∧ in_s 32 (at_size t) ∧ in_u 32 (at_uid t) ∧ in_u 32 (at_gid t) ∧ in_s 32 (at_atime t) ∧ in_s 32 (at_mtime t) ∧ in_s 32 (at_ctime t) ∧
  in_u 16 (at_nlink t) ∧ in_u 32 (at_blksize t) ∧ in_u 32 (at_blocks t) ∧ in_u 32 (at_version t) ∧ in_u 32 (at_nrpages t).

Definition special_ok (s : ovlfs_inode_special_t) : Prop :=
  in_u 32 (sp_parent_ino s) ∧ in_u 16 (sp_base_dev s) ∧ 0 <= sp_base_ino s < 2 ^ 31 ∧ in_u 16 (sp_stg_dev s) ∧ in_u 32 (sp_stg_ino s) ∧ in_s 32 (sp_flags s) ∧
  sp_len s < 2 ^ 31 ∧ name_there s.

Definition entry_ok (e : dirent_data) : Prop := let '(name, (ino, fl)) := e in name_ok name (Z.of_nat (length name)) ∧ in_u 32 ino ∧ in_s 32 fl.
Definition mapping_ok (m : map_data) : Prop := let '(dev, ino, o) := m in in_u 16 dev ∧ 0 <= ino < 2 ^ 31 ∧ in_u 32 o.

(** Every number is one of its field in the file; the attributes are valid exactly when
    there is a mode. The size of the mappings, which are skipped as a whole, is an
    unsigned int. *)
Definition node_ok (a : vnode) : Prop :=
  attr_ok (vn_attr a) ∧ in_s 32 (vn_u a) ∧ special_ok (vn_s a) ∧ vn_valid a = negb (at_mode (vn_attr a) =? 0) ∧ Forall entry_ok (map_to_list (names a)).
Definition storable (v : vfs) : Prop :=
  Forall node_ok (vf_nodes v) ∧ Forall mapping_ok (map_to_list (vf_base v)) ∧ Forall mapping_ok (map_to_list (vf_stg v)) ∧
  Z.of_nat (size (vf_base v)) < 2 ^ 28 ∧ Z.of_nat (size (vf_stg v)) < 2 ^ 28.

(** [kb] and [ks]: the numbers of the other file systems are kept. *)
Definition saved_special (kb ks : bool) (s : ovlfs_inode_special_t) : ovlfs_inode_special_t :=
  Special (sp_parent_ino s) (if kb then sp_base_dev s else NODEV) (if kb then sp_base_ino s else 0) (if ks then sp_stg_dev s else NODEV)
    (if ks then sp_stg_ino s else 0) (sp_flags s) (if 0 <? sp_len s then sp_name s else None) (Z.max 0 (sp_len s)).

(** Only a directory keeps its entries, only a device its number; a directory without
    entries has no list. *)
Definition saved_dir (a : vnode) : option dmap :=
  if S_ISDIR (at_mode (vn_attr a)) then if decide (names a = ∅) then None else Some (names a) else None.
Definition saved_node (kb ks : bool) (a : vnode) : vnode :=
  VNode (vn_attr a) (if is_device (at_mode (vn_attr a)) then vn_u a else 0) (vn_valid a) (saved_special kb ks (vn_s a)) (saved_dir a).

Definition kept_opt (opt ow or : Z) : bool := has ow opt && has or opt.

(** What is left of the storage [v], when it is written with the options [ow] and read
    with the options [or]. *)
Definition saved (ow or : Z) (v : vfs) : vfs :=
  let kb := kept_opt OVLFS_STORE_BASE_MAP ow or in
  let ks := kept_opt OVLFS_STORE_STG_MAP ow or in
  Vfs (saved_node kb ks <$> vf_nodes v) (if kb then vf_base v else ∅) (if ks then vf_stg v else ∅).

Lemma u32_id v : in_u 32 v -> u32 v = v.
Proof. apply Z.mod_small. Qed.
Lemma u16_id v : in_u 16 v -> u16 (u32 v) = v.
Proof. intros Hv. unfold in_u in Hv. rewrite u32_id by (unfold in_u; lia). by apply Z.mod_small. Qed.
Lemma s32_id v : in_s 32 v -> s32 (u32 v) = v.
Proof. intros Hv. unfold wrap, swrap. rewrite Zplus_mod_idemp_l. by apply (swrap_id 32 v). Qed.

Lemma flags_base ow : has (u32 (stg_flags_of ow)) OVL_STG_FLAG__BASE_MAPPINGS = has ow OVLFS_STORE_BASE_MAP.
Proof. unfold stg_flags_of. by destruct (has ow OVLFS_STORE_BASE_MAP), (has ow OVLFS_STORE_STG_MAP). Qed.
Lemma flags_stg ow : has (u32 (stg_flags_of ow)) OVL_STG_FLAG__STG_MAPPINGS = has ow OVLFS_STORE_STG_MAP.
Proof. unfold stg_flags_of. by destruct (has ow OVLFS_STORE_BASE_MAP), (has ow OVLFS_STORE_STG_MAP). Qed.

(** ** The inode that is being read *)
Definition agrees (i : ovlfs_inode_t) (a : anode) : Prop := oi_attr i = an_attr a ∧ oi_u i = an_u a ∧ oi_att_valid_f i = an_valid a ∧ oi_s i = an_s a.

Definition an_with (t : inode_attr) (u : Z) (v : bool) (s : ovlfs_inode_special_t) (a : anode) : anode := ANode t u v s (an_dir a) (an_last a).

Section Node.
Context {F : Type} `{HOps : !file_operations F, HReg : !regular_file F} (fd opts : Z) (ips : list Z) (fs : afs) (ip : Z).

(** The last inode is [a], at the address [ip]. *)
Definition here (n : Z) (a : anode) (st : sst) : Prop := opts_of st = opts ∧ ∃ W, fs_ok n st W (ips ++ [ip]) (set_nodes (af_nodes fs ++ [a]) fs).

Lemma here_inode n a st : here n a st -> ∃ W i, fs_ok n st W (ips ++ [ip]) (set_nodes (af_nodes fs ++ [a]) fs) ∧ (ips ++ [ip]) !! length (af_nodes fs) = Some ip ∧
  (af_nodes fs ++ [a]) !! length (af_nodes fs) = Some a ∧ get_inode (s_obj st) ip = Some i ∧ agrees i a ∧ inode_ok i ∧ ip ≠ 0.
Proof.
  intros (Ho & W & HF). assert (Ha : (af_nodes fs ++ [a]) !! length (af_nodes fs) = Some a) by (by apply list_lookup_middle).
  assert (Hl : length ips = length (af_nodes fs)) by (pose proof (fo_len _ _ _ _ _ HF) as E; simpl in E; rewrite !length_app in E; simpl in E; lia).
  assert (Hip : (ips ++ [ip]) !! length (af_nodes fs) = Some ip) by (by apply list_lookup_middle).
  destruct (node_at _ _ _ _ _ HF _ a Ha) as (q & i & Hq & Hi & _ & [(E1 & E2 & E3 & E4 & _) _ _]). assert (q = ip) as -> by congruence.
  destruct (inode_addr _ _ _ _ _ HF ip i Hi) as (_ & Hip0 & Hok & _). exists W, i. split_and!; done.
Qed.

Lemma last_insert (a a' : anode) : <[length (af_nodes fs) := a']> (af_nodes fs ++ [a]) = af_nodes fs ++ [a'].
Proof. rewrite insert_app_r_alt by lia. by rewrite Nat.sub_diag. Qed.

(** Storing into it. *)
Lemma reads_upd n f a t u v s (k : FM (F := F) Z) bs Q :
  (∀ i, agrees i a -> inode_ok i -> inode_ok (f i) ∧ same_dir i (f i) ∧ oi_attr (f i) = t ∧ oi_u (f i) = u ∧ oi_att_valid_f (f i) = v ∧ oi_s (f i) = s) ->
  reads fd k bs (here n (an_with t u v s a)) Q -> reads fd (fbind (on_stg (upd_inode ip f)) (λ _, k)) bs (here n a) Q.
Proof.
  intros Hf Hk. eapply (reads_stg _ _ _ tt); [|exact Hk]. intros st Hh. destruct (here_inode n a st Hh) as (W & i & HF & Hip & Ha & Hi & Hag & Hok & _).
  destruct (Hf i Hag Hok) as (Hok' & Hsd & <- & <- & <- & <-). rewrite (upd_inode_run ip st i f Hi). eexists. split; [done|]. split; [apply Hh|]. exists W.
  pose proof (set_inode_ok _ _ _ _ _ HF _ ip a i Hip Ha Hi (f i) Hok' Hsd) as HF'. simpl in HF'. by rewrite last_insert in HF'.
Qed.

Lemma reads_attr n g a v (k : FM (F := F) Z) bs Q : reads fd k bs (here n (an_with (g (u32 v) (an_attr a)) (an_u a) (an_valid a) (an_s a) a)) Q ->
  reads fd (read_attr (read_word fd 4) ip g k) (int_bytes v ++ bs) (here n a) Q.
Proof.
  intros Hk. apply reads_try. eapply reads_upd; [|exact Hk]. intros i (E1 & E2 & E3 & E4) Hok. simpl. by rewrite E1, E2, E3, E4.
Qed.

Lemma reads_special n f a (k : FM (F := F) Z) bs Q : (∀ i, oi_s i = an_s a -> inode_ok i -> inode_ok (oi_set_s f i)) ->
  reads fd k bs (here n (an_with (an_attr a) (an_u a) (an_valid a) (f (an_s a)) a)) Q -> reads fd (fbind (on_stg (upd_inode ip (oi_set_s f))) (λ _, k)) bs (here n a) Q.
Proof.
  intros Hok Hk. eapply reads_upd; [|exact Hk]. intros i (E1 & E2 & E3 & E4) Hi. split; [by apply Hok|]. simpl. by rewrite E1, E2, E3, E4.
Qed.

Lemma here_malloc n a st : here n a st -> ∃ r st', MALLOC st = Some (r, st') ∧ (∃ p, r = Some p) ∧ here n a st'.
Proof.
  intros (Ho & W & HF). destruct (MALLOC_spec st W (fo_stg _ _ _ _ _ HF)) as ([p|] & st' & Hm & Hobj & Hfr & HS & Hp); [|by destruct Hp; apply (fo_plenty _ _ _ _ _ HF)].
  exists (Some p), st'. split; [done|]. split; [by exists p|]. split; [by rewrite (opts_malloc _ _ _ Hm)|]. exists W. by eapply fs_ok_quiet.
Qed.

(** Memory is there. *)
Lemma reads_malloc n a (k : option Z -> FM (F := F) Z) bs Q : (∀ p, reads fd (k (Some p)) bs (here n a) Q) -> reads fd (fbind (on_stg MALLOC) k) bs (here n a) Q.
Proof.
  intros Hk. apply (reads_some _ _ _ _ _ (λ r st, (∃ p, r = Some p) ∧ here n a st)); [intros st Hh; by apply here_malloc|].
  intros r st tbl post [(p & ->) Hh]. by apply Hk.
Qed.

Lemma reads_sup n a (k : super_info -> FM (F := F) Z) bs Q : (∀ b, sb_storage_opts b = opts -> reads fd (k b) bs (here n a) Q) -> reads fd (fbind (on_stg sup) k) bs (here n a) Q.
Proof.
  intros Hk. apply (reads_some _ _ _ _ _ (λ b st, sb_storage_opts b = opts ∧ here n a st)).
  - intros st Hh. exists (s_sup st), st. split; [done|]. split; [apply Hh|done].
  - intros b st tbl post [Hb Hh]. by apply Hk.
Qed.

Lemma reads_pair n c use f dev num a (k : FM (F := F) Z) bs Q : in_u 16 dev -> in_u 32 num ->
  (∀ i, oi_s i = an_s a -> inode_ok i -> inode_ok (oi_set_s (f dev num) i)) ->
  reads fd k bs (here n (an_with (an_attr a) (an_u a) (an_valid a) (if c && use then f dev num (an_s a) else an_s a) a)) Q ->
  reads fd (read_pair c use fd ip f k) (pair_bytes c dev num ++ bs) (here n a) Q.
Proof.
  intros Hd Hn Hok Hk. unfold read_pair, pair_bytes. assert (Ea : a = an_with (an_attr a) (an_u a) (an_valid a) (an_s a) a) by by destruct a.
  destruct c; cbn [andb] in Hk; [|by rewrite <- Ea in Hk]. rewrite <- app_assoc. apply reads_try, reads_try. rewrite (u16_id dev Hd), (u32_id num Hn). destruct use.
  - by apply reads_special.
  - rewrite <- Ea in Hk. intros st tbl post. apply Hk.
Qed.

(** *** The special attributes *)
Lemma reads_spec n ow s a fl : special_ok s -> an_s a = sp_set_flags fl new_special ->
  reads fd (stg1_read_inode_spec (F := F) fd ip (u32 (stg_flags_of ow))) (spec_bytes ow s) (here n a)
    (here n (an_with (an_attr a) (an_u a) (an_valid a) (saved_special (kept_opt OVLFS_STORE_BASE_MAP ow opts) (kept_opt OVLFS_STORE_STG_MAP ow opts) s) a)).
Proof.
  intros (Hp & Hbd & Hbi & Hsd & Hsi & Hfl & Hlen & Hname) Hs. unfold stg1_read_inode_spec, spec_bytes. rewrite flags_base, flags_stg.
  apply reads_sup. intros b ->. apply reads_try. rewrite (u32_id _ Hp). apply reads_special; [done|]. apply reads_pair; [done|unfold in_u in *; lia| |].
  { intros i _ _. split; simpl; unfold in_u in *; lia. }
  apply reads_pair; [done|done|done|]. apply reads_try. rewrite (s32_id _ Hfl). apply reads_special; [done|]. apply reads_word.
  assert (El : s32 (u32 (Z.max 0 (sp_len s))) = Z.max 0 (sp_len s)) by (apply s32_id; unfold in_s; lia).
  change (4 <? 0) with false. cbv iota. eapply reads_fopt; [done|]. rewrite El. apply reads_special; [done|].
  destruct (Z.ltb_spec 0 (sp_len s)) as [Hl|Hl].
  - destruct (Hname Hl) as (nm & En & E). rewrite En. simpl default. rewrite (proj2 (Z.ltb_lt _ _)) by lia. apply reads_malloc. intros q.
    replace (Z.max 0 (sp_len s)) with (Z.of_nat (length nm)) by lia. rewrite <- (app_nil_r nm) at 2. apply reads_bytes.
    rewrite (proj2 (Z.ltb_ge _ _)) by lia. eapply reads_fopt; [apply mapM_Some|]. apply reads_special; [done|]. apply freads_ret; [lia|]. intros st.
    unfold an_with. simpl. rewrite Hs. unfold saved_special, kept_opt. rewrite (proj2 (Z.ltb_lt _ _) Hl), En. replace (Z.max 0 (sp_len s)) with (Z.of_nat (length nm)) by lia.
    by destruct (has ow OVLFS_STORE_BASE_MAP && _), (has ow OVLFS_STORE_STG_MAP && _).
  - rewrite (proj2 (Z.ltb_ge 0 _)) by lia. apply freads_ret; [lia|]. intros st.
    unfold an_with. simpl. rewrite Hs. unfold saved_special, kept_opt. rewrite (proj2 (Z.ltb_ge 0 (sp_len s))) by lia.
    by destruct (has ow OVLFS_STORE_BASE_MAP && _), (has ow OVLFS_STORE_STG_MAP && _).
Qed.

(** *** Entries *)
Lemma reads_there n a (m : FM (F := F) Z) bs Q : (ip ≠ 0 -> reads fd m bs (here n a) Q) -> reads fd m bs (here n a) Q.
Proof. intros Hm st tbl post Hh. destruct (here_inode n a st Hh) as (_ & _ & _ & _ & _ & _ & _ & _ & H0). by apply Hm. Qed.

Lemma reads_inode n a (k : ovlfs_inode_t -> FM (F := F) Z) bs Q : (∀ i, agrees i a -> reads fd (k i) bs (here n a) Q) -> reads fd (fbind (on_stg (inode_at ip)) k) bs (here n a) Q.
Proof.
  intros Hk. apply (reads_some _ _ _ _ _ (λ i st, agrees i a ∧ here n a st)).
  - intros st Hh. destruct (here_inode n a st Hh) as (W & i & _ & _ & _ & Hi & Hag & _). exists i, st. split; [by apply inode_at_run|done].
  - intros i st tbl post [Hag Hh]. by apply Hk.
Qed.

Lemma reads_name n a nm (K : Z * option (list Z) -> FM (F := F) Z) bs Q : (0 < length nm)%nat -> reads fd (K (Z.of_nat (length nm), Some nm)) bs (here n a) Q ->
  reads fd (fbind (read_name fd (Z.of_nat (length nm))) K) (nm ++ bs) (here n a) Q.
Proof.
  intros Hl HK st tbl post Hh (room & pre & Ha). rewrite <- app_assoc in Ha. unfold read_name. rewrite (proj2 (Z.ltb_lt _ _)) by lia.
  destruct (here_malloc n a st Hh) as (r & st1 & Hm & (p & ->) & Hh1). destruct (read_bytes_run st1 tbl fd room pre nm _ Ha) as (tbl' & Hr & Ha').
  unfold fbind at 1. rewrite (fbind_run _ _ _ _ _ _ _ (on_stg_run _ _ _ _ _ Hm)), (fbind_run _ _ _ _ _ _ _ Hr), Z.eqb_refl. unfold fopt, fbind at 1. rewrite mapM_Some. simpl option_map. cbv iota beta.
  unfold fret. apply HK; [done|]. by eexists _, _.
Qed.

Definition entry_of (e : dirent_data) (last : Z) : ovlfs_dir_info_t := DirInfo e.1 (Z.of_nat (length e.1)) e.2.1 e.2.2 last.
Definition add_entry (e : dirent_data) (a : anode) : anode := set_dir (Some (entry_of e (an_last a) :: entries a)) (an_last a + 1) a.

Lemma reads_dirent n a e : entry_ok e -> find_name e.1 (entries a) = None -> 1 <= n ->
  reads fd (read_dirent (F := F) fd ip) (entry_bytes e) (here n a) (here (n - 1) (add_entry e a)).
Proof.
  destruct e as [name [ino fl]]. intros (Hn & Hino & Hfl) Hnone Hn1. unfold read_dirent, entry_bytes. apply reads_try.
  assert (El : s32 (u32 (Z.of_nat (length name))) = Z.of_nat (length name)) by (apply s32_id; destruct Hn as (_ & ? & _); unfold in_s; lia). rewrite El.
  apply reads_name; [destruct Hn as (_ & ? & _); lia|]. rewrite (proj2 (Z.ltb_ge _ _)) by lia. apply reads_try. rewrite <- (app_nil_r (int_bytes fl)). apply reads_try.
  rewrite (u32_id _ Hino), (s32_id _ Hfl). apply reads_last. intros st Hh. destruct (here_inode n a st Hh) as (W & i & HF & Hip & Ha & Hi & _).
  destruct (add_absent n st W _ _ _ ip a i name (Z.of_nat (length name)) ino fl HF Hip Ha Hi Hn Hnone Hn1) as (st' & W' & Hr & HF').
  exists 0, st'. split_and!; [done|done|]. split; [by rewrite (opts_add _ _ _ _ _ _ _ _ Hr); apply Hh|]. exists W'. simpl in HF'. by rewrite last_insert in HF'.
Qed.

Fixpoint add_entries (es : list dirent_data) (a : anode) : anode :=
  match es with [] => a | e :: es' => add_entries es' (add_entry e a) end.

Lemma reads_dirents n a es ret : Forall entry_ok es -> NoDup (es.*1) -> Forall (λ e, find_name e.1 (entries a) = None) es -> 0 <= ret -> Z.of_nat (length es) <= n ->
  reads fd (read_dirents (F := F) (length es) fd ip ret) (concat (entry_bytes <$> es)) (here n a) (here (n - Z.of_nat (length es)) (add_entries es a)).
Proof.
  intros Hok. revert n a ret. induction Hok as [|e es He Hok IH]; intros n a ret Hnd Hnone Hret Hn; simpl length.
  - apply freads_ret; [done|]. intros st. by rewrite Z.sub_0_r.
  - simpl read_dirents. rewrite (proj2 (Z.leb_le 0 ret)), concat_cons by done. csimpl in Hnd. rewrite list.NoDup_cons in Hnd. destruct Hnd as [Hne Hnd]. apply list.Forall_cons in Hnone as [Hno Hnone].
    simpl length in Hn. eapply freads_bind; [apply reads_dirent; [done|done|lia]|]. intros r Hr. replace (n - Z.of_nat (S (length es))) with (n - 1 - Z.of_nat (length es)) by lia.
    simpl add_entries. apply IH; [done| |done|lia]. rewrite list.Forall_forall in Hnone |- *. intros x Hx. apply find_name_none. simpl. constructor.
    + simpl. intros E. apply Hne. rewrite E. by apply list_elem_of_fmap_2.
    + apply find_name_none. by apply Hnone.
Qed.

Lemma added_entries es a : dirent_pair <$> entries (add_entries es a) = reverse es ++ (dirent_pair <$> entries a).
Proof.
  revert a. induction es as [|e es IH]; intros a; [done|]. simpl add_entries. rewrite IH, reverse_cons, <- app_assoc. f_equal. simpl. f_equal. by destruct e as [? []].
Qed.
Lemma added_rest es a : an_attr (add_entries es a) = an_attr a ∧ an_u (add_entries es a) = an_u a ∧ an_valid (add_entries es a) = an_valid a ∧ an_s (add_entries es a) = an_s a.
Proof. revert a. induction es as [|e es IH]; intros a; [done|]. exact (IH (add_entry e a)). Qed.
Lemma added_dir es a : es ≠ [] -> an_dir (add_entries es a) = Some (entries (add_entries es a)).
Proof.
  assert (H : ∀ es a, is_Some (an_dir a) -> is_Some (an_dir (add_entries es a))) by (clear; induction es as [|e es IH]; intros a Ha; [done|]; apply IH; by eexists).
  destruct es as [|e es]; [done|]. intros _. simpl. unfold entries. destruct (H es (add_entry e a)) as [ds Hds]; [by eexists|]. by rewrite Hds.
Qed.

(** The same with the inode written out. *)
Lemma reads_attr_of n g t u vl s d l v (k : FM (F := F) Z) bs Q : reads fd k bs (here n (ANode (g (u32 v) t) u vl s d l)) Q ->
  reads fd (read_attr (read_word fd 4) ip g k) (int_bytes v ++ bs) (here n (ANode t u vl s d l)) Q.
Proof. intros Hk. by apply reads_attr. Qed.

(** The entries in any order are the directory. *)
Lemma added_view (es : list dirent_data) (a : anode) (d : dmap) : an_dir a = None -> es ≡ₚ map_to_list d -> dir_view <$> an_dir (add_entries es a) = if decide (d = ∅) then None else Some d.
Proof.
  intros Ha Hp. destruct (decide (es = [])) as [->|Hne].
  - simpl. rewrite Ha. symmetry in Hp. apply Permutation_nil_r, map_to_list_empty_iff in Hp as ->. by rewrite decide_True.
  - rewrite (added_dir es a Hne), decide_False; [|intros ->; rewrite map_to_list_empty in Hp; by apply Permutation_nil_r in Hp].
    simpl. f_equal. transitivity (list_to_map (M := dmap) (dirent_pair <$> entries (add_entries es a))); [done|]. rewrite added_entries. unfold entries at 1. rewrite Ha, app_nil_r.
    rewrite <- (list_to_map_to_list d). apply list_to_map_proper; [|by rewrite reverse_Permutation].
    rewrite reverse_Permutation, Hp. apply NoDup_fst_map_to_list.
Qed.

Lemma reads_det n v es a : an_attr a = vn_attr v -> an_u a = 0 -> an_dir a = None -> in_s 32 (vn_u v) -> es ≡ₚ map_to_list (names v) -> Forall entry_ok es ->
  Z.of_nat (length es) <= n ->
  reads fd (stg1_read_inode_det (F := F) fd ip) (det_bytes v es) (here n a) (λ st, ∃ a', here (n - Z.of_nat (length es)) a' st ∧
    view_node a' = VNode (an_attr a) (if is_device (at_mode (vn_attr v)) then vn_u v else 0) (an_valid a) (an_s a) (saved_dir v)).
Proof.
  intros Ea Eu Ed Hu Hp Hok Hn. apply reads_there. intros H0. unfold stg1_read_inode_det, det_bytes, saved_dir. rewrite (proj2 (Z.eqb_neq _ _) H0).
  apply reads_inode. intros i Hag. pose proof Hag as (E1 & E2 & E3 & E4). rewrite E1, Ea.
  assert (Hless : ∀ a' st, here n a' st -> here (n - Z.of_nat (length es)) a' st).
  { intros a' st (Ho & W & HF). split; [done|]. exists W. eapply fs_ok_less; [done|lia]. }
  destruct (is_device (at_mode (vn_attr v))) eqn:Edev.
  - assert (S_ISDIR (at_mode (vn_attr v)) = false) as ->.
    { unfold is_device, S_ISBLK, S_ISCHR in Edev. unfold S_ISDIR, S_IFDIR. apply Z.eqb_neq. apply orb_true_iff in Edev as [E%Z.eqb_eq|E%Z.eqb_eq]; rewrite E; done. }
    rewrite <- (app_nil_r (int_bytes _)). apply reads_word. change (4 <? 0) with false. cbv iota. eapply reads_fopt; [done|]. rewrite (s32_id _ Hu).
    eapply (reads_upd _ _ _ (vn_attr v) (vn_u v) (an_valid a) (an_s a)).
    { intros j (F1 & F2 & F3 & F4) Hj. simpl. rewrite F1, F3, F4, Ea. split_and!; try done. }
    apply freads_ret; [lia|]. intros st Hh. exists (an_with (vn_attr v) (vn_u v) (an_valid a) (an_s a) a). split; [by apply Hless|]. unfold view_node. simpl. by rewrite Ed.
  - destruct (S_ISDIR (at_mode (vn_attr v))).
    + apply reads_word. change (4 <? 0) with false. cbv iota. eapply reads_fopt; [done|].
      intros st tbl post Hh. destruct (here_inode n a st Hh) as (W & j & HF & _). assert (El : s32 (u32 (Z.of_nat (length es))) = Z.of_nat (length es)).
      { destruct (fo_room _ _ _ _ _ HF) as (_ & ? & _). apply s32_id. unfold in_s. lia. }
      clear W j HF. rewrite El, Nat2Z.id. revert st tbl post Hh.
      eapply reads_post; [apply (reads_dirents n a es 4); [done| | |lia|done]|].
      * rewrite Hp. apply NoDup_fst_map_to_list.
      * rewrite list.Forall_forall. intros x _. unfold entries. by rewrite Ed.
      * intros st Hh. exists (add_entries es a). split; [done|]. unfold view_node. destruct (added_rest es a) as (-> & -> & -> & ->). by rewrite (added_view es a (names v) Ed Hp), Eu, Ea.
    + apply freads_ret; [lia|]. intros st Hh. exists a. split; [by apply Hless|]. unfold view_node. by rewrite Ea, Eu, Ed.
Qed.

Lemma attr_built uid gid mode size at' mt ct nl bz bl ve nr t :
  at_set_nrpages nr (at_set_version ve (at_set_blocks bl (at_set_blksize bz (at_set_nlink nl (at_set_ctime ct (at_set_mtime mt (at_set_atime at'
    (at_set_size size (at_set_mode mode (at_set_gid gid (at_set_uid uid t))))))))))) =
  Attr (u16 mode) (s32 size) uid gid (s32 at') (s32 mt) (s32 ct) (u16 nl) bz bl ve nr.
Proof. reflexivity. Qed.

Definition new_anode : anode := ANode (Attr 0 0 0 0 0 0 0 0 0 0 0 0) 0 false new_special None 0.

Lemma reads_node n ow v es : node_ok v -> es ≡ₚ map_to_list (names v) -> Z.of_nat (length es) <= n ->
  reads fd (stg1_read_inode (F := F) fd ip (u32 (stg_flags_of ow))) (node_bytes ow v es) (here n new_anode)
    (λ st, ∃ a', here (n - Z.of_nat (length es)) a' st ∧ view_node a' = saved_node (kept_opt OVLFS_STORE_BASE_MAP ow opts) (kept_opt OVLFS_STORE_STG_MAP ow opts) v).
Proof.
  intros (Hat & Hu & Hs & Hv & Hes) Hp Hn. rewrite <- Hp in Hes. destruct Hat as (A1 & A2 & A3 & A4 & A5 & A6 & A7 & A8 & A9 & A10 & A11 & A12).
  apply reads_there. intros H0. unfold stg1_read_inode. rewrite (proj2 (Z.eqb_neq _ _) H0). cbv zeta. unfold node_bytes, node_body, node_words.
  assert (Hmode : u16 (u32 (if vn_valid v then at_mode (vn_attr v) else 0)) = at_mode (vn_attr v)).
  { destruct (vn_valid v); [by apply u16_id|]. symmetry in Hv. apply negb_false_iff, Z.eqb_eq in Hv. by rewrite Hv. }
  rewrite !concat_cons, <- !app_assoc. change (concat (int_bytes <$> [])) with (@nil Z). rewrite app_nil_l.
  apply reads_try, reads_try. eapply reads_special; [done|]. unfold an_with, new_anode. cbn [an_attr an_u an_valid an_s an_dir an_last]. do 3 apply reads_attr_of.
  match goal with |- reads _ _ _ (here _ (ANode ?t _ _ ?s _ _)) _ => eapply (reads_upd _ _ _ t 0 (vn_valid v) s) end.
  { intros i (E1 & E2 & E3 & E4) Hi. simpl in *. rewrite E1, E2, E4. split_and!; try done. simpl. by rewrite Hmode, Hv. }
  unfold an_with. cbn [an_dir an_last]. do 9 apply reads_attr_of.
  eapply reads_seq; [by eapply reads_spec|]. unfold an_with. cbn [an_attr an_u an_valid an_s an_dir an_last].
  match goal with |- reads _ _ _ (here _ (ANode ?t _ _ _ _ _)) _ => assert (Et : t = vn_attr v) end.
  { rewrite attr_built, Hmode, !s32_id, u16_id, !u32_id by done. by destruct (vn_attr v). }
  rewrite Et. eapply reads_post; [by apply (reads_det n v es)|].
  intros st (a' & Hh & Ev). exists a'. split; [done|]. by rewrite Ev.
Qed.
End Node.

(** ** What has been read so far *)
Section Load.
Context {F : Type} `{HOps : !file_operations F, HReg : !regular_file F} (fd opts ow : Z).
Abbreviation kb := (kept_opt OVLFS_STORE_BASE_MAP ow opts).
Abbreviation ks := (kept_opt OVLFS_STORE_STG_MAP ow opts).

Definition shows (ns : list vnode) (mp : other_fs -> list map_data) (fs : afs) : Prop :=
  view_node <$> af_nodes fs = ns ∧ ∀ f, map_triple <$> af_maps f fs = mp f.
Definition loaded (n : Z) (ns : list vnode) (mp : other_fs -> list map_data) (st : sst) : Prop :=
  opts_of st = opts ∧ ∃ W ips fs, fs_ok n st W ips fs ∧ shows ns mp fs.

Lemma stg_loaded_less n m ns mp st : loaded n ns mp st -> 0 <= m <= n -> loaded m ns mp st.
Proof. intros (Ho & W & ips & fs & HF & Hs) Hm. split; [done|]. exists W, ips, fs. split; [by eapply fs_ok_less|done]. Qed.

Lemma loaded_room n ns mp st : loaded n ns mp st -> 0 <= n < 2 ^ 28.
Proof. intros (_ & W & ips & fs & HF & _). destruct (fo_room _ _ _ _ _ HF) as (? & ? & _). lia. Qed.

(** What reading an inode needs. *)
Definition node_cost (a : vnode) : nat := S (size (names a)).

Lemma reads_inodes ns ess n done mp ret : Forall node_ok ns -> Forall2 (λ a es, es ≡ₚ map_to_list (names a)) ns ess -> Z.of_nat (sum_list_with node_cost ns) <= n -> 0 <= ret ->
  reads fd (read_inodes (F := F) (length ns) fd (u32 (stg_flags_of ow)) ret) (concat (zip_with (node_bytes ow) ns ess)) (loaded n done mp)
    (loaded (n - Z.of_nat (sum_list_with node_cost ns)) (done ++ (saved_node kb ks <$> ns)) mp).
Proof.
  intros Hok HF2. revert n done ret Hok. induction HF2 as [|a es ns ess Hes HF2 IH]; intros n dn ret Hok Hn Hret.
  { apply freads_ret; [done|]. intros st. simpl. by rewrite Z.sub_0_r, app_nil_r. }
  apply list.Forall_cons in Hok as [Ha Hok]. simpl read_inodes. simpl zip_with. simpl concat. simpl sum_list_with in *. assert (Hc : node_cost a = S (size (names a))) by done.
  assert (Hlen : length es = size (names a)) by (by rewrite Hes, length_map_to_list).
  intros st tbl post (Ho & W & ips & fs & HF & Hv & Hm) Hre. destruct (add_inode_run n st W ips fs HF) as (p & st1 & W1 & Hr & Hp0 & HF1); [lia|].
  rewrite (fbind_run _ _ _ _ _ _ _ (on_stg_run _ _ _ _ _ Hr)), (proj2 (Z.eqb_neq _ _) Hp0).
  assert (Hh : here opts ips fs p (n - 1) new_anode st1) by (split; [by rewrite (opts_add_inode _ _ _ Hr)|by exists W1]).
  eapply (reads_seq fd _ _ _ _ _ (loaded (n - 1 - Z.of_nat (length es)) (dn ++ [saved_node kb ks a]) mp)); [| |exact Hh|exact Hre].
  - eapply reads_post; [apply (reads_node fd opts ips fs p (n - 1) ow a es); [done|done|lia]|]. intros s (a' & (Ho' & W' & HF') & Ev). split; [done|]. eexists W', _, _. split; [exact HF'|].
    split; [simpl; rewrite fmap_app, Hv; simpl; by rewrite Ev|]. intros f. rewrite <- Hm. by destruct f.
  - eapply reads_post; [apply (IH _ (dn ++ [saved_node kb ks a]) 0); [done|lia|lia]|]. intros s Hl. csimpl. rewrite <- app_assoc in Hl. eapply stg_loaded_less; [exact Hl|].
    pose proof (loaded_room _ _ _ _ Hl). lia.
Qed.

(** *** Mappings *)
Section Maps.
Context (f : other_fs).

Definition mp_set (ms : list map_data) (mp : other_fs -> list map_data) : other_fs -> list map_data := λ g, if decide (g = f) then ms else mp g.

(** The list of the mappings is there, at [l]. *)
Definition with_list (l n : Z) (ns : list vnode) (mp : other_fs -> list map_data) (st : sst) : Prop :=
  opts_of st = opts ∧ ∃ W ips fs ps es, fs_ok n st W ips fs ∧ shows ns mp fs ∧ map_list_of f (s_sup st) = l ∧ l ≠ 0 ∧ W !! l = Some (ps, es) ∧ s_funcs st !! l = Some KMaps.

Lemma with_list_loaded l n ns mp st : with_list l n ns mp st -> loaded n ns mp st.
Proof. intros (Ho & W & ips & fs & ps & es & HF & Hs & _). split; [done|]. by exists W, ips, fs. Qed.

(** Memory for a mapping. *)
Lemma list_malloc l n ns mp st : with_list l n ns mp st ->
  ∃ x st', MALLOC st = Some (Some x, st') ∧ with_list l n ns mp st' ∧ 0 < x < km_next (ks_mem (s_k st')) ∧ s_obj st' !! x = None.
Proof.
  intros (Ho & W & ips & fs & ps & es & HF & Hs & El & Hl0 & HW & Hf).
  destruct (MALLOC_spec st W (fo_stg _ _ _ _ _ HF)) as ([x|] & st' & Hm & Hobj & Hfr & HS & Hp); [|by destruct Hp; apply (fo_plenty _ _ _ _ _ HF)].
  exists x, st'. rewrite Hobj. split; [done|]. split; [|done]. split; [by rewrite (opts_malloc _ _ _ Hm)|]. exists W, ips, fs, ps, es.
  rewrite (sf_sup _ _ Hfr). split_and!; try done; [by eapply fs_ok_quiet|]. eapply lookup_weaken; [done|apply Hfr].
Qed.

Lemma mp_set_add ns mp fs m : shows ns mp fs -> shows ns (mp_set (map_triple m :: mp f) mp) (set_maps f (m :: af_maps f fs) fs).
Proof.
  intros [Hn Hm]. split; [by destruct f|]. intros g. unfold mp_set. rewrite af_maps_set. destruct (decide (g = f)) as [->|]; [|apply Hm]. csimpl. by rewrite Hm.
Qed.

(** It is put into the list. *)
Lemma list_insert l n ns mp st x m : with_list l n ns mp st -> 0 < x < km_next (ks_mem (s_k st)) -> s_obj st !! x = None -> 1 <= n -> map_ok m ->
  map_key m ∉ (mp f).*1 ->
  ∃ st1 st2, put x (OMap m) st = Some (tt, st1) ∧ lcall (insert_into_list_sorted l x) st1 = Some (x, st2) ∧ with_list l (n - 1) ns (mp_set (map_triple m :: mp f) mp) st2.
Proof.
  intros (Ho & W & ips & fs & ps & es & HF & Hs & El & Hl0 & HW & Hf) Hx Hxo Hn1 Hok Hkey. set (st1 := set_objs st (<[x := OMap m]> (s_obj st))). exists st1.
  assert (HF1 : fs_ok n st1 W ips fs) by (by apply fs_ok_fresh).
  destruct (map_insert_run n st1 W ips fs f l ps es x m HF1 Hn1 El Hl0 HW Hf) as (st2 & W2 & Hr & Hsup & HF2 & ps2 & es2 & HW2 & Hf2).
  - apply (fresh_free st W); [apply (fo_stg _ _ _ _ _ HF)|done].
  - apply get_map_some. simpl. apply lookup_insert_eq.
  - apply find_map_none. rewrite list.Forall_forall. intros y Hy E. apply Hkey. destruct Hs as [_ Hm]. rewrite <- Hm, <- E, <- list_fmap_compose.
    change (map_key y) with ((fst ∘ map_triple) y). by apply list_elem_of_fmap_2.
  - exists st2. split; [done|]. split; [done|]. split; [unfold opts_of in *; by rewrite Hsup|]. eexists W2, ips, _, ps2, es2. rewrite Hsup. split_and!; [exact HF2|by apply mp_set_add|done..].
Qed.

Lemma reads_mapping l n ns mp m : mapping_ok m -> m.1 ∉ (mp f).*1 -> 1 <= n ->
  reads fd (read_mapping (F := F) fd l) (map_bytes m) (with_list l n ns mp) (with_list l (n - 1) ns (mp_set (m :: mp f) mp)).
Proof.
  destruct m as [[dev ino] o]. intros (Hd & Hi & Ho) Hkey Hn1. unfold read_mapping, map_bytes.
  apply (reads_some _ _ _ _ _ (λ r st, ∃ x, r = Some x ∧ with_list l n ns mp st ∧ 0 < x < km_next (ks_mem (s_k st)) ∧ s_obj st !! x = None)).
  { intros st Hst. destruct (list_malloc l n ns mp st Hst) as (x & st' & Hm & Hx). exists (Some x), st'. split; [done|]. by exists x. }
  intros r st tbl post (x & -> & Hx). revert st tbl post Hx.
  change (reads fd (with_read (read_word fd 4) (λ dev, with_read (read_word fd 4) (λ ino, fbind (read_word fd 4) (λ '(ret, o), if ret <? 0 then fret ret else fbind (fopt o) (λ ovl_ino,
    fbind (on_stg (put x (OMap (InoMap (u16 dev) ino ovl_ino)))) (λ _, fbind (on_stg (lcall (insert_into_list_sorted l x))) (λ e, if e =? 0 then fbind (on_stg (FREE x)) (λ _, fret (- ENOMEM)) else fret ret)))))))
    (int_bytes dev ++ int_bytes ino ++ int_bytes o) (λ st, with_list l n ns mp st ∧ 0 < x < km_next (ks_mem (s_k st)) ∧ s_obj st !! x = None) (with_list l (n - 1) ns (mp_set ((dev, ino, o) :: mp f) mp))).
  apply reads_try, reads_try. rewrite <- (app_nil_r (int_bytes o)). apply reads_word. change (4 <? 0) with false. cbv iota. eapply reads_fopt; [done|].
  rewrite (u16_id _ Hd), (u32_id _ Ho), u32_id by (unfold in_u; lia). intros st tbl post (Hst & Hx & Hxo) Hre.
  destruct (list_insert l n ns mp st x (InoMap dev ino o) Hst Hx Hxo Hn1) as (st1 & st2 & Hr1 & Hr2 & Hst2); [by split|done|].
  rewrite (fbind_run _ _ _ _ _ _ _ (on_stg_run _ _ _ _ _ Hr1)), (fbind_run _ _ _ _ _ _ _ (on_stg_run _ _ _ _ _ Hr2)), (proj2 (Z.eqb_neq x 0)) by lia.
  exists 4, st2, tbl. split_and!; [done|lia|done|done].
Qed.

Lemma reads_mappings l ms n ns mp ret : Forall mapping_ok ms -> NoDup (ms.*1) -> Forall (λ m, m.1 ∉ (mp f).*1) ms -> 0 <= ret -> Z.of_nat (length ms) <= n ->
  reads fd (read_mapping_loop (F := F) (length ms) fd l ret) (concat (map_bytes <$> ms)) (with_list l n ns mp) (loaded (n - Z.of_nat (length ms)) ns (mp_set (reverse ms ++ mp f) mp)).
Proof.
  intros Hok. revert n mp ret. induction Hok as [|m ms Hm Hok IH]; intros n mp ret Hnd Hno Hret Hn; simpl length.
  - apply freads_ret; [done|]. intros st Hst%with_list_loaded. rewrite Z.sub_0_r. destruct Hst as (Ho & W & ips & fs & HF & Hv & Hmp). split; [done|]. exists W, ips, fs. split; [done|].
    split; [done|]. intros g. rewrite Hmp. unfold mp_set. by destruct (decide (g = f)) as [->|].
  - csimpl in Hnd. rewrite list.NoDup_cons in Hnd. destruct Hnd as [Hne Hnd]. apply list.Forall_cons in Hno as [Hno1 Hno]. simpl read_mapping_loop. rewrite (proj2 (Z.leb_le 0 ret)), concat_cons by done.
    simpl length in Hn. eapply freads_bind; [apply reads_mapping; [done|done|lia]|]. intros r Hr. eapply reads_post; [apply IH; [done| |done|lia]|].
    + rewrite list.Forall_forall in Hno |- *. intros y Hy. unfold mp_set. rewrite decide_True by done. csimpl. rewrite not_elem_of_cons. split; [|by apply Hno].
      intros E. apply Hne. rewrite <- E. by apply list_elem_of_fmap_2.
    + intros st (Ho & W & ips & fs & HF & Hv & Hmp). split; [done|]. exists W, ips, fs. split; [by replace (n - Z.of_nat (S (length ms))) with (n - 1 - Z.of_nat (length ms)) by lia|].
      split; [done|]. intros g. rewrite Hmp. unfold mp_set. destruct (decide (g = f)) as [->|]; [|done]. rewrite decide_True by done. by rewrite reverse_cons, <- app_assoc.
Qed.

(** The list is made, unless the mappings are skipped. *)
Lemma reads_maps ms n ns mp skip : Forall mapping_ok ms -> NoDup (ms.*1) -> mp f = [] -> Z.of_nat (length ms) <= n -> Z.of_nat (length ms) < 2 ^ 28 ->
  reads fd (ovlfs_read_mappings (F := F) fd f skip) (maps_bytes ms) (loaded n ns mp)
    (loaded (n - Z.of_nat (length ms)) ns (mp_set (if skip then [] else reverse ms) mp)).
Proof.
  intros Hok Hnd Hmp Hn Hfew. unfold ovlfs_read_mappings, maps_bytes. apply reads_word. change (4 <? 0) with false. cbv iota. eapply reads_fopt; [done|].
  intros st tbl post Hst. pose proof (loaded_room _ _ _ _ Hst) as Hroom. rewrite (s32_id (Z.of_nat (length ms))) by (unfold in_s; lia). revert st tbl post Hst.
  assert (Hnone : ∀ st, loaded n ns mp st -> loaded (n - Z.of_nat (length ms)) ns (mp_set [] mp) st).
  { intros st (Ho & W & ips & fs & HF & Hv & Hm). split; [done|]. exists W, ips, fs. split; [eapply fs_ok_less; [done|lia]|]. split; [done|]. intros g. rewrite Hm. unfold mp_set.
    by destruct (decide (g = f)) as [->|]. }
  destruct (Z.ltb_spec 0 (Z.of_nat (length ms))) as [Hlt|Hge].
  2: { destruct ms as [|]; [|simpl in Hge; lia]. apply freads_ret; [lia|]. intros st Hst%Hnone. by destruct skip. }
  destruct skip.
  - intros st tbl post Hst (room & pre & Ha). destruct (seek_cur_run tbl fd room pre _ post Ha) as (tbl' & Hs & Ha'). pose proof (length_maps ms) as Hl. unfold maps_bytes in Hl. rewrite length_app, length_int in Hl.
    assert (Hl' : Z.of_nat (length (concat (map_bytes <$> ms))) = u32 (sizeof_int * 3 * Z.of_nat (length ms))).
    { rewrite u32_id; unfold sizeof_int, in_u; lia. }
    rewrite Hl' in Hs. change FILE_IO__SEEK_CUR with 1 in Hs. exists 4, st, tbl'. unfold on_tbl, fbind. rewrite Hs. split; [by rewrite (proj2 (Z.eqb_neq _ (-1))) by lia|]. split_and!; [lia|by apply Hnone|by exists room, (pre ++ concat (map_bytes <$> ms))].
  - apply (reads_some _ _ _ _ _ (λ l st, l ≠ 0 ∧ with_list l n ns mp st)).
    + intros st (Ho & W & ips & fs & HF & Hv). destruct (need_map_run n st W ips fs f HF) as (l & st' & W' & ps & es & Hr & _ & _ & HF' & El & Hl0 & HW' & Hf' & _).
      exists l, st'. split; [done|]. split; [done|]. split; [by rewrite (opts_need f _ _ _ Hr)|]. by exists W', ips, fs, ps, es.
    + intros l st tbl post [Hl0 Hst] Hre. rewrite (proj2 (Z.eqb_neq _ _) Hl0), Nat2Z.id. pose proof (reads_mappings l ms n ns mp 4 Hok Hnd) as H. rewrite Hmp, app_nil_r in H.
      apply H; [|lia|done|done|done]. rewrite list.Forall_forall. intros m _. apply not_elem_of_nil.
Qed.
End Maps.
End Load.
