(* ===== verification/StgRound.v ===== *)
(** The storage file of the overlay file system: what is written is what is read. *)
From S2P Require Import Prelude KList KListSort KListInv KListOps KListIdx KListThm KListDup KListKeep Stg FileIo StgFile StgOrd StgInv StgList StgStep StgSpec StgView StgDir StgEnt StgNode StgMap StgThm StgRefine StgFmt StgWrite StgRead.
Open Scope Z_scope.

(** The objects reading needs room for. *)
Definition objects (v : vfs) : Z := Z.of_nat (sum_list_with node_cost (vf_nodes v) + size (vf_base v) + size (vf_stg v)).

Section Super.
Context {F : Type} `{HOps : !file_operations F, HReg : !regular_file F} (fd opts ow : Z).

Lemma reads_magic (K : Z * option Z -> FM (F := F) Z) v bs P Q : reads fd (K (4, Some (u32 v))) bs P Q ->
  reads fd (fbind (stg1_read_magic fd) K) (MAGIC_WORD_V4 ++ int_bytes v ++ bs) P Q.
Proof.
  intros HK st tbl post HP (room & pre & Ha). rewrite <- app_assoc in Ha. destruct (read_bytes_run st tbl fd room pre MAGIC_WORD_V4 _ Ha) as (tbl1 & Hr1 & Ha1).
  rewrite <- app_assoc in Ha1. destruct (read_word_run st tbl1 fd room _ v _ Ha1) as (tbl2 & Hr2 & Ha2).
  unfold fbind at 1, stg1_read_magic. change MAGIC_WORD_LEN with (Z.of_nat (length MAGIC_WORD_V4)). rewrite (fbind_run _ _ _ _ _ _ _ Hr1).
  rewrite (proj2 (Z.ltb_ge _ 0)) by lia. unfold fopt, fbind at 1. rewrite mapM_Some. cbn [option_map]. rewrite bool_decide_eq_true_2 by done.
  unfold read_integer, sizeof_int. rewrite Hr2. apply HK; [done|]. by eexists _, _.
Qed.

Lemma stored_ok (opt : Z) (mp : gmap (Z * Z) Z) (ms : list map_data) : ms ≡ₚ stored ow opt mp -> Forall mapping_ok (map_to_list mp) ->
  Forall mapping_ok ms ∧ NoDup (ms.*1) ∧ (length ms <= size mp)%nat.
Proof.
  intros Hp Hok. unfold stored in Hp. destruct (has ow opt).
  - split_and!; [by rewrite Hp|rewrite Hp; apply NoDup_fst_map_to_list|by rewrite (Permutation_length Hp), length_map_to_list].
  - apply Permutation_nil_r in Hp as ->. split_and!; [constructor|constructor|simpl; lia].
Qed.

Lemma reads_block n ns mp (k : super_info -> FM (F := F) Z) bs Q :
  (∀ b, sb_magic b = OVLFS_SUPER_MAGIC -> sb_storage_opts b = opts -> reads fd (k b) bs (loaded opts n ns mp) Q) -> reads fd (fbind (on_stg sup) k) bs (loaded opts n ns mp) Q.
Proof.
  intros Hk. apply (reads_some _ _ _ _ _ (λ b st, sb_magic b = OVLFS_SUPER_MAGIC ∧ sb_storage_opts b = opts ∧ loaded opts n ns mp st)).
  - intros st Hst. pose proof Hst as (Ho & W & ips & fs & HF & _). exists (s_sup st), st. split; [done|]. split; [apply (fo_magic _ _ _ _ _ HF)|done].
  - intros b st tbl post (Em & Eo & Hst). by apply Hk.
Qed.

(** What is loaded of the mappings. *)
Definition loaded_map (opt : Z) (ms : list map_data) : list map_data := if negb (has opts opt) then [] else reverse ms.

Lemma reads_super n v ess base stg : storable v -> Forall2 (λ a es, es ≡ₚ map_to_list (names a)) (vf_nodes v) ess ->
  base ≡ₚ stored ow OVLFS_STORE_BASE_MAP (vf_base v) -> stg ≡ₚ stored ow OVLFS_STORE_STG_MAP (vf_stg v) -> 0 <= n ->
  reads fd (read_super_body (F := F) fd) (image ow (vf_nodes v) ess base stg) (loaded opts (n + objects v) [] (λ _, []))
    (loaded opts n (vf_nodes (saved ow opts v)) (mp_set FsStg (loaded_map OVLFS_STORE_STG_MAP stg) (mp_set FsBase (loaded_map OVLFS_STORE_BASE_MAP base) (λ _, [])))).
Proof.
  intros (Hns & Hb & Hs & Hfb & Hfs) Hess Hbase Hstg Hn. destruct (stored_ok _ _ _ Hbase Hb) as (Hbok & Hbnd & Hbl). destruct (stored_ok _ _ _ Hstg Hs) as (Hsok & Hsnd & Hsl).
  unfold read_super_body, image. set (N := n + objects v). apply reads_block. intros b Em Eo. rewrite Em, Eo.
  apply reads_word. eapply reads_fopt; [done|]. change (negb (u32 OVLFS_SUPER_MAGIC =? OVLFS_SUPER_MAGIC)) with false. cbv iota.
  apply reads_magic. change (4 <? 0) with false. cbv iota. eapply reads_fopt; [done|]. apply reads_word. eapply reads_fopt; [done|].
  intros st tbl post Hst. pose proof (loaded_room _ _ _ _ _ Hst) as Hroom. assert (Hlen : (length (vf_nodes v) <= sum_list_with node_cost (vf_nodes v))%nat).
  { clear. induction (vf_nodes v) as [|a l IH]; [done|]. assert (Hc : (1 <= node_cost a)%nat) by (unfold node_cost; lia). simpl. lia. }
  unfold N, objects in Hroom. rewrite s32_id by (unfold in_s; lia). rewrite Nat2Z.id. revert st tbl post Hst. clear Hroom.
  eapply reads_seq; [apply (reads_inodes fd opts ow _ ess N [] _ 0); [done|done|unfold N, objects; lia|lia]|].
  eapply reads_seq; [apply (reads_maps fd opts FsBase base); [done|done|done|unfold N, objects; lia|lia]|].
  eapply reads_post; [apply (reads_maps fd opts FsStg stg); [done|done|done|unfold N, objects; lia|lia]|].
  intros st Hst. eapply stg_loaded_less; [exact Hst|]. unfold N, objects. lia.
Qed.
End Super.

(** ** Opening and closing *)
Section File.
Context {F : Type} `{HOps : !file_operations F, HReg : !regular_file F}.

Lemma open_run st (tbl : fio_tbl F) f : length tbl = FIO_MAX_FILE -> is_Some (free_entry tbl 0) -> f_pos f = 0%nat ->
  ∃ fd tbl', open_stg_file (ByInode (inl f)) st tbl = Some (fd, st, tbl') ∧ 0 <= fd ∧ at_file tbl' fd (f_room f) [] (f_data f).
Proof.
  intros Hl [slot Hs] Hp. destruct (free_entry_spec tbl 0 slot Hs) as (Hr & _). unfold open_stg_file, file_dup_filp. rewrite Hs. cbn [mbind option_bind].
  rewrite (proj2 (Nat.ltb_lt _ _)) by lia. eexists _, _. split; [reflexivity|]. split; [lia|]. split; [by rewrite length_insert|]. exists f.
  split; [|done]. unfold file_at, fio_get. rewrite (proj2 (Z.ltb_ge _ _)), (proj2 (Z.leb_gt _ _)) by lia. cbn [orb]. rewrite Nat2Z.id, list_lookup_insert_eq by lia. done.
Qed.

Lemma close_run st (tbl : fio_tbl F) fd room pre post : at_file tbl fd room pre post ->
  ∃ f tbl', close_file fd st tbl = Some (Some f, st, tbl') ∧ f_data f = pre ++ post.
Proof.
  intros (_ & f & Hf & Hd & _). destruct (file_at_get tbl fd f Hf) as (e & He & Hfe). unfold close_file, on_tbl, file_close. rewrite He, Hfe. eexists f, _. by split.
Qed.

(** Writing and reading a whole file. *)
Lemma write_run n st v (tbl : fio_tbl F) f : represents n st v -> storable v -> length tbl = FIO_MAX_FILE -> is_Some (free_entry tbl 0) -> f_pos f = 0%nat ->
  (file_size (opts_of st) v <= f_room f)%nat ->
  ∃ ret st1 tbl1 f1 bs, ovlfs_stg1_write_super (ByInode (inl f)) st tbl = Some ((ret, Some f1), st1, tbl1) ∧ 0 <= ret ∧ represents n st1 v ∧
    storage_file (opts_of st) v bs ∧ f_data f1 = bs ++ drop (length bs) (f_data f).
Proof.
  intros (W & ips & fs & HF & <-) Hst Hl Hfree Hp Hroom. destruct (open_run st tbl f Hl Hfree Hp) as (fd & tbl0 & Ho & Hfd & Ha).
  assert (Hn : Forall (λ a, name_there (an_s a)) (af_nodes fs)).
  { destruct Hst as (Hns & _). simpl in Hns. rewrite list.Forall_fmap in Hns. eapply Forall_impl; [|exact Hns]. intros a (_ & _ & (_ & _ & _ & _ & _ & _ & _ & H) & _). exact H. }
  assert (HJ : inv n W ips fs (s_obj st) (s_sup st) st) by done.
  destruct (wrt_super fd (f_room f) n W ips fs _ _ st HJ Hn st tbl0 [] (f_data f) HJ Ha) as (r & st1 & tbl1 & bs & Hw & Hr & HJ1 & Hlen & Hfmt & Ha1); [exact Hroom|].
  destruct (close_run st1 tbl1 fd _ _ _ Ha1) as (f1 & tbl2 & Hc & Hd). exists r, st1, tbl2, f1, bs. unfold ovlfs_stg1_write_super.
  rewrite (fbind_run _ _ _ _ _ _ _ Ho), (proj2 (Z.ltb_ge _ _)), (fbind_run _ _ _ _ _ _ _ Hw), (fbind_run _ _ _ _ _ _ _ Hc) by done.
  split_and!; [done|done|exists W, ips, fs; split; [apply HJ1|done]|done|]. by rewrite Hd, Hlen.
Qed.

Lemma empty_loaded n st : represents n st (Vfs [] ∅ ∅) -> loaded (opts_of st) n [] (λ _, []) st.
Proof.
  intros (W & ips & fs & HF & Hv). split; [done|]. exists W, ips, fs. split; [done|]. injection Hv as H1 H2 H3. split; [done|].
  assert (Hm : ∀ ms, map_view ms = ∅ -> map_triple <$> ms = []).
  { intros [|m ms] E; [done|]. exfalso. unfold map_view in E. rewrite view_cons in E. by apply insert_non_empty in E. }
  intros [|]; simpl; by apply Hm.
Qed.

Lemma kept_map (opt ow or : Z) (mp : gmap (Z * Z) Z) (ms : list map_data) (l : list ovlfs_ino_map_t) : ms ≡ₚ stored ow opt mp -> map_triple <$> l = loaded_map or opt ms ->
  map_view l = if kept_opt opt ow or then mp else ∅.
Proof.
  intros Hp Hl. transitivity (list_to_map (M := gmap (Z * Z) Z) (map_triple <$> l)); [done|]. rewrite Hl. unfold loaded_map, kept_opt, stored in *. destruct (has or opt), (has ow opt); cbn [negb andb]; try done.
  - rewrite <- (list_to_map_to_list mp). apply list_to_map_proper; [|by rewrite reverse_Permutation]. rewrite reverse_Permutation, Hp. apply NoDup_fst_map_to_list.
  - apply Permutation_nil_r in Hp as ->. done.
Qed.

Lemma read_run n st ow v bs rest (tbl : fio_tbl F) f : represents (n + objects v) st (Vfs [] ∅ ∅) -> 0 <= n -> storable v -> storage_file ow v bs ->
  f_data f = bs ++ rest -> f_pos f = 0%nat -> length tbl = FIO_MAX_FILE -> is_Some (free_entry tbl 0) ->
  ∃ ret st1 tbl1, stg1_read_super (ByInode (inl f)) st tbl = Some (ret, st1, tbl1) ∧ 0 <= ret ∧ represents n st1 (saved ow (opts_of st) v).
Proof.
  intros Hrep Hn Hst (ess & base & stg & Hess & Hbase & Hstg & Ebs) Hd Hp Hl Hfree. destruct (open_run st tbl f Hl Hfree Hp) as (fd & tbl0 & Ho & Hfd & Ha).
  assert (Hlen : (0 < length (f_data f))%nat) by (rewrite Hd, Ebs; unfold image; rewrite !length_app, length_int; lia).
  assert (Hemp : ∃ tbl', is_empty fd st tbl0 = Some (false, st, tbl') ∧ at_file tbl' fd (f_room f) [] (f_data f)).
  { destruct (seek_cur_run tbl0 fd _ [] [] _ Ha) as (tbl1 & Hs1 & Ha1). destruct (seek_end_run tbl1 fd _ _ _ Ha1) as (tbl2 & Hs2 & Ha2).
    destruct (seek_set_run tbl2 fd _ _ _ [] (f_data f) Ha2) as (tbl3 & Hs3 & Ha3); [by rewrite app_nil_r|]. exists tbl3. split; [|done].
    change (file_lseek fd 0 1 tbl0 = (0, tbl1)) in Hs1. change (file_lseek fd 0 2 tbl1 = (Z.of_nat (length (f_data f)), tbl2)) in Hs2.
    change (file_lseek fd 0 0 tbl2 = (0, tbl3)) in Hs3. unfold is_empty, on_tbl, fbind. rewrite Hs1. cbv beta iota. change (negb (0 =? 0)) with false. cbv beta iota. rewrite Hs2. cbv beta iota. rewrite Hs3. cbv beta iota.
    unfold fret. by rewrite (proj2 (Z.eqb_neq _ 0)) by lia. }
  destruct Hemp as (tbl1 & He & Ha1). rewrite Hd, Ebs in Ha1.
  destruct (reads_super fd (opts_of st) ow n v ess base stg Hst Hess Hbase Hstg Hn st tbl1 rest (empty_loaded _ _ Hrep)) as (r & st2 & tbl2 & Hr & Hr0 & Hld & Hre).
  { by exists (f_room f), []. }
  destruct Hre as (room2 & pre2 & Ha2). destruct (close_run st2 tbl2 fd _ _ _ Ha2) as (f1 & tbl3 & Hc & _). exists r, st2, tbl3. unfold stg1_read_super.
  rewrite (fbind_run _ _ _ _ _ _ _ Ho), (proj2 (Z.ltb_ge _ _)) by done. cbn [andb].
  rewrite (fbind_run _ _ _ _ _ _ _ He), (fbind_run _ _ _ _ _ _ _ Hr), (fbind_run _ _ _ _ _ _ _ Hc). split; [done|]. split; [done|].
  destruct Hld as (_ & W & ips & fs & HF & Hv & Hm). exists W, ips, fs. split; [done|]. unfold view. rewrite Hv. unfold saved. f_equal.
  - eapply kept_map; [exact Hbase|]. exact (Hm FsBase).
  - eapply kept_map; [exact Hstg|]. exact (Hm FsStg).
Qed.
End File.

(** C15.  A storage that is written to a file and read again, from the same or another
    mount, is the storage that was written.  The write returns a success code, leaves the
    storage as it was, and the file begins with the image that the format prescribes:
    the magic numbers, the version, and for each inode its attributes, its entries and the
    numbers of the other file systems, then the mappings; what was in the file beyond it
    stays. The read of any file with that content into an empty storage returns a success
    code, and the storage then has the same inodes under the same numbers, the same
    entries of directories, and, where the storage options of both mounts include them,
    the same mappings.  The conditions: every number is in the range of its field, names
    are not empty, there are fewer than 2^28 mappings of each kind, the attributes of an
    inode are valid exactly when it has a mode ([storable]; otherwise the file is not read
    as it was written), allocations are granted, the table of open files has a free
    entry, and the file is a regular file ([regular_file]) at its start with room for all
    of it, whose reads and writes are complete (the code does not cope with parts).  An
    int and a long have four bytes. *)
Theorem storage_file_roundtrip {F} `{HOps : !file_operations F, HReg : !regular_file F} n st v (tbl : fio_tbl F) f :
  represents n st v -> storable v -> length tbl = FIO_MAX_FILE -> is_Some (free_entry tbl 0) -> f_pos f = 0%nat ->
  (file_size (opts_of st) v <= f_room f)%nat ->
  ∃ ret st1 tbl1 f1 bs, ovlfs_stg1_write_super (ByInode (inl f)) st tbl = Some ((ret, Some f1), st1, tbl1) ∧ 0 <= ret ∧ represents n st1 v ∧
    storage_file (opts_of st) v bs ∧ f_data f1 = bs ++ drop (length bs) (f_data f) ∧
    ∀ m st2 tbl2 f2, represents (m + objects v) st2 (Vfs [] ∅ ∅) -> 0 <= m -> length tbl2 = FIO_MAX_FILE -> is_Some (free_entry tbl2 0) ->
      f_data f2 = f_data f1 -> f_pos f2 = 0%nat ->
      ∃ ret2 st3 tbl3, stg1_read_super (ByInode (inl f2)) st2 tbl2 = Some (ret2, st3, tbl3) ∧ 0 <= ret2 ∧
        represents m st3 (saved (opts_of st) (opts_of st2) v).
Proof.
  intros HR Hst Hl Hfree Hp Hroom. destruct (write_run n st v tbl f HR Hst Hl Hfree Hp Hroom) as (ret & st1 & tbl1 & f1 & bs & Hw & Hret & HR1 & Hfmt & Hd).
  exists ret, st1, tbl1, f1, bs. split_and!; [done|done|done|done|done|]. intros m st2 tbl2 f2 HE Hm Hl2 Hfree2 Hd2 Hp2.
  eapply read_run; [exact HE|exact Hm|exact Hst|exact Hfmt|by rewrite Hd2|exact Hp2|exact Hl2|exact Hfree2].
Qed.

(** A directory with one file in it, which is also a file of the base file system. *)
Lemma storage_file_roundtrip_witness :
  let st0 := empty_storage (KMem ∅ ∅ 16 0 (λ _, true) (λ _, true) 0) 24 10 20 in
  let os := [OpAddInode 0 None 0 0; OpUpdInode (VInode 1 (Attr 16877 42 0 0 1 2 3 2 512 1 0 0) 0 None);
             OpAddInode 1 (Some [97]) 1 0; OpUpdInode (VInode 2 (Attr 33188 7 0 0 1 2 3 1 512 1 0 0) 0 None);
             OpAddDirent 1 [97] 1 2; OpMapInode 2 5 7 98] in
  let v := snd (spec_sops os (Vfs [] ∅ ∅)) in
  ∃ st ret st1 tbl1 f1 ret2 st3 tbl3, run_sops os st0 = Some (fst (spec_sops os (Vfs [] ∅ ∅)), st) ∧
    ovlfs_stg1_write_super (ByInode (inl (MemFile [] 0 1000))) st (FIO_file_tbl (F := memfile)) = Some ((ret, Some f1), st1, tbl1) ∧
    stg1_read_super (ByInode (inl (MemFile (mf_data f1) 0 1000))) st0 (FIO_file_tbl (F := memfile)) = Some (ret2, st3, tbl3) ∧
    0 <= ret ∧ 0 <= ret2 ∧ represents 5 st3 v.
Proof.
  intros st0 os v. assert (He : ∀ n, 0 <= n < 2 ^ 28 -> represents n st0 (Vfs [] ∅ ∅)).
  { intros n Hn. apply empty_represents; [split; [simpl; lia|done]|done|done|lia|lia]. }
  destruct (sops_run os 0 st0 (Vfs [] ∅ ∅)) as (st & Hr & HR); [apply He; simpl; lia|lia|unfold os; repeat constructor; simpl; unfold name_char; try lia|constructor|].
  fold v in HR.
  assert (Ho : opts_of st = 24).
  { assert (Ho : option_map (opts_of ∘ snd) (run_sops os st0) = Some 24) by (vm_compute; reflexivity). rewrite Hr in Ho. by injection Ho. }
  assert (Hst : storable v).
  { let ns := eval vm_compute in (vf_nodes v) in assert (Hns : vf_nodes v = ns) by (vm_compute; reflexivity).
    assert (Hb : map_to_list (vf_base v) = [(5, 7, 2)]) by (vm_compute; reflexivity). assert (Hs : map_to_list (vf_stg v) = []) by (vm_compute; reflexivity).
    unfold storable. rewrite <- !length_map_to_list, Hb, Hs, Hns. clearbody v. unfold node_ok, attr_ok, special_ok, mapping_ok, name_there, in_u, in_s.
    split; [|split; [|split; [|split]]]; [|apply list.Forall_singleton; lia|constructor|cbn [length]; lia|cbn [length]; lia].
    constructor; [|constructor; [|constructor]]; cbn; repeat match goal with |- _ ∧ _ => split end; try lia; try reflexivity.
    - match goal with |- Forall _ (match ?d with _ => _ end _) => change d with (Some [97]) end. apply list.Forall_singleton.
      split; [|unfold in_u, in_s; lia]. split; [reflexivity|]. split; [cbn; lia|]. apply list.Forall_singleton. unfold name_char. lia.
    - intros _. exists [97]. split; reflexivity.
    - rewrite map_to_list_empty. constructor. }
  destruct (storage_file_roundtrip 0 st v (FIO_file_tbl (F := memfile)) (MemFile [] 0 1000) HR Hst) as (ret & st1 & tbl1 & f1 & bs & Hw & Hret & _ & _ & _ & Hread);
    [done|by eexists|done|rewrite Ho; vm_compute; lia|].
  destruct (Hread 5 st0 (FIO_file_tbl (F := memfile)) (MemFile (mf_data f1) 0 1000)) as (ret2 & st3 & tbl3 & Hr2 & Hret2 & HR3); [apply He; vm_compute; by split|done|done|by eexists|done|done|].
  exists st, ret, st1, tbl1, f1, ret2, st3, tbl3. rewrite Ho in HR3.
  assert (Hs : saved 24 24 v = v) by (vm_compute; reflexivity).
  split_and!; [exact Hr|exact Hw|exact Hr2|exact Hret|exact Hret2|by rewrite <- Hs].
Defined.
